(* ===== verification/_CoqProject ===== *)
-Q . S2P
Prelude.v
Types.v
Wire.v
XXHash.v
Page.v
LruK.v
BufferPool.v
ColumnPage.v
ColumnFile.v
IndexFile.v
BTreeNode.v
BTreeLayout.v
BTree.v
BTreeInsert.v
BTreeIndex.v
BTreeScan.v
BTreeBulk.v
BTreeReopen.v
BTreeSpec.v
Codec.v
Wal.v
SchemaFile.v
ConstraintFile.v
ShardMapFile.v
ShardMap.v
Table.v
SelectionVector.v
ColumnVector.v
Chunk.v
Expression.v
Operator.v
TableScan.v
ScanRanges.v
ScanRead.v
ScanStream.v
ScanOpen.v
IndexScan.v
Buffered.v
Sort.v
Probing.v
JoinLoop.v
HashJoin.v
NestedLoopJoin.v
HashAggregate.v
Aggregation.v
AggregateStream.v
Lexer.v
LexerSpec.v
Ast.v
Literals.v
Dates.v
Parser.v
ParserTotal.v
SqlPrint.v
ParserRoundTrip.v
Bound.v
Binder.v
Planner.v
Frontend.v
BinderTypes.v
PlanTypes.v
PlanIndex.v
Catalog.v
CatalogRecovery.v
CatalogLog.v
Runner.v
Election.v
Cluster.v
ClusterRuns.v
