(* ===== verification/Prelude.v ===== *)
(** * nyxdb: verification library (root)

    nyxdb is a columnar SQL database in C++.  A statement goes through lexer, parser, binder
    and planner to vectorised operators, which read tables through the catalog.  A table is a
    directory of sealed segments and a write buffer; each has one column file per column; a
    column file is a sequence of checksummed 8 KiB pages read through a buffer pool with LRU-K
    replacement; an index is a B+ tree over such pages.  Inserts, deletes and updates are first
    logged in a write-ahead log.  Small metadata files hold schema, constraints and the shard
    map, and a coordinator routes rows and queries to shards over a binary wire format.
    Replicated nodes elect a leader.  This library models the way of a statement from its text
    to the plan, the vectors, expressions and operators of the executor with the scans that feed
    them, the storage engine from the bytes of a page up to the table and the index, the log, the
    metadata files, shard routing, the frame format, and leader election.

    ** Files and the code they model (paths under src/src/)

    Shared:
    - Prelude (this file): [Result] of common/result.h, w-bit wrap-around, little-endian
      bytes, byte lists with C++ index semantics, bitmaps, and the tactics, hints and generic
      lemmas of the other files.
    - Types: [TypeId], [Value], [Column], [Schema] of storage/disk/type_id.h, value.h, schema.h,
      and the order of values and of doubles given as their bit patterns.
    - Wire: frames of server/wire.h and wire.cpp.
    - XXHash: [xxhash64] of common/xxhash.h, with 64-bit wrap-around.

    Storage:
    - Page: [Page] and [DiskManager] (storage/disk/page.h, disk_manager.h, .cpp).  The file is
      a byte list.
    - LruK: [Replacer] and [LRUKReplacer] (storage/memory/replacer.h, lru_k_replacer.h, .cpp).
      The abstract class is the type class [Replacer], its contract [ReplacerLaws];
      [LRUKReplacer] is an instance of both, and refines an abstract policy.
    - BufferPool: storage/memory/buffer_pool.h, .cpp, written against the type class: its
      theorems hold for every lawful replacer.  [None] stands for undefined behaviour of the
      C++ code (an index out of range, a missing key), and the theorems exclude it.
    - ColumnPage: storage/disk/column_page.h, .cpp: header, zone map, null bitmap and values in
      the payload of one page.
    - ColumnFile: storage/disk/column_file.h, .cpp: a current page in memory, full pages behind
      the buffer pool.
    - IndexFile: storage/disk/index_file.h, .cpp: pages, free list and metadata page of an index.
    - BTreeNode, BTree: keys, nodes and operations of storage/disk/index_page.h and
      btree_index.h, .cpp.  BTreeLayout relates the bytes of a node to its entries; BTreeInsert,
      BTreeScan and BTreeBulk prove insertion with splits, range scans and bulk building on
      trees of pages; BTreeIndex sees the tree as one sorted list; BTreeReopen is about flush,
      open and rebuild; BTreeSpec holds the theorems for users of an index, with the key
      encoding of executor/index_scan.cpp.
    - Codec: the append-to-a-byte-vector encoders and the cursor-based decoders that the
      metadata files share, and the write-temporary, fsync, rename protocol with the outcome of
      each system call.
    - Wal: storage/wal/wal_record.h, wal_writer.h, .cpp, wal_reader.h, .cpp.
    - SchemaFile, ConstraintFile, ShardMapFile: storage/disk/schema.cpp, constraint_file.cpp,
      shard_map_file.cpp.
    - ShardMap: [shard_for_value] of shard_map_file.cpp and the partition pruning of
      server/shard_coordinator.cpp.
    - Table: [Segment] and [Table] of storage/disk/segment.h, .cpp, table.h, .cpp.

    Executor (executor/*.h, *.cpp):
    - SelectionVector, ColumnVector, Chunk: the data that operators exchange, with their byte
      arrays and null bitmaps; [chunk_rows] is the list of rows that a chunk shows.
    - Expression: kernels over columns and evaluation over chunks, and [eval_row], evaluation on
      one row.  Doubles are computed with the library's IEEE 754 model; the class [Fpu] is the
      choice of NaN that the standard leaves open.
    - Operator: the class of operators ([open], [next], [close]), Filter, Project and Limit;
      [runs] and [executes] say which chunks an operator yields.
    - TableScan (the code of table_scan.h, .cpp: survivors of the zone maps, deletions, ranges,
      reading of pages), ScanRanges, ScanRead, ScanStream, ScanOpen (the ranges, the columns, the
      loop of [next] and the whole operator); IndexScan (index_scan.h, .cpp and its theorems).
    - Buffered: draining a child and emitting rows of buffered chunks, as Sort and the joins do.
    - Sort; Probing (hash tables with linear probing); JoinLoop (the streaming side that both
      joins share); HashJoin; NestedLoopJoin.
    - HashAggregate (the code), Aggregation (its groups and states), AggregateStream (the
      operator).

    Front end (parser/, binder/, planner/, database/):
    - Lexer (token.h, lexer.h, .cpp) and LexerSpec, the lexical grammar as a relation.
    - Ast (ast.h); Literals: the conversions strtoll, strtod, sscanf, stoi and the dates of
      parser.cpp and binder.cpp; Dates: the calendar.
    - Parser (parser.h, .cpp, common/source_error.cpp): every parsing function in a small parser
      monad with the outcomes result, error message, exception, undefined behaviour and fuel
      spent.  ParserTotal: termination.  SqlPrint: a printer of expressions; ParserRoundTrip: the
      parser reads back what it prints.
    - Bound (bound_ast.h, .cpp), Binder (binder.h, .cpp): resolution of names against a class
      [CatalogView] of lookups (catalog.cpp), types of expressions, every statement.  The vector
      of aggregates is threaded by a state and error monad.
    - Planner (planner.h, .cpp): a plan is the tree of operators with their arguments.  Frontend:
      the first steps of [Database::execute].
    - BinderTypes: what the types of bound expressions promise, rows of an INSERT; PlanTypes:
      well-typed plans; PlanIndex: index ranges against the WHERE clause.

    Catalog (catalog/):
    - Catalog (catalog.h, .cpp): tables with their indexes, constraints and log; checkpoints;
      [load] with the replay of the log.  CatalogRecovery: what recovery gives, and what it
      loses.  CatalogLog: the log of a running catalog.
    - Runner (frontend/runner.cpp): the statements that change something, run on the catalog;
      [Database::apply_replicated_record].

    Replication (replication/*.h, *.cpp):
    - Election: [ElectionManager] with its state file, and the election frames of
      replication_manager.cpp.
    - Cluster: nodes and packets, with a vote response that carries what its handler needs, which
      is more than the code sends; election safety.  ClusterRuns: the behaviour with even
      clusters, configured leaders and the frames as they are sent.

    ** What the theorems show

    - Bytes to column: a stored page reads back and other pages are not disturbed; a changed
      byte in the parts the hash argument covers is reported.  The abstraction relation of
      ColumnPage ([page_rep]) says which list of values a payload holds; append, bulk append,
      accessors, truncation and, over any history of a page, zone maps are proved against it.  ColumnFile lifts it to the
      list of values of a whole column: append, read, scan, truncate, flush and reopen.
    - Buffer pool: an invariant over frames, page table, pin counts and replacer, kept by every
      operation; the absence of undefined behaviour on any sequence of fewer than 2^31 calls.
    - Index: any sequence of insertions and scans on a unique index is answered as by a sorted
      list of rows; insertion, scan, bulk building, flush and reopen one by one, also for
      indexes that are not unique as far as they work there.
    - Table: an abstract table is the list of rows ever inserted and the set of deleted row
      ids; any sequence of inserts, deletes, updates, seals, flushes and reopens on the
      detailed table refines it.
    - Log: every sequence of records that the format can hold is read back; a log cut at any byte
      after its header gives a prefix; a CREATE with DEFAULT NULL ends the log.
    - Metadata: what was reported written is read back, for every outcome of the system calls.
    - Sharding: routing is total, and pruning never drops the shard of a matching row, for the
      operators other than [<=], for which it drops the shard of the bound.
    - Expressions: evaluation over chunks is evaluation row by row, and is type sound.
    - Operators: each is an equivalence between the stream of chunks that the C++ loop yields
      and a function on lists of rows (filter, map, a slice, a stable sort, the nested loop for
      both joins, groups with folds), for every way the child cuts its rows into chunks, with
      termination of the loops and the errors passed on.
    - Scans: the stream of a table scan is the list of live rows of the abstract table, and one
      pruned by zone maps loses no row in the range; an index scan gives the rows of the key range
      when no row is sealed and the lower bound is the key of one row at most.
    - Text: the lexer decides the lexical grammar; lexer and parser answer every text; printed
      expressions are parsed back.
    - Binder and planner: rows of an accepted INSERT fit their columns but for unchecked
      defaults; an accepted SELECT without aggregates is planned exactly if its joins are
      equijoins, and the plan is well typed, in either order of the first join; the key range
      of an index scan is the WHERE clause it replaces, for literals and values that fit the
      column and are not NULL.
    - Catalog: a run of changes leaves the abstract tables and exactly its operations in the log;
      [load] on the files of the last checkpoint and a log cut after its header gives the checkpoint
      with the complete operations of the log applied.  Two theorems show where this contract
      does not help: a checkpoint that outlives its log, and refused rows in the log.
    - DELETE: from the bound WHERE clause through scan, predicate, table and log, exactly the
      live rows on which the clause is true are deleted.
    - Election: at most one leader per term over every schedule of timeouts, deliveries,
      losses and restarts, by an invariant over the votes ever cast; over the frames that the
      code sends, clusters of three or more nodes elect no leader at all.
    - Theorems that show a defect are about the definitions the other theorems are about, and
      state for which inputs it occurs.

    ** Bounds and fuel

    Every integer keeps its width: additions that the code performs at 32 or 64 bits are
    wrapped, and the theorems state the bound under which the wrap is not reached (for instance
    fewer than 2^32 - 1 rows in a column file, file lengths below 2^63, 2^30 build rows in a
    hash join, 2^29 rows in an aggregation, 2^64 steps of a cluster).  Signed overflow, failed
    assertions and indices out of range are [None].  Recursion that is not structural uses
    fuel: [read_records] of the log takes the length of the file, and each record consumes at
    least one byte; [seg_search] takes the number of segments, and each step of the binary
    search shrinks the interval; the stripe and tail loops of the hash take the length of the
    input; loops over the pages of an index take the number of pages; a probe takes the size of
    the table, which has a free slot; an operator that pulls its child takes a bound on the
    number of the child's chunks, and its theorem holds for every larger one.  The theorems
    state the result itself, so running out of fuel would falsify them.

    ** What is not modelled

    The mutexes and shared locks make each modelled operation atomic; a run is a sequence of
    operations.  Failures of pread, pwrite and fsync (EIO, full disk) are modelled for the
    metadata files only; writes of the election state succeed.  Text of error messages built
    from errno is left out, and so is the depth of the C++ stack, which deeply nested
    expressions exhaust.  Whether strtod reports ERANGE is a parameter of the parser.

    The catalog keeps the small files of its table directories in its state and takes the
    directories that [load] walks as a list; failures of system calls, and what a crash leaves of
    a directory without schema.bin, are not modelled.  Pulling the rows of a SELECT and SHOW in
    [Database::execute] are left out, and so are vacuum, segment merging, log shipping and
    snapshots, which replace whole directories while other threads read them.  Left out as well:
    QUIC transport (a third-party library), sessions and threads of the server, the interactive
    client, text output. *)

From stdpp Require Export base list list_numbers gmap strings pretty.
From Stdlib Require Export ZArith Lia.
From Stdlib Require Ascii String.

#[global] Open Scope Z_scope.

(** ** Results: [Result<T>] of src/src/common/result.h *)

Inductive result (A : Type) : Type :=
| Ok (a : A)
| Err (message : string).
Arguments Ok {A} a.
Arguments Err {A} message.

Definition is_ok {A} (r : result A) : bool :=
  match r with Ok _ => true | Err _ => false end.

Definition is_err {A} (r : result A) : bool :=
  match r with Ok _ => false | Err _ => true end.

Declare Scope nyx_scope.
Delimit Scope nyx_scope with nyx.
#[global] Open Scope nyx_scope.

(** [let? x := c in k]: the [if (r.is_err()) return err(...)] idiom. *)
Notation "'let?' x ':=' c 'in' k" :=
  (match c with Ok x => k | Err e => Err e end)
  (at level 10, x pattern, c at level 100, k at level 200) : nyx_scope.

(** [let! x := c in k]: early exit on an absent value. *)
Notation "'let!' x ':=' c 'in' k" :=
  (match c with Some x => k | None => None end)
  (at level 10, x pattern, c at level 100, k at level 200) : nyx_scope.

(** ** Machine integers *)

(** [wrap w z]: the value of [z] in an unsigned integer of [w] bits. *)
Definition wrap (w z : Z) : Z := z mod 2 ^ w.

(** [signed w z]: the value of the low [w] bits of [z] in two's complement. *)
Definition signed (w z : Z) : Z :=
  let r := z mod 2 ^ w in
  if r <? 2 ^ (w - 1) then r else r - 2 ^ w.

Definition in_u (w z : Z) : Prop := 0 <= z < 2 ^ w.
Definition in_s (w z : Z) : Prop := - 2 ^ (w - 1) <= z < 2 ^ (w - 1).

Abbreviation is_byte := (in_u 8).
Abbreviation bytes := (list Z).

(** ** Bytes of an integer, least significant first *)

Definition le_bytes (n : nat) (v : Z) : bytes :=
  map (fun i => Z.land (Z.shiftr v (8 * Z.of_nat i)) 255) (seq 0 n).

Fixpoint le_val (bs : bytes) : Z :=
  match bs with
  | [] => 0
  | b :: bs' => Z.lor b (Z.shiftl (le_val bs') 8)
  end.

(** ** Strings as bytes: [std::string] is a sequence of [char] *)

Definition byte_of_ascii (c : Ascii.ascii) : Z := Z.of_N (Ascii.N_of_ascii c).
Definition ascii_of_byte (b : Z)   : Ascii.ascii := Ascii.ascii_of_N (Z.to_N b).

Definition bytes_of_string (s : string) : bytes :=
  map byte_of_ascii (String.list_ascii_of_string s).

Definition string_of_bytes (bs : bytes) : string :=
  String.string_of_list_ascii (map ascii_of_byte bs).

Definition strlen (s : string) : Z := Z.of_nat (String.length s).

(** ** Buffers: [memcpy] from and to an offset *)

Definition zlen {A} (l : list A) : Z := Z.of_nat (length l).

Definition slice {A} (off n : Z) (l : list A) : list A :=
  take (Z.to_nat n) (drop (Z.to_nat off) l).

Definition splice {A} (off : Z) (src l : list A) : list A :=
  take (Z.to_nat off) l ++ src ++ drop (Z.to_nat off + length src) l.

(** [n] zero bytes ([memset]). *)
Definition zeros (n : Z) : bytes := replicate (Z.to_nat n) 0.
Arguments zeros n : simpl never.

Definition znth (l : bytes) (i : Z) : Z := nth (Z.to_nat i) l 0.

(** ** Bitmaps: bit [i] is bit [i % 8] of byte [i / 8] *)

Definition bit_get (bm : bytes) (i : Z) : bool :=
  negb (Z.land (Z.shiftr (znth bm (i / 8)) (i mod 8)) 1 =? 0).

Definition bit_set (bm : bytes) (i : Z) : bytes :=
  <[Z.to_nat (i / 8) :=
      Z.lor (znth bm (i / 8)) (wrap 8 (Z.shiftl 1 (i mod 8)))]> bm.

Definition bit_clear (bm : bytes) (i : Z) : bytes :=
  <[Z.to_nat (i / 8) :=
      Z.land (znth bm (i / 8)) (wrap 8 (Z.lnot (Z.shiftl 1 (i mod 8))))]> bm.

(** ** Automation *)

Create HintDb nyx discriminated.
Create Rewrite HintDb nyx.

(** Arithmetic side conditions of the hints below. *)
#[export] Hint Extern 2 (Z.le _ _) => lia : nyx.
#[export] Hint Extern 2 (Z.lt _ _) => lia : nyx.

Ltac deex :=
  repeat match goal with
  | H : exists x, _ |- _ => let x' := fresh x in destruct H as [x' H]
  end.

Ltac split_ands :=
  repeat match goal with
  | H : _ /\ _ |- _ => destruct H
  end.

(** [zlia]: linear arithmetic with division and remainder by constants. *)
Ltac zlia := unfold in_u, in_s, zlen in *; Z.to_euclidean_division_equations; lia.

(** ** Lemmas on machine integers *)

Lemma wrap_id w z : in_u w z -> wrap w z = z.
Proof. intros H. unfold wrap. by apply Z.mod_small. Qed.

Lemma wrap_range w z : 0 <= w -> in_u w (wrap w z).
Proof. intros Hw. apply Z.mod_pos_bound. lia. Qed.

Lemma pow_half w : 0 < w -> 2 ^ w = 2 * 2 ^ (w - 1).
Proof. intros. rewrite <- Z.pow_succ_r by lia. f_equal. lia. Qed.

Lemma signed_range w z : 0 < w -> in_s w (signed w z).
Proof.
  intros Hw. unfold signed, in_s.
  pose proof (pow_half w Hw). assert (0 < 2 ^ (w - 1)) by lia.
  pose proof (Z.mod_pos_bound z (2 ^ w)).
  destruct (Z.ltb_spec (z mod 2 ^ w) (2 ^ (w - 1))); lia.
Qed.

(** Storing a signed value in an unsigned slot and reading it back. *)
Lemma signed_wrap w z : 0 < w -> in_s w z -> signed w (wrap w z) = z.
Proof.
  intros Hw [Hlo Hhi]. unfold signed, wrap.
  pose proof (pow_half w Hw). assert (0 < 2 ^ (w - 1)) by lia.
  rewrite Z.mod_mod by lia.
  destruct (Z.ltb_spec z 0).
  - assert (Hm : z mod 2 ^ w = z + 2 ^ w).
    { symmetry. apply Z.mod_unique_pos with (-1); lia. }
    rewrite Hm. destruct (Z.ltb_spec (z + 2 ^ w) (2 ^ (w - 1))); lia.
  - rewrite Z.mod_small by lia.
    destruct (Z.ltb_spec z (2 ^ (w - 1))); lia.
Qed.

Lemma signed_id w z : 0 < w -> in_s w z -> signed w z = z.
Proof.
  intros Hw Hz. rewrite <- (signed_wrap w z) at 2 by done.
  unfold signed, wrap. pose proof (Z.pow_pos_nonneg 2 w).
  by rewrite Z.mod_mod by lia.
Qed.

(** ** Lemmas on little-endian bytes *)

Lemma land_255 v : Z.land v 255 = v mod 256.
Proof. change 255 with (Z.ones 8). by rewrite Z.land_ones. Qed.

Lemma le_bytes_length n v : length (le_bytes n v) = n.
Proof. unfold le_bytes. by rewrite length_map, length_seq. Qed.

Lemma le_bytes_S n v :
  le_bytes (S n) v = v mod 256 :: le_bytes n (v / 256).
Proof.
  unfold le_bytes. cbn [seq map]. f_equal.
  - by rewrite land_255, Z.mul_0_r, Z.shiftr_0_r.
  - rewrite <- seq_shift, map_map. apply map_ext. intros i. f_equal.
    rewrite Nat2Z.inj_succ. replace (8 * Z.succ (Z.of_nat i)) with (8 + 8 * Z.of_nat i) by lia.
    rewrite <- Z.shiftr_shiftr by lia. by rewrite (Z.shiftr_div_pow2 v 8) by lia.
Qed.

Lemma le_bytes_is_byte n v : Forall is_byte (le_bytes n v).
Proof.
  revert v. induction n as [|n IH]; intros v; [constructor|].
  rewrite le_bytes_S. constructor; [|apply IH].
  apply Z.mod_pos_bound. lia.
Qed.

Lemma le_val_nonneg bs : Forall is_byte bs -> 0 <= le_val bs.
Proof.
  induction 1 as [|b bs [Hb _] _ IH]; simpl; [lia|].
  apply Z.lor_nonneg. split; [done|]. by apply Z.shiftl_nonneg.
Qed.

Lemma lor_shiftl_add a b k : 0 <= k -> in_u k a -> Z.lor a (Z.shiftl b k) = a + 2 ^ k * b.
Proof.
  intros Hk [Ha Ha']. rewrite Z.shiftl_mul_pow2 by done.
  assert (Hland : Z.land a (b * 2 ^ k) = 0).
  { apply Z.bits_inj'. intros i Hi. rewrite Z.land_spec, Z.bits_0.
    destruct (Z.ltb_spec i k).
    - rewrite Z.mul_pow2_bits_low by lia. apply andb_false_r.
    - destruct (Z.eq_dec a 0) as [->|]; [by rewrite Z.bits_0|].
      rewrite (Z.bits_above_log2 a i); [done|done|].
      apply Z.log2_lt_pow2; [lia|].
      apply Z.lt_le_trans with (2 ^ k); [done|].
      apply Z.pow_le_mono_r; lia. }
  pose proof (Z.add_lor_land a (b * 2 ^ k)). lia.
Qed.

Lemma le_val_cons b bs : is_byte b -> le_val (b :: bs) = b + 256 * le_val bs.
Proof. intros Hb. simpl. by rewrite (lor_shiftl_add b _ 8). Qed.

Lemma le_val_bound bs : Forall is_byte bs -> in_u (8 * zlen bs) (le_val bs).
Proof.
  unfold in_u, zlen. induction 1 as [|b bs Hb _ IH]; [simpl; lia|].
  rewrite le_val_cons by done. cbn [length]. rewrite Nat2Z.inj_succ.
  replace (8 * Z.succ (Z.of_nat (length bs))) with (8 + 8 * Z.of_nat (length bs)) by lia.
  rewrite Z.pow_add_r by lia. change (2 ^ 8) with 256. unfold in_u in Hb. lia.
Qed.

Lemma le_val_bytes n v : in_u (8 * Z.of_nat n) v -> le_val (le_bytes n v) = v.
Proof.
  unfold in_u. revert v. induction n as [|n IH]; intros v Hv; [simpl in *; lia|].
  rewrite le_bytes_S, le_val_cons by (apply Z.mod_pos_bound; lia).
  rewrite IH; [pose proof (Z.div_mod v 256); lia|].
  rewrite Nat2Z.inj_succ in Hv.
  replace (8 * Z.succ (Z.of_nat n)) with (8 + 8 * Z.of_nat n) in Hv by lia.
  rewrite Z.pow_add_r in Hv by lia. change (2 ^ 8) with 256 in Hv.
  split; [apply Z.div_pos; lia|apply Z.div_lt_upper_bound; lia].
Qed.

Lemma le_bytes_val bs : Forall is_byte bs -> le_bytes (length bs) (le_val bs) = bs.
Proof.
  induction 1 as [|b bs Hb Hbs IH]; [done|].
  rewrite le_val_cons by done. cbn [length]. rewrite le_bytes_S.
  unfold in_u in Hb. change (2 ^ 8) with 256 in Hb. f_equal.
  - rewrite Z.mul_comm, Z.mod_add by lia. by apply Z.mod_small.
  - rewrite Z.mul_comm, Z.div_add by lia. rewrite Z.div_small by done. apply IH.
Qed.

Lemma le_val_snoc bs b :
  le_val (bs ++ [b]) = Z.lor (le_val bs) (Z.shiftl b (8 * zlen bs)).
Proof.
  unfold zlen. induction bs as [|x bs IH]; simpl.
  - by rewrite Z.lor_0_r, Z.shiftl_0_r.
  - rewrite IH, Z.shiftl_lor, Z.shiftl_shiftl, Z.lor_assoc by lia.
    do 2 f_equal. lia.
Qed.

Lemma le_bytes_inj n v w :
  in_u (8 * Z.of_nat n) v -> in_u (8 * Z.of_nat n) w -> le_bytes n v = le_bytes n w -> v = w.
Proof. intros Hv Hw H. rewrite <- (le_val_bytes n v), H by done. by apply le_val_bytes. Qed.

Lemma le_bytes_wrap n v : le_bytes n (wrap (8 * Z.of_nat n) v) = le_bytes n v.
Proof.
  unfold wrap. revert v. induction n as [|n IH]; intros v; [done|].
  rewrite !le_bytes_S, Nat2Z.inj_succ.
  replace (8 * Z.succ (Z.of_nat n)) with (8 + 8 * Z.of_nat n) by lia.
  rewrite Z.pow_add_r by lia. change (2 ^ 8) with 256. f_equal.
  - rewrite Z.rem_mul_r by lia. rewrite Z.mul_comm, Z.mod_add by lia. by apply Z.mod_mod.
  - rewrite <- (IH (v / 256)), <- (IH ((v mod _) / 256)). f_equal.
    rewrite Z.rem_mul_r by lia. rewrite (Z.mul_comm 256), Z.div_add by lia.
    rewrite (Z.div_small (v mod 256)) by (apply Z.mod_pos_bound; lia). rewrite Z.add_0_l.
    by rewrite Z.mod_mod by lia.
Qed.

(** Storing the bytes of a signed integer and reading them back. *)
Lemma signed_le_bytes n v : (0 < n)%nat -> in_s (8 * Z.of_nat n) v ->
  signed (8 * Z.of_nat n) (le_val (le_bytes n v)) = v.
Proof.
  intros Hn Hv. rewrite <- le_bytes_wrap, le_val_bytes by (apply wrap_range; lia).
  apply signed_wrap; [lia|done].
Qed.

Lemma wrap_of_signed w z : 0 < w -> wrap w (signed w z) = wrap w z.
Proof.
  intros Hw. unfold signed, wrap. pose proof (Z.pow_pos_nonneg 2 w). destruct (_ <? _); [by apply Z.mod_mod; lia|].
  rewrite <- (Z.mod_add _ 1) by lia. replace (z mod 2 ^ w - 2 ^ w + 1 * 2 ^ w) with (z mod 2 ^ w) by lia.
  by apply Z.mod_mod; lia.
Qed.

Lemma le_bytes_signed bs : Forall is_byte bs -> bs <> [] ->
  le_bytes (length bs) (signed (8 * zlen bs) (le_val bs)) = bs.
Proof.
  intros Hb Hne. unfold zlen. rewrite <- le_bytes_wrap, wrap_of_signed, le_bytes_wrap; [by apply le_bytes_val|].
  destruct bs; [done|]. simpl. lia.
Qed.

#[export] Hint Resolve le_bytes_is_byte le_val_nonneg wrap_range signed_range : nyx.

(** ** Lemmas on strings as bytes *)

Lemma ascii_of_byte_of_ascii c : ascii_of_byte (byte_of_ascii c) = c.
Proof. unfold ascii_of_byte, byte_of_ascii. by rewrite N2Z.id, Ascii.ascii_N_embedding. Qed.

Lemma byte_of_ascii_range c : is_byte (byte_of_ascii c).
Proof.
  unfold byte_of_ascii, in_u. pose proof (Ascii.N_ascii_bounded c). lia.
Qed.

Lemma byte_of_ascii_of_byte b : is_byte b -> byte_of_ascii (ascii_of_byte b) = b.
Proof.
  intros [H1 H2]. change (2 ^ 8) with 256 in H2. unfold ascii_of_byte, byte_of_ascii.
  rewrite Ascii.N_ascii_embedding by lia. lia.
Qed.

Lemma string_of_bytes_of_string s : string_of_bytes (bytes_of_string s) = s.
Proof.
  unfold string_of_bytes, bytes_of_string. rewrite map_map.
  rewrite (map_ext _ id) by apply ascii_of_byte_of_ascii.
  rewrite map_id. apply String.string_of_list_ascii_of_string.
Qed.

Lemma bytes_of_string_of_bytes bs :
  Forall is_byte bs -> bytes_of_string (string_of_bytes bs) = bs.
Proof.
  intros H. unfold string_of_bytes, bytes_of_string.
  rewrite String.list_ascii_of_string_of_list_ascii, map_map.
  induction H; simpl; [done|]. by rewrite byte_of_ascii_of_byte, IHForall.
Qed.

Lemma bytes_of_string_is_byte s : Forall is_byte (bytes_of_string s).
Proof.
  unfold bytes_of_string. induction (String.list_ascii_of_string s); constructor;
    [apply byte_of_ascii_range|done].
Qed.

Lemma length_bytes_of_string s : length (bytes_of_string s) = String.length s.
Proof. induction s; simpl; [done|]. by f_equal. Qed.

Lemma zlen_bytes_of_string s : zlen (bytes_of_string s) = strlen s.
Proof. unfold zlen, strlen. by rewrite length_bytes_of_string. Qed.

Lemma strlen_nonneg s : 0 <= strlen s.
Proof. unfold strlen. lia. Qed.

Lemma bytes_of_string_inj s t : bytes_of_string s = bytes_of_string t -> s = t.
Proof.
  intros H. by rewrite <- (string_of_bytes_of_string s), H, string_of_bytes_of_string.
Qed.

#[export] Hint Resolve bytes_of_string_is_byte byte_of_ascii_range strlen_nonneg : nyx.

(** ** Lemmas on buffers *)

Section buffers.
Context {A : Type}.
Implicit Types l src : list A.

Lemma zlen_app l1 l2 : @zlen A (l1 ++ l2) = zlen l1 + zlen l2.
Proof. unfold zlen. rewrite length_app. lia. Qed.

Lemma zlen_cons a l : zlen (a :: l) = 1 + @zlen A l.
Proof. unfold zlen. simpl. lia. Qed.

Lemma zlen_nonneg l : 0 <= zlen l.
Proof. unfold zlen. lia. Qed.

Lemma length_splice off src l :
  0 <= off -> off + zlen src <= zlen l -> length (splice off src l) = length l.
Proof.
  intros H1 H2. unfold splice, zlen in *.
  rewrite !length_app, length_take, length_drop. lia.
Qed.

Lemma zlen_splice off src l :
  0 <= off -> off + zlen src <= zlen l -> zlen (splice off src l) = zlen l.
Proof. intros. unfold zlen at 1 2. by rewrite length_splice. Qed.

Lemma splice_nil off l : splice off [] l = l.
Proof. unfold splice. simpl. by rewrite Nat.add_0_r, take_drop. Qed.

Lemma slice_length off n l :
  0 <= off -> 0 <= n -> off + n <= zlen l -> length (slice off n l) = Z.to_nat n.
Proof. intros. unfold slice, zlen in *. rewrite length_take, length_drop. lia. Qed.

(** Reading back what was just written. *)
Lemma slice_splice_same off n src l :
  0 <= off -> off <= zlen l -> n = zlen src -> slice off n (splice off src l) = src.
Proof.
  intros H1 H2 ->. unfold slice, splice, zlen in *.
  rewrite drop_app_length' by (rewrite length_take; lia).
  rewrite Nat2Z.id. apply take_app_length.
Qed.

(** A read before the written window is unchanged. *)
Lemma slice_splice_before off src l o n :
  0 <= o -> 0 <= n -> o + n <= off -> off <= zlen l ->
  slice o n (splice off src l) = slice o n l.
Proof.
  intros. unfold slice, splice, zlen in *.
  rewrite !take_drop_commute, take_app_le by (rewrite ?length_take; lia).
  rewrite take_take. do 2 f_equal. lia.
Qed.

(** A read after the written window is unchanged. *)
Lemma slice_splice_after off src l o n :
  0 <= off -> off + zlen src <= o -> off + zlen src <= zlen l ->
  slice o n (splice off src l) = slice o n l.
Proof.
  intros. unfold slice, splice, zlen in *. f_equal.
  rewrite drop_app_ge by (rewrite length_take; lia).
  rewrite drop_app_ge by (rewrite length_take; lia).
  rewrite drop_drop, length_take. f_equal. lia.
Qed.

Lemma slice_slice a n b m l : 0 <= a -> 0 <= b -> a + n <= m ->
  slice a n (slice b m l) = slice (b + a) n l.
Proof.
  intros. unfold slice. rewrite skipn_firstn_comm, take_take, drop_drop.
  f_equal; [lia|f_equal; lia].
Qed.

Lemma Forall_slice (P : A -> Prop) off n l : Forall P l -> Forall P (slice off n l).
Proof. intros. unfold slice. by apply Forall_take, Forall_drop. Qed.

Lemma Forall_splice (P : A -> Prop) off src l :
  Forall P src -> Forall P l -> Forall P (splice off src l).
Proof.
  intros. unfold splice. rewrite !Forall_app.
  split_and!; [by apply Forall_take|done|by apply Forall_drop].
Qed.
End buffers.

Lemma zlen_slice {A} off n (l : list A) : 0 <= off -> 0 <= n -> off + n <= zlen l -> zlen (slice off n l) = n.
Proof. intros. unfold zlen at 1. rewrite slice_length by done. lia. Qed.

Lemma slice_map {A B} (g : A -> B) off n l : map g (slice off n l) = slice off n (map g l).
Proof. unfold slice. by rewrite <- firstn_map, <- skipn_map. Qed.

Lemma znth_slice o n (l : bytes) k : 0 <= o -> 0 <= k < n -> znth (slice o n l) k = znth l (o + k).
Proof.
  intros Ho Hk. unfold znth, slice. rewrite !nth_lookup, lookup_take_lt, lookup_drop by lia.
  replace (Z.to_nat (o + k)) with (Z.to_nat o + Z.to_nat k)%nat by lia. done.
Qed.

Lemma zlen_zeros n : 0 <= n -> zlen (zeros n) = n.
Proof. intros. unfold zlen, zeros. rewrite length_replicate. lia. Qed.

Lemma zeros_is_byte n : Forall is_byte (zeros n).
Proof. by apply Forall_replicate. Qed.

Lemma zlen_le_bytes n v : zlen (le_bytes n v) = Z.of_nat n.
Proof. unfold zlen. by rewrite le_bytes_length. Qed.

#[export] Hint Resolve zeros_is_byte zlen_nonneg Forall_slice Forall_splice : nyx.
#[export] Hint Rewrite @zlen_app : nyx.

(** ** Lemmas on bitmaps *)

Lemma land_1_testbit a : negb (Z.land a 1 =? 0) = Z.testbit a 0.
Proof.
  change 1 with (Z.ones 1). rewrite Z.land_ones by lia.
  rewrite <- (Z.mod_pow2_bits_low a 1 0) by lia. change (2 ^ 1) with 2.
  pose proof (Z.mod_pos_bound a 2).
  assert (Ha : a mod 2 = 0 \/ a mod 2 = 1) by lia. by destruct Ha as [-> | ->].
Qed.

Lemma bit_get_testbit bm i : 0 <= i -> bit_get bm i = Z.testbit (znth bm (i / 8)) (i mod 8).
Proof.
  intros. unfold bit_get. by rewrite land_1_testbit, Z.shiftr_spec by lia.
Qed.

Lemma znth_insert (bm : bytes) i j v :
  0 <= i -> 0 <= j < zlen bm ->
  znth (<[Z.to_nat j := v]> bm) i = if decide (i = j) then v else znth bm i.
Proof.
  intros Hi Hj. unfold znth, zlen in *. rewrite !nth_lookup.
  rewrite list_lookup_insert. repeat case_decide; try lia; try done.
Qed.

Lemma wrap_testbit w z k : 0 <= k < w -> Z.testbit (wrap w z) k = Z.testbit z k.
Proof. intros. unfold wrap. apply Z.mod_pow2_bits_low. lia. Qed.

Lemma bit_mask_testbit k j : 0 <= k < 8 -> 0 <= j < 8 ->
  Z.testbit (wrap 8 (Z.shiftl 1 k)) j = bool_decide (j = k).
Proof.
  intros. rewrite wrap_testbit, Z.shiftl_1_l by lia.
  rewrite Z.pow2_bits_eqb by lia. case_bool_decide; lia.
Qed.

Lemma bit_nmask_testbit k j : 0 <= k < 8 -> 0 <= j < 8 ->
  Z.testbit (wrap 8 (Z.lnot (Z.shiftl 1 k))) j = bool_decide (j <> k).
Proof.
  intros. rewrite wrap_testbit, Z.lnot_spec, Z.shiftl_1_l by lia.
  rewrite Z.pow2_bits_eqb by lia. case_bool_decide; lia.
Qed.

Lemma znth_Forall (P : Z -> Prop) (bm : bytes) i :
  P 0 -> Forall P bm -> P (znth bm i).
Proof.
  intros H0 H. unfold znth. destruct (Nat.lt_ge_cases (Z.to_nat i) (length bm)).
  - rewrite Forall_nth in H. by apply H.
  - by rewrite nth_overflow by lia.
Qed.

Section bitmaps.
Context (bm : bytes) (i : Z).
Hypothesis Hi : 0 <= i < 8 * zlen bm.

Lemma bit_get_set j : 0 <= j ->
  bit_get (bit_set bm i) j = bool_decide (j = i) || bit_get bm j.
Proof using Hi.
  intros Hj. rewrite !bit_get_testbit by lia. unfold bit_set.
  rewrite znth_insert by zlia. case_decide as Hd.
  - rewrite Z.lor_spec, bit_mask_testbit by zlia.
    rewrite Hd, orb_comm. f_equal. apply bool_decide_ext. zlia.
  - rewrite bool_decide_false; [done|]. by intros ->.
Qed.

Lemma bit_get_clear j : 0 <= j ->
  bit_get (bit_clear bm i) j = bool_decide (j <> i) && bit_get bm j.
Proof using Hi.
  intros Hj. rewrite !bit_get_testbit by lia. unfold bit_clear.
  rewrite znth_insert by zlia. case_decide as Hd.
  - rewrite Z.land_spec, bit_nmask_testbit by zlia.
    rewrite Hd, andb_comm. f_equal. apply bool_decide_ext. zlia.
  - rewrite bool_decide_true; [done|]. by intros ->.
Qed.

Lemma length_bit_set : length (bit_set bm i) = length bm.
Proof using. apply length_insert. Qed.

Lemma length_bit_clear : length (bit_clear bm i) = length bm.
Proof using. apply length_insert. Qed.

End bitmaps.

Lemma in_u_bits w z : 0 <= w -> (forall k, w <= k -> Z.testbit z k = false) -> in_u w z.
Proof.
  intros Hw H. replace z with (wrap w z); [by apply wrap_range|].
  apply Z.bits_inj'. intros k Hk. destruct (Z.ltb_spec k w).
  - by apply wrap_testbit.
  - unfold wrap. by rewrite Z.mod_pow2_bits_high, H.
Qed.

Lemma in_u_testbit w z k : 0 <= w -> in_u w z -> w <= k -> Z.testbit z k = false.
Proof.
  intros Hw Hz Hk. rewrite <- (wrap_id w z) by done.
  unfold wrap. by apply Z.mod_pow2_bits_high.
Qed.

Lemma in_u_lor w a b : 0 <= w -> in_u w a -> in_u w b -> in_u w (Z.lor a b).
Proof.
  intros Hw Ha Hb. apply in_u_bits; [done|]. intros k Hk.
  by rewrite Z.lor_spec, !(in_u_testbit w).
Qed.

Lemma in_u_land w a b : 0 <= w -> in_u w a -> in_u w (Z.land a b).
Proof.
  intros Hw Ha. apply in_u_bits; [done|]. intros k Hk.
  by rewrite Z.land_spec, (in_u_testbit w).
Qed.

Lemma in_u_lxor w a b : 0 <= w -> in_u w a -> in_u w b -> in_u w (Z.lxor a b).
Proof.
  intros Hw Ha Hb. apply in_u_bits; [done|]. intros k Hk.
  by rewrite Z.lxor_spec, !(in_u_testbit w).
Qed.

Lemma in_u_shiftr w a k : 0 <= w -> 0 <= k -> in_u w a -> in_u w (Z.shiftr a k).
Proof.
  intros Hw Hk Ha. apply in_u_bits; [done|]. intros j Hj.
  rewrite Z.shiftr_spec by lia. apply (in_u_testbit w); [done..|lia].
Qed.

Lemma bit_set_is_byte bm i : Forall is_byte bm -> Forall is_byte (bit_set bm i).
Proof.
  intros H. apply Forall_insert; [done|]. apply in_u_lor; [done| |by apply wrap_range].
  by apply znth_Forall.
Qed.

Lemma bit_clear_is_byte bm i : Forall is_byte bm -> Forall is_byte (bit_clear bm i).
Proof.
  intros H. apply Forall_insert; [done|]. apply in_u_land; [done|].
  by apply znth_Forall.
Qed.

#[export] Hint Resolve in_u_lor in_u_land in_u_lxor in_u_shiftr bit_set_is_byte
  bit_clear_is_byte : nyx.

#[global] Arguments slice : simpl never.
#[global] Arguments splice : simpl never.
#[global] Arguments zlen : simpl never.
#[global] Arguments znth : simpl never.
#[global] Arguments le_bytes : simpl never.
#[global] Arguments bit_get : simpl never.
#[global] Arguments bit_set : simpl never.
#[global] Arguments bit_clear : simpl never.
#[global] Arguments le_val : simpl never.
