(* ===== verification/Types.v ===== *)
(** * Column types and values

    [TypeId] and [type_size] (src/src/storage/disk/type_id.h), [Value]
    (src/src/storage/disk/value.h), [Column] and [Schema]
    (src/src/storage/disk/schema.h).

    An [i32] or [i64] is a [Z] with its range stated by [value_wf]; an [f64] is
    the 64-bit pattern that [memcpy] sees, compared the way IEEE 754 compares. *)

From S2P Require Import Prelude.

(** ** Type identifiers *)

(** [enum class TypeId : u8].  [TypeOther b] is a value outside the named
    enumerators, which a [static_cast<TypeId>(byte)] of stored data can yield. *)
Inductive TypeId : Type :=
| INVALID | INT32 | INT64 | DOUBLE | VARCHAR | BOOL | DATE | TIMESTAMP
| TypeOther (b : Z).

#[export] Instance TypeId_eq_dec : EqDecision TypeId.
Proof. solve_decision. Defined.

(** [static_cast<u8>(t)] *)
Definition type_code (t : TypeId) : Z :=
  match t with
  | INVALID => 0 | INT32 => 1 | INT64 => 2 | DOUBLE => 3 | VARCHAR => 4
  | BOOL => 5 | DATE => 6 | TIMESTAMP => 7 | TypeOther b => b
  end.

(** [static_cast<TypeId>(b)] *)
Definition type_of_code (b : Z) : TypeId :=
  match b with
  | 0 => INVALID | 1 => INT32 | 2 => INT64 | 3 => DOUBLE | 4 => VARCHAR
  | 5 => BOOL | 6 => DATE | 7 => TIMESTAMP | _ => TypeOther b
  end.

Definition type_named (t : TypeId) : Prop :=
  match t with TypeOther _ => False | _ => True end.

Definition type_size (t : TypeId) (max_len : Z) : Z :=
  match t with
  | INT32 => 4
  | INT64 => 8
  | DOUBLE => 8
  | VARCHAR => if max_len >? 0 then max_len + 2 else 0
  | BOOL => 1
  | DATE => 4
  | TIMESTAMP => 8
  | _ => 0
  end.

(** ** Values *)

(** [std::variant<std::monostate, i32, i64, f64, std::string, bool, Date, Timestamp>] *)
Inductive Value : Type :=
| VNull
| VI32 (v : Z)
| VI64 (v : Z)
| VF64 (bits : Z)
| VStr (s : string)
| VBool (b : bool)
| VDate (days : Z)
| VTimestamp (micros : Z).

#[export] Instance Value_eq_dec : EqDecision Value.
Proof. solve_decision. Defined.

Definition is_null (v : Value) : bool :=
  match v with VNull => true | _ => false end.

Definition value_wf (v : Value) : Prop :=
  match v with
  | VNull | VBool _ | VStr _ => True
  | VI32 x | VDate x => in_s 32 x
  | VI64 x | VTimestamp x => in_s 64 x
  | VF64 b => in_u 64 b
  end.

(** The alternative a value holds, as the type it is stored under. *)
Definition variant_type (v : Value) : TypeId :=
  match v with
  | VNull => INVALID
  | VI32 _ => INT32
  | VI64 _ => INT64
  | VF64 _ => DOUBLE
  | VStr _ => VARCHAR
  | VBool _ => BOOL
  | VDate _ => DATE
  | VTimestamp _ => TIMESTAMP
  end.

(** ** Doubles *)

Definition f64_mag (b : Z) : Z := Z.land b (Z.ones 63).

Definition f64_is_nan (b : Z) : bool := 0x7FF0000000000000 <? f64_mag b.

(** Signed magnitude: the order of the non-NaN doubles; [+0] and [-0] agree. *)
Definition f64_key (b : Z) : Z :=
  if Z.testbit b 63 then - f64_mag b else f64_mag b.

Definition f64_lt (a b : Z) : bool :=
  negb (f64_is_nan a) && negb (f64_is_nan b) && (f64_key a <? f64_key b).

Definition f64_eq (a b : Z) : bool :=
  negb (f64_is_nan a) && negb (f64_is_nan b) && (f64_key a =? f64_key b).

(** ** Strings: [std::string::operator<] and [memcmp] order bytes as unsigned *)

Fixpoint bytes_cmp (a b : bytes) : comparison :=
  match a, b with
  | [], [] => Eq
  | [], _ :: _ => Lt
  | _ :: _, [] => Gt
  | x :: a', y :: b' =>
      match x ?= y with Eq => bytes_cmp a' b' | c => c end
  end.

Definition string_cmp (a b : string) : comparison :=
  bytes_cmp (bytes_of_string a) (bytes_of_string b).

(** ** Columns *)

Record Column : Type := mkColumn {
  col_name : string;
  col_type : TypeId;
  col_nullable : bool;
  col_max_len : Z;
  col_default : option Value
}.

Abbreviation Schema := (list Column).

(** A default value that the stored formats can hold: any value but NULL. *)
Definition default_ok (d : option Value) : Prop :=
  match d with
  | None => True
  | Some VNull => False
  | Some (VStr s) => in_u 16 (strlen s)
  | Some v => value_wf v
  end.

(** A column whose fields fit the stored formats. *)
Definition column_ok (col : Column) : Prop :=
  type_named (col_type col) /\ in_u 16 (col_max_len col) /\ in_u 16 (strlen (col_name col)) /\
  default_ok (col_default col).

(** ** Lemmas *)

Lemma type_of_code_code t : type_named t -> type_of_code (type_code t) = t.
Proof. by destruct t. Qed.

Lemma type_code_of_code b : type_code (type_of_code b) = b.
Proof. destruct b as [|[[[]|[]|]|[[]|[]|]|]|]; done. Qed.

Lemma type_code_range t : type_named t -> is_byte (type_code t).
Proof. destruct t; unfold in_u; simpl; done || lia. Qed.

Lemma variant_type_named v : type_named (variant_type v).
Proof. by destruct v. Qed.

Lemma type_size_nonneg t n : 0 <= type_size t n.
Proof. destruct t; simpl; try lia. destruct (Z.gtb_spec n 0); lia. Qed.

Lemma f64_lt_irrefl a : f64_lt a a = false.
Proof. unfold f64_lt. rewrite Z.ltb_irrefl. apply andb_false_r. Qed.

Lemma f64_lt_trans a b c : f64_lt a b = true -> f64_lt b c = true -> f64_lt a c = true.
Proof.
  unfold f64_lt. rewrite !andb_true_iff, !Z.ltb_lt. intros [[-> _] ?] [[_ ->] ?].
  split_and!; [done..|lia].
Qed.

Lemma bytes_cmp_refl a : bytes_cmp a a = Eq.
Proof. induction a; simpl; [done|]. by rewrite Z.compare_refl. Qed.

Lemma bytes_cmp_eq a b : bytes_cmp a b = Eq <-> a = b.
Proof.
  split; [|intros ->; apply bytes_cmp_refl].
  revert b. induction a as [|x a IH]; intros [|y b]; simpl; try done.
  destruct (Z.compare_spec x y); try done. intros. f_equal; [done|]. by apply IH.
Qed.

Lemma bytes_cmp_antisym a b : bytes_cmp b a = CompOpp (bytes_cmp a b).
Proof.
  revert b. induction a as [|x a IH]; intros [|y b]; simpl; try done.
  rewrite (Z.compare_antisym x y). destruct (x ?= y); simpl; auto.
Qed.

Lemma bytes_cmp_lt_trans a b c :
  bytes_cmp a b = Lt -> bytes_cmp b c = Lt -> bytes_cmp a c = Lt.
Proof.
  revert b c. induction a as [|x a IH]; intros [|y b] [|z c]; simpl; try done.
  destruct (Z.compare_spec x y), (Z.compare_spec y z); try done; subst; intros;
    try (rewrite (proj2 (Z.compare_lt_iff _ _)) by lia; done).
  rewrite Z.compare_refl. eauto.
Qed.

(** ** Values by their keys *)

(** Numbers as one-element lists, so that one lexicographic order serves all types. *)
Definition value_key (v : Value) : list Z :=
  match v with
  | VNull => []
  | VI32 x | VI64 x | VDate x | VTimestamp x => [x]
  | VF64 b => [f64_key b]
  | VStr s => bytes_of_string s
  | VBool b => [Z.b2z b]
  end.

Lemma key_cmp_one a b : bytes_cmp [a] [b] = (a ?= b).
Proof. simpl. by destruct (a ?= b). Qed.

Lemma bytes_cmp_gt_lt a b : bytes_cmp a b = Gt <-> bytes_cmp b a = Lt.
Proof. rewrite (bytes_cmp_antisym a b). by destruct (bytes_cmp a b). Qed.

(** [a <= b] and [b < c] give [a < c], and the mirror image. *)
Lemma bytes_cmp_le_lt a b c : bytes_cmp a b <> Gt -> bytes_cmp b c = Lt -> bytes_cmp a c = Lt.
Proof.
  intros Hab Hbc. destruct (bytes_cmp a b) eqn:E; [|by eapply bytes_cmp_lt_trans|done].
  apply bytes_cmp_eq in E as ->. done.
Qed.

Lemma bytes_cmp_lt_le a b c : bytes_cmp a b = Lt -> bytes_cmp b c <> Gt -> bytes_cmp a c = Lt.
Proof.
  intros Hab Hbc. destruct (bytes_cmp b c) eqn:E; [|by eapply bytes_cmp_lt_trans|done].
  apply bytes_cmp_eq in E as <-. done.
Qed.

Lemma bytes_cmp_le_trans a b c : bytes_cmp a b <> Gt -> bytes_cmp b c <> Gt -> bytes_cmp a c <> Gt.
Proof.
  intros Hab Hbc. destruct (bytes_cmp b c) eqn:E; [|by rewrite (bytes_cmp_le_lt a b c)|done].
  apply bytes_cmp_eq in E as <-. done.
Qed.

#[export] Hint Resolve type_code_range variant_type_named type_size_nonneg : nyx.
