(* ===== verification/Wire.v ===== *)
(** * Wire protocol frames

    The byte encoders and decoders of the binary frame protocol
    (src/src/server/wire.h, src/src/server/wire.cpp).  A [std::vector<byte>&]
    that an encoder appends to is an argument and the result; a [const byte*] is
    the list of bytes from the pointer on. *)

From S2P Require Import Prelude Types.

(** ** Frame types *)

(** [enum class FrameType : u8]; [FrameOther b] is an unnamed code from the wire. *)
Inductive FrameType : Type :=
| AUTH_REQ | AUTH_OK | AUTH_ERR
| QUERY | RESULT_META | RESULT_COL | RESULT_END | QUERY_ERR
| REPL_HELLO | REPL_WAL_PULL | REPL_WAL_BATCH | REPL_WAL_STALE | REPL_WAL_ACK
| REPL_SNAPSHOT_REQ | REPL_SNAPSHOT_META | REPL_SNAPSHOT_DATA | REPL_SNAPSHOT_END
| REPL_HEARTBEAT | REPL_VOTE_REQ | REPL_VOTE_RESP
| REPL_FORWARD_WRITE | REPL_FORWARD_RESP
| NOTIFY_LEADER | REGISTER_NODE
| FrameOther (b : Z).

Definition frame_code (t : FrameType) : Z :=
  match t with
  | AUTH_REQ => 0x01 | AUTH_OK => 0x02 | AUTH_ERR => 0x03
  | QUERY => 0x10 | RESULT_META => 0x11 | RESULT_COL => 0x12
  | RESULT_END => 0x13 | QUERY_ERR => 0x14
  | REPL_HELLO => 0x20 | REPL_WAL_PULL => 0x21 | REPL_WAL_BATCH => 0x22
  | REPL_WAL_STALE => 0x23 | REPL_WAL_ACK => 0x24 | REPL_SNAPSHOT_REQ => 0x25
  | REPL_SNAPSHOT_META => 0x26 | REPL_SNAPSHOT_DATA => 0x27 | REPL_SNAPSHOT_END => 0x28
  | REPL_HEARTBEAT => 0x30 | REPL_VOTE_REQ => 0x31 | REPL_VOTE_RESP => 0x32
  | REPL_FORWARD_WRITE => 0x40 | REPL_FORWARD_RESP => 0x41
  | NOTIFY_LEADER => 0x50 | REGISTER_NODE => 0x51
  | FrameOther b => b
  end.

Definition frame_types : list FrameType :=
  [AUTH_REQ; AUTH_OK; AUTH_ERR; QUERY; RESULT_META; RESULT_COL; RESULT_END; QUERY_ERR;
   REPL_HELLO; REPL_WAL_PULL; REPL_WAL_BATCH; REPL_WAL_STALE; REPL_WAL_ACK;
   REPL_SNAPSHOT_REQ; REPL_SNAPSHOT_META; REPL_SNAPSHOT_DATA; REPL_SNAPSHOT_END;
   REPL_HEARTBEAT; REPL_VOTE_REQ; REPL_VOTE_RESP; REPL_FORWARD_WRITE; REPL_FORWARD_RESP;
   NOTIFY_LEADER; REGISTER_NODE].

(** [static_cast<FrameType>(b)] *)
Definition frame_of_code (b : Z) : FrameType :=
  match find (fun t => frame_code t =? b) frame_types with
  | Some t => t
  | None => FrameOther b
  end.

Definition frame_named (t : FrameType) : Prop :=
  match t with FrameOther _ => False | _ => True end.

Record FrameHeader : Type := mkFrameHeader {
  fh_length : Z;
  fh_type : FrameType;
  fh_query_id : Z
}.

Definition FRAME_HEADER_SIZE : Z := 9.

(** ** Encoders *)

Definition encode_u8 (buf : bytes) (v : Z) : bytes := buf ++ [v].

Definition encode_u16 (buf : bytes) (v : Z) : bytes :=
  buf ++ [Z.land v 0xFF; Z.land (Z.shiftr v 8) 0xFF].

Definition encode_u32 (buf : bytes) (v : Z) : bytes :=
  buf ++ [Z.land v 0xFF; Z.land (Z.shiftr v 8) 0xFF;
          Z.land (Z.shiftr v 16) 0xFF; Z.land (Z.shiftr v 24) 0xFF].

Definition encode_u64 (buf : bytes) (v : Z) : bytes :=
  fold_left (fun b i => b ++ [Z.land (Z.shiftr v (Z.of_nat i * 8)) 0xFF]) (seq 0 8) buf.

(** The length is stored as [static_cast<u16>(s.size())]. *)
Definition encode_str (buf : bytes) (s : string) : bytes :=
  encode_u16 buf (wrap 16 (strlen s)) ++ bytes_of_string s.

(** [None]: [std::get] of an alternative the variant does not hold throws. *)
Definition encode_value (buf : bytes) (v : Value) (t : TypeId) : option bytes :=
  match t, v with
  | INT32, VI32 x => Some (buf ++ le_bytes 4 (wrap 32 x))
  | INT64, VI64 x => Some (buf ++ le_bytes 8 (wrap 64 x))
  | DOUBLE, VF64 b => Some (buf ++ le_bytes 8 b)
  | BOOL, VBool b => Some (encode_u8 buf (if b then 1 else 0))
  | VARCHAR, VStr s => Some (encode_str buf s)
  | DATE, VDate d => Some (buf ++ le_bytes 4 (wrap 32 d))
  | TIMESTAMP, VTimestamp m => Some (buf ++ le_bytes 8 (wrap 64 m))
  | INT32, _ | INT64, _ | DOUBLE, _ | BOOL, _ | VARCHAR, _ | DATE, _ | TIMESTAMP, _ => None
  | _, _ => Some buf
  end.

Definition encode_header (buf : bytes) (t : FrameType) (qid payload_len : Z) : bytes :=
  let total := wrap 32 (FRAME_HEADER_SIZE + payload_len) in
  encode_u32 (encode_u8 (encode_u32 buf total) (frame_code t)) qid.

(** ** Decoders *)

Definition decode_u16 (p : bytes) : Z :=
  Z.lor (znth p 0) (Z.shiftl (znth p 1) 8).

(** [for (i < n) v |= p[i] << (i * 8)], starting at byte [i]. *)
Fixpoint or_bytes (p : bytes) (i n : nat) (v : Z) : Z :=
  match n with
  | O => v
  | S n' => or_bytes p (S i) n' (Z.lor v (Z.shiftl (znth p (Z.of_nat i)) (Z.of_nat i * 8)))
  end.

Definition decode_u32 (p : bytes) : Z := or_bytes p 0 4 0.

Definition decode_u64 (p : bytes) : Z := or_bytes p 0 8 0.

(** [false] is [None]; on [true] the header is written to [out]. *)
Definition decode_header (data : bytes) (len : Z) : option FrameHeader :=
  if len <? FRAME_HEADER_SIZE then None
  else
    let length := or_bytes data 0 4 0 in
    let type := frame_of_code (znth data 4) in
    let qid := or_bytes (drop 5 data) 0 4 0 in
    Some (mkFrameHeader length type qid).

(** ** Lemmas *)

Lemma encode_u16_le buf v : encode_u16 buf v = buf ++ le_bytes 2 v.
Proof. done. Qed.

Lemma encode_u32_le buf v : encode_u32 buf v = buf ++ le_bytes 4 v.
Proof. done. Qed.

Lemma encode_u64_le buf v : encode_u64 buf v = buf ++ le_bytes 8 v.
Proof. unfold encode_u64, le_bytes. cbn [seq fold_left map]. by rewrite <- !app_assoc. Qed.

Lemma or_bytes_le_from p n i :
  (i + n <= length p)%nat -> or_bytes p i n (le_val (take i p)) = le_val (take (i + n) p).
Proof.
  revert i. induction n as [|n IH]; intros i Hn; simpl; [by rewrite Nat.add_0_r|].
  destruct (lookup_lt_is_Some_2 p i) as [b Hb]; [lia|].
  replace (i + S n)%nat with (S i + n)%nat by lia. rewrite <- IH by lia.
  f_equal. rewrite (take_S_r p i b Hb), le_val_snoc.
  unfold znth, zlen. rewrite Nat2Z.id, (nth_lookup_Some _ _ _ _ Hb), length_take.
  do 2 f_equal. lia.
Qed.

Lemma or_bytes_le p n : (n <= length p)%nat -> or_bytes p 0 n 0 = le_val (take n p).
Proof. exact (or_bytes_le_from p n 0). Qed.

Lemma decode_u32_app v rest : in_u 32 v -> decode_u32 (le_bytes 4 v ++ rest) = v.
Proof.
  intros Hv. unfold decode_u32. rewrite or_bytes_le by (rewrite length_app, le_bytes_length; lia).
  rewrite take_app_length' by by rewrite le_bytes_length. by apply le_val_bytes.
Qed.

Lemma decode_u64_app v rest : in_u 64 v -> decode_u64 (le_bytes 8 v ++ rest) = v.
Proof.
  intros Hv. unfold decode_u64. rewrite or_bytes_le by (rewrite length_app, le_bytes_length; lia).
  rewrite take_app_length' by by rewrite le_bytes_length. by apply le_val_bytes.
Qed.

Lemma decode_u16_app v rest : in_u 16 v -> decode_u16 (le_bytes 2 v ++ rest) = v.
Proof.
  intros Hv. transitivity (le_val (le_bytes 2 v)); [|by apply le_val_bytes].
  change (le_bytes 2 v) with [Z.land v 255; Z.land (Z.shiftr v 8) 255].
  unfold decode_u16, le_val, znth. simpl. by rewrite Z.lor_0_r.
Qed.

Lemma frame_of_code_code t : frame_named t -> frame_of_code (frame_code t) = t.
Proof. by destruct t. Qed.

Lemma frame_code_range t : frame_named t -> is_byte (frame_code t).
Proof. destruct t; unfold in_u; simpl; done || lia. Qed.

(** The bytes of a header: 4 of length, 1 of type, 4 of query id. *)
Lemma encode_header_bytes buf t qid plen :
  encode_header buf t qid plen =
  buf ++ le_bytes 4 (wrap 32 (9 + plen)) ++ [frame_code t] ++ le_bytes 4 qid.
Proof. unfold encode_header, encode_u8. by rewrite !encode_u32_le, <- !app_assoc. Qed.

(** ** Properties *)

(** A frame header survives the wire: whatever follows it, [decode_header] returns the
    type and query id that [encode_header] was given and the total frame length. *)
Theorem decode_encode_header t qid plen rest :
  frame_named t -> in_u 32 qid -> in_u 32 (FRAME_HEADER_SIZE + plen) ->
  let data := encode_header [] t qid plen ++ rest in
  decode_header data (zlen data) =
    Some (mkFrameHeader (FRAME_HEADER_SIZE + plen) t qid).
Proof.
  intros Ht Hq Hl data. unfold data, decode_header.
  rewrite encode_header_bytes, app_nil_l, <- !app_assoc, wrap_id by done.
  set (d := le_bytes 4 _ ++ _).
  assert (Hd : zlen d = 9 + zlen rest).
  { unfold d, zlen. rewrite !length_app, !le_bytes_length. simpl length. lia. }
  rewrite (proj2 (Z.ltb_ge _ _)) by (unfold FRAME_HEADER_SIZE; pose proof (zlen_nonneg rest); lia).
  do 2 f_equal; unfold d.
  - by apply decode_u32_app.
  - by apply frame_of_code_code.
  - rewrite drop_app_ge by (rewrite le_bytes_length; lia). by apply decode_u32_app.
Qed.

Lemma decode_encode_header_witness :
  let data := encode_header [] QUERY 7 3 ++ [1; 2; 3] in
  decode_header data (zlen data) = Some (mkFrameHeader 12 QUERY 7).
Proof.
  apply (decode_encode_header QUERY 7 3 [1; 2; 3]).
  - exact I.
  - unfold in_u. lia.
  - unfold in_u, FRAME_HEADER_SIZE. lia.
Defined.
