(* ===== verification/XXHash.v ===== *)
(** * xxHash-64

    The checksum of pages and log records (src/src/common/xxhash.h), with every
    operation on 64-bit words.  The theorems bound the result and show which
    corruptions the checksum cannot miss: the part of the input after the last
    whole 32-byte stripe is absorbed by injective steps. *)

From S2P Require Import Prelude.

(** ** 64-bit words *)

Definition add64 (a b : Z) : Z := wrap 64 (a + b).
Definition sub64 (a b : Z) : Z := wrap 64 (a - b).
Definition mul64 (a b : Z) : Z := wrap 64 (a * b).

Definition XXH_PRIME1 : Z := 0x9E3779B185EBCA87.
Definition XXH_PRIME2 : Z := 0xC2B2AE3D27D4EB4F.
Definition XXH_PRIME3 : Z := 0x165667B19E3779F9.
Definition XXH_PRIME4 : Z := 0x85EBCA77C2B2AE63.
Definition XXH_PRIME5 : Z := 0x27D4EB2F165667C5.

Definition rotl64 (x r : Z) : Z :=
  Z.lor (wrap 64 (Z.shiftl x r)) (Z.shiftr x (64 - r)).

Definition read64 (p : bytes) : Z := le_val (take 8 p).
Definition read32 (p : bytes) : Z := le_val (take 4 p).

Definition xxh_round (acc input : Z) : Z :=
  mul64 (rotl64 (add64 acc (mul64 input XXH_PRIME2)) 31) XXH_PRIME1.

Definition xxh_merge_round (acc val : Z) : Z :=
  add64 (mul64 (Z.lxor acc (xxh_round 0 val)) XXH_PRIME1) XXH_PRIME4.

(** ** The three loops; [rem] is [end - p] *)

Record lanes : Type := mkLanes { v1 : Z; v2 : Z; v3 : Z; v4 : Z }.

(** One trip of the [do ... while (p <= limit)] loop. *)
Definition stripe (p : bytes) (v : lanes) : lanes :=
  mkLanes (xxh_round (v1 v) (read64 p))
          (xxh_round (v2 v) (read64 (drop 8 p)))
          (xxh_round (v3 v) (read64 (drop 16 p)))
          (xxh_round (v4 v) (read64 (drop 24 p))).

Fixpoint stripes (fuel : nat) (p : bytes) (rem : Z) (v : lanes) : bytes * Z * lanes :=
  match fuel with
  | O => (p, rem, v)
  | S f =>
      let v' := stripe p v in
      let p' := drop 32 p in
      let rem' := rem - 32 in
      if 32 <=? rem' then stripes f p' rem' v' else (p', rem', v')
  end.

Definition tail8_step (h k : Z) : Z :=
  add64 (mul64 (rotl64 (Z.lxor h (xxh_round 0 k)) 27) XXH_PRIME1) XXH_PRIME4.

Fixpoint tail8 (fuel : nat) (p : bytes) (rem h : Z) : bytes * Z * Z :=
  match fuel with
  | O => (p, rem, h)
  | S f =>
      if 8 <=? rem then tail8 f (drop 8 p) (rem - 8) (tail8_step h (read64 p))
      else (p, rem, h)
  end.

Definition tail4_step (h k : Z) : Z :=
  add64 (mul64 (rotl64 (Z.lxor h (mul64 k XXH_PRIME1)) 23) XXH_PRIME2) XXH_PRIME3.

Definition tail4 (p : bytes) (rem h : Z) : bytes * Z * Z :=
  if 4 <=? rem then (drop 4 p, rem - 4, tail4_step h (read32 p)) else (p, rem, h).

Definition tail1_step (h b : Z) : Z :=
  mul64 (rotl64 (Z.lxor h (mul64 b XXH_PRIME5)) 11) XXH_PRIME1.

Definition tail1 (p : bytes) (h : Z) : Z := fold_left tail1_step p h.

Definition avalanche (h : Z) : Z :=
  let h := Z.lxor h (Z.shiftr h 33) in
  let h := mul64 h XXH_PRIME2 in
  let h := Z.lxor h (Z.shiftr h 29) in
  let h := mul64 h XXH_PRIME3 in
  Z.lxor h (Z.shiftr h 32).

(** The bytes after the stripes and the final mix. *)
Definition finish (p : bytes) (rem h : Z) : Z :=
  let '(p, rem, h) := tail8 (length p) p rem h in
  let '(p, rem, h) := tail4 p rem h in
  avalanche (tail1 p h).

Definition merge_lanes (v : lanes) : Z :=
  let h := add64 (add64 (add64 (rotl64 (v1 v) 1) (rotl64 (v2 v) 7)) (rotl64 (v3 v) 12))
                 (rotl64 (v4 v) 18) in
  let h := xxh_merge_round h (v1 v) in
  let h := xxh_merge_round h (v2 v) in
  let h := xxh_merge_round h (v3 v) in
  xxh_merge_round h (v4 v).

Definition init_lanes (seed : Z) : lanes :=
  mkLanes (add64 (add64 seed XXH_PRIME1) XXH_PRIME2) (add64 seed XXH_PRIME2) seed
          (sub64 seed XXH_PRIME1).

Definition xxhash64_seed (data : bytes) (seed : Z) : Z :=
  let len := zlen data in
  if 32 <=? len then
    let '(p, rem, v) := stripes (length data) data len (init_lanes seed) in
    finish p rem (add64 (merge_lanes v) len)
  else
    finish data len (add64 (add64 seed XXH_PRIME5) len).

Definition xxhash64 (data : bytes) : Z := xxhash64_seed data 0.

(** Published test vectors of XXH64. *)
Example xxhash64_empty : xxhash64 [] = 0xEF46DB3751D8E999.
Proof. vm_compute. reflexivity. Qed.

Example xxhash64_abc : xxhash64 (bytes_of_string "abc") = 0x44BC2CF5AD770999.
Proof. vm_compute. reflexivity. Qed.

Example xxhash64_stripes :
  xxhash64 (bytes_of_string "Nobody inspects the spammish repetition") = 0xFBCEA83C8A378BF1.
Proof. vm_compute. reflexivity. Qed.

(** ** Every step keeps 64 bits *)

Abbreviation u64 := (in_u 64).

Lemma add64_range a b : u64 (add64 a b).
Proof. by apply wrap_range. Qed.

Lemma mul64_range a b : u64 (mul64 a b).
Proof. by apply wrap_range. Qed.

Lemma rotl64_range x r : 0 <= r <= 64 -> u64 x -> u64 (rotl64 x r).
Proof.
  intros. unfold rotl64. apply in_u_lor; [done|by apply wrap_range|].
  apply in_u_shiftr; [done|lia|done].
Qed.

#[local] Hint Resolve add64_range mul64_range rotl64_range : nyx.

Lemma xxh_round_range a i : u64 (xxh_round a i).
Proof. apply mul64_range. Qed.

Lemma tail8_step_range h k : u64 (tail8_step h k).
Proof. apply add64_range. Qed.

Lemma tail4_step_range h k : u64 (tail4_step h k).
Proof. apply add64_range. Qed.

Lemma tail1_step_range h k : u64 (tail1_step h k).
Proof. apply mul64_range. Qed.

#[local] Hint Resolve xxh_round_range tail8_step_range tail4_step_range tail1_step_range : nyx.

Lemma tail8_range fuel p rem h : u64 h -> u64 (snd (tail8 fuel p rem h)).
Proof.
  revert p rem h. induction fuel as [|f IH]; intros p rem h Hh; simpl; [done|].
  destruct (8 <=? rem); [|done]. apply IH, tail8_step_range.
Qed.

Lemma tail4_range p rem h : u64 h -> u64 (snd (tail4 p rem h)).
Proof. intros. unfold tail4. destruct (4 <=? rem); simpl; auto with nyx. Qed.

Lemma tail1_range p h : u64 h -> u64 (tail1 p h).
Proof.
  revert h. induction p as [|b p IH]; intros h Hh; simpl; [done|].
  apply IH, tail1_step_range.
Qed.

Lemma avalanche_range h : u64 h -> u64 (avalanche h).
Proof. intros. unfold avalanche. auto 10 with nyx. Qed.

Lemma finish_range p rem h : u64 h -> u64 (finish p rem h).
Proof.
  intros Hh. unfold finish. pose proof (tail8_range (length p) p rem h Hh) as H8.
  destruct (tail8 _ p rem h) as [[p8 rem8] h8]. simpl in H8.
  pose proof (tail4_range p8 rem8 h8 H8) as H4.
  destruct (tail4 p8 rem8 h8) as [[p4 rem4] h4]. simpl in H4.
  by apply avalanche_range, tail1_range.
Qed.

(** ** The steps are injective *)

(** Multiplication by an odd constant has an inverse modulo [2 ^ 64]. *)
Lemma mul64_inj c c' a b :
  (c * c') mod 2 ^ 64 = 1 -> u64 a -> u64 b -> mul64 a c = mul64 b c -> a = b.
Proof.
  intros Hc Ha Hb H.
  assert (Hinv : forall x, u64 x -> mul64 (mul64 x c) c' = x).
  { intros x Hx. unfold mul64, wrap. rewrite Z.mul_mod_idemp_l, <- Z.mul_assoc by lia.
    rewrite <- Z.mul_mod_idemp_r, Hc, Z.mul_1_r by lia. by apply Z.mod_small. }
  by rewrite <- (Hinv a Ha), H, Hinv.
Qed.

Lemma mul_prime1_inj a b : u64 a -> u64 b -> mul64 a XXH_PRIME1 = mul64 b XXH_PRIME1 -> a = b.
Proof. by apply (mul64_inj _ 0x0887493432BADB37). Qed.

Lemma mul_prime2_inj a b : u64 a -> u64 b -> mul64 a XXH_PRIME2 = mul64 b XXH_PRIME2 -> a = b.
Proof. by apply (mul64_inj _ 0x0BA79078168D4BAF). Qed.

Lemma mul_prime3_inj a b : u64 a -> u64 b -> mul64 a XXH_PRIME3 = mul64 b XXH_PRIME3 -> a = b.
Proof. by apply (mul64_inj _ 0xE9E9F4C41D6DF849). Qed.

Lemma mul_prime5_inj a b : u64 a -> u64 b -> mul64 a XXH_PRIME5 = mul64 b XXH_PRIME5 -> a = b.
Proof. by apply (mul64_inj _ 0xC592C09FDFBA7F0D). Qed.

Lemma add64_inj c a b : u64 a -> u64 b -> add64 a c = add64 b c -> a = b.
Proof. unfold add64, wrap, in_u. zlia. Qed.

Lemma add64_inj_r c a b : u64 a -> u64 b -> add64 c a = add64 c b -> a = b.
Proof. unfold add64, wrap, in_u. zlia. Qed.

Lemma lxor_inj c a b : Z.lxor a c = Z.lxor b c -> a = b.
Proof.
  intros H. apply (f_equal (fun x => Z.lxor x c)) in H.
  by rewrite !Z.lxor_assoc, Z.lxor_nilpotent, !Z.lxor_0_r in H.
Qed.

Lemma lxor_inj_r c a b : Z.lxor c a = Z.lxor c b -> a = b.
Proof. rewrite !(Z.lxor_comm c). apply lxor_inj. Qed.

Lemma rotl64_testbit x r j : u64 x -> 0 < r < 64 -> 0 <= j < 64 ->
  Z.testbit (rotl64 x r) ((j + r) mod 64) = Z.testbit x j.
Proof.
  intros Hx Hr Hj. unfold rotl64.
  rewrite Z.lor_spec, wrap_testbit, Z.shiftl_spec, Z.shiftr_spec by zlia.
  destruct (Z.ltb_spec (j + r) 64).
  - rewrite Z.mod_small by lia. replace (j + r - r) with j by lia.
    rewrite (in_u_testbit 64 x (j + r + (64 - r))) by (done || lia). apply orb_false_r.
  - replace ((j + r) mod 64) with (j + r - 64) by zlia.
    rewrite Z.testbit_neg_r by lia. simpl. f_equal. lia.
Qed.

Lemma rotl64_inj r x y : 0 < r < 64 -> u64 x -> u64 y -> rotl64 x r = rotl64 y r -> x = y.
Proof.
  intros Hr Hx Hy H. apply Z.bits_inj'. intros j Hj. destruct (Z.ltb_spec j 64).
  - by rewrite <- (rotl64_testbit x r j), H, rotl64_testbit by (done || lia).
  - by rewrite !(in_u_testbit 64) by (done || lia).
Qed.

(** [h ^= h >> k] is undone by shifting again. *)
Lemma xorshift_inj k a b : 22 <= k -> u64 a -> u64 b ->
  Z.lxor a (Z.shiftr a k) = Z.lxor b (Z.shiftr b k) -> a = b.
Proof.
  intros Hk Ha Hb H.
  assert (Hinv : forall x, u64 x -> let g := Z.lxor x (Z.shiftr x k) in
    Z.lxor g (Z.lxor (Z.shiftr g k) (Z.shiftr g (2 * k))) = x).
  { intros x Hx g. apply Z.bits_inj'. intros i Hi. unfold g.
    rewrite !Z.lxor_spec, !Z.shiftr_spec, !Z.lxor_spec, !Z.shiftr_spec by lia.
    replace (i + k + k) with (i + 2 * k) by lia.
    rewrite (in_u_testbit 64 x (i + 2 * k + k)) by (done || lia).
    by destruct (Z.testbit x i), (Z.testbit x (i + k)), (Z.testbit x (i + 2 * k)). }
  by rewrite <- (Hinv a Ha), H, Hinv.
Qed.

Lemma xxh_round_inj acc a b : u64 a -> u64 b -> xxh_round acc a = xxh_round acc b -> a = b.
Proof.
  intros Ha Hb H. apply mul_prime1_inj in H; [|auto with nyx..].
  apply rotl64_inj in H; [|lia|auto with nyx..].
  apply add64_inj_r in H; [|auto with nyx..]. by apply mul_prime2_inj in H.
Qed.

Lemma tail8_step_inj_h k a b : u64 a -> u64 b -> tail8_step a k = tail8_step b k -> a = b.
Proof.
  intros Ha Hb H. apply add64_inj in H; [|auto with nyx..].
  apply mul_prime1_inj in H; [|auto with nyx..].
  apply rotl64_inj in H; [by apply lxor_inj in H|lia|auto with nyx..].
Qed.

Lemma tail8_step_inj_k h a b : u64 h -> u64 a -> u64 b -> tail8_step h a = tail8_step h b -> a = b.
Proof.
  intros Hh Ha Hb H. apply add64_inj in H; [|auto with nyx..].
  apply mul_prime1_inj in H; [|auto with nyx..].
  apply rotl64_inj in H; [|lia|auto with nyx..].
  apply lxor_inj_r in H. by apply xxh_round_inj in H.
Qed.

Lemma tail4_step_inj_h k a b : u64 a -> u64 b -> tail4_step a k = tail4_step b k -> a = b.
Proof.
  intros Ha Hb H. apply add64_inj in H; [|auto with nyx..].
  apply mul_prime2_inj in H; [|auto with nyx..].
  apply rotl64_inj in H; [by apply lxor_inj in H|lia|auto with nyx..].
Qed.

Lemma tail4_step_inj_k h a b : u64 h -> u64 a -> u64 b -> tail4_step h a = tail4_step h b -> a = b.
Proof.
  intros Hh Ha Hb H. apply add64_inj in H; [|auto with nyx..].
  apply mul_prime2_inj in H; [|auto with nyx..].
  apply rotl64_inj in H; [|lia|auto with nyx..].
  apply lxor_inj_r in H. by apply mul_prime1_inj in H.
Qed.

Lemma tail1_step_inj_h k a b : u64 a -> u64 b -> tail1_step a k = tail1_step b k -> a = b.
Proof.
  intros Ha Hb H. apply mul_prime1_inj in H; [|auto with nyx..].
  apply rotl64_inj in H; [by apply lxor_inj in H|lia|auto with nyx..].
Qed.

Lemma tail1_step_inj_k h a b : u64 h -> u64 a -> u64 b -> tail1_step h a = tail1_step h b -> a = b.
Proof.
  intros Hh Ha Hb H. apply mul_prime1_inj in H; [|auto with nyx..].
  apply rotl64_inj in H; [|lia|auto with nyx..].
  apply lxor_inj_r in H. by apply mul_prime5_inj in H.
Qed.

Lemma avalanche_inj a b : u64 a -> u64 b -> avalanche a = avalanche b -> a = b.
Proof.
  intros Ha Hb H. unfold avalanche in H.
  apply xorshift_inj in H; [|lia|auto 8 with nyx..].
  apply mul_prime3_inj in H; [|auto 8 with nyx..].
  apply xorshift_inj in H; [|lia|auto 8 with nyx..].
  apply mul_prime2_inj in H; [|auto 8 with nyx..].
  apply xorshift_inj in H; [done|lia|done..].
Qed.

(** ** Corruption of one byte *)

(** [q] is [p] with one byte changed. *)
Definition one_byte_off (p q : bytes) : Prop :=
  exists a x y c, p = a ++ x :: c /\ q = a ++ y :: c /\ x <> y.

Lemma one_byte_off_neq p q : one_byte_off p q -> p <> q.
Proof. intros (a & x & y & c & -> & -> & Hxy) H. by simplify_eq. Qed.

Lemma one_byte_off_length p q : one_byte_off p q -> length p = length q.
Proof. intros (a & x & y & c & -> & -> & _). by rewrite !length_app. Qed.

Lemma one_byte_off_split n p q : one_byte_off p q ->
  (one_byte_off (take n p) (take n q) /\ drop n p = drop n q) \/
  (take n p = take n q /\ one_byte_off (drop n p) (drop n q)).
Proof.
  intros (a & x & y & c & -> & -> & Hxy). destruct (Nat.lt_ge_cases (length a) n) as [Hn|Hn].
  - left. replace n with (length a + S (n - S (length a)))%nat by lia.
    rewrite !take_app_add, !drop_app_add. simpl. split; [|done]. by eexists _, x, y, _.
  - right. rewrite !take_app_le, !drop_app_le by done. split; [done|]. by eexists _, x, y, _.
Qed.

Lemma le_val_inj p q :
  length p = length q -> Forall is_byte p -> Forall is_byte q -> le_val p = le_val q -> p = q.
Proof.
  intros Hl Hp Hq H. by rewrite <- (le_bytes_val p), <- (le_bytes_val q), Hl, H.
Qed.

Lemma read_range n p : (n <= 8)%nat -> Forall is_byte p -> u64 (le_val (take n p)).
Proof.
  intros Hn Hp. destruct (le_val_bound (take n p)) as [H1 H2]; [by apply Forall_take|].
  split; [done|]. eapply Z.lt_le_trans; [exact H2|].
  apply Z.pow_le_mono_r; [lia|]. unfold zlen. rewrite length_take. lia.
Qed.

Lemma read_neq n p q :
  one_byte_off (take n p) (take n q) -> Forall is_byte p -> Forall is_byte q ->
  le_val (take n p) <> le_val (take n q).
Proof.
  intros Ho Hp Hq H. apply (one_byte_off_neq _ _ Ho).
  apply le_val_inj; [by apply one_byte_off_length|by apply Forall_take..|done].
Qed.

Lemma tail1_inj_h p a b : u64 a -> u64 b -> tail1 p a = tail1 p b -> a = b.
Proof.
  revert a b. induction p as [|x p IH]; intros a b Ha Hb H; simpl in H; [done|].
  apply IH in H; [|auto with nyx..]. by apply tail1_step_inj_h in H.
Qed.

Lemma tail1_detects p q h : u64 h -> Forall is_byte p -> Forall is_byte q ->
  one_byte_off p q -> tail1 p h <> tail1 q h.
Proof.
  intros Hh Hp Hq (a & x & y & c & -> & -> & Hxy) H. unfold tail1 in H.
  rewrite !fold_left_app in H. simpl in H.
  rewrite Forall_app, Forall_cons in Hp, Hq. destruct Hp as (_ & Hx & _), Hq as (_ & Hy & _).
  apply tail1_inj_h in H; [|auto with nyx..]. apply tail1_step_inj_k in H; [done| | |].
  - by apply (tail1_range a).
  - destruct Hx. split; lia.
  - destruct Hy. split; lia.
Qed.

(** The bytes after the 8-byte words. *)
Definition finish4 (p : bytes) (rem h : Z) : Z :=
  let '(p, rem, h) := tail4 p rem h in avalanche (tail1 p h).

Lemma finish4_inj_h p rem a b : u64 a -> u64 b -> finish4 p rem a = finish4 p rem b -> a = b.
Proof.
  intros Ha Hb. unfold finish4, tail4. destruct (4 <=? rem); intros H;
    apply avalanche_inj in H; try (apply tail1_range; auto with nyx);
    apply tail1_inj_h in H; auto with nyx. by apply tail4_step_inj_h in H.
Qed.

Lemma finish4_detects p q rem h : u64 h -> Forall is_byte p -> Forall is_byte q ->
  one_byte_off p q -> finish4 p rem h <> finish4 q rem h.
Proof.
  intros Hh Hp Hq Ho. unfold finish4, tail4. destruct (4 <=? rem); intros H;
    apply avalanche_inj in H; try (apply tail1_range; auto with nyx); revert H.
  - destruct (one_byte_off_split 4 p q Ho) as [[Hw ->]|[Hw Hd]].
    + intros H. apply tail1_inj_h in H; [|auto with nyx..].
      apply tail4_step_inj_k in H; [by apply (read_neq 4 p q) in H| done | |];
        apply read_range; by lia || done.
    + unfold read32. rewrite Hw. apply tail1_detects; auto with nyx; by apply Forall_drop.
  - by apply tail1_detects.
Qed.

Definition finish_fuel (fuel : nat) (p : bytes) (rem h : Z) : Z :=
  let '(p, rem, h) := tail8 fuel p rem h in finish4 p rem h.

Lemma finish_fuel_inj_h fuel p rem a b :
  u64 a -> u64 b -> finish_fuel fuel p rem a = finish_fuel fuel p rem b -> a = b.
Proof.
  revert p rem a b. induction fuel as [|f IH]; intros p rem a b Ha Hb; unfold finish_fuel; simpl.
  - by apply finish4_inj_h.
  - destruct (8 <=? rem); [|by apply finish4_inj_h].
    intros H. apply IH in H; [|auto with nyx..]. by apply tail8_step_inj_h in H.
Qed.

Lemma finish_fuel_detects fuel p q rem h : u64 h -> Forall is_byte p -> Forall is_byte q ->
  one_byte_off p q -> finish_fuel fuel p rem h <> finish_fuel fuel q rem h.
Proof.
  revert p q rem h. induction fuel as [|f IH]; intros p q rem h Hh Hp Hq Ho;
    unfold finish_fuel; simpl; [by apply finish4_detects|].
  destruct (8 <=? rem); [|by apply finish4_detects].
  destruct (one_byte_off_split 8 p q Ho) as [[Hw ->]|[Hw Hd]].
  - intros H. apply (finish_fuel_inj_h f) in H; [|auto with nyx..].
    apply tail8_step_inj_k in H; [by apply (read_neq 8 p q) in H|done| |];
      apply read_range; by lia || done.
  - unfold read64. rewrite Hw. apply (IH (drop 8 p) (drop 8 q)); auto with nyx;
      by apply Forall_drop.
Qed.

(** The stripe loop terminates with less than 32 bytes left, whatever they are. *)
Lemma stripes_app k fuel pre v :
  length pre = (32 * k)%nat -> (1 <= k <= fuel)%nat ->
  exists v', forall t, zlen t < 32 ->
    stripes fuel (pre ++ t) (zlen pre + zlen t) v = (t, zlen t, v').
Proof.
  revert fuel pre v. induction k as [|k IH]; intros fuel pre v Hl Hk; [lia|].
  destruct fuel as [|f]; [lia|]. simpl.
  rewrite <- (take_drop 32 pre). set (w := take 32 pre). set (pre' := drop 32 pre).
  assert (Hw : length w = 32%nat) by (unfold w; rewrite length_take; lia).
  assert (Hp : length pre' = (32 * k)%nat) by (unfold pre'; rewrite length_drop; lia).
  assert (Hstripe : forall t, stripe ((w ++ pre') ++ t) v = stripe w v).
  { intros t. rewrite <- app_assoc. unfold stripe, read64.
    by rewrite !drop_app_le, !take_app_le by (rewrite ?length_drop, ?Hw; lia). }
  destruct (decide (k = 0%nat)) as [->|Hk0].
  - exists (stripe w v). intros t Ht. rewrite Hstripe.
    destruct pre'; [|done]. rewrite app_nil_r, drop_app_length' by done.
    unfold zlen in *. rewrite Hw. destruct (Z.leb_spec 32 (Z.of_nat 32 + Z.of_nat (length t) - 32)); [lia|].
    f_equal. f_equal. lia.
  - destruct (IH f pre' (stripe w v) Hp) as [v' Hv']; [lia|]. exists v'. intros t Ht.
    rewrite Hstripe, <- app_assoc, drop_app_length' by done.
    replace (zlen (w ++ pre') + zlen t - 32) with (zlen pre' + zlen t)
      by (unfold zlen; rewrite length_app, Hw; lia).
    destruct (Z.leb_spec 32 (zlen pre' + zlen t)) as [_|Hc]; [by apply Hv'|].
    exfalso. revert Hc. unfold zlen. rewrite Hp. lia.
Qed.

(** The lanes only depend on the whole stripes. *)
Lemma xxhash64_as_finish pre seed n :
  (length pre mod 32 = 0)%nat -> (n < 32)%nat ->
  exists h, forall t, length t = n -> xxhash64_seed (pre ++ t) seed = finish t (zlen t) h /\ u64 h.
Proof.
  intros Hpre Hn. unfold xxhash64_seed.
  assert (Hz : forall t, length t = n -> zlen (pre ++ t) = zlen pre + Z.of_nat n).
  { intros t Ht. rewrite zlen_app. unfold zlen. lia. }
  destruct (decide (pre = [])) as [->|Hne].
  - exists (add64 (add64 seed XXH_PRIME5) (Z.of_nat n)). intros t Ht. simpl.
    unfold zlen. rewrite Ht. split; [|auto with nyx].
    destruct (Z.leb_spec 32 (Z.of_nat n)); [lia|done].
  - assert (Hk : exists k, length pre = (32 * k)%nat /\ (1 <= k)%nat).
    { exists (length pre / 32)%nat. assert (length pre <> 0%nat) by (by destruct pre).
      pose proof (Nat.div_mod_eq (length pre) 32). lia. }
    destruct Hk as (k & Hk & Hk1).
    destruct (stripes_app k (length pre + n) pre (init_lanes seed) Hk) as [v' Hv']; [lia|].
    exists (add64 (merge_lanes v') (zlen pre + Z.of_nat n)). intros t Ht.
    rewrite Hz, length_app, Ht by done. split; [|auto with nyx].
    destruct (Z.leb_spec 32 (zlen pre + Z.of_nat n)); [|unfold zlen in *; lia].
    rewrite <- Ht at 2. fold (zlen t). by rewrite Hv' by (unfold zlen; lia).
Qed.

Lemma xxhash64_in_u data : u64 (xxhash64 data).
Proof.
  unfold xxhash64, xxhash64_seed. destruct (32 <=? zlen data).
  - destruct (stripes _ _ _ _) as [[p rem] v]. apply finish_range. auto with nyx.
  - apply finish_range. auto with nyx.
Qed.

Lemma xxhash64_detects pre p q :
  (length pre mod 32 = 0)%nat -> (length p < 32)%nat ->
  Forall is_byte p -> Forall is_byte q -> one_byte_off p q ->
  xxhash64 (pre ++ p) <> xxhash64 (pre ++ q).
Proof.
  intros Hpre Hn Hp Hq Ho H. unfold xxhash64 in H.
  destruct (xxhash64_as_finish pre 0 (length p) Hpre Hn) as [h Hh].
  destruct (Hh p eq_refl) as [Ep Hu]. pose proof (one_byte_off_length p q Ho) as Hl.
  destruct (Hh q (eq_sym Hl)) as [Eq _]. rewrite Ep, Eq in H. revert H.
  unfold zlen. unfold finish. rewrite <- Hl. by apply (finish_fuel_detects (length p) p q).
Qed.

(** ** Properties *)

(** The checksum is a 64-bit word, for every input and seed. *)
Theorem xxhash64_range data : u64 (xxhash64 data).
Proof. apply xxhash64_in_u. Qed.

(** After the last whole 32-byte stripe, a change of any one byte changes the
    checksum. *)
Theorem xxhash64_detects_tail_corruption pre p q :
  (length pre mod 32 = 0)%nat -> (length p < 32)%nat ->
  Forall is_byte p -> Forall is_byte q -> one_byte_off p q ->
  xxhash64 (pre ++ p) <> xxhash64 (pre ++ q).
Proof.
  apply xxhash64_detects.
Qed.

Lemma xxhash64_detects_tail_corruption_witness :
  xxhash64 (replicate 32 0 ++ [1; 2; 3]) <> xxhash64 (replicate 32 0 ++ [1; 9; 3]).
Proof.
  apply (xxhash64_detects_tail_corruption (replicate 32 0) [1; 2; 3] [1; 9; 3]).
  - reflexivity.
  - simpl; lia.
  - repeat constructor; vm_compute; congruence.
  - repeat constructor; vm_compute; congruence.
  - exists [1], 2, 9, [3]. repeat split; congruence.
Defined.
