(* ===== verification/Page.v ===== *)
(** * Pages and the disk manager

    [Page] (src/src/storage/disk/page.h) and [DiskManager]
    (src/src/storage/disk/disk_manager.h, disk_manager.cpp).  A page is the 8192
    bytes the file holds; its header fields are read from and written to those
    bytes.  The file behind the descriptor is a list of bytes: [pread] returns the
    bytes that exist, [pwrite] past the end fills the gap with zeros.  Failures of
    the operating system (EIO, a full disk) are not modelled. *)

From S2P Require Import Prelude XXHash.

(** ** Pages *)

Definition PAGE_SIZE : Z := 8192.
Definition PAGE_HEADER_SIZE : Z := 24.
Definition PAGE_PAYLOAD_SIZE : Z := PAGE_SIZE - PAGE_HEADER_SIZE.
Definition INVALID_PAGE_ID : Z := 2 ^ 64 - 1.

Lemma PAGE_SIZE_eq : PAGE_SIZE = 8192.
Proof. reflexivity. Qed.

Record Page : Type := mkPage {
  pin_count : Z;
  dirty : bool;
  data : bytes
}.

(** [Page p{}]: the member initialisers. *)
Definition page_init : Page := mkPage 0 false (zeros PAGE_SIZE).

Definition set_data (p : Page) (d : bytes) : Page := mkPage (pin_count p) (dirty p) d.
Definition set_pin_count (p : Page) (n : Z) : Page := mkPage n (dirty p) (data p).

(** [header()->page_id], [header()->checksum], [payload()] *)
Definition page_id (p : Page) : Z := le_val (slice 0 8 (data p)).
Definition checksum (p : Page) : Z := le_val (slice 8 8 (data p)).
Definition payload (p : Page) : bytes := drop (Z.to_nat PAGE_HEADER_SIZE) (data p).

Definition set_page_id (p : Page) (id : Z) : Page :=
  set_data p (splice 0 (le_bytes 8 id) (data p)).
Definition set_checksum (p : Page) (c : Z) : Page :=
  set_data p (splice 8 (le_bytes 8 c) (data p)).
Definition set_payload (p : Page) (pl : bytes) : Page :=
  set_data p (take (Z.to_nat PAGE_HEADER_SIZE) (data p) ++ pl).

Definition reset (p : Page) (id : Z) : Page :=
  set_page_id (mkPage 0 false (zeros PAGE_SIZE)) id.

Definition page_wf (p : Page) : Prop :=
  zlen (data p) = PAGE_SIZE /\ Forall is_byte (data p).

(** ** Disk manager *)

Record DiskManager : Type := mkDisk {
  next_page_id_ : Z;
  content : bytes
}.

(** The constructor, on the file found at the path. *)
Definition disk_open (file : bytes) : DiskManager :=
  mkDisk (zlen file / PAGE_SIZE) file.

Definition page_count (d : DiskManager) : Z := next_page_id_ d.

Definition offset (id : Z) : Z := id * PAGE_SIZE.

(** [pread(fd, buf, n, off)]: the bytes read. *)
Definition pread (file : bytes) (n off : Z) : bytes := slice off n file.

(** [pwrite(fd, bs, n, off)]: the new file. *)
Definition pwrite (file bs : bytes) (off : Z) : bytes :=
  if off <=? zlen file then splice off bs file
  else file ++ zeros (off - zlen file) ++ bs.

(** The result and the page [out] after the call. *)
Definition read_page (d : DiskManager) (id : Z) (out : Page) : result unit * Page :=
  if next_page_id_ d <=? id then
    (Err ("read_page: page " +:+ pretty id +:+ " out of range"), out)
  else
    let got := pread (content d) PAGE_SIZE (offset id) in
    let out := set_data out (splice 0 got (data out)) in
    if negb (zlen got =? PAGE_SIZE) then
      (Err ("read_page: short read on page " +:+ pretty id), out)
    else if negb (page_id out =? id) then
      (Err ("read_page: page_id mismatch on page " +:+ pretty id), out)
    else if negb (checksum out =? xxhash64 (payload out)) then
      (Err ("read_page: checksum mismatch on page " +:+ pretty id), out)
    else (Ok tt, out).

Definition write_page (d : DiskManager) (page : Page) : result unit * DiskManager :=
  let id := page_id page in
  if id =? INVALID_PAGE_ID then (Err "write_page: page has INVALID_PAGE_ID", d)
  else
    let tmp := set_page_id page id in
    let tmp := set_checksum tmp (xxhash64 (payload tmp)) in
    (Ok tt, mkDisk (next_page_id_ d) (pwrite (content d) (data tmp) (offset id))).

Definition allocate_page (d : DiskManager) : result Z * DiskManager :=
  let id := next_page_id_ d in
  let d := mkDisk (wrap 64 (next_page_id_ d + 1)) (content d) in
  let blank := reset page_init id in
  let '(res, d) := write_page d blank in
  match res with
  | Err e => (Err e, d)
  | Ok _ => (Ok id, d)
  end.

Definition reserve_page_id (d : DiskManager) : Z * DiskManager :=
  (next_page_id_ d, mkDisk (wrap 64 (next_page_id_ d + 1)) (content d)).

(** [ftruncate] cuts the file or extends it with zeros. *)
Definition truncate (d : DiskManager) (page_count : Z) : result unit * DiskManager :=
  let n := page_count * PAGE_SIZE in
  (Ok tt, mkDisk page_count
            (take (Z.to_nat n) (content d) ++ zeros (n - zlen (content d)))).

(** ** Lemmas on page headers *)

Lemma page_wf_reset p id : page_wf (reset p id).
Proof.
  unfold reset, set_page_id, page_wf. simpl. split.
  - rewrite zlen_splice; rewrite ?zlen_le_bytes, ?zlen_zeros; done.
  - auto with nyx.
Qed.

Section header.
Context (p : Page).
Hypothesis Hwf : page_wf p.

Lemma set_page_id_wf id : page_wf (set_page_id p id).
Proof using Hwf.
  destruct Hwf as [Hl Hb]. split; simpl.
  - rewrite zlen_splice; [done|done|]. rewrite Hl. by rewrite zlen_le_bytes.
  - auto with nyx.
Qed.

Lemma set_checksum_wf c : page_wf (set_checksum p c).
Proof using Hwf.
  destruct Hwf as [Hl Hb]. split; simpl.
  - rewrite zlen_splice; [done|done|]. rewrite Hl. by rewrite zlen_le_bytes.
  - auto with nyx.
Qed.

Lemma page_id_range : in_u 64 (page_id p).
Proof using Hwf.
  destruct Hwf as [Hl Hb]. unfold page_id.
  pose proof (le_val_bound (slice 0 8 (data p)) (Forall_slice _ _ _ _ Hb)) as H.
  unfold zlen in H. rewrite slice_length in H by (rewrite ?Hl; unfold PAGE_SIZE; lia). done.
Qed.

Lemma page_id_set_page_id id : in_u 64 id -> page_id (set_page_id p id) = id.
Proof using Hwf.
  destruct Hwf as [Hl _]. intros Hid. unfold page_id. simpl.
  rewrite slice_splice_same; [by apply le_val_bytes|done|by rewrite Hl|by rewrite zlen_le_bytes].
Qed.

Lemma page_id_set_checksum c : page_id (set_checksum p c) = page_id p.
Proof using Hwf.
  destruct Hwf as [Hl _]. unfold page_id. simpl.
  rewrite slice_splice_before; try done. rewrite Hl. done.
Qed.

Lemma checksum_set_checksum c : in_u 64 c -> checksum (set_checksum p c) = c.
Proof using Hwf.
  destruct Hwf as [Hl _]. intros Hc. unfold checksum. simpl.
  rewrite slice_splice_same; [by apply le_val_bytes|done|by rewrite Hl|by rewrite zlen_le_bytes].
Qed.

Lemma payload_splice off bs :
  0 <= off -> off + zlen bs <= PAGE_HEADER_SIZE ->
  drop (Z.to_nat PAGE_HEADER_SIZE) (splice off bs (data p)) = payload p.
Proof using Hwf.
  destruct Hwf as [Hl _]. intros H1 H2. unfold payload, splice.
  unfold zlen, PAGE_SIZE, PAGE_HEADER_SIZE in *.
  rewrite drop_app_ge by (rewrite length_take; lia).
  rewrite drop_app_ge by (rewrite length_take; lia).
  rewrite drop_drop, length_take. f_equal. lia.
Qed.

Lemma payload_set_page_id id : payload (set_page_id p id) = payload p.
Proof using Hwf.
  apply payload_splice; [done|]. by rewrite zlen_le_bytes.
Qed.

Lemma payload_set_checksum c : payload (set_checksum p c) = payload p.
Proof using Hwf.
  apply payload_splice; [done|]. by rewrite zlen_le_bytes.
Qed.

(** Writing the id the page already carries changes nothing. *)
Lemma set_page_id_same : set_page_id p (page_id p) = p.
Proof using Hwf.
  destruct Hwf as [Hl Hb]. unfold set_page_id, set_data, page_id.
  assert (He : le_bytes 8 (le_val (slice 0 8 (data p))) = slice 0 8 (data p)).
  { rewrite <- (le_bytes_val (slice 0 8 (data p))) at 2 by by apply Forall_slice.
    f_equal. by rewrite slice_length by (rewrite ?Hl; unfold PAGE_SIZE; lia). }
  rewrite He. destruct p as [n dt d]. f_equal. unfold splice.
  rewrite slice_length by (rewrite ?Hl; unfold PAGE_SIZE; lia).
  apply (take_drop 8 d).
Qed.
End header.

#[export] Hint Resolve page_wf_reset set_page_id_wf set_checksum_wf page_id_range : nyx.

(** ** Lemmas on the file *)

Lemma splice_full {A} (src l : list A) : length src = length l -> splice 0 src l = src.
Proof.
  intros H. unfold splice. simpl. rewrite drop_ge by lia. apply app_nil_r.
Qed.

Lemma pread_pwrite_same f bs off n :
  0 <= off -> zlen bs = n -> pread (pwrite f bs off) n off = bs.
Proof.
  intros Ho Hn. unfold pread, pwrite. destruct (Z.leb_spec off (zlen f)).
  - by apply slice_splice_same.
  - unfold slice. rewrite app_assoc, drop_app_length'.
    + apply take_ge. unfold zlen in Hn. lia.
    + pose proof (zlen_zeros (off - zlen f)). unfold zlen in *. rewrite length_app. lia.
Qed.

Lemma pread_pwrite_other f bs off off' n :
  0 <= off -> 0 <= off' -> 0 <= n -> off' + n <= zlen f ->
  off' + n <= off \/ off + zlen bs <= off' ->
  pread (pwrite f bs off) n off' = pread f n off'.
Proof.
  intros Ho Ho' Hn Hf Hd. unfold pread, pwrite. destruct (Z.leb_spec off (zlen f)).
  - destruct Hd; [by apply slice_splice_before|].
    apply slice_splice_after; [done..|lia].
  - unfold slice, zlen in *. rewrite !take_drop_commute. f_equal. apply take_app_le. lia.
Qed.

Lemma page_windows id id' : id <> id' ->
  offset id' + PAGE_SIZE <= offset id \/ offset id + PAGE_SIZE <= offset id'.
Proof. unfold offset, PAGE_SIZE. lia. Qed.

(** When [read_page] succeeds, and what it then leaves in the page. *)
Lemma read_page_ok_iff d id out out' : page_wf out ->
  read_page d id out = (Ok tt, out') <->
  let got := pread (content d) PAGE_SIZE (offset id) in
  id < next_page_id_ d /\ zlen got = PAGE_SIZE /\ out' = set_data out got /\
  page_id out' = id /\ checksum out' = xxhash64 (payload out').
Proof.
  intros [Hl _]. cbv zeta. unfold read_page.
  destruct (Z.leb_spec (next_page_id_ d) id); [split; [done|lia]|].
  destruct (Z.eqb_spec (zlen (pread (content d) PAGE_SIZE (offset id))) PAGE_SIZE) as [Hg|Hg];
    simpl negb; cbv iota; [|by split; [|intros (_ & ? & _)]].
  rewrite splice_full by (unfold zlen in *; lia).
  set (o := set_data out _).
  destruct (Z.eqb_spec (page_id o) id); simpl negb; cbv iota;
    [|by split; [|intros (_ & _ & -> & ? & _)]].
  destruct (Z.eqb_spec (checksum o) (xxhash64 (payload o))); simpl negb; cbv iota.
  - split; [by intros [= <-]|by intros (_ & _ & -> & _)].
  - by split; [|intros (_ & _ & -> & _ & ?)].
Qed.

(** The bytes [write_page] stores. *)
Definition sealed (p : Page) : Page := set_checksum p (xxhash64 (payload p)).

Lemma write_page_ok p d : page_wf p -> page_id p <> INVALID_PAGE_ID ->
  write_page d p =
    (Ok tt, mkDisk (next_page_id_ d) (pwrite (content d) (data (sealed p)) (offset (page_id p)))).
Proof.
  intros Hwf Hid. unfold write_page. rewrite (proj2 (Z.eqb_neq _ _) Hid).
  by rewrite set_page_id_same.
Qed.

Lemma page_payload_ext p q : data p = data q -> payload p = payload q.
Proof. unfold payload. by intros ->. Qed.

(** ** One corrupted byte of the file *)

Lemma one_byte_off_insert (l : bytes) i x b :
  l !! i = Some x -> x <> b -> one_byte_off l (<[i := b]> l).
Proof.
  intros Hx Hne. exists (take i l), x, b, (drop (S i) l). split_and!; [|apply insert_take_drop|done].
  - by rewrite <- drop_S, take_drop.
  - by eapply lookup_lt_Some.
Qed.

Lemma slice_insert_in (l : bytes) off n k b : 0 <= off -> 0 <= k < n ->
  slice off n (<[Z.to_nat (off + k) := b]> l) = <[Z.to_nat k := b]> (slice off n l).
Proof.
  intros. unfold slice. rewrite drop_insert_ge, take_insert_lt by lia. do 2 f_equal. lia.
Qed.

Lemma slice_insert_out (l : bytes) off n k b : 0 <= off -> 0 <= n -> 0 <= k -> k < off \/ off + n <= k ->
  slice off n (<[Z.to_nat k := b]> l) = slice off n l.
Proof.
  intros Ho Hn Hk [H|H]; unfold slice.
  - by rewrite drop_insert_lt by lia.
  - rewrite !take_drop_commute. by rewrite take_insert_ge by lia.
Qed.

(** A field read from a corrupted window differs from the original. *)
Lemma field_corrupted (l : bytes) off n k x b :
  0 <= off -> 0 <= k < n -> Forall is_byte l -> is_byte b ->
  slice off n l !! Z.to_nat k = Some x -> x <> b ->
  le_val (slice off n (<[Z.to_nat (off + k) := b]> l)) <> le_val (slice off n l).
Proof.
  intros Ho Hk Hl Hb Hx Hne H. rewrite slice_insert_in in H by done.
  apply le_val_inj in H.
  - pose proof (one_byte_off_insert _ _ _ _ Hx Hne) as Hoff.
    by apply one_byte_off_neq in Hoff.
  - apply length_insert.
  - apply Forall_insert; auto with nyx.
  - auto with nyx.
Qed.

Lemma slice_lookup (l : bytes) off n k : 0 <= off -> 0 <= k < n ->
  slice off n l !! Z.to_nat k = l !! Z.to_nat (off + k).
Proof.
  intros. unfold slice. rewrite lookup_take_lt, lookup_drop by lia. f_equal. lia.
Qed.

(** The payload splits into 255 stripes and one last word. *)
Lemma payload_corrupted (d : bytes) n k x b :
  length d = (n + 32 * 255 + 8)%nat -> Forall is_byte d -> is_byte b ->
  (n + 32 * 255 <= k)%nat -> d !! k = Some x -> x <> b ->
  xxhash64 (drop n (<[k := b]> d)) <> xxhash64 (drop n d).
Proof.
  generalize 255%nat as m.
  intros m Hl Hd Hb Hk Hx Hne. rewrite drop_insert_ge by lia.
  set (pl := drop n d).
  assert (Hpl : length pl = (32 * m + 8)%nat) by (unfold pl; rewrite length_drop; lia).
  rewrite <- (take_drop (32 * m) pl) at 2.
  rewrite <- (take_drop (32 * m) (<[_ := b]> pl)).
  rewrite take_insert_ge, drop_insert_ge by lia.
  apply not_eq_sym, xxhash64_detects.
  - rewrite length_take, Hpl, Nat.min_l, Nat.mul_comm by lia. apply Nat.Div0.mod_mul.
  - rewrite length_drop, Hpl. lia.
  - unfold pl. by do 2 apply Forall_drop.
  - apply Forall_insert; [unfold pl; by do 2 apply Forall_drop|done].
  - eapply one_byte_off_insert; [|done]. unfold pl. rewrite !lookup_drop, <- Hx. f_equal. lia.
Qed.

(** The checks of [read_page] on the bytes of page [id]. *)
Definition accepted (id : Z) (g : bytes) : Prop :=
  le_val (slice 0 8 g) = id /\
  le_val (slice 8 8 g) = xxhash64 (drop (Z.to_nat PAGE_HEADER_SIZE) g).

Section corrupted.
Context (id : Z) (g : bytes) (k x b : Z).
Hypothesis Hlen : zlen g = PAGE_SIZE.
Hypothesis Hbytes : Forall is_byte g.
Hypothesis Hb : is_byte b.
Hypothesis Hx : g !! Z.to_nat k = Some x.
Hypothesis Hne : x <> b.
Hypothesis Hg : accepted id g.

Lemma corrupted_id : 0 <= k < 8 -> ~ accepted id (<[Z.to_nat k := b]> g).
Proof using All.
  intros Hk [Hi' _]. destruct Hg as [Hi _].
  apply (field_corrupted g 0 8 k x b); [done..| |done|by rewrite Z.add_0_l, Hi'].
  by rewrite slice_lookup.
Qed.

Lemma corrupted_checksum : 8 <= k < 16 -> ~ accepted id (<[Z.to_nat k := b]> g).
Proof using All.
  intros Hk [_ Hs']. destruct Hg as [_ Hs].
  apply (field_corrupted g 8 8 (k - 8) x b); [lia|lia|done|done| |done|].
  - rewrite slice_lookup by lia. by replace (8 + (k - 8)) with k by lia.
  - replace (8 + (k - 8)) with k by lia. rewrite Hs, Hs'.
    by rewrite drop_insert_lt by (unfold PAGE_HEADER_SIZE; lia).
Qed.

Lemma corrupted_payload : 8184 <= k < PAGE_SIZE -> ~ accepted id (<[Z.to_nat k := b]> g).
Proof using All.
  intros Hk [_ Hs']. destruct Hg as [_ Hs]. rewrite slice_insert_out, Hs in Hs' by lia.
  revert Hs'. apply not_eq_sym, (payload_corrupted _ _ _ x); [|done|done| |done|done].
  - rewrite PAGE_SIZE_eq in Hlen. unfold zlen, PAGE_HEADER_SIZE in *. lia.
  - unfold PAGE_HEADER_SIZE. lia.
Qed.
End corrupted.

Lemma accepted_page p id :
  page_id p = id -> checksum p = xxhash64 (payload p) -> accepted id (data p).
Proof. done. Qed.

Lemma pread_slice f n off : pread f n off = slice off n f.
Proof. reflexivity. Qed.

Lemma read_page_accepts n f id out out' : page_wf out ->
  read_page (mkDisk n f) id out = (Ok tt, out') ->
  zlen (slice (offset id) PAGE_SIZE f) = PAGE_SIZE /\
  accepted id (slice (offset id) PAGE_SIZE f).
Proof.
  intros Hw Hr. apply read_page_ok_iff in Hr; [|exact Hw]. cbv zeta in Hr.
  rewrite pread_slice in Hr. destruct Hr as (_ & Hg & -> & Hi & Hs). split; [exact Hg|].
  exact (accepted_page _ _ Hi Hs).
Qed.

(** ** Payloads and writes *)

Lemma page_init_wf : page_wf page_init.
Proof. split; cbn [data page_init]; [apply zlen_zeros; by rewrite PAGE_SIZE_eq|apply zeros_is_byte]. Qed.

Lemma payload_len p : page_wf p -> zlen (payload p) = PAGE_PAYLOAD_SIZE.
Proof.
  intros [Hl _]. unfold payload, zlen in *. rewrite length_drop.
  unfold PAGE_PAYLOAD_SIZE, PAGE_HEADER_SIZE in *. rewrite PAGE_SIZE_eq in *. lia.
Qed.

Lemma payload_bytes p : page_wf p -> Forall is_byte (payload p).
Proof. intros [_ Hb]. by apply Forall_drop. Qed.

Section set_payload.
Context (p : Page) (pl : bytes).
Hypothesis Hp : page_wf p.

Lemma header_len : length (take (Z.to_nat PAGE_HEADER_SIZE) (data p)) = Z.to_nat PAGE_HEADER_SIZE.
Proof using Hp.
  destruct Hp as [Hl _]. unfold zlen, PAGE_HEADER_SIZE in *. rewrite PAGE_SIZE_eq in Hl.
  rewrite length_take. lia.
Qed.

Lemma payload_set_payload : payload (set_payload p pl) = pl.
Proof using Hp. unfold payload, set_payload. simpl data. apply drop_app_length'. by rewrite header_len. Qed.

Lemma page_id_set_payload : page_id (set_payload p pl) = page_id p.
Proof using Hp.
  unfold page_id, set_payload, set_data, slice. cbn [data]. f_equal. cbn [Z.to_nat]. rewrite !drop_0.
  pose proof header_len as Hh. rewrite take_app_le by (rewrite Hh; unfold PAGE_HEADER_SIZE; lia).
  rewrite take_take. f_equal.
Qed.

Lemma set_payload_wf : zlen pl = PAGE_PAYLOAD_SIZE -> Forall is_byte pl -> page_wf (set_payload p pl).
Proof using Hp.
  intros Hl Hb. pose proof header_len as Hh. destruct Hp as [_ Hbp]. split; simpl data.
  - unfold zlen in *. rewrite length_app, Hh. unfold PAGE_PAYLOAD_SIZE, PAGE_HEADER_SIZE in *.
    rewrite PAGE_SIZE_eq in *. lia.
  - apply Forall_app. split; [by apply Forall_take|done].
Qed.
End set_payload.

Lemma page_id_reset p id : in_u 64 id -> page_id (reset p id) = id.
Proof.
  intros Hid. unfold reset. apply page_id_set_page_id; [|exact Hid].
  split; cbn [data]; [apply zlen_zeros; by rewrite PAGE_SIZE_eq|apply zeros_is_byte].
Qed.

(** Page [id] of the disk is readable, and its payload is [pl]. *)
Definition page_on (d : DiskManager) (id : Z) (pl : bytes) : Prop :=
  id < next_page_id_ d /\
  zlen (slice (offset id) PAGE_SIZE (content d)) = PAGE_SIZE /\
  accepted id (slice (offset id) PAGE_SIZE (content d)) /\
  drop (Z.to_nat PAGE_HEADER_SIZE) (slice (offset id) PAGE_SIZE (content d)) = pl.

Lemma read_page_on d id out out' : page_wf out -> read_page d id out = (Ok tt, out') ->
  page_id out' = id /\ page_on d id (payload out').
Proof.
  intros Hw Hr. apply read_page_ok_iff in Hr; [|exact Hw]. cbv zeta in Hr. rewrite pread_slice in Hr.
  destruct Hr as (Hlt & Hg & -> & Hid & Hs). unfold page_on, payload in *. cbn [data set_data] in *.
  set (w := slice _ _ _) in *. clearbody w. split; [exact Hid|]. split; [exact Hlt|].
  split; [exact Hg|]. split; [exact (accepted_page (set_data out w) id Hid Hs)|reflexivity].
Qed.

Lemma stored_window d id : zlen (slice (offset id) PAGE_SIZE (content d)) = PAGE_SIZE -> 0 <= id ->
  offset id + PAGE_SIZE <= zlen (content d).
Proof.
  unfold slice, zlen, offset. rewrite length_take, length_drop. rewrite PAGE_SIZE_eq. lia.
Qed.

Lemma zlen_pwrite f bs off : 0 <= off -> zlen (pwrite f bs off) = Z.max (zlen f) (off + zlen bs).
Proof.
  intros Ho. unfold pwrite. destruct (Z.leb_spec off (zlen f)).
  - unfold splice, zlen in *. rewrite !length_app, length_take, length_drop. lia.
  - rewrite !zlen_app, zlen_zeros by lia. pose proof (zlen_nonneg bs). lia.
Qed.

Section write.
Context (d : DiskManager) (p : Page) (id : Z).
Hypothesis Hp : page_wf p.
Hypothesis Hid : page_id p = id.
Hypothesis Hval : id <> INVALID_PAGE_ID.
Hypothesis Hlt : id < next_page_id_ d.

Definition written : DiskManager :=
  mkDisk (next_page_id_ d) (pwrite (content d) (data (sealed p)) (offset id)).

Lemma id_nonneg : 0 <= id.
Proof using Hp Hid. rewrite <- Hid. by apply page_id_range. Qed.

Lemma sealed_wf : page_wf (sealed p).
Proof using Hp. by apply set_checksum_wf. Qed.

Lemma write_written : write_page d p = (Ok tt, written).
Proof using Hp Hid Hval. unfold written. rewrite <- Hid. apply write_page_ok; [exact Hp|by rewrite Hid]. Qed.

Lemma written_slice : slice (offset id) PAGE_SIZE (content written) = data (sealed p).
Proof using Hp Hid.
  unfold written. cbn [content]. rewrite <- pread_slice. apply pread_pwrite_same.
  - pose proof id_nonneg. unfold offset. rewrite PAGE_SIZE_eq. lia.
  - apply sealed_wf.
Qed.

Lemma written_other id' : id' <> id -> 0 <= id' ->
  offset id' + PAGE_SIZE <= zlen (content d) ->
  slice (offset id') PAGE_SIZE (content written) = slice (offset id') PAGE_SIZE (content d).
Proof using Hp Hid.
  intros Hne H0 Hw. rewrite <- !pread_slice. apply pread_pwrite_other.
  - pose proof id_nonneg. unfold offset. rewrite PAGE_SIZE_eq. lia.
  - unfold offset. rewrite PAGE_SIZE_eq. lia.
  - rewrite PAGE_SIZE_eq. lia.
  - exact Hw.
  - destruct sealed_wf as [-> _]. apply page_windows. congruence.
Qed.

Lemma written_on : page_on written id (payload p).
Proof using Hp Hid Hlt.
  unfold page_on. rewrite written_slice. split; [exact Hlt|]. split; [apply sealed_wf|]. split.
  - apply accepted_page.
    + rewrite <- Hid. by apply page_id_set_checksum.
    + transitivity (xxhash64 (payload p)).
      * exact (checksum_set_checksum p Hp _ (xxhash64_in_u _)).
      * f_equal. symmetry. by apply payload_set_checksum.
  - exact (payload_set_checksum p Hp _).
Qed.

Lemma written_on_other id' pl : id' <> id -> 0 <= id' -> page_on d id' pl -> page_on written id' pl.
Proof using Hp Hid.
  intros Hne H0 (H1 & H2 & H3 & H4). unfold page_on.
  rewrite written_other by (exact Hne || exact H0 || by apply stored_window). done.
Qed.

Lemma written_bytes : Forall is_byte (content d) -> Forall is_byte (content written).
Proof using Hp.
  intros Hb. unfold written. cbn [content]. destruct sealed_wf as [_ Hs]. unfold pwrite.
  destruct (_ <=? _); [by apply Forall_splice|]. rewrite !Forall_app. auto with nyx.
Qed.

Lemma written_zlen : zlen (content written) = Z.max (zlen (content d)) ((id + 1) * PAGE_SIZE).
Proof using Hp Hid.
  unfold written. cbn [content]. pose proof id_nonneg. destruct sealed_wf as [Hs _].
  rewrite zlen_pwrite, Hs by (unfold offset; rewrite PAGE_SIZE_eq; lia).
  f_equal. unfold offset. lia.
Qed.

End write.

(** ** Properties *)

(** A disk with two blank pages. *)
Definition demo_disk : DiskManager :=
  snd (allocate_page (snd (allocate_page (disk_open [])))).

Lemma demo_disk_bytes : Forall is_byte (content demo_disk).
Proof. apply Forall_forall. intros x Hx. revert x Hx. apply Forall_forall.
  apply (bool_decide_unpack _). vm_compute. done. Qed.

(** A page with id 1 and some payload. *)
Definition demo_page : Page := set_page_id (mkPage 0 false (replicate (Z.to_nat PAGE_SIZE) 7)) 1.

Lemma demo_page_wf : page_wf demo_page.
Proof. split; [vm_compute; reflexivity|]. apply (bool_decide_unpack _). vm_compute. done. Qed.

(** A written page reads back: same id, same payload, and the checksum that
    [write_page] computed is the one [read_page] checks. *)
Theorem read_write_page d p out :
  page_wf p -> page_wf out -> page_id p < next_page_id_ d -> page_id p <> INVALID_PAGE_ID ->
  exists d' out',
    write_page d p = (Ok tt, d') /\ read_page d' (page_id p) out = (Ok tt, out') /\
    page_id out' = page_id p /\ payload out' = payload p.
Proof.
  intros Hp Hout Hlt Hid. rewrite write_page_ok by done. eexists _, (set_data out (data (sealed p))).
  pose proof (set_checksum_wf p Hp (xxhash64 (payload p))) as [Hl Hb].
  assert (Hpl : payload (set_data out (data (sealed p))) = payload p).
  { transitivity (payload (sealed p)); [by apply page_payload_ext|].
    by apply payload_set_checksum. }
  assert (Hpid : page_id (set_data out (data (sealed p))) = page_id p)
    by exact (page_id_set_checksum p Hp _).
  split; [done|]. split; [|done]. rewrite read_page_ok_iff by done. cbv zeta. cbn [content next_page_id_].
  pose proof (page_id_range p Hp) as [H0 _].
  rewrite pread_pwrite_same by (done || unfold offset, PAGE_SIZE; lia).
  split_and!; try done. rewrite Hpl.
  exact (checksum_set_checksum p Hp _ (xxhash64_in_u _)).
Qed.

Lemma read_write_page_witness :
  exists d' out', write_page demo_disk demo_page = (Ok tt, d') /\
    read_page d' (page_id demo_page) (reset page_init 0) = (Ok tt, out') /\
    page_id out' = page_id demo_page /\ payload out' = payload demo_page.
Proof.
  apply (read_write_page demo_disk demo_page (reset page_init 0)).
  - exact demo_page_wf.
  - apply page_wf_reset.
  - vm_compute. reflexivity.
  - vm_compute. discriminate.
Defined.

(** Writing one page leaves every other readable page as it was. *)
Theorem write_page_frame d p id out out' :
  page_wf p -> page_wf out -> 0 <= id -> page_id p <> INVALID_PAGE_ID -> id <> page_id p ->
  read_page d id out = (Ok tt, out') ->
  exists d', write_page d p = (Ok tt, d') /\ read_page d' id out = (Ok tt, out').
Proof.
  intros Hp Hout Hid0 Hinv Hne Hr. rewrite write_page_ok by done. eexists. split; [done|].
  apply read_page_ok_iff in Hr; [|done]. apply read_page_ok_iff; [done|]. cbv zeta in *. cbn [content next_page_id_].
  destruct Hr as (Hlt & Hg & Hrest).
  pose proof (page_id_range p Hp) as [H0 _].
  pose proof (set_checksum_wf p Hp (xxhash64 (payload p))) as [Hl Hb].
  rewrite pread_pwrite_other; [done|unfold offset, PAGE_SIZE; lia..| |].
  - revert Hg. unfold pread, slice, zlen, offset, PAGE_SIZE. rewrite length_take, length_drop. lia.
  - unfold sealed. rewrite Hl. apply page_windows. congruence.
Qed.

Lemma write_page_frame_witness :
  let out' := snd (read_page demo_disk 0 (reset page_init 0)) in
  exists d', write_page demo_disk demo_page = (Ok tt, d') /\
    read_page d' 0 (reset page_init 0) = (Ok tt, out').
Proof.
  intros out'. apply (write_page_frame demo_disk demo_page 0 (reset page_init 0) out').
  - exact demo_page_wf.
  - apply page_wf_reset.
  - lia.
  - vm_compute. discriminate.
  - vm_compute. discriminate.
  - vm_compute. reflexivity.
Defined.

(** A flipped byte in the id, in the checksum or in the last word of the payload of a
    stored page makes [read_page] report an error instead of returning the page. *)
Theorem read_page_detects_corruption d id out out' k x b :
  page_wf out -> 0 <= id -> Forall is_byte (content d) -> is_byte b ->
  read_page d id out = (Ok tt, out') ->
  0 <= k < 16 \/ 8184 <= k < PAGE_SIZE ->
  content d !! Z.to_nat (offset id + k) = Some x -> x <> b ->
  exists e, fst (read_page (mkDisk (next_page_id_ d)
                  (<[Z.to_nat (offset id + k) := b]> (content d))) id out) = Err e.
Proof.
  intros Hout Hid Hc Hb Hr Hk Hx Hne.
  destruct (read_page (mkDisk _ _) id out) as [[[]|e] out''] eqn:Hr'; [exfalso|by exists e].
  destruct d as [n f]. cbn [content next_page_id_] in *.
  apply read_page_accepts in Hr as [Hl Ha]; [|exact Hout].
  apply read_page_accepts in Hr' as [_ Ha']; [|exact Hout].
  pose proof PAGE_SIZE_eq as HPS.
  assert (Ho : 0 <= offset id) by (unfold offset; lia).
  rewrite slice_insert_in in Ha' by lia.
  rewrite <- (slice_lookup _ (offset id) PAGE_SIZE) in Hx by lia.
  assert (Hgb : Forall is_byte (slice (offset id) PAGE_SIZE f)) by auto with nyx.
  revert Ha'. destruct (decide (k < 8)); [|destruct (decide (k < 16))].
  - apply (corrupted_id id _ k x b); done || lia.
  - apply (corrupted_checksum id _ k x b); done || lia.
  - apply (corrupted_payload id _ k x b); done || lia.
Qed.

Lemma read_page_detects_corruption_witness :
  exists e, fst (read_page (mkDisk (next_page_id_ demo_disk)
    (<[Z.to_nat (offset 1 + 8191) := 1]> (content demo_disk))) 1 (reset page_init 0)) = Err e.
Proof.
  apply (read_page_detects_corruption demo_disk 1 (reset page_init 0)
    (snd (read_page demo_disk 1 (reset page_init 0))) 8191 0 1).
  - apply page_wf_reset.
  - lia.
  - exact demo_disk_bytes.
  - unfold in_u. lia.
  - vm_compute. reflexivity.
  - right. unfold PAGE_SIZE. lia.
  - vm_compute. reflexivity.
  - discriminate.
Defined.
