(* ===== verification/LruK.v ===== *)
(** * LRU-K page replacement

    [LRUKReplacer] (src/src/storage/memory/lru_k_replacer.h, lru_k_replacer.cpp)
    and the interface [Replacer] it implements (replacer.h).

    The interface is the class [Replacer]; what a client may assume of an
    implementation is the class [ReplacerLaws], stated on the view "frame ->
    untracked, pinned or evictable".  The LRU-K policy itself is the abstract
    machine [Spec], which keeps every access of every frame: section
    [refinement] shows that the bounded histories implement it.

    [frames_[id]] with [id] out of range is undefined behaviour in the source; the
    model then changes nothing, and the theorems are about ids in range.  The casts of a
    frame index to the 32-bit [FrameId] in [victim] are the identity for the fewer than [2^32]
    frames that a pool can have. *)

From S2P Require Import Prelude.

(** ** The interface *)

(** The virtual functions; [victim] returns [None] for [false]. *)
Class Replacer (R : Type) : Type := {
  rp_victim : R -> option (Z * R);
  rp_pin : R -> Z -> R;
  rp_unpin : R -> Z -> R;
  rp_record_access : R -> Z -> R;
  rp_remove : R -> Z -> R;
  rp_size : R -> Z
}.

(** Untracked frames have no view; tracked ones are evictable or not. *)
Abbreviation view_t := (Z -> option bool).

Definition view_set (v : view_t) (i : Z) (x : option bool) : view_t :=
  fun j => if decide (j = i) then x else v j.

(** [rp_inv n r]: [r] is a valid replacer for the frames [0 .. n-1]. *)
Class ReplacerLaws (R : Type) `{Replacer R} : Type := {
  rp_inv : Z -> R -> Prop;
  rp_view : R -> view_t;
  rp_view_range : forall n r i b, rp_inv n r -> rp_view r i = Some b -> 0 <= i < n;
  rp_victim_none : forall n r, rp_inv n r -> rp_victim r = None ->
    forall i, rp_view r i <> Some true;
  rp_victim_some : forall n r v r', rp_inv n r -> rp_victim r = Some (v, r') ->
    rp_view r v = Some true /\ rp_inv n r' /\
    forall j, rp_view r' j = view_set (rp_view r) v None j;
  rp_pin_ok : forall n r i, rp_inv n r -> 0 <= i < n -> rp_inv n (rp_pin r i) /\
    forall j, rp_view (rp_pin r i) j =
      view_set (rp_view r) i ((fun _ => false) <$> rp_view r i) j;
  rp_unpin_ok : forall n r i, rp_inv n r -> 0 <= i < n -> rp_inv n (rp_unpin r i) /\
    forall j, rp_view (rp_unpin r i) j =
      view_set (rp_view r) i ((fun _ => true) <$> rp_view r i) j;
  rp_record_access_ok : forall n r i, rp_inv n r -> 0 <= i < n ->
    rp_inv n (rp_record_access r i) /\
    forall j, rp_view (rp_record_access r i) j =
      view_set (rp_view r) i (Some (default false (rp_view r i))) j
}.

(** ** The implementation *)

Record FrameData : Type := mkFrame {
  history : list Z;
  evictable : bool;
  tracked : bool
}.

Record LRUKReplacer : Type := mkLRUK {
  k_ : Z;
  counter_ : Z;
  evictable_count_ : Z;
  frames_ : list FrameData
}.

Definition lruk_new (num_frames k : Z) : LRUKReplacer :=
  mkLRUK k 0 0 (replicate (Z.to_nat num_frames) (mkFrame [] false false)).

(** The local variables of the loop of [victim]. *)
Record Scan : Type := mkScan {
  under_k_victim : Z;
  under_k_ts : Z;
  has_under_k : bool;
  k_victim : Z;
  k_ts : Z;
  has_k : bool
}.

Definition scan_frame (k : Z) (s : Scan) (i : Z) (f : FrameData) : Scan :=
  if negb (tracked f) || negb (evictable f) then s
  else
    let front := List.hd 0 (history f) in
    if zlen (history f) <? k then
      if negb (has_under_k s) || (front <? under_k_ts s)
      then mkScan i front true (k_victim s) (k_ts s) (has_k s)
      else s
    else
      if negb (has_k s) || (front <? k_ts s)
      then mkScan (under_k_victim s) (under_k_ts s) (has_under_k s) i front true
      else s.

Fixpoint scan (k : Z) (i : Z) (fs : list FrameData) (s : Scan) : Scan :=
  match fs with
  | [] => s
  | f :: fs' => scan k (i + 1) fs' (scan_frame k s i f)
  end.

Definition set_frame (r : LRUKReplacer) (id : Z) (f : FrameData) (count : Z) : LRUKReplacer :=
  mkLRUK (k_ r) (counter_ r) count (<[Z.to_nat id := f]> (frames_ r)).

(** [frames_[id]] *)
Definition get_frame (r : LRUKReplacer) (id : Z) : option FrameData :=
  if id <? 0 then None else frames_ r !! Z.to_nat id.

Definition remove (r : LRUKReplacer) (id : Z) : LRUKReplacer :=
  match get_frame r id with
  | None => r
  | Some f =>
      if negb (tracked f) then r
      else
        let count := if evictable f then wrap 64 (evictable_count_ r - 1)
                     else evictable_count_ r in
        set_frame r id (mkFrame [] false false) count
  end.

Definition victim (r : LRUKReplacer) : option (Z * LRUKReplacer) :=
  if evictable_count_ r =? 0 then None
  else
    let s := scan (k_ r) 0 (frames_ r) (mkScan 0 0 false 0 0 false) in
    let out := if has_under_k s then under_k_victim s else k_victim s in
    Some (out, remove r out).

Definition pin (r : LRUKReplacer) (id : Z) : LRUKReplacer :=
  match get_frame r id with
  | None => r
  | Some f =>
      if negb (tracked f) then r
      else if evictable f then
        set_frame r id (mkFrame (history f) false (tracked f)) (wrap 64 (evictable_count_ r - 1))
      else r
  end.

Definition unpin (r : LRUKReplacer) (id : Z) : LRUKReplacer :=
  match get_frame r id with
  | None => r
  | Some f =>
      if negb (tracked f) then r
      else if negb (evictable f) then
        set_frame r id (mkFrame (history f) true (tracked f)) (wrap 64 (evictable_count_ r + 1))
      else r
  end.

Definition record_access (r : LRUKReplacer) (id : Z) : LRUKReplacer :=
  match get_frame r id with
  | None => r
  | Some f =>
      let c := wrap 64 (counter_ r + 1) in
      let h := history f ++ [c] in
      let h := if zlen h >? k_ r then List.tl h else h in
      mkLRUK (k_ r) c (evictable_count_ r)
        (<[Z.to_nat id := mkFrame h (evictable f) true]> (frames_ r))
  end.

Definition size (r : LRUKReplacer) : Z := evictable_count_ r.

#[export] Instance LRUK_Replacer : Replacer LRUKReplacer := {
  rp_victim := victim;
  rp_pin := pin;
  rp_unpin := unpin;
  rp_record_access := record_access;
  rp_remove := remove;
  rp_size := size
}.

(** ** The invariant *)

Definition count_evictable (fs : list FrameData) : Z :=
  Z.of_nat (length (List.filter evictable fs)).

Definition frame_wf (k : Z) (f : FrameData) : Prop :=
  (evictable f = true -> tracked f = true) /\
  (tracked f = true -> history f <> []) /\
  (tracked f = false -> history f = []) /\
  zlen (history f) <= k.

Record lruk_inv (n : Z) (r : LRUKReplacer) : Prop := {
  inv_k : 1 <= k_ r;
  inv_n : zlen (frames_ r) = n;
  inv_n64 : in_u 64 n;
  inv_count : evictable_count_ r = count_evictable (frames_ r);
  inv_frames : Forall (frame_wf (k_ r)) (frames_ r)
}.

Definition lruk_view (r : LRUKReplacer) : view_t := fun i =>
  match get_frame r i with
  | Some f => if tracked f then Some (evictable f) else None
  | None => None
  end.

(** ** Lemmas on single frames *)

Lemma get_frame_Some r i f : get_frame r i = Some f ->
  0 <= i < zlen (frames_ r) /\ frames_ r !! Z.to_nat i = Some f.
Proof.
  unfold get_frame. destruct (Z.ltb_spec i 0); [done|]. intros Hf. split; [|done].
  apply lookup_lt_Some in Hf. unfold zlen. lia.
Qed.

Lemma get_frame_in r i : 0 <= i < zlen (frames_ r) -> exists f, get_frame r i = Some f.
Proof.
  intros Hi. unfold get_frame. rewrite (proj2 (Z.ltb_ge i 0)) by lia.
  apply lookup_lt_is_Some. unfold zlen in Hi. lia.
Qed.

Lemma get_frame_insert r k c n i f j : 0 <= i < zlen (frames_ r) ->
  get_frame (mkLRUK k c n (<[Z.to_nat i := f]> (frames_ r))) j =
  if decide (j = i) then Some f else get_frame r j.
Proof.
  intros Hi. unfold get_frame. simpl. destruct (Z.ltb_spec j 0).
  - by rewrite decide_False by lia.
  - unfold zlen in Hi. case_decide; subst.
    + apply list_lookup_insert_eq. lia.
    + apply list_lookup_insert_ne. lia.
Qed.

Lemma count_insert fs i f g : fs !! i = Some f ->
  count_evictable (<[i := g]> fs) =
  count_evictable fs - Z.b2z (evictable f) + Z.b2z (evictable g).
Proof.
  intros Hf. rewrite <- (take_drop_middle fs i f Hf) at 2.
  rewrite insert_take_drop by by eapply lookup_lt_Some.
  unfold count_evictable. rewrite !List.filter_app, !length_app. simpl.
  destruct (evictable f), (evictable g); simpl; lia.
Qed.

Lemma count_bound fs : 0 <= count_evictable fs <= zlen fs.
Proof. unfold count_evictable, zlen. pose proof (List.filter_length_le evictable fs). lia. Qed.

Lemma count_zero fs : count_evictable fs = 0 <-> forall i f, fs !! i = Some f -> evictable f = false.
Proof.
  unfold count_evictable. induction fs as [|g fs IH]; simpl; [done|].
  destruct (evictable g) eqn:Hg; simpl; split.
  - lia.
  - intros H. by rewrite (H 0%nat g eq_refl) in Hg.
  - intros H [|i] f; simpl; [by intros [= <-]|]. by apply IH.
  - intros H. apply IH. intros i f Hf. by apply (H (S i)).
Qed.

Section frame_update.
Context (n : Z) (r : LRUKReplacer) (i : Z) (f g : FrameData).
Hypothesis Hinv : lruk_inv n r.
Hypothesis Hf : get_frame r i = Some f.

Lemma inv_frame_wf : frame_wf (k_ r) f.
Proof using Hinv Hf.
  destruct (get_frame_Some _ _ _ Hf) as [_ Hl].
  exact (Forall_lookup_1 _ _ _ _ (inv_frames _ _ Hinv) Hl).
Qed.

Lemma update_inv c m : frame_wf (k_ r) g ->
  m = evictable_count_ r - Z.b2z (evictable f) + Z.b2z (evictable g) ->
  lruk_inv n (mkLRUK (k_ r) c (wrap 64 m) (<[Z.to_nat i := g]> (frames_ r))).
Proof using Hinv Hf.
  intros Hg Hm. destruct Hinv as [Hk Hn Hn64 Hc Hfr].
  destruct (get_frame_Some _ _ _ Hf) as [_ Hl].
  assert (Hcount : m = count_evictable (<[Z.to_nat i := g]> (frames_ r))).
  { by rewrite (count_insert _ _ _ _ Hl), Hm, Hc. }
  assert (Hlen : zlen (<[Z.to_nat i := g]> (frames_ r)) = n)
    by (unfold zlen in *; by rewrite length_insert).
  split; simpl; try done.
  - pose proof (count_bound (<[Z.to_nat i := g]> (frames_ r))).
    rewrite wrap_id; [done|]. unfold in_u in *. lia.
  - by apply Forall_insert.
Qed.

Lemma update_view k c m j :
  lruk_view (mkLRUK k c m (<[Z.to_nat i := g]> (frames_ r))) j =
  view_set (lruk_view r) i (if tracked g then Some (evictable g) else None) j.
Proof using Hf.
  destruct (get_frame_Some _ _ _ Hf) as [Hi _]. unfold lruk_view, view_set.
  rewrite get_frame_insert by done. by case_decide.
Qed.

Lemma view_frame : lruk_view r i = if tracked f then Some (evictable f) else None.
Proof using Hf. unfold lruk_view. by rewrite Hf. Qed.
End frame_update.

Lemma view_set_same (v : view_t) i j : view_set v i (v i) j = v j.
Proof. unfold view_set. case_decide; by subst. Qed.

Lemma view_set_id (v : view_t) i x j : v i = x -> v j = view_set v i x j.
Proof. intros <-. by rewrite view_set_same. Qed.

Lemma wrap_count n r : lruk_inv n r -> wrap 64 (evictable_count_ r) = evictable_count_ r.
Proof.
  intros [? ? Hn Hc ?]. rewrite Hc. apply wrap_id.
  pose proof (count_bound (frames_ r)). unfold in_u in *. lia.
Qed.

(** ** The operations preserve the invariant and have the promised view *)

Lemma lruk_remove_ok n r i : lruk_inv n r -> 0 <= i < n ->
  lruk_inv n (remove r i) /\ forall j, lruk_view (remove r i) j = view_set (lruk_view r) i None j.
Proof.
  intros Hinv Hi. rewrite <- (inv_n _ _ Hinv) in Hi. destruct (get_frame_in r i Hi) as [f Hf].
  pose proof (inv_frame_wf _ _ _ _ Hinv Hf) as Hwf. pose proof (view_frame _ _ _ Hf) as Hv.
  unfold remove. rewrite Hf. destruct (tracked f) eqn:Ht; simpl.
  - split; [|intros j; by eapply (update_view r i f)].
    unfold set_frame. replace (if evictable f then _ else _)
      with (wrap 64 (evictable_count_ r - Z.b2z (evictable f))).
    + eapply update_inv; [done..| |simpl; lia]. repeat split; simpl; try done.
      pose proof (inv_k _ _ Hinv). unfold zlen. simpl. lia.
    + destruct (evictable f); [done|]. simpl. rewrite Z.sub_0_r. by eapply wrap_count.
  - split; [done|]. intros j. by apply view_set_id.
Qed.

Lemma lruk_pin_ok n r i : lruk_inv n r -> 0 <= i < n ->
  lruk_inv n (pin r i) /\
  forall j, lruk_view (pin r i) j = view_set (lruk_view r) i ((fun _ => false) <$> lruk_view r i) j.
Proof.
  intros Hinv Hi. rewrite <- (inv_n _ _ Hinv) in Hi. destruct (get_frame_in r i Hi) as [f Hf].
  destruct (inv_frame_wf _ _ _ _ Hinv Hf) as (H1 & H2 & H3 & H4).
  pose proof (view_frame _ _ _ Hf) as Hv.
  unfold pin. rewrite Hf, Hv. destruct (tracked f) eqn:Ht; simpl.
  - destruct (evictable f) eqn:He.
    + split; [|intros j; by eapply (update_view r i f)].
      unfold set_frame. eapply update_inv; [done..|by repeat split|]. rewrite He. simpl. lia.
    + split; [done|]. intros j. by apply view_set_id.
  - split; [done|]. intros j. by apply view_set_id.
Qed.

Lemma lruk_unpin_ok n r i : lruk_inv n r -> 0 <= i < n ->
  lruk_inv n (unpin r i) /\
  forall j, lruk_view (unpin r i) j = view_set (lruk_view r) i ((fun _ => true) <$> lruk_view r i) j.
Proof.
  intros Hinv Hi. rewrite <- (inv_n _ _ Hinv) in Hi. destruct (get_frame_in r i Hi) as [f Hf].
  destruct (inv_frame_wf _ _ _ _ Hinv Hf) as (H1 & H2 & H3 & H4).
  pose proof (view_frame _ _ _ Hf) as Hv.
  unfold unpin. rewrite Hf, Hv. destruct (tracked f) eqn:Ht; simpl.
  - destruct (evictable f) eqn:He; simpl.
    + split; [done|]. intros j. by apply view_set_id.
    + split; [|intros j; by eapply (update_view r i f)].
      unfold set_frame. eapply update_inv; [done..|by repeat split|]. rewrite He. simpl. lia.
  - split; [done|]. intros j. by apply view_set_id.
Qed.

(** The history after one more access: at most [k] entries, never empty. *)
Definition push_history (k : Z) (h : list Z) (c : Z) : list Z :=
  if zlen (h ++ [c]) >? k then List.tl (h ++ [c]) else h ++ [c].

Lemma push_history_wf k h c : 1 <= k -> zlen h <= k ->
  push_history k h c <> [] /\ zlen (push_history k h c) <= k.
Proof.
  intros Hk Hh. unfold push_history. destruct (Z.gtb_spec (zlen (h ++ [c])) k) as [H|H].
  - rewrite zlen_app in H. destruct h as [|x h]; unfold zlen in *; simpl in *; [lia|].
    rewrite length_app. simpl. split; [by destruct h|lia].
  - split; [by destruct h|done].
Qed.

Lemma lruk_record_access_ok n r i : lruk_inv n r -> 0 <= i < n ->
  lruk_inv n (record_access r i) /\
  forall j, lruk_view (record_access r i) j =
    view_set (lruk_view r) i (Some (default false (lruk_view r i))) j.
Proof.
  intros Hinv Hi. rewrite <- (inv_n _ _ Hinv) in Hi. destruct (get_frame_in r i Hi) as [f Hf].
  destruct (inv_frame_wf _ _ _ _ Hinv Hf) as (H1 & H2 & H3 & H4).
  pose proof (view_frame _ _ _ Hf) as Hv.
  unfold record_access. rewrite Hf. fold (push_history (k_ r) (history f) (wrap 64 (counter_ r + 1))).
  destruct (push_history_wf (k_ r) (history f) (wrap 64 (counter_ r + 1))) as [Hp1 Hp2];
    [by apply (inv_k n)|done|].
  split.
  - rewrite <- (wrap_count _ _ Hinv).
    eapply update_inv; [done..|by repeat split|]. simpl. lia.
  - intros j. rewrite (update_view r i f) by done. simpl. f_equal. rewrite Hv.
    destruct (tracked f), (evictable f); try done. by specialize (H1 eq_refl).
Qed.

(** ** The scan of [victim] *)

Definition front (f : FrameData) : Z := List.hd 0 (history f).

(** The evictable frames with ([u = true]) fewer than [k] recorded accesses, or with
    [k] of them. *)
Definition candidate (u : bool) (k : Z) (f : FrameData) : Prop :=
  tracked f = true /\ evictable f = true /\ (zlen (history f) <? k) = u.

(** [v] and [ts] are a candidate with the least front, if [has]. *)
Definition best (u : bool) (k : Z) (fs : list FrameData) (has : bool) (v ts : Z) : Prop :=
  if has then
    exists f, 0 <= v /\ fs !! Z.to_nat v = Some f /\ candidate u k f /\ front f = ts /\
      forall j g, fs !! j = Some g -> candidate u k g -> ts <= front g
  else forall j g, fs !! j = Some g -> ~ candidate u k g.

Definition scan_inv (k : Z) (fs : list FrameData) (s : Scan) : Prop :=
  best true k fs (has_under_k s) (under_k_victim s) (under_k_ts s) /\
  best false k fs (has_k s) (k_victim s) (k_ts s).

Lemma lookup_snoc (fs : list FrameData) f j g :
  (fs ++ [f]) !! j = Some g -> fs !! j = Some g \/ g = f.
Proof.
  intros H. apply lookup_app_Some in H as [H|[_ H]]; [by left|right].
  destruct (j - length fs)%nat; simpl in H; [congruence|done].
Qed.

(** A frame that is no candidate of a class changes nothing for that class. *)
Lemma best_skip u k fs f has v ts : ~ candidate u k f ->
  best u k fs has v ts -> best u k (fs ++ [f]) has v ts.
Proof.
  intros Hn. unfold best. destruct has.
  - intros (g & Hv & Hg & Hc & Hfr & Hmin). exists g. split_and!; try done.
    + by apply lookup_app_l_Some.
    + intros j g' Hj Hc'. apply lookup_snoc in Hj as [Hj| ->]; [by eapply Hmin|done].
  - intros H j g Hj. apply lookup_snoc in Hj as [Hj| ->]; [by eapply H|done].
Qed.

(** A candidate replaces the best so far exactly when its front is smaller. *)
Lemma best_step u k fs f has v ts : candidate u k f -> best u k fs has v ts ->
  if negb has || (front f <? ts) then best u k (fs ++ [f]) true (zlen fs) (front f)
  else best u k (fs ++ [f]) has v ts.
Proof.
  intros Hc Hb. destruct (negb has || (front f <? ts)) eqn:Hcond.
  - exists f. split_and!; try done.
    + unfold zlen. lia.
    + unfold zlen. rewrite Nat2Z.id. by apply list_lookup_middle.
    + intros j g Hj Hg. apply lookup_snoc in Hj as [Hj| ->]; [|done].
      destruct has; simpl in *; [|by apply Hb in Hj].
      destruct Hb as (g' & _ & _ & _ & _ & Hmin). specialize (Hmin _ _ Hj Hg). lia.
  - destruct has; [|done]. simpl in Hcond. destruct Hb as (g & Hv & Hg & Hc' & Hfr & Hmin).
    exists g. split_and!; try done.
    + by apply lookup_app_l_Some.
    + intros j g' Hj Hc''. apply lookup_snoc in Hj as [Hj| ->]; [by eapply Hmin|].
      apply Z.ltb_ge in Hcond. done.
Qed.

Lemma scan_frame_inv k fs s f :
  scan_inv k fs s -> scan_inv k (fs ++ [f]) (scan_frame k s (zlen fs) f).
Proof.
  intros [Hu Hk]. unfold scan_frame. fold (front f).
  destruct (tracked f) eqn:Ht; simpl.
  2:{ split; apply best_skip; try done; intros [? _]; congruence. }
  destruct (evictable f) eqn:He; simpl.
  2:{ split; apply best_skip; try done; intros (_ & ? & _); congruence. }
  destruct (zlen (history f) <? k) eqn:Hlt.
  - assert (Hc : candidate true k f) by done.
    assert (Hn : ~ candidate false k f) by (intros (_ & _ & ?); congruence).
    pose proof (best_step _ _ _ _ _ _ _ Hc Hu) as Hstep. revert Hstep.
    destruct (negb (has_under_k s) || (front f <? under_k_ts s)); intros Hstep;
      split; try done; by apply best_skip.
  - assert (Hc : candidate false k f) by done.
    assert (Hn : ~ candidate true k f) by (intros (_ & _ & ?); congruence).
    pose proof (best_step _ _ _ _ _ _ _ Hc Hk) as Hstep. revert Hstep.
    destruct (negb (has_k s) || (front f <? k_ts s)); intros Hstep;
      split; try done; by apply best_skip.
Qed.

Lemma scan_correct k fs : scan_inv k fs (scan k 0 fs (mkScan 0 0 false 0 0 false)).
Proof.
  assert (Hgen : forall fs pre s, scan_inv k pre s -> scan_inv k (pre ++ fs) (scan k (zlen pre) fs s)).
  { clear fs. induction fs as [|f fs IH]; intros pre s Hs; simpl; [by rewrite app_nil_r|].
    rewrite cons_middle, app_assoc.
    replace (zlen pre + 1) with (zlen (pre ++ [f])) by (rewrite zlen_app; done).
    by apply IH, scan_frame_inv. }
  apply (Hgen fs [] (mkScan 0 0 false 0 0 false)). split; simpl; intros j g Hj; done.
Qed.

(** The frame [victim] returns: an evictable one; with less than [k] accesses if some
    evictable frame has less than [k], and then with the oldest front. *)
Definition lruk_choice (r : LRUKReplacer) (v : Z) : Prop :=
  exists f, get_frame r v = Some f /\ tracked f = true /\ evictable f = true /\
  forall j g, get_frame r j = Some g -> tracked g = true -> evictable g = true ->
    ((zlen (history g) <? k_ r) = true -> (zlen (history f) <? k_ r) = true) /\
    ((zlen (history g) <? k_ r) = (zlen (history f) <? k_ r) -> front f <= front g).

Lemma get_frame_lookup r v f : 0 <= v -> frames_ r !! Z.to_nat v = Some f -> get_frame r v = Some f.
Proof. intros Hv Hf. unfold get_frame. by rewrite (proj2 (Z.ltb_ge v 0)) by lia. Qed.

Lemma victim_choice n r v r' : lruk_inv n r -> victim r = Some (v, r') ->
  lruk_choice r v /\ r' = remove r v.
Proof.
  intros Hinv. unfold victim. destruct (Z.eqb_spec (evictable_count_ r) 0) as [|Hne]; [done|].
  pose proof (scan_correct (k_ r) (frames_ r)) as [Hu Hk].
  set (s := scan _ _ _ _) in *. intros [= <- <-]. split; [|done].
  destruct (has_under_k s).
  - destruct Hu as (f & Hv & Hf & (Ht & He & Hl) & Hfr & Hmin). exists f.
    split_and!; [by apply get_frame_lookup|done..|].
    intros j g Hj Htg Heg. apply get_frame_Some in Hj as [_ Hj]. split; [done|].
    rewrite Hl, Hfr. intros Hlg. by apply (Hmin _ _ Hj).
  - destruct (has_k s).
    + destruct Hk as (f & Hv & Hf & (Ht & He & Hl) & Hfr & Hmin). exists f.
      split_and!; [by apply get_frame_lookup|done..|].
      intros j g Hj Htg Heg. apply get_frame_Some in Hj as [_ Hj]. split.
      * intros Hlg. by destruct (Hu _ _ Hj).
      * rewrite Hl, Hfr. intros Hlg. by apply (Hmin _ _ Hj).
    + destruct Hne. rewrite (inv_count _ _ Hinv). apply count_zero. intros i f Hf.
      destruct (evictable f) eqn:He; [|done].
      destruct (Forall_lookup_1 _ _ _ _ (inv_frames _ _ Hinv) Hf) as [Ht _].
      specialize (Ht He). destruct (zlen (history f) <? k_ r) eqn:Hl.
      * by destruct (Hu _ _ Hf).
      * by destruct (Hk _ _ Hf).
Qed.

Lemma victim_None n r : lruk_inv n r -> victim r = None -> forall i, lruk_view r i <> Some true.
Proof.
  intros Hinv. unfold victim. destruct (Z.eqb_spec (evictable_count_ r) 0) as [Hz|]; [|done].
  intros _ i. rewrite (inv_count _ _ Hinv) in Hz. unfold lruk_view.
  destruct (get_frame r i) as [f|] eqn:Hf; [|done]. apply get_frame_Some in Hf as [_ Hf].
  rewrite count_zero in Hz. rewrite (Hz _ _ Hf). by destruct (tracked f).
Qed.

Lemma lruk_choice_range r v : lruk_choice r v -> 0 <= v < zlen (frames_ r).
Proof. intros (f & Hf & _). by apply get_frame_Some in Hf as [? _]. Qed.

#[export] Instance LRUK_laws : ReplacerLaws LRUKReplacer.
Proof.
  refine {| rp_inv := lruk_inv; rp_view := lruk_view |}.
  - intros n r i b Hinv. unfold lruk_view. destruct (get_frame r i) as [f|] eqn:Hf; [|done].
    apply get_frame_Some in Hf as [Hi _]. by rewrite (inv_n _ _ Hinv) in Hi.
  - exact victim_None.
  - intros n r v r' Hinv Hv. destruct (victim_choice _ _ _ _ Hinv Hv) as [Hc ->].
    pose proof (lruk_choice_range _ _ Hc) as Hr. rewrite (inv_n _ _ Hinv) in Hr.
    destruct Hc as (f & Hf & Ht & He & _). split; [|by apply lruk_remove_ok].
    unfold lruk_view. by rewrite Hf, Ht, He.
  - exact lruk_pin_ok.
  - exact lruk_unpin_ok.
  - exact lruk_record_access_ok.
Defined.

Lemma lruk_new_inv n k : 1 <= k -> in_u 64 n -> lruk_inv n (lruk_new n k).
Proof.
  intros Hk Hn. unfold in_u in Hn. split; simpl; try done.
  - unfold zlen. rewrite length_replicate. lia.
  - symmetry. apply count_zero. intros i f Hf. by apply lookup_replicate in Hf as [-> _].
  - apply Forall_replicate. repeat split; simpl; try done. unfold zlen. simpl. lia.
Qed.

(** ** The policy *)

(** The abstract machine keeps, for each tracked frame, the times of all accesses
    since it was last removed. *)
Module Spec.
Record aframe : Type := mkA { accesses : list Z; can_evict : bool }.
Record t : Type := mk { clock : Z; frames : gmap Z aframe }.

Definition init : t := mk 0 ∅.

(** The distance back to the [k]-th most recent access; [None] is infinite. *)
Definition k_distance (k clock : Z) (a : aframe) : option Z :=
  if zlen (accesses a) <? k then None
  else Some (clock - nth (length (accesses a) - Z.to_nat k) (accesses a) 0).

(** [a] is at least as good a victim as [b]: a larger backward k-distance; among
    infinite distances, the older first access. *)
Definition evict_before (k clock : Z) (a b : aframe) : Prop :=
  match k_distance k clock a, k_distance k clock b with
  | None, None => List.hd 0 (accesses a) <= List.hd 0 (accesses b)
  | None, Some _ => True
  | Some _, None => False
  | Some da, Some db => db <= da
  end.

Definition is_victim (k : Z) (s : t) (v : Z) : Prop :=
  exists a, frames s !! v = Some a /\ can_evict a = true /\
  forall j b, frames s !! j = Some b -> can_evict b = true -> evict_before k (clock s) a b.
End Spec.

Inductive op : Type :=
| OpAccess (i : Z) | OpPin (i : Z) | OpUnpin (i : Z) | OpRemove (i : Z) | OpVictim.

(** One step of the policy, with the frame it evicts. *)
Inductive spec_step (k : Z) (s : Spec.t) : op -> option Z -> Spec.t -> Prop :=
| SAccess i a : default (Spec.mkA [] false) (Spec.frames s !! i) = a ->
    spec_step k s (OpAccess i) None
      (Spec.mk (Spec.clock s + 1)
        (<[i := Spec.mkA (Spec.accesses a ++ [Spec.clock s + 1]) (Spec.can_evict a)]> (Spec.frames s)))
| SPin i : spec_step k s (OpPin i) None
    (Spec.mk (Spec.clock s) (alter (fun a => Spec.mkA (Spec.accesses a) false) i (Spec.frames s)))
| SUnpin i : spec_step k s (OpUnpin i) None
    (Spec.mk (Spec.clock s) (alter (fun a => Spec.mkA (Spec.accesses a) true) i (Spec.frames s)))
| SRemove i : spec_step k s (OpRemove i) None
    (Spec.mk (Spec.clock s) (delete i (Spec.frames s)))
| SVictim v : Spec.is_victim k s v ->
    spec_step k s OpVictim (Some v) (Spec.mk (Spec.clock s) (delete v (Spec.frames s)))
| SNoVictim : (forall j b, Spec.frames s !! j = Some b -> Spec.can_evict b = false) ->
    spec_step k s OpVictim None s.

Inductive spec_run (k : Z) : Spec.t -> list op -> list (option Z) -> Spec.t -> Prop :=
| RunNil s : spec_run k s [] [] s
| RunCons s o x s' os xs s'' : spec_step k s o x s' -> spec_run k s' os xs s'' ->
    spec_run k s (o :: os) (x :: xs) s''.

(** The same operations on the implementation. *)
Definition lruk_step (r : LRUKReplacer) (o : op) : option Z * LRUKReplacer :=
  match o with
  | OpAccess i => (None, record_access r i)
  | OpPin i => (None, pin r i)
  | OpUnpin i => (None, unpin r i)
  | OpRemove i => (None, remove r i)
  | OpVictim => match victim r with Some (v, r') => (Some v, r') | None => (None, r) end
  end.

Fixpoint lruk_run (r : LRUKReplacer) (os : list op) : list (option Z) * LRUKReplacer :=
  match os with
  | [] => ([], r)
  | o :: os' =>
      let '(x, r) := lruk_step r o in
      let '(xs, r) := lruk_run r os' in (x :: xs, r)
  end.

Definition op_in_range (n : Z) (o : op) : Prop :=
  match o with
  | OpAccess i | OpPin i | OpUnpin i | OpRemove i => 0 <= i < n
  | OpVictim => True
  end.

(** ** The simulation *)

Definition last_k (k : Z) (l : list Z) : list Z := drop (length l - Z.to_nat k) l.

(** What the frame [f] keeps of the abstract frame. *)
Definition frame_rel (k : Z) (f : FrameData) (oa : option Spec.aframe) : Prop :=
  match oa with
  | Some a => tracked f = true /\ evictable f = Spec.can_evict a /\
              history f = last_k k (Spec.accesses a)
  | None => tracked f = false
  end.

Record represents (n : Z) (r : LRUKReplacer) (s : Spec.t) : Prop := {
  rep_inv : lruk_inv n r;
  rep_clock : counter_ r = Spec.clock s;
  rep_frames : forall i f, get_frame r i = Some f -> frame_rel (k_ r) f (Spec.frames s !! i);
  rep_dom : forall i a, Spec.frames s !! i = Some a -> 0 <= i < n
}.

Lemma push_history_last_k k l c : 1 <= k ->
  push_history k (last_k k l) c = last_k k (l ++ [c]).
Proof.
  intros Hk. unfold push_history, last_k. rewrite zlen_app, length_app. simpl.
  unfold zlen. rewrite length_drop. simpl.
  destruct (Z.gtb_spec (Z.of_nat (length l - (length l - Z.to_nat k)) + Z.of_nat 1) k); cycle 1.
  - by replace (length l - Z.to_nat k)%nat with 0%nat by lia;
       replace (length l + 1 - Z.to_nat k)%nat with 0%nat by lia.
  - replace (length l + 1 - Z.to_nat k)%nat with (S (length l - Z.to_nat k)) by lia.
    rewrite drop_app_le by lia.
    destruct (drop (length l - Z.to_nat k) l) as [|x l'] eqn:Hd.
    { apply (f_equal length) in Hd. rewrite length_drop in Hd. simpl in Hd. lia. }
    simpl. f_equal. replace (S (length l - Z.to_nat k)) with (length l - Z.to_nat k + 1)%nat by lia.
    by rewrite <- drop_drop, Hd.
Qed.

Lemma last_k_short k l : 1 <= k -> (zlen (last_k k l) <? k) = (zlen l <? k).
Proof.
  intros Hk. unfold last_k, zlen. rewrite length_drop.
  destruct (Z.ltb_spec (Z.of_nat (length l)) k), (Z.ltb_spec (Z.of_nat (length l - (length l - Z.to_nat k))) k); lia.
Qed.

Lemma hd_last_k k l : List.hd 0 (last_k k l) = nth (length l - Z.to_nat k) l 0.
Proof. unfold last_k. generalize (length l - Z.to_nat k)%nat. by induction l; intros []; simpl. Qed.

(** The choice of the scan is a victim of the policy. *)
Lemma choice_is_victim n r s v : represents n r s -> lruk_choice r v -> Spec.is_victim (k_ r) s v.
Proof.
  intros [Hinv Hck Hfr Hdom] (f & Hf & Ht & He & Hbest).
  pose proof (inv_k _ _ Hinv) as Hk.
  pose proof (Hfr _ _ Hf) as Hrel. destruct (Spec.frames s !! v) as [a|] eqn:Ha; simpl in Hrel;
    [|congruence].
  destruct Hrel as (_ & Hea & Hha). exists a. split_and!; [done|congruence|].
  intros j b Hb Hcb. pose proof (Hdom _ _ Hb) as Hj. rewrite <- (inv_n _ _ Hinv) in Hj.
  destruct (get_frame_in r j Hj) as [g Hg]. pose proof (Hfr _ _ Hg) as Hrelg.
  rewrite Hb in Hrelg. destruct Hrelg as (Htg & Heg & Hhg).
  destruct (Hbest _ _ Hg Htg) as [H1 H2]; [congruence|].
  unfold front in H2. rewrite Hha, Hhg, !last_k_short, !hd_last_k in * by done.
  unfold Spec.evict_before, Spec.k_distance.
  assert (Hhd : forall l, zlen l < k_ r -> List.hd 0 l = nth (length l - Z.to_nat (k_ r)) l 0).
  { intros l Hl. unfold zlen in Hl. replace (length l - Z.to_nat (k_ r))%nat with 0%nat by lia. by destruct l. }
  destruct (Z.ltb_spec (zlen (Spec.accesses a)) (k_ r)), (Z.ltb_spec (zlen (Spec.accesses b)) (k_ r)).
  - rewrite !Hhd by done. by apply H2.
  - done.
  - by specialize (H1 eq_refl).
  - specialize (H2 eq_refl). lia.
Qed.

(** The view of a frame that [alter] changed. *)
Ltac sim_frame s i :=
  simpl; rewrite lookup_alter_eq; destruct (Spec.frames s !! i); simpl in *;
  split_ands; split_and?; simpl; congruence.

Section step.
Context (n : Z) (r : LRUKReplacer) (s : Spec.t).
Hypothesis Hrep : represents n r s.

(** Both sides change frame [i] only. *)
Lemma represents_update i g r' s' :
  0 <= i < n -> lruk_inv n r' -> k_ r' = k_ r -> counter_ r' = Spec.clock s' ->
  (forall j, get_frame r' j = if decide (j = i) then Some g else get_frame r j) ->
  frame_rel (k_ r) g (Spec.frames s' !! i) ->
  (forall j, j <> i -> Spec.frames s' !! j = Spec.frames s !! j) ->
  represents n r' s'.
Proof using Hrep.
  intros Hi Hinv' Hk Hc Hget Hrel Hother. destruct Hrep as [Hinv Hck Hfr Hdom].
  split; [done|done|..].
  - intros j f. rewrite Hget, Hk. case_decide; subst; [by intros [= <-]|].
    rewrite Hother by done. apply Hfr.
  - intros j a. destruct (decide (j = i)); [by subst|]. rewrite Hother by done. apply Hdom.
Qed.

(** Nothing changes but the view of frame [i], which already is the new one. *)
Lemma represents_same i f s' :
  get_frame r i = Some f -> Spec.clock s' = Spec.clock s ->
  frame_rel (k_ r) f (Spec.frames s' !! i) ->
  (forall j, j <> i -> Spec.frames s' !! j = Spec.frames s !! j) ->
  represents n r s'.
Proof using Hrep.
  intros Hf Hc Hrel Hother. destruct (get_frame_Some _ _ _ Hf) as [Hi _].
  rewrite (inv_n _ _ (rep_inv _ _ _ Hrep)) in Hi.
  eapply (represents_update i f); try done.
  - apply (rep_inv _ _ _ Hrep).
  - rewrite Hc. apply (rep_clock _ _ _ Hrep).
  - intros j. case_decide; by subst.
Qed.

Lemma represents_frame i : 0 <= i < n ->
  exists f, get_frame r i = Some f /\ 0 <= i < zlen (frames_ r) /\
    frame_rel (k_ r) f (Spec.frames s !! i).
Proof using Hrep.
  intros Hi. rewrite <- (inv_n _ _ (rep_inv _ _ _ Hrep)) in Hi.
  destruct (get_frame_in r i Hi) as [f Hf]. exists f. split_and!; try done; try apply Hi.
  by apply (rep_frames _ _ _ Hrep).
Qed.

Lemma sim_remove i : 0 <= i < n ->
  represents n (remove r i) (Spec.mk (Spec.clock s) (delete i (Spec.frames s))).
Proof using Hrep.
  intros Hi. destruct (represents_frame i Hi) as (f & Hf & Hi' & Hrel).
  destruct (lruk_remove_ok n r i (rep_inv _ _ _ Hrep) Hi) as [Hinv' _].
  revert Hinv'. unfold remove. rewrite Hf. destruct (tracked f) eqn:Ht; simpl; intros Hinv'.
  - eapply (represents_update i (mkFrame [] false false)); simpl; try done.
    + apply (rep_clock _ _ _ Hrep).
    + intros j. by apply get_frame_insert.
    + by rewrite lookup_delete_eq.
    + intros j Hj. by rewrite lookup_delete_ne.
  - eapply (represents_same i f); simpl; try done.
    + by rewrite lookup_delete_eq.
    + intros j Hj. by rewrite lookup_delete_ne.
Qed.

Lemma sim_record_access i a : 0 <= i < n -> Spec.clock s + 1 < 2 ^ 64 -> 0 <= Spec.clock s ->
  default (Spec.mkA [] false) (Spec.frames s !! i) = a ->
  represents n (record_access r i)
    (Spec.mk (Spec.clock s + 1)
      (<[i := Spec.mkA (Spec.accesses a ++ [Spec.clock s + 1]) (Spec.can_evict a)]> (Spec.frames s))).
Proof using Hrep.
  intros Hi Hclk Hclk0 Ha. destruct (represents_frame i Hi) as (f & Hf & Hi' & Hrel).
  pose proof (rep_inv _ _ _ Hrep) as Hinv.
  destruct (lruk_record_access_ok n r i Hinv Hi) as [Hinv' _].
  destruct (inv_frame_wf _ _ _ _ Hinv Hf) as (H1 & H2 & H3 & H4).
  revert Hinv'. unfold record_access. rewrite Hf.
  fold (push_history (k_ r) (history f) (wrap 64 (counter_ r + 1))).
  rewrite (rep_clock _ _ _ Hrep), wrap_id by (split; [lia|done]). intros Hinv'.
  eapply (represents_update i (mkFrame _ _ _)); try done.
  - intros j. by apply get_frame_insert.
  - simpl. rewrite lookup_insert_eq. simpl. destruct (Spec.frames s !! i) as [a'|]; simpl in *; subst a.
    + destruct Hrel as (_ & -> & ->). split_and!; try done. apply push_history_last_k, (inv_k n), Hinv.
    + rewrite (H3 Hrel). split_and!; try done.
      * simpl. destruct (evictable f); [|done]. rewrite Hrel in H1. by specialize (H1 eq_refl).
      * apply (push_history_last_k _ []), (inv_k n), Hinv.
  - intros j Hj. simpl. by rewrite lookup_insert_ne.
Qed.

Lemma sim_pin i : 0 <= i < n ->
  represents n (pin r i)
    (Spec.mk (Spec.clock s) (alter (fun a => Spec.mkA (Spec.accesses a) false) i (Spec.frames s))).
Proof using Hrep.
  intros Hi. destruct (represents_frame i Hi) as (f & Hf & Hi' & Hrel).
  destruct (lruk_pin_ok n r i (rep_inv _ _ _ Hrep) Hi) as [Hinv' _].
  assert (Hoth : forall j, j <> i -> alter (fun a => Spec.mkA (Spec.accesses a) false) i (Spec.frames s) !! j
      = Spec.frames s !! j) by (intros j Hj; by rewrite lookup_alter_ne).
  revert Hinv'. unfold pin. rewrite Hf.
  destruct (tracked f) eqn:Ht; simpl; intros Hinv';
    [destruct (evictable f) eqn:He|];
    [eapply (represents_update i (mkFrame _ _ _))|eapply (represents_same i f)..]; try done;
    try apply (rep_clock _ _ _ Hrep); try (intros j; by apply get_frame_insert);
    sim_frame s i.
Qed.

Lemma sim_unpin i : 0 <= i < n ->
  represents n (unpin r i)
    (Spec.mk (Spec.clock s) (alter (fun a => Spec.mkA (Spec.accesses a) true) i (Spec.frames s))).
Proof using Hrep.
  intros Hi. destruct (represents_frame i Hi) as (f & Hf & Hi' & Hrel).
  destruct (lruk_unpin_ok n r i (rep_inv _ _ _ Hrep) Hi) as [Hinv' _].
  assert (Hoth : forall j, j <> i -> alter (fun a => Spec.mkA (Spec.accesses a) true) i (Spec.frames s) !! j
      = Spec.frames s !! j) by (intros j Hj; by rewrite lookup_alter_ne).
  revert Hinv'. unfold unpin. rewrite Hf.
  destruct (tracked f) eqn:Ht; simpl; intros Hinv';
    [destruct (evictable f) eqn:He|];
    [eapply (represents_same i f)|eapply (represents_update i (mkFrame _ _ _))|eapply (represents_same i f)];
    try done;
    try apply (rep_clock _ _ _ Hrep); try (intros j; by apply get_frame_insert);
    sim_frame s i.
Qed.

Lemma sim_step o : op_in_range n o -> 0 <= Spec.clock s -> Spec.clock s + 1 < 2 ^ 64 ->
  exists s', spec_step (k_ r) s o (fst (lruk_step r o)) s' /\
    represents n (snd (lruk_step r o)) s' /\ k_ (snd (lruk_step r o)) = k_ r /\
    0 <= Spec.clock s' <= Spec.clock s + 1.
Proof using Hrep.
  intros Ho Hc0 Hc. destruct o as [i|i|i|i|]; simpl.
  - eexists. split_and!; [by econstructor|by apply sim_record_access| |simpl; lia..].
    unfold record_access. by destruct (get_frame r i).
  - eexists. split_and!; [by econstructor|by apply sim_pin| |simpl; lia..].
    unfold pin. destruct (get_frame r i) as [[? [] []]|]; done.
  - eexists. split_and!; [by econstructor|by apply sim_unpin| |simpl; lia..].
    unfold unpin. destruct (get_frame r i) as [[? [] []]|]; done.
  - eexists. split_and!; [by econstructor|by apply sim_remove| |simpl; lia..].
    unfold remove. destruct (get_frame r i) as [[? [] []]|]; done.
  - pose proof (rep_inv _ _ _ Hrep) as Hinv. destruct (victim r) as [[v r']|] eqn:Hv; simpl.
    + destruct (victim_choice _ _ _ _ Hinv Hv) as [Hch ->].
      pose proof (lruk_choice_range _ _ Hch) as Hr. rewrite (inv_n _ _ Hinv) in Hr.
      eexists. split_and!; [econstructor; by eapply choice_is_victim|by apply sim_remove| |simpl; lia..].
      unfold remove. destruct (get_frame r v) as [[? [] []]|]; done.
    + exists s. split_and!; [|done|done|lia..]. constructor. intros j b Hb.
      destruct (represents_frame j (rep_dom _ _ _ Hrep _ _ Hb)) as (f & Hf & _ & Hrel).
      rewrite Hb in Hrel. destruct Hrel as (Ht & He & _).
      pose proof (victim_None _ _ Hinv Hv j) as Hno. rewrite (view_frame _ _ _ Hf), Ht, He in Hno.
      destruct (Spec.can_evict b); congruence.
Qed.
End step.

Lemma sim_run os n r s : represents n r s -> Forall (op_in_range n) os ->
  0 <= Spec.clock s -> Spec.clock s + zlen os < 2 ^ 64 ->
  exists s', spec_run (k_ r) s os (fst (lruk_run r os)) s' /\ represents n (snd (lruk_run r os)) s'.
Proof.
  revert r s. induction os as [|o os IH]; intros r s Hrep Hos Hc0 Hc; simpl.
  - exists s. by split; [constructor|].
  - inversion_clear Hos. replace (zlen (o :: os)) with (1 + zlen os) in Hc by (unfold zlen; simpl; lia).
    pose proof (zlen_nonneg os).
    destruct (sim_step _ _ _ Hrep o) as (s1 & Hstep & Hrep1 & Hk & Hc1); [done|done|lia|].
    destruct (lruk_step r o) as [x r1]; simpl in *.
    destruct (IH r1 s1) as (s2 & Hrun & Hrep2); [done|done|lia|lia|].
    rewrite Hk in Hrun. destruct (lruk_run r1 os) as [xs r2]; simpl in *.
    exists s2. split; [by econstructor|done].
Qed.

Lemma represents_new n k : 1 <= k -> in_u 64 n -> represents n (lruk_new n k) Spec.init.
Proof.
  intros Hk Hn. split; simpl; try done; [by apply lruk_new_inv|].
  intros i f Hf. apply get_frame_Some in Hf as [_ Hf]. simpl in Hf.
  apply lookup_replicate in Hf as [-> _]. by rewrite lookup_empty.
Qed.

(** ** Properties *)

(** C28. Every sequence of accesses, pins, unpins, removals and evictions of the replacer is
    a run of the LRU-K policy on complete access logs: each victim is an evictable frame
    with the largest backward k-distance, infinite distances (fewer than [k] accesses)
    first and among them the one first accessed earliest; and [victim] fails only when
    no frame is evictable.  (The access counter does not wrap within [2^64] operations.) *)
Theorem lruk_refines_policy n k os :
  1 <= k -> in_u 64 n -> Forall (op_in_range n) os -> zlen os < 2 ^ 64 ->
  exists s, spec_run k Spec.init os (fst (lruk_run (lruk_new n k) os)) s /\
    represents n (snd (lruk_run (lruk_new n k) os)) s.
Proof.
  intros Hk Hn Hos Hl. apply (sim_run os n (lruk_new n k) Spec.init); try done.
  by apply represents_new.
Qed.

Lemma lruk_refines_policy_witness :
  exists s, spec_run 2 Spec.init
    [OpAccess 0; OpAccess 1; OpAccess 0; OpUnpin 0; OpUnpin 1; OpVictim; OpVictim; OpVictim]
    [None; None; None; None; None; Some 1; Some 0; None] s.
Proof.
  destruct (lruk_refines_policy 3 2
    [OpAccess 0; OpAccess 1; OpAccess 0; OpUnpin 0; OpUnpin 1; OpVictim; OpVictim; OpVictim])
    as [s [H _]]; [lia|unfold in_u; lia|repeat constructor; simpl; lia|reflexivity|].
  exists s. exact H.
Defined.
