(* ===== verification/BufferPool.v ===== *)
(** * The buffer pool

    [BufferPool] (src/src/storage/memory/buffer_pool.h, buffer_pool.cpp), over any
    replacer that satisfies the interface of LruK.v and the disk manager of Page.v.

    The pages live in [slab_] and never move: a [Page*] is an index into [slab_], and
    a caller that keeps the pointer sees later changes of that page.  [None] as a
    result of an operation is undefined behaviour of the source: an index out of
    range, a null frame, [front()] of an empty queue, or an [int] overflow of
    [pin_count].  The mutex serialises the operations. *)

From S2P Require Import Prelude XXHash Page LruK.

Section pool.
Context {R : Type} `{RL : ReplacerLaws R}.

Record BufferPool : Type := mkPool {
slab_ : list Page;
fresh_slots_ : list (option nat);
fresh_free_ : list Z;
page_free_ : list nat;
page_table_ : gmap Z Z;
replacer_ : R
}.

(** The constructor; [replacer] is the one it makes for [fresh_capacity] frames. Its last loop counts with a
    32-bit [FrameId], so this is the constructor for capacities below [2^32], which a larger one would
    not leave; the sources make pools of 64 frames only. *)
Definition pool_new (fresh_capacity : Z) (replacer : R) : BufferPool :=
let n := Z.to_nat fresh_capacity in
mkPool (replicate n page_init) (replicate n None) (Z.of_nat <$> seq 0 n) (seq 0 n) ∅ replacer.

Definition fresh_capacity (bp : BufferPool) : Z := zlen (fresh_slots_ bp).

Definition INT_MAX : Z := 2 ^ 31 - 1.

Definition acquire_fresh_slot_locked (bp : BufferPool) : option (result Z * BufferPool) :=
match fresh_free_ bp with
| slot :: free =>
    Some (Ok slot, mkPool (slab_ bp) (fresh_slots_ bp) free (page_free_ bp)
                          (page_table_ bp) (replacer_ bp))
| [] =>
    match rp_victim (replacer_ bp) with
    | None => Some (Err "acquire_fresh_slot: fresh pool full, no evictable frame", bp)
    | Some (victim, rep) =>
        let! slot := fresh_slots_ bp !! Z.to_nat victim in
        let! p := slot in
        let! page := slab_ bp !! p in
        Some (Ok victim,
          mkPool (<[p := reset page INVALID_PAGE_ID]> (slab_ bp))
                 (<[Z.to_nat victim := None]> (fresh_slots_ bp))
                 [] (page_free_ bp ++ [p])
                 (delete (page_id page) (page_table_ bp)) rep)
    end
end.

Definition fetch_page (disk : DiskManager) (bp : BufferPool) (id : Z)
  : option (result nat * BufferPool) :=
match page_table_ bp !! id with
| Some slot =>
    let! s := fresh_slots_ bp !! Z.to_nat slot in
    let! p := s in
    let! page := slab_ bp !! p in
    if pin_count page =? INT_MAX then None else
    Some (Ok p,
      mkPool (<[p := set_pin_count page (pin_count page + 1)]> (slab_ bp)) (fresh_slots_ bp)
             (fresh_free_ bp) (page_free_ bp) (page_table_ bp)
             (rp_pin (rp_record_access (replacer_ bp) slot) slot))
| None =>
    let! (slot_res, bp) := acquire_fresh_slot_locked bp in
    match slot_res with
    | Err e => Some (Err e, bp)
    | Ok slot =>
        match page_free_ bp with
        | [] => None
        | p :: free =>
            let! page := slab_ bp !! p in
            let '(read_res, page) := read_page disk id page in
            match read_res with
            | Err e =>
                Some (Err e,
                  mkPool (<[p := page]> (slab_ bp)) (fresh_slots_ bp)
                         (fresh_free_ bp ++ [slot]) (free ++ [p]) (page_table_ bp) (replacer_ bp))
            | Ok _ =>
                let! _ := fresh_slots_ bp !! Z.to_nat slot in
                Some (Ok p,
                  mkPool (<[p := set_pin_count page 1]> (slab_ bp))
                         (<[Z.to_nat slot := Some p]> (fresh_slots_ bp))
                         (fresh_free_ bp) free
                         (<[id := slot]> (page_table_ bp))
                         (rp_pin (rp_record_access (replacer_ bp) slot) slot))
            end
        end
    end
end.

Definition unpin_page (bp : BufferPool) (id : Z) : option (result unit * BufferPool) :=
match page_table_ bp !! id with
| None => Some (Err ("unpin_page: page " +:+ pretty id +:+ " not in pool"), bp)
| Some slot =>
    let! s := fresh_slots_ bp !! Z.to_nat slot in
    let! p := s in
    let! page := slab_ bp !! p in
    if pin_count page <=? 0 then
      Some (Err ("unpin_page: page " +:+ pretty id +:+ " not pinned"), bp)
    else
      let n := pin_count page - 1 in
      Some (Ok tt,
        mkPool (<[p := set_pin_count page n]> (slab_ bp)) (fresh_slots_ bp)
               (fresh_free_ bp) (page_free_ bp) (page_table_ bp)
               (if n =? 0 then rp_unpin (replacer_ bp) slot else replacer_ bp))
end.

(** ** The invariant *)

(** Slot [i] holds the page at slab index [p]. *)
Definition holds (bp : BufferPool) (i : Z) (p : nat) : Prop :=
0 <= i /\ fresh_slots_ bp !! Z.to_nat i = Some (Some p).

(** The payload of a cached page is that of the file, where the page is readable.  (Its
    checksum field is that of the last read: a write seals a copy.) *)
Definition cached (d : DiskManager) (pg : Page) : Prop :=
0 <= page_id pg /\ page_on d (page_id pg) (payload pg).

(** What the replacer must know of slot [i]. *)
Definition slot_view (bp : BufferPool) (i : Z) : option bool :=
match fresh_slots_ bp !! Z.to_nat i with
| Some (Some p) =>
    match slab_ bp !! p with
    | Some pg => Some (pin_count pg =? 0)
    | None => None
    end
| _ => None
end.

(** The invariant, while the slot [busy] is taken from the free list and not yet
  filled; between operations [busy] is [None]. *)
Record pool_inv_busy (busy : option Z) (n : Z) (d : DiskManager) (bp : BufferPool) : Prop := {
pi_slab : zlen (slab_ bp) = n;
pi_slots : zlen (fresh_slots_ bp) = n;
pi_wf : Forall page_wf (slab_ bp);
pi_pins : Forall (fun pg => 0 <= pin_count pg <= INT_MAX) (slab_ bp);
pi_free_slot : forall i, i ∈ fresh_free_ bp <->
  0 <= i /\ fresh_slots_ bp !! Z.to_nat i = Some None /\ busy <> Some i;
pi_busy : forall i, busy = Some i -> 0 <= i /\ fresh_slots_ bp !! Z.to_nat i = Some None;
pi_free_nodup : NoDup (fresh_free_ bp);
pi_page_free : forall p, p ∈ page_free_ bp -> (p < length (slab_ bp))%nat /\ forall i, ~ holds bp i p;
pi_page_nodup : NoDup (page_free_ bp);
pi_free_len : length (page_free_ bp) =
  (length (fresh_free_ bp) + if busy is Some _ then 1 else 0)%nat;
pi_inj : forall i j p, holds bp i p -> holds bp j p -> i = j;
pi_holds : forall i p, holds bp i p -> exists pg, slab_ bp !! p = Some pg /\
  cached d pg /\ page_table_ bp !! page_id pg = Some i;
pi_table : forall id i, page_table_ bp !! id = Some i -> exists p pg,
  holds bp i p /\ slab_ bp !! p = Some pg /\ page_id pg = id;
pi_rep : rp_inv n (replacer_ bp);
pi_view : forall i, 0 <= i < n -> rp_view (replacer_ bp) i = slot_view bp i
}.

Abbreviation pool_inv := (pool_inv_busy None).

(** ** Lemmas *)

Lemma pool_new_inv n d rep : 0 <= n -> rp_inv n rep -> (forall i, rp_view rep i = None) ->
pool_inv n d (pool_new n rep).
Proof.
intros Hn Hrep Hview.
assert (Hno : forall i p, ~ holds (pool_new n rep) i p).
{ intros i p [_ Hh]. simpl in Hh. by apply lookup_replicate in Hh as [? _]. }
split; try done; simpl.
- unfold zlen. rewrite length_replicate. lia.
- unfold zlen. rewrite length_replicate. lia.
- apply Forall_replicate. split; [by rewrite <- (zlen_zeros PAGE_SIZE)|apply zeros_is_byte].
- by apply Forall_replicate.
- intros i. rewrite list_elem_of_fmap. setoid_rewrite list_elem_of_In. setoid_rewrite in_seq.
  rewrite lookup_replicate. split.
  + intros (j & -> & Hj). split_and!; [lia|done|lia|done].
  + intros (Hi & (_ & Hlt) & _). exists (Z.to_nat i). lia.
- apply NoDup_fmap_2; [apply _|apply NoDup_seq].
- intros p Hp. rewrite list_elem_of_In, in_seq in Hp. rewrite length_replicate.
  split; [lia|]. intros i. apply Hno.
- apply NoDup_seq.
- by rewrite length_fmap, Nat.add_0_r.
- intros i j p Hh. by apply Hno in Hh.
- intros i p Hh. by apply Hno in Hh.
- intros i Hi. rewrite Hview. unfold slot_view. simpl.
  by rewrite (lookup_replicate_2 (Z.to_nat n) None (Z.to_nat i)) by lia.
Qed.

Section inv.
Context (n : Z) (d : DiskManager) (bp : BufferPool).

Lemma holds_range busy i p : pool_inv_busy busy n d bp -> holds bp i p -> 0 <= i < n.
Proof.
intros Hinv [Hi Hl]. apply lookup_lt_Some in Hl. pose proof (pi_slots _ _ _ _ Hinv).
unfold zlen in *. lia.
Qed.

(** A change of the pin count of a held page, known to the replacer. *)
Lemma update_pin i p pg m rep' :
pool_inv n d bp -> holds bp i p -> slab_ bp !! p = Some pg -> 0 <= m <= INT_MAX ->
rp_inv n rep' ->
(forall j, rp_view rep' j = view_set (rp_view (replacer_ bp)) i (Some (m =? 0)) j) ->
pool_inv n d (mkPool (<[p := set_pin_count pg m]> (slab_ bp)) (fresh_slots_ bp)
  (fresh_free_ bp) (page_free_ bp) (page_table_ bp) rep').
Proof.
intros Hinv Hh Hpg Hm Hrep' Hv. pose proof (holds_range _ _ _ Hinv Hh) as Hi.
pose proof (lookup_lt_Some _ _ _ Hpg) as Hp.
destruct Hinv as [? ? Hwf ? ? ? ? Hpf ? ? Hinj Hholds Htable ? Hview].
assert (Hsame : forall q x, slab_ bp !! q = Some x -> exists y,
  <[p := set_pin_count pg m]> (slab_ bp) !! q = Some y /\ page_id y = page_id x /\
  (cached d x -> cached d y)).
{ intros q x Hq. rewrite list_lookup_insert. case_decide as Hc.
  - destruct Hc as [<- _]. rewrite Hpg in Hq. injection Hq as <-. by eexists.
  - by exists x. }
split; simpl; try done.
- unfold zlen in *. by rewrite length_insert.
- apply Forall_insert; [done|]. exact (Forall_lookup_1 _ _ _ _ Hwf Hpg).
- by apply Forall_insert.
- intros q Hq. rewrite length_insert. by apply Hpf.
- intros j q Hjq. destruct (Hholds j q Hjq) as (x & Hx & Hcx & Htx).
  destruct (Hsame _ _ Hx) as (y & Hy & Hid & Hc). exists y. rewrite Hid. auto.
- intros id j Hid. destruct (Htable _ _ Hid) as (q & x & Hjq & Hx & Hidx).
  destruct (Hsame _ _ Hx) as (y & Hy & Hidy & _). exists q, y. by rewrite Hidy.
- intros j Hj. rewrite Hv. unfold view_set, slot_view. simpl.
  destruct Hh as [Hi0 Hl]. destruct (decide (j = i)) as [->|Hne].
  + rewrite Hl, list_lookup_insert_eq by done. done.
  + rewrite Hview by done. unfold slot_view.
    destruct (fresh_slots_ bp !! Z.to_nat j) as [[q|]|] eqn:Hq; try done.
    rewrite list_lookup_insert_ne; [done|]. intros <-.
    apply Hne, (Hinj j i p); split; done || lia.
Qed.

(** The entry of the page table for [id]: the slot, the page and its state. *)
Lemma table_entry busy id i : pool_inv_busy busy n d bp -> page_table_ bp !! id = Some i ->
exists p pg, holds bp i p /\ 0 <= i < n /\ fresh_slots_ bp !! Z.to_nat i = Some (Some p) /\
  slab_ bp !! p = Some pg /\ page_id pg = id /\ cached d pg /\ page_wf pg /\
  0 <= pin_count pg <= INT_MAX /\ rp_view (replacer_ bp) i = Some (pin_count pg =? 0).
Proof.
intros Hinv Hid. destruct (pi_table _ _ _ _ Hinv _ _ Hid) as (p & pg & Hh & Hpg & Hpid).
pose proof (holds_range _ _ _ Hinv Hh) as Hi.
destruct (pi_holds _ _ _ _ Hinv _ _ Hh) as (pg' & Hpg' & Hc & _).
rewrite Hpg in Hpg'. injection Hpg' as <-. exists p, pg.
pose proof (Forall_lookup_1 _ _ _ _ (pi_pins _ _ _ _ Hinv) Hpg) as Hpin.
split_and!; try done; try apply Hi; try apply Hpin.
- apply Hh.
- exact (Forall_lookup_1 _ _ _ _ (pi_wf _ _ _ _ Hinv) Hpg).
- rewrite (pi_view _ _ _ _ Hinv _ Hi). unfold slot_view. destruct Hh as [_ ->]. by rewrite Hpg.
Qed.

(** After [record_access] and [pin] the slot is tracked and pinned. *)
Lemma access_pin_view rep i : rp_inv n rep -> 0 <= i < n ->
rp_inv n (rp_pin (rp_record_access rep i) i) /\
forall j, rp_view (rp_pin (rp_record_access rep i) i) j = view_set (rp_view rep) i (Some false) j.
Proof.
intros Hrep Hi. destruct (rp_record_access_ok n rep i Hrep Hi) as [Hr1 Hv1].
destruct (rp_pin_ok n _ i Hr1 Hi) as [Hr2 Hv2]. split; [done|]. intros j.
rewrite Hv2. unfold view_set at 1. rewrite !Hv1. unfold view_set.
destruct (decide (j = i)); [|done]. by rewrite decide_True.
Qed.

(** [fetch_page] of a cached page. *)
Lemma fetch_hit id i : pool_inv n d bp -> page_table_ bp !! id = Some i ->
exists p pg, holds bp i p /\ slab_ bp !! p = Some pg /\ page_id pg = id /\ cached d pg /\
  (pin_count pg < INT_MAX ->
   let bp' := mkPool (<[p := set_pin_count pg (pin_count pg + 1)]> (slab_ bp)) (fresh_slots_ bp)
                (fresh_free_ bp) (page_free_ bp) (page_table_ bp)
                (rp_pin (rp_record_access (replacer_ bp) i) i) in
   fetch_page d bp id = Some (Ok p, bp') /\ pool_inv n d bp').
Proof.
intros Hinv Hid.
destruct (table_entry None id i Hinv Hid) as (p & pg & Hh & Hi & Hs & Hpg & Hpid & Hc & _ & Hpin & _).
exists p, pg. split_and!; try done; [apply Hh..|]. intros Hlt. cbv zeta. split.
- unfold fetch_page. rewrite Hid, Hs, Hpg.
  destruct (Z.eqb_spec (pin_count pg) INT_MAX); [lia|done].
- destruct (access_pin_view (replacer_ bp) i (pi_rep _ _ _ _ Hinv) Hi) as [Hr Hv].
  apply (update_pin i); try done; [lia|]. intros j. rewrite Hv.
  destruct (Z.eqb_spec (pin_count pg + 1) 0); [lia|done].
Qed.
End inv.

Section ops.
Context (n : Z) (d : DiskManager).

(** Page [id] sits at slab index [p] in slot [i] and is pinned. *)
Definition pinned_at (bp : BufferPool) (id i : Z) (p : nat) (pg : Page) : Prop :=
page_table_ bp !! id = Some i /\ holds bp i p /\ slab_ bp !! p = Some pg /\ page_id pg = id /\
0 < pin_count pg.

Lemma holds_insert bp bp' v x i q :
fresh_slots_ bp' = <[Z.to_nat v := x]> (fresh_slots_ bp) -> 0 <= v < zlen (fresh_slots_ bp) ->
holds bp' i q <-> (i = v /\ x = Some q) \/ (i <> v /\ holds bp i q).
Proof.
intros Hs Hv. unfold holds, zlen in *. rewrite Hs. destruct (decide (i = v)) as [->|Hne].
- rewrite list_lookup_insert_eq by lia. intuition (congruence || lia).
- split.
  + intros [Hi Hl]. rewrite list_lookup_insert_ne in Hl by lia. auto.
  + intros [[? _]|[_ [Hi Hl]]]; [done|]. by rewrite list_lookup_insert_ne by lia.
Qed.

Lemma slots_insert_None bp v i : 0 <= v < zlen (fresh_slots_ bp) -> 0 <= i ->
<[Z.to_nat v := None]> (fresh_slots_ bp) !! Z.to_nat i = Some None <->
i = v \/ fresh_slots_ bp !! Z.to_nat i = Some None.
Proof.
intros Hv Hi. unfold zlen in Hv. destruct (decide (i = v)) as [->|Hne].
- rewrite list_lookup_insert_eq by lia. intuition congruence.
- rewrite list_lookup_insert_ne by lia. intuition congruence.
Qed.

(** The pool after slot [v], which held page [pg] at [p], is emptied. *)
Lemma evict_inv bp v p pg rep : pool_inv n d bp -> fresh_free_ bp = [] ->
0 <= v < n -> holds bp v p -> slab_ bp !! p = Some pg ->
page_table_ bp !! page_id pg = Some v -> rp_inv n rep ->
(forall j, rp_view rep j = view_set (rp_view (replacer_ bp)) v None j) ->
pool_inv_busy (Some v) n d
  (mkPool (<[p := reset pg INVALID_PAGE_ID]> (slab_ bp))
          (<[Z.to_nat v := None]> (fresh_slots_ bp)) [] (page_free_ bp ++ [p])
          (delete (page_id pg) (page_table_ bp)) rep).
Proof.
intros Hinv Hfree Hvr Hh Hpg Htab Hrep' Hview'.
assert (Hvs : 0 <= v < zlen (fresh_slots_ bp)) by (by rewrite (pi_slots _ _ _ _ Hinv)).
destruct Hinv as [? ? Hwf ? Hfs ? ? Hpf ? Hlen Hinj Hholds Htable Hrep Hview].
set (bp' := mkPool _ _ _ _ _ _).
assert (Hh' : forall i q, holds bp' i q <-> i <> v /\ holds bp i q).
{ intros i q. rewrite (holds_insert bp bp' v None) by done. intuition congruence. }
split; simpl; try done.
- unfold zlen in *. by rewrite length_insert.
- unfold zlen in *. by rewrite length_insert.
- apply Forall_insert; auto with nyx.
- by apply Forall_insert.
- intros i. rewrite Hfree in Hfs. split; [by intros ?%elem_of_nil|].
  intros (Hi & Hl & Hne). apply slots_insert_None in Hl as [->|Hl]; [done| |done..].
  by apply Hfs.
- intros i [= <-]. split; [lia|]. apply slots_insert_None; [done|lia|by left].
- constructor.
- intros q Hq. rewrite length_insert. apply elem_of_app in Hq as [Hq|Hq%list_elem_of_singleton].
  + destruct (Hpf q Hq) as [Hlt Hnh]. split; [done|]. intros i [_ Hiq]%Hh'. by apply (Hnh i).
  + subst q. split; [by eapply lookup_lt_Some|]. intros i [Hne Hiq]%Hh'. by apply Hne, (Hinj i v p).
- apply NoDup_app. split_and!; [done| |apply NoDup_singleton].
  intros q Hq ->%list_elem_of_singleton. destruct (Hpf p Hq) as [_ Hno]. by apply (Hno v).
- rewrite length_app, Hlen, Hfree. done.
- intros i j q [_ Hi]%Hh' [_ Hj]%Hh'. by apply (Hinj i j q).
- intros i q [Hne Hiq]%Hh'. destruct (Hholds i q Hiq) as (x & Hx & Hcx & Htx).
  exists x. rewrite list_lookup_insert_ne by (intros <-; apply Hne; by apply (Hinj i v p)).
  split_and!; [done|done|]. rewrite lookup_delete_ne; [done|]. congruence.
- intros id i Hid. apply lookup_delete_Some in Hid as [Hidn Hid].
  destruct (Htable id i Hid) as (q & x & Hiq & Hx & Hxid).
  assert (i <> v).
  { intros ->. assert (q = p) as -> by (destruct Hiq as [_ Hiq], Hh as [_ Hh]; congruence). congruence. }
  exists q, x. split_and!; [by apply Hh'| |done].
  rewrite list_lookup_insert_ne; [done|]. intros <-. by destruct (Hinj i v p).
- intros i Hi. rewrite Hview'. unfold view_set, slot_view, bp'. simpl.
  destruct (decide (i = v)) as [->|Hne].
  + rewrite list_lookup_insert_eq by (unfold zlen in *; lia). done.
  + rewrite list_lookup_insert_ne, Hview by lia. unfold slot_view.
    destruct (fresh_slots_ bp !! Z.to_nat i) as [[q|]|] eqn:Hq; try done.
    rewrite list_lookup_insert_ne; [done|]. intros <-. apply Hne, (Hinj i v p); [split; [lia|done]|done].
Qed.

(** Emptying the slot of an unpinned page is invisible to the pinned ones. *)
Lemma evict_pinned bp v p pg rep free pfree id i q pg' :
0 <= v < zlen (fresh_slots_ bp) -> holds bp v p -> slab_ bp !! p = Some pg ->
page_table_ bp !! page_id pg = Some v ->
(forall j, holds bp j p -> j = v) -> pin_count pg <= 0 ->
pinned_at bp id i q pg' <->
pinned_at (mkPool (<[p := reset pg INVALID_PAGE_ID]> (slab_ bp))
            (<[Z.to_nat v := None]> (fresh_slots_ bp)) free pfree
            (delete (page_id pg) (page_table_ bp)) rep) id i q pg'.
Proof.
intros Hv Hh Hpg Htab Hinj Hpin. unfold pinned_at. simpl.
rewrite (holds_insert bp (mkPool _ _ _ _ _ _) v None) by done. split.
- intros (Ht & Hi & Hpg' & Hid & Hpin').
  assert (Hqp : q <> p) by (intros ->; rewrite Hpg in Hpg'; injection Hpg' as <-; lia).
  assert (Hiv : i <> v) by (intros ->; destruct Hh as [_ Hh], Hi as [_ Hi]; congruence).
  rewrite lookup_delete_ne by congruence. rewrite list_lookup_insert_ne by done. auto.
- intros (Ht & Hi & Hpg' & Hid & Hpin'). apply lookup_delete_Some in Ht as [_ Ht].
  destruct Hi as [[_ ?]|[Hne Hi]]; [done|].
  rewrite list_lookup_insert_ne in Hpg'; [done|]. intros <-. auto.
Qed.

(** [acquire_fresh_slot_locked]: an error leaves the pool alone and means that every
  slot holds a pinned page; success keeps every pinned page where it is. *)
Lemma acquire_ok bp : pool_inv n d bp ->
(exists e, acquire_fresh_slot_locked bp = Some (Err e, bp) /\ fresh_free_ bp = [] /\
   forall i p, holds bp i p -> exists pg, slab_ bp !! p = Some pg /\ 0 < pin_count pg) \/
(exists slot bp1, acquire_fresh_slot_locked bp = Some (Ok slot, bp1) /\
   pool_inv_busy (Some slot) n d bp1 /\
   (forall id i p pg, pinned_at bp id i p pg <-> pinned_at bp1 id i p pg) /\
   (forall id, page_table_ bp !! id = None -> page_table_ bp1 !! id = None)).
Proof.
intros Hinv. destruct (fresh_free_ bp) as [|slot free] eqn:Hfree.
- destruct (rp_victim (replacer_ bp)) as [[v rep]|] eqn:Hvic.
  + right.
    destruct (rp_victim_some n _ _ _ (pi_rep _ _ _ _ Hinv) Hvic) as (Hv & Hrep' & Hview').
    pose proof (rp_view_range n _ _ _ (pi_rep _ _ _ _ Hinv) Hv) as Hvr.
    rewrite (pi_view _ _ _ _ Hinv) in Hv by done. unfold slot_view in Hv.
    destruct (fresh_slots_ bp !! Z.to_nat v) as [[p|]|] eqn:Hsl; try done.
    destruct (slab_ bp !! p) as [pg|] eqn:Hpg; [|done].
    assert (Hh : holds bp v p) by (split; [lia|done]).
    destruct (pi_holds _ _ _ _ Hinv _ _ Hh) as (pg' & Hpg' & Hc & Htab).
    rewrite Hpg in Hpg'. injection Hpg' as <-. injection Hv as Hpin. apply Z.eqb_eq in Hpin.
    eexists v, _. split; [unfold acquire_fresh_slot_locked; by rewrite Hfree, Hvic, Hsl, Hpg|].
    split; [by apply evict_inv|]. split.
    * intros id i q pg'. apply evict_pinned; try done; [by rewrite (pi_slots _ _ _ _ Hinv)| |lia].
      intros j Hj. by apply (pi_inj _ _ _ _ Hinv j v p).
    * intros id Hid. simpl. by rewrite lookup_delete_None; right.
  + left. eexists. split; [unfold acquire_fresh_slot_locked; by rewrite Hfree, Hvic|].
    split; [done|]. intros i p Hh. destruct (pi_holds _ _ _ _ Hinv _ _ Hh) as (pg & Hpg & _).
    exists pg. split; [done|]. pose proof (holds_range _ _ _ _ _ _ Hinv Hh) as Hi.
    pose proof (rp_victim_none n _ (pi_rep _ _ _ _ Hinv) Hvic i) as Hno.
    rewrite (pi_view _ _ _ _ Hinv) in Hno by done. unfold slot_view in Hno.
    destruct Hh as [_ Hs]. rewrite Hs, Hpg in Hno.
    pose proof (Forall_lookup_1 _ _ _ _ (pi_pins _ _ _ _ Hinv) Hpg). simpl in *.
    destruct (Z.eqb_spec (pin_count pg) 0); [done|lia].
- right. eexists slot, _. split; [unfold acquire_fresh_slot_locked; by rewrite Hfree|].
  split; [|done]. destruct Hinv as [? ? Hwf ? Hfs ? Hnd Hpf ? Hlen Hinj Hholds Htable Hrep Hview].
  rewrite Hfree in *. apply NoDup_cons in Hnd as [Hnot Hnd].
  split; simpl; try done.
  + intros i. split.
    * intros Hi. destruct (proj1 (Hfs i)) as (? & ? & _); [by right|]. split_and!; [done..|].
      intros [= ->]. done.
    * intros (Hi & Hl & Hne). destruct (proj1 (elem_of_cons free i slot)); [|congruence|done].
      by apply Hfs.
  + intros i [= <-]. destruct (proj1 (Hfs slot)) as (? & ? & _); [by left|done].
  + rewrite Hlen. simpl. lia.
Qed.

(** ** Loading a page into the slot just acquired *)

Hypothesis Hdisk : Forall is_byte (content d).

Lemma read_page_wf id out : page_wf out ->
page_wf (snd (read_page d id out)) /\ pin_count (snd (read_page d id out)) = pin_count out.
Proof using Hdisk.
intros [Hl Hb]. unfold read_page.
destruct (next_page_id_ d <=? id); [done|].
set (o := set_data out _).
assert (Ho : page_wf o).
{ split; simpl; [|by apply Forall_splice; [apply Forall_slice|]].
  rewrite zlen_splice; [done|done|]. rewrite Hl. simpl.
  unfold pread, slice, zlen. rewrite length_take. rewrite PAGE_SIZE_eq. lia. }
repeat case_match; done.
Qed.

Section load.
Context (bp : BufferPool) (slot : Z).
Hypothesis Hinv : pool_inv_busy (Some slot) n d bp.

Lemma busy_range : 0 <= slot < n.
Proof using Hinv.
destruct (pi_busy _ _ _ _ Hinv slot eq_refl) as [H1 H2]. split; [done|].
apply lookup_lt_Some in H2. pose proof (pi_slots _ _ _ _ Hinv). unfold zlen in *. lia.
Qed.

Lemma busy_free_page : exists p free pg, page_free_ bp = p :: free /\
slab_ bp !! p = Some pg /\ page_wf pg /\ 0 <= pin_count pg <= INT_MAX /\
(forall i, ~ holds bp i p) /\ p ∉ free /\ NoDup free.
Proof using Hinv.
pose proof (pi_free_len _ _ _ _ Hinv) as Hlen. pose proof (pi_page_nodup _ _ _ _ Hinv) as Hnd.
destruct (page_free_ bp) as [|p free] eqn:Hpf; [simpl in Hlen; lia|].
destruct (pi_page_free _ _ _ _ Hinv p) as [Hlt Hno]; [rewrite Hpf; by left|].
apply lookup_lt_is_Some in Hlt as [pg Hpg]. apply NoDup_cons in Hnd as [? ?].
exists p, free, pg. split_and!; try done.
- exact (Forall_lookup_1 _ _ _ _ (pi_wf _ _ _ _ Hinv) Hpg).
- exact (proj1 (Forall_lookup_1 _ _ _ _ (pi_pins _ _ _ _ Hinv) Hpg)).
- exact (proj2 (Forall_lookup_1 _ _ _ _ (pi_pins _ _ _ _ Hinv) Hpg)).
Qed.

Context (p : nat) (free : list nat) (pg : Page).
Hypothesis Hpf : page_free_ bp = p :: free.
Hypothesis Hno : forall i, ~ holds bp i p.
Hypothesis Hnin : p ∉ free.
Hypothesis Hnd : NoDup free.
Hypothesis Hpg : page_wf pg.
Hypothesis Hpin : 0 <= pin_count pg <= INT_MAX.

(** A failed read gives page and slot back. *)
Lemma give_back_inv :
pool_inv n d (mkPool (<[p := pg]> (slab_ bp)) (fresh_slots_ bp) (fresh_free_ bp ++ [slot])
  (free ++ [p]) (page_table_ bp) (replacer_ bp)).
Proof using Hinv Hpf Hno Hnin Hnd Hpg Hpin.
pose proof Hinv as [? ? Hwf ? Hfs Hbusy Hfnd Hpfree ? Hlen Hinj Hholds Htable Hrep Hview].
destruct (Hbusy slot eq_refl) as [Hs0 Hs]. split; simpl; try done.
- unfold zlen in *. by rewrite length_insert.
- by apply Forall_insert.
- by apply Forall_insert.
- intros i. rewrite elem_of_app, list_elem_of_singleton, Hfs. split.
  + intros [(? & ? & _)| ->]; split_and!; done.
  + intros (Hi & Hl & _). destruct (decide (i = slot)); [by right|left].
    split_and!; [done..|congruence].
- apply NoDup_app. split_and!; [done| |apply NoDup_singleton].
  intros i (_ & _ & Hne)%Hfs ->%list_elem_of_singleton. done.
- intros q Hq. rewrite length_insert. apply Hpfree. rewrite Hpf.
  apply elem_of_app in Hq as [Hq|Hq%list_elem_of_singleton]; [by right|subst; left].
- apply NoDup_app. split_and!; [done| |apply NoDup_singleton].
  by intros q Hq ->%list_elem_of_singleton.
- rewrite Hpf in Hlen. rewrite !length_app. simpl in *. lia.
- intros i q Hiq. destruct (Hholds i q Hiq) as (x & Hx & ?). exists x.
  rewrite list_lookup_insert_ne; [done|]. intros <-. by apply (Hno i).
- intros id i Hid. destruct (Htable id i Hid) as (q & x & Hiq & Hx & ?). exists q, x.
  rewrite list_lookup_insert_ne; [done|]. intros <-. by apply (Hno i).
- intros i Hi. rewrite Hview by done. unfold slot_view. simpl.
  destruct (fresh_slots_ bp !! Z.to_nat i) as [[q|]|] eqn:Hq; try done.
  rewrite list_lookup_insert_ne; [done|]. intros <-. apply (Hno i). by split; [lia|].
Qed.

(** A successful read fills the slot with a page pinned once. *)
Lemma fill_inv : cached d pg -> page_table_ bp !! page_id pg = None ->
pool_inv n d (mkPool (<[p := set_pin_count pg 1]> (slab_ bp))
  (<[Z.to_nat slot := Some p]> (fresh_slots_ bp)) (fresh_free_ bp) free
  (<[page_id pg := slot]> (page_table_ bp))
  (rp_pin (rp_record_access (replacer_ bp) slot) slot)).
Proof using Hinv Hpf Hno Hnin Hnd Hpg Hpin.
intros Hc Hid0. pose proof busy_range as Hsr.
pose proof Hinv as [? Hsl Hwf ? Hfs Hbusy Hfnd Hpfree ? Hlen Hinj Hholds Htable Hrep Hview].
destruct (access_pin_view n (replacer_ bp) slot Hrep Hsr) as [Hrep' Hview'].
destruct (Hbusy slot eq_refl) as [Hs0 Hs].
assert (Hp : (p < length (slab_ bp))%nat) by (apply Hpfree; rewrite Hpf; by left).
set (bp' := mkPool _ _ _ _ _ _).
assert (Hh' : forall i q, holds bp' i q <-> (i = slot /\ q = p) \/ (i <> slot /\ holds bp i q)).
{ intros i q. rewrite (holds_insert bp bp' slot (Some p)) by (done || by rewrite Hsl).
  intuition congruence. }
assert (Hpne : forall i q, holds bp i q -> q <> p) by (intros i q Hiq ->; by apply (Hno i)).
split; simpl; try done.
- unfold zlen in *. by rewrite length_insert.
- unfold zlen in *. by rewrite length_insert.
- by apply Forall_insert.
- by apply Forall_insert.
- intros i. rewrite Hfs. destruct (decide (i = slot)) as [->|Hne].
  + rewrite list_lookup_insert_eq by (unfold zlen in *; lia). intuition congruence.
  + split; intros (Hi & Hl & _); (split_and!; [done| |congruence]);
      rewrite list_lookup_insert_ne in * by lia; done.
- intros q Hq. rewrite length_insert. destruct (Hpfree q) as [Hlt Hnh]; [rewrite Hpf; by right|].
  split; [done|]. intros i [[_ ->]|[_ Hiq]]%Hh'; [done|by apply (Hnh i)].
- rewrite Hpf in Hlen. simpl in *. lia.
- intros i j q [[-> ->]|[Hi Hiq]]%Hh' [[-> Hq]|[Hj Hjq]]%Hh'; try done.
  + by apply Hpne in Hjq.
  + subst q. by apply Hpne in Hiq.
  + by apply (Hinj i j q).
- intros i q [[-> ->]|[Hi Hiq]]%Hh'.
  + exists (set_pin_count pg 1). rewrite list_lookup_insert_eq by done. split_and!; [done..|].
    apply lookup_insert_eq.
  + destruct (Hholds i q Hiq) as (x & Hx & Hcx & Htx). exists x.
    rewrite list_lookup_insert_ne by (apply not_eq_sym; by eapply Hpne). split_and!; [done..|].
    rewrite lookup_insert_ne; [done|]. congruence.
- intros id i. destruct (decide (id = page_id pg)) as [->|Hne].
  + rewrite lookup_insert_eq. intros [= <-]. exists p, (set_pin_count pg 1).
    rewrite list_lookup_insert_eq by done. split_and!; [|done..]. apply Hh'. by left.
  + rewrite lookup_insert_ne by done. intros Hid.
    destruct (Htable id i Hid) as (q & x & Hiq & Hx & Hxid). exists q, x.
    rewrite list_lookup_insert_ne by (apply not_eq_sym; by eapply Hpne).
    split_and!; [|done..]. apply Hh'. right. split; [|done]. intros ->.
    destruct Hiq as [_ Hiq]. congruence.
- intros i Hi. rewrite Hview'. unfold view_set, slot_view, bp'. simpl.
  destruct (decide (i = slot)) as [->|Hne].
  + rewrite list_lookup_insert_eq by (unfold zlen in *; lia).
    by rewrite list_lookup_insert_eq.
  + rewrite list_lookup_insert_ne, Hview by lia. unfold slot_view.
    destruct (fresh_slots_ bp !! Z.to_nat i) as [[q|]|] eqn:Hq; try done.
    rewrite list_lookup_insert_ne; [done|]. intros <-. apply (Hno i). by split; [lia|].
Qed.
Lemma fill_pinned id i q pg' : page_id pg = id -> page_table_ bp !! id = None ->
let bp' := mkPool (<[p := set_pin_count pg 1]> (slab_ bp))
  (<[Z.to_nat slot := Some p]> (fresh_slots_ bp)) (fresh_free_ bp) free
  (<[id := slot]> (page_table_ bp))
  (rp_pin (rp_record_access (replacer_ bp) slot) slot) in
pinned_at bp' id slot p (set_pin_count pg 1) /\
(forall id', id' <> id -> pinned_at bp id' i q pg' <-> pinned_at bp' id' i q pg').
Proof using Hinv Hpf Hno.
clear Hnin Hnd Hpg Hpin. intros Hpid Hid bp'. pose proof busy_range as Hsr.
rewrite <- (pi_slots _ _ _ _ Hinv) in Hsr.
assert (Hp : (p < length (slab_ bp))%nat)
  by (apply (pi_page_free _ _ _ _ Hinv); rewrite Hpf; by left).
destruct (pi_busy _ _ _ _ Hinv slot eq_refl) as [Hs0 Hs]. unfold pinned_at. split.
- rewrite (holds_insert bp bp' slot (Some p)) by done. simpl.
  rewrite lookup_insert_eq, list_lookup_insert_eq by done.
  repeat (split; [by auto|]). done.
- intros id' Hne. rewrite (holds_insert bp bp' slot (Some p)) by done. simpl.
  rewrite lookup_insert_ne by done. split.
  + intros (Ht & Hi & Hpg' & Hid' & Hpin').
    assert (i <> slot) by (intros ->; destruct Hi as [_ Hi]; congruence).
    rewrite list_lookup_insert_ne; [auto|]. intros <-. by apply (Hno i).
  + intros (Ht & [[-> [= ->]]|[Hi Hiq]] & Hpg' & Hid' & Hpin').
    * rewrite list_lookup_insert_eq in Hpg' by done. injection Hpg' as <-.
      destruct Hne. by rewrite <- Hid', <- Hpid.
    * rewrite list_lookup_insert_ne in Hpg'; [done|]. intros <-. by apply (Hno i).
Qed.
End load.

(** ** What the operations promise *)

(** The pin count of page [id]: 0 when it is not cached. *)
Definition pins (bp : BufferPool) (id : Z) : Z :=
match page_table_ bp !! id with
| Some slot =>
    match fresh_slots_ bp !! Z.to_nat slot with
    | Some (Some p) => match slab_ bp !! p with Some pg => pin_count pg | None => 0 end
    | _ => 0
    end
| None => 0
end.

(** Every slot holds a pinned page. *)
Definition all_pinned (bp : BufferPool) : Prop :=
fresh_free_ bp = [] /\
forall i p, holds bp i p -> exists pg, slab_ bp !! p = Some pg /\ 0 < pin_count pg.

Definition fetch_promise (bp : BufferPool) (id : Z) (res : result nat) (bp' : BufferPool) : Prop :=
pool_inv n d bp' /\
(forall id' i p pg, id' <> id -> pinned_at bp id' i p pg <-> pinned_at bp' id' i p pg) /\
match res with
| Ok p => exists i pg, pinned_at bp' id i p pg /\ cached d pg /\ pin_count pg = pins bp id + 1
| Err _ => page_table_ bp !! id = None /\ page_table_ bp' !! id = None /\
           (all_pinned bp \/ exists out e, page_wf out /\ fst (read_page d id out) = Err e)
end.

Lemma update_pin_pinned bp i0 p0 pg0 m rep id i p pg :
pool_inv n d bp -> holds bp i0 p0 -> slab_ bp !! p0 = Some pg0 -> id <> page_id pg0 ->
pinned_at bp id i p pg <->
pinned_at (mkPool (<[p0 := set_pin_count pg0 m]> (slab_ bp)) (fresh_slots_ bp)
  (fresh_free_ bp) (page_free_ bp) (page_table_ bp) rep) id i p pg.
Proof.
intros Hinv Hh Hpg Hne. unfold pinned_at, holds. simpl. rewrite list_lookup_insert.
case_decide as Hc; [|done]. destruct Hc as [<- _]. split.
- intros (_ & _ & Hpg' & Hid & _). rewrite Hpg in Hpg'. injection Hpg' as <-. done.
- intros (_ & _ & [= <-] & Hid & _). done.
Qed.

Lemma fetch_hit_promise bp id i : pool_inv n d bp -> page_table_ bp !! id = Some i ->
pins bp id < INT_MAX ->
exists res bp', fetch_page d bp id = Some (res, bp') /\ fetch_promise bp id res bp'.
Proof.
intros Hinv Ht Hpins.
destruct (fetch_hit n d bp id i Hinv Ht) as (p & pg & Hh & Hpg & Hpid & Hc & Hhit).
assert (Hpe : pins bp id = pin_count pg).
{ unfold pins. rewrite Ht. destruct Hh as [_ ->]. by rewrite Hpg. }
rewrite Hpe in Hpins. destruct (Hhit Hpins) as [Hf Hinv']. clear Hhit.
eexists _, _. split; [exact Hf|]. split; [done|]. split.
- intros id' j q x Hne. apply (update_pin_pinned bp i); [done..|congruence].
- exists i, (set_pin_count pg (pin_count pg + 1)). rewrite Hpe.
  pose proof (Forall_lookup_1 _ _ _ _ (pi_pins _ _ _ _ Hinv) Hpg) as Hpos. simpl in Hpos.
  split; [|done]. do 2 (split; [done|]). split; [|split; [done|simpl; lia]].
  simpl. rewrite list_lookup_insert_eq; [done|]. by eapply lookup_lt_Some.
Qed.

Lemma fetch_page_ok bp id : pool_inv n d bp -> 0 <= id -> pins bp id < INT_MAX ->
exists res bp', fetch_page d bp id = Some (res, bp') /\ fetch_promise bp id res bp'.
Proof using Hdisk.
intros Hinv Hid Hpins. destruct (page_table_ bp !! id) as [i|] eqn:Ht.
- by apply (fetch_hit_promise bp id i).
- unfold fetch_page, fetch_promise. rewrite Ht.
  destruct (acquire_ok bp Hinv) as [(e & -> & Hfree & Hall)|(slot & bp1 & -> & Hinv1 & Hpin1 & Htab1)].
  + eexists _, _. split; [done|]. split_and!; try done. left. done.
  + destruct (busy_free_page bp1 slot Hinv1)
      as (p & free & pg & Hpf & Hpg & Hwf & Hpc & Hno & Hnin & Hnd).
    rewrite Hpf, Hpg. destruct (read_page_wf id pg Hwf) as [Hwf' Hpc'].
    destruct (read_page d id pg) as [[[]|e] pg'] eqn:Hr; simpl in *.
    * destruct (pi_busy _ _ _ _ Hinv1 slot eq_refl) as [_ ->]. eexists _, _. split; [done|].
      assert (Hc : cached d pg' /\ page_id pg' = id).
      { destruct (read_page_on d id pg pg' Hwf Hr) as [Hpid Hon]. unfold cached. rewrite Hpid. auto. }
      destruct Hc as [Hc Hpid]. pose proof (Htab1 id Ht) as Ht1. split; [|split].
      -- rewrite <- Hpid in Ht1 |- *. apply (fill_inv bp1 slot Hinv1 p free pg'); try done. by rewrite Hpc'.
      -- intros id' i q x Hne. rewrite Hpin1.
         by apply (fill_pinned bp1 slot Hinv1 p free pg' Hpf Hno id).
      -- exists slot, (set_pin_count pg' 1). unfold pins. rewrite Ht.
         split_and!; [|done..].
         by apply (fill_pinned bp1 slot Hinv1 p free pg' Hpf Hno id slot p pg').
    * eexists _, _. split; [done|]. split; [|split].
      -- apply (give_back_inv bp1 slot Hinv1 p free pg'); try done. by rewrite Hpc'.
      -- intros id' i q x Hne. rewrite Hpin1. unfold pinned_at, holds. simpl.
         rewrite list_lookup_insert. case_decide as Hcase; [|done]. destruct Hcase as [<- _].
         split; intros (_ & Hh & _); exfalso; by apply (Hno i).
      -- split_and!; [done|by apply Htab1|]. right. exists pg, e. by rewrite Hr.
Qed.

Lemma pins_entry bp id i : pool_inv n d bp -> page_table_ bp !! id = Some i ->
exists p pg, holds bp i p /\ fresh_slots_ bp !! Z.to_nat i = Some (Some p) /\
  slab_ bp !! p = Some pg /\ page_id pg = id /\ pins bp id = pin_count pg /\
  0 <= pin_count pg <= INT_MAX /\ 0 <= i < n /\
  rp_view (replacer_ bp) i = Some (pin_count pg =? 0).
Proof.
intros Hinv Ht. destruct (table_entry n d bp None id i Hinv Ht)
  as (p & pg & Hh & Hi & Hs & Hpg & Hid & _ & _ & Hpc & Hv).
exists p, pg. split; [done|]. split; [done|]. split; [done|]. split; [done|].
split; [|done]. unfold pins. by rewrite Ht, Hs, Hpg.
Qed.

Lemma pins_pos bp id c : pool_inv n d bp -> 0 < c ->
pins bp id = c <-> exists i p pg, pinned_at bp id i p pg /\ pin_count pg = c.
Proof.
intros Hinv Hc. split.
- intros Hp. destruct (page_table_ bp !! id) as [i|] eqn:Ht.
  + destruct (pins_entry bp id i Hinv Ht) as (p & pg & Hh & _ & Hpg & Hid & Hpe & _).
    exists i, p, pg. split; [|congruence]. do 4 (split; [done|]). lia.
  + unfold pins in Hp. rewrite Ht in Hp. lia.
- intros (i & p & pg & (Ht & [_ Hs] & Hpg & _) & <-). unfold pins. by rewrite Ht, Hs, Hpg.
Qed.

Lemma pins_nonneg bp id : pool_inv n d bp -> 0 <= pins bp id.
Proof.
intros Hinv. destruct (page_table_ bp !! id) as [i|] eqn:Ht.
- destruct (pins_entry bp id i Hinv Ht) as (p & pg & _ & _ & _ & _ & -> & ? & _). lia.
- unfold pins. by rewrite Ht.
Qed.

(** Pools with the same pinned pages have the same pin counts. *)
Lemma pins_ext bp bp' id : pool_inv n d bp -> pool_inv n d bp' ->
(forall i p pg, pinned_at bp id i p pg <-> pinned_at bp' id i p pg) -> pins bp' id = pins bp id.
Proof.
intros Hinv Hinv' Heq.
pose proof (pins_nonneg bp id Hinv). pose proof (pins_nonneg bp' id Hinv').
destruct (decide (0 < pins bp id)).
- apply pins_pos; [done..|]. destruct (proj1 (pins_pos bp id _ Hinv l) eq_refl) as (i & p & pg & ? & ?).
  exists i, p, pg. by rewrite <- Heq.
- destruct (decide (0 < pins bp' id)) as [Hl|]; [|lia].
  destruct (proj1 (pins_pos bp' id _ Hinv' Hl) eq_refl) as (i & p & pg & Hp & Hc).
  symmetry. apply pins_pos; [done..|]. exists i, p, pg. by rewrite Heq.
Qed.

Definition unpin_promise (bp : BufferPool) (id : Z) (res : result unit) (bp' : BufferPool) : Prop :=
pool_inv n d bp' /\
(forall id' i p pg, id' <> id -> pinned_at bp id' i p pg <-> pinned_at bp' id' i p pg) /\
match res with
| Ok _ => 0 < pins bp id /\ pins bp' id = pins bp id - 1
| Err _ => pins bp id = 0 /\ bp' = bp
end.

Lemma unpin_page_ok bp id : pool_inv n d bp ->
exists res bp', unpin_page bp id = Some (res, bp') /\ unpin_promise bp id res bp'.
Proof.
intros Hinv. unfold unpin_page. destruct (page_table_ bp !! id) as [i|] eqn:Ht.
- destruct (pins_entry bp id i Hinv Ht) as (p & pg & Hh & Hs & Hpg & Hid & Hpe & Hpc & Hi & Hv).
  rewrite Hs, Hpg. destruct (Z.leb_spec (pin_count pg) 0).
  + eexists _, _. split; [done|]. split_and!; try done. lia.
  + eexists _, _. split; [done|]. split; [|split].
    * apply (update_pin n d bp i); try done; [lia|..].
      -- destruct (pin_count pg - 1 =? 0); [|apply (pi_rep _ _ _ _ Hinv)].
         apply rp_unpin_ok; [apply (pi_rep _ _ _ _ Hinv)|done].
      -- intros j. destruct (Z.eqb_spec (pin_count pg - 1) 0).
         ++ destruct (rp_unpin_ok n _ i (pi_rep _ _ _ _ Hinv) Hi) as [_ ->]. by rewrite Hv.
         ++ apply view_set_id. rewrite Hv. by rewrite (proj2 (Z.eqb_neq _ _)) by lia.
    * intros id' j q x Hne. apply (update_pin_pinned bp i); [done..|congruence].
    * split; [lia|]. rewrite Hpe. unfold pins. simpl. rewrite Ht, Hs, list_lookup_insert_eq; [done|].
      by eapply lookup_lt_Some.
- eexists _, _. split; [done|]. split_and!; try done. unfold pins. by rewrite Ht.
Qed.

(** The page table only gains the fetched page. *)
Lemma acquire_table bp res bp1 id s : acquire_fresh_slot_locked bp = Some (res, bp1) ->
page_table_ bp1 !! id = Some s -> page_table_ bp !! id = Some s.
Proof.
unfold acquire_fresh_slot_locked. intros Ha Ht. repeat case_match; simplify_eq/=; try done.
by apply lookup_delete_Some in Ht as [_ ?].
Qed.

Lemma fetch_page_table bp id res bp' id' s : fetch_page d bp id = Some (res, bp') ->
page_table_ bp' !! id' = Some s -> id' = id \/ page_table_ bp !! id' = Some s.
Proof.
unfold fetch_page. intros Hf Ht. destruct (page_table_ bp !! id) eqn:Hid.
- repeat case_match; simplify_eq/=; auto.
- destruct (acquire_fresh_slot_locked bp) as [[r bp1]|] eqn:Ha; [|done].
  pose proof (acquire_table bp r bp1 id') as Htab.
  repeat case_match; simplify_eq/=; eauto.
  apply lookup_insert_Some in Ht as [[-> _]|[_ Ht]]; eauto.
Qed.

Lemma unpin_page_table bp id res bp' : unpin_page bp id = Some (res, bp') ->
page_table_ bp' = page_table_ bp.
Proof. unfold unpin_page. intros Hu. repeat case_match; by simplify_eq/=. Qed.

(** ** Sequences of operations *)

Inductive pool_op : Type := Fetch (id : Z) | Unpin (id : Z).

Definition pool_step (bp : BufferPool) (o : pool_op) : option (bool * BufferPool) :=
match o with
| Fetch id => let! (r, bp) := fetch_page d bp id in Some (is_ok r, bp)
| Unpin id => let! (r, bp) := unpin_page bp id in Some (is_ok r, bp)
end.

(** The outcomes (success or not) and the final pool. *)
Fixpoint pool_run (bp : BufferPool) (os : list pool_op) : option (list bool * BufferPool) :=
match os with
| [] => Some ([], bp)
| o :: os' =>
    let! (ok, bp) := pool_step bp o in
    let! (oks, bp) := pool_run bp os' in
    Some (ok :: oks, bp)
end.

(** Successful fetches of [id] minus successful unpins of [id]. *)
Fixpoint balance (id : Z) (os : list pool_op) (oks : list bool) : Z :=
match os, oks with
| Fetch i :: os', true :: oks' => (if decide (i = id) then 1 else 0) + balance id os' oks'
| Unpin i :: os', true :: oks' => (if decide (i = id) then -1 else 0) + balance id os' oks'
| _ :: os', _ :: oks' => balance id os' oks'
| _, _ => 0
end.

Definition op_id (o : pool_op) : Z := match o with Fetch id | Unpin id => id end.

Definition step_delta (o : pool_op) (ok : bool) (id : Z) : Z :=
balance id [o] [ok].

Lemma pool_step_ok bp o m : pool_inv n d bp -> 0 <= op_id o ->
(forall id, pins bp id <= m) -> m < INT_MAX ->
exists ok bp', pool_step bp o = Some (ok, bp') /\ pool_inv n d bp' /\
  forall id, pins bp' id = pins bp id + step_delta o ok id.
Proof using Hdisk.
intros Hinv Hid Hm Hmax. destruct o as [i|i]; simpl in *.
- destruct (fetch_page_ok bp i Hinv Hid) as (res & bp' & -> & Hinv' & Hoth & Hres);
    [pose proof (Hm i); lia|].
  eexists _, _. split; [done|]. split; [done|]. intros id. unfold step_delta. simpl.
  destruct (decide (i = id)) as [->|Hne].
  + destruct res as [p|e]; simpl.
    * destruct Hres as (j & pg & Hp & _ & Hc). pose proof (pins_nonneg bp id Hinv).
      rewrite Z.add_0_r. apply pins_pos; [done|lia|]. by exists j, p, pg.
    * destruct Hres as (H1 & H2 & _). unfold pins. by rewrite H1, H2.
  + rewrite (pins_ext bp bp') by (done || (intros; apply Hoth; congruence)).
    destruct res; simpl; lia.
- destruct (unpin_page_ok bp i Hinv) as (res & bp' & -> & Hinv' & Hoth & Hres).
  eexists _, _. split; [done|]. split; [done|]. intros id. unfold step_delta. simpl.
  destruct (decide (i = id)) as [->|Hne].
  + destruct res as [u|e]; simpl; [lia|]. destruct Hres as [_ ->]. lia.
  + rewrite (pins_ext bp bp') by (done || (intros; apply Hoth; congruence)).
    destruct res; simpl; lia.
Qed.

Lemma step_delta_le o ok id : step_delta o ok id <= 1.
Proof. unfold step_delta. destruct o, ok; simpl; try case_decide; lia. Qed.

Lemma balance_cons o os ok oks id :
balance id (o :: os) (ok :: oks) = step_delta o ok id + balance id os oks.
Proof. unfold step_delta. destruct o, ok; simpl; lia. Qed.

Lemma pool_run_ok os bp m : pool_inv n d bp -> Forall (fun o => 0 <= op_id o) os ->
(forall id, pins bp id <= m) -> m + zlen os <= INT_MAX ->
exists oks bp', pool_run bp os = Some (oks, bp') /\ pool_inv n d bp' /\
  forall id, pins bp' id = pins bp id + balance id os oks.
Proof using Hdisk.
revert bp m. induction os as [|o os IH]; intros bp m Hinv Hos Hm Hmax; cbn [pool_run].
- eexists _, _. split; [done|]. split; [done|]. intros id. simpl. lia.
- inversion_clear Hos.
  replace (zlen (o :: os)) with (1 + zlen os) in Hmax by (unfold zlen; simpl; lia).
  pose proof (zlen_nonneg os).
  destruct (pool_step_ok bp o m) as (ok & bp1 & -> & Hinv1 & Hp1); [done..|lia|].
  destruct (IH bp1 (m + 1)) as (oks & bp2 & -> & Hinv2 & Hp2); [done|done| |lia|].
  { intros id. rewrite Hp1. pose proof (Hm id). pose proof (step_delta_le o ok id). lia. }
  eexists _, _. split; [done|]. split; [done|]. intros id. rewrite Hp2, Hp1, balance_cons. lia.
Qed.
End ops.

(** The pool does not notice a change of the disk outside the pages it caches. *)
Lemma pool_inv_disk n d d' bp : pool_inv n d bp ->
(forall pg, cached d pg -> (exists i, page_table_ bp !! page_id pg = Some i) -> page_wf pg -> cached d' pg) ->
pool_inv n d' bp.
Proof.
intros [H1 H2 Hwf H4 H5 H6 H7 H8 H9 H10 H11 Hholds H13 H14 H15] Hc.
split; [exact H1|exact H2|exact Hwf|exact H4|exact H5|exact H6|exact H7|exact H8|exact H9|exact H10
  |exact H11| |exact H13|exact H14|exact H15].
intros i p Hh. destruct (Hholds i p Hh) as (pg & Hpg & Hcd & Ht). exists pg.
split; [exact Hpg|]. split; [|exact Ht].
apply Hc; [exact Hcd|by exists i|]. exact (Forall_lookup_1 _ _ _ _ Hwf Hpg).
Qed.
(** A pool is exhausted only when as many different pages as it has frames are pinned. *)
Lemma all_pinned_pages n d bp : pool_inv n d bp -> all_pinned bp ->
exists ids, NoDup ids /\ zlen ids = n /\ Forall (fun id => 0 < pins bp id) ids.
Proof.
intros Hinv [Hfree Hall]. pose proof (pi_slots _ _ _ _ Hinv) as Hn.
assert (Hex : Forall (fun i => exists id, page_table_ bp !! id = Some i /\ 0 < pins bp id) (seqZ 0 n)).
{ apply Forall_seqZ. intros i Hi.
  destruct (lookup_lt_is_Some_2 (fresh_slots_ bp) (Z.to_nat i)) as [[p|] Hs]; [unfold zlen in *; lia| |].
  - assert (Hh : holds bp i p) by (split; [lia|done]). destruct (Hall i p Hh) as (pg & Hpg & Hpin).
    destruct (pi_holds _ _ _ _ Hinv i p Hh) as (pg' & Hpg' & _ & Ht).
    rewrite Hpg in Hpg'. injection Hpg' as <-. exists (page_id pg). split; [done|].
    unfold pins. by rewrite Ht, Hs, Hpg.
  - assert (Hin : i ∈ fresh_free_ bp) by (apply (pi_free_slot _ _ _ _ Hinv); split_and!; [lia|done|done]).
    rewrite Hfree in Hin. by apply elem_of_nil in Hin. }
apply Forall_exists_Forall2_l in Hex as [ids Hids]. exists ids. split_and!.
- apply NoDup_alt. intros a b id Ha Hb.
  destruct (Forall2_lookup_r _ _ _ _ _ Hids Ha) as (i & Hi & Hti & _).
  destruct (Forall2_lookup_r _ _ _ _ _ Hids Hb) as (j & Hj & Htj & _).
  apply lookup_seqZ in Hi as [-> ?]. apply lookup_seqZ in Hj as [-> ?]. assert (0 + Z.of_nat a = 0 + Z.of_nat b) by congruence. lia.
- apply Forall2_length in Hids. rewrite length_seqZ in Hids. unfold zlen in *. lia.
- apply Forall_forall. intros id Hid. apply list_elem_of_lookup in Hid as [a Ha].
  by destruct (Forall2_lookup_r _ _ _ _ _ Hids Ha) as (i & _ & _ & ?).
Qed.

(** A held page changed in place, and the disk with the changed page written back: the pool
    and its pins are as before. *)
Lemma write_back_inv n d d' bp id i p pg pg' : pool_inv n d bp ->
pinned_at bp id i p pg -> page_wf pg' -> page_id pg' = id -> pin_count pg' = pin_count pg -> cached d' pg' ->
(forall x, cached d x -> page_id x <> id -> (exists s, page_table_ bp !! page_id x = Some s) -> page_wf x -> cached d' x) ->
let bp' := mkPool (<[p := pg']> (slab_ bp)) (fresh_slots_ bp) (fresh_free_ bp) (page_free_ bp)
             (page_table_ bp) (replacer_ bp) in
pool_inv n d' bp' /\ (forall id', pins bp' id' = pins bp id') /\ pinned_at bp' id i p pg'.
Proof.
intros Hinv (Ht & Hh & Hpg & Hid & Hpos) Hwf' Hid' Hpc Hc' Hoth bp'.
pose proof (lookup_lt_Some _ _ _ Hpg) as Hp.
assert (Hlk : forall q x, slab_ bp !! q = Some x -> exists y, slab_ bp' !! q = Some y /\
  page_id y = page_id x /\ pin_count y = pin_count x /\ (q <> p -> y = x) /\ (q = p -> y = pg')).
{ intros q x Hq. simpl. rewrite list_lookup_insert. case_decide as Hc.
  - destruct Hc as [<- _]. rewrite Hpg in Hq. injection Hq as <-. exists pg'. split_and!; congruence || done.
  - exists x. split_and!; try done. intros ->. destruct Hc. done. }
destruct Hinv as [H1 H2 Hwf H4 H5 H6 H7 H8 H9 H10 Hinj Hholds Htab H14 H15]. split; [|split].
- split; [|exact H2| | |exact H5|exact H6|exact H7| |exact H9|exact H10|exact Hinj| | |exact H14|].
  + unfold zlen in *. simpl. by rewrite length_insert.
  + by apply Forall_insert.
  + apply Forall_insert; [exact H4|]. rewrite Hpc. exact (Forall_lookup_1 _ _ _ _ H4 Hpg).
  + intros q Hq. simpl. rewrite length_insert. by apply H8.
  + intros j q Hj. destruct (Hholds j q Hj) as (x & Hx & Hcx & Htx).
    destruct (Hlk _ _ Hx) as (y & Hy & Hidy & _ & Hne & Heq). exists y. rewrite Hidy. split; [done|]. split; [|done].
    destruct (decide (q = p)) as [->|Hqp]; [by rewrite Heq|]. rewrite Hne by done.
    apply Hoth; [done| |by exists j|exact (Forall_lookup_1 _ _ _ _ Hwf Hx)].
    intros He. apply Hqp. rewrite He, Ht in Htx. injection Htx as <-.
    destruct Hj as [_ Hj], Hh as [_ Hh]. unfold bp' in Hj. simpl in Hj. congruence.
  + intros id' j Hj. destruct (Htab _ _ Hj) as (q & x & Hq & Hx & Hidx).
    destruct (Hlk _ _ Hx) as (y & Hy & Hidy & _). exists q, y. by rewrite Hidy.
  + intros j Hj. rewrite H15 by done. unfold slot_view. cbn [fresh_slots_ slab_ bp'].
    destruct (fresh_slots_ bp !! Z.to_nat j) as [[q|]|]; try done.
    destruct (slab_ bp !! q) as [x|] eqn:Hx.
    * destruct (Hlk _ _ Hx) as (y & Hy & _ & Hpy & _). simpl in Hy. by rewrite Hy, Hpy.
    * rewrite list_lookup_insert_ne; [by rewrite Hx|]. intros ->. congruence.
- intros id'. unfold pins. cbn [page_table_ fresh_slots_ slab_ bp'].
  destruct (page_table_ bp !! id') as [s'|]; [|done].
  destruct (fresh_slots_ bp !! Z.to_nat s') as [[q|]|]; try done.
  destruct (slab_ bp !! q) as [x|] eqn:Hx.
  + destruct (Hlk _ _ Hx) as (y & Hy & _ & Hpy & _). simpl in Hy. by rewrite Hy, Hpy.
  + rewrite list_lookup_insert_ne; [by rewrite Hx|]. intros ->. congruence.
- split_and!; try done; [|lia]. simpl. by rewrite list_lookup_insert_eq.
Qed.
End pool.
Arguments BufferPool R : clear implicits.

(** ** Properties *)

(** For any replacer that satisfies [ReplacerLaws], [fetch_page] runs without undefined
    behaviour and keeps the pool's invariant; every other pinned page keeps its slot, its
    address and its bytes; on success the returned pointer is page [id], its payload is
    what the disk holds and its pin count is one more; an error leaves page [id] uncached and
    means that all frames are pinned or that the disk refused the read. *)
Theorem fetch_page_correct {R} `{RL : ReplacerLaws R} n d (bp : BufferPool R) id :
  Forall is_byte (content d) -> pool_inv_busy None n d bp -> 0 <= id -> pins bp id < INT_MAX ->
  exists res bp', fetch_page d bp id = Some (res, bp') /\ fetch_promise n d bp id res bp'.
Proof. intros Hd. by apply fetch_page_ok. Qed.

(** The buffer pool as it is built: LRU-K and [n] frames. *)
Definition lruk_pool (n k : Z) : BufferPool LRUKReplacer := pool_new n (lruk_new n k).

Lemma lruk_pool_inv n k d : 1 <= k -> in_u 64 n -> pool_inv_busy None n d (lruk_pool n k).
Proof.
  intros Hk Hn. apply pool_new_inv; [apply Hn|by apply lruk_new_inv|].
  intros i. simpl. unfold lruk_view. destruct (get_frame (lruk_new n k) i) as [f|] eqn:Hf; [|done].
  apply get_frame_Some in Hf as [_ Hf]. by apply lookup_replicate in Hf as [-> _].
Qed.

Lemma fetch_page_correct_witness :
  exists bp', fetch_page demo_disk (lruk_pool 2 2) 1 = Some (Ok 0%nat, bp') /\
    fetch_promise 2 demo_disk (lruk_pool 2 2) 1 (Ok 0%nat) bp'.
Proof.
  destruct (fetch_page_correct 2 demo_disk (lruk_pool 2 2) 1) as (res & bp' & Hf & Hp).
  - apply demo_disk_bytes.
  - apply lruk_pool_inv; unfold in_u; lia.
  - lia.
  - reflexivity.
  - assert (Hr : res = Ok 0%nat).
    { assert (option_map fst (fetch_page demo_disk (lruk_pool 2 2) 1) = Some (Ok 0%nat))
        by (vm_compute; reflexivity).
      rewrite Hf in H. simpl in H. congruence. }
    subst res. exists bp'. split; assumption.
Defined.

(** [unpin_page] runs without undefined behaviour and keeps the invariant; it succeeds
    exactly on a pinned page, whose count it lowers by one, and changes no other pinned
    page. *)
Theorem unpin_page_correct {R} `{RL : ReplacerLaws R} n d (bp : BufferPool R) id :
  pool_inv_busy None n d bp ->
  exists res bp', unpin_page bp id = Some (res, bp') /\ unpin_promise n d bp id res bp'.
Proof. by apply unpin_page_ok. Qed.

Lemma unpin_page_correct_witness :
  exists res bp', unpin_page (lruk_pool 2 2) 1 = Some (res, bp') /\
    unpin_promise 2 demo_disk (lruk_pool 2 2) 1 res bp'.
Proof.
  apply (unpin_page_correct 2 demo_disk (lruk_pool 2 2) 1).
  apply lruk_pool_inv; unfold in_u; lia.
Defined.

(** C27. From a new pool with the LRU-K replacer, any sequence of fewer than [2^31] fetches and
    unpins runs without undefined behaviour, keeps the invariant, and leaves each page
    pinned exactly as often as it was fetched and not yet unpinned. *)
Theorem pool_run_safe n k d os :
  1 <= k -> in_u 64 n -> Forall is_byte (content d) ->
  Forall (fun o => 0 <= op_id o) os -> zlen os < 2 ^ 31 ->
  exists oks bp, pool_run d (lruk_pool n k) os = Some (oks, bp) /\ pool_inv_busy None n d bp /\
    forall id, pins bp id = balance id os oks.
Proof.
  intros Hk Hn Hd Hos Hl.
  destruct (pool_run_ok n d Hd os (lruk_pool n k) 0) as (oks & bp & Hrun & Hinv & Hp).
  - by apply lruk_pool_inv.
  - done.
  - done.
  - unfold INT_MAX. lia.
  - exists oks, bp. split; [done|]. split; [done|]. intros id. by rewrite Hp.
Qed.

Lemma pool_run_safe_witness :
  exists oks bp, pool_run demo_disk (lruk_pool 1 2) [Fetch 0; Fetch 1; Unpin 0; Fetch 1; Fetch 1] = Some (oks, bp) /\
    pins bp 1 = 2.
Proof.
  destruct (pool_run_safe 1 2 demo_disk [Fetch 0; Fetch 1; Unpin 0; Fetch 1; Fetch 1])
    as (oks & bp & Hrun & _ & Hp).
  - lia.
  - unfold in_u; lia.
  - apply demo_disk_bytes.
  - repeat constructor; simpl; lia.
  - reflexivity.
  - exists oks, bp. split; [exact Hrun|]. rewrite Hp.
    assert (Ho : option_map fst (pool_run demo_disk (lruk_pool 1 2) [Fetch 0; Fetch 1; Unpin 0; Fetch 1; Fetch 1])
      = Some [true; false; true; true; true]) by (vm_compute; reflexivity).
    rewrite Hrun in Ho. injection Ho as ->. reflexivity.
Defined.
