(* ===== verification/ColumnPage.v ===== *)
(** * Column pages

    [ColumnPage] (src/src/storage/disk/column_page.h, column_page.cpp): a typed view
    of the payload of a page.  Payload layout: a packed 32-byte header (type, flags,
    value_count, capacity, null_bitmap_bytes, min, max, null_count, max_len), the null
    bitmap, then the slots.  The operations act on the payload bytes; [ColumnFile.v]
    applies them to pages.

    The abstract content of a column page is a list of [Value]s; [page_rep] says that a
    payload represents one. *)

From S2P Require Import Prelude Types Page.

(** ** Header fields *)

Definition get_u16 (off : Z) (pl : bytes) : Z := le_val (slice off 2 pl).
Definition set_u16 (off v : Z) (pl : bytes) : bytes := splice off (le_bytes 2 v) pl.
Definition set_u8 (off v : Z) (pl : bytes) : bytes := splice off [v] pl.

Definition COL_PAGE_FLAG_NULLABLE : Z := 1.
Definition COL_PAGE_FLAG_HAS_NULLS : Z := 2.
Definition COL_PAGE_HEADER_SIZE : Z := 32.

(** [header()->field], in the order of [struct ColumnPageHeader]. *)
Definition cp_type (pl : bytes) : TypeId := type_of_code (znth pl 0).
Definition cp_flags (pl : bytes) : Z := znth pl 1.
Definition cp_value_count (pl : bytes) : Z := get_u16 2 pl.
Definition cp_capacity (pl : bytes) : Z := get_u16 4 pl.
Definition cp_null_bitmap_bytes (pl : bytes) : Z := get_u16 6 pl.
Definition cp_min_bytes (pl : bytes) : bytes := slice 8 8 pl.
Definition cp_max_bytes (pl : bytes) : bytes := slice 16 8 pl.
Definition cp_null_count (pl : bytes) : Z := get_u16 24 pl.
Definition cp_max_len (pl : bytes) : Z := get_u16 26 pl.

Definition column_page_capacity (t : TypeId) (nullable : bool) (max_len : Z) : Z :=
  let elem := type_size t max_len in
  if elem =? 0 then 0
  else
    let budget := PAGE_PAYLOAD_SIZE - COL_PAGE_HEADER_SIZE in
    if nullable then budget * 8 / (elem * 8 + 1) else budget / elem.

Definition init (pl : bytes) (t : TypeId) (nullable : bool) (max_len : Z) : bytes :=
  let pl := set_u8 0 (type_code t) pl in
  let pl := set_u8 1 (if nullable then COL_PAGE_FLAG_NULLABLE else 0) pl in
  let pl := set_u16 2 0 pl in
  let pl := set_u16 4 (wrap 16 (column_page_capacity t nullable max_len)) pl in
  let pl := set_u16 6 (if nullable then wrap 16 ((cp_capacity pl + 7) / 8) else 0) pl in
  let pl := set_u16 24 0 pl in
  let pl := set_u16 26 max_len pl in
  let pl := splice 8 (zeros 8) pl in
  let pl := splice 16 (zeros 8) pl in
  splice 28 (zeros 4) pl.

(** [null_bitmap()] and the offset of [value_area()] in the payload. *)
Definition null_bitmap (pl : bytes) : bytes := drop (Z.to_nat COL_PAGE_HEADER_SIZE) pl.
Definition value_area (pl : bytes) : Z := COL_PAGE_HEADER_SIZE + cp_null_bitmap_bytes pl.

Definition set_null_bitmap (pl bm : bytes) : bytes :=
  take (Z.to_nat COL_PAGE_HEADER_SIZE) pl ++ bm.

Definition clear_null_bit (pl : bytes) (slot : Z) : bytes :=
  set_null_bitmap pl (bit_clear (null_bitmap pl) slot).

Definition set_null_bit (pl : bytes) (slot : Z) : bytes :=
  set_null_bitmap pl (bit_set (null_bitmap pl) slot).

Definition cp_nullable (pl : bytes) : bool :=
  negb (Z.land (cp_flags pl) COL_PAGE_FLAG_NULLABLE =? 0).

Definition has_nulls (pl : bytes) : bool :=
  negb (Z.land (cp_flags pl) COL_PAGE_FLAG_HAS_NULLS =? 0).

Definition is_full (pl : bytes) : bool := cp_capacity pl <=? cp_value_count pl.

Definition cp_is_null (pl : bytes) (slot : Z) : bool :=
  if cp_null_bitmap_bytes pl =? 0 then false
  else if cp_value_count pl <=? slot then false
  else bit_get (null_bitmap pl) slot.

(** The loop of [truncate_to]: set bits among the first [n]. *)
Fixpoint count_null_bits (bm : bytes) (n : nat) : Z :=
  match n with
  | O => 0
  | S m => count_null_bits bm m + (if bit_get bm (Z.of_nat m) then 1 else 0)
  end.

Definition truncate_to (pl : bytes) (new_count : Z) : bytes :=
  if cp_value_count pl <=? new_count then pl
  else
    let pl :=
      if negb (Z.land (cp_flags pl) COL_PAGE_FLAG_NULLABLE =? 0) then
        let nc := count_null_bits (null_bitmap pl) (Z.to_nat new_count) in
        let pl := set_u16 24 nc pl in
        if nc =? 0
        then set_u8 1 (Z.land (cp_flags pl) (wrap 8 (Z.lnot COL_PAGE_FLAG_HAS_NULLS))) pl
        else pl
      else pl in
    set_u16 2 new_count pl.

(** ** Typed access: the template parameter [T] *)

Record CType : Type := mkCType {
  ct_size : Z;
  ct_enc : Z -> bytes;
  ct_dec : bytes -> Z;
  ct_lt : Z -> Z -> bool
}.

Definition ct_i32 : CType :=
  mkCType 4 (fun v => le_bytes 4 (wrap 32 v)) (fun b => signed 32 (le_val b)) Z.ltb.
Definition ct_i64 : CType :=
  mkCType 8 (fun v => le_bytes 8 (wrap 64 v)) (fun b => signed 64 (le_val b)) Z.ltb.
Definition ct_f64 : CType := mkCType 8 (fun v => le_bytes 8 v) le_val f64_lt.

Definition update_min_max (T : CType) (pl : bytes) (v : Z) : bytes :=
  let non_null_count := wrap 16 (cp_value_count pl - cp_null_count pl) in
  if non_null_count =? 0 then splice 16 (ct_enc T v) (splice 8 (ct_enc T v) pl)
  else
    let cur_min := ct_dec T (slice 8 (ct_size T) pl) in
    let cur_max := ct_dec T (slice 16 (ct_size T) pl) in
    let pl := if ct_lt T v cur_min then splice 8 (ct_enc T v) pl else pl in
    if ct_lt T cur_max v then splice 16 (ct_enc T v) pl else pl.

(** [if (null_bitmap_bytes > 0) clear_null_bit(...); value_count++] *)
Definition finish_append (pl : bytes) : bytes :=
  let pl := if cp_null_bitmap_bytes pl >? 0 then clear_null_bit pl (cp_value_count pl) else pl in
  set_u16 2 (wrap 16 (cp_value_count pl + 1)) pl.

(** An operation returns the status and the payload after it. *)
Definition append_typed (T : CType) (expected : TypeId) (pl : bytes) (v : Z) : result unit * bytes :=
  if negb (bool_decide (cp_type pl = expected)) then (Err "append: type mismatch", pl)
  else if cp_capacity pl <=? cp_value_count pl then (Err "append: page full", pl)
  else
    let pl := splice (value_area pl + cp_value_count pl * ct_size T) (ct_enc T v) pl in
    let pl := update_min_max T pl v in
    (Ok tt, finish_append pl).

Definition append_i32 := append_typed ct_i32 INT32.
Definition append_i64 := append_typed ct_i64 INT64.
Definition append_f64 := append_typed ct_f64 DOUBLE.
Definition append_date := append_typed ct_i32 DATE.
Definition append_timestamp := append_typed ct_i64 TIMESTAMP.

Definition append_bool (pl : bytes) (v : bool) : result unit * bytes :=
  if negb (bool_decide (cp_type pl = BOOL)) then (Err "append_bool: type mismatch", pl)
  else if cp_capacity pl <=? cp_value_count pl then (Err "append_bool: page full", pl)
  else
    let pl := splice (value_area pl + cp_value_count pl) [if v then 1 else 0] pl in
    (Ok tt, finish_append pl).

Definition append_null (pl : bytes) : result unit * bytes :=
  if cp_null_bitmap_bytes pl =? 0 then (Err "append_null: column is not nullable", pl)
  else if cp_capacity pl <=? cp_value_count pl then (Err "append_null: page full", pl)
  else
    let pl := set_null_bit pl (cp_value_count pl) in
    let pl := set_u16 24 (wrap 16 (cp_null_count pl + 1)) pl in
    let pl := set_u8 1 (Z.lor (cp_flags pl) COL_PAGE_FLAG_HAS_NULLS) pl in
    (Ok tt, set_u16 2 (wrap 16 (cp_value_count pl + 1)) pl).

Definition append_str (pl : bytes) (s : string) : result unit * bytes :=
  if negb (bool_decide (cp_type pl = VARCHAR)) then (Err "append_str: column is not VARCHAR", pl)
  else if cp_capacity pl <=? cp_value_count pl then (Err "append_str: page full", pl)
  else
    let max_len := cp_max_len pl in
    if strlen s >? max_len then
      (Err ("string of length " +:+ pretty (strlen s) +:+ " exceeds VARCHAR(" +:+
            pretty max_len +:+ ")"), pl)
    else
      let slot := value_area pl + cp_value_count pl * (max_len + 2) in
      let len := wrap 16 (strlen s) in
      let pl := splice slot (le_bytes 2 len) pl in
      let pl := splice (slot + 2) (take (Z.to_nat len) (bytes_of_string s)) pl in
      let pl := if len <? max_len then splice (slot + 2 + len) (zeros (max_len - len)) pl else pl in
      (Ok tt, finish_append pl).

Definition get_typed (T : CType) (expected : TypeId) (pl : bytes) (slot : Z) : result Z :=
  if negb (bool_decide (cp_type pl = expected)) then Err "get: type mismatch"
  else if cp_value_count pl <=? slot then Err "get: slot out of range"
  else if cp_is_null pl slot then Err "get: value is null"
  else Ok (ct_dec T (slice (value_area pl + slot * ct_size T) (ct_size T) pl)).

Definition get_i32 := get_typed ct_i32 INT32.
Definition get_i64 := get_typed ct_i64 INT64.
Definition get_f64 := get_typed ct_f64 DOUBLE.
Definition get_date := get_typed ct_i32 DATE.
Definition get_timestamp := get_typed ct_i64 TIMESTAMP.

Definition get_bool (pl : bytes) (slot : Z) : result bool :=
  if negb (bool_decide (cp_type pl = BOOL)) then Err "get_bool: type mismatch"
  else if cp_value_count pl <=? slot then Err "get_bool: slot out of range"
  else if cp_is_null pl slot then Err "get_bool: value is null"
  else Ok (negb (znth pl (value_area pl + slot) =? 0)).

(** No checks: the caller has tested [is_null] and the range. *)
Definition get_str (pl : bytes) (slot : Z) : string :=
  let max_len := cp_max_len pl in
  let slot_ptr := value_area pl + slot * (max_len + 2) in
  let len := le_val (slice slot_ptr 2 pl) in
  string_of_bytes (slice (slot_ptr + 2) len pl).

Definition read_min (T : CType) (expected : TypeId) (pl : bytes) : option Z :=
  if negb (bool_decide (cp_type pl = expected)) then None
  else if cp_value_count pl - cp_null_count pl =? 0 then None
  else Some (ct_dec T (slice 8 (ct_size T) pl)).

Definition read_max (T : CType) (expected : TypeId) (pl : bytes) : option Z :=
  if negb (bool_decide (cp_type pl = expected)) then None
  else if cp_value_count pl - cp_null_count pl =? 0 then None
  else Some (ct_dec T (slice 16 (ct_size T) pl)).

Definition min_i32 := read_min ct_i32 INT32.
Definition max_i32 := read_max ct_i32 INT32.
Definition min_i64 := read_min ct_i64 INT64.
Definition max_i64 := read_max ct_i64 INT64.
Definition min_f64 := read_min ct_f64 DOUBLE.
Definition max_f64 := read_max ct_f64 DOUBLE.
Definition min_date := read_min ct_i32 DATE.
Definition max_date := read_max ct_i32 DATE.
Definition min_timestamp := read_min ct_i64 TIMESTAMP.
Definition max_timestamp := read_max ct_i64 TIMESTAMP.

(** ** Byte-level lemmas *)

Lemma PAGE_PAYLOAD_SIZE_eq : PAGE_PAYLOAD_SIZE = 8168.
Proof. reflexivity. Qed.

Lemma znth_lookup (l : bytes) i : znth l i = default 0 (l !! Z.to_nat i).
Proof. unfold znth. apply nth_lookup. Qed.

Lemma znth_splice_out (src l : bytes) off j :
  0 <= off -> off + zlen src <= zlen l -> 0 <= j -> j < off \/ off + zlen src <= j ->
  znth (splice off src l) j = znth l j.
Proof.
  intros Ho Hl Hj Hd. rewrite !znth_lookup. f_equal. unfold splice, zlen in *. destruct Hd.
  - by rewrite lookup_app_l, lookup_take_lt by (rewrite ?length_take; lia).
  - rewrite !lookup_app_r by (rewrite ?length_take; lia).
    rewrite lookup_drop, length_take. f_equal. lia.
Qed.

Lemma znth_splice_in (src l : bytes) off j :
  0 <= off -> off <= zlen l -> off <= j < off + zlen src ->
  znth (splice off src l) j = znth src (j - off).
Proof.
  intros Ho Hl Hj. rewrite !znth_lookup. f_equal. unfold splice, zlen in *.
  rewrite lookup_app_r, lookup_app_l by (rewrite ?length_take; lia).
  rewrite length_take. f_equal. lia.
Qed.

Lemma splice_app (a b l : bytes) off : 0 <= off -> off + zlen a <= zlen l ->
  splice off (a ++ b) l = splice (off + zlen a) b (splice off a l).
Proof.
  intros Ho Hl. unfold splice, zlen in *.
  replace (Z.to_nat (off + Z.of_nat (length a))) with (Z.to_nat off + length a)%nat by lia.
  set (n := Z.to_nat off). assert (Ht : length (take n l) = n) by (rewrite length_take; lia).
  rewrite (app_assoc (take n l) a).
  rewrite (take_app_length' (take n l ++ a)) by (rewrite length_app; lia).
  rewrite (drop_app_ge (take n l ++ a)) by (rewrite length_app; lia).
  rewrite drop_drop, <- !app_assoc. do 4 f_equal. rewrite !length_app. lia.
Qed.

(** Two buffers of one length that agree on a window have the same slice there. *)
Lemma slice_ext (l l' : bytes) off n :
  0 <= off -> zlen l = zlen l' -> (forall j, off <= j < off + n -> znth l j = znth l' j) ->
  slice off n l = slice off n l'.
Proof.
  intros Ho Hlen H. apply list_eq. intros i. unfold slice, zlen in *.
  destruct (decide (i < Z.to_nat n)%nat); [|by rewrite !lookup_take_ge by lia].
  rewrite !lookup_take_lt, !lookup_drop by done.
  specialize (H (off + Z.of_nat i)). rewrite !znth_lookup in H.
  replace (Z.to_nat (off + Z.of_nat i)) with (Z.to_nat off + i)%nat in H by lia.
  destruct (decide (Z.to_nat off + i < length l)%nat) as [Hlt|Hge].
  - destruct (lookup_lt_is_Some_2 l (Z.to_nat off + i)) as [x Hx]; [done|].
    destruct (lookup_lt_is_Some_2 l' (Z.to_nat off + i)) as [y Hy]; [lia|].
    rewrite Hx, Hy in *. simpl in H. rewrite H by lia. done.
  - by rewrite !lookup_ge_None_2 by lia.
Qed.

Lemma bit_get_ext (bm bm' : bytes) i : znth bm (i / 8) = znth bm' (i / 8) -> bit_get bm i = bit_get bm' i.
Proof. intros H. unfold bit_get. by rewrite H. Qed.

Lemma znth_drop (l : bytes) n j : 0 <= n -> 0 <= j -> znth (drop (Z.to_nat n) l) j = znth l (n + j).
Proof. intros. rewrite !znth_lookup, lookup_drop. do 2 f_equal. lia. Qed.

Lemma znth_null_bitmap pl j : 0 <= j -> znth (null_bitmap pl) j = znth pl (32 + j).
Proof. intros Hj. unfold null_bitmap. by rewrite znth_drop. Qed.

Section bitmap_update.
Context (pl bm : bytes).
Hypothesis Hlen : 32 <= zlen pl.

Lemma zlen_set_null_bitmap : length bm = length (null_bitmap pl) ->
  zlen (set_null_bitmap pl bm) = zlen pl.
Proof using Hlen.
  intros Hbm. unfold set_null_bitmap, null_bitmap, COL_PAGE_HEADER_SIZE, zlen in *.
  rewrite length_drop in Hbm. rewrite length_app, length_take. lia.
Qed.

Lemma null_bitmap_set : null_bitmap (set_null_bitmap pl bm) = bm.
Proof using Hlen.
  unfold set_null_bitmap, null_bitmap, zlen in *. apply drop_app_length'.
  rewrite length_take. unfold COL_PAGE_HEADER_SIZE. lia.
Qed.

Lemma znth_set_null_bitmap j : 0 <= j ->
  znth (set_null_bitmap pl bm) j = if j <? 32 then znth pl j else znth bm (j - 32).
Proof using Hlen.
  intros Hj. rewrite !znth_lookup. unfold set_null_bitmap, zlen in *.
  change (Z.to_nat COL_PAGE_HEADER_SIZE) with 32%nat.
  destruct (Z.ltb_spec j 32).
  - by rewrite lookup_app_l, lookup_take_lt by (rewrite ?length_take; lia).
  - rewrite lookup_app_r by (rewrite length_take; lia).
    rewrite length_take. do 2 f_equal. lia.
Qed.
End bitmap_update.

(** Setting or clearing a null bit only touches its byte. *)
Lemma znth_null_bit_frame (f : bytes -> Z -> bytes) pl slot j :
  (f = bit_set \/ f = bit_clear) -> 32 <= zlen pl -> 0 <= slot -> 0 <= j -> j <> 32 + slot / 8 ->
  znth (set_null_bitmap pl (f (null_bitmap pl) slot)) j = znth pl j.
Proof.
  intros Hf Hlen Hs Hj Hne. rewrite znth_set_null_bitmap by done.
  destruct (Z.ltb_spec j 32); [done|].
  replace (znth pl j) with (znth (null_bitmap pl) (j - 32))
    by (rewrite znth_null_bitmap by lia; f_equal; lia).
  destruct Hf as [-> | ->]; unfold bit_set, bit_clear; rewrite !znth_lookup;
    f_equal; apply list_lookup_insert_ne; zlia.
Qed.

(** ** Geometry of a page *)

Definition bitmap_bytes (t : TypeId) (nullable : bool) (max_len : Z) : Z :=
  if nullable then (column_page_capacity t nullable max_len + 7) / 8 else 0.

Section geometry.
Context (t : TypeId) (nullable : bool) (max_len : Z).
Hypothesis Hml : in_u 16 max_len.
Let cap := column_page_capacity t nullable max_len.
Let nb := bitmap_bytes t nullable max_len.

(** Header, bitmap and all slots fit into the payload. *)
Lemma geometry_fits :
  0 <= cap <= 8136 /\ 0 <= nb <= 1017 /\
  COL_PAGE_HEADER_SIZE + nb + cap * type_size t max_len <= PAGE_PAYLOAD_SIZE /\
  (nullable = true -> cap <= 8 * nb) /\ (nullable = true -> 0 < cap -> 0 < nb) /\
  (nullable = false -> nb = 0).
Proof using Hml.
  unfold cap, nb, bitmap_bytes, column_page_capacity, COL_PAGE_HEADER_SIZE.
  rewrite PAGE_PAYLOAD_SIZE_eq. change (8168 - 32) with 8136.
  pose proof (type_size_nonneg t max_len) as Hsz.
  destruct (Z.eqb_spec (type_size t max_len) 0) as [->|Hne].
  { destruct nullable; simpl; split_and!; intros; (discriminate || zlia). }
  set (e := type_size t max_len) in *. destruct nullable.
  - assert (Hc : 0 <= 8136 * 8 / (e * 8 + 1) <= 8136 * 8 / 9)
      by (split; [apply Z.div_pos; lia|apply Z.div_le_compat_l; lia]).
    change (8136 * 8 / 9) with 7232 in Hc.
    pose proof (Z.mul_div_le (8136 * 8) (e * 8 + 1)) as Hm.
    set (c := 8136 * 8 / (e * 8 + 1)) in *.
    split_and!; intros; (discriminate || zlia).
  - assert (Hc : 0 <= 8136 / e <= 8136) by (split; [apply Z.div_pos; lia|apply Z.div_le_upper_bound; nia]).
    pose proof (Z.mul_div_le 8136 e). split_and!; intros; (discriminate || zlia).
Qed.
End geometry.

(** ** Representation *)

(** The bytes of a non-null value in its slot. *)
Definition encode_cell (max_len : Z) (v : Value) : bytes :=
  match v with
  | VNull => []
  | VI32 x | VDate x => le_bytes 4 (wrap 32 x)
  | VI64 x | VTimestamp x => le_bytes 8 (wrap 64 x)
  | VF64 b => le_bytes 8 b
  | VBool b => [if b then 1 else 0]
  | VStr s => le_bytes 2 (strlen s) ++ bytes_of_string s ++ zeros (max_len - strlen s)
  end.

(** [v] can be stored in a column of type [t]. *)
Definition value_fits (t : TypeId) (nullable : bool) (max_len : Z) (v : Value) : Prop :=
  match v with
  | VNull => nullable = true
  | VStr s => t = VARCHAR /\ strlen s <= max_len
  | _ => variant_type v = t /\ value_wf v
  end.

Definition count_nulls (vals : list Value) : Z := zlen (List.filter is_null vals).

(** The numeric payload of a value, for the zone map. *)
Definition num_of (v : Value) : option Z :=
  match v with
  | VI32 x | VI64 x | VF64 x | VDate x | VTimestamp x => Some x
  | _ => None
  end.

Definition ctype_of (t : TypeId) : option CType :=
  match t with
  | INT32 | DATE => Some ct_i32
  | INT64 | TIMESTAMP => Some ct_i64
  | DOUBLE => Some ct_f64
  | _ => None
  end.

Definition cell_rep (t : TypeId) (nullable : bool) (max_len : Z) (pl : bytes) (i : Z) (v : Value) : Prop :=
  if is_null v then bit_get (null_bitmap pl) i = true
  else (nullable = true -> bit_get (null_bitmap pl) i = false) /\
       slice (COL_PAGE_HEADER_SIZE + bitmap_bytes t nullable max_len + i * type_size t max_len)
             (type_size t max_len) pl = encode_cell max_len v.

(** No value is below the stored minimum or above the stored maximum. *)
Definition zone_bounds (T : CType) (m M : Z) (vals : list Value) : Prop :=
  forall v x, v ∈ vals -> num_of v = Some x -> ct_lt T x m = false /\ ct_lt T M x = false.

Definition zone_rep (T : CType) (pl : bytes) (vals : list Value) : Prop :=
  zone_bounds T (ct_dec T (slice 8 (ct_size T) pl)) (ct_dec T (slice 16 (ct_size T) pl)) vals.

(** The bytes of a column of booleans, those of the slots of nulls included. *)
Definition bool_byte (b : Z) : Prop := b = 0 \/ b = 1.

Record page_rep (t : TypeId) (nullable : bool) (max_len : Z) (pl : bytes) (vals : list Value) : Prop := {
  pr_len : zlen pl = PAGE_PAYLOAD_SIZE;
  pr_bytes : Forall is_byte pl;
  pr_ml : in_u 16 max_len;
  pr_named : type_named t;
  pr_type : znth pl 0 = type_code t;
  pr_flags : znth pl 1 = (if nullable then COL_PAGE_FLAG_NULLABLE else 0) +
                         (if 0 <? count_nulls vals then COL_PAGE_FLAG_HAS_NULLS else 0);
  pr_count : cp_value_count pl = zlen vals;
  pr_cap : cp_capacity pl = column_page_capacity t nullable max_len;
  pr_nb : cp_null_bitmap_bytes pl = bitmap_bytes t nullable max_len;
  pr_nulls : cp_null_count pl = count_nulls vals;
  pr_max_len : cp_max_len pl = max_len;
  pr_fits : Forall (value_fits t nullable max_len) vals;
  pr_full : zlen vals <= column_page_capacity t nullable max_len;
  pr_cells : forall i v, vals !! i = Some v -> cell_rep t nullable max_len pl (Z.of_nat i) v;
  pr_zone : forall T, ctype_of t = Some T -> zone_rep T pl vals;
  pr_bools : t = BOOL -> forall j, COL_PAGE_HEADER_SIZE + bitmap_bytes t nullable max_len <= j -> bool_byte (znth pl j)
}.

(** ** Frame lemmas for the header fields *)

Lemma get_u16_ext off (l l' : bytes) : 0 <= off -> zlen l = zlen l' ->
  znth l off = znth l' off -> znth l (off + 1) = znth l' (off + 1) -> get_u16 off l = get_u16 off l'.
Proof.
  intros Ho Hl H0 H1. unfold get_u16. f_equal. apply slice_ext; [done..|]. intros j Hj.
  assert (j = off \/ j = off + 1) as [->| ->] by lia; done.
Qed.

Lemma get_set_u16 off v (l : bytes) : 0 <= off -> off + 2 <= zlen l -> in_u 16 v ->
  get_u16 off (set_u16 off v l) = v.
Proof.
  intros Ho Hl Hv. unfold get_u16, set_u16.
  rewrite slice_splice_same; [by apply le_val_bytes|done|lia|by rewrite zlen_le_bytes].
Qed.

Lemma zlen_set_u16 off v (l : bytes) : 0 <= off -> off + 2 <= zlen l -> zlen (set_u16 off v l) = zlen l.
Proof. intros. unfold set_u16. rewrite zlen_splice; [done|done|]. by rewrite zlen_le_bytes. Qed.

Lemma znth_set_u16 off v (l : bytes) j : 0 <= off -> off + 2 <= zlen l -> 0 <= j -> j <> off -> j <> off + 1 ->
  znth (set_u16 off v l) j = znth l j.
Proof. intros. unfold set_u16. apply znth_splice_out; rewrite ?zlen_le_bytes; lia. Qed.

Lemma set_u16_bytes off v (l : bytes) : Forall is_byte l -> Forall is_byte (set_u16 off v l).
Proof. intros. unfold set_u16. auto with nyx. Qed.

Lemma set_u8_bytes off v (l : bytes) : is_byte v -> Forall is_byte l -> Forall is_byte (set_u8 off v l).
Proof. intros. unfold set_u8. apply Forall_splice; [by constructor|done]. Qed.

Lemma zlen_set_u8 off v (l : bytes) : 0 <= off -> off + 1 <= zlen l -> zlen (set_u8 off v l) = zlen l.
Proof. intros. unfold set_u8. by rewrite zlen_splice. Qed.

Lemma znth_set_u8 off v (l : bytes) j : 0 <= off -> off + 1 <= zlen l -> 0 <= j ->
  znth (set_u8 off v l) j = if decide (j = off) then v else znth l j.
Proof.
  intros Ho Hl Hj. unfold set_u8. case_decide; subst.
  - rewrite znth_splice_in; [by rewrite Z.sub_diag|done|lia|unfold zlen; simpl; lia].
  - apply znth_splice_out; unfold zlen in *; simpl; lia.
Qed.

Lemma set_null_bitmap_bytes pl bm : Forall is_byte pl -> Forall is_byte bm -> Forall is_byte (set_null_bitmap pl bm).
Proof. intros. unfold set_null_bitmap. apply Forall_app. split; [by apply Forall_take|done]. Qed.

Lemma null_bitmap_bytes pl : Forall is_byte pl -> Forall is_byte (null_bitmap pl).
Proof. intros. by apply Forall_drop. Qed.

#[export] Hint Resolve set_u16_bytes set_u8_bytes set_null_bitmap_bytes null_bitmap_bytes : nyx.

Lemma zlen_null_bitmap pl : zlen pl = PAGE_PAYLOAD_SIZE -> zlen (null_bitmap pl) = 8136.
Proof.
  rewrite PAGE_PAYLOAD_SIZE_eq. unfold null_bitmap, zlen, COL_PAGE_HEADER_SIZE.
  rewrite length_drop. lia.
Qed.

(** [finish_append]: the new count, the cleared bit, nothing else. *)
Lemma finish_append_spec pl n nb :
  zlen pl = PAGE_PAYLOAD_SIZE -> cp_value_count pl = n -> cp_null_bitmap_bytes pl = nb ->
  0 <= n < 8136 -> 0 <= nb ->
  let pl' := finish_append pl in
  zlen pl' = PAGE_PAYLOAD_SIZE /\ cp_value_count pl' = n + 1 /\
  (forall j, 0 <= j -> j <> 2 -> j <> 3 -> (0 < nb -> j <> 32 + n / 8) -> znth pl' j = znth pl j) /\
  (0 < nb -> forall i, 0 <= i -> bit_get (null_bitmap pl') i = bool_decide (i <> n) && bit_get (null_bitmap pl) i).
Proof.
  intros Hl Hn Hnb Hrange Hnb0. cbv zeta. unfold finish_append. rewrite Hnb.
  pose proof (zlen_null_bitmap pl Hl) as Hbl. pose proof PAGE_PAYLOAD_SIZE_eq as HPS.
  destruct (Z.gtb_spec nb 0) as [Hpos|Hzero].
  - set (pl1 := clear_null_bit pl _).
    assert (Hl1 : zlen pl1 = zlen pl).
    { apply zlen_set_null_bitmap; [lia|]. apply length_bit_clear. }
    assert (Hf1 : forall j, 0 <= j -> j <> 32 + n / 8 -> znth pl1 j = znth pl j).
    { intros j Hj Hne. unfold pl1, clear_null_bit. rewrite Hn.
      apply (znth_null_bit_frame bit_clear); auto; lia. }
    assert (Hc1 : cp_value_count pl1 = n).
    { rewrite <- Hn. apply get_u16_ext; [done..| |]; apply Hf1; zlia. }
    rewrite Hc1, wrap_id by (unfold in_u; lia). split_and!.
    + rewrite zlen_set_u16 by lia. by rewrite Hl1.
    + apply get_set_u16; [done|lia|unfold in_u; lia].
    + intros j Hj H2 H3 Hbyte. rewrite znth_set_u16 by lia. auto.
    + intros _ i Hi. transitivity (bit_get (null_bitmap pl1) i).
      * apply bit_get_ext. rewrite !znth_null_bitmap, znth_set_u16 by zlia. done.
      * unfold pl1, clear_null_bit. rewrite null_bitmap_set, Hn by lia. apply bit_get_clear; lia.
  - rewrite Hn, wrap_id by (unfold in_u; lia). split_and!.
    + rewrite zlen_set_u16 by lia. done.
    + apply get_set_u16; [done|lia|unfold in_u; lia].
    + intros j Hj H2 H3 _. by rewrite znth_set_u16 by lia.
    + lia.
Qed.

Lemma finish_append_bytes pl : Forall is_byte pl -> Forall is_byte (finish_append pl).
Proof.
  intros H. unfold finish_append. apply set_u16_bytes. destruct (_ >? 0); [|done].
  unfold clear_null_bit. auto with nyx.
Qed.

(** The writes of [append_null]. *)
Definition null_writes (pl : bytes) : bytes :=
  let pl := set_null_bit pl (cp_value_count pl) in
  let pl := set_u16 24 (wrap 16 (cp_null_count pl + 1)) pl in
  let pl := set_u8 1 (Z.lor (cp_flags pl) COL_PAGE_FLAG_HAS_NULLS) pl in
  set_u16 2 (wrap 16 (cp_value_count pl + 1)) pl.

Lemma null_writes_spec pl n k :
  zlen pl = PAGE_PAYLOAD_SIZE -> Forall is_byte pl -> cp_value_count pl = n -> cp_null_count pl = k ->
  0 <= n < 8136 -> 0 <= k < 8136 ->
  let pl' := null_writes pl in
  zlen pl' = PAGE_PAYLOAD_SIZE /\ Forall is_byte pl' /\ cp_value_count pl' = n + 1 /\
  cp_null_count pl' = k + 1 /\ znth pl' 1 = Z.lor (znth pl 1) COL_PAGE_FLAG_HAS_NULLS /\
  (forall j, 0 <= j -> j <> 1 -> j <> 2 -> j <> 3 -> j <> 24 -> j <> 25 -> j <> 32 + n / 8 ->
     znth pl' j = znth pl j) /\
  (forall i, 0 <= i -> bit_get (null_bitmap pl') i = bool_decide (i = n) || bit_get (null_bitmap pl) i).
Proof.
  intros Hl Hb Hc Hk Hn Hk0. cbv zeta. unfold null_writes. rewrite Hc.
  pose proof PAGE_PAYLOAD_SIZE_eq as HPS. pose proof (zlen_null_bitmap pl Hl) as Hbl.
  set (pl1 := set_null_bit pl n).
  assert (Hl1 : zlen pl1 = PAGE_PAYLOAD_SIZE).
  { rewrite <- Hl. apply zlen_set_null_bitmap; [lia|]. apply length_bit_set. }
  assert (Hf1 : forall j, 0 <= j -> j <> 32 + n / 8 -> znth pl1 j = znth pl j).
  { intros j Hj Hne. apply (znth_null_bit_frame bit_set); auto; lia. }
  assert (Hn1 : cp_null_count pl1 = k).
  { rewrite <- Hk. apply get_u16_ext; [done|congruence|apply Hf1; zlia..]. }
  rewrite Hn1, (wrap_id 16 (k + 1)) by (unfold in_u; lia).
  set (pl2 := set_u16 24 _ pl1).
  assert (Hl2 : zlen pl2 = PAGE_PAYLOAD_SIZE) by (unfold pl2; rewrite zlen_set_u16; lia).
  assert (Hf2 : forall j, 0 <= j -> j <> 24 -> j <> 25 -> znth pl2 j = znth pl1 j)
    by (intros; apply znth_set_u16; lia).
  set (pl3 := set_u8 1 _ pl2).
  assert (Hl3 : zlen pl3 = PAGE_PAYLOAD_SIZE) by (unfold pl3; rewrite zlen_set_u8; lia).
  assert (Hf3 : forall j, 0 <= j -> j <> 1 -> znth pl3 j = znth pl2 j)
    by (intros; unfold pl3; rewrite znth_set_u8 by lia; by rewrite decide_False).
  assert (Hc3 : cp_value_count pl3 = n).
  { rewrite <- Hc. apply get_u16_ext; [done|congruence|..]; rewrite Hf3, Hf2, Hf1 by zlia; done. }
  rewrite Hc3, wrap_id by (unfold in_u; lia). set (pl4 := set_u16 2 _ pl3).
  assert (Hl4 : zlen pl4 = PAGE_PAYLOAD_SIZE) by (unfold pl4; rewrite zlen_set_u16; lia).
  assert (Hf4 : forall j, 0 <= j -> j <> 2 -> j <> 3 -> znth pl4 j = znth pl3 j)
    by (intros; apply znth_set_u16; lia).
  assert (Hb2 : Forall is_byte pl2) by (unfold pl2, pl1, set_null_bit; auto with nyx).
  split_and!; [done|..].
  - apply set_u16_bytes, set_u8_bytes; [|done]. apply in_u_lor; [done| |done]. unfold cp_flags.
    by apply znth_Forall.
  - apply get_set_u16; [done|lia|unfold in_u; lia].
  - transitivity (cp_null_count pl2).
    + apply get_u16_ext; [done|congruence|..]; by rewrite Hf4, Hf3 by lia.
    + apply get_set_u16; [done|lia|unfold in_u; lia].
  - rewrite Hf4 by lia. unfold pl3. rewrite znth_set_u8, decide_True by (done || lia).
    unfold cp_flags. by rewrite Hf2, Hf1 by zlia.
  - intros. by rewrite Hf4, Hf3, Hf2, Hf1.
  - intros i Hi. transitivity (bit_get (null_bitmap pl1) i).
    + apply bit_get_ext. rewrite !znth_null_bitmap by zlia. by rewrite Hf4, Hf3, Hf2 by zlia.
    + unfold pl1, set_null_bit. rewrite null_bitmap_set by lia. apply bit_get_set; lia.
Qed.

Lemma count_nulls_app vals v : count_nulls (vals ++ [v]) = count_nulls vals + (if is_null v then 1 else 0).
Proof.
  unfold count_nulls. rewrite List.filter_app, zlen_app. f_equal. simpl. by destruct (is_null v).
Qed.

Lemma count_nulls_range vals : 0 <= count_nulls vals <= zlen vals.
Proof. unfold count_nulls, zlen. pose proof (List.filter_length_le is_null vals). lia. Qed.

(** The slot of the [n]-th value lies in the payload, after header and bitmap. *)
Lemma slot_window t nullable max_len n : in_u 16 max_len -> 0 <= n ->
  n < column_page_capacity t nullable max_len ->
  let e := type_size t max_len in
  let slot := COL_PAGE_HEADER_SIZE + bitmap_bytes t nullable max_len + n * e in
  0 <= n < 8136 /\ 0 <= e /\ 32 + bitmap_bytes t nullable max_len <= slot /\ slot + e <= PAGE_PAYLOAD_SIZE /\
  (forall i, 0 <= i < n -> COL_PAGE_HEADER_SIZE + bitmap_bytes t nullable max_len + i * e + e <= slot) /\
  0 <= bitmap_bytes t nullable max_len /\ (nullable = true -> n / 8 < bitmap_bytes t nullable max_len) /\
  (nullable = true <-> 0 < bitmap_bytes t nullable max_len).
Proof.
  intros Hml Hn Hlt. cbv zeta.
  pose proof (geometry_fits t nullable max_len Hml) as (Hc & Hb & Hfit & Hbit & Hpos & Hz).
  pose proof (type_size_nonneg t max_len) as He. unfold COL_PAGE_HEADER_SIZE in *.
  set (e := type_size t max_len) in *. set (cap := column_page_capacity _ _ _) in *.
  assert (Hi : forall i, 0 <= i < n -> 32 + bitmap_bytes t nullable max_len + i * e + e <=
    32 + bitmap_bytes t nullable max_len + n * e) by (intros; nia).
  do 2 (split; [lia|]). split; [nia|]. split; [nia|]. do 2 (split; [done || lia|]). split.
  - intros Hnu. specialize (Hbit Hnu). zlia.
  - split; [intros; apply Hpos; [done|lia]|]. destruct nullable; [done|]. rewrite Hz by done. lia.
Qed.

(** ** Appending a value *)

Section append.
Context (t : TypeId) (nullable : bool) (max_len : Z) (pl : bytes) (vals : list Value).
Hypothesis Hrep : page_rep t nullable max_len pl vals.
Hypothesis Hroom : zlen vals < column_page_capacity t nullable max_len.
Let e := type_size t max_len.
Let nb := bitmap_bytes t nullable max_len.
Let slot := COL_PAGE_HEADER_SIZE + nb + zlen vals * e.

(** What all appends share: [pl'] differs from [pl] in the flags, the counters, the
    zone map, the bit and the slot of the new value. *)
Lemma rep_append v pl' :
  zlen pl' = PAGE_PAYLOAD_SIZE -> Forall is_byte pl' -> value_fits t nullable max_len v ->
  (forall j, 0 <= j -> (j = 0 \/ 4 <= j < 8 \/ 26 <= j) -> (0 < nb -> j <> 32 + zlen vals / 8) ->
     ~ (slot <= j < slot + e) -> znth pl' j = znth pl j) ->
  (0 < nb -> forall i, 0 <= i < zlen vals ->
     bit_get (null_bitmap pl') i = bit_get (null_bitmap pl) i) ->
  cp_value_count pl' = zlen vals + 1 ->
  cp_null_count pl' = count_nulls (vals ++ [v]) ->
  znth pl' 1 = (if nullable then COL_PAGE_FLAG_NULLABLE else 0) +
               (if 0 <? count_nulls (vals ++ [v]) then COL_PAGE_FLAG_HAS_NULLS else 0) ->
  cell_rep t nullable max_len pl' (zlen vals) v ->
  (forall T, ctype_of t = Some T -> zone_rep T pl' (vals ++ [v])) ->
  (t = BOOL -> forall j, slot <= j < slot + e -> bool_byte (znth pl' j)) ->
  page_rep t nullable max_len pl' (vals ++ [v]).
Proof using Hrep Hroom.
  intros Hl Hb Hfit Hframe Hbits Hcount Hnulls Hflags Hcell Hzone Hbool.
  destruct Hrep as [Hl0 Hb0 Hml Hnm Hty Hfl Hc Hcap Hnb Hnl Hmx Hvf Hfull Hcells Hz Hbl].
  destruct (slot_window t nullable max_len (zlen vals) Hml (zlen_nonneg _) Hroom)
    as (Hn & He & Hs1 & Hs2 & Hprev & Hnb0 & Hbyte & Hnbpos).
  fold e nb slot in Hs1, Hs2, Hprev, Hnb0, Hbyte, Hnbpos, He.
  assert (H32 : forall j, 0 <= j < 32 -> (j = 0 \/ 4 <= j < 8 \/ 26 <= j) -> znth pl' j = znth pl j).
  { intros j Hj Hd. apply Hframe; [lia|done|intros; zlia|lia]. }
  split; try done.
  - by rewrite H32 by lia.
  - rewrite Hcount. unfold zlen. rewrite length_app. simpl. lia.
  - rewrite <- Hcap. apply get_u16_ext; [done|congruence|apply H32; lia..].
  - rewrite <- Hnb. apply get_u16_ext; [done|congruence|apply H32; lia..].
  - rewrite <- Hmx. apply get_u16_ext; [done|congruence|apply H32; lia..].
  - apply Forall_app. split; [done|by constructor].
  - rewrite zlen_app. unfold zlen in *. simpl. lia.
  - intros i w Hw. destruct (decide (i < length vals)%nat) as [Hlt|Hge].
    + rewrite lookup_app_l in Hw by done. specialize (Hcells i w Hw). revert Hcells.
      assert (Hi : 0 <= Z.of_nat i < zlen vals) by (unfold zlen; lia).
      pose proof (Forall_lookup_1 _ _ _ _ Hvf Hw) as Hwf.
      unfold cell_rep. fold e nb. destruct (is_null w) eqn:Hw0.
      * destruct w; try done. simpl in Hwf. rewrite Hbits; [done|by apply Hnbpos|done].
      * intros [Hbit Hsl]. split; [intros Hnu; rewrite Hbits; [auto|by apply Hnbpos|done]|].
        rewrite <- Hsl. apply slice_ext; [unfold COL_PAGE_HEADER_SIZE; nia|congruence|].
        specialize (Hprev _ Hi). intros j Hj. unfold COL_PAGE_HEADER_SIZE in *.
        assert (0 <= Z.of_nat i * e) by nia.
        apply Hframe; [nia|nia| |lia]. intros Hp.
        assert (zlen vals / 8 < nb) by (apply Hbyte; by apply Hnbpos). lia.
    + rewrite lookup_app_r in Hw by lia. apply list_lookup_singleton_Some in Hw as [Hi <-].
      replace (Z.of_nat i) with (zlen vals) by (unfold zlen; lia). done.
  - intros Ht j Hj. fold nb in Hj. destruct (decide (slot <= j < slot + e)) as [Hin|Hout]; [by apply Hbool|].
    unfold COL_PAGE_HEADER_SIZE in *. rewrite Hframe; [by apply Hbl|lia..| |done]. intros Hp.
    assert (zlen vals / 8 < nb) by (apply Hbyte; by apply Hnbpos). lia.
Qed.

(** A non-null value: its slot and the zone map are written, then [finish_append]. *)
Lemma rep_append_value v pl1 :
  zlen pl1 = PAGE_PAYLOAD_SIZE -> Forall is_byte pl1 -> is_null v = false ->
  value_fits t nullable max_len v ->
  (forall j, 0 <= j -> ~ (8 <= j < 24) -> ~ (slot <= j < slot + e) -> znth pl1 j = znth pl j) ->
  slice slot e pl1 = encode_cell max_len v ->
  (forall T, ctype_of t = Some T -> zone_rep T pl1 (vals ++ [v])) ->
  page_rep t nullable max_len (finish_append pl1) (vals ++ [v]).
Proof using Hrep Hroom.
  intros Hl Hb Hv Hfit Hframe Hcell Hzone.
  pose proof Hrep as [Hl0 Hb0 Hml Hnm Hty Hfl Hc Hcap Hnb Hnl Hmx Hvf Hfull Hcells Hz].
  destruct (slot_window t nullable max_len (zlen vals) Hml (zlen_nonneg _) Hroom)
    as (Hn & He & Hs1 & Hs2 & Hprev & Hnb0 & Hbyte & Hnbpos).
  fold e nb slot in Hs1, Hs2, Hprev, Hnb0, Hbyte, Hnbpos, He.
  assert (Hc1 : cp_value_count pl1 = zlen vals).
  { rewrite <- Hc. apply get_u16_ext; [done|congruence|apply Hframe; lia..]. }
  assert (Hnb1 : cp_null_bitmap_bytes pl1 = nb).
  { unfold nb. rewrite <- Hnb. apply get_u16_ext; [done|congruence|apply Hframe; lia..]. }
  assert (Hnu1 : cp_null_count pl1 = count_nulls vals).
  { rewrite <- Hnl. apply get_u16_ext; [done|congruence|apply Hframe; lia..]. }
  destruct (finish_append_spec pl1 (zlen vals) nb Hl Hc1 Hnb1) as (Hl2 & Hc2 & Hf2 & Hb2); [lia|lia|].
  assert (Hnn : count_nulls (vals ++ [v]) = count_nulls vals) by (rewrite count_nulls_app, Hv; lia).
  assert (Hslotframe : forall j, slot <= j -> znth (finish_append pl1) j = znth pl1 j).
  { intros j Hj. apply Hf2; try lia. intros Hp.
    assert (zlen vals / 8 < nb) by (apply Hbyte; by apply Hnbpos). lia. }
  apply rep_append; try done.
  - by apply finish_append_bytes.
  - intros j Hj Hd Hbj Hsj. rewrite Hf2; [|lia..|done]. apply Hframe; [lia..|done].
  - intros Hp i Hi. rewrite Hb2 by lia. rewrite bool_decide_true by lia. simpl.
    apply bit_get_ext. rewrite !znth_null_bitmap by zlia.
    assert (zlen vals / 8 < nb) by (apply Hbyte; by apply Hnbpos).
    apply Hframe; zlia.
  - rewrite Hnn, <- Hnu1. apply get_u16_ext; [done|congruence| |]; apply Hf2; try lia; intros; zlia.
  - rewrite Hnn, <- Hfl. rewrite Hf2; [apply Hframe; lia|lia..|intros; zlia].
  - unfold cell_rep. fold e nb slot. rewrite Hv. split.
    + intros Hnu. rewrite Hb2 by (lia || by apply Hnbpos). by rewrite bool_decide_false by lia.
    + rewrite <- Hcell. apply slice_ext; [lia|congruence|]. intros j Hj. apply Hslotframe. lia.
  - intros T HT w x Hw Hx. destruct (Hzone T HT w x Hw Hx) as [H1 H2].
    assert (ct_size T <= 8) by (destruct t; inversion HT; simpl; lia).
    rewrite (slice_ext (finish_append pl1) pl1 8), (slice_ext (finish_append pl1) pl1 16);
      [done|lia|congruence| |lia|congruence|];
      intros j Hj; apply Hf2; try lia; intros; zlia.
  - intros Ht j Hj. rewrite Hslotframe by lia. revert Hcell Hj. unfold e. subst t. simpl type_size.
    destruct v as [| | | | |b| |]; try done; simpl in Hfit; try (by destruct Hfit). simpl encode_cell.
    intros Hcell Hj. replace j with slot by lia. replace slot with (slot + 0) by lia.
    rewrite <- (znth_slice slot 1) by lia. rewrite Hcell. destruct b; [by right|by left].
Qed.
End append.

(** ** The C types and their order *)

Record ctype_ok (T : CType) (dom : Z -> Prop) : Prop := {
  ct_size_ok : 0 < ct_size T <= 8;
  ct_enc_len : forall v, zlen (ct_enc T v) = ct_size T;
  ct_enc_bytes : forall v, Forall is_byte (ct_enc T v);
  ct_dec_enc : forall v, dom v -> ct_dec T (ct_enc T v) = v;
  ct_irrefl : forall v, ct_lt T v v = false;
  ct_low : forall v m w, ct_lt T v m = true -> ct_lt T w m = false -> ct_lt T w v = false;
  ct_high : forall v m w, ct_lt T m v = true -> ct_lt T m w = false -> ct_lt T v w = false
}.

Lemma ct_i32_ok : ctype_ok ct_i32 (in_s 32).
Proof.
  split; cbn [ct_size ct_enc ct_dec ct_lt ct_i32]; try (intros; lia).
  - intros v. by rewrite zlen_le_bytes.
  - intros v. auto with nyx.
  - intros v Hv. rewrite le_val_bytes by (apply wrap_range; lia). by apply signed_wrap.
Qed.

Lemma ct_i64_ok : ctype_ok ct_i64 (in_s 64).
Proof.
  split; cbn [ct_size ct_enc ct_dec ct_lt ct_i64]; try (intros; lia).
  - intros v. by rewrite zlen_le_bytes.
  - intros v. auto with nyx.
  - intros v Hv. rewrite le_val_bytes by (apply wrap_range; lia). by apply signed_wrap.
Qed.

Lemma ct_f64_ok : ctype_ok ct_f64 (in_u 64).
Proof.
  split; cbn [ct_size ct_enc ct_dec ct_lt ct_f64].
  - lia.
  - intros v. by rewrite zlen_le_bytes.
  - intros v. auto with nyx.
  - intros v Hv. by apply le_val_bytes.
  - apply f64_lt_irrefl.
  - intros v m w. unfold f64_lt.
    destruct (f64_is_nan v), (f64_is_nan m), (f64_is_nan w); simpl; try done. lia.
  - intros v m w. unfold f64_lt.
    destruct (f64_is_nan v), (f64_is_nan m), (f64_is_nan w); simpl; try done. lia.
Qed.

(** The domain of the values of a numeric column. *)
Definition ctype_dom (t : TypeId) : Z -> Prop :=
  match t with
  | INT32 | DATE => in_s 32
  | INT64 | TIMESTAMP => in_s 64
  | _ => in_u 64
  end.

Lemma ctype_of_ok t T : ctype_of t = Some T -> ctype_ok T (ctype_dom t).
Proof.
  destruct t; simpl; intros [= <-]; auto using ct_i32_ok, ct_i64_ok, ct_f64_ok.
Qed.

Lemma update_min_max_spec T dom pl v n nulls : ctype_ok T dom -> dom v ->
  zlen pl = PAGE_PAYLOAD_SIZE -> Forall is_byte pl ->
  cp_value_count pl = n -> cp_null_count pl = nulls -> 0 <= nulls <= n -> n < 8136 ->
  let pl' := update_min_max T pl v in
  let m := ct_dec T (slice 8 (ct_size T) pl) in
  let M := ct_dec T (slice 16 (ct_size T) pl) in
  zlen pl' = PAGE_PAYLOAD_SIZE /\ Forall is_byte pl' /\
  (forall j, 0 <= j -> ~ (8 <= j < 24) -> znth pl' j = znth pl j) /\
  ct_dec T (slice 8 (ct_size T) pl') = (if (n - nulls =? 0) || ct_lt T v m then v else m) /\
  ct_dec T (slice 16 (ct_size T) pl') = (if (n - nulls =? 0) || ct_lt T M v then v else M).
Proof.
  intros [Hsz Hel Heb Hrt _ _ _] Hv Hl Hb Hn Hnu Hr Hmax. cbv zeta. unfold update_min_max.
  pose proof PAGE_PAYLOAD_SIZE_eq as HPS.
  rewrite Hn, Hnu, wrap_id by (unfold in_u; lia).
  assert (Hlen : forall o l, 0 <= o < 24 -> zlen l = PAGE_PAYLOAD_SIZE -> zlen (splice o (ct_enc T v) l) = PAGE_PAYLOAD_SIZE).
  { intros o l Ho Hll. rewrite zlen_splice; [done|lia|]. rewrite Hel. lia. }
  assert (Hsame : forall o l, 0 <= o < 24 -> zlen l = PAGE_PAYLOAD_SIZE ->
    ct_dec T (slice o (ct_size T) (splice o (ct_enc T v) l)) = v).
  { intros o l Ho Hll. rewrite slice_splice_same by (rewrite ?Hel; lia). by apply Hrt. }
  assert (Hfr : forall o l j, (o = 8 \/ o = 16) -> zlen l = PAGE_PAYLOAD_SIZE -> 0 <= j -> ~ (8 <= j < 24) ->
    znth (splice o (ct_enc T v) l) j = znth l j).
  { intros o l j Ho Hll Hj Hd. apply znth_splice_out; rewrite ?Hel; lia. }
  assert (H8 : forall l, zlen l = PAGE_PAYLOAD_SIZE ->
    slice 8 (ct_size T) (splice 16 (ct_enc T v) l) = slice 8 (ct_size T) l).
  { intros l Hll. apply slice_splice_before; lia. }
  assert (H16 : forall l, zlen l = PAGE_PAYLOAD_SIZE ->
    slice 16 (ct_size T) (splice 8 (ct_enc T v) l) = slice 16 (ct_size T) l).
  { intros l Hll. apply slice_splice_after; rewrite ?Hel; lia. }
  destruct (n - nulls =? 0); simpl; [|destruct (ct_lt T v _), (ct_lt T _ v)];
    rewrite ?H8, ?Hsame, ?H16, ?Hlen, ?Hsame by (done || lia || (apply Hlen; done || lia));
    (split_and!; [done|auto 6 with nyx| |done|done]);
    intros j Hj Hd; rewrite ?Hfr by (done || lia || (apply Hlen; done || lia) || auto); done.
Qed.

Lemma all_null vals : zlen vals - count_nulls vals = 0 -> forall v, v ∈ vals -> is_null v = true.
Proof.
  unfold count_nulls, zlen. induction vals as [|w vals IH]; intros H v Hv; [by apply elem_of_nil in Hv|].
  simpl in H. pose proof (List.filter_length_le is_null vals).
  destruct (is_null w) eqn:Hw; simpl in H; [|lia].
  apply elem_of_cons in Hv as [->|Hv]; [done|]. apply IH; [lia|done].
Qed.

(** The bounds [update_min_max] stores cover the old values and the new one. *)
Lemma zone_bounds_app T dom m M vals v x : ctype_ok T dom -> num_of v = Some x ->
  zone_bounds T m M vals ->
  let first := zlen vals - count_nulls vals =? 0 in
  zone_bounds T (if first || ct_lt T x m then x else m) (if first || ct_lt T M x then x else M)
    (vals ++ [v]).
Proof.
  intros [_ _ _ _ Hirr Hlow Hhigh] Hx Hz first w y Hw Hy.
  apply elem_of_app in Hw as [Hw|Hw%list_elem_of_singleton].
  - unfold first. destruct (Z.eqb_spec (zlen vals - count_nulls vals) 0) as [H0|H0]; simpl.
    { apply (all_null vals H0) in Hw. by destruct w. }
    destruct (Hz w y Hw Hy) as [Hz1 Hz2].
    split; [destruct (ct_lt T x m) eqn:Hc|destruct (ct_lt T M x) eqn:Hc]; eauto.
  - subst w. rewrite Hx in Hy. injection Hy as <-. destruct first; simpl; [by rewrite Hirr|].
    destruct (ct_lt T x m) eqn:Hc1, (ct_lt T M x) eqn:Hc2; by rewrite ?Hirr, ?Hc1, ?Hc2.
Qed.

(** ** The append functions *)

(** The function for the alternative that [v] holds. *)
Definition append_value (pl : bytes) (v : Value) : result unit * bytes :=
  match v with
  | VNull => append_null pl
  | VI32 x => append_i32 pl x
  | VI64 x => append_i64 pl x
  | VF64 b => append_f64 pl b
  | VStr s => append_str pl s
  | VBool b => append_bool pl b
  | VDate d => append_date pl d
  | VTimestamp m => append_timestamp pl m
  end.

Lemma cp_type_rep t nullable max_len pl vals : page_rep t nullable max_len pl vals -> cp_type pl = t.
Proof. intros H. unfold cp_type. rewrite (pr_type _ _ _ _ _ H). by apply type_of_code_code, (pr_named _ _ _ _ _ H). Qed.

Lemma value_area_rep t nullable max_len pl vals : page_rep t nullable max_len pl vals ->
  value_area pl = COL_PAGE_HEADER_SIZE + bitmap_bytes t nullable max_len.
Proof. intros H. unfold value_area. by rewrite (pr_nb _ _ _ _ _ H). Qed.

(** A numeric value of a column of type [t] with C type [T]. *)
Definition numeric (t : TypeId) (T : CType) (v : Value) (x : Z) : Prop :=
  ctype_of t = Some T /\ variant_type v = t /\ num_of v = Some x.

Lemma numeric_facts t T v x max_len : numeric t T v x -> value_wf v ->
  type_size t max_len = ct_size T /\ encode_cell max_len v = ct_enc T x /\ ctype_dom t x /\
  is_null v = false.
Proof.
  intros (HT & Hty & Hx) Hwf. destruct v; simpl in *; subst t; simplify_eq/=; done.
Qed.

Section appends.
Context (t : TypeId) (nullable : bool) (max_len : Z) (pl : bytes) (vals : list Value).
Hypothesis Hrep : page_rep t nullable max_len pl vals.

(** Full page: an error, and nothing is written. *)
Lemma append_full v : column_page_capacity t nullable max_len <= zlen vals ->
  0 < column_page_capacity t nullable max_len -> value_fits t nullable max_len v ->
  exists e, append_value pl v = (Err e, pl).
Proof using Hrep.
  intros Hfull Hcap Hfit. pose proof (cp_type_rep _ _ _ _ _ Hrep) as Hty.
  pose proof (pr_count _ _ _ _ _ Hrep) as Hc. pose proof (pr_cap _ _ _ _ _ Hrep) as Hcp.
  destruct v; simpl in *;
    unfold append_i32, append_i64, append_f64, append_date, append_timestamp, append_typed,
      append_bool, append_str, append_null; rewrite ?Hty, Hc, Hcp;
    rewrite ?(proj2 (Z.leb_le _ _) Hfull); try (destruct (negb (bool_decide _)); by eexists).
  destruct (_ =? 0); by eexists.
Qed.

Hypothesis Hroom : zlen vals < column_page_capacity t nullable max_len.

Lemma append_typed_rep T v x : numeric t T v x -> value_wf v ->
  exists pl', append_typed T t pl x = (Ok tt, pl') /\ page_rep t nullable max_len pl' (vals ++ [v]).
Proof using Hrep Hroom.
  intros Hnum Hwf. pose proof Hnum as (HT & Hvt & Hx).
  destruct (numeric_facts t T v x max_len Hnum Hwf) as (Hsz & Henc & Hdom & Hnn).
  pose proof (ctype_of_ok t T HT) as Hok. pose proof Hok as [Hszok Hel Heb Hrt Hirr Hlow Hhigh].
  destruct (slot_window t nullable max_len (zlen vals) (pr_ml _ _ _ _ _ Hrep) (zlen_nonneg _) Hroom)
    as (Hn & He & Hs1 & Hs2 & _ & Hnb0 & _).
  unfold append_typed. rewrite (cp_type_rep _ _ _ _ _ Hrep), (pr_cap _ _ _ _ _ Hrep), (pr_count _ _ _ _ _ Hrep).
  rewrite bool_decide_true by done. cbn [negb].
  rewrite (proj2 (Z.leb_gt _ _) Hroom), (value_area_rep _ _ _ _ _ Hrep), <- Hsz.
  set (slot := COL_PAGE_HEADER_SIZE + _ + _) in *. set (e := type_size t max_len) in *.
  set (pl1 := splice slot (ct_enc T x) pl).
  pose proof (pr_len _ _ _ _ _ Hrep) as Hl. pose proof PAGE_PAYLOAD_SIZE_eq as HPS.
  assert (Hl1 : zlen pl1 = PAGE_PAYLOAD_SIZE).
  { unfold pl1. rewrite zlen_splice; [done|lia|]. rewrite Hel. lia. }
  assert (Hf1 : forall j, 0 <= j -> ~ (slot <= j < slot + e) -> znth pl1 j = znth pl j).
  { intros j Hj Hd. apply znth_splice_out; rewrite ?Hel; lia. }
  assert (Hb1 : Forall is_byte pl1) by (apply Forall_splice; [done|apply (pr_bytes _ _ _ _ _ Hrep)]).
  assert (Hslot1 : slice slot e pl1 = ct_enc T x).
  { unfold pl1. apply slice_splice_same; [lia|lia|]. by rewrite Hel. }
  assert (Hh : forall o, 0 <= o -> o + 1 < 32 -> get_u16 o pl1 = get_u16 o pl).
  { intros o Ho Ho2. apply get_u16_ext; [done|congruence|apply Hf1; lia..]. }
  pose proof (count_nulls_range vals) as Hcn.
  destruct (update_min_max_spec T (ctype_dom t) pl1 x (zlen vals) (count_nulls vals) Hok Hdom Hl1 Hb1)
    as (Hl2 & Hb2 & Hf2 & Hmin & Hmax);
    [unfold cp_value_count; rewrite Hh by lia; apply (pr_count _ _ _ _ _ Hrep)
    |unfold cp_null_count; rewrite Hh by lia; apply (pr_nulls _ _ _ _ _ Hrep)|lia|lia|].
  eexists. split; [done|].
  apply (rep_append_value t nullable max_len pl vals Hrep Hroom); try done.
  - destruct v; simpl in *; try done; by subst.
  - intros j Hj Hd1 Hd2. rewrite Hf2 by done. by apply Hf1.
  - rewrite Henc, <- Hslot1. fold e slot. apply slice_ext; [lia|congruence|].
    intros j Hj. apply Hf2; lia.
  - intros T' HT'. rewrite HT in HT'. injection HT' as <-.
    assert (Hz8 : slice 8 (ct_size T) pl1 = slice 8 (ct_size T) pl)
      by (apply slice_ext; [lia|congruence|intros; apply Hf1; lia]).
    assert (Hz16 : slice 16 (ct_size T) pl1 = slice 16 (ct_size T) pl)
      by (apply slice_ext; [lia|congruence|intros; apply Hf1; lia]).
    unfold zone_rep. rewrite Hmin, Hmax, Hz8, Hz16.
    by apply (zone_bounds_app T (ctype_dom t)), (pr_zone _ _ _ _ _ Hrep T HT).
Qed.

(** Writing the bytes of a cell into the slot of the next value. *)
Lemma append_cell_rep v pl1 : is_null v = false -> value_fits t nullable max_len v ->
  num_of v = None -> ctype_of t = None ->
  zlen (encode_cell max_len v) = type_size t max_len -> Forall is_byte (encode_cell max_len v) ->
  pl1 = splice (COL_PAGE_HEADER_SIZE + bitmap_bytes t nullable max_len + zlen vals * type_size t max_len)
          (encode_cell max_len v) pl ->
  page_rep t nullable max_len (finish_append pl1) (vals ++ [v]).
Proof using Hrep Hroom.
  intros Hnn Hfit Hnum HT Hlen Hbs ->.
  destruct (slot_window t nullable max_len (zlen vals) (pr_ml _ _ _ _ _ Hrep) (zlen_nonneg _) Hroom)
    as (Hn & He & Hs1 & Hs2 & _ & Hnb0 & _).
  set (slot := COL_PAGE_HEADER_SIZE + _ + _) in *. set (e := type_size t max_len) in *.
  pose proof (pr_len _ _ _ _ _ Hrep) as Hl.
  apply (rep_append_value t nullable max_len pl vals Hrep Hroom); try done.
  - rewrite zlen_splice; [done|lia|lia].
  - apply Forall_splice; [done|apply (pr_bytes _ _ _ _ _ Hrep)].
  - intros j Hj _ Hd. apply znth_splice_out; lia.
  - apply slice_splice_same; [lia|lia|done].
  - intros T HT'. congruence.
Qed.

Lemma append_bool_rep b : t = BOOL ->
  exists pl', append_bool pl b = (Ok tt, pl') /\ page_rep t nullable max_len pl' (vals ++ [VBool b]).
Proof using Hrep Hroom.
  intros Ht. unfold append_bool.
  rewrite (cp_type_rep _ _ _ _ _ Hrep), (pr_cap _ _ _ _ _ Hrep), (pr_count _ _ _ _ _ Hrep).
  rewrite bool_decide_true by done. cbn [negb]. rewrite (proj2 (Z.leb_gt _ _) Hroom).
  eexists. split; [done|]. apply append_cell_rep; try done.
  - by subst t.
  - simpl. by subst t.
  - by destruct b; repeat constructor.
  - rewrite (value_area_rep _ _ _ _ _ Hrep). subst t. simpl type_size. by rewrite Z.mul_1_r.
Qed.

(** The three writes of [append_str] are one write of the whole slot. *)
Lemma str_writes (l : bytes) slot s : 0 <= slot -> strlen s <= max_len ->
  slot + (max_len + 2) <= zlen l ->
  let l1 := splice (slot + 2) (bytes_of_string s) (splice slot (le_bytes 2 (strlen s)) l) in
  (if strlen s <? max_len then splice (slot + 2 + strlen s) (zeros (max_len - strlen s)) l1 else l1)
  = splice slot (encode_cell max_len (VStr s)) l.
Proof using.
  intros Hs Hml Hl. cbv zeta. pose proof (strlen_nonneg s) as H0.
  assert (Hz : zlen (bytes_of_string s) = strlen s) by apply zlen_bytes_of_string.
  assert (Hl2 : zlen (le_bytes 2 (strlen s)) = 2) by apply zlen_le_bytes.
  assert (Hsl : zlen (splice slot (le_bytes 2 (strlen s)) l) = zlen l) by (apply zlen_splice; lia).
  cbn [encode_cell]. rewrite splice_app by lia. rewrite splice_app by lia. rewrite Hl2, Hz.
  destruct (Z.ltb_spec (strlen s) max_len); [done|].
  replace (max_len - strlen s) with 0 by lia. change (zeros 0) with (@nil Z). by rewrite splice_nil.
Qed.

Lemma append_str_rep s : t = VARCHAR -> strlen s <= max_len ->
  exists pl', append_str pl s = (Ok tt, pl') /\ page_rep t nullable max_len pl' (vals ++ [VStr s]).
Proof using Hrep Hroom.
  intros Ht Hlen. unfold append_str.
  rewrite (cp_type_rep _ _ _ _ _ Hrep), (pr_cap _ _ _ _ _ Hrep), (pr_count _ _ _ _ _ Hrep).
  rewrite bool_decide_true by done. cbn [negb]. rewrite (proj2 (Z.leb_gt _ _) Hroom).
  rewrite (pr_max_len _ _ _ _ _ Hrep), (value_area_rep _ _ _ _ _ Hrep).
  destruct (Z.gtb_spec (strlen s) max_len); [lia|].
  pose proof (pr_ml _ _ _ _ _ Hrep) as Hml. pose proof (strlen_nonneg s) as Hs0.
  rewrite wrap_id by (unfold in_u in *; lia).
  rewrite take_ge by (rewrite length_bytes_of_string; unfold strlen; lia).
  assert (Hm : 0 < max_len).
  { destruct (decide (0 < max_len)); [done|]. exfalso. revert Hroom. subst t.
    unfold column_page_capacity. simpl type_size. destruct (Z.gtb_spec max_len 0); [lia|].
    simpl. pose proof (zlen_nonneg vals). lia. }
  assert (Hts : type_size t max_len = max_len + 2).
  { subst t. simpl. destruct (Z.gtb_spec max_len 0); [done|lia]. }
  destruct (slot_window t nullable max_len (zlen vals) (pr_ml _ _ _ _ _ Hrep) (zlen_nonneg _) Hroom)
    as (Hn & He & Hs1 & Hs2 & _ & Hnb0 & _). rewrite Hts in Hs1, Hs2.
  eexists. split; [done|]. apply append_cell_rep; try done.
  - by subst t.
  - rewrite Hts. cbn [encode_cell]. rewrite !zlen_app, zlen_le_bytes, zlen_bytes_of_string, zlen_zeros; lia.
  - cbn [encode_cell]. rewrite !Forall_app. auto with nyx.
  - rewrite Hts. apply str_writes; [lia|done|]. by rewrite (pr_len _ _ _ _ _ Hrep).
Qed.

Lemma append_null_rep : nullable = true ->
  exists pl', append_null pl = (Ok tt, pl') /\ page_rep t nullable max_len pl' (vals ++ [VNull]).
Proof using Hrep Hroom.
  intros Hnul. unfold append_null.
  pose proof Hrep as [Hl Hb Hml Hnm Hty Hfl Hc Hcap Hnb Hnl Hmx Hvf Hfull Hcells Hz].
  destruct (slot_window t nullable max_len (zlen vals) Hml (zlen_nonneg _) Hroom)
    as (Hn & He & Hs1 & Hs2 & _ & Hnb0 & Hbyte & Hnbpos).
  pose proof (proj1 Hnbpos Hnul) as Hpos. specialize (Hbyte Hnul).
  rewrite Hnb, Hcap, Hc, (proj2 (Z.eqb_neq _ _)), (proj2 (Z.leb_gt _ _) Hroom) by lia.
  pose proof (count_nulls_range vals) as Hcn.
  destruct (null_writes_spec pl (zlen vals) (count_nulls vals) Hl Hb Hc Hnl) as
    (Hl' & Hb' & Hc' & Hn' & Hfl' & Hf & Hbit); [lia|lia|].
  unfold null_writes in *. rewrite Hc in *. eexists. split; [done|]. set (pl' := set_u16 2 _ _) in *.
  assert (Hcn' : count_nulls (vals ++ [VNull]) = count_nulls vals + 1) by apply count_nulls_app.
  apply (rep_append t nullable max_len pl vals Hrep Hroom); try done.
  - intros j Hj Hd Hbj _. apply Hf; [done|lia..|auto].
  - intros _ i Hi. rewrite Hbit by lia. by rewrite bool_decide_false by lia.
  - by rewrite Hcn'.
  - rewrite Hcn', Hfl', Hfl, Hnul.
    destruct (Z.ltb_spec 0 (count_nulls vals + 1)); [|lia]. by destruct (0 <? count_nulls vals).
  - unfold cell_rep. simpl is_null. rewrite Hbit by lia. by rewrite bool_decide_true.
  - intros T HT w x Hw Hx. apply elem_of_app in Hw as [Hw|Hw%list_elem_of_singleton]; [|by subst].
    destruct (Hz T HT w x Hw Hx) as [Hz1 Hz2].
    assert (ct_size T <= 8) by (destruct t; inversion HT; simpl; lia).
    rewrite (slice_ext pl' pl 8), (slice_ext pl' pl 16); [done|lia|congruence| |lia|congruence|];
      intros j Hj; apply Hf; zlia.
  - intros Ht j Hj. unfold COL_PAGE_HEADER_SIZE in *. rewrite Hf by lia. apply (pr_bools _ _ _ _ _ Hrep Ht).
    unfold COL_PAGE_HEADER_SIZE. lia.
Qed.

(** The function for the alternative of [v] stores it in the next slot. *)
Lemma append_value_rep v : value_fits t nullable max_len v ->
  exists pl', append_value pl v = (Ok tt, pl') /\ page_rep t nullable max_len pl' (vals ++ [v]).
Proof using Hrep Hroom.
  intros Hfit. destruct v; simpl in Hfit |- *;
    unfold append_i32, append_i64, append_f64, append_date, append_timestamp;
    try (destruct Hfit as [Ht Hwf]; rewrite Ht; apply append_typed_rep; [|done];
         unfold numeric; rewrite <- Ht; done).
  - by apply append_null_rep.
  - destruct Hfit. by apply append_str_rep.
  - destruct Hfit. by apply append_bool_rep.
Qed.
End appends.

(** ** Reading values back *)

(** The accessors report slot [i] as [v]. *)
Definition reads_as (pl : bytes) (i : Z) (v : Value) : Prop :=
  cp_is_null pl i = is_null v /\
  match v with
  | VNull => True
  | VI32 x => get_i32 pl i = Ok x
  | VI64 x => get_i64 pl i = Ok x
  | VF64 b => get_f64 pl i = Ok b
  | VStr s => get_str pl i = s
  | VBool b => get_bool pl i = Ok b
  | VDate d => get_date pl i = Ok d
  | VTimestamp m => get_timestamp pl i = Ok m
  end.

Section reads.
Context (t : TypeId) (nullable : bool) (max_len : Z) (pl : bytes) (vals : list Value).
Hypothesis Hrep : page_rep t nullable max_len pl vals.
Context (i : nat) (v : Value).
Hypothesis Hv : vals !! i = Some v.

Lemma slot_in_range : 0 <= Z.of_nat i < zlen vals /\ zlen vals <= column_page_capacity t nullable max_len.
Proof using All.
  apply lookup_lt_Some in Hv. pose proof (pr_full _ _ _ _ _ Hrep). unfold zlen in *. lia.
Qed.

Lemma is_null_rep : cp_is_null pl (Z.of_nat i) = is_null v.
Proof using All.
  pose proof slot_in_range as [Hi Hfull]. unfold cp_is_null.
  rewrite (pr_nb _ _ _ _ _ Hrep), (pr_count _ _ _ _ _ Hrep), (proj2 (Z.leb_gt _ _)) by lia.
  destruct (slot_window t nullable max_len (Z.of_nat i) (pr_ml _ _ _ _ _ Hrep)) as
    (_ & _ & _ & _ & _ & Hnb0 & _ & Hnb); [lia|lia|].
  pose proof (pr_cells _ _ _ _ _ Hrep i v Hv) as Hcell.
  pose proof (Forall_lookup_1 _ _ _ _ (pr_fits _ _ _ _ _ Hrep) Hv) as Hfit.
  unfold cell_rep in Hcell. destruct (Z.eqb_spec (bitmap_bytes t nullable max_len) 0) as [H0|H0].
  - destruct v; try done. simpl in Hfit. apply Hnb in Hfit. lia.
  - destruct (is_null v); [done|]. destruct Hcell as [Hbit _]. apply Hbit, Hnb. lia.
Qed.

Lemma cell_bytes : is_null v = false ->
  slice (value_area pl + Z.of_nat i * type_size t max_len) (type_size t max_len) pl = encode_cell max_len v.
Proof using All.
  intros Hnn. pose proof (pr_cells _ _ _ _ _ Hrep i v Hv) as Hcell. unfold cell_rep in Hcell.
  rewrite Hnn in Hcell. rewrite (value_area_rep _ _ _ _ _ Hrep). apply Hcell.
Qed.

Lemma get_typed_rep T x : numeric t T v x -> value_wf v -> get_typed T t pl (Z.of_nat i) = Ok x.
Proof using All.
  intros Hnum Hwf. destruct (numeric_facts t T v x max_len Hnum Hwf) as (Hsz & Henc & Hdom & Hnn).
  pose proof slot_in_range as [Hi _]. unfold get_typed.
  rewrite (cp_type_rep _ _ _ _ _ Hrep), bool_decide_true by done. cbn [negb].
  rewrite (pr_count _ _ _ _ _ Hrep), (proj2 (Z.leb_gt _ _)), is_null_rep, Hnn by lia.
  rewrite <- Hsz, cell_bytes, Henc by done. f_equal.
  apply (ct_dec_enc _ _ (ctype_of_ok t T (proj1 Hnum))), Hdom.
Qed.

Lemma get_bool_rep b : v = VBool b -> get_bool pl (Z.of_nat i) = Ok b.
Proof using All.
  intros Ev. pose proof slot_in_range as [Hi _]. unfold get_bool.
  pose proof (Forall_lookup_1 _ _ _ _ (pr_fits _ _ _ _ _ Hrep) Hv) as Hfit.
  rewrite Ev in Hfit. destruct Hfit as [Ht _]. simpl in Ht.
  rewrite (cp_type_rep _ _ _ _ _ Hrep), bool_decide_true by done. cbn [negb].
  rewrite (pr_count _ _ _ _ _ Hrep), (proj2 (Z.leb_gt _ _)), is_null_rep, Ev by lia. simpl is_null.
  pose proof cell_bytes as Hc. rewrite Ev in Hc. specialize (Hc eq_refl). rewrite <- Ht in Hc. simpl type_size in Hc.
  rewrite Z.mul_1_r in Hc. f_equal. rewrite znth_lookup. unfold slice in Hc. simpl encode_cell in Hc.
  destruct (drop _ pl) as [|x l] eqn:Hd; [done|]. injection Hc as ->.
  rewrite <- (Nat.add_0_r (Z.to_nat _)), <- lookup_drop, Hd. by destruct b.
Qed.

Lemma get_str_rep s : v = VStr s -> get_str pl (Z.of_nat i) = s.
Proof using All.
  intros Ev. unfold get_str. rewrite (pr_max_len _ _ _ _ _ Hrep).
  pose proof (Forall_lookup_1 _ _ _ _ (pr_fits _ _ _ _ _ Hrep) Hv) as Hfit.
  rewrite Ev in Hfit. destruct Hfit as [Ht Hs].
  pose proof slot_in_range as [Hi Hfull]. pose proof (pr_ml _ _ _ _ _ Hrep) as Hml.
  pose proof (strlen_nonneg s) as Hs0.
  assert (Hts : type_size t max_len = max_len + 2).
  { rewrite Ht. simpl. destruct (Z.gtb_spec max_len 0); [done|]. exfalso.
    revert Hfull. unfold column_page_capacity. rewrite Ht. simpl type_size.
    destruct (Z.gtb_spec max_len 0); [lia|]. simpl. lia. }
  pose proof cell_bytes as Hc. rewrite Ev in Hc. specialize (Hc eq_refl). rewrite Hts in Hc.
  set (p := value_area pl + _) in *.
  assert (Hp : 0 <= p).
  { unfold p. rewrite (value_area_rep _ _ _ _ _ Hrep).
    destruct (geometry_fits t nullable max_len Hml) as (_ & ? & _). unfold COL_PAGE_HEADER_SIZE. nia. }
  cbn [encode_cell] in Hc.
  assert (Hlen : slice p 2 pl = le_bytes 2 (strlen s)).
  { apply (f_equal (take 2)) in Hc. rewrite take_app_length' in Hc by (symmetry; apply le_bytes_length).
    rewrite <- Hc. unfold slice. rewrite take_take. f_equal. lia. }
  rewrite Hlen, le_val_bytes by (unfold in_u in *; lia).
  rewrite <- (string_of_bytes_of_string s) at 2. f_equal.
  apply (f_equal (drop 2)) in Hc. rewrite drop_app_length' in Hc by (symmetry; apply le_bytes_length).
  apply (f_equal (take (Z.to_nat (strlen s)))) in Hc.
  rewrite take_app_length' in Hc by (rewrite length_bytes_of_string; unfold strlen; lia).
  rewrite <- Hc. unfold slice. rewrite skipn_firstn_comm, drop_drop, take_take.
  f_equal; [lia|]. f_equal. lia.
Qed.

Lemma reads_rep : reads_as pl (Z.of_nat i) v.
Proof using All.
  split; [apply is_null_rep|].
  pose proof (Forall_lookup_1 _ _ _ _ (pr_fits _ _ _ _ _ Hrep) Hv) as Hfit.
  pose proof get_typed_rep as Hty. pose proof get_str_rep as Hstr. pose proof get_bool_rep as Hbo.
  destruct v as [|x|x|x|s|b|x|x]; try done; destruct Hfit as [Ht Hwf]; simpl in Ht;
    unfold get_i32, get_i64, get_f64, get_date, get_timestamp; auto;
    rewrite Ht; apply Hty; try done; unfold numeric; by rewrite <- Ht.
Qed.
End reads.

(** ** A new page *)

Section header_writes.
Context (off : Z) (src l : bytes).
Hypothesis Hl : zlen l = PAGE_PAYLOAD_SIZE.
Hypothesis Ho : 0 <= off /\ off + zlen src <= 32.

Lemma zlen_header_write : zlen (splice off src l) = PAGE_PAYLOAD_SIZE.
Proof using All. pose proof PAGE_PAYLOAD_SIZE_eq. rewrite zlen_splice; [done|lia..]. Qed.

Lemma znth_header_write j : 0 <= j -> j < off \/ off + zlen src <= j -> znth (splice off src l) j = znth l j.
Proof using All. pose proof PAGE_PAYLOAD_SIZE_eq. intros. apply znth_splice_out; lia. Qed.

Lemma get_u16_header_write o : 0 <= o -> o + 2 <= off \/ off + zlen src <= o ->
  get_u16 o (splice off src l) = get_u16 o l.
Proof using All.
  intros H0 Hd. apply get_u16_ext; [done| |apply znth_header_write; lia..].
  rewrite Hl. apply zlen_header_write.
Qed.
End header_writes.

(** Side conditions of the header writes: lengths of the sources and offsets. *)
Ltac hdr := first [done | assumption | split; rewrite ?zlen_le_bytes; simpl; unfold zlen; simpl; lia
                  | rewrite ?zlen_le_bytes; unfold zlen; simpl; lia].

Lemma init_rep t nullable max_len pl :
  zlen pl = PAGE_PAYLOAD_SIZE -> Forall is_byte pl -> type_named t -> in_u 16 max_len ->
  (t = BOOL -> forall j, 32 <= j -> bool_byte (znth pl j)) ->
  page_rep t nullable max_len (init pl t nullable max_len) [].
Proof.
  intros Hl0 Hb Ht Hml Hbl. destruct (geometry_fits t nullable max_len Hml) as (Hcap & Hnb & _).
  pose proof PAGE_PAYLOAD_SIZE_eq as HPS.
  unfold init. rewrite (wrap_id 16 (column_page_capacity _ _ _)) by (unfold in_u; lia).
  unfold set_u8, set_u16.
  set (l1 := splice 0 _ pl). assert (H1 : zlen l1 = PAGE_PAYLOAD_SIZE) by (apply zlen_header_write; hdr).
  set (l2 := splice 1 _ l1). assert (H2 : zlen l2 = PAGE_PAYLOAD_SIZE) by (apply zlen_header_write; hdr).
  set (l3 := splice 2 _ l2). assert (H3 : zlen l3 = PAGE_PAYLOAD_SIZE) by (apply zlen_header_write; hdr).
  set (l4 := splice 4 _ l3). assert (H4 : zlen l4 = PAGE_PAYLOAD_SIZE) by (apply zlen_header_write; hdr).
  assert (Hc4 : cp_capacity l4 = column_page_capacity t nullable max_len)
    by (apply (get_set_u16 4); [done|lia|unfold in_u; lia]).
  assert (Hb4 : (if nullable then wrap 16 ((cp_capacity l4 + 7) / 8) else 0) = bitmap_bytes t nullable max_len).
  { rewrite Hc4. revert Hnb. unfold bitmap_bytes. destruct nullable; [|done]. intros. apply wrap_id.
    unfold in_u. lia. }
  rewrite Hb4.
  set (l5 := splice 6 _ l4). assert (H5 : zlen l5 = PAGE_PAYLOAD_SIZE) by (apply zlen_header_write; hdr).
  set (l6 := splice 24 _ l5). assert (H6 : zlen l6 = PAGE_PAYLOAD_SIZE) by (apply zlen_header_write; hdr).
  set (l7 := splice 26 _ l6). assert (H7 : zlen l7 = PAGE_PAYLOAD_SIZE) by (apply zlen_header_write; hdr).
  set (l8 := splice 8 _ l7). assert (H8 : zlen l8 = PAGE_PAYLOAD_SIZE) by (apply zlen_header_write; hdr).
  set (l9 := splice 16 _ l8). assert (H9 : zlen l9 = PAGE_PAYLOAD_SIZE) by (apply zlen_header_write; hdr).
  set (l10 := splice 28 _ l9). assert (H10 : zlen l10 = PAGE_PAYLOAD_SIZE) by (apply zlen_header_write; hdr).
  assert (Hz : forall j, 0 <= j < 8 -> znth l10 j = znth l5 j).
  { intros j Hj. unfold l10, l9, l8, l7, l6. rewrite !znth_header_write by hdr. done. }
  assert (Hz1 : znth l5 1 = znth l2 1 /\ znth l5 0 = znth l1 0).
  { unfold l5, l4, l3. rewrite !znth_header_write by hdr. split; [done|].
    unfold l2. by rewrite znth_header_write by hdr. }
  split; [exact H10| |exact Hml|exact Ht| | | | | | | |constructor|apply Hcap|done| |].
  - unfold l10, l9, l8, l7, l6, l5, l4, l3, l2, l1.
    repeat first [apply le_bytes_is_byte | apply zeros_is_byte | exact Hb | apply Forall_splice];
      apply Forall_singleton; [by destruct nullable|by apply type_code_range].
  - rewrite Hz, (proj2 Hz1) by lia. unfold l1.
    by rewrite znth_splice_in by (unfold zlen in *; simpl length; lia).
  - rewrite Hz, (proj1 Hz1) by lia. unfold l2.
    rewrite znth_splice_in by (unfold zlen in *; simpl length; lia). by destruct nullable.
  - transitivity (get_u16 2 l3); [|by apply (get_set_u16 2); [|lia|]].
    apply get_u16_ext; [done|congruence|..]; rewrite Hz by lia; unfold l5, l4;
      by rewrite !znth_header_write by hdr.
  - rewrite <- Hc4. apply get_u16_ext; [done|congruence|..]; rewrite Hz by lia; unfold l5;
      by rewrite !znth_header_write by hdr.
  - transitivity (get_u16 6 l5); [|apply (get_set_u16 6); [done|lia|unfold in_u; lia]].
    apply get_u16_ext; [done|congruence|..]; by rewrite Hz by lia.
  - transitivity (get_u16 24 l6); [|by apply (get_set_u16 24); [|lia|]].
    unfold cp_null_count, l10, l9, l8, l7. by rewrite !get_u16_header_write by hdr.
  - transitivity (get_u16 26 l7); [|by apply (get_set_u16 26); [|lia|]].
    unfold cp_max_len, l10, l9, l8. by rewrite !get_u16_header_write by hdr.
  - intros T _ v x Hv. by apply elem_of_nil in Hv.
  - intros Hbt j Hj. unfold COL_PAGE_HEADER_SIZE in Hj.
    unfold l10, l9, l8, l7, l6, l5, l4, l3, l2, l1. rewrite !znth_header_write by hdr. apply Hbl; [done|lia].
Qed.

(** The payload of a page after [reset]. *)
Definition blank : bytes := zeros PAGE_PAYLOAD_SIZE.

Lemma blank_len : zlen blank = PAGE_PAYLOAD_SIZE.
Proof. by apply zlen_zeros. Qed.

Lemma blank_bytes : Forall is_byte blank.
Proof. apply zeros_is_byte. Qed.

Lemma init_blank_rep t nullable max_len : type_named t -> in_u 16 max_len ->
  page_rep t nullable max_len (init blank t nullable max_len) [].
Proof.
  intros Ht Hml. apply init_rep; [apply blank_len|apply blank_bytes|done..|]. intros _ j _. left.
  unfold blank, zeros. rewrite znth_lookup. destruct (replicate _ _ !! _) eqn:E; [|done].
  by apply lookup_replicate_1 in E as [-> _].
Qed.

Lemma payload_reset p id : payload (reset p id) = blank.
Proof.
  unfold reset. rewrite payload_set_page_id.
  - unfold payload, blank, zeros. cbn [data]. rewrite drop_replicate. f_equal.
  - split; cbn [data]; [apply zlen_zeros; by rewrite PAGE_SIZE_eq|apply zeros_is_byte].
Qed.

(** ** Truncation *)

Lemma count_nulls_take_S vals n v : vals !! n = Some v ->
  count_nulls (take (S n) vals) = count_nulls (take n vals) + (if is_null v then 1 else 0).
Proof. intros Hv. by rewrite (take_S_r vals n v Hv), count_nulls_app. Qed.

Lemma count_nulls_take_le vals n : count_nulls (take n vals) <= count_nulls vals.
Proof.
  rewrite <- (take_drop n vals) at 2. unfold count_nulls. rewrite List.filter_app, zlen_app.
  pose proof (zlen_nonneg (List.filter is_null (drop n vals))). lia.
Qed.

Lemma count_null_bits_rep t nullable max_len pl vals n : page_rep t nullable max_len pl vals ->
  nullable = true -> (n <= length vals)%nat -> count_null_bits (null_bitmap pl) n = count_nulls (take n vals).
Proof.
  intros Hrep Hnu. induction n as [|n IH]; intros Hn; [done|].
  destruct (lookup_lt_is_Some_2 vals n) as [v Hv]; [lia|].
  cbn [count_null_bits]. rewrite IH, (count_nulls_take_S vals n v Hv) by lia. f_equal.
  pose proof (pr_cells _ _ _ _ _ Hrep n v Hv) as Hc. unfold cell_rep in Hc.
  destruct (is_null v); [by rewrite Hc|]. destruct Hc as [Hc _]. by rewrite (Hc Hnu).
Qed.

Lemma no_nulls t max_len vals : Forall (value_fits t false max_len) vals -> count_nulls vals = 0.
Proof. induction 1 as [|v vals Hv _ IH]; [done|]. unfold count_nulls in *. simpl. by destruct v. Qed.

(** Shortening a represented page: a payload that agrees on all but the flags and the
    counters, with those of the prefix. *)
Lemma rep_take t nullable max_len pl pl' vals n : page_rep t nullable max_len pl vals ->
  0 <= n <= zlen vals ->
  zlen pl' = PAGE_PAYLOAD_SIZE -> Forall is_byte pl' ->
  (forall j, 0 <= j -> j <> 1 -> j <> 2 -> j <> 3 -> j <> 24 -> j <> 25 -> znth pl' j = znth pl j) ->
  cp_value_count pl' = n -> cp_null_count pl' = count_nulls (take (Z.to_nat n) vals) ->
  znth pl' 1 = (if nullable then COL_PAGE_FLAG_NULLABLE else 0) +
    (if 0 <? count_nulls (take (Z.to_nat n) vals) then COL_PAGE_FLAG_HAS_NULLS else 0) ->
  page_rep t nullable max_len pl' (take (Z.to_nat n) vals).
Proof.
  intros [Hl Hb Hml Hnm Hty Hfl Hc Hcap Hnb Hnl Hmx Hvf Hfull Hcells Hz Hbl] Hn Hl' Hb' Hf Hc' Hn' Hfl'.
  assert (Hu : forall o, (4 <= o <= 6 \/ 26 <= o) -> get_u16 o pl' = get_u16 o pl).
  { intros o Ho. apply get_u16_ext; [lia|congruence|apply Hf; lia..]. }
  assert (Hlen : zlen (take (Z.to_nat n) vals) = n) by (unfold zlen in *; rewrite length_take; lia).
  destruct (geometry_fits t nullable max_len Hml) as (_ & Hnbr & _).
  split; try done.
  - by rewrite Hf.
  - by rewrite Hlen.
  - unfold cp_capacity. rewrite Hu by lia. done.
  - unfold cp_null_bitmap_bytes. rewrite Hu by lia. done.
  - unfold cp_max_len. rewrite Hu by lia. done.
  - by apply Forall_take.
  - lia.
  - intros i v Hi. apply lookup_take_Some in Hi as [Hi _]. specialize (Hcells i v Hi).
    unfold cell_rep in *.
    assert (Hbit : bit_get (null_bitmap pl') (Z.of_nat i) = bit_get (null_bitmap pl) (Z.of_nat i)).
    { apply bit_get_ext. rewrite !znth_null_bitmap by zlia. apply Hf; zlia. }
    rewrite Hbit. destruct (is_null v); [done|]. destruct Hcells as [Hb1 Hb2]. split; [done|].
    pose proof (type_size_nonneg t max_len). unfold COL_PAGE_HEADER_SIZE in *.
    rewrite <- Hb2. apply slice_ext; [nia|congruence|]. intros j Hj. apply Hf; nia.
  - intros T HT w x Hw Hx. destruct (Hz T HT w x) as [Hz1 Hz2]; [|done|].
    { rewrite <- (take_drop (Z.to_nat n) vals). apply elem_of_app. by left. }
    assert (ct_size T <= 8) by (destruct t; inversion HT; simpl; lia).
    rewrite (slice_ext pl' pl 8), (slice_ext pl' pl 16); [done|lia|congruence| |lia|congruence|];
      intros j Hj; apply Hf; lia.
  - intros Ht j Hj. unfold COL_PAGE_HEADER_SIZE in *. rewrite Hf by lia. by apply Hbl.
Qed.

(** The last write of [truncate_to], after the null count and the flags are adjusted. *)
Lemma rep_take_count t nullable max_len pl vals n q : page_rep t nullable max_len pl vals ->
  0 <= n < zlen vals -> zlen q = PAGE_PAYLOAD_SIZE -> Forall is_byte q ->
  (forall j, 0 <= j -> j <> 1 -> j <> 24 -> j <> 25 -> znth q j = znth pl j) ->
  cp_null_count q = count_nulls (take (Z.to_nat n) vals) ->
  znth q 1 = (if nullable then COL_PAGE_FLAG_NULLABLE else 0) +
             (if 0 <? count_nulls (take (Z.to_nat n) vals) then COL_PAGE_FLAG_HAS_NULLS else 0) ->
  page_rep t nullable max_len (set_u16 2 n q) (take (Z.to_nat n) vals).
Proof.
  intros Hrep Hn Hl Hb Hf Hnc Hfl. pose proof PAGE_PAYLOAD_SIZE_eq as HPS.
  destruct (geometry_fits t nullable max_len (pr_ml _ _ _ _ _ Hrep)) as (Hcap & _).
  pose proof (pr_full _ _ _ _ _ Hrep) as Hfull.
  assert (Hu : in_u 16 n) by (unfold in_u; lia).
  apply (rep_take t nullable max_len pl); try done.
  - lia.
  - rewrite zlen_set_u16; lia.
  - auto with nyx.
  - intros. by rewrite znth_set_u16, Hf by lia.
  - by apply get_set_u16; [|lia|].
  - rewrite <- Hnc. apply get_u16_ext; [done|rewrite zlen_set_u16; lia|by rewrite znth_set_u16 by lia..].
  - by rewrite znth_set_u16, Hfl by lia.
Qed.

Lemma truncate_rep t nullable max_len pl vals n : page_rep t nullable max_len pl vals -> 0 <= n ->
  page_rep t nullable max_len (truncate_to pl n) (take (Z.to_nat n) vals).
Proof.
  intros Hrep Hn. unfold truncate_to. rewrite (pr_count _ _ _ _ _ Hrep).
  destruct (Z.leb_spec (zlen vals) n) as [Hle|Hlt].
  { rewrite take_ge; [done|]. unfold zlen in Hle. lia. }
  pose proof (pr_len _ _ _ _ _ Hrep) as Hl. pose proof (pr_bytes _ _ _ _ _ Hrep) as Hb.
  pose proof PAGE_PAYLOAD_SIZE_eq as HPS.
  destruct (geometry_fits t nullable max_len (pr_ml _ _ _ _ _ Hrep)) as (Hcap & _).
  pose proof (pr_full _ _ _ _ _ Hrep) as Hfull.
  pose proof (pr_flags _ _ _ _ _ Hrep) as Hfl. pose proof (pr_nulls _ _ _ _ _ Hrep) as Hnl.
  pose proof (count_nulls_take_le vals (Z.to_nat n)) as Hmono.
  pose proof (count_nulls_range (take (Z.to_nat n) vals)) as Hr0.
  pose proof (count_nulls_range vals) as Hr1.
  unfold cp_flags at 1. rewrite Hfl. destruct nullable.
  - replace (negb (Z.land _ COL_PAGE_FLAG_NULLABLE =? 0)) with true by (by destruct (0 <? count_nulls vals)).
    rewrite (count_null_bits_rep t true max_len pl vals) by (done || (unfold zlen in *; lia)).
    set (nc := count_nulls (take (Z.to_nat n) vals)) in *.
    set (p1 := set_u16 24 nc pl).
    assert (H1 : zlen p1 = PAGE_PAYLOAD_SIZE) by (unfold p1; rewrite zlen_set_u16; lia).
    assert (Hn1 : cp_null_count p1 = nc) by (apply get_set_u16; [done|lia|unfold in_u; lia]).
    assert (Hf1 : forall j, 0 <= j -> j <> 24 -> j <> 25 -> znth p1 j = znth pl j)
      by (intros; apply znth_set_u16; lia).
    assert (Hb1 : Forall is_byte p1) by (unfold p1; auto with nyx).
    assert (Hfl1 : cp_flags p1 = 1 + (if 0 <? count_nulls vals then 2 else 0))
      by (unfold cp_flags; rewrite Hf1 by lia; done).
    rewrite Hfl1. destruct (Z.eqb_spec nc 0) as [H0|H0].
    + apply (rep_take_count t true max_len pl); try done; fold nc.
      * rewrite zlen_set_u8; lia.
      * apply set_u8_bytes; [|done]. by destruct (0 <? count_nulls vals).
      * intros. rewrite znth_set_u8, decide_False, Hf1 by (done || lia). done.
      * rewrite <- Hn1. apply get_u16_ext; [done|rewrite zlen_set_u8; lia|..];
          rewrite znth_set_u8, decide_False by (done || lia); done.
      * rewrite znth_set_u8, decide_True, H0 by (done || lia). by destruct (0 <? count_nulls vals).
    + apply (rep_take_count t true max_len pl); try done; fold nc.
      * intros. by apply Hf1.
      * change (znth p1 1) with (cp_flags p1). rewrite Hfl1, !(proj2 (Z.ltb_lt _ _)) by lia. done.
  - assert (Hv0 : count_nulls vals = 0) by (eapply no_nulls; apply (pr_fits _ _ _ _ _ Hrep)).
    rewrite Hv0. simpl. apply (rep_take_count t false max_len pl); try done; [lia|].
    rewrite Hfl, Hv0. destruct (Z.ltb_spec 0 (count_nulls (take (Z.to_nat n) vals))); [lia|done].
Qed.

(** ** Sequences of appends *)

Fixpoint append_values (pl : bytes) (vs : list Value) : result unit * bytes :=
  match vs with
  | [] => (Ok tt, pl)
  | v :: vs' =>
      match append_value pl v with
      | (Ok _, pl) => append_values pl vs'
      | (Err e, pl) => (Err e, pl)
      end
  end.

Lemma append_values_rep t nullable max_len vs : forall pl vals,
  page_rep t nullable max_len pl vals -> Forall (value_fits t nullable max_len) vs ->
  zlen vals + zlen vs <= column_page_capacity t nullable max_len ->
  exists pl', append_values pl vs = (Ok tt, pl') /\ page_rep t nullable max_len pl' (vals ++ vs).
Proof.
  induction vs as [|v vs IH]; intros pl vals Hrep Hfit Hcap.
  - exists pl. by rewrite app_nil_r.
  - inversion_clear Hfit.
    assert (Hcons : zlen (v :: vs) = 1 + zlen vs) by (unfold zlen; simpl; lia).
    pose proof (zlen_nonneg vs). rewrite Hcons in Hcap.
    destruct (append_value_rep t nullable max_len pl vals Hrep) with (v := v) as (pl1 & Ha & Hrep1); [lia|done|].
    simpl. rewrite Ha. destruct (IH pl1 (vals ++ [v]) Hrep1) as (pl2 & Hb & Hrep2); [done| |].
    + rewrite zlen_app. replace (zlen [v]) with 1 by done. lia.
    + exists pl2. split; [done|]. by rewrite <- app_assoc in Hrep2.
Qed.

(** The payload of a page after [reset]. *)
(** ** Zone maps *)

Lemma zone_map_rep t nullable max_len pl vals T :
  page_rep t nullable max_len pl vals -> ctype_of t = Some T ->
  (read_min T t pl = None <-> forall v, v ∈ vals -> is_null v = true) /\
  forall m M, read_min T t pl = Some m -> read_max T t pl = Some M ->
    forall v x, v ∈ vals -> num_of v = Some x -> ct_lt T x m = false /\ ct_lt T M x = false.
Proof.
  intros Hrep HT. unfold read_min, read_max.
  rewrite (cp_type_rep _ _ _ _ _ Hrep), bool_decide_true by done. cbn [negb].
  rewrite (pr_count _ _ _ _ _ Hrep), (pr_nulls _ _ _ _ _ Hrep).
  destruct (Z.eqb_spec (zlen vals - count_nulls vals) 0) as [H0|H0].
  - split; [|done]. split; [intros _; by apply all_null|done].
  - split.
    + split; [done|]. intros Hall. exfalso. apply H0. unfold count_nulls.
      assert (Hf : List.filter is_null vals = vals).
      { clear -Hall. induction vals as [|v vals IH]; [done|]. simpl.
        rewrite (Hall v) by by left. f_equal. apply IH. intros w Hw. apply Hall. by right. }
      rewrite Hf. lia.
    + intros m M [= <-] [= <-]. apply (pr_zone _ _ _ _ _ Hrep T HT).
Qed.

(** ** Properties *)

(** C30. The capacity [column_page_capacity] computes, for every type, nullability and 16-bit
    [max_len], fits the page: it is below [2^16], header, null bitmap and all slots end
    within the payload, and the bitmap has a bit for every slot. *)
Theorem column_page_layout_fits t nullable max_len : in_u 16 max_len ->
  let cap := column_page_capacity t nullable max_len in
  in_u 16 cap /\
  COL_PAGE_HEADER_SIZE + bitmap_bytes t nullable max_len + cap * type_size t max_len <= PAGE_PAYLOAD_SIZE /\
  (nullable = true -> cap <= 8 * bitmap_bytes t nullable max_len).
Proof.
  intros Hml. destruct (geometry_fits t nullable max_len Hml) as (Hc & _ & Hfit & Hbit & _).
  split_and!; [unfold in_u; lia..|done|done].
Qed.

Lemma column_page_layout_fits_witness :
  COL_PAGE_HEADER_SIZE + bitmap_bytes VARCHAR true 64 + column_page_capacity VARCHAR true 64 * type_size VARCHAR 64
    <= PAGE_PAYLOAD_SIZE.
Proof.
  refine (proj1 (proj2 (column_page_layout_fits VARCHAR true 64 _))). unfold in_u; lia.
Defined.

(** A VARCHAR of length 8135 to 65535, which the parser accepts, has no room for a single
    value on a page: its capacity is 0, and row addressing divides by it. *)
Theorem long_varchar_has_no_slots nullable max_len : 8135 <= max_len ->
  column_page_capacity VARCHAR nullable max_len = 0.
Proof.
  intros H. unfold column_page_capacity. simpl type_size. rewrite (proj2 (Z.gtb_lt _ _)) by lia.
  rewrite (proj2 (Z.eqb_neq _ _)) by lia. rewrite PAGE_PAYLOAD_SIZE_eq. unfold COL_PAGE_HEADER_SIZE.
  destruct nullable; apply Z.div_small; lia.
Qed.

Lemma long_varchar_has_no_slots_witness : column_page_capacity VARCHAR true 9000 = 0.
Proof. apply (long_varchar_has_no_slots true 9000). lia. Defined.

(** Appending a value that fits the column stores it behind the values the page represents
    while there is room, and otherwise returns an error and changes nothing. *)
Theorem append_value_correct t nullable max_len pl vals v :
  page_rep t nullable max_len pl vals -> value_fits t nullable max_len v ->
  0 < column_page_capacity t nullable max_len ->
  if decide (zlen vals < column_page_capacity t nullable max_len)
  then exists pl', append_value pl v = (Ok tt, pl') /\ page_rep t nullable max_len pl' (vals ++ [v])
  else exists e, append_value pl v = (Err e, pl).
Proof.
  intros Hrep Hfit Hcap. case_decide.
  - by apply append_value_rep.
  - apply (append_full t nullable max_len pl vals Hrep); [lia|done..].
Qed.

Lemma append_value_correct_witness :
  exists pl', append_value (init blank INT32 true 0) (VI32 7) = (Ok tt, pl') /\
    page_rep INT32 true 0 pl' [VI32 7].
Proof.
  apply (append_value_correct INT32 true 0 (init blank INT32 true 0) [] (VI32 7)).
  - apply init_blank_rep; [exact I|unfold in_u; lia].
  - split; [reflexivity|unfold value_wf, in_s; lia].
  - reflexivity.
Defined.

(** Round trip: after [init] and appending any values that fit the column and the page,
    the accessors return each of them, nulls as nulls. *)
Theorem column_page_roundtrip t nullable max_len vs i v : type_named t -> in_u 16 max_len ->
  Forall (value_fits t nullable max_len) vs -> zlen vs <= column_page_capacity t nullable max_len ->
  vs !! i = Some v ->
  exists pl', append_values (init blank t nullable max_len) vs = (Ok tt, pl') /\
    cp_value_count pl' = zlen vs /\ reads_as pl' (Z.of_nat i) v.
Proof.
  intros Ht Hml Hfit Hcap Hv.
  destruct (append_values_rep t nullable max_len vs (init blank t nullable max_len) []) as (pl' & Ha & Hrep).
  - by apply init_blank_rep.
  - done.
  - done.
  - exists pl'. split; [done|]. split; [apply (pr_count _ _ _ _ _ Hrep)|by eapply reads_rep].
Qed.

Lemma column_page_roundtrip_witness :
  exists pl', append_values (init blank VARCHAR true 8) [VStr "ab"; VNull; VStr ""] = (Ok tt, pl') /\
    cp_value_count pl' = 3 /\ reads_as pl' 0 (VStr "ab").
Proof.
  apply (column_page_roundtrip VARCHAR true 8 [VStr "ab"; VNull; VStr ""] 0).
  - exact I.
  - unfold in_u; lia.
  - repeat constructor; vm_compute; congruence.
  - vm_compute. congruence.
  - reflexivity.
Defined.

(** [truncate_to] keeps exactly the first [n] values, with the null count and the
    has-nulls flag of that prefix. *)
Theorem truncate_to_correct t nullable max_len pl vals n :
  page_rep t nullable max_len pl vals -> 0 <= n ->
  page_rep t nullable max_len (truncate_to pl n) (take (Z.to_nat n) vals).
Proof. apply truncate_rep. Qed.

Lemma truncate_to_correct_witness :
  page_rep INT64 true 0 (truncate_to (init blank INT64 true 0) 5) [].
Proof.
  apply (truncate_to_correct INT64 true 0 (init blank INT64 true 0) [] 5).
  - apply init_blank_rep; [exact I|unfold in_u; lia].
  - lia.
Defined.

(** ** Histories of a page *)

Inductive page_op : Type := AppendValue (v : Value) | TruncateTo (n : Z).

Fixpoint page_run (pl : bytes) (os : list page_op) : result unit * bytes :=
  match os with
  | [] => (Ok tt, pl)
  | AppendValue v :: os =>
      match append_value pl v with
      | (Ok _, pl) => page_run pl os
      | (Err e, pl) => (Err e, pl)
      end
  | TruncateTo n :: os => page_run (truncate_to pl n) os
  end.

(** The values on the page. *)
Definition page_step (vals : list Value) (o : page_op) : list Value :=
  match o with AppendValue v => vals ++ [v] | TruncateTo n => take (Z.to_nat n) vals end.

(** Every value fits the column and finds room. *)
Fixpoint ops_fit (t : TypeId) (nullable : bool) (max_len : Z) (vals : list Value) (os : list page_op) : Prop :=
  match os with
  | [] => True
  | o :: os =>
      match o with
      | AppendValue v => value_fits t nullable max_len v /\ zlen vals < column_page_capacity t nullable max_len
      | TruncateTo n => 0 <= n
      end /\ ops_fit t nullable max_len (page_step vals o) os
  end.

Lemma page_run_rep t nullable max_len os : forall pl vals, page_rep t nullable max_len pl vals ->
  ops_fit t nullable max_len vals os ->
  exists pl', page_run pl os = (Ok tt, pl') /\ page_rep t nullable max_len pl' (fold_left page_step os vals).
Proof.
  induction os as [|[v|n] os IH]; intros pl vals Hrep Hfit; [by exists pl|..]; destruct Hfit as [Ho Hos]; cbn [page_run fold_left].
  - destruct Ho as [Hv Hroom].
    destruct (append_value_rep t nullable max_len pl vals Hrep Hroom v Hv) as (pl1 & -> & Hrep1). by apply IH.
  - by apply IH; [apply truncate_rep|].
Qed.

(** C29. Zone maps are sound: after any sequence of appends of values that fit the column, and of
    truncations, on a new page of a numeric, date or timestamp column, the page reports a minimum
    and a maximum exactly when it has a non-null value, and then no value on it compares below the
    minimum or above the maximum (for doubles with the IEEE order, NaN included). *)
Theorem zone_map_sound t nullable max_len os T :
  type_named t -> in_u 16 max_len -> ctype_of t = Some T -> ops_fit t nullable max_len [] os ->
  exists pl, page_run (init blank t nullable max_len) os = (Ok tt, pl) /\
    let vals := fold_left page_step os [] in
    (read_min T t pl = None <-> forall v, v ∈ vals -> is_null v = true) /\
    (read_max T t pl = None <-> forall v, v ∈ vals -> is_null v = true) /\
    forall m M, read_min T t pl = Some m -> read_max T t pl = Some M ->
      forall v x, v ∈ vals -> num_of v = Some x -> ct_lt T x m = false /\ ct_lt T M x = false.
Proof.
  intros Ht Hml HT Hfit.
  destruct (page_run_rep t nullable max_len os _ [] (init_blank_rep t nullable max_len Ht Hml) Hfit) as (pl & Hrun & Hrep).
  exists pl. split; [done|]. destruct (zone_map_rep _ _ _ _ _ T Hrep HT) as [Hmin Hb]. cbv zeta.
  split; [done|]. split; [|done]. rewrite <- Hmin. unfold read_min, read_max.
  destruct (negb (bool_decide (cp_type pl = t))); [done|]. by case_match.
Qed.

Lemma zone_map_sound_witness :
  exists pl, page_run (init blank INT32 true 0)
    [AppendValue (VI32 5); AppendValue VNull; AppendValue (VI32 (-3)); AppendValue (VI32 9); TruncateTo 3] = (Ok tt, pl) /\
    read_min ct_i32 INT32 pl = Some (-3) /\
    forall v x, v ∈ [VI32 5; VNull; VI32 (-3)] -> num_of v = Some x -> ct_lt ct_i32 x (-3) = false /\ ct_lt ct_i32 9 x = false.
Proof.
  destruct (zone_map_sound INT32 true 0
    [AppendValue (VI32 5); AppendValue VNull; AppendValue (VI32 (-3)); AppendValue (VI32 9); TruncateTo 3] ct_i32)
    as (pl & Hrun & _ & _ & Hb).
  - exact I.
  - unfold in_u. lia.
  - reflexivity.
  - vm_compute. repeat split; congruence.
  - exists pl. split; [exact Hrun|]. vm_compute in Hrun. injection Hrun as <-. split; [vm_compute; reflexivity|].
    intros v x Hv Hx. refine (Hb (-3) 9 _ _ v x Hv Hx); vm_compute; reflexivity.
Defined.
