(* ===== verification/ColumnFile.v ===== *)
(** * Column files

    [ColumnFile] (src/src/storage/disk/column_file.h, column_file.cpp): one column on
    disk as a sequence of column pages.  The last page lives in [current_page_] and is
    written on rotation and on [flush]; earlier pages are read through the buffer pool
    (LRU-K, 64 frames).  A [PageHandle] unpins its page when it goes out of scope:
    [with_page] is the fetch, the use and the unpin.

    An operation returns its status with the new state; [None] is undefined behaviour
    (the pool's, or a division by a zero capacity).  The file at the path is its list of
    bytes. *)

From S2P Require Import Prelude Types XXHash Page LruK BufferPool ColumnPage.

Definition POOL_FRESH_CAPACITY : Z := 64.

Record ColumnFile : Type := mkCF {
  disk_ : DiskManager;
  pool_ : BufferPool LRUKReplacer;
  type_ : TypeId;
  nullable_ : bool;
  capacity_ : Z;
  max_len_ : Z;
  current_page_ : Page;
  current_page_id_ : Z;
  current_dirty_ : bool
}.

(** [std::make_unique<BufferPool>(POOL_FRESH_CAPACITY, *disk)], with the default [k = 2]. *)
Definition new_pool : BufferPool LRUKReplacer := lruk_pool POOL_FRESH_CAPACITY 2.

Definition set_disk (cf : ColumnFile) (d : DiskManager) : ColumnFile :=
  mkCF d (pool_ cf) (type_ cf) (nullable_ cf) (capacity_ cf) (max_len_ cf)
    (current_page_ cf) (current_page_id_ cf) (current_dirty_ cf).
Definition set_pool (cf : ColumnFile) (p : BufferPool LRUKReplacer) : ColumnFile :=
  mkCF (disk_ cf) p (type_ cf) (nullable_ cf) (capacity_ cf) (max_len_ cf)
    (current_page_ cf) (current_page_id_ cf) (current_dirty_ cf).
Definition set_current (cf : ColumnFile) (p : Page) (id : Z) (dirty : bool) : ColumnFile :=
  mkCF (disk_ cf) (pool_ cf) (type_ cf) (nullable_ cf) (capacity_ cf) (max_len_ cf) p id dirty.

Definition create (path : string) (file : bytes) (type : TypeId) (nullable : bool) (max_len : Z)
    : result ColumnFile :=
  if type_size type max_len =? 0 then Err "create: invalid type or max_len=0 for VARCHAR"
  else
    let disk := disk_open file in
    if page_count disk >? 0 then Err ("create: file " +:+ path +:+ " already has pages")
    else
      let capacity := wrap 16 (column_page_capacity type nullable max_len) in
      let '(id_res, disk) := allocate_page disk in
      let? id := id_res in
      let page := reset page_init id in
      let page := set_payload page (init (payload page) type nullable max_len) in
      let '(wr, disk) := write_page disk page in
      let? _ := wr in
      Ok (mkCF disk new_pool type nullable capacity max_len page id false).

Definition open_file (path : string) (file : bytes) : result ColumnFile :=
  let disk := disk_open file in
  if page_count disk =? 0 then Err ("open: file " +:+ path +:+ " is empty")
  else
    let last := page_count disk - 1 in
    let '(read_res, page) := read_page disk last page_init in
    let? _ := read_res in
    let view := payload page in
    if type_size (cp_type view) (cp_max_len view) =? 0
    then Err "open: page header has invalid type"
    else Ok (mkCF disk new_pool (cp_type view) (cp_nullable view) (cp_capacity view)
               (cp_max_len view) page last false).

Definition row_count (cf : ColumnFile) : Z :=
  wrap 64 (current_page_id_ cf * capacity_ cf + cp_value_count (payload (current_page_ cf))).

Definition rotate_page (cf : ColumnFile) : result unit * ColumnFile :=
  let '(res, cf) :=
    if current_dirty_ cf then
      let '(res, d) := write_page (disk_ cf) (current_page_ cf) in
      let cf := set_disk cf d in
      match res with
      | Err e => (Err e, cf)
      | Ok _ => (Ok tt, set_current cf (current_page_ cf) (current_page_id_ cf) false)
      end
    else (Ok tt, cf) in
  match res with
  | Err e => (Err e, cf)
  | Ok _ =>
      let '(new_id, d) := reserve_page_id (disk_ cf) in
      let cf := set_disk cf d in
      let page := reset (current_page_ cf) new_id in
      let page := set_payload page (init (payload page) (type_ cf) (nullable_ cf) (max_len_ cf)) in
      (Ok tt, set_current cf page new_id true)
  end.

Definition ensure_room_for_append (cf : ColumnFile) : result unit * ColumnFile :=
  if is_full (payload (current_page_ cf)) then rotate_page cf else (Ok tt, cf).

(** The body the [append_*] functions share, [op] being the append of the page view. *)
Definition append_with (op : bytes -> result unit * bytes) (cf : ColumnFile)
    : result unit * ColumnFile :=
  let '(r, cf) := ensure_room_for_append cf in
  match r with
  | Err e => (Err e, cf)
  | Ok _ =>
      let '(res, pl) := op (payload (current_page_ cf)) in
      let page := set_payload (current_page_ cf) pl in
      match res with
      | Err e => (Err e, set_current cf page (current_page_id_ cf) (current_dirty_ cf))
      | Ok _ => (Ok tt, set_current cf page (current_page_id_ cf) true)
      end
  end.

Definition cf_append_i32 (cf : ColumnFile) (v : Z) := append_with (fun pl => append_i32 pl v) cf.
Definition cf_append_i64 (cf : ColumnFile) (v : Z) := append_with (fun pl => append_i64 pl v) cf.
Definition cf_append_f64 (cf : ColumnFile) (v : Z) := append_with (fun pl => append_f64 pl v) cf.
Definition cf_append_null (cf : ColumnFile) := append_with append_null cf.
Definition cf_append_str (cf : ColumnFile) (s : string) := append_with (fun pl => append_str pl s) cf.
Definition cf_append_bool (cf : ColumnFile) (b : bool) := append_with (fun pl => append_bool pl b) cf.
Definition cf_append_date (cf : ColumnFile) (d : Z) := append_with (fun pl => append_date pl d) cf.
Definition cf_append_timestamp (cf : ColumnFile) (m : Z) :=
  append_with (fun pl => append_timestamp pl m) cf.

(** The dispatch of [append_bulk]: [None] is its final [else]. *)
Definition bulk_dispatch (t : TypeId) (v : Value) : option (bytes -> result unit * bytes) :=
  if is_null v then Some append_null
  else
    match t, v with
    | INT32, VI32 x => Some (fun pl => append_i32 pl x)
    | INT64, VI64 x => Some (fun pl => append_i64 pl x)
    | DOUBLE, VF64 b => Some (fun pl => append_f64 pl b)
    | VARCHAR, VStr s => Some (fun pl => append_str pl s)
    | BOOL, VBool b => Some (fun pl => append_bool pl b)
    | DATE, VDate d => Some (fun pl => append_date pl d)
    | TIMESTAMP, VTimestamp m => Some (fun pl => append_timestamp pl m)
    | _, _ => None
    end.

Fixpoint append_bulk (cf : ColumnFile) (values : list Value) : result unit * ColumnFile :=
  match values with
  | [] => (Ok tt, cf)
  | v :: rest =>
      let '(rr, cf) := ensure_room_for_append cf in
      match rr with
      | Err e => (Err e, cf)
      | Ok _ =>
          match bulk_dispatch (type_ cf) v with
          | None => (Err "append_bulk: value type does not match column type", cf)
          | Some op =>
              let '(ar, pl) := op (payload (current_page_ cf)) in
              let page := set_payload (current_page_ cf) pl in
              match ar with
              | Err e => (Err e, set_current cf page (current_page_id_ cf) (current_dirty_ cf))
              | Ok _ => append_bulk (set_current cf page (current_page_id_ cf) true) rest
              end
          end
      end
  end.

(** [read_page(id)], the use [f] of the page and the end of the handle's life. *)
Definition with_page {A} (cf : ColumnFile) (id : Z) (f : Page -> A)
    : option (result A * ColumnFile) :=
  if id =? current_page_id_ cf then Some (Ok (f (current_page_ cf)), cf)
  else
    let! (p, pool) := fetch_page (disk_ cf) (pool_ cf) id in
    let cf := set_pool cf pool in
    match p with
    | Err e => Some (Err e, cf)
    | Ok i =>
        let! page := slab_ pool !! i in
        let x := f page in
        let! (_, pool) := unpin_page pool id in
        Some (Ok x, set_pool cf pool)
    end.

Definition cf_get_typed {A} (getter : bytes -> Z -> result A) (cf : ColumnFile) (row_id : Z)
    : option (result A * ColumnFile) :=
  if capacity_ cf =? 0 then None
  else
    let page_num := row_id / capacity_ cf in
    let slot := wrap 16 (row_id mod capacity_ cf) in
    let! (r, cf) := with_page cf page_num (fun p => getter (payload p) slot) in
    match r with
    | Err e => Some (Err e, cf)
    | Ok x => Some (x, cf)
    end.

Definition cf_get_i32 := cf_get_typed get_i32.
Definition cf_get_i64 := cf_get_typed get_i64.
Definition cf_get_f64 := cf_get_typed get_f64.
Definition cf_get_bool := cf_get_typed get_bool.
Definition cf_get_date := cf_get_typed get_date.
Definition cf_get_timestamp := cf_get_typed get_timestamp.

Definition cf_get_str (cf : ColumnFile) (row_id : Z) : option (string * ColumnFile) :=
  if capacity_ cf =? 0 then None
  else
    let page_num := row_id / capacity_ cf in
    let slot := wrap 16 (row_id mod capacity_ cf) in
    let! (r, cf) := with_page cf page_num (fun p => get_str (payload p) slot) in
    match r with
    | Err _ => Some (EmptyString, cf)
    | Ok s => Some (s, cf)
    end.

Definition cf_is_null (cf : ColumnFile) (row_id : Z) : option (bool * ColumnFile) :=
  if capacity_ cf =? 0 then None
  else
    let page_num := row_id / capacity_ cf in
    let slot := wrap 16 (row_id mod capacity_ cf) in
    if page_count (disk_ cf) <=? page_num then Some (false, cf)
    else
      let! (r, cf) := with_page cf page_num (fun p => cp_is_null (payload p) slot) in
      match r with
      | Err _ => Some (false, cf)
      | Ok b => Some (b, cf)
      end.

(** The loop of [scan] over the pages [id .. id + n - 1]; [fn] folds over the views. *)
Fixpoint scan_pages {A} (fn : A -> bytes -> A) (n : nat) (id : Z) (acc : A) (cf : ColumnFile)
    : option (result A * ColumnFile) :=
  match n with
  | O => Some (Ok acc, cf)
  | S n' =>
      let! (h, cf) := with_page cf id (fun p => fn acc (payload p)) in
      match h with
      | Err e => Some (Err e, cf)
      | Ok acc => scan_pages fn n' (id + 1) acc cf
      end
  end.

Definition scan {A} (fn : A -> bytes -> A) (acc : A) (cf : ColumnFile)
    : option (result A * ColumnFile) :=
  scan_pages fn (Z.to_nat (page_count (disk_ cf))) 0 acc cf.

Definition cf_truncate (cf : ColumnFile) (target_rows : Z) : option (result unit * ColumnFile) :=
  if capacity_ cf =? 0 then None
  else
    let full_pages := target_rows / capacity_ cf in
    let remaining := wrap 16 (target_rows mod capacity_ cf) in
    let pages_to_keep :=
      if (remaining =? 0) && (target_rows >? 0) then full_pages else full_pages + 1 in
    let pages_to_keep := Z.max pages_to_keep 1 in
    let '(r, d) := truncate (disk_ cf) pages_to_keep in
    let cf := set_disk cf d in
    match r with
    | Err e => Some (Err e, cf)
    | Ok _ =>
        let last := pages_to_keep - 1 in
        let '(rd, page) := read_page (disk_ cf) last (current_page_ cf) in
        let cf := set_current cf page (current_page_id_ cf) (current_dirty_ cf) in
        match rd with
        | Err e => Some (Err e, cf)
        | Ok _ =>
            let needed := if (remaining =? 0) && (target_rows >? 0) then capacity_ cf else remaining in
            let '(wr, cf) :=
              if negb (cp_value_count (payload (current_page_ cf)) =? needed) then
                let page := set_payload (current_page_ cf)
                              (truncate_to (payload (current_page_ cf)) needed) in
                let cf := set_current cf page (current_page_id_ cf) (current_dirty_ cf) in
                let '(wr, d) := write_page (disk_ cf) (current_page_ cf) in
                (wr, set_disk cf d)
              else (Ok tt, cf) in
            match wr with
            | Err e => Some (Err e, cf)
            | Ok _ =>
                Some (Ok tt, set_pool (set_current cf (current_page_ cf) last false) new_pool)
            end
        end
    end.

Definition flush (cf : ColumnFile) : result unit * ColumnFile :=
  if negb (current_dirty_ cf) then (Ok tt, cf)
  else
    let '(res, d) := write_page (disk_ cf) (current_page_ cf) in
    let cf := set_disk cf d in
    match res with
    | Err e => (Err e, cf)
    | Ok _ => (Ok tt, set_current cf (current_page_ cf) (current_page_id_ cf) false)
    end.

(** ** Lemmas on pages and the disk *)

(** Page [id] of the disk is readable and represents [vs]. *)
Definition stored (d : DiskManager) (t : TypeId) (nullable : bool) (max_len : Z) (id : Z)
    (vs : list Value) : Prop :=
  id < next_page_id_ d /\
  zlen (slice (offset id) PAGE_SIZE (content d)) = PAGE_SIZE /\
  accepted id (slice (offset id) PAGE_SIZE (content d)) /\
  page_rep t nullable max_len
    (drop (Z.to_nat PAGE_HEADER_SIZE) (slice (offset id) PAGE_SIZE (content d))) vs.

Lemma stored_read d t nullable max_len id vs out : stored d t nullable max_len id vs -> page_wf out ->
  exists out', read_page d id out = (Ok tt, out') /\ page_id out' = id /\
    data out' = slice (offset id) PAGE_SIZE (content d) /\ page_rep t nullable max_len (payload out') vs.
Proof.
  intros (Hlt & Hlen & Hacc & Hrep) Hwf.
  exists (set_data out (slice (offset id) PAGE_SIZE (content d))).
  destruct Hacc as [Hid Hck]. split; [|by split; [exact Hid|split; [reflexivity|exact Hrep]]].
  apply read_page_ok_iff; [exact Hwf|]. cbv zeta. rewrite pread_slice.
  split; [exact Hlt|]. split; [exact Hlen|]. split; [reflexivity|]. split; [exact Hid|exact Hck].
Qed.

Lemma stored_on d t nullable max_len id vs :
  stored d t nullable max_len id vs <->
  exists pl, page_on d id pl /\ page_rep t nullable max_len pl vs.
Proof.
  split.
  - intros (H1 & H2 & H3 & H4). eexists. split; [|exact H4]. by split_and!.
  - intros (pl & (H1 & H2 & H3 & <-) & H4). by split_and!.
Qed.

Section write.
Context (d : DiskManager) (p : Page) (id : Z).
Hypothesis Hp : page_wf p.
Hypothesis Hid : page_id p = id.

Lemma written_stored t nullable max_len vs : id < next_page_id_ d ->
  page_rep t nullable max_len (payload p) vs -> stored (written d p id) t nullable max_len id vs.
Proof using Hp Hid. intros Hlt Hrep. apply stored_on. exists (payload p). split; [by apply written_on|done]. Qed.

Lemma written_stored_other t nullable max_len id' vs : id' <> id -> 0 <= id' ->
  stored d t nullable max_len id' vs -> stored (written d p id) t nullable max_len id' vs.
Proof using Hp Hid.
  intros Hne H0 (pl & Hon & Hrep)%stored_on. apply stored_on. exists pl. split; [|done].
  by apply written_on_other.
Qed.
End write.

(** ** Representation *)

(** The values of page [i] of a column. *)
Definition page_vals (cap : Z) (vals : list Value) (i : Z) : list Value := slice (i * cap) cap vals.

Section page_vals.
Context (cap : Z) (vals : list Value) (i : Z).
Hypothesis Hcap : 0 < cap.
Hypothesis Hi : 0 <= i.

Lemma page_vals_app_full vs : (i + 1) * cap <= zlen vals ->
  page_vals cap (vals ++ vs) i = page_vals cap vals i.
Proof using Hcap Hi.
  intros H. unfold page_vals, slice, zlen in *.
  rewrite drop_app_le, take_app_le by (rewrite ?length_drop; nia). done.
Qed.

Lemma page_vals_app_last vs : i * cap <= zlen vals -> zlen vals + zlen vs <= (i + 1) * cap ->
  page_vals cap (vals ++ vs) i = page_vals cap vals i ++ vs.
Proof using Hcap Hi.
  intros H1 H2. unfold page_vals, slice, zlen in *.
  rewrite drop_app_le by nia. rewrite !take_ge; [done|rewrite length_drop; nia|].
  rewrite length_app, length_drop. nia.
Qed.

Lemma zlen_page_vals_last : i * cap <= zlen vals <= (i + 1) * cap ->
  zlen (page_vals cap vals i) = zlen vals - i * cap.
Proof using Hcap Hi.
  intros H. unfold page_vals, slice, zlen in *. rewrite length_take, length_drop. nia.
Qed.

Lemma page_vals_new : zlen vals = i * cap -> page_vals cap vals i = [].
Proof using Hcap Hi. intros H. unfold page_vals, slice, zlen in *. rewrite drop_ge by nia. apply take_nil. Qed.

Lemma page_vals_lookup j v : 0 <= j -> j / cap = i -> vals !! Z.to_nat j = Some v ->
  page_vals cap vals i !! Z.to_nat (j mod cap) = Some v.
Proof using Hcap Hi.
  intros Hj Hdiv Hv. pose proof (Z.div_mod j cap). pose proof (Z.mod_pos_bound j cap).
  unfold page_vals, slice. rewrite lookup_take_lt, lookup_drop by lia. rewrite <- Hv. f_equal. nia.
Qed.
End page_vals.

(** The column file holds the column [vals]. *)
Record file_rep (cf : ColumnFile) (vals : list Value) : Prop := {
  fr_cap : capacity_ cf = column_page_capacity (type_ cf) (nullable_ cf) (max_len_ cf);
  fr_pos : 0 < capacity_ cf;
  fr_bytes : Forall is_byte (content (disk_ cf));
  fr_id : 0 <= current_page_id_ cf < INVALID_PAGE_ID;
  fr_next : next_page_id_ (disk_ cf) = current_page_id_ cf + 1;
  fr_len : current_page_id_ cf * PAGE_SIZE <= zlen (content (disk_ cf))
           <= (current_page_id_ cf + 1) * PAGE_SIZE;
  fr_rows : current_page_id_ cf * capacity_ cf <= zlen vals
            <= (current_page_id_ cf + 1) * capacity_ cf;
  fr_stored : forall i, 0 <= i < current_page_id_ cf ->
    stored (disk_ cf) (type_ cf) (nullable_ cf) (max_len_ cf) i (page_vals (capacity_ cf) vals i);
  fr_page : page_wf (current_page_ cf) /\ page_id (current_page_ cf) = current_page_id_ cf;
  fr_cur : page_rep (type_ cf) (nullable_ cf) (max_len_ cf) (payload (current_page_ cf))
             (page_vals (capacity_ cf) vals (current_page_id_ cf));
  fr_clean : current_dirty_ cf = false ->
    stored (disk_ cf) (type_ cf) (nullable_ cf) (max_len_ cf) (current_page_id_ cf)
      (page_vals (capacity_ cf) vals (current_page_id_ cf));
  fr_pool : pool_inv_busy None POOL_FRESH_CAPACITY (disk_ cf) (pool_ cf);
  fr_pins : forall id, pins (pool_ cf) id = 0;
  fr_old : forall id s, page_table_ (pool_ cf) !! id = Some s -> id < current_page_id_ cf
}.

Ltac cf_simpl :=
  cbn [disk_ pool_ type_ nullable_ capacity_ max_len_ current_page_ current_page_id_
       current_dirty_ set_current set_disk set_pool].

Lemma new_pool_inv d : pool_inv_busy None POOL_FRESH_CAPACITY d new_pool.
Proof. apply lruk_pool_inv; unfold POOL_FRESH_CAPACITY, in_u; lia. Qed.

Lemma new_pool_table : page_table_ new_pool = ∅.
Proof. reflexivity. Qed.

Section ops.
Context (cf : ColumnFile) (vals : list Value).
Hypothesis Hrep : file_rep cf vals.

Lemma row_count_rep : zlen vals < 2 ^ 64 -> row_count cf = zlen vals.
Proof using Hrep.
  intros Hmax. unfold row_count. rewrite (pr_count _ _ _ _ _ (fr_cur _ _ Hrep)).
  rewrite zlen_page_vals_last; [|apply (fr_pos _ _ Hrep)|apply (fr_id _ _ Hrep)|apply (fr_rows _ _ Hrep)].
  rewrite wrap_id; [lia|]. pose proof (zlen_nonneg vals). unfold in_u. lia.
Qed.

(** The disk after the current page is written: everything stays represented, and the
    current page is on disk. *)
Lemma write_current_rep :
  let d := written (disk_ cf) (current_page_ cf) (current_page_id_ cf) in
  write_page (disk_ cf) (current_page_ cf) = (Ok tt, d) /\
  file_rep (set_current (set_disk cf d) (current_page_ cf) (current_page_id_ cf) false) vals.
Proof using Hrep.
  pose proof Hrep as [Hcap Hpos Hb Hid Hnext Hlen Hrows Hst [Hwf Hpid] Hcur Hcl Hpool Hpins Hold].
  assert (Hval : current_page_id_ cf <> INVALID_PAGE_ID) by lia.
  assert (Hlt : current_page_id_ cf < next_page_id_ (disk_ cf)) by lia.
  cbv zeta. split; [by apply write_written|].
  split; cf_simpl;
    [exact Hcap|exact Hpos| |exact Hid|exact Hnext| |exact Hrows| | |exact Hcur| | |exact Hpins|exact Hold].
  - by apply written_bytes.
  - rewrite written_zlen by assumption. lia.
  - intros i Hi. apply written_stored_other; try assumption; [lia|lia|]. by apply Hst.
  - by split.
  - intros _. by apply written_stored.
  - apply (pool_inv_disk _ (disk_ cf)); [exact Hpool|]. intros pg [H0 Hc] [s Hs] Hpw.
    split; [exact H0|]. apply written_on_other; try assumption. specialize (Hold _ _ Hs). lia.
Qed.

Lemma flush_rep : exists cf', flush cf = (Ok tt, cf') /\ file_rep cf' vals /\ current_dirty_ cf' = false.
Proof using Hrep.
  unfold flush. destruct (current_dirty_ cf) eqn:Hd; simpl negb; cbv iota.
  - destruct write_current_rep as [Hw Hr]. rewrite Hw. eexists. by split; [|split; [exact Hr|]].
  - by exists cf.
Qed.
End ops.

(** ** Appending *)

Section append.
Context (cf : ColumnFile) (vals : list Value).
Hypothesis Hrep : file_rep cf vals.
Hypothesis Hfull : zlen vals = (current_page_id_ cf + 1) * capacity_ cf.
Hypothesis Hbound : current_page_id_ cf + 1 < INVALID_PAGE_ID.

(** The second half of [rotate_page]: a fresh page with the next id. *)
Lemma fresh_page_rep : current_dirty_ cf = false ->
  let d := mkDisk (wrap 64 (next_page_id_ (disk_ cf) + 1)) (content (disk_ cf)) in
  let page := reset (current_page_ cf) (next_page_id_ (disk_ cf)) in
  let page := set_payload page (init (payload page) (type_ cf) (nullable_ cf) (max_len_ cf)) in
  file_rep (set_current (set_disk cf d) page (next_page_id_ (disk_ cf)) true) vals.
Proof using Hrep Hfull Hbound.
  intros Hclean. cbv zeta.
  pose proof Hrep as [Hcap Hpos Hb Hid Hnext Hlen Hrows Hst [Hwf Hpid] Hcur Hcl Hpool Hpins Hold].
  specialize (Hcl Hclean). pose proof (page_wf_reset (current_page_ cf) (next_page_id_ (disk_ cf))) as Hrw.
  set (pg := reset _ _) in *. rewrite Hnext in *.
  set (c := current_page_id_ cf) in *. unfold INVALID_PAGE_ID in *.
  assert (Hpl : page_rep (type_ cf) (nullable_ cf) (max_len_ cf)
    (init (payload pg) (type_ cf) (nullable_ cf) (max_len_ cf)) []).
  { unfold pg. rewrite payload_reset. apply init_blank_rep; [apply (pr_named _ _ _ _ _ Hcur)|apply (pr_ml _ _ _ _ _ Hcur)]. }
  assert (Hlen' : zlen (content (disk_ cf)) = (c + 1) * PAGE_SIZE).
  { destruct Hcl as (_ & Hw & _). apply stored_window in Hw; [|lia]. unfold offset in Hw. lia. }
  split; cf_simpl; [exact Hcap|exact Hpos|exact Hb|unfold INVALID_PAGE_ID; lia| | | | | | | | |exact Hpins|].
  - cbn [next_page_id_]. apply wrap_id. unfold in_u. lia.
  - cbn [content]. rewrite Hlen', PAGE_SIZE_eq. lia.
  - lia.
  - intros i Hi. assert (Hs : stored (disk_ cf) (type_ cf) (nullable_ cf) (max_len_ cf) i
        (page_vals (capacity_ cf) vals i)).
    { destruct (decide (i = c)) as [->|]; [exact Hcl|apply Hst; lia]. }
    destruct Hs as (_ & Hs). split; [|exact Hs]. cbn [next_page_id_]. rewrite wrap_id; [lia|].
    unfold in_u. lia.
  - split; [apply set_payload_wf; [exact Hrw|apply (pr_len _ _ _ _ _ Hpl)|apply (pr_bytes _ _ _ _ _ Hpl)]|].
    rewrite page_id_set_payload by exact Hrw. unfold pg. rewrite Hnext.
    apply page_id_reset. unfold in_u. lia.
  - rewrite payload_set_payload, page_vals_new by (exact Hrw || lia). exact Hpl.
  - discriminate.
  - apply (pool_inv_disk _ (disk_ cf)); [exact Hpool|]. intros p (Hr & Hn & Hc) [s Hs] _.
    split; [exact Hr|]. split; [|exact Hc].
    specialize (Hold _ _ Hs). cbn [next_page_id_]. rewrite wrap_id; [lia|unfold in_u; lia].
  - intros id s Hs. specialize (Hold _ _ Hs). lia.
Qed.

End append.

(** The static parameters of a file do not change. *)
Definition same_params (cf cf' : ColumnFile) : Prop :=
  type_ cf' = type_ cf /\ nullable_ cf' = nullable_ cf /\ max_len_ cf' = max_len_ cf /\
  capacity_ cf' = capacity_ cf.

Lemma rotate_rep cf vals : file_rep cf vals ->
  zlen vals = (current_page_id_ cf + 1) * capacity_ cf -> current_page_id_ cf + 1 < INVALID_PAGE_ID ->
  exists cf', rotate_page cf = (Ok tt, cf') /\ file_rep cf' vals /\
    current_page_id_ cf' = current_page_id_ cf + 1 /\ same_params cf cf'.
Proof.
  intros Hrep Hfull Hbound. unfold rotate_page. destruct (current_dirty_ cf) eqn:Hd.
  - destruct (write_current_rep cf vals Hrep) as [Hw Hr]. rewrite Hw.
    eexists. split; [reflexivity|]. split; [exact (fresh_page_rep _ _ Hr Hfull Hbound eq_refl)|].
    split; [apply (fr_next _ _ Hrep)|by split_and!].
  - eexists. split; [reflexivity|]. split; [exact (fresh_page_rep _ _ Hrep Hfull Hbound Hd)|].
    split; [apply (fr_next _ _ Hrep)|by split_and!].
Qed.

Lemma is_full_rep cf vals : file_rep cf vals ->
  is_full (payload (current_page_ cf)) = bool_decide (zlen vals = (current_page_id_ cf + 1) * capacity_ cf).
Proof.
  intros Hrep. unfold is_full. pose proof (fr_rows _ _ Hrep). pose proof (fr_cur _ _ Hrep) as Hcur.
  rewrite (pr_cap _ _ _ _ _ Hcur), (pr_count _ _ _ _ _ Hcur), <- (fr_cap _ _ Hrep).
  rewrite zlen_page_vals_last; [|apply (fr_pos _ _ Hrep)|apply (fr_id _ _ Hrep)|done].
  case_bool_decide; [apply Z.leb_le|apply Z.leb_gt]; nia.
Qed.

(** After [ensure_room_for_append] the current page has room. *)
Lemma ensure_room_rep cf vals : file_rep cf vals -> zlen vals < 2 ^ 63 ->
  exists cf', ensure_room_for_append cf = (Ok tt, cf') /\ file_rep cf' vals /\
    zlen vals < (current_page_id_ cf' + 1) * capacity_ cf' /\ same_params cf cf'.
Proof.
  intros Hrep Hmax. unfold ensure_room_for_append. rewrite (is_full_rep cf vals Hrep).
  pose proof (fr_rows _ _ Hrep). pose proof (fr_pos _ _ Hrep). pose proof (fr_id _ _ Hrep).
  case_bool_decide as Hf.
  - destruct (rotate_rep cf vals Hrep Hf) as (cf' & Hr & Hrep' & Hid & Hsame).
    { unfold INVALID_PAGE_ID. nia. }
    exists cf'. split; [exact Hr|]. split; [exact Hrep'|]. split; [|exact Hsame].
    destruct Hsame as (_ & _ & _ & Hc). rewrite Hid, Hc, Hf. nia.
  - exists cf. split; [reflexivity|]. split; [exact Hrep|]. split; [lia|by split_and!].
Qed.

(** Replacing the current page by one with one more value. *)
Lemma push_rep cf vals v pl : file_rep cf vals ->
  zlen vals < (current_page_id_ cf + 1) * capacity_ cf ->
  page_rep (type_ cf) (nullable_ cf) (max_len_ cf) pl
    (page_vals (capacity_ cf) vals (current_page_id_ cf) ++ [v]) ->
  file_rep (set_current cf (set_payload (current_page_ cf) pl) (current_page_id_ cf) true) (vals ++ [v]).
Proof.
  intros [Hcap Hpos Hb Hid Hnext Hlen Hrows Hst [Hwf Hpid] Hcur Hcl Hpool Hpins Hold] Hroom Hpl.
  assert (Hl1 : zlen (vals ++ [v]) = zlen vals + 1) by (by rewrite zlen_app).
  split; cf_simpl;
    [exact Hcap|exact Hpos|exact Hb|exact Hid|exact Hnext|exact Hlen|lia| | | |discriminate
    |exact Hpool|exact Hpins|exact Hold].
  - intros i Hi. rewrite page_vals_app_full by nia. by apply Hst.
  - split; [apply set_payload_wf; [exact Hwf|apply (pr_len _ _ _ _ _ Hpl)|apply (pr_bytes _ _ _ _ _ Hpl)]|].
    by rewrite page_id_set_payload.
  - rewrite payload_set_payload by exact Hwf.
    rewrite page_vals_app_last; [exact Hpl|lia..|]. replace (zlen [v]) with 1 by done. lia.
Qed.

(** One append, for an [op] that appends [v] to a represented page with room. *)
Lemma append_step cf vals v op : file_rep cf vals -> zlen vals < 2 ^ 63 ->
  value_fits (type_ cf) (nullable_ cf) (max_len_ cf) v -> (forall pl, op pl = append_value pl v) ->
  exists cf1 pl, ensure_room_for_append cf = (Ok tt, cf1) /\ op (payload (current_page_ cf1)) = (Ok tt, pl) /\
    same_params cf cf1 /\
    file_rep (set_current cf1 (set_payload (current_page_ cf1) pl) (current_page_id_ cf1) true) (vals ++ [v]).
Proof.
  intros Hrep Hmax Hfit Hop.
  destruct (ensure_room_rep cf vals Hrep Hmax) as (cf1 & He & Hrep1 & Hroom & Hsame).
  pose proof Hsame as (Ht & Hn & Hm & Hc). rewrite <- Ht, <- Hn, <- Hm in Hfit.
  destruct (append_value_rep _ _ _ _ _ (fr_cur _ _ Hrep1)) with (v := v) as (pl & Ha & Hpl).
  - rewrite zlen_page_vals_last; [|apply (fr_pos _ _ Hrep1)|apply (fr_id _ _ Hrep1)|apply (fr_rows _ _ Hrep1)].
    rewrite <- (fr_cap _ _ Hrep1). lia.
  - exact Hfit.
  - exists cf1, pl. rewrite Hop. split; [exact He|]. split; [exact Ha|]. split; [exact Hsame|].
    by apply push_rep.
Qed.

Lemma append_with_rep cf vals v op : file_rep cf vals -> zlen vals < 2 ^ 63 ->
  value_fits (type_ cf) (nullable_ cf) (max_len_ cf) v -> (forall pl, op pl = append_value pl v) ->
  exists cf', append_with op cf = (Ok tt, cf') /\ file_rep cf' (vals ++ [v]) /\ same_params cf cf'.
Proof.
  intros Hrep Hmax Hfit Hop.
  destruct (append_step cf vals v op Hrep Hmax Hfit Hop) as (cf1 & pl & He & Ha & Hsame & Hr).
  unfold append_with. rewrite He, Ha. by eexists.
Qed.

Lemma bulk_dispatch_fits t nullable max_len v : value_fits t nullable max_len v ->
  exists op, bulk_dispatch t v = Some op /\ forall pl, op pl = append_value pl v.
Proof.
  unfold bulk_dispatch. destruct v; simpl; intros Hf; [by eexists|..];
    destruct Hf as [<- _] || destruct Hf as [-> _]; by eexists.
Qed.

Lemma append_bulk_rep vs : forall cf vals, file_rep cf vals -> zlen vals + zlen vs < 2 ^ 63 ->
  Forall (value_fits (type_ cf) (nullable_ cf) (max_len_ cf)) vs ->
  exists cf', append_bulk cf vs = (Ok tt, cf') /\ file_rep cf' (vals ++ vs) /\ same_params cf cf'.
Proof.
  induction vs as [|v vs IH]; intros cf vals Hrep Hmax Hfit.
  - exists cf. rewrite app_nil_r. by split_and!.
  - apply Forall_cons in Hfit as [Hv Hvs].
    assert (Hcons : zlen (v :: vs) = 1 + zlen vs) by (unfold zlen; simpl length; lia).
    pose proof (zlen_nonneg vs). pose proof (zlen_nonneg vals). rewrite Hcons in Hmax.
    destruct (bulk_dispatch_fits _ _ _ _ Hv) as (op & Hop & Hopv).
    destruct (append_step cf vals v op Hrep) as (cf1 & pl & He & Ha & Hsame & Hr); [lia|exact Hv|exact Hopv|].
    pose proof Hsame as (Ht & Hn & Hm & Hc).
    destruct (IH _ _ Hr) as (cf2 & Hb & Hr2 & Hs2).
    + rewrite zlen_app. replace (zlen [v]) with 1 by done. lia.
    + cf_simpl. by rewrite Ht, Hn, Hm.
    + exists cf2. cbn [append_bulk]. rewrite He, Ht, Hop, Ha. split; [exact Hb|].
      rewrite <- app_assoc in Hr2. split; [exact Hr2|].
      destruct Hs2 as (H1 & H2 & H3 & H4). revert H1 H2 H3 H4. cf_simpl. rewrite Ht, Hn, Hm, Hc.
      intros. by split_and!.
Qed.

Lemma append_bulk_app vs1 : forall cf vs2 cf', append_bulk cf vs1 = (Ok tt, cf') ->
  append_bulk cf (vs1 ++ vs2) = append_bulk cf' vs2.
Proof.
  induction vs1 as [|v vs1 IH]; intros cf vs2 cf'; cbn [append_bulk app]; [by intros [= ->]|].
  destruct (ensure_room_for_append cf) as [[[]|e] cf1]; [|done].
  destruct (bulk_dispatch (type_ cf1) v) as [op|]; [|done].
  destruct (op (payload (current_page_ cf1))) as [[[]|e] pl]; [|done]. apply IH.
Qed.

(** A column that is NOT NULL refuses the first NULL of a batch. *)
Lemma append_bulk_null cf vals good rest : file_rep cf vals -> nullable_ cf = false ->
  zlen vals + zlen good < 2 ^ 63 -> Forall (value_fits (type_ cf) false (max_len_ cf)) good ->
  exists cf', append_bulk cf (good ++ VNull :: rest) = (Err "append_null: column is not nullable", cf').
Proof.
  intros Hrep Hn Hmax Hfit.
  destruct (append_bulk_rep good cf vals Hrep Hmax) as (cf1 & Hb & Hrep1 & Hsame); [by rewrite Hn|].
  rewrite (append_bulk_app good cf _ cf1 Hb).
  destruct (ensure_room_rep cf1 _ Hrep1) as (cf2 & He & Hrep2 & _ & Hsame2); [by rewrite zlen_app|].
  destruct Hsame as (_ & Hn1 & _). destruct Hsame2 as (_ & Hn2 & _).
  pose proof (pr_nb _ _ _ _ _ (fr_cur _ _ Hrep2)) as Hnb. rewrite Hn2, Hn1, Hn in Hnb.
  cbn [append_bulk]. rewrite He. cbn [bulk_dispatch is_null]. unfold append_null. rewrite Hnb.
  by eexists.
Qed.

(** ** Reading *)

(** An unpinned pool is never exhausted. *)
Lemma not_all_pinned (n : Z) d (bp : BufferPool LRUKReplacer) : 0 < n -> pool_inv_busy None n d bp ->
  (forall id, pins bp id = 0) -> ~ all_pinned bp.
Proof.
  intros Hn Hinv Hpins [Hfree Hall].
  assert (Hlt : (0 < length (fresh_slots_ bp))%nat).
  { pose proof (pi_slots _ _ _ _ Hinv). unfold zlen in *. lia. }
  apply lookup_lt_is_Some in Hlt as [[p|] Hs].
  - assert (Hh : holds bp 0 p) by done. destruct (Hall 0 p Hh) as (pg & Hpg & Hpin).
    destruct (pi_holds _ _ _ _ Hinv 0 p Hh) as (pg' & Hpg' & _ & Ht).
    rewrite Hpg in Hpg'. injection Hpg' as <-. specialize (Hpins (page_id pg)).
    unfold pins in Hpins. rewrite Ht in Hpins. change (Z.to_nat 0) with 0%nat in Hpins. rewrite Hs, Hpg in Hpins. lia.
  - assert (Hin : 0 ∈ fresh_free_ bp) by (apply (pi_free_slot _ _ _ _ Hinv); by split_and!).
    rewrite Hfree in Hin. by apply elem_of_nil in Hin.
Qed.

Lemma set_pool_rep cf vals pool : file_rep cf vals ->
  pool_inv_busy None POOL_FRESH_CAPACITY (disk_ cf) pool -> (forall id, pins pool id = 0) ->
  (forall id s, page_table_ pool !! id = Some s -> id < current_page_id_ cf) ->
  file_rep (set_pool cf pool) vals.
Proof.
  intros [Hcap Hpos Hb Hid Hnext Hlen Hrows Hst Hpg Hcur Hcl Hpool Hpins Hold] H1 H2 H3.
  by split; cf_simpl; [exact Hcap|exact Hpos|exact Hb|exact Hid|exact Hnext|exact Hlen|exact Hrows
    |exact Hst|exact Hpg|exact Hcur|exact Hcl|exact H1|exact H2|exact H3].
Qed.

(** Fetching an earlier page and giving it back. *)
Lemma fetch_unpin_rep cf vals id : file_rep cf vals -> 0 <= id < current_page_id_ cf ->
  exists i pool1 pg pool2 r, fetch_page (disk_ cf) (pool_ cf) id = Some (Ok i, pool1) /\
    slab_ pool1 !! i = Some pg /\ unpin_page pool1 id = Some (r, pool2) /\
    page_rep (type_ cf) (nullable_ cf) (max_len_ cf) (payload pg) (page_vals (capacity_ cf) vals id) /\
    file_rep (set_pool cf pool2) vals.
Proof.
  intros Hrep Hid. pose proof (fr_pool _ _ Hrep) as Hinv. pose proof (fr_pins _ _ Hrep) as Hpins.
  pose proof (fr_stored _ _ Hrep id Hid) as Hst.
  destruct (fetch_page_ok POOL_FRESH_CAPACITY (disk_ cf) (fr_bytes _ _ Hrep) (pool_ cf) id Hinv)
    as (res & pool1 & Hf & Hinv1 & Hoth1 & Hres); [lia|by rewrite Hpins|].
  destruct res as [i|e].
  - destruct Hres as (s & pg & Hpin & Hc & Hcount). rewrite Hpins in Hcount.
    destruct (unpin_page_ok POOL_FRESH_CAPACITY (disk_ cf) pool1 id Hinv1)
      as (r & pool2 & Hu & Hinv2 & Hoth2 & Hr).
    exists i, pool1, pg, pool2, r. pose proof Hpin as (Ht1 & _ & Hpg & Hpid & _).
    split; [exact Hf|]. split; [exact Hpg|]. split; [exact Hu|]. split.
    + destruct Hc as (_ & _ & _ & _ & Hpl). rewrite Hpid in Hpl.
      destruct Hst as (_ & _ & _ & Hr0). by rewrite <- Hpl.
    + assert (Hp1 : pins pool1 id = 1).
      { apply (pins_pos POOL_FRESH_CAPACITY (disk_ cf)); [exact Hinv1|lia|]. exists s, i, pg. split; [exact Hpin|lia]. }
      apply set_pool_rep; [exact Hrep|exact Hinv2| |].
      * intros id'. destruct (decide (id' = id)) as [->|Hne].
        -- destruct r; [lia|]. destruct Hr. lia.
        -- rewrite (pins_ext POOL_FRESH_CAPACITY (disk_ cf) pool1 pool2); [|exact Hinv1|exact Hinv2|intros; by apply Hoth2].
           rewrite (pins_ext POOL_FRESH_CAPACITY (disk_ cf) (pool_ cf) pool1); [apply Hpins|exact Hinv|exact Hinv1|intros; by apply Hoth1].
      * intros id' s'. rewrite (unpin_page_table _ _ _ _ Hu). intros Ht.
        destruct (fetch_page_table _ _ _ _ _ _ _ Hf Ht) as [->|Ht']; [lia|]. by apply (fr_old _ _ Hrep id' s').
  - exfalso. destruct Hres as (_ & _ & [Hall|(out & e' & Hwf & Herr)]).
    + by apply (not_all_pinned POOL_FRESH_CAPACITY (disk_ cf) (pool_ cf)).
    + destruct (stored_read _ _ _ _ _ _ out Hst Hwf) as (out' & Hrd & _). by rewrite Hrd in Herr.
Qed.

Lemma with_page_rep {A} cf vals id (f : Page -> A) : file_rep cf vals ->
  0 <= id <= current_page_id_ cf ->
  exists pg cf', with_page cf id f = Some (Ok (f pg), cf') /\ file_rep cf' vals /\ same_params cf cf' /\
    current_page_id_ cf' = current_page_id_ cf /\
    page_rep (type_ cf) (nullable_ cf) (max_len_ cf) (payload pg) (page_vals (capacity_ cf) vals id).
Proof.
  intros Hrep Hid. unfold with_page. destruct (Z.eqb_spec id (current_page_id_ cf)) as [->|Hne].
  - exists (current_page_ cf), cf. split; [reflexivity|]. split; [exact Hrep|]. split; [by split_and!|].
    split; [reflexivity|exact (fr_cur _ _ Hrep)].
  - destruct (fetch_unpin_rep cf vals id Hrep) as (i & pool1 & pg & pool2 & r & Hf & Hpg & Hu & Hp & Hr); [lia|].
    rewrite Hf, Hpg, Hu. eexists pg, _. split; [reflexivity|].
    split; [exact Hr|]. split; [by split_and!|]. split; [reflexivity|exact Hp].
Qed.

(** Row [j] lies on an existing page, at a slot of that page. *)
Lemma row_page cf vals j v : file_rep cf vals -> 0 <= j -> vals !! Z.to_nat j = Some v ->
  0 <= j / capacity_ cf <= current_page_id_ cf /\ capacity_ cf <> 0 /\
  wrap 16 (j mod capacity_ cf) = j mod capacity_ cf /\
  page_vals (capacity_ cf) vals (j / capacity_ cf) !! Z.to_nat (j mod capacity_ cf) = Some v.
Proof.
  intros Hrep Hj Hv. pose proof (fr_pos _ _ Hrep) as Hpos. pose proof (fr_rows _ _ Hrep) as Hrows.
  pose proof (lookup_lt_Some _ _ _ Hv) as Hlt. unfold zlen in Hrows.
  assert (Hdiv : 0 <= j / capacity_ cf <= current_page_id_ cf).
  { split; [apply Z.div_pos; lia|]. apply Z.lt_succ_r. apply Z.div_lt_upper_bound; [lia|]. nia. }
  destruct (geometry_fits (type_ cf) (nullable_ cf) (max_len_ cf) (pr_ml _ _ _ _ _ (fr_cur _ _ Hrep))) as (Hc & _).
  rewrite <- (fr_cap _ _ Hrep) in Hc. pose proof (Z.mod_pos_bound j (capacity_ cf)).
  split; [exact Hdiv|]. split; [lia|]. split; [apply wrap_id; unfold in_u; lia|].
  apply page_vals_lookup; done || lia.
Qed.

(** What the accessors of the file return for row [j], and that they keep the file. *)
Definition cf_reads_as (cf : ColumnFile) (j : Z) (v : Value) (cf' : ColumnFile) : Prop :=
  match v with
  | VNull => cf_is_null cf j = Some (true, cf')
  | VI32 x => cf_get_i32 cf j = Some (Ok x, cf')
  | VI64 x => cf_get_i64 cf j = Some (Ok x, cf')
  | VF64 b => cf_get_f64 cf j = Some (Ok b, cf')
  | VStr s => cf_get_str cf j = Some (s, cf')
  | VBool b => cf_get_bool cf j = Some (Ok b, cf')
  | VDate d => cf_get_date cf j = Some (Ok d, cf')
  | VTimestamp m => cf_get_timestamp cf j = Some (Ok m, cf')
  end.

Lemma read_row_rep {A} cf vals j v (f : bytes -> Z -> A) : file_rep cf vals -> 0 <= j ->
  vals !! Z.to_nat j = Some v ->
  exists pl cf', reads_as pl (j mod capacity_ cf) v /\ file_rep cf' vals /\ same_params cf cf' /\
    capacity_ cf <> 0 /\ j / capacity_ cf < page_count (disk_ cf) /\
    with_page cf (j / capacity_ cf) (fun p => f (payload p) (wrap 16 (j mod capacity_ cf))) =
      Some (Ok (f pl (j mod capacity_ cf)), cf').
Proof.
  intros Hrep Hj Hv. destruct (row_page cf vals j v Hrep Hj Hv) as (Hp & Hc & Hw & Hl). rewrite Hw.
  destruct (with_page_rep cf vals _ (fun p => f (payload p) (j mod capacity_ cf)) Hrep Hp)
    as (pg & cf' & Hwp & Hr & Hs & _ & Hpr).
  exists (payload pg), cf'. split.
  - pose proof (fr_pos _ _ Hrep). pose proof (Z.mod_pos_bound j (capacity_ cf)).
    rewrite <- (Z2Nat.id (j mod capacity_ cf)) by lia. by eapply reads_rep.
  - split; [exact Hr|]. split; [exact Hs|]. split; [exact Hc|]. split; [|exact Hwp].
    unfold page_count. rewrite (fr_next _ _ Hrep). lia.
Qed.

Lemma get_row_rep cf vals j v : file_rep cf vals -> 0 <= j -> vals !! Z.to_nat j = Some v ->
  exists cf', cf_reads_as cf j v cf' /\ file_rep cf' vals /\ same_params cf cf'.
Proof.
  intros Hrep Hj Hv. pose proof (fun A f => @read_row_rep A cf vals j v f Hrep Hj Hv) as Hread.
  destruct v; simpl; unfold cf_get_i32, cf_get_i64, cf_get_f64, cf_get_bool, cf_get_date,
    cf_get_timestamp, cf_get_typed, cf_get_str, cf_is_null.
  1: destruct (Hread _ cp_is_null) as (pl & cf' & [Hn Hg] & Hr & Hs & Hc & Hlt & Hw);
     exists cf'; rewrite (proj2 (Z.eqb_neq _ _) Hc), (proj2 (Z.leb_gt _ _) Hlt), Hw, Hn; done.
  1: destruct (Hread _ get_i32) as (pl & cf' & [Hn Hg] & Hr & Hs & Hc & Hlt & Hw).
  2: destruct (Hread _ get_i64) as (pl & cf' & [Hn Hg] & Hr & Hs & Hc & Hlt & Hw).
  3: destruct (Hread _ get_f64) as (pl & cf' & [Hn Hg] & Hr & Hs & Hc & Hlt & Hw).
  4: destruct (Hread _ get_str) as (pl & cf' & [Hn Hg] & Hr & Hs & Hc & Hlt & Hw).
  5: destruct (Hread _ get_bool) as (pl & cf' & [Hn Hg] & Hr & Hs & Hc & Hlt & Hw).
  6: destruct (Hread _ get_date) as (pl & cf' & [Hn Hg] & Hr & Hs & Hc & Hlt & Hw).
  7: destruct (Hread _ get_timestamp) as (pl & cf' & [Hn Hg] & Hr & Hs & Hc & Hlt & Hw).
  all: exists cf'; rewrite (proj2 (Z.eqb_neq _ _) Hc), Hw, Hg; done.
Qed.

(** ** Scanning *)

Lemma scan_pages_rep {A} (fn : A -> bytes -> A) n : forall id acc cf vals, file_rep cf vals ->
  0 <= id -> id + Z.of_nat n <= current_page_id_ cf + 1 ->
  exists pls cf', scan_pages fn n id acc cf = Some (Ok (fold_left fn pls acc), cf') /\
    file_rep cf' vals /\ same_params cf cf' /\ length pls = n /\
    forall k pl, pls !! k = Some pl -> page_rep (type_ cf) (nullable_ cf) (max_len_ cf) pl
      (page_vals (capacity_ cf) vals (id + Z.of_nat k)).
Proof.
  induction n as [|n IH]; intros id acc cf vals Hrep Hid Hn.
  - exists [], cf. split_and!; done.
  - destruct (with_page_rep cf vals id (fun p => fn acc (payload p)) Hrep) as
      (pg & cf1 & Hw & Hr1 & (Ht & Hnu & Hm & Hc) & Hcid & Hp); [lia|].
    destruct (IH (id + 1) (fn acc (payload pg)) cf1 vals Hr1) as
      (pls & cf2 & Hs & Hr2 & (Ht2 & Hnu2 & Hm2 & Hc2) & Hlen & Hall); [lia|lia|].
    exists (payload pg :: pls), cf2. cbn [scan_pages]. rewrite Hw. split; [exact Hs|].
    split; [exact Hr2|]. split; [split_and!; congruence|]. split; [simpl; by rewrite Hlen|].
    intros [|k] pl Hk; simpl in Hk.
    + injection Hk as <-. by rewrite Z.add_0_r.
    + specialize (Hall k pl Hk). rewrite Ht, Hnu, Hm, Hc in Hall.
      by replace (id + Z.of_nat (S k)) with (id + 1 + Z.of_nat k) by lia.
Qed.

(** ** Opening a flushed file *)

Lemma cp_nullable_rep t nullable max_len pl vals : page_rep t nullable max_len pl vals ->
  cp_nullable pl = nullable.
Proof.
  intros H. unfold cp_nullable, cp_flags. rewrite (pr_flags _ _ _ _ _ H).
  by destruct nullable, (0 <? count_nulls vals).
Qed.

Lemma disk_open_same d id : next_page_id_ d = id -> zlen (content d) = id * PAGE_SIZE ->
  disk_open (content d) = d.
Proof.
  intros Hn Hl. unfold disk_open. rewrite Hl. destruct d as [n f]. cbn [content next_page_id_] in *.
  subst n. f_equal. apply Z.div_mul. by rewrite PAGE_SIZE_eq.
Qed.

Lemma clean_len cf vals : file_rep cf vals -> current_dirty_ cf = false ->
  zlen (content (disk_ cf)) = (current_page_id_ cf + 1) * PAGE_SIZE.
Proof.
  intros Hrep Hd. destruct (fr_clean _ _ Hrep Hd) as (_ & Hw & _). pose proof (fr_id _ _ Hrep).
  apply stored_window in Hw; [|lia]. pose proof (fr_len _ _ Hrep). unfold offset in Hw. lia.
Qed.

Lemma type_size_pos t nullable max_len : 0 < column_page_capacity t nullable max_len ->
  type_size t max_len <> 0.
Proof. unfold column_page_capacity. intros H Hz. rewrite Hz in H. simpl in H. lia. Qed.

Lemma open_rep cf vals path : file_rep cf vals -> current_dirty_ cf = false ->
  exists cf', open_file path (content (disk_ cf)) = Ok cf' /\ file_rep cf' vals /\ same_params cf cf'.
Proof.
  intros Hrep Hd. pose proof (clean_len cf vals Hrep Hd) as Hlen.
  pose proof Hrep as [Hcap Hpos Hb Hid Hnext _ Hrows Hst _ Hcur Hcl _ _ _]. specialize (Hcl Hd).
  unfold open_file. rewrite (disk_open_same (disk_ cf) (current_page_id_ cf + 1) Hnext Hlen).
  unfold page_count. rewrite Hnext. rewrite (proj2 (Z.eqb_neq _ _)) by lia.
  replace (current_page_id_ cf + 1 - 1) with (current_page_id_ cf) by lia.
  destruct (stored_read _ _ _ _ _ _ page_init Hcl page_init_wf) as (out & Hrd & Hpid & Hdata & Hp).
  rewrite Hrd. rewrite (cp_type_rep _ _ _ _ _ Hp), (cp_nullable_rep _ _ _ _ _ Hp),
    (pr_cap _ _ _ _ _ Hp), (pr_max_len _ _ _ _ _ Hp), <- Hcap.
  rewrite (proj2 (Z.eqb_neq _ _)) by (eapply type_size_pos; rewrite <- Hcap; exact Hpos).
  eexists. split; [reflexivity|]. split; [|by split_and!].
  split; cf_simpl; [exact Hcap|exact Hpos|exact Hb|exact Hid|exact Hnext|rewrite Hlen, PAGE_SIZE_eq; lia
    |exact Hrows|exact Hst| |exact Hp|intros _; exact Hcl|apply new_pool_inv| |].
  - split; [|exact Hpid]. destruct Hcl as (_ & Hw & _). split; rewrite Hdata; [exact Hw|].
    by apply Forall_slice.
  - intros id. reflexivity.
  - intros id s Hs. by rewrite new_pool_table, lookup_empty in Hs.
Qed.

(** ** A new file *)

Lemma create_rep path t nullable max_len : type_named t -> in_u 16 max_len ->
  0 < column_page_capacity t nullable max_len ->
  exists cf, create path [] t nullable max_len = Ok cf /\ file_rep cf [] /\
    type_ cf = t /\ nullable_ cf = nullable /\ max_len_ cf = max_len.
Proof.
  intros Ht Hml Hpos. destruct (geometry_fits t nullable max_len Hml) as (Hc & _).
  unfold create. rewrite (proj2 (Z.eqb_neq _ _)) by (by eapply type_size_pos).
  rewrite (wrap_id 16 (column_page_capacity _ _ _)) by (unfold in_u; lia).
  change (page_count (disk_open []) >? 0) with false. cbv iota.
  set (d0 := mkDisk 1 []). set (p0 := reset page_init 0).
  assert (Hp0 : page_wf p0) by apply page_wf_reset.
  assert (Hid0 : page_id p0 = 0) by (by apply page_id_reset).
  assert (Ha : allocate_page (disk_open []) = (Ok 0, written d0 p0 0)).
  { unfold allocate_page. change (next_page_id_ (disk_open [])) with 0.
    change (mkDisk (wrap 64 (0 + 1)) (content (disk_open []))) with d0. fold p0.
    rewrite (write_written d0 p0 0 Hp0 Hid0) by discriminate. reflexivity. }
  rewrite Ha. set (d1 := written d0 p0 0). fold p0.
  set (p1 := set_payload p0 _).
  assert (Hpl : page_rep t nullable max_len (init (payload p0) t nullable max_len) []).
  { unfold p0. rewrite payload_reset. by apply init_blank_rep. }
  assert (Hp1 : page_wf p1).
  { apply set_payload_wf; [exact Hp0|apply (pr_len _ _ _ _ _ Hpl)|apply (pr_bytes _ _ _ _ _ Hpl)]. }
  assert (Hid1 : page_id p1 = 0) by (unfold p1; by rewrite page_id_set_payload).
  assert (Hpl1 : payload p1 = init (payload p0) t nullable max_len) by (by apply payload_set_payload).
  rewrite (write_written d1 p1 0 Hp1 Hid1) by discriminate.
  eexists. split; [reflexivity|]. split; [|by split_and!].
  assert (Hst : stored (written d1 p1 0) t nullable max_len 0 []).
  { apply written_stored; [exact Hp1|exact Hid1|done|by rewrite Hpl1]. }
  split; cf_simpl; [reflexivity|exact Hpos| |unfold INVALID_PAGE_ID; lia|exact eq_refl|
    |change (zlen []) with 0; lia| |split; [exact Hp1|exact Hid1]| | |apply new_pool_inv| |].
  - apply written_bytes; [exact Hp1|]. apply written_bytes; [exact Hp0|constructor].
  - unfold d1. rewrite !written_zlen by assumption. change (zlen (content d0)) with 0.
    rewrite PAGE_SIZE_eq. lia.
  - intros i Hi. lia.
  - rewrite Hpl1, page_vals_new by (done || lia). exact Hpl.
  - intros _. rewrite page_vals_new by (done || lia). exact Hst.
  - intros id. reflexivity.
  - intros id s Hs. by rewrite new_pool_table, lookup_empty in Hs.
Qed.

(** ** Truncation *)

Section cut.
Context (d : DiskManager) (keep : Z).
Hypothesis Hkeep : 0 <= keep.
Hypothesis Hlen : keep * PAGE_SIZE <= zlen (content d).

Definition cut : DiskManager := mkDisk keep (take (Z.to_nat (keep * PAGE_SIZE)) (content d)).

Lemma truncate_cut : truncate d keep = (Ok tt, cut).
Proof using Hlen.
  unfold truncate, cut. do 2 f_equal.
  replace (zeros _) with (@nil Z); [apply app_nil_r|]. unfold zeros.
  by rewrite Z2Nat.nonpos by lia.
Qed.

Lemma cut_slice id : 0 <= id < keep ->
  slice (offset id) PAGE_SIZE (content cut) = slice (offset id) PAGE_SIZE (content d).
Proof using.
  intros Hid. unfold cut. cbn [content]. unfold slice, offset. rewrite !take_drop_commute, take_take.
  do 2 f_equal. rewrite PAGE_SIZE_eq. lia.
Qed.

Lemma cut_stored t nullable max_len id vs : 0 <= id < keep ->
  stored d t nullable max_len id vs -> stored cut t nullable max_len id vs.
Proof using.
  intros Hid (_ & Hs). unfold stored. rewrite cut_slice by exact Hid. split; [apply Hid|exact Hs].
Qed.

Lemma cut_bytes : Forall is_byte (content d) -> Forall is_byte (content cut).
Proof using. intros. by apply Forall_take. Qed.

Lemma cut_zlen : zlen (content cut) = keep * PAGE_SIZE.
Proof using Hkeep Hlen.
  unfold cut. cbn [content]. unfold zlen in *. rewrite length_take. rewrite PAGE_SIZE_eq in *. lia.
Qed.
End cut.

Section take_vals.
Context (cap : Z) (vals : list Value) (n i : Z).
Hypothesis Hcap : 0 < cap.
Hypothesis Hi : 0 <= i.
Hypothesis Hn : 0 <= n <= zlen vals.

Lemma page_vals_take_full : (i + 1) * cap <= n ->
  page_vals cap (take (Z.to_nat n) vals) i = page_vals cap vals i.
Proof using Hcap Hi Hn.
  intros H. unfold page_vals, slice. rewrite !take_drop_commute, take_take. do 2 f_equal. nia.
Qed.

Lemma page_vals_take_last : i * cap <= n <= (i + 1) * cap ->
  page_vals cap (take (Z.to_nat n) vals) i = take (Z.to_nat (n - i * cap)) (page_vals cap vals i).
Proof using Hcap Hi Hn.
  intros H. unfold page_vals, slice. rewrite take_take, !take_drop_commute, take_take. do 2 f_equal. nia.
Qed.
End take_vals.

(** The page arithmetic of [truncate]. *)
Lemma keep_pages cap n : 0 < cap <= 8136 -> 0 <= n ->
  let remaining := wrap 16 (n mod cap) in
  let exact := (remaining =? 0) && (n >? 0) in
  let keep := Z.max (if exact then n / cap else n / cap + 1) 1 in
  let needed := if exact then cap else remaining in
  1 <= keep /\ (keep = 1 \/ (keep - 1) * cap < n) /\ n <= keep * cap /\ needed = n - (keep - 1) * cap.
Proof.
  intros Hcap Hn. cbv zeta. pose proof (Z.div_mod n cap). pose proof (Z.mod_pos_bound n cap).
  pose proof (Z.div_pos n cap). rewrite wrap_id by (unfold in_u; lia).
  destruct (Z.eqb_spec (n mod cap) 0), (Z.gtb_spec n 0); simpl; [|nia..].
  assert (1 <= n / cap) by nia. nia.
Qed.

(** A clean file whose pages are all stored represents its column. *)
Lemma stored_file_rep d t nullable max_len cap page last vals :
  cap = column_page_capacity t nullable max_len -> 0 < cap -> Forall is_byte (content d) ->
  0 <= last < INVALID_PAGE_ID -> next_page_id_ d = last + 1 ->
  zlen (content d) = (last + 1) * PAGE_SIZE -> last * cap <= zlen vals <= (last + 1) * cap ->
  (forall i, 0 <= i <= last -> stored d t nullable max_len i (page_vals cap vals i)) ->
  page_wf page -> page_id page = last ->
  page_rep t nullable max_len (payload page) (page_vals cap vals last) ->
  file_rep (mkCF d new_pool t nullable cap max_len page last false) vals.
Proof.
  intros Hcap Hpos Hb Hid Hnext Hlen Hrows Hst Hwf Hpid Hp.
  split; cf_simpl; [exact Hcap|exact Hpos|exact Hb|exact Hid|exact Hnext|rewrite Hlen, PAGE_SIZE_eq; lia
    |exact Hrows| |split; [exact Hwf|exact Hpid]|exact Hp| |apply new_pool_inv|intros id; reflexivity|].
  - intros i Hi. apply Hst. lia.
  - intros _. apply Hst. lia.
  - intros id s Hs. by rewrite new_pool_table, lookup_empty in Hs.
Qed.

(** The last page of the shortened column, as it is found on the cut disk. *)
Lemma cut_last_page cf vals n last : file_rep cf vals -> current_dirty_ cf = false ->
  0 <= n <= zlen vals -> 0 <= last -> last = 0 \/ last * capacity_ cf < n ->
  let d := cut (disk_ cf) (last + 1) in
  truncate (disk_ cf) (last + 1) = (Ok tt, d) /\ Forall is_byte (content d) /\
  last < INVALID_PAGE_ID /\ zlen (content d) = (last + 1) * PAGE_SIZE /\
  (forall i, 0 <= i < last -> stored d (type_ cf) (nullable_ cf) (max_len_ cf) i
     (page_vals (capacity_ cf) (take (Z.to_nat n) vals) i)) /\
  stored d (type_ cf) (nullable_ cf) (max_len_ cf) last (page_vals (capacity_ cf) vals last) /\
  exists page, read_page d last (current_page_ cf) = (Ok tt, page) /\ page_id page = last /\ page_wf page /\
    page_rep (type_ cf) (nullable_ cf) (max_len_ cf) (payload page) (page_vals (capacity_ cf) vals last).
Proof.
  intros Hrep Hd Hn Hl Hln. cbv zeta. pose proof (clean_len cf vals Hrep Hd) as Hlen.
  pose proof Hrep as [Hcap Hpos Hb Hid Hnext _ Hrows Hst [Hwf Hpid] Hcur Hcl _ _ _]. specialize (Hcl Hd).
  assert (Hle : last <= current_page_id_ cf) by nia.
  assert (Hfit : (last + 1) * PAGE_SIZE <= zlen (content (disk_ cf))) by (rewrite Hlen, PAGE_SIZE_eq; lia).
  assert (Hst' : forall i, 0 <= i <= current_page_id_ cf ->
    stored (disk_ cf) (type_ cf) (nullable_ cf) (max_len_ cf) i (page_vals (capacity_ cf) vals i)).
  { intros i Hi. destruct (decide (i = current_page_id_ cf)) as [->|]; [exact Hcl|apply Hst; lia]. }
  assert (Hlast : stored (cut (disk_ cf) (last + 1)) (type_ cf) (nullable_ cf) (max_len_ cf) last
    (page_vals (capacity_ cf) vals last)) by (apply cut_stored; [lia|apply Hst'; lia]).
  split; [by apply truncate_cut|]. split; [by apply cut_bytes|]. split; [lia|].
  split; [apply cut_zlen; [lia|exact Hfit]|]. split; [|split; [exact Hlast|]].
  - intros i Hi. rewrite page_vals_take_full by nia. apply cut_stored; [lia|apply Hst'; lia].
  - destruct (stored_read _ _ _ _ _ _ (current_page_ cf) Hlast Hwf) as (page & Hrd & Hpg & Hdata & Hp).
    exists page. split; [exact Hrd|]. split; [exact Hpg|]. split; [|exact Hp].
    destruct Hlast as (_ & Hw & _). split; rewrite Hdata; [exact Hw|]. by apply Forall_slice, cut_bytes.
Qed.

Lemma truncate_file_rep cf vals n : file_rep cf vals -> current_dirty_ cf = false -> 0 <= n <= zlen vals ->
  exists cf', cf_truncate cf n = Some (Ok tt, cf') /\ file_rep cf' (take (Z.to_nat n) vals) /\
    same_params cf cf'.
Proof.
  intros Hrep Hd Hn. pose proof (fr_cap _ _ Hrep) as Hcap. pose proof (fr_pos _ _ Hrep) as Hpos.
  destruct (geometry_fits (type_ cf) (nullable_ cf) (max_len_ cf) (pr_ml _ _ _ _ _ (fr_cur _ _ Hrep)))
    as (Hcr & _). rewrite <- Hcap in Hcr.
  destruct (keep_pages (capacity_ cf) n) as (Hk1 & Hkn & Hkn2 & Hneed); [lia|lia|].
  unfold cf_truncate. rewrite (proj2 (Z.eqb_neq _ _)) by lia. cbv zeta.
  set (rem := wrap 16 _) in *. set (ex := (rem =? 0) && _) in *. set (keep := Z.max _ 1) in *.
  assert (Hkeep : exists last, keep = last + 1) by (exists (keep - 1); lia).
  destruct Hkeep as [last Hk]. rewrite Hk in *. clear Hk keep.
  replace (last + 1 - 1) with last in * by lia.
  destruct (cut_last_page cf vals n last Hrep Hd Hn) as (Ht & Hb & Hinv & Hlen & Hst & Hlast & page & Hrd & Hpg & Hwf & Hp);
    [lia|lia|].
  rewrite Ht. cf_simpl. rewrite Hrd. cf_simpl. set (needed := if ex then _ else _) in *.
  assert (Htl : page_vals (capacity_ cf) (take (Z.to_nat n) vals) last =
    take (Z.to_nat needed) (page_vals (capacity_ cf) vals last)).
  { rewrite Hneed. apply page_vals_take_last; lia. }
  assert (Hzt : zlen (take (Z.to_nat n) vals) = n) by (unfold zlen in *; rewrite length_take; lia).
  rewrite (pr_count _ _ _ _ _ Hp).
  destruct (Z.eqb_spec (zlen (page_vals (capacity_ cf) vals last)) needed) as [He|He]; cbn [negb].
  - eexists. split; [reflexivity|]. split; [|by split_and!]. cf_simpl.
    assert (Hall : take (Z.to_nat needed) (page_vals (capacity_ cf) vals last) = page_vals (capacity_ cf) vals last).
    { apply take_ge. unfold zlen in He. lia. }
    rewrite Hall in Htl.
    apply (stored_file_rep (cut (disk_ cf) (last + 1)) (type_ cf) (nullable_ cf) (max_len_ cf)
      (capacity_ cf) page last); try assumption; [lia|reflexivity|lia| |by rewrite Htl].
    intros i Hi. destruct (decide (i = last)) as [->|]; [by rewrite Htl|apply Hst; lia].
  - set (pl := truncate_to (payload page) needed).
    assert (Hpl : page_rep (type_ cf) (nullable_ cf) (max_len_ cf) pl
        (page_vals (capacity_ cf) (take (Z.to_nat n) vals) last)).
    { rewrite Htl. apply truncate_rep; [exact Hp|lia]. }
    set (p1 := set_payload page pl).
    assert (Hw1 : page_wf p1) by (apply set_payload_wf; [exact Hwf|apply (pr_len _ _ _ _ _ Hpl)|apply (pr_bytes _ _ _ _ _ Hpl)]).
    assert (Hid1 : page_id p1 = last) by (unfold p1; by rewrite page_id_set_payload).
    assert (Hpl1 : payload p1 = pl) by (by apply payload_set_payload).
    rewrite (write_written (cut (disk_ cf) (last + 1)) p1 last Hw1 Hid1) by lia. cf_simpl.
    eexists. split; [reflexivity|]. split; [|by split_and!].
    apply (stored_file_rep (written (cut (disk_ cf) (last + 1)) p1 last) (type_ cf) (nullable_ cf)
      (max_len_ cf) (capacity_ cf) p1 last); try assumption;
      [by apply written_bytes|lia|reflexivity| |lia| |by rewrite Hpl1].
    + rewrite written_zlen, Hlen by assumption. lia.
    + intros i Hi. destruct (decide (i = last)) as [->|].
      * apply written_stored; [assumption|assumption|cbn [next_page_id_ cut]; lia|by rewrite Hpl1].
      * apply written_stored_other; [assumption|assumption|lia|lia|apply Hst; lia].
Qed.

(** ** Properties *)

(** [append_bulk] appends exactly the given values to the column the file holds, rotating
    pages as they fill up, and [row_count] is the length of the column. *)
Theorem append_bulk_correct cf vals vs :
  file_rep cf vals -> zlen vals + zlen vs < 2 ^ 63 ->
  Forall (value_fits (type_ cf) (nullable_ cf) (max_len_ cf)) vs ->
  exists cf', append_bulk cf vs = (Ok tt, cf') /\ file_rep cf' (vals ++ vs) /\
    row_count cf' = zlen vals + zlen vs.
Proof.
  intros Hrep Hmax Hfit. destruct (append_bulk_rep vs cf vals Hrep Hmax Hfit) as (cf' & Ha & Hr & _).
  exists cf'. split; [exact Ha|]. split; [exact Hr|]. rewrite (row_count_rep cf' _ Hr); rewrite zlen_app; lia.
Qed.

Lemma append_bulk_correct_witness :
  exists cf cf', file_rep cf [] /\ append_bulk cf [VI32 1; VNull; VI32 (-5)] = (Ok tt, cf') /\ row_count cf' = 3.
Proof.
  destruct (create_rep "c" INT32 true 0) as (cf & _ & Hrep & Ht & Hn & Hm);
    [exact I|unfold in_u; lia|reflexivity|].
  destruct (append_bulk_correct cf [] [VI32 1; VNull; VI32 (-5)] Hrep) as (cf' & Ha & _ & Hc).
  - reflexivity.
  - rewrite Ht, Hn, Hm. repeat constructor; vm_compute; congruence.
  - exists cf, cf'. split; [exact Hrep|]. split; [exact Ha|exact Hc].
Defined.

(** The accessor for the type of a value returns it for its row, and [is_null] reports a
    null; the read goes through the buffer pool and leaves the column as it is. *)
Theorem get_row_correct cf vals j v :
  file_rep cf vals -> 0 <= j -> vals !! Z.to_nat j = Some v ->
  exists cf', cf_reads_as cf j v cf' /\ file_rep cf' vals.
Proof.
  intros Hrep Hj Hv. destruct (get_row_rep cf vals j v Hrep Hj Hv) as (cf' & Hr & Hrep' & _). by exists cf'.
Qed.

Lemma get_row_correct_witness :
  exists cf cf', cf_get_str cf 1 = Some ("b"%string, cf').
Proof.
  destruct (create_rep "c" VARCHAR true 4) as (cf & _ & Hrep & Ht & Hn & Hm);
    [exact I|unfold in_u; lia|reflexivity|].
  destruct (append_bulk_rep [VStr "a"; VStr "b"] cf [] Hrep) as (cf1 & _ & Hr1 & _).
  - reflexivity.
  - rewrite Ht, Hn, Hm. repeat constructor; vm_compute; congruence.
  - destruct (get_row_correct cf1 _ 1 (VStr "b") Hr1) as (cf2 & Hg & _); [lia|reflexivity|].
    exists cf1, cf2. exact Hg.
Defined.

(** C10. Durability: [flush] succeeds, and opening the bytes then on disk gives a file of the
    same type that holds the same column. *)
Theorem flush_open_roundtrip cf vals path :
  file_rep cf vals ->
  exists cf1 cf2, flush cf = (Ok tt, cf1) /\ open_file path (content (disk_ cf1)) = Ok cf2 /\
    file_rep cf2 vals /\ type_ cf2 = type_ cf /\ nullable_ cf2 = nullable_ cf /\ max_len_ cf2 = max_len_ cf.
Proof.
  intros Hrep. destruct (flush_rep cf vals Hrep) as (cf1 & Hf & Hr1 & Hd).
  destruct (open_rep cf1 vals path Hr1 Hd) as (cf2 & Ho & Hr2 & Ht & Hn & Hm & _).
  exists cf1, cf2. split; [exact Hf|]. split; [exact Ho|]. split; [exact Hr2|].
  assert (Hp : same_params cf cf1).
  { revert Hf. unfold flush. destruct (negb _); [intros [= <-]; by split_and!|].
    destruct (write_page _ _) as [[]]; intros [= <-]; by split_and!. }
  destruct Hp as (H1 & H2 & H3 & _). rewrite Ht, Hn, Hm. by split_and!.
Qed.

Lemma flush_open_roundtrip_witness :
  exists cf1 cf2, open_file "c" (content (disk_ cf1)) = Ok cf2 /\ file_rep cf2 [VBool true].
Proof.
  destruct (create_rep "c" BOOL false 0) as (cf & _ & Hrep & Ht & Hn & Hm);
    [exact I|unfold in_u; lia|reflexivity|].
  destruct (append_bulk_rep [VBool true] cf [] Hrep) as (cf0 & _ & Hr0 & _).
  - reflexivity.
  - rewrite Ht, Hn, Hm. repeat constructor; vm_compute; congruence.
  - destruct (flush_open_roundtrip cf0 [VBool true] "c" Hr0) as (cf1 & cf2 & _ & Ho & Hr & _).
    exists cf1, cf2. split; [exact Ho|exact Hr].
Defined.

(** [truncate] to [n] rows of a flushed file keeps exactly the first [n] rows, across
    page boundaries. *)
Theorem column_truncate_correct cf vals n :
  file_rep cf vals -> current_dirty_ cf = false -> 0 <= n <= zlen vals ->
  exists cf', cf_truncate cf n = Some (Ok tt, cf') /\ file_rep cf' (take (Z.to_nat n) vals).
Proof.
  intros Hrep Hd Hn. destruct (truncate_file_rep cf vals n Hrep Hd Hn) as (cf' & Ht & Hr & _). by exists cf'.
Qed.

Lemma column_truncate_correct_witness :
  exists cf cf', cf_truncate cf 1 = Some (Ok tt, cf') /\ file_rep cf' [VI64 3].
Proof.
  destruct (create_rep "c" INT64 false 0) as (cf & _ & Hrep & Ht & Hn & Hm);
    [exact I|unfold in_u; lia|reflexivity|].
  destruct (append_bulk_rep [VI64 3; VI64 4] cf [] Hrep) as (cf0 & _ & Hr0 & _).
  - reflexivity.
  - rewrite Ht, Hn, Hm. repeat constructor; vm_compute; congruence.
  - destruct (flush_rep cf0 _ Hr0) as (cf1 & _ & Hr1 & Hd).
    destruct (column_truncate_correct cf1 [VI64 3; VI64 4] 1 Hr1 Hd) as (cf2 & Hc & Hr2).
    + split; [lia|]. vm_compute. congruence.
    + exists cf1, cf2. split; [exact Hc|exact Hr2].
Defined.

(** [scan] visits every page once, in order, and the views represent the consecutive
    pages of the column. *)
Theorem column_scan_correct {A} (fn : A -> bytes -> A) acc cf vals :
  file_rep cf vals ->
  exists pls cf', scan fn acc cf = Some (Ok (fold_left fn pls acc), cf') /\ file_rep cf' vals /\
    zlen pls = current_page_id_ cf + 1 /\
    forall k pl, pls !! k = Some pl -> page_rep (type_ cf) (nullable_ cf) (max_len_ cf) pl
      (page_vals (capacity_ cf) vals (Z.of_nat k)).
Proof.
  intros Hrep. unfold scan, page_count. pose proof (fr_id _ _ Hrep). rewrite (fr_next _ _ Hrep).
  destruct (scan_pages_rep fn (Z.to_nat (current_page_id_ cf + 1)) 0 acc cf vals Hrep)
    as (pls & cf' & Hs & Hr & _ & Hl & Hall); [lia|lia|].
  exists pls, cf'. split; [exact Hs|]. split; [exact Hr|]. split; [unfold zlen; lia|]. exact Hall.
Qed.

Lemma column_scan_correct_witness :
  exists cf pls cf', scan (fun n pl => n + cp_value_count pl) 0 cf =
    Some (Ok (fold_left (fun n pl => n + cp_value_count pl) pls 0), cf') /\ zlen pls = current_page_id_ cf + 1.
Proof.
  destruct (create_rep "c" INT64 false 0) as (cf & _ & Hrep & _);
    [exact I|unfold in_u; lia|reflexivity|].
  destruct (column_scan_correct (fun n pl => n + cp_value_count pl) 0 cf [] Hrep) as (pls & cf' & Hs & _ & Hl & _).
  exists cf, pls, cf'. split; [exact Hs|exact Hl].
Defined.
