(* ===== verification/IndexFile.v ===== *)
(** * Index files

    Page layouts (src/src/storage/disk/index_page.h) and [IndexFile] (index_file.h,
    index_file.cpp): the file under a B+ tree.  Page 0 is the metadata page; nodes are fetched
    through a buffer pool of 64 frames, changed in the frame and then written to disk.

    An operation is a function of the file ([M]): [None] is undefined behaviour, [Err] the
    error of a [Result].  A [PageHandle] is an index into the pool's slab; [with_handle] is
    the life of a handle, which unpins its page when it goes out of scope, on every exit.
    [write_page] takes the page from the frame, so frame and disk agree afterwards. *)

From S2P Require Import Prelude Types XXHash Page LruK BufferPool.

(** ** index_page.h *)

Definition IDX_PAGE_INTERNAL : Z := 1.
Definition IDX_PAGE_LEAF : Z := 2.
Definition INDEX_PAGE_HDR_SIZE : Z := 8.
Definition INDEX_FILE_MAGIC : Z := 0x4958594E.
Definition IDX_FLAG_IS_ROOT : Z := 1.

Record IndexColSpec : Type := mkSpec { is_type : TypeId; is_reserved : Z; is_max_len : Z }.

Definition index_col_bytes (t : TypeId) (max_len : Z) : Z := 1 + type_size t max_len.

Definition index_node_capacity (key_size : Z) : Z :=
  let avail := PAGE_PAYLOAD_SIZE - INDEX_PAGE_HDR_SIZE - 8 in
  let n := avail / (key_size + 8) in
  if n >? 65535 then 65535 else n.

(** Fields of [IndexPageHeader] at the start of a payload. *)
Definition hdr_page_type (pl : bytes) : Z := le_val (slice 0 1 pl).
Definition hdr_flags (pl : bytes) : Z := le_val (slice 1 1 pl).
Definition hdr_entry_count (pl : bytes) : Z := le_val (slice 2 2 pl).
Definition hdr_capacity (pl : bytes) : Z := le_val (slice 4 2 pl).

Definition set_hdr_page_type (pl : bytes) (v : Z) : bytes := splice 0 (le_bytes 1 v) pl.
Definition set_hdr_flags (pl : bytes) (v : Z) : bytes := splice 1 (le_bytes 1 v) pl.
Definition set_hdr_entry_count (pl : bytes) (v : Z) : bytes := splice 2 (le_bytes 2 v) pl.
Definition set_hdr_capacity (pl : bytes) (v : Z) : bytes := splice 4 (le_bytes 2 v) pl.

(** The four assignments that fill the header of a new node. *)
Definition init_hdr (pl : bytes) (page_type flags entry_count capacity : Z) : bytes :=
  let pl := set_hdr_page_type pl page_type in
  let pl := set_hdr_flags pl flags in
  let pl := set_hdr_entry_count pl entry_count in
  set_hdr_capacity pl capacity.

(** [IndexFileMeta], the column specs and the column indices of the metadata page. *)
Definition META_SIZE : Z := 24.
Definition spec_bytes (s : IndexColSpec) : bytes :=
  le_bytes 1 (type_code (is_type s)) ++ le_bytes 1 (is_reserved s) ++ le_bytes 2 (is_max_len s).

Definition spec_at (pl : bytes) (i : Z) : IndexColSpec :=
  let o := META_SIZE + i * 4 in
  mkSpec (type_of_code (znth pl o)) (znth pl (o + 1)) (le_val (slice (o + 2) 2 pl)).

(** ** The file *)

Definition INDEX_POOL_CAPACITY : Z := 64.

Record IndexFile : Type := mkIdx {
  idx_disk : DiskManager;
  idx_pool : BufferPool LRUKReplacer;
  cols_ : list IndexColSpec;
  col_indices_ : list Z;
  is_unique_ : bool;
  root_page_id_ : Z;
  entry_count_ : Z;
  dirty_ : bool;
  key_size_ : Z;
  node_capacity : Z;
  meta_page_ : Page
}.

Definition idx_new_pool : BufferPool LRUKReplacer := lruk_pool INDEX_POOL_CAPACITY 2.

Definition set_idx_disk (f : IndexFile) (d : DiskManager) : IndexFile :=
  mkIdx d (idx_pool f) (cols_ f) (col_indices_ f) (is_unique_ f) (root_page_id_ f)
    (entry_count_ f) (dirty_ f) (key_size_ f) (node_capacity f) (meta_page_ f).
Definition set_idx_pool (f : IndexFile) (p : BufferPool LRUKReplacer) : IndexFile :=
  mkIdx (idx_disk f) p (cols_ f) (col_indices_ f) (is_unique_ f) (root_page_id_ f)
    (entry_count_ f) (dirty_ f) (key_size_ f) (node_capacity f) (meta_page_ f).
Definition set_idx_meta (f : IndexFile) (m : Page) : IndexFile :=
  mkIdx (idx_disk f) (idx_pool f) (cols_ f) (col_indices_ f) (is_unique_ f) (root_page_id_ f)
    (entry_count_ f) (dirty_ f) (key_size_ f) (node_capacity f) m.

(** [set_root_page_id], [set_entry_count] and the assignment to [dirty_]. *)
Definition with_root (f : IndexFile) (id : Z) : IndexFile :=
  mkIdx (idx_disk f) (idx_pool f) (cols_ f) (col_indices_ f) (is_unique_ f) id
    (entry_count_ f) (dirty_ f) (key_size_ f) (node_capacity f) (meta_page_ f).
Definition with_count (f : IndexFile) (n : Z) : IndexFile :=
  mkIdx (idx_disk f) (idx_pool f) (cols_ f) (col_indices_ f) (is_unique_ f) (root_page_id_ f)
    n (dirty_ f) (key_size_ f) (node_capacity f) (meta_page_ f).
Definition with_dirty (f : IndexFile) (b : bool) : IndexFile :=
  mkIdx (idx_disk f) (idx_pool f) (cols_ f) (col_indices_ f) (is_unique_ f) (root_page_id_ f)
    (entry_count_ f) b (key_size_ f) (node_capacity f) (meta_page_ f).

(** ** Operations on a file *)

Definition M (A : Type) : Type := IndexFile -> option (result A * IndexFile).

#[export] Instance M_ret : MRet M := fun A a f => Some (Ok a, f).
#[export] Instance M_bind : MBind M := fun A B k m f =>
  match m f with
  | None => None
  | Some (Err e, f) => Some (Err e, f)
  | Some (Ok a, f) => k a f
  end.

Definition fail {A} (e : string) : M A := fun f => Some (Err e, f).
Definition undefined {A} : M A := fun _ => None.
Definition gets {A} (g : IndexFile -> A) : M A := fun f => Some (Ok (g f), f).
Definition modify (g : IndexFile -> IndexFile) : M unit := fun f => Some (Ok tt, g f).
Definition ensure (b : bool) : M unit := if b then mret tt else undefined.

Definition set_root_page_id (id : Z) : M unit := modify (fun f => with_root f id).
Definition set_entry_count (n : Z) : M unit := modify (fun f => with_count f n).

Definition idx_reserve_page_id : M Z := fun f =>
  let '(id, d) := reserve_page_id (idx_disk f) in Some (Ok id, set_idx_disk f d).

Definition idx_write_page (page : Page) : M unit := fun f =>
  let '(r, d) := write_page (idx_disk f) page in Some (r, set_idx_disk f d).

(** [fetch_page(id)], the use [body] of the handle, and the handle's destructor. *)
Definition with_handle {A} (id : Z) (body : nat -> M A) : M A := fun f =>
  let! (p, pool) := fetch_page (idx_disk f) (idx_pool f) id in
  let f := set_idx_pool f pool in
  match p with
  | Err e => Some (Err e, f)
  | Ok h =>
      let! (r, f) := body h f in
      let! (_, pool) := unpin_page (idx_pool f) id in
      Some (r, set_idx_pool f pool)
  end.

(** The page behind a handle, and a change of its payload in place. *)
Definition deref (h : nat) : M Page := fun f =>
  let! pg := slab_ (idx_pool f) !! h in Some (Ok pg, f).

Definition assign (h : nat) (pl : bytes) : M unit := fun f =>
  let bp := idx_pool f in
  let! pg := slab_ bp !! h in
  Some (Ok tt, set_idx_pool f
    (mkPool (<[h := set_payload pg pl]> (slab_ bp)) (fresh_slots_ bp) (fresh_free_ bp)
       (page_free_ bp) (page_table_ bp) (replacer_ bp))).

Definition write_meta_page_ : M unit := fun f =>
  let pl := payload (meta_page_ f) in
  let pl := splice 4 (le_bytes 1 (if dirty_ f then 1 else 0)) pl in
  let pl := splice 8 (le_bytes 8 (root_page_id_ f)) pl in
  let pl := splice 16 (le_bytes 8 (entry_count_ f)) pl in
  let f := set_idx_meta f (set_payload (meta_page_ f) pl) in
  idx_write_page (meta_page_ f) f.

Definition set_dirty (b : bool) : M unit :=
  modify (fun f => with_dirty f b) ≫= fun _ => write_meta_page_.

(** [fsync] does not change the modelled state. *)
Definition idx_flush : M unit := set_dirty false.

Definition reset_tree : M unit := fun f =>
  let '(r, d) := truncate (idx_disk f) 1 in
  let f := set_idx_disk f d in
  match r with
  | Err e => Some (Err e, f)
  | Ok _ =>
      let f := with_dirty (with_count (with_root f 0) 0) false in
      write_meta_page_ (set_idx_pool f idx_new_pool)
  end.

Definition allocate_node (type : Z) : M Z :=
  id ← idx_reserve_page_id;
  cap ← gets node_capacity;
  let page := reset page_init id in
  let pl := init_hdr (payload page) type 0 0 cap in
  let pl := splice 6 (le_bytes 1 0) (splice 7 (le_bytes 1 0) pl) in
  let pl := if type =? IDX_PAGE_LEAF
            then splice INDEX_PAGE_HDR_SIZE (le_bytes 8 INVALID_PAGE_ID) pl else pl in
  _ ← idx_write_page (set_payload page pl);
  mret id.

(** ** Creating and opening *)

Definition compute_key_size (cols : list IndexColSpec) : Z :=
  fold_left (fun ks c => ks + index_col_bytes (is_type c) (is_max_len c)) cols 0.

(** The payload of the metadata page of a new file. *)
Definition meta_payload (pl : bytes) (cols : list IndexColSpec) (col_indices : list Z)
    (is_unique : bool) : bytes :=
  let pl := splice 0 (le_bytes 4 INDEX_FILE_MAGIC) pl in
  let pl := splice 4 (le_bytes 1 0) pl in
  let pl := splice 5 (le_bytes 1 (if is_unique then 1 else 0)) pl in
  let pl := splice 6 (le_bytes 1 (zlen cols)) pl in
  let pl := splice 7 (le_bytes 1 0) pl in
  let pl := splice 8 (le_bytes 8 0) pl in
  let pl := splice 16 (le_bytes 8 0) pl in
  let pl := splice META_SIZE (concat (map spec_bytes cols)) pl in
  splice (META_SIZE + zlen cols * 4) col_indices pl.

(** [None] when the column specs do not fit in the metadata page. *)
Definition idx_create (file : bytes) (cols : list IndexColSpec) (col_indices : list Z)
    (is_unique : bool) : option (result IndexFile) :=
  if zlen cols =? 0 then Some (Err "IndexFile::create: no columns")
  else if negb (zlen col_indices =? zlen cols) then
    Some (Err "IndexFile::create: col_indices size mismatch")
  else
    let key_size := compute_key_size cols in
    if key_size =? 0 then Some (Err "IndexFile::create: zero key size (unsupported type?)")
    else
      let capacity := index_node_capacity key_size in
      if capacity =? 0 then
        Some (Err "IndexFile::create: key size too large for a single page")
      else
        let disk := disk_open file in
        if page_count disk >? 0 then Some (Err "IndexFile::create: file already exists")
        else
          let '(meta_id, disk) := reserve_page_id disk in
          let meta := reset page_init meta_id in
          if META_SIZE + zlen cols * 5 >? PAGE_PAYLOAD_SIZE then None
          else
            let meta := set_payload meta (meta_payload (payload meta) cols col_indices is_unique) in
            let '(wr, disk) := write_page disk meta in
            match wr with
            | Err e => Some (Err e)
            | Ok _ => Some (Ok (mkIdx disk idx_new_pool cols col_indices is_unique 0 0 false
                                  key_size capacity meta))
            end.

Definition idx_open (file : bytes) : result IndexFile :=
  let disk := disk_open file in
  if page_count disk =? 0 then Err "IndexFile::open: file is empty"
  else
    let '(rd, meta) := read_page disk 0 page_init in
    let? _ := rd in
    let m := payload meta in
    if negb (le_val (slice 0 4 m) =? INDEX_FILE_MAGIC) then Err "IndexFile::open: bad magic"
    else
      let col_count := znth m 6 in
      let cols := map (fun i => spec_at m (Z.of_nat i)) (seq 0 (Z.to_nat col_count)) in
      let col_indices := slice (META_SIZE + col_count * 4) col_count m in
      let key_size := compute_key_size cols in
      Ok (mkIdx disk idx_new_pool cols col_indices (negb (znth m 5 =? 0))
            (le_val (slice 8 8 m)) (le_val (slice 16 8 m)) (negb (znth m 4 =? 0))
            key_size (index_node_capacity key_size) meta).

(** ** The pages an index file holds *)

(** Pins held by the live handles [held], one for each occurrence. *)
Definition count (held : list Z) (id : Z) : Z := Z.of_nat (count_occ Z.eq_dec held id).

(** What the metadata page says of the columns, which never changes. *)
Definition meta_static (cols : list IndexColSpec) (col_indices : list Z) (is_unique : bool) (pl : bytes) : Prop :=
  slice 0 4 pl = le_bytes 4 INDEX_FILE_MAGIC /\
  slice 5 2 pl = [if is_unique then 1 else 0; zlen cols] /\
  slice META_SIZE (zlen cols * 5) pl = concat (map spec_bytes cols) ++ col_indices /\
  zlen col_indices = zlen cols /\ zlen cols < 256.

Lemma meta_static_keep cols cis u pl dirty root n : zlen pl = PAGE_PAYLOAD_SIZE -> meta_static cols cis u pl ->
  meta_static cols cis u (splice 16 (le_bytes 8 n) (splice 8 (le_bytes 8 root) (splice 4 (le_bytes 1 dirty) pl))).
Proof.
  intros Hl (H1 & H2 & H3 & H4 & H5). pose proof (zlen_nonneg cols).
  assert (Hp : 24 + zlen cols * 5 <= zlen pl) by (rewrite Hl; unfold PAGE_PAYLOAD_SIZE, PAGE_HEADER_SIZE; rewrite PAGE_SIZE_eq; lia).
  assert (Z1 : zlen (splice 4 (le_bytes 1 dirty) pl) = zlen pl) by (apply zlen_splice; rewrite ?zlen_le_bytes; lia).
  assert (Z2 : zlen (splice 8 (le_bytes 8 root) (splice 4 (le_bytes 1 dirty) pl)) = zlen pl)
    by (rewrite zlen_splice; rewrite ?zlen_le_bytes; lia).
  unfold meta_static, META_SIZE in *. rewrite <- H1, <- H2, <- H3.
  rewrite !slice_splice_before by (rewrite ?Z2, ?Z1; lia). rewrite !slice_splice_after by (rewrite ?zlen_le_bytes, ?Z2, ?Z1; lia).
  by split_and!.
Qed.

(** The file is made of whole pages, all of them given out. *)
Definition whole_pages (d : DiskManager) : Prop :=
  exists k, zlen (content d) = k * PAGE_SIZE /\ k <= next_page_id_ d.

(** The node pages [P] are on disk; only they are cached; the live handles are [held]. *)
Record idx_rep (held : list Z) (f : IndexFile) (P : gmap Z bytes) : Prop := {
  ir_bytes : Forall is_byte (content (idx_disk f));
  ir_next : 1 <= next_page_id_ (idx_disk f) < INVALID_PAGE_ID;
  ir_pages : forall id pl, P !! id = Some pl -> 1 <= id /\ page_on (idx_disk f) id pl;
  ir_pool : pool_inv_busy None INDEX_POOL_CAPACITY (idx_disk f) (idx_pool f);
  ir_pins : forall id, pins (idx_pool f) id = count held id;
  ir_cached : forall id s, page_table_ (idx_pool f) !! id = Some s -> is_Some (P !! id);
  ir_meta : page_wf (meta_page_ f) /\ page_id (meta_page_ f) = 0 /\
    meta_static (cols_ f) (col_indices_ f) (is_unique_ f) (payload (meta_page_ f));
  ir_size : whole_pages (idx_disk f)
}.

(** Handle [h] is the frame of page [id], with payload [pl]. *)
Definition handle (f : IndexFile) (h : nat) (id : Z) (pl : bytes) : Prop :=
  exists s pg, pinned_at (idx_pool f) id s h pg /\ payload pg = pl.

Lemma page_on_inj d id pl pl' : page_on d id pl -> page_on d id pl' -> pl = pl'.
Proof. intros (_ & _ & _ & <-) (_ & _ & _ & <-). done. Qed.

Lemma page_on_payload d id pl : Forall is_byte (content d) -> page_on d id pl ->
  zlen pl = PAGE_PAYLOAD_SIZE /\ Forall is_byte pl.
Proof.
  intros Hb (_ & Hl & _ & <-). split.
  - unfold zlen in *. rewrite length_drop. unfold PAGE_PAYLOAD_SIZE, PAGE_HEADER_SIZE in *. rewrite PAGE_SIZE_eq in *. lia.
  - by apply Forall_drop, Forall_slice.
Qed.

Lemma page_on_read d id pl out : page_on d id pl -> page_wf out -> exists out', read_page d id out = (Ok tt, out').
Proof.
  intros (Hlt & Hlen & [Hid Hck] & _) Hwf. exists (set_data out (slice (offset id) PAGE_SIZE (content d))).
  apply read_page_ok_iff; [exact Hwf|]. cbv zeta. rewrite pread_slice.
  split; [exact Hlt|]. split; [exact Hlen|]. split; [reflexivity|]. split; [exact Hid|exact Hck].
Qed.

Section store.
Context (held : list Z) (f : IndexFile) (P : gmap Z bytes).
Hypothesis Hrep : idx_rep held f P.

Lemma rep_page id pl : P !! id = Some pl ->
  zlen pl = PAGE_PAYLOAD_SIZE /\ Forall is_byte pl /\ 1 <= id < next_page_id_ (idx_disk f).
Proof using Hrep.
  intros Hp. destruct (ir_pages _ _ _ Hrep _ _ Hp) as [H1 Hon].
  destruct (page_on_payload _ _ _ (ir_bytes _ _ _ Hrep) Hon). destruct Hon as [? _]. auto.
Qed.

(** Fewer live handles than frames: a page can always be fetched. *)
Lemma not_exhausted : zlen held < INDEX_POOL_CAPACITY -> ~ all_pinned (idx_pool f).
Proof using Hrep.
  intros Hh Hall. destruct (all_pinned_pages _ _ _ (ir_pool _ _ _ Hrep) Hall) as (ids & Hnd & Hl & Hp).
  assert (Hsub : ids ⊆+ held).
  { apply NoDup_submseteq; [done|]. intros id Hid. rewrite Forall_forall in Hp. specialize (Hp id Hid).
    rewrite (ir_pins _ _ _ Hrep) in Hp. unfold count in Hp. apply list_elem_of_In, (count_occ_In Z.eq_dec). lia. }
  apply submseteq_length in Hsub. unfold zlen in *. lia.
Qed.

Lemma fetch_rep id pl : P !! id = Some pl -> zlen held < INDEX_POOL_CAPACITY ->
  exists h pool, fetch_page (idx_disk f) (idx_pool f) id = Some (Ok h, pool) /\
    idx_rep (id :: held) (set_idx_pool f pool) P /\ handle (set_idx_pool f pool) h id pl.
Proof using Hrep.
  intros Hp Hh. destruct (ir_pages _ _ _ Hrep _ _ Hp) as [Hid Hon].
  pose proof (ir_pool _ _ _ Hrep) as Hinv. pose proof (ir_pins _ _ _ Hrep) as Hpins.
  assert (Hmax : pins (idx_pool f) id < INT_MAX).
  { rewrite Hpins. unfold count, INT_MAX. pose proof (count_occ_bound Z.eq_dec id held).
    unfold zlen, INDEX_POOL_CAPACITY in *. lia. }
  destruct (fetch_page_ok INDEX_POOL_CAPACITY (idx_disk f) (ir_bytes _ _ _ Hrep) (idx_pool f) id Hinv)
    as (res & pool & Hf & Hinv' & Hoth & Hres); [lia|done|].
  destruct res as [h|e].
  - destruct Hres as (s & pg & Hpin & Hc & Hcount). exists h, pool. split; [exact Hf|].
    assert (Hpid : page_id pg = id) by apply Hpin. split.
    + split; cbn [idx_disk idx_pool meta_page_ set_idx_pool];
        [apply (ir_bytes _ _ _ Hrep)|apply (ir_next _ _ _ Hrep)|apply (ir_pages _ _ _ Hrep)|exact Hinv'| | |apply (ir_meta _ _ _ Hrep)|apply (ir_size _ _ _ Hrep)].
      * intros id'. destruct (decide (id' = id)) as [->|Hne].
        -- rewrite Hpins in Hcount. transitivity (count held id + 1).
           ++ apply (pins_pos INDEX_POOL_CAPACITY (idx_disk f)); [exact Hinv'|unfold count; lia|]. by exists s, h, pg.
           ++ unfold count. rewrite count_occ_cons_eq by done. lia.
        -- rewrite (pins_ext INDEX_POOL_CAPACITY (idx_disk f) (idx_pool f) pool);
             [|exact Hinv|exact Hinv'|intros; by apply Hoth].
           rewrite Hpins. unfold count. by rewrite count_occ_cons_neq by congruence.
      * intros id' s' Ht. destruct (fetch_page_table _ _ _ _ _ _ _ Hf Ht) as [->|Ht']; [by exists pl|].
        by apply (ir_cached _ _ _ Hrep id' s').
    + exists s, pg. split; [exact Hpin|]. destruct Hc as [_ Hc]. rewrite Hpid in Hc. by apply (page_on_inj _ _ _ _ Hc).
  - exfalso. destruct Hres as (_ & _ & [Hall|(out & e' & Hwf & Herr)]).
    + by apply not_exhausted.
    + destruct (page_on_read _ _ _ out Hon Hwf) as (out' & Hrd). by rewrite Hrd in Herr.
Qed.
End store.

Lemma unpin_rep held f P id : idx_rep (id :: held) f P ->
  exists r pool, unpin_page (idx_pool f) id = Some (r, pool) /\ idx_rep held (set_idx_pool f pool) P.
Proof.
  intros Hrep. pose proof (ir_pool _ _ _ Hrep) as Hinv. pose proof (ir_pins _ _ _ Hrep) as Hpins.
  destruct (unpin_page_ok INDEX_POOL_CAPACITY (idx_disk f) (idx_pool f) id Hinv)
    as (r & pool & Hu & Hinv' & Hoth & Hr).
  exists r, pool. split; [exact Hu|].
  split; cbn [idx_disk idx_pool meta_page_ set_idx_pool];
    [apply (ir_bytes _ _ _ Hrep)|apply (ir_next _ _ _ Hrep)|apply (ir_pages _ _ _ Hrep)|exact Hinv'| | |apply (ir_meta _ _ _ Hrep)|apply (ir_size _ _ _ Hrep)].
  - intros id'. destruct (decide (id' = id)) as [->|Hne].
    + assert (Hc : count (id :: held) id = count held id + 1).
      { unfold count. rewrite count_occ_cons_eq by done. lia. }
      rewrite Hpins in Hr. destruct r; [lia|]. unfold count in *. lia.
    + rewrite (pins_ext INDEX_POOL_CAPACITY (idx_disk f) (idx_pool f) pool);
        [|exact Hinv|exact Hinv'|intros; by apply Hoth].
      rewrite Hpins. unfold count. by rewrite count_occ_cons_neq by congruence.
  - intros id' s'. rewrite (unpin_page_table _ _ _ _ Hu). apply (ir_cached _ _ _ Hrep).
Qed.

(** The life of a handle around an operation on its page. *)
Lemma with_handle_rep {A} held f P id pl (body : nat -> M A) (Q : result A -> IndexFile -> gmap Z bytes -> Prop) :
  idx_rep held f P -> P !! id = Some pl -> zlen held < INDEX_POOL_CAPACITY ->
  (forall h pool, idx_rep (id :: held) (set_idx_pool f pool) P -> handle (set_idx_pool f pool) h id pl ->
    exists r f2 P2, body h (set_idx_pool f pool) = Some (r, f2) /\ idx_rep (id :: held) f2 P2 /\ Q r f2 P2) ->
  exists r f2 P2 pool, with_handle id body f = Some (r, set_idx_pool f2 pool) /\
    idx_rep held (set_idx_pool f2 pool) P2 /\ Q r f2 P2.
Proof.
  intros Hrep Hp Hh Hbody. destruct (fetch_rep held f P Hrep id pl Hp Hh) as (h & pool & Hf & Hrep1 & Hhandle).
  destruct (Hbody h pool Hrep1 Hhandle) as (r & f2 & P2 & Hb & Hrep2 & HQ).
  destruct (unpin_rep held f2 P2 id Hrep2) as (r' & pool2 & Hu & Hrep3).
  exists r, f2, P2, pool2. split; [|done]. unfold with_handle. rewrite Hf, Hb, Hu. done.
Qed.

Lemma deref_rep f h id pl : handle f h id pl -> exists pg, deref h f = Some (Ok pg, f) /\ payload pg = pl.
Proof. intros (s & pg & (_ & _ & Hs & _) & Hpl). exists pg. unfold deref. by rewrite Hs. Qed.

(** ** Writing *)

(** A change of the page behind a handle, and [write_page] of the page. *)
Definition store_page (h : nat) (pl : bytes) : M unit :=
  _ ← assign h pl; pg ← deref h; idx_write_page pg.

(** A new page with the given payload, written without going through the pool. *)
Definition write_new (id : Z) (pl : bytes) : M unit := idx_write_page (set_payload (reset page_init id) pl).

(** The state besides disk and pool. *)
Definition fields (f : IndexFile) :=
  (cols_ f, col_indices_ f, is_unique_ f, root_page_id_ f, entry_count_ f, dirty_ f, key_size_ f,
   node_capacity f, meta_page_ f).

Definition idx_next (f : IndexFile) : Z := next_page_id_ (idx_disk f).

Lemma fields_with f f' id n b : fields f' = fields f ->
  fields (with_root f' id) = fields (with_root f id) /\ fields (with_count f' n) = fields (with_count f n) /\
  fields (with_dirty f' b) = fields (with_dirty f b).
Proof. unfold fields. cbn. intros [=]. repeat split; congruence. Qed.

Lemma id_valid id d : 1 <= id < next_page_id_ d -> next_page_id_ d < INVALID_PAGE_ID -> id <> INVALID_PAGE_ID.
Proof. lia. Qed.

Lemma written_pages d pg id (P : gmap Z bytes) : page_wf pg -> page_id pg = id -> 1 <= id < next_page_id_ d ->
  (forall id pl, P !! id = Some pl -> 1 <= id /\ page_on d id pl) ->
  forall id' pl, <[id := payload pg]> P !! id' = Some pl -> 1 <= id' /\ page_on (written d pg id) id' pl.
Proof.
  intros Hwf Hid Hr HP id' pl Hl. apply lookup_insert_Some in Hl as [[<- <-]|[Hne Hl]].
  - split; [lia|]. apply written_on; [done|done|lia].
  - destruct (HP _ _ Hl) as [H1 Hon]. split; [done|]. by apply written_on_other; [..|lia|].
Qed.

Lemma written_fits d pg id : page_wf pg -> page_id pg = id -> id < next_page_id_ d ->
  whole_pages d -> whole_pages (written d pg id).
Proof.
  intros Hwf Hid Hlt (k & Hk & Hle). exists (Z.max k (id + 1)). rewrite written_zlen, Hk by done.
  cbn [next_page_id_ written]. rewrite PAGE_SIZE_eq. lia.
Qed.

Section write.
Context (held : list Z) (f : IndexFile) (P : gmap Z bytes).
Hypothesis Hrep : idx_rep held f P.

Lemma store_page_rep h id pl pl' : handle f h id pl -> P !! id = Some pl ->
  zlen pl' = PAGE_PAYLOAD_SIZE -> Forall is_byte pl' ->
  exists f2, store_page h pl' f = Some (Ok tt, f2) /\ idx_rep held f2 (<[id := pl']> P) /\
    handle f2 h id pl' /\ fields f2 = fields f /\ idx_next f2 = idx_next f.
Proof using Hrep.
  intros (s & pg & Hpin & _) HP Hl Hb. pose proof Hpin as (Ht & Hh & Hs & Hid & Hpos).
  destruct (rep_page _ _ _ Hrep _ _ HP) as (_ & _ & Hrange). pose proof (ir_next _ _ _ Hrep) as Hnext.
  pose proof (Forall_lookup_1 _ _ _ _ (pi_wf _ _ _ _ (ir_pool _ _ _ Hrep)) Hs) as Hwf.
  set (pg' := set_payload pg pl').
  assert (Hwf' : page_wf pg') by by apply set_payload_wf.
  assert (Hid' : page_id pg' = id) by (unfold pg'; by rewrite page_id_set_payload).
  assert (Hpl' : payload pg' = pl') by by apply payload_set_payload.
  assert (Hval : id <> INVALID_PAGE_ID) by lia.
  pose proof (write_written (idx_disk f) pg' id Hwf' Hid' Hval) as Hw.
  set (d' := written (idx_disk f) pg' id) in *.
  destruct (write_back_inv INDEX_POOL_CAPACITY (idx_disk f) d' (idx_pool f) id s h pg pg' (ir_pool _ _ _ Hrep) Hpin Hwf' Hid')
    as (Hinv' & Hpins' & Hpin'); [done| | |].
  { split; [lia|]. rewrite Hid'. apply written_on; [done|done|lia]. }
  { intros x [Hx0 Hx] Hne _ _. split; [done|]. by apply written_on_other. }
  exists (set_idx_disk (set_idx_pool f (mkPool (<[h := pg']> (slab_ (idx_pool f))) (fresh_slots_ (idx_pool f))
    (fresh_free_ (idx_pool f)) (page_free_ (idx_pool f)) (page_table_ (idx_pool f)) (replacer_ (idx_pool f)))) d').
  split; [|split; [|split; [|split; reflexivity]]].
  - unfold store_page, mbind, M_bind, assign, deref. rewrite Hs. cbn [idx_pool set_idx_pool slab_].
    rewrite list_lookup_insert_eq by (by eapply lookup_lt_Some). unfold idx_write_page.
    cbn [idx_disk set_idx_pool]. fold pg'. rewrite Hw. reflexivity.
  - split; cbn [idx_disk idx_pool meta_page_ set_idx_pool set_idx_disk].
    + by apply written_bytes; [..|apply (ir_bytes _ _ _ Hrep)].
    + exact Hnext.
    + rewrite <- Hpl'. apply written_pages; [done|done|done|apply (ir_pages _ _ _ Hrep)].
    + exact Hinv'.
    + intros id'. rewrite Hpins'. apply (ir_pins _ _ _ Hrep).
    + intros id' s' Hc. destruct (ir_cached _ _ _ Hrep id' s' Hc) as [x Hx].
      destruct (decide (id' = id)) as [->|]; [rewrite lookup_insert_eq|rewrite lookup_insert_ne by done]; eauto.
    + apply (ir_meta _ _ _ Hrep).
    + apply written_fits; [done|done|lia|apply (ir_size _ _ _ Hrep)].
  - exists s, pg'. split; [exact Hpin'|exact Hpl'].
Qed.

(** A write to a page that is not cached. *)
Lemma write_uncached_rep pg id : page_wf pg -> page_id pg = id -> 1 <= id < idx_next f -> P !! id = None ->
  exists f2, idx_write_page pg f = Some (Ok tt, f2) /\ idx_rep held f2 (<[id := payload pg]> P) /\
    fields f2 = fields f /\ idx_next f2 = idx_next f /\ idx_pool f2 = idx_pool f.
Proof using Hrep.
  intros Hwf Hid Hrange Hnone. pose proof (ir_next _ _ _ Hrep) as Hnext. unfold idx_next in *.
  assert (Hval : id <> INVALID_PAGE_ID) by lia.
  pose proof (write_written (idx_disk f) pg id Hwf Hid Hval) as Hw. eexists.
  split; [unfold idx_write_page; rewrite Hw; reflexivity|]. split; [|by split_and!].
  split; cbn [idx_disk idx_pool meta_page_ set_idx_disk].
  - by apply written_bytes; [..|apply (ir_bytes _ _ _ Hrep)].
  - exact Hnext.
  - apply written_pages; [done|done|done|apply (ir_pages _ _ _ Hrep)].
  - apply (pool_inv_disk _ (idx_disk f)); [apply (ir_pool _ _ _ Hrep)|]. intros x [Hx0 Hx] [s Hs] _.
    split; [done|]. apply written_on_other; try done. intros He. rewrite He in Hs.
    destruct (ir_cached _ _ _ Hrep _ _ Hs). congruence.
  - apply (ir_pins _ _ _ Hrep).
  - intros id' s' Hc. destruct (ir_cached _ _ _ Hrep id' s' Hc) as [x Hx].
    rewrite lookup_insert_ne; [eauto|]. intros ->. congruence.
  - apply (ir_meta _ _ _ Hrep).
  - apply written_fits; [done|done|lia|apply (ir_size _ _ _ Hrep)].
Qed.

Lemma write_new_rep id pl : 1 <= id < idx_next f -> P !! id = None -> zlen pl = PAGE_PAYLOAD_SIZE -> Forall is_byte pl ->
  exists f2, write_new id pl f = Some (Ok tt, f2) /\ idx_rep held f2 (<[id := pl]> P) /\
    fields f2 = fields f /\ idx_next f2 = idx_next f /\ idx_pool f2 = idx_pool f.
Proof using Hrep.
  intros Hid Hn Hl Hb. pose proof (page_wf_reset page_init id) as Hw. pose proof (ir_next _ _ _ Hrep) as Hnext.
  pose proof (payload_set_payload (reset page_init id) pl Hw) as Hp.
  destruct (write_uncached_rep (set_payload (reset page_init id) pl) id) as (f2 & Hwr & Hr & Hrest);
    [by apply set_payload_wf| |done|done|].
  - rewrite page_id_set_payload by done. apply page_id_reset. unfold idx_next, INVALID_PAGE_ID, in_u in *. lia.
  - rewrite Hp in Hr. by exists f2.
Qed.

Lemma reserve_rep : idx_next f + 1 < INVALID_PAGE_ID ->
  exists f2, idx_reserve_page_id f = Some (Ok (idx_next f), f2) /\ idx_rep held f2 P /\ P !! idx_next f = None /\
    fields f2 = fields f /\ idx_next f2 = idx_next f + 1 /\ idx_pool f2 = idx_pool f.
Proof using Hrep.
  intros Hb. pose proof (ir_next _ _ _ Hrep) as Hnext. unfold idx_next in *.
  assert (Hw : wrap 64 (next_page_id_ (idx_disk f) + 1) = next_page_id_ (idx_disk f) + 1)
    by (apply wrap_id; unfold in_u, INVALID_PAGE_ID in *; lia).
  eexists. split; [reflexivity|]. cbn [idx_disk set_idx_disk next_page_id_ reserve_page_id]. rewrite Hw.
  assert (Hon : forall id pl, page_on (idx_disk f) id pl ->
    page_on (mkDisk (next_page_id_ (idx_disk f) + 1) (content (idx_disk f))) id pl).
  { intros id pl (H1 & H2). split; [cbn; lia|exact H2]. }
  split; [|split; [|by split_and!]].
  - split; cbn [idx_disk idx_pool meta_page_ set_idx_disk next_page_id_ content];
      [apply (ir_bytes _ _ _ Hrep)|lia| | |apply (ir_pins _ _ _ Hrep)|apply (ir_cached _ _ _ Hrep)|apply (ir_meta _ _ _ Hrep)|].
    + intros id pl Hp. destruct (ir_pages _ _ _ Hrep _ _ Hp). auto.
    + apply (pool_inv_disk _ (idx_disk f)); [apply (ir_pool _ _ _ Hrep)|]. intros x [Hx0 Hx] _ _. split; auto.
    + destruct (ir_size _ _ _ Hrep) as (k & Hk & Hle). exists k. split; [exact Hk|]. cbn [next_page_id_]. lia.
  - destruct (P !! next_page_id_ (idx_disk f)) eqn:Hp; [|done].
    destruct (rep_page _ _ _ Hrep _ _ Hp) as (_ & _ & ?). lia.
Qed.

(** A change of the fields alone. *)
Lemma fields_rep f2 : idx_disk f2 = idx_disk f -> idx_pool f2 = idx_pool f -> meta_page_ f2 = meta_page_ f ->
  cols_ f2 = cols_ f -> col_indices_ f2 = col_indices_ f -> is_unique_ f2 = is_unique_ f -> idx_rep held f2 P.
Proof using Hrep.
  intros H1 H2 H3 H4 H5 H6. pose proof Hrep as [A B C D E F G H]. by split; rewrite ?H1, ?H2, ?H3, ?H4, ?H5, ?H6; assumption.
Qed.

(** [write_meta_page_]: page 0 is never cached and never a node. *)
Lemma write_meta_rep : exists f2, write_meta_page_ f = Some (Ok tt, f2) /\ idx_rep held f2 P /\
  root_page_id_ f2 = root_page_id_ f /\ entry_count_ f2 = entry_count_ f /\ is_unique_ f2 = is_unique_ f /\
  cols_ f2 = cols_ f /\ key_size_ f2 = key_size_ f /\ node_capacity f2 = node_capacity f /\ dirty_ f2 = dirty_ f /\
  idx_next f2 = idx_next f /\ page_on (idx_disk f2) 0 (payload (meta_page_ f2)) /\ col_indices_ f2 = col_indices_ f /\
  payload (meta_page_ f2) = splice 16 (le_bytes 8 (entry_count_ f)) (splice 8 (le_bytes 8 (root_page_id_ f))
    (splice 4 (le_bytes 1 (if dirty_ f then 1 else 0)) (payload (meta_page_ f)))).
Proof using Hrep.
  destruct (ir_meta _ _ _ Hrep) as (Hwf & Hid & Hst). pose proof (ir_next _ _ _ Hrep) as Hnext. unfold write_meta_page_.
  set (pl := splice 16 _ _). assert (Hpl : zlen pl = PAGE_PAYLOAD_SIZE /\ Forall is_byte pl).
  { pose proof (payload_len _ Hwf) as Hl. pose proof (payload_bytes _ Hwf) as Hb. unfold pl.
    unfold PAGE_PAYLOAD_SIZE, PAGE_HEADER_SIZE in *. rewrite PAGE_SIZE_eq in *. split; [|auto 10 with nyx].
    rewrite !zlen_splice; rewrite ?zlen_splice; rewrite ?zlen_splice; rewrite ?zlen_le_bytes; lia. }
  destruct Hpl as [Hpl1 Hpl2]. set (m := set_payload (meta_page_ f) pl).
  assert (Hm : page_wf m) by by apply set_payload_wf.
  assert (Hmid : page_id m = 0) by (unfold m; by rewrite page_id_set_payload).
  assert (Hval : 0 <> INVALID_PAGE_ID) by done.
  exists (set_idx_disk (set_idx_meta f m) (written (idx_disk f) m 0)). split; [|split].
  - unfold idx_write_page. cbn [idx_disk set_idx_meta meta_page_]. fold m.
    rewrite (write_written (idx_disk f) m 0 Hm Hmid Hval). reflexivity.
  - split; cbn [idx_disk idx_pool meta_page_ set_idx_disk set_idx_meta].
    + by apply written_bytes; [..|apply (ir_bytes _ _ _ Hrep)].
    + exact Hnext.
    + intros id pl' Hp. destruct (ir_pages _ _ _ Hrep _ _ Hp). split; [done|]. apply written_on_other; try done; lia.
    + apply (pool_inv_disk _ (idx_disk f)); [apply (ir_pool _ _ _ Hrep)|]. intros x [Hx0 Hx] [s Hs] _.
      split; [done|]. apply written_on_other; try done.
      destruct (ir_cached _ _ _ Hrep _ _ Hs) as [y Hy]. destruct (ir_pages _ _ _ Hrep _ _ Hy). lia.
    + apply (ir_pins _ _ _ Hrep).
    + apply (ir_cached _ _ _ Hrep).
    + split; [done|]. split; [done|]. unfold m. rewrite payload_set_payload by done.
      apply meta_static_keep; [by apply payload_len|done].
    + apply written_fits; [done|done|lia|apply (ir_size _ _ _ Hrep)].
  - do 8 (split; [reflexivity|]). split; [apply written_on; [done|done|lia]|]. split; [reflexivity|].
    by apply payload_set_payload.
Qed.
End write.

(** ** Running operations *)

Lemma bind_ok {A B} (m : M A) (k : A -> M B) f a f' : m f = Some (Ok a, f') -> (m ≫= k) f = k a f'.
Proof. intros H. unfold mbind, M_bind. by rewrite H. Qed.

Lemma bind_err {A B} (m : M A) (k : A -> M B) f e f' : m f = Some (Err e, f') -> (m ≫= k) f = Some (Err e, f').
Proof. intros H. unfold mbind, M_bind. by rewrite H. Qed.

Lemma gets_bind {A B} (g : IndexFile -> A) (k : A -> M B) f : (gets g ≫= k) f = k (g f) f.
Proof. reflexivity. Qed.

Lemma deref_bind {B} f h id pl (k : Page -> M B) r :
  handle f h id pl -> (forall pg, payload pg = pl -> k pg f = r) -> (deref h ≫= k) f = r.
Proof.
  intros Hh Hk. destruct (deref_rep _ _ _ _ Hh) as (pg & Hd & Hpl). rewrite (bind_ok _ _ _ _ _ Hd). by apply Hk.
Qed.

(** A use of a page that only reads it. *)
Lemma with_handle_read {A} held f P id pl (body : nat -> M A) r :
  idx_rep held f P -> P !! id = Some pl -> zlen held < INDEX_POOL_CAPACITY ->
  (forall h pool, handle (set_idx_pool f pool) h id pl -> body h (set_idx_pool f pool) = Some (r, set_idx_pool f pool)) ->
  exists pool, with_handle id body f = Some (r, set_idx_pool f pool) /\ idx_rep held (set_idx_pool f pool) P.
Proof.
  intros Hrep HP Hh Hb.
  destruct (with_handle_rep held f P id pl body (fun r' f2 P2 => r' = r /\ P2 = P /\ exists pool, f2 = set_idx_pool f pool))
    as (r' & f2 & P2 & pool & Hw & Hr & -> & -> & pool' & ->); [done|done|done| |].
  - intros h pool Hr1 Hh1. exists r, (set_idx_pool f pool), P. split; [by apply Hb|]. split; [done|]. eauto.
  - by exists pool.
Qed.
