(* ===== verification/BTreeNode.v ===== *)
(** * Keys and nodes of the B+ tree

    The parts of [BTreeIndex] (src/src/storage/disk/btree_index.h, btree_index.cpp) that work
    on bytes alone: the encoding and the order of keys, the accessors of the two node layouts
    and the insertion of an entry into a node with room.

    The proofs reduce the order of keys to one lexicographic order of lists ([key_rank]) and
    read a node as a list of fixed-size blocks. *)

From Stdlib Require Export Sorted.
From S2P Require Import Prelude Types Page IndexFile.

(** ** Keys *)

(** [memcpy(out + off, bs, n)]; [None] past the end of the buffer. *)
Definition put_at (out : bytes) (off : Z) (bs : bytes) : option bytes :=
  if off + zlen bs <=? zlen out then Some (splice off bs out) else None.

(** The bytes written after the marker of a value that is not NULL; [None] when
    [std::get] throws. *)
Definition key_value_bytes (s : IndexColSpec) (v : Value) : option bytes :=
  match is_type s, v with
  | INT32, VI32 x => Some (le_bytes 4 x)
  | DATE, VDate x => Some (le_bytes 4 x)
  | INT64, VI64 x => Some (le_bytes 8 x)
  | TIMESTAMP, VTimestamp x => Some (le_bytes 8 x)
  | DOUBLE, VF64 x => Some (le_bytes 8 x)
  | VARCHAR, VStr str =>
      let len := wrap 16 (Z.min (strlen str) (is_max_len s)) in
      Some (le_bytes 2 len ++ take (Z.to_nat len) (bytes_of_string str) ++
            (if len <? is_max_len s then zeros (is_max_len s - len) else []))
  | (INT32 | DATE | INT64 | TIMESTAMP | DOUBLE | VARCHAR), _ => None
  | _, _ => Some []
  end.

(** The loop of [encode_key] from column [specs] and offset [off] on; a missing value is
    NULL. *)
Fixpoint encode_cols (specs : list IndexColSpec) (vals : list Value) (out : bytes) (off : Z)
    : option bytes :=
  match specs with
  | [] => Some out
  | s :: rest =>
      let v := match vals with v :: _ => v | [] => VNull end in
      let vb := type_size (is_type s) (is_max_len s) in
      let! out :=
        if is_null v then
          let! out := put_at out off [0] in put_at out (off + 1) (zeros vb)
        else
          let! out := put_at out off [1] in
          let! bs := key_value_bytes s v in put_at out (off + 1) bs in
      encode_cols rest (tail vals) out (off + 1 + vb)
  end.

Definition encode_key (specs : list IndexColSpec) (vals : list Value) (out : bytes) : option bytes :=
  encode_cols specs vals out 0.

Definition cmp3 (lt gt : bool) : Z := if lt then -1 else if gt then 1 else 0.

Definition cmp_sign (c : comparison) : Z := match c with Lt => -1 | Eq => 0 | Gt => 1 end.

(** The comparison of two values that are not NULL, at offset [off] of the keys. *)
Definition compare_field (s : IndexColSpec) (a b : bytes) (off : Z) : Z :=
  match is_type s with
  | INT32 | DATE =>
      let va := signed 32 (le_val (slice off 4 a)) in
      let vb := signed 32 (le_val (slice off 4 b)) in
      cmp3 (va <? vb) (vb <? va)
  | INT64 | TIMESTAMP =>
      let va := signed 64 (le_val (slice off 8 a)) in
      let vb := signed 64 (le_val (slice off 8 b)) in
      cmp3 (va <? vb) (vb <? va)
  | DOUBLE =>
      let va := le_val (slice off 8 a) in
      let vb := le_val (slice off 8 b) in
      cmp3 (f64_lt va vb) (f64_lt vb va)
  | VARCHAR =>
      let la := le_val (slice off 2 a) in
      let lb := le_val (slice off 2 b) in
      let mn := Z.min la lb in
      let cmp := cmp_sign (bytes_cmp (slice (off + 2) mn a) (slice (off + 2) mn b)) in
      if cmp =? 0 then cmp3 (la <? lb) (lb <? la) else cmp
  | _ => 0
  end.

Fixpoint compare_cols (specs : list IndexColSpec) (a b : bytes) (off : Z) : Z :=
  match specs with
  | [] => 0
  | s :: rest =>
      let an := znth a off in
      let bn := znth b off in
      let off := off + 1 in
      let vb := type_size (is_type s) (is_max_len s) in
      if negb (an =? bn) then (if an <? bn then -1 else 1)
      else if an =? 0 then compare_cols rest a b (off + vb)
      else
        let cmp := compare_field s a b off in
        if negb (cmp =? 0) then cmp else compare_cols rest a b (off + vb)
  end.

Definition compare_keys (specs : list IndexColSpec) (a b : bytes) : Z := compare_cols specs a b 0.

(** The loop of [insert] that looks for a NULL in the key. *)
Fixpoint has_null_from (specs : list IndexColSpec) (key : bytes) (off : Z) : bool :=
  match specs with
  | [] => false
  | s :: rest =>
      if znth key off =? 0 then true
      else has_null_from rest key (off + 1 + type_size (is_type s) (is_max_len s))
  end.

Definition has_null (specs : list IndexColSpec) (key : bytes) : bool := has_null_from specs key 0.

(** ** Nodes *)

Section nodes.
Context (specs : list IndexColSpec) (key_size cap : Z).

(** Offsets in the payload. *)
Definition entry_size : Z := key_size + 8.
Definition leaf_entry_at (slot : Z) : Z := INDEX_PAGE_HDR_SIZE + 8 + slot * entry_size.
Definition leaf_key_at (pl : bytes) (slot : Z) : bytes := slice (leaf_entry_at slot) key_size pl.
Definition leaf_rowid_at (pl : bytes) (slot : Z) : Z :=
  le_val (slice (leaf_entry_at slot + key_size) 8 pl).

Definition leaf_right_sibling (pl : bytes) : Z := le_val (slice INDEX_PAGE_HDR_SIZE 8 pl).
Definition set_leaf_right_sibling (pl : bytes) (sib : Z) : bytes :=
  splice INDEX_PAGE_HDR_SIZE (le_bytes 8 sib) pl.

Definition internal_child_at (i : Z) : Z := INDEX_PAGE_HDR_SIZE + i * 8.
Definition internal_key_at (i : Z) : Z := INDEX_PAGE_HDR_SIZE + (cap + 1) * 8 + i * key_size.
Definition internal_key (pl : bytes) (i : Z) : bytes := slice (internal_key_at i) key_size pl.

Definition get_child (pl : bytes) (i : Z) : Z := le_val (slice (internal_child_at i) 8 pl).
Definition set_child (pl : bytes) (i child : Z) : bytes :=
  splice (internal_child_at i) (le_bytes 8 child) pl.

(** [while (lo < hi)]: the binary search the three [find_*] functions share; [below i]
    sends the search to the right of slot [i]. *)
Fixpoint search_slot (fuel : nat) (below : Z -> bool) (lo hi : Z) : Z :=
  match fuel with
  | O => lo
  | S fuel' =>
      if lo <? hi then
        let mid := (lo + hi) / 2 in
        if below mid then search_slot fuel' below (mid + 1) hi
        else search_slot fuel' below lo mid
      else lo
  end.

Definition find_leaf_insert_slot (pl : bytes) (count : Z) (key : bytes) : Z :=
  search_slot (Z.to_nat count) (fun i => compare_keys specs (leaf_key_at pl i) key <=? 0) 0 count.

Definition find_child_slot (pl : bytes) (n_keys : Z) (key : bytes) : Z :=
  search_slot (Z.to_nat n_keys) (fun i => compare_keys specs (internal_key pl i) key <=? 0) 0 n_keys.

Definition find_leaf_scan_start (pl : bytes) (count : Z) (lo : bytes) : Z :=
  search_slot (Z.to_nat count) (fun i => compare_keys specs (leaf_key_at pl i) lo <? 0) 0 count.

Definition entry_bytes (key : bytes) (row_id : Z) : bytes := key ++ le_bytes 8 row_id.

Definition insert_leaf_entry (pl : bytes) (slot : Z) (key : bytes) (row_id count : Z) : bytes :=
  let base := leaf_entry_at 0 in
  let pl := if slot <? count
            then splice (base + (slot + 1) * entry_size)
                   (slice (base + slot * entry_size) ((count - slot) * entry_size) pl) pl
            else pl in
  let pl := splice (base + slot * entry_size) key pl in
  splice (base + slot * entry_size + key_size) (le_bytes 8 row_id) pl.

Definition insert_internal_entry (pl : bytes) (slot : Z) (sep_key : bytes)
    (right_child n_keys : Z) : bytes :=
  let pl := if slot <=? n_keys
            then splice (internal_child_at (slot + 2))
                   (slice (internal_child_at (slot + 1)) ((n_keys - slot) * 8) pl) pl
            else pl in
  let pl := set_child pl (slot + 1) right_child in
  let pl := if slot <? n_keys
            then splice (internal_key_at (slot + 1))
                   (slice (internal_key_at slot) ((n_keys - slot) * key_size) pl) pl
            else pl in
  splice (internal_key_at slot) sep_key pl.

(** A loop [for (i = 0; i < n; ++i)] that copies block [i] to [base + i * sz]. *)
Fixpoint fill (base sz i : Z) (bs : list bytes) (buf : bytes) : bytes :=
  match bs with
  | [] => buf
  | b :: bs' => fill base sz (i + 1) bs' (splice (base + i * sz) b buf)
  end.

(** The temporary array of [split_leaf_]: the entries of a full leaf and the new one. *)
Definition split_leaf_buffer (pl : bytes) (slot : Z) (key : bytes) (row_id : Z) : bytes :=
  let N := cap in
  let before := slot in
  let after := N - slot in
  let tmp := zeros ((N + 1) * entry_size) in
  let tmp := splice 0 (slice (leaf_entry_at 0) (before * entry_size) pl) tmp in
  let tmp := splice (before * entry_size) key tmp in
  let tmp := splice (before * entry_size + key_size) (le_bytes 8 row_id) tmp in
  if after >? 0
  then splice ((before + 1) * entry_size) (slice (leaf_entry_at slot) (after * entry_size) pl) tmp
  else tmp.

(** The left leaf of a split, before its sibling is set. *)
Definition split_leaf_left (pl tmp : bytes) (mid : Z) : bytes :=
  let pl := set_hdr_entry_count pl mid in
  let pl := splice (leaf_entry_at 0) (slice 0 (mid * entry_size) tmp) pl in
  if cap >? mid then splice (leaf_entry_at mid) (zeros ((cap - mid) * entry_size)) pl else pl.

(** The new right leaf of a split. *)
Definition split_leaf_right (pl tmp : bytes) (mid old_sibling : Z) : bytes :=
  let total := cap + 1 in
  let pl := init_hdr pl IDX_PAGE_LEAF 0 (wrap 16 (total - mid)) cap in
  let pl := set_leaf_right_sibling pl old_sibling in
  splice (leaf_entry_at 0) (slice (mid * entry_size) ((total - mid) * entry_size) tmp) pl.

(** [for (i = total_c - 1; i > slot + 1; --i) tmp[i] = tmp[i - 1]], [n] steps from the top. *)
Fixpoint shift_up (n : nat) (slot : Z) (i : Z) (tmp : list Z) : list Z :=
  match n with
  | O => tmp
  | S n' =>
      if i >? slot + 1 then
        shift_up n' slot (i - 1) (<[Z.to_nat i := nth (Z.to_nat (i - 1)) tmp 0]> tmp)
      else tmp
  end.

(** The temporary arrays of [split_internal_]. *)
Definition split_keys_buffer (pl : bytes) (slot : Z) (sep_key : bytes) : bytes :=
  let n_keys := hdr_entry_count pl in
  let tmp := zeros ((cap + 1) * key_size) in
  let tmp := fill 0 key_size 0 (map (fun i => internal_key pl (Z.of_nat i)) (seq 0 (Z.to_nat n_keys))) tmp in
  let tmp := if slot <? n_keys
             then splice ((slot + 1) * key_size) (slice (slot * key_size) ((n_keys - slot) * key_size) tmp) tmp
             else tmp in
  splice (slot * key_size) sep_key tmp.

Definition split_children_buffer (pl : bytes) (slot right_child : Z) : list Z :=
  let n_keys := hdr_entry_count pl in
  let total_c := cap + 2 in
  let tmp := map (fun i => get_child pl (Z.of_nat i)) (seq 0 (Z.to_nat (n_keys + 1))) ++
             replicate (Z.to_nat (total_c - (n_keys + 1))) 0 in
  let tmp := shift_up (Z.to_nat total_c) slot (total_c - 1) tmp in
  <[Z.to_nat (slot + 1) := right_child]> tmp.

(** Writing [n + 1] children from [tmp_children] and [n] keys from [tmp_keys], both from
    index [from] on. *)
Definition fill_internal (pl tmp_keys : bytes) (tmp_children : list Z) (from n : Z) : bytes :=
  let pl := fill INDEX_PAGE_HDR_SIZE 8 0 (map (le_bytes 8) (slice from (n + 1) tmp_children)) pl in
  fill (internal_key_at 0) key_size 0
    (map (fun i => slice ((from + Z.of_nat i) * key_size) key_size tmp_keys) (seq 0 (Z.to_nat n))) pl.

Definition split_internal_left (pl tmp_keys : bytes) (tmp_children : list Z) (mid : Z) : bytes :=
  let pl := set_hdr_entry_count pl mid in
  let pl := splice (internal_child_at 0) (zeros ((cap + 1) * 8)) pl in
  let pl := splice (internal_key_at 0) (zeros (cap * key_size)) pl in
  fill_internal pl tmp_keys tmp_children 0 mid.

Definition split_internal_right (pl tmp_keys : bytes) (tmp_children : list Z) (mid : Z) : bytes :=
  let right_keys := cap + 1 - mid - 1 in
  let pl := init_hdr pl IDX_PAGE_INTERNAL 0 (wrap 16 right_keys) cap in
  fill_internal pl tmp_keys tmp_children (mid + 1) right_keys.

End nodes.

(** ** The order of keys *)

(** A key as a list whose lexicographic order is the order of keys: the end of a string is
    marked by [-1], which is below every byte. *)
Definition field_rank (s : IndexColSpec) (a : bytes) (off : Z) : bytes :=
  match is_type s with
  | INT32 | DATE => [signed 32 (le_val (slice off 4 a))]
  | INT64 | TIMESTAMP => [signed 64 (le_val (slice off 8 a))]
  | DOUBLE => [f64_key (le_val (slice off 8 a))]
  | VARCHAR => slice (off + 2) (le_val (slice off 2 a)) a ++ [-1]
  | _ => []
  end.

Fixpoint key_rank (specs : list IndexColSpec) (a : bytes) (off : Z) : bytes :=
  match specs with
  | [] => []
  | s :: rest =>
      znth a off :: (if znth a off =? 0 then [] else field_rank s a (off + 1)) ++
      key_rank rest a (off + 1 + type_size (is_type s) (is_max_len s))
  end.

(** The value at [off] can be compared: no NaN, and a string lies within the key. *)
Definition field_ok (s : IndexColSpec) (a : bytes) (off : Z) : Prop :=
  match is_type s with
  | DOUBLE => f64_is_nan (le_val (slice off 8 a)) = false
  | VARCHAR => off + 2 + le_val (slice off 2 a) <= zlen a
  | _ => True
  end.

Fixpoint fields_ok (specs : list IndexColSpec) (a : bytes) (off : Z) : Prop :=
  match specs with
  | [] => True
  | s :: rest => (znth a off <> 0 -> field_ok s a (off + 1)) /\
                 fields_ok rest a (off + 1 + type_size (is_type s) (is_max_len s))
  end.

Definition key_ok (specs : list IndexColSpec) (a : bytes) : Prop :=
  zlen a = compute_key_size specs /\ Forall is_byte a /\ fields_ok specs a 0.

Lemma bytes_cmp_cons x u v : bytes_cmp (x :: u) (x :: v) = bytes_cmp u v.
Proof. simpl. by rewrite Z.compare_refl. Qed.

Lemma bytes_cmp_end u v r s : Forall (Z.le 0) u -> Forall (Z.le 0) v ->
  bytes_cmp ((u ++ [-1]) ++ r) ((v ++ [-1]) ++ s) =
  match bytes_cmp u v with Eq => bytes_cmp r s | c => c end.
Proof.
  intros Hu. revert v. induction Hu as [|x u Hx Hu IH]; intros v Hv; destruct Hv as [|y v Hy Hv].
  - reflexivity.
  - cbn [app bytes_cmp]. rewrite (proj2 (Z.compare_lt_iff (-1) y)) by lia. done.
  - cbn [app bytes_cmp]. rewrite (proj2 (Z.compare_gt_iff x (-1))) by lia. done.
  - cbn [app bytes_cmp]. destruct (x ?= y); [by apply IH|done..].
Qed.

(** Comparing the common length first and the lengths afterwards. *)
Lemma bytes_cmp_lengths u v :
  let mn := Nat.min (length u) (length v) in
  bytes_cmp u v = match bytes_cmp (take mn u) (take mn v) with
                  | Eq => Z.of_nat (length u) ?= Z.of_nat (length v) | c => c end.
Proof.
  cbv zeta. revert v.
  induction u as [|x u IH]; intros [|y v]; cbn [length Nat.min take bytes_cmp]; try done.
  rewrite IH. destruct (x ?= y); try done. destruct (bytes_cmp _ _); try done.
  destruct (Z.compare_spec (Z.of_nat (length u)) (Z.of_nat (length v))); symmetry;
    [apply Z.compare_eq_iff|apply Z.compare_lt_iff|apply Z.compare_gt_iff]; lia.
Qed.

Lemma cmp3_compare a b : cmp3 (a <? b) (b <? a) = cmp_sign (a ?= b).
Proof. unfold cmp3. destruct (Z.compare_spec a b), (Z.ltb_spec a b), (Z.ltb_spec b a); done || lia. Qed.

Lemma cmp_sign_0 c : (cmp_sign c =? 0) = bool_decide (c = Eq).
Proof. by destruct c. Qed.

Lemma slice_take {A} off m n (l : list A) : 0 <= m <= n -> take (Z.to_nat m) (slice off n l) = slice off m l.
Proof. intros. unfold slice. rewrite take_take. f_equal. lia. Qed.

Lemma string_field_cmp a b off la lb :
  0 <= off -> 0 <= la -> 0 <= lb -> off + la <= zlen a -> off + lb <= zlen b ->
  (let mn := Z.min la lb in
   let cmp := cmp_sign (bytes_cmp (slice off mn a) (slice off mn b)) in
   if cmp =? 0 then cmp3 (la <? lb) (lb <? la) else cmp) =
  cmp_sign (bytes_cmp (slice off la a) (slice off lb b)).
Proof.
  intros Ho Ha Hb Hla Hlb. cbv zeta. rewrite (bytes_cmp_lengths (slice off la a)).
  pose proof (zlen_slice off la a Ho Ha Hla) as E1. pose proof (zlen_slice off lb b Ho Hb Hlb) as E2.
  unfold zlen in E1, E2. rewrite E1, E2.
  replace (Nat.min _ _) with (Z.to_nat (Z.min la lb)) by lia.
  rewrite !slice_take, cmp_sign_0, cmp3_compare by lia.
  destruct (bytes_cmp _ _); by simpl.
Qed.

Lemma le_val_slice_nonneg a off n : Forall is_byte a -> 0 <= le_val (slice off n a).
Proof. intros. by apply le_val_nonneg, Forall_slice. Qed.

Lemma slice_nonneg a off n : Forall is_byte a -> Forall (Z.le 0) (slice off n a).
Proof. intros H. apply (Forall_impl is_byte); [by apply Forall_slice|]. intros x [Hx _]. exact Hx. Qed.

Lemma bytes_cmp_single x y r s :
  bytes_cmp ([x] ++ r) ([y] ++ s) = match x ?= y with Eq => bytes_cmp r s | c => c end.
Proof. reflexivity. Qed.

(** The comparison of one field decides, and otherwise the rest of the key does. *)
Lemma compare_field_rank s a b off r q : 0 <= off -> Forall is_byte a -> Forall is_byte b ->
  field_ok s a off -> field_ok s b off ->
  (let cmp := compare_field s a b off in
   if negb (cmp =? 0) then cmp else cmp_sign (bytes_cmp r q)) =
  cmp_sign (bytes_cmp (field_rank s a off ++ r) (field_rank s b off ++ q)).
Proof.
  intros Ho Ha Hb Oa Ob. unfold compare_field, field_rank, field_ok in *.
  assert (Hint : forall x y, (let cmp := cmp3 (x <? y) (y <? x) in
    if negb (cmp =? 0) then cmp else cmp_sign (bytes_cmp r q)) = cmp_sign (bytes_cmp ([x] ++ r) ([y] ++ q))).
  { intros x y. cbv zeta. rewrite cmp3_compare, bytes_cmp_single. by destruct (x ?= y). }
  destruct (is_type s); try apply Hint; try done.
  - unfold f64_lt. rewrite Oa, Ob. cbn [negb andb]. apply Hint.
  - cbv zeta. rewrite string_field_cmp; [|lia|by apply le_val_slice_nonneg..|lia|lia].
    rewrite bytes_cmp_end by by apply slice_nonneg.
    by destruct (bytes_cmp (slice (off + 2) _ _) _).
Qed.

Lemma compare_cols_rank specs a b off : 0 <= off -> Forall is_byte a -> Forall is_byte b ->
  fields_ok specs a off -> fields_ok specs b off ->
  compare_cols specs a b off = cmp_sign (bytes_cmp (key_rank specs a off) (key_rank specs b off)).
Proof.
  intros Ho Ha Hb. revert off Ho. induction specs as [|s specs IH]; intros off Ho Oa Ob; [done|].
  destruct Oa as [Oa Oa'], Ob as [Ob Ob']. cbn [compare_cols key_rank]. cbv zeta.
  assert (Hoff : 0 <= off + 1 + type_size (is_type s) (is_max_len s))
    by (pose proof (type_size_nonneg (is_type s) (is_max_len s)); lia).
  rewrite (IH _ Hoff Oa' Ob'). clear IH Oa' Ob'.
  destruct (Z.eqb_spec (znth a off) (znth b off)) as [He|Hne]; cbn [negb].
  - rewrite He, bytes_cmp_cons. destruct (Z.eqb_spec (znth b off) 0) as [|Hz]; [done|].
    apply compare_field_rank; [lia|done|done|apply Oa; congruence|by apply Ob].
  - simpl. by destruct (Z.compare_spec (znth a off) (znth b off)), (Z.ltb_spec (znth a off) (znth b off)); try lia.
Qed.

(** What the tree needs of the order: a total preorder, with a consistent sign. *)
Section key_order.
Context (specs : list IndexColSpec).

Lemma compare_keys_rank a b : key_ok specs a -> key_ok specs b ->
  compare_keys specs a b = cmp_sign (bytes_cmp (key_rank specs a 0) (key_rank specs b 0)).
Proof. intros (_ & Ha & Oa) (_ & Hb & Ob). by apply compare_cols_rank. Qed.

Lemma compare_keys_refl a : key_ok specs a -> compare_keys specs a a = 0.
Proof. intros H. by rewrite compare_keys_rank, bytes_cmp_refl. Qed.

Lemma compare_keys_opp a b : key_ok specs a -> key_ok specs b ->
  compare_keys specs b a = - compare_keys specs a b.
Proof. intros. rewrite !compare_keys_rank, (bytes_cmp_antisym (key_rank specs a 0)) by done. by destruct (bytes_cmp _ _). Qed.

Lemma compare_keys_trans a b c : key_ok specs a -> key_ok specs b -> key_ok specs c ->
  compare_keys specs a b <= 0 -> compare_keys specs b c <= 0 ->
  compare_keys specs a c <= 0 /\
  (compare_keys specs a c = 0 -> compare_keys specs a b = 0 /\ compare_keys specs b c = 0).
Proof.
  intros Ha Hb Hc. rewrite !compare_keys_rank by done.
  set (x := key_rank specs a 0). set (y := key_rank specs b 0). set (z := key_rank specs c 0).
  destruct (bytes_cmp x y) eqn:Exy; destruct (bytes_cmp y z) eqn:Eyz; simpl; try lia; intros _ _.
  - apply bytes_cmp_eq in Exy as ->. by rewrite Eyz.
  - apply bytes_cmp_eq in Exy as ->. by rewrite Eyz.
  - apply bytes_cmp_eq in Eyz as <-. by rewrite Exy.
  - by rewrite (bytes_cmp_lt_trans x y z).
Qed.
End key_order.

(** ** Encoded keys *)

(** The columns the catalog indexes. *)
Definition spec_ok (s : IndexColSpec) : Prop :=
  match is_type s with
  | INT32 | DATE | INT64 | TIMESTAMP | DOUBLE => True
  | VARCHAR => 0 < is_max_len s < 2 ^ 16
  | _ => False
  end.

(** A value that may stand in an indexed column: NULL, or a value of its type, not NaN. *)
Definition key_value_ok (s : IndexColSpec) (v : Value) : Prop :=
  v = VNull \/
  variant_type v = is_type s /\ value_wf v /\
  match v with VF64 b => f64_is_nan b = false | _ => True end.

(** The place of a value in the order of a column: NULL first, strings by the bytes that
    the column can hold. *)
Definition value_rank (s : IndexColSpec) (v : Value) : bytes :=
  match v with
  | VNull => [0]
  | VI32 x | VDate x | VI64 x | VTimestamp x => [1; x]
  | VF64 b => [1; f64_key b]
  | VStr str => 1 :: take (Z.to_nat (is_max_len s)) (bytes_of_string str) ++ [-1]
  | VBool _ => [1]
  end.

Definition values_rank (specs : list IndexColSpec) (vals : list Value) : bytes :=
  concat (zip_with value_rank specs vals).

(** The bytes of one column of a key. *)
Definition field_bytes (s : IndexColSpec) (v : Value) : bytes :=
  if is_null v then 0 :: zeros (type_size (is_type s) (is_max_len s))
  else 1 :: default [] (key_value_bytes s v).

Definition field_len (s : IndexColSpec) : Z := 1 + type_size (is_type s) (is_max_len s).

Lemma slice_app_r {A} (p l : list A) k n : 0 <= k -> slice (zlen p + k) n (p ++ l) = slice k n l.
Proof. intros. unfold slice, zlen. f_equal. rewrite drop_app_ge by lia. f_equal. lia. Qed.

Lemma slice_app_l {A} (l r : list A) n : n = zlen l -> slice 0 n (l ++ r) = l.
Proof. intros ->. unfold slice, zlen. rewrite Nat2Z.id. cbn [Z.to_nat]. rewrite drop_0. apply take_app_length. Qed.

Lemma znth_app_r p l k : 0 <= k -> znth (p ++ l) (zlen p + k) = znth l k.
Proof. intros. unfold znth, zlen. rewrite app_nth2 by lia. f_equal. lia. Qed.

Section value.
Context (s : IndexColSpec) (v : Value).
Hypothesis Hs : spec_ok s.
Hypothesis Hv : key_value_ok s v.

Lemma string_key_len str : v = VStr str -> wrap 16 (Z.min (strlen str) (is_max_len s)) = Z.min (strlen str) (is_max_len s).
Proof using Hs Hv.
  intros ->. unfold spec_ok in Hs. destruct Hv as [|[Ht _]]; [done|]. simpl in Ht. rewrite <- Ht in Hs.
  apply wrap_id. pose proof (strlen_nonneg str). unfold in_u. lia.
Qed.

Lemma key_value_some : v <> VNull -> exists bs, key_value_bytes s v = Some bs /\
  zlen bs = type_size (is_type s) (is_max_len s) /\ Forall is_byte bs.
Proof using Hs Hv.
  intros Hn. pose proof string_key_len as Hlen. unfold spec_ok in Hs.
  destruct Hv as [|(Ht & Hwf & _)]; [done|]. unfold key_value_bytes.
  destruct v as [|x|x|x|str|x|x|x]; try done; rewrite <- Ht in *; simpl in Hs; try done;
    try (eexists; split; [reflexivity|]; split; [apply zlen_le_bytes|apply le_bytes_is_byte]).
  cbn [variant_type type_size]. cbv zeta. rewrite (Hlen str) by done. eexists. split; [reflexivity|].
  pose proof (strlen_nonneg str) as H0. set (n := Z.min _ _) in *.
  assert (Hn0 : 0 <= n <= is_max_len s /\ n <= strlen str) by (unfold n; lia). split.
  - assert (Hz : zlen (take (Z.to_nat n) (bytes_of_string str)) = n).
    { unfold zlen. rewrite length_take, length_bytes_of_string. unfold strlen in Hn0. lia. }
    rewrite !zlen_app, Hz, zlen_le_bytes. destruct (Z.gtb_spec (is_max_len s) 0); [|lia].
    destruct (Z.ltb_spec n (is_max_len s)); [rewrite zlen_zeros by lia; lia|]. change (zlen (@nil Z)) with 0. lia.
  - rewrite !Forall_app. split; [auto with nyx|]. split; [apply Forall_take; auto with nyx|].
    destruct (_ <? _); [auto with nyx|constructor].
Qed.

Lemma zlen_field_bytes : zlen (field_bytes s v) = field_len s.
Proof using Hs Hv.
  unfold field_bytes, field_len. destruct (is_null v) eqn:En.
  - by rewrite zlen_cons, zlen_zeros by apply type_size_nonneg.
  - destruct key_value_some as (bs & -> & Hl & _); [by intros ->|].
    change (default [] (Some bs)) with bs. by rewrite zlen_cons, Hl.
Qed.

Lemma field_bytes_is_byte : Forall is_byte (field_bytes s v).
Proof using Hs Hv.
  unfold field_bytes. destruct (is_null v) eqn:En.
  - constructor; [unfold in_u; lia|auto with nyx].
  - destruct key_value_some as (bs & -> & _ & Hb); [by intros ->|]. constructor; [unfold in_u; lia|done].
Qed.

Lemma string_field_read str bs rest pre : 0 < is_max_len s < 2 ^ 16 ->
  (forall k n, 0 <= k -> slice (zlen pre + 1 + k) n (pre ++ (1 :: bs) ++ rest) = slice k n (bs ++ rest)) ->
  (let n := Z.min (strlen str) (is_max_len s) in
   bs = le_bytes 2 n ++ take (Z.to_nat n) (bytes_of_string str) ++
        (if n <? is_max_len s then zeros (is_max_len s - n) else [])) ->
  (1 <> 0 -> zlen pre + 1 + 2 + le_val (slice 0 2 (bs ++ rest)) <= zlen (pre ++ (1 :: bs) ++ rest)) /\
  1 :: slice (zlen pre + 1 + 2) (le_val (slice 0 2 (bs ++ rest))) (pre ++ (1 :: bs) ++ rest) ++ [-1] =
  value_rank s (VStr str).
Proof using.
  intros Hm Hsl Hbs. cbv zeta in Hbs. pose proof (strlen_nonneg str) as H0.
  set (n := Z.min _ _) in *. assert (Hn : 0 <= n <= is_max_len s /\ n <= strlen str) by (unfold n; lia).
  assert (Hz : zlen (take (Z.to_nat n) (bytes_of_string str)) = n).
  { unfold zlen. rewrite length_take, length_bytes_of_string. unfold strlen in Hn. lia. }
  assert (Hval : le_val (slice 0 2 (bs ++ rest)) = n).
  { rewrite Hbs, <- app_assoc, slice_app_l by (by rewrite zlen_le_bytes).
    apply (le_val_bytes 2). unfold in_u. simpl. lia. }
  rewrite Hval, Hsl by lia. split.
  - intros _. rewrite !zlen_app, zlen_cons, Hbs, !zlen_app, Hz, zlen_le_bytes.
    pose proof (zlen_nonneg rest). pose proof (zlen_nonneg (if n <? is_max_len s then zeros (is_max_len s - n) else [])). lia.
  - cbn [value_rank]. do 2 f_equal. rewrite Hbs, <- app_assoc.
    replace 2 with (zlen (le_bytes 2 n) + 0) at 1 by (rewrite zlen_le_bytes; lia).
    rewrite slice_app_r, <- app_assoc, slice_app_l by (done || lia).
    destruct (Z.le_ge_cases (strlen str) (is_max_len s)).
    + rewrite !take_ge; [done|rewrite length_bytes_of_string; unfold strlen in *; lia..].
    + do 2 f_equal. lia.
Qed.

(** What a reader finds in the encoded field. *)
Lemma field_read pre rest :
  let a := pre ++ field_bytes s v ++ rest in
  let off := zlen pre in
  (znth a off <> 0 -> field_ok s a (off + 1)) /\
  znth a off :: (if znth a off =? 0 then [] else field_rank s a (off + 1)) = value_rank s v.
Proof using Hs Hv.
  cbv zeta. replace (zlen pre) with (zlen pre + 0) at 1 3 4 by lia. rewrite !znth_app_r by lia.
  unfold field_bytes. pose proof string_key_len as Hlen. pose proof key_value_some as Hkv. unfold spec_ok in Hs.
  destruct Hv as [->|(Ht & Hwf & Hnan)]; [by split|].
  destruct (is_null v) eqn:En; [by destruct v; simplify_eq|].
  destruct Hkv as (bs & Hbs & Hl & _); [by intros ->|]. rewrite Hbs. change (default [] (Some bs)) with bs.
  change (znth ((1 :: bs) ++ rest) 0) with 1. change (1 =? 0) with false. cbv iota.
  assert (Hsl : forall k n, 0 <= k -> slice (zlen pre + 1 + k) n (pre ++ (1 :: bs) ++ rest) = slice k n (bs ++ rest)).
  { intros k n Hk. rewrite <- Z.add_assoc, slice_app_r by lia. change ((1 :: bs) ++ rest) with ([1] ++ bs ++ rest).
    by rewrite (slice_app_r [1]). }
  assert (H0 : forall n, slice (zlen pre + 1) n (pre ++ (1 :: bs) ++ rest) = slice 0 n (bs ++ rest)).
  { intros n. by rewrite <- (Hsl 0) by lia; rewrite Z.add_0_r. }
  unfold field_ok, field_rank. unfold key_value_bytes in Hbs.
  destruct v as [|x|x|x|str|x|x|x]; try done; rewrite <- Ht in *; cbn [variant_type] in *; try done;
    cbn [value_wf] in Hwf; rewrite ?H0.
  - injection Hbs as <-. rewrite slice_app_l by (by rewrite zlen_le_bytes). by rewrite (signed_le_bytes 4) by (lia || exact Hwf).
  - injection Hbs as <-. rewrite slice_app_l by (by rewrite zlen_le_bytes). by rewrite (signed_le_bytes 8) by (lia || exact Hwf).
  - injection Hbs as <-. rewrite slice_app_l by (by rewrite zlen_le_bytes). by rewrite (le_val_bytes 8).
  - apply (string_field_read str bs rest pre); [done|done|].
    cbv zeta in Hbs. rewrite (Hlen str) in Hbs by done. by injection Hbs as <-.
  - injection Hbs as <-. rewrite slice_app_l by (by rewrite zlen_le_bytes). by rewrite (signed_le_bytes 4) by (lia || exact Hwf).
  - injection Hbs as <-. rewrite slice_app_l by (by rewrite zlen_le_bytes). by rewrite (signed_le_bytes 8) by (lia || exact Hwf).
Qed.
End value.

(** The key of a list of values, column after column. *)
Definition key_bytes (specs : list IndexColSpec) (vals : list Value) : bytes :=
  concat (zip_with field_bytes specs vals).

Lemma fold_key_size specs n :
  fold_left (fun ks c => ks + index_col_bytes (is_type c) (is_max_len c)) specs n =
  n + compute_key_size specs.
Proof.
  unfold compute_key_size. revert n. induction specs as [|s specs IH]; intros n; cbn [fold_left]; [lia|].
  rewrite IH, (IH (0 + _)). lia.
Qed.

Lemma compute_key_size_cons s specs : compute_key_size (s :: specs) = field_len s + compute_key_size specs.
Proof. unfold compute_key_size at 1. cbn [fold_left]. by rewrite fold_key_size. Qed.

Lemma compute_key_size_nonneg specs : 0 <= compute_key_size specs.
Proof.
  induction specs as [|s specs IH]; [done|]. rewrite compute_key_size_cons. unfold field_len.
  pose proof (type_size_nonneg (is_type s) (is_max_len s)). lia.
Qed.

(** Two writes next to each other are one. *)
Lemma splice_splice_app {A} (a b l : list A) off : 0 <= off -> off + zlen a + zlen b <= zlen l ->
  splice (off + zlen a) b (splice off a l) = splice off (a ++ b) l.
Proof.
  intros Ho Hl. unfold splice, zlen in *. rewrite length_app.
  assert (Ht : length (take (Z.to_nat off) l) = Z.to_nat off) by (rewrite length_take; lia).
  replace (Z.to_nat (off + Z.of_nat (length a))) with (Z.to_nat off + length a)%nat by lia.
  rewrite take_app_ge by lia. rewrite Ht, take_app_le by lia.
  rewrite (take_ge a) by lia. rewrite <- !app_assoc. do 3 f_equal.
  rewrite drop_app_ge by lia. rewrite Ht, drop_app_ge by lia. rewrite drop_drop. f_equal. lia.
Qed.

Lemma put_field out off s v : spec_ok s -> key_value_ok s v -> 0 <= off -> off + field_len s <= zlen out ->
  (if is_null v then let! out := put_at out off [0] in
                     put_at out (off + 1) (zeros (type_size (is_type s) (is_max_len s)))
   else let! out := put_at out off [1] in
        let! bs := key_value_bytes s v in put_at out (off + 1) bs) =
  Some (splice off (field_bytes s v) out).
Proof.
  intros Hs Hv Ho Hl. unfold field_bytes, field_len in *.
  pose proof (type_size_nonneg (is_type s) (is_max_len s)) as Hnn.
  assert (Hput : forall m bs, zlen bs = type_size (is_type s) (is_max_len s) ->
    (let! out := put_at out off [m] in put_at out (off + 1) bs) = Some (splice off (m :: bs) out)).
  { intros m bs Hbs. unfold put_at at 1. change (zlen [m]) with 1.
    destruct (Z.leb_spec (off + 1) (zlen out)); [|lia]. unfold put_at.
    rewrite zlen_splice by (change (zlen [m]) with 1; lia). rewrite Hbs.
    destruct (Z.leb_spec (off + 1 + type_size (is_type s) (is_max_len s)) (zlen out)); [|lia].
    f_equal. apply (splice_splice_app [m]); [lia|]. change (zlen [m]) with 1. lia. }
  destruct (is_null v) eqn:En; [apply Hput; by apply zlen_zeros|].
  destruct (key_value_some s v Hs Hv) as (bs & -> & Hz & _); [by intros ->|]. by apply Hput.
Qed.

Lemma zlen_key_bytes specs vals : Forall spec_ok specs -> Forall2 key_value_ok specs vals -> zlen (key_bytes specs vals) = compute_key_size specs.
Proof.
  intros Hs Hv. unfold key_bytes. revert Hs.
  induction Hv as [|s v ss vs Hsv _ IH]; intros Hs; [done|]. inversion_clear Hs.
  simpl. by rewrite zlen_app, zlen_field_bytes, compute_key_size_cons, IH.
Qed.

Lemma key_bytes_is_byte specs vals : Forall spec_ok specs -> Forall2 key_value_ok specs vals -> Forall is_byte (key_bytes specs vals).
Proof.
  intros Hs Hv. unfold key_bytes. revert Hs.
  induction Hv as [|s v ss vs Hsv _ IH]; intros Hs; [constructor|]. inversion_clear Hs.
  simpl. rewrite Forall_app. split; [by apply field_bytes_is_byte|by apply IH].
Qed.

Lemma encode_cols_eq specs vals out off : Forall spec_ok specs -> Forall2 key_value_ok specs vals -> 0 <= off ->
  off + compute_key_size specs <= zlen out ->
  encode_cols specs vals out off = Some (splice off (key_bytes specs vals) out).
Proof.
  intros Hs Hv. unfold key_bytes. revert Hs out off.
  induction Hv as [|s v ss vs Hsv Hvs IH]; intros Hs out off Ho Hl.
  - simpl. f_equal. unfold splice. simpl. by rewrite Nat.add_0_r, take_drop.
  - inversion_clear Hs. rewrite compute_key_size_cons in Hl.
    pose proof (compute_key_size_nonneg ss). pose proof (type_size_nonneg (is_type s) (is_max_len s)).
    cbn [encode_cols zip_with concat]. rewrite put_field by (assumption || lia). cbn [tail].
    assert (Hfl : zlen (field_bytes s v) = field_len s) by by apply zlen_field_bytes.
    unfold field_len in *. rewrite IH; [|assumption|lia|rewrite zlen_splice; lia].
    f_equal. replace (off + 1 + type_size (is_type s) (is_max_len s)) with (off + zlen (field_bytes s v)) by lia.
    apply splice_splice_app; [lia|]. fold (key_bytes ss vs). rewrite Hfl.
    rewrite zlen_key_bytes by assumption. lia.
Qed.

Lemma key_bytes_read specs vals pre : Forall spec_ok specs -> Forall2 key_value_ok specs vals ->
  fields_ok specs (pre ++ key_bytes specs vals) (zlen pre) /\
  key_rank specs (pre ++ key_bytes specs vals) (zlen pre) = values_rank specs vals.
Proof.
  intros Hs Hv. unfold key_bytes, values_rank. revert Hs pre.
  induction Hv as [|s v ss vs Hsv Hvs IH]; intros Hs pre; [done|]. inversion_clear Hs.
  cbn [zip_with concat fields_ok key_rank].
  destruct (field_read s v H Hsv pre (concat (zip_with field_bytes ss vs))) as [Hok Hrank].
  destruct (IH H0 (pre ++ field_bytes s v)) as [IH1 IH2].
  rewrite zlen_app, zlen_field_bytes, <- app_assoc in IH1, IH2 by assumption.
  unfold field_len in IH1, IH2. rewrite Z.add_assoc in IH1, IH2. split; [by split|].
  rewrite IH2, <- Hrank. by rewrite app_comm_cons.
Qed.

(** [encode_key] of well-typed values, and what the result compares as. *)
Lemma encode_key_ok specs vals : Forall spec_ok specs -> Forall2 key_value_ok specs vals ->
  encode_key specs vals (zeros (compute_key_size specs)) = Some (key_bytes specs vals) /\
  key_ok specs (key_bytes specs vals) /\
  key_rank specs (key_bytes specs vals) 0 = values_rank specs vals.
Proof.
  intros Hs Hv. pose proof (compute_key_size_nonneg specs). pose proof (zlen_key_bytes specs vals Hs Hv) as Hl.
  destruct (key_bytes_read specs vals [] Hs Hv) as [H1 H2]. split_and!.
  - unfold encode_key. rewrite encode_cols_eq; [|done|done|lia|by rewrite zlen_zeros].
    f_equal. apply splice_full. pose proof (zlen_zeros _ H) as Hz. unfold zlen in *. lia.
  - split; [done|]. split; [by apply key_bytes_is_byte|exact H1].
  - exact H2.
Qed.

(** ** Blocks of one size *)

Section blocks.
Context {A : Type} (sz : Z).
Hypothesis Hsz : 0 <= sz.
Implicit Types bs : list (list A).

Definition blocks (bs : list (list A)) : Prop := Forall (fun b => zlen b = sz) bs.

Lemma zlen_concat bs : blocks bs -> zlen (concat bs) = zlen bs * sz.
Proof using. induction 1 as [|b bs Hb _ IH]; [done|]. simpl. rewrite zlen_app, zlen_cons, IH, Hb. lia. Qed.

Lemma take_concat bs n : blocks bs -> take (n * Z.to_nat sz) (concat bs) = concat (take n bs).
Proof using Hsz.
  intros H. revert n. induction H as [|b bs Hb _ IH]; intros n; [cbn [concat]; by rewrite !take_nil|].
  destruct n as [|n]; [done|]. simpl. unfold zlen in Hb.
  rewrite take_app_ge by lia. f_equal. rewrite <- IH. f_equal. lia.
Qed.

Lemma drop_concat bs n : blocks bs -> drop (n * Z.to_nat sz) (concat bs) = concat (drop n bs).
Proof using Hsz.
  intros H. revert n. induction H as [|b bs Hb _ IH]; intros n; [cbn [concat]; by rewrite !drop_nil|].
  destruct n as [|n]; [done|]. simpl. unfold zlen in Hb.
  rewrite drop_app_ge by lia. rewrite <- IH. f_equal. lia.
Qed.

Lemma slice_concat bs i b : blocks bs -> 0 <= i -> bs !! Z.to_nat i = Some b ->
  slice (i * sz) sz (concat bs) = b.
Proof using Hsz.
  intros H Hi Hb. unfold slice. replace (Z.to_nat (i * sz)) with (Z.to_nat i * Z.to_nat sz)%nat by nia.
  rewrite drop_concat by done. erewrite drop_S by done. simpl.
  pose proof (Forall_lookup_1 _ _ _ _ H Hb) as Hl. simpl in Hl. unfold zlen in Hl.
  rewrite take_app_le by lia. rewrite take_ge by lia. done.
Qed.
End blocks.

(** Parts of a region. *)
Lemma slice_add {A} b n m (l : list A) : 0 <= b -> 0 <= n -> 0 <= m ->
  slice b (n + m) l = slice b n l ++ slice (b + n) m l.
Proof.
  intros. unfold slice. replace (Z.to_nat (n + m)) with (Z.to_nat n + Z.to_nat m)%nat by lia.
  rewrite <- take_take_drop, drop_drop. do 2 f_equal. f_equal. lia.
Qed.

Lemma drop_slice {A} k b n (l : list A) : 0 <= k <= n -> 0 <= b ->
  drop (Z.to_nat k) (slice b n l) = slice (b + k) (n - k) l.
Proof. intros. unfold slice. rewrite skipn_firstn_comm, drop_drop. f_equal; [lia|f_equal; lia]. Qed.

(** Moving the end of a region up and writing into the gap: the region with a block
    inserted. *)
Lemma slice_insert_block {A} (pl src : list A) b n k : 0 <= b -> 0 <= k <= n ->
  b + n + zlen src <= zlen pl ->
  slice b (n + zlen src) (splice (b + k) src (splice (b + k + zlen src) (slice (b + k) (n - k) pl) pl)) =
  take (Z.to_nat k) (slice b n pl) ++ src ++ drop (Z.to_nat k) (slice b n pl).
Proof.
  intros Hb Hk Hl. pose proof (zlen_nonneg src).
  assert (Hs : zlen (slice (b + k) (n - k) pl) = n - k) by (apply zlen_slice; lia).
  rewrite slice_take, drop_slice by lia. set (t := slice (b + k) (n - k) pl) in *.
  assert (Hlen : zlen (splice (b + k + zlen src) t pl) = zlen pl) by (apply zlen_splice; lia).
  replace (n + zlen src) with (k + (zlen src + (n - k))) by lia.
  rewrite !slice_add by lia. f_equal; [|f_equal].
  - rewrite !slice_splice_before by lia. done.
  - apply slice_splice_same; lia.
  - rewrite slice_splice_after by lia. apply slice_splice_same; lia.
Qed.

(** ** Binary search *)

(** The number of leading elements on which [f] holds. *)
Fixpoint prefix_len {A} (f : A -> bool) (l : list A) : nat :=
  match l with x :: l' => if f x then S (prefix_len f l') else O | [] => O end.

Lemma prefix_len_le {A} (f : A -> bool) l : (prefix_len f l <= length l)%nat.
Proof. induction l; simpl; [done|]. destruct (f a); lia. Qed.

(** [f] holds on a prefix only. *)
Definition downward {A} (f : A -> bool) (l : list A) : Prop :=
  StronglySorted (fun x y => f y = true -> f x = true) l.

Lemma prefix_len_spec {A} (f : A -> bool) l i x : downward f l -> l !! i = Some x ->
  f x = bool_decide (i < prefix_len f l)%nat.
Proof.
  intros H. revert i. induction H as [|a l Hs IH Ha]; intros i Hi; [done|].
  destruct i as [|i]; simpl in Hi |- *.
  - injection Hi as <-. destruct (f a) eqn:E; [|done]. symmetry. apply bool_decide_true. lia.
  - destruct (f a) eqn:E.
    + rewrite (IH i Hi). apply bool_decide_ext. lia.
    + rewrite Forall_lookup in Ha. destruct (f x) eqn:Ex; [|done]. specialize (Ha _ _ Hi Ex). congruence.
Qed.

Lemma search_slot_spec below p fuel lo hi : 0 <= lo <= p -> p <= hi -> hi - lo <= Z.of_nat fuel ->
  (forall i, lo <= i < hi -> below i = (i <? p)) -> search_slot fuel below lo hi = p.
Proof.
  revert lo hi. induction fuel as [|fuel IH]; intros lo hi Hlo Hhi Hf Hb; simpl; [lia|].
  destruct (Z.ltb_spec lo hi); [|lia].
  assert (Hmid : lo <= (lo + hi) / 2 < hi) by zlia. rewrite Hb by done.
  destruct (Z.ltb_spec ((lo + hi) / 2) p).
  - apply IH; [lia|lia|lia|]. intros i Hi. apply Hb. lia.
  - apply IH; [lia|lia|lia|]. intros i Hi. apply Hb. lia.
Qed.

(** The search over the slots of a node that holds [l]. *)
Lemma search_prefix {A} (f : A -> bool) l below : downward f l ->
  (forall i x, l !! Z.to_nat i = Some x -> 0 <= i -> below i = f x) ->
  search_slot (Z.to_nat (zlen l)) below 0 (zlen l) = Z.of_nat (prefix_len f l).
Proof.
  intros Hd Hb. pose proof (prefix_len_le f l). apply search_slot_spec; [lia|unfold zlen; lia|unfold zlen; lia|].
  intros i Hi. destruct (lookup_lt_is_Some_2 l (Z.to_nat i)) as [x Hx]; [unfold zlen in *; lia|].
  rewrite (Hb i x Hx), (prefix_len_spec f l _ x Hd Hx) by lia.
  destruct (Z.ltb_spec i (Z.of_nat (prefix_len f l))); [apply bool_decide_true|apply bool_decide_false]; lia.
Qed.
