(* ===== verification/BTreeLayout.v ===== *)
(** * Nodes of the B+ tree as lists

    What the bytes of a node represent ([leaf_rep], [internal_rep]), and that the byte-level
    functions of BTreeNode.v are the expected functions of lists: searches find the position
    in a sorted list, insertions insert there, splits cut the list in two. *)

From S2P Require Import Prelude Types Page IndexFile BTreeNode.

(** The sizes of an index: a full node fits in a page. *)
Record geometry (specs : list IndexColSpec) (key_size cap : Z) : Prop := {
  g_key : key_size = compute_key_size specs;
  g_pos : 0 < key_size;
  g_cap : 0 < cap <= 65535;
  g_fit : INDEX_PAGE_HDR_SIZE + 8 + cap * (key_size + 8) <= PAGE_PAYLOAD_SIZE
}.

Lemma index_node_capacity_geometry specs :
  let ks := compute_key_size specs in
  0 < ks -> index_node_capacity ks <> 0 -> geometry specs ks (index_node_capacity ks).
Proof.
  cbv zeta. intros Hp Hc. set (ks := compute_key_size specs) in *.
  unfold index_node_capacity, PAGE_PAYLOAD_SIZE, PAGE_HEADER_SIZE, INDEX_PAGE_HDR_SIZE in *.
  rewrite PAGE_SIZE_eq in *. change (8192 - 24 - 8 - 8) with 8152 in *.
  assert (Hd : 0 <= 8152 / (ks + 8)) by (apply Z.div_pos; lia).
  pose proof (Z.mul_div_le 8152 (ks + 8)).
  destruct (Z.gtb_spec (8152 / (ks + 8)) 65535).
  - assert (8152 / (ks + 8) <= 8152) by (apply Z.div_le_upper_bound; nia). lia.
  - split; [done|done|lia|]. unfold PAGE_PAYLOAD_SIZE, PAGE_HEADER_SIZE, INDEX_PAGE_HDR_SIZE. rewrite PAGE_SIZE_eq. nia.
Qed.

(** An entry of a leaf: a key and a row id. *)
Abbreviation entry := (bytes * Z)%type.

(** ** Fields after writes *)

(** Side conditions on the lengths of buffers. *)
Ltac zl :=
  repeat match goal with
  | |- context [zlen (splice ?o ?s ?l)] => rewrite (zlen_splice o s l) by zl
  end;
  rewrite ?zlen_le_bytes; lia.

(** Reading a window of a buffer after a write. *)
Ltac window := repeat first
  [ rewrite slice_splice_same by zl
  | rewrite slice_splice_before by zl
  | rewrite slice_splice_after by zl ].

Lemma fill_eq sz base bs : 0 <= sz -> blocks sz bs -> forall i buf, 0 <= base -> 0 <= i ->
  base + (i + zlen bs) * sz <= zlen buf ->
  fill base sz i bs buf = splice (base + i * sz) (concat bs) buf.
Proof.
  intros Hsz. induction 1 as [|b bs Hb Hbs IH]; intros i buf H0 Hi Hl.
  - unfold splice. simpl. by rewrite Nat.add_0_r, take_drop.
  - rewrite zlen_cons in Hl. pose proof (zlen_nonneg bs). cbn [fill concat].
    rewrite IH; [|lia|lia|rewrite zlen_splice; nia].
    replace (base + (i + 1) * sz) with (base + i * sz + zlen b) by lia.
    apply splice_splice_app; [nia|]. rewrite zlen_concat with (sz := sz) by done. nia.
Qed.

Section reps.
Context (specs : list IndexColSpec) (ks cap : Z).
Hypothesis Hgeo : geometry specs ks cap.

Definition entry_ok (e : entry) : Prop := key_ok specs e.1 /\ in_u 64 e.2.
Definition enc (e : entry) : bytes := entry_bytes e.1 e.2.

Record leaf_rep (pl : bytes) (sib : Z) (es : list entry) : Prop := {
  lr_len : zlen pl = PAGE_PAYLOAD_SIZE;
  lr_bytes : Forall is_byte pl;
  lr_type : hdr_page_type pl = IDX_PAGE_LEAF;
  lr_count : hdr_entry_count pl = zlen es;
  lr_cap : hdr_capacity pl = cap;
  lr_fit : zlen es <= cap;
  lr_sib : leaf_right_sibling pl = sib;
  lr_ok : Forall entry_ok es;
  lr_region : slice (leaf_entry_at ks 0) (zlen es * entry_size ks) pl = concat (map enc es)
}.

Record internal_rep (pl : bytes) (keys : list bytes) (children : list Z) : Prop := {
  nr_len : zlen pl = PAGE_PAYLOAD_SIZE;
  nr_bytes : Forall is_byte pl;
  nr_type : hdr_page_type pl = IDX_PAGE_INTERNAL;
  nr_count : hdr_entry_count pl = zlen keys;
  nr_cap : hdr_capacity pl = cap;
  nr_fit : zlen keys <= cap;
  nr_children : zlen children = zlen keys + 1;
  nr_ok : Forall (key_ok specs) keys;
  nr_ids : Forall (in_u 64) children;
  nr_child_region : slice INDEX_PAGE_HDR_SIZE (zlen children * 8) pl = concat (map (le_bytes 8) children);
  nr_key_region : slice (internal_key_at ks cap 0) (zlen keys * ks) pl = concat keys
}.

Lemma key_len k : key_ok specs k -> zlen k = ks.
Proof using Hgeo. intros [H _]. by rewrite (g_key _ _ _ Hgeo). Qed.

Lemma enc_blocks es : Forall entry_ok es -> blocks (entry_size ks) (map enc es).
Proof using Hgeo.
  intros H. apply Forall_map. apply (Forall_impl _ _ _ H). intros e [Hk _].
  unfold enc, entry_bytes, entry_size. by rewrite zlen_app, key_len, zlen_le_bytes.
Qed.

Lemma key_blocks keys : Forall (key_ok specs) keys -> blocks ks keys.
Proof using Hgeo. intros H. apply (Forall_impl _ _ _ H). apply key_len. Qed.

Lemma child_blocks cs : blocks 8 (map (le_bytes 8) cs).
Proof using. apply Forall_map, Forall_true. intros c. apply zlen_le_bytes. Qed.

Lemma esz_pos : 0 < entry_size ks.
Proof using Hgeo. pose proof (g_pos _ _ _ Hgeo). unfold entry_size. lia. Qed.

(** ** Reading *)

Lemma leaf_read pl sib es i e : leaf_rep pl sib es -> 0 <= i -> es !! Z.to_nat i = Some e ->
  leaf_key_at ks pl i = e.1 /\ leaf_rowid_at ks pl i = e.2.
Proof using Hgeo.
  intros Hr Hi He. pose proof (lookup_lt_Some _ _ _ He) as Hlt. pose proof esz_pos. pose proof (g_pos _ _ _ Hgeo).
  pose proof (lr_ok _ _ _ Hr) as Hok. pose proof (Forall_lookup_1 _ _ _ _ Hok He) as [Hk Hid].
  assert (Hb : slice (i * entry_size ks) (entry_size ks) (concat (map enc es)) = enc e).
  { apply slice_concat; [lia|by apply enc_blocks|done|by rewrite list_lookup_fmap, He]. }
  assert (Hin : i * entry_size ks + entry_size ks <= zlen es * entry_size ks) by (unfold zlen; nia).
  rewrite <- (lr_region _ _ _ Hr), slice_slice in Hb by (unfold leaf_entry_at, INDEX_PAGE_HDR_SIZE; nia).
  unfold leaf_key_at, leaf_rowid_at.
  replace (leaf_entry_at ks i) with (leaf_entry_at ks 0 + i * entry_size ks) by (unfold leaf_entry_at; lia).
  set (b := leaf_entry_at ks 0 + i * entry_size ks) in *.
  assert (Hb0 : 0 <= b) by (unfold b, leaf_entry_at, INDEX_PAGE_HDR_SIZE; nia).
  split.
  - replace (slice b ks pl) with (slice 0 ks (slice b (entry_size ks) pl)).
    + rewrite Hb. apply slice_app_l. by rewrite key_len.
    + rewrite slice_slice by (unfold entry_size; lia). f_equal. lia.
  - replace (slice (b + ks) 8 pl) with (slice ks 8 (slice b (entry_size ks) pl)).
    + rewrite Hb. unfold enc, entry_bytes. replace ks with (zlen e.1 + 0) by (rewrite key_len by done; lia).
      rewrite slice_app_r by lia. rewrite <- (app_nil_r (le_bytes 8 e.2)), slice_app_l by by rewrite zlen_le_bytes.
      by apply (le_val_bytes 8).
    + by rewrite slice_slice by (unfold entry_size; lia).
Qed.

Lemma internal_key_read pl keys cs i k : internal_rep pl keys cs -> 0 <= i -> keys !! Z.to_nat i = Some k ->
  internal_key ks cap pl i = k.
Proof using Hgeo.
  intros Hr Hi Hk. pose proof (lookup_lt_Some _ _ _ Hk) as Hlt. pose proof (g_pos _ _ _ Hgeo). pose proof (g_cap _ _ _ Hgeo).
  rewrite <- (slice_concat ks ltac:(lia) keys i k (key_blocks keys (nr_ok _ _ _ Hr)) Hi Hk).
  rewrite <- (nr_key_region _ _ _ Hr), slice_slice
    by (unfold internal_key_at, INDEX_PAGE_HDR_SIZE, zlen; nia).
  unfold internal_key, internal_key_at. f_equal. lia.
Qed.

Lemma child_read pl keys cs i c : internal_rep pl keys cs -> 0 <= i -> cs !! Z.to_nat i = Some c ->
  get_child pl i = c.
Proof using.
  intros Hr Hi Hc. pose proof (lookup_lt_Some _ _ _ Hc) as Hlt.
  pose proof (Forall_lookup_1 _ _ _ _ (nr_ids _ _ _ Hr) Hc) as Hid.
  rewrite <- (le_val_bytes 8 c) by done. unfold get_child. f_equal.
  rewrite <- (slice_concat 8 ltac:(lia) (map (le_bytes 8) cs) i (le_bytes 8 c) (child_blocks cs) Hi)
    by (rewrite list_lookup_fmap; simpl; by rewrite Hc).
  rewrite <- (nr_child_region _ _ _ Hr), slice_slice
    by (unfold INDEX_PAGE_HDR_SIZE, zlen; lia).
  unfold internal_child_at. f_equal.
Qed.

(** ** Searching *)

Definition key_le (a b : bytes) : Prop := compare_keys specs a b <= 0.
Definition le_key (key k : bytes) : bool := compare_keys specs k key <=? 0.
Definition lt_key (key k : bytes) : bool := compare_keys specs k key <? 0.

Lemma downward_key (f : bytes -> bool) key keys :
  (forall k, f k = le_key key k) \/ (forall k, f k = lt_key key k) ->
  key_ok specs key -> Forall (key_ok specs) keys -> StronglySorted key_le keys -> downward f keys.
Proof using.
  intros Hf Hkey Hok Hs. induction Hs as [|k keys Hs IH Hk]; constructor; [by apply IH; inversion Hok|].
  inversion_clear Hok as [|? ? Hok1 Hok2]. rewrite Forall_forall in *. intros k' Hin. specialize (Hk k' Hin).
  destruct Hf as [Hf|Hf]; rewrite !Hf; unfold le_key, lt_key; rewrite ?Z.leb_le, ?Z.ltb_lt; intros Hk'.
  - by apply (compare_keys_trans specs k k' key Hok1 (Hok2 k' Hin) Hkey).
  - destruct (compare_keys_trans specs k k' key Hok1 (Hok2 k' Hin) Hkey Hk) as [Ht Heq]; [lia|].
    destruct (Z.eq_dec (compare_keys specs k key) 0) as [E|]; [|lia]. destruct (Heq E). lia.
Qed.

Lemma downward_map {A B} (g : A -> B) f l : downward f (map g l) -> downward (fun x => f (g x)) l.
Proof using.
  unfold downward. induction l as [|a l IH]; simpl; intros H; constructor; inversion_clear H as [|? ? H1 H2].
  - by apply IH.
  - by apply Forall_map in H2.
Qed.

Definition sorted_entries (es : list entry) : Prop := StronglySorted key_le (map fst es).

Section search.
Context (key : bytes).
Hypothesis Hkey : key_ok specs key.

Lemma entries_keys_ok es : Forall entry_ok es -> Forall (key_ok specs) (map fst es).
Proof using. intros H. apply Forall_map. apply (Forall_impl _ _ _ H). by intros e [? _]. Qed.

Lemma find_leaf_insert_slot_spec pl sib es : leaf_rep pl sib es -> sorted_entries es ->
  find_leaf_insert_slot specs ks pl (zlen es) key = Z.of_nat (prefix_len (fun e => le_key key e.1) es).
Proof using Hgeo Hkey.
  intros Hr Hs. apply search_prefix.
  - apply (downward_map fst), (downward_key _ key); [by left|done|by apply entries_keys_ok, (lr_ok _ _ _ Hr)|done].
  - intros i e He Hi. unfold le_key. by rewrite (proj1 (leaf_read _ _ _ _ _ Hr Hi He)).
Qed.

Lemma find_leaf_scan_start_spec pl sib es : leaf_rep pl sib es -> sorted_entries es ->
  find_leaf_scan_start specs ks pl (zlen es) key = Z.of_nat (prefix_len (fun e => lt_key key e.1) es).
Proof using Hgeo Hkey.
  intros Hr Hs. apply search_prefix.
  - apply (downward_map fst), (downward_key _ key); [by right|done|by apply entries_keys_ok, (lr_ok _ _ _ Hr)|done].
  - intros i e He Hi. unfold lt_key. by rewrite (proj1 (leaf_read _ _ _ _ _ Hr Hi He)).
Qed.

Lemma find_child_slot_spec pl keys cs : internal_rep pl keys cs -> StronglySorted key_le keys ->
  find_child_slot specs ks cap pl (zlen keys) key = Z.of_nat (prefix_len (le_key key) keys).
Proof using Hgeo Hkey.
  intros Hr Hs. apply search_prefix.
  - apply (downward_key _ key); [by left|done|apply (nr_ok _ _ _ Hr)|done].
  - intros i k Hk Hi. unfold le_key. by rewrite (internal_key_read _ _ _ _ _ Hr Hi Hk).
Qed.
End search.

(** ** Changing a leaf *)

(** Both branches of the [memmove] that opens a gap. *)
Lemma gap_branch b n (pl : bytes) (to : Z) : 0 <= n ->
  (if 0 <? n then splice to (slice b n pl) pl else pl) = splice to (slice b n pl) pl.
Proof using.
  intros Hn. destruct (Z.ltb_spec 0 n); [done|]. replace n with 0 by lia.
  change (slice b 0 pl) with (@nil Z). by rewrite splice_nil.
Qed.

Lemma zlen_enc e : entry_ok e -> zlen (enc e) = entry_size ks.
Proof using Hgeo. intros [Hk _]. unfold enc, entry_bytes, entry_size. by rewrite zlen_app, key_len, zlen_le_bytes. Qed.

Lemma enc_is_byte e : entry_ok e -> Forall is_byte (enc e).
Proof using. intros [(_ & Hk & _) _]. unfold enc, entry_bytes. rewrite Forall_app. auto with nyx. Qed.

Lemma concat_enc_insert es p e : Forall entry_ok es ->
  take (p * Z.to_nat (entry_size ks)) (concat (map enc es)) ++ enc e ++
  drop (p * Z.to_nat (entry_size ks)) (concat (map enc es)) = concat (map enc (take p es ++ e :: drop p es)).
Proof using Hgeo.
  intros Hok. pose proof esz_pos. rewrite take_concat, drop_concat by (lia || by apply enc_blocks).
  by rewrite map_app, concat_app, map_cons, firstn_map, skipn_map.
Qed.

(** The bytes of a leaf with room after [insert_leaf_entry]. *)
Lemma insert_leaf_entry_eq pl p e count : zlen pl = PAGE_PAYLOAD_SIZE -> entry_ok e ->
  0 <= p <= count -> count < cap ->
  let b := leaf_entry_at ks 0 + p * entry_size ks in
  insert_leaf_entry ks pl p e.1 e.2 count =
  splice b (enc e) (splice (b + zlen (enc e)) (slice b (count * entry_size ks - p * entry_size ks) pl) pl).
Proof using Hgeo.
  intros Hl He Hp Hc. cbv zeta. pose proof esz_pos. pose proof (g_fit _ _ _ Hgeo). pose proof (g_cap _ _ _ Hgeo).
  pose proof He as [Hk _]. rewrite (zlen_enc e He). unfold insert_leaf_entry.
  replace (p <? count) with (0 <? (count - p) * entry_size ks)
    by (destruct (Z.ltb_spec 0 ((count - p) * entry_size ks)), (Z.ltb_spec p count); nia).
  rewrite gap_branch by nia. unfold enc, entry_bytes.
  assert (Hs : zlen (slice (leaf_entry_at ks 0 + p * entry_size ks) ((count - p) * entry_size ks) pl) = (count - p) * entry_size ks).
  { apply zlen_slice; unfold leaf_entry_at, INDEX_PAGE_HDR_SIZE, entry_size in *; nia. }
  replace (leaf_entry_at ks 0 + p * entry_size ks + ks) with (leaf_entry_at ks 0 + p * entry_size ks + zlen e.1)
    by (rewrite key_len by done; lia).
  rewrite splice_splice_app.
  - do 2 f_equal; [|f_equal]; lia.
  - unfold leaf_entry_at, INDEX_PAGE_HDR_SIZE. nia.
  - rewrite zlen_splice, zlen_le_bytes, key_len by (rewrite ?Hs; unfold leaf_entry_at, INDEX_PAGE_HDR_SIZE, entry_size in *; nia || done).
    unfold leaf_entry_at, INDEX_PAGE_HDR_SIZE, entry_size in *. nia.
Qed.

(** Reading the fields of a header after its entry count was set. *)
Lemma set_count_fields pl n : zlen pl = PAGE_PAYLOAD_SIZE -> Forall is_byte pl -> in_u 16 n ->
  let pl' := set_hdr_entry_count pl n in
  zlen pl' = PAGE_PAYLOAD_SIZE /\ Forall is_byte pl' /\ hdr_page_type pl' = hdr_page_type pl /\
  hdr_entry_count pl' = n /\ hdr_capacity pl' = hdr_capacity pl /\
  forall o m, INDEX_PAGE_HDR_SIZE <= o -> slice o m pl' = slice o m pl.
Proof using.
  intros Hl Hb Hn. unfold set_hdr_entry_count, hdr_page_type, hdr_entry_count, hdr_capacity, PAGE_PAYLOAD_SIZE,
    PAGE_HEADER_SIZE, INDEX_PAGE_HDR_SIZE in *. rewrite PAGE_SIZE_eq in *. cbv zeta. split_and!.
  - zl.
  - auto with nyx.
  - by window.
  - window. by apply (le_val_bytes 2).
  - by window.
  - intros o m Ho. by window.
Qed.

(** A write behind the header leaves it alone. *)
Lemma hdr_frame pl off src : INDEX_PAGE_HDR_SIZE <= off -> off + zlen src <= zlen pl ->
  hdr_page_type (splice off src pl) = hdr_page_type pl /\
  hdr_entry_count (splice off src pl) = hdr_entry_count pl /\
  hdr_capacity (splice off src pl) = hdr_capacity pl.
Proof using.
  unfold hdr_page_type, hdr_entry_count, hdr_capacity, INDEX_PAGE_HDR_SIZE. intros Ho Hl.
  pose proof (zlen_nonneg src). by split_and!; window.
Qed.

Lemma sib_frame pl off src : leaf_entry_at ks 0 <= off -> off + zlen src <= zlen pl ->
  leaf_right_sibling (splice off src pl) = leaf_right_sibling pl.
Proof using.
  unfold leaf_right_sibling, leaf_entry_at, INDEX_PAGE_HDR_SIZE. intros Ho Hl.
  pose proof (zlen_nonneg src). by window.
Qed.

(** What remains to be shown of a changed leaf: header, sibling and entries. *)
Lemma insert_leaf_rep pl sib es p e : leaf_rep pl sib es -> zlen es < cap -> (p <= length es)%nat -> entry_ok e ->
  leaf_rep (set_hdr_entry_count (insert_leaf_entry ks pl (Z.of_nat p) e.1 e.2 (zlen es)) (zlen es + 1)) sib
    (take p es ++ e :: drop p es).
Proof using Hgeo.
  intros [Hl Hb Ht Hc Hcap Hf Hs Hok Hreg] Hroom Hp He. pose proof esz_pos as Hesz.
  pose proof (g_fit _ _ _ Hgeo) as Hfit. pose proof (g_cap _ _ _ Hgeo) as Hcp.
  rewrite insert_leaf_entry_eq by (done || unfold zlen; lia).
  pose proof (zlen_enc e He) as Henc. rewrite Henc.
  set (b := leaf_entry_at ks 0) in *. set (k := Z.of_nat p * entry_size ks).
  set (n := zlen es * entry_size ks) in *.
  assert (Hbk : 0 <= b /\ INDEX_PAGE_HDR_SIZE + 8 = b /\ 0 <= k <= n /\ b + n + entry_size ks <= zlen pl).
  { unfold b, k, n, leaf_entry_at, INDEX_PAGE_HDR_SIZE, entry_size, zlen in *. nia. }
  destruct Hbk as (Hb0 & Hb8 & Hk & Hroom2). clear Hfit.
  assert (Hsl : zlen (slice (b + k) (n - k) pl) = n - k) by (apply zlen_slice; lia).
  set (l1 := splice (b + k + entry_size ks) (slice (b + k) (n - k) pl) pl).
  assert (Hl1 : zlen l1 = zlen pl) by (apply zlen_splice; lia).
  set (l2 := splice (b + k) (enc e) l1).
  assert (Hl2 : zlen l2 = zlen pl) by (rewrite <- Hl1; apply zlen_splice; lia).
  assert (Hb2 : Forall is_byte l2).
  { apply Forall_splice; [by apply enc_is_byte|]. apply Forall_splice; [by apply Forall_slice|done]. }
  assert (Hh1 := hdr_frame pl (b + k + entry_size ks) (slice (b + k) (n - k) pl) ltac:(lia) ltac:(lia)).
  assert (Hh2 := hdr_frame l1 (b + k) (enc e) ltac:(lia) ltac:(lia)). fold l1 in Hh1. fold l2 in Hh2.
  destruct (set_count_fields l2 (zlen es + 1)) as (F1 & F2 & F3 & F4 & F5 & F6);
    [lia|done|pose proof (zlen_nonneg es); unfold in_u; lia|].
  assert (Hlen : zlen (take p es ++ e :: drop p es) = zlen es + 1).
  { rewrite zlen_app, zlen_cons. unfold zlen. rewrite length_take, length_drop. lia. }
  split; rewrite ?Hlen.
  - done.
  - done.
  - rewrite F3. destruct Hh1 as [H1 _], Hh2 as [-> _]. congruence.
  - done.
  - rewrite F5. destruct Hh1 as (_ & _ & H1), Hh2 as (_ & _ & ->). congruence.
  - lia.
  - unfold leaf_right_sibling. rewrite F6 by done. fold (leaf_right_sibling l2).
    unfold l2, l1. rewrite !sib_frame by (fold b; fold l1; lia). done.
  - apply Forall_app. split; [by apply Forall_take|]. constructor; [done|by apply Forall_drop].
  - fold b. rewrite F6 by lia. unfold l2, l1. rewrite Z.mul_add_distr_r, Z.mul_1_l. fold n. rewrite <- Henc.
    rewrite slice_insert_block by lia. rewrite Hreg. unfold k.
    rewrite Z2Nat.inj_mul, Nat2Z.id by lia. by apply concat_enc_insert.
Qed.

Lemma init_hdr_fields pl ty flags n : zlen pl = PAGE_PAYLOAD_SIZE -> Forall is_byte pl -> is_byte ty -> in_u 16 n ->
  let pl' := init_hdr pl ty flags n cap in
  zlen pl' = PAGE_PAYLOAD_SIZE /\ Forall is_byte pl' /\ hdr_page_type pl' = ty /\
  hdr_entry_count pl' = n /\ hdr_capacity pl' = cap /\
  forall o m, INDEX_PAGE_HDR_SIZE <= o -> slice o m pl' = slice o m pl.
Proof using Hgeo.
  intros Hl Hb Ht Hn. pose proof (g_cap _ _ _ Hgeo).
  unfold init_hdr, set_hdr_entry_count, set_hdr_capacity, set_hdr_flags, set_hdr_page_type, hdr_page_type,
    hdr_entry_count, hdr_capacity, PAGE_PAYLOAD_SIZE, PAGE_HEADER_SIZE, INDEX_PAGE_HDR_SIZE in *.
  rewrite PAGE_SIZE_eq in *. cbv zeta. split_and!.
  - zl.
  - auto 10 with nyx.
  - window. by apply (le_val_bytes 1).
  - window. by apply (le_val_bytes 2).
  - window. apply (le_val_bytes 2). unfold in_u. simpl. lia.
  - intros o m Ho. by window.
Qed.

(** A page filled as a leaf. *)
Lemma new_leaf_rep pl flags sib es : zlen pl = PAGE_PAYLOAD_SIZE -> Forall is_byte pl -> in_u 64 sib ->
  Forall entry_ok es -> zlen es <= cap ->
  leaf_rep (splice (leaf_entry_at ks 0) (concat (map enc es))
    (set_leaf_right_sibling (init_hdr pl IDX_PAGE_LEAF flags (zlen es) cap) sib)) sib es.
Proof using Hgeo.
  intros Hl Hb Hs Hok Hn. pose proof esz_pos. pose proof (g_fit _ _ _ Hgeo) as Hfit. pose proof (g_cap _ _ _ Hgeo).
  destruct (init_hdr_fields pl IDX_PAGE_LEAF flags (zlen es)) as (F1 & F2 & F3 & F4 & F5 & _);
    [done|done|unfold IDX_PAGE_LEAF, in_u; lia|pose proof (zlen_nonneg es); unfold in_u; lia|].
  set (l1 := init_hdr _ _ _ _ _) in *.
  pose proof (zlen_concat (entry_size ks) (map enc es) (enc_blocks es Hok)) as Hz.
  replace (zlen (map enc es)) with (zlen es) in Hz by (unfold zlen; by rewrite length_map).
  assert (Hroom : leaf_entry_at ks 0 + zlen (concat (map enc es)) <= PAGE_PAYLOAD_SIZE).
  { rewrite Hz. unfold leaf_entry_at, entry_size in *. nia. }
  assert (Hfit0 : INDEX_PAGE_HDR_SIZE + 8 <= PAGE_PAYLOAD_SIZE) by (unfold entry_size in *; nia).
  assert (Hl2 : zlen (set_leaf_right_sibling l1 sib) = PAGE_PAYLOAD_SIZE).
  { unfold set_leaf_right_sibling. rewrite <- F1. apply zlen_splice; rewrite ?zlen_le_bytes; unfold INDEX_PAGE_HDR_SIZE in *; lia. }
  destruct (hdr_frame l1 INDEX_PAGE_HDR_SIZE (le_bytes 8 sib)) as (G1 & G2 & G3); [lia|rewrite zlen_le_bytes; lia|].
  fold (set_leaf_right_sibling l1 sib) in G1, G2, G3.
  assert (Hle : INDEX_PAGE_HDR_SIZE <= leaf_entry_at ks 0) by (unfold leaf_entry_at, INDEX_PAGE_HDR_SIZE; lia).
  assert (Hb0 : 0 <= leaf_entry_at ks 0) by (unfold leaf_entry_at, INDEX_PAGE_HDR_SIZE; lia).
  set (l2 := set_leaf_right_sibling l1 sib) in *.
  destruct (hdr_frame l2 (leaf_entry_at ks 0) (concat (map enc es))) as (K1 & K2 & K3); [lia|lia|].
  split.
  - rewrite <- Hl2. apply zlen_splice; lia.
  - apply Forall_splice; [|by apply Forall_splice; auto with nyx].
    apply Forall_concat, Forall_map. apply (Forall_impl _ _ _ Hok). apply enc_is_byte.
  - congruence.
  - congruence.
  - congruence.
  - done.
  - rewrite sib_frame by lia. unfold leaf_right_sibling, l2, set_leaf_right_sibling.
    rewrite slice_splice_same by (rewrite ?zlen_le_bytes; unfold INDEX_PAGE_HDR_SIZE in *; lia). by apply (le_val_bytes 8).
  - done.
  - rewrite <- Hz. pose proof (zlen_nonneg (concat (map enc es))). apply slice_splice_same; lia.
Qed.

(** Changing the sibling of a leaf. *)
Lemma set_sibling_rep pl sib es sib' : leaf_rep pl sib es -> in_u 64 sib' ->
  leaf_rep (set_leaf_right_sibling pl sib') sib' es.
Proof using Hgeo.
  intros [Hl Hb Ht Hc Hcap Hf Hs Hok Hreg] Hs'. pose proof (g_fit _ _ _ Hgeo) as Hfit. pose proof esz_pos.
  pose proof (g_cap _ _ _ Hgeo).
  assert (Hfit0 : INDEX_PAGE_HDR_SIZE + 8 <= PAGE_PAYLOAD_SIZE) by (unfold entry_size in *; nia).
  destruct (hdr_frame pl INDEX_PAGE_HDR_SIZE (le_bytes 8 sib')) as (G1 & G2 & G3); [lia|rewrite zlen_le_bytes; lia|].
  unfold set_leaf_right_sibling. split; [|by auto with nyx|congruence|congruence|congruence|done| |done|].
  - rewrite <- Hl. apply zlen_splice; rewrite ?zlen_le_bytes; unfold INDEX_PAGE_HDR_SIZE in *; lia.
  - unfold leaf_right_sibling. rewrite slice_splice_same by (rewrite ?zlen_le_bytes; unfold INDEX_PAGE_HDR_SIZE in *; lia).
    by apply (le_val_bytes 8).
  - rewrite slice_splice_after; [done|..]; rewrite ?zlen_le_bytes; unfold leaf_entry_at, INDEX_PAGE_HDR_SIZE in *; lia.
Qed.

(** Changing the flags of a node. *)
Lemma set_flags_frame pl v : zlen pl = PAGE_PAYLOAD_SIZE -> Forall is_byte pl ->
  let pl' := set_hdr_flags pl v in
  zlen pl' = PAGE_PAYLOAD_SIZE /\ Forall is_byte pl' /\ hdr_page_type pl' = hdr_page_type pl /\
  hdr_entry_count pl' = hdr_entry_count pl /\ hdr_capacity pl' = hdr_capacity pl /\
  forall o m, INDEX_PAGE_HDR_SIZE <= o -> slice o m pl' = slice o m pl.
Proof using.
  intros Hl Hb. unfold set_hdr_flags, hdr_page_type, hdr_entry_count, hdr_capacity, PAGE_PAYLOAD_SIZE,
    PAGE_HEADER_SIZE, INDEX_PAGE_HDR_SIZE in *. rewrite PAGE_SIZE_eq in *. cbv zeta. split_and!.
  - zl.
  - auto with nyx.
  - by window.
  - by window.
  - by window.
  - intros o m Ho. by window.
Qed.

Lemma set_flags_leaf pl sib es v : leaf_rep pl sib es -> leaf_rep (set_hdr_flags pl v) sib es.
Proof using.
  intros [Hl Hb Ht Hc Hcap Hf Hs Hok Hreg]. destruct (set_flags_frame pl v Hl Hb) as (F1 & F2 & F3 & F4 & F5 & F6).
  split; [done|done|congruence|congruence|congruence|done| |done|].
  - unfold leaf_right_sibling. by rewrite F6.
  - rewrite F6; [done|]. unfold leaf_entry_at. lia.
Qed.

Lemma set_flags_internal pl keys cs v : internal_rep pl keys cs -> internal_rep (set_hdr_flags pl v) keys cs.
Proof using Hgeo.
  intros [Hl Hb Ht Hc Hcap Hf Hch Hok Hids Hcr Hkr]. destruct (set_flags_frame pl v Hl Hb) as (F1 & F2 & F3 & F4 & F5 & F6).
  pose proof (g_cap _ _ _ Hgeo).
  split; [done|done|congruence|congruence|congruence|done|done|done|done| |].
  - by rewrite F6.
  - rewrite F6; [done|]. unfold internal_key_at. lia.
Qed.

(** ** Splitting a leaf *)

Lemma zlen_map {A B} (g : A -> B) l : zlen (map g l) = zlen l.
Proof using. unfold zlen. by rewrite length_map. Qed.

Lemma split_leaf_buffer_eq pl sib es p e : leaf_rep pl sib es -> zlen es = cap -> (p <= length es)%nat -> entry_ok e ->
  split_leaf_buffer ks cap pl (Z.of_nat p) e.1 e.2 = concat (map enc (take p es ++ e :: drop p es)).
Proof using Hgeo.
  intros [Hl Hb Ht Hc Hcap Hf Hs Hok Hreg] Hfull Hp He. pose proof esz_pos as Hesz. pose proof He as [Hk _].
  pose proof (g_fit _ _ _ Hgeo) as Hfit. rewrite Hfull in Hreg.
  assert (Hfit2 : leaf_entry_at ks 0 + cap * entry_size ks <= zlen pl)
    by (unfold leaf_entry_at, entry_size in *; lia).
  assert (Hb0 : 0 <= leaf_entry_at ks 0) by (unfold leaf_entry_at, INDEX_PAGE_HDR_SIZE; lia).
  rewrite <- concat_enc_insert, <- Hreg by done. unfold split_leaf_buffer.
  assert (Hpc : 0 <= Z.of_nat p <= cap) by (unfold zlen in *; lia).
  replace (p * Z.to_nat (entry_size ks))%nat with (Z.to_nat (Z.of_nat p * entry_size ks)) by nia.
  set (k := Z.of_nat p * entry_size ks). set (n := cap * entry_size ks) in *.
  assert (Hkn : 0 <= k <= n) by (unfold k, n; nia).
  rewrite slice_take, drop_slice by lia.
  replace (leaf_entry_at ks (Z.of_nat p)) with (leaf_entry_at ks 0 + k) by (unfold leaf_entry_at, k; lia).
  replace ((cap - Z.of_nat p) * entry_size ks) with (n - k) by (unfold n, k; lia).
  replace ((Z.of_nat p + 1) * entry_size ks) with (k + zlen (enc e)) by (rewrite zlen_enc by done; unfold k; lia).
  replace ((cap + 1) * entry_size ks) with (n + zlen (enc e)) by (rewrite zlen_enc by done; unfold n; lia).
  set (x0 := slice (leaf_entry_at ks 0) k pl). set (x1 := slice (leaf_entry_at ks 0 + k) (n - k) pl).
  assert (H0 : zlen x0 = k) by (apply zlen_slice; lia). assert (H1 : zlen x1 = n - k) by (apply zlen_slice; lia).
  pose proof (zlen_enc e He) as Henc.
  assert (Hz : zlen (zeros (n + zlen (enc e))) = n + zlen (enc e)) by (apply zlen_zeros; lia).
  assert (Hmerge : splice (k + ks) (le_bytes 8 e.2) (splice k e.1 (splice 0 x0 (zeros (n + zlen (enc e))))) =
    splice 0 (x0 ++ enc e) (zeros (n + zlen (enc e)))).
  { replace (k + ks) with (k + zlen e.1) by (rewrite key_len by done; lia).
    rewrite splice_splice_app.
    - rewrite <- (splice_splice_app x0 (enc e)) by lia. by replace (0 + zlen x0) with k by lia.
    - lia.
    - rewrite zlen_splice, zlen_le_bytes, key_len by (done || lia). unfold entry_size in *. lia. }
  rewrite Hmerge. destruct (Z.gtb_spec (cap - Z.of_nat p) 0).
  - replace (k + zlen (enc e)) with (0 + zlen (x0 ++ enc e)) by (rewrite zlen_app; lia).
    rewrite splice_splice_app, <- app_assoc by (rewrite ?zlen_app; lia).
    apply splice_full. rewrite !length_app. unfold zlen in *. lia.
  - assert (Hx1 : x1 = []) by (apply length_zero_iff_nil; unfold zlen, k, n in *; nia). rewrite Hx1, app_nil_r.
    apply splice_full. rewrite !length_app. unfold zlen, k, n in *. nia.
Qed.

Section split_leaf.
Context (es : list entry) (mid : nat).
Hypothesis Hok : Forall entry_ok es.
Hypothesis Hes : zlen es = cap + 1.
Hypothesis Hmid : (1 <= mid)%nat /\ Z.of_nat mid <= cap.

Lemma split_leaf_left_rep pl sib es0 : leaf_rep pl sib es0 ->
  leaf_rep (split_leaf_left ks cap pl (concat (map enc es)) (Z.of_nat mid)) sib (take mid es).
Proof using Hgeo Hok Hes Hmid.
  intros [Hl Hb Ht Hc Hcap Hf Hs Hok0 Hreg]. pose proof esz_pos as Hesz. pose proof (g_cap _ _ _ Hgeo) as Hcp.
  pose proof (g_fit _ _ _ Hgeo) as Hfit. unfold split_leaf_left.
  destruct (set_count_fields pl (Z.of_nat mid)) as (F1 & F2 & F3 & F4 & F5 & F6); [done|done|unfold in_u; lia|].
  set (l1 := set_hdr_entry_count pl (Z.of_nat mid)) in *.
  assert (Hx : slice 0 (Z.of_nat mid * entry_size ks) (concat (map enc es)) = concat (map enc (take mid es))).
  { unfold slice. rewrite drop_0. replace (Z.to_nat (Z.of_nat mid * entry_size ks)) with (mid * Z.to_nat (entry_size ks))%nat by nia.
    rewrite take_concat by (lia || by apply enc_blocks). by rewrite firstn_map. }
  rewrite Hx. assert (Hok' : Forall entry_ok (take mid es)) by by apply Forall_take.
  assert (Hzt : zlen (take mid es) = Z.of_nat mid) by (unfold zlen in *; rewrite length_take; lia).
  assert (Hz : zlen (concat (map enc (take mid es))) = Z.of_nat mid * entry_size ks).
  { rewrite (zlen_concat (entry_size ks)), zlen_map, Hzt by by apply enc_blocks. done. }
  set (x := concat (map enc (take mid es))) in *. set (b := leaf_entry_at ks 0) in *.
  set (m := Z.of_nat mid * entry_size ks) in *. set (n := cap * entry_size ks).
  assert (Hnum : INDEX_PAGE_HDR_SIZE + 8 = b /\ 0 <= b /\ 0 <= m <= n /\ b + n <= zlen l1).
  { unfold b, m, n, leaf_entry_at, INDEX_PAGE_HDR_SIZE, entry_size in *. nia. }
  destruct Hnum as (N1 & N2 & N3 & N4). clear Hfit.
  assert (Hl2 : zlen (splice b x l1) = zlen l1) by (apply zlen_splice; lia).
  assert (Hrest : exists pl', (if cap >? Z.of_nat mid then splice (leaf_entry_at ks (Z.of_nat mid))
      (zeros ((cap - Z.of_nat mid) * entry_size ks)) (splice b x l1) else splice b x l1) = splice (b + m) (zeros pl') (splice b x l1) /\ 0 <= pl' <= n - m).
  { destruct (Z.gtb_spec cap (Z.of_nat mid)).
    - exists ((cap - Z.of_nat mid) * entry_size ks). split; [|unfold n, m; nia]. f_equal; unfold b, m, leaf_entry_at; lia.
    - exists 0. split; [change (zeros 0) with (@nil Z); by rewrite splice_nil|lia]. }
  destruct Hrest as (z & -> & Hz0). assert (Hzz : zlen (zeros z) = z) by (apply zlen_zeros; lia).
  destruct (hdr_frame l1 b x) as (G1 & G2 & G3); [lia|lia|].
  destruct (hdr_frame (splice b x l1) (b + m) (zeros z)) as (K1 & K2 & K3); [lia|lia|].
  split; rewrite ?Hzt.
  - rewrite zlen_splice; lia.
  - apply Forall_splice; [auto with nyx|]. apply Forall_splice; [|done].
    apply Forall_concat, Forall_map, (Forall_impl _ _ _ Hok'), enc_is_byte.
  - congruence.
  - congruence.
  - congruence.
  - lia.
  - rewrite !sib_frame by (fold b; lia). unfold leaf_right_sibling. rewrite F6; [done|lia].
  - done.
  - fold m. rewrite slice_splice_before, <- Hz by lia. apply slice_splice_same; [lia|lia|done].
Qed.

Lemma split_leaf_right_rep pl sib : zlen pl = PAGE_PAYLOAD_SIZE -> Forall is_byte pl -> in_u 64 sib ->
  leaf_rep (split_leaf_right ks cap pl (concat (map enc es)) (Z.of_nat mid) sib) sib (drop mid es).
Proof using Hgeo Hok Hes Hmid.
  intros Hl Hb Hs. pose proof esz_pos. pose proof (g_cap _ _ _ Hgeo).
  assert (Hzd : zlen (drop mid es) = cap + 1 - Z.of_nat mid) by (unfold zlen in *; rewrite length_drop; lia).
  unfold split_leaf_right. rewrite wrap_id by (unfold in_u; lia). rewrite <- Hzd.
  replace (slice (Z.of_nat mid * entry_size ks) (zlen (drop mid es) * entry_size ks) (concat (map enc es)))
    with (concat (map enc (drop mid es))).
  - apply new_leaf_rep; [done|done|done|by apply Forall_drop|lia].
  - unfold slice. replace (Z.to_nat (Z.of_nat mid * entry_size ks)) with (mid * Z.to_nat (entry_size ks))%nat by nia.
    rewrite drop_concat by (lia || by apply enc_blocks). rewrite skipn_map, take_ge; [done|].
    pose proof (zlen_concat (entry_size ks) (map enc (drop mid es)) (enc_blocks _ (Forall_drop _ _ _ Hok))) as Hz.
    rewrite zlen_map in Hz. unfold zlen in *. lia.
Qed.
End split_leaf.

(** ** Writing internal nodes *)

Definition child_bytes (cs : list Z) : bytes := concat (map (le_bytes 8) cs).

Lemma zlen_child_bytes cs : zlen (child_bytes cs) = zlen cs * 8.
Proof using. unfold child_bytes. rewrite (zlen_concat 8), zlen_map; [done|apply child_blocks]. Qed.

Lemma child_bytes_is_byte cs : Forall is_byte (child_bytes cs).
Proof using. apply Forall_concat, Forall_map, Forall_true. auto with nyx. Qed.

Lemma zlen_keys keys : Forall (key_ok specs) keys -> zlen (concat keys) = zlen keys * ks.
Proof using Hgeo. intros H. apply (zlen_concat ks). by apply key_blocks. Qed.

Lemma keys_is_byte keys : Forall (key_ok specs) keys -> Forall is_byte (concat keys).
Proof using. intros H. apply Forall_concat. apply (Forall_impl _ _ _ H). by intros k (_ & ? & _). Qed.

(** The two regions of an internal node. *)
Lemma internal_fit : 0 < ks /\ 0 < cap /\
  internal_key_at ks cap 0 = INDEX_PAGE_HDR_SIZE + (cap + 1) * 8 /\
  INDEX_PAGE_HDR_SIZE + (cap + 1) * 8 + cap * ks <= PAGE_PAYLOAD_SIZE.
Proof using Hgeo.
  pose proof (g_fit _ _ _ Hgeo). pose proof (g_cap _ _ _ Hgeo). pose proof (g_pos _ _ _ Hgeo).
  unfold internal_key_at. split_and!; lia.
Qed.

Lemma internal_write l keys cs : zlen l = PAGE_PAYLOAD_SIZE -> Forall is_byte l ->
  hdr_page_type l = IDX_PAGE_INTERNAL -> hdr_entry_count l = zlen keys -> hdr_capacity l = cap ->
  Forall (key_ok specs) keys -> Forall (in_u 64) cs -> zlen keys <= cap -> zlen cs = zlen keys + 1 ->
  internal_rep (splice (internal_key_at ks cap 0) (concat keys)
    (splice INDEX_PAGE_HDR_SIZE (child_bytes cs) l)) keys cs.
Proof using Hgeo.
  intros Hl Hb Ht Hc Hcap Hok Hids Hf Hlen. destruct internal_fit as (Hks & Hcp & Hka & Hfit).
  pose proof (zlen_child_bytes cs) as Hz1. pose proof (zlen_keys keys Hok) as Hz2.
  pose proof (zlen_nonneg keys) as H0.
  assert (Hk2 : zlen keys * ks <= cap * ks) by nia. unfold INDEX_PAGE_HDR_SIZE in *.
  set (l1 := splice 8 (child_bytes cs) l).
  assert (Hl1 : zlen l1 = zlen l) by (apply zlen_splice; lia).
  destruct (hdr_frame l 8 (child_bytes cs)) as (G1 & G2 & G3); [done|lia|]. fold l1 in G1, G2, G3.
  destruct (hdr_frame l1 (internal_key_at ks cap 0) (concat keys)) as (K1 & K2 & K3); [unfold INDEX_PAGE_HDR_SIZE; lia|lia|].
  split; [| |congruence|congruence|congruence|done|done|done|done| |].
  - rewrite zlen_splice; lia.
  - apply Forall_splice; [by apply keys_is_byte|]. apply Forall_splice; [apply child_bytes_is_byte|done].
  - unfold INDEX_PAGE_HDR_SIZE. rewrite slice_splice_before by lia. rewrite <- Hz1. apply slice_splice_same; [lia|lia|done].
  - rewrite <- Hz2. apply slice_splice_same; lia.
Qed.

Lemma new_internal_rep pl flags keys cs : zlen pl = PAGE_PAYLOAD_SIZE -> Forall is_byte pl ->
  Forall (key_ok specs) keys -> Forall (in_u 64) cs -> zlen keys <= cap -> zlen cs = zlen keys + 1 ->
  internal_rep (splice (internal_key_at ks cap 0) (concat keys)
    (splice INDEX_PAGE_HDR_SIZE (child_bytes cs) (init_hdr pl IDX_PAGE_INTERNAL flags (zlen keys) cap))) keys cs.
Proof using Hgeo.
  intros Hl Hb Hok Hids Hf Hlen. pose proof (g_cap _ _ _ Hgeo). pose proof (zlen_nonneg keys).
  destruct (init_hdr_fields pl IDX_PAGE_INTERNAL flags (zlen keys)) as (F1 & F2 & F3 & F4 & F5 & _);
    [done|done|unfold IDX_PAGE_INTERNAL, in_u; lia|unfold in_u; lia|].
  by apply internal_write.
Qed.

(** The blocks of a run of slots. *)
Lemma slice_blocks sz (K : list bytes) from n : 0 <= sz -> blocks sz K -> 0 <= from -> 0 <= n -> from + n <= zlen K ->
  map (fun i => slice ((from + Z.of_nat i) * sz) sz (concat K)) (seq 0 (Z.to_nat n)) = slice from n K.
Proof using.
  intros Hsz HK Hf Hn Hl. apply list_eq. intros i. rewrite list_lookup_fmap.
  destruct (decide (i < Z.to_nat n)%nat) as [Hi|Hi].
  - rewrite lookup_seq_lt by done. simpl. unfold slice at 2. rewrite lookup_take_lt, lookup_drop by done.
    destruct (lookup_lt_is_Some_2 K (Z.to_nat from + i)) as [b Hb]; [unfold zlen in *; lia|]. rewrite Hb. f_equal.
    apply slice_concat; [done|done|lia|]. rewrite <- Hb. f_equal. lia.
  - rewrite lookup_seq_ge by lia. simpl. symmetry. apply lookup_ge_None. unfold slice.
    rewrite length_take, length_drop. lia.
Qed.

Lemma fill_internal_eq l K C from n : zlen l = PAGE_PAYLOAD_SIZE -> Forall (key_ok specs) K ->
  0 <= from -> 0 <= n <= cap -> from + n <= zlen K -> from + n + 1 <= zlen C ->
  fill_internal ks cap l (concat K) C from n =
  splice (internal_key_at ks cap 0) (concat (slice from n K))
    (splice INDEX_PAGE_HDR_SIZE (child_bytes (slice from (n + 1) C)) l).
Proof using Hgeo.
  intros Hl HK Hf Hn HlK HlC. destruct internal_fit as (Hks & Hcp & Hka & Hfit). unfold fill_internal.
  assert (Hc1 : zlen (slice from (n + 1) C) = n + 1) by (apply zlen_slice; lia).
  assert (Hk1 : zlen (slice from n K) = n) by (apply zlen_slice; lia).
  assert (Hok : Forall (key_ok specs) (slice from n K)) by by apply Forall_slice.
  unfold INDEX_PAGE_HDR_SIZE in *.
  rewrite (fill_eq 8); [|lia|apply child_blocks|lia|lia|rewrite zlen_map; nia].
  rewrite slice_blocks; [|lia|by apply key_blocks|lia|lia|lia].
  rewrite (fill_eq ks); [|lia|by apply key_blocks|lia|lia|].
  - unfold child_bytes. f_equal; lia.
  - rewrite zlen_splice; [nia|lia|]. fold (child_bytes (slice from (n + 1) C)). rewrite zlen_child_bytes. lia.
Qed.

(** ** Inserting into and splitting internal nodes *)

Definition insert_at {A} (p : nat) (x : A) (l : list A) : list A := take p l ++ x :: drop p l.

Lemma zlen_insert_at {A} p (x : A) l : (p <= length l)%nat -> zlen (insert_at p x l) = zlen l + 1.
Proof using. intros. unfold insert_at, zlen. rewrite length_app. simpl. rewrite length_take, length_drop. lia. Qed.

Lemma Forall_insert_at {A} (P : A -> Prop) p x l : P x -> Forall P l -> Forall P (insert_at p x l).
Proof using. intros. apply Forall_app. split; [by apply Forall_take|]. constructor; [done|by apply Forall_drop]. Qed.

(** A block inserted among blocks of its size, by [memmove] and [memcpy]. *)
Lemma splice_insert_blocks sz (bs : list bytes) p x b pl : 0 <= sz -> blocks sz bs -> zlen x = sz -> (p <= length bs)%nat ->
  0 <= b -> b + (zlen bs + 1) * sz <= zlen pl -> slice b (zlen bs * sz) pl = concat bs ->
  slice b ((zlen bs + 1) * sz)
    (splice (b + Z.of_nat p * sz) x
      (splice (b + (Z.of_nat p + 1) * sz) (slice (b + Z.of_nat p * sz) ((zlen bs - Z.of_nat p) * sz) pl) pl)) =
  concat (insert_at p x bs).
Proof using.
  intros Hsz Hbs Hx Hp Hb Hl Hreg.
  replace ((zlen bs + 1) * sz) with (zlen bs * sz + zlen x) by lia.
  replace (b + (Z.of_nat p + 1) * sz) with (b + Z.of_nat p * sz + zlen x) by lia.
  replace ((zlen bs - Z.of_nat p) * sz) with (zlen bs * sz - Z.of_nat p * sz) by lia.
  rewrite slice_insert_block by (unfold zlen in *; nia). rewrite Hreg.
  replace (Z.to_nat (Z.of_nat p * sz)) with (p * Z.to_nat sz)%nat by nia.
  rewrite take_concat, drop_concat by done. unfold insert_at. by rewrite concat_app.
Qed.

Section insert_internal.
Context (pl : bytes) (keys : list bytes) (cs : list Z) (p : nat) (sep : bytes) (right : Z).
Hypothesis Hr : internal_rep pl keys cs.
Hypothesis Hp : (p <= length keys)%nat.
Hypothesis Hsep : key_ok specs sep.
Hypothesis Hright : in_u 64 right.

Lemma insert_internal_eq : zlen keys < cap ->
  insert_internal_entry ks cap pl (Z.of_nat p) sep right (zlen keys) =
  let kb := internal_key_at ks cap 0 in
  let l1 := splice (8 + (Z.of_nat p + 1 + 1) * 8) (slice (8 + (Z.of_nat p + 1) * 8) ((zlen cs - (Z.of_nat p + 1)) * 8) pl) pl in
  let l2 := splice (8 + (Z.of_nat p + 1) * 8) (le_bytes 8 right) l1 in
  splice (kb + Z.of_nat p * ks) sep
    (splice (kb + (Z.of_nat p + 1) * ks) (slice (kb + Z.of_nat p * ks) ((zlen keys - Z.of_nat p) * ks) l2) l2).
Proof using Hgeo Hr Hp.
  intros Hroom. pose proof (nr_children _ _ _ Hr) as Hlen. destruct internal_fit as (Hks & _).
  unfold insert_internal_entry, set_child, internal_child_at, INDEX_PAGE_HDR_SIZE. cbv zeta.
  destruct (Z.leb_spec (Z.of_nat p) (zlen keys)); [|unfold zlen in *; lia].
  replace (8 + (Z.of_nat p + 2) * 8) with (8 + (Z.of_nat p + 1 + 1) * 8) by lia.
  replace ((zlen keys - Z.of_nat p) * 8) with ((zlen cs - (Z.of_nat p + 1)) * 8) by lia.
  set (l2 := splice (8 + (Z.of_nat p + 1) * 8) (le_bytes 8 right) _).
  replace (Z.of_nat p <? zlen keys) with (0 <? (zlen keys - Z.of_nat p) * ks)
    by (destruct (Z.ltb_spec 0 ((zlen keys - Z.of_nat p) * ks)), (Z.ltb_spec (Z.of_nat p) (zlen keys)); nia).
  rewrite gap_branch by nia. unfold internal_key_at, INDEX_PAGE_HDR_SIZE.
  f_equal; [lia|f_equal; [lia|f_equal; lia]].
Qed.

Lemma insert_internal_rep : zlen keys < cap ->
  internal_rep (set_hdr_entry_count (insert_internal_entry ks cap pl (Z.of_nat p) sep right (zlen keys)) (zlen keys + 1))
    (insert_at p sep keys) (insert_at (S p) right cs).
Proof using All.
  intros Hroom. rewrite insert_internal_eq by done. cbv zeta.
  pose proof Hr as [Hl Hb Ht Hc Hcap Hf Hch Hok Hids Hcr Hkr]. destruct internal_fit as (Hks & Hcp & Hka & Hfit).
  pose proof (g_cap _ _ _ Hgeo) as Hcap2. pose proof (zlen_nonneg keys) as Hk0. unfold INDEX_PAGE_HDR_SIZE in *.
  set (kb := internal_key_at ks cap 0) in *. set (q := Z.of_nat p).
  assert (Hq : 0 <= q <= zlen keys) by (unfold q, zlen; lia).
  assert (Hkk : (zlen keys + 1) * ks <= cap * ks) by nia. assert (Hqk : 0 <= q * ks <= zlen keys * ks) by nia.
  pose proof (key_len sep Hsep) as Hsl.
  assert (Z1 : zlen (slice (8 + (q + 1) * 8) ((zlen cs - (q + 1)) * 8) pl) = (zlen cs - (q + 1)) * 8) by (apply zlen_slice; lia).
  set (l1 := splice (8 + (q + 1 + 1) * 8) _ pl). assert (L1 : zlen l1 = zlen pl) by (apply zlen_splice; lia).
  set (l2 := splice (8 + (q + 1) * 8) _ l1).
  assert (L2 : zlen l2 = zlen pl) by (rewrite <- L1; apply zlen_splice; rewrite ?zlen_le_bytes; lia).
  assert (Z2 : zlen (slice (kb + q * ks) ((zlen keys - q) * ks) l2) = (zlen keys - q) * ks) by (apply zlen_slice; lia).
  set (l3 := splice (kb + (q + 1) * ks) _ l2). assert (L3 : zlen l3 = zlen pl) by (rewrite <- L2; apply zlen_splice; lia).
  set (l4 := splice (kb + q * ks) sep l3). assert (L4 : zlen l4 = zlen pl) by (rewrite <- L3; apply zlen_splice; lia).
  assert (Hb4 : Forall is_byte l4).
  { destruct Hsep as (_ & ? & _). unfold l4, l3, l2, l1. auto 12 with nyx. }
  assert (Hh : hdr_page_type l4 = hdr_page_type pl /\ hdr_capacity l4 = hdr_capacity pl).
  { destruct (hdr_frame pl (8 + (q + 1 + 1) * 8) (slice (8 + (q + 1) * 8) ((zlen cs - (q + 1)) * 8) pl)) as (A1 & _ & A3);
      [unfold INDEX_PAGE_HDR_SIZE; lia|lia|].
    destruct (hdr_frame l1 (8 + (q + 1) * 8) (le_bytes 8 right)) as (B1 & _ & B3);
      [unfold INDEX_PAGE_HDR_SIZE; lia|rewrite zlen_le_bytes; lia|].
    destruct (hdr_frame l2 (kb + (q + 1) * ks) (slice (kb + q * ks) ((zlen keys - q) * ks) l2)) as (C1 & _ & C3);
      [unfold INDEX_PAGE_HDR_SIZE; lia|lia|].
    destruct (hdr_frame l3 (kb + q * ks) sep) as (D1 & _ & D3); [unfold INDEX_PAGE_HDR_SIZE; lia|lia|].
    fold l1 in A1, A3. fold l2 in B1, B3. fold l3 in C1, C3. fold l4 in D1, D3. split; congruence. }
  destruct Hh as [Hh1 Hh2].
  destruct (set_count_fields l4 (zlen keys + 1)) as (F1 & F2 & F3 & F4 & F5 & F6); [lia|done|unfold in_u; lia|].
  split; rewrite ?zlen_insert_at by (unfold zlen in *; lia); try done; try congruence; try lia.
  - by apply Forall_insert_at.
  - by apply Forall_insert_at.
  - rewrite F6 by (unfold INDEX_PAGE_HDR_SIZE; lia). unfold INDEX_PAGE_HDR_SIZE, l4.
    rewrite slice_splice_before by lia. unfold l3. rewrite slice_splice_before by lia. unfold l2, l1.
    pose proof (splice_insert_blocks 8 (map (le_bytes 8) cs) (S p) (le_bytes 8 right) 8 pl) as Hins.
    rewrite !zlen_map, length_map, Nat2Z.inj_succ, <- Z.add_1_r in Hins. fold q in Hins. rewrite Hins.
    + unfold insert_at. by rewrite map_app, map_cons, firstn_map, skipn_map.
    + lia.
    + apply child_blocks.
    + apply zlen_le_bytes.
    + unfold zlen in *. lia.
    + lia.
    + lia.
    + done.
  - fold kb. rewrite F6 by (unfold INDEX_PAGE_HDR_SIZE; lia). unfold l4, l3.
    apply splice_insert_blocks; [lia|by apply key_blocks|done|done|lia|lia|].
    unfold l2. rewrite slice_splice_after by (rewrite ?zlen_le_bytes; lia).
    unfold l1. by rewrite slice_splice_after by lia.
Qed.
End insert_internal.

(** The shifting loop moves the tail up by one. *)
Lemma shift_up_lookup n slot i tmp j : 0 <= slot -> (Z.to_nat i <= n)%nat -> i < zlen tmp ->
  shift_up n slot i tmp !! j =
  if decide (slot + 1 < Z.of_nat j <= i) then tmp !! (j - 1)%nat else tmp !! j.
Proof using.
  intros Hs. revert i tmp. induction n as [|n IH]; intros i tmp Hn Hi; cbn [shift_up].
  - by rewrite decide_False by lia.
  - destruct (Z.gtb_spec i (slot + 1)); [|by rewrite decide_False by lia].
    rewrite IH by (unfold zlen in *; rewrite ?length_insert; lia).
    destruct (decide (j = Z.to_nat i)) as [->|Hj].
    + rewrite (decide_False (P := _ < _ <= i - 1)) by lia. rewrite (decide_True (P := _ < _ <= i)) by lia.
      rewrite list_lookup_insert_eq by (unfold zlen in *; lia).
      replace (Z.to_nat (i - 1)) with (Z.to_nat i - 1)%nat by lia.
      destruct (lookup_lt_is_Some_2 tmp (Z.to_nat i - 1)) as [x Hx]; [unfold zlen in *; lia|].
      rewrite nth_lookup, Hx. done.
    + destruct (decide (slot + 1 < Z.of_nat j <= i)).
      * rewrite decide_True by lia. by rewrite list_lookup_insert_ne by lia.
      * rewrite decide_False by lia. by rewrite list_lookup_insert_ne by lia.
Qed.

Section split_internal.
Context (pl : bytes) (keys : list bytes) (cs : list Z) (p : nat) (sep : bytes) (right : Z).
Hypothesis Hr : internal_rep pl keys cs.
Hypothesis Hp : (p <= length keys)%nat.
Hypothesis Hsep : key_ok specs sep.
Hypothesis Hfull : zlen keys = cap.

Lemma split_children_eq : split_children_buffer cap pl (Z.of_nat p) right = insert_at (S p) right cs.
Proof using Hr Hp Hfull.
  pose proof (nr_children _ _ _ Hr) as Hlen. unfold split_children_buffer. rewrite (nr_count _ _ _ Hr), Hfull.
  replace (map (fun i => get_child pl (Z.of_nat i)) (seq 0 (Z.to_nat (cap + 1)))) with cs.
  2: { apply list_eq. intros i. rewrite list_lookup_fmap. destruct (cs !! i) as [c|] eqn:Hc.
    - pose proof (lookup_lt_Some _ _ _ Hc). rewrite lookup_seq_lt by (unfold zlen in *; lia). simpl.
      rewrite (child_read pl keys cs (Z.of_nat i) c Hr); [done|lia|by rewrite Nat2Z.id].
    - apply lookup_ge_None in Hc. by rewrite lookup_seq_ge by (unfold zlen in *; lia). }
  replace (Z.to_nat (cap + 2 - (cap + 1))) with 1%nat by lia. cbn [replicate].
  assert (Hz : zlen (cs ++ [0]) = cap + 2) by (rewrite zlen_app; change (zlen [0]) with 1; lia).
  assert (Hcl : length cs = Z.to_nat (cap + 1)) by (unfold zlen in *; lia).
  assert (Hpc : Z.of_nat p <= cap) by (unfold zlen in *; lia). pose proof (zlen_nonneg keys).
  apply list_eq. intros j. replace (Z.to_nat (Z.of_nat p + 1)) with (S p) by lia. unfold insert_at.
  assert (Hlt : length (take (S p) cs) = S p) by (rewrite length_take; unfold zlen in *; lia).
  destruct (decide (j = S p)) as [->|Hj].
  - rewrite list_lookup_insert_eq.
    + rewrite lookup_app_r by lia. by rewrite Hlt, Nat.sub_diag.
    + apply lookup_lt_is_Some. rewrite shift_up_lookup by (unfold zlen in *; lia).
      rewrite decide_False by lia. apply lookup_lt_is_Some. unfold zlen in *. lia.
  - rewrite list_lookup_insert_ne by done. rewrite shift_up_lookup by (unfold zlen in *; lia).
    destruct (decide (Z.of_nat p + 1 < Z.of_nat j <= cap + 2 - 1)) as [Hd|Hd].
    + rewrite (lookup_app_r (take (S p) cs)) by lia. rewrite Hlt. replace (j - S p)%nat with (S (j - S p - 1)) by lia. simpl.
      rewrite lookup_drop, lookup_app_l by lia. f_equal. lia.
    + destruct (decide (j <= S p)%nat).
      * rewrite (lookup_app_l _ (right :: _)) by lia. rewrite lookup_take_lt by lia. apply lookup_app_l. lia.
      * rewrite !lookup_ge_None_2; [done|rewrite length_app; simpl; rewrite Hlt, length_drop; lia|].
        unfold zlen in Hz. lia.
Qed.

Lemma split_keys_eq : split_keys_buffer ks cap pl (Z.of_nat p) sep = concat (insert_at p sep keys).
Proof using Hgeo Hr Hp Hsep Hfull.
  destruct internal_fit as (Hks & Hcp & Hka & Hfit). pose proof (nr_ok _ _ _ Hr) as Hok.
  pose proof (key_blocks keys Hok) as HK. unfold split_keys_buffer. rewrite (nr_count _ _ _ Hr), Hfull.
  replace (map (fun i => internal_key ks cap pl (Z.of_nat i)) (seq 0 (Z.to_nat cap))) with keys.
  2: { apply list_eq. intros i. rewrite list_lookup_fmap. destruct (keys !! i) as [k|] eqn:Hk.
    - pose proof (lookup_lt_Some _ _ _ Hk). rewrite lookup_seq_lt by (unfold zlen in *; lia). simpl.
      rewrite (internal_key_read pl keys cs (Z.of_nat i) k Hr); [done|lia|by rewrite Nat2Z.id].
    - apply lookup_ge_None in Hk. by rewrite lookup_seq_ge by (unfold zlen in *; lia). }
  assert (Hz : zlen (zeros ((cap + 1) * ks)) = (cap + 1) * ks) by (apply zlen_zeros; nia).
  rewrite (fill_eq ks); [|lia|done|lia|lia|rewrite Hz; nia]. change (0 + 0 * ks) with 0.
  pose proof (zlen_keys keys Hok) as Hzk. rewrite Hfull in Hzk.
  set (tmp := splice 0 (concat keys) _). assert (Ht : zlen tmp = (cap + 1) * ks) by (rewrite <- Hz; apply zlen_splice; lia).
  assert (Hreg : slice 0 (zlen keys * ks) tmp = concat keys)
    by (rewrite Hfull; apply slice_splice_same; lia).
  replace (Z.of_nat p <? cap) with (0 <? (cap - Z.of_nat p) * ks)
    by (destruct (Z.ltb_spec 0 ((cap - Z.of_nat p) * ks)), (Z.ltb_spec (Z.of_nat p) cap); nia).
  rewrite gap_branch by (unfold zlen in *; nia).
  pose proof (splice_insert_blocks ks keys p sep 0 tmp) as Hins. rewrite !Z.add_0_l, Hfull in Hins.
  rewrite <- Hins; [|lia|done|by apply key_len|done|lia|lia|by rewrite <- Hfull]. symmetry.
  unfold slice at 1. rewrite drop_0, take_ge; [done|].
  assert (Hpk : 0 <= Z.of_nat p * ks <= cap * ks) by (unfold zlen in *; nia).
  match goal with |- (length ?x <= _)%nat => assert (Hx : zlen x = zlen tmp); [|unfold zlen in *; lia] end.
  assert (Hs : zlen (slice (Z.of_nat p * ks) ((cap - Z.of_nat p) * ks) tmp) = (cap - Z.of_nat p) * ks)
    by (apply zlen_slice; lia).
  rewrite !zlen_splice; rewrite ?zlen_splice; rewrite ?(key_len sep Hsep); lia.
Qed.

Hypothesis Hright : in_u 64 right.
Context (mid : nat).
Hypothesis Hmid : (1 <= mid)%nat /\ Z.of_nat mid <= cap.

Lemma split_internal_left_rep :
  internal_rep (split_internal_left ks cap pl (concat (insert_at p sep keys)) (insert_at (S p) right cs) (Z.of_nat mid))
    (take mid (insert_at p sep keys)) (take (S mid) (insert_at (S p) right cs)).
Proof using All.
  pose proof Hr as [Hl Hb Ht Hc Hcap Hf Hch Hok Hids _ _]. destruct internal_fit as (Hks & Hcp & Hka & Hfit).
  pose proof (g_cap _ _ _ Hgeo) as Hcap2.
  assert (HK : Forall (key_ok specs) (insert_at p sep keys)) by by apply Forall_insert_at.
  assert (HC : Forall (in_u 64) (insert_at (S p) right cs)) by by apply Forall_insert_at.
  assert (LK : zlen (insert_at p sep keys) = cap + 1) by (rewrite zlen_insert_at; [lia|done]).
  assert (LC : zlen (insert_at (S p) right cs) = cap + 2) by (rewrite zlen_insert_at; unfold zlen in *; lia).
  set (K := insert_at p sep keys) in *. set (C := insert_at (S p) right cs) in *.
  destruct (set_count_fields pl (Z.of_nat mid)) as (F1 & F2 & F3 & F4 & F5 & F6); [done|done|unfold in_u; lia|].
  unfold split_internal_left. set (l1 := set_hdr_entry_count pl (Z.of_nat mid)) in *.
  assert (Z1 : zlen (zeros ((cap + 1) * 8)) = (cap + 1) * 8) by (apply zlen_zeros; lia).
  assert (Z2 : zlen (zeros (cap * ks)) = cap * ks) by (apply zlen_zeros; nia).
  change (internal_child_at 0) with INDEX_PAGE_HDR_SIZE. unfold INDEX_PAGE_HDR_SIZE in *.
  set (l2 := splice 8 (zeros ((cap + 1) * 8)) l1). assert (L2 : zlen l2 = zlen l1) by (apply zlen_splice; lia).
  set (l3 := splice (internal_key_at ks cap 0) (zeros (cap * ks)) l2). assert (L3 : zlen l3 = zlen l2) by (apply zlen_splice; lia).
  destruct (hdr_frame l1 8 (zeros ((cap + 1) * 8))) as (A1 & A2 & A3); [unfold INDEX_PAGE_HDR_SIZE; lia|lia|].
  destruct (hdr_frame l2 (internal_key_at ks cap 0) (zeros (cap * ks))) as (B1 & B2 & B3); [unfold INDEX_PAGE_HDR_SIZE; lia|lia|].
  fold l2 in A1, A2, A3. fold l3 in B1, B2, B3.
  rewrite fill_internal_eq; [|lia|done|lia|lia|lia|lia].
  assert (E1 : slice 0 (Z.of_nat mid) K = take mid K) by (unfold slice; by rewrite Nat2Z.id).
  assert (E2 : slice 0 (Z.of_nat mid + 1) C = take (S mid) C) by (unfold slice; rewrite drop_0; f_equal; lia).
  assert (T1 : zlen (take mid K) = Z.of_nat mid) by (unfold zlen in *; rewrite length_take; lia).
  assert (T2 : zlen (take (S mid) C) = Z.of_nat mid + 1) by (unfold zlen in *; rewrite length_take; lia).
  rewrite E1, E2. apply internal_write; try lia; try congruence; try (by apply Forall_take).
  unfold l3, l2. auto 10 with nyx.
Qed.

Lemma split_internal_right_rep pl0 : zlen pl0 = PAGE_PAYLOAD_SIZE -> Forall is_byte pl0 ->
  internal_rep (split_internal_right ks cap pl0 (concat (insert_at p sep keys)) (insert_at (S p) right cs) (Z.of_nat mid))
    (drop (S mid) (insert_at p sep keys)) (drop (S mid) (insert_at (S p) right cs)).
Proof using All.
  intros Hl0 Hb0. pose proof Hr as [Hl Hb Ht Hc Hcap Hf Hch Hok Hids _ _]. pose proof (g_cap _ _ _ Hgeo) as Hcap2.
  assert (HK : Forall (key_ok specs) (insert_at p sep keys)) by by apply Forall_insert_at.
  assert (HC : Forall (in_u 64) (insert_at (S p) right cs)) by by apply Forall_insert_at.
  assert (LK : zlen (insert_at p sep keys) = cap + 1) by (rewrite zlen_insert_at; [lia|done]).
  assert (LC : zlen (insert_at (S p) right cs) = cap + 2) by (rewrite zlen_insert_at; unfold zlen in *; lia).
  set (K := insert_at p sep keys) in *. set (C := insert_at (S p) right cs) in *.
  assert (T1 : zlen (drop (S mid) K) = cap - Z.of_nat mid) by (unfold zlen in *; rewrite length_drop; lia).
  assert (T2 : zlen (drop (S mid) C) = cap + 1 - Z.of_nat mid) by (unfold zlen in *; rewrite length_drop; lia).
  unfold split_internal_right. replace (cap + 1 - Z.of_nat mid - 1) with (cap - Z.of_nat mid) by lia.
  rewrite wrap_id by (unfold in_u; lia).
  destruct (init_hdr_fields pl0 IDX_PAGE_INTERNAL 0 (cap - Z.of_nat mid)) as (F1 & _);
    [done|done|unfold IDX_PAGE_INTERNAL, in_u; lia|unfold in_u; lia|].
  rewrite fill_internal_eq; [|done|done|lia|lia|lia|lia].
  assert (E1 : slice (Z.of_nat mid + 1) (cap - Z.of_nat mid) K = drop (S mid) K).
  { unfold slice. replace (Z.to_nat (Z.of_nat mid + 1)) with (S mid) by lia. apply take_ge. unfold zlen in T1. lia. }
  assert (E2 : slice (Z.of_nat mid + 1) (cap - Z.of_nat mid + 1) C = drop (S mid) C).
  { unfold slice. replace (Z.to_nat (Z.of_nat mid + 1)) with (S mid) by lia. apply take_ge. unfold zlen in T2. lia. }
  rewrite E1, E2, <- T1. apply new_internal_rep; [done|done|by apply Forall_drop|by apply Forall_drop|lia|lia].
Qed.
End split_internal.

End reps.
