(* ===== verification/BTree.v ===== *)
(** * The B+ tree index

    [BTreeIndex] (src/src/storage/disk/btree_index.h, btree_index.cpp) over the files of
    IndexFile.v and the nodes of BTreeNode.v: search, insertion with splits that move up the
    path, range scans along the chain of leaves, and bulk building.

    The loops that follow page ids carry fuel: the number of pages of the file, which a walk
    without a cycle cannot exceed; running out of fuel is [None].  [None] is also undefined
    behaviour of the code below and the exception of [std::get] in [encode_key].  A row id
    given to the callback of a scan is threaded through the accumulator, with the bool the
    callback returns. *)

From S2P Require Import Prelude Types Page LruK BufferPool IndexFile BTreeNode BTreeLayout.

(** [PathEntry]: a page on the way down and the slot of the child taken. *)
Abbreviation PathEntry := (Z * Z)%type.

Definition page_fuel : M nat := gets (fun f => Z.to_nat (page_count (idx_disk f))).

Fixpoint find_leaf_loop (fuel : nat) (key : bytes) (cur : Z) (path : list PathEntry)
    : M (Z * list PathEntry) :=
  match fuel with
  | O => undefined
  | S fuel' =>
      specs ← gets cols_; ks ← gets key_size_; cap ← gets node_capacity;
      step ← with_handle cur (fun h =>
        pg ← deref h;
        let p := payload pg in
        if hdr_page_type p =? IDX_PAGE_LEAF then mret None
        else
          let slot := find_child_slot specs ks cap p (hdr_entry_count p) key in
          mret (Some (slot, get_child p slot)));
      match step with
      | None => mret (cur, path)
      | Some (slot, child) => find_leaf_loop fuel' key child ((cur, slot) :: path)
      end
  end.

(** The path is a stack: its head is [path.back()]. *)
Definition find_leaf_ (key : bytes) : M (Z * list PathEntry) :=
  fuel ← page_fuel; root ← gets root_page_id_; find_leaf_loop fuel key root [].

Definition split_leaf_ (leaf_id insert_slot : Z) (key : bytes) (row_id : Z) : M (bytes * Z) :=
  ks ← gets key_size_; cap ← gets node_capacity;
  with_handle leaf_id (fun h =>
    lp ← deref h;
    let old_sibling := leaf_right_sibling (payload lp) in
    let tmp := split_leaf_buffer ks cap (payload lp) insert_slot key row_id in
    let mid := (cap + 1) / 2 in
    let left := split_leaf_left ks cap (payload lp) tmp mid in
    right_id ← idx_reserve_page_id;
    _ ← store_page h (set_leaf_right_sibling left right_id);
    let rp := payload (reset page_init right_id) in
    _ ← write_new right_id (split_leaf_right ks cap rp tmp mid old_sibling);
    mret (slice (mid * entry_size ks) ks tmp, right_id)).

Definition split_internal_ (page_id slot : Z) (sep_key : bytes) (right_child : Z) : M (bytes * Z) :=
  ks ← gets key_size_; cap ← gets node_capacity;
  with_handle page_id (fun h =>
    ip ← deref h;
    let tmp_keys := split_keys_buffer ks cap (payload ip) slot sep_key in
    let tmp_children := split_children_buffer cap (payload ip) slot right_child in
    let mid := (cap + 1) / 2 in
    _ ← store_page h (split_internal_left ks cap (payload ip) tmp_keys tmp_children mid);
    right_id ← idx_reserve_page_id;
    let rp := payload (reset page_init right_id) in
    _ ← write_new right_id (split_internal_right ks cap rp tmp_keys tmp_children mid);
    mret (slice (mid * ks) ks tmp_keys, right_id)).

(** The end of [insert] when the root was split. *)
Definition grow_root (sep : bytes) (right : Z) : M unit :=
  ks ← gets key_size_; cap ← gets node_capacity;
  old_root ← gets root_page_id_;
  new_root_id ← idx_reserve_page_id;
  let nrp := payload (reset page_init new_root_id) in
  let nrp := init_hdr nrp IDX_PAGE_INTERNAL IDX_FLAG_IS_ROOT 1 cap in
  let nrp := set_child nrp 0 old_root in
  let nrp := set_child nrp 1 right in
  let nrp := splice (internal_key_at ks cap 0) sep nrp in
  _ ← write_new new_root_id nrp;
  _ ← with_handle old_root (fun h =>
    orp ← deref h;
    store_page h (set_hdr_flags (payload orp) (Z.land (hdr_flags (payload orp)) (Z.lnot IDX_FLAG_IS_ROOT))));
  set_root_page_id new_root_id.

(** [while (!path.empty())] *)
Fixpoint propagate (path : list PathEntry) (sep : bytes) (right : Z) : M unit :=
  match path with
  | [] => grow_root sep right
  | (parent_id, child_slot) :: rest =>
      ks ← gets key_size_; cap ← gets node_capacity;
      up ← with_handle parent_id (fun h =>
        ph ← deref h;
        let p := payload ph in
        let n_keys := hdr_entry_count p in
        if n_keys <? hdr_capacity p then
          _ ← store_page h (set_hdr_entry_count
                (insert_internal_entry ks cap p child_slot sep right n_keys) (n_keys + 1));
          mret None
        else
          split ← split_internal_ parent_id child_slot sep right;
          mret (Some split));
      match up with
      | None => mret tt
      | Some (new_sep, new_right) => propagate rest new_sep new_right
      end
  end.

(** The first entry of an empty index. *)
Definition insert_first (key : bytes) (row_id : Z) : M unit :=
  ks ← gets key_size_; cap ← gets node_capacity;
  _ ← set_dirty true;
  leaf_id ← idx_reserve_page_id;
  let lp := payload (reset page_init leaf_id) in
  let lp := init_hdr lp IDX_PAGE_LEAF IDX_FLAG_IS_ROOT 1 cap in
  let lp := set_leaf_right_sibling lp INVALID_PAGE_ID in
  let lp := splice (leaf_entry_at ks 0) key lp in
  let lp := splice (leaf_entry_at ks 0 + ks) (le_bytes 8 row_id) lp in
  _ ← write_new leaf_id lp;
  _ ← set_root_page_id leaf_id;
  set_entry_count 1.

(** The leaf found: [None] when the entry was added, otherwise the slot for the split. *)
Definition insert_into_leaf (leaf_id : Z) (key : bytes) (row_id : Z) : M (option Z) :=
  specs ← gets cols_; ks ← gets key_size_; unique ← gets is_unique_;
  with_handle leaf_id (fun h =>
    lh ← deref h;
    let p := payload lh in
    let count := hdr_entry_count p in
    let slot := find_leaf_insert_slot specs ks p count key in
    if unique && (slot >? 0) && negb (has_null specs key) &&
       (compare_keys specs (leaf_key_at ks p (slot - 1)) key =? 0)
    then fail "unique constraint violated: duplicate key"
    else if count >=? hdr_capacity p then mret (Some slot)
    else
      _ ← store_page h (set_hdr_entry_count (insert_leaf_entry ks p slot key row_id count) (count + 1));
      n ← gets entry_count_;
      _ ← set_entry_count (wrap 64 (n + 1));
      mret None).

Definition insert_encoded (key : bytes) (row_id : Z) : M unit :=
  root ← gets root_page_id_;
  if root =? 0 then insert_first key row_id
  else
    dirty ← gets dirty_;
    _ ← (if negb dirty then set_dirty true else mret tt);
    found ← find_leaf_ key;
    let '(leaf_id, path) := found in
    need_split ← insert_into_leaf leaf_id key row_id;
    match need_split with
    | None => mret tt
    | Some insert_slot =>
        split ← split_leaf_ leaf_id insert_slot key row_id;
        let '(sep_key, right_id) := split in
        propagate path sep_key right_id
    end.

Definition btree_insert (key_vals : list Value) (row_id : Z) : M unit :=
  specs ← gets cols_; ks ← gets key_size_;
  match encode_key specs key_vals (zeros ks) with
  | None => undefined
  | Some key => insert_encoded key row_id
  end.

(** ** Range scans *)

(** [fetch_page], with [return] on an error. *)
Definition with_handle_or {A} (id : Z) (dflt : A) (body : nat -> M A) : M A := fun f =>
  let! (p, pool) := fetch_page (idx_disk f) (idx_pool f) id in
  let f := set_idx_pool f pool in
  match p with
  | Err _ => Some (Ok dflt, f)
  | Ok h =>
      let! (r, f) := body h f in
      let! (_, pool) := unpin_page (idx_pool f) id in
      Some (r, set_idx_pool f pool)
  end.

Section scan.
Context {A : Type} (cb : A -> Z -> bool * A).

(** The loop over the slots [i ..] of a leaf, [n] of them: whether the scan ends here, and
    the accumulator.  [lo] is present on the first leaf only. *)
Fixpoint scan_slots (specs : list IndexColSpec) (ks : Z) (p : bytes) (lo : option bytes) (lo_incl : bool)
    (hi : option bytes) (hi_incl : bool) (start : Z) (n : nat) (i : Z) (acc : A) : bool * A :=
  match n with
  | O => (false, acc)
  | S n' =>
      let k := leaf_key_at ks p i in
      let skip := match lo with
                  | Some lo => negb lo_incl && (i =? start) && (compare_keys specs k lo =? 0)
                  | None => false
                  end in
      if skip then scan_slots specs ks p lo lo_incl hi hi_incl start n' (i + 1) acc
      else
        let past := match hi with
                    | Some hi => let c := compare_keys specs k hi in (c >? 0) || (negb hi_incl && (c =? 0))
                    | None => false
                    end in
        if past then (true, acc)
        else
          let '(go_on, acc) := cb acc (leaf_rowid_at ks p i) in
          if go_on then scan_slots specs ks p lo lo_incl hi hi_incl start n' (i + 1) acc
          else (true, acc)
  end.

(** [while (cur != INVALID_PAGE_ID)] over the leaves to the right. *)
Fixpoint scan_siblings (fuel : nat) (hi : option bytes) (hi_incl : bool) (cur : Z) (acc : A) : M A :=
  match fuel with
  | O => undefined
  | S fuel' =>
      if cur =? INVALID_PAGE_ID then mret acc
      else
        specs ← gets cols_; ks ← gets key_size_;
        step ← with_handle_or cur (true, acc, 0) (fun h =>
          sh ← deref h;
          let p := payload sh in
          let '(stop, acc) :=
            scan_slots specs ks p None false hi hi_incl 0 (Z.to_nat (hdr_entry_count p)) 0 acc in
          mret (stop, acc, leaf_right_sibling p));
        let '(stop, acc, next) := step in
        if stop : bool then mret acc else scan_siblings fuel' hi hi_incl next acc
  end.

(** The walk from the root; at the leaf, its handle lives until the end of the scan. *)
Fixpoint scan_down (fuel : nat) (lo : option bytes) (lo_incl : bool) (hi : option bytes) (hi_incl : bool)
    (cur : Z) (acc : A) : M A :=
  match fuel with
  | O => undefined
  | S fuel' =>
      specs ← gets cols_; ks ← gets key_size_; cap ← gets node_capacity; all ← page_fuel;
      step ← with_handle_or cur (inl acc) (fun h =>
        pg ← deref h;
        let p := payload pg in
        let n := hdr_entry_count p in
        if hdr_page_type p =? IDX_PAGE_LEAF then
          let start := match lo with Some lo => find_leaf_scan_start specs ks p n lo | None => 0 end in
          let '(stop, acc) :=
            scan_slots specs ks p lo lo_incl hi hi_incl start (Z.to_nat (n - start)) start acc in
          if stop : bool then mret (inl acc)
          else
            let sib := leaf_right_sibling p in
            acc ← scan_siblings (S all) hi hi_incl sib acc;
            mret (inl acc)
        else
          let slot := match lo with Some lo => find_child_slot specs ks cap p n lo | None => 0 end in
          mret (inr (get_child p slot)));
      match step with
      | inl acc => mret acc
      | inr child => scan_down fuel' lo lo_incl hi hi_incl child acc
      end
  end.

Definition range_scan (lo : option bytes) (lo_incl : bool) (hi : option bytes) (hi_incl : bool) (acc : A) : M A :=
  root ← gets root_page_id_;
  if root =? 0 then mret acc
  else fuel ← page_fuel; scan_down fuel lo lo_incl hi hi_incl root acc.
End scan.

(** ** Bulk building *)

(** [LevelEntry]: a page and the first key under it. *)
Abbreviation LevelEntry := (Z * bytes)%type.

(** [while (i < total)]: one leaf for each chunk of [fill] entries, linked to the one before. *)
Fixpoint build_leaves (fuel : nat) (fill_n : Z) (entries : list entry) (prev_leaf : Z)
    (level : list LevelEntry) : M (list LevelEntry) :=
  match fuel, entries with
  | _, [] => mret level
  | O, _ => undefined
  | S fuel', (first_key, _) :: _ =>
      ks ← gets key_size_; cap ← gets node_capacity;
      let n := Z.min fill_n (zlen entries) in
      lid ← idx_reserve_page_id;
      let lp := payload (reset page_init lid) in
      let lp := init_hdr lp IDX_PAGE_LEAF 0 (wrap 16 n) cap in
      let lp := set_leaf_right_sibling lp INVALID_PAGE_ID in
      let lp := fill (leaf_entry_at ks 0) (entry_size ks) 0
                  (map (fun e => entry_bytes e.1 e.2) (take (Z.to_nat n) entries)) lp in
      _ ← write_new lid lp;
      _ ← (if negb (prev_leaf =? INVALID_PAGE_ID) then
             with_handle prev_leaf (fun h =>
               plh ← deref h; store_page h (set_leaf_right_sibling (payload plh) lid))
           else mret tt);
      build_leaves fuel' fill_n (drop (Z.to_nat n) entries) lid (level ++ [(lid, first_key)])
  end.

(** [while (ci < n_children)]: one node for each [cap + 1] pages of the level below. *)
Fixpoint build_level (fuel : nat) (level next_level : list LevelEntry) : M (list LevelEntry) :=
  match fuel, level with
  | _, [] => mret next_level
  | O, _ => undefined
  | S fuel', (_, first_key) :: _ =>
      ks ← gets key_size_; cap ← gets node_capacity;
      let nc := Z.min (cap + 1) (zlen level) in
      let chunk := take (Z.to_nat nc) level in
      nid ← idx_reserve_page_id;
      let np := payload (reset page_init nid) in
      let np := init_hdr np IDX_PAGE_INTERNAL 0 (wrap 16 (nc - 1)) cap in
      let np := fill INDEX_PAGE_HDR_SIZE 8 0 (map (fun le => le_bytes 8 le.1) chunk) np in
      let np := fill (internal_key_at ks cap 0) ks 0 (map snd (tail chunk)) np in
      _ ← write_new nid np;
      build_level fuel' (drop (Z.to_nat nc) level) (next_level ++ [(nid, first_key)])
  end.

(** [while (level.size() > 1)] *)
Fixpoint build_levels (fuel : nat) (level : list LevelEntry) : M (list LevelEntry) :=
  if zlen level >? 1 then
    match fuel with
    | O => undefined
    | S fuel' => next ← build_level (length level) level []; build_levels fuel' next
    end
  else mret level.

Definition bulk_build (entries : list entry) : M unit :=
  match entries with
  | [] => mret tt
  | _ =>
      _ ← set_dirty true;
      cap ← gets node_capacity;
      let fill_n := Z.max 1 (cap * 3 / 4) in
      level ← build_leaves (length entries) fill_n entries INVALID_PAGE_ID [];
      level ← build_levels (length level) level;
      match level with
      | [] => undefined
      | (root_id, _) :: _ =>
          _ ← with_handle root_id (fun h =>
            rh ← deref h;
            store_page h (set_hdr_flags (payload rh) (Z.lor (hdr_flags (payload rh)) IDX_FLAG_IS_ROOT)));
          _ ← set_root_page_id root_id;
          set_entry_count (zlen entries)
      end
  end.
