(* ===== verification/BTreeInsert.v ===== *)
(** * Insertion into the B+ tree

    The pages of an index as a tree ([tree_in]): the entries of the leaves in order, the
    separators as the first keys of the subtrees to their right, and the chain of siblings.
    Insertion puts the entry behind all entries with a key that is not larger, splitting the
    nodes on the path as needed. *)

From stdpp Require Import sorting.
From S2P Require Import Prelude Types Page LruK BufferPool IndexFile BTreeNode BTreeLayout BTree.

(** ** Trees *)

Inductive tree : Type :=
| TLeaf (id : Z) (es : list entry)
| TNode (id : Z) (ch : list tree).

Fixpoint tree_ind' (Q : tree -> Prop) (Hl : forall id es, Q (TLeaf id es))
    (Hn : forall id ch, Forall Q ch -> Q (TNode id ch)) (t : tree) : Q t :=
  match t with
  | TLeaf id es => Hl id es
  | TNode id ch => Hn id ch ((fix go ch : Forall Q ch :=
      match ch with [] => Forall_nil_2 _ | c :: ch' => Forall_cons_2 _ _ _ (tree_ind' Q Hl Hn c) (go ch') end) ch)
  end.

Definition tid (t : tree) : Z := match t with TLeaf id _ | TNode id _ => id end.

Fixpoint entries (t : tree) : list entry :=
  match t with TLeaf _ es => es | TNode _ ch => concat (map entries ch) end.

Fixpoint ids (t : tree) : list Z :=
  match t with TLeaf id _ => [id] | TNode id ch => id :: concat (map ids ch) end.

Fixpoint first_leaf (t : tree) : Z :=
  match t with
  | TLeaf id _ => id
  | TNode id [] => id
  | TNode _ (c :: _) => first_leaf c
  end.

Fixpoint depth (t : tree) : nat :=
  match t with TLeaf _ _ => 1%nat | TNode _ ch => S (list_max (map depth ch)) end.

(** The first key under a subtree. *)
Definition fkey (t : tree) : bytes := match entries t with e :: _ => e.1 | [] => [] end.

(** The leaf after the last leaf of the siblings to the left of [ch]. *)
Definition after (nxt : Z) (ch : list tree) : Z := match ch with [] => nxt | c :: _ => first_leaf c end.

Fixpoint chain_of (Q : Z -> tree -> Prop) (nxt : Z) (ch : list tree) : Prop :=
  match ch with
  | [] => True
  | c :: ch' => Q (after nxt ch') c /\ chain_of Q nxt ch'
  end.

Section trees.
Context (specs : list IndexColSpec) (ks cap : Z).

(** The pages [P] hold the tree [t], whose last leaf is followed by the leaf [nxt]. *)
Fixpoint tree_in (P : gmap Z bytes) (nxt : Z) (t : tree) : Prop :=
  match t with
  | TLeaf id es => es <> [] /\ exists pl, P !! id = Some pl /\ leaf_rep specs ks cap pl nxt es
  | TNode id ch =>
      ch <> [] /\
      (exists pl, P !! id = Some pl /\ internal_rep specs ks cap pl (map fkey (tail ch)) (map tid ch)) /\
      chain_of (tree_in P) nxt ch
  end.

Abbreviation chain P := (chain_of (tree_in P)).

Lemma chain_app P nxt a b : chain P nxt (a ++ b) <-> chain P (after nxt b) a /\ chain P nxt b.
Proof using.
  induction a as [|c a IH]; simpl; [tauto|]. rewrite IH.
  assert (E : after nxt (a ++ b) = after (after nxt b) a) by by destruct a. rewrite E. tauto.
Qed.

Lemma chain_lookup P nxt ch i c : chain P nxt ch -> ch !! i = Some c ->
  tree_in P (after nxt (drop (S i) ch)) c.
Proof using.
  revert i. induction ch as [|x ch IH]; intros i Hc Hi; [done|]. destruct Hc as [H1 H2].
  destruct i as [|i]; simplify_eq/=; [by rewrite drop_0|by apply IH].
Qed.

Lemma chain_Forall P nxt ch : chain P nxt ch -> Forall (fun c => exists n, tree_in P n c) ch.
Proof using. revert nxt. induction ch as [|c ch IH]; intros nxt; simpl; [constructor|]. intros [H1 H2]. constructor; eauto. Qed.

(** Pages outside the tree do not matter. *)
Lemma tree_in_frame P P' t nxt : (forall id, id ∈ ids t -> P' !! id = P !! id) -> tree_in P nxt t -> tree_in P' nxt t.
Proof using.
  revert nxt. induction t as [id es|id ch IH] using tree_ind'; intros nxt Hf; simpl in *.
  - intros [Hne (pl & Hp & Hr)]. split; [done|]. exists pl. rewrite Hf; [done|set_solver].
  - intros [Hne [(pl & Hp & Hr) Hc]]. split; [done|]. split; [exists pl; rewrite Hf; [done|set_solver]|].
    assert (Hf' : forall i, i ∈ concat (map ids ch) -> P' !! i = P !! i) by (intros; apply Hf; set_solver).
    clear -IH Hc Hf'. revert nxt Hc. induction IH as [|c ch Hc0 _ IHch]; intros nxt; simpl in *; [done|].
    intros [H1 H2]. split.
    + apply Hc0; [|done]. intros i Hi. apply Hf'. rewrite elem_of_app. by left.
    + apply IHch; [|done]. intros i Hi. apply Hf'. rewrite elem_of_app. by right.
Qed.

Lemma chain_frame P P' ch nxt : (forall id, id ∈ concat (map ids ch) -> P' !! id = P !! id) ->
  chain P nxt ch -> chain P' nxt ch.
Proof using.
  revert nxt. induction ch as [|c ch IH]; intros nxt Hf; simpl in *; [done|]. intros [H1 H2]. split.
  - apply (tree_in_frame P); [|done]. intros i Hi. apply Hf. rewrite elem_of_app. by left.
  - apply IH; [|done]. intros i Hi. apply Hf. rewrite elem_of_app. by right.
Qed.

Lemma tree_ids_in P t nxt : tree_in P nxt t -> forall id, id ∈ ids t -> is_Some (P !! id).
Proof using.
  revert nxt. induction t as [id es|id ch IH] using tree_ind'; intros nxt; simpl.
  - intros [_ (pl & Hp & _)] i Hi. apply list_elem_of_singleton in Hi as ->. eauto.
  - intros [_ [(pl & Hp & _) Hc]] i. rewrite elem_of_cons. intros [->|Hi]; [eauto|].
    clear -IH Hc Hi. revert nxt Hc Hi. induction IH as [|c ch Hc0 _ IHch]; intros nxt; simpl; [set_solver|].
    rewrite elem_of_app. intros [H1 H2] [Hi|Hi]; eauto.
Qed.

Lemma tid_in_ids t : tid t ∈ ids t.
Proof using. destruct t; simpl; set_solver. Qed.

Lemma first_leaf_in_ids t : first_leaf t ∈ ids t.
Proof using.
  induction t as [id es|id ch IH] using tree_ind'; simpl; [set_solver|].
  destruct ch as [|c ch]; [set_solver|]. inversion_clear IH. simpl. rewrite elem_of_cons, elem_of_app. auto.
Qed.

(** Subtrees are not empty, so the first keys are those of entries. *)
Lemma entries_nonempty P t nxt : tree_in P nxt t -> entries t <> [].
Proof using.
  revert nxt. induction t as [id es|id ch IH] using tree_ind'; intros nxt; simpl.
  - by intros [? _].
  - intros [Hne [_ Hc]]. destruct ch as [|c ch]; [done|]. inversion_clear IH as [|? ? IHc _]. destruct Hc as [Hc _].
    simpl. intros Happ. apply app_eq_nil in Happ as [? _]. by eapply IHc.
Qed.

Lemma tree_entries_ok P t nxt : tree_in P nxt t -> Forall (entry_ok specs) (entries t).
Proof using.
  revert nxt. induction t as [id es|id ch IH] using tree_ind'; intros nxt; simpl.
  - intros [_ (pl & _ & Hr)]. apply (lr_ok _ _ _ _ _ _ Hr).
  - intros [_ [_ Hc]]. revert nxt Hc. induction IH as [|c ch Hc0 _ IHch]; intros nxt; simpl; [constructor|].
    intros [H1 H2]. apply Forall_app. eauto.
Qed.

Lemma depth_le_ids t : (depth t <= length (ids t))%nat.
Proof using.
  induction t as [id es|id ch IH] using tree_ind'; simpl; [done|]. apply le_n_S.
  induction IH as [|c ch Hc _ IHch]; simpl; [done|]. rewrite length_app. lia.
Qed.
(** ** The position of a key *)

Lemma prefix_len_app_all {A} (f : A -> bool) a b : Forall (fun x => f x = true) a ->
  prefix_len f (a ++ b) = (length a + prefix_len f b)%nat.
Proof using. induction 1 as [|x a Hx _ IH]; simpl; [done|]. by rewrite Hx, IH. Qed.

Lemma prefix_len_app_none {A} (f : A -> bool) a b : (forall x, head b = Some x -> f x = false) ->
  prefix_len f (a ++ b) = prefix_len f a.
Proof using.
  intros Hb. induction a as [|x a IH]; simpl; [|by rewrite IH].
  destruct b as [|y b]; [done|]. simpl. by rewrite (Hb y).
Qed.

(** [e] behind the entries whose key is not larger. *)
Definition ins (e : entry) (es : list entry) : list entry :=
  insert_at (prefix_len (fun x => le_key specs e.1 x.1) es) e es.

Lemma ins_app e a c b : Forall (fun x => le_key specs e.1 x.1 = true) a ->
  (forall x, head b = Some x -> le_key specs e.1 x.1 = false) ->
  ins e (a ++ c ++ b) = a ++ ins e c ++ b.
Proof using.
  intros Ha Hb. unfold ins. rewrite prefix_len_app_all, prefix_len_app_none by done.
  set (p := prefix_len _ c). assert (Hp : (p <= length c)%nat) by apply prefix_len_le. unfold insert_at.
  rewrite take_app_ge, drop_app_ge by lia. replace (length a + p - length a)%nat with p by lia.
  rewrite take_app_le, drop_app_le by lia. by rewrite <- !app_assoc.
Qed.

Abbreviation sorted := (sorted_entries specs).

Lemma sorted_app a b : sorted (a ++ b) <->
  (forall x y, x ∈ a -> y ∈ b -> key_le specs x.1 y.1) /\ sorted a /\ sorted b.
Proof using.
  unfold sorted_entries. rewrite map_app, StronglySorted_app. apply and_iff_compat_r. split.
  - intros H x y Hx Hy. apply H; apply list_elem_of_fmap; eauto.
  - intros H x y Hx Hy. apply list_elem_of_fmap in Hx as (x' & -> & Hx). apply list_elem_of_fmap in Hy as (y' & -> & Hy). auto.
Qed.

(** The first entry of a subtree. *)
Lemma fkey_entry t : entries t <> [] -> exists e, head (entries t) = Some e /\ e ∈ entries t /\ e.1 = fkey t.
Proof using. unfold fkey. destruct (entries t) as [|e es]; [done|]. exists e. simpl. set_solver. Qed.

Lemma concat_entries_lookup ch i c : ch !! i = Some c ->
  concat (map entries ch) = concat (map entries (take i ch)) ++ entries c ++ concat (map entries (drop (S i) ch)).
Proof using.
  intros Hc. rewrite <- (take_drop_middle ch i c Hc) at 1. by rewrite map_app, concat_app, map_cons.
Qed.

Lemma elem_of_concat_entries e ch : e ∈ concat (map entries ch) <-> exists c, c ∈ ch /\ e ∈ entries c.
Proof using.
  split.
  - intros He. apply list_elem_of_In, in_concat in He as (l & Hl & He). apply in_map_iff in Hl as (c & <- & Hc).
    exists c. by split; apply list_elem_of_In.
  - intros (c & Hc & He). apply list_elem_of_In, in_concat. exists (entries c).
    split; [by apply in_map, list_elem_of_In|by apply list_elem_of_In].
Qed.

Lemma fkeys_sorted ch : Forall (fun c => entries c <> []) ch -> sorted (concat (map entries ch)) ->
  StronglySorted (key_le specs) (map fkey ch).
Proof using.
  induction 1 as [|c ch Hc Hch IH]; simpl; [constructor|]. rewrite sorted_app. intros (Hle & _ & Hs).
  constructor; [by apply IH|]. apply Forall_forall. intros k Hk. apply list_elem_of_fmap in Hk as (c' & -> & Hc').
  destruct (fkey_entry c Hc) as (e & _ & He & <-). rewrite Forall_forall in Hch.
  destruct (fkey_entry c' (Hch c' Hc')) as (e' & _ & He' & <-). apply Hle; [done|].
  apply elem_of_concat_entries. eauto.
Qed.

Lemma elem_of_tail {A} (x : A) l : x ∈ tail l -> x ∈ l.
Proof using. destruct l; [done|]. simpl. set_solver. Qed.

Lemma sorted_tail ch : sorted (concat (map entries ch)) -> sorted (concat (map entries (tail ch))).
Proof using. destruct ch; [done|]. simpl. rewrite sorted_app. tauto. Qed.

(** The slot of the child that the search takes. *)
Definition slot_of (key : bytes) (ch : list tree) : nat := prefix_len (le_key specs key) (map fkey (tail ch)).

Lemma slot_of_lt key ch : ch <> [] -> (slot_of key ch < length ch)%nat.
Proof using.
  intros Hc. unfold slot_of. pose proof (prefix_len_le (le_key specs key) (map fkey (tail ch))) as H.
  rewrite length_map in H. destruct ch; [done|]. simpl in *. lia.
Qed.

(** The child the search takes: what is before it is not larger, what is behind is larger. *)
Section child.
Context (key : bytes) (ch : list tree).
Hypothesis Hkey : key_ok specs key.
Hypothesis Hne : Forall (fun c => entries c <> []) ch.
Hypothesis Hok : Forall (entry_ok specs) (concat (map entries ch)).
Hypothesis Hs : sorted (concat (map entries ch)).
Lemma fkey_ok c : c ∈ ch -> key_ok specs (fkey c).
Proof using Hne Hok.
  intros Hc. rewrite Forall_forall in Hne. destruct (fkey_entry c (Hne c Hc)) as (e & _ & He & <-).
  rewrite Forall_forall in Hok. apply Hok. apply elem_of_concat_entries. eauto.
Qed.

Lemma tail_fkey i c : ch !! S i = Some c -> le_key specs key (fkey c) = bool_decide (i < (slot_of key ch))%nat.
Proof using Hkey Hne Hok Hs.
  intros Hc. apply prefix_len_spec.
  - apply (downward_key specs _ key); [by left|done| |].
    + apply Forall_map, Forall_forall. intros x Hx. apply fkey_ok. by apply elem_of_tail.
    + apply fkeys_sorted; [by apply Forall_tail|]. by apply sorted_tail.
  - rewrite list_lookup_fmap. unfold tail. destruct ch as [|x l]; [done|]. simpl in *. by rewrite Hc.
Qed.

Lemma before_slot : Forall (fun x => le_key specs key x.1 = true) (concat (map entries (take (slot_of key ch) ch))).
Proof using Hkey Hne Hok Hs.
  apply Forall_forall. intros x Hx. destruct (slot_of key ch) as [|i] eqn:Hi; [by apply elem_of_nil in Hx|].
  assert (Hch : ch <> []) by (intros ->; by apply elem_of_nil in Hx).
  pose proof (slot_of_lt key ch Hch) as Hlt. rewrite Hi in Hlt.
  destruct (lookup_lt_is_Some_2 ch (S i) Hlt) as [c Hc].
  pose proof (tail_fkey i c Hc) as Hle. rewrite Hi, bool_decide_true in Hle by lia.
  pose proof (list_elem_of_lookup_2 _ _ _ Hc) as Hin.
  rewrite Forall_forall in Hne. destruct (fkey_entry c (Hne c Hin)) as (e & _ & He & Hek).
  rewrite Forall_forall in Hok. rewrite (concat_entries_lookup ch (S i) c Hc) in Hs, Hok.
  apply sorted_app in Hs as (Hlt2 & _). unfold le_key in *. rewrite Z.leb_le in *.
  apply (compare_keys_trans specs x.1 (fkey c) key).
  - apply Hok. set_solver.
  - rewrite <- Hek. apply Hok. set_solver.
  - done.
  - rewrite <- Hek. apply Hlt2; [done|]. set_solver.
  - done.
Qed.

Lemma behind_slot x : head (concat (map entries (drop (S (slot_of key ch)) ch))) = Some x -> le_key specs key x.1 = false.
Proof using Hkey Hne Hok Hs.
  destruct (ch !! S (slot_of key ch)) as [c|] eqn:Hc.
  - rewrite (drop_S _ _ _ Hc). simpl. pose proof (list_elem_of_lookup_2 _ _ _ Hc) as Hin.
    pose proof (tail_fkey _ c Hc) as Htf. rewrite Forall_forall in Hne. destruct (fkey_entry c (Hne c Hin)) as (e & He & _ & Hek).
    destruct (entries c) as [|e' l] eqn:El; [done|]. simpl in *. intros Hx. simplify_eq.
    rewrite Hek, Htf, bool_decide_false by lia. done.
  - apply lookup_ge_None in Hc. rewrite drop_ge by done. done.
Qed.

(** Inserting into the children is inserting into the child at [(slot_of key ch)]. *)
Lemma ins_child e c : e.1 = key -> ch !! (slot_of key ch) = Some c ->
  ins e (concat (map entries ch)) =
  concat (map entries (take (slot_of key ch) ch)) ++ ins e (entries c) ++ concat (map entries (drop (S (slot_of key ch)) ch)).
Proof using Hkey Hne Hok Hs.
  intros He Hc. rewrite (concat_entries_lookup ch _ c Hc). apply ins_app; rewrite He.
  - apply before_slot.
  - apply behind_slot.
Qed.
End child.

(** ** Searching for the leaf *)

(** The leaf that the search for [key] ends in, and the path to it, last step first. *)
Inductive located (key : bytes) : tree -> Z -> list entry -> list PathEntry -> Prop :=
| loc_leaf id es : located key (TLeaf id es) id es []
| loc_node id ch c leaf es path : ch !! slot_of key ch = Some c -> located key c leaf es path ->
    located key (TNode id ch) leaf es (path ++ [(id, Z.of_nat (slot_of key ch))]).

(** The parameters of the file are those of the tree. *)
Definition params (f : IndexFile) : Prop := cols_ f = specs /\ key_size_ f = ks /\ node_capacity f = cap.

Lemma params_fields f f' : fields f' = fields f -> params f -> params f'.
Proof using. unfold fields, params. intros H (H1 & H2 & H3). simplify_eq. split_and!; congruence. Qed.

Hypothesis Hgeo : geometry specs ks cap.

Lemma children_facts P nxt ch : chain P nxt ch ->
  Forall (fun c => entries c <> []) ch /\ Forall (entry_ok specs) (concat (map entries ch)).
Proof using.
  intros Hc. apply chain_Forall in Hc. split.
  - apply (Forall_impl _ _ _ Hc). intros c [n Hn]. by eapply entries_nonempty.
  - apply Forall_concat, Forall_map, (Forall_impl _ _ _ Hc). intros c [n Hn]. by eapply tree_entries_ok.
Qed.

(** The slot found in an internal node is that of the child to take. *)
Lemma node_slot P nxt id ch pl key : key_ok specs key -> tree_in P nxt (TNode id ch) -> sorted (entries (TNode id ch)) ->
  P !! id = Some pl -> exists c, ch !! slot_of key ch = Some c /\
    hdr_page_type pl = IDX_PAGE_INTERNAL /\
    find_child_slot specs ks cap pl (hdr_entry_count pl) key = Z.of_nat (slot_of key ch) /\
    get_child pl (Z.of_nat (slot_of key ch)) = tid c.
Proof using Hgeo.
  intros Hk [Hne [(pl' & Hp' & Hr) Hc]] Hs Hp. rewrite Hp in Hp'. injection Hp' as <-.
  destruct (children_facts _ _ _ Hc) as [Hn Ho].
  destruct (lookup_lt_is_Some_2 ch (slot_of key ch) (slot_of_lt key ch Hne)) as [c Hi].
  exists c. split; [done|]. split; [apply (nr_type _ _ _ _ _ _ Hr)|]. split.
  - rewrite (nr_count _ _ _ _ _ _ Hr). apply (find_child_slot_spec specs ks cap Hgeo key Hk _ _ _ Hr).
    apply fkeys_sorted; [by apply Forall_tail|]. by apply sorted_tail.
  - apply (child_read specs ks cap pl _ _ _ _ Hr); [lia|]. rewrite Nat2Z.id, list_lookup_fmap. by rewrite Hi.
Qed.

Lemma child_in P nxt id ch i c : tree_in P nxt (TNode id ch) -> ch !! i = Some c -> tree_in P (after nxt (drop (S i) ch)) c.
Proof using. intros [_ [_ Hc]] Hi. by eapply chain_lookup. Qed.

Lemma child_sorted id ch i c : sorted (entries (TNode id ch)) -> ch !! i = Some c -> sorted (entries c).
Proof using. simpl. intros Hs Hi. rewrite (concat_entries_lookup ch i c Hi) in Hs. rewrite !sorted_app in Hs. tauto. Qed.

Lemma child_depth id ch i c : ch !! i = Some c -> (depth c < depth (TNode id ch))%nat.
Proof using.
  intros Hi. simpl. apply Nat.lt_succ_r. pose proof (list_max_le (map depth ch) (list_max (map depth ch))) as [H _].
  specialize (H (le_n _)). rewrite Forall_forall in H. apply H. apply list_elem_of_fmap. exists c.
  split; [done|]. by eapply list_elem_of_lookup_2.
Qed.

Section find.
Context (key : bytes).
Hypothesis Hkey : key_ok specs key.

Lemma find_leaf_ok t : forall nxt path0 fuel f P, idx_rep [] f P -> params f -> tree_in P nxt t -> sorted (entries t) ->
  (depth t <= fuel)%nat ->
  exists leaf es path pool, located key t leaf es path /\
    find_leaf_loop fuel key (tid t) path0 f = Some (Ok (leaf, path ++ path0), set_idx_pool f pool) /\
    idx_rep [] (set_idx_pool f pool) P.
Proof using Hgeo Hkey.
  induction t as [id es|id ch IH] using tree_ind'; intros nxt path0 fuel f P Hrep Hpar Ht Hs Hf;
    (destruct fuel as [|fuel]; [simpl in Hf; lia|]); cbn [find_leaf_loop tid]; pose proof Hpar as (Hc1 & Hc2 & Hc3);
    rewrite !gets_bind, Hc1, Hc2, Hc3.
  - destruct Ht as [Hne (pl & Hp & Hr)].
    destruct (with_handle_read [] f P id pl (fun h => pg ← deref h;
        let p := payload pg in
        if hdr_page_type p =? IDX_PAGE_LEAF then mret None
        else let slot := find_child_slot specs ks cap p (hdr_entry_count p) key in
             mret (Some (slot, get_child p slot))) (Ok None)) as (pool & Hw & Hrep'); [done|done|done| |].
    { intros h pool Hh. apply (deref_bind _ _ _ _ _ _ Hh). intros pg ->. cbv zeta.
      by rewrite (lr_type _ _ _ _ _ _ Hr). }
    exists id, es, [], pool. split; [constructor|]. rewrite (bind_ok _ _ _ _ _ Hw). done.
  - pose proof Ht as [_ [(pl & Hp & _) _]].
    destruct (node_slot _ _ _ _ _ key Hkey Ht Hs Hp) as (c & Hi & Hty & Hsl & Hch).
    destruct (with_handle_read [] f P id pl (fun h => pg ← deref h;
        let p := payload pg in
        if hdr_page_type p =? IDX_PAGE_LEAF then mret None
        else let slot := find_child_slot specs ks cap p (hdr_entry_count p) key in
             mret (Some (slot, get_child p slot))) (Ok (Some (Z.of_nat (slot_of key ch), tid c)))) as (pool & Hw & Hrep');
      [done|done|done| |].
    { intros h pool Hh. apply (deref_bind _ _ _ _ _ _ Hh). intros pg ->. cbv zeta.
      by rewrite Hty, Hsl, Hch. }
    rewrite (bind_ok _ _ _ _ _ Hw). rewrite Forall_lookup in IH. pose proof (child_depth id ch _ c Hi) as Hd.
    destruct (IH _ _ Hi _ ((id, Z.of_nat (slot_of key ch)) :: path0) fuel (set_idx_pool f pool) P Hrep' Hpar
      (child_in _ _ _ _ _ _ Ht Hi) (child_sorted id _ _ _ Hs Hi)) as (leaf & es & path & pool' & Hl & Hrun & Hrep2); [lia|].
    exists leaf, es, (path ++ [(id, Z.of_nat (slot_of key ch))]), pool'. split; [by econstructor|].
    rewrite <- app_assoc. split; [exact Hrun|exact Hrep2].
Qed.
End find.

(** ** Replacing a subtree *)

(** The pages went from [P] to [P'] and the subtree [t] became the siblings [ts], which have
    [e] inserted; new pages are fresh and no other page changed. *)
Record replaced (e : entry) (P P' : gmap Z bytes) (nxt : Z) (t : tree) (ts : list tree) : Prop := {
  rp_chain : chain P' nxt ts;
  rp_head : exists t' rest, ts = t' :: rest /\ tid t' = tid t /\ first_leaf t' = first_leaf t;
  rp_entries : concat (map entries ts) = ins e (entries t);
  rp_frame : forall id, id ∉ ids t -> is_Some (P !! id) -> P' !! id = P !! id;
  rp_ids : forall id, id ∈ concat (map ids ts) -> id ∈ ids t \/ P !! id = None;
  rp_nodup : NoDup (concat (map ids ts));
  rp_depth : Forall (fun t' => (depth t' <= depth t)%nat) ts
}.

Lemma node_depth id ch d : Forall (fun c => (depth c <= d)%nat) ch -> (depth (TNode id ch) <= S d)%nat.
Proof using. intros H. simpl. apply le_n_S, list_max_le. by apply Forall_map. Qed.

Definition replace (i : nat) (ts ch : list tree) : list tree := take i ch ++ ts ++ drop (S i) ch.

Lemma ids_lookup ch i c : ch !! i = Some c ->
  concat (map ids ch) = concat (map ids (take i ch)) ++ ids c ++ concat (map ids (drop (S i) ch)).
Proof using. intros Hc. rewrite <- (take_drop_middle ch i c Hc) at 1. by rewrite map_app, concat_app, map_cons. Qed.

(** The key of the first entry survives an insertion behind it. *)
Lemma ins_head e es x : head es = Some x -> le_key specs e.1 x.1 = true -> head (ins e es) = Some x.
Proof using. destruct es as [|y es]; simpl; intros Hx Hle; simplify_eq. unfold ins. simpl. by rewrite Hle. Qed.

Lemma fkey_app t rest es x : entries t <> [] -> concat (map entries (t :: rest)) = es -> head es = Some x -> fkey t = x.1.
Proof using. intros Hne <- Hx. simpl in Hx. unfold fkey. destruct (entries t); [done|]. simpl in Hx. by simplify_eq. Qed.

Lemma replace_lists ch i c t' rest : ch !! i = Some c -> tid t' = tid c -> (i <> O -> fkey t' = fkey c) ->
  map fkey (tail (replace i (t' :: rest) ch)) =
    take i (map fkey (tail ch)) ++ map fkey rest ++ drop i (map fkey (tail ch)) /\
  map tid (replace i (t' :: rest) ch) = take (S i) (map tid ch) ++ map tid rest ++ drop (S i) (map tid ch).
Proof using.
  intros Hc Hid Hfk. unfold replace. split.
  - destruct i as [|k]; (destruct ch as [|c0 ch]; [done|]); simpl in *; [by rewrite map_app|].
    rewrite (take_S_r (map fkey ch) k (fkey c)) by (by rewrite list_lookup_fmap, Hc).
    rewrite map_app. simpl. rewrite map_app, Hfk by done. by rewrite firstn_map, skipn_map, <- app_assoc.
  - rewrite (take_S_r (map tid ch) i (tid c)) by (by rewrite list_lookup_fmap, Hc).
    rewrite map_app. simpl. rewrite map_app, Hid. by rewrite firstn_map, skipn_map, <- app_assoc.
Qed.

Section replace_child.
Context (e : entry) (P P' : gmap Z bytes) (nxt id : Z) (ch : list tree) (c : tree) (ts : list tree).
Hypothesis Hkey : key_ok specs e.1.
Hypothesis Ht : tree_in P nxt (TNode id ch).
Hypothesis Hs : sorted (entries (TNode id ch)).
Hypothesis Hnd : NoDup (ids (TNode id ch)).
Abbreviation i := (slot_of e.1 ch).
Hypothesis Hi : ch !! i = Some c.
Hypothesis Hr : replaced e P P' (after nxt (drop (S i) ch)) c ts.

Lemma sibling_ids j : j ∈ concat (map ids (take i ch)) \/ j ∈ concat (map ids (drop (S i) ch)) ->
  j ∉ ids c /\ is_Some (P !! j) /\ P' !! j = P !! j /\ j ∉ concat (map ids ts).
Proof using All.
  intros Hj. simpl in Hnd. rewrite (ids_lookup ch i c Hi) in Hnd.
  apply NoDup_cons in Hnd as [_ Hnd1]. rewrite !NoDup_app in Hnd1. destruct Hnd1 as (_ & Hd1 & _ & Hd2 & _).
  assert (Hc : j ∉ ids c).
  { intros Hjc. destruct Hj as [Hj|Hj]; [|by apply (Hd2 j)]. apply (Hd1 j Hj). rewrite elem_of_app. by left. }
  assert (Hin : is_Some (P !! j)).
  { apply (tree_ids_in P (TNode id ch) nxt Ht). simpl. rewrite (ids_lookup ch i c Hi), elem_of_cons, !elem_of_app. tauto. }
  split; [done|]. split; [done|]. split; [by apply (rp_frame _ _ _ _ _ _ Hr)|].
  intros Hts. destruct (rp_ids _ _ _ _ _ _ Hr j Hts) as [|Hn]; [done|]. rewrite Hn in Hin. by destruct Hin.
Qed.

Lemma own_id : id ∉ ids c /\ is_Some (P !! id) /\ P' !! id = P !! id /\ id ∉ concat (map ids (replace i ts ch)).
Proof using All.
  pose proof Hnd as Hnd'. simpl in Hnd'. apply NoDup_cons in Hnd' as [Hn _]. rewrite (ids_lookup ch i c Hi), !elem_of_app in Hn.
  assert (Hin : is_Some (P !! id)) by (destruct Ht as [_ [(pl & -> & _) _]]; eauto).
  split; [tauto|]. split; [done|]. split; [apply (rp_frame _ _ _ _ _ _ Hr); [tauto|done]|].
  unfold replace. rewrite !map_app, !concat_app, !elem_of_app. intros [?|[Hts|?]]; [tauto| |tauto].
  destruct (rp_ids _ _ _ _ _ _ Hr id Hts) as [?|Hnone]; [tauto|]. rewrite Hnone in Hin. by destruct Hin.
Qed.

Lemma replace_chain : chain P' nxt (replace i ts ch).
Proof using All.
  destruct Ht as [_ [_ Hc]]. rewrite <- (take_drop_middle ch i c Hi) in Hc. apply chain_app in Hc as [Hc1 Hc2].
  destruct Hc2 as [_ Hc3]. unfold replace. apply chain_app. split; [|apply chain_app; split].
  - destruct (rp_head _ _ _ _ _ _ Hr) as (t' & rest & Hts & _ & Hfl).
    replace (after nxt (ts ++ drop (S i) ch)) with (first_leaf c) by (rewrite Hts; done).
    apply (chain_frame P); [|done]. intros j Hj. by apply sibling_ids; left.
  - apply (rp_chain _ _ _ _ _ _ Hr).
  - apply (chain_frame P); [|done]. intros j Hj. by apply sibling_ids; right.
Qed.

Lemma replace_entries : concat (map entries (replace i ts ch)) = ins e (entries (TNode id ch)).
Proof using All.
  pose proof Ht as [_ [_ Hc]]. destruct (children_facts _ _ _ Hc) as [Hn Ho]. simpl.
  rewrite (ins_child e.1 ch Hkey Hn Ho Hs e c eq_refl Hi). unfold replace.
  by rewrite !map_app, !concat_app, (rp_entries _ _ _ _ _ _ Hr).
Qed.

Lemma replace_nodup : NoDup (concat (map ids (replace i ts ch))).
Proof using All.
  pose proof Hnd as Hnd'. simpl in Hnd'. rewrite (ids_lookup ch i c Hi) in Hnd'.
  apply NoDup_cons in Hnd' as [_ Hnd1]. rewrite !NoDup_app in Hnd1. destruct Hnd1 as (N1 & Hd1 & _ & Hd2 & N3).
  unfold replace. rewrite !map_app, !concat_app, !NoDup_app. split; [done|]. split; [|split; [apply (rp_nodup _ _ _ _ _ _ Hr)|split; [|done]]].
  - intros j Hj. rewrite elem_of_app. intros [Hts|Hb].
    + by apply (sibling_ids j (or_introl Hj)).
    + apply (Hd1 j Hj). rewrite elem_of_app. by right.
  - intros j Hts Hb. by apply (sibling_ids j (or_intror Hb)).
Qed.

Lemma replace_ids j : j ∈ concat (map ids (replace i ts ch)) -> j ∈ ids (TNode id ch) \/ P !! j = None.
Proof using All.
  unfold replace. rewrite !map_app, !concat_app, !elem_of_app. simpl.
  rewrite (ids_lookup ch i c Hi), elem_of_cons, !elem_of_app.
  intros [?|[Hts|?]]; [tauto| |tauto]. destruct (rp_ids _ _ _ _ _ _ Hr j Hts); tauto.
Qed.

(** The separators and the children of the node, before and after. *)
Lemma replace_keys t' rest : ts = t' :: rest ->
  map fkey (tail (replace i ts ch)) = take i (map fkey (tail ch)) ++ map fkey rest ++ drop i (map fkey (tail ch)) /\
  map tid (replace i ts ch) = take (S i) (map tid ch) ++ map tid rest ++ drop (S i) (map tid ch).
Proof using All.
  intros Hts. destruct (rp_head _ _ _ _ _ _ Hr) as (t1 & rest1 & Heq & Hid & _). rewrite Hts in Heq |- *.
  injection Heq as <- <-. apply (replace_lists ch i c); [done|done|]. intros Hi0.
  pose proof Ht as [_ [_ Hc]]. destruct (children_facts _ _ _ Hc) as [Hn Ho].
  pose proof (rp_chain _ _ _ _ _ _ Hr) as Hch. rewrite Hts in Hch. destruct Hch as [Ht1 _]. apply entries_nonempty in Ht1.
  assert (Hl : le_key specs e.1 (fkey c) = true).
  { rewrite (tail_fkey e.1 ch Hkey Hn Ho Hs (i - 1) c).
    - apply bool_decide_true. lia.
    - rewrite <- Hi. f_equal. lia. }
  assert (Hcn : entries c <> []) by (rewrite Forall_forall in Hn; apply Hn; by eapply list_elem_of_lookup_2).
  destruct (fkey_entry c Hcn) as (x & Hx & _ & Hxk). rewrite <- Hxk in Hl |- *.
  apply (fkey_app t' rest (ins e (entries c))); [done|rewrite <- Hts; apply (rp_entries _ _ _ _ _ _ Hr)|by apply ins_head].
Qed.

Lemma replace_first : replace i ts ch <> [] /\
  first_leaf (TNode id (replace i ts ch)) = first_leaf (TNode id ch).
Proof using All.
  destruct (rp_head _ _ _ _ _ _ Hr) as (t' & rest & Hts & _ & Hfl). pose proof Hi as Hi'. unfold replace. rewrite Hts.
  destruct i as [|k]; (destruct ch as [|c0 ch0]; [done|]); simpl in *; [|done]. by simplify_eq.
Qed.

Lemma replace_depth : Forall (fun x => (depth x <= list_max (map depth ch))%nat) (replace i ts ch).
Proof using All.
  assert (Hall : Forall (fun x => (depth x <= list_max (map depth ch))%nat) ch).
  { apply (Forall_map depth (fun d => (d <= list_max (map depth ch))%nat)). by apply list_max_le. }
  unfold replace. rewrite !Forall_app. split; [by apply Forall_take|]. split; [|by apply Forall_drop].
  apply (Forall_impl _ _ _ (rp_depth _ _ _ _ _ _ Hr)). intros x Hx.
  rewrite Forall_forall in Hall. specialize (Hall c (list_elem_of_lookup_2 _ _ _ Hi)). lia.
Qed.

(** One node for the new children. *)
Lemma lift_one P'' pl : P'' !! id = Some pl ->
  internal_rep specs ks cap pl (map fkey (tail (replace i ts ch))) (map tid (replace i ts ch)) ->
  (forall j, j <> id -> P'' !! j = P' !! j) ->
  replaced e P P'' nxt (TNode id ch) [TNode id (replace i ts ch)].
Proof using All.
  intros Hp Hrep Hoth. destruct replace_first as [Hne Hfl]. destruct own_id as (O1 & O2 & O3 & O4).
  split.
  - simpl. split; [|done]. split; [done|]. split; [eauto|]. apply (chain_frame P'); [|apply replace_chain].
    intros j Hj. apply Hoth. intros ->. by apply O4.
  - by eexists _, [].
  - simpl. rewrite app_nil_r. apply replace_entries.
  - intros j Hj Hin. simpl in Hj. apply not_elem_of_cons in Hj as [Hj1 Hj2]. rewrite Hoth by done.
    apply (rp_frame _ _ _ _ _ _ Hr); [|done]. intros Hc. apply Hj2. rewrite (ids_lookup ch i c Hi), !elem_of_app. tauto.
  - intros j. simpl. rewrite app_nil_r, elem_of_cons. intros [->|Hj]; [left; apply list_elem_of_here|]. by apply replace_ids.
  - simpl. rewrite app_nil_r. constructor; [done|apply replace_nodup].
  - apply Forall_singleton, node_depth, replace_depth.
Qed.

(** Two nodes, the second one new, for the new children. *)
Lemma lift_two P'' pl pl2 nid a b : replace i ts ch = a ++ b -> a <> [] -> b <> [] ->
  P'' !! id = Some pl -> internal_rep specs ks cap pl (map fkey (tail a)) (map tid a) ->
  P'' !! nid = Some pl2 -> internal_rep specs ks cap pl2 (map fkey (tail b)) (map tid b) ->
  P' !! nid = None -> (forall j, j <> id -> j <> nid -> P'' !! j = P' !! j) ->
  (forall j, is_Some (P !! j) -> is_Some (P' !! j)) ->
  replaced e P P'' nxt (TNode id ch) [TNode id a; TNode nid b].
Proof using All.
  intros Hab Hna Hnb Hp Hrep Hp2 Hrep2 Hnid Hoth Hmono. destruct replace_first as [_ Hfl].
  destruct own_id as (O1 & O2 & O3 & O4).
  assert (Hne : nid <> id) by (intros ->; rewrite O3 in Hnid; rewrite Hnid in O2; by destruct O2).
  assert (HPn : P !! nid = None).
  { destruct (P !! nid) eqn:E; [|done]. destruct (Hmono nid); [eauto|]. congruence. }
  pose proof replace_chain as Hch.
  assert (Hnot : nid ∉ concat (map ids (replace i ts ch))).
  { intros Hin. assert (Hs' : is_Some (P' !! nid)).
    { clear -Hch Hin. revert Hch Hin. generalize (replace i ts ch) as l. generalize nxt. intros n l. revert n.
      induction l as [|x l IH]; intros n; simpl; [by rewrite elem_of_nil|]. rewrite elem_of_app.
      intros [H1 H2] [Hx|Hx]; [by eapply tree_ids_in|by eapply IH]. }
    rewrite Hnid in Hs'. by destruct Hs'. }
  assert (Hch'' : chain P'' nxt (a ++ b)).
  { rewrite <- Hab. apply (chain_frame P'); [|done]. intros j Hj. apply Hoth; intros ->; contradiction. }
  apply chain_app in Hch'' as [Hca Hcb]. rewrite Hab in O4, Hnot.
  rewrite map_app, concat_app, elem_of_app in O4, Hnot.
  assert (Hafter : after nxt b = first_leaf (TNode nid b)) by by destruct b.
  split.
  - cbn [chain_of after]. split; [|split; [|done]].
    + split; [done|]. split; [eauto|]. by rewrite <- Hafter.
    + split; [done|]. split; [eauto|done].
  - eexists _, _. split; [done|]. split; [done|]. rewrite <- Hfl, Hab. by destruct a.
  - cbn [map concat entries]. rewrite app_nil_r, <- concat_app, <- map_app, <- Hab. apply replace_entries.
  - intros j Hj Hin. simpl in Hj. apply not_elem_of_cons in Hj as [Hj1 Hj2]. rewrite Hoth.
    + apply (rp_frame _ _ _ _ _ _ Hr); [|done]. intros Hc. apply Hj2. rewrite (ids_lookup ch i c Hi), !elem_of_app. tauto.
    + done.
    + intros ->. rewrite HPn in Hin. by destruct Hin.
  - intros j. cbn [map concat ids app]. rewrite app_nil_r. rewrite elem_of_cons, elem_of_app, elem_of_cons.
    assert (Hrid := replace_ids j). rewrite Hab, map_app, concat_app, elem_of_app in Hrid.
    intros [->|[Hj|[->|Hj]]]; [left; apply list_elem_of_here|by apply Hrid; left|by right|by apply Hrid; right].
  - pose proof replace_nodup as Hnd2. rewrite Hab, map_app, concat_app in Hnd2. apply NoDup_app in Hnd2 as (N1 & N2 & N3).
    cbn [map concat ids app]. rewrite app_nil_r. constructor.
    + rewrite elem_of_app, elem_of_cons. intros [?|[?|?]]; [tauto|congruence|tauto].
    + apply NoDup_app. split; [done|]. split.
      * intros j Hj. rewrite elem_of_cons. intros [->|Hj2]; [tauto|by apply (N2 j)].
      * constructor; [tauto|done].
  - pose proof replace_depth as Hd. rewrite Hab in Hd. apply Forall_app in Hd as [Hda Hdb].
    apply Forall_cons. split; [by apply node_depth|]. by apply Forall_singleton, node_depth.
Qed.
End replace_child.

(** ** Splits *)

Abbreviation mid := (Z.to_nat ((cap + 1) / 2)).

Lemma mid_range : (1 <= mid)%nat /\ Z.of_nat mid <= cap /\ Z.of_nat mid = (cap + 1) / 2.
Proof using Hgeo. pose proof (g_cap _ _ _ Hgeo). zlia. Qed.

Lemma page_range held f P id pl : idx_rep held f P -> P !! id = Some pl -> in_u 64 id.
Proof using.
  intros Hr Hp. destruct (rep_page _ _ _ Hr _ _ Hp) as (_ & _ & Hi). pose proof (ir_next _ _ _ Hr).
  unfold in_u, INVALID_PAGE_ID in *. lia.
Qed.

Lemma next_range held f P : idx_rep held f P -> in_u 64 (idx_next f) /\ 1 <= idx_next f.
Proof using. intros Hr. pose proof (ir_next _ _ _ Hr). unfold idx_next, in_u, INVALID_PAGE_ID in *. lia. Qed.

Lemma fresh_payload id : zlen (payload (reset page_init id)) = PAGE_PAYLOAD_SIZE /\ Forall is_byte (payload (reset page_init id)).
Proof using. pose proof (page_wf_reset page_init id). split; [by apply payload_len|by apply payload_bytes]. Qed.

Lemma split_internal_ok held f P id pl keys cs p sep right_child :
  idx_rep held f P -> params f -> P !! id = Some pl -> internal_rep specs ks cap pl keys cs -> zlen keys = cap ->
  (p <= length keys)%nat -> key_ok specs sep -> in_u 64 right_child -> zlen held < INDEX_POOL_CAPACITY ->
  idx_next f + 1 < INVALID_PAGE_ID ->
  exists f' pl1 pl2 k, split_internal_ id (Z.of_nat p) sep right_child f = Some (Ok (k, idx_next f), f') /\
    idx_rep held f' (<[idx_next f := pl2]> (<[id := pl1]> P)) /\ P !! idx_next f = None /\
    internal_rep specs ks cap pl1 (take mid (insert_at p sep keys)) (take (S mid) (insert_at (S p) right_child cs)) /\
    internal_rep specs ks cap pl2 (drop (S mid) (insert_at p sep keys)) (drop (S mid) (insert_at (S p) right_child cs)) /\
    insert_at p sep keys !! mid = Some k /\ fields f' = fields f /\ idx_next f' = idx_next f + 1.
Proof using Hgeo.
  intros Hrep (Hc1 & Hc2 & Hc3) Hp Hr Hfull Hpk Hsep Hrc Hh Hn. unfold split_internal_. rewrite !gets_bind, Hc2, Hc3.
  destruct mid_range as (Hm1 & Hm2 & Hm3).
  set (K := insert_at p sep keys). set (C := insert_at (S p) right_child cs).
  pose proof (split_internal_left_rep specs ks cap Hgeo pl keys cs p sep right_child Hr Hpk Hsep Hfull Hrc mid (conj Hm1 Hm2)) as Hleft.
  fold K C in Hleft. rewrite Hm3 in Hleft. set (pl1 := split_internal_left ks cap pl (concat K) C ((cap + 1) / 2)) in *.
  pose proof (split_internal_right_rep specs ks cap Hgeo pl keys cs p sep right_child Hr Hpk Hsep Hfull Hrc mid (conj Hm1 Hm2)
    (payload (reset page_init (idx_next f)))) as Hright. fold K C in Hright.
  specialize (Hright (proj1 (fresh_payload _)) (proj2 (fresh_payload _))). rewrite Hm3 in Hright.
  set (pl2 := split_internal_right _ _ _ _ _ _) in *.
  assert (HK : Forall (key_ok specs) K) by (apply Forall_insert_at; [done|apply (nr_ok _ _ _ _ _ _ Hr)]).
  assert (LK : zlen K = cap + 1) by (unfold K; rewrite zlen_insert_at; [lia|done]).
  destruct (lookup_lt_is_Some_2 K mid) as [k Hk]; [unfold zlen in LK; lia|].
  assert (Hsl : slice ((cap + 1) / 2 * ks) ks (concat K) = k).
  { rewrite <- Hm3. pose proof (g_pos _ _ _ Hgeo). apply (slice_concat ks); [lia|by apply (key_blocks specs ks cap Hgeo)|lia|by rewrite Nat2Z.id]. }
  destruct (with_handle_rep held f P id pl (fun h =>
    ip ← deref h;
    let tmp_keys := split_keys_buffer ks cap (payload ip) (Z.of_nat p) sep in
    let tmp_children := split_children_buffer cap (payload ip) (Z.of_nat p) right_child in
    let mid0 := (cap + 1) / 2 in
    _ ← store_page h (split_internal_left ks cap (payload ip) tmp_keys tmp_children mid0);
    right_id ← idx_reserve_page_id;
    let rp := payload (reset page_init right_id) in
    _ ← write_new right_id (split_internal_right ks cap rp tmp_keys tmp_children mid0);
    mret (slice (mid0 * ks) ks tmp_keys, right_id))
    (fun r f2 P2 => r = Ok (k, idx_next f) /\ P2 = <[idx_next f := pl2]> (<[id := pl1]> P) /\ P !! idx_next f = None /\
       fields f2 = fields f /\ idx_next f2 = idx_next f + 1)) as (r & f2 & P2 & pool & Hw & Hr2 & -> & -> & Hnone & Hf2 & Hn2);
    [done|done|done| |].
  - intros h pool Hr1 Hh1.
    destruct (store_page_rep _ _ _ Hr1 h id pl pl1 Hh1 Hp (nr_len _ _ _ _ _ _ Hleft) (nr_bytes _ _ _ _ _ _ Hleft))
      as (f2 & Hst & Hr2 & _ & Hf2 & Hn2).
    destruct (reserve_rep _ _ _ Hr2) as (f3 & Hrs & Hr3 & Hnone & Hf3 & Hn3 & _); [rewrite Hn2; exact Hn|].
    rewrite Hn2 in Hrs, Hn3, Hnone. change (idx_next (set_idx_pool f pool)) with (idx_next f) in *.
    destruct (write_new_rep _ _ _ Hr3 (idx_next f) pl2) as (f4 & Hwn & Hr4 & Hf4 & Hn4 & _);
      [rewrite Hn3; pose proof (next_range _ _ _ Hrep); lia|done|apply (nr_len _ _ _ _ _ _ Hright)|apply (nr_bytes _ _ _ _ _ _ Hright)|].
    exists (Ok (k, idx_next f)), f4, (<[idx_next f := pl2]> (<[id := pl1]> P)).
    split; [|split; [exact Hr4|]].
    + apply (deref_bind _ _ _ _ _ _ Hh1). intros pg ->. cbv zeta.
      rewrite (split_keys_eq specs ks cap Hgeo pl keys cs p sep Hr Hpk Hsep Hfull),
        (split_children_eq specs ks cap pl keys cs p right_child Hr Hpk Hfull). fold K C pl1.
      rewrite (bind_ok _ _ _ _ _ Hst), (bind_ok _ _ _ _ _ Hrs). fold pl2. rewrite (bind_ok _ _ _ _ _ Hwn), Hsl. done.
    + split; [done|]. split; [done|].
      assert (P !! idx_next f = None) by (apply lookup_insert_None in Hnone; tauto).
      split; [done|]. split; [by rewrite Hf4, Hf3, Hf2|]. rewrite Hn4, Hn3. done.
  - exists (set_idx_pool f2 pool), pl1, pl2, k. split; [exact Hw|]. split; [exact Hr2|]. split; [exact Hnone|]. split; [exact Hleft|].
    split; [exact Hright|]. split; [exact Hk|]. split; [exact Hf2|exact Hn2].
Qed.

Lemma split_leaf_ok f P id pl sib es p e : idx_rep [] f P -> params f -> P !! id = Some pl ->
  leaf_rep specs ks cap pl sib es -> zlen es = cap -> (p <= length es)%nat -> entry_ok specs e ->
  idx_next f + 1 < INVALID_PAGE_ID ->
  exists f' pl1 pl2 x, split_leaf_ id (Z.of_nat p) e.1 e.2 f = Some (Ok (x.1, idx_next f), f') /\
    idx_rep [] f' (<[idx_next f := pl2]> (<[id := pl1]> P)) /\ P !! idx_next f = None /\
    leaf_rep specs ks cap pl1 (idx_next f) (take mid (insert_at p e es)) /\
    leaf_rep specs ks cap pl2 sib (drop mid (insert_at p e es)) /\
    head (drop mid (insert_at p e es)) = Some x /\ fields f' = fields f /\ idx_next f' = idx_next f + 1.
Proof using Hgeo.
  intros Hrep (Hc1 & Hc2 & Hc3) Hp Hr Hfull Hpk He Hn. unfold split_leaf_. rewrite !gets_bind, Hc2, Hc3.
  destruct mid_range as (Hm1 & Hm2 & Hm3). destruct (next_range _ _ _ Hrep) as [Hnr Hn1].
  set (E := insert_at p e es).
  assert (HE : Forall (entry_ok specs) E) by (apply Forall_insert_at; [done|apply (lr_ok _ _ _ _ _ _ Hr)]).
  assert (LE : zlen E = cap + 1) by (unfold E; rewrite zlen_insert_at; [lia|done]).
  assert (Hsib : in_u 64 sib).
  { rewrite <- (lr_sib _ _ _ _ _ _ Hr). unfold leaf_right_sibling. pose proof (lr_bytes _ _ _ _ _ _ Hr) as Hb.
    pose proof (lr_len _ _ _ _ _ _ Hr) as Hl.
    pose proof (le_val_bound (slice INDEX_PAGE_HDR_SIZE 8 pl) (Forall_slice _ _ _ _ Hb)) as Hv.
    rewrite zlen_slice in Hv; [exact Hv|unfold INDEX_PAGE_HDR_SIZE; lia|lia|].
    rewrite Hl. unfold PAGE_PAYLOAD_SIZE, PAGE_HEADER_SIZE, INDEX_PAGE_HDR_SIZE. rewrite PAGE_SIZE_eq. lia. }
  pose proof (split_leaf_left_rep specs ks cap Hgeo E mid HE LE (conj Hm1 Hm2) pl sib es Hr) as Hleft.
  apply (set_sibling_rep specs ks cap Hgeo _ _ _ (idx_next f)) in Hleft; [|done].
  pose proof (split_leaf_right_rep specs ks cap Hgeo E mid HE LE (conj Hm1 Hm2) (payload (reset page_init (idx_next f))) sib
    (proj1 (fresh_payload _)) (proj2 (fresh_payload _)) Hsib) as Hright.
  rewrite Hm3 in Hleft, Hright.
  set (pl1 := set_leaf_right_sibling (split_leaf_left _ _ _ _ _) _) in *. set (pl2 := split_leaf_right _ _ _ _ _ _) in *.
  destruct (lookup_lt_is_Some_2 E mid) as [x Hx]; [unfold zlen in LE; lia|].
  assert (Hsl : slice ((cap + 1) / 2 * entry_size ks) ks (concat (map enc E)) = x.1).
  { rewrite <- Hm3. pose proof (g_pos _ _ _ Hgeo). pose proof (esz_pos specs ks cap Hgeo).
    assert (Hbl := slice_concat (entry_size ks) ltac:(lia) (map enc E) (Z.of_nat mid) (enc x) (enc_blocks specs ks cap Hgeo E HE)).
    rewrite Nat2Z.id, list_lookup_fmap, Hx in Hbl. specialize (Hbl ltac:(lia) eq_refl).
    transitivity (slice 0 ks (enc x)).
    - rewrite <- Hbl. rewrite slice_slice by (unfold entry_size in *; nia). by rewrite Z.add_0_r.
    - unfold enc, entry_bytes. apply slice_app_l. symmetry. apply (key_len specs ks cap Hgeo).
      exact (proj1 (Forall_lookup_1 _ _ _ _ HE Hx)). }
  destruct (with_handle_rep [] f P id pl (fun h =>
    lp ← deref h;
    let old_sibling := leaf_right_sibling (payload lp) in
    let tmp := split_leaf_buffer ks cap (payload lp) (Z.of_nat p) e.1 e.2 in
    let mid := (cap + 1) / 2 in
    let left := split_leaf_left ks cap (payload lp) tmp mid in
    right_id ← idx_reserve_page_id;
    _ ← store_page h (set_leaf_right_sibling left right_id);
    let rp := payload (reset page_init right_id) in
    _ ← write_new right_id (split_leaf_right ks cap rp tmp mid old_sibling);
    mret (slice (mid * entry_size ks) ks tmp, right_id))
    (fun r f2 P2 => r = Ok (x.1, idx_next f) /\ P2 = <[idx_next f := pl2]> (<[id := pl1]> P) /\ P !! idx_next f = None /\
       fields f2 = fields f /\ idx_next f2 = idx_next f + 1)) as (r & f2 & P2 & pool & Hw & Hr2 & -> & -> & Hnone & Hf2 & Hn2);
    [done|done|done| |].
  - intros h pool Hr1 Hh1.
    destruct (reserve_rep _ _ _ Hr1) as (f2 & Hrs & Hr2 & Hnone & Hf2 & Hn2 & Hpool); [exact Hn|].
    change (idx_next (set_idx_pool f pool)) with (idx_next f) in *.
    assert (Hh2 : handle f2 h id pl) by (unfold handle in *; by rewrite Hpool).
    destruct (store_page_rep _ _ _ Hr2 h id pl pl1 Hh2 Hp (lr_len _ _ _ _ _ _ Hleft) (lr_bytes _ _ _ _ _ _ Hleft))
      as (f3 & Hst & Hr3 & _ & Hf3 & Hn3).
    assert (Hnid : <[id := pl1]> P !! idx_next f = None) by (apply lookup_insert_None; split; [done|intros ->; congruence]).
    destruct (write_new_rep _ _ _ Hr3 (idx_next f) pl2) as (f4 & Hwn & Hr4 & Hf4 & Hn4 & _);
      [lia|done|apply (lr_len _ _ _ _ _ _ Hright)|apply (lr_bytes _ _ _ _ _ _ Hright)|].
    exists (Ok (x.1, idx_next f)), f4, (<[idx_next f := pl2]> (<[id := pl1]> P)). split; [|split; [exact Hr4|]].
    + apply (deref_bind _ _ _ _ _ _ Hh1). intros pg ->. cbv zeta.
      rewrite (split_leaf_buffer_eq specs ks cap Hgeo pl sib es p e Hr Hfull Hpk He), (lr_sib _ _ _ _ _ _ Hr).
      fold (insert_at p e es). fold E. rewrite (bind_ok _ _ _ _ _ Hrs). fold pl1. rewrite (bind_ok _ _ _ _ _ Hst).
      fold pl2. rewrite (bind_ok _ _ _ _ _ Hwn), Hsl. done.
    + split; [done|]. split; [done|]. split; [done|]. split; [by rewrite Hf4, Hf3, Hf2|]. lia.
  - exists (set_idx_pool f2 pool), pl1, pl2, x. split; [exact Hw|]. split; [exact Hr2|]. split; [exact Hnone|].
    split; [exact Hleft|]. split; [exact Hright|]. split; [by rewrite (drop_S _ _ _ Hx)|]. split; [exact Hf2|exact Hn2].
Qed.

(** ** Moving up the path *)

Definition grows (P P' : gmap Z bytes) : Prop := forall j, is_Some (P !! j) -> is_Some (P' !! j).

Lemma grows_insert (P : gmap Z bytes) id pl : grows P (<[id := pl]> P).
Proof using. intros j [x Hx]. destruct (decide (j = id)) as [->|]; [rewrite lookup_insert_eq|rewrite lookup_insert_ne by done]; eauto. Qed.

Lemma grows_trans P1 P2 P3 : grows P1 P2 -> grows P2 P3 -> grows P1 P3.
Proof using. unfold grows. auto. Qed.

Section up.
Context (e : entry).
Hypothesis Hkey : key_ok specs e.1.

(** A replacement of the leaf by one leaf is a replacement of the tree by one tree. *)
Lemma located_done t leaf es path : located e.1 t leaf es path -> forall nxt P P',
  tree_in P nxt t -> sorted (entries t) -> NoDup (ids t) ->
  (forall n, tree_in P n (TLeaf leaf es) -> exists l, replaced e P P' n (TLeaf leaf es) [l]) ->
  exists t', replaced e P P' nxt t [t'].
Proof using Hgeo Hkey.
  induction 1 as [id es|id ch c leaf es path Hi Hl IH]; intros nxt P P' Ht Hs Hnd Hleaf; [by apply Hleaf|].
  assert (Hndc : NoDup (ids c)).
  { simpl in Hnd. rewrite (ids_lookup ch _ c Hi) in Hnd. apply NoDup_cons in Hnd as [_ Hnd].
    rewrite !NoDup_app in Hnd. tauto. }
  destruct (IH _ P P' (child_in _ _ _ _ _ _ Ht Hi) (child_sorted id _ _ _ Hs Hi) Hndc Hleaf) as [t' Hr].
  eexists. destruct (own_id e P P' nxt id ch c [t'] Hkey Ht Hs Hnd Hi Hr) as (_ & _ & Hsame & _).
  pose proof Ht as [_ [(pl & Hp & Hrep) _]].
  apply (lift_one e P P' nxt id ch c [t'] Hkey Ht Hs Hnd Hi Hr P' pl); [by rewrite Hsame| |done].
  destruct (replace_keys e P P' nxt id ch c [t'] Hkey Ht Hs Hnd Hi Hr t' [] eq_refl) as [-> ->].
  cbn [map app]. by rewrite !take_drop.
Qed.

Lemma fkey_node id c ch : entries c <> [] -> fkey (TNode id (c :: ch)) = fkey c.
Proof using. intros Hne. unfold fkey. simpl. by destruct (entries c). Qed.

(** Cutting the children in two cuts the separators in two, without the one between. *)
Lemma cut_children (l : list tree) m : (S m < length l)%nat ->
  map fkey (tail (take (S m) l)) = take m (map fkey (tail l)) /\ map tid (take (S m) l) = take (S m) (map tid l) /\
  map fkey (tail (drop (S m) l)) = drop (S m) (map fkey (tail l)) /\ map tid (drop (S m) l) = drop (S m) (map tid l) /\
  exists c rest, drop (S m) l = c :: rest /\ map fkey (tail l) !! m = Some (fkey c).
Proof using.
  intros Hl. destruct l as [|x l]; [simpl in Hl; lia|]. simpl in Hl.
  destruct (lookup_lt_is_Some_2 l m) as [c Hc]; [lia|].
  split; [simpl; by rewrite firstn_map|]. split; [by rewrite firstn_map|].
  split; [simpl; by rewrite skipn_map, (drop_S _ _ _ Hc)|]. split; [by rewrite skipn_map|].
  exists c, (drop (S m) l). simpl. split; [by apply drop_S|]. by rewrite list_lookup_fmap, Hc.
Qed.

(** One step of the loop: the node takes the new child, or splits. *)
Section step.
Context (f : IndexFile) (P P' : gmap Z bytes) (nxt id : Z) (ch : list tree) (c t' r : tree) (path0 : list PathEntry).
Abbreviation p := (slot_of e.1 ch).
Hypothesis Ht : tree_in P nxt (TNode id ch).
Hypothesis Hs : sorted (entries (TNode id ch)).
Hypothesis Hnd : NoDup (ids (TNode id ch)).
Hypothesis Hi : ch !! p = Some c.
Hypothesis Hr : replaced e P P' (after nxt (drop (S p) ch)) c [t'; r].
Hypothesis Hg : grows P P'.
Hypothesis Hrep : idx_rep [] f P'.
Hypothesis Hpar : params f.
Abbreviation keys := (map fkey (tail ch)).
Abbreviation cs := (map tid ch).
Abbreviation ch' := (replace p [t'; r] ch).

Lemma step_lists : map fkey (tail ch') = insert_at p (fkey r) keys /\ map tid ch' = insert_at (S p) (tid r) cs.
Proof using All. exact (replace_keys e P P' nxt id ch c [t'; r] Hkey Ht Hs Hnd Hi Hr t' [r] eq_refl). Qed.

Lemma step_sep : key_ok specs (fkey r) /\ in_u 64 (tid r) /\ (p <= length keys)%nat.
Proof using All.
  pose proof (rp_chain _ _ _ _ _ _ Hr) as (_ & Hrt & _). cbn [after] in Hrt. split; [|split].
  - destruct (fkey_entry r (entries_nonempty _ _ _ Hrt)) as (x & _ & Hx & <-).
    pose proof (tree_entries_ok _ _ _ Hrt) as Hok. rewrite Forall_forall in Hok. by apply Hok.
  - destruct (tree_ids_in _ _ _ Hrt (tid r) (tid_in_ids r)) as [y Hy]. by eapply page_range.
  - rewrite length_map. pose proof Ht as [Hne _]. pose proof (slot_of_lt e.1 ch Hne).
    assert (length ch = S (length (tail ch))) by (destruct ch; [done|reflexivity]). lia.
Qed.

Lemma step_page : exists pl, P' !! id = Some pl /\ internal_rep specs ks cap pl keys cs.
Proof using All.
  destruct (own_id e P P' nxt id ch c [t'; r] Hkey Ht Hs Hnd Hi Hr) as (_ & _ & -> & _). by destruct Ht as [_ [? _]].
Qed.

(** The use of the parent page in [propagate]. *)
Abbreviation body := (fun h =>
  ph ← deref h;
  let p0 := payload ph in
  let n_keys := hdr_entry_count p0 in
  if n_keys <? hdr_capacity p0 then
    _ ← store_page h (set_hdr_entry_count
          (insert_internal_entry ks cap p0 (Z.of_nat p) (fkey r) (tid r) n_keys) (n_keys + 1));
    mret None
  else
    split ← split_internal_ id (Z.of_nat p) (fkey r) (tid r);
    mret (Some split)).

Lemma propagate_body : propagate ((id, Z.of_nat p) :: path0) (fkey r) (tid r) f =
  (with_handle id body ≫= fun up => match up with None => mret tt | Some (s, n) => propagate path0 s n end) f.
Proof using Hpar. destruct Hpar as (Hc1 & Hc2 & Hc3). cbn [propagate]. by rewrite !gets_bind, Hc2, Hc3. Qed.

Lemma propagate_room : zlen keys < cap ->
  exists f' P'' n, idx_rep [] f' P'' /\ fields f' = fields f /\ idx_next f' = idx_next f /\ grows P P'' /\
    propagate ((id, Z.of_nat p) :: path0) (fkey r) (tid r) f = Some (Ok tt, f') /\ replaced e P P'' nxt (TNode id ch) [n].
Proof using All.
  intros Hroom. destruct step_page as (pl & Hp & Hnode). destruct step_sep as (Hsep & Hrid & Hpk). destruct step_lists as [HK HC].
  pose proof (insert_internal_rep specs ks cap Hgeo pl keys cs p (fkey r) (tid r) Hnode Hpk Hsep Hrid Hroom) as Hins.
  set (pl' := set_hdr_entry_count _ _) in Hins.
  destruct (with_handle_rep [] f P' id pl body
    (fun res f2 P2 => res = Ok None /\ P2 = <[id := pl']> P' /\ fields f2 = fields f /\ idx_next f2 = idx_next f))
    as (res & f2 & P2 & pool & Hw & Hr2 & -> & -> & Hf2 & Hn2); [done|done|done| |].
  { intros h pool Hr1 Hh1.
    destruct (store_page_rep _ _ _ Hr1 h id pl pl' Hh1 Hp (nr_len _ _ _ _ _ _ Hins) (nr_bytes _ _ _ _ _ _ Hins))
      as (f2 & Hst & Hr2 & _ & Hf2 & Hn2).
    eexists _, f2, _. split; [|split; [exact Hr2|split; [reflexivity|split; [reflexivity|by split]]]].
    apply (deref_bind _ _ _ _ _ _ Hh1). intros pg ->. cbv zeta.
    rewrite (nr_count _ _ _ _ _ _ Hnode), (nr_cap _ _ _ _ _ _ Hnode), (proj2 (Z.ltb_lt _ _) Hroom).
    fold pl'. by rewrite (bind_ok _ _ _ _ _ Hst). }
  eexists _, (<[id := pl']> P'), (TNode id ch'). split; [exact Hr2|]. split; [exact Hf2|]. split; [exact Hn2|].
  split; [apply (grows_trans _ P'); [done|apply grows_insert]|].
  split; [by rewrite propagate_body, (bind_ok _ _ _ _ _ Hw)|].
  apply (lift_one e P P' nxt id ch c [t'; r] Hkey Ht Hs Hnd Hi Hr _ pl').
  - apply lookup_insert_eq.
  - by rewrite HK, HC.
  - intros j Hj. by rewrite lookup_insert_ne.
Qed.

Lemma propagate_full : zlen keys = cap -> idx_next f + 1 < INVALID_PAGE_ID ->
  exists f' P'' n n2, idx_rep [] f' P'' /\ fields f' = fields f /\ idx_next f' = idx_next f + 1 /\ grows P P'' /\
    propagate ((id, Z.of_nat p) :: path0) (fkey r) (tid r) f = propagate path0 (fkey n2) (tid n2) f' /\
    replaced e P P'' nxt (TNode id ch) [n; n2].
Proof using All.
  intros Hfull Hn. destruct step_page as (pl & Hp & Hnode). destruct step_sep as (Hsep & Hrid & Hpk). destruct step_lists as [HK HC].
  destruct (next_range _ _ _ Hrep) as [_ Hn1]. destruct mid_range as (Hm1 & Hm2 & _).
  destruct (with_handle_rep [] f P' id pl body
    (fun res f2 P2 => exists pl1 pl2 k, res = Ok (Some (k, idx_next f)) /\ P2 = <[idx_next f := pl2]> (<[id := pl1]> P') /\
       P' !! idx_next f = None /\
       internal_rep specs ks cap pl1 (take mid (map fkey (tail ch'))) (take (S mid) (map tid ch')) /\
       internal_rep specs ks cap pl2 (drop (S mid) (map fkey (tail ch'))) (drop (S mid) (map tid ch')) /\
       map fkey (tail ch') !! mid = Some k /\ fields f2 = fields f /\ idx_next f2 = idx_next f + 1))
    as (res & f2 & P2 & pool & Hw & Hr2 & pl1 & pl2 & k & -> & -> & Hnone & Hl & Hrr & Hk & Hf2 & Hn2); [done|done|done| |].
  { intros h pool Hr1 Hh1.
    destruct (split_internal_ok [id] (set_idx_pool f pool) P' id pl keys cs p (fkey r) (tid r) Hr1 Hpar Hp Hnode Hfull Hpk Hsep Hrid)
      as (f2 & pl1 & pl2 & k & Hsp & Hr2 & Hnone & Hl & Hrr & Hk & Hf2 & Hn2); [done|exact Hn|].
    rewrite <- HK, <- HC in *. exists (Ok (Some (k, idx_next f))), f2, (<[idx_next f := pl2]> (<[id := pl1]> P')).
    split; [|split; [exact Hr2|]].
    - apply (deref_bind _ _ _ _ _ _ Hh1). intros pg ->. cbv zeta.
      rewrite (nr_count _ _ _ _ _ _ Hnode), (nr_cap _ _ _ _ _ _ Hnode), (proj2 (Z.ltb_ge _ _)) by lia.
      by rewrite (bind_ok _ _ _ _ _ Hsp).
    - exists pl1, pl2, k. split; [done|]. split; [done|]. split; [exact Hnone|]. split; [exact Hl|]. split; [exact Hrr|].
      split; [exact Hk|]. split; [exact Hf2|exact Hn2]. }
  assert (Hlen : length ch' = S (S (Z.to_nat cap))).
  { assert (Hlc : length (map tid ch') = S (length cs)).
    { rewrite HC. pose proof (zlen_insert_at (S p) (tid r) cs) as Hz. unfold zlen in Hz.
      rewrite length_map in *. pose proof Ht as [Hne _]. pose proof (slot_of_lt e.1 ch Hne). lia. }
    rewrite !length_map in Hlc. pose proof (nr_children _ _ _ _ _ _ Hnode) as Hc. unfold zlen in *. rewrite !length_map in *. lia. }
  destruct (cut_children ch' mid) as (C1 & C2 & C3 & C4 & c1 & rest & Cb & C5); [lia|].
  rewrite C5 in Hk. injection Hk as <-. rewrite <- C1, <- C2 in Hl. rewrite <- C3, <- C4, Cb in Hrr.
  set (a := take (S mid) ch') in *. assert (Hab : ch' = a ++ c1 :: rest) by (rewrite <- Cb; symmetry; apply take_drop).
  assert (Ha : a <> []) by (intros Ha; apply (f_equal length) in Ha; unfold a in Ha; rewrite length_take, Hlen in Ha; cbn [length] in Ha; lia).
  assert (Hc1 : entries c1 <> []).
  { pose proof (replace_chain e P P' nxt id ch c [t'; r] Hkey Ht Hs Hnd Hi Hr) as Hch. rewrite Hab in Hch.
    apply chain_app in Hch as [_ [Hch _]]. by eapply entries_nonempty. }
  assert (Hid : id <> idx_next f) by (intros Heq; rewrite Heq in Hp; congruence).
  eexists _, _, (TNode id a), (TNode (idx_next f) (c1 :: rest)). split; [exact Hr2|]. split; [exact Hf2|]. split; [exact Hn2|].
  split; [apply (grows_trans _ P'); [done|]; apply (grows_trans _ (<[id := pl1]> P')); apply grows_insert|]. split.
  - rewrite propagate_body, (bind_ok _ _ _ _ _ Hw), fkey_node by done. reflexivity.
  - apply (lift_two e P P' nxt id ch c [t'; r] Hkey Ht Hs Hnd Hi Hr _ pl1 pl2 (idx_next f) a (c1 :: rest));
      [done|done|done| |done|apply lookup_insert_eq|done|done| |done].
    + rewrite lookup_insert_ne by done. apply lookup_insert_eq.
    + intros j Hj1 Hj2. by rewrite !lookup_insert_ne.
Qed.
End step.

(** The loop over the path, after the leaf became [l] and [r]. *)
Lemma propagate_ok t leaf es path : located e.1 t leaf es path -> forall nxt P P1 f l r path0,
  tree_in P nxt t -> sorted (entries t) -> NoDup (ids t) -> idx_rep [] f P1 -> params f -> grows P P1 ->
  (forall n, tree_in P n (TLeaf leaf es) -> replaced e P P1 n (TLeaf leaf es) [l; r]) ->
  idx_next f + zlen path + 1 < INVALID_PAGE_ID ->
  exists f' P', idx_rep [] f' P' /\ fields f' = fields f /\ idx_next f <= idx_next f' <= idx_next f + zlen path /\ grows P P' /\
    ((exists t', propagate (path ++ path0) (fkey r) (tid r) f = Some (Ok tt, f') /\ replaced e P P' nxt t [t']) \/
     (exists t' r', propagate (path ++ path0) (fkey r) (tid r) f = propagate path0 (fkey r') (tid r') f' /\
        replaced e P P' nxt t [t'; r'])).
Proof using Hgeo Hkey.
  induction 1 as [id es|id ch c leaf es path Hi Hl IH]; intros nxt P P1 f l r path0 Ht Hs Hnd Hrep Hpar Hg Hleaf Hn.
  { exists f, P1. split; [done|]. split; [done|]. split; [unfold zlen; simpl; lia|]. split; [done|]. right.
    exists l, r. split; [done|]. by apply Hleaf. }
  assert (Hndc : NoDup (ids c)).
  { simpl in Hnd. rewrite (ids_lookup ch _ c Hi) in Hnd. apply NoDup_cons in Hnd as [_ Hnd].
    rewrite !NoDup_app in Hnd. tauto. }
  rewrite zlen_app in Hn |- *. change (zlen [(id, Z.of_nat (slot_of e.1 ch))]) with 1 in *.
  destruct (IH _ P P1 f l r ((id, Z.of_nat (slot_of e.1 ch)) :: path0) (child_in _ _ _ _ _ _ Ht Hi) (child_sorted id _ _ _ Hs Hi)
    Hndc Hrep Hpar Hg Hleaf) as (f1 & P' & Hrep1 & Hf1 & Hn1 & Hg1 & Hcase); [lia|].
  rewrite <- app_assoc. cbn [app].
  destruct Hcase as [(t' & Hrun & Hr)|(t' & r' & Hrun & Hr)].
  - exists f1, P'. split; [done|]. split; [done|]. split; [lia|]. split; [done|]. left.
    destruct (own_id e P P' nxt id ch c [t'] Hkey Ht Hs Hnd Hi Hr) as (_ & _ & Hsame & _).
    pose proof Ht as [_ [(pl & Hp & Hnode) _]]. eexists. split; [exact Hrun|].
    apply (lift_one e P P' nxt id ch c [t'] Hkey Ht Hs Hnd Hi Hr P' pl); [by rewrite Hsame| |done].
    destruct (replace_keys e P P' nxt id ch c [t'] Hkey Ht Hs Hnd Hi Hr t' [] eq_refl) as [-> ->].
    cbn [map app]. by rewrite !take_drop.
  - assert (Hpar1 : params f1) by by apply (params_fields f). rewrite Hrun.
    pose proof Ht as [_ [(pl & Hp & Hnode) _]]. pose proof (nr_fit _ _ _ _ _ _ Hnode) as Hfit.
    destruct (Z.lt_ge_cases (zlen (map fkey (tail ch))) cap) as [Hroom|Hfull].
    + destruct (propagate_room f1 P P' nxt id ch c t' r' path0 Ht Hs Hnd Hi Hr Hg1 Hrep1 Hpar1 Hroom)
        as (f2 & P2 & n & Hr2 & Hf2 & Hn2 & Hg2 & Hrun2 & Hrpl).
      exists f2, P2. split; [done|]. split; [congruence|]. split; [lia|]. split; [done|]. left. by exists n.
    + destruct (propagate_full f1 P P' nxt id ch c t' r' path0 Ht Hs Hnd Hi Hr Hg1 Hrep1 Hpar1)
        as (f2 & P2 & n & n2 & Hr2 & Hf2 & Hn2 & Hg2 & Hrun2 & Hrpl); [lia|lia|].
      exists f2, P2. split; [done|]. split; [congruence|]. split; [lia|]. split; [done|]. right. by exists n, n2.
Qed.

Lemma located_path t leaf es path : located e.1 t leaf es path -> (length path < depth t)%nat.
Proof using.
  induction 1 as [id es|id ch c leaf es path Hi _ IH]; simpl; [lia|].
  rewrite length_app. simpl. pose proof (child_depth id ch _ c Hi) as Hd. simpl in Hd. lia.
Qed.

(** Where the search ends there is a leaf of the tree. *)
Lemma located_leaf t leaf es path : located e.1 t leaf es path -> forall P nxt, tree_in P nxt t -> sorted (entries t) ->
  exists n pl, tree_in P n (TLeaf leaf es) /\ P !! leaf = Some pl /\ leaf_rep specs ks cap pl n es /\ sorted es /\
    leaf ∈ ids t.
Proof using.
  induction 1 as [id es|id ch c leaf es path Hi Hl IH]; intros P nxt Ht Hs.
  - pose proof Ht as [_ (pl & Hp & Hr)]. exists nxt, pl.
    split; [exact Ht|]. split; [exact Hp|]. split; [exact Hr|]. split; [exact Hs|]. by apply list_elem_of_singleton.
  - destruct (IH P _ (child_in _ _ _ _ _ _ Ht Hi) (child_sorted id _ _ _ Hs Hi)) as (n & pl & H1 & H2 & H3 & H4 & H5).
    exists n, pl. split; [exact H1|]. split; [exact H2|]. split; [exact H3|]. split; [exact H4|].
    simpl. rewrite (ids_lookup ch _ c Hi), elem_of_cons, !elem_of_app. tauto.
Qed.

(** ** A new root *)

(** The flags of the top page of a tree do not matter. *)
Lemma set_flags_tree P nxt t pl v : tree_in P nxt t -> NoDup (ids t) -> P !! tid t = Some pl ->
  tree_in (<[tid t := set_hdr_flags pl v]> P) nxt t /\ zlen (set_hdr_flags pl v) = PAGE_PAYLOAD_SIZE /\
  Forall is_byte (set_hdr_flags pl v).
Proof using Hgeo.
  destruct t as [id es|id ch]; cbn [tid]; intros Ht Hnd Hp.
  - destruct Ht as [Hne (pl' & Hp' & Hr)]. rewrite Hp in Hp'. injection Hp' as <-.
    pose proof (set_flags_leaf specs ks cap pl nxt es v Hr) as Hr'.
    split; [|split; [apply (lr_len _ _ _ _ _ _ Hr')|apply (lr_bytes _ _ _ _ _ _ Hr')]].
    split; [done|]. eexists. split; [apply lookup_insert_eq|exact Hr'].
  - destruct Ht as [Hne [(pl' & Hp' & Hr) Hc]]. rewrite Hp in Hp'. injection Hp' as <-.
    pose proof (set_flags_internal specs ks cap Hgeo pl _ _ v Hr) as Hr'.
    split; [|split; [apply (nr_len _ _ _ _ _ _ Hr')|apply (nr_bytes _ _ _ _ _ _ Hr')]].
    split; [done|]. split; [eexists; split; [apply lookup_insert_eq|exact Hr']|].
    apply (chain_frame P); [|done]. intros j Hj. apply lookup_insert_ne. intros ->.
    simpl in Hnd. by apply NoDup_cons in Hnd as [? _].
Qed.

(** The bytes of the new root. *)
Lemma new_root_rep pl sep a b : zlen pl = PAGE_PAYLOAD_SIZE -> Forall is_byte pl -> key_ok specs sep -> in_u 64 a -> in_u 64 b ->
  internal_rep specs ks cap (splice (internal_key_at ks cap 0) sep
    (set_child (set_child (init_hdr pl IDX_PAGE_INTERNAL IDX_FLAG_IS_ROOT 1 cap) 0 a) 1 b)) [sep] [a; b].
Proof using Hgeo.
  intros Hl Hb Hk Ha Hb'. pose proof (g_cap _ _ _ Hgeo). pose proof (g_fit _ _ _ Hgeo) as Hfit. pose proof (g_pos _ _ _ Hgeo).
  destruct (init_hdr_fields specs ks cap Hgeo pl IDX_PAGE_INTERNAL IDX_FLAG_IS_ROOT 1) as (F1 & _);
    [done|done|unfold IDX_PAGE_INTERNAL, in_u; lia|unfold in_u; lia|].
  pose proof (new_internal_rep specs ks cap Hgeo pl IDX_FLAG_IS_ROOT [sep] [a; b] Hl Hb) as Hnew.
  replace (concat [sep]) with sep in Hnew by (simpl; by rewrite app_nil_r).
  replace (child_bytes [a; b]) with (le_bytes 8 a ++ le_bytes 8 b) in Hnew
    by (unfold child_bytes; cbn [map concat]; by rewrite app_nil_r).
  change (zlen [sep]) with 1 in Hnew. change (zlen [a; b]) with 2 in Hnew.
  rewrite <- splice_splice_app in Hnew by (rewrite ?zlen_le_bytes, ?F1; unfold INDEX_PAGE_HDR_SIZE in *; nia).
  rewrite zlen_le_bytes in Hnew. apply Hnew; [by apply Forall_singleton|by apply Forall_cons; split; [done|apply Forall_singleton]|lia|lia].
Qed.

Lemma grow_root_ok f P t r : idx_rep [] f P -> params f -> root_page_id_ f = tid t -> chain P INVALID_PAGE_ID [t; r] ->
  NoDup (concat (map ids [t; r])) -> idx_next f + 1 < INVALID_PAGE_ID ->
  exists f' P' nid, grow_root (fkey r) (tid r) f = Some (Ok tt, f') /\ idx_rep [] f' P' /\
    fields f' = fields (with_root f nid) /\ tree_in P' INVALID_PAGE_ID (TNode nid [t; r]) /\ NoDup (ids (TNode nid [t; r])) /\
    idx_next f' = idx_next f + 1 /\ nid <> 0.
Proof using Hgeo.
  intros Hrep (Hc1 & Hc2 & Hc3) Hroot Hch Hnd Hn. pose proof Hch as (Ht & Hr & _). cbn [after] in Ht, Hr.
  destruct (next_range _ _ _ Hrep) as [_ Hn1].
  assert (Hdom : forall j, j ∈ concat (map ids [t; r]) -> is_Some (P !! j)).
  { intros j. cbn [map concat]. rewrite app_nil_r, elem_of_app.
    intros [Hj|Hj]; [exact (tree_ids_in _ _ _ Ht _ Hj)|exact (tree_ids_in _ _ _ Hr _ Hj)]. }
  destruct (Hdom (tid t)) as [pt Hpt]; [cbn [map concat]; rewrite elem_of_app; left; apply tid_in_ids|].
  destruct (Hdom (tid r)) as [pr Hpr]; [cbn [map concat]; rewrite app_nil_r, elem_of_app; right; apply tid_in_ids|].
  assert (Hsep : key_ok specs (fkey r)).
  { destruct (fkey_entry r (entries_nonempty _ _ _ Hr)) as (x & _ & Hx & <-).
    pose proof (tree_entries_ok _ _ _ Hr) as Hok. rewrite Forall_forall in Hok. by apply Hok. }
  destruct (reserve_rep _ _ _ Hrep Hn) as (f1 & Hrs & Hrep1 & Hnone & Hf1 & Hnx1 & _).
  pose proof (new_root_rep (payload (reset page_init (idx_next f))) (fkey r) (tid t) (tid r) (proj1 (fresh_payload _)) (proj2 (fresh_payload _)) Hsep
    (page_range _ _ _ _ _ Hrep Hpt) (page_range _ _ _ _ _ Hrep Hpr)) as Hnew.
  set (nrp := splice _ _ _) in Hnew.
  destruct (write_new_rep _ _ _ Hrep1 (idx_next f) nrp) as (f2 & Hwn & Hrep2 & Hf2 & Hnx2 & _);
    [lia|done|apply (nr_len _ _ _ _ _ _ Hnew)|apply (nr_bytes _ _ _ _ _ _ Hnew)|].
  assert (Hne : forall j, j ∈ concat (map ids [t; r]) -> j <> idx_next f).
  { intros j Hj ->. destruct (Hdom _ Hj). congruence. }
  assert (Hch2 : chain (<[idx_next f := nrp]> P) INVALID_PAGE_ID [t; r]).
  { apply (chain_frame P); [|done]. intros j Hj. apply lookup_insert_ne. by apply not_eq_sym, Hne. }
  assert (Hpt2 : <[idx_next f := nrp]> P !! tid t = Some pt).
  { rewrite lookup_insert_ne; [done|]. apply not_eq_sym, Hne. cbn [map concat]. rewrite elem_of_app. left. apply tid_in_ids. }
  cbn [map concat] in Hnd. rewrite app_nil_r in Hnd. apply NoDup_app in Hnd as (N1 & N2 & N3).
  set (v := Z.land (hdr_flags pt) (Z.lnot IDX_FLAG_IS_ROOT)).
  destruct Hch2 as (Ht2 & Hr2 & _). cbn [after] in Ht2, Hr2.
  destruct (set_flags_tree _ _ t pt v Ht2 N1 Hpt2) as (Ht3 & Hlen & Hbytes).
  destruct (with_handle_rep [] f2 (<[idx_next f := nrp]> P) (tid t) pt (fun h =>
      orp ← deref h;
      store_page h (set_hdr_flags (payload orp) (Z.land (hdr_flags (payload orp)) (Z.lnot IDX_FLAG_IS_ROOT))))
    (fun res f3 P3 => res = Ok tt /\ P3 = <[tid t := set_hdr_flags pt v]> (<[idx_next f := nrp]> P) /\ fields f3 = fields f2 /\ idx_next f3 = idx_next f2))
    as (res & f3 & P3 & pool & Hw & Hrep3 & -> & -> & Hf3 & Hnx3); [done|done|done| |].
  { intros h pool Hr1 Hh1. destruct (store_page_rep _ _ _ Hr1 h (tid t) pt (set_hdr_flags pt v) Hh1 Hpt2 Hlen Hbytes)
      as (f3 & Hst & Hrep3 & _ & Hf3 & Hnx3). eexists _, f3, _.
    split; [|split; [exact Hrep3|split; [reflexivity|split; [reflexivity|by split]]]].
    apply (deref_bind _ _ _ _ _ _ Hh1). intros pg ->. exact Hst. }
  exists (with_root (set_idx_pool f3 pool) (idx_next f)), (<[tid t := set_hdr_flags pt v]> (<[idx_next f := nrp]> P)), (idx_next f).
  split; [|split; [|split; [|split; [|split; [|split]]]]].
  - unfold grow_root. rewrite !gets_bind, Hc2, Hc3, Hroot. rewrite (bind_ok _ _ _ _ _ Hrs). cbv zeta. fold nrp.
    rewrite (bind_ok _ _ _ _ _ Hwn), (bind_ok _ _ _ _ _ Hw). reflexivity.
  - by apply (fields_rep _ _ _ Hrep3).
  - apply (fields_with f _ _ 0 true). change (fields f3 = fields f). by rewrite Hf3, Hf2, Hf1.
  - split; [done|]. split.
    + exists nrp. split; [|exact Hnew]. rewrite lookup_insert_ne; [apply lookup_insert_eq|].
      apply Hne. cbn [map concat]. rewrite elem_of_app. left. apply tid_in_ids.
    + split; [exact Ht3|]. split; [|done]. cbn [after].
      apply (tree_in_frame (<[idx_next f := nrp]> P)); [|exact Hr2]. intros j Hj. apply lookup_insert_ne.
      intros <-. apply (N2 (tid t)); [apply tid_in_ids|done].
  - cbn [ids map concat]. rewrite app_nil_r. constructor; [|by apply NoDup_app].
    intros Hin. apply (Hne (idx_next f)); [cbn [map concat]; by rewrite app_nil_r|done].
  - change (idx_next f3 = idx_next f + 1). lia.
  - lia.
Qed.

End up.

End trees.
