(* ===== verification/BTreeIndex.v ===== *)
(** * The index as a sorted list

    What a B+ tree index promises: it holds a sorted list of entries ([index_rep]); an
    insertion adds the entry behind its equals, or reports a duplicate of a unique key. *)

From stdpp Require Import sorting.
From S2P Require Import Prelude Types Page LruK BufferPool IndexFile BTreeNode BTreeLayout BTree BTreeInsert.

Section index.
Context (specs : list IndexColSpec) (ks cap : Z).
Hypothesis Hgeo : geometry specs ks cap.

Abbreviation sorted := (sorted_entries specs).
Abbreviation leaf_rep := (leaf_rep specs ks cap).
Abbreviation tree_in := (tree_in specs ks cap).
Abbreviation replaced := (replaced specs ks cap).

Lemma sorted_lookup es i j x y : sorted es -> es !! i = Some x -> es !! j = Some y -> (i < j)%nat ->
  key_le specs x.1 y.1.
Proof using.
  unfold sorted_entries. revert i j. induction es as [|a es IH]; intros i j Hs Hi Hj Hlt; [done|].
  inversion_clear Hs as [|? ? Hs' Ha]. destruct j as [|j]; [lia|]. destruct i as [|i]; simplify_eq/=; [|by apply (IH i j); [..|lia]].
  rewrite Forall_forall in Ha. apply Ha, list_elem_of_fmap. exists y. split; [done|]. by eapply list_elem_of_lookup_2.
Qed.

(** ** The leaf of an insertion *)

Section leaf.
Context (e : entry) (P : gmap Z bytes) (leaf : Z) (pl : bytes) (sib : Z) (es : list entry).
Hypothesis He : entry_ok specs e.
Hypothesis Hp : P !! leaf = Some pl.
Hypothesis Hr : leaf_rep pl sib es.
Hypothesis Hs : sorted es.

Lemma leaf_sib n : tree_in P n (TLeaf leaf es) -> n = sib.
Proof using Hp Hr.
  intros [_ (pl' & Hp' & Hr')]. rewrite Hp in Hp'. injection Hp' as <-.
  by rewrite <- (lr_sib _ _ _ _ _ _ Hr), (lr_sib _ _ _ _ _ _ Hr').
Qed.

Lemma ins_nonempty (x : entry) l : ins specs x l <> [].
Proof using. unfold ins, insert_at. intros H. by apply app_eq_nil in H as [_ ?]. Qed.

Lemma leaf_one pl' n : leaf_rep pl' sib (ins specs e es) -> tree_in P n (TLeaf leaf es) ->
  replaced e P (<[leaf := pl']> P) n (TLeaf leaf es) [TLeaf leaf (ins specs e es)].
Proof using Hp Hr.
  intros Hr' Ht. rewrite (leaf_sib n Ht). split.
  - cbn [chain_of after]. split; [|done]. split; [apply ins_nonempty|]. exists pl'. by rewrite lookup_insert_eq.
  - by eexists _, [].
  - cbn. by rewrite app_nil_r.
  - intros id Hid _. apply lookup_insert_ne. intros ->. apply Hid. by apply list_elem_of_singleton.
  - cbn. auto.
  - cbn. apply NoDup_singleton.
  - by apply Forall_singleton.
Qed.

Lemma leaf_two pl1 pl2 nid m n : P !! nid = None ->
  leaf_rep pl1 nid (take m (ins specs e es)) -> leaf_rep pl2 sib (drop m (ins specs e es)) ->
  (1 <= m <= length es)%nat -> tree_in P n (TLeaf leaf es) ->
  replaced e P (<[nid := pl2]> (<[leaf := pl1]> P)) n (TLeaf leaf es)
    [TLeaf leaf (take m (ins specs e es)); TLeaf nid (drop m (ins specs e es))].
Proof using Hp Hr.
  intros Hn H1 H2 Hm Ht. rewrite (leaf_sib n Ht).
  assert (Hne : leaf <> nid) by (intros ->; congruence).
  assert (Hlen : length (ins specs e es) = S (length es)).
  { pose proof (zlen_insert_at (prefix_len (fun x => le_key specs e.1 x.1) es) e es (prefix_len_le _ _)) as H.
    unfold zlen in H. unfold ins. lia. }
  split.
  - cbn [chain_of after]. split; [|split; [|done]].
    + split; [intros H; apply (f_equal length) in H; rewrite length_take in H; cbn in H; lia|].
      exists pl1. rewrite lookup_insert_ne, lookup_insert_eq by done. done.
    + split; [intros H; apply (f_equal length) in H; rewrite length_drop in H; cbn in H; lia|].
      exists pl2. by rewrite lookup_insert_eq.
  - by eexists _, [_].
  - cbn. by rewrite app_nil_r, take_drop.
  - intros id Hid [y Hy]. cbn in Hid. rewrite list_elem_of_singleton in Hid. rewrite !lookup_insert_ne; congruence.
  - cbn. intros id. rewrite !elem_of_cons, elem_of_nil. intros [->|[->|[]]]; auto.
  - cbn. apply NoDup_cons. rewrite list_elem_of_singleton. split; [done|apply NoDup_singleton].
  - apply Forall_cons. split; [done|]. by apply Forall_singleton.
Qed.

(** The slot before the insertion slot shows whether the key is present. *)
Abbreviation p := (prefix_len (fun x => le_key specs e.1 x.1) es).

Definition same_key (key : bytes) (x : entry) : bool := compare_keys specs x.1 key =? 0.

Lemma leaf_key_ok x : x ∈ es -> key_ok specs x.1.
Proof using Hr. intros Hx. pose proof (lr_ok _ _ _ _ _ _ Hr) as H. rewrite Forall_forall in H. by apply H. Qed.

Lemma leaf_downward : downward (fun x => le_key specs e.1 x.1) es.
Proof using He Hr Hs.
  apply (downward_map fst (le_key specs e.1)).
  apply (downward_key specs _ e.1); [by left|apply He|apply entries_keys_ok, (lr_ok _ _ _ _ _ _ Hr)|exact Hs].
Qed.

Lemma dup_slot : existsb (same_key e.1) es =
  (Z.of_nat p >? 0) && (compare_keys specs (leaf_key_at ks pl (Z.of_nat p - 1)) e.1 =? 0).
Proof using Hgeo He Hr Hs.
  pose proof leaf_downward as Hd. apply eq_bool_prop_intro. rewrite andb_True, !Is_true_true, existsb_exists. split.
  - intros (x & Hx & Hxk). apply list_elem_of_In in Hx. unfold same_key in Hxk. rewrite Z.eqb_eq in Hxk.
    apply list_elem_of_lookup in Hx as Hi. destruct Hi as [i Hi].
    assert (Hip : (i < p)%nat).
    { pose proof (prefix_len_spec _ _ _ _ Hd Hi) as H. cbv beta in H. unfold le_key in H. rewrite Hxk in H.
      symmetry in H. by apply bool_decide_eq_true in H. }
    destruct (lookup_lt_is_Some_2 es (p - 1)) as [y Hy].
    { pose proof (prefix_len_le (fun x => le_key specs e.1 x.1) es). lia. }
    destruct (leaf_read specs ks cap Hgeo pl sib es (Z.of_nat p - 1) y Hr) as [-> _];
      [lia|by replace (Z.to_nat (Z.of_nat p - 1)) with (p - 1)%nat by lia|].
    assert (Hyl : compare_keys specs y.1 e.1 <= 0).
    { pose proof (prefix_len_spec _ _ _ _ Hd Hy) as H. cbv beta in H. rewrite bool_decide_true in H by lia. by apply Z.leb_le. }
    assert (Hxy : compare_keys specs x.1 y.1 <= 0).
    { destruct (decide (i = p - 1)%nat) as [->|Hne].
      - rewrite Hi in Hy. injection Hy as <-. rewrite compare_keys_refl; [done|by apply leaf_key_ok].
      - apply (sorted_lookup es i (p - 1)); [done|done|done|lia]. }
    split; [apply Z.gtb_lt; lia|]. apply Z.eqb_eq.
    apply (compare_keys_trans specs x.1 y.1 e.1); [by apply leaf_key_ok| |apply He|done|done|done].
    apply leaf_key_ok. by eapply list_elem_of_lookup_2.
  - intros [Hp0 Hc]. apply Z.gtb_lt in Hp0. destruct (lookup_lt_is_Some_2 es (p - 1)) as [y Hy].
    { pose proof (prefix_len_le (fun x => le_key specs e.1 x.1) es). lia. }
    destruct (leaf_read specs ks cap Hgeo pl sib es (Z.of_nat p - 1) y Hr) as [Hk _];
      [lia|by replace (Z.to_nat (Z.of_nat p - 1)) with (p - 1)%nat by lia|].
    rewrite Hk in Hc. exists y. split; [apply list_elem_of_In; by eapply list_elem_of_lookup_2|done].
Qed.
End leaf.

(** The key is present in the tree exactly when the leaf found has it. *)
Lemma located_dup key t leaf es path : key_ok specs key -> located specs key t leaf es path -> forall P nxt,
  tree_in P nxt t -> sorted (entries t) ->
  existsb (same_key key) (entries t) = existsb (same_key key) es.
Proof using Hgeo.
  intros Hk. induction 1 as [id es|id ch c leaf es path Hi Hl IH]; intros P nxt Ht Hs; [done|].
  rewrite <- (IH P _ (child_in specs ks cap _ _ _ _ _ _ Ht Hi) (child_sorted specs id _ _ _ Hs Hi)).
  pose proof Ht as [_ [_ Hch]]. destruct (children_facts specs ks cap _ _ _ Hch) as [Hn Ho].
  pose proof (behind_slot specs key ch Hk Hn Ho Hs) as Hbehind. pose proof (tail_fkey specs key ch Hk Hn Ho Hs) as Htf.
  cbn [entries] in *. rewrite (concat_entries_lookup ch _ c Hi) in *. rewrite !existsb_app.
  apply sorted_app in Hs as (Hle & _ & Hs). apply sorted_app in Hs as (_ & _ & Hs3).
  rewrite !Forall_app in Ho. destruct Ho as (Ho1 & Ho2 & Ho3). rewrite Forall_forall in Ho1, Ho2, Ho3.
  set (A := concat (map entries (take _ ch))) in *. set (B := concat (map entries (drop _ ch))) in *.
  assert (HB : existsb (same_key key) B = false).
  { apply not_true_is_false. rewrite existsb_exists. intros (y & Hy & Hyk). apply list_elem_of_In in Hy.
    unfold same_key in Hyk. apply Z.eqb_eq in Hyk. destruct B as [|z B']; [by apply elem_of_nil in Hy|].
    specialize (Hbehind z eq_refl). unfold le_key in Hbehind. apply Z.leb_gt in Hbehind.
    assert (compare_keys specs z.1 y.1 <= 0) as Hzy.
    { apply elem_of_cons in Hy as [->|Hy]; [rewrite compare_keys_refl; [done|apply Ho3; set_solver]|].
      inversion_clear Hs3 as [|? ? _ Hz]. rewrite Forall_forall in Hz. apply Hz, list_elem_of_fmap. eauto. }
    destruct (compare_keys_trans specs z.1 y.1 key); [apply Ho3; set_solver|by apply Ho3|done|done|lia|lia]. }
  rewrite HB, orb_false_r. destruct (existsb (same_key key) A) eqn:HA; [|done]. symmetry. simpl.
  apply existsb_exists in HA as (x & Hx & Hxk). apply list_elem_of_In in Hx. unfold same_key in Hxk. apply Z.eqb_eq in Hxk.
  assert (Hc : exists y, y ∈ entries c /\ compare_keys specs y.1 key <= 0).
  { destruct (slot_of specs key ch) as [|i] eqn:Hsl; [by apply elem_of_nil in Hx|].
    destruct (fkey_entry c) as (y & _ & Hy & Hyk); [rewrite Forall_forall in Hn; apply Hn; by eapply list_elem_of_lookup_2|].
    exists y. split; [done|]. rewrite Hyk. apply Z.leb_le. fold (le_key specs key (fkey c)).
    rewrite (Htf i c Hi). apply bool_decide_true. lia. }
  destruct Hc as (y & Hy & Hyk). apply existsb_exists. exists y. split; [by apply list_elem_of_In|]. unfold same_key. apply Z.eqb_eq.
  apply (compare_keys_trans specs x.1 y.1 key); [by apply Ho1|by apply Ho2|done|apply Hle; [done|set_solver]|done|done].
Qed.

(** ** The steps of an insertion *)

(** The entry is refused. *)
Definition violates (unique : bool) (key : bytes) (es : list entry) : bool :=
  unique && negb (has_null specs key) && existsb (same_key key) es.

Definition duplicate_key {A} : result A := Err "unique constraint violated: duplicate key".

Section insert.
Context (e : entry).
Hypothesis He : entry_ok specs e.

Lemma insert_into_leaf_ok f P leaf pl sib es : idx_rep [] f P -> params specs ks cap f -> P !! leaf = Some pl ->
  leaf_rep pl sib es -> sorted es ->
  let p := prefix_len (fun x => le_key specs e.1 x.1) es in
  exists f' P', idx_rep [] f' P' /\ idx_next f' = idx_next f /\
    if violates (is_unique_ f) e.1 es then
      insert_into_leaf leaf e.1 e.2 f = Some (duplicate_key, f') /\ P' = P /\ fields f' = fields f
    else if zlen es =? cap then
      insert_into_leaf leaf e.1 e.2 f = Some (Ok (Some (Z.of_nat p)), f') /\ P' = P /\ fields f' = fields f
    else
      insert_into_leaf leaf e.1 e.2 f = Some (Ok None, f') /\
      fields f' = fields (with_count f (wrap 64 (entry_count_ f + 1))) /\
      exists pl', P' = <[leaf := pl']> P /\ leaf_rep pl' sib (ins specs e es).
Proof using Hgeo He.
  intros Hrep (Hc1 & Hc2 & Hc3) Hp Hr Hs p. unfold insert_into_leaf. rewrite !gets_bind, Hc1, Hc2.
  pose proof (lr_fit _ _ _ _ _ _ Hr) as Hfit. set (u := is_unique_ f).
  assert (Hguard : u && (Z.of_nat p >? 0) && negb (has_null specs e.1) &&
      (compare_keys specs (leaf_key_at ks pl (Z.of_nat p - 1)) e.1 =? 0) = violates u e.1 es).
  { unfold violates. rewrite (dup_slot e pl sib es He Hr Hs). fold p.
    destruct u, (Z.of_nat p >? 0), (negb (has_null specs e.1)); done. }
  match goal with |- context [with_handle leaf ?b f] => set (body := b) end.
  destruct (with_handle_rep [] f P leaf pl body (fun res f2 P2 => idx_next f2 = idx_next f /\
    if violates u e.1 es then res = duplicate_key /\ P2 = P /\ fields f2 = fields f
    else if zlen es =? cap then res = Ok (Some (Z.of_nat p)) /\ P2 = P /\ fields f2 = fields f
    else res = Ok None /\ fields f2 = fields (with_count f (wrap 64 (entry_count_ f + 1))) /\
      exists pl', P2 = <[leaf := pl']> P /\ leaf_rep pl' sib (ins specs e es)))
    as (res & f2 & P2 & pool & Hw & Hr2 & Hn2 & Hcase); [done|done|done| |].
  - intros h pool Hr1 Hh1.
    assert (Hrun : body h (set_idx_pool f pool) =
      (if violates u e.1 es then fail "unique constraint violated: duplicate key"
       else if zlen es >=? cap then mret (Some (Z.of_nat p))
       else _ ← store_page h (set_hdr_entry_count (insert_leaf_entry ks pl (Z.of_nat p) e.1 e.2 (zlen es)) (zlen es + 1));
            n ← gets entry_count_; _ ← set_entry_count (wrap 64 (n + 1)); mret None) (set_idx_pool f pool)).
    { unfold body. apply (deref_bind _ _ _ _ _ _ Hh1). intros pg ->. cbv zeta.
      rewrite (lr_count _ _ _ _ _ _ Hr), (lr_cap _ _ _ _ _ _ Hr),
        (find_leaf_insert_slot_spec specs ks cap Hgeo e.1 (proj1 He) pl sib es Hr Hs). fold p u. by rewrite Hguard. }
    rewrite Hrun. destruct (violates u e.1 es); [by eexists _, _, P|].
    destruct (Z.geb_spec (zlen es) cap) as [Hge|Hlt].
    + rewrite (proj2 (Z.eqb_eq _ _)) by lia. by eexists _, _, P.
    + rewrite (proj2 (Z.eqb_neq _ _)) by lia.
      pose proof (insert_leaf_rep specs ks cap Hgeo pl sib es p e Hr Hlt (prefix_len_le _ _) He) as Hins.
      destruct (store_page_rep _ _ _ Hr1 h leaf pl _ Hh1 Hp (lr_len _ _ _ _ _ _ Hins) (lr_bytes _ _ _ _ _ _ Hins))
        as (f2 & Hst & Hr2 & _ & Hf2 & Hn2).
      eexists _, (with_count f2 _), _. split; [rewrite (bind_ok _ _ _ _ _ Hst); reflexivity|].
      split; [apply (fields_rep _ _ _ Hr2); reflexivity|]. split; [exact Hn2|]. split; [done|]. split.
      * replace (entry_count_ f2) with (entry_count_ f) by (unfold fields in Hf2; cbn in Hf2; congruence).
        exact (proj1 (proj2 (fields_with (set_idx_pool f pool) f2 0 _ true Hf2))).
      * eexists. split; [reflexivity|exact Hins].
  - exists (set_idx_pool f2 pool), P2. split; [exact Hr2|]. split; [exact Hn2|]. rewrite Hw.
    destruct (violates u e.1 es); [destruct Hcase as (-> & -> & Hf); by split_and!|].
    destruct (zlen es =? cap); [destruct Hcase as (-> & -> & Hf); by split_and!|].
    destruct Hcase as (-> & Hf & Hpl). by split_and!.
Qed.

Lemma set_dirty_rep f P b : idx_rep [] f P ->
  exists f', set_dirty b f = Some (Ok tt, f') /\ idx_rep [] f' P /\ root_page_id_ f' = root_page_id_ f /\
    is_unique_ f' = is_unique_ f /\ (params specs ks cap f -> params specs ks cap f') /\ idx_next f' = idx_next f /\
    entry_count_ f' = entry_count_ f.
Proof using.
  intros Hrep. assert (Hrep1 : idx_rep [] (with_dirty f b) P) by (apply (fields_rep _ _ _ Hrep); reflexivity).
  destruct (write_meta_rep _ _ _ Hrep1) as (f' & Hw & Hr & H1 & H2 & H3 & H4 & H5 & H6 & _ & H7 & _).
  exists f'. split; [exact Hw|]. split; [exact Hr|]. split; [exact H1|]. split; [exact H3|].
  split; [|split; [exact H7|exact H2]]. unfold params. rewrite H4, H5, H6. done.
Qed.

Lemma first_leaf_rep pl : zlen pl = PAGE_PAYLOAD_SIZE -> Forall is_byte pl ->
  leaf_rep (splice (leaf_entry_at ks 0 + ks) (le_bytes 8 e.2) (splice (leaf_entry_at ks 0) e.1
    (set_leaf_right_sibling (init_hdr pl IDX_PAGE_LEAF IDX_FLAG_IS_ROOT 1 cap) INVALID_PAGE_ID))) INVALID_PAGE_ID [e].
Proof using Hgeo He.
  intros Hl Hb. pose proof (g_cap _ _ _ Hgeo). pose proof (g_fit _ _ _ Hgeo) as Hfit. pose proof (g_pos _ _ _ Hgeo).
  destruct (init_hdr_fields specs ks cap Hgeo pl IDX_PAGE_LEAF IDX_FLAG_IS_ROOT 1) as (F1 & _);
    [done|done|unfold IDX_PAGE_LEAF, in_u; lia|unfold in_u; lia|].
  pose proof (new_leaf_rep specs ks cap Hgeo pl IDX_FLAG_IS_ROOT INVALID_PAGE_ID [e] Hl Hb) as Hnew.
  replace (concat (map enc [e])) with (e.1 ++ le_bytes 8 e.2) in Hnew by (cbn; by rewrite app_nil_r).
  change (zlen [e]) with 1 in Hnew. assert (Hk : zlen e.1 = ks) by apply (key_len specs ks cap Hgeo), He.
  set (l := set_leaf_right_sibling _ _) in *.
  assert (Hll : zlen l = PAGE_PAYLOAD_SIZE).
  { unfold l, set_leaf_right_sibling. rewrite zlen_splice; rewrite ?zlen_le_bytes, ?F1; [done|unfold INDEX_PAGE_HDR_SIZE; lia|].
    unfold leaf_entry_at, entry_size, INDEX_PAGE_HDR_SIZE in *. nia. }
  rewrite <- splice_splice_app, Hk in Hnew.
  - apply Hnew; [unfold in_u, INVALID_PAGE_ID; lia|by apply Forall_singleton|lia].
  - unfold leaf_entry_at, INDEX_PAGE_HDR_SIZE. lia.
  - rewrite zlen_le_bytes, Hk, Hll. unfold leaf_entry_at, entry_size, INDEX_PAGE_HDR_SIZE in *. nia.
Qed.

Lemma insert_first_ok f P : idx_rep [] f P -> params specs ks cap f -> idx_next f + 1 < INVALID_PAGE_ID ->
  exists f' P' leaf, insert_first e.1 e.2 f = Some (Ok tt, f') /\ idx_rep [] f' P' /\ params specs ks cap f' /\
    is_unique_ f' = is_unique_ f /\ root_page_id_ f' = leaf /\ tree_in P' INVALID_PAGE_ID (TLeaf leaf [e]) /\
    idx_next f' = idx_next f + 1 /\ entry_count_ f' = 1.
Proof using Hgeo He.
  intros Hrep Hpar Hn. pose proof Hpar as (Hc1 & Hc2 & Hc3). unfold insert_first. rewrite !gets_bind, Hc2, Hc3.
  destruct (set_dirty_rep f P true Hrep) as (f1 & Hd & Hr1 & _ & Hu1 & Hp1 & Hn1 & _). rewrite (bind_ok _ _ _ _ _ Hd).
  destruct (reserve_rep _ _ _ Hr1) as (f2 & Hrs & Hr2 & Hnone & Hf2 & Hn2 & _); [lia|]. rewrite (bind_ok _ _ _ _ _ Hrs).
  cbv zeta. rewrite Hn1 in Hrs, Hnone, Hn2 |- *.
  pose proof (first_leaf_rep (payload (reset page_init (idx_next f))) (proj1 (fresh_payload _)) (proj2 (fresh_payload _))) as Hl.
  set (lp := splice _ _ _) in *. destruct (next_range _ _ _ Hrep) as [_ H1].
  destruct (write_new_rep _ _ _ Hr2 (idx_next f) lp) as (f3 & Hwn & Hr3 & Hf3 & Hn3 & _);
    [lia|done|apply (lr_len _ _ _ _ _ _ Hl)|apply (lr_bytes _ _ _ _ _ _ Hl)|].
  rewrite (bind_ok _ _ _ _ _ Hwn).
  exists (with_count (with_root f3 (idx_next f)) 1), (<[idx_next f := lp]> P), (idx_next f).
  assert (Hf : fields f3 = fields f1) by congruence. unfold fields in Hf.
  split; [reflexivity|]. split; [apply (fields_rep _ _ _ Hr3); reflexivity|].
  split; [destruct (Hp1 Hpar) as (? & ? & ?); unfold params; cbn; split_and!; congruence|].
  split; [cbn; congruence|]. split; [done|]. split; [|split; [change (idx_next f3 = idx_next f + 1); lia|done]].
  split; [done|]. exists lp. by rewrite lookup_insert_eq.
Qed.


Lemma ins_sorted es : Forall (entry_ok specs) es -> sorted es -> sorted (ins specs e es).
Proof using He.
  intros Hok Hs. set (f := fun x : entry => le_key specs e.1 x.1).
  assert (Hd : downward f es).
  { apply (downward_map fst (le_key specs e.1)), (downward_key specs _ e.1); [by left|apply He|by apply entries_keys_ok|exact Hs]. }
  unfold ins, insert_at. fold f. set (p := prefix_len f es).
  assert (Htake : forall x, x ∈ take p es -> f x = true).
  { intros x Hx. apply list_elem_of_lookup in Hx as [i Hi]. apply lookup_take_Some in Hi as [Hi Hlt].
    rewrite (prefix_len_spec f es i x Hd Hi). by apply bool_decide_true. }
  assert (Hdrop : forall x, x ∈ drop p es -> f x = false).
  { intros x Hx. apply list_elem_of_lookup in Hx as [i Hi]. rewrite lookup_drop in Hi.
    rewrite (prefix_len_spec f es _ x Hd Hi). apply bool_decide_false. unfold p. lia. }
  rewrite <- (take_drop p es) in Hs. apply sorted_app in Hs as (Hle & Ht & Hdr).
  assert (Hgt : forall y, y ∈ drop p es -> key_le specs e.1 y.1).
  { intros y Hy. apply Hdrop in Hy as Hf. unfold f, le_key in Hf. apply Z.leb_gt in Hf. unfold key_le.
    rewrite (compare_keys_opp specs y.1 e.1); [lia| |apply He]. rewrite Forall_forall in Hok. apply Hok.
    rewrite <- (take_drop p es), elem_of_app. by right. }
  apply sorted_app. split; [|split; [done|]].
  - intros x y Hx Hy. apply elem_of_cons in Hy as [->|Hy]; [|by apply Hle]. apply Htake in Hx. by apply Z.leb_le.
  - constructor; [done|]. apply Forall_forall. intros k Hk. apply list_elem_of_fmap in Hk as (y & -> & Hy). by apply Hgt.
Qed.

End insert.

(** ** The index *)

(** The tree under page [root], of at most [n] levels, or no tree. *)
Definition tree_rep (n : nat) (P : gmap Z bytes) (root : Z) (es : list entry) : Prop :=
  (root = 0 /\ es = []) \/
  exists t, root = tid t /\ tree_in P INVALID_PAGE_ID t /\ NoDup (ids t) /\ entries t = es /\ sorted es /\ (depth t <= n)%nat.

(** The index holds the entries [es]; [n] bounds the levels of its tree and, squared, the
    pages of its file. *)
Definition index_rep (n : nat) (f : IndexFile) (es : list entry) : Prop :=
  params specs ks cap f /\ idx_next f <= 1 + Z.of_nat n * Z.of_nat n /\
  exists P, idx_rep [] f P /\ tree_rep n P (root_page_id_ f) es.

(** A tree has no more nodes than the file has pages. *)
Lemma ids_pages f P t nxt : idx_rep [] f P -> tree_in P nxt t -> NoDup (ids t) -> Z.of_nat (length (ids t)) < idx_next f.
Proof using.
  intros Hrep Ht Hnd. destruct (next_range _ _ _ Hrep) as [_ H1].
  assert (Hsub : ids t ⊆+ seqZ 1 (idx_next f - 1)).
  { apply NoDup_submseteq; [done|]. intros id Hid. destruct (tree_ids_in specs ks cap _ _ _ Ht id Hid) as [pl Hp].
    destruct (rep_page _ _ _ Hrep _ _ Hp) as (_ & _ & Hr). apply elem_of_seqZ. unfold idx_next. lia. }
  apply submseteq_length in Hsub. rewrite length_seqZ in Hsub. lia.
Qed.

Lemma depth_pages f P t nxt : idx_rep [] f P -> tree_in P nxt t -> NoDup (ids t) -> Z.of_nat (depth t) < idx_next f.
Proof using. intros Hrep Ht Hnd. pose proof (ids_pages f P t nxt Hrep Ht Hnd). pose proof (depth_le_ids t). lia. Qed.

Lemma tree_root f P t nxt : idx_rep [] f P -> tree_in P nxt t -> tid t <> 0.
Proof using.
  intros Hrep Ht. destruct (tree_ids_in specs ks cap _ _ _ Ht (tid t) (tid_in_ids t)) as [pl Hp].
  destruct (rep_page _ _ _ Hrep _ _ Hp) as (_ & _ & Hr). lia.
Qed.

Lemma replaced_tree e P P' t t' n : entry_ok specs e -> tree_in P INVALID_PAGE_ID t -> sorted (entries t) -> (depth t <= n)%nat ->
  replaced e P P' INVALID_PAGE_ID t [t'] -> tree_rep n P' (tid t) (ins specs e (entries t)).
Proof using.
  intros He Ht Hs Hn Hr. destruct (rp_chain _ _ _ _ _ _ _ _ _ Hr) as [Ht' _]. cbn [after] in Ht'.
  destruct (rp_head _ _ _ _ _ _ _ _ _ Hr) as (t1 & rest & Heq & Hid & _). injection Heq as <- <-.
  pose proof (rp_entries _ _ _ _ _ _ _ _ _ Hr) as Hen. pose proof (rp_nodup _ _ _ _ _ _ _ _ _ Hr) as Hnd.
  cbn [map concat] in Hen, Hnd. rewrite app_nil_r in Hen, Hnd.
  pose proof (rp_depth _ _ _ _ _ _ _ _ _ Hr) as Hd. inversion_clear Hd as [|? ? Hd0 _].
  right. exists t'. split; [done|]. split; [done|]. split; [done|]. split; [done|]. split; [|exact (Nat.le_trans _ _ _ Hd0 Hn)].
  apply ins_sorted; [done| |done]. by eapply tree_entries_ok.
Qed.

Lemma grown_tree e P' nid t l r n : entry_ok specs e -> sorted (entries t) -> Forall (entry_ok specs) (entries t) ->
  concat (map entries [l; r]) = ins specs e (entries t) ->
  tree_in P' INVALID_PAGE_ID (TNode nid [l; r]) -> NoDup (ids (TNode nid [l; r])) ->
  Forall (fun x => (depth x <= n)%nat) [l; r] ->
  tree_rep (S n) P' nid (ins specs e (entries t)).
Proof using.
  intros He Hs Hok Hen Ht Hnd Hd. right. exists (TNode nid [l; r]). split; [done|]. split; [done|]. split; [done|].
  split; [exact Hen|]. split; [by apply ins_sorted|by apply node_depth].
Qed.

Section run.
Context (e : entry) (f : IndexFile) (P : gmap Z bytes) (t : tree).
Hypothesis He : entry_ok specs e.
Hypothesis Hrep : idx_rep [] f P.
Hypothesis Hpar : params specs ks cap f.
Hypothesis Hroot : root_page_id_ f = tid t.
Hypothesis Ht : tree_in P INVALID_PAGE_ID t.
Hypothesis Hnd : NoDup (ids t).
Hypothesis Hs : sorted (entries t).
Context (n : nat).
Hypothesis Hdepth : (depth t <= n)%nat.
Hypothesis Hpages : idx_next f <= 1 + Z.of_nat n * Z.of_nat n.
Hypothesis Hn : Z.of_nat n < 2 ^ 31.

Lemma find_leaf_root : exists leaf es path pool, located specs e.1 t leaf es path /\
  find_leaf_ e.1 f = Some (Ok (leaf, path), set_idx_pool f pool) /\ idx_rep [] (set_idx_pool f pool) P.
Proof using All.
  pose proof (depth_pages f P t _ Hrep Ht Hnd) as Hd.
  destruct (find_leaf_ok specs ks cap Hgeo e.1 (proj1 He) t INVALID_PAGE_ID [] (Z.to_nat (page_count (idx_disk f))) f P
    Hrep Hpar Ht Hs) as (leaf & es & path & pool & Hl & Hf & Hr).
  - unfold idx_next, page_count in *. lia.
  - exists leaf, es, path, pool. rewrite app_nil_r in Hf. split; [done|]. split; [|done].
    unfold find_leaf_, page_fuel. rewrite !gets_bind, Hroot. exact Hf.
Qed.

(** The leaf is full: it is split, and the path and perhaps the root with it. *)
Lemma insert_split leaf es path pl sib : located specs e.1 t leaf es path -> P !! leaf = Some pl ->
  leaf_rep pl sib es -> zlen es = cap ->
  exists f', (split ← split_leaf_ leaf (Z.of_nat (prefix_len (fun x => le_key specs e.1 x.1) es)) e.1 e.2;
              let '(sep_key, right_id) := split in propagate path sep_key right_id) f = Some (Ok tt, f') /\
    index_rep (S n) f' (ins specs e (entries t)) /\ is_unique_ f' = is_unique_ f /\ entry_count_ f' = entry_count_ f.
Proof using All.
  intros Hloc Hp Hr Hfull. destruct (next_range _ _ _ Hrep) as [_ Hn0]. assert (Hsq : idx_next f + Z.of_nat n + 3 < INVALID_PAGE_ID) by (unfold INVALID_PAGE_ID; nia). destruct (mid_range specs ks cap Hgeo) as (Hm1 & Hm2 & Hm3).
  assert (Hpl : zlen path < Z.of_nat n) by (pose proof (located_path specs e t leaf es path Hloc); unfold zlen; lia).
  destruct (split_leaf_ok specs ks cap Hgeo f P leaf pl sib es (prefix_len (fun x => le_key specs e.1 x.1) es) e
    Hrep Hpar Hp Hr Hfull (prefix_len_le _ _) He) as (f1 & pl1 & pl2 & x & Hsp & Hr1 & Hnone & Hl & Hrr & Hx & Hf1 & Hn1); [lia|].
  rewrite (bind_ok _ _ _ _ _ Hsp). cbv beta iota. fold (ins specs e es) in Hl, Hrr, Hx.
  set (mid := Z.to_nat ((cap + 1) / 2)) in *. set (L := TLeaf leaf (take mid (ins specs e es))).
  set (R := TLeaf (idx_next f) (drop mid (ins specs e es))).
  destruct (propagate_ok specs ks cap Hgeo e (proj1 He) t leaf es path Hloc INVALID_PAGE_ID P _ f1 L R [] Ht Hs Hnd Hr1)
    as (f2 & P2 & Hr2 & Hf2 & Hn2 & Hg2 & Hcase).
  - by apply (params_fields specs ks cap f).
  - apply (grows_trans _ (<[leaf := pl1]> P)); apply grows_insert.
  - intros n' Hn'. apply (leaf_two e P leaf pl sib es Hp Hr); [done|done|done|unfold zlen in Hfull; lia|done].
  - lia.
  - assert (Hsep : fkey R = x.1 /\ tid R = idx_next f) by (split; [unfold fkey; cbn; by destruct (drop mid _); simplify_eq/=|done]).
    destruct Hsep as [HR1 HR2]. rewrite HR1, HR2, app_nil_r in Hcase.
    assert (Hu : fields f2 = fields f) by congruence.
    assert (Hpar2 : params specs ks cap f2) by by apply (params_fields specs ks cap f).
    destruct Hcase as [(t' & Hrun & Hrp)|(t' & r' & Hrun & Hrp)].
    + exists f2. split; [exact Hrun|]. split; [|by unfold fields in Hu; split; congruence]. split; [done|]. split; [nia|].
      exists P2. split; [done|]. replace (root_page_id_ f2) with (tid t) by (unfold fields in Hu; congruence).
      apply (replaced_tree e P P2 t t'); [done|done|done|lia|done].
    + pose proof (rp_head _ _ _ _ _ _ _ _ _ Hrp) as (t1 & rest & Heq & Hid & _). injection Heq as <- <-.
      assert (Hrt : root_page_id_ f2 = tid t') by (rewrite Hid, <- Hroot; unfold fields in Hu; congruence).
      destruct (grow_root_ok specs ks cap Hgeo f2 P2 t' r' Hr2 Hpar2 Hrt (rp_chain _ _ _ _ _ _ _ _ _ Hrp)
        (rp_nodup _ _ _ _ _ _ _ _ _ Hrp)) as (f3 & P3 & nid & Hgr & Hr3 & Hf3 & Ht3 & Hnd3 & Hn3 & _); [nia|].
      exists f3. split; [rewrite Hrun; exact Hgr|].
      assert (Hroot3 : root_page_id_ f3 = nid) by (unfold fields in Hf3; cbn in Hf3; congruence).
      unfold fields in Hf3, Hu. cbn in Hf3. split; [|split; congruence]. split; [|split; [nia|exists P3; split; [done|]]].
      * destruct Hpar2 as (? & ? & ?). unfold params. split_and!; congruence.
      * rewrite Hroot3. apply (grown_tree e P3 nid t t' r'); [done|done|by eapply tree_entries_ok|apply (rp_entries _ _ _ _ _ _ _ _ _ Hrp)|done|done|].
        apply (Forall_impl _ _ _ (rp_depth _ _ _ _ _ _ _ _ _ Hrp)). intros x' Hx'. lia.
Qed.
End run.

(** Insertion into a non-empty index, after the dirty flag was set. *)
Lemma insert_rest_ok n e f P t : entry_ok specs e -> idx_rep [] f P -> params specs ks cap f -> root_page_id_ f = tid t ->
  tree_in P INVALID_PAGE_ID t -> NoDup (ids t) -> sorted (entries t) -> (depth t <= n)%nat ->
  idx_next f <= 1 + Z.of_nat n * Z.of_nat n -> Z.of_nat n < 2 ^ 31 ->
  exists f', is_unique_ f' = is_unique_ f /\
    (found ← find_leaf_ e.1;
     let '(leaf_id, path) := found in
     need_split ← insert_into_leaf leaf_id e.1 e.2;
     match need_split with
     | None => mret tt
     | Some insert_slot =>
         split ← split_leaf_ leaf_id insert_slot e.1 e.2;
         let '(sep_key, right_id) := split in propagate path sep_key right_id
     end) f =
      Some (if violates (is_unique_ f) e.1 (entries t) then duplicate_key else Ok tt, f') /\
    index_rep (S n) f' (if violates (is_unique_ f) e.1 (entries t) then entries t else ins specs e (entries t)).
Proof using Hgeo.
  intros He Hrep Hpar Hroot Ht Hnd Hs Hd Hpg Hn.
  destruct (find_leaf_root e f P t He Hrep Hpar Hroot Ht Hnd Hs n Hd Hpg Hn) as (leaf & es & path & pool & Hloc & Hfl & Hr1).
  destruct (located_leaf specs ks cap e t leaf es path Hloc P _ Ht Hs) as (sib & pl & Htl & Hp & Hr & Hsl & _).
  rewrite (bind_ok _ _ _ _ _ Hfl). cbv beta iota.
  destruct (insert_into_leaf_ok e He (set_idx_pool f pool) P leaf pl sib es Hr1 Hpar Hp Hr Hsl) as (f2 & P2 & Hr2 & Hn2 & Hcase).
  assert (Hv : violates (is_unique_ f) e.1 (entries t) = violates (is_unique_ f) e.1 es).
  { unfold violates. by rewrite (located_dup e.1 t leaf es path (proj1 He) Hloc P _ Ht Hs). }
  rewrite Hv. change (is_unique_ (set_idx_pool f pool)) with (is_unique_ f) in Hcase.
  change (idx_next (set_idx_pool f pool)) with (idx_next f) in Hn2.
  assert (Hkeep : fields f2 = fields f -> params specs ks cap f2 /\ is_unique_ f2 = is_unique_ f /\ root_page_id_ f2 = tid t).
  { intros Hf. split; [by apply (params_fields specs ks cap f)|]. unfold fields in Hf. split; congruence. }
  destruct (violates (is_unique_ f) e.1 es); [|destruct (Z.eqb_spec (zlen es) cap) as [Hfull|Hnot]].
  - destruct Hcase as (Hrun & -> & Hf). destruct (Hkeep Hf) as (Hp2 & Hu2 & Hrt2). exists f2. split; [done|].
    rewrite (bind_err _ _ _ _ _ Hrun). split; [done|]. split; [done|]. split; [lia|].
    exists P. split; [done|]. rewrite Hrt2. right. exists t. split_and!; try done. lia.
  - destruct Hcase as (Hrun & -> & Hf). destruct (Hkeep Hf) as (Hp2 & Hu2 & Hrt2).
    destruct (insert_split e f2 P t He Hr2 Hp2 Hrt2 Ht Hnd Hs n Hd ltac:(by rewrite Hn2) Hn leaf es path pl sib Hloc Hp Hr Hfull)
      as (f3 & Hsp & Hir & Hu3 & _).
    exists f3. split; [congruence|]. rewrite (bind_ok _ _ _ _ _ Hrun). cbv beta iota. split; [exact Hsp|exact Hir].
  - destruct Hcase as (Hrun & Hf & pl' & -> & Hr'). exists f2. unfold fields in Hf. cbn in Hf.
    split; [congruence|]. rewrite (bind_ok _ _ _ _ _ Hrun). split; [done|].
    destruct (located_done specs ks cap Hgeo e (proj1 He) t leaf es path Hloc INVALID_PAGE_ID P (<[leaf := pl']> P) Ht Hs Hnd)
      as [t' Hrp]; [intros n' Hn'; eexists; by apply (leaf_one e P leaf pl sib es Hp Hr)|].
    split; [destruct Hpar as (? & ? & ?); unfold params; split_and!; congruence|]. split; [lia|]. eexists. split; [done|].
    replace (root_page_id_ f2) with (tid t) by congruence. apply (replaced_tree e P _ t t'); [done|done|done|lia|done].
Qed.

Lemma insert_encoded_ok n e f es : entry_ok specs e -> index_rep n f es -> Z.of_nat n < 2 ^ 31 ->
  exists f', is_unique_ f' = is_unique_ f /\
    insert_encoded e.1 e.2 f = Some (if violates (is_unique_ f) e.1 es then duplicate_key else Ok tt, f') /\
    index_rep (S n) f' (if violates (is_unique_ f) e.1 es then es else ins specs e es).
Proof using Hgeo.
  intros He (Hpar & Hpg & P & Hrep & [[Hroot ->]|(t & Hroot & Ht & Hnd & <- & Hs & Hdp)]) Hn; unfold insert_encoded; rewrite gets_bind.
  - rewrite Hroot. destruct (next_range _ _ _ Hrep) as [_ H1].
    destruct (insert_first_ok e He f P Hrep Hpar) as (f' & P' & leaf & Hrun & Hr & Hp' & Hu & Hrt & Htl & Hn' & _); [unfold INVALID_PAGE_ID; nia|].
    replace (violates (is_unique_ f) e.1 []) with false by (unfold violates; cbn; by rewrite andb_false_r).
    exists f'. split; [done|]. split; [exact Hrun|]. split; [done|]. split; [nia|]. exists P'. split; [done|].
    right. exists (TLeaf leaf [e]). split; [done|]. split; [done|]. split; [apply NoDup_singleton|]. split; [done|]. split; [repeat constructor|cbn; lia].
  - rewrite (proj2 (Z.eqb_neq _ _)) by (rewrite Hroot; by apply (tree_root f P t INVALID_PAGE_ID)). rewrite gets_bind.
    assert (Hd : exists f1, (if negb (dirty_ f) then set_dirty true else mret tt) f = Some (Ok tt, f1) /\ idx_rep [] f1 P /\
      root_page_id_ f1 = tid t /\ is_unique_ f1 = is_unique_ f /\ params specs ks cap f1 /\ idx_next f1 = idx_next f).
    { destruct (dirty_ f); [by exists f|].
      destruct (set_dirty_rep f P true Hrep) as (f1 & Hd & Hr1 & Hrt & Hu & Hp1 & Hn1 & _). exists f1. split_and!; try done; [congruence|auto]. }
    destruct Hd as (f1 & Hd & Hr1 & Hrt1 & Hu1 & Hp1 & Hn1). rewrite (bind_ok _ _ _ _ _ Hd).
    destruct (insert_rest_ok n e f1 P t He Hr1 Hp1 Hrt1 Ht Hnd Hs Hdp) as (f2 & Hu2 & Hrun & Hir); [lia|done|].
    rewrite Hu1 in Hu2, Hrun, Hir. exists f2. split; [done|]. split; [exact Hrun|exact Hir].
Qed.

End index.
