(* ===== verification/BTreeScan.v ===== *)
(** * Range scans

    A scan gives the callback the row ids of exactly the entries in the range, in key order,
    until the callback stops it, when at most one entry has the key of the lower bound. *)

From stdpp Require Import sorting.
From S2P Require Import Prelude Types Page LruK BufferPool IndexFile BTreeNode BTreeLayout BTree BTreeInsert BTreeIndex.

Lemma filter_none {A} (f : A -> bool) (l : list A) : (forall x, x ∈ l -> f x = false) -> filter (fun x => f x) l = [].
Proof.
  induction l as [|a l IH]; intros H; [done|]. rewrite filter_cons_False; [apply IH; intros; apply H; set_solver|].
  apply Is_true_false, H. set_solver.
Qed.

Lemma filter_all {B} (g : B -> bool) (l : list B) : (forall x, x ∈ l -> g x = true) -> filter (fun x => g x) l = l.
Proof.
  induction l as [|a l IH]; intros H; [done|]. rewrite filter_cons_True by (rewrite H; [done|set_solver]).
  f_equal. apply IH. intros; apply H; set_solver.
Qed.

(** ** The leaves of a tree in order *)

Fixpoint leaves (t : tree) : list (Z * list entry) :=
  match t with TLeaf id es => [(id, es)] | TNode _ ch => concat (map leaves ch) end.

Definition leaf_entries (ls : list (Z * list entry)) : list entry := concat (map snd ls).

Lemma leaf_entries_app a b : leaf_entries (a ++ b) = leaf_entries a ++ leaf_entries b.
Proof. unfold leaf_entries. by rewrite map_app, concat_app. Qed.

Lemma leaves_entries t : leaf_entries (leaves t) = entries t.
Proof.
  induction t as [id es|id ch IH] using tree_ind'; cbn [leaves entries]; [apply app_nil_r|].
  induction IH as [|c ch Hc _ IHch]; [done|]. cbn [map concat]. by rewrite leaf_entries_app, Hc, IHch.
Qed.

Lemma leaves_ids t : (length (leaves t) <= length (ids t))%nat.
Proof.
  induction t as [id es|id ch IH] using tree_ind'; cbn; [done|]. apply le_S.
  induction IH as [|c ch Hc _ IHch]; cbn; [done|]. rewrite !length_app. lia.
Qed.

Definition next_leaf (nxt : Z) (ls : list (Z * list entry)) : Z := match ls with [] => nxt | l :: _ => l.1 end.

Section scans.
Context (specs : list IndexColSpec) (ks cap : Z).
Hypothesis Hgeo : geometry specs ks cap.
Abbreviation sorted := (sorted_entries specs).
Abbreviation leaf_rep := (leaf_rep specs ks cap).
Abbreviation tree_in := (tree_in specs ks cap).

(** Each leaf is on its page and linked to the next one. *)
Fixpoint linked (P : gmap Z bytes) (nxt : Z) (ls : list (Z * list entry)) : Prop :=
  match ls with
  | [] => True
  | (id, es) :: ls' => (exists pl, P !! id = Some pl /\ leaf_rep pl (next_leaf nxt ls') es) /\ linked P nxt ls'
  end.

Lemma linked_app P nxt a b : linked P nxt (a ++ b) <-> linked P (next_leaf nxt b) a /\ linked P nxt b.
Proof using.
  induction a as [|[id es] a IH]; cbn; [tauto|]. rewrite IH.
  replace (next_leaf nxt (a ++ b)) with (next_leaf (next_leaf nxt b) a) by by destruct a. tauto.
Qed.

Lemma leaves_first P t nxt : tree_in P nxt t -> exists es rest, leaves t = (first_leaf t, es) :: rest.
Proof using.
  revert nxt. induction t as [id es|id ch IH] using tree_ind'; intros nxt Ht; cbn; [by eexists _, []|].
  destruct Ht as [Hne [_ Hc]]. destruct ch as [|c ch]; [done|]. inversion_clear IH as [|? ? IHc _].
  destruct Hc as [Hc _]. destruct (IHc _ Hc) as (es & rest & H). cbn. rewrite H. by eexists _, _.
Qed.

Lemma tree_linked P t nxt : tree_in P nxt t -> linked P nxt (leaves t).
Proof using.
  revert nxt. induction t as [id es|id ch IH] using tree_ind'; intros nxt Ht.
  - destruct Ht as [_ Hp]. by split.
  - destruct Ht as [_ [_ Hc]]. cbn. revert nxt Hc. induction IH as [|c ch Hc0 _ IHch]; intros nxt; cbn; [done|].
    intros [H1 H2]. apply linked_app. split; [|by apply IHch].
    replace (next_leaf nxt (concat (map leaves ch))) with (after nxt ch); [by apply Hc0|].
    destruct ch as [|c' ch']; [done|]. destruct H2 as [H2 _]. destruct (leaves_first _ _ _ H2) as (es & rest & H).
    cbn. by rewrite H.
Qed.

(** ** The leaf a scan starts in *)

Definition start_slot (lo : option bytes) (ch : list tree) : nat :=
  match lo with Some l => slot_of specs l ch | None => O end.

(** The leaf, its entries, and the leaves to its right. *)
Inductive reached (lo : option bytes) : tree -> Z -> list entry -> list (Z * list entry) -> Prop :=
| reach_leaf id es : reached lo (TLeaf id es) id es []
| reach_node id ch c leaf es B : ch !! start_slot lo ch = Some c -> reached lo c leaf es B ->
    reached lo (TNode id ch) leaf es (B ++ concat (map leaves (drop (S (start_slot lo ch)) ch))).

Lemma reached_located l t leaf es B : reached (Some l) t leaf es B -> exists path, located specs l t leaf es path.
Proof using.
  induction 1 as [id es|id ch c leaf es B Hi _ [path IH]]; [eexists; constructor|]. eexists. by econstructor.
Qed.

Lemma flat_leaves l : leaf_entries (concat (map leaves l)) = concat (map entries l).
Proof using. induction l as [|x l IH]; [done|]. cbn [map concat]. by rewrite leaf_entries_app, leaves_entries, IH. Qed.

(** Behind the leaf are the other leaves to the right; before it only keys up to the bound. *)
Lemma reached_leaves lo t leaf es B : (forall l, lo = Some l -> key_ok specs l) -> reached lo t leaf es B -> forall P nxt,
  tree_in P nxt t -> sorted (entries t) ->
  exists A, leaves t = A ++ (leaf, es) :: B /\
    match lo with
    | None => A = []
    | Some l => Forall (fun x => le_key specs l x.1 = true) (leaf_entries A) /\
                (forall x, head (leaf_entries B) = Some x -> le_key specs l x.1 = false)
    end.
Proof using Hgeo.
  intros Hk. induction 1 as [id es|id ch c leaf es B Hi Hl IH]; intros P nxt Ht Hs.
  { exists []. split; [done|]. by destruct lo. }
  destruct (IH P _ (child_in specs ks cap _ _ _ _ _ _ Ht Hi) (child_sorted specs id _ _ _ Hs Hi)) as (A & Hlv & Hlo).
  pose proof Ht as [_ [_ Hch]]. destruct (children_facts specs ks cap _ _ _ Hch) as [Hn Ho].
  exists (concat (map leaves (take (start_slot lo ch) ch)) ++ A). split.
  - cbn [leaves]. rewrite <- (take_drop_middle ch _ c Hi) at 1. rewrite map_app, concat_app. cbn [map concat]. rewrite Hlv.
    by rewrite <- !app_assoc.
  - destruct lo as [l|]; cbn [start_slot] in *; [|by rewrite Hlo]. specialize (Hk l eq_refl).
    pose proof (before_slot specs l ch Hk Hn Ho Hs) as Hbefore. pose proof (behind_slot specs l ch Hk Hn Ho Hs) as Hbehind.
    destruct Hlo as [HA HB]. split; [by rewrite leaf_entries_app, flat_leaves, Forall_app|].
    intros x. rewrite leaf_entries_app, flat_leaves. destruct (leaf_entries B) as [|y r]; cbn; [apply Hbehind|].
    intros [= <-]. by apply HB.
Qed.

(** ** What a scan does with a list of entries *)

Section callback.
Context {A : Type} (cb : A -> Z -> bool * A).

(** The callback on the row ids, until it returns false. *)
Fixpoint feed (acc : A) (rows : list Z) : A :=
  match rows with
  | [] => acc
  | r :: rows' => let '(go_on, acc) := cb acc r in if go_on then feed acc rows' else acc
  end.

Context (hi : option bytes) (hi_incl : bool).

Definition below_hi (x : entry) : bool :=
  match hi with
  | None => true
  | Some hi => let c := compare_keys specs x.1 hi in (c <? 0) || (hi_incl && (c =? 0))
  end.

(** The scan of the entries [es]: whether it ends, and the accumulator. *)
Fixpoint scan_list (acc : A) (es : list entry) : bool * A :=
  match es with
  | [] => (false, acc)
  | x :: es' =>
      if below_hi x then
        let '(go_on, acc) := cb acc x.2 in if go_on then scan_list acc es' else (true, acc)
      else (true, acc)
  end.

Lemma scan_list_app acc a b : scan_list acc (a ++ b) =
  let '(stop, acc) := scan_list acc a in if stop then (true, acc) else scan_list acc b.
Proof using.
  revert acc. induction a as [|x a IH]; intros acc; cbn; [done|].
  destruct (below_hi x); [|done]. destruct (cb acc x.2) as [[|] acc']; [apply IH|done].
Qed.

Lemma past_hi (x : entry) : match hi with
    | Some hi => let c := compare_keys specs x.1 hi in (c >? 0) || (negb hi_incl && (c =? 0))
    | None => false
    end = negb (below_hi x).
Proof using.
  unfold below_hi. destruct hi as [h|]; [|done]. cbv zeta.
  destruct (Z.gtb_spec (compare_keys specs x.1 h) 0), (Z.ltb_spec (compare_keys specs x.1 h) 0),
    (Z.eqb_spec (compare_keys specs x.1 h) 0); try lia; by destruct hi_incl.
Qed.

(** On sorted entries the scan meets exactly those below the upper bound. *)
Lemma scan_list_sorted es acc : Forall (entry_ok specs) es -> (forall h, hi = Some h -> key_ok specs h) -> sorted es ->
  (scan_list acc es).2 = feed acc (map snd (filter (fun x => below_hi x) es)).
Proof using.
  intros Hok Hhi. revert acc. induction es as [|x es IH]; intros acc Hs; [done|].
  apply Forall_cons in Hok as [Hx Hok]. inversion_clear Hs as [|? ? Hs' Hle]. cbn [scan_list].
  destruct (below_hi x) eqn:Hb.
  - rewrite filter_cons_True by (by rewrite Hb). cbn [map feed]. destruct (cb acc x.2) as [[|] acc']; [by apply IH|done].
  - rewrite filter_cons_False by (by apply Is_true_false). rewrite filter_none; [done|]. intros y Hy.
    rewrite Forall_forall in Hle. rewrite Forall_forall in Hok. specialize (Hle y.1 ltac:(apply list_elem_of_fmap; eauto)). specialize (Hok y Hy).
    unfold below_hi in *. destruct hi as [h|]; [|done]. specialize (Hhi h eq_refl). cbv zeta in *.
    destruct (Z.ltb_spec (compare_keys specs x.1 h) 0) as [|Hge]; [done|].
    assert (Hyx : compare_keys specs y.1 h <= 0 -> compare_keys specs x.1 h <= 0 /\
      (compare_keys specs x.1 h = 0 -> compare_keys specs y.1 h = 0)).
    { intros Hy0. destruct (compare_keys_trans specs x.1 y.1 h) as [? Heq]; [apply Hx|apply Hok|done|done|done|].
      split; [done|]. intros H0. by apply Heq. }
    destruct (Z.ltb_spec (compare_keys specs y.1 h) 0), (Z.eqb_spec (compare_keys specs y.1 h) 0),
      (Z.eqb_spec (compare_keys specs x.1 h) 0); try done; try lia; by destruct hi_incl.
Qed.

(** ** The loop over the slots of a leaf *)

Section slots.
Context (pl : bytes) (sib : Z) (es : list entry) (lo : option bytes) (lo_incl : bool) (start : Z).
Hypothesis Hr : leaf_rep pl sib es.

Lemma scan_slots_step n i x acc : es !! Z.to_nat i = Some x -> 0 <= i ->
  match lo with Some l => negb lo_incl && (i =? start) && (compare_keys specs x.1 l =? 0) | None => false end = false ->
  scan_slots cb specs ks pl lo lo_incl hi hi_incl start (S n) i acc =
  if below_hi x then
    let '(go_on, acc) := cb acc x.2 in
    if go_on then scan_slots cb specs ks pl lo lo_incl hi hi_incl start n (i + 1) acc else (true, acc)
  else (true, acc).
Proof using Hgeo Hr.
  intros Hx Hi Hsk. destruct (leaf_read specs ks cap Hgeo pl sib es i x Hr Hi Hx) as [Hk Hrow].
  cbn [scan_slots]. rewrite Hk, Hrow, Hsk, past_hi. by destruct (below_hi x).
Qed.

Lemma scan_slots_tail n i acc : 0 <= i -> n = (length es - Z.to_nat i)%nat -> lo = None \/ start < i ->
  scan_slots cb specs ks pl lo lo_incl hi hi_incl start n i acc = scan_list acc (drop (Z.to_nat i) es).
Proof using Hgeo Hr.
  revert i acc. induction n as [|n IH]; intros i acc Hi Hn Hlo.
  - rewrite drop_ge by lia. done.
  - destruct (lookup_lt_is_Some_2 es (Z.to_nat i)) as [x Hx]; [lia|].
    rewrite (scan_slots_step n i x acc Hx Hi).
    + rewrite (drop_S _ _ _ Hx). cbn [scan_list]. destruct (below_hi x); [|done].
      destruct (cb acc x.2) as [[|] acc']; [|done]. rewrite IH by (lia || (destruct Hlo; [by left|right; lia])).
      do 2 f_equal. lia.
    + destruct lo as [l|]; [|done]. rewrite (proj2 (Z.eqb_neq i start)) by (destruct Hlo; [done|lia]). by rewrite andb_false_r.
Qed.

(** From the first slot: an exclusive lower bound skips the entry there. *)
Definition from_start : list entry :=
  match lo, drop (Z.to_nat start) es with
  | Some l, x :: rest => if negb lo_incl && (compare_keys specs x.1 l =? 0) then rest else x :: rest
  | _, rest => rest
  end.

Lemma scan_slots_start acc : 0 <= start <= zlen es ->
  scan_slots cb specs ks pl lo lo_incl hi hi_incl start (Z.to_nat (zlen es - start)) start acc = scan_list acc from_start.
Proof using Hgeo Hr.
  intros Hst. unfold from_start, zlen in *. destruct (drop (Z.to_nat start) es) as [|x rest] eqn:Hd.
  - apply (f_equal length) in Hd. rewrite length_drop in Hd. cbn in Hd.
    replace (Z.to_nat (Z.of_nat (length es) - start)) with O by lia. by destruct lo.
  - assert (Hx : es !! Z.to_nat start = Some x) by (pose proof (lookup_drop es (Z.to_nat start) 0) as H; rewrite Hd, Nat.add_0_r in H; done).
    assert (Hrest : rest = drop (Z.to_nat (start + 1)) es).
    { rewrite (drop_S _ _ _ Hx) in Hd. injection Hd as <-. f_equal. lia. }
    pose proof (lookup_lt_Some _ _ _ Hx) as Hlt.
    replace (Z.to_nat (Z.of_nat (length es) - start)) with (S (length es - Z.to_nat (start + 1))) by lia.
    pose proof (fun acc => scan_slots_tail (length es - Z.to_nat (start + 1)) (start + 1) acc ltac:(lia) eq_refl
      (or_intror (Z.lt_succ_diag_r start))) as Htail. rewrite <- Hrest in Htail.
    set (skip := match lo with Some l => negb lo_incl && (start =? start) && (compare_keys specs x.1 l =? 0) | None => false end).
    destruct skip eqn:Hsk.
    + cbn [scan_slots]. destruct (leaf_read specs ks cap Hgeo pl sib es start x Hr ltac:(lia) Hx) as [-> _].
      unfold skip in Hsk. rewrite Hsk. destruct lo as [l|]; [|done]. rewrite Z.eqb_refl, andb_true_r in Hsk. rewrite Hsk. apply Htail.
    + rewrite (scan_slots_step _ start x acc Hx ltac:(lia) Hsk).
      replace (match lo with Some l => if negb lo_incl && (compare_keys specs x.1 l =? 0) then rest else x :: rest | None => x :: rest end)
        with (x :: rest) by (unfold skip in Hsk; destruct lo; [|done]; rewrite Z.eqb_refl, andb_true_r in Hsk; by rewrite Hsk).
      cbn [scan_list]. destruct (below_hi x); [|done]. destruct (cb acc x.2) as [[|] acc']; [|done].
      apply Htail.
Qed.
End slots.

(** ** The walks *)

Lemma with_handle_or_eq {B} held f P id pl (d : B) body : idx_rep held f P -> P !! id = Some pl ->
  zlen held < INDEX_POOL_CAPACITY -> with_handle_or id d body f = with_handle id body f.
Proof using.
  intros Hrep Hp Hh. destruct (fetch_rep held f P Hrep id pl Hp Hh) as (h & pool & Hf & _).
  unfold with_handle_or, with_handle. by rewrite Hf.
Qed.

Lemma scan_siblings_ok ls : forall fuel held f P acc, idx_rep held f P -> params specs ks cap f ->
  linked P INVALID_PAGE_ID ls -> (length ls < fuel)%nat -> zlen held < INDEX_POOL_CAPACITY ->
  exists pool, scan_siblings cb fuel hi hi_incl (next_leaf INVALID_PAGE_ID ls) acc f =
      Some (Ok (scan_list acc (leaf_entries ls)).2, set_idx_pool f pool) /\ idx_rep held (set_idx_pool f pool) P.
Proof using Hgeo.
  induction ls as [|[id es] ls IH]; intros fuel held f P acc Hrep Hpar Hlk Hfuel Hh; (destruct fuel as [|fuel]; [cbn in Hfuel; lia|]);
    cbn [scan_siblings next_leaf fst].
  - exists (idx_pool f). rewrite Z.eqb_refl. split; [by destruct f|]. by destruct f.
  - destruct Hlk as [(pl & Hp & Hr) Hlk]. destruct (rep_page _ _ _ Hrep _ _ Hp) as (_ & _ & Hid). pose proof (ir_next _ _ _ Hrep).
    rewrite (proj2 (Z.eqb_neq _ _)) by lia. destruct Hpar as (Hc1 & Hc2 & Hc3). rewrite !gets_bind, Hc1, Hc2.
    match goal with |- context [with_handle_or id (true, acc, 0) ?b] => set (body := b) end.
    destruct (with_handle_read held f P id pl body (Ok ((scan_list acc es).1, (scan_list acc es).2, next_leaf INVALID_PAGE_ID ls)) Hrep Hp Hh)
      as (pool & Hw & Hrep1).
    { intros h pool Hhd. unfold body. apply (deref_bind _ _ _ _ _ _ Hhd). intros pg ->. cbv zeta.
      rewrite (lr_count _ _ _ _ _ _ Hr), (lr_sib _ _ _ _ _ _ Hr).
      rewrite (scan_slots_tail pl _ es None false 0 Hr) by (unfold zlen; (lia || by left)). cbn [Z.to_nat]. rewrite drop_0.
      by destruct (scan_list acc es). }
    rewrite <- (with_handle_or_eq held f P id pl (true, acc, 0) body Hrep Hp Hh) in Hw. rewrite (bind_ok _ _ _ _ _ Hw).
    unfold leaf_entries. cbn [map concat snd]. rewrite scan_list_app. destruct (scan_list acc es) as [[|] acc']; cbn [fst snd].
    + by exists pool.
    + destruct (IH fuel held (set_idx_pool f pool) P acc' Hrep1 (conj Hc1 (conj Hc2 Hc3)) Hlk) as (pool2 & Hrun & Hrep2); [cbn in Hfuel; lia|done|].
      exists pool2. split; [exact Hrun|exact Hrep2].
Qed.

Section down.
Context (lo : option bytes) (lo_incl : bool).
Hypothesis Hlo : forall l, lo = Some l -> key_ok specs l.

(** The slot a scan starts at. *)
Definition start_in (es : list entry) : Z :=
  match lo with Some l => Z.of_nat (prefix_len (fun x => lt_key specs l x.1) es) | None => 0 end.

Abbreviation scanned es := (from_start es lo lo_incl (start_in es)).

Lemma start_in_range es : 0 <= start_in es <= zlen es.
Proof using.
  clear Hlo. unfold start_in, zlen. destruct lo as [l|]; [|lia]. pose proof (prefix_len_le (fun x => lt_key specs l x.1) es). lia.
Qed.

Abbreviation body all acc := (fun h =>
  pg ← deref h;
  let p := payload pg in
  let n := hdr_entry_count p in
  if hdr_page_type p =? IDX_PAGE_LEAF then
    let start := match lo with Some lo => find_leaf_scan_start specs ks p n lo | None => 0 end in
    let '(stop, acc) := scan_slots cb specs ks p lo lo_incl hi hi_incl start (Z.to_nat (n - start)) start acc in
    if stop : bool then mret (inl acc)
    else
      let sib := leaf_right_sibling p in
      acc ← scan_siblings cb (S all) hi hi_incl sib acc;
      mret (inl acc)
  else
    let slot := match lo with Some lo => find_child_slot specs ks cap p n lo | None => 0 end in
    mret (inr (get_child p slot))).

(** The start leaf and the leaves to its right. *)
Lemma leaf_body f P id pl es R acc all : idx_rep [] f P -> params specs ks cap f -> P !! id = Some pl ->
  leaf_rep pl (next_leaf INVALID_PAGE_ID R) es -> sorted es -> linked P INVALID_PAGE_ID R -> (length R <= all)%nat ->
  exists pool, with_handle id (body all acc) f =
      Some (Ok (inl (scan_list acc (scanned es ++ leaf_entries R)).2), set_idx_pool f pool) /\
    idx_rep [] (set_idx_pool f pool) P.
Proof using Hgeo Hlo.
  intros Hrep Hpar Hp Hr Hs Hlk Hall.
  destruct (with_handle_rep [] f P id pl (body all acc) (fun res f2 P2 =>
    res = Ok (inl (scan_list acc (scanned es ++ leaf_entries R)).2) /\ P2 = P /\ exists pool, f2 = set_idx_pool f pool))
    as (res & f2 & P2 & pool & Hw & Hr2 & -> & -> & pool' & ->); [done|done|done| |by exists pool].
  intros h pool Hr1 Hh1.
  assert (Hst : match lo with Some lo => find_leaf_scan_start specs ks pl (zlen es) lo | None => 0 end = start_in es).
  { unfold start_in. destruct lo as [l|]; [|done]. by apply (find_leaf_scan_start_spec specs ks cap Hgeo l (Hlo l eq_refl) pl _ es Hr). }
  assert (Hrun : body all acc h (set_idx_pool f pool) =
    (let '(stop, acc) := scan_list acc (scanned es) in
     if stop : bool then mret (inl acc)
     else acc ← scan_siblings cb (S all) hi hi_incl (next_leaf INVALID_PAGE_ID R) acc; mret (inl acc)) (set_idx_pool f pool)).
  { apply (deref_bind _ _ _ _ _ _ Hh1). intros pg ->. cbv zeta.
    rewrite (lr_type _ _ _ _ _ _ Hr), (lr_count _ _ _ _ _ _ Hr), Z.eqb_refl, Hst.
    rewrite (scan_slots_start pl _ es lo lo_incl (start_in es) Hr acc (start_in_range es)).
    by rewrite (lr_sib _ _ _ _ _ _ Hr). }
  rewrite Hrun, scan_list_app. destruct (scan_list acc (scanned es)) as [[|] acc'].
  - eexists _, _, P. split; [reflexivity|]. split; [exact Hr1|]. split; [done|]. split; [done|]. by exists pool.
  - destruct (scan_siblings_ok R (S all) [id] (set_idx_pool f pool) P acc' Hr1 Hpar Hlk) as (pool2 & Hsib & Hr2); [lia|done|].
    rewrite (bind_ok _ _ _ _ _ Hsib). eexists _, _, P. split; [reflexivity|]. split; [exact Hr2|]. split; [done|]. split; [done|].
    by exists pool2.
Qed.

Lemma node_body f P nxt id ch acc all : idx_rep [] f P -> params specs ks cap f -> tree_in P nxt (TNode id ch) ->
  sorted (entries (TNode id ch)) ->
  exists c pool, ch !! start_slot lo ch = Some c /\
    with_handle id (body all acc) f = Some (Ok (inr (tid c)), set_idx_pool f pool) /\ idx_rep [] (set_idx_pool f pool) P.
Proof using Hgeo Hlo.
  intros Hrep Hpar Ht Hs. pose proof Ht as [Hne [(pl & Hp & Hr) _]].
  assert (Hslot : exists c, ch !! start_slot lo ch = Some c /\
    match lo with Some lo => find_child_slot specs ks cap pl (hdr_entry_count pl) lo | None => 0 end = Z.of_nat (start_slot lo ch) /\
    get_child pl (Z.of_nat (start_slot lo ch)) = tid c).
  { destruct lo as [l|].
    - destruct (node_slot specs ks cap Hgeo P nxt id ch pl l (Hlo l eq_refl) Ht Hs Hp) as (c & Hi & _ & H1 & H2). by exists c.
    - destruct ch as [|c ch]; [done|]. exists c. split; [done|]. split; [done|].
      by apply (child_read specs ks cap pl _ _ _ _ Hr). }
  destruct Hslot as (c & Hi & Hsl & Hch). exists c.
  destruct (with_handle_read [] f P id pl (body all acc) (Ok (inr (tid c))) Hrep Hp) as (pool & Hw & Hr1); [done| |by exists pool].
  intros h pool Hh1. apply (deref_bind _ _ _ _ _ _ Hh1). intros pg ->. cbv zeta.
  rewrite (nr_type _ _ _ _ _ _ Hr), Hsl, Hch. done.
Qed.

Lemma scan_down_ok t : forall nxt R fuel f P acc, idx_rep [] f P -> params specs ks cap f -> tree_in P nxt t ->
  sorted (entries t) -> (depth t <= fuel)%nat -> linked P INVALID_PAGE_ID R -> nxt = next_leaf INVALID_PAGE_ID R ->
  (length (leaves t) + length R <= Z.to_nat (idx_next f))%nat ->
  exists leaf es B pool, reached lo t leaf es B /\
    scan_down cb fuel lo lo_incl hi hi_incl (tid t) acc f =
      Some (Ok (scan_list acc (scanned es ++ leaf_entries (B ++ R))).2, set_idx_pool f pool) /\
    idx_rep [] (set_idx_pool f pool) P.
Proof using Hgeo Hlo.
  induction t as [id es|id ch IH] using tree_ind'; intros nxt R fuel f P acc Hrep Hpar Ht Hs Hfuel Hlk -> Hlen;
    (destruct fuel as [|fuel]; [cbn in Hfuel; lia|]); cbn [scan_down tid]; unfold page_fuel;
    pose proof Hpar as (Hc1 & Hc2 & Hc3); rewrite !gets_bind, Hc1, Hc2, Hc3.
  - pose proof Ht as [_ (pl & Hp & Hr)].
    destruct (leaf_body f P id pl es R acc (Z.to_nat (page_count (idx_disk f))) Hrep Hpar Hp Hr Hs Hlk) as (pool & Hw & Hr1).
    { unfold idx_next, page_count in *. cbn [leaves length] in Hlen. lia. }
    rewrite <- (with_handle_or_eq [] f P id pl (inl acc) _ Hrep Hp ltac:(done)) in Hw.
    exists id, es, [], pool. split; [constructor|]. split; [|done]. rewrite (bind_ok _ _ _ _ _ Hw). done.
  - destruct (node_body f P _ id ch acc (Z.to_nat (page_count (idx_disk f))) Hrep Hpar Ht Hs) as (c & pool & Hi & Hw & Hr1).
    pose proof Ht as [_ [(pl & Hp & _) Hch]].
    rewrite <- (with_handle_or_eq [] f P id pl (inl acc) _ Hrep Hp ltac:(done)) in Hw. rewrite (bind_ok _ _ _ _ _ Hw).
    pose proof (tree_linked _ _ _ Ht) as Hlt. cbn [leaves] in Hlt, Hlen. pose proof (take_drop_middle ch _ c Hi) as Hmid.
    rewrite <- Hmid, map_app, concat_app in Hlt, Hlen. cbn [map concat] in Hlt, Hlen.
    apply linked_app in Hlt as [_ Hlt]. apply linked_app in Hlt as [_ Hlt].
    set (D := concat (map leaves (drop (S (start_slot lo ch)) ch))) in *.
    rewrite Forall_lookup in IH. pose proof (child_depth id ch _ c Hi) as Hd.
    destruct (IH _ _ Hi _ (D ++ R) fuel (set_idx_pool f pool) P acc Hr1 Hpar (child_in specs ks cap _ _ _ _ _ _ Ht Hi)
      (child_sorted specs id _ _ _ Hs Hi)) as (leaf & es & B & pool2 & Hre & Hrun & Hr2).
    + cbn [depth] in Hd, Hfuel. lia.
    + apply linked_app. split; [done|exact Hlk].
    + replace (next_leaf INVALID_PAGE_ID (D ++ R)) with (next_leaf (next_leaf INVALID_PAGE_ID R) D) by by destruct D.
      unfold D. destruct (drop (S (start_slot lo ch)) ch) as [|x l] eqn:Hdr; [done|]. cbn [after].
      assert (Hx : exists n, tree_in P n x).
      { apply chain_Forall in Hch. rewrite Forall_forall in Hch. apply Hch.
        apply (subseteq_drop (S (start_slot lo ch)) ch). rewrite Hdr. apply list_elem_of_here. }
      destruct Hx as [n Hx]. destruct (leaves_first _ _ _ Hx) as (es & rest & Hl). cbn [map concat]. by rewrite Hl.
    + rewrite !length_app in *. change (idx_next (set_idx_pool f pool)) with (idx_next f). lia.
    + exists leaf, es, (B ++ D), pool2. split; [by apply (reach_node lo id ch c)|].
      rewrite <- app_assoc. split; [exact Hrun|exact Hr2].
Qed.
End down.

End callback.

(** ** The entries in a range *)

Definition above_lo (lo : option bytes) (lo_incl : bool) (x : entry) : bool :=
  match lo with
  | None => true
  | Some lo => let c := compare_keys specs x.1 lo in (0 <? c) || (lo_incl && (c =? 0))
  end.

Definition in_range (lo : option bytes) (lo_incl : bool) (hi : option bytes) (hi_incl : bool) (x : entry) : bool :=
  above_lo lo lo_incl x && below_hi hi hi_incl x.

(** At most one entry has the key [l]. *)
Definition at_most_one (l : bytes) (es : list entry) : Prop := (length (filter (fun x => same_key specs l x) es) <= 1)%nat.

Lemma at_most_one_split l a b x y : at_most_one l (a ++ b) -> x ∈ a -> y ∈ b ->
  compare_keys specs x.1 l = 0 -> compare_keys specs y.1 l = 0 -> False.
Proof using.
  unfold at_most_one. rewrite filter_app, length_app. intros Hl Hx Hy Hcx Hcy.
  assert (Hpos : forall (z : entry) c, z ∈ c -> compare_keys specs z.1 l = 0 -> (1 <= length (filter (fun x => same_key specs l x) c))%nat).
  { intros z c Hz Hcz. destruct (filter _ c) eqn:Hf; [|cbn; lia]. exfalso.
    assert (Hz' : z ∈ filter (fun x => same_key specs l x) c) by (apply list_elem_of_filter; unfold same_key; by rewrite Hcz).
    rewrite Hf in Hz'. by apply elem_of_nil in Hz'. }
  pose proof (Hpos x a Hx Hcx). pose proof (Hpos y b Hy Hcy). lia.
Qed.

Lemma sorted_filter (g : entry -> bool) es : sorted es -> sorted (filter (fun x => g x) es).
Proof using.
  unfold sorted_entries. induction es as [|x es IH]; intros Hs; [done|]. inversion_clear Hs as [|? ? Hs' Hle].
  destruct (g x) eqn:Hg; [rewrite filter_cons_True by (by rewrite Hg)|rewrite filter_cons_False by (by apply Is_true_false); by apply IH].
  constructor; [by apply IH|]. rewrite Forall_forall in Hle |- *. intros k Hk. apply Hle.
  apply list_elem_of_fmap in Hk as (y & -> & Hy). apply list_elem_of_filter in Hy as [_ Hy]. apply list_elem_of_fmap. eauto.
Qed.

Section bound.
Context (l : bytes) (lo_incl : bool).
Hypothesis Hl : key_ok specs l.

(** Sorted entries that are not below the bound. *)
Lemma above_from es : Forall (entry_ok specs) es -> sorted es -> (forall x, head es = Some x -> 0 < compare_keys specs x.1 l) ->
  filter (fun x => above_lo (Some l) lo_incl x) es = es.
Proof using Hl.
  intros Hok Hs Hh. apply filter_all. intros y Hy. unfold above_lo. cbv zeta. apply orb_true_iff. left. apply Z.ltb_lt.
  destruct es as [|x es]; [by apply elem_of_nil in Hy|]. specialize (Hh x eq_refl).
  apply Forall_cons in Hok as [Hx Hok]. apply elem_of_cons in Hy as [->|Hy]; [done|].
  rewrite Forall_forall in Hok. inversion_clear Hs as [|? ? _ Hle]. rewrite Forall_forall in Hle.
  specialize (Hle y.1 ltac:(apply list_elem_of_fmap; eauto)).
  destruct (Z.lt_ge_cases 0 (compare_keys specs y.1 l)) as [|Hc]; [done|].
  destruct (compare_keys_trans specs x.1 y.1 l); [apply Hx|by apply Hok|done|done|done|lia].
Qed.

Lemma above_none es : (forall x, x ∈ es -> compare_keys specs x.1 l < 0) ->
  filter (fun x => above_lo (Some l) lo_incl x) es = [].
Proof using.
  intros H. apply filter_none. intros x Hx. specialize (H x Hx). unfold above_lo. cbv zeta.
  rewrite (proj2 (Z.ltb_ge _ _)), (proj2 (Z.eqb_neq _ _)) by lia. by rewrite andb_false_r.
Qed.

(** In the start leaf. *)
Lemma above_start es : Forall (entry_ok specs) es -> sorted es -> at_most_one l es ->
  filter (fun x => above_lo (Some l) lo_incl x) es = from_start es (Some l) lo_incl (start_in (Some l) es).
Proof using Hl.
  intros Hok Hs Hone. set (f := fun x : entry => lt_key specs l x.1).
  assert (Hd : downward f es).
  { apply (downward_map fst (lt_key specs l)), (downward_key specs _ l); [by right|done|by apply entries_keys_ok|exact Hs]. }
  unfold from_start, start_in. fold f. rewrite Nat2Z.id. set (s := prefix_len f es).
  rewrite <- (take_drop s es) at 1. rewrite filter_app, above_none; cbn [app].
  2:{ intros x Hx. apply list_elem_of_lookup in Hx as [i Hi]. apply lookup_take_Some in Hi as [Hi Hlt].
      pose proof (prefix_len_spec f es i x Hd Hi) as H. rewrite bool_decide_true in H by done. by apply Z.ltb_lt. }
  destruct (drop s es) as [|x rest] eqn:Hdr; [done|].
  assert (Hx : 0 <= compare_keys specs x.1 l).
  { assert (Hi : es !! s = Some x) by (pose proof (lookup_drop es s 0) as H; rewrite Hdr, Nat.add_0_r in H; done).
    pose proof (prefix_len_spec f es s x Hd Hi) as H. rewrite bool_decide_false in H by (unfold s; lia). by apply Z.ltb_ge. }
  rewrite <- (take_drop s es), Hdr in Hok, Hs, Hone. apply Forall_app in Hok as [_ Hok]. apply sorted_app in Hs as (_ & _ & Hs).
  apply Forall_cons in Hok as [Hxok Hok].
  assert (Hrest : filter (fun x => above_lo (Some l) lo_incl x) rest = rest).
  { inversion_clear Hs as [|? ? Hs' Hle]. apply above_from; [done|done|]. intros y Hy.
    destruct rest as [|y' rest]; [done|]. injection Hy as ->. apply Forall_cons in Hle as [Hle _]. apply Forall_cons in Hok as [Hyok _].
    destruct (Z.lt_ge_cases 0 (compare_keys specs y.1 l)) as [|Hc]; [done|].
    destruct (compare_keys_trans specs x.1 y.1 l) as [Hxl Heq]; [apply Hxok|apply Hyok|done|done|done|].
    exfalso. rewrite cons_middle, app_assoc in Hone.
    apply (at_most_one_split l _ _ x y Hone); [|apply list_elem_of_here|lia|apply Heq; lia].
    rewrite elem_of_app. right. by apply list_elem_of_singleton. }
  destruct (Z.eqb_spec (compare_keys specs x.1 l) 0) as [H0|Hne].
  - destruct lo_incl; cbn [negb andb].
    + rewrite filter_cons_True by (unfold above_lo; cbv zeta; by rewrite H0). by rewrite Hrest.
    + rewrite filter_cons_False by (apply Is_true_false; unfold above_lo; cbv zeta; by rewrite H0). done.
  - rewrite andb_false_r, filter_cons_True, Hrest; [done|]. unfold above_lo. cbv zeta. rewrite (proj2 (Z.ltb_lt _ _)) by lia. done.
Qed.
End bound.

(** The entries the walk meets are those above the lower bound. *)
Lemma reached_above lo lo_incl t leaf es B P : (forall l, lo = Some l -> key_ok specs l /\ at_most_one l (entries t)) ->
  reached lo t leaf es B -> tree_in P INVALID_PAGE_ID t -> sorted (entries t) ->
  filter (fun x => above_lo lo lo_incl x) (entries t) = from_start es lo lo_incl (start_in lo es) ++ leaf_entries B.
Proof using Hgeo.
  intros Hlo Hre Ht Hs. destruct (reached_leaves lo t leaf es B (fun l Hl => proj1 (Hlo l Hl)) Hre P _ Ht Hs) as (A & Hlv & HA).
  assert (Hen : entries t = leaf_entries A ++ es ++ leaf_entries B).
  { rewrite <- (leaves_entries t), Hlv, leaf_entries_app. done. }
  pose proof (tree_entries_ok specs ks cap _ _ _ Ht) as Hok. destruct lo as [l|].
  - destruct (Hlo l eq_refl) as [Hl Hone]. destruct HA as [HA HB].
    destruct (reached_located l t leaf es B Hre) as [path Hloc].
    pose proof (located_dup specs ks cap Hgeo l t leaf es path Hl Hloc P _ Ht Hs) as Hdup.
    rewrite Hen in Hok, Hs, Hone, Hdup |- *. rewrite !Forall_app in Hok. destruct Hok as (Ho1 & Ho2 & Ho3).
    apply sorted_app in Hs as (_ & _ & Hs). apply sorted_app in Hs as (_ & Hs2 & Hs3).
    rewrite !filter_app, above_none, (above_from l lo_incl Hl (leaf_entries B)), (above_start l lo_incl Hl es); [done|done|done| |done|done| |].
    + unfold at_most_one in *. rewrite !filter_app, !length_app in Hone. lia.
    + intros x Hx. apply HB in Hx. by apply Z.leb_gt.
    + intros x Hx. rewrite Forall_forall in HA. specialize (HA x Hx). unfold le_key in HA. apply Z.leb_le in HA.
      destruct (decide (compare_keys specs x.1 l = 0)) as [H0|]; [|lia]. exfalso.
      assert (Hd : existsb (same_key specs l) es = true).
      { rewrite <- Hdup, existsb_app. apply orb_true_iff. left. apply existsb_exists. exists x.
        split; [by apply list_elem_of_In|]. unfold same_key. by rewrite H0. }
      apply existsb_exists in Hd as (y & Hy & Hyk). apply list_elem_of_In in Hy.
      apply (at_most_one_split l _ _ x y Hone); [done|rewrite elem_of_app; by left|done|]. by apply Z.eqb_eq.
  - subst A. rewrite Hen. unfold from_start, start_in. cbn [Z.to_nat]. rewrite drop_0. by apply filter_all.
Qed.

Lemma range_scan_ok {A} (cb : A -> Z -> bool * A) lo lo_incl hi hi_incl acc n f es : index_rep specs ks cap n f es ->
  (forall l, lo = Some l -> key_ok specs l /\ at_most_one l es) -> (forall h, hi = Some h -> key_ok specs h) ->
  exists pool, range_scan cb lo lo_incl hi hi_incl acc f =
      Some (Ok (feed cb acc (map snd (filter (fun x => in_range lo lo_incl hi hi_incl x) es))), set_idx_pool f pool) /\
    index_rep specs ks cap n (set_idx_pool f pool) es.
Proof using Hgeo.
  intros (Hpar & Hpg & P & Hrep & [[Hroot ->]|(t & Hroot & Ht & Hnd & <- & Hs & Hdp)]) Hlo Hhi; unfold range_scan; rewrite gets_bind, Hroot.
  - exists (idx_pool f). split; [by destruct f|]. split; [done|]. split; [done|]. exists P. split; [by destruct f|]. by left.
  - rewrite (proj2 (Z.eqb_neq _ _)) by by apply (tree_root specs ks cap f P t INVALID_PAGE_ID). unfold page_fuel. rewrite gets_bind.
    pose proof (depth_pages specs ks cap f P t _ Hrep Ht Hnd) as Hd. pose proof (ids_pages specs ks cap f P t _ Hrep Ht Hnd) as Hi.
    pose proof (leaves_ids t) as Hli.
    destruct (scan_down_ok cb hi hi_incl lo lo_incl (fun l Hl => proj1 (Hlo l Hl)) t INVALID_PAGE_ID [] (Z.to_nat (page_count (idx_disk f)))
      f P acc Hrep Hpar Ht Hs) as (leaf & es & B & pool & Hre & Hrun & Hr1).
    + unfold idx_next, page_count in *. lia.
    + done.
    + done.
    + cbn [length]. lia.
    + exists pool. rewrite Hrun, app_nil_r. split.
      * rewrite scan_list_sorted; [|apply Forall_forall| |].
        -- rewrite <- (reached_above lo lo_incl t leaf es B P Hlo Hre Ht Hs).
           rewrite list_filter_filter. do 5 f_equal. apply list_filter_iff. intros x. unfold in_range. rewrite andb_True. tauto.
        -- intros x. rewrite <- (reached_above lo lo_incl t leaf es B P Hlo Hre Ht Hs).
           intros Hx. apply list_elem_of_filter in Hx as [_ Hx]. pose proof (tree_entries_ok specs ks cap _ _ _ Ht) as Hok.
           rewrite Forall_forall in Hok. by apply Hok.
        -- done.
        -- rewrite <- (reached_above lo lo_incl t leaf es B P Hlo Hre Ht Hs). by apply sorted_filter.
      * split; [done|]. split; [done|]. exists P. split; [done|]. right. by exists t.
Qed.

End scans.
