(* ===== verification/BTreeBulk.v ===== *)
(** * Bulk building

    [bulk_build] packs sorted entries into leaves of three quarters of a node and builds the
    levels above them, each smaller than the one below, until one node is left.  The index then
    holds the entries. *)

From stdpp Require Import sorting.
From S2P Require Import Prelude Types Page LruK BufferPool IndexFile BTreeNode BTreeLayout BTree BTreeInsert BTreeIndex.

Section bulk.
Context (specs : list IndexColSpec) (ks cap : Z).
Hypothesis Hgeo : geometry specs ks cap.
Abbreviation leaf_rep := (leaf_rep specs ks cap).
Abbreviation tree_in := (tree_in specs ks cap).
Abbreviation chain P := (chain_of (tree_in P)).

(** What a level keeps of a subtree. *)
Definition lv (t : tree) : LevelEntry := (tid t, fkey t).

Definition forest_ids (ts : list tree) : list Z := concat (map ids ts).
Definition forest_entries (ts : list tree) : list entry := concat (map entries ts).

(** Subtrees side by side on the pages [P]. *)
Definition forest (P : gmap Z bytes) (ts : list tree) : Prop :=
  chain P INVALID_PAGE_ID ts /\ NoDup (forest_ids ts).

Lemma forest_ids_app a b : forest_ids (a ++ b) = forest_ids a ++ forest_ids b.
Proof using. unfold forest_ids. by rewrite map_app, concat_app. Qed.

Lemma forest_ids_in P nxt ts j : chain P nxt ts -> j ∈ forest_ids ts -> is_Some (P !! j).
Proof using.
  revert nxt. induction ts as [|t ts IH]; intros nxt Hc Hj; [by apply elem_of_nil in Hj|]. destruct Hc as [H1 H2].
  unfold forest_ids in Hj. cbn [map concat] in Hj. apply elem_of_app in Hj as [Hj|Hj]; [exact (tree_ids_in specs ks cap _ _ _ H1 _ Hj)|].
  by apply (IH nxt).
Qed.

(** ** Leaves *)

Lemma new_leaf_page pl es : zlen pl = PAGE_PAYLOAD_SIZE -> Forall is_byte pl -> Forall (entry_ok specs) es -> zlen es <= cap ->
  leaf_rep (fill (leaf_entry_at ks 0) (entry_size ks) 0 (map (fun e => entry_bytes e.1 e.2) es)
    (set_leaf_right_sibling (init_hdr pl IDX_PAGE_LEAF 0 (wrap 16 (zlen es)) cap) INVALID_PAGE_ID)) INVALID_PAGE_ID es.
Proof using Hgeo.
  intros Hl Hb Hok Hn. pose proof (g_cap _ _ _ Hgeo). pose proof (zlen_nonneg es).
  assert (Hw : wrap 16 (zlen es) = zlen es) by (apply wrap_id; unfold in_u; lia). rewrite Hw.
  assert (Hinv : in_u 64 INVALID_PAGE_ID) by (unfold in_u, INVALID_PAGE_ID; lia).
  pose proof (new_leaf_rep specs ks cap Hgeo pl 0 INVALID_PAGE_ID es Hl Hb Hinv Hok Hn) as Hrep.
  pose proof (new_leaf_rep specs ks cap Hgeo pl 0 INVALID_PAGE_ID [] Hl Hb Hinv ltac:(constructor) ltac:(change (zlen (@nil entry)) with 0; lia)) as Hnil.
  rewrite fill_eq; [|pose proof (esz_pos specs ks cap Hgeo); lia|by apply (enc_blocks specs ks cap Hgeo)|unfold leaf_entry_at, INDEX_PAGE_HDR_SIZE; lia|lia|].
  - by rewrite Z.mul_0_l, Z.add_0_r.
  - destruct (init_hdr_fields specs ks cap Hgeo pl IDX_PAGE_LEAF 0 (zlen es)) as (F1 & _);
      [done|done|unfold IDX_PAGE_LEAF, in_u; lia|unfold in_u; lia|].
    pose proof (g_fit _ _ _ Hgeo) as Hfit. rewrite zlen_map. unfold set_leaf_right_sibling.
    rewrite zlen_splice; rewrite ?zlen_le_bytes, ?F1; [|unfold INDEX_PAGE_HDR_SIZE; lia|].
    + unfold leaf_entry_at, entry_size, INDEX_PAGE_HDR_SIZE in *. pose proof (g_pos _ _ _ Hgeo). nia.
    + unfold leaf_entry_at, entry_size, INDEX_PAGE_HDR_SIZE in *. pose proof (g_pos _ _ _ Hgeo). nia.
Qed.

(** Linking the last leaf to a new one. *)
Lemma relink P nxt nxt' A id es pl : chain P nxt (A ++ [TLeaf id es]) -> NoDup (forest_ids (A ++ [TLeaf id es])) ->
  P !! id = Some pl -> in_u 64 nxt' ->
  leaf_rep (set_leaf_right_sibling pl nxt') nxt' es /\
  chain (<[id := set_leaf_right_sibling pl nxt']> P) nxt' (A ++ [TLeaf id es]).
Proof using Hgeo.
  intros Hc Hnd Hp Hn. apply chain_app in Hc as [HA [Hl _]]. cbn [after] in *. destruct Hl as [Hne (pl' & Hp' & Hr)].
  rewrite Hp in Hp'. injection Hp' as <-. pose proof (set_sibling_rep specs ks cap Hgeo pl _ es nxt' Hr Hn) as Hr'.
  split; [done|]. apply chain_app. cbn [after first_leaf]. split.
  - apply (chain_frame specs ks cap P); [|done]. intros j Hj. apply lookup_insert_ne. intros <-.
    rewrite forest_ids_app in Hnd. apply NoDup_app in Hnd as (_ & Hd & _). apply (Hd id Hj). apply list_elem_of_here.
  - split; [|done]. split; [done|]. eexists. by rewrite lookup_insert_eq.
Qed.

(** The leaves so far: none, or ending in the leaf [prev]. *)
Definition ends_in (prev : Z) (ts : list tree) : Prop :=
  (ts = [] /\ prev = INVALID_PAGE_ID) \/ exists A es, ts = A ++ [TLeaf prev es].

(** One more leaf: the new page, and the link from the leaf before it. *)
Lemma add_leaf f P ts prev es : idx_rep [] f P -> params specs ks cap f -> forest P ts -> ends_in prev ts ->
  es <> [] -> Forall (entry_ok specs) es -> zlen es <= cap -> idx_next f + 1 < INVALID_PAGE_ID ->
  exists f' P' lid, idx_rep [] f' P' /\ fields f' = fields f /\ idx_next f' = idx_next f + 1 /\
    forest P' (ts ++ [TLeaf lid es]) /\
    forall (A : Type) (k : Z -> M A), (lid ← idx_reserve_page_id;
      let lp := payload (reset page_init lid) in
      let lp := init_hdr lp IDX_PAGE_LEAF 0 (wrap 16 (zlen es)) cap in
      let lp := set_leaf_right_sibling lp INVALID_PAGE_ID in
      let lp := fill (leaf_entry_at ks 0) (entry_size ks) 0 (map (fun e => entry_bytes e.1 e.2) es) lp in
      _ ← write_new lid lp;
      _ ← (if negb (prev =? INVALID_PAGE_ID) then
             with_handle prev (fun h => plh ← deref h; store_page h (set_leaf_right_sibling (payload plh) lid))
           else mret tt);
      k lid) f = k lid f'.
Proof using Hgeo.
  intros Hrep Hpar [Hch Hnd] Hend Hne Hok Hn Hroom. destruct (next_range _ _ _ Hrep) as [Hnr Hn1].
  destruct (reserve_rep _ _ _ Hrep Hroom) as (f1 & Hrs & Hr1 & Hnone & Hf1 & Hnx1 & _).
  pose proof (new_leaf_page (payload (reset page_init (idx_next f))) es (proj1 (fresh_payload _)) (proj2 (fresh_payload _)) Hok Hn) as Hl.
  set (lp := fill _ _ _ _ _) in Hl.
  destruct (write_new_rep _ _ _ Hr1 (idx_next f) lp) as (f2 & Hwn & Hr2 & Hf2 & Hnx2 & _);
    [lia|done|apply (lr_len _ _ _ _ _ _ Hl)|apply (lr_bytes _ _ _ _ _ _ Hl)|].
  set (P1 := <[idx_next f := lp]> P) in *.
  assert (Hdom : forall j, j ∈ forest_ids ts -> j <> idx_next f).
  { intros j Hj ->. destruct (forest_ids_in _ _ _ _ Hch Hj). congruence. }
  assert (Hch1 : chain P1 INVALID_PAGE_ID ts).
  { apply (chain_frame specs ks cap P); [|done]. intros j Hj. apply lookup_insert_ne. by apply not_eq_sym, Hdom. }
  assert (Hnd1 : NoDup (forest_ids (ts ++ [TLeaf (idx_next f) es]))).
  { rewrite forest_ids_app. apply NoDup_app. split; [done|]. split; [|apply NoDup_singleton].
    intros j Hj Hin. apply list_elem_of_singleton in Hin as ->. by apply (Hdom (idx_next f)). }
  assert (Hnew : forall P', P' !! idx_next f = Some lp -> tree_in P' INVALID_PAGE_ID (TLeaf (idx_next f) es)).
  { intros P' HP'. split; [done|]. by exists lp. }
  destruct Hend as [[-> ->]|(A & es0 & Hts)].
  - exists f2, P1, (idx_next f). split; [done|]. split; [congruence|]. split; [lia|]. split.
    + split; [|done]. split; [|done]. apply Hnew. apply lookup_insert_eq.
    + intros B k. rewrite (bind_ok _ _ _ _ _ Hrs). cbv zeta. fold lp. by rewrite (bind_ok _ _ _ _ _ Hwn).
  - assert (Hprev : prev ∈ forest_ids ts) by (rewrite Hts, forest_ids_app, elem_of_app; right; apply list_elem_of_here).
    destruct (forest_ids_in _ _ _ _ Hch1 Hprev) as [pp Hpp].
    destruct (rep_page _ _ _ Hr2 _ _ Hpp) as (_ & _ & Hpr). pose proof (ir_next _ _ _ Hr2) as Hnx.
    rewrite Hts in Hch1, Hnd. destruct (relink P1 INVALID_PAGE_ID (idx_next f) A prev es0 pp Hch1 Hnd Hpp Hnr) as [Hlr Hch2].
    destruct (with_handle_rep [] f2 P1 prev pp (fun h => plh ← deref h; store_page h (set_leaf_right_sibling (payload plh) (idx_next f)))
      (fun r f3 P3 => r = Ok tt /\ P3 = <[prev := set_leaf_right_sibling pp (idx_next f)]> P1 /\ fields f3 = fields f2 /\ idx_next f3 = idx_next f2))
      as (r & f3 & P3 & pool & Hw & Hr3 & -> & -> & Hf3 & Hnx3); [done|done|done| |].
    { intros h pool Hrh Hh. destruct (store_page_rep _ _ _ Hrh h prev pp _ Hh Hpp (lr_len _ _ _ _ _ _ Hlr) (lr_bytes _ _ _ _ _ _ Hlr))
        as (f3 & Hst & Hr3 & _ & Hf3 & Hnx3).
      eexists _, f3, _. split; [|split; [exact Hr3|split; [reflexivity|split; [reflexivity|by split]]]].
      apply (deref_bind _ _ _ _ _ _ Hh). intros pg ->. exact Hst. }
    exists (set_idx_pool f3 pool), (<[prev := set_leaf_right_sibling pp (idx_next f)]> P1), (idx_next f).
    split; [done|]. split; [change (fields f3 = fields f); congruence|]. split; [change (idx_next f3 = idx_next f + 1); lia|]. split.
    + split; [|done]. rewrite Hts. apply chain_app. split; [exact Hch2|]. split; [|done]. apply Hnew.
      rewrite lookup_insert_ne; [apply lookup_insert_eq|by apply Hdom].
    + intros B k. rewrite (bind_ok _ _ _ _ _ Hrs). cbv zeta. fold lp. rewrite (bind_ok _ _ _ _ _ Hwn).
      rewrite (proj2 (Z.eqb_neq prev INVALID_PAGE_ID)) by lia. cbn [negb]. by rewrite (bind_ok _ _ _ _ _ Hw).
Qed.

Lemma build_leaves_ok fuel : forall fill_n es ts prev f P, 1 <= fill_n <= cap -> idx_rep [] f P -> params specs ks cap f ->
  forest P ts -> ends_in prev ts -> Forall (entry_ok specs) es -> (length es <= fuel)%nat ->
  idx_next f + zlen es + 1 < INVALID_PAGE_ID ->
  exists f' P' ts', build_leaves fuel fill_n es prev (map lv ts) f = Some (Ok (map lv (ts ++ ts')), f') /\
    idx_rep [] f' P' /\ fields f' = fields f /\ forest P' (ts ++ ts') /\ forest_entries ts' = es /\
    zlen ts' <= zlen es /\ (es <> [] -> ts' <> []) /\ idx_next f' = idx_next f + zlen ts'.
Proof using Hgeo.
  induction fuel as [|fuel IH]; intros fill_n es ts prev f P Hfill Hrep Hpar Hfor Hend Hok Hfuel Hroom.
  - destruct es; [|cbn in Hfuel; lia]. exists f, P, []. rewrite app_nil_r. split; [done|]. split_and!; try done; unfold zlen; cbn; lia.
  - destruct es as [|[k0 r0] es0] eqn:Hes; [exists f, P, []; rewrite app_nil_r; split; [done|]; split_and!; try done; unfold zlen; cbn; lia|].
    rewrite <- Hes in *. assert (Hz : 1 <= zlen es) by (rewrite Hes, zlen_cons; pose proof (zlen_nonneg es0); lia).
    set (n := Z.min fill_n (zlen es)). set (chunk := take (Z.to_nat n) es).
    assert (Hzc : zlen chunk = n) by (unfold chunk, zlen in *; rewrite length_take; lia).
    assert (Hcne : chunk <> []) by (intros Hc; rewrite Hc in Hzc; change (zlen (@nil entry)) with 0 in Hzc; lia).
    destruct (add_leaf f P ts prev chunk Hrep Hpar Hfor Hend Hcne (Forall_take _ _ _ Hok)) as (f1 & P1 & lid & Hr1 & Hf1 & Hn1 & Hfor1 & Hrun); [lia|lia|].
    destruct (IH fill_n (drop (Z.to_nat n) es) (ts ++ [TLeaf lid chunk]) lid f1 P1 Hfill Hr1 (params_fields specs ks cap f f1 Hf1 Hpar) Hfor1)
      as (f2 & P2 & ts2 & Hrun2 & Hr2 & Hf2 & Hfor2 & Hen2 & Hl2 & _ & Hn2).
    + right. by eexists _, _.
    + by apply Forall_drop.
    + rewrite length_drop. lia.
    + unfold zlen in *. rewrite length_drop. lia.
    + exists f2, P2, (TLeaf lid chunk :: ts2). rewrite <- app_assoc in Hrun2, Hfor2. cbn [app] in Hrun2, Hfor2.
      assert (Hzd : zlen (drop (Z.to_nat n) es) = zlen es - n) by (unfold zlen in *; rewrite length_drop; lia).
      split_and!; [|done|congruence|done| | |done|rewrite zlen_cons; lia].
      * rewrite Hes. cbn [build_leaves]. rewrite <- Hes. destruct Hpar as (Hc1 & Hc2 & Hc3). rewrite !gets_bind, Hc2, Hc3.
        cbv zeta. fold n. fold chunk. rewrite <- Hzc. rewrite Hrun, Hzc, <- Hrun2. rewrite map_app. cbn [map]. do 3 f_equal.
        unfold lv, fkey, chunk. cbn [tid entries]. rewrite Hes.
        destruct (Z.to_nat n) as [|m] eqn:Hm; [lia|]. done.
      * unfold forest_entries in *. cbn [map concat entries]. rewrite Hen2. apply take_drop.
      * rewrite zlen_cons. lia.
Qed.

(** ** The levels above *)

(** Neighbours become the children of one node. *)
Lemma group_chain P nxt A c ch B nid pl : chain P nxt (A ++ (c :: ch) ++ B) -> P !! nid = None ->
  internal_rep specs ks cap pl (map fkey ch) (map tid (c :: ch)) ->
  chain (<[nid := pl]> P) nxt (A ++ TNode nid (c :: ch) :: B).
Proof using.
  intros Hc Hnone Hr. apply (chain_frame specs ks cap P (<[nid := pl]> P)) in Hc.
  - apply chain_app in Hc as [HA Hc]. apply chain_app in Hc as [Hch HB]. apply chain_app. split; [done|]. split; [|done].
    split; [done|]. split; [|done]. eexists. by rewrite lookup_insert_eq.
  - intros j Hj. apply lookup_insert_ne. intros <-. destruct (forest_ids_in _ _ _ _ Hc Hj). congruence.
Qed.

Lemma group_ids A c ch B nid : forest_ids (A ++ TNode nid (c :: ch) :: B) ≡ₚ nid :: forest_ids (A ++ (c :: ch) ++ B).
Proof using.
  rewrite !forest_ids_app. unfold forest_ids at 2. cbn [map concat ids]. rewrite !app_comm_cons. fold (forest_ids B).
  change (concat (map ids ch)) with (forest_ids ch). change (forest_ids (c :: ch)) with (ids c ++ forest_ids ch).
  cbn [app]. by rewrite <- !Permutation_middle, <- !app_assoc.
Qed.

Lemma new_node_page pl ts : zlen pl = PAGE_PAYLOAD_SIZE -> Forall is_byte pl -> ts <> [] -> zlen ts <= cap + 1 ->
  Forall (key_ok specs) (map fkey ts) -> Forall (in_u 64) (map tid ts) ->
  internal_rep specs ks cap
    (fill (internal_key_at ks cap 0) ks 0 (map snd (tail (map lv ts)))
      (fill INDEX_PAGE_HDR_SIZE 8 0 (map (fun le => le_bytes 8 le.1) (map lv ts))
        (init_hdr pl IDX_PAGE_INTERNAL 0 (wrap 16 (zlen ts - 1)) cap))) (map fkey (tail ts)) (map tid ts).
Proof using Hgeo.
  intros Hl Hb Hne Hn Hk Hi. destruct ts as [|t ts]; [done|]. rewrite zlen_cons in Hn.
  destruct (internal_fit specs ks cap Hgeo) as (Hks & Hcp & Hka & Hfit). pose proof (g_cap _ _ _ Hgeo). pose proof (zlen_nonneg ts).
  replace (zlen (t :: ts) - 1) with (zlen ts) by (rewrite zlen_cons; lia).
  assert (Hw : wrap 16 (zlen ts) = zlen ts) by (apply wrap_id; unfold in_u; lia). rewrite Hw. cbn [tail map].
  assert (E1 : map snd (map lv ts) = map fkey ts) by (rewrite map_map; done).
  assert (E2 : le_bytes 8 (lv t).1 :: map (fun le : LevelEntry => le_bytes 8 le.1) (map lv ts) = map (le_bytes 8) (tid t :: map tid ts))
    by (cbn [map]; rewrite !map_map; done).
  rewrite E1, E2. apply Forall_cons in Hk as [_ Hk].
  destruct (init_hdr_fields specs ks cap Hgeo pl IDX_PAGE_INTERNAL 0 (zlen ts)) as (F1 & _);
    [done|done|unfold IDX_PAGE_INTERNAL, in_u; lia|unfold in_u; lia|].
  pose proof (new_internal_rep specs ks cap Hgeo pl 0 (map fkey ts) (tid t :: map tid ts) Hl Hb Hk Hi) as Hrep.
  rewrite zlen_cons, !zlen_map in Hrep. specialize (Hrep ltac:(lia) ltac:(lia)).
  assert (Hzc : zlen (map (le_bytes 8) (tid t :: map tid ts)) = zlen ts + 1) by (rewrite zlen_map, zlen_cons, zlen_map; lia).
  rewrite (fill_eq 8 INDEX_PAGE_HDR_SIZE); [|lia|apply child_blocks|unfold INDEX_PAGE_HDR_SIZE; lia|lia|].
  2:{ rewrite Hzc, F1. unfold INDEX_PAGE_HDR_SIZE in *. nia. }
  rewrite Z.mul_0_l, Z.add_0_r. change (concat (map (le_bytes 8) (tid t :: map tid ts))) with (child_bytes (tid t :: map tid ts)).
  rewrite (fill_eq ks (internal_key_at ks cap 0)); [|lia|by apply (key_blocks specs ks cap Hgeo)|rewrite Hka; unfold INDEX_PAGE_HDR_SIZE; lia|lia|].
  2:{ rewrite zlen_map, Hka. rewrite zlen_splice; rewrite ?zlen_child_bytes, ?zlen_cons, ?zlen_map, ?F1; unfold INDEX_PAGE_HDR_SIZE in *; nia. }
  rewrite Z.mul_0_l, Z.add_0_r. exact Hrep.
Qed.

Lemma tree_keys P nxt ts : chain P nxt ts -> Forall (key_ok specs) (map fkey ts).
Proof using.
  intros Hc. destruct (children_facts specs ks cap _ _ _ Hc) as [Hn Ho]. apply Forall_map, Forall_forall. intros t Ht.
  by apply (fkey_ok specs ts Hn Ho).
Qed.

Lemma tree_id_ranges f P nxt ts : idx_rep [] f P -> chain P nxt ts -> Forall (in_u 64) (map tid ts).
Proof using.
  intros Hrep Hc. apply chain_Forall in Hc. apply Forall_map, (Forall_impl _ _ _ Hc). intros t [n Ht].
  destruct (tree_ids_in specs ks cap _ _ _ Ht (tid t) (tid_in_ids t)) as [pl Hp]. by eapply page_range.
Qed.

(** One more node. *)
Lemma add_node f P A ch B : idx_rep [] f P -> params specs ks cap f -> forest P (A ++ ch ++ B) -> ch <> [] -> zlen ch <= cap + 1 ->
  idx_next f + 1 < INVALID_PAGE_ID ->
  exists f' P' nid, idx_rep [] f' P' /\ fields f' = fields f /\ idx_next f' = idx_next f + 1 /\
    forest P' (A ++ TNode nid ch :: B) /\ fkey (TNode nid ch) = from_option fkey [] (head ch) /\
    forall (R : Type) (k : Z -> M R), (nid ← idx_reserve_page_id;
      let np := payload (reset page_init nid) in
      let np := init_hdr np IDX_PAGE_INTERNAL 0 (wrap 16 (zlen ch - 1)) cap in
      let np := fill INDEX_PAGE_HDR_SIZE 8 0 (map (fun le => le_bytes 8 le.1) (map lv ch)) np in
      let np := fill (internal_key_at ks cap 0) ks 0 (map snd (tail (map lv ch))) np in
      _ ← write_new nid np;
      k nid) f = k nid f'.
Proof using Hgeo.
  intros Hrep Hpar [Hch Hnd] Hne Hn Hroom. destruct (next_range _ _ _ Hrep) as [Hnr Hn1].
  pose proof (proj1 (chain_app specs ks cap _ _ _ _) Hch) as [_ Hcb]. pose proof (proj1 (chain_app specs ks cap _ _ _ _) Hcb) as [Hcc _].
  destruct (reserve_rep _ _ _ Hrep Hroom) as (f1 & Hrs & Hr1 & Hnone & Hf1 & Hnx1 & _).
  pose proof (new_node_page (payload (reset page_init (idx_next f))) ch (proj1 (fresh_payload _)) (proj2 (fresh_payload _)) Hne Hn
    (tree_keys _ _ _ Hcc) (tree_id_ranges _ _ _ _ Hrep Hcc)) as Hnode.
  set (np := fill (internal_key_at ks cap 0) _ _ _ _) in Hnode.
  destruct (write_new_rep _ _ _ Hr1 (idx_next f) np) as (f2 & Hwn & Hr2 & Hf2 & Hnx2 & _);
    [lia|done|apply (nr_len _ _ _ _ _ _ Hnode)|apply (nr_bytes _ _ _ _ _ _ Hnode)|].
  exists f2, (<[idx_next f := np]> P), (idx_next f). split; [done|]. split; [congruence|]. split; [lia|].
  assert (Hnot : idx_next f ∉ forest_ids (A ++ ch ++ B)) by (intros Hin; destruct (forest_ids_in _ _ _ _ Hch Hin); congruence).
  destruct ch as [|c ch]; [done|]. split; [|split].
  - split; [by apply group_chain|]. rewrite group_ids. by apply NoDup_cons.
  - apply fkey_node. destruct Hcc as [Hc _]. by eapply entries_nonempty.
  - intros R k. rewrite (bind_ok _ _ _ _ _ Hrs). cbv zeta. fold np. by rewrite (bind_ok _ _ _ _ _ Hwn).
Qed.

Lemma group_entries A ch B nid : forest_entries (A ++ TNode nid ch :: B) = forest_entries (A ++ ch ++ B).
Proof using. unfold forest_entries. rewrite !map_app, !concat_app. done. Qed.

Lemma build_level_ok fuel : forall A todo f P, idx_rep [] f P -> params specs ks cap f -> forest P (A ++ todo) ->
  (length todo <= fuel)%nat -> idx_next f + zlen todo + 1 < INVALID_PAGE_ID ->
  exists f' P' new, build_level fuel (map lv todo) (map lv A) f = Some (Ok (map lv (A ++ new)), f') /\
    idx_rep [] f' P' /\ fields f' = fields f /\ forest P' (A ++ new) /\
    forest_entries (A ++ new) = forest_entries (A ++ todo) /\
    2 * zlen new <= zlen todo + 1 /\ (todo <> [] -> new <> []) /\ idx_next f' = idx_next f + zlen new.
Proof using Hgeo.
  pose proof (g_cap _ _ _ Hgeo) as Hcap.
  induction fuel as [|fuel IH]; intros A todo f P Hrep Hpar Hfor Hfuel Hroom.
  - destruct todo; [|cbn in Hfuel; lia]. exists f, P, []. split; [by rewrite app_nil_r|]. split_and!; try done; unfold zlen; cbn; lia.
  - destruct todo as [|t0 todo0] eqn:Htodo.
    { exists f, P, []. split; [by rewrite app_nil_r|]. split_and!; try done; unfold zlen; cbn; lia. }
    rewrite <- Htodo in *. assert (Hz : 1 <= zlen todo) by (rewrite Htodo, zlen_cons; pose proof (zlen_nonneg todo0); lia).
    set (nc := Z.min (cap + 1) (zlen todo)). set (ch := take (Z.to_nat nc) todo). set (rest := drop (Z.to_nat nc) todo).
    assert (Hzc : zlen ch = nc) by (unfold ch, zlen in *; rewrite length_take; lia).
    assert (Hzr : zlen rest = zlen todo - nc) by (unfold rest, zlen in *; rewrite length_drop; lia).
    assert (Hsplit : todo = ch ++ rest) by (symmetry; apply take_drop).
    assert (Hhead : head ch = Some t0) by (unfold ch; rewrite Htodo; destruct (Z.to_nat nc) eqn:E; [lia|done]).
    assert (Hcne : ch <> []) by (intros Hc; by rewrite Hc in Hhead).
    rewrite Hsplit in Hfor. destruct (add_node f P A ch rest Hrep Hpar Hfor Hcne) as (f1 & P1 & nid & Hr1 & Hf1 & Hn1 & Hfor1 & Hfk & Hrun); [lia|lia|].
    rewrite cons_middle, app_assoc in Hfor1.
    destruct (IH (A ++ [TNode nid ch]) rest f1 P1 Hr1 (params_fields specs ks cap f f1 Hf1 Hpar) Hfor1)
      as (f2 & P2 & new & Hrun2 & Hr2 & Hf2 & Hfor2 & Hen2 & Hl2 & _ & Hn2).
    + unfold zlen in *. lia.
    + lia.
    + exists f2, P2, (TNode nid ch :: new). rewrite <- app_assoc in Hrun2, Hfor2, Hen2. cbn [app] in Hrun2, Hfor2, Hen2.
      split_and!; [|done|congruence|done| | |done|rewrite zlen_cons; lia].
      * rewrite Htodo. change (map lv (t0 :: todo0)) with ((tid t0, fkey t0) :: map lv todo0). cbn [build_level].
        change ((tid t0, fkey t0) :: map lv todo0) with (map lv (t0 :: todo0)). rewrite <- Htodo.
        destruct Hpar as (Hc1 & Hc2 & Hc3). rewrite !gets_bind, Hc2, Hc3. cbv zeta.
        rewrite zlen_map. fold nc. rewrite firstn_map, skipn_map. fold ch rest. rewrite <- Hzc, Hrun, <- Hrun2.
        rewrite map_app. cbn [map]. replace (lv (TNode nid ch)) with (nid, fkey t0); [done|]. unfold lv. by rewrite Hfk, Hhead.
      * rewrite Hen2, <- app_assoc. cbn [app]. rewrite group_entries. by rewrite <- Hsplit.
      * rewrite zlen_cons. destruct (Z.le_gt_cases (zlen todo) (cap + 1)).
        -- assert (rest = []) as Hnil by (apply length_zero_iff_nil; unfold zlen in *; lia). rewrite Hnil in Hl2.
           change (zlen (@nil tree)) with 0 in Hl2. lia.
        -- lia.
Qed.

Lemma build_levels_ok fuel : forall ts f P, idx_rep [] f P -> params specs ks cap f -> forest P ts -> ts <> [] ->
  (length ts <= fuel)%nat -> idx_next f + 3 * zlen ts < INVALID_PAGE_ID ->
  exists f' P' t, build_levels fuel (map lv ts) f = Some (Ok [lv t], f') /\ idx_rep [] f' P' /\ fields f' = fields f /\
    forest P' [t] /\ entries t = forest_entries ts.
Proof using Hgeo.
  assert (Hone : forall t fuel f P, idx_rep [] f P -> forest P [t] ->
    exists f' P' t', build_levels fuel (map lv [t]) f = Some (Ok [lv t'], f') /\ idx_rep [] f' P' /\ fields f' = fields f /\
      forest P' [t'] /\ entries t' = forest_entries [t]).
  { intros t fuel0 f P Hrep Hfor. exists f, P, t. split; [by destruct fuel0|]. split_and!; try done.
    unfold forest_entries. cbn. by rewrite app_nil_r. }
  induction fuel as [|fuel IH]; intros ts f P Hrep Hpar Hfor Hne Hfuel Hroom;
    [destruct ts; [done|cbn in Hfuel; lia]|].
  destruct ts as [|t ts]; [done|]. destruct ts as [|t1 ts]; [by apply (Hone t (S fuel) f P)|].
  cbn [build_levels]. set (l := t :: t1 :: ts) in *. assert (Hz : 2 <= zlen l) by (unfold l; rewrite !zlen_cons; pose proof (zlen_nonneg ts); lia).
  rewrite zlen_map. replace (zlen l >? 1) with true by (symmetry; apply Z.gtb_lt; lia). rewrite length_map.
  destruct (build_level_ok (length l) [] l f P Hrep Hpar Hfor (le_n _)) as (f1 & P1 & new & Hrun & Hr1 & Hf1 & Hfor1 & Hen1 & Hl1 & Hnn & Hn1); [lia|].
  rewrite (bind_ok _ _ _ _ _ Hrun). cbn [app] in *.
  destruct (IH new f1 P1 Hr1 (params_fields specs ks cap f f1 Hf1 Hpar) Hfor1 (Hnn Hne)) as (f2 & P2 & t' & Hrun2 & Hr2 & Hf2 & Hfor2 & Hen2).
  - unfold zlen in *. lia.
  - lia.
  - exists f2, P2, t'. rewrite Hrun2. split_and!; try done; congruence.
Qed.

(** ** The whole *)

Lemma bulk_build_ok f P es : idx_rep [] f P -> params specs ks cap f -> es <> [] -> Forall (entry_ok specs) es ->
  sorted_entries specs es -> idx_next f + 5 * zlen es < INVALID_PAGE_ID ->
  exists f' n, bulk_build es f = Some (Ok tt, f') /\ index_rep specs ks cap n f' es /\
    is_unique_ f' = is_unique_ f /\ entry_count_ f' = zlen es.
Proof using Hgeo.
  intros Hrep Hpar Hne Hok Hs Hroom. pose proof (g_cap _ _ _ Hgeo) as Hcap.
  assert (Hz : 1 <= zlen es) by (destruct es; [done|rewrite zlen_cons; pose proof (zlen_nonneg es); lia]).
  unfold bulk_build. destruct es as [|e0 es0] eqn:Hes; [done|]. rewrite <- Hes in *.
  destruct (set_dirty_rep specs ks cap f P true Hrep) as (f1 & Hd & Hr1 & _ & Hu1 & Hp1 & Hn1 & _). rewrite (bind_ok _ _ _ _ _ Hd).
  pose proof (Hp1 Hpar) as Hpar1. pose proof Hpar1 as (_ & _ & Hc3). rewrite gets_bind, Hc3.
  assert (Hfill : 1 <= Z.max 1 (cap * 3 / 4) <= cap) by zlia.
  destruct (build_leaves_ok (length es) _ es [] INVALID_PAGE_ID f1 P Hfill Hr1 Hpar1) as (f2 & P2 & ts & Hrun2 & Hr2 & Hf2 & Hfor2 & Hen2 & Hl2 & Hts & Hn2);
    [by split; [|constructor]|by left|done|done|lia|].
  cbn [map app] in Hrun2, Hfor2. cbv zeta. rewrite (bind_ok _ _ _ _ _ Hrun2).
  pose proof (params_fields specs ks cap f1 f2 Hf2 Hpar1) as Hpar2. rewrite length_map.
  destruct (build_levels_ok (length ts) ts f2 P2 Hr2 Hpar2 Hfor2 (Hts Hne) (le_n _)) as (f3 & P3 & t & Hrun3 & Hr3 & Hf3 & [Hch3 Hnd3] & Hen3); [lia|].
  rewrite (bind_ok _ _ _ _ _ Hrun3). unfold lv at 1. cbv iota beta.
  destruct Hch3 as [Ht3 _]. cbn [after] in Ht3. unfold forest_ids in Hnd3. cbn [map concat] in Hnd3. rewrite app_nil_r in Hnd3.
  destruct (tree_ids_in specs ks cap _ _ _ Ht3 (tid t) (tid_in_ids t)) as [pl Hp].
  destruct (set_flags_tree specs ks cap Hgeo P3 INVALID_PAGE_ID t pl (Z.lor (hdr_flags pl) IDX_FLAG_IS_ROOT) Ht3 Hnd3 Hp) as (Ht4 & Hl4 & Hb4).
  destruct (with_handle_rep [] f3 P3 (tid t) pl (fun h => rh ← deref h;
      store_page h (set_hdr_flags (payload rh) (Z.lor (hdr_flags (payload rh)) IDX_FLAG_IS_ROOT)))
    (fun r f4 P4 => r = Ok tt /\ P4 = <[tid t := set_hdr_flags pl (Z.lor (hdr_flags pl) IDX_FLAG_IS_ROOT)]> P3 /\ fields f4 = fields f3))
    as (r & f4 & P4 & pool & Hw & Hr4 & -> & -> & Hf4); [done|done|done| |].
  { intros h pool Hrh Hh. destruct (store_page_rep _ _ _ Hrh h (tid t) pl _ Hh Hp Hl4 Hb4) as (f4 & Hst & Hr4 & _ & Hf4 & _).
    eexists _, f4, _. split; [|split; [exact Hr4|split; [reflexivity|split; [reflexivity|done]]]].
    apply (deref_bind _ _ _ _ _ _ Hh). intros pg ->. exact Hst. }
  rewrite (bind_ok _ _ _ _ _ Hw). set (g := with_count (with_root (set_idx_pool f4 pool) (tid t)) (zlen es)).
  exists g, (Z.to_nat (idx_next g)). split; [reflexivity|].
  assert (Hff : fields f4 = fields f1) by congruence. unfold fields in Hff.
  assert (Hrg : idx_rep [] g (<[tid t := set_hdr_flags pl (Z.lor (hdr_flags pl) IDX_FLAG_IS_ROOT)]> P3))
    by (apply (fields_rep _ _ _ Hr4); reflexivity).
  destruct (next_range _ _ _ Hrg) as [_ Hg1].
  split; [|split; [unfold g; cbn; congruence|done]]. split; [|split; [nia|]].
  - destruct Hpar1 as (? & ? & ?). unfold params, g. cbn. split_and!; congruence.
  - eexists. split; [exact Hrg|]. right. exists t. split; [done|]. split; [done|]. split; [done|].
    assert (He : entries t = es) by congruence. split; [done|]. split; [done|].
    pose proof (depth_pages specs ks cap g _ t _ Hrg Ht4 Hnd3). lia.
Qed.

End bulk.
