(* ===== verification/BTreeReopen.v ===== *)
(** * Closing, reopening and rebuilding an index

    [flush] marks the file clean and writes the metadata page; [open] on the file then finds
    the same columns, the same tree and the same entries.  [reset_tree] empties the file for a
    rebuild, which is [reset_tree], [bulk_build] and [flush]
    ([Catalog::rebuild_index_], src/src/catalog/catalog.cpp). *)

From S2P Require Import Prelude Types XXHash Page LruK BufferPool IndexFile BTreeNode BTreeLayout BTree BTreeInsert BTreeIndex BTreeBulk.

(** The calls of [rebuild_index_] on the index, with the sorted entries that [bulk_build_index_]
    collects. *)
Definition rebuild_tree (entries : list entry) : M unit :=
  _ ← reset_tree;
  _ ← bulk_build entries;
  idx_flush.

(** ** Columns in the metadata page *)

(** The fields of a column spec fit their widths. *)
Definition spec_wf (s : IndexColSpec) : Prop := type_named (is_type s) /\ is_byte (is_reserved s) /\ in_u 16 (is_max_len s).

Lemma spec_at_slice pl i s : spec_wf s -> 0 <= i -> slice (META_SIZE + i * 4) 4 pl = spec_bytes s -> spec_at pl i = s.
Proof.
  intros (Ht & Hr & Hm) Hi Hs. unfold spec_at. set (o := META_SIZE + i * 4) in *.
  assert (Ho : 0 <= o) by (unfold o, META_SIZE; lia).
  replace (slice (o + 2) 2 pl) with (slice 2 2 (slice o 4 pl)) by (rewrite slice_slice by lia; f_equal; lia).
  replace (znth pl o) with (znth (slice o 4 pl) 0) by (rewrite znth_slice by lia; f_equal; lia).
  replace (znth pl (o + 1)) with (znth (slice o 4 pl) 1) by (rewrite znth_slice by lia; f_equal; lia).
  rewrite Hs. unfold spec_bytes. rewrite !le_bytes_S. cbn [le_bytes seq map app znth Z.to_nat].
  pose proof (type_code_range _ Ht) as Hc. unfold in_u in Hc, Hr. change (2 ^ 8) with 256 in Hc, Hr.
  change (slice 2 2 _) with [is_max_len s mod 256; is_max_len s / 256 mod 256].
  change (znth _ 0) with (type_code (is_type s) mod 256). change (znth _ 1) with (is_reserved s mod 256).
  rewrite !(Z.mod_small (type_code _)), !(Z.mod_small (is_reserved _)), type_of_code_code by done.
  assert (Hv : le_val [is_max_len s mod 256; is_max_len s / 256 mod 256] = is_max_len s).
  { pose proof (le_val_bytes 2 (is_max_len s) Hm) as H. rewrite !le_bytes_S in H. exact H. }
  rewrite Hv. by destruct s.
Qed.

Lemma specs_read pl cols cis u : Forall spec_wf cols -> meta_static cols cis u pl ->
  znth pl 6 = zlen cols /\ negb (znth pl 5 =? 0) = u /\
  map (fun i => spec_at pl (Z.of_nat i)) (seq 0 (Z.to_nat (zlen cols))) = cols /\
  slice (META_SIZE + zlen cols * 4) (zlen cols) pl = cis.
Proof.
  intros Hwf (_ & H2 & H3 & H4 & H5). pose proof (zlen_nonneg cols).
  assert (Hzs : zlen (concat (map spec_bytes cols)) = zlen cols * 4).
  { rewrite (zlen_concat 4), zlen_map; [done|]. apply Forall_map, Forall_true. intros s. unfold spec_bytes. by rewrite !zlen_app, !zlen_le_bytes. }
  split_and!.
  - replace (znth pl 6) with (znth (slice 5 2 pl) 1) by (rewrite znth_slice by lia; done). by rewrite H2.
  - replace (znth pl 5) with (znth (slice 5 2 pl) 0) by (rewrite znth_slice by lia; done). rewrite H2. by destruct u.
  - apply list_eq. intros i. rewrite list_lookup_fmap. unfold zlen. rewrite Nat2Z.id.
    destruct (cols !! i) as [s|] eqn:Hs.
    + pose proof (lookup_lt_Some _ _ _ Hs) as Hlt. rewrite lookup_seq_lt by done. cbn. f_equal.
      apply spec_at_slice; [by apply (Forall_lookup_1 _ _ _ _ Hwf Hs)|lia|].
      replace (slice (META_SIZE + Z.of_nat i * 4) 4 pl) with (slice (Z.of_nat i * 4) 4 (slice META_SIZE (zlen cols * 5) pl))
        by (rewrite slice_slice by (unfold META_SIZE, zlen in *; lia); done).
      rewrite H3. transitivity (slice (Z.of_nat i * 4) 4 (concat (map spec_bytes cols))).
      * unfold slice, zlen in *. rewrite drop_app_le, take_app_le by (rewrite ?length_drop; lia). done.
      * apply (slice_concat 4); [lia| |lia|by rewrite Nat2Z.id, list_lookup_fmap, Hs].
        apply Forall_map, Forall_true. intros s'. unfold spec_bytes. by rewrite !zlen_app, !zlen_le_bytes.
    + rewrite lookup_seq_ge; [done|]. by apply lookup_ge_None in Hs.
  - replace (slice (META_SIZE + zlen cols * 4) (zlen cols) pl) with (slice (zlen cols * 4) (zlen cols) (slice META_SIZE (zlen cols * 5) pl))
      by (rewrite slice_slice by (unfold META_SIZE; lia); done).
    rewrite H3, <- Hzs. replace (zlen (concat (map spec_bytes cols))) with (zlen (concat (map spec_bytes cols)) + 0) by lia.
    rewrite slice_app_r by lia. rewrite <- H4. unfold slice, zlen. rewrite Nat2Z.id. cbn [Z.to_nat]. by rewrite drop_0, take_ge.
Qed.

(** ** Opening *)

Lemma page_on_bounds d id pl : 0 <= id -> page_on d id pl -> (id + 1) * PAGE_SIZE <= zlen (content d).
Proof. intros H0 (_ & Hl & _). apply (stored_window d id) in Hl; [|done]. unfold offset in Hl. rewrite PAGE_SIZE_eq in *. lia. Qed.

(** The same file content seen through a new disk manager. *)
Lemma page_on_reopen d id pl : 0 <= id -> page_on d id pl -> page_on (disk_open (content d)) id pl.
Proof.
  intros H0 Hon. pose proof (page_on_bounds d id pl H0 Hon) as Hb. destruct Hon as (_ & H2).
  split; [|exact H2]. cbn [disk_open next_page_id_]. rewrite PAGE_SIZE_eq in *.
  apply Z.lt_le_trans with (id + 1); [lia|]. apply Z.div_le_lower_bound; lia.
Qed.

Lemma page_on_read_payload d id pl : Forall is_byte (content d) -> 0 <= id -> page_on d id pl ->
  exists pg, read_page d id page_init = (Ok tt, pg) /\ payload pg = pl /\ page_wf pg /\ page_id pg = id.
Proof.
  intros Hb H0 Hon. pose proof page_init_wf as Hwf.
  destruct (page_on_read d id pl page_init Hon Hwf) as (pg & Hr). exists pg. split; [done|].
  destruct (read_page_on _ _ _ _ Hwf Hr) as [Hid Hon']. split; [by apply (page_on_inj _ _ _ _ Hon')|]. split; [|done].
  apply read_page_ok_iff in Hr; [|done]. cbv zeta in Hr. destruct Hr as (_ & Hg & -> & _). split; [exact Hg|].
  cbn [data set_data]. rewrite pread_slice. by apply Forall_slice.
Qed.

Section reopen.
Context (specs : list IndexColSpec) (ks cap : Z).
Hypothesis Hgeo : geometry specs ks cap.
Hypothesis Hwf : Forall spec_wf specs.
Hypothesis Hcap : cap = index_node_capacity ks.

(** A file whose metadata page on disk is the one in memory. *)
Lemma idx_open_ok n f es root count : index_rep specs ks cap n f es -> root_page_id_ f = root -> entry_count_ f = count ->
  page_on (idx_disk f) 0 (payload (meta_page_ f)) ->
  slice 4 1 (payload (meta_page_ f)) = le_bytes 1 (if dirty_ f then 1 else 0) ->
  slice 8 8 (payload (meta_page_ f)) = le_bytes 8 root -> slice 16 8 (payload (meta_page_ f)) = le_bytes 8 count ->
  exists f2, idx_open (content (idx_disk f)) = Ok f2 /\ index_rep specs ks cap n f2 es /\
    is_unique_ f2 = is_unique_ f /\ dirty_ f2 = dirty_ f /\ entry_count_ f2 = wrap 64 count /\ col_indices_ f2 = col_indices_ f.
Proof using Hgeo Hwf Hcap.
  intros ((Hc1 & Hc2 & Hc3) & Hpg & P & Hrep & Ht) Hroot Hcount Hon H4 H8 H16.
  destruct (ir_meta _ _ _ Hrep) as (_ & _ & Hst). rewrite Hc1 in Hst. set (m := payload (meta_page_ f)) in *.
  pose proof (ir_bytes _ _ _ Hrep) as Hb. pose proof (page_on_reopen _ _ _ (Z.le_refl 0) Hon) as Hon'.
  destruct (page_on_read_payload (disk_open (content (idx_disk f))) 0 m Hb (Z.le_refl 0) Hon') as (meta & Hrd & Hm & Hwfm & Hidm).
  destruct (specs_read m specs _ _ Hwf Hst) as (S1 & S2 & S3 & S4). pose proof Hst as (S5 & _).
  pose proof (page_on_bounds _ _ _ (Z.le_refl 0) Hon) as Hsz. destruct (ir_size _ _ _ Hrep) as (k & Hk & Hle).
  set (d := disk_open (content (idx_disk f))) in *. set (cis := col_indices_ f) in *.
  assert (Hnext : 1 <= next_page_id_ d <= next_page_id_ (idx_disk f)).
  { unfold d. cbn [disk_open next_page_id_]. rewrite PAGE_SIZE_eq in *. split.
    - apply Z.div_le_lower_bound; lia.
    - rewrite Hk, Z.div_mul; lia. }
  assert (Hr64 : in_u 64 root).
  { rewrite <- Hroot. destruct Ht as [[-> _]|(t & -> & Ht & _)]; [unfold in_u; lia|].
    destruct (tree_ids_in specs ks cap _ _ _ Ht (tid t) (tid_in_ids t)) as [pl Hp]. by eapply page_range. }
  set (f2 := mkIdx d idx_new_pool specs cis (is_unique_ f) root (wrap 64 count) (dirty_ f) ks cap meta).
  exists f2. split.
  - unfold idx_open. fold d. unfold page_count. rewrite (proj2 (Z.eqb_neq _ _)) by lia. rewrite Hrd, Hm. cbv zeta iota beta.
    rewrite S5, S1, S2, S3, S4, H8, H16. rewrite <- (le_bytes_wrap 8 count).
    rewrite !(le_val_bytes 8), (le_val_bytes 4) by (done || (apply wrap_range; lia) || (unfold in_u, INDEX_FILE_MAGIC; lia)).
    rewrite Z.eqb_refl. cbn [negb]. rewrite <- (g_key _ _ _ Hgeo), <- Hcap.
    replace (negb (znth m 4 =? 0)) with (dirty_ f); [done|].
    replace (znth m 4) with (znth (slice 4 1 m) 0) by (rewrite znth_slice by lia; done). rewrite H4. by destruct (dirty_ f).
  - split; [|done]. split; [done|]. split; [unfold idx_next in *; cbn [idx_disk f2]; lia|]. exists P.
    split; [|cbn [root_page_id_ f2]; by rewrite Hroot in Ht].
    split; cbn [idx_disk idx_pool meta_page_ cols_ col_indices_ is_unique_ f2].
    + exact Hb.
    + pose proof (ir_next _ _ _ Hrep). lia.
    + intros id pl Hp. destruct (ir_pages _ _ _ Hrep _ _ Hp). split; [done|]. apply page_on_reopen; [lia|done].
    + apply lruk_pool_inv; [lia|unfold in_u, INDEX_POOL_CAPACITY; lia].
    + intros id. reflexivity.
    + intros id s Hs. change (page_table_ idx_new_pool) with (∅ : gmap Z Z) in Hs. by rewrite lookup_empty in Hs.
    + split; [done|]. split; [done|]. by rewrite Hm.
    + exists k. split; [exact Hk|]. unfold d. cbn [disk_open next_page_id_]. rewrite Hk, Z.div_mul; [done|rewrite PAGE_SIZE_eq; lia].
Qed.

(** [flush]: the metadata page on disk is up to date and clean. *)
Lemma idx_flush_ok n f es : index_rep specs ks cap n f es ->
  exists f', idx_flush f = Some (Ok tt, f') /\ index_rep specs ks cap n f' es /\ is_unique_ f' = is_unique_ f /\
    dirty_ f' = false /\ entry_count_ f' = entry_count_ f /\
    exists f2, idx_open (content (idx_disk f')) = Ok f2 /\ index_rep specs ks cap n f2 es /\ is_unique_ f2 = is_unique_ f /\
      dirty_ f2 = false /\ entry_count_ f2 = wrap 64 (entry_count_ f) /\ col_indices_ f2 = col_indices_ f.
Proof using Hgeo Hwf Hcap.
  intros (Hpar & Hpg & P & Hrep & Ht). pose proof Hpar as (Hc1 & Hc2 & Hc3).
  assert (Hrep1 : idx_rep [] (with_dirty f false) P) by (apply (fields_rep _ _ _ Hrep); reflexivity).
  destruct (write_meta_rep _ _ _ Hrep1) as (f' & Hw & Hr & H1 & H2 & H3 & H4 & H5 & H6 & H7 & H8 & Hon & H9 & Hpl).
  cbn [with_dirty root_page_id_ entry_count_ is_unique_ cols_ key_size_ node_capacity dirty_ col_indices_ meta_page_] in H1, H2, H3, H4, H5, H6, H7, H9, Hpl.
  assert (Hir : index_rep specs ks cap n f' es).
  { split; [unfold params; split_and!; congruence|]. split; [rewrite H8; exact Hpg|]. exists P. split; [exact Hr|]. by rewrite H1. }
  exists f'. split; [exact Hw|]. split; [exact Hir|]. split; [exact H3|]. split; [exact H7|]. split; [exact H2|].
  pose proof (payload_len _ (proj1 (ir_meta _ _ _ Hrep))) as Hl. set (m := payload (meta_page_ f)) in *.
  assert (Hp : 24 <= zlen m) by (rewrite Hl; unfold PAGE_PAYLOAD_SIZE, PAGE_HEADER_SIZE; rewrite PAGE_SIZE_eq; lia).
  set (m1 := splice 4 (le_bytes 1 0) m) in *. set (m2 := splice 8 (le_bytes 8 (root_page_id_ f)) m1) in *.
  assert (Z1 : zlen m1 = zlen m) by (unfold m1; apply zlen_splice; rewrite ?zlen_le_bytes; lia).
  assert (Z2 : zlen m2 = zlen m) by (unfold m2; rewrite zlen_splice; rewrite ?zlen_le_bytes; lia).
  destruct (idx_open_ok n f' es (root_page_id_ f) (entry_count_ f) Hir H1 H2 Hon) as (f2 & Ho & Hir2 & Hu2 & Hd2 & He2 & Hci2).
  - rewrite Hpl, H7. rewrite slice_splice_before by lia. unfold m2. rewrite slice_splice_before by lia. unfold m1.
    apply slice_splice_same; rewrite ?zlen_le_bytes; lia.
  - rewrite Hpl, slice_splice_before by lia. unfold m2. apply slice_splice_same; rewrite ?zlen_le_bytes; lia.
  - rewrite Hpl. apply slice_splice_same; rewrite ?zlen_le_bytes; lia.
  - exists f2. split; [exact Ho|]. split; [exact Hir2|]. split_and!; congruence.
Qed.

(** ** Rebuilding *)

Lemma reset_tree_ok n f es : index_rep specs ks cap n f es ->
  exists f', reset_tree f = Some (Ok tt, f') /\ index_rep specs ks cap 0 f' [] /\ is_unique_ f' = is_unique_ f /\ dirty_ f' = false.
Proof using.
  intros (Hpar & _ & P & Hrep & _). pose proof Hpar as (Hc1 & Hc2 & Hc3). unfold reset_tree. cbn [truncate].
  set (d := mkDisk 1 _). set (g := set_idx_pool (with_dirty (with_count (with_root (set_idx_disk f d) 0) 0) false) idx_new_pool).
  assert (Hg : idx_rep [] g ∅).
  { destruct (ir_size _ _ _ Hrep) as (k & Hk & Hle). pose proof (zlen_nonneg (content (idx_disk f))).
    split; cbn [g idx_disk idx_pool meta_page_ cols_ col_indices_ is_unique_ set_idx_pool with_dirty with_count with_root set_idx_disk].
    - unfold d. cbn [content]. apply Forall_app. split; [apply Forall_take, (ir_bytes _ _ _ Hrep)|auto with nyx].
    - unfold d. cbn [next_page_id_]. unfold INVALID_PAGE_ID. lia.
    - intros id pl Hp. by rewrite lookup_empty in Hp.
    - apply lruk_pool_inv; [lia|unfold in_u, INDEX_POOL_CAPACITY; lia].
    - intros id. reflexivity.
    - intros id s Hs. change (page_table_ idx_new_pool) with (∅ : gmap Z Z) in Hs. by rewrite lookup_empty in Hs.
    - apply (ir_meta _ _ _ Hrep).
    - exists 1. split; [|done]. unfold d. cbn [content]. rewrite zlen_app. unfold zlen at 1. rewrite length_take.
      rewrite PAGE_SIZE_eq in *. destruct (Z.le_gt_cases 1 k).
      + replace (zeros _) with (@nil Z); [unfold zlen in *; cbn [length]; lia|]. unfold zeros. by replace (Z.to_nat _) with O by lia.
      + rewrite zlen_zeros by lia. unfold zlen in *. lia. }
  destruct (write_meta_rep _ _ _ Hg) as (f' & Hw & Hr & H1 & H2 & H3 & H4 & H5 & H6 & H7 & H8 & _).
  exists f'. split; [exact Hw|]. split; [|split; [exact H3|exact H7]].
  split; [unfold params; rewrite H4, H5, H6; exact Hpar|]. split; [rewrite H8; cbn; lia|]. exists ∅. split; [exact Hr|]. left.
  split; [exact H1|done].
Qed.

Lemma rebuild_ok n f es0 es : index_rep specs ks cap n f es0 -> Forall (entry_ok specs) es -> sorted_entries specs es ->
  1 + 5 * zlen es < INVALID_PAGE_ID ->
  exists f' n', rebuild_tree es f = Some (Ok tt, f') /\ index_rep specs ks cap n' f' es /\ is_unique_ f' = is_unique_ f /\ dirty_ f' = false.
Proof using Hgeo Hwf Hcap.
  intros Hrep Hok Hs Hroom. destruct (reset_tree_ok n f es0 Hrep) as (f1 & Hr1 & Hrep1 & Hu1 & Hd1).
  unfold rebuild_tree. rewrite (bind_ok _ _ _ _ _ Hr1).
  assert (Hb : exists f2 n2, bulk_build es f1 = Some (Ok tt, f2) /\ index_rep specs ks cap n2 f2 es /\ is_unique_ f2 = is_unique_ f1).
  { destruct es as [|e es]; [by exists f1, O|]. destruct Hrep1 as (Hpar1 & Hpg1 & P1 & Hi1 & _).
    destruct (bulk_build_ok specs ks cap Hgeo f1 P1 (e :: es) Hi1 Hpar1) as (f2 & n2 & Hrun & Hir & Hu & _); [done|done|done|lia|by exists f2, n2]. }
  destruct Hb as (f2 & n2 & Hr2 & Hrep2 & Hu2). rewrite (bind_ok _ _ _ _ _ Hr2).
  destruct (idx_flush_ok n2 f2 es Hrep2) as (f3 & Hr3 & Hrep3 & Hu3 & Hd3 & _). exists f3, n2. split_and!; try done; congruence.
Qed.

End reopen.
