(* ===== verification/BTreeSpec.v ===== *)
(** * What an index promises to its users

    The index as a sorted list of rows keyed by column values: NULL first, numbers by size,
    strings by the bytes that the column keeps.  Insertion, scans and whole runs of a new index
    are equal to the operations on that list.  Scans with bounds and a deletion bitmap are
    those of the [IndexScan] operator (src/src/executor/index_scan.cpp). *)

From stdpp Require Import sorting.
From S2P Require Import Prelude Types Page LruK BufferPool IndexFile BTreeNode BTreeLayout BTree BTreeInsert BTreeIndex BTreeScan BTreeBulk BTreeReopen.

(** ** A new index *)

Lemma zlen_spec_bytes s : zlen (spec_bytes s) = 4.
Proof. unfold spec_bytes. by rewrite !zlen_app, !zlen_le_bytes. Qed.

Lemma zlen_specs cols : zlen (concat (map spec_bytes cols)) = zlen cols * 4.
Proof. rewrite (zlen_concat 4), zlen_map; [done|]. apply Forall_map, Forall_true, zlen_spec_bytes. Qed.

(** Writes inside a payload keep its size. *)
Definition sized (pl : bytes) : Prop := zlen pl = PAGE_PAYLOAD_SIZE /\ Forall is_byte pl.

Lemma sized_splice off src pl : sized pl -> 0 <= off -> off + zlen src <= PAGE_PAYLOAD_SIZE -> Forall is_byte src ->
  sized (splice off src pl).
Proof. intros [Hl Hb] Ho Hf Hs. split; [rewrite zlen_splice; lia|by apply Forall_splice]. Qed.

Lemma meta_payload_ok pl cols cis u : sized pl -> Forall is_byte cis ->
  zlen cis = zlen cols -> META_SIZE + zlen cols * 5 <= PAGE_PAYLOAD_SIZE -> sized (meta_payload pl cols cis u).
Proof.
  intros Hpl Hc Hn Hfit. unfold meta_payload, META_SIZE in *. pose proof (zlen_nonneg cols).
  pose proof (zlen_specs cols) as Hs.
  assert (Hsb : Forall is_byte (concat (map spec_bytes cols))).
  { apply Forall_concat, Forall_map, Forall_true. intros s. unfold spec_bytes. rewrite !Forall_app. auto with nyx. }
  do 2 (apply sized_splice; [|lia|lia|done]).
  do 7 (apply sized_splice; [|lia|rewrite zlen_le_bytes; lia|auto with nyx]). exact Hpl.
Qed.

Lemma meta_payload_static pl cols cis u : sized pl -> zlen cis = zlen cols -> zlen cols < 256 ->
  META_SIZE + zlen cols * 5 <= PAGE_PAYLOAD_SIZE -> meta_static cols cis u (meta_payload pl cols cis u).
Proof.
  intros [Hl _] Hn Hlt Hfit. pose proof (zlen_nonneg cols). pose proof (zlen_specs cols) as Hs. unfold meta_payload, META_SIZE in *.
  set (p1 := splice 0 (le_bytes 4 INDEX_FILE_MAGIC) pl). set (p2 := splice 4 (le_bytes 1 0) p1).
  set (p3 := splice 5 _ p2). set (p4 := splice 6 _ p3). set (p5 := splice 7 (le_bytes 1 0) p4).
  set (p6 := splice 8 (le_bytes 8 0) p5). set (p7 := splice 16 (le_bytes 8 0) p6). set (p8 := splice 24 _ p7).
  assert (Z1 : zlen p1 = PAGE_PAYLOAD_SIZE) by (unfold p1; rewrite zlen_splice; rewrite ?zlen_le_bytes; lia).
  assert (Z2 : zlen p2 = PAGE_PAYLOAD_SIZE) by (unfold p2; rewrite zlen_splice; rewrite ?zlen_le_bytes; lia).
  assert (Z3 : zlen p3 = PAGE_PAYLOAD_SIZE) by (unfold p3; rewrite zlen_splice; rewrite ?zlen_le_bytes; lia).
  assert (Z4 : zlen p4 = PAGE_PAYLOAD_SIZE) by (unfold p4; rewrite zlen_splice; rewrite ?zlen_le_bytes; lia).
  assert (Z5 : zlen p5 = PAGE_PAYLOAD_SIZE) by (unfold p5; rewrite zlen_splice; rewrite ?zlen_le_bytes; lia).
  assert (Z6 : zlen p6 = PAGE_PAYLOAD_SIZE) by (unfold p6; rewrite zlen_splice; rewrite ?zlen_le_bytes; lia).
  assert (Z7 : zlen p7 = PAGE_PAYLOAD_SIZE) by (unfold p7; rewrite zlen_splice; rewrite ?zlen_le_bytes; lia).
  assert (Z8 : zlen p8 = PAGE_PAYLOAD_SIZE) by (unfold p8; rewrite zlen_splice; lia).
  split_and!; [| | |done|done].
  - rewrite slice_splice_before by lia. unfold p8. rewrite slice_splice_before by lia. unfold p7.
    rewrite slice_splice_before by lia. unfold p6. rewrite slice_splice_before by lia. unfold p5.
    rewrite slice_splice_before by lia. unfold p4. rewrite slice_splice_before by lia. unfold p3.
    rewrite slice_splice_before by lia. unfold p2. rewrite slice_splice_before by lia. unfold p1.
    apply slice_splice_same; rewrite ?zlen_le_bytes; lia.
  - rewrite slice_splice_before by lia. unfold p8. rewrite slice_splice_before by lia. unfold p7.
    rewrite slice_splice_before by lia. unfold p6. rewrite slice_splice_before by lia. unfold p5.
    rewrite slice_splice_before by lia. unfold p4, p3. set (b := if u then 1 else 0).
    change 6 with (5 + zlen (le_bytes 1 b)). rewrite splice_splice_app by (rewrite ?zlen_le_bytes; lia).
    rewrite slice_splice_same by (rewrite ?zlen_app, ?zlen_le_bytes; lia).
    rewrite !le_bytes_S, !Z.mod_small by (unfold b; destruct u; lia). done.
  - unfold p8. rewrite <- Hs. rewrite splice_splice_app by lia.
    apply slice_splice_same; rewrite ?zlen_app; lia.
Qed.

Lemma idx_create_ok cols cis u : cols <> [] -> zlen cis = zlen cols -> Forall is_byte cis ->
  index_node_capacity (compute_key_size cols) <> 0 -> zlen cols < 256 ->
  let ks := compute_key_size cols in let cap := index_node_capacity ks in
  exists f, idx_create [] cols cis u = Some (Ok f) /\ geometry cols ks cap /\ index_rep cols ks cap 0 f [] /\ is_unique_ f = u.
Proof.
  intros Hne Hlen Hb Hcap Hcols ks cap.
  assert (Hfit : META_SIZE + zlen cols * 5 <= PAGE_PAYLOAD_SIZE)
    by (unfold META_SIZE, PAGE_PAYLOAD_SIZE, PAGE_HEADER_SIZE; rewrite PAGE_SIZE_eq; lia).
  assert (Hks : 0 < ks).
  { unfold ks. destruct cols as [|s cols]; [done|]. rewrite compute_key_size_cons. unfold field_len.
    pose proof (compute_key_size_nonneg cols). pose proof (type_size_nonneg (is_type s) (is_max_len s)). lia. }
  set (meta0 := reset page_init 0). pose proof (page_wf_reset page_init 0) as Hwf0. fold meta0 in Hwf0.
  destruct (meta_payload_ok (payload meta0) cols cis u (conj (payload_len _ Hwf0) (payload_bytes _ Hwf0)) Hb Hlen Hfit) as [Hpl Hpb].
  set (meta := set_payload meta0 (meta_payload (payload meta0) cols cis u)).
  assert (Hwf : page_wf meta) by by apply set_payload_wf.
  assert (Hid : page_id meta = 0) by (unfold meta, meta0; rewrite page_id_set_payload by done; by apply page_id_reset).
  set (d := mkDisk 1 []).
  exists (mkIdx (written d meta 0) idx_new_pool cols cis u 0 0 false ks cap meta). split; [|split; [|split]].
  - unfold idx_create. rewrite (proj2 (Z.eqb_neq (zlen cols) 0)) by (destruct cols; [done|rewrite zlen_cons; pose proof (zlen_nonneg cols); lia]).
    rewrite Hlen, Z.eqb_refl. cbn [negb]. fold ks. rewrite (proj2 (Z.eqb_neq ks 0)) by lia. fold cap.
    rewrite (proj2 (Z.eqb_neq cap 0)) by done. cbv zeta.
    change (page_count (disk_open [])) with (0 / PAGE_SIZE). rewrite Z.div_0_l by (rewrite PAGE_SIZE_eq; lia). cbn [Z.gtb Z.compare].
    change (reserve_page_id (disk_open [])) with (0 / PAGE_SIZE, mkDisk (wrap 64 (0 / PAGE_SIZE + 1)) []).
    rewrite Z.div_0_l by (rewrite PAGE_SIZE_eq; lia). change (wrap 64 (0 + 1)) with 1. fold d meta0.
    replace (META_SIZE + zlen cols * 5 >? PAGE_PAYLOAD_SIZE) with false by (symmetry; rewrite Z.gtb_ltb; by apply Z.ltb_ge).
    fold meta. by rewrite (write_written d meta 0 Hwf Hid).
  - by apply index_node_capacity_geometry.
  - split; [done|]. split; [cbn; lia|]. exists ∅. split; [|by left].
    split; cbn [idx_disk idx_pool meta_page_].
    + by apply written_bytes.
    + unfold written, d. cbn [next_page_id_]. unfold INVALID_PAGE_ID. lia.
    + intros id pl Hp. by rewrite lookup_empty in Hp.
    + apply lruk_pool_inv; [lia|unfold in_u, INDEX_POOL_CAPACITY; lia].
    + intros id. reflexivity.
    + intros id s Hs. change (page_table_ idx_new_pool) with (∅ : gmap Z Z) in Hs. by rewrite lookup_empty in Hs.
    + split; [done|]. split; [done|]. unfold meta. rewrite payload_set_payload by done.
      apply meta_payload_static; [by split; [apply payload_len|apply payload_bytes]|done|done|done].
    + apply written_fits; [done|done|cbn; lia|]. by exists 0.
  - done.
Qed.

(** ** Rows by value *)

Abbreviation row := (list Value * Z)%type.

(** [IndexScan::Bound]: the key of a bound and whether it belongs to the range. *)
Abbreviation Bound := (list Value * bool)%type.

(** The bit of a row id in a deletion bitmap. *)
Definition row_deleted (deleted : bytes) (row_id : Z) : bool :=
  let byte_idx := row_id / 8 in
  (byte_idx <? zlen deleted) && negb (Z.land (znth deleted byte_idx) (Z.shiftl 1 (row_id mod 8)) =? 0).

(** The key of a bound in a buffer of the key's size; [None] is the exception of [std::get]. *)
Definition encode_bound (b : option Bound) : M (option bytes * bool) :=
  specs ← gets cols_; ks ← gets key_size_;
  match b with
  | None => mret (None, false)
  | Some (key, inclusive) =>
      match encode_key specs key (zeros ks) with
      | None => undefined
      | Some k => mret (Some k, inclusive)
      end
  end.

(** [IndexScan::open]: the row ids it collects. *)
Definition index_scan_open (lo hi : option Bound) (deleted : bytes) : M (list Z) :=
  l ← encode_bound lo;
  h ← encode_bound hi;
  range_scan (fun row_ids row_id => (true, if row_deleted deleted row_id then row_ids else row_ids ++ [row_id]))
    l.1 l.2 h.1 h.2 [].

Section spec.
Context (specs : list IndexColSpec).

Definition values_cmp (a b : list Value) : comparison := bytes_cmp (values_rank specs a) (values_rank specs b).

(** The sorted list: insertion behind the rows that are not larger, and the rows in a range. *)
Definition abs_insert (unique : bool) (vals : list Value) (row_id : Z) (st : list row) : result unit * list row :=
  if unique && negb (existsb is_null vals) && existsb (fun x => bool_decide (values_cmp x.1 vals = Eq)) st
  then (duplicate_key, st)
  else (Ok tt, insert_at (prefix_len (fun x => bool_decide (values_cmp x.1 vals <> Gt)) st) (vals, row_id) st).

Definition within (lo hi : option Bound) (vals : list Value) : bool :=
  match lo with
  | None => true
  | Some (k, incl) => match values_cmp vals k with Gt => true | Eq => incl | Lt => false end
  end &&
  match hi with
  | None => true
  | Some (k, incl) => match values_cmp vals k with Lt => true | Eq => incl | Gt => false end
  end.

Definition abs_scan (lo hi : option Bound) (deleted : bytes) (st : list row) : list Z :=
  filter (fun r => negb (row_deleted deleted r)) (map snd (filter (fun x => within lo hi x.1) st)).

(** ** Values and their encodings *)

Definition row_ok (x : row) : Prop := Forall2 key_value_ok specs x.1 /\ in_u 64 x.2.
Definition enc_row (x : row) : entry := (key_bytes specs x.1, x.2).

Hypothesis Hspecs : Forall spec_ok specs.

Lemma enc_row_ok x : row_ok x -> entry_ok specs (enc_row x).
Proof using Hspecs. intros [Hv Hr]. split; [|done]. by apply (encode_key_ok specs x.1). Qed.

Lemma compare_enc a b : Forall2 key_value_ok specs a -> Forall2 key_value_ok specs b ->
  compare_keys specs (key_bytes specs a) (key_bytes specs b) = cmp_sign (values_cmp a b).
Proof using Hspecs.
  intros Ha Hb. destruct (encode_key_ok specs a Hspecs Ha) as (_ & Ka & Ra). destruct (encode_key_ok specs b Hspecs Hb) as (_ & Kb & Rb).
  rewrite compare_keys_rank by done. by rewrite Ra, Rb.
Qed.

Lemma has_null_from_enc ss vs pre : Forall spec_ok ss -> Forall2 key_value_ok ss vs ->
  has_null_from ss (pre ++ key_bytes ss vs) (zlen pre) = existsb is_null vs.
Proof using.
  intros Hs Hv. revert Hs pre. unfold key_bytes. induction Hv as [|s v ss vs Hsv Hvs IH]; intros Hs pre; [done|].
  inversion_clear Hs as [|? ? Hs1 Hs2]. cbn [zip_with concat has_null_from existsb].
  replace (zlen pre) with (zlen pre + 0) at 1 by lia. rewrite znth_app_r by lia.
  assert (Hz : znth (field_bytes s v ++ concat (zip_with field_bytes ss vs)) 0 = if is_null v then 0 else 1)
    by (unfold field_bytes; by destruct (is_null v)).
  rewrite Hz. pose proof (IH Hs2 (pre ++ field_bytes s v)) as IH'.
  rewrite zlen_app, zlen_field_bytes, <- app_assoc in IH' by done. unfold field_len in IH'.
  rewrite <- Z.add_assoc, IH'. by destruct (is_null v).
Qed.

Lemma has_null_enc vals : Forall2 key_value_ok specs vals -> has_null specs (key_bytes specs vals) = existsb is_null vals.
Proof using Hspecs. intros Hv. exact (has_null_from_enc specs vals [] Hspecs Hv). Qed.

Lemma cmp_sign_le c : (cmp_sign c <=? 0) = bool_decide (c <> Gt).
Proof using. by destruct c. Qed.

Section state.
Context (st : list row) (vals : list Value).
Hypothesis Hst : Forall row_ok st.
Hypothesis Hvals : Forall2 key_value_ok specs vals.

Lemma prefix_enc : prefix_len (fun x => le_key specs (key_bytes specs vals) x.1) (map enc_row st) =
  prefix_len (fun x => bool_decide (values_cmp x.1 vals <> Gt)) st.
Proof using All.
  induction Hst as [|x l Hx Hl IH]; [done|]. cbn [map prefix_len]. unfold le_key at 1, enc_row at 1. cbn [fst].
  by rewrite compare_enc, cmp_sign_le, (IH Hl) by (done || apply Hx).
Qed.

Lemma existsb_enc : existsb (same_key specs (key_bytes specs vals)) (map enc_row st) =
  existsb (fun x => bool_decide (values_cmp x.1 vals = Eq)) st.
Proof using All.
  induction Hst as [|x l Hx Hl IH]; [done|]. cbn [map existsb]. unfold same_key at 1, enc_row at 1. cbn [fst].
  by rewrite compare_enc, cmp_sign_0, (IH Hl) by (done || apply Hx).
Qed.

Lemma ins_enc row_id : ins specs (enc_row (vals, row_id)) (map enc_row st) =
  map enc_row (insert_at (prefix_len (fun x => bool_decide (values_cmp x.1 vals <> Gt)) st) (vals, row_id) st).
Proof using All.
  unfold ins. cbn [enc_row fst]. rewrite prefix_enc. unfold insert_at. by rewrite map_app, firstn_map, map_cons, skipn_map.
Qed.

Lemma violates_enc u : violates specs u (key_bytes specs vals) (map enc_row st) =
  u && negb (existsb is_null vals) && existsb (fun x => bool_decide (values_cmp x.1 vals = Eq)) st.
Proof using All. unfold violates. by rewrite has_null_enc, existsb_enc. Qed.
End state.

(** ** Scans *)

Lemma within_enc lo hi x : row_ok x -> (forall b, lo = Some b -> Forall2 key_value_ok specs b.1) ->
  (forall b, hi = Some b -> Forall2 key_value_ok specs b.1) ->
  in_range specs (option_map (fun b => key_bytes specs b.1) lo) (from_option snd false lo)
    (option_map (fun b => key_bytes specs b.1) hi) (from_option snd false hi) (enc_row x) = within lo hi x.1.
Proof using Hspecs.
  intros [Hx _] Hlo Hhi. unfold in_range, within, above_lo, below_hi. f_equal.
  - destruct lo as [[k incl]|]; [|done]. cbn. rewrite compare_enc by (done || by apply (Hlo (k, incl))).
    destruct (values_cmp x.1 k); cbn; by rewrite ?andb_true_r, ?andb_false_r.
  - destruct hi as [[k incl]|]; [|done]. cbn. rewrite compare_enc by (done || by apply (Hhi (k, incl))).
    destruct (values_cmp x.1 k); cbn; by rewrite ?andb_true_r, ?andb_false_r.
Qed.

Lemma feed_collect (del : Z -> bool) acc rows :
  feed (fun ids r => (true, if del r then ids else ids ++ [r])) acc rows = acc ++ filter (fun r => negb (del r)) rows.
Proof using.
  revert acc. induction rows as [|r rows IH]; intros acc; cbn [feed]; [by rewrite app_nil_r|]. rewrite IH.
  destruct (del r) eqn:Hd.
  - rewrite filter_cons_False; [done|]. apply Is_true_false_2. by rewrite Hd.
  - rewrite filter_cons_True; [by rewrite <- app_assoc|by rewrite Hd].
Qed.

Lemma filter_enc lo hi st : Forall row_ok st -> (forall b, lo = Some b -> Forall2 key_value_ok specs b.1) ->
  (forall b, hi = Some b -> Forall2 key_value_ok specs b.1) ->
  map snd (filter (fun x => in_range specs (option_map (fun b => key_bytes specs b.1) lo) (from_option snd false lo)
    (option_map (fun b => key_bytes specs b.1) hi) (from_option snd false hi) x) (map enc_row st)) =
  map snd (filter (fun x => within lo hi x.1) st).
Proof using Hspecs.
  intros Hst Hlo Hhi. induction Hst as [|x l Hx Hl IH]; [done|]. cbn [map].
  pose proof (within_enc lo hi x Hx Hlo Hhi) as Hw.
  destruct (within lo hi x.1) eqn:Hin.
  - rewrite !filter_cons_True by (by rewrite ?Hw, ?Hin). cbn [map]. by rewrite IH.
  - rewrite !filter_cons_False by (apply Is_true_false_2; by rewrite ?Hw, ?Hin). exact IH.
Qed.

(** At most one row has the key [k]. *)
Definition single (k : list Value) (st : list row) : Prop :=
  (length (filter (fun x => bool_decide (values_cmp x.1 k = Eq)) st) <= 1)%nat.

Lemma single_enc k st : Forall row_ok st -> Forall2 key_value_ok specs k -> single k st ->
  at_most_one specs (key_bytes specs k) (map enc_row st).
Proof using Hspecs.
  unfold single, at_most_one. intros Hst Hk.
  replace (length (filter (fun x => same_key specs (key_bytes specs k) x) (map enc_row st)))
    with (length (filter (fun x => bool_decide (values_cmp x.1 k = Eq)) st)); [done|].
  induction Hst as [|x l Hx Hl IH]; [done|]. cbn [map].
  assert (Hsame : same_key specs (key_bytes specs k) (enc_row x) = bool_decide (values_cmp x.1 k = Eq)).
  { unfold same_key. cbn [enc_row fst]. by rewrite compare_enc, cmp_sign_0 by (done || apply Hx). }
  destruct (bool_decide (values_cmp x.1 k = Eq)) eqn:Hin.
  - rewrite !filter_cons_True by (by rewrite ?Hsame, ?Hin). cbn [length]. by rewrite IH.
  - rewrite !filter_cons_False by (apply Is_true_false_2; by rewrite ?Hsame, ?Hin). exact IH.
Qed.

(** ** Equal keys have their NULLs in the same places *)

Lemma end_marked (u v r q : bytes) : Forall (Z.le 0) u -> Forall (Z.le 0) v -> (u ++ [-1]) ++ r = (v ++ [-1]) ++ q -> r = q.
Proof using.
  intros Hu. revert v. induction Hu as [|x u Hx _ IH]; intros v Hv; destruct Hv as [|y v Hy Hv]; cbn; intros Heq.
  - by injection Heq.
  - injection Heq as <- _. lia.
  - injection Heq as -> _. lia.
  - injection Heq as <- Heq. by apply (IH v).
Qed.

Lemma value_rank_app s v w r q : key_value_ok s v -> key_value_ok s w -> spec_ok s ->
  value_rank s v ++ r = value_rank s w ++ q -> is_null v = is_null w /\ r = q.
Proof using.
  assert (Hstr : forall str, Forall (Z.le 0) (take (Z.to_nat (is_max_len s)) (bytes_of_string str))).
  { intros str. apply Forall_take, (Forall_impl is_byte); [apply bytes_of_string_is_byte|]. intros z [Hz _]. exact Hz. }
  intros [->|(Hv & _)] [->|(Hw & _)] Hs Heq; unfold spec_ok in Hs.
  - split; [done|]. by injection Heq.
  - rewrite <- Hw in Hs. destruct w; try done; by injection Heq.
  - rewrite <- Hv in Hs. destruct v; try done; by injection Heq.
  - rewrite <- Hv in Hw, Hs. destruct v, w; try done; cbn in Heq; injection Heq as Heq; (split; [done|]);
      try (injection Heq; by intros); try done.
    eapply end_marked; [apply Hstr|apply Hstr|exact Heq].
Qed.

Lemma values_null ss a b : Forall spec_ok ss -> Forall2 key_value_ok ss a -> Forall2 key_value_ok ss b ->
  values_rank ss a = values_rank ss b -> existsb is_null a = existsb is_null b.
Proof using.
  intros Hs Ha. revert Hs b. unfold values_rank. induction Ha as [|s v ss vs Hv Hvs IH]; intros Hs b Hb; inversion_clear Hb as [|? w ? ws Hw Hws]; [done|].
  inversion_clear Hs as [|? ? Hs1 Hs2]. cbn [zip_with concat existsb]. intros Heq.
  destruct (value_rank_app s v w _ _ Hv Hw Hs1 Heq) as [-> Hr]. by rewrite (IH Hs2 ws Hws Hr).
Qed.

(** ** Unique keys stay unique *)

Definition all_single (st : list row) : Prop :=
  forall k, Forall2 key_value_ok specs k -> existsb is_null k = false -> single k st.

Lemma abs_insert_ok u vals row_id st : Forall2 key_value_ok specs vals -> in_u 64 row_id -> Forall row_ok st ->
  Forall row_ok (snd (abs_insert u vals row_id st)).
Proof using.
  intros Hv Hr Hst. unfold abs_insert. destruct (u && _ && _); [done|]. by apply Forall_insert_at.
Qed.

Lemma abs_insert_single vals row_id st : Forall2 key_value_ok specs vals -> Forall row_ok st -> all_single st ->
  all_single (snd (abs_insert true vals row_id st)).
Proof using Hspecs.
  intros Hv Hst Hall. unfold abs_insert. destruct (_ && _ && _) eqn:Hdup; [done|]. intros k Hk Hnull. cbn [snd].
  specialize (Hall k Hk Hnull). unfold single, insert_at in *. set (p := prefix_len _ st).
  rewrite <- (take_drop p st) in Hall. rewrite filter_app, length_app in *.
  destruct (decide (values_cmp vals k = Eq)) as [Heq|Hne].
  - assert (Hnv : existsb is_null vals = false).
    { rewrite <- Hnull. apply (values_null specs); [done|done|done|]. by apply bytes_cmp_eq. }
    rewrite Hnv in Hdup. cbn [negb andb] in Hdup.
    assert (Hnone : forall l, (forall x, x ∈ l -> x ∈ st) -> filter (fun x => bool_decide (values_cmp x.1 k = Eq)) l = []).
    { intros l Hl. apply (filter_none (fun x => bool_decide (values_cmp x.1 k = Eq))). intros x Hx.
      apply bool_decide_false. intros Hc. apply not_true_iff_false in Hdup. apply Hdup, existsb_exists. exists x.
      split; [by apply list_elem_of_In, Hl|]. apply bool_decide_true. apply bytes_cmp_eq in Heq, Hc.
      apply bytes_cmp_eq. unfold values_cmp in *. congruence. }
    rewrite (Hnone (take p st)), filter_cons, (Hnone (drop p st)).
    + destruct (decide _); cbn; lia.
    + intros x Hx. rewrite <- (take_drop p st), elem_of_app. by right.
    + intros x Hx. rewrite <- (take_drop p st), elem_of_app. by left.
  - rewrite filter_cons_False; [exact Hall|]. apply Is_true_false_2. by apply bool_decide_false.
Qed.

End spec.

(** ** The index and the list *)

(** The index [f] over the columns [specs] holds the rows [st]. *)
Definition index_holds (specs : list IndexColSpec) (n : nat) (f : IndexFile) (st : list row) : Prop :=
  let ks := compute_key_size specs in let cap := index_node_capacity ks in
  Forall spec_ok specs /\ geometry specs ks cap /\ Forall (row_ok specs) st /\
  index_rep specs ks cap n f (map (enc_row specs) st).

Lemma insert_holds specs n f st vals row_id : index_holds specs n f st -> Forall2 key_value_ok specs vals ->
  in_u 64 row_id -> Z.of_nat n < 2 ^ 31 ->
  exists f', is_unique_ f' = is_unique_ f /\
    btree_insert vals row_id f = Some (fst (abs_insert specs (is_unique_ f) vals row_id st), f') /\
    index_holds specs (S n) f' (snd (abs_insert specs (is_unique_ f) vals row_id st)).
Proof.
  intros (Hs & Hgeo & Hst & Hrep) Hv Hr Hn. pose proof Hrep as ((Hc1 & Hc2 & Hc3) & _).
  destruct (encode_key_ok specs vals Hs Hv) as (Henc & Hk & _).
  destruct (insert_encoded_ok specs _ _ Hgeo n (enc_row specs (vals, row_id)) f _ (enc_row_ok specs Hs (vals, row_id) (conj Hv Hr)) Hrep Hn)
    as (f' & Hu & Hrun & Hrep').
  cbn [enc_row fst snd] in Hrun, Hrep'. rewrite (violates_enc specs Hs st vals Hst Hv) in Hrun, Hrep'.
  exists f'. split; [done|]. unfold btree_insert. rewrite !gets_bind, Hc1, Hc2, Henc, Hrun.
  pose proof (abs_insert_ok specs (is_unique_ f) vals row_id st Hv Hr Hst) as Hst'.
  unfold abs_insert in *. destruct (is_unique_ f && _ && _); (split; [done|]); (split; [done|]); (split; [done|]); (split; [exact Hst'|]).
  - destruct Hrep' as (Hp & Hpg & Hrest). split; [done|]. split; [done|]. exact Hrest.
  - cbn [snd]. rewrite <- (ins_enc specs Hs st vals Hst Hv row_id). exact Hrep'.
Qed.

Lemma encode_bound_ok specs f (b : option Bound) : Forall spec_ok specs -> cols_ f = specs -> key_size_ f = compute_key_size specs ->
  (forall x, b = Some x -> Forall2 key_value_ok specs x.1) ->
  encode_bound b f = Some (Ok (option_map (fun b => key_bytes specs b.1) b, from_option snd false b), f).
Proof.
  intros Hs H1 H2 Hb. unfold encode_bound. rewrite !gets_bind, H1, H2. destruct b as [[k incl]|]; [|done].
  destruct (encode_key_ok specs k Hs (Hb _ eq_refl)) as (-> & _). done.
Qed.

Lemma scan_holds specs n f st lo hi deleted : index_holds specs n f st ->
  (forall b, lo = Some b -> Forall2 key_value_ok specs b.1 /\ single specs b.1 st) ->
  (forall b, hi = Some b -> Forall2 key_value_ok specs b.1) ->
  exists pool, index_scan_open lo hi deleted f = Some (Ok (abs_scan specs lo hi deleted st), set_idx_pool f pool) /\
    index_holds specs n (set_idx_pool f pool) st.
Proof.
  intros (Hs & Hgeo & Hst & Hrep) Hlo Hhi. pose proof Hrep as ((Hc1 & Hc2 & Hc3) & _). unfold index_scan_open.
  rewrite (bind_ok _ _ _ _ _ (encode_bound_ok specs f lo Hs Hc1 Hc2 (fun b Hb => proj1 (Hlo b Hb)))).
  rewrite (bind_ok _ _ _ _ _ (encode_bound_ok specs f hi Hs Hc1 Hc2 Hhi)). cbn [fst snd].
  destruct (range_scan_ok specs _ _ Hgeo (fun row_ids row_id => (true, if row_deleted deleted row_id then row_ids else row_ids ++ [row_id]))
    (option_map (fun b => key_bytes specs b.1) lo) (from_option snd false lo) (option_map (fun b => key_bytes specs b.1) hi)
    (from_option snd false hi) [] n f (map (enc_row specs) st) Hrep) as (pool & Hrun & Hrep').
  - intros l Hl. destruct lo as [b|]; [|done]. injection Hl as <-. destruct (Hlo b eq_refl) as [Hb H1].
    split; [by apply (encode_key_ok specs b.1)|by apply single_enc].
  - intros h Hh. destruct hi as [b|]; [|done]. injection Hh as <-. by apply (encode_key_ok specs b.1 Hs), (Hhi b).
  - exists pool. rewrite Hrun, feed_collect, filter_enc; [|done|done|intros b Hb; by apply Hlo|done].
    split; [done|]. by split_and!.
Qed.

(** ** Claims *)

(** An insertion into an index, at the size of the values: on an index that holds the rows
    [st] in key order, [BTreeIndex::insert] adds the row behind all rows whose key is not
    larger, whatever nodes have to be split, or reports a duplicate and changes nothing when
    the index is unique, the key has no NULL and a row with an equal key is present. *)
Theorem btree_insert_correct specs n f st vals row_id : index_holds specs n f st -> Forall2 key_value_ok specs vals ->
  in_u 64 row_id -> Z.of_nat n < 2 ^ 31 ->
  exists f', is_unique_ f' = is_unique_ f /\
    btree_insert vals row_id f = Some (fst (abs_insert specs (is_unique_ f) vals row_id st), f') /\
    index_holds specs (S n) f' (snd (abs_insert specs (is_unique_ f) vals row_id st)).
Proof. apply insert_holds. Qed.

(** A scan finds exactly the rows in the range, in key order, less the deleted ones, when at
    most one row has the key of the lower bound. *)
Theorem index_scan_correct specs n f st lo hi deleted : index_holds specs n f st ->
  (forall b, lo = Some b -> Forall2 key_value_ok specs b.1 /\ single specs b.1 st) ->
  (forall b, hi = Some b -> Forall2 key_value_ok specs b.1) ->
  exists f', index_scan_open lo hi deleted f = Some (Ok (abs_scan specs lo hi deleted st), f') /\
    index_holds specs n f' st.
Proof. intros Hh Hlo Hhi. destruct (scan_holds specs n f st lo hi deleted Hh Hlo Hhi) as (pool & H). by exists (set_idx_pool f pool). Qed.

(** C11. After [flush] the file on disk is the whole index: [open] on it finds the same rows in
    the same order, the same uniqueness and the clean flag. *)
Theorem index_reopen_roundtrip specs n f st : index_holds specs n f st -> Forall spec_wf specs ->
  exists f' f2, idx_flush f = Some (Ok tt, f') /\ idx_open (content (idx_disk f')) = Ok f2 /\
    index_holds specs n f2 st /\ is_unique_ f2 = is_unique_ f /\ dirty_ f2 = false /\ col_indices_ f2 = col_indices_ f.
Proof.
  intros (Hs & Hgeo & Hst & Hrep) Hwf.
  destruct (idx_flush_ok specs _ _ Hgeo Hwf eq_refl n f _ Hrep) as (f' & Hf & _ & _ & _ & _ & f2 & Ho & Hrep2 & Hu & Hd & _ & Hci).
  exists f', f2. split; [done|]. split; [done|]. split; [by split_and!|]. by split_and!.
Qed.

(** The rows of a bulk build: in key order. *)
Definition rows_sorted (specs : list IndexColSpec) (rows : list row) : Prop :=
  StronglySorted (fun a b => values_cmp specs a.1 b.1 <> Gt) rows.

Lemma rows_sorted_enc specs rows : Forall spec_ok specs -> Forall (row_ok specs) rows -> rows_sorted specs rows ->
  sorted_entries specs (map (enc_row specs) rows).
Proof.
  intros Hs Hok. unfold rows_sorted, sorted_entries. induction Hok as [|x l Hx Hl IH]; intros Hso; [constructor|].
  inversion_clear Hso as [|? ? Hl' Hle]. cbn [map]. constructor; [by apply IH|]. rewrite map_map. apply Forall_map.
  rewrite Forall_forall in Hle, Hl |- *. intros y Hy. unfold key_le. cbn [enc_row fst].
  rewrite compare_enc by (done || apply Hx || by apply Hl). specialize (Hle y Hy). by destruct (values_cmp specs x.1 y.1).
Qed.

(** Rebuilding, whatever the index held before: [reset_tree], [bulk_build] of rows in key
    order and [flush] leave a clean index that holds exactly these rows. *)
Theorem rebuild_index_correct specs n f st rows : index_holds specs n f st -> Forall spec_wf specs ->
  Forall (row_ok specs) rows -> rows_sorted specs rows -> zlen rows < 2 ^ 60 ->
  exists f' n', rebuild_tree (map (enc_row specs) rows) f = Some (Ok tt, f') /\
    index_holds specs n' f' rows /\ is_unique_ f' = is_unique_ f /\ dirty_ f' = false.
Proof.
  intros (Hs & Hgeo & Hst & Hrep) Hwf Hok Hso Hn.
  destruct (rebuild_ok specs _ _ Hgeo Hwf eq_refl n f _ (map (enc_row specs) rows) Hrep) as (f' & n' & Hrun & Hrep' & Hu & Hd).
  - apply Forall_map, (Forall_impl _ _ _ Hok). by apply enc_row_ok.
  - by apply rows_sorted_enc.
  - rewrite zlen_map. unfold INVALID_PAGE_ID. lia.
  - exists f', n'. split; [done|]. split; [by split_and!|done].
Qed.

(** ** Runs of a unique index *)

Inductive index_op : Type :=
| OpInsert (vals : list Value) (row_id : Z)
| OpScan (lo hi : option Bound) (deleted : bytes).

(** No row ids for an insertion. *)
Definition no_rows (r : result unit) : result (list Z) := match r with Ok _ => Ok [] | Err e => Err e end.

Definition index_step (op : index_op) (f : IndexFile) : option (result (list Z) * IndexFile) :=
  match op with
  | OpInsert vals row_id => let! (r, f) := btree_insert vals row_id f in Some (no_rows r, f)
  | OpScan lo hi deleted => index_scan_open lo hi deleted f
  end.

Fixpoint index_run (ops : list index_op) (f : IndexFile) : option (list (result (list Z)) * IndexFile) :=
  match ops with
  | [] => Some ([], f)
  | op :: ops' =>
      let! (r, f) := index_step op f in
      let! (rs, f) := index_run ops' f in
      Some (r :: rs, f)
  end.

Definition abs_step (specs : list IndexColSpec) (op : index_op) (st : list row) : result (list Z) * list row :=
  match op with
  | OpInsert vals row_id => let '(r, st) := abs_insert specs true vals row_id st in (no_rows r, st)
  | OpScan lo hi deleted => (Ok (abs_scan specs lo hi deleted st), st)
  end.

Fixpoint abs_run (specs : list IndexColSpec) (ops : list index_op) (st : list row) : list (result (list Z)) * list row :=
  match ops with
  | [] => ([], st)
  | op :: ops' => let '(r, st) := abs_step specs op st in let '(rs, st) := abs_run specs ops' st in (r :: rs, st)
  end.

(** Keys of the column types; a lower bound has no NULL. *)
Definition op_ok (specs : list IndexColSpec) (op : index_op) : Prop :=
  match op with
  | OpInsert vals row_id => Forall2 key_value_ok specs vals /\ in_u 64 row_id
  | OpScan lo hi _ =>
      (forall b, lo = Some b -> Forall2 key_value_ok specs b.1 /\ existsb is_null b.1 = false) /\
      (forall b, hi = Some b -> Forall2 key_value_ok specs b.1)
  end.

Lemma index_run_refines specs ops : forall n f st, index_holds specs n f st -> is_unique_ f = true -> all_single specs st ->
  Forall (op_ok specs) ops -> Z.of_nat (n + length ops) < 2 ^ 31 ->
  exists f' n', index_run ops f = Some (fst (abs_run specs ops st), f') /\ index_holds specs n' f' (snd (abs_run specs ops st)).
Proof.
  induction ops as [|op ops IH]; intros n f st Hh Hu Hall Hops Hn; [by exists f, n|].
  apply Forall_cons in Hops as [Hop Hops]. cbn [length] in Hn. cbn [index_run abs_run].
  assert (Hstep : exists f1 n1, index_step op f = Some (fst (abs_step specs op st), f1) /\ is_unique_ f1 = true /\
    index_holds specs n1 f1 (snd (abs_step specs op st)) /\ all_single specs (snd (abs_step specs op st)) /\ (n1 <= S n)%nat).
  { destruct op as [vals row_id|lo hi deleted]; cbn [index_step abs_step op_ok] in *.
    - destruct Hop as [Hv Hr]. destruct (insert_holds specs n f st vals row_id Hh Hv Hr) as (f1 & Hu1 & Hrun & Hh1); [lia|].
      rewrite Hu in Hrun, Hh1. pose proof (abs_insert_single specs (proj1 Hh) vals row_id st Hv (proj1 (proj2 (proj2 Hh))) Hall) as Hall'.
      exists f1, (S n). rewrite Hrun. destruct (abs_insert specs true vals row_id st) as [r st']. cbn [fst snd] in *. split_and!; congruence || done.
    - destruct Hop as [Hlo Hhi].
      destruct (scan_holds specs n f st lo hi deleted Hh) as (pool & Hrun & Hh1);
        [intros b Hb; destruct (Hlo b Hb); split; [done|by apply Hall]|done|].
      exists (set_idx_pool f pool), n. split_and!; [done|done|done|done|lia]. }
  destruct Hstep as (f1 & n1 & -> & Hu1 & Hh1 & Hall1 & Hn1). destruct (abs_step specs op st) as [r st1]. cbn [fst snd] in *.
  destruct (IH n1 f1 st1 Hh1 Hu1 Hall1 Hops) as (f2 & n2 & -> & Hh2); [lia|].
  destruct (abs_run specs ops st1) as [rs st2]. by exists f2, n2.
Qed.

(** C2. A unique index that is created and then used for any number of insertions and scans
    answers every one of them as the sorted list of rows does: an insertion succeeds exactly
    when the key is new or has a NULL, and a scan gives the live rows of its range in order.  The
    keys have no NaN and the lower bounds of the scans no NULL. *)
Theorem btree_run_refines specs cis ops : specs <> [] -> Forall spec_ok specs -> zlen cis = zlen specs -> Forall is_byte cis ->
  index_node_capacity (compute_key_size specs) <> 0 -> zlen specs < 256 ->
  Forall (op_ok specs) ops -> Z.of_nat (length ops) < 2 ^ 31 ->
  exists f f' n, idx_create [] specs cis true = Some (Ok f) /\
    index_run ops f = Some (fst (abs_run specs ops []), f') /\ index_holds specs n f' (snd (abs_run specs ops [])).
Proof.
  intros Hne Hs Hlen Hb Hcap Hfit Hops Hn. destruct (idx_create_ok specs cis true Hne Hlen Hb Hcap Hfit) as (f & Hc & Hgeo & Hrep & Hu).
  destruct (index_run_refines specs ops 0 f []) as (f' & n & Hrun & Hh); [by split_and!|done| |done|done|by exists f, f', n].
  intros k _ _. unfold single. cbn. lia.
Qed.

(** ** Witnesses *)

Definition int_specs : list IndexColSpec := [mkSpec INT32 0 0].

Lemma int_key_ok x : in_s 32 x -> Forall2 key_value_ok int_specs [VI32 x].
Proof. intros Hx. apply Forall2_cons. split; [|constructor]. right. by split_and!. Qed.

Lemma new_int_index u : exists f, idx_create [] int_specs [0] u = Some (Ok f) /\ is_unique_ f = u /\ index_holds int_specs 0 f [].
Proof.
  destruct (idx_create_ok int_specs [0] u) as (f & Hc & Hgeo & Hrep & Hu);
    [done|done|repeat constructor; unfold in_u; lia|by vm_compute|by vm_compute|].
  exists f. split; [done|]. split; [done|]. split; [repeat constructor|]. by split_and!.
Qed.

Lemma btree_insert_correct_witness : exists f f', index_holds int_specs 0 f [] /\
  btree_insert [VI32 5] 1 f = Some (Ok tt, f') /\ index_holds int_specs 1 f' [([VI32 5], 1)].
Proof.
  destruct (new_int_index true) as (f & _ & Hu & Hh).
  destruct (btree_insert_correct int_specs 0 f [] [VI32 5] 1 Hh) as (f' & _ & Hrun & Hh');
    [by apply int_key_ok|unfold in_u; lia|lia|].
  rewrite Hu in Hrun, Hh'. exists f, f'. split; [exact Hh|]. split; [exact Hrun|exact Hh'].
Defined.

Lemma index_scan_correct_witness : exists f f', index_holds int_specs 2 f [([VI32 3], 2); ([VI32 5], 1)] /\
  index_scan_open (Some ([VI32 3], false)) None [] f = Some (Ok [1], f').
Proof.
  destruct (new_int_index false) as (f & _ & Hu & Hh).
  destruct (insert_holds int_specs 0 f [] [VI32 5] 1 Hh) as (f1 & Hu1 & _ & Hh1); [by apply int_key_ok|unfold in_u; lia|lia|].
  destruct (insert_holds int_specs 1 f1 _ [VI32 3] 2 Hh1) as (f2 & _ & _ & Hh2); [by apply int_key_ok|unfold in_u; lia|lia|].
  rewrite Hu1, Hu in Hh2. change (snd (abs_insert int_specs false [VI32 3] 2 _)) with [([VI32 3], 2); ([VI32 5], 1)] in Hh2.
  destruct (index_scan_correct int_specs 2 f2 _ (Some ([VI32 3], false)) None [] Hh2) as (f' & Hrun & _).
  - intros b [= <-]. split; [by apply int_key_ok|]. by vm_compute; repeat constructor.
  - done.
  - exists f2, f'. split; [exact Hh2|exact Hrun].
Defined.

Lemma btree_run_refines_witness : exists f f' n, idx_create [] int_specs [0] true = Some (Ok f) /\
  index_run [OpInsert [VI32 5] 1; OpInsert [VI32 3] 2; OpInsert [VI32 5] 3; OpScan (Some ([VI32 3], true)) None []] f =
    Some ([Ok []; Ok []; duplicate_key; Ok [2; 1]], f') /\
  index_holds int_specs n f' [([VI32 3], 2); ([VI32 5], 1)].
Proof.
  apply (btree_run_refines int_specs [0]
    [OpInsert [VI32 5] 1; OpInsert [VI32 3] 2; OpInsert [VI32 5] 3; OpScan (Some ([VI32 3], true)) None []]);
    [done|repeat constructor|done|repeat constructor; unfold in_u; lia|by vm_compute|by vm_compute| |done].
  repeat (apply Forall_cons; split); cbn [op_ok]; try (split; [by apply int_key_ok|unfold in_u; lia]); [|constructor].
  split; [|done]. intros b [= <-]. split; [by apply int_key_ok|done].
Defined.

Lemma index_reopen_roundtrip_witness : exists f f' f2, index_holds int_specs 1 f [([VI32 5], 1)] /\
  idx_flush f = Some (Ok tt, f') /\ idx_open (content (idx_disk f')) = Ok f2 /\ index_holds int_specs 1 f2 [([VI32 5], 1)].
Proof.
  destruct (new_int_index false) as (f0 & _ & Hu & Hh).
  destruct (insert_holds int_specs 0 f0 [] [VI32 5] 1 Hh) as (f & _ & _ & Hh1); [by apply int_key_ok|unfold in_u; lia|lia|].
  rewrite Hu in Hh1. change (snd (abs_insert int_specs false [VI32 5] 1 [])) with [([VI32 5], 1)] in Hh1.
  destruct (index_reopen_roundtrip int_specs 1 f _ Hh1) as (f' & f2 & H1 & H2 & H3 & _); [repeat constructor; unfold in_u; cbn; lia|].
  exists f, f', f2. split; [exact Hh1|]. split; [exact H1|]. split; [exact H2|exact H3].
Defined.

Lemma rebuild_index_correct_witness : exists f f' n', index_holds int_specs 0 f [] /\
  rebuild_tree (map (enc_row int_specs) [([VNull], 4); ([VI32 (-7)], 1); ([VI32 5], 2)]) f = Some (Ok tt, f') /\
  index_holds int_specs n' f' [([VNull], 4); ([VI32 (-7)], 1); ([VI32 5], 2)].
Proof.
  destruct (new_int_index true) as (f & _ & _ & Hh).
  destruct (rebuild_index_correct int_specs 0 f [] [([VNull], 4); ([VI32 (-7)], 1); ([VI32 5], 2)] Hh) as (f' & n' & H1 & H2 & _).
  - repeat constructor; unfold in_u; cbn; lia.
  - repeat (apply Forall_cons; split); [| | |constructor]; (split; [|unfold in_u; cbn; lia]); [|by apply int_key_ok..].
    apply Forall2_cons. split; [by left|constructor].
  - repeat constructor; by vm_compute.
  - by vm_compute.
  - exists f, f', n'. split; [exact Hh|]. split; [exact H1|exact H2].
Defined.

(** ** Equal keys in several leaves *)

Definition outcomes (specs : list IndexColSpec) (cis : list Z) (unique : bool) (ops : list index_op) : option (list (result (list Z))) :=
  match idx_create [] specs cis unique with
  | Some (Ok f) => let! (rs, _) := index_run ops f in Some rs
  | _ => None
  end.

(** A scan for one key of an index that is not unique misses the rows with that key in the
    leaves before the last one that starts with it: the search goes to the right of equal
    separators.  Two equal strings in a column whose leaves hold one key each: the scan
    finds the second row only. *)
Theorem index_scan_misses_duplicates : outcomes [mkSpec VARCHAR 0 8000] [0] false
    [OpInsert [VStr "a"] 1; OpInsert [VStr "a"] 2; OpScan (Some ([VStr "a"], true)) (Some ([VStr "a"], true)) []] =
  Some [Ok []; Ok []; Ok [2]].
Proof. vm_compute. reflexivity. Qed.
