(* ===== verification/Codec.v ===== *)
(** * Decoders with error messages, and whole-file reads and writes

    The metadata files (schema, constraints, shard map) are written with one
    [::open(O_TRUNC)] and one [::write], and decoded front to back with a message for
    each kind of short read.  A decoder takes the unread bytes and returns a value and
    the bytes left, or the message. *)

From S2P Require Import Prelude.

(** ** Decoders *)

Definition decoder (A : Type) : Type := bytes -> result (A * bytes).

Definition dret {A} (a : A) : decoder A := fun bs => Ok (a, bs).
Definition dfail {A} (message : string) : decoder A := fun _ => Err message.
Definition dbind {A B} (m : decoder A) (k : A -> decoder B) : decoder B := fun bs =>
  match m bs with
  | Ok (a, bs') => k a bs'
  | Err e => Err e
  end.

Notation "'get*' x ':=' m 'in' k" := (dbind m (fun x => k))
  (at level 10, x name, m at level 100, k at level 200) : nyx_scope.

(** The next [n] bytes; [message] when there are fewer. *)
Definition need (n : Z) (message : string) : decoder bytes := fun bs =>
  if n <=? zlen bs then Ok (take (Z.to_nat n) bs, drop (Z.to_nat n) bs) else Err message.

Definition need_u8 (message : string) : decoder Z :=
  get* b := need 1 message in dret (znth b 0).

(** [for (i = 0; i < n; ++i)] with an early return on an error. *)
Fixpoint drepeat {A} (n : nat) (m : decoder A) : decoder (list A) :=
  match n with
  | O => dret []
  | S n' => get* a := m in get* l := drepeat n' m in dret (a :: l)
  end.

(** ** Little-endian integers, written out as the sources do *)

Definition put_le16 (v : Z) : bytes := [Z.land v 255; Z.land (Z.shiftr v 8) 255].
Definition put_le32 (v : Z) : bytes :=
  [Z.land v 255; Z.land (Z.shiftr v 8) 255; Z.land (Z.shiftr v 16) 255; Z.land (Z.shiftr v 24) 255].

Definition get_le16 (src : bytes) : Z := Z.lor (znth src 0) (Z.shiftl (znth src 1) 8).
Definition get_le32 (src : bytes) : Z :=
  Z.lor (Z.lor (Z.lor (znth src 0) (Z.shiftl (znth src 1) 8)) (Z.shiftl (znth src 2) 16))
        (Z.shiftl (znth src 3) 24).

(** ** Writing a file *)

(** What the system calls of a [write] do: [::open] fails with an error text, or
    [n] bytes reach the file ([errno] text [e] if that is short). *)
Inductive write_io : Type :=
| OpenFails (e : string)
| Writes (n : Z) (e : string).

(** The contents of a path, or the [strerror] text of opening it. *)
Abbreviation file := (result bytes).

(** The part of the [write] functions after the buffer is built. *)
Definition store_file (what path : string) (io : write_io) (buf : bytes) (old : file) : result unit * file :=
  match io with
  | OpenFails e => (Err (what +:+ " write: cannot open " +:+ path +:+ ": " +:+ e), old)
  | Writes n e =>
      let contents := Ok (take (Z.to_nat n) buf) in
      if negb (n =? zlen buf) then (Err (what +:+ " write: short write: " +:+ e), contents)
      else (Ok tt, contents)
  end.

(** ** Lemmas *)

(** [m] consumes exactly [bs], whatever follows, and returns [a]. *)
Definition parses {A} (m : decoder A) (bs : bytes) (a : A) : Prop :=
  forall r, m (bs ++ r) = Ok (a, r).

(** [m] only looks at the bytes it consumes. *)
Definition dlocal {A} (m : decoder A) : Prop :=
  forall bs a r, m bs = Ok (a, r) -> exists b, bs = b ++ r /\ parses m b a.

Lemma parses_ret {A} (a : A) : parses (dret a) [] a.
Proof. by intros r. Qed.

Lemma parses_bind {A B} (m : decoder A) (k : A -> decoder B) b1 b2 a c :
  parses m b1 a -> parses (k a) b2 c -> parses (dbind m k) (b1 ++ b2) c.
Proof. intros Hm Hk r. unfold dbind. by rewrite <- app_assoc, Hm, Hk. Qed.

Lemma parses_map {A B} (m : decoder A) (f : A -> B) b a :
  parses m b a -> parses (get* x := m in dret (f x)) b (f a).
Proof. intros H. rewrite <- (app_nil_r b). eapply parses_bind; [done|apply parses_ret]. Qed.

Lemma parses_need b n e : zlen b = n -> parses (need n e) b b.
Proof.
  intros <- r. unfold need. rewrite zlen_app. pose proof (zlen_nonneg r).
  rewrite (proj2 (Z.leb_le _ _)) by lia.
  replace (Z.to_nat (zlen b)) with (length b) by (unfold zlen; lia).
  by rewrite take_app_length, drop_app_length.
Qed.

Lemma parses_u8 b e : parses (need_u8 e) [b] b.
Proof. apply (parses_map (need 1 e) (fun b => znth b 0) [b] [b]). by apply parses_need. Qed.

(** A fixed-width field decoded by [f]. *)
Lemma parses_fixed {A} n e (f : bytes -> A) b a : zlen b = n -> f b = a ->
  parses (get* x := need n e in dret (f x)) b a.
Proof. intros Hn <-. by apply (parses_map _ f), parses_need. Qed.

Lemma parses_repeat {A B} (put : B -> bytes) (m : decoder A) (f : B -> A) (l : list B) :
  Forall (fun x => parses m (put x) (f x)) l ->
  parses (drepeat (length l) m) (concat (map put l)) (map f l).
Proof.
  induction 1 as [|x l H _ IH]; simpl; [apply parses_ret|].
  eapply parses_bind; [done|]. by apply parses_map.
Qed.

Lemma parses_repeat_id {A} (put : A -> bytes) (m : decoder A) (l : list A) :
  Forall (fun x => parses m (put x) x) l ->
  parses (drepeat (length l) m) (concat (map put l)) l.
Proof. intros H. rewrite <- (map_id l) at 3. by apply (parses_repeat put m id). Qed.

Lemma dlocal_ret {A} (a : A) : dlocal (dret a).
Proof. intros bs a' r [= <- <-]. exists []. split; [done|apply parses_ret]. Qed.

Lemma dlocal_fail {A} e : dlocal (@dfail A e).
Proof. by intros bs a r [=]. Qed.

Lemma dlocal_bind {A B} (m : decoder A) (k : A -> decoder B) :
  dlocal m -> (forall a, dlocal (k a)) -> dlocal (dbind m k).
Proof.
  intros Hm Hk bs c r. unfold dbind. destruct (m bs) as [[a bs1]|] eqn:Hms; [|done]. intros Hks.
  destruct (Hm _ _ _ Hms) as (b1 & -> & H1). destruct (Hk _ _ _ _ Hks) as (b2 & -> & H2).
  exists (b1 ++ b2). split; [by rewrite app_assoc|]. by eapply parses_bind.
Qed.

Lemma dlocal_need n e : dlocal (need n e).
Proof.
  intros bs a r Hr. unfold need in Hr. destruct (Z.leb_spec n (zlen bs)) as [Hn|]; [|done].
  injection Hr as <- <-. exists (take (Z.to_nat n) bs). split; [by rewrite take_drop|].
  intros r. unfold need. rewrite zlen_app. unfold zlen in *. rewrite length_take.
  rewrite (proj2 (Z.leb_le _ _)) by lia. do 2 f_equal.
  - rewrite take_app_le by (rewrite length_take; lia). apply take_ge. rewrite length_take. lia.
  - rewrite drop_app_length' by (rewrite length_take; lia). done.
Qed.

Lemma dlocal_u8 e : dlocal (need_u8 e).
Proof. apply dlocal_bind; [apply dlocal_need|]. intros a. apply dlocal_ret. Qed.

Lemma dlocal_repeat {A} n (m : decoder A) : dlocal m -> dlocal (drepeat n m).
Proof.
  intros Hm. induction n; simpl; [apply dlocal_ret|].
  apply dlocal_bind; [done|]. intros a. apply dlocal_bind; [done|]. intros l. apply dlocal_ret.
Qed.

#[export] Hint Resolve dlocal_ret dlocal_fail dlocal_need dlocal_u8 dlocal_repeat dlocal_bind : nyx.

(** A decoder that consumes [bs] rejects every proper prefix of [bs]. *)
Lemma parses_prefix_err {A} (m : decoder A) bs a n :
  dlocal m -> parses m bs a -> (n < length bs)%nat -> exists e, m (take n bs) = Err e.
Proof.
  intros Hl Hp Hn. destruct (m (take n bs)) as [[a' r]|e] eqn:Hm; [|by exists e].
  destruct (Hl _ _ _ Hm) as (b & Hb & Hpb).
  pose proof (Hpb (r ++ drop n bs)) as H1. rewrite app_assoc, <- Hb, take_drop in H1.
  pose proof (Hp []) as H2. rewrite app_nil_r in H2. rewrite H2 in H1. injection H1 as _ H1.
  apply (f_equal length) in H1. rewrite length_app, length_drop in H1. simpl in H1. lia.
Qed.

Lemma get_le16_bytes v : in_u 16 v -> get_le16 (le_bytes 2 v) = v.
Proof.
  intros Hv. rewrite <- (le_val_bytes 2 v Hv) at 2. unfold get_le16, le_val, le_bytes, znth.
  cbn [seq map Z.to_nat nth]. by rewrite Z.shiftl_0_l, Z.lor_0_r.
Qed.

Lemma get_le32_bytes v : in_u 32 v -> get_le32 (le_bytes 4 v) = v.
Proof.
  intros Hv. rewrite <- (le_val_bytes 4 v Hv) at 2. unfold get_le32, le_val, le_bytes, znth.
  cbn [seq map Z.to_nat nth].
  rewrite !Z.shiftl_lor, !Z.shiftl_shiftl, Z.shiftl_0_l, Z.lor_0_r, !Z.lor_assoc by lia. done.
Qed.

Lemma put_le16_bytes v : put_le16 v = le_bytes 2 v.
Proof. reflexivity. Qed.

Lemma put_le32_bytes v : put_le32 v = le_bytes 4 v.
Proof. reflexivity. Qed.

Lemma parses_u16 v e : in_u 16 v -> parses (get* b := need 2 e in dret (get_le16 b)) (put_le16 v) v.
Proof. intros Hv. apply parses_fixed; [done|]. rewrite put_le16_bytes. by apply get_le16_bytes. Qed.

Lemma parses_str s n e : strlen s = n ->
  parses (get* b := need n e in dret (string_of_bytes b)) (bytes_of_string s) s.
Proof.
  intros <-. apply parses_fixed; [apply zlen_bytes_of_string|apply string_of_bytes_of_string].
Qed.

(** A [write] that reports success has stored the whole buffer. *)
Lemma store_file_ok what path io buf old f : store_file what path io buf old = (Ok tt, f) -> f = Ok buf.
Proof.
  unfold store_file. destruct io as [e|n e]; [by intros [=]|].
  destruct (Z.eqb_spec n (zlen buf)) as [->|]; simpl; [|by intros [=]].
  intros [= <-]. f_equal. apply take_ge. unfold zlen. lia.
Qed.

(** The outcomes of a [write]: nothing happened, or a prefix of the buffer is stored. *)
Lemma store_file_cases what path io buf old r f : store_file what path io buf old = (r, f) ->
  f = old \/ exists n, f = Ok (take n buf).
Proof.
  unfold store_file. destruct io as [e|n e]; [intros [= _ <-]; by left|].
  destruct (negb (n =? zlen buf)); intros [= _ <-]; right; by eexists.
Qed.

(** Magic number, count and entries, as both formats have them. *)
Lemma parses_counted {A} magic (put : A -> bytes) (m : decoder A) (l : list A) e1 e2 :
  length magic = 4%nat -> in_u 32 (zlen l) -> Forall (fun x => parses m (put x) x) l ->
  parses (get* header := need 8 e1 in
          if negb (bool_decide (take 4 header = magic)) then dfail e2
          else drepeat (Z.to_nat (get_le32 (drop 4 header))) m)
    (magic ++ put_le32 (wrap 32 (zlen l)) ++ concat (map put l)) l.
Proof.
  intros Hm Hl Hf. rewrite wrap_id, app_assoc by done. eapply parses_bind.
  { apply parses_need. unfold zlen at 1. rewrite length_app, Hm. reflexivity. }
  cbv beta. rewrite take_app_length', drop_app_length' by done.
  rewrite bool_decide_true by done. cbn [negb]. rewrite put_le32_bytes, get_le32_bytes by done.
  replace (Z.to_nat (zlen l)) with (length l) by (unfold zlen; lia). by apply parses_repeat_id.
Qed.

Lemma dlocal_counted {A} magic (m : decoder A) e1 e2 : dlocal m ->
  dlocal (get* header := need 8 e1 in
          if negb (bool_decide (take 4 header = magic)) then dfail e2
          else drepeat (Z.to_nat (get_le32 (drop 4 header))) m).
Proof.
  intros Hm. apply dlocal_bind; [apply dlocal_need|]. intros h.
  destruct (negb _); auto with nyx.
Qed.

(** Every prefix of the buffer decodes to the stored value or to an error. *)
Lemma parses_prefix {A} (m : decoder A) bs a n : dlocal m -> parses m bs a ->
  (let? r := m (take n bs) in Ok (fst r)) = Ok a \/ is_err (let? r := m (take n bs) in Ok (fst r)) = true.
Proof.
  intros Hl Hp. destruct (decide (n < length bs)%nat) as [Hn|Hn].
  - destruct (parses_prefix_err m bs a n Hl Hp Hn) as (e & ->). by right.
  - rewrite take_ge by lia. pose proof (Hp []) as H. rewrite app_nil_r in H. rewrite H. by left.
Qed.

(** The outcome of a [write] followed by a [read], for a format [m] with buffer [buf]. *)
Lemma store_then_read {A} (m : decoder A) (what path : string) buf a io old r f :
  dlocal m -> parses m buf a -> store_file what path io buf old = (r, f) ->
  let read g := match g with
                | Err e => Err (what +:+ " read: cannot open " +:+ path +:+ ": " +:+ e)
                | Ok raw => let? r := m raw in Ok (fst r)
                end in
  (r = Ok tt -> read f = Ok a) /\
  (f = old \/ read f = Ok a \/ is_err (read f) = true).
Proof.
  intros Hl Hp Hs read. split.
  - intros ->. rewrite (store_file_ok _ _ _ _ _ _ Hs). unfold read.
    pose proof (Hp []) as H. rewrite app_nil_r in H. by rewrite H.
  - destruct (store_file_cases _ _ _ _ _ _ _ Hs) as [->|[n ->]]; [by left|].
    right. by apply parses_prefix.
Qed.
