(* ===== verification/Wal.v ===== *)
(** * Write-ahead log

    [WalWriter] (src/src/storage/wal/wal_writer.h, wal_writer.cpp), [WalReader]
    (wal_reader.h, wal_reader.cpp) and the record encoding (wal_record.h).

    The log file is its list of bytes; appends never fail here (a short write or a
    failed fsync is the operating system's).  The reader consumes the file through a
    state monad [rd] whose state keeps the position and the payload collected so far,
    also when a read fails, because [bytes_consumed] reports that position. *)

From S2P Require Import Prelude Types XXHash Wire.

(** ** Encoding: wal_record.h *)

Definition WAL_MAGIC : bytes := [78; 87; 65; 76].
Definition WAL_VERSION : Z := 1.
Definition WAL_TYPE_INSERT : Z := 1.
Definition WAL_TYPE_CREATE : Z := 2.
Definition WAL_TYPE_DELETE : Z := 3.
Definition WAL_TYPE_UPDATE : Z := 4.
Definition WAL_TYPE_SEGMENT_FLUSH : Z := 5.
Definition WAL_HEADER_SIZE : Z := 6.

Definition wal_put_u16 (v : Z) : bytes := [Z.land v 255; Z.land (Z.shiftr v 8) 255].
Definition wal_put_u32 (v : Z) : bytes :=
  [Z.land v 255; Z.land (Z.shiftr v 8) 255; Z.land (Z.shiftr v 16) 255; Z.land (Z.shiftr v 24) 255].
Definition wal_put_u64 (v : Z) : bytes := le_bytes 8 v.

Definition wal_read_u16 (src : bytes) : Z := Z.lor (znth src 0) (Z.shiftl (znth src 1) 8).
Definition wal_read_u32 (src : bytes) : Z :=
  Z.lor (Z.lor (Z.lor (znth src 0) (Z.shiftl (znth src 1) 8)) (Z.shiftl (znth src 2) 16))
        (Z.shiftl (znth src 3) 24).
Definition wal_read_u64 (src : bytes) : Z := or_bytes src 0 8 0.

(** ** Writer *)

Record WalWriter : Type := mkWriter { offset_ : Z; log : bytes }.

(** [open]: [None] is a path where no file exists. *)
Definition writer_open (file : option bytes) : WalWriter :=
  match file with
  | None => mkWriter WAL_HEADER_SIZE (WAL_MAGIC ++ wal_put_u16 WAL_VERSION)
  | Some f => mkWriter (zlen f) f
  end.

Definition write_record (w : WalWriter) (buf : bytes) : WalWriter :=
  let checksum := xxhash64 buf in
  let buf := buf ++ wal_put_u64 checksum in
  mkWriter (wrap 64 (offset_ w + zlen buf)) (log w ++ buf).

(** [wal_put_u16(size); insert(table)] *)
Definition put_name (s : string) : bytes := wal_put_u16 (wrap 16 (strlen s)) ++ bytes_of_string s.

(** A non-null cell, by the type of its column; [None]: [std::get] throws. *)
Definition put_cell (t : TypeId) (v : Value) : option bytes :=
  match t, v with
  | INT32, VI32 x => Some (wal_put_u32 (wrap 32 x))
  | INT64, VI64 x => Some (wal_put_u64 (wrap 64 x))
  | DOUBLE, VF64 b => Some (wal_put_u64 b)
  | BOOL, VBool b => Some [if b then 1 else 0]
  | DATE, VDate d => Some (wal_put_u32 (wrap 32 d))
  | TIMESTAMP, VTimestamp m => Some (wal_put_u64 (wrap 64 m))
  | INT32, _ | INT64, _ | DOUBLE, _ | BOOL, _ | DATE, _ | TIMESTAMP, _ => None
  | _, VStr s => Some (put_name s)
  | _, _ => None
  end.

(** One row; [None] also when the row is longer than the schema. *)
Fixpoint put_row (schema : Schema) (row : list Value) : option bytes :=
  match row with
  | [] => Some []
  | v :: row' =>
      match schema with
      | [] => if is_null v then let! r := put_row [] row' in Some (1 :: r) else None
      | col :: schema' =>
          let! c := (if is_null v then Some [1] else let! b := put_cell (col_type col) v in Some (0 :: b)) in
          let! r := put_row schema' row' in
          Some (c ++ r)
      end
  end.

Fixpoint put_rows (schema : Schema) (rows : list (list Value)) : option bytes :=
  match rows with
  | [] => Some []
  | row :: rows' =>
      let! r := put_row schema row in
      let! rs := put_rows schema rows' in
      Some (r ++ rs)
  end.

Definition put_col_headers (schema : Schema) : bytes :=
  concat (map (fun col => type_code (col_type col) :: wal_put_u16 (col_max_len col)) schema).

Definition insert_body (schema : Schema) (rows : list (list Value)) : option bytes :=
  let! rs := put_rows schema rows in
  Some (wal_put_u32 (wrap 32 (zlen rows)) ++ wal_put_u16 (wrap 16 (zlen schema)) ++
        put_col_headers schema ++ rs).

Definition put_indices (idx : list Z) : bytes :=
  wal_put_u64 (zlen idx) ++ concat (map wal_put_u64 idx).

(** The default value of a column: its type code and its bytes. *)
Definition put_default (d : option Value) : bytes :=
  match d with
  | None => [0]
  | Some dv =>
      [1; match dv with
          | VI32 _ => type_code INT32 | VI64 _ => type_code INT64 | VF64 _ => type_code DOUBLE
          | VStr _ => type_code VARCHAR | VBool _ => type_code BOOL | VDate _ => type_code DATE
          | VTimestamp _ => type_code TIMESTAMP | VNull => type_code INT32
          end] ++
      match dv with
      | VI32 x => wal_put_u32 (wrap 32 x)
      | VI64 x => wal_put_u64 (wrap 64 x)
      | VF64 b => wal_put_u64 b
      | VStr s => put_name s
      | VBool b => [if b then 1 else 0]
      | VDate d => wal_put_u32 (wrap 32 d)
      | VTimestamp m => wal_put_u64 (wrap 64 m)
      | VNull => []
      end
  end.

Definition put_column (col : Column) : bytes :=
  [type_code (col_type col); if col_nullable col then 1 else 0] ++ wal_put_u16 (col_max_len col) ++
  put_name (col_name col) ++ put_default (col_default col).

Definition log_insert (w : WalWriter) (table : string) (schema : Schema) (rows : list (list Value))
    : option WalWriter :=
  match rows with
  | [] => Some w
  | _ =>
      let! body := insert_body schema rows in
      Some (write_record w (WAL_TYPE_INSERT :: put_name table ++ body))
  end.

Definition log_create_table (w : WalWriter) (table : string) (schema : Schema) : WalWriter :=
  write_record w (WAL_TYPE_CREATE :: put_name table ++ wal_put_u16 (wrap 16 (zlen schema)) ++
                  concat (map put_column schema)).

Definition log_delete (w : WalWriter) (table : string) (row_indices : list Z) : WalWriter :=
  write_record w (WAL_TYPE_DELETE :: put_name table ++ put_indices row_indices).

Definition log_update (w : WalWriter) (table : string) (old_indices : list Z) (schema : Schema)
    (new_rows : list (list Value)) : option WalWriter :=
  let! body := insert_body schema new_rows in
  Some (write_record w (WAL_TYPE_UPDATE :: put_name table ++ put_indices old_indices ++ body)).

Definition log_segment_flush (w : WalWriter) (table : string) (sealed_row_count : Z) : WalWriter :=
  write_record w (WAL_TYPE_SEGMENT_FLUSH :: put_name table ++ wal_put_u64 sealed_row_count).

(** [checkpoint]: the file is removed. *)
Definition checkpoint (w : WalWriter) : WalWriter := mkWriter 0 [].

(** ** Reader *)

(** [struct WalRecord]; the type is its code. *)
Record WalRecord : Type := mkRec {
  rec_type : Z;
  byte_offset : Z;
  table_name : string;
  rec_schema : Schema;
  rec_rows : list (list Value);
  row_indices : list Z;
  sealed_row_count : Z
}.

(** The unread bytes of the file, [pos], and [payload]. *)
Record rst : Type := mkSt { rest : bytes; pos : Z; payload : bytes }.

(** A read either yields a value or fails; both leave a state. *)
Definition rd (A : Type) : Type := rst -> option A * rst.

Definition ret {A} (a : A) : rd A := fun s => (Some a, s).
Definition fail {A} : rd A := fun s => (None, s).
Definition bind {A B} (m : rd A) (k : A -> rd B) : rd B := fun s =>
  match m s with
  | (Some a, s') => k a s'
  | (None, s') => (None, s')
  end.

Notation "'do*' x ':=' m 'in' k" := (bind m (fun x => k))
  (at level 10, x name, m at level 100, k at level 200) : nyx_scope.

(** [read_exact(fd, buf, n)] and, on success, [payload.insert(...); pos += n];
    [n] is a [usize]. *)
Definition read_bytes (n : Z) : rd bytes := fun s =>
  if (0 <=? n) && (n <=? zlen (rest s)) then
    let b := take (Z.to_nat n) (rest s) in
    (Some b, mkSt (drop (Z.to_nat n) (rest s)) (pos s + n) (payload s ++ b))
  else (None, s).

Definition read_u8 : rd Z := do* b := read_bytes 1 in ret (znth b 0).
Definition read_u16 : rd Z := do* b := read_bytes 2 in ret (wal_read_u16 b).
Definition read_u64 : rd Z := do* b := read_bytes 8 in ret (wal_read_u64 b).
Definition read_str (n : Z) : rd string := do* b := read_bytes n in ret (string_of_bytes b).

(** [for (i = 0; i < n && ok; ++i)] *)
Fixpoint repeat_rd {A} (n : nat) (m : rd A) : rd (list A) :=
  match n with
  | O => ret []
  | S n' => do* a := m in do* l := repeat_rd n' m in ret (a :: l)
  end.

(** The loop over the columns of one row, or of one schema. *)
Fixpoint each_rd {A B} (l : list A) (f : A -> rd B) : rd (list B) :=
  match l with
  | [] => ret []
  | a :: l' => do* b := f a in do* bs := each_rd l' f in ret (b :: bs)
  end.

(** The [switch] on the type of a default value. *)
Definition read_default_value (dt : TypeId) : rd Value :=
  match dt with
  | INT32 => do* b := read_bytes 4 in ret (VI32 (signed 32 (le_val b)))
  | INT64 => do* b := read_bytes 8 in ret (VI64 (signed 64 (le_val b)))
  | DOUBLE => do* b := read_bytes 8 in ret (VF64 (le_val b))
  | VARCHAR => do* n := read_u16 in do* s := read_str n in ret (VStr s)
  | BOOL => do* b := read_u8 in ret (VBool (negb (b =? 0)))
  | DATE => do* b := read_bytes 4 in ret (VDate (signed 32 (le_val b)))
  | TIMESTAMP => do* b := read_bytes 8 in ret (VTimestamp (signed 64 (le_val b)))
  | _ => fail
  end.

Definition read_default : rd (option Value) :=
  do* has_default := read_u8 in
  if negb (has_default =? 0) then
    do* dt := read_u8 in
    do* v := read_default_value (type_of_code dt) in
    ret (Some v)
  else ret None.

(** One column of a CREATE record. *)
Definition read_column : rd Column :=
  do* h := read_bytes 6 in
  let cname_len := wal_read_u16 (drop 4 h) in
  do* cname := read_str cname_len in
  do* def := read_default in
  ret (mkColumn cname (type_of_code (znth h 0)) (negb (znth h 1 =? 0)) (wal_read_u16 (drop 2 h)) def).

Definition read_create : rd Schema :=
  do* n := read_u16 in repeat_rd (Z.to_nat n) read_column.

Definition read_indices : rd (list Z) :=
  do* n := read_u64 in repeat_rd (Z.to_nat n) read_u64.

(** A column header of an INSERT or UPDATE record. *)
Definition read_col_header : rd Column :=
  do* h := read_bytes 3 in
  ret (mkColumn "" (type_of_code (znth h 0)) false (wal_read_u16 (drop 1 h)) None).

Definition read_cell (col : Column) : rd Value :=
  do* is_null := read_u8 in
  if negb (is_null =? 0) then ret VNull
  else
    match col_type col with
    | INT32 => do* b := read_bytes 4 in ret (VI32 (signed 32 (wal_read_u32 b)))
    | INT64 => do* b := read_bytes 8 in ret (VI64 (signed 64 (wal_read_u64 b)))
    | DOUBLE => do* b := read_bytes 8 in ret (VF64 (wal_read_u64 b))
    | BOOL => do* b := read_u8 in ret (VBool (negb (b =? 0)))
    | DATE => do* b := read_bytes 4 in ret (VDate (signed 32 (wal_read_u32 b)))
    | TIMESTAMP => do* b := read_bytes 8 in ret (VTimestamp (signed 64 (wal_read_u64 b)))
    | _ => do* n := read_u16 in do* s := read_str n in ret (VStr s)
    end.

(** Counts, column headers and rows: the tail of an INSERT or UPDATE record. *)
Definition read_rows : rd (Schema * list (list Value)) :=
  do* counts := read_bytes 6 in
  let row_count := wal_read_u32 counts in
  let col_count := wal_read_u16 (drop 4 counts) in
  do* schema := repeat_rd (Z.to_nat col_count) read_col_header in
  do* rows := repeat_rd (Z.to_nat row_count) (each_rd schema read_cell) in
  ret (schema, rows).

(** The branches on the type byte, after the table name. *)
Definition read_body (type_byte start : Z) (name : string) : rd WalRecord :=
  if type_byte =? WAL_TYPE_CREATE then
    do* schema := read_create in
    ret (mkRec type_byte start name schema [] [] 0)
  else if type_byte =? WAL_TYPE_DELETE then
    do* idx := read_indices in
    ret (mkRec type_byte start name [] [] idx 0)
  else if type_byte =? WAL_TYPE_UPDATE then
    do* idx := read_indices in
    do* sr := read_rows in
    ret (mkRec type_byte start name (fst sr) (snd sr) idx 0)
  else if type_byte =? WAL_TYPE_SEGMENT_FLUSH then
    do* n := read_u64 in
    ret (mkRec type_byte start name [] [] [] n)
  else
    do* sr := read_rows in
    ret (mkRec type_byte start name (fst sr) (snd sr) [] 0).

(** [read_exact(cs_bytes, 8)]: moves [pos] but not [payload]. *)
Definition read_checksum : rd Z := fun s =>
  if 8 <=? zlen (rest s) then
    (Some (wal_read_u64 (take 8 (rest s))), mkSt (drop 8 (rest s)) (pos s + 8) (payload s))
  else (None, s).

(** One turn of the loop: the record, or a [break] (with the position reached). *)
Definition read_record (file : bytes) (p : Z) : option WalRecord * bytes * Z :=
  match file with
  | [] => (None, file, p)
  | type_byte :: file' =>
      if negb ((type_byte =? WAL_TYPE_INSERT) || (type_byte =? WAL_TYPE_CREATE) ||
               (type_byte =? WAL_TYPE_DELETE) || (type_byte =? WAL_TYPE_UPDATE) ||
               (type_byte =? WAL_TYPE_SEGMENT_FLUSH))
      then (None, file, p)
      else
        let m :=
          do* name_len := read_u16 in
          do* name := read_str name_len in
          read_body type_byte p name in
        match m (mkSt file' (p + 1) [type_byte]) with
        | (None, s) => (None, rest s, pos s)
        | (Some rec, s) =>
            match read_checksum s with
            | (None, s) => (None, rest s, pos s)
            | (Some stored, s) =>
                if negb (stored =? xxhash64 (payload s)) then (None, rest s, pos s)
                else (Some rec, rest s, pos s)
            end
        end
  end.

(** The [while] loop; a successful turn consumes at least one byte. *)
Fixpoint read_records (fuel : nat) (file : bytes) (p : Z) : list WalRecord * Z :=
  match fuel with
  | O => ([], p)
  | S fuel' =>
      match read_record file p with
      | (None, _, p) => ([], p)
      | (Some rec, file, p) =>
          let '(recs, p) := read_records fuel' file p in (rec :: recs, p)
      end
  end.

(** The records and [bytes_consumed]. *)
Definition read_all (file : bytes) : result (list WalRecord * Z) :=
  if zlen file <? WAL_HEADER_SIZE then Err "WalReader: cannot read header"
  else if negb (bool_decide (take 4 file = WAL_MAGIC)) then Err "WalReader: bad magic"
  else
    let '(recs, p) := read_records (length file) (drop (Z.to_nat WAL_HEADER_SIZE) file) WAL_HEADER_SIZE in
    Ok (recs, p - WAL_HEADER_SIZE).

(** ** What a reader does on the bytes an encoder wrote *)

(** [m] consumes exactly [bs], whatever follows, and returns [a]. *)
Definition reads {A} (m : rd A) (bs : bytes) (a : A) : Prop :=
  forall r p pay, m (mkSt (bs ++ r) p pay) = (Some a, mkSt r (p + zlen bs) (pay ++ bs)).

(** [m] only looks at the bytes it consumes. *)
Definition local {A} (m : rd A) : Prop :=
  forall s a s', m s = (Some a, s') -> exists b, rest s = b ++ rest s' /\ reads m b a.

Lemma reads_ret {A} (a : A) : reads (ret a) [] a.
Proof. intros r p pay. unfold ret. simpl. by rewrite Z.add_0_r, app_nil_r. Qed.

Lemma reads_bind {A B} (m : rd A) (k : A -> rd B) b1 b2 a c :
  reads m b1 a -> reads (k a) b2 c -> reads (bind m k) (b1 ++ b2) c.
Proof.
  intros Hm Hk r p pay. unfold bind. rewrite <- app_assoc, Hm, Hk.
  by rewrite zlen_app, Z.add_assoc, <- app_assoc.
Qed.

Lemma reads_bind_ret {A B} (m : rd A) (f : A -> B) b a :
  reads m b a -> reads (do* x := m in ret (f x)) b (f a).
Proof. intros H. rewrite <- (app_nil_r b). eapply reads_bind; [done|apply reads_ret]. Qed.

Lemma reads_bytes b n : zlen b = n -> reads (read_bytes n) b b.
Proof.
  intros <- r p pay. unfold read_bytes. cbn [rest]. rewrite zlen_app.
  pose proof (zlen_nonneg r). pose proof (zlen_nonneg b).
  rewrite !(proj2 (Z.leb_le _ _)) by lia. cbn [andb].
  replace (Z.to_nat (zlen b)) with (length b) by (unfold zlen; lia).
  by rewrite take_app_length, drop_app_length.
Qed.

Lemma reads_repeat {A} (m : rd A) bss l : Forall2 (reads m) bss l ->
  reads (repeat_rd (length l) m) (concat bss) l.
Proof.
  induction 1 as [|b a bss l H _ IH]; simpl; [apply reads_ret|].
  eapply reads_bind; [done|]. by apply reads_bind_ret.
Qed.

Lemma local_ret {A} (a : A) : local (ret a).
Proof. intros s a' s' [= <- <-]. exists []. split; [done|apply reads_ret]. Qed.

Lemma local_fail {A} : local (@fail A).
Proof. by intros s a s' [=]. Qed.

Lemma local_bind {A B} (m : rd A) (k : A -> rd B) : local m -> (forall a, local (k a)) -> local (bind m k).
Proof.
  intros Hm Hk s c s'. unfold bind. destruct (m s) as [[a|] s1] eqn:Hms; [|done]. intros Hks.
  destruct (Hm _ _ _ Hms) as (b1 & Hr1 & H1). destruct (Hk _ _ _ _ Hks) as (b2 & Hr2 & H2).
  exists (b1 ++ b2). split; [by rewrite Hr1, Hr2, app_assoc|]. by eapply reads_bind.
Qed.

Lemma local_bytes n : local (read_bytes n).
Proof.
  intros s a s' Hr. unfold read_bytes in Hr.
  destruct (Z.leb_spec 0 n), (Z.leb_spec n (zlen (rest s))); try done.
  injection Hr as <- <-. exists (take (Z.to_nat n) (rest s)). cbn [rest]. split; [by rewrite take_drop|].
  apply reads_bytes. unfold zlen in *. rewrite length_take. lia.
Qed.

Lemma local_repeat {A} n (m : rd A) : local m -> local (repeat_rd n m).
Proof.
  intros Hm. induction n; simpl; [apply local_ret|].
  apply local_bind; [done|]. intros a. apply local_bind; [done|]. intros l. apply local_ret.
Qed.

Lemma local_each {A B} (l : list A) (f : A -> rd B) : (forall a, local (f a)) -> local (each_rd l f).
Proof.
  intros Hf. induction l; simpl; [apply local_ret|].
  apply local_bind; [done|]. intros b. apply local_bind; [done|]. intros bs. apply local_ret.
Qed.

#[export] Hint Resolve local_ret local_fail local_bytes local_repeat local_each local_bind : nyx.

(** ** The encodings *)

Lemma put_u16_le v : wal_put_u16 v = le_bytes 2 v.
Proof. reflexivity. Qed.

Lemma put_u32_le v : wal_put_u32 v = le_bytes 4 v.
Proof. reflexivity. Qed.

Lemma read_put_u16 v : in_u 16 v -> wal_read_u16 (le_bytes 2 v) = v.
Proof. intros Hv. rewrite <- (app_nil_r (le_bytes 2 v)). by apply (decode_u16_app v []). Qed.

Lemma read_u32_le b : length b = 4%nat -> wal_read_u32 b = le_val b.
Proof.
  intros Hb. destruct b as [|b0 [|b1 [|b2 [|b3 [|]]]]]; try done.
  unfold wal_read_u32, le_val, znth. simpl nth.
  rewrite !Z.shiftl_lor, !Z.shiftl_shiftl, Z.shiftl_0_l, Z.lor_0_r, !Z.lor_assoc by lia. done.
Qed.

Lemma read_put_u32 v : in_u 32 v -> wal_read_u32 (le_bytes 4 v) = v.
Proof. intros Hv. rewrite read_u32_le by apply le_bytes_length. by apply le_val_bytes. Qed.

Lemma read_put_u64 v : in_u 64 v -> wal_read_u64 (le_bytes 8 v) = v.
Proof. intros Hv. rewrite <- (app_nil_r (le_bytes 8 v)). by apply (decode_u64_app v []). Qed.

Lemma reads_u16 v : in_u 16 v -> reads read_u16 (wal_put_u16 v) v.
Proof.
  intros Hv. rewrite put_u16_le. rewrite <- (read_put_u16 v Hv) at 2.
  apply (reads_bind_ret _ wal_read_u16), reads_bytes, zlen_le_bytes.
Qed.

Lemma reads_u64 v : in_u 64 v -> reads read_u64 (wal_put_u64 v) v.
Proof.
  intros Hv. unfold wal_put_u64. rewrite <- (read_put_u64 v Hv) at 2.
  apply (reads_bind_ret _ wal_read_u64), reads_bytes, zlen_le_bytes.
Qed.

Lemma reads_u8 b : reads read_u8 [b] b.
Proof. apply (reads_bind_ret (read_bytes 1) (fun b => znth b 0) [b] [b]). by apply reads_bytes. Qed.

Lemma reads_str s : reads (read_str (strlen s)) (bytes_of_string s) s.
Proof.
  rewrite <- (string_of_bytes_of_string s) at 3.
  apply (reads_bind_ret _ string_of_bytes), reads_bytes, zlen_bytes_of_string.
Qed.

Lemma reads_name {A} s (k : string -> rd A) b c : in_u 16 (strlen s) -> reads (k s) b c ->
  reads (do* n := read_u16 in do* s := read_str n in k s) (put_name s ++ b) c.
Proof.
  intros Hs Hk. unfold put_name. rewrite wrap_id, <- app_assoc by done.
  eapply reads_bind; [by apply reads_u16|]. eapply reads_bind; [apply reads_str|done].
Qed.

Lemma reads_fixed {A} n v (f : bytes -> A) a : f (le_bytes n v) = a ->
  reads (do* b := read_bytes (Z.of_nat n) in ret (f b)) (le_bytes n v) a.
Proof. intros <-. apply (reads_bind_ret _ f), reads_bytes, zlen_le_bytes. Qed.

(** A value the log can hold in a column of type [t]. *)
Definition cell_ok (t : TypeId) (v : Value) : Prop :=
  match v with
  | VNull => True
  | VStr s => t = VARCHAR /\ in_u 16 (strlen s)
  | _ => variant_type v = t /\ value_wf v
  end.

Definition put_null_cell (t : TypeId) (v : Value) : option bytes :=
  if is_null v then Some [1] else let! b := put_cell t v in Some (0 :: b).

Lemma reads_cell col v : cell_ok (col_type col) v ->
  exists b, put_null_cell (col_type col) v = Some b /\ reads (read_cell col) b v.
Proof.
  intros Hok. unfold put_null_cell, read_cell.
  destruct v as [|x|x|x|s|b|x|x]; simpl in *.
  { exists [1]. split; [done|]. rewrite <- (app_nil_r [1]).
    eapply reads_bind; [apply reads_u8|]. apply reads_ret. }
  all: destruct Hok as [Ht Hwf]; first [rewrite <- Ht | rewrite Ht]; eexists; (split; [done|]).
  all: match goal with |- reads _ (0 :: ?b) _ => change (0 :: b) with ([0] ++ b) end;
    (eapply reads_bind; [apply reads_u8|]); cbn [Z.eqb negb].
  - apply (reads_fixed 4). rewrite read_put_u32 by auto with nyx. by rewrite signed_wrap.
  - apply (reads_fixed 8). rewrite read_put_u64 by auto with nyx. by rewrite signed_wrap.
  - apply (reads_fixed 8). by rewrite read_put_u64.
  - rewrite <- (app_nil_r (put_name s)). apply reads_name; [done|]. apply reads_ret.
  - rewrite <- (app_nil_r [_]). eapply reads_bind; [apply reads_u8|]. by destruct b; apply reads_ret.
  - apply (reads_fixed 4). rewrite read_put_u32 by auto with nyx. by rewrite signed_wrap.
  - apply (reads_fixed 8). rewrite read_put_u64 by auto with nyx. by rewrite signed_wrap.
Qed.

(** The schema an INSERT or UPDATE record carries: types and lengths only. *)
Definition strip (col : Column) : Column := mkColumn "" (col_type col) false (col_max_len col) None.

Definition row_ok (schema : Schema) (row : list Value) : Prop :=
  Forall2 (fun col v => cell_ok (col_type col) v) schema row.

Definition header_ok (col : Column) : Prop := type_named (col_type col) /\ in_u 16 (col_max_len col).

Lemma reads_row schema row : row_ok schema row ->
  exists b, put_row schema row = Some b /\ reads (each_rd (map strip schema) read_cell) b row.
Proof.
  induction 1 as [|col v schema row Hc _ IH]; [exists []; split; [done|apply reads_ret]|].
  destruct IH as (br & Hbr & Hr). destruct (reads_cell (strip col) v Hc) as (b & Hb & Hrb).
  exists (b ++ br). unfold put_null_cell in Hb. cbn [strip col_type] in Hb. cbn [put_row].
  rewrite Hb, Hbr. split; [done|]. cbn [map each_rd]. eapply reads_bind; [exact Hrb|].
  by apply (reads_bind_ret _ (cons v)).
Qed.

Lemma reads_rows schema rows : Forall (row_ok schema) rows ->
  exists b, put_rows schema rows = Some b /\
    reads (repeat_rd (length rows) (each_rd (map strip schema) read_cell)) b rows.
Proof.
  induction 1 as [|row rows Hrow _ IH]; [exists []; split; [done|apply reads_ret]|].
  destruct IH as (bs & Hbs & Hr). destruct (reads_row schema row Hrow) as (b & Hb & Hrb).
  exists (b ++ bs). cbn [put_rows]. rewrite Hb, Hbs. split; [done|]. cbn [length repeat_rd].
  eapply reads_bind; [exact Hrb|]. by apply (reads_bind_ret _ (cons row)).
Qed.

Lemma reads_col_header col : header_ok col ->
  reads read_col_header (type_code (col_type col) :: wal_put_u16 (col_max_len col)) (strip col).
Proof.
  intros [Ht Hm]. unfold read_col_header. set (h := _ :: _).
  replace (strip col) with
    (mkColumn "" (type_of_code (znth h 0)) false (wal_read_u16 (drop 1 h)) None).
  - apply (reads_bind_ret _ (fun h => mkColumn "" (type_of_code (znth h 0)) false (wal_read_u16 (drop 1 h)) None)).
    by apply reads_bytes.
  - unfold strip, h. f_equal; [by apply type_of_code_code|]. by apply read_put_u16.
Qed.

Lemma reads_col_headers schema : Forall header_ok schema ->
  reads (repeat_rd (length schema) read_col_header) (put_col_headers schema) (map strip schema).
Proof.
  intros H. rewrite <- (length_map strip). apply reads_repeat.
  induction H; simpl; constructor; [by apply reads_col_header|done].
Qed.

Lemma read_u32_app v r : in_u 32 v -> wal_read_u32 (le_bytes 4 v ++ r) = v.
Proof. intros Hv. rewrite <- (read_put_u32 v Hv) at 2. reflexivity. Qed.

Lemma reads_insert_body schema rows : Forall header_ok schema -> Forall (row_ok schema) rows ->
  in_u 32 (zlen rows) -> in_u 16 (zlen schema) ->
  exists b, insert_body schema rows = Some b /\ reads read_rows b (map strip schema, rows).
Proof.
  intros Hh Hr Hn Hc. destruct (reads_rows schema rows Hr) as (b & Hb & Hrb).
  unfold insert_body. rewrite Hb. eexists. split; [done|]. unfold read_rows.
  rewrite !wrap_id, app_assoc by done.
  eapply reads_bind; [by apply reads_bytes|]. cbv zeta.
  rewrite put_u32_le, read_u32_app, drop_app_length' by (done || by rewrite le_bytes_length).
  rewrite put_u16_le, read_put_u16 by done.
  replace (Z.to_nat (zlen schema)) with (length schema) by (unfold zlen; lia).
  replace (Z.to_nat (zlen rows)) with (length rows) by (unfold zlen; lia).
  eapply reads_bind; [by apply reads_col_headers|].
  by apply (reads_bind_ret _ (fun rows => (map strip schema, rows))).
Qed.

Lemma reads_indices idx : Forall (in_u 64) idx -> in_u 64 (zlen idx) ->
  reads read_indices (put_indices idx) idx.
Proof.
  intros Hi Hn. unfold read_indices, put_indices. eapply reads_bind; [by apply reads_u64|].
  replace (Z.to_nat (zlen idx)) with (length idx) by (unfold zlen; lia).
  apply reads_repeat. induction Hi; simpl; constructor; [by apply reads_u64|].
  apply IHHi. unfold in_u, zlen in *. simpl in Hn. lia.
Qed.

Lemma reads_default d : default_ok d -> reads read_default (put_default d) d.
Proof.
  unfold read_default, put_default. intros Hok. destruct d as [v|].
  2:{ rewrite <- (app_nil_r [0]). eapply reads_bind; [apply reads_u8|]. apply reads_ret. }
  destruct v as [|x|x|x|s|b|x|x]; [done|..]; simpl in Hok;
    match goal with |- reads _ ([1; ?t] ++ ?b) _ => change ([1; t] ++ b) with ([1] ++ [t] ++ b) end;
    (eapply reads_bind; [apply reads_u8|]); cbn [Z.eqb negb];
    (eapply reads_bind; [apply reads_u8|]); apply (reads_bind_ret _ Some);
    cbn [read_default_value type_of_code type_code].
  - apply (reads_fixed 4). rewrite le_val_bytes by auto with nyx. by rewrite signed_wrap.
  - apply (reads_fixed 8). rewrite le_val_bytes by auto with nyx. by rewrite signed_wrap.
  - apply (reads_fixed 8). by rewrite le_val_bytes.
  - rewrite <- (app_nil_r (put_name s)). apply reads_name; [done|]. apply reads_ret.
  - rewrite <- (app_nil_r [_]). eapply reads_bind; [apply reads_u8|]. by destruct b; apply reads_ret.
  - apply (reads_fixed 4). rewrite le_val_bytes by auto with nyx. by rewrite signed_wrap.
  - apply (reads_fixed 8). rewrite le_val_bytes by auto with nyx. by rewrite signed_wrap.
Qed.

Lemma reads_column col : column_ok col -> reads read_column (put_column col) col.
Proof.
  intros (Ht & Hm & Hn & Hd). unfold read_column, put_column, put_name. rewrite wrap_id by done.
  set (h := [type_code (col_type col); if col_nullable col then 1 else 0] ++ wal_put_u16 (col_max_len col) ++
            wal_put_u16 (strlen (col_name col))).
  assert (Hsplit : [type_code (col_type col); if col_nullable col then 1 else 0] ++
      wal_put_u16 (col_max_len col) ++ (wal_put_u16 (strlen (col_name col)) ++ bytes_of_string (col_name col)) ++
      put_default (col_default col) = h ++ bytes_of_string (col_name col) ++ put_default (col_default col)).
  { unfold h. by rewrite <- !app_assoc. }
  rewrite Hsplit. eapply reads_bind; [by apply reads_bytes|]. cbv zeta.
  assert (H4 : wal_read_u16 (drop 4 h) = strlen (col_name col)) by (by apply read_put_u16).
  assert (H2 : wal_read_u16 (drop 2 h) = col_max_len col).
  { transitivity (wal_read_u16 (wal_put_u16 (col_max_len col))); [reflexivity|by apply read_put_u16]. }
  rewrite H4, H2. eapply reads_bind; [apply reads_str|].
  pose proof (reads_bind_ret read_default (fun def => mkColumn (col_name col) (type_of_code (znth h 0))
    (negb (znth h 1 =? 0)) (col_max_len col) def) _ _ (reads_default _ Hd)) as Hr.
  replace (mkColumn _ _ _ _ _) with col in Hr; [exact Hr|].
  destruct col as [nm t nl ml d]. unfold h. cbn in *. f_equal.
  - symmetry. by apply type_of_code_code.
  - by destruct nl.
Qed.

Lemma reads_create schema : Forall column_ok schema -> in_u 16 (zlen schema) ->
  reads read_create (wal_put_u16 (wrap 16 (zlen schema)) ++ concat (map put_column schema)) schema.
Proof.
  intros Hs Hn. unfold read_create. rewrite wrap_id by done. eapply reads_bind; [by apply reads_u16|].
  replace (Z.to_nat (zlen schema)) with (length schema) by (unfold zlen; lia).
  apply reads_repeat. clear Hn. induction Hs; simpl; constructor; [by apply reads_column|done].
Qed.

(** ** Log operations *)

Inductive LogOp : Type :=
| LInsert (table : string) (schema : Schema) (rows : list (list Value))
| LCreate (table : string) (schema : Schema)
| LDelete (table : string) (indices : list Z)
| LUpdate (table : string) (indices : list Z) (schema : Schema) (rows : list (list Value))
| LFlush (table : string) (sealed : Z).

Definition log_op (w : WalWriter) (o : LogOp) : option WalWriter :=
  match o with
  | LInsert t schema rows => log_insert w t schema rows
  | LCreate t schema => Some (log_create_table w t schema)
  | LDelete t idx => Some (log_delete w t idx)
  | LUpdate t idx schema rows => log_update w t idx schema rows
  | LFlush t n => Some (log_segment_flush w t n)
  end.

Fixpoint log_ops (w : WalWriter) (os : list LogOp) : option WalWriter :=
  match os with
  | [] => Some w
  | o :: os' => let! w := log_op w o in log_ops w os'
  end.

Definition op_table (o : LogOp) : string :=
  match o with
  | LInsert t _ _ | LCreate t _ | LDelete t _ | LUpdate t _ _ _ | LFlush t _ => t
  end.

Definition op_code (o : LogOp) : Z :=
  match o with
  | LInsert _ _ _ => WAL_TYPE_INSERT | LCreate _ _ => WAL_TYPE_CREATE
  | LDelete _ _ => WAL_TYPE_DELETE | LUpdate _ _ _ _ => WAL_TYPE_UPDATE
  | LFlush _ _ => WAL_TYPE_SEGMENT_FLUSH
  end.

(** The sizes fit the fields and the values fit the columns. *)
Definition op_ok (o : LogOp) : Prop :=
  in_u 16 (strlen (op_table o)) /\
  match o with
  | LInsert _ schema rows =>
      rows <> [] /\ Forall header_ok schema /\ Forall (row_ok schema) rows /\
      in_u 32 (zlen rows) /\ in_u 16 (zlen schema)
  | LCreate _ schema => Forall column_ok schema /\ in_u 16 (zlen schema)
  | LDelete _ idx => Forall (in_u 64) idx /\ in_u 64 (zlen idx)
  | LUpdate _ idx schema rows =>
      Forall (in_u 64) idx /\ in_u 64 (zlen idx) /\ Forall header_ok schema /\
      Forall (row_ok schema) rows /\ in_u 32 (zlen rows) /\ in_u 16 (zlen schema)
  | LFlush _ n => in_u 64 n
  end.

(** The record the reader should report for [o], written at offset [off]. *)
Definition op_record (o : LogOp) (off : Z) : WalRecord :=
  match o with
  | LInsert t schema rows => mkRec WAL_TYPE_INSERT off t (map strip schema) rows [] 0
  | LCreate t schema => mkRec WAL_TYPE_CREATE off t schema [] [] 0
  | LDelete t idx => mkRec WAL_TYPE_DELETE off t [] [] idx 0
  | LUpdate t idx schema rows => mkRec WAL_TYPE_UPDATE off t (map strip schema) rows idx 0
  | LFlush t n => mkRec WAL_TYPE_SEGMENT_FLUSH off t [] [] [] n
  end.

(** What follows the type byte: table name and body. *)
Definition read_tail (type_byte p : Z) : rd WalRecord :=
  do* name_len := read_u16 in
  do* name := read_str name_len in
  read_body type_byte p name.

(** The payload of the record of [o]. *)
Definition op_payload (o : LogOp) : option bytes :=
  match o with
  | LInsert t schema rows => let! b := insert_body schema rows in Some (op_code o :: put_name t ++ b)
  | LCreate t schema =>
      Some (op_code o :: put_name t ++ wal_put_u16 (wrap 16 (zlen schema)) ++ concat (map put_column schema))
  | LDelete t idx => Some (op_code o :: put_name t ++ put_indices idx)
  | LUpdate t idx schema rows =>
      let! b := insert_body schema rows in Some (op_code o :: put_name t ++ put_indices idx ++ b)
  | LFlush t n => Some (op_code o :: put_name t ++ wal_put_u64 n)
  end.

(** Operations that can be logged write a payload that the reader decodes. *)
Lemma reads_op o off : op_ok o ->
  exists pl, op_payload o = Some (op_code o :: pl) /\
    (forall w, log_op w o = Some (write_record w (op_code o :: pl))) /\
    reads (read_tail (op_code o) off) pl (op_record o off).
Proof.
  intros [Hn Hok]. destruct o as [t schema rows|t schema|t idx|t idx schema rows|t n]; simpl in Hn.
  - destruct Hok as (Hne & Hh & Hr & Hrn & Hsn).
    destruct (reads_insert_body schema rows Hh Hr Hrn Hsn) as (b & Hb & Hrb).
    exists (put_name t ++ b). simpl. rewrite Hb. split; [done|]. split.
    + intros w. unfold log_insert. rewrite Hb. by destruct rows.
    + apply reads_name; [done|]. by apply (reads_bind_ret _ (fun sr => mkRec 1 off t (fst sr) (snd sr) [] 0)) in Hrb.
  - destruct Hok as [Hs Hsn]. eexists. split; [done|]. split; [done|].
    apply reads_name; [done|].
    apply (reads_bind_ret _ (fun schema => mkRec 2 off t schema [] [] 0)), reads_create; done.
  - destruct Hok as [Hi Hin]. eexists. split; [done|]. split; [done|].
    apply reads_name; [done|].
    apply (reads_bind_ret _ (fun idx => mkRec 3 off t [] [] idx 0)), reads_indices; done.
  - destruct Hok as (Hi & Hin & Hh & Hr & Hrn & Hsn).
    destruct (reads_insert_body schema rows Hh Hr Hrn Hsn) as (b & Hb & Hrb).
    exists (put_name t ++ put_indices idx ++ b). cbn [op_payload]. rewrite Hb. split; [done|]. split.
    + intros w. cbn [log_op]. unfold log_update. by rewrite Hb.
    + apply reads_name; [done|].
      change (read_body (op_code (LUpdate t idx schema rows)) off t) with
        (do* idx := read_indices in do* sr := read_rows in ret (mkRec 4 off t (fst sr) (snd sr) idx 0)).
      eapply reads_bind; [by apply reads_indices|].
      by apply (reads_bind_ret _ (fun sr => mkRec 4 off t (fst sr) (snd sr) idx 0)) in Hrb.
  - eexists. split; [done|]. split; [done|]. apply reads_name; [done|].
    by apply (reads_bind_ret _ (fun n => mkRec 5 off t [] [] [] n)), reads_u64.
Qed.

(** ** Records in the file *)

(** Payload and checksum: the bytes [write_record] appends for [o]. *)
Definition op_frame (o : LogOp) : bytes :=
  match op_payload o with
  | Some pl => pl ++ wal_put_u64 (xxhash64 pl)
  | None => []
  end.

Lemma known_type o : negb ((op_code o =? WAL_TYPE_INSERT) || (op_code o =? WAL_TYPE_CREATE) ||
    (op_code o =? WAL_TYPE_DELETE) || (op_code o =? WAL_TYPE_UPDATE) ||
    (op_code o =? WAL_TYPE_SEGMENT_FLUSH)) = false.
Proof. by destruct o. Qed.

Lemma read_record_ok o p r : op_ok o ->
  read_record (op_frame o ++ r) p = (Some (op_record o p), r, p + zlen (op_frame o)).
Proof.
  intros Hok. destruct (reads_op o p Hok) as (pl & Hpl & _ & Hr). unfold op_frame. rewrite Hpl.
  set (cs := wal_put_u64 _). rewrite <- app_assoc. cbn [app read_record].
  rewrite known_type. fold (read_tail (op_code o) p). rewrite Hr.
  assert (Hcs : length cs = 8%nat) by apply le_bytes_length.
  unfold read_checksum. cbn [rest pos payload]. rewrite zlen_app. unfold zlen at 1. rewrite Hcs.
  rewrite (proj2 (Z.leb_le _ _)) by (pose proof (zlen_nonneg r); lia).
  rewrite take_app_length', drop_app_length' by done.
  unfold cs at 1, wal_put_u64 at 1. rewrite read_put_u64 by apply xxhash64_in_u.
  cbn [app payload rest pos]. rewrite Z.eqb_refl. cbn [negb]. f_equal.
  unfold zlen. cbn [app length]. rewrite length_app, Hcs. lia.
Qed.

Lemma local_default_value t : local (read_default_value t).
Proof. destruct t; unfold read_default_value, read_u16, read_str, read_u8; auto 8 with nyx. Qed.

Lemma local_cell c : local (read_cell c).
Proof.
  unfold read_cell, read_u8, read_u16, read_str. apply local_bind; [auto with nyx|]. intros b.
  destruct (negb (b =? 0)); [auto with nyx|]. destruct (col_type c); auto 8 with nyx.
Qed.

Lemma local_column : local read_column.
Proof.
  unfold read_column, read_str. apply local_bind; [auto with nyx|]. intros h.
  apply local_bind; [auto with nyx|]. intros s. apply local_bind; [|auto with nyx].
  unfold read_default, read_u8. apply local_bind; [auto with nyx|]. intros b.
  destruct (negb (b =? 0)); [|auto with nyx]. apply local_bind; [auto with nyx|]. intros dt.
  apply local_bind; [apply local_default_value|auto with nyx].
Qed.

Lemma local_rows : local read_rows.
Proof.
  unfold read_rows, read_col_header. apply local_bind; [auto with nyx|]. intros c.
  apply local_bind; [auto with nyx|]. intros schema. apply local_bind; [|auto with nyx].
  apply local_repeat, local_each, local_cell.
Qed.

Lemma local_indices : local read_indices.
Proof. unfold read_indices, read_u64. auto 8 with nyx. Qed.

Lemma local_tail code p : local (read_tail code p).
Proof.
  unfold read_tail, read_u16, read_str. apply local_bind; [auto with nyx|]. intros n.
  apply local_bind; [auto with nyx|]. intros s. unfold read_body, read_create, read_u16, read_u64.
  repeat match goal with |- context [if ?c then _ else _] => destruct c end;
    auto 10 using local_column, local_rows, local_indices with nyx.
Qed.

(** A record cut short at any byte is not reported. *)
Lemma read_record_torn o p n : op_ok o -> (n < length (op_frame o))%nat ->
  exists f p', read_record (take n (op_frame o)) p = (None, f, p').
Proof.
  intros Hok Hn. destruct (reads_op o p Hok) as (pl & Hpl & _ & Hr).
  unfold op_frame in *. rewrite Hpl in *. set (cs := wal_put_u64 _) in *.
  assert (Hcs : length cs = 8%nat) by apply le_bytes_length.
  destruct n as [|n]; [by eexists _, _|]. cbn [app take read_record length] in *.
  rewrite known_type. fold (read_tail (op_code o) p).
  destruct (read_tail (op_code o) p (mkSt (take n (pl ++ cs)) (p + 1) [op_code o])) as [[rec|] s] eqn:Ht;
    [|by eexists _, _].
  destruct (local_tail _ _ _ _ _ Ht) as (b & Hb & Hrb). cbn [rest] in Hb.
  assert (Hq : (b ++ (rest s ++ drop n (pl ++ cs))) = pl ++ cs).
  { by rewrite app_assoc, <- Hb, take_drop. }
  pose proof (Hrb (rest s ++ drop n (pl ++ cs)) 0 []) as H1. rewrite Hq in H1.
  rewrite (Hr cs 0 []) in H1. injection H1 as _ H1 _ _.
  apply (f_equal length) in H1. rewrite length_app, length_drop in H1. rewrite length_app in H1.
  unfold read_checksum. rewrite (proj2 (Z.leb_gt _ _)); [by eexists _, _|]. unfold zlen.
  rewrite length_app in Hn. lia.
Qed.

(** The records of a sequence of operations, from offset [p]. *)
Fixpoint op_records (os : list LogOp) (p : Z) : list WalRecord :=
  match os with
  | [] => []
  | o :: os' => op_record o p :: op_records os' (p + zlen (op_frame o))
  end.

(** The operations whose records lie completely within [budget] bytes. *)
Fixpoint complete_ops (budget : Z) (os : list LogOp) : list LogOp :=
  match os with
  | [] => []
  | o :: os' =>
      if zlen (op_frame o) <=? budget then o :: complete_ops (budget - zlen (op_frame o)) os' else []
  end.

Lemma op_frame_pos o : op_ok o -> 0 < zlen (op_frame o).
Proof.
  intros Hok. destruct (reads_op o 0 Hok) as (pl & Hpl & _). unfold op_frame. rewrite Hpl.
  unfold zlen. simpl. lia.
Qed.

Lemma read_records_torn os : forall fuel budget p, Forall op_ok os ->
  (0 <= budget) -> (Z.to_nat budget < fuel)%nat ->
  exists p', read_records fuel (take (Z.to_nat budget) (concat (map op_frame os))) p =
    (op_records (complete_ops budget os) p, p').
Proof.
  induction os as [|o os IH]; intros fuel budget p Hok Hb Hf; (destruct fuel as [|fuel]; [lia|]).
  - simpl. rewrite take_nil. by eexists.
  - apply Forall_cons in Hok as [Ho Hos]. pose proof (op_frame_pos o Ho) as Hpos.
    cbn [map concat complete_ops read_records]. destruct (Z.leb_spec (zlen (op_frame o)) budget) as [Hle|Hgt].
    + rewrite take_app_ge by (unfold zlen in Hle; lia). rewrite read_record_ok by done.
      replace (Z.to_nat budget - length (op_frame o))%nat with (Z.to_nat (budget - zlen (op_frame o)))
        by (unfold zlen in *; lia).
      destruct (IH fuel (budget - zlen (op_frame o)) (p + zlen (op_frame o)) Hos) as (p' & Hr); [lia|lia|].
      rewrite Hr. by eexists.
    + rewrite take_app_le by (unfold zlen in Hgt; lia).
      destruct (read_record_torn o p (Z.to_nat budget) Ho) as (f & p' & Hr); [unfold zlen in Hgt; lia|].
      rewrite Hr. by eexists.
Qed.

(** With all records complete the loop ends at the end of the file. *)
Lemma read_records_all os : forall fuel p, Forall op_ok os -> (length os < fuel)%nat ->
  read_records fuel (concat (map op_frame os)) p =
    (op_records os p, p + zlen (concat (map op_frame os))).
Proof.
  induction os as [|o os IH]; intros fuel p Hok Hf; (destruct fuel as [|fuel]; [simpl in Hf; lia|]).
  - simpl. by rewrite Z.add_0_r.
  - apply Forall_cons in Hok as [Ho Hos]. cbn [map concat read_records op_records].
    rewrite read_record_ok, IH by (done || (simpl in Hf; lia)).
    f_equal. rewrite zlen_app. lia.
Qed.

(** The loop ends at the first record that cannot be read. *)
Lemma read_records_break os rst f p' : forall fuel p, Forall op_ok os -> (length os < fuel)%nat ->
  read_record rst (p + zlen (concat (map op_frame os))) = (None, f, p') ->
  read_records fuel (concat (map op_frame os) ++ rst) p = (op_records os p, p').
Proof.
  induction os as [|o os IH]; intros fuel p Hok Hf Hr; (destruct fuel as [|fuel]; [simpl in Hf; lia|]).
  - cbn [map concat app op_records read_records] in *. rewrite Z.add_0_r in Hr. by rewrite Hr.
  - apply Forall_cons in Hok as [Ho Hos]. cbn [map concat read_records op_records] in *.
    rewrite zlen_app, Z.add_assoc in Hr. rewrite <- app_assoc, read_record_ok by done.
    rewrite IH by (done || (simpl in Hf; lia)). done.
Qed.

(** The payload is written as it is. *)
Definition logged (o : LogOp) : Prop :=
  exists pl, op_payload o = Some (op_code o :: pl) /\ forall w, log_op w o = Some (write_record w (op_code o :: pl)).

Lemma op_ok_logged o : op_ok o -> logged o.
Proof. intros Ho. destruct (reads_op o 0 Ho) as (pl & Hpl & Hlog & _). by exists pl. Qed.

Lemma log_ops_logged os : forall w, Forall logged os -> zlen (log w) + zlen (concat (map op_frame os)) < 2 ^ 64 ->
  offset_ w = zlen (log w) ->
  exists w', log_ops w os = Some w' /\ log w' = log w ++ concat (map op_frame os) /\
    offset_ w' = zlen (log w').
Proof.
  induction os as [|o os IH]; intros w Hok Hmax Hoff.
  - exists w. simpl. by rewrite app_nil_r.
  - apply Forall_cons in Hok as [(pl & Hpl & Hlog) Hos].
    cbn [map concat] in *. rewrite zlen_app in Hmax.
    pose proof (zlen_nonneg (log w)). pose proof (zlen_nonneg (op_frame o)).
    pose proof (zlen_nonneg (concat (map op_frame os))).
    set (w1 := write_record w (op_code o :: pl)).
    assert (Hw1 : log w1 = log w ++ op_frame o) by (unfold op_frame; by rewrite Hpl).
    assert (Ho1 : offset_ w1 = zlen (log w1)).
    { rewrite Hw1, zlen_app. unfold w1, write_record. cbn [offset_]. rewrite Hoff.
      unfold op_frame in *. rewrite Hpl in *. apply wrap_id. unfold in_u. lia. }
    destruct (IH w1 Hos) as (w' & Hl & Hlw & How); [rewrite Hw1, zlen_app; lia|done|].
    exists w'. cbn [log_ops]. rewrite Hlog. split; [done|]. split; [|done].
    by rewrite Hlw, Hw1, app_assoc.
Qed.

Lemma log_ops_log os w : Forall op_ok os -> zlen (log w) + zlen (concat (map op_frame os)) < 2 ^ 64 ->
  offset_ w = zlen (log w) ->
  exists w', log_ops w os = Some w' /\ log w' = log w ++ concat (map op_frame os) /\
    offset_ w' = zlen (log w').
Proof. intros Hok. apply log_ops_logged, (Forall_impl _ _ _ Hok op_ok_logged). Qed.

Lemma length_le_concat os : Forall op_ok os -> (length os <= length (concat (map op_frame os)))%nat.
Proof.
  induction 1 as [|o os Ho _ IH]; simpl; [lia|]. pose proof (op_frame_pos o Ho) as Hp.
  unfold zlen in Hp. rewrite length_app. lia.
Qed.

(** A new log holds the header and the frames. *)
Definition wal_header : bytes := WAL_MAGIC ++ wal_put_u16 WAL_VERSION.

Lemma new_log os : Forall op_ok os -> 6 + zlen (concat (map op_frame os)) < 2 ^ 64 ->
  exists w, log_ops (writer_open None) os = Some w /\ log w = wal_header ++ concat (map op_frame os) /\
    offset_ w = zlen (log w).
Proof. intros Hok Hmax. by apply log_ops_log. Qed.

Lemma read_all_header f : read_all (wal_header ++ f) =
  (let '(recs, p) := read_records (6 + length f) f 6 in Ok (recs, p - 6)).
Proof.
  unfold read_all. rewrite (proj2 (Z.ltb_ge _ _)).
  - rewrite bool_decide_true by done. reflexivity.
  - rewrite zlen_app. pose proof (zlen_nonneg f). unfold WAL_HEADER_SIZE.
    change (zlen wal_header) with 6. lia.
Qed.

(** ** Properties *)

(** C8. Whatever sequence of inserts, table creations, deletes, updates and segment flushes is
    logged to a new file, with sizes that fit the fields of the format and without DEFAULT NULL in a table
    creation (see [default_null_loses_log]), [read_all] returns exactly these operations, in order, each with
    the byte offset it was written at, and reports the whole file as consumed. *)
Theorem wal_roundtrip os :
  Forall op_ok os -> 6 + zlen (concat (map op_frame os)) < 2 ^ 64 ->
  exists w, log_ops (writer_open None) os = Some w /\ offset_ w = zlen (log w) /\
    read_all (log w) = Ok (op_records os WAL_HEADER_SIZE, zlen (log w) - WAL_HEADER_SIZE).
Proof.
  intros Hok Hmax. destruct (new_log os Hok Hmax) as (w & Hw & Hl & Ho).
  exists w. split; [done|]. split; [done|]. rewrite Hl, read_all_header.
  pose proof (length_le_concat os Hok). rewrite read_records_all by (done || lia).
  rewrite zlen_app. change (zlen wal_header) with 6. reflexivity.
Qed.

Definition demo_ops : list LogOp :=
  [LCreate "t" [mkColumn "a" INT32 false 0 None; mkColumn "b" VARCHAR true 4 (Some (VStr "x"))];
   LInsert "t" [mkColumn "a" INT32 false 0 None; mkColumn "b" VARCHAR true 4 None]
     [[VI32 (-7); VStr "yz"]; [VI32 8; VNull]];
   LDelete "t" [1]; LFlush "t" 2].

Lemma demo_ops_ok : Forall op_ok demo_ops.
Proof. repeat constructor; vm_compute; congruence. Qed.

Lemma wal_roundtrip_witness :
  exists w, log_ops (writer_open None) demo_ops = Some w /\
    read_all (log w) = Ok (op_records demo_ops 6, zlen (log w) - 6).
Proof.
  destruct (wal_roundtrip demo_ops) as (w & Hw & _ & Hr).
  - apply demo_ops_ok.
  - vm_compute. reflexivity.
  - exists w. split; [exact Hw|exact Hr].
Defined.

Lemma read_torn_log os n : Forall op_ok os -> WAL_HEADER_SIZE <= n ->
  exists consumed, read_all (take (Z.to_nat n) (wal_header ++ concat (map op_frame os))) =
    Ok (op_records (complete_ops (n - WAL_HEADER_SIZE) os) WAL_HEADER_SIZE, consumed).
Proof.
  intros Hok Hn. unfold WAL_HEADER_SIZE in *.
  rewrite take_app_ge by (simpl; lia).
  replace (Z.to_nat n - length wal_header)%nat with (Z.to_nat (n - 6)) by (simpl; lia).
  rewrite read_all_header. set (f := take _ _).
  destruct (decide (Z.to_nat (n - 6) <= length (concat (map op_frame os)))%nat) as [Hle|Hgt].
  - destruct (read_records_torn os (6 + length f) (n - 6) 6 Hok) as (p' & Hr); [lia| |].
    { unfold f. rewrite length_take. lia. }
    unfold f at 2. rewrite Hr. by eexists.
  - assert (Hf : f = concat (map op_frame os)) by (unfold f; apply take_ge; lia).
    assert (Hc : complete_ops (n - 6) os = os).
    { clear -Hgt. revert n Hgt. induction os as [|o os IH]; intros n Hgt; [done|].
      cbn [map concat complete_ops] in *. rewrite length_app in Hgt.
      rewrite (proj2 (Z.leb_le _ _)) by (unfold zlen; lia). f_equal.
      replace (n - 6 - zlen (op_frame o)) with (n - zlen (op_frame o) - 6) by lia.
      apply IH. unfold zlen. lia. }
    rewrite Hc, Hf. pose proof (length_le_concat os Hok). rewrite read_records_all by (done || lia).
    by eexists.
Qed.

(** C9. Crash safety: of a log of such operations that was cut off at any byte after the header, [read_all]
    returns exactly the operations whose records were completely written. *)
Theorem wal_torn_tail os w n :
  Forall op_ok os -> 6 + zlen (concat (map op_frame os)) < 2 ^ 64 ->
  log_ops (writer_open None) os = Some w -> WAL_HEADER_SIZE <= n ->
  exists consumed, read_all (take (Z.to_nat n) (log w)) =
    Ok (op_records (complete_ops (n - WAL_HEADER_SIZE) os) WAL_HEADER_SIZE, consumed).
Proof.
  intros Hok Hmax Hw Hn. destruct (new_log os Hok Hmax) as (w' & Hw' & Hl & _).
  rewrite Hw in Hw'. injection Hw' as <-. rewrite Hl. by apply read_torn_log.
Qed.

Lemma wal_torn_tail_witness :
  exists w consumed, log_ops (writer_open None) demo_ops = Some w /\
    read_all (take (Z.to_nat (zlen (log w) - 1)) (log w)) = Ok (op_records (take 3 demo_ops) 6, consumed).
Proof.
  destruct (new_log demo_ops demo_ops_ok) as (w & Hw & Hl & _); [vm_compute; reflexivity|].
  destruct (wal_torn_tail demo_ops w (zlen (log w) - 1)) as (c & Hc).
  - apply demo_ops_ok.
  - vm_compute. reflexivity.
  - exact Hw.
  - rewrite Hl. vm_compute. congruence.
  - exists w, c. split; [exact Hw|]. rewrite Hc. rewrite Hl. vm_compute. reflexivity.
Defined.

(** The record of a CREATE whose last column has the default [d]. *)
Definition create_with_default (t : string) (schema : Schema) (col : Column) (d : Value) : LogOp :=
  LCreate t (schema ++ [mkColumn (col_name col) (col_type col) (col_nullable col) (col_max_len col) (Some d)]).

(** Four bytes behind the payload [pl] the checksum would have to be right by accident: the eight bytes
    there, the second half of the checksum and what follows it, are the checksum of [pl] and its first half. *)
Definition accidental_checksum (pl following : bytes) : Prop :=
  let cs := wal_put_u64 (xxhash64 pl) in
  8 <= zlen (drop 4 cs ++ following) /\
  wal_read_u64 (take 8 (drop 4 cs ++ following)) = xxhash64 (pl ++ take 4 cs).

(** The payload with DEFAULT NULL and four more bytes is the payload with an INT32 default. *)
Lemma create_payload_null t schema col x :
  exists pl, op_payload (create_with_default t schema col VNull) = Some (WAL_TYPE_CREATE :: pl) /\
    op_payload (create_with_default t schema col (VI32 x)) = Some (WAL_TYPE_CREATE :: pl ++ le_bytes 4 (wrap 32 x)).
Proof.
  eexists. cbn [create_with_default op_payload op_code]. split; [reflexivity|].
  rewrite !map_app, !concat_app. cbn [map concat]. unfold put_column, put_default. cbn [col_default col_name col_type col_nullable col_max_len].
  unfold zlen. rewrite !length_app. cbn [length]. rewrite put_u32_le, !app_nil_r, <- !app_assoc. reflexivity.
Qed.

Lemma create_default_ok t schema col x : op_ok (create_with_default t schema col (VI32 0)) -> in_s 32 x ->
  op_ok (create_with_default t schema col (VI32 x)).
Proof.
  intros [Hn [Hs Hl]] Hx. split; [done|]. cbn [create_with_default] in *. split; [|by rewrite zlen_app in *].
  apply Forall_app in Hs as [Hs Hc]. apply Forall_app. split; [done|].
  apply Forall_cons in Hc as [(H1 & H2 & H3 & _) _]. constructor; [|done]. done.
Qed.

(** The reader takes the first half of the checksum for the value of the default. *)
Lemma read_record_default_null t schema col following p :
  op_ok (create_with_default t schema col (VI32 0)) ->
  exists pl, op_payload (create_with_default t schema col VNull) = Some pl /\
    ((exists f p', read_record (op_frame (create_with_default t schema col VNull) ++ following) p = (None, f, p')) \/
     accidental_checksum pl following).
Proof.
  intros Hok. set (o := create_with_default t schema col VNull).
  destruct (create_payload_null t schema col 0) as (pl & Hpl & _).
  set (cs := wal_put_u64 (xxhash64 (WAL_TYPE_CREATE :: pl))). set (h4 := take 4 cs).
  assert (Hb : Forall is_byte h4) by (apply Forall_take, le_bytes_is_byte).
  set (x := signed 32 (le_val h4)).
  destruct (create_payload_null t schema col x) as (pl' & Hpl' & Hx). rewrite Hpl in Hpl'. injection Hpl' as <-.
  assert (He : le_bytes 4 (wrap 32 x) = h4).
  { rewrite (le_bytes_wrap 4). by apply (le_bytes_signed h4). }
  rewrite He in Hx.
  destruct (reads_op (create_with_default t schema col (VI32 x)) p) as (pl2 & Hp2 & _ & Hr);
    [apply create_default_ok; [done|by apply signed_range]|].
  rewrite Hx in Hp2. injection Hp2 as <-. exists (WAL_TYPE_CREATE :: pl). split; [exact Hpl|].
  assert (Hf : op_frame o ++ following = WAL_TYPE_CREATE :: (pl ++ h4) ++ (drop 4 cs ++ following)).
  { unfold op_frame, o. rewrite Hpl. fold cs. rewrite <- (take_drop 4 cs) at 1. fold h4. cbn [app]. by rewrite <- !app_assoc. }
  rewrite Hf. change WAL_TYPE_CREATE with (op_code (create_with_default t schema col (VI32 x))) at 1.
  cbn [read_record]. rewrite known_type. fold (read_tail (op_code (create_with_default t schema col (VI32 x))) p).
  rewrite Hr.
  unfold read_checksum. cbn [rest pos payload].
  destruct (Z.leb_spec 8 (zlen (drop 4 cs ++ following))) as [Hl|Hl]; [|by left; eexists _, _].
  cbn [payload]. match goal with |- context [negb (?a =? ?b)] => destruct (Z.eqb_spec a b) as [Heq|Hne] end;
    [|by left; eexists _, _].
  right. split; [exact Hl|exact Heq].
Qed.

(** C37. DEFAULT NULL destroys the log. For a column with DEFAULT NULL the writer stores the type code of INT32
    and no bytes, the reader takes four more bytes for the value. When the last column of a logged CREATE
    has DEFAULT NULL, [read_all] returns exactly the records before the CREATE, neither the CREATE itself,
    though it was written completely, nor any record after it, unless the bytes four behind its end happen
    to be the checksum of the bytes read. When no record follows there is no such exception. *)
Theorem default_null_loses_log os t schema col after w :
  Forall op_ok os -> op_ok (create_with_default t schema col (VI32 0)) -> Forall op_ok after ->
  6 + zlen (concat (map op_frame (os ++ create_with_default t schema col VNull :: after))) < 2 ^ 64 ->
  log_ops (writer_open None) (os ++ create_with_default t schema col VNull :: after) = Some w ->
  (exists consumed, read_all (log w) = Ok (op_records os WAL_HEADER_SIZE, consumed)) \/
  after <> [] /\ exists pl, op_payload (create_with_default t schema col VNull) = Some pl /\
    accidental_checksum pl (concat (map op_frame after)).
Proof.
  intros Hos Hc Hafter Hmax Hw. set (o := create_with_default t schema col VNull) in *.
  destruct (log_ops_logged (os ++ o :: after) (writer_open None)) as (w' & Hw' & Hl & _); [|done|done|].
  { apply Forall_app. split; [apply (Forall_impl _ _ _ Hos op_ok_logged)|].
    constructor; [by eexists|apply (Forall_impl _ _ _ Hafter op_ok_logged)]. }
  rewrite Hw in Hw'. injection Hw' as <-. rewrite Hl. change (log (writer_open None)) with wal_header.
  rewrite map_app, concat_app. cbn [map concat]. rewrite read_all_header.
  set (file := concat (map op_frame os) ++ _).
  destruct (read_record_default_null t schema col (concat (map op_frame after))
    (6 + zlen (concat (map op_frame os))) Hc) as (pl & Hpl & [(f & p' & Hr)|Hacc]).
  - left. pose proof (length_le_concat os Hos).
    unfold file at 2. rewrite (read_records_break os _ f p') by (done || (unfold file; rewrite length_app; lia)). by eexists.
  - right. split; [|by exists pl]. intros ->. destruct Hacc as [Hlen _]. revert Hlen.
    cbn [map concat]. rewrite app_nil_r. unfold zlen, wal_put_u64. rewrite length_drop, le_bytes_length. lia.
Qed.

Definition null_default_ops : list LogOp :=
  demo_ops ++ create_with_default "u" [mkColumn "a" INT32 false 0 None] (mkColumn "b" DATE true 0 None) VNull ::
    [LDelete "t" [0]; LInsert "u" [mkColumn "a" INT32 false 0 None; mkColumn "b" DATE true 0 None] [[VI32 1; VNull]]].

(** Here the exception does not occur: the second table and the records after it are lost. *)
Lemma default_null_loses_log_witness :
  exists w consumed, log_ops (writer_open None) null_default_ops = Some w /\
    read_all (log w) = Ok (op_records demo_ops WAL_HEADER_SIZE, consumed).
Proof.
  destruct (log_ops (writer_open None) null_default_ops) as [w|] eqn:Hw; [|vm_compute in Hw; discriminate Hw].
  destruct (default_null_loses_log demo_ops "u" [mkColumn "a" INT32 false 0 None] (mkColumn "b" DATE true 0 None)
    [LDelete "t" [0]; LInsert "u" [mkColumn "a" INT32 false 0 None; mkColumn "b" DATE true 0 None] [[VI32 1; VNull]]] w)
    as [[c Hc]|[_ (pl & Hpl & _ & Hacc)]].
  - apply demo_ops_ok.
  - repeat constructor; vm_compute; congruence.
  - repeat constructor; vm_compute; congruence.
  - vm_compute. reflexivity.
  - exact Hw.
  - exists w, c. split; [reflexivity|exact Hc].
  - exfalso. vm_compute in Hpl. injection Hpl as <-. vm_compute in Hacc. discriminate Hacc.
Defined.

(** [bytes_consumed] counts bytes of a record that was not returned: a caller that resumes
    at that position skips the record. *)
Theorem bytes_consumed_overcounts :
  exists os w n recs consumed, Forall op_ok os /\ log_ops (writer_open None) os = Some w /\
    WAL_HEADER_SIZE <= n < zlen (log w) /\
    read_all (take (Z.to_nat n) (log w)) = Ok (recs, consumed) /\
    zlen (concat (map op_frame (complete_ops (n - WAL_HEADER_SIZE) os))) < consumed.
Proof.
  exists [LDelete "t" [1]; LFlush "t" 2]. eexists. exists 46. eexists _, _.
  split; [repeat constructor; vm_compute; congruence|].
  split; [vm_compute; reflexivity|]. split; [vm_compute; split; [congruence|reflexivity]|].
  split; [vm_compute; reflexivity|]. vm_compute. reflexivity.
Qed.
