(* ===== verification/SchemaFile.v ===== *)
(** * Schema files

    [SchemaFile::write] and [read] (src/src/storage/disk/schema.cpp): a magic number, a
    32-bit count and the columns.  [reserve(count)] has no effect on the result. *)

From S2P Require Import Prelude Types Codec.

Definition MAGIC : bytes := [78; 89; 88; 51].
Definition FLAG_NULLABLE : Z := 1.

(** The alternative that a value holds; [monostate] is stored as INT32. *)
Definition default_type (v : Value) : TypeId :=
  match v with
  | VI32 _ => INT32 | VI64 _ => INT64 | VF64 _ => DOUBLE | VStr _ => VARCHAR
  | VBool _ => BOOL | VDate _ => DATE | VTimestamp _ => TIMESTAMP | VNull => INT32
  end.

Definition append_default (v : Value) : bytes :=
  type_code (default_type v) ::
  match v with
  | VI32 x | VDate x => le_bytes 4 x
  | VI64 x | VTimestamp x => le_bytes 8 x
  | VF64 b => le_bytes 8 b
  | VStr s => put_le16 (wrap 16 (strlen s)) ++ bytes_of_string s
  | VBool b => [if b then 1 else 0]
  | VNull => []
  end.

Definition short_default : string := "schema read: short read on default value".

(** [read_default]; its [false] is the caller's error. *)
Definition read_default : decoder Value :=
  get* type_byte := need_u8 short_default in
  match type_of_code type_byte with
  | INT32 => get* b := need 4 short_default in dret (VI32 (signed 32 (le_val b)))
  | INT64 => get* b := need 8 short_default in dret (VI64 (signed 64 (le_val b)))
  | DOUBLE => get* b := need 8 short_default in dret (VF64 (le_val b))
  | VARCHAR =>
      get* b := need 2 short_default in
      get* s := need (get_le16 b) short_default in
      dret (VStr (string_of_bytes s))
  | BOOL => get* b := need_u8 short_default in dret (VBool (negb (b =? 0)))
  | DATE => get* b := need 4 short_default in dret (VDate (signed 32 (le_val b)))
  | TIMESTAMP => get* b := need 8 short_default in dret (VTimestamp (signed 64 (le_val b)))
  | _ => dfail short_default
  end.

(** The body of the loop of [write]. *)
Definition put_column (col : Column) : bytes :=
  [type_code (col_type col); if col_nullable col then FLAG_NULLABLE else 0] ++
  put_le16 (col_max_len col) ++ put_le16 (wrap 16 (strlen (col_name col))) ++
  bytes_of_string (col_name col) ++
  match col_default col with
  | Some v => 1 :: append_default v
  | None => [0]
  end.

Definition buffer (schema : Schema) : bytes :=
  MAGIC ++ put_le32 (wrap 32 (zlen schema)) ++ concat (map put_column schema).

Definition write (path : string) (schema : Schema) (io : write_io) (old : file) : result unit * file :=
  store_file "schema" path io (buffer schema) old.

(** The body of the loop of [read]. *)
Definition read_column : decoder Column :=
  get* hdr := need 6 "schema read: short read on column header" in
  let nullable := negb (Z.land (znth hdr 1) FLAG_NULLABLE =? 0) in
  let max_len := get_le16 (drop 2 hdr) in
  let name_len := get_le16 (drop 4 hdr) in
  get* name := need name_len "schema read: short read on column name" in
  get* has_default := need_u8 "schema read: short read on has_default" in
  get* def := (if negb (has_default =? 0) then get* v := read_default in dret (Some v) else dret None) in
  dret (mkColumn (string_of_bytes name) (type_of_code (znth hdr 0)) nullable max_len def).

Definition read_schema : decoder Schema :=
  get* header := need 8 "schema read: short read on header" in
  if negb (bool_decide (take 4 header = MAGIC)) then dfail "schema read: bad magic"
  else drepeat (Z.to_nat (get_le32 (drop 4 header))) read_column.

Definition read (path : string) (f : file) : result Schema :=
  match f with
  | Err e => Err ("schema read: cannot open " +:+ path +:+ ": " +:+ e)
  | Ok raw => let? r := read_schema raw in Ok (fst r)
  end.

(** ** Lemmas *)

Lemma parses_read_default v : default_ok (Some v) ->
  parses read_default (append_default v) v.
Proof.
  intros Hok. unfold read_default, append_default.
  match goal with |- parses _ (?t :: ?b) _ => change (t :: b) with ([t] ++ b) end.
  destruct v as [|x|x|x|s|b|x|x]; [done|..]; simpl in Hok;
    (eapply parses_bind; [apply parses_u8|]); cbn [default_type type_code type_of_code].
  - apply parses_fixed; [done|]. f_equal. by apply (signed_le_bytes 4); [lia|].
  - apply parses_fixed; [done|]. f_equal. by apply (signed_le_bytes 8); [lia|].
  - apply parses_fixed; [done|]. f_equal. by apply le_val_bytes.
  - rewrite wrap_id by done. eapply parses_bind; [by apply parses_need|]. cbv beta.
    rewrite put_le16_bytes, get_le16_bytes by done.
    rewrite <- (string_of_bytes_of_string s) at 3.
    apply (parses_map _ (fun b => VStr (string_of_bytes b))), parses_need, zlen_bytes_of_string.
  - rewrite <- (app_nil_r [_]). eapply parses_bind; [apply parses_u8|]. by destruct b; apply parses_ret.
  - apply parses_fixed; [done|]. f_equal. by apply (signed_le_bytes 4); [lia|].
  - apply parses_fixed; [done|]. f_equal. by apply (signed_le_bytes 8); [lia|].
Qed.

Lemma parses_read_column col : column_ok col ->
  parses read_column (put_column col) col.
Proof.
  intros (Ht & Hm & Hn & Hd). unfold read_column, put_column.
  rewrite wrap_id by done. rewrite (app_assoc (put_le16 _)), app_assoc.
  eapply parses_bind; [by apply parses_need|]. set (h := [_; _] ++ _). cbv beta zeta.
  assert (H4 : get_le16 (drop 4 h) = strlen (col_name col)) by (by apply get_le16_bytes).
  assert (H2 : get_le16 (drop 2 h) = col_max_len col).
  { transitivity (get_le16 (le_bytes 2 (col_max_len col))); [reflexivity|by apply get_le16_bytes]. }
  rewrite H4, H2. eapply parses_bind; [apply parses_need, zlen_bytes_of_string|].
  rewrite string_of_bytes_of_string.
  assert (Hc : forall d, col_default col = d -> mkColumn (col_name col) (type_of_code (znth h 0))
      (negb (Z.land (znth h 1) FLAG_NULLABLE =? 0)) (col_max_len col) d = col).
  { intros d <-. change (znth h 0) with (type_code (col_type col)).
    change (znth h 1) with (if col_nullable col then FLAG_NULLABLE else 0).
    rewrite type_of_code_code by done. by destruct col as [nm t [] ml d]. }
  destruct (col_default col) as [v|].
  - change (1 :: ?b) with ([1] ++ b). eapply parses_bind; [apply parses_u8|]. cbn [Z.eqb negb].
    rewrite <- (app_nil_r (append_default v)). eapply parses_bind.
    + by apply (parses_map _ Some), parses_read_default.
    + rewrite Hc by done. apply parses_ret.
  - rewrite <- (app_nil_r [0]). eapply parses_bind; [apply parses_u8|]. cbn [Z.eqb negb].
    rewrite <- (app_nil_r []). eapply parses_bind; [apply parses_ret|].
    rewrite Hc by done. apply parses_ret.
Qed.

Lemma dlocal_read_default : dlocal read_default.
Proof.
  apply dlocal_bind; [apply dlocal_u8|]. intros t. destruct (type_of_code t); auto with nyx.
Qed.

Lemma dlocal_read_column : dlocal read_column.
Proof.
  apply dlocal_bind; [apply dlocal_need|]. intros h. apply dlocal_bind; [apply dlocal_need|]. intros nm.
  apply dlocal_bind; [apply dlocal_u8|]. intros b. apply dlocal_bind; [|intros; apply dlocal_ret].
  destruct (negb (b =? 0)); [|apply dlocal_ret].
  apply dlocal_bind; [apply dlocal_read_default|intros; apply dlocal_ret].
Qed.

Definition schema_ok (schema : Schema) : Prop := Forall column_ok schema /\ in_u 32 (zlen schema).

Lemma parses_read_schema schema : schema_ok schema ->
  parses read_schema (buffer schema) schema.
Proof.
  intros [Hc Hn]. apply parses_counted; [done|done|].
  apply (Forall_impl _ _ _ Hc). apply parses_read_column.
Qed.

Lemma dlocal_read_schema : dlocal read_schema.
Proof. apply dlocal_counted, dlocal_read_column. Qed.

(** ** Properties *)

(** A schema file whose write reports success is read back as the same schema; and after
    any outcome of the system calls (open failure, short write) a later read gives the old
    contents, the new schema, or an error, but never another schema. *)
Theorem schema_file_durable path schema io old r f :
  schema_ok schema -> write path schema io old = (r, f) ->
  (r = Ok tt -> read path f = Ok schema) /\
  (f = old \/ read path f = Ok schema \/ is_err (read path f) = true).
Proof.
  intros Hok Hw. exact (store_then_read _ _ _ _ _ _ _ _ _ dlocal_read_schema (parses_read_schema _ Hok) Hw).
Qed.

Definition demo_schema : Schema :=
  [mkColumn "id" INT64 false 0 None; mkColumn "note" VARCHAR true 20 (Some (VStr "none"));
   mkColumn "born" DATE true 0 (Some (VDate (-5)))].

Lemma schema_file_durable_witness :
  let f := Ok (buffer demo_schema) in
  write "t/schema" demo_schema (Writes (zlen (buffer demo_schema)) "") (Err "ENOENT")
    = (Ok tt, f) /\ read "t/schema" f = Ok demo_schema.
Proof.
  intros f. assert (Hw : write "t/schema" demo_schema
    (Writes (zlen (buffer demo_schema)) "") (Err "ENOENT") = (Ok tt, f)) by (vm_compute; reflexivity).
  split; [exact Hw|].
  refine (proj1 (schema_file_durable _ demo_schema _ _ _ f _ Hw) eq_refl).
  split; [repeat constructor; vm_compute; congruence|vm_compute; split; congruence].
Defined.

(** A column with DEFAULT NULL: the write of the schema file reports success, and the file
    cannot be read again. *)
Theorem schema_default_null_unreadable :
  exists schema f, map col_default schema = [Some VNull] /\
    (forall path, write path schema (Writes (zlen (buffer schema)) "") (Err "ENOENT")
       = (Ok tt, f)) /\
    forall path, read path f = Err short_default.
Proof.
  exists [mkColumn "a" INT32 true 0 (Some VNull)].
  exists (Ok (buffer [mkColumn "a" INT32 true 0 (Some VNull)])).
  split; [done|]. split; intros path; [reflexivity|].
  unfold read. vm_compute. reflexivity.
Qed.
