(* ===== verification/ConstraintFile.v ===== *)
(** * Constraint files

    [ConstraintKind], [ConstraintMeta] (src/src/storage/disk/constraint_file.h),
    [ConstraintFile::write] and [read] (src/src/storage/disk/constraint_file.cpp): a magic
    number, a 32-bit count and the constraints, with one-byte lengths. *)

From S2P Require Import Prelude Types Codec.

Definition MAGIC : bytes := [78; 89; 88; 75].

(** [enum class ConstraintKind : u8]; [KindOther] for a stored byte outside it. *)
Inductive ConstraintKind : Type :=
| PRIMARY_KEY | UNIQUE | KindOther (b : Z).

Definition kind_code (k : ConstraintKind) : Z :=
  match k with PRIMARY_KEY => 0 | UNIQUE => 1 | KindOther b => b end.

Definition kind_of_code (b : Z) : ConstraintKind :=
  match b with 0 => PRIMARY_KEY | 1 => UNIQUE | _ => KindOther b end.

Record ConstraintMeta : Type := mkConstraint {
  kind : ConstraintKind;
  name : string;
  col_indices : bytes
}.

Definition put_constraint (c : ConstraintMeta) : bytes :=
  kind_code (kind c) :: wrap 8 (strlen (name c)) :: bytes_of_string (name c) ++
  wrap 8 (zlen (col_indices c)) :: col_indices c.

Definition buffer (cs : list ConstraintMeta) : bytes :=
  MAGIC ++ put_le32 (wrap 32 (zlen cs)) ++ concat (map put_constraint cs).

Definition write (path : string) (cs : list ConstraintMeta) (io : write_io) (old : file)
    : result unit * file :=
  store_file "constraint" path io (buffer cs) old.

Definition read_constraint : decoder ConstraintMeta :=
  get* kind_byte := need_u8 "constraint read: short read on kind" in
  get* name_len := need_u8 "constraint read: short read on name_len" in
  get* name := (if 0 <? name_len then need name_len "constraint read: short read on name" else dret []) in
  get* col_count := need_u8 "constraint read: short read on col_count" in
  get* cols := (if 0 <? col_count then need col_count "constraint read: short read on col_indices"
                else dret []) in
  dret (mkConstraint (kind_of_code kind_byte) (string_of_bytes name) cols).

Definition read_constraints : decoder (list ConstraintMeta) :=
  get* header := need 8 "constraint read: short read on header" in
  if negb (bool_decide (take 4 header = MAGIC)) then dfail "constraint read: bad magic"
  else drepeat (Z.to_nat (get_le32 (drop 4 header))) read_constraint.

Definition read (path : string) (f : file) : result (list ConstraintMeta) :=
  match f with
  | Err e => Err ("constraint read: cannot open " +:+ path +:+ ": " +:+ e)
  | Ok raw => let? r := read_constraints raw in Ok (fst r)
  end.

(** The sizes fit the one-byte fields. *)
Definition constraint_ok (c : ConstraintMeta) : Prop :=
  kind_of_code (kind_code (kind c)) = kind c /\ strlen (name c) < 256 /\ zlen (col_indices c) < 256.

(** ** Lemmas *)

(** A field of at most 255 bytes after its length byte. *)
Lemma parses_counted_field b e : zlen b < 256 ->
  parses (if 0 <? wrap 8 (zlen b) then need (wrap 8 (zlen b)) e else dret []) b b.
Proof.
  intros Hb. pose proof (zlen_nonneg b). rewrite wrap_id by (unfold in_u; lia).
  destruct (Z.ltb_spec 0 (zlen b)); [by apply parses_need|].
  destruct b; [apply parses_ret|]. unfold zlen in *. simpl in *. lia.
Qed.

Lemma parses_read_constraint c : constraint_ok c ->
  parses read_constraint (put_constraint c) c.
Proof.
  intros (Hk & Hn & Hc). unfold read_constraint, put_constraint.
  match goal with |- parses _ (?x :: ?y :: ?b ++ ?z :: ?d) _ =>
    change (x :: y :: b ++ z :: d) with ([x] ++ [y] ++ b ++ [z] ++ d) end.
  rewrite <- zlen_bytes_of_string in *.
  eapply parses_bind; [apply parses_u8|]. eapply parses_bind; [apply parses_u8|].
  eapply parses_bind; [by apply parses_counted_field|]. eapply parses_bind; [apply parses_u8|].
  rewrite Hk, string_of_bytes_of_string. destruct c as [k s cols]. cbn in *.
  by apply (parses_map _ (mkConstraint k s)), parses_counted_field.
Qed.

Lemma dlocal_read_constraint : dlocal read_constraint.
Proof.
  apply dlocal_bind; [apply dlocal_u8|]. intros k. apply dlocal_bind; [apply dlocal_u8|]. intros n.
  apply dlocal_bind; [destruct (0 <? n); auto with nyx|]. intros nm.
  apply dlocal_bind; [apply dlocal_u8|]. intros m.
  apply dlocal_bind; [destruct (0 <? m); auto with nyx|]. intros cols. apply dlocal_ret.
Qed.

Definition constraints_ok (cs : list ConstraintMeta) : Prop :=
  Forall constraint_ok cs /\ in_u 32 (zlen cs).

Lemma parses_read_constraints cs : constraints_ok cs ->
  parses read_constraints (buffer cs) cs.
Proof.
  intros [Hc Hn]. apply parses_counted; [done|done|].
  apply (Forall_impl _ _ _ Hc). apply parses_read_constraint.
Qed.

Lemma dlocal_read_constraints : dlocal read_constraints.
Proof. apply dlocal_counted, dlocal_read_constraint. Qed.

(** ** Properties *)

(** The same for the constraint file: primary keys and unique constraints survive a
    successful write, and no outcome of the system calls yields other constraints. *)
Theorem constraint_file_durable path cs io old r f :
  constraints_ok cs -> write path cs io old = (r, f) ->
  (r = Ok tt -> read path f = Ok cs) /\
  (f = old \/ read path f = Ok cs \/ is_err (read path f) = true).
Proof.
  intros Hok Hw.
  exact (store_then_read _ _ _ _ _ _ _ _ _ dlocal_read_constraints (parses_read_constraints _ Hok) Hw).
Qed.

Definition demo_constraints : list ConstraintMeta :=
  [mkConstraint PRIMARY_KEY "pk" [0];
   mkConstraint UNIQUE "u_ab" [1; 2]].

Lemma constraint_file_durable_witness :
  let f := Ok (take 12 (buffer demo_constraints)) in
  write "t/c" demo_constraints (Writes 12 "ENOSPC") (Err "ENOENT")
    = (Err "constraint write: short write: ENOSPC", f) /\
  (f = Err "ENOENT" \/ read "t/c" f = Ok demo_constraints \/
   is_err (read "t/c" f) = true).
Proof.
  intros f. assert (Hw : write "t/c" demo_constraints (Writes 12 "ENOSPC") (Err "ENOENT") =
    (Err "constraint write: short write: ENOSPC", f)) by (vm_compute; reflexivity).
  split; [exact Hw|].
  refine (proj2 (constraint_file_durable _ demo_constraints _ _ _ f _ Hw)).
  split; [repeat constructor; vm_compute; congruence|vm_compute; split; congruence].
Defined.
