(* ===== verification/ShardMapFile.v ===== *)
(** * Shard map files

    [PartitionDef], [ShardMapMeta] (src/src/storage/disk/shard_map_file.h) and
    [ShardMapFile::write] / [read] (src/src/storage/disk/shard_map_file.cpp).  [read] takes
    the whole file into memory first; a [::read] that fails counts as the end of the file,
    so [raw] is what was read. *)

From S2P Require Import Prelude Types Codec.

(** ** Data *)

Record PartitionDef : Type := mkPartition {
  part_name : string;
  is_maxvalue : bool;
  upper_bound : Value;
  node_addr : string
}.

Record ShardMapMeta : Type := mkShardMap {
  partition_col : string;
  partition_col_idx : Z;
  partitions : list PartitionDef
}.

(** ** The file *)

Definition MAGIC : bytes := [78; 89; 88; 80].
Definition VERSION : Z := 1.

Definition put_u64 (v : Z) : bytes :=
  map (fun i => Z.land (Z.shiftr v (8 * i)) 255) [0; 1; 2; 3; 4; 5; 6; 7].

(** [for (i < 8) v |= p[i] << (8 * i)] *)
Definition get_u64 (p : bytes) : Z :=
  fold_left (fun v i => Z.lor v (Z.shiftl (znth p i) (8 * i))) [0; 1; 2; 3; 4; 5; 6; 7] 0.

Definition put_str (s : string) : bytes := wrap 8 (strlen s) :: bytes_of_string s.

Definition put_value (v : Value) : bytes :=
  match v with
  | VNull => type_code INT32 :: put_le32 0
  | VI32 x => type_code INT32 :: put_le32 (wrap 32 x)
  | VI64 x => type_code INT64 :: put_u64 (wrap 64 x)
  | VF64 bits => type_code DOUBLE :: put_u64 bits
  | VStr s => type_code VARCHAR :: put_le16 (wrap 16 (strlen s)) ++ bytes_of_string s
  | VBool b => [type_code BOOL; if b then 1 else 0]
  | VDate d => type_code DATE :: put_le32 (wrap 32 d)
  | VTimestamp m => type_code TIMESTAMP :: put_u64 (wrap 64 m)
  end.

Definition put_partition (p : PartitionDef) : bytes :=
  put_str (part_name p) ++ [if is_maxvalue p then 1 else 0] ++
  (if negb (is_maxvalue p) then put_value (upper_bound p) else []) ++ put_str (node_addr p).

Definition buffer (meta : ShardMapMeta) : bytes :=
  MAGIC ++ put_le16 VERSION ++ [partition_col_idx meta] ++ put_str (partition_col meta) ++
  put_le16 (wrap 16 (zlen (partitions meta))) ++ concat (map put_partition (partitions meta)).

Definition write (path : string) (meta : ShardMapMeta) (io : write_io) (old : file) : result unit * file :=
  store_file "shard_map" path io (buffer meta) old.

Definition truncated : string := "shard_map read: truncated".

Definition read_str : decoder string :=
  get* n := need_u8 truncated in
  get* b := need n truncated in
  dret (string_of_bytes b).

Definition read_value : decoder Value :=
  get* tid := need_u8 truncated in
  match type_of_code tid with
  | INT32 => get* b := need 4 truncated in dret (VI32 (signed 32 (get_le32 b)))
  | INT64 => get* b := need 8 truncated in dret (VI64 (signed 64 (get_u64 b)))
  | DOUBLE => get* b := need 8 truncated in dret (VF64 (get_u64 b))
  | VARCHAR =>
      get* b := need 2 truncated in
      get* s := need (get_le16 b) truncated in
      dret (VStr (string_of_bytes s))
  | BOOL => get* b := need_u8 truncated in dret (VBool (negb (b =? 0)))
  | DATE => get* b := need 4 truncated in dret (VDate (signed 32 (get_le32 b)))
  | TIMESTAMP => get* b := need 8 truncated in dret (VTimestamp (signed 64 (get_u64 b)))
  | _ => dfail "shard_map read: unknown type"
  end.

Definition read_partition : decoder PartitionDef :=
  get* name := read_str in
  get* mx := need_u8 truncated in
  let is_max := negb (mx =? 0) in
  get* ub := (if negb is_max then read_value else dret VNull) in
  get* addr := read_str in
  dret (mkPartition name is_max ub addr).

Definition read_shard_map : decoder ShardMapMeta :=
  get* magic := need 4 "shard_map read: bad magic" in
  if negb (bool_decide (magic = MAGIC)) then dfail "shard_map read: bad magic"
  else
    get* version := need 2 truncated in
    get* col_idx := need_u8 truncated in
    get* col := read_str in
    get* cb := need 2 truncated in
    get* ps := drepeat (Z.to_nat (get_le16 cb)) read_partition in
    dret (mkShardMap col col_idx ps).

Definition read (path : string) (f : file) : result ShardMapMeta :=
  match f with
  | Err e => Err ("shard_map read: cannot open " +:+ path +:+ ": " +:+ e)
  | Ok raw => let? r := read_shard_map raw in Ok (fst r)
  end.

(** A bound the format can hold. *)
Definition bound_ok (v : Value) : Prop :=
  match v with VNull => False | VStr s => in_u 16 (strlen s) | _ => value_wf v end.

Definition partition_ok (p : PartitionDef) : Prop :=
  strlen (part_name p) < 256 /\ strlen (node_addr p) < 256 /\
  (if is_maxvalue p then upper_bound p = VNull else bound_ok (upper_bound p)).

Definition meta_ok (meta : ShardMapMeta) : Prop :=
  strlen (partition_col meta) < 256 /\ Forall partition_ok (partitions meta) /\
  in_u 16 (zlen (partitions meta)).

(** ** Lemmas *)

Lemma get_u64_val b : length b = 8%nat -> get_u64 b = le_val b.
Proof.
  intros Hb. destruct b as [|b0 [|b1 [|b2 [|b3 [|b4 [|b5 [|b6 [|b7 [|]]]]]]]]]; try done.
  unfold get_u64, le_val, znth. cbn [fold_left Z.to_nat Z.mul].
  rewrite !Z.shiftl_lor, !Z.shiftl_shiftl, Z.shiftl_0_l, Z.lor_0_r, !Z.lor_assoc by lia.
  cbn -[Z.lor Z.shiftl]. by rewrite Z.shiftl_0_r.
Qed.

Lemma get_put_u64 v : in_u 64 v -> get_u64 (put_u64 v) = v.
Proof. intros Hv. rewrite get_u64_val by done. by apply (le_val_bytes 8). Qed.

Lemma get_put_le32 v : in_u 32 v -> get_le32 (put_le32 v) = v.
Proof. rewrite put_le32_bytes. apply get_le32_bytes. Qed.

Lemma parses_put_str s : strlen s < 256 -> parses read_str (put_str s) s.
Proof.
  intros Hs. pose proof (strlen_nonneg s). unfold put_str.
  rewrite wrap_id by (unfold in_u; lia). change (?x :: ?b) with ([x] ++ b).
  eapply parses_bind; [apply parses_u8|]. by apply parses_str.
Qed.

Lemma parses_put_value v : bound_ok v ->
  parses read_value (put_value v) v.
Proof.
  intros Hok. unfold read_value, put_value.
  destruct v as [|x|x|x|s|b|x|x]; [done|..]; simpl in Hok;
    match goal with |- parses _ (?t :: ?b) _ => change (t :: b) with ([t] ++ b) end;
    (eapply parses_bind; [apply parses_u8|]); cbn [type_code type_of_code].
  - apply parses_fixed; [done|]. f_equal. rewrite get_put_le32 by auto with nyx. by apply signed_wrap.
  - apply parses_fixed; [done|]. f_equal. rewrite get_put_u64 by auto with nyx. by apply signed_wrap.
  - apply parses_fixed; [done|]. f_equal. by apply get_put_u64.
  - rewrite wrap_id by done. eapply parses_bind; [by apply parses_need|]. cbv beta.
    rewrite put_le16_bytes, get_le16_bytes by done. rewrite <- (string_of_bytes_of_string s) at 3.
    apply (parses_map _ (fun b => VStr (string_of_bytes b))), parses_need, zlen_bytes_of_string.
  - rewrite <- (app_nil_r [_]). eapply parses_bind; [apply parses_u8|]. by destruct b; apply parses_ret.
  - apply parses_fixed; [done|]. f_equal. rewrite get_put_le32 by auto with nyx. by apply signed_wrap.
  - apply parses_fixed; [done|]. f_equal. rewrite get_put_u64 by auto with nyx. by apply signed_wrap.
Qed.

Lemma parses_put_partition p : partition_ok p ->
  parses read_partition (put_partition p) p.
Proof.
  intros (Hn & Ha & Hu). unfold read_partition, put_partition.
  destruct p as [nm mx ub ad]. cbn [part_name is_maxvalue upper_bound node_addr] in *.
  eapply parses_bind; [by apply parses_put_str|].
  eapply parses_bind; [apply parses_u8|]. cbv zeta.
  destruct mx; cbn [Z.eqb negb].
  - rewrite Hu. eapply (parses_bind _ _ []); [apply parses_ret|].
    by apply (parses_map _ (mkPartition nm true VNull)), parses_put_str.
  - eapply parses_bind; [by apply parses_put_value|].
    by apply (parses_map _ (mkPartition nm false ub)), parses_put_str.
Qed.

Lemma parses_shard_map meta : meta_ok meta ->
  parses read_shard_map (buffer meta) meta.
Proof.
  intros (Hc & Hp & Hn). unfold read_shard_map, buffer.
  eapply parses_bind; [by apply parses_need|]. rewrite bool_decide_true by done. cbn [negb].
  eapply parses_bind; [by apply parses_need|]. eapply parses_bind; [apply parses_u8|].
  eapply parses_bind; [by apply parses_put_str|]. rewrite wrap_id by done.
  eapply parses_bind; [by apply parses_need|]. cbv beta.
  rewrite put_le16_bytes, get_le16_bytes by done.
  replace (Z.to_nat (zlen (partitions meta))) with (length (partitions meta)) by (unfold zlen; lia).
  destruct meta as [pc pi ps]. apply (parses_map _ (mkShardMap pc pi)), parses_repeat_id.
  apply (Forall_impl _ _ _ Hp). apply parses_put_partition.
Qed.

Lemma dlocal_read_str : dlocal read_str.
Proof. unfold read_str. auto with nyx. Qed.

Lemma dlocal_read_partition : dlocal read_partition.
Proof.
  apply dlocal_bind; [apply dlocal_read_str|]. intros nm. apply dlocal_bind; [apply dlocal_u8|]. intros mx.
  apply dlocal_bind; [|intros ub; apply dlocal_bind; [apply dlocal_read_str|intros; apply dlocal_ret]].
  destruct (negb (negb (mx =? 0))); [|apply dlocal_ret].
  apply dlocal_bind; [apply dlocal_u8|]. intros t. destruct (type_of_code t); auto with nyx.
Qed.

Lemma dlocal_read_shard_map : dlocal read_shard_map.
Proof.
  apply dlocal_bind; [apply dlocal_need|]. intros m. destruct (negb _); [apply dlocal_fail|].
  auto 10 using dlocal_read_str, dlocal_read_partition with nyx.
Qed.

(** ** Properties *)

Definition demo_partitions : list PartitionDef :=
  [mkPartition "p0" false (VI32 100) "n0:1"; mkPartition "p1" false (VI32 200) "n1:1";
   mkPartition "p2" true VNull "n2:1"].

Definition demo_shards : ShardMapMeta := mkShardMap "id" 0 demo_partitions.

(** A shard map whose write reports success is read back unchanged; no outcome of the system
    calls makes a later read return another shard map. *)
Theorem shard_map_file_durable path meta io old r f :
  meta_ok meta -> write path meta io old = (r, f) ->
  (r = Ok tt -> read path f = Ok meta) /\
  (f = old \/ read path f = Ok meta \/ is_err (read path f) = true).
Proof.
  intros Hok Hw.
  exact (store_then_read _ _ _ _ _ _ _ _ _ dlocal_read_shard_map (parses_shard_map _ Hok) Hw).
Qed.

Lemma shard_map_file_durable_witness :
  let f := Ok (buffer demo_shards) in
  write "m" demo_shards (Writes (zlen (buffer demo_shards)) "") (Err "ENOENT")
    = (Ok tt, f) /\ read "m" f = Ok demo_shards.
Proof.
  intros f. assert (Hw : write "m" demo_shards
    (Writes (zlen (buffer demo_shards)) "") (Err "ENOENT") = (Ok tt, f)) by (vm_compute; reflexivity).
  split; [exact Hw|].
  refine (proj1 (shard_map_file_durable _ demo_shards _ _ _ f _ Hw) eq_refl).
  split; [vm_compute; reflexivity|]. split; [|vm_compute; split; congruence].
  repeat constructor; vm_compute; congruence.
Defined.
