(* ===== verification/ShardMap.v ===== *)
(** * Range partitioning: routing and pruning

    [shard_for_value] and [prune_partitions] (src/src/storage/disk/shard_map_file.cpp); the choice of the target shards of a
    SELECT by [ShardCoordinator::fan_out_select_] (src/src/server/shard_coordinator.cpp).
    [None] stands for the [std::bad_variant_access] that [std::get] throws when two
    values of different alternatives are compared. *)

From S2P Require Import Prelude Types ShardMapFile.

(** ** Operators *)

(** [enum class BinaryOpKind : u8] (src/src/executor/expression.h). *)
Inductive BinaryOpKind : Type :=
| OpADD | OpSUB | OpMUL | OpDIV | OpLT | OpLE | OpEQ | OpGE | OpGT | OpNE | OpUnknown (b : Z).

#[export] Instance BinaryOpKind_eq_dec : EqDecision BinaryOpKind.
Proof. solve_decision. Defined.

Definition op_of_int (k : Z) : BinaryOpKind :=
  match wrap 8 k with
  | 0 => OpADD | 1 => OpSUB | 2 => OpMUL | 3 => OpDIV | 4 => OpLT | 5 => OpLE
  | 6 => OpEQ | 7 => OpGE | 8 => OpGT | 9 => OpNE | b => OpUnknown b
  end.

Definition op_to_int (op : BinaryOpKind) : Z :=
  match op with
  | OpADD => 0 | OpSUB => 1 | OpMUL => 2 | OpDIV => 3 | OpLT => 4 | OpLE => 5
  | OpEQ => 6 | OpGE => 7 | OpGT => 8 | OpNE => 9 | OpUnknown b => b
  end.

(** ** Routing and pruning *)

(** [cmp_val], from the two comparisons it makes. *)
Definition cmp_val (lt gt : bool) : Z := if lt then -1 else if gt then 1 else 0.

Definition cmp_int (a b : Z) : Z := cmp_val (a <? b) (b <? a).

Definition cmp_str (a b : string) : Z :=
  cmp_val (bool_decide (string_cmp a b = Lt)) (bool_decide (string_cmp a b = Gt)).

Definition compare_values (a b : Value) : option Z :=
  match a with
  | VNull => Some 0
  | VI32 x => match b with VI32 y => Some (cmp_int x y) | _ => None end
  | VI64 x => match b with VI64 y => Some (cmp_int x y) | _ => None end
  | VF64 x => match b with VF64 y => Some (cmp_val (f64_lt x y) (f64_lt y x)) | _ => None end
  | VStr x => match b with VStr y => Some (cmp_str x y) | _ => None end
  | VBool x => match b with VBool y => Some (cmp_int (Z.b2z x) (Z.b2z y)) | _ => None end
  | VDate x => match b with VDate y => Some (cmp_int x y) | _ => None end
  | VTimestamp x => match b with VTimestamp y => Some (cmp_int x y) | _ => None end
  end.

(** The loop of [shard_for_value] from partition [i]; [last] is [size() - 1]. *)
Fixpoint shard_loop (ps : list PartitionDef) (i last : Z) (val : Value) : option Z :=
  match ps with
  | [] => Some last
  | p :: ps' =>
      if is_maxvalue p then Some i
      else if is_null val then shard_loop ps' (i + 1) last val
      else
        let! c := compare_values val (upper_bound p) in
        if c <? 0 then Some i else shard_loop ps' (i + 1) last val
  end.

Definition shard_for_value (meta : ShardMapMeta) (val : Value) : option Z :=
  shard_loop (partitions meta) 0 (wrap 64 (zlen (partitions meta) - 1)) val.

(** The [switch] on the operator: whether the partition with bound [ub], after one with
    bound [prev], is kept. *)
Definition keep_partition (op : BinaryOpKind) (prev : option Value) (ub literal : Value) : option bool :=
  match op with
  | OpEQ =>
      let! lower_ok := (match prev with
                        | None => Some true
                        | Some pu => let! c := compare_values pu literal in Some (c <=? 0)
                        end) in
      let! c := compare_values literal ub in
      Some (lower_ok && (c <? 0))
  | OpLT | OpLE =>
      match prev with
      | None => Some true
      | Some pu => let! c := compare_values pu literal in Some (c <? 0)
      end
  | OpGT | OpGE => let! c := compare_values ub literal in Some (0 <? c)
  | _ => Some true
  end.

(** The loop of [prune_partitions]; [prev] is [prev_upper] once [have_prev] is set. *)
Fixpoint prune_loop (op : BinaryOpKind) (ps : list PartitionDef) (i : Z) (prev : option Value)
    (literal : Value) : option (list Z) :=
  match ps with
  | [] => Some []
  | p :: ps' =>
      if is_maxvalue p then Some [i]
      else
        let! k := keep_partition op prev (upper_bound p) literal in
        let! out := prune_loop op ps' (i + 1) (Some (upper_bound p)) literal in
        Some (if k then i :: out else out)
  end.

Definition all_shards (meta : ShardMapMeta) : list Z :=
  map Z.of_nat (seq 0 (length (partitions meta))).

Definition prune_partitions (meta : ShardMapMeta) (predicate_col_idx op_kind_int : Z) (literal : Value)
    : option (list Z) :=
  if negb (predicate_col_idx =? partition_col_idx meta) then Some (all_shards meta)
  else
    let! out := prune_loop (op_of_int op_kind_int) (partitions meta) 0 None literal in
    Some (match out with [] => all_shards meta | _ => out end).

(** The right operand of a comparison: the literals that [fan_out_select_] recognises. *)
Inductive BoundNode : Type :=
| BoundIntLit (value : Z) (type : TypeId)
| BoundDoubleLit (bits : Z)
| BoundStringLit (value : string)
| BoundDateLit (days : Z)
| BoundTimestampLit (micros : Z)
| BoundOther.

Definition lit_val (n : BoundNode) : Value :=
  match n with
  | BoundIntLit v t => if bool_decide (t = INT32) then VI32 (signed 32 v) else VI64 v
  | BoundDoubleLit b => VF64 b
  | BoundStringLit s => VStr s
  | BoundDateLit d => VDate d
  | BoundTimestampLit m => VTimestamp m
  | BoundOther => VNull
  end.

(** The target shards of [fan_out_select_]: [pred] is the WHERE clause if it has the form
    [column op operand]. *)
Definition target_shards (sm : ShardMapMeta) (pred : option (Z * BinaryOpKind * BoundNode)) : option (list Z) :=
  let! targets :=
    (match pred with
     | Some (column_idx, op, operand) =>
         if (column_idx =? partition_col_idx sm) && negb (is_null (lit_val operand))
         then prune_partitions sm (wrap 8 column_idx) (op_to_int op) (lit_val operand)
         else Some []
     | None => Some []
     end) in
  Some (match targets with [] => all_shards sm | _ => targets end).

(** ** Lemmas on the order of values *)

(** A value of type [t] that takes part in the order: not NULL and not a NaN. *)
Definition comparable (t : TypeId) (v : Value) : Prop :=
  variant_type v = t /\ v <> VNull /\ match v with VF64 b => f64_is_nan b = false | _ => True end.

Definition cmp_code (c : comparison) : Z := match c with Lt => -1 | Eq => 0 | Gt => 1 end.

Lemma cmp_int_code a b : cmp_int a b = cmp_code (a ?= b).
Proof.
  unfold cmp_int, cmp_val. destruct (Z.ltb_spec a b), (Z.ltb_spec b a), (Z.compare_spec a b); done || lia.
Qed.

Lemma cmp_f64_code a b : f64_is_nan a = false -> f64_is_nan b = false ->
  cmp_val (f64_lt a b) (f64_lt b a) = cmp_code (f64_key a ?= f64_key b).
Proof. intros Ha Hb. rewrite <- cmp_int_code. unfold f64_lt. by rewrite Ha, Hb. Qed.

(** Comparable values are compared by their keys, without an exception. *)
Lemma compare_key t a b : comparable t a -> comparable t b ->
  compare_values a b = Some (cmp_code (bytes_cmp (value_key a) (value_key b))).
Proof.
  intros (Ha & Hna & Hfa) (Hb & Hnb & Hfb).
  destruct a, b; simpl in Ha, Hb; try congruence; cbn [compare_values value_key]; f_equal;
    rewrite ?key_cmp_one, ?cmp_int_code; try done.
  - by apply cmp_f64_code.
  - unfold cmp_str, cmp_val, string_cmp.
    by destruct (bytes_cmp (bytes_of_string s) (bytes_of_string s0)).
Qed.

(** ** Which partition owns a value *)

Abbreviation bound_key p := (value_key (upper_bound p)).

Definition at_or_above (v : Value) (p : PartitionDef) : Prop :=
  v = VNull \/ bytes_cmp (bound_key p) (value_key v) <> Gt.

Definition below (v : Value) (p : PartitionDef) : Prop :=
  v <> VNull /\ bytes_cmp (value_key v) (bound_key p) = Lt.

(** Partition [s] is the first one whose upper bound exceeds [v]; MAXVALUE exceeds every
    value, and what exceeds no bound belongs to the last partition. *)
Definition owns (ps : list PartitionDef) (s : nat) (v : Value) : Prop :=
  (forall j, (j < s)%nat -> exists p, ps !! j = Some p /\ is_maxvalue p = false /\ at_or_above v p) /\
  exists p, ps !! s = Some p /\
    (is_maxvalue p = true \/
     is_maxvalue p = false /\ (below v p \/ S s = length ps /\ at_or_above v p)).

Definition bounds_ok (t : TypeId) (ps : list PartitionDef) : Prop :=
  Forall (fun p => is_maxvalue p = false -> comparable t (upper_bound p)) ps.

(** A value of the partition column: NULL or comparable. *)
Definition column_value (t : TypeId) (v : Value) : Prop := v = VNull \/ comparable t v.

Lemma below_above v p : below v p -> at_or_above v p -> False.
Proof. intros [Hn Hlt] [?|Hle]; [done|]. apply Hle. by apply bytes_cmp_gt_lt. Qed.

Lemma owns_le ps s s' v : owns ps s v -> owns ps s' v -> (s' <= s)%nat.
Proof.
  intros (_ & p & Hp & Hc) (Hlow & p' & Hp' & _). destruct (decide (s' <= s)%nat); [done|]. exfalso.
  destruct (Hlow s) as (q & Hq & Hm & Ha); [lia|]. rewrite Hp in Hq. injection Hq as <-.
  apply lookup_lt_Some in Hp'. destruct Hc as [|[_ [Hb|[Hl _]]]]; [congruence| |lia].
  by eapply below_above.
Qed.

Lemma owns_cons p ps s v : is_maxvalue p = false -> at_or_above v p -> owns ps s v -> owns (p :: ps) (S s) v.
Proof.
  intros Hm Ha (Hlow & q & Hq & Hc). split; [|exists q; simpl; split; [done|]; naive_solver].
  intros [|j] Hj; [by exists p|]. apply Hlow. lia.
Qed.

Lemma owns_head p ps v : is_maxvalue p = true \/
    is_maxvalue p = false /\ (below v p \/ ps = [] /\ at_or_above v p) -> owns (p :: ps) 0 v.
Proof.
  intros H. split; [lia|]. exists p. split; [done|].
  destruct H as [H|[H [Hb|[-> Ha]]]]; [by left|right; auto|right; auto].
Qed.

(** One step of the routing loop. *)
Lemma shard_loop_step t p ps i last v : is_maxvalue p = false -> comparable t (upper_bound p) ->
  column_value t v ->
  (below v p /\ shard_loop (p :: ps) i last v = Some i) \/
  (at_or_above v p /\ shard_loop (p :: ps) i last v = shard_loop ps (i + 1) last v).
Proof.
  intros Hm Hub Hv. cbn [shard_loop]. rewrite Hm. destruct Hv as [->|Hv]; [right; split; [by left|done]|].
  destruct Hv as (Ht & Hn & Hf). replace (is_null v) with false by (by destruct v).
  rewrite (compare_key t) by done.
  destruct (bytes_cmp (value_key v) (bound_key p)) eqn:E; simpl.
  - right. split; [|done]. right. rewrite bytes_cmp_antisym, E. done.
  - by left.
  - right. split; [|done]. right. rewrite bytes_cmp_antisym, E. done.
Qed.

Lemma shard_loop_owns t ps v : forall i last, bounds_ok t ps -> column_value t v -> ps <> [] ->
  last = i + zlen ps - 1 ->
  exists s, shard_loop ps i last v = Some (i + Z.of_nat s) /\ owns ps s v.
Proof.
  induction ps as [|p ps IH]; intros i last Hb Hv Hne Hl; [done|].
  apply Forall_cons in Hb as [Hp Hps]. destruct (is_maxvalue p) eqn:Hm.
  { exists 0%nat. cbn [shard_loop]. rewrite Hm, Z.add_0_r. split; [done|]. apply owns_head. auto. }
  destruct (shard_loop_step t p ps i last v Hm (Hp eq_refl) Hv) as [[Hb ->]|[Ha ->]].
  { exists 0%nat. rewrite Z.add_0_r. split; [done|]. apply owns_head. auto. }
  destruct (decide (ps = [])) as [->|Hps0].
  { exists 0%nat. simpl. unfold zlen in Hl. simpl in Hl. split; [f_equal; lia|].
    apply owns_head. auto. }
  destruct (IH (i + 1) last Hps Hv Hps0) as (s & Hs & Ho); [unfold zlen in *; simpl in Hl; lia|].
  exists (S s). split; [rewrite Hs; f_equal; lia|]. by apply owns_cons.
Qed.

(** ** Pruning keeps the owners *)

(** [v op literal] for a value and a literal that compare as [c]. *)
Definition holds (op : BinaryOpKind) (c : comparison) : Prop :=
  match op with
  | OpLT => c = Lt
  | OpLE => c <> Gt
  | OpEQ => c = Eq
  | OpGE => c <> Lt
  | OpGT => c = Gt
  | OpNE => c <> Eq
  | _ => True
  end.

Definition satisfies (op : BinaryOpKind) (v literal : Value) : Prop :=
  holds op (bytes_cmp (value_key v) (value_key literal)).

(** The bound before partition [s]. *)
Definition prev_bound (prev : option Value) (ps : list PartitionDef) (s : nat) : option Value :=
  match s with
  | O => prev
  | S s' => upper_bound <$> ps !! s'
  end.

Lemma keep_some t op prev ub lit : comparable t ub -> comparable t lit ->
  (forall pu, prev = Some pu -> comparable t pu) -> exists k, keep_partition op prev ub lit = Some k.
Proof.
  intros Hu Hl Hp. unfold keep_partition.
  destruct op; try (by eexists); rewrite ?(compare_key t _ _ Hu Hl), ?(compare_key t _ _ Hl Hu);
    try (by eexists); destruct prev as [pu|]; try (by eexists);
    rewrite (compare_key t pu lit) by auto; by eexists.
Qed.

Lemma prune_loop_some t op lit ps : forall i prev, bounds_ok t ps -> comparable t lit ->
  (forall pu, prev = Some pu -> comparable t pu) -> exists out, prune_loop op ps i prev lit = Some out.
Proof.
  induction ps as [|p ps IH]; intros i prev Hb Hl Hp; [by eexists|].
  apply Forall_cons in Hb as [Hu Hps]. cbn [prune_loop].
  destruct (is_maxvalue p) eqn:Hm; [by eexists|].
  destruct (keep_some t op prev (upper_bound p) lit) as (k & ->); auto.
  destruct (IH (i + 1) (Some (upper_bound p))) as (out & ->); [done|done| |by eexists].
  intros pu [= <-]. auto.
Qed.

(** Partition [s] is in the output if it is the MAXVALUE partition or is kept. *)
Lemma prune_loop_elem op lit ps : forall i prev out s p,
  prune_loop op ps i prev lit = Some out -> ps !! s = Some p ->
  (forall j q, (j < s)%nat -> ps !! j = Some q -> is_maxvalue q = false) ->
  is_maxvalue p = true \/ keep_partition op (prev_bound prev ps s) (upper_bound p) lit = Some true ->
  i + Z.of_nat s ∈ out.
Proof.
  induction ps as [|q ps IH]; intros i prev out s p Hr Hs Hlow Hk; [done|].
  cbn [prune_loop] in Hr. destruct s as [|s].
  - injection Hs as ->. rewrite Z.add_0_r. destruct (is_maxvalue p) eqn:Hm.
    + injection Hr as <-. by apply list_elem_of_singleton.
    + destruct Hk as [|Hk]; [done|]. cbn [prev_bound] in Hk. rewrite Hk in Hr.
      destruct (prune_loop _ _ _ _ _); [|done]. injection Hr as <-. constructor.
  - rewrite (Hlow 0%nat q) in Hr by (done || lia).
    destruct (keep_partition op prev (upper_bound q) lit) as [k|]; [|done].
    destruct (prune_loop op ps _ _ _) as [out'|] eqn:Hr'; [|done]. injection Hr as <-.
    assert (Hin : i + 1 + Z.of_nat s ∈ out').
    { eapply IH; [exact Hr'|exact Hs| |].
      - intros j q' Hj Hq'. apply (Hlow (S j) q'); [lia|done].
      - destruct Hk as [Hk|Hk]; [by left|right]. by destruct s. }
    replace (i + Z.of_nat (S s)) with (i + 1 + Z.of_nat s) by lia. destruct k; [by constructor|done].
Qed.

(** Nothing is kept: the loop returns the empty list. *)
Lemma prune_loop_none op lit ps : forall i prev,
  (forall s p, ps !! s = Some p -> is_maxvalue p = false /\
     keep_partition op (prev_bound prev ps s) (upper_bound p) lit = Some false) ->
  prune_loop op ps i prev lit = Some [].
Proof.
  induction ps as [|q ps IH]; intros i prev H; [done|]. cbn [prune_loop].
  destruct (H 0%nat q eq_refl) as [-> Hk]. cbn [prev_bound] in Hk. rewrite Hk, IH; [done|].
  intros s p Hs. destruct (H (S s) p Hs) as [Hm Hk']. split; [done|]. by destruct s.
Qed.

(** The bounds do not decrease. *)
Definition ascending (ps : list PartitionDef) : Prop :=
  forall i j p q, ps !! i = Some p -> ps !! j = Some q -> (i <= j)%nat ->
    is_maxvalue p = false -> is_maxvalue q = false -> bytes_cmp (bound_key p) (bound_key q) <> Gt.

(** The owner of a value that satisfies the predicate is kept, if [v] is below its bound or
    the predicate only looks at the lower bound. *)
Lemma keep_owner t op prev p v lit :
  comparable t v -> comparable t lit -> comparable t (upper_bound p) ->
  (forall pu, prev = Some pu -> comparable t pu /\ bytes_cmp (value_key pu) (value_key v) <> Gt) ->
  op <> OpLE -> satisfies op v lit ->
  below v p \/ op = OpLT \/ (op = OpGT \/ op = OpGE) /\ bytes_cmp (value_key lit) (bound_key p) = Lt \/
    (op <> OpEQ /\ op <> OpGT /\ op <> OpGE) ->
  keep_partition op prev (upper_bound p) lit = Some true.
Proof.
  intros Hv Hl Hu Hprev Hle Hsat Hcase. unfold satisfies in Hsat.
  assert (Hgt : op = OpGT \/ op = OpGE -> bytes_cmp (value_key lit) (bound_key p) = Lt).
  { intros Hop. destruct Hcase as [[_ Hb]|[->|[[_ Hb]|(_ & H1 & H2)]]]; [|by destruct Hop|done|tauto].
    destruct Hop as [-> | ->]; cbn in Hsat.
    - eapply bytes_cmp_lt_trans; [by apply bytes_cmp_gt_lt|done].
    - eapply bytes_cmp_le_lt; [|done]. by rewrite bytes_cmp_gt_lt. }
  assert (Hpu : forall pu, prev = Some pu -> compare_values pu lit =
    Some (cmp_code (bytes_cmp (value_key pu) (value_key lit)))).
  { intros pu Hpu. apply (compare_key t); [by apply Hprev|done]. }
  destruct op; try done; cbn in Hsat; cbn [keep_partition].
  - destruct prev as [pu|]; [|done]. rewrite Hpu by done.
    destruct (Hprev pu eq_refl) as [_ Hc]. by rewrite (bytes_cmp_le_lt _ _ _ Hc Hsat).
  - apply bytes_cmp_eq in Hsat.
    assert (Hb : compare_values lit (upper_bound p) = Some (-1)).
    { rewrite (compare_key t) by done. rewrite <- Hsat.
      destruct Hcase as [[_ ->]|[|[[[]]|[]]]]; done. }
    rewrite Hb. destruct prev as [pu|]; [|done]. rewrite Hpu by done.
    destruct (Hprev pu eq_refl) as [_ Hc]. rewrite Hsat in Hc.
    by destruct (bytes_cmp (value_key pu) (value_key lit)).
  - rewrite (compare_key t) by done. rewrite bytes_cmp_antisym, Hgt by auto. done.
  - rewrite (compare_key t) by done. rewrite bytes_cmp_antisym, Hgt by auto. done.
Qed.

Lemma bounds_ok_lookup t ps s p : bounds_ok t ps -> ps !! s = Some p -> is_maxvalue p = false ->
  comparable t (upper_bound p).
Proof. intros Hb Hs. exact (proj1 (Forall_lookup _ _) Hb s p Hs). Qed.

(** The bound before the owner is comparable and not above the value. *)
Lemma prev_of_owner t ps s v pu : bounds_ok t ps -> v <> VNull -> owns ps s v ->
  prev_bound None ps s = Some pu -> comparable t pu /\ bytes_cmp (value_key pu) (value_key v) <> Gt.
Proof.
  intros Hb Hn [Hlow _] Hp. destruct s as [|s]; [done|]. cbn [prev_bound] in Hp.
  destruct (Hlow s) as (q & Hq & Hm & Ha); [lia|]. rewrite Hq in Hp. injection Hp as <-.
  split; [by eapply bounds_ok_lookup|]. by destruct Ha.
Qed.

(** When the value exceeds every bound and no bound exceeds the literal, EQ, GT and GE keep
    nothing, and the fallback to all partitions applies. *)
Lemma prune_nothing t op lit ps : bounds_ok t ps -> comparable t lit ->
  (op = OpEQ \/ op = OpGT \/ op = OpGE) ->
  (forall j q, ps !! j = Some q -> is_maxvalue q = false /\ bytes_cmp (bound_key q) (value_key lit) <> Gt) ->
  prune_loop op ps 0 None lit = Some [].
Proof.
  intros Hb Hl Hop Hall. apply prune_loop_none. intros s p Hs. destruct (Hall s p Hs) as [Hm Hle].
  split; [done|]. pose proof (bounds_ok_lookup t ps s p Hb Hs Hm) as Hu.
  assert (Hge : bytes_cmp (value_key lit) (bound_key p) <> Lt) by (by rewrite <- bytes_cmp_gt_lt).
  destruct Hop as [-> |[-> | ->]]; cbn [keep_partition];
    rewrite ?(compare_key t _ _ Hu Hl), ?(compare_key t _ _ Hl Hu).
  - assert (Hk : exists k, match prev_bound None ps s with
      | None => Some true
      | Some pu => let! c := compare_values pu lit in Some (c <=? 0) end = Some k).
    { destruct (prev_bound None ps s) as [pu|] eqn:Hpb; [|by eexists]. destruct s as [|s]; [done|].
      cbn [prev_bound] in Hpb. destruct (ps !! s) as [q|] eqn:Hq; [|done]. injection Hpb as <-.
      rewrite (compare_key t); [by eexists| |done]. eapply bounds_ok_lookup; [done|done|].
      by apply (Hall s). }
    destruct Hk as (k & ->). destruct (bytes_cmp (value_key lit) (bound_key p)); try done;
      by rewrite andb_false_r.
  - by destruct (bytes_cmp (bound_key p) (value_key lit)).
  - by destruct (bytes_cmp (bound_key p) (value_key lit)).
Qed.

(** A value beyond the last bound, and a literal not below that bound. *)
Lemma overflow_prunes_nothing t op lit ps s p : (op = OpEQ \/ op = OpGT \/ op = OpGE) ->
  bounds_ok t ps -> ascending ps -> comparable t lit -> ps !! s = Some p -> is_maxvalue p = false ->
  S s = length ps -> (forall j q, (j < s)%nat -> ps !! j = Some q -> is_maxvalue q = false) ->
  bytes_cmp (value_key lit) (bound_key p) <> Lt -> prune_loop op ps 0 None lit = Some [].
Proof.
  intros Hop Hb Hasc Hl Hp Hm Hlast Hlow Hge. apply (prune_nothing t); [done|done|done|].
  intros j q Hq. pose proof (lookup_lt_Some _ _ _ Hq).
  assert (Hmq : is_maxvalue q = false).
  { destruct (decide (j = s)) as [->|]; [congruence|]. apply (Hlow j); [lia|done]. }
  split; [done|]. eapply bytes_cmp_le_trans; [apply (Hasc j s q p); (done || lia)|].
  by rewrite bytes_cmp_gt_lt.
Qed.

Lemma elem_of_all_shards meta s : (s < length (partitions meta))%nat -> Z.of_nat s ∈ all_shards meta.
Proof. intros Hs. apply list_elem_of_fmap. exists s. split; [done|]. apply elem_of_seq. lia. Qed.

(** The pruned list contains the owner of every value that satisfies the predicate. *)
Lemma prune_owner t meta op lit v s out :
  bounds_ok t (partitions meta) -> ascending (partitions meta) ->
  comparable t v -> comparable t lit -> op <> OpLE -> satisfies op v lit ->
  owns (partitions meta) s v -> prune_loop op (partitions meta) 0 None lit = Some out ->
  Z.of_nat s ∈ match out with [] => all_shards meta | _ => out end.
Proof.
  intros Hb Hasc Hv Hl Hle Hsat Ho Hr. set (ps := partitions meta) in *.
  destruct Ho as (Hlow & p & Hp & Hc) eqn:Ho'. clear Ho'.
  assert (Hall : Z.of_nat s ∈ all_shards meta) by (by eapply elem_of_all_shards, lookup_lt_Some).
  enough (Hin : Z.of_nat s ∈ out \/ out = []).
  { destruct Hin as [Hin| ->]; [|done]. by destruct out. }
  assert (Hvn : v <> VNull) by apply Hv.
  assert (Hlow' : forall j q, (j < s)%nat -> ps !! j = Some q -> is_maxvalue q = false).
  { intros j q Hj Hq. destruct (Hlow j Hj) as (q' & Hq' & Hm & _). congruence. }
  assert (Helem := prune_loop_elem op lit ps 0 None out s p Hr Hp Hlow'). rewrite Z.add_0_l in Helem.
  destruct Hc as [Hm|[Hm Hc]]; [left; auto|].
  pose proof (bounds_ok_lookup t ps s p Hb Hp Hm) as Hu.
  assert (Hkeep := keep_owner t op (prev_bound None ps s) p v lit Hv Hl Hu
    (fun pu => prev_of_owner t ps s v pu Hb Hvn Ho) Hle Hsat).
  destruct Hc as [Hbel|[Hlast Habove]]; [left; auto|].
  destruct (decide (op = OpEQ \/ op = OpGT \/ op = OpGE)) as [Hop|Hop].
  - destruct (decide (bytes_cmp (value_key lit) (bound_key p) = Lt)) as [Hlt|Hge].
    + left. apply Helem. right. apply Hkeep. right. right. left. split; [|done].
      destruct Hop as [-> |Hop]; [|done]. exfalso. apply bytes_cmp_eq in Hsat. rewrite <- Hsat in Hlt.
      by eapply (below_above v p).
    + right. pose proof (overflow_prunes_nothing t op lit ps s p Hop Hb Hasc Hl Hp Hm Hlast Hlow' Hge).
      congruence.
  - left. apply Helem. right. apply Hkeep. right. right. right. tauto.
Qed.

(** What the loop returns was kept. *)
Lemma prune_loop_from op lit ps : forall i prev out x, prune_loop op ps i prev lit = Some out -> x ∈ out -> i <= x.
Proof.
  induction ps as [|p ps IH]; intros i prev out x Hr Hx; cbn [prune_loop] in Hr.
  { injection Hr as <-. by apply elem_of_nil in Hx. }
  destruct (is_maxvalue p).
  { injection Hr as <-. apply list_elem_of_singleton in Hx. lia. }
  destruct (keep_partition _ _ _ _) as [k|]; [|done].
  destruct (prune_loop op ps _ _ _) as [out'|] eqn:Hr'; [|done]. injection Hr as <-.
  assert (Hrec : x ∈ out' -> i <= x) by (intros Hin; specialize (IH _ _ _ _ Hr' Hin); lia).
  destruct k; [|by apply Hrec]. apply elem_of_cons in Hx as [->|Hx]; [lia|by apply Hrec].
Qed.

Lemma prune_loop_kept op lit ps : forall i prev out s p,
  prune_loop op ps i prev lit = Some out -> ps !! s = Some p -> is_maxvalue p = false ->
  i + Z.of_nat s ∈ out -> keep_partition op (prev_bound prev ps s) (upper_bound p) lit = Some true.
Proof.
  induction ps as [|q ps IH]; intros i prev out s p Hr Hs Hm Hin; [done|]. cbn [prune_loop] in Hr.
  destruct (is_maxvalue q) eqn:Hq.
  { injection Hr as <-. apply list_elem_of_singleton in Hin. destruct s; [|lia]. injection Hs as ->. congruence. }
  destruct (keep_partition op prev (upper_bound q) lit) as [k|] eqn:Hk; [|done].
  destruct (prune_loop op ps _ _ _) as [out'|] eqn:Hr'; [|done]. injection Hr as <-. destruct s as [|s].
  - injection Hs as ->. rewrite Z.add_0_r in Hin. destruct k; [done|].
    pose proof (prune_loop_from _ _ _ _ _ _ _ Hr' Hin). lia.
  - assert (Hin' : i + 1 + Z.of_nat s ∈ out').
    { replace (i + 1 + Z.of_nat s) with (i + Z.of_nat (S s)) by lia. destruct k; [|done].
      apply elem_of_cons in Hin as [Hin|Hin]; [lia|done]. }
    specialize (IH _ _ _ _ _ Hr' Hs Hm Hin'). by destruct s.
Qed.

(** [<=] keeps the first partition. *)
Lemma le_keeps_first lit ps i out s p : prune_loop OpLE ps i None lit = Some out -> ps !! s = Some p ->
  (forall j r, (j <= s)%nat -> ps !! j = Some r -> is_maxvalue r = false) -> i ∈ out.
Proof.
  intros Hr Hp Hmax. destruct ps as [|q ps]; [done|]. cbn [prune_loop keep_partition] in Hr.
  rewrite (Hmax 0%nat q) in Hr by (done || lia). destruct (prune_loop _ _ _ _ _); [|done]. injection Hr as <-. constructor.
Qed.

(** The value of a bound belongs to the next partition. *)
Lemma bound_owner t sm s p q v : ascending (partitions sm) ->
  partitions sm !! s = Some p -> partitions sm !! S s = Some q ->
  (forall j r, (j <= S s)%nat -> partitions sm !! j = Some r -> is_maxvalue r = false) ->
  bytes_cmp (bound_key p) (bound_key q) = Lt -> comparable t v -> value_key v = bound_key p ->
  owns (partitions sm) (S s) v.
Proof.
  intros Hasc Hp Hq Hmax Hlt (_ & Hn & _) Hk. split.
  - intros j Hj. destruct (lookup_lt_is_Some_2 (partitions sm) j) as [r Hr]; [apply lookup_lt_Some in Hq; lia|].
    exists r. split; [done|]. split; [by apply (Hmax j); [lia|]|]. right. rewrite Hk.
    apply (Hasc j s r p Hr Hp); [lia|by apply (Hmax j); [lia|]|by apply (Hmax s); [lia|]].
  - exists q. split; [done|]. right. split; [by apply (Hmax (S s))|]. left. split; [done|]. by rewrite Hk.
Qed.

(** ** Properties *)

(** Routing is total and deterministic: on comparable bounds, [shard_for_value] returns,
    without an exception, the one partition that owns the value; the owner is the first
    partition whose bound exceeds it, and NULL goes to MAXVALUE or the last partition. *)
Theorem shard_for_value_correct t meta v :
  bounds_ok t (partitions meta) -> column_value t v -> partitions meta <> [] ->
  zlen (partitions meta) < 2 ^ 64 ->
  exists s, shard_for_value meta v = Some (Z.of_nat s) /\ owns (partitions meta) s v /\
    forall s', owns (partitions meta) s' v -> s' = s.
Proof.
  intros Hb Hv Hne Hlen.
  destruct (shard_loop_owns t (partitions meta) v 0 (wrap 64 (zlen (partitions meta) - 1)) Hb Hv Hne)
    as (s & Hs & Ho).
  { rewrite wrap_id; [lia|]. destruct (partitions meta); [done|]. unfold in_u, zlen in *. simpl in *. lia. }
  exists s. split; [exact Hs|]. split; [done|]. intros s' Ho'.
  pose proof (owns_le _ _ _ _ Ho Ho'). pose proof (owns_le _ _ _ _ Ho' Ho). lia.
Qed.

Lemma demo_bounds_ok : bounds_ok INT32 demo_partitions.
Proof. repeat constructor; done. Qed.

Lemma demo_ascending : ascending demo_partitions.
Proof.
  intros i j p q Hi Hj Hle Hp Hq.
  destruct i as [|[|[|i]]], j as [|[|[|j]]]; simplify_eq/=; done || lia.
Qed.

Lemma shard_for_value_correct_witness :
  exists s, shard_for_value demo_shards (VI32 100) = Some (Z.of_nat s) /\
    owns demo_partitions s (VI32 100) /\ forall s', owns demo_partitions s' (VI32 100) -> s' = s.
Proof.
  apply (shard_for_value_correct INT32 demo_shards (VI32 100)).
  - apply demo_bounds_ok.
  - right. repeat split; congruence.
  - discriminate.
  - vm_compute. reflexivity.
Defined.

(** The row with value [v] in the partition column may satisfy the WHERE clause: if that
    compares the partition column with a literal, then [v] does satisfy it (and the operator is
    not [<=]). *)
Definition query_matches (t : TypeId) (sm : ShardMapMeta) (pred : option (Z * BinaryOpKind * BoundNode))
    (v : Value) : Prop :=
  match pred with
  | Some (col, op, operand) =>
      col = partition_col_idx sm -> lit_val operand <> VNull ->
      comparable t (lit_val operand) /\ op <> OpLE /\ op_of_int (op_to_int op) = op /\
      satisfies op v (lit_val operand)
  | None => True
  end.

(** C31. Pruning is sound for partitions with ascending bounds of the type of the column: a row whose value in
    the column is of that type, not NULL and not NaN is inserted into a shard that is among the target
    shards of every SELECT whose predicate the row satisfies, for all comparison operators but [<=]. *)
Theorem fan_out_covers_inserts t sm pred v s :
  bounds_ok t (partitions sm) -> ascending (partitions sm) -> comparable t v ->
  partitions sm <> [] -> zlen (partitions sm) < 2 ^ 64 -> in_u 8 (partition_col_idx sm) ->
  shard_for_value sm v = Some s -> query_matches t sm pred v ->
  exists targets, target_shards sm pred = Some targets /\ s ∈ targets.
Proof.
  intros Hb Hasc Hv Hne Hlen Hidx Hs Hq.
  destruct (shard_loop_owns t (partitions sm) v 0 (wrap 64 (zlen (partitions sm) - 1)) Hb) as (s' & Hs' & Ho);
    [by right|done| |].
  { rewrite wrap_id; [lia|]. destruct (partitions sm); [done|]. unfold in_u, zlen in *. simpl in *. lia. }
  unfold shard_for_value in Hs. rewrite Hs, Z.add_0_l in Hs'. injection Hs' as ->.
  assert (Hall : Z.of_nat s' ∈ all_shards sm).
  { destruct Ho as (_ & p & Hp & _). by eapply elem_of_all_shards, lookup_lt_Some. }
  destruct pred as [[[col op] operand]|]; [|by exists (all_shards sm)].
  unfold target_shards. cbn [query_matches] in Hq.
  destruct (Z.eqb_spec col (partition_col_idx sm)) as [->|]; cbn [andb]; [|by exists (all_shards sm)].
  set (lit := lit_val operand) in *. destruct (is_null lit) eqn:Hn; cbn [negb]; [by exists (all_shards sm)|].
  destruct (Hq eq_refl) as (Hl & Hle & Hop & Hsat); [by intros Hl; rewrite Hl in Hn|].
  unfold prune_partitions. rewrite wrap_id, Z.eqb_refl, Hop by done. cbn [negb].
  destruct (prune_loop_some t op lit (partitions sm) 0 None Hb Hl) as (out & Hr); [done|].
  rewrite Hr. pose proof (prune_owner t sm op lit v s' out Hb Hasc Hv Hl Hle Hsat Ho Hr) as Hin.
  eexists. split; [done|]. by destruct out; [destruct (all_shards sm)|].
Qed.

Lemma fan_out_covers_inserts_witness :
  exists targets, target_shards demo_shards (Some (0, OpGE, BoundIntLit 150 INT32)) = Some targets /\ 1 ∈ targets.
Proof.
  apply (fan_out_covers_inserts INT32 demo_shards _ (VI32 199)).
  - apply demo_bounds_ok.
  - apply demo_ascending.
  - repeat split; congruence.
  - discriminate.
  - vm_compute. reflexivity.
  - vm_compute. split; congruence.
  - vm_compute. reflexivity.
  - intros _ _. repeat split; vm_compute; congruence.
Defined.

(** C38. For [<=] pruning is unsound: a row whose value is the bound of a partition is stored on the
    next shard, and if that is not the MAXVALUE shard, no query [column <= literal] with this bound
    as the literal is sent there, although the row satisfies it. *)
Theorem prune_le_loses_rows t sm s p q operand v :
  let lit := lit_val operand in
  bounds_ok t (partitions sm) -> ascending (partitions sm) -> in_u 8 (partition_col_idx sm) ->
  zlen (partitions sm) < 2 ^ 64 -> partitions sm !! s = Some p -> partitions sm !! S s = Some q ->
  (forall j r, (j <= S s)%nat -> partitions sm !! j = Some r -> is_maxvalue r = false) ->
  bytes_cmp (bound_key p) (bound_key q) = Lt ->
  comparable t lit -> value_key lit = bound_key p -> comparable t v -> value_key v = bound_key p ->
  satisfies OpLE v lit /\ shard_for_value sm v = Some (Z.of_nat (S s)) /\
  exists targets, target_shards sm (Some (partition_col_idx sm, OpLE, operand)) = Some targets /\
    Z.of_nat (S s) ∉ targets.
Proof.
  intros lit Hb Hasc Hidx Hlen Hp Hq Hmax Hlt Hl Hlk Hv Hvk.
  assert (Hmq : is_maxvalue q = false) by (by apply (Hmax (S s))).
  assert (Hown : owns (partitions sm) (S s) v) by (by apply (bound_owner t sm s p q v)).
  split; [unfold satisfies; cbn; by rewrite Hvk, Hlk, bytes_cmp_refl|]. split.
  { destruct (shard_loop_owns t (partitions sm) v 0 (wrap 64 (zlen (partitions sm) - 1)) Hb) as (s' & Hs' & Ho);
      [by right|by intros E; rewrite E in Hp| |].
    { rewrite wrap_id; [lia|]. apply lookup_lt_Some in Hp. unfold in_u, zlen in *. lia. }
    unfold shard_for_value. rewrite Hs'. f_equal.
    pose proof (owns_le _ _ _ _ Ho Hown). pose proof (owns_le _ _ _ _ Hown Ho). lia. }
  unfold target_shards. rewrite Z.eqb_refl. fold lit.
  replace (is_null lit) with false by (destruct Hl as (_ & Hn & _); by destruct lit).
  cbn [negb andb]. unfold prune_partitions. rewrite wrap_id, Z.eqb_refl by done. cbn [negb].
  change (op_of_int (op_to_int OpLE)) with OpLE.
  destruct (prune_loop_some t OpLE lit (partitions sm) 0 None Hb Hl) as (out & Hr); [done|]. rewrite Hr.
  assert (H0 : 0 ∈ out) by (by eapply le_keeps_first; [exact Hr|exact Hp|intros j r Hj; apply Hmax; lia]).
  assert (Hnot : Z.of_nat (S s) ∉ out).
  { intros Hin. pose proof (prune_loop_kept OpLE lit (partitions sm) 0 None out (S s) q Hr Hq Hmq) as Hk.
    rewrite Z.add_0_l in Hk. specialize (Hk Hin). cbn [prev_bound keep_partition] in Hk. rewrite Hp in Hk. cbn in Hk.
    rewrite (compare_key t) in Hk by (done || by eapply bounds_ok_lookup; [done|done|apply (Hmax s); [lia|done]]).
    by rewrite Hlk, bytes_cmp_refl in Hk. }
  exists out. destruct out as [|x out]; [by apply elem_of_nil in H0|]. done.
Qed.

Lemma prune_le_loses_rows_witness :
  satisfies OpLE (VI32 100) (VI32 100) /\ shard_for_value demo_shards (VI32 100) = Some 1 /\
  exists targets, target_shards demo_shards (Some (0, OpLE, BoundIntLit 100 INT32)) = Some targets /\ 1 ∉ targets.
Proof.
  refine (prune_le_loses_rows INT32 demo_shards 0 _ _ (BoundIntLit 100 INT32) (VI32 100) _ _ _ _ _ _ _ _ _ _ _ _).
  - apply demo_bounds_ok.
  - apply demo_ascending.
  - vm_compute. split; congruence.
  - vm_compute. reflexivity.
  - reflexivity.
  - reflexivity.
  - intros [|[|j]] r Hj Hr; [injection Hr as <-; reflexivity|injection Hr as <-; reflexivity|lia].
  - vm_compute. reflexivity.
  - repeat split; vm_compute; congruence.
  - reflexivity.
  - repeat split; vm_compute; congruence.
  - reflexivity.
Defined.
