(* ===== verification/Table.v ===== *)
(** * Tables and segments

    [Segment] (src/src/storage/disk/segment.h, segment.cpp) and [Table]
    (src/src/storage/disk/table.h, table.cpp).  A table is a list of sealed segments and a
    write buffer, each with one column file per column and a bitmap of deleted rows; a row is
    named by its position over all of them.  A live table is modelled together with the files
    only it writes: the contents of a column file are those of its disk manager, and the
    fields [deleted_file], [manifest_file] and [seg_deleted_file] are the files deleted.bin and
    manifest.bin.  [table_files] is what a later [table_open] finds.  The system calls are
    assumed to succeed; the lock makes every operation atomic. *)

From S2P Require Import Prelude Types XXHash Page LruK BufferPool ColumnPage ColumnFile Codec SchemaFile.

(** ** Bitmaps of deleted rows *)

(** [if (bm.size() < n) bm.resize(n, 0)] *)
Definition grow (bm : bytes) (n : Z) : bytes :=
  if zlen bm <? n then bm ++ zeros (n - zlen bm) else bm.

(** [for (id : ids) if (id < count) bm[id / 8] |= 1u << (id % 8)] *)
Definition mark_bits (bm : bytes) (count : Z) (ids : list Z) : bytes :=
  fold_left (fun bm id => if id <? count then bit_set bm id else bm) ids bm.

(** Resize for [count] rows, then mark. *)
Definition mark_rows (bm : bytes) (count : Z) (ids : list Z) : bytes :=
  mark_bits (grow bm (wrap 64 (count + 7) / 8)) count ids.

(** The bit of a row, or false when the bitmap is too short. *)
Definition row_bit (bm : bytes) (local : Z) : bool :=
  if zlen bm <=? local / 8 then false else bit_get bm local.

(** deleted.bin after the bitmap is written: removed when the bitmap is empty. *)
Definition write_deleted (bm : bytes) : option bytes :=
  match bm with [] => None | _ => Some bm end.

Definition load_deleted (f : option bytes) : bytes := default [] f.

(** ** Segments *)

Record SegmentMeta : Type := mkMeta { seg_id : Z; base_row_id : Z; seg_row_count : Z }.

Record Segment : Type := mkSegment {
  seg_meta : SegmentMeta;
  seg_columns : list ColumnFile;
  seg_deleted : bytes;
  seg_deleted_file : option bytes
}.

(** The column files (by column name) and deleted.bin of a directory. *)
Record ColumnDir : Type := mkDir { dir_cols : gmap string bytes; dir_deleted : option bytes }.

(** [ColumnFile::open(dir + "/" + col.name + ".col")]: a file that does not exist is created
    empty. *)
Definition open_col (dir : string) (files : gmap string bytes) (col : Column) : result ColumnFile :=
  open_file (dir +:+ "/" +:+ col_name col +:+ ".col") (default [] (files !! col_name col)).

Fixpoint seg_open_cols (dir : string) (files : gmap string bytes) (schema : Schema) : result (list ColumnFile) :=
  match schema with
  | [] => Ok []
  | col :: schema' =>
      match open_col dir files col with
      | Err e => Err ("segment open col '" +:+ col_name col +:+ "': " +:+ e)
      | Ok cf => let? cfs := seg_open_cols dir files schema' in Ok (cf :: cfs)
      end
  end.

Definition segment_open (dir : string) (files : ColumnDir) (schema : Schema) (meta : SegmentMeta)
    : result Segment :=
  let? columns := seg_open_cols dir (dir_cols files) schema in
  Ok (mkSegment meta columns (load_deleted (dir_deleted files)) (dir_deleted files)).

Definition segment_mark_deleted (seg : Segment) (local_row_ids : list Z) : Segment :=
  match local_row_ids with
  | [] => seg
  | _ =>
      let bm := mark_rows (seg_deleted seg) (seg_row_count (seg_meta seg)) local_row_ids in
      mkSegment (seg_meta seg) (seg_columns seg) bm (write_deleted bm)
  end.

(** ** The manifest *)

Definition MANIFEST_VERSION : Z := 1.
Definition MANIFEST_ENTRY_SIZE : Z := 24.

Definition read_u32_le (p : bytes) : Z := get_le32 p.

(** [for (i < 8) v |= p[i] << (8 * i)] *)
Definition read_u64_le (p : bytes) : Z :=
  fold_left (fun v i => Z.lor v (Z.shiftl (znth p i) (i * 8))) [0; 1; 2; 3; 4; 5; 6; 7] 0.

Definition write_u32_le (v : Z) : bytes := map (fun i => Z.land (Z.shiftr v (i * 8)) 255) [0; 1; 2; 3].
Definition write_u64_le (v : Z) : bytes :=
  map (fun i => Z.land (Z.shiftr v (i * 8)) 255) [0; 1; 2; 3; 4; 5; 6; 7].

Definition put_meta (m : SegmentMeta) : bytes :=
  write_u64_le (seg_id m) ++ write_u64_le (base_row_id m) ++ write_u64_le (seg_row_count m).

Definition write_manifest (metas : list SegmentMeta) : bytes :=
  write_u32_le MANIFEST_VERSION ++ write_u32_le (wrap 32 (zlen metas)) ++ concat (map put_meta metas).

Definition read_meta (p : bytes) : SegmentMeta :=
  mkMeta (read_u64_le p) (read_u64_le (drop 8 p)) (read_u64_le (drop 16 p)).

Fixpoint read_metas (n : nat) (p : bytes) : list SegmentMeta :=
  match n with
  | O => []
  | S n' => read_meta p :: read_metas n' (drop (Z.to_nat MANIFEST_ENTRY_SIZE) p)
  end.

(** [None] is a missing file; a damaged manifest reads as no segments. *)
Definition read_manifest (f : option bytes) : list SegmentMeta :=
  match f with
  | None => []
  | Some buf =>
      if zlen buf <? 8 then []
      else if negb (read_u32_le buf =? MANIFEST_VERSION) then []
      else
        let count := read_u32_le (drop 4 buf) in
        if zlen buf <? 8 + count * MANIFEST_ENTRY_SIZE then []
        else read_metas (Z.to_nat count) (drop 8 buf)
  end.

(** ** Tables *)

Record Table : Type := mkTable {
  dir_ : string;
  schema_ : Schema;
  wb_columns_ : list ColumnFile;
  wb_deleted_ : bytes;
  wb_base_row_id_ : Z;
  segments_ : list Segment;
  next_segment_id_ : Z;
  flush_threshold_ : Z;
  deleted_file : option bytes;
  manifest_file : option bytes
}.

Definition FLUSH_THRESHOLD : Z := 65536.

Definition set_wb_columns (t : Table) (cols : list ColumnFile) : Table :=
  mkTable (dir_ t) (schema_ t) cols (wb_deleted_ t) (wb_base_row_id_ t) (segments_ t)
    (next_segment_id_ t) (flush_threshold_ t) (deleted_file t) (manifest_file t).

Definition set_wb_deleted (t : Table) (bm : bytes) : Table :=
  mkTable (dir_ t) (schema_ t) (wb_columns_ t) bm (wb_base_row_id_ t) (segments_ t)
    (next_segment_id_ t) (flush_threshold_ t) (write_deleted bm) (manifest_file t).

Definition set_segments (t : Table) (segs : list Segment) : Table :=
  mkTable (dir_ t) (schema_ t) (wb_columns_ t) (wb_deleted_ t) (wb_base_row_id_ t) segs
    (next_segment_id_ t) (flush_threshold_ t) (deleted_file t) (manifest_file t).

(** [wb_columns_.empty() ? 0 : wb_columns_[0].row_count()] *)
Definition wb_rows (t : Table) : Z :=
  match wb_columns_ t with [] => 0 | cf :: _ => row_count cf end.

Definition table_row_count (t : Table) : Z := wrap 64 (wb_base_row_id_ t + wb_rows t).

Fixpoint validate_columns (schema : Schema) (seen : list string) : result unit :=
  match schema with
  | [] => Ok tt
  | col :: schema' =>
      if type_size (col_type col) (col_max_len col) =? 0
      then Err ("schema column '" +:+ col_name col +:+ "' has invalid type")
      else if bool_decide (col_name col = "") then Err "schema has a column with empty name"
      else if bool_decide (col_name col ∈ seen)
      then Err ("schema has duplicate column name '" +:+ col_name col +:+ "'")
      else validate_columns schema' (col_name col :: seen)
  end.

Definition validate_schema (schema : Schema) : result unit :=
  match schema with [] => Err "schema is empty" | _ => validate_columns schema [] end.

(** The files of a table directory. *)
Record TableFiles : Type := mkFiles {
  f_schema : file;
  f_dir : ColumnDir;
  f_manifest : option bytes;
  f_segments : gmap Z ColumnDir
}.

(** The loop of [create] and of [flush_write_buffer_] over the columns; [err] makes the
    message of a column that cannot be created. *)
Fixpoint create_cols (err : Column -> string -> string) (dir : string) (files : gmap string bytes)
    (schema : Schema) : result (list ColumnFile) :=
  match schema with
  | [] => Ok []
  | col :: schema' =>
      match create (dir +:+ "/" +:+ col_name col +:+ ".col") (default [] (files !! col_name col))
              (col_type col) (col_nullable col) (col_max_len col) with
      | Err e => Err (err col e)
      | Ok cf => let? cfs := create_cols err dir files schema' in Ok (cf :: cfs)
      end
  end.

(** [files] is the directory that exists at the path. *)
Definition table_create (dir name : string) (schema : Schema) (flush_threshold : Z) (files : TableFiles)
    : result Table :=
  match validate_schema schema with
  | Err e => Err ("create: " +:+ e)
  | Ok _ =>
      if is_ok (f_schema files) then Err ("create: table '" +:+ name +:+ "' already exists")
      else
        let? columns := create_cols (fun _ e => "create: " +:+ e) dir (dir_cols (f_dir files)) schema in
        Ok (mkTable dir schema columns [] 0 [] 0 flush_threshold (dir_deleted (f_dir files))
              (f_manifest files))
  end.

(** The loop of [open] over the segments: [wb_base_row_id], [next_segment_id], segments. *)
Fixpoint open_segments (dir : string) (schema : Schema) (dirs : gmap Z ColumnDir) (metas : list SegmentMeta)
    (base next : Z) : result (Z * Z * list Segment) :=
  match metas with
  | [] => Ok (base, next, [])
  | m :: metas' =>
      match segment_open (dir +:+ "/seg_" +:+ pretty (seg_id m))
              (default (mkDir ∅ None) (dirs !! seg_id m)) schema m with
      | Err e => Err ("open: segment " +:+ pretty (seg_id m) +:+ ": " +:+ e)
      | Ok seg =>
          let base := wrap 64 (base + seg_row_count m) in
          let next := if next <=? seg_id m then wrap 64 (seg_id m + 1) else next in
          let? r := open_segments dir schema dirs metas' base next in
          Ok (fst (fst r), snd (fst r), seg :: snd r)
      end
  end.

Fixpoint open_wb (dir : string) (files : gmap string bytes) (schema : Schema) : result (list ColumnFile) :=
  match schema with
  | [] => Ok []
  | col :: schema' =>
      match open_col dir files col with
      | Err e => Err ("open: " +:+ e)
      | Ok cf =>
          if negb (bool_decide (type_ cf = col_type col)) || negb (Bool.eqb (nullable_ cf) (col_nullable col))
             || negb (max_len_ cf =? col_max_len col)
          then Err ("open: column '" +:+ col_name col +:+ "' file header does not match schema")
          else let? cfs := open_wb dir files schema' in Ok (cf :: cfs)
      end
  end.

Definition table_open (dir : string) (files : TableFiles) : result Table :=
  match read (dir +:+ "/schema.bin") (f_schema files) with
  | Err e => Err ("open: " +:+ e)
  | Ok schema =>
      let metas := read_manifest (f_manifest files) in
      let? r := open_segments dir schema (f_segments files) metas 0 0 in
      let? wb := open_wb dir (dir_cols (f_dir files)) schema in
      Ok (mkTable dir schema wb (load_deleted (dir_deleted (f_dir files))) (fst (fst r)) (snd r)
            (snd (fst r)) FLUSH_THRESHOLD (dir_deleted (f_dir files)) (f_manifest files))
  end.

(** ** Sealing the write buffer *)

Fixpoint flush_cols (cols : list ColumnFile) : result unit * list ColumnFile :=
  match cols with
  | [] => (Ok tt, [])
  | cf :: cols' =>
      match flush cf with
      | (Err e, cf') => (Err e, cf' :: cols')
      | (Ok _, cf') => let '(r, cols'') := flush_cols cols' in (r, cf' :: cols'')
      end
  end.

(** The contents of the column files under their names. *)
Definition col_files (schema : Schema) (cols : list ColumnFile) : gmap string bytes :=
  list_to_map (zip (map col_name schema) (map (fun cf => content (disk_ cf)) cols)).

Definition flush_write_buffer (t : Table) : result unit * Table :=
  let wb_row_count := wb_rows t in
  if wb_row_count =? 0 then (Ok tt, t)
  else
    let '(r, cols) := flush_cols (wb_columns_ t) in
    let t := set_wb_columns t cols in
    match r with
    | Err e => (Err e, t)
    | Ok _ =>
        let id := next_segment_id_ t in
        let seg_dir := dir_ t +:+ "/seg_" +:+ pretty id in
        let moved := mkDir (col_files (schema_ t) cols) (deleted_file t) in
        let meta := mkMeta id (wb_base_row_id_ t) wb_row_count in
        match segment_open seg_dir moved (schema_ t) meta with
        | Err e => (Err ("flush_write_buffer: open new segment: " +:+ e), t)
        | Ok seg =>
            match create_cols (fun col e => "flush_write_buffer: create new col '" +:+ col_name col +:+ "': " +:+ e)
                    (dir_ t) ∅ (schema_ t) with
            | Err e => (Err e, t)
            | Ok new_wb =>
                let segs := segments_ t ++ [seg] in
                (Ok tt, mkTable (dir_ t) (schema_ t) new_wb [] (wrap 64 (wb_base_row_id_ t + wb_row_count))
                          segs (wrap 64 (next_segment_id_ t + 1)) (flush_threshold_ t) None
                          (Some (write_manifest (map seg_meta segs))))
            end
        end
    end.

Definition maybe_flush (t : Table) : result unit * Table :=
  if flush_threshold_ t <=? wb_rows t then flush_write_buffer t else (Ok tt, t).

Definition table_seal (t : Table) : result unit * Table := flush_write_buffer t.

Definition table_flush (t : Table) : result unit * Table :=
  let '(r, cols) := flush_cols (wb_columns_ t) in (r, set_wb_columns t cols).

(** ** Inserting rows *)

(** The dispatch of [insert] on schema type and alternative; [None] is the final [else].  There
    is no case for VARCHAR. *)
Definition insert_cell (col : Column) (cf : ColumnFile) (v : Value) : option (result unit * ColumnFile) :=
  match v with
  | VNull => Some (cf_append_null cf)
  | VI32 x => if bool_decide (col_type col = INT32) then Some (cf_append_i32 cf x) else None
  | VI64 x => if bool_decide (col_type col = INT64) then Some (cf_append_i64 cf x) else None
  | VF64 x => if bool_decide (col_type col = DOUBLE) then Some (cf_append_f64 cf x) else None
  | VBool x => if bool_decide (col_type col = BOOL) then Some (cf_append_bool cf x) else None
  | VDate x => if bool_decide (col_type col = DATE) then Some (cf_append_date cf x) else None
  | VTimestamp x => if bool_decide (col_type col = TIMESTAMP) then Some (cf_append_timestamp cf x) else None
  | VStr _ => None
  end.

(** The loop of [insert]: the columns before a failing one keep the new cell. *)
Fixpoint insert_cells (schema : Schema) (cols : list ColumnFile) (row : list Value)
    : result unit * list ColumnFile :=
  match schema, cols, row with
  | col :: schema', cf :: cols', v :: row' =>
      match insert_cell col cf v with
      | None => (Err ("insert col " +:+ col_name col +:+ ": value type does not match schema type"), cols)
      | Some (Err e, cf') => (Err ("insert col " +:+ col_name col +:+ ": " +:+ e), cf' :: cols')
      | Some (Ok _, cf') => let '(r, cols'') := insert_cells schema' cols' row' in (r, cf' :: cols'')
      end
  | _, _, _ => (Ok tt, cols)
  end.

Definition size_message (op : string) (row : list Value) (t : Table) : string :=
  op +:+ ": row size " +:+ pretty (zlen row) +:+ " does not match column count " +:+
  pretty (zlen (wb_columns_ t)).

Definition table_insert (t : Table) (row : list Value) : result Z * Table :=
  if negb (zlen row =? zlen (wb_columns_ t)) then (Err (size_message "insert" row t), t)
  else
    let row_id := wrap 64 (wb_base_row_id_ t + wb_rows t) in
    let '(r, cols) := insert_cells (schema_ t) (wb_columns_ t) row in
    let t := set_wb_columns t cols in
    match r with
    | Err e => (Err e, t)
    | Ok _ =>
        match maybe_flush t with
        | (Err e, t) => (Err e, t)
        | (Ok _, t) => (Ok row_id, t)
        end
    end.

(** [column_batches]: the rows turned into columns. *)
Definition column_batches (n : nat) (rows : list (list Value)) : list (list Value) :=
  map (fun i => map (fun row => nth i row VNull) rows) (seq 0 n).

Fixpoint append_cols (schema : Schema) (cols : list ColumnFile) (batches : list (list Value))
    : result unit * list ColumnFile :=
  match schema, cols, batches with
  | col :: schema', cf :: cols', b :: batches' =>
      match append_bulk cf b with
      | (Err e, cf') => (Err ("insert_many col " +:+ col_name col +:+ ": " +:+ e), cf' :: cols')
      | (Ok _, cf') => let '(r, cols'') := append_cols schema' cols' batches' in (r, cf' :: cols'')
      end
  | _, _, _ => (Ok tt, cols)
  end.

Definition table_insert_many (t : Table) (rows : list (list Value)) : result Z * Table :=
  match rows with
  | [] => (Ok 0, t)
  | _ =>
      match find (fun row => negb (zlen row =? zlen (wb_columns_ t))) rows with
      | Some row => (Err (size_message "insert_many" row t), t)
      | None =>
          let '(r, cols) :=
            append_cols (schema_ t) (wb_columns_ t) (column_batches (length (wb_columns_ t)) rows) in
          let t := set_wb_columns t cols in
          match r with
          | Err e => (Err e, t)
          | Ok _ =>
              match maybe_flush t with
              | (Err e, t) => (Err e, t)
              | (Ok _, t) => (Ok (zlen rows), t)
              end
          end
      end
  end.

(** ** Deleting rows *)

Definition seg_base (segs : list Segment) (i : Z) : Z :=
  match segs !! Z.to_nat i with Some seg => base_row_id (seg_meta seg) | None => 0 end.

(** [while (lo + 1 < hi)]: the last segment whose base is at most [gid]. *)
Fixpoint seg_search (fuel : nat) (segs : list Segment) (gid lo hi : Z) : Z :=
  match fuel with
  | O => lo
  | S fuel' =>
      if lo + 1 <? hi then
        let mid := (lo + hi) / 2 in
        if seg_base segs mid <=? gid then seg_search fuel' segs gid mid hi
        else seg_search fuel' segs gid lo mid
      else lo
  end.

Definition find_segment (segs : list Segment) (gid : Z) : Z :=
  seg_search (length segs) segs gid 0 (zlen segs).

(** [wb_ids] and [seg_ids[si]]: where the loop over the ids puts each of them. *)
Definition wb_ids (t : Table) (row_indices : list Z) : list Z :=
  map (fun gid => gid - wb_base_row_id_ t) (filter (fun gid => wb_base_row_id_ t <=? gid) row_indices).

Definition seg_ids (t : Table) (si : Z) (row_indices : list Z) : list Z :=
  map (fun gid => wrap 64 (gid - seg_base (segments_ t) si))
    (filter (fun gid => (gid <? wb_base_row_id_ t) && (find_segment (segments_ t) gid =? si)) row_indices).

(** The loop over the segments. *)
Fixpoint mark_segments (t : Table) (row_indices : list Z) (si : Z) (segs : list Segment) : list Segment :=
  match segs with
  | [] => []
  | seg :: segs' => segment_mark_deleted seg (seg_ids t si row_indices) :: mark_segments t row_indices (si + 1) segs'
  end.

Definition table_mark_deleted (t : Table) (row_indices : list Z) : Table :=
  match row_indices with
  | [] => t
  | _ =>
      let t :=
        match wb_ids t row_indices with
        | [] => t
        | ids => set_wb_deleted t (mark_rows (wb_deleted_ t) (wb_rows t) ids)
        end in
      set_segments t (mark_segments t row_indices 0 (segments_ t))
  end.

Definition table_clear_deletions (t : Table) : Table := set_wb_deleted t [].

Fixpoint deleted_in_segments (segs : list Segment) (gid : Z) : bool :=
  match segs with
  | [] => false
  | seg :: segs' =>
      let base := base_row_id (seg_meta seg) in
      let count := seg_row_count (seg_meta seg) in
      if (gid <? base) || (wrap 64 (base + count) <=? gid) then deleted_in_segments segs' gid
      else row_bit (seg_deleted seg) (gid - base)
  end.

Definition is_row_deleted (t : Table) (gid : Z) : bool :=
  if wb_base_row_id_ t <=? gid then row_bit (wb_deleted_ t) (gid - wb_base_row_id_ t)
  else deleted_in_segments (segments_ t) gid.

Record UpdateMeta : Type := mkUpdate { first_row_id : Z; wb_base_before : Z; wb_base_after : Z }.

Definition table_update_rows (t : Table) (old_indices : list Z) (new_rows : list (list Value))
    : result UpdateMeta * Table :=
  let t := table_mark_deleted t old_indices in
  let first := wrap 64 (wb_base_row_id_ t + wb_rows t) in
  let before := wb_base_row_id_ t in
  match table_insert_many t new_rows with
  | (Err e, t) => (Err e, t)
  | (Ok _, t) => (Ok (mkUpdate first before (wb_base_row_id_ t)), t)
  end.

(** ** Truncation *)

Fixpoint truncate_cols (cols : list ColumnFile) (n : Z) : option (result unit * list ColumnFile) :=
  match cols with
  | [] => Some (Ok tt, [])
  | cf :: cols' =>
      match cf_truncate cf n with
      | None => None
      | Some (Err e, cf') => Some (Err e, cf' :: cols')
      | Some (Ok _, cf') => let! r := truncate_cols cols' n in Some (fst r, cf' :: snd r)
      end
  end.

(** [None]: the division by zero of a column without slots. *)
Definition table_truncate (t : Table) (target_rows : Z) : option (result unit * Table) :=
  let wb_target := if wb_base_row_id_ t <? target_rows then target_rows - wb_base_row_id_ t else 0 in
  let! r := truncate_cols (wb_columns_ t) wb_target in
  Some (fst r, set_wb_columns t (snd r)).

(** ** The files of a live table *)

Definition segment_dirs (schema : Schema) (segs : list Segment) : gmap Z ColumnDir :=
  list_to_map (map (fun seg => (seg_id (seg_meta seg),
                                mkDir (col_files schema (seg_columns seg)) (seg_deleted_file seg))) segs).

(** [schema_file] is schema.bin, which [create] wrote. *)
Definition table_files (schema_file : file) (t : Table) : TableFiles :=
  mkFiles schema_file (mkDir (col_files (schema_ t) (wb_columns_ t)) (deleted_file t)) (manifest_file t)
    (segment_dirs (schema_ t) (segments_ t)).

(** ** Lemmas on bitmaps *)

Lemma row_bit_get bm i : 0 <= i -> row_bit bm i = bit_get bm i.
Proof.
  intros Hi. unfold row_bit. destruct (Z.leb_spec (zlen bm) (i / 8)) as [Hl|]; [|done].
  rewrite bit_get_testbit by done. unfold znth. rewrite nth_overflow by (unfold zlen in Hl; lia).
  by rewrite Z.bits_0.
Qed.

Lemma bit_get_grow bm n i : 0 <= i -> bit_get (grow bm n) i = bit_get bm i.
Proof.
  intros Hi. unfold grow. destruct (zlen bm <? n); [|done]. rewrite !bit_get_testbit by done. f_equal.
  unfold znth. destruct (decide (Z.to_nat (i / 8) < length bm)%nat) as [Hl|Hl].
  - by rewrite app_nth1.
  - rewrite app_nth2 by lia. rewrite (nth_overflow bm) by lia. unfold zeros.
    rewrite nth_lookup. destruct (replicate _ _ !! _) eqn:E; [|done]. by apply lookup_replicate in E as [-> _].
Qed.

Lemma zlen_grow bm n : n <= zlen (grow bm n).
Proof.
  unfold grow. destruct (Z.ltb_spec (zlen bm) n); [|done]. rewrite zlen_app, zlen_zeros; lia.
Qed.

Lemma bit_get_mark_bits count i ids : forall bm, 0 <= i -> Forall (fun id => 0 <= id) ids ->
  count <= 8 * zlen bm ->
  bit_get (mark_bits bm count ids) i = bit_get bm i || bool_decide (i < count /\ i ∈ ids).
Proof.
  unfold mark_bits. induction ids as [|id ids IH]; intros bm Hi Hids Hlen; simpl.
  - rewrite bool_decide_false, orb_false_r; [done|]. intros [_ H]. by apply elem_of_nil in H.
  - apply Forall_cons in Hids as [Hid Hids]. destruct (Z.ltb_spec id count) as [Hlt|Hge].
    + rewrite IH; [|done|done|unfold zlen in *; rewrite length_bit_set; lia].
      rewrite bit_get_set by lia. destruct (bit_get bm i); [by rewrite orb_true_r|].
      rewrite orb_false_r, orb_false_l. rewrite <- bool_decide_or. apply bool_decide_ext.
      rewrite elem_of_cons. split; [intros [->|[]]; auto|intros [H1 [->|]]; auto].
    + rewrite IH by done. f_equal. apply bool_decide_ext. rewrite elem_of_cons.
      split; [intros []; auto|]. intros [H1 [->|]]; [lia|auto].
Qed.

(** Marking sets the bits of the given rows below [count] and keeps the others. *)
Lemma row_bit_mark bm count ids i : 0 <= i -> 0 <= count < 2 ^ 63 -> Forall (fun id => 0 <= id) ids ->
  row_bit (mark_rows bm count ids) i = row_bit bm i || bool_decide (i < count /\ i ∈ ids).
Proof.
  intros Hi Hc Hids. unfold mark_rows. rewrite wrap_id by (unfold in_u; lia). rewrite !row_bit_get by done.
  rewrite bit_get_mark_bits; [|done|done|].
  - by rewrite bit_get_grow.
  - pose proof (zlen_grow bm ((count + 7) / 8)). zlia.
Qed.

Lemma row_bit_nil i : 0 <= i -> row_bit [] i = false.
Proof. intros Hi. unfold row_bit. rewrite (proj2 (Z.leb_le _ _)); [done|]. unfold zlen. simpl. zlia. Qed.

Lemma mark_rows_nil bm count ids : 0 <= count < 2 ^ 63 -> mark_rows bm count ids = [] -> count = 0.
Proof.
  intros Hc Hm. unfold mark_rows in Hm. rewrite wrap_id in Hm by (unfold in_u; lia).
  pose proof (zlen_grow bm ((count + 7) / 8)) as Hg.
  assert (Hl : forall b, length (mark_bits b count ids) = length b).
  { unfold mark_bits. clear. induction ids as [|id ids IH]; intros b; simpl; [done|]. rewrite IH.
    destruct (id <? count); [apply length_bit_set|done]. }
  specialize (Hl (grow bm ((count + 7) / 8))). rewrite Hm in Hl. unfold zlen in Hg. simpl in Hl.
  rewrite <- Hl in Hg. zlia.
Qed.

Lemma load_write_deleted bm : load_deleted (write_deleted bm) = bm.
Proof. by destruct bm. Qed.

(** ** Lemmas on the manifest *)

Lemma write_u64_bytes v : write_u64_le v = le_bytes 8 v.
Proof. reflexivity. Qed.

Lemma write_u32_bytes v : write_u32_le v = le_bytes 4 v.
Proof. reflexivity. Qed.

Lemma read_u64_le_val b r : length b = 8%nat -> read_u64_le (b ++ r) = le_val b.
Proof.
  intros Hb. destruct b as [|b0 [|b1 [|b2 [|b3 [|b4 [|b5 [|b6 [|b7 [|]]]]]]]]]; try done.
  unfold read_u64_le, le_val, znth. cbn [fold_left Z.to_nat Z.mul app].
  rewrite !Z.shiftl_lor, !Z.shiftl_shiftl, Z.shiftl_0_l, Z.lor_0_r, !Z.lor_assoc by lia.
  cbn -[Z.lor Z.shiftl]. by rewrite Z.shiftl_0_r.
Qed.

Lemma read_write_u64 v r : in_u 64 v -> read_u64_le (write_u64_le v ++ r) = v.
Proof. intros Hv. rewrite read_u64_le_val by done. by apply (le_val_bytes 8). Qed.

Lemma read_write_u32 v r : in_u 32 v -> read_u32_le (write_u32_le v ++ r) = v.
Proof.
  intros Hv. rewrite <- (get_le32_bytes v Hv) at 2. rewrite write_u32_bytes. reflexivity.
Qed.

Definition meta_wf (m : SegmentMeta) : Prop :=
  in_u 64 (seg_id m) /\ in_u 64 (base_row_id m) /\ in_u 64 (seg_row_count m).

Lemma length_put_meta m : length (put_meta m) = 24%nat.
Proof. reflexivity. Qed.

Lemma read_put_meta m r : meta_wf m -> read_meta (put_meta m ++ r) = m.
Proof.
  intros (Hi & Hb & Hc). unfold read_meta, put_meta. rewrite <- !app_assoc.
  rewrite read_write_u64, drop_app_length', read_write_u64 by done.
  rewrite (app_assoc (write_u64_le (seg_id m))), drop_app_length', read_write_u64 by done. by destruct m.
Qed.

Lemma read_metas_concat metas : Forall meta_wf metas ->
  read_metas (length metas) (concat (map put_meta metas)) = metas.
Proof.
  induction 1 as [|m metas Hm _ IH]; [done|]. cbn [map concat length read_metas].
  rewrite read_put_meta by done. f_equal. rewrite drop_app_length' by done. done.
Qed.

Lemma zlen_concat_metas metas : zlen (concat (map put_meta metas)) = 24 * zlen metas.
Proof.
  induction metas as [|m metas IH]; [done|]. cbn [map concat]. rewrite zlen_app, IH.
  unfold zlen. rewrite length_put_meta. simpl length. lia.
Qed.

Lemma read_write_manifest metas : Forall meta_wf metas -> in_u 32 (zlen metas) ->
  read_manifest (Some (write_manifest metas)) = metas.
Proof.
  intros Hm Hn. unfold read_manifest, write_manifest. rewrite wrap_id by done.
  assert (Hz : zlen (write_u32_le MANIFEST_VERSION ++ write_u32_le (zlen metas) ++ concat (map put_meta metas))
    = 8 + 24 * zlen metas).
  { rewrite !zlen_app, zlen_concat_metas. change (zlen (write_u32_le _)) with 4. lia. }
  rewrite Hz. pose proof (zlen_nonneg metas). rewrite (proj2 (Z.ltb_ge _ _)) by lia.
  rewrite read_write_u32 by done. cbn [negb Z.eqb MANIFEST_VERSION Pos.eqb].
  rewrite drop_app_length', read_write_u32 by done. unfold MANIFEST_ENTRY_SIZE.
  rewrite (proj2 (Z.ltb_ge _ _)) by lia. rewrite app_assoc, drop_app_length' by done.
  replace (Z.to_nat (zlen metas)) with (length metas) by (unfold zlen; lia). by apply read_metas_concat.
Qed.

(** ** Columns of rows *)

Section columns.
Implicit Types rows : list (list Value).

Lemma length_column_batches n rows : length (column_batches n rows) = n.
Proof. unfold column_batches. by rewrite length_map, length_seq. Qed.

Lemma column_batches_nil n : column_batches n [] = replicate n [].
Proof.
  unfold column_batches. simpl. generalize 0%nat. induction n as [|n IH]; intros k; simpl; [done|].
  by rewrite IH.
Qed.

Lemma column_batches_app n r1 r2 :
  column_batches n (r1 ++ r2) = zip_with app (column_batches n r1) (column_batches n r2).
Proof.
  unfold column_batches. generalize 0%nat. induction n as [|n IH]; intros k; simpl; [done|].
  by rewrite IH, map_app.
Qed.

Lemma column_batches_take n k rows : column_batches n (take k rows) = map (take k) (column_batches n rows).
Proof.
  unfold column_batches. rewrite map_map. apply map_ext. intros i. symmetry. apply firstn_map.
Qed.

Lemma column_batches_len n rows : Forall (fun vs => length vs = length rows) (column_batches n rows).
Proof. unfold column_batches. apply Forall_map, Forall_true. intros i. apply length_map. Qed.
End columns.

(** A row of the table. *)
Definition row_fits (schema : Schema) (row : list Value) : Prop :=
  Forall2 (fun col v => value_fits (col_type col) (col_nullable col) (col_max_len col) v) schema row.

Definition vals_fit (col : Column) (vs : list Value) : Prop :=
  Forall (value_fits (col_type col) (col_nullable col) (col_max_len col)) vs.

Lemma column_batches_fit schema rows : Forall (row_fits schema) rows ->
  Forall2 vals_fit schema (column_batches (length schema) rows).
Proof.
  intros Hr. apply Forall2_same_length_lookup_2; [by rewrite length_column_batches|].
  intros i col vs Hc Hv. unfold column_batches in Hv.
  rewrite list_lookup_fmap in Hv. destruct (seq 0 (length schema) !! i) as [j|] eqn:Hj; [|done].
  injection Hv as <-.
  apply lookup_seq in Hj as [-> Hj]. apply Forall_map. apply (Forall_impl _ _ _ Hr). intros row Hrow.
  destruct (Forall2_lookup_l _ _ _ i col Hrow Hc) as (v & Hv & Hf). simpl.
  rewrite nth_lookup, Hv. done.
Qed.

(** ** Column files of a table *)

Definition col_rep (col : Column) (cf : ColumnFile) (vals : list Value) : Prop :=
  file_rep cf vals /\ type_ cf = col_type col /\ nullable_ cf = col_nullable col /\ max_len_ cf = col_max_len col.

Abbreviation clean := (fun cf => current_dirty_ cf = false).

(** The columns hold [vss], one list of values per column. *)
Abbreviation columns_rep := (Forall3 col_rep).

Lemma col_rep_params col cf cf' vals vals' : col_rep col cf vals -> same_params cf cf' ->
  file_rep cf' vals' -> col_rep col cf' vals'.
Proof. intros (_ & Ht & Hn & Hm) (Ht' & Hn' & Hm' & _) Hr. split; [done|]. split_and!; congruence. Qed.

Lemma flush_params cf : same_params cf (snd (flush cf)).
Proof.
  unfold flush. destruct (negb (current_dirty_ cf)); [done|].
  destruct (write_page (disk_ cf) (current_page_ cf)) as [[] d]; done.
Qed.

Lemma flush_cols_rep schema cols vss : columns_rep schema cols vss ->
  exists cols', flush_cols cols = (Ok tt, cols') /\ columns_rep schema cols' vss /\ Forall clean cols'.
Proof.
  induction 1 as [|col cf vs schema cols vss Hc _ IH]; [exists []; split_and!; constructor|].
  destruct IH as (cols' & IH & Hr & Hd). destruct (flush_rep cf vs (proj1 Hc)) as (cf' & Hf & Hrep & Hcl).
  pose proof (flush_params cf) as Hp. rewrite Hf in Hp. exists (cf' :: cols'). cbn [flush_cols].
  rewrite Hf, IH. split; [done|]. split; constructor; try done. by eapply col_rep_params.
Qed.

Lemma append_cols_rep schema cols vss : columns_rep schema cols vss -> forall bss,
  Forall2 vals_fit schema bss -> Forall2 (fun vs bs => zlen vs + zlen bs < 2 ^ 63) vss bss ->
  exists cols', append_cols schema cols bss = (Ok tt, cols') /\ columns_rep schema cols' (zip_with app vss bss).
Proof.
  induction 1 as [|col cf vs schema cols vss Hc _ IH]; intros bss Hfit Hmax.
  { apply Forall2_nil_inv_l in Hmax as ->. exists []. split; constructor. }
  apply Forall2_cons_inv_l in Hmax as (b & bss' & Hb & Hmax & ->).
  apply Forall2_cons in Hfit as [Hf Hfit]. destruct (IH bss' Hfit Hmax) as (cols' & Ha & Hr).
  pose proof Hc as (Hrep & Ht & Hn & Hm).
  destruct (append_bulk_rep b cf vs Hrep Hb) as (cf' & Hb' & Hrep' & Hp); [by rewrite Ht, Hn, Hm|].
  exists (cf' :: cols'). cbn [append_cols]. rewrite Hb', Ha. split; [done|]. constructor; [|done].
  by eapply col_rep_params.
Qed.

Lemma truncate_cols_rep n schema cols vss : columns_rep schema cols vss -> Forall clean cols ->
  0 <= n -> Forall (fun vs => n <= zlen vs) vss ->
  exists cols', truncate_cols cols n = Some (Ok tt, cols') /\ columns_rep schema cols' (map (take (Z.to_nat n)) vss).
Proof.
  intros H Hd Hn Hl. revert Hd Hl. induction H as [|col cf vs schema cols vss Hc _ IH]; intros Hd Hl.
  { exists []. split; constructor. }
  apply Forall_cons in Hd as [Hd Hds]. apply Forall_cons in Hl as [Hl Hls].
  destruct (IH Hds Hls) as (cols' & Ht & Hr).
  destruct (truncate_file_rep cf vs n (proj1 Hc) Hd) as (cf' & Htr & Hrep' & Hp); [done|].
  exists (cf' :: cols'). cbn [truncate_cols]. rewrite Htr, Ht. split; [done|]. constructor; [|done].
  by eapply col_rep_params.
Qed.

(** What a directory must hold for the columns. *)
Definition holds_files (files : gmap string bytes) (schema : Schema) (cols : list ColumnFile) : Prop :=
  Forall2 (fun col cf => files !! col_name col = Some (content (disk_ cf))) schema cols.

Lemma col_files_holds schema cols : NoDup (map col_name schema) -> length cols = length schema ->
  holds_files (col_files schema cols) schema cols.
Proof.
  intros Hnd Hl. apply Forall2_same_length_lookup_2; [done|]. intros i col cf Hc Hf.
  unfold col_files. apply elem_of_list_to_map_1.
  - rewrite fst_zip; [done|]. by rewrite !length_map, Hl.
  - apply (list_elem_of_lookup_2 _ i). apply lookup_zip_Some. rewrite !list_lookup_fmap, Hc, Hf. done.
Qed.

Lemma open_clean path f cf : open_file path f = Ok cf -> current_dirty_ cf = false.
Proof.
  unfold open_file. destruct (page_count (disk_open f) =? 0); [done|].
  destruct (read_page _ _ _) as [[] p]; [|done]. destruct (type_size _ _ =? 0); [done|]. by intros [= <-].
Qed.

Lemma open_col_rep dir files col cf vs : col_rep col cf vs -> current_dirty_ cf = false ->
  files !! col_name col = Some (content (disk_ cf)) ->
  exists cf', open_col dir files col = Ok cf' /\ col_rep col cf' vs /\ current_dirty_ cf' = false.
Proof.
  intros Hc Hd Hf. unfold open_col. rewrite Hf. cbn [default].
  destruct (open_rep cf vs (dir +:+ "/" +:+ col_name col +:+ ".col") (proj1 Hc) Hd) as (cf' & Ho & Hr & Hp).
  exists cf'. split; [done|]. split; [by eapply col_rep_params|]. by eapply open_clean.
Qed.

Lemma seg_open_cols_rep dir files schema cols vss : columns_rep schema cols vss -> Forall clean cols ->
  holds_files files schema cols ->
  exists cols', seg_open_cols dir files schema = Ok cols' /\ columns_rep schema cols' vss /\ Forall clean cols'.
Proof.
  induction 1 as [|col cf vs schema cols vss Hc _ IH]; intros Hd Hf.
  { exists []. split_and!; constructor. }
  apply Forall_cons in Hd as [Hd Hds]. apply Forall2_cons in Hf as [Hf Hfs].
  destruct (IH Hds Hfs) as (cols' & Ho & Hr & Hcl).
  destruct (open_col_rep dir files col cf vs Hc Hd Hf) as (cf' & Ho' & Hr' & Hcl').
  exists (cf' :: cols'). cbn [seg_open_cols]. rewrite Ho', Ho. split; [done|]. split; by constructor.
Qed.

Lemma open_wb_rep dir files schema cols vss : columns_rep schema cols vss -> Forall clean cols ->
  holds_files files schema cols ->
  exists cols', open_wb dir files schema = Ok cols' /\ columns_rep schema cols' vss /\ Forall clean cols'.
Proof.
  induction 1 as [|col cf vs schema cols vss Hc _ IH]; intros Hd Hf.
  { exists []. split_and!; constructor. }
  apply Forall_cons in Hd as [Hd Hds]. apply Forall2_cons in Hf as [Hf Hfs].
  destruct (IH Hds Hfs) as (cols' & Ho & Hr & Hcl).
  destruct (open_col_rep dir files col cf vs Hc Hd Hf) as (cf' & Ho' & Hr' & Hcl').
  exists (cf' :: cols'). cbn [open_wb]. rewrite Ho', Ho. pose proof Hr' as (_ & Ht & Hn & Hm).
  rewrite bool_decide_true, Hn, Hm, Bool.eqb_reflx, Z.eqb_refl by done. split; [done|]. split; by constructor.
Qed.

(** A column that can be stored. *)
Definition column_valid (col : Column) : Prop :=
  type_named (col_type col) /\ in_u 16 (col_max_len col) /\
  0 < column_page_capacity (col_type col) (col_nullable col) (col_max_len col).

Lemma create_clean path t nullable max_len cf : create path [] t nullable max_len = Ok cf ->
  current_dirty_ cf = false.
Proof.
  unfold create. destruct (type_size t max_len =? 0); [done|]. destruct (page_count _ >? 0); [done|].
  destruct (allocate_page _) as [[] d]; [|done]. destruct (write_page _ _) as [[] d']; [|done]. by intros [= <-].
Qed.

Lemma create_cols_rep err dir files schema : Forall column_valid schema ->
  (forall col, col ∈ schema -> files !! col_name col = None) ->
  exists cols, create_cols err dir files schema = Ok cols /\
    columns_rep schema cols (replicate (length schema) []) /\ Forall clean cols.
Proof.
  induction 1 as [|col schema (Ht & Hm & Hc) _ IH]; intros Hf; [exists []; split_and!; constructor|].
  destruct IH as (cols & Hcs & Hr & Hcl); [intros c H; apply Hf; by constructor|].
  destruct (create_rep (dir +:+ "/" +:+ col_name col +:+ ".col") _ (col_nullable col) _ Ht Hm Hc)
    as (cf & Hcf & Hrep & H1 & H2 & H3).
  exists (cf :: cols). cbn [create_cols length replicate]. rewrite Hf by constructor. cbn [default].
  rewrite Hcf, Hcs. split; [done|]. split; constructor; try done. by eapply create_clean.
Qed.

(** ** Representation of a table *)

Abbreviation row := (list Value).

Definition rows_rep (schema : Schema) (cols : list ColumnFile) (rows : list row) : Prop :=
  columns_rep schema cols (column_batches (length schema) rows).

(** A sealed segment that holds [rows], the first of them with row id [base]. *)
Record seg_rep (schema : Schema) (seg : Segment) (base : Z) (rows : list row) : Prop := {
  sr_base : base_row_id (seg_meta seg) = base;
  sr_count : seg_row_count (seg_meta seg) = zlen rows;
  sr_some : rows <> [];
  sr_cols : rows_rep schema (seg_columns seg) rows;
  sr_clean : Forall clean (seg_columns seg);
  sr_file : load_deleted (seg_deleted_file seg) = seg_deleted seg
}.

(** Consecutive segments. *)
Inductive segs_rep (schema : Schema) : Z -> list Segment -> list (list row) -> Prop :=
| segs_nil base : segs_rep schema base [] []
| segs_cons base seg segs rows rowss :
    seg_rep schema seg base rows -> segs_rep schema (base + zlen rows) segs rowss ->
    segs_rep schema base (seg :: segs) (rows :: rowss).

Record schema_valid (schema : Schema) : Prop := {
  sv_some : schema <> [];
  sv_names : NoDup (map col_name schema);
  sv_cols : Forall column_valid schema
}.

(** The table holds the rows [sealed] in its segments and [wb] in the write buffer. *)
Record table_rep (t : Table) (sealed : list (list row)) (wb : list row) : Prop := {
  tr_schema : schema_valid (schema_ t);
  tr_segs : segs_rep (schema_ t) 0 (segments_ t) sealed;
  tr_wb : rows_rep (schema_ t) (wb_columns_ t) wb;
  tr_base : wb_base_row_id_ t = zlen (concat sealed);
  tr_bits : forall i, zlen wb <= i -> row_bit (wb_deleted_ t) i = false;
  tr_ids : NoDup (map (fun s => seg_id (seg_meta s)) (segments_ t));
  tr_next : Forall (fun s => 0 <= seg_id (seg_meta s) < next_segment_id_ t) (segments_ t);
  tr_next_range : 0 <= next_segment_id_ t <= zlen sealed;
  tr_deleted_file : load_deleted (deleted_file t) = wb_deleted_ t;
  tr_manifest : read_manifest (manifest_file t) = map seg_meta (segments_ t)
}.

(** The rows of the table, by row id. *)
Definition all_rows (sealed : list (list row)) (wb : list row) : list row := concat sealed ++ wb.

Lemma rows_rep_length schema cols rows : rows_rep schema cols rows -> length cols = length schema.
Proof. intros H. symmetry. by eapply Forall3_length_lm. Qed.

Lemma rows_rep_count schema cols rows : rows_rep schema cols rows -> schema <> [] -> zlen rows < 2 ^ 64 ->
  match cols with [] => 0 | cf :: _ => row_count cf end = zlen rows.
Proof.
  intros H Hs Hmax. unfold rows_rep in H. destruct schema as [|col schema]; [done|].
  pose proof (column_batches_len (length (col :: schema)) rows) as Hl.
  destruct (column_batches _ rows) as [|vs vss]; inversion H; subst.
  apply Forall_cons in Hl as [Hl _].
  match goal with Hc : col_rep _ _ _ |- _ => destruct Hc as (Hrep & _) end.
  rewrite (row_count_rep _ _ Hrep); unfold zlen in *; lia.
Qed.

Lemma wb_rows_rep t sealed wb : table_rep t sealed wb -> zlen (all_rows sealed wb) < 2 ^ 63 ->
  wb_rows t = zlen wb.
Proof.
  intros Ht Hmax. apply (rows_rep_count _ _ _ (tr_wb _ _ _ Ht)); [apply (tr_schema _ _ _ Ht)|].
  unfold all_rows in Hmax. rewrite zlen_app in Hmax. pose proof (zlen_nonneg (concat sealed)). lia.
Qed.

Lemma segs_rep_snoc schema base segs rowss seg rows : segs_rep schema base segs rowss ->
  seg_rep schema seg (base + zlen (concat rowss)) rows -> segs_rep schema base (segs ++ [seg]) (rowss ++ [rows]).
Proof.
  induction 1 as [base|base s segs r rowss Hs _ IH]; intros Hseg; simpl.
  - rewrite Z.add_0_r in Hseg. constructor; [done|constructor].
  - constructor; [done|]. apply IH. cbn [concat] in Hseg. rewrite zlen_app in Hseg. by rewrite <- Z.add_assoc.
Qed.

Lemma segs_rep_metas schema base segs rowss : segs_rep schema base segs rowss ->
  0 <= base -> base + zlen (concat rowss) < 2 ^ 63 ->
  Forall (fun s => in_u 64 (base_row_id (seg_meta s)) /\ in_u 64 (seg_row_count (seg_meta s))) segs.
Proof.
  induction 1 as [base|base s segs r rowss Hs _ IH]; intros Hb Hmax; constructor.
  - rewrite (sr_base _ _ _ _ Hs), (sr_count _ _ _ _ Hs). cbn [concat] in Hmax. rewrite zlen_app in Hmax.
    pose proof (zlen_nonneg r). pose proof (zlen_nonneg (concat rowss)). unfold in_u. lia.
  - apply IH; [pose proof (zlen_nonneg r); lia|]. cbn [concat] in Hmax. rewrite zlen_app in Hmax. lia.
Qed.

Lemma segs_rep_length schema base segs rowss : segs_rep schema base segs rowss -> length segs = length rowss.
Proof. induction 1; simpl; congruence. Qed.

(** Sealed segments are not empty, so there are no more of them than rows. *)
Lemma segs_rep_count schema base segs rowss : segs_rep schema base segs rowss -> zlen rowss <= zlen (concat rowss).
Proof.
  induction 1 as [base|base s segs r rowss Hs _ IH]; [done|]. cbn [concat]. rewrite zlen_app.
  pose proof (sr_some _ _ _ _ Hs). destruct r; [done|]. unfold zlen in *. simpl. lia.
Qed.

(** ** Sealing *)

(** Room for the row ids and for the manifest's segment count. *)
Definition has_room (sealed : list (list row)) (wb : list row) : Prop :=
  zlen (all_rows sealed wb) < 2 ^ 63 /\ zlen sealed + 1 < 2 ^ 32.

Lemma set_wb_columns_rep t sealed wb cols wb' : table_rep t sealed wb ->
  rows_rep (schema_ t) cols wb' -> zlen wb <= zlen wb' -> table_rep (set_wb_columns t cols) sealed wb'.
Proof.
  intros [H1 H2 H3 H4 H5 H6 H7 H8 H9 H10] Hc Hl. constructor; try done. intros i Hi. apply H5. lia.
Qed.

(** The segment made from the write buffer. *)
Lemma sealed_segment t sealed wb cols : table_rep t sealed wb -> zlen (all_rows sealed wb) < 2 ^ 63 -> wb <> [] ->
  rows_rep (schema_ t) cols wb -> Forall clean cols ->
  let meta := mkMeta (next_segment_id_ t) (wb_base_row_id_ t) (wb_rows t) in
  exists seg, segment_open (dir_ t +:+ "/seg_" +:+ pretty (next_segment_id_ t))
      (mkDir (col_files (schema_ t) cols) (deleted_file t)) (schema_ t) meta = Ok seg /\
    seg_meta seg = meta /\ seg_deleted seg = wb_deleted_ t /\ seg_rep (schema_ t) seg (zlen (concat sealed)) wb.
Proof.
  intros Ht Hmax Hne Hc Hcl meta. pose proof (tr_schema _ _ _ Ht) as [Hs Hnd Hv].
  destruct (seg_open_cols_rep (dir_ t +:+ "/seg_" +:+ pretty (next_segment_id_ t))
    (col_files (schema_ t) cols) _ _ _ Hc Hcl) as (cols' & Ho & Hr & Hcl').
  { apply col_files_holds; [done|]. by eapply rows_rep_length. }
  unfold segment_open. cbn [dir_cols dir_deleted]. rewrite Ho. eexists. split; [done|].
  split; [done|]. split; [apply (tr_deleted_file _ _ _ Ht)|]. constructor; cbn; try done.
  - apply (tr_base _ _ _ Ht).
  - by apply (wb_rows_rep t sealed).
Qed.

Lemma sealed_metas t sealed wb seg : table_rep t sealed wb -> has_room sealed wb -> wb <> [] ->
  seg_meta seg = mkMeta (next_segment_id_ t) (wb_base_row_id_ t) (wb_rows t) ->
  read_manifest (Some (write_manifest (map seg_meta (segments_ t ++ [seg])))) =
    map seg_meta (segments_ t ++ [seg]).
Proof.
  intros Ht [Hmax Hsegs] Hne Hmeta. pose proof (tr_segs _ _ _ Ht) as Hss.
  unfold all_rows in Hmax. rewrite zlen_app in Hmax.
  pose proof (zlen_nonneg wb). pose proof (zlen_nonneg (concat sealed)).
  assert (Hn : in_u 64 (next_segment_id_ t)).
  { pose proof (tr_next_range _ _ _ Ht). unfold in_u. lia. }
  apply read_write_manifest.
  - rewrite map_app. apply Forall_app. split.
    + apply Forall_map. pose proof (segs_rep_metas _ _ _ _ Hss) as Hm.
      pose proof (tr_next _ _ _ Ht) as Hid. rewrite Forall_forall in *. intros s Hs.
      destruct (Hm ltac:(lia) ltac:(lia) s Hs) as [Hb Hc]. specialize (Hid s Hs).
      split; [unfold in_u in *; lia|by split].
    + constructor; [|constructor]. rewrite Hmeta. split; [done|]. cbn.
      rewrite (wb_rows_rep t sealed wb), (tr_base _ _ _ Ht) by (done || (unfold all_rows; rewrite zlen_app; lia)).
      unfold in_u. lia.
  - unfold zlen, in_u. rewrite length_map, length_app, (segs_rep_length _ _ _ _ Hss). unfold zlen in Hsegs. simpl. lia.
Qed.

(** The bit of a row in the last segment, or in an earlier one. *)
Lemma deleted_in_segments_snoc schema segs seg rowss rows gid base :
  segs_rep schema base segs rowss -> seg_rep schema seg (base + zlen (concat rowss)) rows ->
  0 <= base -> base + zlen (concat rowss) + zlen rows < 2 ^ 63 ->
  deleted_in_segments (segs ++ [seg]) gid =
    if base + zlen (concat rowss) <=? gid then
      (if gid <? base + zlen (concat rowss) + zlen rows
       then row_bit (seg_deleted seg) (gid - (base + zlen (concat rowss))) else false)
    else deleted_in_segments segs gid.
Proof.
  intros Hs Hseg. revert Hseg. pose proof (zlen_nonneg rows).
  induction Hs as [base|base s segs r rowss Hs _ IH]; intros Hseg Hb Hmax; cbn [app deleted_in_segments].
  - cbn [concat] in *. change (zlen []) with 0 in *. rewrite Z.add_0_r in *.
    rewrite (sr_base _ _ _ _ Hseg), (sr_count _ _ _ _ Hseg), wrap_id by (unfold in_u; lia).
    destruct (Z.ltb_spec gid base), (Z.leb_spec base gid), (Z.leb_spec (base + zlen rows) gid),
      (Z.ltb_spec gid (base + zlen rows)); done || lia.
  - cbn [concat] in *. rewrite zlen_app in *. pose proof (zlen_nonneg (concat rowss)).
    pose proof (zlen_nonneg r). rewrite !Z.add_assoc in *.
    rewrite (IH Hseg) by lia. rewrite (sr_base _ _ _ _ Hs), (sr_count _ _ _ _ Hs), wrap_id by (unfold in_u; lia).
    destruct (Z.ltb_spec gid base), (Z.leb_spec (base + zlen r) gid),
      (Z.leb_spec (base + zlen r + zlen (concat rowss)) gid); done || lia.
Qed.

Lemma concat_snoc {A} (ls : list (list A)) l : concat (ls ++ [l]) = concat ls ++ l.
Proof. rewrite concat_app. simpl. by rewrite app_nil_r. Qed.

(** The new table after the write buffer is sealed. *)
Lemma sealed_table_rep t sealed wb seg new_wb : table_rep t sealed wb -> has_room sealed wb -> wb <> [] ->
  seg_meta seg = mkMeta (next_segment_id_ t) (wb_base_row_id_ t) (wb_rows t) ->
  seg_rep (schema_ t) seg (zlen (concat sealed)) wb ->
  columns_rep (schema_ t) new_wb (replicate (length (schema_ t)) []) ->
  table_rep (mkTable (dir_ t) (schema_ t) new_wb [] (wrap 64 (wb_base_row_id_ t + wb_rows t))
               (segments_ t ++ [seg]) (wrap 64 (next_segment_id_ t + 1)) (flush_threshold_ t) None
               (Some (write_manifest (map seg_meta (segments_ t ++ [seg]))))) (sealed ++ [wb]) [].
Proof.
  intros Ht Hroom Hne Hmeta Hseg Hnew. pose proof Hroom as [Hmax Hsegs].
  pose proof (tr_next_range _ _ _ Ht) as Hnr.
  assert (Hrows : wb_rows t = zlen wb) by (by apply (wb_rows_rep t sealed)).
  pose proof (zlen_nonneg wb). pose proof (zlen_nonneg (concat sealed)).
  unfold all_rows in Hmax. rewrite zlen_app in Hmax.
  constructor; cbn [schema_ segments_ wb_columns_ wb_base_row_id_ wb_deleted_ next_segment_id_ deleted_file manifest_file].
  - apply (tr_schema _ _ _ Ht).
  - apply segs_rep_snoc; [apply (tr_segs _ _ _ Ht)|]. by rewrite Z.add_0_l.
  - unfold rows_rep. by rewrite column_batches_nil.
  - rewrite concat_snoc, zlen_app, (tr_base _ _ _ Ht), Hrows. apply wrap_id. unfold in_u. lia.
  - intros i Hi. apply row_bit_nil. exact Hi.
  - rewrite map_app. apply NoDup_app. split; [apply (tr_ids _ _ _ Ht)|]. split; [|by apply NoDup_singleton].
    intros x Hx Hy. apply list_elem_of_singleton in Hy. rewrite Hmeta in Hy. cbn in Hy.
    apply list_elem_of_fmap in Hx as (s & -> & Hs).
    pose proof (tr_next _ _ _ Ht) as Hn. rewrite Forall_forall in Hn. specialize (Hn s Hs). lia.
  - rewrite wrap_id by (unfold in_u; lia). apply Forall_app. split.
    + apply (Forall_impl _ _ _ (tr_next _ _ _ Ht)). intros s Hs. lia.
    + constructor; [|constructor]. rewrite Hmeta. cbn. lia.
  - rewrite wrap_id by (unfold in_u; lia). rewrite zlen_app. unfold zlen at 2. simpl. lia.
  - done.
  - by apply (sealed_metas t sealed wb).
Qed.

(** Sealing keeps the rows and their deletion marks. *)
Lemma flush_write_buffer_rep t sealed wb : table_rep t sealed wb -> has_room sealed wb ->
  exists t' sealed' wb', flush_write_buffer t = (Ok tt, t') /\ table_rep t' sealed' wb' /\
    all_rows sealed' wb' = all_rows sealed wb /\
    (forall gid, 0 <= gid -> is_row_deleted t' gid = is_row_deleted t gid) /\ schema_ t' = schema_ t /\
    flush_threshold_ t' = flush_threshold_ t.
Proof.
  intros Ht Hroom. pose proof Hroom as [Hmax _].
  assert (Hrows : wb_rows t = zlen wb) by (by apply (wb_rows_rep t sealed)).
  unfold flush_write_buffer. destruct (Z.eqb_spec (wb_rows t) 0) as [Hz|Hz]; [by exists t, sealed, wb|].
  assert (Hne : wb <> []) by (intros ->; rewrite Hrows in Hz; done).
  destruct (flush_cols_rep _ _ _ (tr_wb _ _ _ Ht)) as (cols & -> & Hc & Hcl).
  cbn [dir_ schema_ next_segment_id_ deleted_file wb_base_row_id_ segments_ flush_threshold_ set_wb_columns].
  destruct (sealed_segment t sealed wb cols Ht Hmax Hne Hc Hcl) as (seg & -> & Hmeta & Hdel & Hseg).
  pose proof (tr_schema _ _ _ Ht) as [_ _ Hval].
  destruct (create_cols_rep (fun col e => "flush_write_buffer: create new col '" +:+ col_name col +:+ "': " +:+ e)
    (dir_ t) ∅ (schema_ t) Hval) as (new_wb & -> & Hnew & _); [intros; apply lookup_empty|].
  eexists _, (sealed ++ [wb]), []. split; [done|].
  split; [by eapply sealed_table_rep|]. split; [unfold all_rows; by rewrite concat_snoc, app_nil_r|].
  split; [|done]. intros gid Hgid. unfold is_row_deleted. cbn [wb_base_row_id_ wb_deleted_ segments_].
  unfold all_rows in Hmax. rewrite zlen_app in Hmax. pose proof (zlen_nonneg wb).
  pose proof (zlen_nonneg (concat sealed)). rewrite (tr_base _ _ _ Ht), Hrows, wrap_id by (unfold in_u; lia).
  rewrite (deleted_in_segments_snoc (schema_ t) _ _ sealed wb gid 0) by
    (apply (tr_segs _ _ _ Ht) || by rewrite Z.add_0_l || lia).
  rewrite Z.add_0_l, Hdel.
  destruct (Z.leb_spec (zlen (concat sealed) + zlen wb) gid), (Z.leb_spec (zlen (concat sealed)) gid),
    (Z.ltb_spec gid (zlen (concat sealed) + zlen wb)); try done; try lia.
  rewrite row_bit_nil by lia. symmetry. apply (tr_bits _ _ _ Ht). lia.
Qed.

(** ** Inserting *)

Lemma maybe_flush_rep t sealed wb : table_rep t sealed wb -> has_room sealed wb ->
  exists t' sealed' wb', maybe_flush t = (Ok tt, t') /\ table_rep t' sealed' wb' /\
    all_rows sealed' wb' = all_rows sealed wb /\
    (forall gid, 0 <= gid -> is_row_deleted t' gid = is_row_deleted t gid) /\ schema_ t' = schema_ t /\
    flush_threshold_ t' = flush_threshold_ t.
Proof.
  intros Ht Hroom. unfold maybe_flush. destruct (flush_threshold_ t <=? wb_rows t).
  - by apply flush_write_buffer_rep.
  - by exists t, sealed, wb.
Qed.

Lemma columns_room (schema : Schema) (rows new : list row) : zlen rows + zlen new < 2 ^ 63 ->
  Forall2 (fun vs bs : list Value => zlen vs + zlen bs < 2 ^ 63) (column_batches (length schema) rows)
    (column_batches (length schema) new).
Proof.
  intros H. apply Forall2_same_length_lookup_2; [by rewrite !length_column_batches|].
  intros i vs bs Hv Hb. pose proof (column_batches_len (length schema) rows) as H1.
  pose proof (column_batches_len (length schema) new) as H2. rewrite Forall_lookup in H1, H2.
  specialize (H1 _ _ Hv). specialize (H2 _ _ Hb). unfold zlen in *. lia.
Qed.

Lemma row_fits_length schema row : row_fits schema row -> length row = length schema.
Proof. intros H. symmetry. by eapply Forall2_length. Qed.

Lemma rows_width {A} schema (cols : list A) new : Forall (row_fits schema) new -> length cols = length schema ->
  find (fun row => negb (zlen row =? zlen cols)) new = None.
Proof.
  intros Hfit Hlen. induction Hfit as [|r new Hr _ IH]; simpl; [done|].
  apply row_fits_length in Hr. rewrite (proj2 (Z.eqb_eq _ _)); [done|]. unfold zlen. congruence.
Qed.

Lemma insert_many_rep t sealed wb new : table_rep t sealed wb -> has_room sealed (wb ++ new) ->
  Forall (row_fits (schema_ t)) new ->
  exists t' sealed' wb', table_insert_many t new = (Ok (zlen new), t') /\ table_rep t' sealed' wb' /\
    all_rows sealed' wb' = all_rows sealed wb ++ new /\
    (forall gid, 0 <= gid -> is_row_deleted t' gid = is_row_deleted t gid) /\ schema_ t' = schema_ t /\
    flush_threshold_ t' = flush_threshold_ t.
Proof.
  intros Ht Hroom Hfit. unfold table_insert_many. destruct new as [|r0 new0] eqn:Hnew.
  { exists t, sealed, wb. by rewrite app_nil_r. }
  rewrite <- Hnew in *. clear Hnew r0 new0. pose proof (rows_rep_length _ _ _ (tr_wb _ _ _ Ht)) as Hlen.
  rewrite (rows_width (schema_ t)) by done. rewrite Hlen. pose proof Hroom as [Hmax _]. unfold all_rows in Hmax. rewrite !zlen_app in Hmax.
  pose proof (zlen_nonneg (concat sealed)).
  destruct (append_cols_rep _ _ _ (tr_wb _ _ _ Ht) (column_batches (length (schema_ t)) new))
    as (cols & -> & Hc); [by apply column_batches_fit|apply columns_room; lia|].
  assert (Ht1 : table_rep (set_wb_columns t cols) sealed (wb ++ new)).
  { apply (set_wb_columns_rep t sealed wb); [done| |rewrite zlen_app; pose proof (zlen_nonneg new); lia].
    unfold rows_rep. by rewrite column_batches_app. }
  destruct (maybe_flush_rep _ _ _ Ht1 Hroom) as (t' & sealed' & wb' & -> & Hr & Hrows & Hdel & Hs & Hth).
  exists t', sealed', wb'. split; [done|]. split; [done|].
  split; [rewrite Hrows; unfold all_rows; by rewrite app_assoc|]. done.
Qed.

(** ** Deleting *)

Lemma seg_search_spec segs gid fuel : forall lo hi, 0 <= lo < hi -> hi <= zlen segs -> hi - lo <= Z.of_nat fuel ->
  seg_base segs lo <= gid -> (hi = zlen segs \/ gid < seg_base segs hi) ->
  let r := seg_search fuel segs gid lo hi in
  0 <= r < zlen segs /\ seg_base segs r <= gid /\ (r + 1 = zlen segs \/ gid < seg_base segs (r + 1)).
Proof.
  induction fuel as [|fuel IH]; intros lo hi Hlh Hhi Hf Hlo Hup; cbn [seg_search]; [lia|].
  destruct (Z.ltb_spec (lo + 1) hi) as [Hlt|Hge].
  - assert (Hmid : lo < (lo + hi) / 2 < hi) by zlia.
    destruct (Z.leb_spec (seg_base segs ((lo + hi) / 2)) gid); apply IH; try lia; auto.
  - assert (hi = lo + 1) as -> by lia. split; [lia|]. auto.
Qed.

Lemma seg_base_lookup segs k seg : segs !! k = Some seg -> seg_base segs (Z.of_nat k) = base_row_id (seg_meta seg).
Proof. intros H. unfold seg_base. by rewrite Nat2Z.id, H. Qed.

(** The segment that holds a row id. *)
Definition seg_holds (segs : list Segment) (k : nat) (seg : Segment) (gid : Z) : Prop :=
  segs !! k = Some seg /\
  base_row_id (seg_meta seg) <= gid < base_row_id (seg_meta seg) + seg_row_count (seg_meta seg).

Lemma seg_holds_exists schema base segs rowss gid : segs_rep schema base segs rowss ->
  base <= gid < base + zlen (concat rowss) -> exists k seg, seg_holds segs k seg gid.
Proof.
  induction 1 as [base|base s segs r rowss Hs _ IH]; intros Hg; cbn [concat] in Hg.
  - change (zlen []) with 0 in Hg. lia.
  - rewrite zlen_app in Hg. destruct (decide (gid < base + zlen r)) as [Hlt|Hge].
    + exists 0%nat, s. split; [done|]. rewrite (sr_base _ _ _ _ Hs), (sr_count _ _ _ _ Hs). lia.
    + destruct IH as (k & seg & Hk & Hin); [lia|]. by exists (S k), seg.
Qed.

(** Bases from the first segment on. *)
Lemma segs_rep_bases schema base segs rowss k seg : segs_rep schema base segs rowss -> segs !! k = Some seg ->
  base <= base_row_id (seg_meta seg) /\ 0 <= seg_row_count (seg_meta seg) /\
  base_row_id (seg_meta seg) + seg_row_count (seg_meta seg) <= base + zlen (concat rowss) /\
  forall k' seg', segs !! k' = Some seg' -> (k < k')%nat ->
    base_row_id (seg_meta seg) + seg_row_count (seg_meta seg) <= base_row_id (seg_meta seg').
Proof.
  intros H. revert k seg. induction H as [base|base s segs r rowss Hs Hss IH]; intros k seg Hk; [done|].
  cbn [concat]. rewrite zlen_app. pose proof (zlen_nonneg r). pose proof (zlen_nonneg (concat rowss)).
  destruct k as [|k]; cbn in Hk.
  - injection Hk as <-. rewrite (sr_base _ _ _ _ Hs), (sr_count _ _ _ _ Hs). split_and!; try lia.
    intros [|k'] seg' Hk' Hlt; [lia|]. cbn in Hk'. destruct (IH _ _ Hk') as (Hb & _). lia.
  - destruct (IH _ _ Hk) as (Hb & Hc & Ht & Hn). split_and!; try lia.
    intros [|k'] seg' Hk' Hlt; [lia|]. cbn in Hk'. apply (Hn k' seg' Hk'). lia.
Qed.

Lemma find_segment_spec schema segs rowss k seg gid : segs_rep schema 0 segs rowss -> seg_holds segs k seg gid ->
  find_segment segs gid = Z.of_nat k.
Proof.
  intros Hs [Hk Hg]. pose proof (lookup_lt_Some _ _ _ Hk) as Hlt.
  destruct (segs_rep_bases _ _ _ _ _ _ Hs Hk) as (H0 & _ & _ & Hnext).
  assert (Hz : seg_base segs 0 <= gid).
  { destruct (segs !! 0%nat) as [s0|] eqn:Hs0; [|by apply lookup_ge_None in Hs0; lia].
    rewrite (seg_base_lookup _ 0 _ Hs0 : seg_base segs 0 = _). destruct k as [|k]; [simplify_eq; lia|].
    destruct (segs_rep_bases _ _ _ _ _ _ Hs Hs0) as (_ & ? & _ & Hn). specialize (Hn _ _ Hk ltac:(lia)). lia. }
  destruct (seg_search_spec segs gid (length segs) 0 (zlen segs)) as (Hr & Hb & Hu);
    [unfold zlen; lia|lia|unfold zlen; lia|done|by left|].
  fold (find_segment segs gid) in *. set (r := find_segment segs gid) in *.
  destruct (segs !! Z.to_nat r) as [sr|] eqn:Hsr; [|apply lookup_ge_None in Hsr; unfold zlen in Hr; lia].
  assert (Hbr : seg_base segs r = base_row_id (seg_meta sr)) by (unfold seg_base; by rewrite Hsr).
  destruct (decide (Z.to_nat r < k)%nat) as [Hl|Hl].
  - exfalso. destruct Hu as [Hu|Hu]; [unfold zlen in Hu; lia|].
    destruct (segs !! Z.to_nat (r + 1)) as [s1|] eqn:Hs1; [|apply lookup_ge_None in Hs1; lia].
    unfold seg_base in Hu. rewrite Hs1 in Hu.
    destruct (decide (Z.to_nat (r + 1) = k)) as [He|He]; [rewrite He in Hs1; simplify_eq; lia|].
    destruct (segs_rep_bases _ _ _ _ _ _ Hs Hs1) as (_ & ? & _ & Hn). specialize (Hn _ _ Hk ltac:(lia)). lia.
  - destruct (decide (k < Z.to_nat r)%nat) as [Hl'|Hl']; [|lia]. exfalso.
    specialize (Hnext _ _ Hsr Hl'). lia.
Qed.

Lemma deleted_at schema base segs rowss k seg gid : segs_rep schema base segs rowss -> 0 <= base ->
  base + zlen (concat rowss) < 2 ^ 63 -> seg_holds segs k seg gid ->
  deleted_in_segments segs gid = row_bit (seg_deleted seg) (gid - base_row_id (seg_meta seg)).
Proof.
  intros H. revert k. induction H as [base|base s segs r rowss Hs Hss IH]; intros k Hb Hmax [Hk Hg]; [done|].
  cbn [concat deleted_in_segments] in *. rewrite zlen_app in Hmax.
  pose proof (zlen_nonneg r). pose proof (zlen_nonneg (concat rowss)).
  rewrite (sr_base _ _ _ _ Hs), (sr_count _ _ _ _ Hs), wrap_id by (unfold in_u; lia).
  destruct k as [|k]; cbn in Hk.
  - injection Hk as <-. rewrite (sr_base _ _ _ _ Hs), (sr_count _ _ _ _ Hs) in *.
    rewrite (proj2 (Z.ltb_ge _ _)), (proj2 (Z.leb_gt _ _)) by lia. done.
  - destruct (segs_rep_bases _ _ _ _ _ _ Hss Hk) as (Hb' & _).
    rewrite (proj2 (Z.ltb_ge _ _)), (proj2 (Z.leb_le _ _)) by lia. apply (IH k); [lia|lia|]. by split.
Qed.

Lemma seg_mark_rep schema seg base rows ids : seg_rep schema seg base rows ->
  seg_rep schema (segment_mark_deleted seg ids) base rows.
Proof.
  intros [H1 H2 H3 H4 H5 H6]. unfold segment_mark_deleted. destruct ids; [by constructor|].
  constructor; cbn [seg_meta seg_columns seg_deleted seg_deleted_file]; try done. apply load_write_deleted.
Qed.

Lemma mark_segments_rep t ids schema segs rowss : forall si base, segs_rep schema base segs rowss ->
  segs_rep schema base (mark_segments t ids si segs) rowss.
Proof.
  intros si base H. revert si. induction H as [|base s segs r rowss Hs _ IH]; intros si; cbn; constructor.
  - by apply seg_mark_rep.
  - apply IH.
Qed.

Lemma mark_segments_lookup t ids segs : forall si k,
  mark_segments t ids si segs !! k =
    (fun seg => segment_mark_deleted seg (seg_ids t (si + Z.of_nat k) ids)) <$> segs !! k.
Proof.
  induction segs as [|s segs IH]; intros si k; [done|]. destruct k as [|k]; cbn [mark_segments lookup list_lookup].
  - by rewrite Z.add_0_r.
  - change (mark_segments t ids (si + 1) segs !! k = (fun seg => segment_mark_deleted seg
      (seg_ids t (si + Z.of_nat (S k)) ids)) <$> segs !! k).
    replace (si + Z.of_nat (S k)) with (si + 1 + Z.of_nat k) by lia. by rewrite IH.
Qed.

Lemma seg_mark_meta seg ids : seg_meta (segment_mark_deleted seg ids) = seg_meta seg.
Proof. by destruct ids. Qed.

Lemma mark_segments_metas t ids segs : forall si, map seg_meta (mark_segments t ids si segs) = map seg_meta segs.
Proof. induction segs as [|s segs IH]; intros si; cbn; [done|]. by rewrite seg_mark_meta, IH. Qed.

Lemma seg_mark_bit seg ids i : 0 <= i -> 0 <= seg_row_count (seg_meta seg) < 2 ^ 63 ->
  Forall (fun id => 0 <= id) ids ->
  row_bit (seg_deleted (segment_mark_deleted seg ids)) i =
    row_bit (seg_deleted seg) i || bool_decide (i < seg_row_count (seg_meta seg) /\ i ∈ ids).
Proof.
  intros Hi Hc Hids. unfold segment_mark_deleted. destruct ids as [|id0 ids0] eqn:Hid.
  - rewrite bool_decide_false, orb_false_r; [done|]. intros [_ H]. by apply elem_of_nil in H.
  - cbn [seg_deleted]. by apply row_bit_mark.
Qed.

Lemma wb_ids_spec t ids gid : wb_base_row_id_ t <= gid -> gid - wb_base_row_id_ t ∈ wb_ids t ids <-> gid ∈ ids.
Proof.
  intros Hg. unfold wb_ids. rewrite list_elem_of_fmap. split.
  - intros (g & Heq & Hin). apply list_elem_of_filter in Hin as [_ Hin]. assert (g = gid) as -> by lia. done.
  - intros Hin. exists gid. split; [done|]. apply list_elem_of_filter. split; [|done].
    by rewrite (proj2 (Z.leb_le _ _)).
Qed.

Lemma wb_ids_nonneg t ids : Forall (fun id => 0 <= id) (wb_ids t ids).
Proof.
  apply Forall_forall. intros x Hx. apply list_elem_of_fmap in Hx as (g & -> & Hg).
  apply list_elem_of_filter in Hg as [Hg _]. destruct (Z.leb_spec (wb_base_row_id_ t) g); [lia|done].
Qed.

Lemma seg_ids_nonneg t si ids : Forall (fun id => 0 <= id) (seg_ids t si ids).
Proof.
  apply Forall_forall. intros x Hx. apply list_elem_of_fmap in Hx as (g & -> & Hg).
  apply (wrap_range 64). lia.
Qed.

(** A row id of segment [k] is handed to that segment. *)
Lemma seg_ids_spec t rowss k seg ids gid : segs_rep (schema_ t) 0 (segments_ t) rowss ->
  wb_base_row_id_ t = zlen (concat rowss) -> zlen (concat rowss) < 2 ^ 63 -> Forall (in_u 64) ids ->
  seg_holds (segments_ t) k seg gid ->
  gid - base_row_id (seg_meta seg) ∈ seg_ids t (Z.of_nat k) ids <-> gid ∈ ids.
Proof.
  intros Hs Hbase Hmax Hids Hg. pose proof Hg as [Hk Hin].
  destruct (segs_rep_bases _ _ _ _ _ _ Hs Hk) as (H0 & _ & Htot & _).
  pose proof (find_segment_spec _ _ _ _ _ _ Hs Hg) as Hf.
  unfold seg_ids. rewrite list_elem_of_fmap. rewrite (seg_base_lookup _ _ _ Hk). split.
  - intros (g & Heq & Hgin). apply list_elem_of_filter in Hgin as [Hc Hgin].
    apply andb_prop_elim in Hc as [Hlt Hc]. apply Is_true_eq_true, Z.ltb_lt in Hlt.
    rewrite Forall_forall in Hids. specialize (Hids g Hgin). unfold in_u in Hids.
    destruct (seg_holds_exists _ _ _ _ g Hs) as (k' & seg' & Hg'); [lia|].
    rewrite (find_segment_spec _ _ _ _ _ _ Hs Hg') in Hc. apply Is_true_eq_true, Z.eqb_eq in Hc.
    assert (k' = k) as -> by lia. destruct Hg' as [Hk' Hin']. rewrite Hk in Hk'. injection Hk' as <-.
    rewrite wrap_id in Heq by (unfold in_u; lia). assert (g = gid) as -> by lia. done.
  - intros Hgin. exists gid. split; [symmetry; apply wrap_id; unfold in_u; lia|].
    apply list_elem_of_filter. split; [|done]. rewrite Hf, Z.eqb_refl, (proj2 (Z.ltb_lt _ _)) by lia. done.
Qed.

(** The write buffer part of [mark_deleted]. *)
Lemma mark_wb_rep t sealed wb ids : table_rep t sealed wb -> zlen (all_rows sealed wb) < 2 ^ 63 ->
  let t1 := match wb_ids t ids with
            | [] => t
            | l => set_wb_deleted t (mark_rows (wb_deleted_ t) (wb_rows t) l)
            end in
  table_rep t1 sealed wb /\ schema_ t1 = schema_ t /\ segments_ t1 = segments_ t /\
  wb_base_row_id_ t1 = wb_base_row_id_ t /\ flush_threshold_ t1 = flush_threshold_ t /\
  forall i, 0 <= i -> row_bit (wb_deleted_ t1) i =
    row_bit (wb_deleted_ t) i || bool_decide (i < zlen wb /\ i ∈ wb_ids t ids).
Proof.
  intros Ht Hmax. pose proof (wb_ids_nonneg t ids) as Hnn. pose proof (wb_rows_rep t sealed wb Ht Hmax) as Hrows.
  unfold all_rows in Hmax. rewrite zlen_app in Hmax.
  pose proof (zlen_nonneg wb). pose proof (zlen_nonneg (concat sealed)).
  destruct (wb_ids t ids) as [|i0 l0] eqn:Hl.
  { cbv zeta. split; [done|]. do 4 (split; [done|]). intros i Hi. rewrite bool_decide_false, orb_false_r; [done|].
    intros [_ Hc]. by apply elem_of_nil in Hc. }
  rewrite <- Hl in *. clear Hl. cbv zeta. rewrite Hrows.
  assert (Hbit : forall i, 0 <= i -> row_bit (mark_rows (wb_deleted_ t) (zlen wb) (wb_ids t ids)) i =
    row_bit (wb_deleted_ t) i || bool_decide (i < zlen wb /\ i ∈ wb_ids t ids)).
  { intros i Hi. apply row_bit_mark; [done|lia|done]. }
  split; [|done]. destruct Ht as [H1 H2 H3 H4 H5 H6 H7 H8 H9 H10].
  constructor; cbn [set_wb_deleted schema_ segments_ wb_columns_ wb_base_row_id_ wb_deleted_ next_segment_id_
                    deleted_file manifest_file]; try done.
  - intros i Hi. rewrite Hbit by lia. rewrite H5 by done. rewrite bool_decide_false; [done|lia].
  - apply load_write_deleted.
Qed.

Lemma set_segments_rep t sealed wb segs : table_rep t sealed wb -> segs_rep (schema_ t) 0 segs sealed ->
  map seg_meta segs = map seg_meta (segments_ t) -> table_rep (set_segments t segs) sealed wb.
Proof.
  intros [H1 H2 H3 H4 H5 H6 H7 H8 H9 H10] Hs Hm.
  assert (Hid : map (fun s => seg_id (seg_meta s)) segs = map (fun s => seg_id (seg_meta s)) (segments_ t)).
  { rewrite <- !(map_map seg_meta seg_id). by rewrite Hm. }
  constructor; cbn [set_segments schema_ segments_ wb_columns_ wb_base_row_id_ wb_deleted_ next_segment_id_
                    deleted_file manifest_file]; try done.
  - by rewrite Hid.
  - rewrite <- (Forall_map (fun s => seg_id (seg_meta s)) (fun i => 0 <= i < next_segment_id_ t)) in *.
    by rewrite Hid.
  - by rewrite Hm.
Qed.

(** [mark_deleted] marks exactly the given existing rows. *)
Lemma mark_deleted_rep t sealed wb ids : table_rep t sealed wb -> zlen (all_rows sealed wb) < 2 ^ 63 ->
  Forall (in_u 64) ids ->
  table_rep (table_mark_deleted t ids) sealed wb /\
  schema_ (table_mark_deleted t ids) = schema_ t /\
  flush_threshold_ (table_mark_deleted t ids) = flush_threshold_ t /\
  forall gid, 0 <= gid -> is_row_deleted (table_mark_deleted t ids) gid =
    is_row_deleted t gid || bool_decide (gid < zlen (all_rows sealed wb) /\ gid ∈ ids).
Proof.
  intros Ht Hmax Hids. unfold table_mark_deleted. destruct ids as [|i0 l0] eqn:Hl.
  { split; [done|]. do 2 (split; [done|]). intros gid Hg. rewrite bool_decide_false, orb_false_r; [done|].
    intros [_ Hc]. by apply elem_of_nil in Hc. }
  rewrite <- Hl in *. clear Hl.
  destruct (mark_wb_rep t sealed wb ids Ht Hmax) as (Ht1 & Hs1 & Hsg1 & Hb1 & Hf1 & Hbit1).
  set (t1 := match wb_ids t ids with [] => t | l => _ end) in *. cbv zeta.
  pose proof (tr_segs _ _ _ Ht1) as Hsegs. pose proof (tr_base _ _ _ Ht1) as Hbase.
  unfold all_rows in *. rewrite zlen_app in *. pose proof (zlen_nonneg wb). pose proof (zlen_nonneg (concat sealed)).
  assert (Hms : segs_rep (schema_ t1) 0 (mark_segments t1 ids 0 (segments_ t1)) sealed)
    by (by apply mark_segments_rep).
  split; [apply set_segments_rep; [done|done|apply mark_segments_metas]|]. split; [done|]. split; [done|].
  intros gid Hg. unfold is_row_deleted. cbn [set_segments wb_base_row_id_ wb_deleted_ segments_].
  rewrite Hb1 in *. destruct (Z.leb_spec (wb_base_row_id_ t) gid) as [Hwb|Hsg].
  - rewrite Hbit1 by lia. f_equal. apply bool_decide_ext. rewrite (wb_ids_spec t ids gid Hwb).
    split; intros []; (split; [lia|done]).
  - destruct (seg_holds_exists _ _ _ _ gid Hsegs) as (k & seg & Hk); [lia|].
    pose proof Hk as [Hlk Hin]. destruct (segs_rep_bases _ _ _ _ _ _ Hsegs Hlk) as (Hb0 & Hc0 & Htot & _).
    rewrite (deleted_at _ _ _ _ k (segment_mark_deleted seg (seg_ids t1 (Z.of_nat k) ids)) gid Hms);
      [|lia|lia|].
    + rewrite seg_mark_meta, seg_mark_bit; [|lia|lia|apply seg_ids_nonneg].
      rewrite <- Hsg1. rewrite (deleted_at _ _ _ _ k seg gid Hsegs) by (done || lia). f_equal.
      apply bool_decide_ext. rewrite (seg_ids_spec t1 sealed k seg ids gid Hsegs) by (done || lia || congruence).
      split; intros []; (split; [lia|done]).
    + split; [by rewrite mark_segments_lookup, Hlk|]. by rewrite seg_mark_meta.
Qed.

(** ** Reopening *)

(** Same contents and marks, as after a restart. *)
Definition seg_same (s s' : Segment) : Prop := seg_meta s' = seg_meta s /\ seg_deleted s' = seg_deleted s.

Lemma deleted_same segs segs' gid : Forall2 seg_same segs segs' ->
  deleted_in_segments segs' gid = deleted_in_segments segs gid.
Proof.
  induction 1 as [|s s' segs segs' [Hm Hd] _ IH]; [done|]. cbn [deleted_in_segments].
  by rewrite Hm, Hd, IH.
Qed.

Lemma segment_open_rep dir schema seg base rows : NoDup (map col_name schema) -> seg_rep schema seg base rows ->
  exists seg', segment_open dir (mkDir (col_files schema (seg_columns seg)) (seg_deleted_file seg)) schema
      (seg_meta seg) = Ok seg' /\ seg_rep schema seg' base rows /\ seg_same seg seg'.
Proof.
  intros Hnd [H1 H2 H3 H4 H5 H6]. unfold segment_open. cbn [dir_cols dir_deleted].
  destruct (seg_open_cols_rep dir (col_files schema (seg_columns seg)) _ _ _ H4 H5) as (cols & -> & Hr & Hcl).
  { apply col_files_holds; [done|]. by eapply rows_rep_length. }
  eexists. split; [done|]. split; [constructor; done|]. split; done.
Qed.

Lemma open_segments_rep dir schema dirs base segs rowss : NoDup (map col_name schema) ->
  segs_rep schema base segs rowss -> forall next n, 0 <= base -> base + zlen (concat rowss) < 2 ^ 63 ->
  0 <= next <= n -> n < 2 ^ 64 -> Forall (fun s => 0 <= seg_id (seg_meta s) < n) segs ->
  Forall (fun s => dirs !! seg_id (seg_meta s) =
    Some (mkDir (col_files schema (seg_columns s)) (seg_deleted_file s))) segs ->
  exists next' segs', open_segments dir schema dirs (map seg_meta segs) base next =
      Ok (base + zlen (concat rowss), next', segs') /\ segs_rep schema base segs' rowss /\
    Forall2 seg_same segs segs' /\ next <= next' <= n /\ Forall (fun s => 0 <= seg_id (seg_meta s) < next') segs'.
Proof.
  intros Hnd. induction 1 as [base|base s segs r rowss Hs Hss IH]; intros next n Hb Hmax Hnx Hn Hid Hd.
  { exists next, []. cbn. change (zlen []) with 0. rewrite Z.add_0_r. split_and!; (done || constructor || lia). }
  apply Forall_cons in Hid as [Hid Hids]. apply Forall_cons in Hd as [Hd Hds].
  cbn [concat map open_segments] in *. rewrite zlen_app in *.
  pose proof (zlen_nonneg r). pose proof (zlen_nonneg (concat rowss)).
  destruct (segment_open_rep (dir +:+ "/seg_" +:+ pretty (seg_id (seg_meta s))) schema s base r Hnd Hs)
    as (s' & Ho & Hr & Hsame). rewrite Hd. cbn [from_option id]. rewrite Ho.
  rewrite (sr_count _ _ _ _ Hs), !wrap_id by (unfold in_u; lia).
  set (next1 := if next <=? seg_id (seg_meta s) then seg_id (seg_meta s) + 1 else next).
  assert (Hnext1 : next <= next1 <= n /\ seg_id (seg_meta s) < next1).
  { unfold next1. destruct (Z.leb_spec next (seg_id (seg_meta s))); lia. }
  destruct (IH next1 n) as (next' & segs' & -> & Hsr & Hf & Hnr & Hall); [lia|lia|lia|lia|done|done|].
  exists next', (s' :: segs'). cbn [fst snd]. split; [do 3 f_equal; lia|].
  split; [by constructor|]. split; [by constructor|]. split; [lia|]. constructor; [|done].
  destruct Hsame as [-> _]. lia.
Qed.

Lemma segment_dirs_lookup schema segs : NoDup (map (fun s => seg_id (seg_meta s)) segs) ->
  Forall (fun s => segment_dirs schema segs !! seg_id (seg_meta s) =
    Some (mkDir (col_files schema (seg_columns s)) (seg_deleted_file s))) segs.
Proof.
  intros Hnd. apply Forall_forall. intros s Hs. unfold segment_dirs. apply elem_of_list_to_map_1.
  - rewrite <- list_fmap_compose. exact Hnd.
  - apply list_elem_of_fmap. by exists s.
Qed.

Lemma same_metas segs segs' : Forall2 seg_same segs segs' -> map seg_meta segs' = map seg_meta segs.
Proof. induction 1 as [|s s' segs segs' [Hm _] _ IH]; simpl; congruence. Qed.

(** Opening the files of a table whose write buffer is flushed. *)
Lemma table_open_rep t sealed wb path f : table_rep t sealed wb -> has_room sealed wb ->
  Forall clean (wb_columns_ t) -> read path f = Ok (schema_ t) -> path = dir_ t +:+ "/schema.bin" ->
  exists t', table_open (dir_ t) (table_files f t) = Ok t' /\ table_rep t' sealed wb /\
    (forall gid, is_row_deleted t' gid = is_row_deleted t gid) /\ schema_ t' = schema_ t.
Proof.
  intros Ht [Hmax Hsegs] Hcl Hread ->. pose proof (tr_schema _ _ _ Ht) as [_ Hnd _].
  pose proof (tr_next_range _ _ _ Ht) as Hnr. pose proof (tr_base _ _ _ Ht) as Hbase.
  unfold all_rows in Hmax. rewrite zlen_app in Hmax.
  pose proof (zlen_nonneg wb). pose proof (zlen_nonneg (concat sealed)).
  unfold table_open, table_files. cbn [f_schema f_dir f_manifest f_segments dir_cols dir_deleted].
  rewrite Hread, (tr_manifest _ _ _ Ht).
  destruct (open_segments_rep (dir_ t) (schema_ t) (segment_dirs (schema_ t) (segments_ t)) 0 _ _ Hnd
    (tr_segs _ _ _ Ht) 0 (next_segment_id_ t)) as (next' & segs' & -> & Hsr & Hsame & Hn & Hall);
    [lia|lia|lia|lia|apply (tr_next _ _ _ Ht)|apply segment_dirs_lookup, (tr_ids _ _ _ Ht)|].
  destruct (open_wb_rep (dir_ t) (col_files (schema_ t) (wb_columns_ t)) _ _ _ (tr_wb _ _ _ Ht) Hcl)
    as (wbc & -> & Hwb & _); [apply col_files_holds; [done|]; eapply rows_rep_length, (tr_wb _ _ _ Ht)|].
  pose proof (same_metas _ _ Hsame) as Hmetas. eexists. split; [done|]. cbn [fst snd]. split.
  - constructor; cbn [schema_ segments_ wb_columns_ wb_base_row_id_ wb_deleted_ next_segment_id_ deleted_file
                      manifest_file]; try done.
    + apply (tr_schema _ _ _ Ht).
    + rewrite (tr_deleted_file _ _ _ Ht). apply (tr_bits _ _ _ Ht).
    + rewrite <- (map_map seg_meta seg_id), Hmetas, map_map. apply (tr_ids _ _ _ Ht).
    + lia.
    + rewrite Hmetas. apply (tr_manifest _ _ _ Ht).
  - split; [|done]. intros gid. unfold is_row_deleted. cbn [wb_base_row_id_ wb_deleted_ segments_].
    rewrite Z.add_0_l, <- Hbase, (tr_deleted_file _ _ _ Ht). by rewrite (deleted_same _ _ _ Hsame).
Qed.

(** ** The abstract table *)

Module Spec.
(** All rows ever inserted, by row id, and the ids of the deleted ones. *)
Record t : Type := mk { rows : list row; deleted : gset Z }.

Definition insert (a : t) (new : list row) : t := mk (rows a ++ new) (deleted a).
Definition delete (a : t) (ids : list Z) : t :=
  mk (rows a) (deleted a ∪ list_to_set (filter (fun id => id < zlen (rows a)) ids)).
End Spec.

(** The operations of a table; [Reopen] is a flush, a shutdown and an [open]. *)
Inductive table_op : Type :=
| InsertMany (new : list row)
| MarkDeleted (ids : list Z)
| UpdateRows (ids : list Z) (new : list row)
| Seal
| Flush
| Reopen.

Definition spec_step (a : Spec.t) (o : table_op) : Spec.t :=
  match o with
  | InsertMany new => Spec.insert a new
  | MarkDeleted ids => Spec.delete a ids
  | UpdateRows ids new => Spec.insert (Spec.delete a ids) new
  | Seal | Flush | Reopen => a
  end.

Definition table_step (schema_file : file) (t : Table) (o : table_op) : result Table :=
  match o with
  | InsertMany new => let '(r, t) := table_insert_many t new in let? _ := r in Ok t
  | MarkDeleted ids => Ok (table_mark_deleted t ids)
  | UpdateRows ids new => let '(r, t) := table_update_rows t ids new in let? _ := r in Ok t
  | Seal => let '(r, t) := table_seal t in let? _ := r in Ok t
  | Flush => let '(r, t) := table_flush t in let? _ := r in Ok t
  | Reopen =>
      let '(r, t) := table_flush t in
      let? _ := r in
      table_open (dir_ t) (table_files schema_file t)
  end.

Fixpoint table_run (schema_file : file) (t : Table) (os : list table_op) : result Table :=
  match os with
  | [] => Ok t
  | o :: os' => let? t := table_step schema_file t o in table_run schema_file t os'
  end.

Definition op_valid (schema : Schema) (o : table_op) : Prop :=
  match o with
  | InsertMany new => Forall (row_fits schema) new
  | MarkDeleted ids => Forall (in_u 64) ids
  | UpdateRows ids new => Forall (in_u 64) ids /\ Forall (row_fits schema) new
  | _ => True
  end.

(** The table implements the abstract one. *)
Definition refines (t : Table) (a : Spec.t) : Prop :=
  exists sealed wb, table_rep t sealed wb /\ all_rows sealed wb = Spec.rows a /\
    forall gid, 0 <= gid -> is_row_deleted t gid = bool_decide (gid ∈ Spec.deleted a).

(** Fewer rows than the manifest can count segments. *)
Definition in_bounds (a : Spec.t) : Prop := zlen (Spec.rows a) + 1 < 2 ^ 32.

Lemma bounds_room t sealed wb n : table_rep t sealed wb -> zlen (all_rows sealed wb) + n + 1 < 2 ^ 32 -> 0 <= n ->
  zlen (all_rows sealed wb) < 2 ^ 63 /\ zlen sealed + 1 < 2 ^ 32.
Proof.
  intros Ht Hb Hn. pose proof (segs_rep_count _ _ _ _ (tr_segs _ _ _ Ht)) as Hc. unfold all_rows in *.
  rewrite zlen_app in *. pose proof (zlen_nonneg wb). lia.
Qed.

Lemma all_rows_snoc sealed wb new : all_rows sealed (wb ++ new) = all_rows sealed wb ++ new.
Proof. unfold all_rows. by rewrite app_assoc. Qed.

Lemma insert_many_refines t a new : refines t a -> Forall (row_fits (schema_ t)) new ->
  in_bounds (Spec.insert a new) ->
  exists t', table_insert_many t new = (Ok (zlen new), t') /\ refines t' (Spec.insert a new) /\ schema_ t' = schema_ t.
Proof.
  intros (sealed & wb & Ht & Hrows & Hdel) Hfit Hb. unfold in_bounds in Hb. cbn in Hb.
  rewrite <- Hrows, zlen_app in Hb. pose proof (zlen_nonneg new).
  destruct (bounds_room t sealed wb (zlen new) Ht) as [_ Hs]; [lia|lia|].
  destruct (insert_many_rep t sealed wb new Ht) as (t' & sealed' & wb' & Hi & Hr & Hall & Hd & Hsc & _);
    [split; [rewrite all_rows_snoc, zlen_app; lia|done]|done|].
  exists t'. split; [done|]. split; [|done]. exists sealed', wb'. split; [done|].
  split; [by rewrite Hall, Hrows|]. intros gid Hg. rewrite Hd by done. by apply Hdel.
Qed.

Lemma mark_deleted_refines t a ids : refines t a -> Forall (in_u 64) ids -> in_bounds a ->
  refines (table_mark_deleted t ids) (Spec.delete a ids) /\ schema_ (table_mark_deleted t ids) = schema_ t.
Proof.
  intros (sealed & wb & Ht & Hrows & Hdel) Hids Hb. unfold in_bounds in Hb. rewrite <- Hrows in Hb.
  destruct (mark_deleted_rep t sealed wb ids Ht) as (Hr & Hs & _ & Hd); [lia|done|].
  split; [|done]. exists sealed, wb. split; [done|]. split; [done|]. intros gid Hg.
  rewrite Hd, Hdel by done. unfold Spec.delete. cbn [Spec.deleted]. rewrite <- bool_decide_or.
  apply bool_decide_ext. rewrite elem_of_union, elem_of_list_to_set, list_elem_of_filter, Hrows. done.
Qed.

Lemma seal_refines t a : refines t a -> in_bounds a ->
  exists t', table_seal t = (Ok tt, t') /\ refines t' a /\ schema_ t' = schema_ t.
Proof.
  intros (sealed & wb & Ht & Hrows & Hdel) Hb. unfold in_bounds in Hb. rewrite <- Hrows in Hb.
  destruct (bounds_room t sealed wb 0 Ht) as [Hm Hs]; [lia|lia|].
  destruct (flush_write_buffer_rep t sealed wb Ht) as (t' & sealed' & wb' & Hi & Hr & Hall & Hd & Hsc & _);
    [by split|].
  exists t'. split; [done|]. split; [|done]. exists sealed', wb'. split; [done|].
  split; [by rewrite Hall|]. intros gid Hg. rewrite Hd by done. by apply Hdel.
Qed.

Lemma flush_refines t a : refines t a ->
  exists t', table_flush t = (Ok tt, t') /\ refines t' a /\ schema_ t' = schema_ t /\ dir_ t' = dir_ t /\
    Forall clean (wb_columns_ t').
Proof.
  intros (sealed & wb & Ht & Hrows & Hdel). unfold table_flush.
  destruct (flush_cols_rep _ _ _ (tr_wb _ _ _ Ht)) as (cols & -> & Hc & Hcl).
  eexists. split; [done|]. split; [|done]. exists sealed, wb. split; [by eapply set_wb_columns_rep|]. done.
Qed.

Lemma reopen_refines t a f : refines t a -> in_bounds a -> Forall clean (wb_columns_ t) ->
  read (dir_ t +:+ "/schema.bin") f = Ok (schema_ t) ->
  exists t', table_open (dir_ t) (table_files f t) = Ok t' /\ refines t' a /\ schema_ t' = schema_ t.
Proof.
  intros (sealed & wb & Ht & Hrows & Hdel) Hb Hcl Hread. unfold in_bounds in Hb. rewrite <- Hrows in Hb.
  destruct (bounds_room t sealed wb 0 Ht) as [Hm Hs]; [lia|lia|].
  destruct (table_open_rep t sealed wb _ f Ht ltac:(by split) Hcl Hread eq_refl) as (t' & Ho & Hr & Hd & Hsc).
  exists t'. split; [done|]. split; [|done]. exists sealed, wb. split; [done|]. split; [done|].
  intros gid Hg. rewrite Hd. by apply Hdel.
Qed.

Lemma in_bounds_le a o : in_bounds (spec_step a o) -> in_bounds a.
Proof.
  unfold in_bounds. destruct o as [new| |ids new| | |]; cbn; rewrite ?zlen_app; try done.
  - pose proof (zlen_nonneg new). lia.
  - pose proof (zlen_nonneg new). lia.
Qed.

Lemma table_step_refines f t a o : refines t a -> (forall path, read path f = Ok (schema_ t)) ->
  op_valid (schema_ t) o -> in_bounds (spec_step a o) ->
  exists t', table_step f t o = Ok t' /\ refines t' (spec_step a o) /\ schema_ t' = schema_ t.
Proof.
  intros Hr Hread Hv Hb. pose proof (in_bounds_le a o Hb) as Hb0.
  destruct o as [new|ids|ids new| | |]; cbn [table_step spec_step op_valid] in *.
  - destruct (insert_many_refines t a new Hr Hv Hb) as (t' & -> & Hr' & Hs). by exists t'.
  - destruct (mark_deleted_refines t a ids Hr Hv Hb0) as (Hr' & Hs). by eexists.
  - destruct Hv as [Hids Hnew]. destruct (mark_deleted_refines t a ids Hr Hids Hb0) as (Hr1 & Hs1).
    unfold table_update_rows.
    destruct (insert_many_refines (table_mark_deleted t ids) (Spec.delete a ids) new) as (t' & -> & Hr' & Hs);
      [done|by rewrite Hs1|done|]. exists t'. split; [done|]. split; [done|]. congruence.
  - destruct (seal_refines t a Hr Hb0) as (t' & -> & Hr' & Hs). by exists t'.
  - destruct (flush_refines t a Hr) as (t' & -> & Hr' & Hs & _). by exists t'.
  - destruct (flush_refines t a Hr) as (t1 & -> & Hr1 & Hs1 & _ & Hcl).
    destruct (reopen_refines t1 a f Hr1 Hb0 Hcl) as (t' & Ho & Hr' & Hs); [rewrite Hs1; apply Hread|].
    exists t'. split; [done|]. split; [done|]. congruence.
Qed.

Lemma in_bounds_run a os : in_bounds (fold_left spec_step os a) -> in_bounds a.
Proof.
  revert a. induction os as [|o os IH]; intros a Hb; [done|]. by eapply in_bounds_le, IH.
Qed.

Lemma table_run_rep f os : forall t a, refines t a -> (forall path, read path f = Ok (schema_ t)) ->
  Forall (op_valid (schema_ t)) os -> in_bounds (fold_left spec_step os a) ->
  exists t', table_run f t os = Ok t' /\ refines t' (fold_left spec_step os a) /\ schema_ t' = schema_ t.
Proof.
  induction os as [|o os IH]; intros t a Hr Hread Hv Hb; [by exists t|].
  apply Forall_cons in Hv as [Ho Hos]. cbn [fold_left table_run] in *.
  destruct (table_step_refines f t a o Hr Hread Ho) as (t1 & -> & Hr1 & Hs1); [by eapply in_bounds_run|].
  destruct (IH t1 (spec_step a o)) as (t' & Ht' & Hr' & Hs'); try done; [by rewrite Hs1..|].
  exists t'. split; [done|]. split; [done|]. congruence.
Qed.

(** ** Creating a table *)

Definition no_files : TableFiles := mkFiles (Err "ENOENT") (mkDir ∅ None) None ∅.

Lemma validate_columns_ok schema : forall seen, Forall column_valid schema ->
  Forall (fun col => col_name col <> "") schema -> NoDup (map col_name schema) ->
  (forall col, col ∈ schema -> col_name col ∉ seen) -> validate_columns schema seen = Ok tt.
Proof.
  induction schema as [|col schema IH]; intros seen Hv Hn Hnd Hseen; [done|].
  apply Forall_cons in Hv as [(_ & _ & Hc) Hv]. apply Forall_cons in Hn as [Hne Hn].
  cbn [map] in Hnd. apply NoDup_cons in Hnd as [Hnin Hnd]. cbn [validate_columns].
  rewrite (proj2 (Z.eqb_neq _ _)) by (by eapply type_size_pos).
  rewrite bool_decide_false by done. rewrite bool_decide_false by (apply Hseen; constructor).
  apply IH; try done. intros c Hc' Hin. apply elem_of_cons in Hin as [Heq|Hin].
  - apply Hnin. rewrite <- Heq. apply list_elem_of_fmap. by exists c.
  - apply (Hseen c); [by constructor|done].
Qed.

Lemma table_create_rep dir name schema threshold : schema_valid schema ->
  Forall (fun col => col_name col <> "") schema ->
  exists t, table_create dir name schema threshold no_files = Ok t /\ table_rep t [] [] /\ schema_ t = schema /\
    forall gid, 0 <= gid -> is_row_deleted t gid = false.
Proof.
  intros Hsv Hne. pose proof Hsv as [Hs Hnd Hv]. unfold table_create, validate_schema.
  destruct schema as [|c0 s0] eqn:Hsch; [done|]. rewrite <- Hsch in *. clear Hsch.
  rewrite validate_columns_ok by (done || intros ? _ H; by apply elem_of_nil in H).
  cbn [f_schema no_files is_ok f_dir dir_cols dir_deleted f_manifest].
  destruct (create_cols_rep (fun _ e => "create: " +:+ e) dir ∅ schema Hv) as (cols & -> & Hc & _);
    [intros; apply lookup_empty|].
  eexists. split; [done|]. split.
  - constructor; cbn [schema_ segments_ wb_columns_ wb_base_row_id_ wb_deleted_ next_segment_id_ deleted_file
                      manifest_file]; try done; try (by constructor).
    + unfold rows_rep. by rewrite column_batches_nil.
    + intros i Hi. by apply row_bit_nil.
  - split; [done|]. intros gid Hg. unfold is_row_deleted. cbn [wb_base_row_id_ wb_deleted_].
    rewrite (proj2 (Z.leb_le _ _)) by done. apply row_bit_nil. lia.
Qed.

Lemma table_create_threshold dir name schema threshold files t :
  table_create dir name schema threshold files = Ok t -> flush_threshold_ t = threshold.
Proof.
  unfold table_create. destruct (validate_schema schema); [|done]. destruct (is_ok (f_schema files)); [done|].
  destruct (create_cols _ dir _ schema); [|done]. by intros [= <-].
Qed.

(** ** Properties *)


Definition demo_table_schema : Schema :=
  [mkColumn "id" INT32 false 0 None; mkColumn "name" VARCHAR true 8 None].

Lemma demo_schema_valid : schema_valid demo_table_schema.
Proof.
  constructor; [done| |repeat constructor; vm_compute; congruence].
  apply (bool_decide_unpack _). vm_compute. exact I.
Qed.


(** Truncation of a flushed table to [n] rows, none of the sealed ones affected, keeps exactly
    the first [n] rows and their marks, if no row to be dropped is marked as deleted. *)
Theorem table_truncate_correct t sealed wb n :
  table_rep t sealed wb -> Forall clean (wb_columns_ t) ->
  zlen (concat sealed) <= n <= zlen (all_rows sealed wb) ->
  (forall gid, n <= gid -> is_row_deleted t gid = false) ->
  exists t' wb', table_truncate t n = Some (Ok tt, t') /\ table_rep t' sealed wb' /\
    all_rows sealed wb' = take (Z.to_nat n) (all_rows sealed wb) /\
    forall gid, is_row_deleted t' gid = is_row_deleted t gid.
Proof.
  intros Ht Hcl Hn Hdel. pose proof (tr_base _ _ _ Ht) as Hbase. unfold all_rows in *.
  rewrite zlen_app in Hn. pose proof (zlen_nonneg (concat sealed)). unfold table_truncate.
  set (k := if wb_base_row_id_ t <? n then n - wb_base_row_id_ t else 0).
  assert (Hk : k = n - zlen (concat sealed)).
  { unfold k. rewrite Hbase. destruct (Z.ltb_spec (zlen (concat sealed)) n); lia. }
  destruct (truncate_cols_rep k _ _ _ (tr_wb _ _ _ Ht) Hcl) as (cols & -> & Hc); [lia| |].
  { apply (Forall_impl _ _ _ (column_batches_len (length (schema_ t)) wb)). intros vs Hl. unfold zlen in *. lia. }
  cbn [fst snd]. exists (set_wb_columns t cols), (take (Z.to_nat k) wb). split; [done|].
  rewrite <- column_batches_take in Hc. split; [|split; [|done]].
  - destruct Ht as [H1 H2 H3 H4 H5 H6 H7 H8 H9 H10]. constructor; try done.
    intros i Hi. cbn [set_wb_columns wb_deleted_]. unfold zlen in Hi, Hk. rewrite length_take in Hi.
    specialize (Hdel (i + wb_base_row_id_ t)). unfold is_row_deleted in Hdel. unfold zlen in *.
    rewrite (proj2 (Z.leb_le _ _)) in Hdel by lia. rewrite Z.add_simpl_r in Hdel. apply Hdel. lia.
  - rewrite take_app_ge by (unfold zlen in *; lia). do 2 f_equal. unfold zlen in *. lia.
Qed.

(** A one-column table and the rows 1, 2 in it. *)
Definition one_column : Schema := [mkColumn "a" INT32 false 0 None].

Definition ok_or {A} (r : result A) (d : A) : A := match r with Ok a => a | Err _ => d end.

Definition nil_table : Table := mkTable "" [] [] [] 0 [] 0 0 None None.

Definition two_rows : Table :=
  snd (table_flush (snd (table_insert_many
    (ok_or (table_create "d/t" "t" one_column FLUSH_THRESHOLD no_files) nil_table) [[VI32 1]; [VI32 2]]))).

Lemma two_rows_rep : table_rep two_rows [] [[VI32 1]; [VI32 2]] /\ Forall clean (wb_columns_ two_rows).
Proof.
  assert (Hsv : schema_valid one_column).
  { constructor; [done| |repeat constructor; vm_compute; congruence].
    apply (bool_decide_unpack _). vm_compute. exact I. }
  destruct (table_create_rep "d/t" "t" one_column FLUSH_THRESHOLD Hsv) as (t & Hc & Hr & Hs & _);
    [repeat constructor; discriminate|].
  unfold two_rows. rewrite Hc. cbn [ok_or].
  destruct (append_cols_rep _ _ _ (tr_wb _ _ _ Hr) (column_batches 1 [[VI32 1]; [VI32 2]])) as (cols & Ha & Hcr).
  { rewrite Hs. repeat constructor; vm_compute; congruence. }
  { rewrite Hs. repeat constructor. }
  rewrite Hs in *. pose proof (rows_rep_length _ _ _ (tr_wb _ _ _ Hr)) as Hl. rewrite Hs in Hl. cbn in Hl.
  assert (Hrc : rows_rep one_column cols [[VI32 1]; [VI32 2]]) by exact Hcr.
  assert (Hi : table_insert_many t [[VI32 1]; [VI32 2]] = (Ok 2, set_wb_columns t cols)).
  { unfold table_insert_many. cbn [find]. unfold zlen. rewrite Hl. cbn [length Z.of_nat Z.eqb negb Pos.of_succ_nat Pos.eqb].
    rewrite Hs, Ha. unfold maybe_flush. pose proof (rows_rep_count _ _ _ Hrc) as Hcnt.
    unfold wb_rows. cbn [set_wb_columns wb_columns_ flush_threshold_].
    rewrite Hcnt by done.
    by rewrite (table_create_threshold _ _ _ _ _ _ Hc). }
  rewrite Hi. cbn [snd]. unfold table_flush. cbn [set_wb_columns wb_columns_].
  destruct (flush_cols_rep _ _ _ Hrc) as (cols' & -> & Hc' & Hcl). cbn [snd]. split; [|done].
  apply (set_wb_columns_rep t [] []); [done|rewrite Hs; done|done].
Qed.

Lemma two_rows_refines : refines two_rows (Spec.mk [[VI32 1]; [VI32 2]] ∅).
Proof.
  destruct two_rows_rep as [H _]. exists [], [[VI32 1]; [VI32 2]]. split; [done|]. split; [done|]. intros gid Hg.
  unfold is_row_deleted.
  assert (Hb : wb_base_row_id_ two_rows = 0) by (vm_compute; reflexivity).
  assert (Hd : wb_deleted_ two_rows = []) by (vm_compute; reflexivity).
  rewrite Hb, Hd, (proj2 (Z.leb_le _ _) Hg), row_bit_nil by lia. symmetry. by apply bool_decide_eq_false.
Qed.

Lemma two_rows_schema : schema_ two_rows = one_column.
Proof. vm_compute. reflexivity. Qed.

Lemma table_truncate_correct_witness :
  exists t' wb', table_truncate two_rows 1 = Some (Ok tt, t') /\ table_rep t' [] wb' /\ all_rows [] wb' = [[VI32 1]] /\
    forall gid, is_row_deleted t' gid = is_row_deleted two_rows gid.
Proof.
  apply (table_truncate_correct two_rows [] [[VI32 1]; [VI32 2]] 1).
  - exact (proj1 two_rows_rep).
  - exact (proj2 two_rows_rep).
  - vm_compute. split; congruence.
  - intros gid Hg. unfold is_row_deleted.
    assert (Hb : wb_base_row_id_ two_rows = 0) by (vm_compute; reflexivity).
    assert (Hd : wb_deleted_ two_rows = []) by (vm_compute; reflexivity).
    rewrite Hb, Hd. rewrite (proj2 (Z.leb_le _ _)) by lia. apply row_bit_nil. lia.
Defined.

(** The second part of an outcome whose first part is known. *)
Lemma outcome_some {A B} (x : option (A * B)) a d : fst <$> x = Some a -> x = Some (a, default d (snd <$> x)).
Proof. destruct x as [[]|]; [|done]. by intros [= ->]. Qed.

Lemma outcome_pair {A B} (x : A * B) a : fst x = a -> x = (a, snd x).
Proof. destruct x. by intros <-. Qed.

Definition stale_marks : Table :=
  default nil_table (snd <$> table_truncate (table_mark_deleted two_rows [1]) 1).

(** The marks of truncated rows stay in the bitmap: the row inserted in place of a truncated
    deleted row is deleted from the start. *)
Theorem truncate_keeps_stale_marks :
  exists t1 t2, table_truncate (table_mark_deleted two_rows [1]) 1 = Some (Ok tt, t1) /\
    table_insert_many t1 [[VI32 3]] = (Ok 1, t2) /\ table_row_count t2 = 2 /\ is_row_deleted t2 1 = true.
Proof.
  exists stale_marks, (snd (table_insert_many stale_marks [[VI32 3]])).
  split; [apply outcome_some; vm_compute; reflexivity|].
  split; [apply outcome_pair; vm_compute; reflexivity|]. split; vm_compute; reflexivity.
Qed.

Definition two_columns : Schema := one_column ++ [mkColumn "b" INT32 false 0 None].

Definition one_row : Table :=
  snd (table_insert_many (ok_or (table_create "d/t" "t" two_columns FLUSH_THRESHOLD no_files) nil_table)
         [[VI32 1; VI32 1]]).

(** The column with NULLs allowed. *)
Definition allow_null (col : Column) : Column :=
  mkColumn (col_name col) (col_type col) true (col_max_len col) (col_default col).

Lemma column_batches_split n m (rows : list row) :
  exists post, column_batches (n + S m) rows = column_batches n rows ++ map (fun r => nth n r VNull) rows :: post.
Proof. eexists. unfold column_batches. rewrite seq_app, map_app. cbn [seq map Nat.add]. reflexivity. Qed.

Lemma fits_allow_null col vs : col_nullable col = false -> vals_fit (allow_null col) vs -> VNull ∉ vs -> vals_fit col vs.
Proof.
  unfold vals_fit. rewrite !Forall_forall. intros -> Hf Hn v Hv. specialize (Hf v Hv). by destruct v.
Qed.

(** A batch with a NULL for a NOT NULL column: the columns before it have grown, those after it not. *)
Lemma append_cols_null pre col post cols1 cf cols2 vss1 bss1 bss2 vs b : columns_rep pre cols1 vss1 ->
  col_rep col cf vs -> col_nullable col = false -> Forall2 vals_fit pre bss1 -> vals_fit (allow_null col) b ->
  VNull ∈ b -> Forall2 (fun vs bs => zlen vs + zlen bs < 2 ^ 63) (vss1 ++ [vs]) (bss1 ++ [b]) ->
  exists e cols1' cf', append_cols (pre ++ col :: post) (cols1 ++ cf :: cols2) (bss1 ++ b :: bss2) =
      (Err e, cols1' ++ cf' :: cols2) /\ columns_rep pre cols1' (zip_with app vss1 bss1).
Proof.
  intros H Hcf Hnn. revert bss1. induction H as [|c cf1 vs1 pre cols1 vss1 Hc _ IH]; intros bss1 Hpre Hb Hnull Hmax.
  - apply Forall2_nil_inv_l in Hpre as ->. apply Forall2_cons in Hmax as [Hmax _].
    apply list_elem_of_split_l in Hnull as (good & rest & -> & Hg).
    apply Forall_app in Hb as [Hb _]. destruct Hcf as (Hrep & Ht & Hn & Hm).
    destruct (append_bulk_null cf vs good rest Hrep) as (cf' & Ha).
    + congruence.
    + rewrite zlen_app in Hmax. pose proof (zlen_nonneg (VNull :: rest)). lia.
    + rewrite Ht, Hm, <- Hnn. by apply fits_allow_null.
    + exists ("insert_many col " +:+ col_name col +:+ ": " +:+ "append_null: column is not nullable"), [], cf'.
      cbn [app append_cols]. rewrite Ha. split; [done|constructor].
  - apply Forall2_cons_inv_l in Hpre as (b1 & bss1' & Hb1 & Hpre & ->).
    apply Forall2_cons in Hmax as [Hm1 Hmax]. destruct (IH bss1' Hpre Hb Hnull Hmax) as (e & cols1' & cf' & Ha & Hr).
    pose proof Hc as (Hrep & Ht & Hn & Hm).
    destruct (append_bulk_rep b1 cf1 vs1 Hrep Hm1) as (cf1' & Hb' & Hrep' & Hp); [by rewrite Ht, Hn, Hm|].
    exists e, (cf1' :: cols1'), cf'. cbn [app append_cols]. rewrite Hb', Ha. split; [done|]. constructor; [|done].
    by eapply col_rep_params.
Qed.

Lemma columns_count schema cols vss n : columns_rep schema cols vss -> Forall (fun vs => zlen vs = n) vss ->
  n < 2 ^ 64 -> Forall (fun cf => row_count cf = n) cols.
Proof.
  intros H Hl Hn. induction H as [|col cf vs schema cols vss Hc _ IH]; [constructor|].
  apply Forall_cons in Hl as [Hl Hls]. constructor; [|by apply IH].
  rewrite (row_count_rep _ _ (proj1 Hc)); congruence.
Qed.

Lemma batches_zlen n (rows : list row) : Forall (fun vs => zlen vs = zlen rows) (column_batches n rows).
Proof. apply (Forall_impl _ _ _ (column_batches_len n rows)). unfold zlen. lia. Qed.

(** [insert_many] of rows that fit but for a NULL in the NOT NULL column [col]. *)
Lemma insert_many_null t sealed wb new pre col post r : table_rep t sealed wb -> zlen wb + zlen new < 2 ^ 63 ->
  schema_ t = pre ++ col :: post -> col_nullable col = false ->
  Forall (row_fits (pre ++ allow_null col :: post)) new -> r ∈ new -> r !! length pre = Some VNull ->
  exists e cols1 cf cols2, table_insert_many t new = (Err e, set_wb_columns t (cols1 ++ cf :: cols2)) /\
    length cols1 = length pre /\ Forall (fun cf => row_count cf = zlen wb + zlen new) cols1 /\
    Forall (fun cf => row_count cf = zlen wb) cols2.
Proof.
  intros Ht Hmax Hs Hnn Hfit Hr Hnull. pose proof (tr_wb _ _ _ Ht) as Hwb. pose proof (rows_rep_length _ _ _ Hwb) as Hlen.
  pose proof (columns_room (schema_ t) wb new Hmax) as Hroom. pose proof (column_batches_fit _ _ Hfit) as Hbf.
  unfold rows_rep in Hwb. rewrite Hs in Hwb, Hlen, Hroom.
  assert (Hlp : length (pre ++ allow_null col :: post) = length (pre ++ col :: post)) by (by rewrite !length_app).
  rewrite Hlp in Hbf. pose proof (batches_zlen (length (pre ++ col :: post)) wb) as Hbl.
  rewrite length_app in Hwb, Hroom, Hbf, Hbl. cbn [length] in Hwb, Hroom, Hbf, Hbl.
  destruct (column_batches_split (length pre) (length post) wb) as [vss2 Hv].
  destruct (column_batches_split (length pre) (length post) new) as [bss2 Hb].
  rewrite Hv in Hwb, Hroom, Hbl. rewrite Hb in Hroom, Hbf.
  apply Forall3_app_inv_l in Hwb as (cols1 & cols2' & vs1 & vs2 & Hcols & Hvs & H1 & H2).
  apply Forall3_cons_inv_l in H2 as (cf & cols2 & vs & vss2' & -> & -> & Hcf & H2).
  apply app_inj_1 in Hvs as [<- [= <- <-]];
    [|rewrite length_column_batches; by apply Forall3_length_lr in H1].
  apply Forall_app in Hbl as [_ Hbl]. apply Forall_cons in Hbl as [_ Hbl].
  apply Forall2_app_inv in Hbf as [Hf1 Hf2]; [|by rewrite length_column_batches].
  apply Forall2_cons in Hf2 as [Hfb _].
  destruct (append_cols_null pre col post cols1 cf cols2 _ _ bss2 _ _ H1 Hcf Hnn Hf1 Hfb) as (e & cols1' & cf' & Ha & Hrep).
  { apply list_elem_of_fmap. exists r. split; [|done]. by rewrite nth_lookup, Hnull. }
  { apply Forall2_app_inv in Hroom as [Hr1 Hr2]; [|by rewrite !length_column_batches].
    apply Forall2_cons in Hr2 as [Hr2 _]. apply Forall2_app; [done|]. by constructor. }
  exists e, cols1', cf', cols2. split_and!.
  - unfold table_insert_many. destruct new as [|r0 new0] eqn:Hnew; [by apply elem_of_nil in Hr|].
    rewrite <- Hnew in *. rewrite (rows_width (pre ++ allow_null col :: post)) by (done || congruence).
    rewrite Hlen, Hs, length_app, Hcols. cbn [length]. by rewrite Hb, Ha.
  - apply Forall3_length_lm in Hrep. done.
  - apply (columns_count _ _ _ _ Hrep); [|lia]. rewrite <- column_batches_app, <- zlen_app. apply batches_zlen.
  - apply (columns_count _ _ _ _ H2); [done|]. pose proof (zlen_nonneg new). lia.
Qed.

(** C39. A failed update is not undone. Take a table that holds the rows of [a] and an update whose new rows
    fit the schema except that one of them has NULL in the NOT NULL column [col]: the update reports an
    error, yet every old row it names is deleted, each write-buffer column before [col] has a cell for every
    new row and no column after [col] has one, so that the cells of a row no longer line up. *)
Theorem failed_update_loses_row t a ids new pre col post r :
  refines t a -> in_bounds (Spec.insert a new) -> Forall (in_u 64) ids ->
  schema_ t = pre ++ col :: post -> col_nullable col = false ->
  Forall (row_fits (pre ++ allow_null col :: post)) new -> r ∈ new -> r !! length pre = Some VNull ->
  exists e t' cols1 cf cols2, table_update_rows t ids new = (Err e, t') /\
    (forall id, id ∈ ids -> 0 <= id < zlen (Spec.rows a) -> is_row_deleted t' id = true) /\
    wb_columns_ t' = cols1 ++ cf :: cols2 /\ length cols1 = length pre /\
    Forall (fun c => row_count c = wb_rows t + zlen new) cols1 /\ Forall (fun c => row_count c = wb_rows t) cols2.
Proof.
  intros (sealed & wb & Ht & Hrows & _) Hb Hids Hs Hnn Hfit Hr Hnull. unfold in_bounds in Hb. cbn in Hb.
  rewrite <- Hrows, zlen_app in *. pose proof (zlen_nonneg new).
  destruct (mark_deleted_rep t sealed wb ids Ht) as (Ht1 & Hs1 & _ & Hd); [lia|done|].
  assert (Hlen : zlen wb <= zlen (all_rows sealed wb))
    by (unfold all_rows; rewrite zlen_app; pose proof (zlen_nonneg (concat sealed)); lia).
  destruct (insert_many_null _ sealed wb new pre col post r Ht1) as (e & cols1 & cf & cols2 & Hi & Hl & Hc1 & Hc2);
    [lia|congruence|done..|].
  rewrite (wb_rows_rep t sealed wb) by (done || lia).
  exists e, (set_wb_columns (table_mark_deleted t ids) (cols1 ++ cf :: cols2)), cols1, cf, cols2.
  split; [unfold table_update_rows; by rewrite Hi|]. split; [|done].
  intros id Hid Hrange. change (is_row_deleted (table_mark_deleted t ids) id = true).
  rewrite Hd by lia. apply orb_true_iff. right. apply bool_decide_eq_true. split; [lia|done].
Qed.

Lemma two_columns_created : exists t, table_create "d/t" "t" two_columns FLUSH_THRESHOLD no_files = Ok t /\
  refines t (Spec.mk [] ∅) /\ schema_ t = two_columns.
Proof.
  assert (Hsv : schema_valid two_columns).
  { constructor; [done| |repeat constructor; vm_compute; congruence].
    apply (bool_decide_unpack _). vm_compute. exact I. }
  destruct (table_create_rep "d/t" "t" two_columns FLUSH_THRESHOLD Hsv) as (t & Hc & Hr & Hs & Hd);
    [repeat constructor; discriminate|].
  exists t. split; [done|]. split; [|done]. exists [], []. split; [done|]. split; [done|]. intros gid Hg.
  rewrite Hd by done. by rewrite bool_decide_false.
Qed.

(** The update of the only row sets its NOT NULL column to NULL. *)
Lemma failed_update_loses_row_witness :
  exists e t', table_row_count one_row = 1 /\ is_row_deleted one_row 0 = false /\
    table_update_rows one_row [0] [[VI32 1; VNull]] = (Err e, t') /\
    is_row_deleted t' 0 = true /\ map row_count (wb_columns_ t') = [2; 1].
Proof.
  destruct two_columns_created as (t & Hc & Hr & Hs).
  destruct (insert_many_refines t _ [[VI32 1; VI32 1]] Hr) as (t1 & Hi & Hr1 & Hs1).
  { rewrite Hs. repeat constructor; vm_compute; congruence. }
  { vm_compute. reflexivity. }
  assert (He : one_row = t1) by (unfold one_row; rewrite Hc; cbn [ok_or]; by rewrite Hi). rewrite Hs in Hs1.
  destruct (failed_update_loses_row one_row (Spec.insert (Spec.mk [] ∅) [[VI32 1; VI32 1]]) [0] [[VI32 1; VNull]]
    one_column (mkColumn "b" INT32 false 0 None) [] [VI32 1; VNull])
    as (e & t' & cols1 & cf & cols2 & Hu & Hd & _).
  - by rewrite He.
  - vm_compute. reflexivity.
  - repeat constructor; vm_compute; congruence.
  - by rewrite He, Hs1.
  - reflexivity.
  - repeat constructor; vm_compute; congruence.
  - constructor.
  - reflexivity.
  - exists e, t'. split; [vm_compute; reflexivity|]. split; [vm_compute; reflexivity|]. split; [exact Hu|].
    split; [apply Hd; [constructor|vm_compute; split; congruence]|].
    rewrite (eq_refl : t' = snd (Err (A:=UpdateMeta) e, t')), <- Hu. vm_compute. reflexivity.
Defined.
