(* ===== verification/SelectionVector.v ===== *)
(** * Selection vectors

    [SelectionVector] and its [Builder] (src/src/executor/selection_vector.h,
    selection_vector.cpp): the list of physical row numbers a chunk shows, kept as a dense
    array, a bitmap or a list of ranges.  [for_each] is modelled by the list of indices it
    hands to its callback, in order; it is the abstract content of a selection vector, and
    every operation is proved against the operation on lists that it stands for. *)

From Stdlib Require Import SpecFloat.
From Stdlib Require Export Sorted.
From stdpp Require Import sorting.
From S2P Require Import Prelude.

(** ** Data *)

Inductive Repr : Type := DENSE | BITMAP | RANGES.

#[export] Instance Repr_eq_dec : EqDecision Repr.
Proof. solve_decision. Defined.

Record SelectionVector : Type := mkSel {
  sv_repr : Repr;
  sv_row_count : Z;
  sv_size : Z;
  sv_dense : list Z;
  sv_bitmap : bytes;
  sv_ranges : list (Z * Z)
}.

Record Builder : Type := mkBuilder {
  b_indices : list Z;
  b_run_count : Z;
  b_last : Z
}.

Definition empty_builder : Builder := mkBuilder [] 0 (wrap 32 (-1)).

Definition builder_append (b : Builder) (idx : Z) : Builder :=
  mkBuilder (b_indices b ++ [idx])
    (if (zlen (b_indices b) =? 0) || negb (idx =? wrap 32 (b_last b + 1))
     then wrap 32 (b_run_count b + 1) else b_run_count b)
    idx.

(** ** Bits of a byte *)

Fixpoint pos_ctz (p : positive) : Z :=
  match p with xO q => 1 + pos_ctz q | _ => 0 end.

(** [__builtin_ctz]; the code calls it on non-zero bytes only. *)
Definition ctz (b : Z) : Z := match b with Zpos p => pos_ctz p | _ => 0 end.

Fixpoint pos_popcount (p : positive) : Z :=
  match p with xO q => pos_popcount q | xI q => 1 + pos_popcount q | xH => 1 end.

(** [__builtin_popcount] *)
Definition popcount (b : Z) : Z := match b with Zpos p => pos_popcount p | _ => 0 end.

(** [while (b) { ... ctz(b) ...; b &= b - 1; }], with the bits it visits. *)
Fixpoint byte_bits (fuel : nat) (b : Z) : list Z :=
  match fuel with
  | O => []
  | S fuel => if b =? 0 then [] else ctz b :: byte_bits fuel (Z.land b (wrap 8 (b - 1)))
  end.

(** A byte has at most eight set bits. *)
Definition bits_of (b : Z) : list Z := byte_bits 8 b.

(** ** [for_each] *)

Fixpoint bitmap_indices (byte_idx : Z) (bm : bytes) : list Z :=
  match bm with
  | [] => []
  | b :: bm' =>
      map (fun bit => wrap 32 (byte_idx * 8 + bit)) (bits_of b) ++
      bitmap_indices (wrap 32 (byte_idx + 1)) bm'
  end.

Definition range_indices (r : Z * Z) : list Z :=
  map (fun i => wrap 32 (fst r + Z.of_nat i)) (seq 0 (Z.to_nat (snd r))).

Definition for_each (sv : SelectionVector) : list Z :=
  match sv_repr sv with
  | DENSE => sv_dense sv
  | BITMAP => bitmap_indices 0 (sv_bitmap sv)
  | RANGES => flat_map range_indices (sv_ranges sv)
  end.

(** ** Conversions.  [None]: a write past the end of the bitmap. *)

Fixpoint mark_indices (bm : bytes) (indices : list Z) : option bytes :=
  match indices with
  | [] => Some bm
  | idx :: rest =>
      if idx / 8 <? zlen bm then mark_indices (bit_set bm idx) rest else None
  end.

Definition indices_to_bitmap (indices : list Z) (row_count : Z) : option bytes :=
  mark_indices (zeros (wrap 32 (row_count + 7) / 8)) indices.

Fixpoint ranges_loop (start len prev : Z) (rest : list Z) : list (Z * Z) :=
  match rest with
  | [] => [(start, len)]
  | i :: rest' =>
      if i =? wrap 32 (prev + 1) then ranges_loop start (wrap 32 (len + 1)) i rest'
      else (start, len) :: ranges_loop i 1 i rest'
  end.

Definition indices_to_ranges (indices : list Z) : list (Z * Z) :=
  match indices with [] => [] | i :: rest => ranges_loop i 1 i rest end.

Definition from_dense (indices : list Z) (row_count : Z) : SelectionVector :=
  mkSel DENSE row_count (zlen indices) indices [] [].

Definition from_bitmap (bitmap : bytes) (row_count size : Z) : SelectionVector :=
  mkSel BITMAP row_count size [] bitmap [].

Definition ranges_total (ranges : list (Z * Z)) : Z :=
  fold_left (fun total r => wrap 64 (total + snd r)) ranges 0.

Definition from_ranges (ranges : list (Z * Z)) (row_count : Z) : SelectionVector :=
  mkSel RANGES row_count (ranges_total ranges) [] [] ranges.

(** ** [Builder::finalize] *)

(** [static_cast<double>(n)] *)
Definition double_of (n : Z) : spec_float := binary_normalize 53 1024 n 0 false.

(** The double nearest 0.9. *)
Definition BITMAP_DENSITY_THRESHOLD : spec_float :=
  binary_normalize 53 1024 8106479329266893 (-53) false.
Definition RANGES_AVG_RUN_THRESHOLD : spec_float := double_of 32.

Definition ratio_exceeds (a b : Z) (threshold : spec_float) : bool :=
  SFltb threshold (SFdiv 53 1024 (double_of a) (double_of b)).

Definition finalize (b : Builder) (row_count : Z) (order_matters : bool) :
    option SelectionVector :=
  let size := zlen (b_indices b) in
  let dense := mkSel DENSE row_count size (b_indices b) [] [] in
  if order_matters || (size =? 0) then Some dense
  else if ratio_exceeds size row_count BITMAP_DENSITY_THRESHOLD then
    let! bm := indices_to_bitmap (b_indices b) row_count in
    Some (mkSel BITMAP row_count size [] bm [])
  else if ratio_exceeds size (Z.max 1 (b_run_count b)) RANGES_AVG_RUN_THRESHOLD then
    let ranges := indices_to_ranges (b_indices b) in
    if zlen ranges * 8 <? size * 4 then Some (mkSel RANGES row_count size [] [] ranges)
    else Some dense
  else Some dense.

(** ** Access.  [None]: an assertion fails. *)

Fixpoint ranges_at (ranges : list (Z * Z)) (cumulative k : Z) : option Z :=
  match ranges with
  | [] => None
  | (start, len) :: rest =>
      if k <? cumulative + len then Some (wrap 32 (start + wrap 32 (k - cumulative)))
      else ranges_at rest (cumulative + len) k
  end.

Definition sel_at (sv : SelectionVector) (k : Z) : option Z :=
  if sv_size sv <=? k then None
  else
    match sv_repr sv with
    | DENSE => sv_dense sv !! Z.to_nat k
    | RANGES => ranges_at (sv_ranges sv) 0 k
    | BITMAP => None
    end.

(** ** [truncate] *)

(** [while (cur && taken < need)]: the lowest [need] set bits of a byte. *)
Fixpoint low_bits (fuel : nat) (cur taken need kept_bits : Z) : Z :=
  match fuel with
  | O => kept_bits
  | S fuel =>
      if negb (cur =? 0) && (taken <? need) then
        low_bits fuel (Z.land cur (wrap 8 (cur - 1))) (taken + 1) need
          (Z.lor kept_bits (wrap 8 (Z.shiftl 1 (ctz cur))))
      else kept_bits
  end.

Fixpoint truncate_bitmap (bm : bytes) (kept k : Z) : bytes :=
  match bm with
  | [] => []
  | b :: rest =>
      if kept + popcount b <=? k then b :: truncate_bitmap rest (kept + popcount b) k
      else low_bits 8 b 0 (wrap 32 (k - kept)) 0 :: zeros (zlen rest)
  end.

Fixpoint truncate_ranges (ranges : list (Z * Z)) (cumulative k : Z) : list (Z * Z) :=
  match ranges with
  | [] => []
  | (start, len) :: rest =>
      if cumulative + len <=? k then (start, len) :: truncate_ranges rest (cumulative + len) k
      else [(start, wrap 32 (k - cumulative))]
  end.

Definition sel_truncate (sv : SelectionVector) (k : Z) : SelectionVector :=
  if sv_size sv <=? k then sv
  else
    match sv_repr sv with
    | DENSE =>
        mkSel DENSE (sv_row_count sv) k (take (Z.to_nat k) (sv_dense sv)) (sv_bitmap sv)
          (sv_ranges sv)
    | BITMAP =>
        mkSel BITMAP (sv_row_count sv) k (sv_dense sv) (truncate_bitmap (sv_bitmap sv) 0 k)
          (sv_ranges sv)
    | RANGES =>
        mkSel RANGES (sv_row_count sv) k (sv_dense sv) (sv_bitmap sv)
          (truncate_ranges (sv_ranges sv) 0 k)
    end.

(** ** [drop_prefix] *)

(** The callback of the bitmap branch: keep what comes after the first [n]. *)
Fixpoint keep_after (indices : list Z) (seen n : Z) : list Z :=
  match indices with
  | [] => []
  | i :: rest => if n <=? seen then i :: keep_after rest (seen + 1) n
                 else keep_after rest (seen + 1) n
  end.

Fixpoint drop_ranges (ranges : list (Z * Z)) (to_skip : Z) : list (Z * Z) :=
  match ranges with
  | [] => []
  | (start, len) :: rest =>
      if len <=? to_skip then drop_ranges rest (to_skip - len)
      else (wrap 32 (start + wrap 32 to_skip), wrap 32 (len - wrap 32 to_skip)) :: rest
  end.

Definition sel_drop_prefix (sv : SelectionVector) (n : Z) : option SelectionVector :=
  if n =? 0 then Some sv
  else if sv_size sv <? n then None
  else
    let size := sv_size sv - n in
    Some (match sv_repr sv with
    | DENSE =>
        mkSel DENSE (sv_row_count sv) size (drop (Z.to_nat n) (sv_dense sv)) (sv_bitmap sv)
          (sv_ranges sv)
    | BITMAP =>
        mkSel DENSE (sv_row_count sv) size
          (keep_after (bitmap_indices 0 (sv_bitmap sv)) 0 n) [] (sv_ranges sv)
    | RANGES =>
        mkSel RANGES (sv_row_count sv) size (sv_dense sv) (sv_bitmap sv)
          (drop_ranges (sv_ranges sv) n)
    end).

Definition to_dense (sv : SelectionVector) : SelectionVector :=
  match sv_repr sv with
  | DENSE => sv
  | _ => from_dense (for_each sv) (sv_row_count sv)
  end.

(** ** Invariant *)

Definition range_ok (row_count : Z) (r : Z * Z) : Prop :=
  0 <= fst r /\ 0 <= snd r /\ fst r + snd r <= row_count.

Record sel_wf (sv : SelectionVector) : Prop := {
  sw_rows : in_u 32 (sv_row_count sv);
  sw_size : sv_size sv = zlen (for_each sv);
  sw_in : Forall (fun i => 0 <= i < sv_row_count sv) (for_each sv);
  sw_bitmap : sv_repr sv = BITMAP ->
    Forall is_byte (sv_bitmap sv) /\ zlen (sv_bitmap sv) < 2 ^ 29;
  sw_ranges : sv_repr sv = RANGES -> Forall (range_ok (sv_row_count sv)) (sv_ranges sv)
}.

(** ** Bits of a byte: facts decided by running through the 256 bytes *)

Lemma byte_cases (P : Z -> bool) :
  forallb P (map Z.of_nat (seq 0 256)) = true -> forall b, is_byte b -> P b = true.
Proof.
  rewrite forallb_forall. intros H b [Hb Hb']. apply H, in_map_iff.
  exists (Z.to_nat b). split; [lia|]. apply in_seq. lia.
Qed.

Definition bit_numbers : list Z := map Z.of_nat (seq 0 8).

Lemma byte_eq {A} `{EqDecision A} (f g : Z -> A) :
  forallb (fun b => bool_decide (f b = g b)) (map Z.of_nat (seq 0 256)) = true ->
  forall b, is_byte b -> f b = g b.
Proof. intros H b Hb. eapply bool_decide_eq_true_1, (byte_cases _ H b Hb). Qed.

Lemma bits_of_filter b : is_byte b -> bits_of b = List.filter (Z.testbit b) bit_numbers.
Proof. revert b. apply byte_eq. vm_compute. done. Qed.

Lemma popcount_bits b : is_byte b -> popcount b = zlen (bits_of b).
Proof. revert b. apply byte_eq. vm_compute. done. Qed.

Lemma low_bits_take b need : is_byte b -> 0 <= need < zlen (bits_of b) ->
  is_byte (low_bits 8 b 0 need 0) /\
  bits_of (low_bits 8 b 0 need 0) = take (Z.to_nat need) (bits_of b).
Proof.
  intros Hb Hn.
  assert (Hall : forall b, is_byte b -> forallb (fun k =>
    (0 <=? low_bits 8 b 0 k 0) && (low_bits 8 b 0 k 0 <? 256) &&
    bool_decide (bits_of (low_bits 8 b 0 k 0) = take (Z.to_nat k) (bits_of b)))
    bit_numbers = true).
  { apply byte_cases. vm_compute. done. }
  specialize (Hall b Hb). rewrite forallb_forall in Hall.
  assert (zlen (bits_of b) <= 8).
  { rewrite bits_of_filter by done. unfold zlen. pose proof (filter_length_le (Z.testbit b) bit_numbers).
    change (length bit_numbers) with 8%nat in *. lia. }
  specialize (Hall need). rewrite !andb_true_iff, Z.leb_le, Z.ltb_lt, bool_decide_eq_true in Hall.
  unfold in_u. change (2 ^ 8) with 256. apply Hall, in_map_iff.
  exists (Z.to_nat need). split; [lia|]. apply in_seq. lia.
Qed.

Lemma bits_of_zero : bits_of 0 = [].
Proof. done. Qed.

(** ** Lists in increasing order *)

Abbreviation increasing := (StronglySorted Z.lt).

Lemma increasing_ext l1 l2 : increasing l1 -> increasing l2 ->
  (forall i, In i l1 <-> In i l2) -> l1 = l2.
Proof.
  intros H1. revert l2. induction H1 as [|a l1 H1 IH Ha]; intros l2 H2 Hin.
  - destruct l2 as [|b l2]; [done|]. by destruct (proj2 (Hin b)); left.
  - destruct H2 as [|b l2 H2 Hb]; [by destruct (proj1 (Hin a)); left|].
    rewrite List.Forall_forall in Ha, Hb.
    assert (a = b) as ->.
    { destruct (proj1 (Hin a)) as [|Hab]; [by left|done|].
      destruct (proj2 (Hin b)) as [|Hba]; [by left|done|].
      pose proof (Ha b Hba). pose proof (Hb a Hab). lia. }
    f_equal. apply IH; [done|]. intros i. split; intros Hi.
    + destruct (proj1 (Hin i)) as [->|]; [by right| |done]. pose proof (Ha i Hi). lia.
    + destruct (proj2 (Hin i)) as [->|]; [by right| |done]. pose proof (Hb i Hi). lia.
Qed.

Lemma increasing_seq (off : Z) n s : increasing (map (fun k => off + Z.of_nat k) (seq s n)).
Proof.
  revert s. induction n as [|n IH]; intros s; simpl; constructor; [apply IH|].
  apply List.Forall_forall. intros x (k & <- & Hk)%in_map_iff. apply in_seq in Hk. lia.
Qed.

Lemma increasing_filter f l : increasing l -> increasing (List.filter f l).
Proof.
  induction 1 as [|a l H IH Ha]; simpl; [constructor|]. destruct (f a); [|done].
  constructor; [done|]. rewrite List.Forall_forall in *. intros x [Hx _]%filter_In. auto.
Qed.

(** ** Bitmaps *)

Lemma filter_map_comm {A B} (g : A -> B) (f : B -> bool) l :
  List.filter f (map g l) = map g (List.filter (fun x => f (g x)) l).
Proof. induction l as [|a l IH]; simpl; [done|]. destruct (f (g a)); simpl; by rewrite IH. Qed.

Lemma in_bits_of b k : is_byte b -> In k (bits_of b) <-> 0 <= k < 8 /\ Z.testbit b k = true.
Proof.
  intros Hb. rewrite bits_of_filter, filter_In by done. unfold bit_numbers. rewrite in_map_iff.
  split; intros [H1 H2]; (split; [|done]).
  - destruct H1 as (j & <- & Hj%in_seq). lia.
  - exists (Z.to_nat k). rewrite in_seq. lia.
Qed.

Lemma increasing_bits_of b : is_byte b -> increasing (bits_of b).
Proof.
  intros Hb. rewrite bits_of_filter by done. apply increasing_filter.
  apply (increasing_seq 0 8 0).
Qed.

Lemma increasing_shift off l : increasing l -> increasing (map (fun i => off + i) l).
Proof.
  induction 1 as [|a l H IH Ha]; simpl; constructor; [done|].
  rewrite List.Forall_forall in *. intros x (y & <- & Hy)%in_map_iff. pose proof (Ha y Hy). lia.
Qed.

Lemma byte_indices b k : is_byte b -> 0 <= k < 2 ^ 29 ->
  map (fun bit => wrap 32 (k * 8 + bit)) (bits_of b) = map (fun bit => 8 * k + bit) (bits_of b).
Proof.
  intros Hb Hk. apply map_ext_in. intros x [Hx _]%in_bits_of; [|done].
  rewrite wrap_id; [lia|]. unfold in_u. lia.
Qed.

Lemma bit_get_head b bm j : 0 <= j < 8 -> bit_get (b :: bm) j = Z.testbit b j.
Proof.
  intros Hj. rewrite bit_get_testbit by lia. unfold znth.
  by rewrite Z.div_small, Z.mod_small by lia.
Qed.

Lemma bit_get_tail b bm j : 8 <= j -> bit_get (b :: bm) j = bit_get bm (j - 8).
Proof.
  intros Hj. rewrite !bit_get_testbit by lia. unfold znth.
  replace ((j - 8) / 8) with (j / 8 - 1) by (Z.to_euclidean_division_equations; lia).
  replace ((j - 8) mod 8) with (j mod 8) by (Z.to_euclidean_division_equations; lia).
  assert (1 <= j / 8) by (Z.to_euclidean_division_equations; lia).
  replace (Z.to_nat (j / 8)) with (S (Z.to_nat (j / 8 - 1))) by lia. done.
Qed.

(** The indices of a bitmap are its set bits, in increasing order. *)
Lemma bitmap_indices_spec bm byte_idx :
  Forall is_byte bm -> 0 <= byte_idx -> byte_idx + zlen bm < 2 ^ 29 ->
  increasing (bitmap_indices byte_idx bm) /\
  (forall i, In i (bitmap_indices byte_idx bm) <->
     8 * byte_idx <= i < 8 * (byte_idx + zlen bm) /\ bit_get bm (i - 8 * byte_idx) = true).
Proof.
  intros Hbm. revert byte_idx. induction Hbm as [|b bm Hb Hbm IH]; intros k Hk Hlen.
  - split; [constructor|]. intros i. unfold zlen. simpl. lia.
  - rewrite zlen_cons in *. pose proof (zlen_nonneg bm). cbn [bitmap_indices].
    rewrite byte_indices, (wrap_id 32 (k + 1)) by (done || unfold in_u; lia).
    destruct (IH (k + 1)) as [IHs IHi]; [lia..|]. split.
    + apply StronglySorted_app. split_and!; [|by apply increasing_shift, increasing_bits_of|done].
      intros x y Hx Hy. apply list_elem_of_In, in_map_iff in Hx as (j & <- & Hj).
      apply in_bits_of in Hj; [|done]. apply list_elem_of_In, IHi in Hy. lia.
    + intros i. rewrite in_app_iff, IHi, in_map_iff. destruct (decide (i < 8 * (k + 1))) as [Hi|Hi].
      * split.
        -- intros [(j & <- & Hj)|?]; [|lia]. apply in_bits_of in Hj as [Hj Ht]; [|done].
           split; [lia|]. rewrite bit_get_head by lia. rewrite <- Ht. f_equal. lia.
        -- intros [Hr Hbit]. left. exists (i - 8 * k). split; [lia|].
           apply in_bits_of; [done|]. split; [lia|]. by rewrite bit_get_head in Hbit by lia.
      * split.
        -- intros [(j & <- & Hj)|[Hr Hbit]]; [apply in_bits_of in Hj; [lia|done]|]. split; [lia|].
           rewrite bit_get_tail by lia. rewrite <- Hbit. f_equal. lia.
        -- intros [Hr Hbit]. right. split; [lia|]. rewrite bit_get_tail in Hbit by lia.
           rewrite <- Hbit. f_equal. lia.
Qed.

Lemma mark_indices_spec indices bm :
  Forall is_byte bm -> Forall (fun i => 0 <= i < 8 * zlen bm) indices ->
  exists bm', mark_indices bm indices = Some bm' /\ Forall is_byte bm' /\ zlen bm' = zlen bm /\
    forall i, 0 <= i < 8 * zlen bm -> bit_get bm' i = true <-> bit_get bm i = true \/ In i indices.
Proof.
  revert bm. induction indices as [|a l IH]; intros bm Hbm Hin; simpl.
  - exists bm. split_and!; [done..|]. intros. tauto.
  - apply Forall_cons in Hin as [Ha Hin].
    assert (Hlen : zlen (bit_set bm a) = zlen bm) by (unfold zlen; by rewrite length_bit_set).
    assert (Hc : a / 8 < zlen bm) by (apply Z.div_lt_upper_bound; lia).
    rewrite (proj2 (Z.ltb_lt _ _) Hc).
    destruct (IH (bit_set bm a)) as (bm' & Hm & Hb & Hl & Hbits); [auto with nyx|by rewrite Hlen|].
    exists bm'. split_and!; [done..|congruence|]. intros i Hi. rewrite Hlen in Hbits.
    rewrite Hbits by done. rewrite bit_get_set by (unfold zlen in *; lia).
    rewrite orb_true_iff, bool_decide_eq_true. simpl. intuition congruence.
Qed.

Lemma bit_get_zeros n i : bit_get (zeros n) i = false.
Proof.
  unfold bit_get. rewrite (znth_Forall (fun b => b = 0) (zeros n)); [by rewrite Z.shiftr_0_l|done|].
  by apply Forall_replicate.
Qed.

Lemma bitmap_indices_zeros j n : bitmap_indices j (zeros n) = [].
Proof.
  unfold zeros. revert j. induction (Z.to_nat n) as [|m IH]; intros j; simpl; [done|]. apply IH.
Qed.

(** Marking an increasing list of rows in a bitmap and listing its bits gives it back. *)
Lemma bitmap_roundtrip indices row_count :
  0 <= row_count <= 2 ^ 32 - 8 -> increasing indices -> Forall (fun i => 0 <= i < row_count) indices ->
  exists bm, indices_to_bitmap indices row_count = Some bm /\ Forall is_byte bm /\
    zlen bm < 2 ^ 29 /\ bitmap_indices 0 bm = indices.
Proof.
  intros Hr Hs Hin. unfold indices_to_bitmap. rewrite wrap_id by (unfold in_u; lia).
  assert (Hz : zlen (zeros ((row_count + 7) / 8)) = (row_count + 7) / 8)
    by (apply zlen_zeros, Z.div_pos; lia).
  destruct (mark_indices_spec indices (zeros ((row_count + 7) / 8))) as (bm & Hm & Hb & Hl & Hbits).
  { auto with nyx. }
  { eapply Forall_impl; [done|]. cbv beta. rewrite Hz. intros. Z.to_euclidean_division_equations; lia. }
  rewrite Hz in *. exists bm.
  assert (Hl' : zlen bm < 2 ^ 29) by (rewrite Hl; apply Z.div_lt_upper_bound; lia).
  destruct (bitmap_indices_spec bm 0) as [Hs' Hi]; [done|lia..|].
  split_and!; [done..|]. apply increasing_ext; [done..|]. intros i.
  rewrite Hi, Z.mul_0_r, Z.sub_0_r, Z.add_0_l, Hl. split.
  - intros [Hr' Hbit]. apply Hbits in Hbit as [Hbit|]; [|done|lia]. by rewrite bit_get_zeros in Hbit.
  - intros Hi'. rewrite List.Forall_forall in Hin. pose proof (Hin i Hi').
    assert (i < 8 * ((row_count + 7) / 8)) by (Z.to_euclidean_division_equations; lia).
    split; [lia|]. apply Hbits; [lia|by right].
Qed.

(** ** Ranges *)

Lemma range_indices_ok rc r : rc < 2 ^ 32 -> range_ok rc r ->
  range_indices r = map (fun i => fst r + Z.of_nat i) (seq 0 (Z.to_nat (snd r))).
Proof.
  intros Hrc (H1 & H2 & H3). apply map_ext_in. intros i Hi%in_seq. apply wrap_id. unfold in_u. lia.
Qed.

Lemma zlen_range_indices r : 0 <= snd r -> zlen (range_indices r) = snd r.
Proof. intros. unfold zlen, range_indices. rewrite length_map, length_seq. lia. Qed.

Lemma range_indices_snoc rc s len : rc < 2 ^ 32 -> range_ok rc (s, len + 1) -> 0 <= len ->
  range_indices (s, len + 1) = range_indices (s, len) ++ [s + len].
Proof.
  intros Hrc Hr Hlen. rewrite !(range_indices_ok rc) by (done || unfold range_ok in *; simpl in *; lia).
  simpl. replace (Z.to_nat (len + 1)) with (Z.to_nat len + 1)%nat by lia.
  rewrite seq_app, map_app. simpl. do 2 f_equal. lia.
Qed.

Lemma ranges_loop_spec rc rest start len : rc < 2 ^ 32 -> 1 <= len -> range_ok rc (start, len) ->
  Forall (fun i => 0 <= i < rc) rest ->
  flat_map range_indices (ranges_loop start len (start + len - 1) rest) =
    range_indices (start, len) ++ rest /\
  Forall (range_ok rc) (ranges_loop start len (start + len - 1) rest).
Proof.
  intros Hrc. revert start len. induction rest as [|i rest IH]; intros start len Hlen Hr Hin.
  - simpl. rewrite !app_nil_r. split; [done|]. by apply Forall_singleton.
  - apply Forall_cons in Hin as [Hi Hin]. simpl. destruct Hr as (H1 & H2 & H3); simpl in *.
    rewrite wrap_id by (unfold in_u; lia). destruct (Z.eqb_spec i (start + len - 1 + 1)) as [->|].
    + rewrite wrap_id by (unfold in_u; lia).
      assert (Hr' : range_ok rc (start, len + 1)) by (unfold range_ok; simpl; lia).
      replace (start + len - 1 + 1) with (start + (len + 1) - 1) by lia.
      destruct (IH start (len + 1)) as [-> ?]; [lia|done..|]. split; [|done].
      rewrite (range_indices_snoc rc) by (done || lia). rewrite <- app_assoc.
      do 2 f_equal. simpl. f_equal. lia.
    + destruct (IH i 1) as [IH1 IH2]; [lia|unfold range_ok; simpl; lia|done|].
      replace (i + 1 - 1) with i in * by lia. simpl. rewrite IH1. split.
      * f_equal. rewrite (range_indices_ok rc) by (done || unfold range_ok; simpl; lia).
        simpl. f_equal. lia.
      * constructor; [|done]. unfold range_ok. simpl. lia.
Qed.

Lemma ranges_roundtrip rc indices : rc < 2 ^ 32 -> Forall (fun i => 0 <= i < rc) indices ->
  flat_map range_indices (indices_to_ranges indices) = indices /\
  Forall (range_ok rc) (indices_to_ranges indices).
Proof.
  intros Hrc Hin. destruct Hin as [|i l Hi Hin]; simpl; [done|].
  destruct (ranges_loop_spec rc l i 1) as [H1 H2]; [done|lia|unfold range_ok; simpl; lia|done|].
  replace (i + 1 - 1) with i in * by lia. rewrite H1. split; [|done].
  rewrite (range_indices_ok rc) by (done || unfold range_ok; simpl; lia). simpl. f_equal. lia.
Qed.

Lemma take_range rc s len k : rc < 2 ^ 32 -> range_ok rc (s, len) -> 0 <= k <= len ->
  range_indices (s, k) = take (Z.to_nat k) (range_indices (s, len)).
Proof.
  intros Hrc Hr Hk. rewrite !(range_indices_ok rc) by (done || unfold range_ok in *; simpl in *; lia).
  rewrite firstn_map, take_seq. simpl. do 2 f_equal. lia.
Qed.

Lemma drop_range rc s len k : rc < 2 ^ 32 -> range_ok rc (s, len) -> 0 <= k <= len ->
  range_indices (s + k, len - k) = drop (Z.to_nat k) (range_indices (s, len)).
Proof.
  intros Hrc Hr Hk. rewrite !(range_indices_ok rc) by (done || unfold range_ok in *; simpl in *; lia).
  rewrite skipn_map, drop_seq. simpl.
  replace (Z.to_nat len - Z.to_nat k)%nat with (Z.to_nat (len - k)) by lia.
  pose proof (fmap_add_seq (Z.to_nat k) 0 (Z.to_nat (len - k))) as Hseq.
  rewrite Nat.add_0_r in Hseq. rewrite <- Hseq. unfold fmap. rewrite map_map.
  apply map_ext. lia.
Qed.

(** ** The operations against lists *)

Lemma truncate_bitmap_spec bm byte_idx kept k :
  Forall is_byte bm -> 0 <= byte_idx -> byte_idx + zlen bm < 2 ^ 29 -> 0 <= k - kept < 2 ^ 32 ->
  Forall is_byte (truncate_bitmap bm kept k) /\ zlen (truncate_bitmap bm kept k) = zlen bm /\
  bitmap_indices byte_idx (truncate_bitmap bm kept k) =
    take (Z.to_nat (k - kept)) (bitmap_indices byte_idx bm).
Proof.
  intros Hbm. revert byte_idx kept. induction Hbm as [|b bm Hb Hbm IH]; intros j kept Hj Hlen Hk.
  - simpl. by rewrite take_nil.
  - pose proof (zlen_nonneg bm). pose proof (zlen_nonneg (bits_of b)). rewrite zlen_cons in Hlen.
    cbn [truncate_bitmap]. rewrite popcount_bits by done.
    destruct (Z.leb_spec (kept + zlen (bits_of b)) k) as [Hle|Hgt].
    + destruct (IH (j + 1) (kept + zlen (bits_of b))) as (H1 & H2 & H3); [lia..|].
      rewrite !zlen_cons, H2. split_and!; [by constructor|done|]. cbn [bitmap_indices].
      rewrite (wrap_id 32 (j + 1)), H3 by (unfold in_u; lia).
      rewrite take_app_ge by (rewrite length_map; unfold zlen in *; lia).
      f_equal. f_equal. rewrite length_map. unfold zlen in *. lia.
    + rewrite wrap_id by (unfold in_u; lia).
      destruct (low_bits_take b (k - kept) Hb) as [Hb' Htake]; [lia|].
      rewrite !zlen_cons, zlen_zeros by lia. split_and!; [constructor; auto with nyx|done|].
      cbn [bitmap_indices]. rewrite Htake, bitmap_indices_zeros, app_nil_r.
      rewrite take_app_le by (rewrite length_map; unfold zlen in *; lia). by rewrite firstn_map.
Qed.

Lemma truncate_ranges_spec rc ranges cumulative k :
  rc < 2 ^ 32 -> Forall (range_ok rc) ranges -> 0 <= k - cumulative ->
  Forall (range_ok rc) (truncate_ranges ranges cumulative k) /\
  flat_map range_indices (truncate_ranges ranges cumulative k) =
    take (Z.to_nat (k - cumulative)) (flat_map range_indices ranges).
Proof.
  intros Hrc Hr. revert cumulative. induction Hr as [|[s len] ranges Hr Hrs IH]; intros cum Hk.
  - simpl. by rewrite take_nil.
  - pose proof Hr as (H1 & H2 & H3). simpl in H1, H2, H3 |- *.
    pose proof (zlen_range_indices (s, len) H2) as Hl. unfold zlen in Hl. simpl in Hl.
    destruct (Z.leb_spec (cum + len) k) as [Hle|Hgt].
    + destruct (IH (cum + len)) as [IH1 IH2]; [lia|]. split; [by constructor|]. simpl.
      rewrite IH2, take_app_ge by lia. do 2 f_equal. lia.
    + rewrite wrap_id by (unfold in_u; lia). simpl. rewrite app_nil_r, take_app_le by lia.
      split; [apply Forall_singleton; unfold range_ok; simpl; lia|].
      by apply (take_range rc); [..|lia].
Qed.

Lemma drop_ranges_spec rc ranges n :
  rc < 2 ^ 32 -> Forall (range_ok rc) ranges -> 0 <= n ->
  Forall (range_ok rc) (drop_ranges ranges n) /\
  flat_map range_indices (drop_ranges ranges n) = drop (Z.to_nat n) (flat_map range_indices ranges).
Proof.
  intros Hrc Hr. revert n. induction Hr as [|[s len] ranges Hr Hrs IH]; intros n Hn.
  - simpl. by rewrite drop_nil.
  - pose proof Hr as (H1 & H2 & H3). simpl in H1, H2, H3 |- *.
    pose proof (zlen_range_indices (s, len) H2) as Hl. unfold zlen in Hl. simpl in Hl.
    destruct (Z.leb_spec len n) as [Hle|Hgt].
    + destruct (IH (n - len)) as [IH1 IH2]; [lia|]. split; [done|].
      rewrite IH2, drop_app_ge by lia. f_equal. lia.
    + rewrite !wrap_id by (unfold in_u in *; rewrite ?wrap_id; unfold in_u; lia).
      rewrite drop_app_le by lia. simpl.
      split; [constructor; [unfold range_ok; simpl; lia|done]|].
      f_equal. by apply (drop_range rc); [..|lia].
Qed.

Lemma keep_after_drop l seen n : 0 <= seen -> 0 <= n ->
  keep_after l seen n = drop (Z.to_nat (n - seen)) l.
Proof.
  revert seen. induction l as [|i l IH]; intros seen Hs Hn; simpl; [by rewrite drop_nil|].
  rewrite IH by lia. destruct (Z.leb_spec n seen).
  - replace (Z.to_nat (n - seen)) with 0%nat by lia.
    by replace (Z.to_nat (n - (seen + 1))) with 0%nat by lia.
  - by replace (Z.to_nat (n - seen)) with (S (Z.to_nat (n - (seen + 1)))) by lia.
Qed.

Lemma ranges_at_spec rc ranges cumulative k :
  rc < 2 ^ 32 -> Forall (range_ok rc) ranges -> 0 <= k - cumulative ->
  ranges_at ranges cumulative k = flat_map range_indices ranges !! Z.to_nat (k - cumulative).
Proof.
  intros Hrc Hr. revert cumulative. induction Hr as [|[s len] ranges Hr Hrs IH]; intros cum Hk; [done|].
  pose proof Hr as (H1 & H2 & H3). simpl in H1, H2, H3 |- *.
  pose proof (zlen_range_indices (s, len) H2) as Hl. unfold zlen in Hl. simpl in Hl.
  destruct (Z.ltb_spec k (cum + len)).
  - rewrite lookup_app_l by lia. rewrite (range_indices_ok rc) by done. simpl.
    rewrite !wrap_id by (unfold in_u in *; rewrite ?wrap_id; unfold in_u; lia).
    rewrite list_lookup_fmap, lookup_seq_lt by lia. simpl. f_equal. lia.
  - rewrite IH, lookup_app_r by lia. f_equal. lia.
Qed.

Lemma bitmap_indices_bound bm : Forall is_byte bm -> zlen bm < 2 ^ 29 ->
  zlen (bitmap_indices 0 bm) <= 2 ^ 32.
Proof.
  intros Hb Hl.
  assert (H : forall j, zlen (bitmap_indices j bm) <= 8 * zlen bm); [|specialize (H 0); lia].
  clear Hl. induction Hb as [|b bm Hb _ IH]; intros j; [done|].
  cbn [bitmap_indices]. rewrite zlen_app, zlen_cons. specialize (IH (wrap 32 (j + 1))).
  assert (zlen (map (fun bit => wrap 32 (j * 8 + bit)) (bits_of b)) <= 8); [|lia].
  unfold zlen. rewrite length_map, bits_of_filter by done.
  pose proof (filter_length_le (Z.testbit b) bit_numbers).
  change (length bit_numbers) with 8%nat in *. lia.
Qed.

(** A builder that holds the rows appended so far. *)
Lemma builder_indices l b : b_indices (fold_left builder_append l b) = b_indices b ++ l.
Proof.
  revert b. induction l as [|i l IH]; intros b; simpl; [by rewrite app_nil_r|].
  rewrite IH. simpl. by rewrite <- app_assoc.
Qed.

Lemma sel_wf_intro sv :
  in_u 32 (sv_row_count sv) -> sv_size sv = zlen (for_each sv) ->
  Forall (fun i => 0 <= i < sv_row_count sv) (for_each sv) ->
  match sv_repr sv with
  | DENSE => True
  | BITMAP => Forall is_byte (sv_bitmap sv) /\ zlen (sv_bitmap sv) < 2 ^ 29
  | RANGES => Forall (range_ok (sv_row_count sv)) (sv_ranges sv)
  end -> sel_wf sv.
Proof. intros ? ? ? Hr. split; [done..| |]; intros E; by rewrite E in Hr. Qed.

(** Every representation [finalize] may choose lists the rows that were appended. *)
Lemma finalize_ok b row_count order_matters :
  0 <= row_count <= 2 ^ 32 - 8 ->
  Forall (fun i => 0 <= i < row_count) (b_indices b) ->
  (order_matters = false -> increasing (b_indices b)) ->
  exists sv, finalize b row_count order_matters = Some sv /\ sel_wf sv /\
    sv_row_count sv = row_count /\ for_each sv = b_indices b.
Proof.
  intros Hrc Hin Hs.
  assert (Hd : exists sv, Some (mkSel DENSE row_count (zlen (b_indices b)) (b_indices b) [] []) = Some sv /\
    sel_wf sv /\ sv_row_count sv = row_count /\ for_each sv = b_indices b).
  { eexists. split_and!; [done| |done..]. apply sel_wf_intro; [unfold in_u; simpl; lia|done..]. }
  unfold finalize. cbv zeta. destruct order_matters; [exact Hd|]. cbn [orb].
  destruct (zlen (b_indices b) =? 0); [exact Hd|].
  destruct (ratio_exceeds _ row_count _).
  { destruct (bitmap_roundtrip (b_indices b) row_count) as (bm & -> & Hb & Hl & Hi); [auto..|].
    eexists. split_and!; [done| |done..]. unfold in_u.
    apply sel_wf_intro; unfold for_each; simpl; rewrite ?Hi; [unfold in_u; lia|done..]. }
  destruct (ratio_exceeds _ _ _); [|exact Hd]. destruct (_ <? _); [|exact Hd].
  destruct (ranges_roundtrip row_count (b_indices b)) as [Hi Hr]; [lia|done|].
  eexists. split_and!; [done| |done..].
  apply sel_wf_intro; unfold for_each; simpl; rewrite ?Hi; [unfold in_u; lia|done..].
Qed.

Lemma truncate_ok sv k : sel_wf sv -> 0 <= k ->
  sel_wf (sel_truncate sv k) /\ sv_row_count (sel_truncate sv k) = sv_row_count sv /\
  for_each (sel_truncate sv k) = take (Z.to_nat k) (for_each sv).
Proof.
  intros [Hrc Hsz Hin Hbm Hrg] Hk. unfold sel_truncate.
  destruct (Z.leb_spec (sv_size sv) k) as [Hle|Hgt].
  { split_and!; [done..|]. rewrite take_ge; [done|]. unfold zlen in Hsz. lia. }
  assert (Hlen : zlen (take (Z.to_nat k) (for_each sv)) = k).
  { unfold zlen in *. rewrite length_take. lia. }
  assert (Htake : Forall (fun i => 0 <= i < sv_row_count sv) (take (Z.to_nat k) (for_each sv)))
    by by apply Forall_take.
  unfold in_u in Hrc. unfold for_each in Hlen, Htake, Hsz |- *.
  destruct (sv_repr sv) eqn:Er.
  - split_and!; [|done..]. apply sel_wf_intro; unfold for_each; simpl; done.
  - destruct (Hbm eq_refl) as [Hb Hl]. assert (k < 2 ^ 32).
    { assert (zlen (bitmap_indices 0 (sv_bitmap sv)) <= 2 ^ 32); [|lia].
      by apply bitmap_indices_bound. }
    destruct (truncate_bitmap_spec (sv_bitmap sv) 0 0 k) as (H1 & H2 & H3); [done|lia..|].
    rewrite Z.sub_0_r in H3. simpl. split_and!; [|done..].
    apply sel_wf_intro; unfold for_each; simpl; rewrite ?H3, ?H2; done.
  - specialize (Hrg eq_refl).
    destruct (truncate_ranges_spec (sv_row_count sv) (sv_ranges sv) 0 k) as [H1 H2]; [lia|done|lia|].
    rewrite Z.sub_0_r in H2. simpl. split_and!; [|done..].
    apply sel_wf_intro; unfold for_each; simpl; rewrite ?H2; done.
Qed.

Lemma drop_prefix_ok sv n : sel_wf sv -> 0 <= n <= zlen (for_each sv) ->
  exists sv', sel_drop_prefix sv n = Some sv' /\ sel_wf sv' /\
    sv_row_count sv' = sv_row_count sv /\ for_each sv' = drop (Z.to_nat n) (for_each sv).
Proof.
  intros Hwf Hn. pose proof Hwf as [Hrc Hsz Hin Hbm Hrg]. unfold sel_drop_prefix.
  destruct (Z.eqb_spec n 0) as [->|]; [by exists sv|].
  rewrite (proj2 (Z.ltb_ge _ _)) by lia.
  assert (Hlen : zlen (drop (Z.to_nat n) (for_each sv)) = sv_size sv - n).
  { unfold zlen in *. rewrite length_drop. lia. }
  assert (Hdrop : Forall (fun i => 0 <= i < sv_row_count sv) (drop (Z.to_nat n) (for_each sv)))
    by by apply Forall_drop.
  eexists. split; [done|]. unfold in_u in Hrc. unfold for_each in Hlen, Hdrop, Hsz |- *.
  destruct (sv_repr sv) eqn:Er; simpl.
  - split_and!; [|done..]. apply sel_wf_intro; unfold for_each; simpl; done.
  - rewrite keep_after_drop, Z.sub_0_r by lia. split_and!; [|done..].
    apply sel_wf_intro; unfold for_each; simpl; done.
  - specialize (Hrg eq_refl).
    destruct (drop_ranges_spec (sv_row_count sv) (sv_ranges sv) n) as [H1 H2]; [lia|done|lia|].
    split_and!; [|done..]. apply sel_wf_intro; unfold for_each; simpl; rewrite ?H2; done.
Qed.

Lemma from_dense_wf indices row_count : in_u 32 row_count ->
  Forall (fun i => 0 <= i < row_count) indices -> sel_wf (from_dense indices row_count).
Proof. intros. by apply sel_wf_intro. Qed.

Lemma to_dense_ok sv : sel_wf sv ->
  sel_wf (to_dense sv) /\ sv_repr (to_dense sv) = DENSE /\
  sv_row_count (to_dense sv) = sv_row_count sv /\ for_each (to_dense sv) = for_each sv.
Proof.
  intros Hwf. pose proof Hwf as [Hrc Hsz Hin Hbm Hrg]. unfold to_dense.
  destruct (sv_repr sv) eqn:Er; (split_and!; [|done..]);
    [done|by apply from_dense_wf..].
Qed.

Lemma sel_at_ok sv k : sel_wf sv -> sv_repr sv <> BITMAP -> 0 <= k < zlen (for_each sv) ->
  sel_at sv k = for_each sv !! Z.to_nat k.
Proof.
  intros [Hrc Hsz Hin Hbm Hrg] Hr Hk. unfold sel_at. rewrite (proj2 (Z.leb_gt _ _)) by lia.
  unfold for_each. unfold in_u in Hrc. destruct (sv_repr sv) eqn:Er; [done..|].
  rewrite (ranges_at_spec (sv_row_count sv)), Z.sub_0_r by (done || lia || auto). done.
Qed.

(** ** Representation independence *)

Inductive sel_op : Type := OpTruncate (k : Z) | OpDrop (n : Z) | OpDense.

Definition sel_op_ok (o : sel_op) : Prop :=
  match o with OpTruncate k => 0 <= k | OpDrop n => 0 <= n | OpDense => True end.

Definition sel_step (sv : SelectionVector) (o : sel_op) : option SelectionVector :=
  match o with
  | OpTruncate k => Some (sel_truncate sv k)
  | OpDrop n => sel_drop_prefix sv n
  | OpDense => Some (to_dense sv)
  end.

(** The same calls on a list of rows; dropping more rows than there are is an error. *)
Definition list_step (l : list Z) (o : sel_op) : option (list Z) :=
  match o with
  | OpTruncate k => Some (take (Z.to_nat k) l)
  | OpDrop n => if zlen l <? n then None else Some (drop (Z.to_nat n) l)
  | OpDense => Some l
  end.

Fixpoint run_steps {A} (step : A -> sel_op -> option A) (a : A) (ops : list sel_op) : option A :=
  match ops with
  | [] => Some a
  | o :: ops' => let! a' := step a o in run_steps step a' ops'
  end.

Lemma sel_step_ok sv o : sel_wf sv -> sel_op_ok o ->
  match sel_step sv o with
  | Some sv' => sel_wf sv' /\ list_step (for_each sv) o = Some (for_each sv')
  | None => list_step (for_each sv) o = None
  end.
Proof.
  intros Hwf Ho. destruct o as [k|n|]; simpl in *.
  - destruct (truncate_ok sv k Hwf Ho) as (? & _ & ->). done.
  - destruct (Z.ltb_spec (zlen (for_each sv)) n) as [Hlt|Hge].
    + unfold sel_drop_prefix. rewrite (sw_size _ Hwf). pose proof (zlen_nonneg (for_each sv)).
      rewrite (proj2 (Z.eqb_neq _ _)), (proj2 (Z.ltb_lt _ _)) by lia. done.
    + destruct (drop_prefix_ok sv n Hwf) as (sv' & -> & ? & _ & ->); [lia|]. done.
  - destruct (to_dense_ok sv Hwf) as (? & _ & _ & ->). done.
Qed.

Lemma run_steps_ok ops sv : sel_wf sv -> Forall sel_op_ok ops ->
  option_map for_each (run_steps sel_step sv ops) = run_steps list_step (for_each sv) ops.
Proof.
  intros Hwf Hops. revert sv Hwf. induction Hops as [|o ops Ho _ IH]; intros sv Hwf; simpl; [done|].
  pose proof (sel_step_ok sv o Hwf Ho) as Hstep. destruct (sel_step sv o) as [sv'|].
  - destruct Hstep as [Hwf' ->]. by apply IH.
  - by rewrite Hstep.
Qed.

(** Whichever representation the builder chooses (from the floating-point density and
    average run length), any sequence of truncations, prefix drops and conversions shows the
    rows that the same operations on the plain list of selected rows show, and fails exactly
    where they fail. *)
Theorem selection_representation_independent rows row_count order_matters ops :
  0 <= row_count <= 2 ^ 32 - 8 ->
  Forall (fun i => 0 <= i < row_count) rows ->
  (order_matters = false -> increasing rows) ->
  Forall sel_op_ok ops ->
  exists sv, finalize (fold_left builder_append rows empty_builder) row_count order_matters = Some sv /\
    option_map for_each (run_steps sel_step sv ops) = run_steps list_step rows ops.
Proof.
  intros Hrc Hin Hs Hops.
  destruct (finalize_ok (fold_left builder_append rows empty_builder) row_count order_matters)
    as (sv & Hf & Hwf & _ & Hrows); rewrite ?builder_indices in *; [done..|].
  exists sv. split; [done|]. rewrite run_steps_ok, Hrows by done. done.
Qed.

Lemma selection_representation_independent_witness :
  exists sv, finalize (fold_left builder_append [0; 1; 2; 3; 5; 6; 7; 8; 9; 10; 11] empty_builder)
      12 false = Some sv /\ sv_repr sv = BITMAP /\
    option_map for_each (run_steps sel_step sv [OpTruncate 9; OpDrop 3; OpDense]) =
      Some [3; 5; 6; 7; 8; 9].
Proof.
  destruct (selection_representation_independent [0; 1; 2; 3; 5; 6; 7; 8; 9; 10; 11] 12 false
    [OpTruncate 9; OpDrop 3; OpDense]) as (sv & Hf & Hr).
  - lia.
  - repeat constructor; lia.
  - intros _. repeat constructor; lia.
  - repeat constructor; simpl; lia.
  - exists sv. split; [exact Hf|]. split.
    + vm_compute in Hf. by injection Hf as <-.
    + rewrite Hr. vm_compute. reflexivity.
Defined.
