(* ===== verification/ColumnVector.v ===== *)
(** * Column vectors

    [ColumnVector] (src/src/executor/column_vector.h): the values of one column of a chunk, as
    a byte array (or an array of strings for VARCHAR) and a null bitmap.  An operation returns
    [None] where the code fails an assertion or leaves the bounds of an array; the theorems
    show that this does not happen.  The abstract content is the list [cv_values] of values;
    [cv_wf] is the invariant of the arrays. *)

From S2P Require Import Prelude Types SelectionVector.

(** ** Arrays with bounds *)

Definition load (off n : Z) (l : bytes) : option bytes :=
  if off + n <=? zlen l then Some (slice off n l) else None.

Definition store (off : Z) (src l : bytes) : option bytes :=
  if off + zlen src <=? zlen l then Some (splice off src l) else None.

Definition bm_test (bm : bytes) (i : Z) : option bool :=
  if i / 8 <? zlen bm then Some (bit_get bm i) else None.

Definition bm_mark (bm : bytes) (i : Z) : option bytes :=
  if i / 8 <? zlen bm then Some (bit_set bm i) else None.

Definition bm_unmark (bm : bytes) (i : Z) : option bytes :=
  if i / 8 <? zlen bm then Some (bit_clear bm i) else None.

(** [v.resize(n, d)] of a [std::vector]. *)
Definition vec_resize {A} (d : A) (n : Z) (l : list A) : list A :=
  take (Z.to_nat n) l ++ replicate (Z.to_nat n - length l) d.

(** [assert(b); k] *)
Notation "'assert' b 'in' k" := (if b then k else None)
  (at level 10, b at level 100, k at level 200) : nyx_scope.

(** A loop over a list, and over [i, i + 1, ..., i + n - 1]. *)
Fixpoint each {A S} (l : list A) (body : A -> S -> option S) (s : S) : option S :=
  match l with
  | [] => Some s
  | a :: l' => let! s' := body a s in each l' body s'
  end.

Definition zrange (i n : Z) : list Z := map (fun k => i + Z.of_nat k) (seq 0 (Z.to_nat n)).

(** ** The vector *)

Record ColumnVector : Type := mkCV {
  cv_type : TypeId;
  cv_nullable : bool;
  cv_has_nulls : bool;
  cv_size : Z;
  cv_data : bytes;
  cv_str : list string;
  cv_nulls : bytes
}.

Definition with_data (cv : ColumnVector) (d : bytes) : ColumnVector :=
  mkCV (cv_type cv) (cv_nullable cv) (cv_has_nulls cv) (cv_size cv) d (cv_str cv) (cv_nulls cv).
Definition with_str (cv : ColumnVector) (s : list string) : ColumnVector :=
  mkCV (cv_type cv) (cv_nullable cv) (cv_has_nulls cv) (cv_size cv) (cv_data cv) s (cv_nulls cv).
Definition with_nulls (cv : ColumnVector) (b : bytes) : ColumnVector :=
  mkCV (cv_type cv) (cv_nullable cv) (cv_has_nulls cv) (cv_size cv) (cv_data cv) (cv_str cv) b.
Definition with_size (cv : ColumnVector) (n : Z) : ColumnVector :=
  mkCV (cv_type cv) (cv_nullable cv) (cv_has_nulls cv) n (cv_data cv) (cv_str cv) (cv_nulls cv).
Definition set_has_nulls (cv : ColumnVector) (v : bool) : ColumnVector :=
  mkCV (cv_type cv) (cv_nullable cv) v (cv_size cv) (cv_data cv) (cv_str cv) (cv_nulls cv).

Definition is_varchar (t : TypeId) : bool := match t with VARCHAR => true | _ => false end.

(** [type_size(type_)]: the maximal length defaults to 0. *)
Definition elem_size (t : TypeId) : Z := type_size t 0.

Definition cv_resize (cv : ColumnVector) (n : Z) : ColumnVector :=
  let cv :=
    if is_varchar (cv_type cv) then with_str cv (vec_resize EmptyString n (cv_str cv))
    else with_data cv (vec_resize 0 (n * elem_size (cv_type cv)) (cv_data cv)) in
  let cv :=
    if cv_nullable cv then with_nulls cv (vec_resize 0 ((n + 7) / 8) (cv_nulls cv)) else cv in
  with_size cv n.

(** [empty]: reserving capacity has no effect on the content. *)
Definition cv_empty (t : TypeId) (nullable : bool) : ColumnVector :=
  mkCV t nullable false 0 [] [] [].

Definition cv_make (t : TypeId) (size : Z) (nullable : bool) : ColumnVector :=
  cv_resize (cv_empty t nullable) size.

Definition cv_is_null (cv : ColumnVector) (i : Z) : option bool :=
  assert (i <? cv_size cv) in
  if cv_nullable cv then bm_test (cv_nulls cv) i else Some false.

(** The bytes of slot [i], for the accessors of a fixed-size type [t]. *)
Definition get_slot (t : TypeId) (cv : ColumnVector) (i : Z) : option bytes :=
  assert (bool_decide (cv_type cv = t)) in
  assert (i <? cv_size cv) in
  let! null := cv_is_null cv i in
  assert (negb null) in
  load (i * elem_size t) (elem_size t) (cv_data cv).

Definition cv_get_i32 cv i := let! b := get_slot INT32 cv i in Some (signed 32 (le_val b)).
Definition cv_get_i64 cv i := let! b := get_slot INT64 cv i in Some (signed 64 (le_val b)).
Definition cv_get_f64 cv i := let! b := get_slot DOUBLE cv i in Some (le_val b).
Definition cv_get_bool cv i := let! b := get_slot BOOL cv i in Some (negb (le_val b =? 0)).
Definition cv_get_date cv i := let! b := get_slot DATE cv i in Some (signed 32 (le_val b)).
Definition cv_get_timestamp cv i := let! b := get_slot TIMESTAMP cv i in Some (signed 64 (le_val b)).

Definition cv_get_str (cv : ColumnVector) (i : Z) : option string :=
  assert (bool_decide (cv_type cv = VARCHAR)) in
  assert (i <? cv_size cv) in
  cv_str cv !! Z.to_nat i.

(** [if (nullable_) null_bitmap_[i / 8] &= ~(1u << (i % 8))] *)
Definition clear_null (cv : ColumnVector) (i : Z) : option ColumnVector :=
  if cv_nullable cv then let! bm := bm_unmark (cv_nulls cv) i in Some (with_nulls cv bm)
  else Some cv.

Definition set_slot (t : TypeId) (cv : ColumnVector) (i : Z) (v : bytes) : option ColumnVector :=
  assert (bool_decide (cv_type cv = t)) in
  assert (i <? cv_size cv) in
  let! d := store (i * elem_size t) v (cv_data cv) in
  clear_null (with_data cv d) i.

Definition set_i32 cv i v := set_slot INT32 cv i (le_bytes 4 v).
Definition set_i64 cv i v := set_slot INT64 cv i (le_bytes 8 v).
Definition set_f64 cv i v := set_slot DOUBLE cv i (le_bytes 8 v).
Definition set_bool cv i (v : bool) := set_slot BOOL cv i [if v then 1 else 0].
Definition set_date cv i v := set_slot DATE cv i (le_bytes 4 v).
Definition set_timestamp cv i v := set_slot TIMESTAMP cv i (le_bytes 8 v).

Definition set_str (cv : ColumnVector) (i : Z) (s : string) : option ColumnVector :=
  assert (bool_decide (cv_type cv = VARCHAR)) in
  assert (i <? cv_size cv) in
  assert (i <? zlen (cv_str cv)) in
  clear_null (with_str cv (<[Z.to_nat i := s]> (cv_str cv))) i.

Definition set_null (cv : ColumnVector) (i : Z) : option ColumnVector :=
  assert (cv_nullable cv) in
  assert (i <? cv_size cv) in
  let! bm := bm_mark (cv_nulls cv) i in
  Some (set_has_nulls (with_nulls cv bm) true).

Definition append_slot (t : TypeId) (cv : ColumnVector) (v : bytes) : option ColumnVector :=
  assert (bool_decide (cv_type cv = t)) in
  let old := cv_size cv in
  let cv := cv_resize cv (old + 1) in
  let! d := store (old * elem_size t) v (cv_data cv) in
  Some (with_data cv d).

Definition cv_append_i32 cv v := append_slot INT32 cv (le_bytes 4 v).
Definition cv_append_i64 cv v := append_slot INT64 cv (le_bytes 8 v).
Definition cv_append_f64 cv v := append_slot DOUBLE cv (le_bytes 8 v).
Definition cv_append_bool cv (v : bool) := append_slot BOOL cv [if v then 1 else 0].
Definition cv_append_date cv v := append_slot DATE cv (le_bytes 4 v).
Definition cv_append_timestamp cv v := append_slot TIMESTAMP cv (le_bytes 8 v).

Definition cv_append_str (cv : ColumnVector) (s : string) : option ColumnVector :=
  assert (bool_decide (cv_type cv = VARCHAR)) in
  let cv := with_str cv (cv_str cv ++ [s]) in
  let n := zlen (cv_str cv) in
  let cv := if cv_nullable cv then with_nulls cv (vec_resize 0 ((n + 7) / 8) (cv_nulls cv))
            else cv in
  Some (with_size cv n).

Definition cv_append_null (cv : ColumnVector) : option ColumnVector :=
  assert (cv_nullable cv) in
  let old := cv_size cv in
  let cv := cv_resize cv (old + 1) in
  let! bm := bm_mark (cv_nulls cv) old in
  Some (set_has_nulls (with_nulls cv bm) true).

(** ** Moving values *)

(** [null_bitmap_[dst] = null_bitmap_[src]], as the copying loops write it. *)
Definition move_null (bm : bytes) (src dst : Z) : option bytes :=
  let! src_null := bm_test bm src in
  let! bm := bm_unmark bm dst in
  if src_null then bm_mark bm dst else Some bm.

(** The loop that shifts the null bits down by [n]. *)
Definition shift_nulls (bm : bytes) (n new_size : Z) : option bytes :=
  each (zrange 0 new_size) (fun i bm => move_null bm (i + n) i) bm.

Definition cv_drop_prefix (cv : ColumnVector) (n : Z) : option ColumnVector :=
  assert (n <=? cv_size cv) in
  if n =? 0 then Some cv
  else
    let new_size := cv_size cv - n in
    if is_varchar (cv_type cv) then
      assert (n <=? zlen (cv_str cv)) in
      let cv := with_str cv (drop (Z.to_nat n) (cv_str cv)) in
      let! cv :=
        if cv_nullable cv then
          let! bm := shift_nulls (cv_nulls cv) n new_size in
          Some (with_nulls cv (vec_resize 0 ((new_size + 7) / 8) bm))
        else Some cv in
      Some (with_size cv new_size)
    else
      let bytes := elem_size (cv_type cv) in
      let! cv :=
        if new_size >? 0 then
          let! d := load (n * bytes) (new_size * bytes) (cv_data cv) in
          let! d := store 0 d (cv_data cv) in
          Some (with_data cv d)
        else Some cv in
      let! cv :=
        if cv_nullable cv then
          let! bm := shift_nulls (cv_nulls cv) n new_size in Some (with_nulls cv bm)
        else Some cv in
      Some (cv_resize cv new_size).

(** Does the mask keep row [r]?  [!mask.is_null(r) && mask.cv_get_i32(r) != 0] *)
Definition mask_keeps (mask : ColumnVector) (r : Z) : option bool :=
  let! null := cv_is_null mask r in
  if null then Some false
  else let! v := cv_get_i32 mask r in Some (negb (v =? 0)).

(** Copy slot [r] over slot [w]; a moved-from [std::string] is left empty. *)
Definition move_slot (cv : ColumnVector) (r w : Z) : option ColumnVector :=
  let! cv :=
    if is_varchar (cv_type cv) then
      let! s := cv_str cv !! Z.to_nat r in
      assert (w <? zlen (cv_str cv)) in
      Some (with_str cv (<[Z.to_nat w := s]> (<[Z.to_nat r := EmptyString]> (cv_str cv))))
    else
      let bytes := elem_size (cv_type cv) in
      let! b := load (r * bytes) bytes (cv_data cv) in
      let! d := store (w * bytes) b (cv_data cv) in
      Some (with_data cv d) in
  if cv_nullable cv then
    let! bm := move_null (cv_nulls cv) r w in Some (with_nulls cv bm)
  else Some cv.

(** One round of the compaction loop: keep row [r], or not; [w] is the write position. *)
Definition compact_body (mask : ColumnVector) (r : Z) (st : ColumnVector * Z) :
    option (ColumnVector * Z) :=
  let '(cv, w) := st in
  let! keep := mask_keeps mask r in
  if keep : bool then
    let! cv := if negb (w =? r) then move_slot cv r w else Some cv in
    Some (cv, w + 1)
  else Some (cv, w).

Definition cv_compact_in_place (cv mask : ColumnVector) : option ColumnVector :=
  assert (bool_decide (cv_type mask = INT32)) in
  assert (cv_size mask =? cv_size cv) in
  let! (cv, w) := each (zrange 0 (cv_size cv)) (compact_body mask) (cv, 0) in
  Some (cv_resize cv w).

(** The value bytes (or the string) of slot [phys] of [src] to slot [out_idx] of [out]. *)
Definition copy_slot (src : ColumnVector) (phys : Z) (out : ColumnVector) (out_idx : Z) :
    option ColumnVector :=
  if is_varchar (cv_type src) then
    let! s := cv_str src !! Z.to_nat phys in
    assert (out_idx <? zlen (cv_str out)) in
    Some (with_str out (<[Z.to_nat out_idx := s]> (cv_str out)))
  else
    let bytes := elem_size (cv_type src) in
    let! b := load (phys * bytes) bytes (cv_data src) in
    let! d := store (out_idx * bytes) b (cv_data out) in
    Some (with_data out d).

(** The callback of [gather_via_sel]. *)
Definition gather_slot (src : ColumnVector) (phys : Z) (st : ColumnVector * Z) :
    option (ColumnVector * Z) :=
  let '(out, out_idx) := st in
  let! out := copy_slot src phys out out_idx in
  let! null := if cv_nullable src then bm_test (cv_nulls src) phys else Some false in
  if null : bool then
    let! bm := bm_mark (cv_nulls out) out_idx in
    Some (set_has_nulls (with_nulls out bm) true, out_idx + 1)
  else Some (out, out_idx + 1).

Definition gather_via_sel (src : ColumnVector) (sel : SelectionVector) : option ColumnVector :=
  let! (out, _) :=
    each (for_each sel) (gather_slot src) (cv_make (cv_type src) (sv_size sel) (cv_nullable src), 0) in
  Some out.

(** ** Content and invariant *)

Definition is_vec_type (t : TypeId) : bool :=
  match t with INVALID | TypeOther _ => false | _ => true end.

(** The value that the bytes of a slot stand for. *)
Definition decode (t : TypeId) (bs : bytes) : Value :=
  match t with
  | INT32 => VI32 (signed 32 (le_val bs))
  | INT64 => VI64 (signed 64 (le_val bs))
  | DOUBLE => VF64 (le_val bs)
  | BOOL => VBool (negb (le_val bs =? 0))
  | DATE => VDate (signed 32 (le_val bs))
  | TIMESTAMP => VTimestamp (signed 64 (le_val bs))
  | _ => VNull
  end.

Definition raw (cv : ColumnVector) (i : Z) : Value :=
  if is_varchar (cv_type cv) then VStr (nth (Z.to_nat i) (cv_str cv) EmptyString)
  else decode (cv_type cv) (slice (i * elem_size (cv_type cv)) (elem_size (cv_type cv)) (cv_data cv)).

Definition null_at (cv : ColumnVector) (i : Z) : bool :=
  cv_nullable cv && bit_get (cv_nulls cv) i.

Definition cell (cv : ColumnVector) (i : Z) : Value :=
  if null_at cv i then VNull else raw cv i.

Definition cv_values (cv : ColumnVector) : list Value := map (cell cv) (zrange 0 (cv_size cv)).

(** A byte of a slot: the bytes of a BOOL are 0 and 1. *)
Definition byte_ok (t : TypeId) (b : Z) : Prop := is_byte b /\ (t = BOOL -> b = 0 \/ b = 1).

Record cv_wf (cv : ColumnVector) : Prop := {
  cw_type : is_vec_type (cv_type cv) = true;
  cw_size : 0 <= cv_size cv;
  cw_data : is_varchar (cv_type cv) = false ->
    zlen (cv_data cv) = cv_size cv * elem_size (cv_type cv) /\
    Forall (byte_ok (cv_type cv)) (cv_data cv);
  cw_str : is_varchar (cv_type cv) = true -> zlen (cv_str cv) = cv_size cv;
  cw_nulls : cv_nullable cv = true ->
    zlen (cv_nulls cv) = (cv_size cv + 7) / 8 /\ Forall is_byte (cv_nulls cv)
}.

(** No null bit is set past the last row: what [append_*] relies on. *)
Definition cv_clean (cv : ColumnVector) : Prop :=
  cv_nullable cv = true -> forall i, cv_size cv <= i -> bit_get (cv_nulls cv) i = false.

Definition same_header (cv cv' : ColumnVector) : Prop :=
  cv_type cv' = cv_type cv /\ cv_nullable cv' = cv_nullable cv.

(** [cv'] is [cv] with slot [i] showing [v]. *)
Record wrote (cv cv' : ColumnVector) (i : Z) (v : Value) : Prop := {
  wr_wf : cv_wf cv';
  wr_header : same_header cv cv';
  wr_size : cv_size cv' = cv_size cv;
  wr_at : cell cv' i = v;
  wr_other j : 0 <= j < cv_size cv -> j <> i -> cell cv' j = cell cv j
}.

(** A value that a vector of type [t] can hold. *)
Definition vec_value (t : TypeId) (v : Value) : Prop :=
  v = VNull \/ (variant_type v = t /\ value_wf v).

(** ** Loops *)

Lemma each_inv {A St} (Inv : nat -> St -> Prop) (l : list A) body s :
  Inv 0%nat s ->
  (forall k a s, l !! k = Some a -> Inv k s -> exists s', body a s = Some s' /\ Inv (S k) s') ->
  exists s', each l body s = Some s' /\ Inv (length l) s'.
Proof.
  revert Inv s. induction l as [|a l IH]; intros Inv s H0 Hstep; simpl; [by exists s|].
  destruct (Hstep 0%nat a s) as (s1 & -> & H1); [done..|].
  apply (IH (fun k => Inv (S k))); [done|]. intros k b s2 Hk. apply (Hstep (S k)). done.
Qed.

Lemma lookup_zrange i n k : 0 <= n -> (k < Z.to_nat n)%nat ->
  zrange i n !! k = Some (i + Z.of_nat k).
Proof.
  intros Hn Hk. unfold zrange. rewrite list_lookup_fmap, lookup_seq_lt by done. done.
Qed.

Lemma lookup_zrange_Some i n k a : zrange i n !! k = Some a ->
  a = i + Z.of_nat k /\ (k < Z.to_nat n)%nat.
Proof.
  unfold zrange. rewrite list_lookup_fmap, fmap_Some. intros (j & Hj & ->).
  apply lookup_seq in Hj as [-> ?]. split; [lia|done].
Qed.

Lemma length_zrange i n : length (zrange i n) = Z.to_nat n.
Proof. unfold zrange. by rewrite length_map, length_seq. Qed.

(** A loop over [0 .. n - 1] that keeps an invariant. *)
Lemma loop_inv {St} (Inv : Z -> St -> Prop) n body s : 0 <= n ->
  Inv 0 s ->
  (forall i s, 0 <= i < n -> Inv i s -> exists s', body i s = Some s' /\ Inv (i + 1) s') ->
  exists s', each (zrange 0 n) body s = Some s' /\ Inv n s'.
Proof.
  intros Hn H0 Hstep.
  destruct (each_inv (fun k => Inv (Z.of_nat k)) (zrange 0 n) body s) as (s' & Hs & Hinv); [done| |].
  - intros k a s1 [-> Hk]%lookup_zrange_Some Hinv. rewrite Z.add_0_l.
    destruct (Hstep (Z.of_nat k) s1) as (s' & Hs & Hinv'); [lia|done|].
    exists s'. split; [done|]. by replace (Z.of_nat (S k)) with (Z.of_nat k + 1) by lia.
  - exists s'. split; [done|]. rewrite length_zrange in Hinv.
    by replace n with (Z.of_nat (Z.to_nat n)) by lia.
Qed.

Lemma zlen_zrange i n : 0 <= n -> zlen (zrange i n) = n.
Proof. intros. unfold zlen. rewrite length_zrange. lia. Qed.

Lemma length_cv_values cv : length (cv_values cv) = Z.to_nat (cv_size cv).
Proof. unfold cv_values. by rewrite length_map, length_zrange. Qed.

Lemma lookup_cv_values cv k : (k < Z.to_nat (cv_size cv))%nat ->
  cv_values cv !! k = Some (cell cv (Z.of_nat k)).
Proof.
  intros Hk. unfold cv_values. rewrite list_lookup_fmap, lookup_zrange by lia. done.
Qed.

Lemma cv_values_eq cv vs : cv_size cv = zlen vs ->
  (forall k v, vs !! k = Some v -> cell cv (Z.of_nat k) = v) -> cv_values cv = vs.
Proof.
  intros Hsz Hc. apply list_eq. intros k. unfold zlen in Hsz.
  destruct (vs !! k) as [v|] eqn:E.
  - rewrite lookup_cv_values; [f_equal; auto|]. apply lookup_lt_Some in E. lia.
  - apply lookup_ge_None in E. apply lookup_ge_None. rewrite length_cv_values. lia.
Qed.

(** ** Resizing arrays *)

Lemma zlen_vec_resize {A} (d : A) n l : 0 <= n -> zlen (vec_resize d n l) = n.
Proof.
  intros. unfold zlen, vec_resize. rewrite length_app, length_take, length_replicate. lia.
Qed.

Lemma slice_vec_resize {A} (d : A) n l off k : 0 <= off -> 0 <= k -> off + k <= n -> off + k <= zlen l ->
  slice off k (vec_resize d n l) = slice off k l.
Proof.
  intros Ho Hk Hn Hl. unfold slice, vec_resize, zlen in *.
  rewrite drop_app_le by (rewrite length_take; lia).
  rewrite take_app_le by (rewrite length_drop, length_take; lia).
  rewrite skipn_firstn_comm, take_take. f_equal. lia.
Qed.

Lemma nth_replicate_default {A} (d : A) n i : nth i (replicate n d) d = d.
Proof. revert i. induction n as [|n IH]; intros [|i]; simpl; auto. Qed.

Lemma nth_take {A} (d : A) n l i : (i < n)%nat -> nth i (take n l) d = nth i l d.
Proof.
  revert n i. induction l as [|a l IH]; intros n i Hi; [by rewrite take_nil|].
  destruct n, i; simpl; [lia..|done|]. apply IH. lia.
Qed.

Lemma nth_vec_resize {A} (d : A) n l i : nth i (vec_resize d n l) d =
  if decide (i < Z.to_nat n)%nat then nth i l d else d.
Proof.
  unfold vec_resize. destruct (Nat.lt_ge_cases i (length (take (Z.to_nat n) l))) as [Hi|Hi].
  - rewrite app_nth1 by done. rewrite length_take in Hi. rewrite decide_True by lia.
    by rewrite nth_take by lia.
  - rewrite app_nth2, nth_replicate_default by done. rewrite length_take in Hi. case_decide; [|done].
    symmetry. apply nth_overflow. lia.
Qed.

Lemma Forall_vec_resize {A} (P : A -> Prop) d n l : P d -> Forall P l -> Forall P (vec_resize d n l).
Proof.
  intros Hd Hl. apply Forall_app. split; [by apply Forall_take|]. by apply Forall_replicate.
Qed.

Lemma bit_get_vec_resize bm n i : 0 <= i -> 0 <= n ->
  bit_get (vec_resize 0 n bm) i = bool_decide (i < 8 * n) && bit_get bm i.
Proof.
  intros Hi Hn. unfold bit_get, znth. rewrite nth_vec_resize.
  assert (0 <= i / 8) by (apply Z.div_pos; lia).
  case_decide as Hd; case_bool_decide as Hb; cbn [andb].
  - done.
  - exfalso. apply Hb. assert (i / 8 < n) by lia. zlia.
  - exfalso. apply Hd. assert (i / 8 < n) by (apply Z.div_lt_upper_bound; lia). lia.
  - by rewrite Z.shiftr_0_l.
Qed.

(** ** Slots *)

Lemma elem_size_pos t : is_vec_type t = true -> is_varchar t = false -> 0 < elem_size t.
Proof. by destruct t. Qed.

Lemma slot_in_data cv i : cv_wf cv -> is_varchar (cv_type cv) = false -> 0 <= i < cv_size cv ->
  0 <= i * elem_size (cv_type cv) /\
  i * elem_size (cv_type cv) + elem_size (cv_type cv) <= zlen (cv_data cv).
Proof.
  intros Hwf Hv Hi. destruct (cw_data _ Hwf Hv) as [-> _].
  pose proof (elem_size_pos _ (cw_type _ Hwf) Hv). nia.
Qed.

Lemma load_slot cv i : cv_wf cv -> is_varchar (cv_type cv) = false -> 0 <= i < cv_size cv ->
  load (i * elem_size (cv_type cv)) (elem_size (cv_type cv)) (cv_data cv) =
  Some (slice (i * elem_size (cv_type cv)) (elem_size (cv_type cv)) (cv_data cv)).
Proof.
  intros Hwf Hv Hi. unfold load. destruct (slot_in_data cv i) as [_ H]; [done..|].
  by rewrite (proj2 (Z.leb_le _ _) H).
Qed.

Lemma slot_bytes cv i : cv_wf cv -> is_varchar (cv_type cv) = false -> 0 <= i < cv_size cv ->
  zlen (slice (i * elem_size (cv_type cv)) (elem_size (cv_type cv)) (cv_data cv)) =
    elem_size (cv_type cv) /\
  Forall (byte_ok (cv_type cv))
    (slice (i * elem_size (cv_type cv)) (elem_size (cv_type cv)) (cv_data cv)).
Proof.
  intros Hwf Hv Hi. destruct (slot_in_data cv i) as [H1 H2]; [done..|]. split.
  - pose proof (elem_size_pos _ (cw_type _ Hwf) Hv). unfold zlen.
    rewrite slice_length by lia. lia.
  - apply Forall_slice, (cw_data _ Hwf Hv).
Qed.

(** The data part of a write. *)
Lemma store_slot cv i bs : cv_wf cv -> is_varchar (cv_type cv) = false -> 0 <= i < cv_size cv ->
  zlen bs = elem_size (cv_type cv) -> Forall (byte_ok (cv_type cv)) bs ->
  exists d, store (i * elem_size (cv_type cv)) bs (cv_data cv) = Some d /\
    cv_wf (with_data cv d) /\
    forall j, 0 <= j < cv_size cv ->
      raw (with_data cv d) j = if decide (j = i) then decode (cv_type cv) bs else raw cv j.
Proof.
  intros Hwf Hv Hi Hlen Hbs. destruct (slot_in_data cv i) as [H1 H2]; [done..|].
  pose proof (elem_size_pos _ (cw_type _ Hwf) Hv).
  unfold store. rewrite Hlen, (proj2 (Z.leb_le _ _) H2). eexists. split; [done|].
  destruct (cw_data _ Hwf Hv) as [Hd Hf]. split.
  - destruct Hwf. split; simpl; try done. intros _.
    rewrite zlen_splice by lia. split; [done|]. by apply Forall_splice.
  - intros j Hj. destruct (slot_in_data cv j) as [H3 H4]; [done..|].
    unfold raw. simpl. rewrite Hv. case_decide as Hij.
    + subst j. f_equal. apply slice_splice_same; lia.
    + f_equal. destruct (decide (j < i)).
      * apply slice_splice_before; nia.
      * apply slice_splice_after; nia.
Qed.

Lemma insert_str cv i s : cv_wf cv -> is_varchar (cv_type cv) = true -> 0 <= i < cv_size cv ->
  cv_wf (with_str cv (<[Z.to_nat i := s]> (cv_str cv))) /\
  forall j, 0 <= j -> raw (with_str cv (<[Z.to_nat i := s]> (cv_str cv))) j =
    if decide (j = i) then VStr s else raw cv j.
Proof.
  intros Hwf Hv Hi. pose proof (cw_str _ Hwf Hv) as Hl. split.
  - destruct Hwf. split; simpl; try done. unfold zlen in *. by rewrite length_insert.
  - intros j Hj. unfold raw. simpl. rewrite Hv. unfold zlen in Hl. case_decide as Hij.
    + subst. f_equal. apply nth_lookup_Some, list_lookup_insert_eq. lia.
    + f_equal. rewrite !nth_lookup, list_lookup_insert_ne by lia. done.
Qed.

(** The bitmap part. *)
Lemma bm_index n i : 0 <= i < n -> i / 8 <? (n + 7) / 8 = true /\ 0 <= i < 8 * ((n + 7) / 8).
Proof. intros. rewrite Z.ltb_lt. zlia. Qed.

Lemma bm_test_ok cv i : cv_wf cv -> cv_nullable cv = true -> 0 <= i < cv_size cv ->
  bm_test (cv_nulls cv) i = Some (bit_get (cv_nulls cv) i).
Proof.
  intros Hwf Hn Hi. unfold bm_test. rewrite (proj1 (cw_nulls _ Hwf Hn)).
  by rewrite (proj1 (bm_index _ _ Hi)).
Qed.

Lemma with_nulls_wf cv bm : cv_wf cv -> zlen bm = zlen (cv_nulls cv) -> Forall is_byte bm ->
  cv_wf (with_nulls cv bm).
Proof.
  intros Hwf Hl Hb. destruct Hwf. split; simpl; try done.
  intros Hn. rewrite Hl. by destruct (cw_nulls0 Hn).
Qed.

Lemma bm_mark_ok cv i : cv_wf cv -> cv_nullable cv = true -> 0 <= i < cv_size cv ->
  bm_mark (cv_nulls cv) i = Some (bit_set (cv_nulls cv) i) /\
  cv_wf (with_nulls cv (bit_set (cv_nulls cv) i)) /\
  forall j, 0 <= j -> bit_get (bit_set (cv_nulls cv) i) j = bool_decide (j = i) || bit_get (cv_nulls cv) j.
Proof.
  intros Hwf Hn Hi. destruct (cw_nulls _ Hwf Hn) as [Hl Hb]. destruct (bm_index _ _ Hi) as [H1 H2].
  unfold bm_mark. rewrite Hl, H1. split_and!; [done| |].
  - apply with_nulls_wf; [done|unfold zlen; by rewrite length_bit_set|by apply bit_set_is_byte].
  - intros. apply bit_get_set; [by rewrite Hl|done].
Qed.

Lemma bm_unmark_ok cv i : cv_wf cv -> cv_nullable cv = true -> 0 <= i < cv_size cv ->
  bm_unmark (cv_nulls cv) i = Some (bit_clear (cv_nulls cv) i) /\
  cv_wf (with_nulls cv (bit_clear (cv_nulls cv) i)) /\
  forall j, 0 <= j -> bit_get (bit_clear (cv_nulls cv) i) j = bool_decide (j <> i) && bit_get (cv_nulls cv) j.
Proof.
  intros Hwf Hn Hi. destruct (cw_nulls _ Hwf Hn) as [Hl Hb]. destruct (bm_index _ _ Hi) as [H1 H2].
  unfold bm_unmark. rewrite Hl, H1. split_and!; [done| |].
  - apply with_nulls_wf; [done|unfold zlen; by rewrite length_bit_clear|by apply bit_clear_is_byte].
  - intros. apply bit_get_clear; [by rewrite Hl|done].
Qed.

(** ** Reading *)

Lemma cv_is_null_ok cv i : cv_wf cv -> 0 <= i < cv_size cv -> cv_is_null cv i = Some (null_at cv i).
Proof.
  intros Hwf Hi. unfold cv_is_null, null_at. rewrite (proj2 (Z.ltb_lt _ _)) by lia.
  destruct (cv_nullable cv) eqn:En; [|done]. by rewrite bm_test_ok.
Qed.

Lemma get_slot_ok t cv i : cv_wf cv -> cv_type cv = t -> is_varchar t = false ->
  0 <= i < cv_size cv -> null_at cv i = false ->
  get_slot t cv i = Some (slice (i * elem_size t) (elem_size t) (cv_data cv)).
Proof.
  intros Hwf <- Hv Hi Hn. unfold get_slot. rewrite bool_decide_true by done.
  rewrite (proj2 (Z.ltb_lt _ _)) by lia. rewrite cv_is_null_ok, Hn by done. simpl.
  by apply load_slot.
Qed.

Ltac get_ok t :=
  intros Hwf Ht Hi Hc; unfold cell in Hc; destruct (null_at _ _) eqn:En; [done|];
  rewrite (get_slot_ok t) by done; unfold raw in Hc; rewrite Ht in Hc; simpl in Hc; by injection Hc as <-.

Lemma cv_get_i32_ok cv i v : cv_wf cv -> cv_type cv = INT32 -> 0 <= i < cv_size cv ->
  cell cv i = VI32 v -> cv_get_i32 cv i = Some v.
Proof. unfold cv_get_i32. get_ok INT32. Qed.

Lemma cv_get_i64_ok cv i v : cv_wf cv -> cv_type cv = INT64 -> 0 <= i < cv_size cv ->
  cell cv i = VI64 v -> cv_get_i64 cv i = Some v.
Proof. unfold cv_get_i64. get_ok INT64. Qed.

Lemma cv_get_f64_ok cv i v : cv_wf cv -> cv_type cv = DOUBLE -> 0 <= i < cv_size cv ->
  cell cv i = VF64 v -> cv_get_f64 cv i = Some v.
Proof. unfold cv_get_f64. get_ok DOUBLE. Qed.

Lemma cv_get_str_ok cv i s : cv_wf cv -> 0 <= i < cv_size cv -> cell cv i = VStr s ->
  cv_get_str cv i = Some s.
Proof.
  intros Hwf Hi Hc. unfold cell in Hc. destruct (null_at cv i) eqn:En; [done|].
  unfold raw in Hc. destruct (is_varchar (cv_type cv)) eqn:Hv.
  - pose proof (cw_str _ Hwf Hv) as Hl. unfold cv_get_str.
    rewrite bool_decide_true by (by destruct (cv_type cv)).
    rewrite (proj2 (Z.ltb_lt _ _)) by lia. injection Hc as <-.
    unfold zlen in Hl.
    destruct (lookup_lt_is_Some_2 (cv_str cv) (Z.to_nat i)) as [s Hs]; [lia|].
    by rewrite Hs, (nth_lookup_Some _ _ _ _ Hs).
  - pose proof (cw_type _ Hwf). by destruct (cv_type cv).
Qed.

(** Every slot holds a value of the type of the vector. *)
Lemma cell_typed cv i : cv_wf cv -> 0 <= i < cv_size cv -> vec_value (cv_type cv) (cell cv i).
Proof.
  intros Hwf Hi. unfold cell, vec_value. destruct (null_at cv i); [by left|]. right.
  unfold raw. destruct (is_varchar (cv_type cv)) eqn:Hv.
  { split; [by destruct (cv_type cv)|done]. }
  destruct (slot_bytes cv i) as [Hl Hb]; [done..|].
  assert (Hb' : Forall is_byte (slice (i * elem_size (cv_type cv)) (elem_size (cv_type cv)) (cv_data cv)))
    by (eapply Forall_impl; [exact Hb|]; by intros ? []).
  pose proof (le_val_bound _ Hb') as Hr. pose proof (cw_type _ Hwf) as Ht. rewrite Hl in Hr.
  destruct (cv_type cv); try discriminate; cbn; split; try done; try (by apply signed_range).
Qed.

(** ** Resizing *)

Lemma cv_resize_header cv n : same_header cv (cv_resize cv n) /\ cv_size (cv_resize cv n) = n.
Proof. unfold cv_resize, same_header. destruct cv as [t [] ? ? ? ? ?]; simpl; by destruct (is_varchar t). Qed.

Lemma cv_resize_parts cv n :
  cv_data (cv_resize cv n) = (if is_varchar (cv_type cv) then cv_data cv
                              else vec_resize 0 (n * elem_size (cv_type cv)) (cv_data cv)) /\
  cv_str (cv_resize cv n) = (if is_varchar (cv_type cv) then vec_resize EmptyString n (cv_str cv)
                             else cv_str cv) /\
  cv_nulls (cv_resize cv n) = (if cv_nullable cv then vec_resize 0 ((n + 7) / 8) (cv_nulls cv)
                               else cv_nulls cv).
Proof. unfold cv_resize. destruct cv as [t [] ? ? ? ? ?]; simpl; by destruct (is_varchar t). Qed.

Lemma cv_resize_wf cv n : cv_wf cv -> 0 <= n -> cv_wf (cv_resize cv n).
Proof.
  intros Hwf Hn. destruct (cv_resize_header cv n) as [[Ht Hnl] Hs].
  destruct (cv_resize_parts cv n) as (Hd & Hst & Hb).
  split; rewrite ?Ht, ?Hnl, ?Hs, ?Hd, ?Hst, ?Hb; [apply Hwf|done|..].
  - intros Hv. rewrite Hv. pose proof (elem_size_pos _ (cw_type _ Hwf) Hv).
    rewrite zlen_vec_resize by nia. split; [done|].
    apply Forall_vec_resize; [|apply (cw_data _ Hwf Hv)]. split; [done|by left].
  - intros Hv. rewrite Hv. by apply zlen_vec_resize.
  - intros Hnull. rewrite Hnull.
    assert (0 <= (n + 7) / 8) by (apply Z.div_pos; lia).
    rewrite zlen_vec_resize by done. split; [done|].
    apply Forall_vec_resize; [done|]. apply (cw_nulls _ Hwf Hnull).
Qed.

Lemma cv_resize_null_at cv n i : 0 <= i < n -> null_at (cv_resize cv n) i = null_at cv i.
Proof.
  intros Hi. unfold null_at. destruct (cv_resize_header cv n) as [[_ ->] _].
  destruct (cv_resize_parts cv n) as (_ & _ & ->). destruct (cv_nullable cv); [|done]. simpl.
  assert (0 <= (n + 7) / 8) by (apply Z.div_pos; lia).
  by rewrite bit_get_vec_resize, bool_decide_true by (lia || zlia).
Qed.

Lemma cv_resize_raw cv n i : cv_wf cv -> 0 <= i < n -> i < cv_size cv ->
  raw (cv_resize cv n) i = raw cv i.
Proof.
  intros Hwf Hi Hs. unfold raw. destruct (cv_resize_header cv n) as [[-> _] _].
  destruct (cv_resize_parts cv n) as (-> & -> & _). destruct (is_varchar (cv_type cv)) eqn:Hv.
  - rewrite nth_vec_resize, decide_True by lia. done.
  - f_equal. pose proof (elem_size_pos _ (cw_type _ Hwf) Hv).
    destruct (slot_in_data cv i) as [? ?]; [done..|lia|]. apply slice_vec_resize; nia.
Qed.

Lemma cv_resize_cell cv n i : cv_wf cv -> 0 <= i < n -> i < cv_size cv ->
  cell (cv_resize cv n) i = cell cv i.
Proof. intros. unfold cell. by rewrite cv_resize_null_at, cv_resize_raw. Qed.

Lemma cv_resize_clean cv n : cv_clean cv -> cv_size cv <= n -> 0 <= cv_size cv -> cv_clean (cv_resize cv n).
Proof.
  intros Hc Hn H0 Hnl i Hi. destruct (cv_resize_header cv n) as [[_ Hn'] Hs]. rewrite Hn' in Hnl.
  destruct (cv_resize_parts cv n) as (_ & _ & ->). rewrite Hnl, Hs in *.
  assert (0 <= (n + 7) / 8) by (apply Z.div_pos; lia).
  rewrite bit_get_vec_resize by lia. rewrite (Hc Hnl) by lia. apply andb_false_r.
Qed.

(** Shrinking keeps a prefix. *)
Lemma cv_resize_take cv n : cv_wf cv -> 0 <= n <= cv_size cv ->
  cv_values (cv_resize cv n) = take (Z.to_nat n) (cv_values cv).
Proof.
  intros Hwf Hn. destruct (cv_resize_header cv n) as [_ Hs]. apply cv_values_eq.
  - unfold zlen. rewrite Hs, length_take, length_cv_values. lia.
  - intros k v [Hv Hk]%lookup_take_Some. rewrite lookup_cv_values in Hv by lia.
    injection Hv as <-. apply cv_resize_cell; [done|lia..].
Qed.

Lemma cv_empty_wf t nullable : is_vec_type t = true ->
  cv_wf (cv_empty t nullable) /\ cv_clean (cv_empty t nullable) /\ cv_values (cv_empty t nullable) = [].
Proof.
  intros Ht. split_and!; [|intros ? i ?; apply (bit_get_zeros 0)|done].
  split; simpl; [done|lia|done..].
Qed.

Lemma cv_make_wf t n nullable : is_vec_type t = true -> 0 <= n ->
  cv_wf (cv_make t n nullable) /\ cv_clean (cv_make t n nullable) /\
  cv_size (cv_make t n nullable) = n /\ same_header (cv_empty t nullable) (cv_make t n nullable).
Proof.
  intros Ht Hn. destruct (cv_empty_wf t nullable Ht) as (Hwf & Hc & _). unfold cv_make.
  destruct (cv_resize_header (cv_empty t nullable) n) as [? ?].
  split_and!; [by apply cv_resize_wf|by apply cv_resize_clean|done..].
Qed.

(** ** Writing a slot *)

Lemma same_header_refl cv : same_header cv cv.
Proof. done. Qed.

Lemma same_header_trans a b c : same_header a b -> same_header b c -> same_header a c.
Proof. intros [? ?] [? ?]. split; congruence. Qed.

Lemma clear_null_ok cv i : cv_wf cv -> 0 <= i < cv_size cv ->
  exists cv', clear_null cv i = Some cv' /\ wrote cv cv' i (raw cv i).
Proof.
  intros Hwf Hi. unfold clear_null. destruct (cv_nullable cv) eqn:En.
  - destruct (bm_unmark_ok cv i) as (-> & Hwf' & Hb); [done..|]. eexists. split; [done|].
    split; [done..| |].
    + unfold cell, null_at. simpl. rewrite En, Hb by lia. by rewrite bool_decide_false by auto.
    + intros j Hj Hij. unfold cell, null_at. simpl. rewrite En, Hb by lia.
      by rewrite bool_decide_true.
  - exists cv. split; [done|]. split; try done. unfold cell, null_at. by rewrite En.
Qed.

Lemma set_slot_ok t cv i bs : cv_wf cv -> cv_type cv = t -> is_varchar t = false ->
  0 <= i < cv_size cv -> zlen bs = elem_size t -> Forall (byte_ok t) bs ->
  exists cv', set_slot t cv i bs = Some cv' /\ wrote cv cv' i (decode t bs).
Proof.
  intros Hwf <- Hv Hi Hl Hbs. unfold set_slot. rewrite bool_decide_true by done.
  rewrite (proj2 (Z.ltb_lt _ _)) by lia.
  destruct (store_slot cv i bs) as (d & -> & Hwf' & Hraw); [done..|].
  destruct (clear_null_ok (with_data cv d) i) as (cv' & -> & [W1 W2 W3 W4 W5]); [done..|].
  exists cv'. split; [done|]. split; try done.
  - by rewrite W4, Hraw, decide_True by done.
  - intros j Hj Hij. rewrite W5 by done. unfold cell. rewrite Hraw, decide_False by done. done.
Qed.

Lemma set_str_ok cv i s : cv_wf cv -> cv_type cv = VARCHAR -> 0 <= i < cv_size cv ->
  exists cv', set_str cv i s = Some cv' /\ wrote cv cv' i (VStr s).
Proof.
  intros Hwf Ht Hi. assert (Hv : is_varchar (cv_type cv) = true) by by rewrite Ht.
  unfold set_str. rewrite bool_decide_true by done. rewrite (cw_str _ Hwf Hv).
  rewrite (proj2 (Z.ltb_lt _ _)) by lia.
  destruct (insert_str cv i s) as [Hwf' Hraw]; [done..|].
  destruct (clear_null_ok (with_str cv (<[Z.to_nat i := s]> (cv_str cv))) i)
    as (cv' & -> & [W1 W2 W3 W4 W5]); [done..|].
  exists cv'. split; [done|]. split; try done.
  - by rewrite W4, Hraw, decide_True by lia.
  - intros j Hj Hij. rewrite W5 by done. unfold cell. rewrite Hraw, decide_False by (done || lia). done.
Qed.

Lemma mark_null_ok cv i : cv_wf cv -> cv_nullable cv = true -> 0 <= i < cv_size cv ->
  exists bm, bm_mark (cv_nulls cv) i = Some bm /\
    wrote cv (set_has_nulls (with_nulls cv bm) true) i VNull /\
    forall j, 0 <= j -> bit_get bm j = bool_decide (j = i) || bit_get (cv_nulls cv) j.
Proof.
  intros Hwf En Hi. destruct (bm_mark_ok cv i) as (-> & Hwf' & Hb); [done..|].
  eexists. split; [done|]. split; [|done]. split; [by destruct Hwf'|done..| |].
  - unfold cell, null_at. simpl. rewrite En, Hb by lia. by rewrite bool_decide_true.
  - intros j Hj Hij. unfold cell, null_at. simpl. rewrite En, Hb by lia.
    by rewrite bool_decide_false.
Qed.

Lemma set_null_ok cv i : cv_wf cv -> cv_nullable cv = true -> 0 <= i < cv_size cv ->
  exists cv', set_null cv i = Some cv' /\ wrote cv cv' i VNull.
Proof.
  intros Hwf En Hi. unfold set_null. rewrite En, (proj2 (Z.ltb_lt _ _)) by lia.
  destruct (mark_null_ok cv i) as (bm & -> & Hw & _); [done..|]. eauto.
Qed.

(** ** Writing and appending a value of any type *)

(** The bytes that [set_*] and [append_*] store for a value. *)
Definition slot_bytes_of (v : Value) : bytes :=
  match v with
  | VI32 x | VDate x => le_bytes 4 x
  | VI64 x | VTimestamp x | VF64 x => le_bytes 8 x
  | VBool b => [if b then 1 else 0]
  | VStr _ | VNull => []
  end.

Definition set_value (cv : ColumnVector) (i : Z) (v : Value) : option ColumnVector :=
  match v with
  | VNull => set_null cv i
  | VI32 x => set_i32 cv i x
  | VI64 x => set_i64 cv i x
  | VF64 x => set_f64 cv i x
  | VStr s => set_str cv i s
  | VBool b => set_bool cv i b
  | VDate x => set_date cv i x
  | VTimestamp x => set_timestamp cv i x
  end.

Definition cv_append_value (cv : ColumnVector) (v : Value) : option ColumnVector :=
  match v with
  | VNull => cv_append_null cv
  | VI32 x => cv_append_i32 cv x
  | VI64 x => cv_append_i64 cv x
  | VF64 x => cv_append_f64 cv x
  | VStr s => cv_append_str cv s
  | VBool b => cv_append_bool cv b
  | VDate x => cv_append_date cv x
  | VTimestamp x => cv_append_timestamp cv x
  end.

Lemma slot_bytes_of_ok v : value_wf v -> is_varchar (variant_type v) = false -> v <> VNull ->
  zlen (slot_bytes_of v) = elem_size (variant_type v) /\ Forall (byte_ok (variant_type v)) (slot_bytes_of v) /\
  decode (variant_type v) (slot_bytes_of v) = v.
Proof.
  intros Hv Ht Hn. split_and!.
  - destruct v as [| | | | |[]| |]; try done; simpl; apply zlen_le_bytes.
  - destruct v as [| | | | |b| |]; try done; simpl;
      try (eapply Forall_impl; [apply le_bytes_is_byte|]; by intros ? ?; split).
    apply Forall_singleton. destruct b; (split; [done|auto]).
  - destruct v as [|x|x|x| |[]|x|x]; try done; cbn -[le_val]; f_equal;
      first [apply (signed_le_bytes 4)|apply (signed_le_bytes 8)|apply (le_val_bytes 8)]; (done || lia).
Qed.

Lemma set_value_ok cv i v : cv_wf cv -> 0 <= i < cv_size cv -> vec_value (cv_type cv) v ->
  (v = VNull -> cv_nullable cv = true) ->
  exists cv', set_value cv i v = Some cv' /\ wrote cv cv' i v.
Proof.
  intros Hwf Hi Hv Hn. destruct (decide (v = VNull)) as [->|Hnull]; [by apply set_null_ok; auto|].
  destruct Hv as [|[Ht Hv]]; [done|].
  destruct (is_varchar (cv_type cv)) eqn:Hvc.
  { destruct v; rewrite <- Ht in Hvc; try done. by apply set_str_ok. }
  destruct (slot_bytes_of_ok v) as (Hl & Hb & Hd); [done|by rewrite Ht|done|].
  assert (set_value cv i v = set_slot (cv_type cv) cv i (slot_bytes_of v)) as ->.
  { rewrite <- Ht. rewrite <- Ht in Hvc. by destruct v. }
  rewrite Ht in Hl, Hb, Hd.
  destruct (set_slot_ok (cv_type cv) cv i (slot_bytes_of v)) as (cv' & ? & Hw); [done..|].
  rewrite Hd in Hw. eauto.
Qed.

(** What an append gives. *)
Record appended (cv cv' : ColumnVector) (v : Value) : Prop := {
  ap_wf : cv_wf cv';
  ap_clean : cv_clean cv';
  ap_header : same_header cv cv';
  ap_size : cv_size cv' = cv_size cv + 1;
  ap_values : cv_values cv' = cv_values cv ++ [v]
}.

(** A vector grown by one row that then shows [v] in it. *)
Lemma appended_intro cv cv' v : cv_wf cv -> cv_wf cv' -> cv_clean cv' -> same_header cv cv' ->
  cv_size cv' = cv_size cv + 1 -> cell cv' (cv_size cv) = v ->
  (forall j, 0 <= j < cv_size cv -> cell cv' j = cell cv j) -> appended cv cv' v.
Proof.
  intros Hwf Hwf' Hc Hh Hs Hv Ho. split; try done. pose proof (cw_size _ Hwf). apply cv_values_eq.
  - unfold zlen. rewrite length_app, length_cv_values. simpl. lia.
  - intros k w [Hk|[Hk Hw]]%lookup_app_Some.
    + pose proof Hk as Hlt%lookup_lt_Some. rewrite length_cv_values in Hlt.
      rewrite lookup_cv_values in Hk by done. injection Hk as <-. apply Ho. lia.
    + rewrite length_cv_values in *. apply list_lookup_singleton_Some in Hw as [Hk' <-].
      rewrite <- Hv. f_equal. lia.
Qed.

Lemma clean_null_at cv i : cv_clean cv -> cv_size cv <= i -> null_at cv i = false.
Proof.
  intros Hc Hi. unfold null_at. destruct (cv_nullable cv) eqn:En; [|done]. by apply Hc.
Qed.

(** The vector grown by one row, before the row is written. *)
Record grown (cv cv1 : ColumnVector) : Prop := {
  gr_wf : cv_wf cv1;
  gr_clean : cv_clean cv1;
  gr_header : same_header cv cv1;
  gr_size : cv_size cv1 = cv_size cv + 1;
  gr_last : null_at cv1 (cv_size cv) = false;
  gr_cell j : 0 <= j < cv_size cv -> cell cv1 j = cell cv j
}.

Lemma grow_one cv : cv_wf cv -> cv_clean cv -> grown cv (cv_resize cv (cv_size cv + 1)).
Proof.
  intros Hwf Hc. pose proof (cw_size _ Hwf). split.
  - apply cv_resize_wf; [done|lia].
  - by apply cv_resize_clean; [|lia|].
  - apply cv_resize_header.
  - apply cv_resize_header.
  - rewrite cv_resize_null_at by lia. by apply clean_null_at.
  - intros j Hj. apply cv_resize_cell; [done|lia..].
Qed.

Lemma append_slot_ok t cv bs : cv_wf cv -> cv_clean cv -> cv_type cv = t -> is_varchar t = false ->
  zlen bs = elem_size t -> Forall (byte_ok t) bs ->
  exists cv', append_slot t cv bs = Some cv' /\ appended cv cv' (decode t bs).
Proof.
  intros Hwf Hc <- Hv Hl Hbs. pose proof (cw_size _ Hwf).
  unfold append_slot. rewrite bool_decide_true by done. cbv zeta.
  destruct (grow_one cv Hwf Hc) as [Hwf1 Hc1 [Ht Hnl] Hs Hlast Hcell].
  revert Hwf1 Hc1 Ht Hnl Hs Hlast Hcell. generalize (cv_resize cv (cv_size cv + 1)). intros cv1 **.
  destruct (store_slot cv1 (cv_size cv) bs) as (d & Hst & Hwf2 & Hraw);
    rewrite ?Hs, ?Ht; try done; [lia|].
  rewrite Ht in Hst. rewrite Hst. eexists. split; [done|]. apply appended_intro; try done.
  - unfold cell. change (null_at (with_data cv1 d)) with (null_at cv1). rewrite Hlast.
    by rewrite Hraw, decide_True, Ht by lia.
  - intros j Hj. rewrite <- Hcell by done. unfold cell. rewrite Hraw, decide_False by lia. done.
Qed.

Lemma cv_append_null_ok cv : cv_wf cv -> cv_clean cv -> cv_nullable cv = true ->
  exists cv', cv_append_null cv = Some cv' /\ appended cv cv' VNull.
Proof.
  intros Hwf Hc En. pose proof (cw_size _ Hwf). unfold cv_append_null. rewrite En. cbv zeta.
  destruct (grow_one cv Hwf Hc) as [Hwf1 Hc1 [Ht Hnl] Hs Hlast Hcell].
  revert Hwf1 Hc1 Ht Hnl Hs Hlast Hcell. generalize (cv_resize cv (cv_size cv + 1)). intros cv1 **.
  destruct (bm_mark_ok cv1 (cv_size cv)) as (-> & Hwf2 & Hb); [done|by rewrite Hnl|lia|].
  eexists. split; [done|]. apply appended_intro; try done.
  - by destruct Hwf2.
  - intros Hn i Hi. cbn in Hn, Hi |- *. rewrite Hb, bool_decide_false by lia. by apply Hc1.
  - unfold cell, null_at. cbn. by rewrite Hnl, En, Hb, bool_decide_true by lia.
  - intros j Hj. rewrite <- Hcell by done. unfold cell, null_at. cbn.
    by rewrite Hb, bool_decide_false by lia.
Qed.

Lemma cv_append_str_resize cv s : cv_type cv = VARCHAR -> zlen (cv_str cv) = cv_size cv -> 0 <= cv_size cv ->
  cv_append_str cv s =
    let cv1 := cv_resize cv (cv_size cv + 1) in
    Some (with_str cv1 (<[Z.to_nat (cv_size cv) := s]> (cv_str cv1))).
Proof.
  intros Ht Hl H0. unfold cv_append_str. rewrite bool_decide_true by done. cbv zeta. f_equal.
  unfold cv_resize. rewrite Ht. simpl. rewrite zlen_app, Hl. change (zlen [s]) with 1.
  assert (Hstr : cv_str cv ++ [s] =
    <[Z.to_nat (cv_size cv) := s]> (vec_resize EmptyString (cv_size cv + 1) (cv_str cv))).
  { unfold vec_resize. unfold zlen in Hl. rewrite take_ge by lia.
    replace (Z.to_nat (cv_size cv + 1) - length (cv_str cv))%nat with 1%nat by lia.
    replace (Z.to_nat (cv_size cv)) with (length (cv_str cv) + 0)%nat by lia.
    by rewrite insert_app_r. }
  destruct (cv_nullable cv); unfold with_size, with_nulls, with_str; simpl; by rewrite Hstr.
Qed.

Lemma cv_append_str_ok cv s : cv_wf cv -> cv_clean cv -> cv_type cv = VARCHAR ->
  exists cv', cv_append_str cv s = Some cv' /\ appended cv cv' (VStr s).
Proof.
  intros Hwf Hc Ht0. assert (Hv : is_varchar (cv_type cv) = true) by by rewrite Ht0.
  pose proof (cw_size _ Hwf). rewrite cv_append_str_resize by (done || by apply cw_str). cbv zeta.
  destruct (grow_one cv Hwf Hc) as [Hwf1 Hc1 [Ht Hnl] Hs Hlast Hcell].
  revert Hwf1 Hc1 Ht Hnl Hs Hlast Hcell. generalize (cv_resize cv (cv_size cv + 1)). intros cv1 **.
  destruct (insert_str cv1 (cv_size cv) s) as [Hwf2 Hraw]; [done|by rewrite Ht|lia|].
  eexists. split; [done|]. apply appended_intro; try done.
  - unfold cell. change (null_at (with_str _ _)) with (null_at cv1). rewrite Hlast.
    by rewrite Hraw, decide_True by lia.
  - intros j Hj. rewrite <- Hcell by done. unfold cell. rewrite Hraw, decide_False by lia. done.
Qed.

Lemma cv_append_value_ok cv v : cv_wf cv -> cv_clean cv -> vec_value (cv_type cv) v ->
  (v = VNull -> cv_nullable cv = true) ->
  exists cv', cv_append_value cv v = Some cv' /\ appended cv cv' v.
Proof.
  intros Hwf Hc Hv Hn. destruct (decide (v = VNull)) as [->|Hnull]; [by apply cv_append_null_ok; auto|].
  destruct Hv as [|[Ht Hv]]; [done|].
  destruct (is_varchar (cv_type cv)) eqn:Hvc.
  { destruct v; rewrite <- Ht in Hvc; try done. by apply cv_append_str_ok. }
  destruct (slot_bytes_of_ok v) as (Hl & Hb & Hd); [done|by rewrite Ht|done|].
  assert (cv_append_value cv v = append_slot (cv_type cv) cv (slot_bytes_of v)) as ->.
  { rewrite <- Ht. rewrite <- Ht in Hvc. by destruct v. }
  rewrite Ht in Hl, Hb, Hd.
  destruct (append_slot_ok (cv_type cv) cv (slot_bytes_of v)) as (cv' & ? & Ha); [done..|].
  rewrite Hd in Ha. eauto.
Qed.

(** ** Gathering *)

#[global] Arguments gather_slot : simpl never.
#[global] Arguments cv_resize : simpl never.
#[global] Arguments cv_make : simpl never.

Lemma nth_str cv i : cv_wf cv -> is_varchar (cv_type cv) = true -> 0 <= i < cv_size cv ->
  cv_str cv !! Z.to_nat i = Some (nth (Z.to_nat i) (cv_str cv) EmptyString).
Proof.
  intros Hwf Hv Hi. pose proof (cw_str _ Hwf Hv) as Hl. unfold zlen in Hl.
  destruct (lookup_lt_is_Some_2 (cv_str cv) (Z.to_nat i)) as [s Hs]; [lia|].
  by rewrite Hs, (nth_lookup_Some _ _ _ _ Hs).
Qed.

Lemma copy_slot_ok src phys out i : cv_wf src -> cv_wf out -> cv_type out = cv_type src ->
  0 <= phys < cv_size src -> 0 <= i < cv_size out ->
  exists out', copy_slot src phys out i = Some out' /\ cv_wf out' /\ same_header out out' /\
    cv_size out' = cv_size out /\ cv_nulls out' = cv_nulls out /\
    forall j, 0 <= j < cv_size out -> raw out' j = if decide (j = i) then raw src phys else raw out j.
Proof.
  intros Hsrc Hwf Ht Hp Hi. unfold copy_slot. cbv zeta. destruct (is_varchar (cv_type src)) eqn:Hv.
  - rewrite nth_str by done. rewrite (cw_str _ Hwf) by (by rewrite Ht).
    rewrite (proj2 (Z.ltb_lt _ _)) by lia.
    destruct (insert_str out i (nth (Z.to_nat phys) (cv_str src) EmptyString)) as [Hwf1 Hraw];
      [done|by rewrite Ht|done|].
    eexists. split; [done|]. split_and!; try done. intros j Hj. rewrite Hraw by lia.
    unfold raw. by rewrite Hv.
  - rewrite load_slot by done. destruct (slot_bytes src phys) as [Hl Hby]; [done..|].
    destruct (store_slot out i (slice (phys * elem_size (cv_type src)) (elem_size (cv_type src))
      (cv_data src))) as (d & Hst & Hwf1 & Hraw); rewrite ?Ht in *; try done.
    rewrite Hst. eexists. split; [done|]. split_and!; try done. intros j Hj. rewrite Hraw by done.
    unfold raw. by rewrite Hv.
Qed.

(** [out] after the first [k] rows were gathered; the bits not yet reached are clear. *)
Record gathered (src : ColumnVector) (rows : list Z) (k : nat) (st : ColumnVector * Z) : Prop := {
  ga_wf : cv_wf st.1;
  ga_header : same_header src st.1;
  ga_size : cv_size st.1 = zlen rows;
  ga_idx : st.2 = Z.of_nat k;
  ga_cell j phys : (j < k)%nat -> rows !! j = Some phys -> cell st.1 (Z.of_nat j) = cell src phys;
  ga_clear i : Z.of_nat k <= i -> cv_nullable src = true -> bit_get (cv_nulls st.1) i = false
}.

(** The two ways a step ends give a slot that shows row [phys] of [src]. *)
Lemma gather_slot_ok src phys out i : cv_wf src -> cv_wf out -> same_header src out ->
  0 <= phys < cv_size src -> 0 <= i < cv_size out -> null_at out i = false ->
  exists out', gather_slot src phys (out, i) = Some (out', i + 1) /\
    wrote out out' i (cell src phys) /\
    forall j, 0 <= j -> j <> i -> bit_get (cv_nulls out') j = bit_get (cv_nulls out) j.
Proof.
  intros Hsrc Hwf [Ht Hn] Hp Hi Hnull.
  destruct (copy_slot_ok src phys out i) as (out1 & Hc & Hwf1 & [Ht1 Hn1] & Hs1 & Hb1 & Hraw); [done..|].
  assert (Hsame : forall j, null_at out1 j = null_at out j) by (intros; unfold null_at; congruence).
  unfold gather_slot. rewrite Hc.
  assert ((if cv_nullable src then bm_test (cv_nulls src) phys else Some false) =
          Some (null_at src phys)) as ->.
  { unfold null_at. destruct (cv_nullable src) eqn:En; [|done]. by rewrite bm_test_ok. }
  destruct (null_at src phys) eqn:Enull.
  - assert (En : cv_nullable src = true) by (unfold null_at in Enull; by destruct (cv_nullable src)).
    destruct (mark_null_ok out1 i) as (bm & -> & [W1 [W2 W2'] W3 W4 W5] & Hbm); [done|congruence|lia|].
    eexists. split; [done|]. split.
    + split; [done|split; congruence|congruence|unfold cell at 2; by rewrite Enull, W4|].
      intros j Hj Hij. rewrite W5 by (done || lia). unfold cell.
      by rewrite Hsame, Hraw, decide_False.
    + intros j Hj Hij. simpl. by rewrite Hbm, bool_decide_false, Hb1 by done.
  - eexists. split; [done|]. split; [|by rewrite Hb1]. split; [done..|split; congruence|done| |].
    + unfold cell. by rewrite Hsame, Hnull, Enull, Hraw, decide_True.
    + intros j Hj Hij. unfold cell. by rewrite Hsame, Hraw, decide_False.
Qed.

Lemma gather_step src rows k phys st : cv_wf src ->
  rows !! k = Some phys -> 0 <= phys < cv_size src -> gathered src rows k st ->
  exists st', gather_slot src phys st = Some st' /\ gathered src rows (S k) st'.
Proof.
  intros Hsrc Hk Hp [Hwf Hh Hs Hi Hc Hb]. destruct st as [out idx]. simpl in *. subst idx.
  assert (Hin : forall j p, rows !! j = Some p -> 0 <= Z.of_nat j < cv_size out).
  { intros j p Hj%lookup_lt_Some. unfold zlen in Hs. lia. }
  pose proof Hh as [Ht Hn].
  destruct (gather_slot_ok src phys out (Z.of_nat k)) as (out' & -> & [W1 W2 W3 W4 W5] & Hbits);
    [done..|by eapply Hin| |].
  { unfold null_at. rewrite Hn. destruct (cv_nullable src) eqn:En; [|done]. by apply Hb. }
  eexists. split; [done|]. split; simpl; [done|by eapply same_header_trans|congruence|lia| |].
  - intros j p Hj Hp'. destruct (decide (j = k)) as [->|]; [by simplify_eq|].
    rewrite W5 by (lia || by eapply Hin). apply Hc; [lia|done].
  - intros i Hi En. rewrite Hbits by lia. apply Hb; [lia|done].
Qed.

Lemma cv_make_bits t n i : bit_get (cv_nulls (cv_make t n true)) i = false.
Proof.
  unfold cv_make. destruct (cv_resize_parts (cv_empty t true) n) as (_ & _ & ->).
  simpl. unfold vec_resize. rewrite take_nil. simpl. rewrite Nat.sub_0_r. apply bit_get_zeros.
Qed.

(** Gathering shows the selected rows in the order of the selection. *)
Lemma gather_via_sel_ok src sel : cv_wf src -> sel_wf sel ->
  Forall (fun i => i < cv_size src) (for_each sel) ->
  exists out, gather_via_sel src sel = Some out /\ cv_wf out /\ same_header src out /\
    cv_size out = zlen (for_each sel) /\ cv_values out = map (cell src) (for_each sel).
Proof.
  intros Hsrc Hsel Hin. unfold gather_via_sel. rewrite (sw_size _ Hsel).
  pose proof (zlen_nonneg (for_each sel)).
  destruct (cv_make_wf (cv_type src) (zlen (for_each sel)) (cv_nullable src)) as (Hwf & Hc & Hs & Hh);
    [apply Hsrc|done|].
  destruct (each_inv (gathered src (for_each sel)) (for_each sel) (gather_slot src)
    (cv_make (cv_type src) (zlen (for_each sel)) (cv_nullable src), 0)) as ([out i] & -> & [G1 G2 G3 G4 G5 G6]).
  - split; cbn [fst snd]; [done..|lia|]. intros i Hi En. rewrite En. apply cv_make_bits.
  - intros k phys st Hk. apply gather_step; [done..|].
    pose proof (sw_in _ Hsel) as Hin'. rewrite Forall_lookup in Hin, Hin'.
    pose proof (Hin k phys Hk). pose proof (Hin' k phys Hk). simpl in *. lia.
  - simpl in *. exists out. split_and!; [done..|]. apply cv_values_eq.
    + unfold zlen in *. by rewrite length_map.
    + intros k v Hk. apply list_lookup_fmap_Some in Hk as (phys & -> & Hp).
      apply G5; [by eapply lookup_lt_Some|done].
Qed.

(** ** Dropping a prefix *)

Lemma move_null_ok bm src dst : Forall is_byte bm -> 0 <= src < 8 * zlen bm -> 0 <= dst < 8 * zlen bm ->
  exists bm', move_null bm src dst = Some bm' /\ zlen bm' = zlen bm /\ Forall is_byte bm' /\
    forall j, 0 <= j -> bit_get bm' j = if decide (j = dst) then bit_get bm src else bit_get bm j.
Proof.
  intros Hb Hs Hd. unfold move_null, bm_test, bm_unmark, bm_mark.
  assert (Hc : forall i, 0 <= i < 8 * zlen bm -> i / 8 <? zlen bm = true).
  { intros. apply Z.ltb_lt, Z.div_lt_upper_bound; lia. }
  rewrite !Hc by done.
  assert (Hl : zlen (bit_clear bm dst) = zlen bm) by (unfold zlen; by rewrite length_bit_clear).
  destruct (bit_get bm src) eqn:E.
  - rewrite Hl, Hc by done. eexists. split; [done|].
    split_and!; [unfold zlen in *; by rewrite length_bit_set|auto with nyx|].
    intros j Hj. rewrite bit_get_set by (rewrite ?Hl; done). rewrite bit_get_clear by done.
    case_decide; [by rewrite bool_decide_true|].
    by rewrite bool_decide_false, bool_decide_true by done.
  - eexists. split; [done|]. split_and!; [done|auto with nyx|].
    intros j Hj. rewrite bit_get_clear by done. case_decide.
    + by rewrite bool_decide_false by auto.
    + by rewrite bool_decide_true.
Qed.

Lemma shift_nulls_ok bm n m : Forall is_byte bm -> 0 <= n -> 0 <= m -> m + n <= 8 * zlen bm ->
  exists bm', shift_nulls bm n m = Some bm' /\ zlen bm' = zlen bm /\ Forall is_byte bm' /\
    forall j, 0 <= j < m -> bit_get bm' j = bit_get bm (j + n).
Proof.
  intros Hb Hn Hm Hlen. unfold shift_nulls.
  destruct (loop_inv (fun i b => zlen b = zlen bm /\ Forall is_byte b /\
      (forall j, 0 <= j < i -> bit_get b j = bit_get bm (j + n)) /\
      (forall j, i <= j -> 0 <= j -> bit_get b j = bit_get bm j)) m
    (fun i bm => move_null bm (i + n) i) bm) as (bm' & -> & H1 & H2 & H3 & _); [done| | |eauto].
  - split_and!; [done..|lia|done].
  - intros i b Hi (H1 & H2 & H3 & H4).
    destruct (move_null_ok b (i + n) i) as (b' & -> & L1 & L2 & L3); [done|lia..|].
    eexists. split; [done|]. split_and!; [congruence|done|..].
    + intros j Hj. rewrite L3 by lia. case_decide; [subst; apply H4; lia|]. apply H3. lia.
    + intros j Hj Hj'. rewrite L3, decide_False by lia. apply H4; lia.
Qed.

(** The vector built from the shifted parts. *)
Lemma dropped_values cv cv' n : cv_wf cv -> 0 <= n <= cv_size cv ->
  cv_size cv' = cv_size cv - n -> same_header cv cv' ->
  (forall j, 0 <= j < cv_size cv - n -> raw cv' j = raw cv (j + n)) ->
  (forall j, 0 <= j < cv_size cv - n -> null_at cv' j = null_at cv (j + n)) ->
  cv_values cv' = drop (Z.to_nat n) (cv_values cv).
Proof.
  intros Hwf Hn Hs Hh Hraw Hnull. apply cv_values_eq.
  - unfold zlen. rewrite length_drop, length_cv_values. lia.
  - intros k v Hk. rewrite lookup_drop in Hk. pose proof Hk as Hlt%lookup_lt_Some.
    rewrite length_cv_values in Hlt. rewrite lookup_cv_values in Hk by done. injection Hk as <-.
    unfold cell. rewrite Hraw, Hnull by lia.
    replace (Z.of_nat (Z.to_nat n + k)) with (Z.of_nat k + n) by lia. done.
Qed.

(** The null bits after the shift, for both storage layouts. *)
Lemma shift_null_at cv n : cv_wf cv -> 0 <= n <= cv_size cv -> cv_nullable cv = true ->
  exists bm, shift_nulls (cv_nulls cv) n (cv_size cv - n) = Some bm /\
    zlen bm = (cv_size cv + 7) / 8 /\ Forall is_byte bm /\
    forall j, 0 <= j < cv_size cv - n ->
      bit_get (vec_resize 0 ((cv_size cv - n + 7) / 8) bm) j = bit_get (cv_nulls cv) (j + n).
Proof.
  intros Hwf Hn En. destruct (cw_nulls _ Hwf En) as [Hl Hb].
  destruct (shift_nulls_ok (cv_nulls cv) n (cv_size cv - n)) as (bm & -> & H1 & H2 & H3);
    [done|lia|lia|rewrite Hl; zlia|].
  exists bm. split_and!; [done|congruence|done|]. intros j Hj.
  assert (0 <= (cv_size cv - n + 7) / 8) by (apply Z.div_pos; lia).
  rewrite bit_get_vec_resize, bool_decide_true by (lia || zlia). by apply H3.
Qed.

(** What a dropped prefix leaves. *)
Definition dropped (cv cv' : ColumnVector) (n : Z) : Prop :=
  cv_wf cv' /\ same_header cv cv' /\ cv_size cv' = cv_size cv - n /\
  cv_values cv' = drop (Z.to_nat n) (cv_values cv).

Lemma drop_prefix_str cv n : cv_wf cv -> is_varchar (cv_type cv) = true -> 0 < n <= cv_size cv ->
  exists cv', cv_drop_prefix cv n = Some cv' /\ dropped cv cv' n.
Proof.
  intros Hwf Hv Hn. pose proof (cw_str _ Hwf Hv) as Hl.
  assert (Hlen : zlen (drop (Z.to_nat n) (cv_str cv)) = cv_size cv - n)
    by (unfold zlen in *; rewrite length_drop; lia).
  assert (Hraw : forall b sz bm j, 0 <= j -> j + n < cv_size cv ->
    raw (mkCV (cv_type cv) b (cv_has_nulls cv) sz (cv_data cv) (drop (Z.to_nat n) (cv_str cv)) bm) j =
    raw cv (j + n)).
  { intros b sz bm j Hj Hj'. unfold raw. simpl. rewrite Hv. f_equal. rewrite !nth_lookup, lookup_drop.
    do 2 f_equal. lia. }
  unfold cv_drop_prefix. rewrite (proj2 (Z.leb_le _ _)), (proj2 (Z.eqb_neq _ _)) by lia.
  cbv zeta. rewrite Hv, Hl, (proj2 (Z.leb_le _ _)) by lia.
  change (cv_nullable (with_str _ _)) with (cv_nullable cv).
  change (cv_nulls (with_str _ _)) with (cv_nulls cv).
  destruct (cv_nullable cv) eqn:En.
  - destruct (shift_null_at cv n) as (bm & -> & H1 & H2 & H3); [done|lia|done|].
    eexists. split; [done|]. unfold with_size, with_nulls, with_str. simpl. split_and!; try done.
    + split; simpl; [apply Hwf|lia|congruence|done|]. intros _.
      assert (0 <= (cv_size cv - n + 7) / 8) by (apply Z.div_pos; lia).
      rewrite zlen_vec_resize by done. split; [done|]. by apply Forall_vec_resize.
    + apply dropped_values; simpl; try done; [lia|intros; apply Hraw; lia|].
      intros j Hj. unfold null_at. simpl. by rewrite En, H3.
  - eexists. split; [done|]. unfold with_size, with_str. simpl. split_and!; try done.
    + split; simpl; [apply Hwf|lia|congruence|done|congruence].
    + apply dropped_values; simpl; try done; [lia|intros; apply Hraw; lia|].
      intros j Hj. unfold null_at. simpl. by rewrite En.
Qed.

(** [memmove] of the kept slots to the front. *)
Lemma shift_data cv n : cv_wf cv -> is_varchar (cv_type cv) = false -> 0 < n <= cv_size cv ->
  exists cv1,
    (if cv_size cv - n >? 0 then
       let! d := load (n * elem_size (cv_type cv)) ((cv_size cv - n) * elem_size (cv_type cv)) (cv_data cv) in
       let! d := store 0 d (cv_data cv) in Some (with_data cv d)
     else Some cv) = Some cv1 /\
    cv_wf cv1 /\ same_header cv cv1 /\ cv_size cv1 = cv_size cv /\ cv_nulls cv1 = cv_nulls cv /\
    forall j, 0 <= j -> j + n < cv_size cv -> raw cv1 j = raw cv (j + n).
Proof.
  intros Hwf Hv Hn. destruct (cw_data _ Hwf Hv) as [Hl Hb].
  pose proof (elem_size_pos _ (cw_type _ Hwf) Hv). set (e := elem_size (cv_type cv)) in *.
  rewrite Z.gtb_ltb. destruct (Z.ltb_spec 0 (cv_size cv - n)).
  - unfold load, store. rewrite (proj2 (Z.leb_le _ _)) by nia.
    assert (Hsl : zlen (slice (n * e) ((cv_size cv - n) * e) (cv_data cv)) = (cv_size cv - n) * e).
    { unfold zlen at 1. rewrite slice_length by nia. nia. }
    rewrite Hsl, (proj2 (Z.leb_le _ _)) by nia. eexists. split; [done|].
    assert (Hwf1 : cv_wf (with_data cv (splice 0 (slice (n * e) ((cv_size cv - n) * e) (cv_data cv)) (cv_data cv)))).
    { destruct Hwf. split; simpl; try done. intros _. rewrite zlen_splice by nia. split; [done|].
      apply Forall_splice; [by apply Forall_slice|done]. }
    split_and!; try done. intros j Hj Hj'. unfold raw. simpl. rewrite Hv. fold e. f_equal.
    transitivity (slice (j * e) e (slice (n * e) ((cv_size cv - n) * e) (cv_data cv))).
    + unfold splice. simpl. rewrite <- (app_nil_l (slice _ _ (cv_data cv))) at 1. simpl.
      unfold slice at 1. rewrite drop_app_le, take_app_le; [done|..];
        rewrite ?length_drop; unfold zlen in Hsl; nia.
    + rewrite slice_slice by nia. f_equal. lia.
  - exists cv. split_and!; try done. lia.
Qed.

Lemma drop_prefix_data cv n : cv_wf cv -> is_varchar (cv_type cv) = false -> 0 < n <= cv_size cv ->
  exists cv', cv_drop_prefix cv n = Some cv' /\ dropped cv cv' n.
Proof.
  intros Hwf Hv Hn. destruct (shift_data cv n) as (cv1 & Hd & Hwf1 & [Ht Hnl] & Hs & Hb & Hraw); [done..|].
  unfold cv_drop_prefix. rewrite (proj2 (Z.leb_le _ _)), (proj2 (Z.eqb_neq _ _)) by lia.
  cbv zeta. rewrite Hv, Hd, Hnl, Hb.
  assert (Hnulls : exists cv2,
    (if cv_nullable cv then
       let! bm := shift_nulls (cv_nulls cv) n (cv_size cv - n) in Some (with_nulls cv1 bm)
     else Some cv1) = Some cv2 /\ cv_wf cv2 /\ same_header cv cv2 /\ cv_size cv2 = cv_size cv /\
    (forall j, raw cv2 j = raw cv1 j) /\
    forall j, 0 <= j < cv_size cv - n -> null_at cv2 j = null_at cv (j + n)).
  { destruct (cv_nullable cv) eqn:En.
    - destruct (cw_nulls _ Hwf En) as [Hl Hby].
      destruct (shift_nulls_ok (cv_nulls cv) n (cv_size cv - n)) as (bm & -> & H1 & H2 & H3);
        [done|lia|lia|rewrite Hl; zlia|].
      eexists. split; [done|]. split_and!; [|split; simpl; congruence|done|done|].
      + apply with_nulls_wf; [done|congruence|done].
      + intros j Hj. unfold null_at. simpl. rewrite Hnl, En. by apply H3.
    - exists cv1. split_and!; [done..|split; congruence|done|done|].
      intros j Hj. unfold null_at. by rewrite Hnl, En. }
  destruct Hnulls as (cv2 & -> & Hwf2 & Hh2 & Hs2 & Hraw2 & Hnull).
  eexists. split; [done|]. destruct (cv_resize_header cv2 (cv_size cv - n)) as [Hh3 Hs3].
  split_and!; [apply cv_resize_wf; [done|lia]|by eapply same_header_trans|done|].
  apply dropped_values; [done|lia|done|by eapply same_header_trans|..].
  - intros j Hj. rewrite cv_resize_raw by (done || lia). rewrite Hraw2. apply Hraw; lia.
  - intros j Hj. rewrite cv_resize_null_at by lia. by apply Hnull.
Qed.

Lemma cv_drop_prefix_ok cv n : cv_wf cv -> 0 <= n <= cv_size cv ->
  exists cv', cv_drop_prefix cv n = Some cv' /\ dropped cv cv' n.
Proof.
  intros Hwf Hn. destruct (decide (n = 0)) as [->|].
  { exists cv. unfold cv_drop_prefix. rewrite (proj2 (Z.leb_le _ _)) by lia. simpl.
    split; [done|]. split_and!; [done..|lia|done]. }
  destruct (is_varchar (cv_type cv)) eqn:Hv;
    [apply drop_prefix_str|apply drop_prefix_data]; (done || lia).
Qed.

(** ** Compaction by a mask *)

(** A mask value that keeps its row: a non-zero integer; NULL does not. *)
Definition keeps (v : Value) : bool := match v with VI32 x => negb (x =? 0) | _ => false end.

(** The elements whose flag is set. *)
Fixpoint select {A} (flags : list bool) (l : list A) : list A :=
  match flags, l with
  | b :: flags', a :: l' => if b then a :: select flags' l' else select flags' l'
  | _, _ => []
  end.

Definition mask_flags (mask : ColumnVector) : list bool := map keeps (cv_values mask).

Lemma select_app {A} f1 f2 (l1 l2 : list A) : length f1 = length l1 ->
  select (f1 ++ f2) (l1 ++ l2) = select f1 l1 ++ select f2 l2.
Proof.
  revert l1. induction f1 as [|b f1 IH]; intros [|a l1] H; try done. simpl in *.
  rewrite IH by lia. by destruct b.
Qed.

Lemma length_select {A} flags (l : list A) : (length (select flags l) <= length l)%nat.
Proof.
  revert l. induction flags as [|b flags IH]; intros [|a l]; simpl; try lia.
  destruct b; simpl; specialize (IH l); lia.
Qed.

Lemma select_map {A B} (f : A -> B) flags l : select flags (map f l) = map f (select flags l).
Proof.
  revert l. induction flags as [|[] flags IH]; intros [|a l]; simpl; try done. by rewrite IH.
Qed.

Lemma select_take_S {A} flags (l : list A) k (b : bool) a :
  flags !! k = Some b -> l !! k = Some a ->
  select (take (S k) flags) (take (S k) l) =
    select (take k flags) (take k l) ++ (if b then [a] else []).
Proof.
  intros Hb Ha. rewrite (take_S_r _ _ _ Hb), (take_S_r _ _ _ Ha).
  pose proof (lookup_lt_Some _ _ _ Hb). pose proof (lookup_lt_Some _ _ _ Ha).
  rewrite select_app by (rewrite !length_take; lia). by destruct b.
Qed.

Lemma mask_keeps_ok mask r : cv_wf mask -> cv_type mask = INT32 -> 0 <= r < cv_size mask ->
  mask_keeps mask r = Some (keeps (cell mask r)).
Proof.
  intros Hwf Ht Hr. unfold mask_keeps. rewrite cv_is_null_ok by done. unfold cell.
  destruct (null_at mask r) eqn:En; [done|].
  assert (Hc : raw mask r = VI32 (signed 32 (le_val (slice (r * 4) 4 (cv_data mask)))))
    by (unfold raw; by rewrite Ht).
  rewrite (cv_get_i32_ok mask r (signed 32 (le_val (slice (r * 4) 4 (cv_data mask))))); [by rewrite Hc|done..|].
  unfold cell. by rewrite En.
Qed.

Lemma move_slot_data cv r w : cv_wf cv -> 0 <= r < cv_size cv -> 0 <= w < cv_size cv -> w <> r ->
  exists cv1,
    (if is_varchar (cv_type cv) then
      let! s := cv_str cv !! Z.to_nat r in
      assert (w <? zlen (cv_str cv)) in
      Some (with_str cv (<[Z.to_nat w := s]> (<[Z.to_nat r := EmptyString]> (cv_str cv))))
    else
      let! b := load (r * elem_size (cv_type cv)) (elem_size (cv_type cv)) (cv_data cv) in
      let! d := store (w * elem_size (cv_type cv)) b (cv_data cv) in
      Some (with_data cv d)) = Some cv1 /\
    cv_wf cv1 /\ same_header cv cv1 /\ cv_size cv1 = cv_size cv /\ cv_nulls cv1 = cv_nulls cv /\
    raw cv1 w = raw cv r /\
    forall j, 0 <= j < cv_size cv -> j <> w -> j <> r -> raw cv1 j = raw cv j.
Proof.
  intros Hwf Hr Hw Hne. destruct (is_varchar (cv_type cv)) eqn:Hv.
  - rewrite nth_str by done. rewrite (cw_str _ Hwf Hv), (proj2 (Z.ltb_lt _ _)) by lia.
    destruct (insert_str cv r EmptyString) as [Hwf1 Hraw1]; [done..|].
    destruct (insert_str (with_str cv (<[Z.to_nat r := EmptyString]> (cv_str cv))) w
      (nth (Z.to_nat r) (cv_str cv) EmptyString)) as [Hwf2 Hraw2]; [done..|].
    eexists. split; [done|]. split_and!; try done.
    + etransitivity; [apply (Hraw2 w); lia|]. rewrite decide_True by done. unfold raw. by rewrite Hv.
    + intros j Hj H1 H2. etransitivity; [apply (Hraw2 j); lia|]. rewrite decide_False by done.
      rewrite Hraw1, decide_False by (done || lia). done.
  - rewrite load_slot by done. destruct (slot_bytes cv r) as [Hl Hb]; [done..|].
    destruct (store_slot cv w (slice (r * elem_size (cv_type cv)) (elem_size (cv_type cv)) (cv_data cv)))
      as (d & -> & Hwf1 & Hraw); [done..|].
    eexists. split; [done|]. split_and!; try done.
    + rewrite Hraw, decide_True by done. unfold raw. by rewrite Hv.
    + intros j Hj H1 H2. by rewrite Hraw, decide_False.
Qed.

Lemma move_slot_ok cv r w : cv_wf cv -> 0 <= r < cv_size cv -> 0 <= w < cv_size cv -> w <> r ->
  exists cv', move_slot cv r w = Some cv' /\ cv_wf cv' /\ same_header cv cv' /\
    cv_size cv' = cv_size cv /\ cell cv' w = cell cv r /\
    forall j, 0 <= j < cv_size cv -> j <> w -> j <> r -> cell cv' j = cell cv j.
Proof.
  intros Hwf Hr Hw Hne. destruct (move_slot_data cv r w)
    as (cv1 & Hd & Hwf1 & [Ht Hnl] & Hs & Hb & Hraww & Hraw); [done..|].
  unfold move_slot. cbv zeta. rewrite Hd, Hnl, Hb. destruct (cv_nullable cv) eqn:En.
  - destruct (cw_nulls _ Hwf En) as [Hl Hby].
    destruct (move_null_ok (cv_nulls cv) r w) as (bm & -> & H1 & H2 & H3); [done|rewrite Hl; zlia..|].
    eexists. split; [done|]. split_and!; [|split; simpl; congruence|done|..].
    + apply with_nulls_wf; [done|congruence|done].
    + unfold cell, null_at. simpl. rewrite Hnl, En, H3, decide_True by lia.
      change (raw (with_nulls cv1 bm)) with (raw cv1). by rewrite Hraww.
    + intros j Hj Hjw Hjr. unfold cell, null_at. simpl. rewrite Hnl, En, H3, decide_False by lia.
      change (raw (with_nulls cv1 bm)) with (raw cv1). by rewrite Hraw.
  - exists cv1. split_and!; [done|done|split; congruence|done|..].
    + unfold cell, null_at. by rewrite Hnl, En, Hraww.
    + intros j Hj Hjw Hjr. unfold cell, null_at. by rewrite Hnl, En, Hraw.
Qed.

(** After [r] rows: the first [w] slots hold the kept values, the rest is as before. *)
Record compacted (cv mask : ColumnVector) (r : Z) (st : ColumnVector * Z) : Prop := {
  cp_wf : cv_wf st.1;
  cp_header : same_header cv st.1;
  cp_size : cv_size st.1 = cv_size cv;
  cp_w : st.2 = zlen (select (take (Z.to_nat r) (mask_flags mask)) (take (Z.to_nat r) (cv_values cv)));
  cp_kept k v : select (take (Z.to_nat r) (mask_flags mask)) (take (Z.to_nat r) (cv_values cv)) !! k = Some v ->
    cell st.1 (Z.of_nat k) = v;
  cp_rest j : r <= j < cv_size cv -> cell st.1 j = cell cv j
}.

Lemma compact_step cv mask r st : cv_wf cv -> cv_wf mask -> cv_type mask = INT32 ->
  cv_size mask = cv_size cv -> 0 <= r < cv_size cv -> compacted cv mask r st ->
  exists st', compact_body mask r st = Some st' /\ compacted cv mask (r + 1) st'.
Proof.
  intros Hwf Hm Hmt Hms Hr [Hwf1 Hh Hs Hw Hk Hrest]. destruct st as [cv1 w]. cbn [fst snd] in *.
  assert (Hsel : select (take (Z.to_nat (r + 1)) (mask_flags mask)) (take (Z.to_nat (r + 1)) (cv_values cv)) =
    select (take (Z.to_nat r) (mask_flags mask)) (take (Z.to_nat r) (cv_values cv)) ++
      (if keeps (cell mask r) then [cell cv r] else [])).
  { replace (Z.to_nat (r + 1)) with (S (Z.to_nat r)) by lia. apply select_take_S.
    - unfold mask_flags. rewrite list_lookup_fmap, lookup_cv_values by lia. simpl.
      by rewrite Z2Nat.id by lia.
    - rewrite lookup_cv_values by lia. by rewrite Z2Nat.id by lia. }
  assert (Hwr : 0 <= w <= r).
  { rewrite Hw. split; [apply zlen_nonneg|]. unfold zlen.
    pose proof (length_select (take (Z.to_nat r) (mask_flags mask)) (take (Z.to_nat r) (cv_values cv))) as Hle.
    rewrite length_take in Hle. lia. }
  unfold compact_body. rewrite mask_keeps_ok by (done || lia).
  destruct (keeps (cell mask r)).
  - assert (Hmove : exists cv2, (if negb (w =? r) then move_slot cv1 r w else Some cv1) = Some cv2 /\
      cv_wf cv2 /\ same_header cv1 cv2 /\ cv_size cv2 = cv_size cv1 /\ cell cv2 w = cell cv r /\
      forall j, 0 <= j < cv_size cv1 -> j <> w -> j <> r -> cell cv2 j = cell cv1 j).
    { destruct (Z.eqb_spec w r) as [->|]; simpl.
      - exists cv1. split_and!; try done. apply Hrest. lia.
      - rewrite <- (Hrest r) by lia. apply move_slot_ok; (done || lia). }
    destruct Hmove as (cv2 & -> & Hwf2 & Hh2 & Hs2 & Hcw & Hco). eexists. split; [done|].
    split; cbn [fst snd]; rewrite ?Hsel; [done|by eapply same_header_trans|congruence|..].
    + rewrite zlen_app. simpl. change (zlen [cell cv r]) with 1. lia.
    + intros k v [Hkv|[Hge Hkv]]%lookup_app_Some.
      * pose proof (lookup_lt_Some _ _ _ Hkv) as Hlt. unfold zlen in Hw.
        rewrite Hco by lia. by apply Hk.
      * apply list_lookup_singleton_Some in Hkv as [Hk0 <-]. rewrite <- Hcw. f_equal.
        unfold zlen in Hw. lia.
    + intros j Hj. rewrite Hco by lia. apply Hrest. lia.
  - eexists. split; [done|]. split; cbn [fst snd]; rewrite ?Hsel, ?app_nil_r; try done.
    intros j Hj. apply Hrest. lia.
Qed.

(** Compaction keeps the rows of the mask, in order. *)
Lemma cv_compact_ok cv mask : cv_wf cv -> cv_wf mask -> cv_type mask = INT32 ->
  cv_size mask = cv_size cv ->
  exists cv', cv_compact_in_place cv mask = Some cv' /\ cv_wf cv' /\ same_header cv cv' /\
    cv_size cv' = zlen (select (mask_flags mask) (cv_values cv)) /\
    cv_values cv' = select (mask_flags mask) (cv_values cv).
Proof.
  intros Hwf Hm Hmt Hms. pose proof (cw_size _ Hwf).
  unfold cv_compact_in_place. rewrite bool_decide_true, Hms, Z.eqb_refl by done.
  destruct (loop_inv (compacted cv mask) (cv_size cv) (compact_body mask) (cv, 0))
    as ([cv1 w] & Heq & [Hwf1 Hh Hs Hw Hk _]); [done|by split| |].
  { intros i st Hi Hinv. by apply (compact_step cv). }
  rewrite Heq. clear Heq. cbn [fst snd] in *.
  rewrite !take_ge in * by (unfold mask_flags; rewrite ?length_map, length_cv_values; lia).
  assert (Hle : 0 <= w <= cv_size cv1).
  { rewrite Hw, Hs. split; [apply zlen_nonneg|]. unfold zlen.
    pose proof (length_select (mask_flags mask) (cv_values cv)) as Hl. rewrite length_cv_values in Hl. lia. }
  eexists. split; [done|]. destruct (cv_resize_header cv1 w) as [Hh2 Hs2].
  split_and!; [by apply cv_resize_wf; [|lia]|by eapply same_header_trans|congruence|].
  apply cv_values_eq; [congruence|]. intros k v Hkv. pose proof (lookup_lt_Some _ _ _ Hkv) as Hlt.
  unfold zlen in Hw. rewrite cv_resize_cell by (done || lia). by apply Hk.
Qed.
