(* ===== verification/Chunk.v ===== *)
(** * Chunks

    [Chunk] (src/src/executor/chunk.h): a batch of rows as column vectors of one length, with
    an optional selection vector that restricts and orders the rows it shows.  The abstract
    content is the list [chunk_rows] of rows; every operation is an operation on that list,
    with or without a selection. *)

From S2P Require Import Prelude Types SelectionVector ColumnVector.

Record Chunk : Type := mkChunk {
  ck_row_count : Z;
  ck_columns : list ColumnVector;
  ck_sel : option SelectionVector
}.

(** The constructor. *)
Definition chunk_new (row_count : Z) (columns : list ColumnVector) : option Chunk :=
  assert (forallb (fun c => cv_size c =? row_count) columns) in
  Some (mkChunk row_count columns None).

Definition logical_size (c : Chunk) : Z :=
  match ck_sel c with Some sv => sv_size sv | None => ck_row_count c end.

Definition set_sel (c : Chunk) (sv : SelectionVector) : option Chunk :=
  assert (sv_row_count sv =? ck_row_count c) in
  Some (mkChunk (ck_row_count c) (ck_columns c) (Some sv)).

Definition chunk_resize (c : Chunk) (k : Z) : option Chunk :=
  match ck_sel c with
  | Some sv =>
      assert (k <=? sv_size sv) in
      Some (mkChunk (ck_row_count c) (ck_columns c) (Some (sel_truncate sv k)))
  | None =>
      assert (k <=? ck_row_count c) in
      Some (mkChunk k (map (fun col => cv_resize col k) (ck_columns c)) None)
  end.

Definition chunk_drop_prefix (c : Chunk) (n : Z) : option Chunk :=
  match ck_sel c with
  | Some sv =>
      assert (n <=? sv_size sv) in
      let! sv' := sel_drop_prefix sv n in
      Some (mkChunk (ck_row_count c) (ck_columns c) (Some sv'))
  | None =>
      assert (n <=? ck_row_count c) in
      let! cols := mapM (fun col => cv_drop_prefix col n) (ck_columns c) in
      Some (mkChunk (ck_row_count c - n) cols None)
  end.

Definition chunk_compact_in_place (c : Chunk) (mask : ColumnVector) : option Chunk :=
  match ck_sel c with
  | Some _ => None
  | None =>
      assert (cv_size mask =? ck_row_count c) in
      let! cols := mapM (fun col => cv_compact_in_place col mask) (ck_columns c) in
      Some (mkChunk (match cols with [] => 0 | col :: _ => cv_size col end) cols None)
  end.

(** The rows of a selection whose mask value keeps them; [k] counts the callbacks. *)
Definition keep_by_mask (mask : ColumnVector) (sel : SelectionVector) : option (list Z) :=
  let! (keep, _) :=
    each (for_each sel) (fun phys '(keep, k) =>
      let! b := mask_keeps mask k in
      Some (if b : bool then keep ++ [phys] else keep, k + 1)) ([], 0) in
  Some keep.

Definition chunk_compact_from_sel (c : Chunk) (mask : ColumnVector) : option Chunk :=
  match ck_sel c with
  | None => None
  | Some sel =>
      assert (cv_size mask =? sv_size sel) in
      let! keep := keep_by_mask mask sel in
      let keep_sel := from_dense keep (wrap 32 (ck_row_count c)) in
      let! cols := mapM (fun col => gather_via_sel col keep_sel) (ck_columns c) in
      Some (mkChunk (sv_size keep_sel) cols None)
  end.

Definition materialize (c : Chunk) : option Chunk :=
  match ck_sel c with
  | None => Some c
  | Some sel =>
      let! cols := mapM (fun col => gather_via_sel col sel) (ck_columns c) in
      Some (mkChunk (sv_size sel) cols None)
  end.

(** ** Content and invariant *)

Abbreviation row := (list Value).

Definition row_at (cols : list ColumnVector) (i : Z) : row := map (fun cv => cell cv i) cols.

(** The physical rows the chunk shows, in order. *)
Definition shown (c : Chunk) : list Z :=
  match ck_sel c with Some sv => for_each sv | None => zrange 0 (ck_row_count c) end.

Definition chunk_rows (c : Chunk) : list row := map (row_at (ck_columns c)) (shown c).

(** The type and nullability of each column. *)
Abbreviation signature := (list (TypeId * bool)).

Definition col_ok (n : Z) (s : TypeId * bool) (cv : ColumnVector) : Prop :=
  cv_wf cv /\ cv_type cv = s.1 /\ cv_nullable cv = s.2 /\ cv_size cv = n.

(** The largest row count for which [(row_count + 7u) / 8u] does not wrap. *)
Definition MAX_ROWS : Z := 2 ^ 32 - 8.

Record chunk_wf (sg : signature) (c : Chunk) : Prop := {
  ckw_rows : 0 <= ck_row_count c <= MAX_ROWS;
  ckw_cols : Forall2 (col_ok (ck_row_count c)) sg (ck_columns c);
  ckw_sel sv : ck_sel c = Some sv ->
    sel_wf sv /\ sv_row_count sv = ck_row_count c /\ zlen (for_each sv) <= MAX_ROWS
}.

(** ** Lemmas *)

Lemma mapM_exists {A B} (f : A -> option B) (R : A -> B -> Prop) l :
  Forall (fun a => exists b, f a = Some b /\ R a b) l ->
  exists l', mapM f l = Some l' /\ Forall2 R l l'.
Proof.
  induction 1 as [|a l (b & Hb & HR) _ (l' & Hl' & HRs)]; [exists []; split; [done|constructor]|].
  exists (b :: l'). split; [|by constructor]. simpl. by rewrite Hb, Hl'.
Qed.

Lemma col_ok_sizes n sg cols : Forall2 (col_ok n) sg cols -> Forall (fun cv => cv_wf cv /\ cv_size cv = n) cols.
Proof. induction 1 as [|s cv sg cols (? & ? & ? & ?)]; constructor; auto. Qed.

(** [cv'] shows the rows [idx] of [cv]. *)
Definition picks (idx : list Z) (cv cv' : ColumnVector) : Prop :=
  cv_wf cv' /\ same_header cv cv' /\ cv_size cv' = zlen idx /\ cv_values cv' = map (cell cv) idx.

Lemma picks_col_ok n idx sg cols cols' : Forall2 (col_ok n) sg cols -> Forall2 (picks idx) cols cols' ->
  Forall2 (col_ok (zlen idx)) sg cols'.
Proof.
  intros Hc. revert cols'. induction Hc as [|s cv sg cols (? & ? & ? & ?) _ IH]; intros cols' Hp;
    inversion_clear Hp as [|? cv' ? cols1 (? & (? & ?) & ? & ?)]; constructor; [|by apply IH].
  split_and!; congruence || done.
Qed.

Lemma picks_cell idx cv cv' k i : picks idx cv cv' -> idx !! k = Some i ->
  cell cv' (Z.of_nat k) = cell cv i.
Proof.
  intros (Hwf & _ & Hs & Hv) Hk. pose proof (lookup_lt_Some _ _ _ Hk) as Hlt.
  assert (Hl : cv_values cv' !! k = Some (cell cv i)) by (by rewrite Hv, list_lookup_fmap, Hk).
  rewrite lookup_cv_values in Hl by (unfold zlen in Hs; lia). by injection Hl.
Qed.

(** Rows of columns that pick rows are the picked rows. *)
Lemma picks_rows idx cols cols' : Forall2 (picks idx) cols cols' ->
  map (row_at cols') (zrange 0 (zlen idx)) = map (row_at cols) idx.
Proof.
  intros H. apply list_eq. intros k. rewrite !list_lookup_fmap.
  destruct (idx !! k) as [i|] eqn:Hk.
  - pose proof (lookup_lt_Some _ _ _ Hk) as Hlt.
    rewrite lookup_zrange by (unfold zlen; lia). simpl. f_equal. unfold row_at.
    rewrite Z.add_0_l. clear Hlt.
    induction H as [|cv cv' cols cols' Hp _ IH]; simpl; [done|].
    f_equal; [by eapply picks_cell|done].
  - apply lookup_ge_None in Hk. rewrite (proj2 (lookup_ge_None _ _)); [done|].
    rewrite length_zrange. unfold zlen. lia.
Qed.

Lemma shown_in sg c : chunk_wf sg c -> Forall (fun i => 0 <= i < ck_row_count c) (shown c).
Proof.
  intros [Hr _ Hs]. unfold shown. destruct (ck_sel c) as [sv|].
  - destruct (Hs sv eq_refl) as (Hwf & <- & _). apply Hwf.
  - apply Forall_lookup. intros k i [-> Hk]%lookup_zrange_Some. lia.
Qed.

Lemma logical_size_ok sg c : chunk_wf sg c -> logical_size c = zlen (shown c).
Proof.
  intros [Hr _ Hs]. unfold logical_size, shown. destruct (ck_sel c) as [sv|].
  - destruct (Hs sv eq_refl) as (Hwf & _). apply Hwf.
  - by rewrite zlen_zrange by lia.
Qed.

Lemma logical_size_rows sg c : chunk_wf sg c -> logical_size c = zlen (chunk_rows c).
Proof.
  intros H. rewrite (logical_size_ok sg) by done. unfold chunk_rows, zlen. by rewrite length_map.
Qed.

(** A chunk without selection built from columns that pick the rows [idx]. *)
Lemma picked_chunk sg c idx cols : chunk_wf sg c -> Forall2 (picks idx) (ck_columns c) cols ->
  zlen idx <= MAX_ROWS ->
  chunk_wf sg (mkChunk (zlen idx) cols None) /\
  chunk_rows (mkChunk (zlen idx) cols None) = map (row_at (ck_columns c)) idx.
Proof.
  intros [Hr Hc Hs] Hp Hm. split; [|by apply picks_rows].
  split; simpl; [pose proof (zlen_nonneg idx); lia|by eapply picks_col_ok|done].
Qed.

Lemma take_picks cv k : cv_wf cv -> 0 <= k <= cv_size cv ->
  picks (zrange 0 k) cv (cv_resize cv k).
Proof.
  intros Hwf Hk. destruct (cv_resize_header cv k) as [Hh Hs].
  split_and!; [by apply cv_resize_wf; [|lia]|done|by rewrite zlen_zrange by lia|].
  rewrite cv_resize_take by done. unfold cv_values. rewrite firstn_map. f_equal.
  unfold zrange. rewrite firstn_map, take_seq. do 2 f_equal. lia.
Qed.

Lemma zrange_take n k : 0 <= k <= n -> zrange 0 k = take (Z.to_nat k) (zrange 0 n).
Proof. intros. unfold zrange. rewrite firstn_map, take_seq. do 2 f_equal. lia. Qed.

Lemma chunk_resize_ok sg c k : chunk_wf sg c -> 0 <= k <= logical_size c ->
  exists c', chunk_resize c k = Some c' /\ chunk_wf sg c' /\
    chunk_rows c' = take (Z.to_nat k) (chunk_rows c).
Proof.
  intros Hwf Hk. pose proof Hwf as [Hr Hc Hs]. unfold chunk_resize, logical_size in *.
  destruct (ck_sel c) as [sv|] eqn:Es.
  - destruct (Hs sv eq_refl) as (Hsv & Hrc & Hmax). rewrite (proj2 (Z.leb_le _ _)) by lia.
    destruct (truncate_ok sv k) as (H1 & H2 & H3); [done|lia|].
    eexists. split; [done|]. split.
    + split; simpl; [done..|]. intros ? [= <-]. split_and!; [done|congruence|]. rewrite H3.
      unfold zlen in *. rewrite length_take. lia.
    + unfold chunk_rows, shown. simpl. by rewrite Es, H3, firstn_map.
  - rewrite (proj2 (Z.leb_le _ _)) by lia. eexists. split; [done|].
    assert (Hp : Forall2 (picks (zrange 0 k)) (ck_columns c) (map (fun col => cv_resize col k) (ck_columns c))).
    { apply Forall2_fmap_r, Forall_Forall2_diag. eapply Forall_impl; [by eapply col_ok_sizes|].
      intros cv [? ?]. apply take_picks; [done|lia]. }
    destruct (picked_chunk sg c (zrange 0 k) _ Hwf Hp) as [H1 H2]; [rewrite zlen_zrange; lia|].
    rewrite zlen_zrange in H1, H2 by lia. split; [done|]. rewrite H2.
    unfold chunk_rows, shown. rewrite Es, firstn_map. f_equal. by apply zrange_take.
Qed.

Lemma chunk_drop_prefix_ok sg c n : chunk_wf sg c -> 0 <= n <= logical_size c ->
  exists c', chunk_drop_prefix c n = Some c' /\ chunk_wf sg c' /\
    chunk_rows c' = drop (Z.to_nat n) (chunk_rows c).
Proof.
  intros Hwf Hn. pose proof Hwf as [Hr Hc Hs]. unfold chunk_drop_prefix.
  pose proof (logical_size_ok _ _ Hwf) as Hls. unfold logical_size, shown in *.
  destruct (ck_sel c) as [sv|] eqn:Es.
  - destruct (Hs sv eq_refl) as (Hsv & Hrc & Hmax). rewrite (proj2 (Z.leb_le _ _)) by lia.
    destruct (drop_prefix_ok sv n) as (sv' & -> & H1 & H2 & H3); [done|lia|].
    eexists. split; [done|]. split.
    + split; simpl; [done..|]. intros ? [= <-]. split_and!; [done|congruence|]. rewrite H3.
      unfold zlen in *. rewrite length_drop. lia.
    + unfold chunk_rows, shown. simpl. by rewrite Es, H3, skipn_map.
  - rewrite (proj2 (Z.leb_le _ _)) by lia.
    set (idx := drop (Z.to_nat n) (zrange 0 (ck_row_count c))).
    assert (Hlen : zlen idx = ck_row_count c - n).
    { unfold idx, zlen. rewrite length_drop, length_zrange. lia. }
    destruct (mapM_exists (fun col => cv_drop_prefix col n) (picks idx) (ck_columns c)) as (cols & -> & Hp).
    { eapply Forall_impl; [by eapply col_ok_sizes|]. intros cv [Hcv Hsz].
      destruct (cv_drop_prefix_ok cv n) as (cv' & -> & D1 & D2 & D3 & D4); [done|lia|].
      exists cv'. split; [done|]. split_and!; [done..|lia|]. rewrite D4. unfold cv_values, idx.
      by rewrite skipn_map, Hsz. }
    destruct (picked_chunk sg c idx cols Hwf Hp) as [H1 H2]; [lia|]. rewrite Hlen in H1, H2.
    eexists. split; [done|]. split; [done|]. rewrite H2. unfold chunk_rows, shown.
    by rewrite Es, skipn_map.
Qed.

(** A mask for the rows that the chunk shows. *)
Definition mask_ok (c : Chunk) (mask : ColumnVector) : Prop :=
  cv_wf mask /\ cv_type mask = INT32 /\ cv_size mask = logical_size c.

Lemma length_mask_flags mask : length (mask_flags mask) = Z.to_nat (cv_size mask).
Proof. unfold mask_flags. by rewrite length_map, length_cv_values. Qed.

Lemma lookup_mask_flags mask k : (k < Z.to_nat (cv_size mask))%nat ->
  mask_flags mask !! k = Some (keeps (cell mask (Z.of_nat k))).
Proof. intros. unfold mask_flags. by rewrite list_lookup_fmap, lookup_cv_values. Qed.

Lemma keep_by_mask_ok mask sel : cv_wf mask -> cv_type mask = INT32 ->
  cv_size mask = zlen (for_each sel) ->
  keep_by_mask mask sel = Some (select (mask_flags mask) (for_each sel)).
Proof.
  intros Hwf Ht Hs. unfold keep_by_mask.
  destruct (each_inv (fun k st => st.1 = select (take k (mask_flags mask)) (take k (for_each sel)) /\
      st.2 = Z.of_nat k) (for_each sel)
    (fun phys '(keep, k) => let! b := mask_keeps mask k in
      Some (if b : bool then keep ++ [phys] else keep, k + 1)) ([], 0)) as ([keep n] & -> & Hk & Hn);
    [done| |].
  - intros k phys [keep i] Hk [Hkeep Hi]. cbn [fst snd] in *. subst i.
    pose proof (lookup_lt_Some _ _ _ Hk) as Hlt. unfold zlen in Hs.
    rewrite mask_keeps_ok by (done || lia). eexists. split; [done|]. cbn [fst snd]. split; [|lia].
    rewrite (select_take_S _ _ _ _ _ (lookup_mask_flags mask k ltac:(lia)) Hk), <- Hkeep.
    by destruct (keeps _); rewrite ?app_nil_r.
  - cbn [fst] in Hk. rewrite Hk. unfold zlen in Hs. rewrite !take_ge; [done|done|].
    rewrite length_mask_flags. lia.
Qed.

Lemma Forall_select {A} (P : A -> Prop) flags l : Forall P l -> Forall P (select flags l).
Proof.
  intros H. revert flags. induction H as [|a l Ha _ IH]; intros [|[] flags]; simpl; auto.
Qed.

Lemma gather_picks sg c sel : chunk_wf sg c -> sel_wf sel ->
  Forall (fun i => 0 <= i < ck_row_count c) (for_each sel) ->
  exists cols, mapM (fun col => gather_via_sel col sel) (ck_columns c) = Some cols /\
    Forall2 (picks (for_each sel)) (ck_columns c) cols.
Proof.
  intros Hwf Hsel Hin. apply mapM_exists. eapply Forall_impl; [eapply col_ok_sizes, Hwf|].
  intros cv [Hcv Hsz]. destruct (gather_via_sel_ok cv sel) as (out & -> & H1 & H2 & H3 & H4); [done..| |].
  - eapply Forall_impl; [done|]. cbv beta. lia.
  - exists out. done.
Qed.

Lemma shown_le sg c flags : chunk_wf sg c -> zlen (select flags (shown c)) <= logical_size c.
Proof.
  intros Hwf. rewrite (logical_size_ok sg) by done. unfold zlen.
  pose proof (length_select flags (shown c)). lia.
Qed.

Lemma logical_size_bound sg c : chunk_wf sg c -> 0 <= logical_size c <= MAX_ROWS.
Proof.
  intros Hwf. pose proof (logical_size_ok _ _ Hwf) as Hl. pose proof (zlen_nonneg (shown c)).
  destruct Hwf as [Hr _ Hs]. unfold logical_size, shown in *. destruct (ck_sel c) as [sv|]; [|lia].
  destruct (Hs sv eq_refl) as (_ & _ & Hb). lia.
Qed.

Lemma compact_in_place_ok sg c mask : chunk_wf sg c -> mask_ok c mask -> ck_sel c = None -> sg <> [] ->
  exists c', chunk_compact_in_place c mask = Some c' /\ chunk_wf sg c' /\ ck_sel c' = None /\
    chunk_rows c' = select (mask_flags mask) (chunk_rows c).
Proof.
  intros Hwf (Hm & Ht & Hs) Es Hne. pose proof Hwf as [Hr Hc _]. unfold chunk_compact_in_place.
  assert (Hlog : logical_size c = ck_row_count c) by (unfold logical_size; by rewrite Es).
  rewrite Es, Hs, Hlog, Z.eqb_refl.
  set (idx := select (mask_flags mask) (zrange 0 (ck_row_count c))).
  destruct (mapM_exists (fun col => cv_compact_in_place col mask) (picks idx) (ck_columns c))
    as (cols & -> & Hp).
  { eapply Forall_impl; [by eapply col_ok_sizes|]. intros cv [Hcv Hsz].
    destruct (cv_compact_ok cv mask) as (cv' & -> & D1 & D2 & D3 & D4); [done..|lia|].
    exists cv'. split; [done|]. unfold cv_values in D3, D4 at 2. rewrite Hsz, select_map in D3, D4.
    fold idx in D3, D4. split_and!; [done..| |done]. rewrite D3. unfold zlen. by rewrite length_map. }
  assert (Hcnt : match cols with [] => 0 | col :: _ => cv_size col end = zlen idx).
  { inversion Hc; subst; [done|]. destruct Hp as [|cv cv' ? ? (? & ? & ? & ?)]; [done|].
    done. }
  rewrite Hcnt. pose proof (shown_le sg c (mask_flags mask) Hwf) as Hle.
  unfold shown in Hle. rewrite Es in Hle. fold idx in Hle.
  destruct (picked_chunk sg c idx cols Hwf Hp) as [H1 H2]; [lia|].
  eexists. split; [done|]. split_and!; [done..|]. rewrite H2. unfold chunk_rows, shown.
  by rewrite Es, select_map.
Qed.

Lemma compact_from_sel_ok sg c mask : chunk_wf sg c -> mask_ok c mask -> is_Some (ck_sel c) ->
  exists c', chunk_compact_from_sel c mask = Some c' /\ chunk_wf sg c' /\ ck_sel c' = None /\
    chunk_rows c' = select (mask_flags mask) (chunk_rows c).
Proof.
  intros Hwf (Hm & Ht & Hs) [sel Es].
  pose proof (logical_size_bound _ _ Hwf) as Hb. pose proof Hwf as [Hr Hc Hsel]. unfold MAX_ROWS in Hr.
  pose proof (logical_size_ok _ _ Hwf) as Hls.
  pose proof (shown_in _ _ Hwf) as Hin. pose proof (shown_le sg c (mask_flags mask) Hwf) as Hle.
  assert (Hsh : shown c = for_each sel) by (unfold shown; by rewrite Es).
  assert (Hlog : logical_size c = sv_size sel) by (unfold logical_size; by rewrite Es).
  unfold chunk_compact_from_sel. rewrite Es, Hs, Hlog, Z.eqb_refl.
  rewrite keep_by_mask_ok by (done || congruence). rewrite wrap_id by (unfold in_u; lia). cbv zeta.
  assert (Hkeep : Forall (fun i => 0 <= i < ck_row_count c) (select (mask_flags mask) (for_each sel)))
    by (apply Forall_select; by rewrite <- Hsh).
  destruct (gather_picks sg c (from_dense (select (mask_flags mask) (for_each sel)) (ck_row_count c)))
    as (cols & -> & Hp); [done|apply from_dense_wf; [unfold in_u; lia|done]|done|].
  change (for_each (from_dense ?l _)) with l in Hp. change (sv_size (from_dense ?l _)) with (zlen l).
  rewrite <- Hsh in *. destruct (picked_chunk sg c _ cols Hwf Hp) as [H1 H2]; [lia|].
  eexists. split; [done|]. split_and!; [done..|]. rewrite H2. unfold chunk_rows.
  by rewrite select_map.
Qed.

Lemma materialize_ok sg c : chunk_wf sg c ->
  exists c', materialize c = Some c' /\ chunk_wf sg c' /\ ck_sel c' = None /\
    ck_row_count c' = logical_size c /\ chunk_rows c' = chunk_rows c.
Proof.
  intros Hwf. pose proof Hwf as [Hr Hc Hsel]. pose proof (logical_size_ok _ _ Hwf) as Hls.
  pose proof (shown_in _ _ Hwf) as Hin. unfold materialize, logical_size, shown in *.
  destruct (ck_sel c) as [sel|] eqn:Es.
  - destruct (Hsel sel eq_refl) as (Hsv & Hrc & Hmax).
    destruct (gather_picks sg c sel) as (cols & -> & Hp); [done..|].
    rewrite (sw_size _ Hsv) in *.
    destruct (picked_chunk sg c _ cols Hwf Hp) as [H1 H2]; [done|].
    eexists. split; [done|]. split_and!; [done..|]. rewrite H2. unfold chunk_rows, shown. by rewrite Es.
  - exists c. done.
Qed.
