(* ===== verification/Expression.v ===== *)
(** * Expressions

    Vectorised expression evaluation (src/src/executor/expression.h, expression.cpp): every
    node evaluates its children over a whole chunk and combines the columns with a kernel
    that loops over the rows, with SQL's three-valued logic.  The reference semantics is
    [eval_row], which evaluates an expression on one row of values; [evaluate_rows] relates
    the two for every outcome.

    The result of an evaluation is [None] where the code has undefined behaviour: signed
    overflow (including [INT_MIN / -1]), an access out of range, or a failed assertion. *)

From Stdlib Require Import SpecFloat.
From S2P Require Import Prelude Types SelectionVector ColumnVector Chunk.

(** ** Syntax *)

Inductive BinaryOpKind : Type := ADD | SUB | MUL | DIV | LT | LE | EQ | GE | GT | NE.
Inductive LogicalOpKind : Type := AND | OR.
Inductive NullCheckKind : Type := IS_NULL | IS_NOT_NULL.

Inductive Expression : Type :=
| ColumnRef (index : nat) (type : TypeId)
| Literal (value : Value)
| BinaryOp (op : BinaryOpKind) (left right : Expression)
| LogicalOp (op : LogicalOpKind) (left right : Expression)
| NotOp (child : Expression)
| NullCheckOp (kind : NullCheckKind) (child : Expression).

Definition is_comparison (op : BinaryOpKind) : bool :=
  match op with LT | LE | EQ | GE | GT | NE => true | _ => false end.

Fixpoint output_type (e : Expression) : TypeId :=
  match e with
  | ColumnRef _ t => t
  | Literal v => variant_type v
  | BinaryOp op l _ => if is_comparison op then INT32 else output_type l
  | LogicalOp _ _ _ | NotOp _ | NullCheckOp _ _ => INT32
  end.

Definition comparison_only (t : TypeId) : bool :=
  match t with VARCHAR | BOOL | DATE | TIMESTAMP => true | _ => false end.

(** The assertions of the constructors. *)
Fixpoint built (e : Expression) : bool :=
  match e with
  | ColumnRef _ t => negb (bool_decide (t = INVALID))
  | Literal v => negb (bool_decide (variant_type v = INVALID))
  | BinaryOp op l r =>
      built l && built r && bool_decide (output_type l = output_type r) &&
      is_vec_type (output_type l) && (negb (comparison_only (output_type l)) || is_comparison op)
  | LogicalOp _ l r =>
      built l && built r && bool_decide (output_type l = INT32) && bool_decide (output_type r = INT32)
  | NotOp c => built c && bool_decide (output_type c = INT32)
  | NullCheckOp _ c =>
      built c && bool_decide (output_type c ∈ [INT32; INT64; DOUBLE; VARCHAR])
  end.

(** ** Double arithmetic *)

(** The NaN that an operation returns depends on the processor; the standard only says that
    it is a NaN. *)
Class Fpu : Type := {
  fpu_nan : Z -> Z -> Z;
  fpu_nan_range a b : in_u 64 (fpu_nan a b);
  fpu_nan_nan a b : f64_is_nan (fpu_nan a b) = true
}.

(** The number a bit pattern stands for, as the library's IEEE 754 model has it. *)
Definition sf_of_bits (b : Z) : spec_float :=
  let s := Z.testbit b 63 in
  let e := Z.land (Z.shiftr b 52) 2047 in
  let m := Z.land b (Z.ones 52) in
  if e =? 2047 then if m =? 0 then S754_infinity s else S754_nan
  else if e =? 0 then
    match m with Zpos p => S754_finite s p (-1074) | _ => S754_zero s end
  else
    match m + 2 ^ 52 with Zpos p => S754_finite s p (e - 1075) | _ => S754_zero s end.

Definition bits_of_sf (nan : Z) (x : spec_float) : Z :=
  let sign (s : bool) := if s then 2 ^ 63 else 0 in
  match x with
  | S754_zero s => sign s
  | S754_infinity s => sign s + Z.shiftl 2047 52
  | S754_nan => nan
  | S754_finite s m e =>
      if Zpos m <? 2 ^ 52 then wrap 64 (sign s + Zpos m)
      else wrap 64 (sign s + Z.shiftl (e + 1075) 52 + (Zpos m - 2 ^ 52))
  end.

Definition f64_le (a b : Z) : bool := f64_lt a b || f64_eq a b.

(** ** Kernels *)

Section kernels.
Context `{Fpu}.

Definition f64_op (f : spec_float -> spec_float -> spec_float) (a b : Z) : Z :=
  bits_of_sf (fpu_nan a b) (f (sf_of_bits a) (sf_of_bits b)).

(** The template parameter [T]: representation, arithmetic, comparison. *)
Record Num : Type := mkNum {
  nt_size : Z;
  nt_enc : Z -> bytes;
  nt_dec : bytes -> Z;
  nt_add : Z -> Z -> option Z;
  nt_sub : Z -> Z -> option Z;
  nt_mul : Z -> Z -> option Z;
  nt_div : Z -> Z -> option Z;
  nt_zero : Z -> bool;
  nt_lt : Z -> Z -> bool;
  nt_le : Z -> Z -> bool;
  nt_eq : Z -> Z -> bool
}.

(** Signed arithmetic is undefined when the result does not fit. *)
Definition checked (w z : Z) : option Z :=
  if (- 2 ^ (w - 1) <=? z) && (z <? 2 ^ (w - 1)) then Some z else None.

Definition nt_int (w : Z) (n : nat) : Num :=
  mkNum (Z.of_nat n) (le_bytes n) (fun bs => signed w (le_val bs))
    (fun a b => checked w (a + b)) (fun a b => checked w (a - b)) (fun a b => checked w (a * b))
    (fun a b => checked w (Z.quot a b)) (fun b => b =? 0) Z.ltb Z.leb Z.eqb.

Definition nt_i32 : Num := nt_int 32 4.
Definition nt_i64 : Num := nt_int 64 8.

Definition nt_f64 : Num :=
  mkNum 8 (le_bytes 8) le_val
    (fun a b => Some (f64_op (SFadd 53 1024) a b)) (fun a b => Some (f64_op (SFsub 53 1024) a b))
    (fun a b => Some (f64_op (SFmul 53 1024) a b)) (fun a b => Some (f64_op (SFdiv 53 1024) a b))
    (fun b => f64_eq b 0) f64_lt f64_le f64_eq.

Definition nt_u8 : Num :=
  mkNum 1 (le_bytes 1) le_val
    (fun a b => Some (wrap 8 (a + b))) (fun a b => Some (wrap 8 (a - b)))
    (fun a b => Some (wrap 8 (a * b))) (fun a b => Some (wrap 8 (Z.quot a b)))
    (fun b => b =? 0) Z.ltb Z.leb Z.eqb.

Definition get_at (T : Num) (c : ColumnVector) (i : Z) : option Z :=
  let! bs := load (i * nt_size T) (nt_size T) (cv_data c) in Some (nt_dec T bs).

Definition set_at (T : Num) (c : ColumnVector) (i v : Z) : option ColumnVector :=
  let! d := store (i * nt_size T) (nt_enc T v) (cv_data c) in
  clear_null (with_data c d) i.

(** A loop whose body may return an error. *)
Fixpoint each_r {A St} (l : list A) (body : A -> St -> option (result St)) (s : St) :
    option (result St) :=
  match l with
  | [] => Some (Ok s)
  | a :: l' =>
      match body a s with
      | Some (Ok s') => each_r l' body s'
      | Some (Err m) => Some (Err m)
      | None => None
      end
  end.

Definition ok {A} (x : option A) : option (result A) := let! a := x in Some (Ok a).

(** [nullable && (l.is_null(i) || r.is_null(i))] *)
Definition either_null (nullable : bool) (l r : ColumnVector) (i : Z) : option bool :=
  if nullable then
    let! ln := cv_is_null l i in if ln : bool then Some true else cv_is_null r i
  else Some false.

Definition arith_kernel (T : Num) (l r : ColumnVector) (out_type : TypeId)
    (op : Z -> Z -> option Z) : option (result ColumnVector) :=
  let nullable := cv_nullable l || cv_nullable r in
  let n := cv_size l in
  each_r (zrange 0 n) (fun i out =>
    let! null := either_null nullable l r i in
    if null : bool then ok (set_null out i)
    else
      let! a := get_at T l i in
      let! b := get_at T r i in
      let! v := op a b in
      ok (set_at T out i v)) (cv_make out_type n nullable).

Definition div_kernel (T : Num) (l r : ColumnVector) (out_type : TypeId) :
    option (result ColumnVector) :=
  let nullable := cv_nullable l || cv_nullable r in
  let n := cv_size l in
  each_r (zrange 0 n) (fun i out =>
    let! null := either_null nullable l r i in
    if null : bool then ok (set_null out i)
    else
      let! b := get_at T r i in
      if nt_zero T b then Some (Err "division by zero")
      else
        let! a := get_at T l i in
        let! v := nt_div T a b in
        ok (set_at T out i v)) (cv_make out_type n nullable).

Definition cmp_kernel (T : Num) (l r : ColumnVector) (op : Z -> Z -> bool) :
    option (result ColumnVector) :=
  let nullable := cv_nullable l || cv_nullable r in
  let n := cv_size l in
  each_r (zrange 0 n) (fun i out =>
    let! null := either_null nullable l r i in
    if null : bool then ok (set_null out i)
    else
      let! a := get_at T l i in
      let! b := get_at T r i in
      ok (set_i32 out i (if op a b then 1 else 0))) (cv_make INT32 n nullable).

Definition str_cmp_kernel (l r : ColumnVector) (op : string -> string -> bool) :
    option (result ColumnVector) :=
  let nullable := cv_nullable l || cv_nullable r in
  let n := cv_size l in
  each_r (zrange 0 n) (fun i out =>
    let! null := either_null nullable l r i in
    if null : bool then ok (set_null out i)
    else
      let! a := cv_get_str l i in
      let! b := cv_get_str r i in
      ok (set_i32 out i (if op a b then 1 else 0))) (cv_make INT32 n nullable).

(** The comparison an operator stands for. *)
Definition num_cmp (T : Num) (op : BinaryOpKind) (a b : Z) : bool :=
  match op with
  | LT => nt_lt T a b
  | LE => nt_le T a b
  | EQ => nt_eq T a b
  | GE => nt_le T b a
  | GT => nt_lt T b a
  | NE => negb (nt_eq T a b)
  | _ => false
  end.

Definition str_cmp (op : BinaryOpKind) (a b : string) : bool :=
  match op, string_cmp a b with
  | LT, Lt | LE, (Lt | Eq) | EQ, Eq | GE, (Gt | Eq) | GT, Gt | NE, (Lt | Gt) => true
  | _, _ => false
  end.

Definition binary_dispatch (T : Num) (op : BinaryOpKind) (l r : ColumnVector) (type : TypeId) :
    option (result ColumnVector) :=
  match op with
  | ADD => arith_kernel T l r type (nt_add T)
  | SUB => arith_kernel T l r type (nt_sub T)
  | MUL => arith_kernel T l r type (nt_mul T)
  | DIV => div_kernel T l r type
  | LT | LE | EQ | GE | GT | NE => cmp_kernel T l r (num_cmp T op)
  end.

(** [switch (input_type_)] of [BinaryOp::evaluate]. *)
Definition binary_kernel (input_type : TypeId) (op : BinaryOpKind) (l r : ColumnVector) :
    option (result ColumnVector) :=
  match input_type with
  | INT32 => binary_dispatch nt_i32 op l r INT32
  | INT64 => binary_dispatch nt_i64 op l r INT64
  | DOUBLE => binary_dispatch nt_f64 op l r DOUBLE
  | BOOL => binary_dispatch nt_u8 op l r BOOL
  | DATE => binary_dispatch nt_i32 op l r DATE
  | TIMESTAMP => binary_dispatch nt_i64 op l r TIMESTAMP
  | VARCHAR =>
      if is_comparison op then str_cmp_kernel l r (str_cmp op)
      else Some (Err "VARCHAR only supports comparison operators")
  | _ => Some (Err "unsupported input type")
  end.

(** [nullable() && is_null(i)], and the value where it is not null. *)
Definition null_flag (c : ColumnVector) (i : Z) : option bool :=
  if cv_nullable c then cv_is_null c i else Some false.

(** [!null && cv_get_i32(i) == 0] *)
Definition known_false (c : ColumnVector) (null : bool) (i : Z) : option bool :=
  if null then Some false else let! v := cv_get_i32 c i in Some (v =? 0).

(** [!null && cv_get_i32(i) != 0] *)
Definition known_true (c : ColumnVector) (null : bool) (i : Z) : option bool :=
  if null then Some false else let! v := cv_get_i32 c i in Some (negb (v =? 0)).

Definition and_kernel (l r : ColumnVector) : option (result ColumnVector) :=
  let n := cv_size l in
  each_r (zrange 0 n) (fun i out =>
    let! ln := null_flag l i in
    let! rn := null_flag r i in
    let! l_false := known_false l ln i in
    let! r_false := known_false r rn i in
    if l_false || r_false then ok (set_i32 out i 0)
    else if ln || rn then ok (set_null out i)
    else ok (set_i32 out i 1)) (cv_make INT32 n (cv_nullable l || cv_nullable r)).

Definition or_kernel (l r : ColumnVector) : option (result ColumnVector) :=
  let n := cv_size l in
  each_r (zrange 0 n) (fun i out =>
    let! ln := null_flag l i in
    let! rn := null_flag r i in
    let! l_true := known_true l ln i in
    let! r_true := known_true r rn i in
    if l_true || r_true then ok (set_i32 out i 1)
    else if ln || rn then ok (set_null out i)
    else ok (set_i32 out i 0)) (cv_make INT32 n (cv_nullable l || cv_nullable r)).

Definition not_kernel (c : ColumnVector) : option (result ColumnVector) :=
  let n := cv_size c in
  each_r (zrange 0 n) (fun i out =>
    let! null := null_flag c i in
    if null : bool then ok (set_null out i)
    else let! v := cv_get_i32 c i in ok (set_i32 out i (if v =? 0 then 1 else 0)))
    (cv_make INT32 n (cv_nullable c)).

Definition is_null_kernel (c : ColumnVector) (negate : bool) : option (result ColumnVector) :=
  let n := cv_size c in
  each_r (zrange 0 n) (fun i out =>
    let! null := null_flag c i in
    ok (set_i32 out i (if xorb null negate then 1 else 0))) (cv_make INT32 n false).

(** The loops of [Literal::evaluate]. *)
Definition literal_kernel (v : Value) (n : Z) : option (result ColumnVector) :=
  each_r (zrange 0 n) (fun i out => ok (set_value out i v)) (cv_make (variant_type v) n false).

(** ** [Expression::evaluate] *)

Fixpoint evaluate (e : Expression) (input : Chunk) : option (result ColumnVector) :=
  match e with
  | ColumnRef index type =>
      let! col := ck_columns input !! index in
      assert (bool_decide (cv_type col = type)) in
      match ck_sel input with
      | Some sel => ok (gather_via_sel col sel)
      | None => Some (Ok col)
      end
  | Literal v => literal_kernel v (logical_size input)
  | BinaryOp op lhs rhs =>
      let! lr := evaluate lhs input in
      match lr with
      | Err m => Some (Err m)
      | Ok l =>
          let! rr := evaluate rhs input in
          match rr with
          | Err m => Some (Err m)
          | Ok r => binary_kernel (output_type lhs) op l r
          end
      end
  | LogicalOp op lhs rhs =>
      let! lr := evaluate lhs input in
      match lr with
      | Err m => Some (Err m)
      | Ok l =>
          let! rr := evaluate rhs input in
          match rr with
          | Err m => Some (Err m)
          | Ok r => match op with AND => and_kernel l r | OR => or_kernel l r end
          end
      end
  | NotOp child =>
      let! cr := evaluate child input in
      match cr with Err m => Some (Err m) | Ok c => not_kernel c end
  | NullCheckOp kind child =>
      let! cr := evaluate child input in
      match cr with
      | Err m => Some (Err m)
      | Ok c => is_null_kernel c (match kind with IS_NOT_NULL => true | IS_NULL => false end)
      end
  end.

(** ** Reference semantics: one row *)

(** The number in a value, and the value of a type that a number stands for. *)
Definition number (v : Value) : Z :=
  match v with
  | VI32 x | VI64 x | VF64 x | VDate x | VTimestamp x => x
  | VBool b => Z.b2z b
  | VNull | VStr _ => 0
  end.

Definition of_number (t : TypeId) (x : Z) : Value :=
  match t with
  | INT32 => VI32 x
  | INT64 => VI64 x
  | DOUBLE => VF64 x
  | BOOL => VBool (negb (x =? 0))
  | DATE => VDate x
  | TIMESTAMP => VTimestamp x
  | _ => VNull
  end.

Definition num_type_of (t : TypeId) : option Num :=
  match t with
  | INT32 | DATE => Some nt_i32
  | INT64 | TIMESTAMP => Some nt_i64
  | DOUBLE => Some nt_f64
  | BOOL => Some nt_u8
  | _ => None
  end.

Definition truth (b : bool) : Value := VI32 (if b then 1 else 0).

(** An operator on two values that are not NULL. *)
Definition scalar_num (T : Num) (t : TypeId) (op : BinaryOpKind) (x y : Z) : option (result Value) :=
  match op with
  | ADD => ok (option_map (of_number t) (nt_add T x y))
  | SUB => ok (option_map (of_number t) (nt_sub T x y))
  | MUL => ok (option_map (of_number t) (nt_mul T x y))
  | DIV => if nt_zero T y then Some (Err "division by zero")
           else ok (option_map (of_number t) (nt_div T x y))
  | _ => Some (Ok (truth (num_cmp T op x y)))
  end.

Definition scalar_op (op : BinaryOpKind) (v w : Value) : option (result Value) :=
  match v, w with
  | VNull, _ | _, VNull => Some (Ok VNull)
  | VStr a, VStr b => Some (Ok (truth (str_cmp op a b)))
  | _, _ =>
      match num_type_of (variant_type v) with
      | Some T => scalar_num T (variant_type v) op (number v) (number w)
      | None => None
      end
  end.

(** Kleene's three-valued connectives on 0, non-zero and NULL. *)
Definition v_and (v w : Value) : Value :=
  match v, w with
  | VI32 0, _ | _, VI32 0 => VI32 0
  | VNull, _ | _, VNull => VNull
  | _, _ => VI32 1
  end.

Definition v_or (v w : Value) : Value :=
  match keeps v, keeps w, v, w with
  | true, _, _, _ | _, true, _, _ => VI32 1
  | _, _, VNull, _ | _, _, _, VNull => VNull
  | _, _, _, _ => VI32 0
  end.

Definition v_not (v : Value) : Value :=
  match v with VNull => VNull | _ => truth (negb (keeps v)) end.

Definition v_null_check (kind : NullCheckKind) (v : Value) : Value :=
  truth (match kind with IS_NULL => is_null v | IS_NOT_NULL => negb (is_null v) end).

Fixpoint eval_row (e : Expression) (r : row) : option (result Value) :=
  match e with
  | ColumnRef index _ => ok (r !! index)
  | Literal v => Some (Ok v)
  | BinaryOp op e1 e2 =>
      let! r1 := eval_row e1 r in
      match r1 with
      | Err m => Some (Err m)
      | Ok v =>
          let! r2 := eval_row e2 r in
          match r2 with Err m => Some (Err m) | Ok w => scalar_op op v w end
      end
  | LogicalOp op e1 e2 =>
      let! r1 := eval_row e1 r in
      match r1 with
      | Err m => Some (Err m)
      | Ok v =>
          let! r2 := eval_row e2 r in
          match r2 with
          | Err m => Some (Err m)
          | Ok w => Some (Ok (match op with AND => v_and v w | OR => v_or v w end))
          end
      end
  | NotOp e1 =>
      let! r1 := eval_row e1 r in
      match r1 with Err m => Some (Err m) | Ok v => Some (Ok (v_not v)) end
  | NullCheckOp kind e1 =>
      let! r1 := eval_row e1 r in
      match r1 with Err m => Some (Err m) | Ok v => Some (Ok (v_null_check kind v)) end
  end.

(** ** Typing *)

(** The column references and literals fit the columns of a chunk. *)
Fixpoint refs_ok (sg : signature) (e : Expression) : Prop :=
  match e with
  | ColumnRef index t => exists nullable, sg !! index = Some (t, nullable)
  | Literal v => value_wf v
  | BinaryOp _ l r | LogicalOp _ l r => refs_ok sg l /\ refs_ok sg r
  | NotOp c | NullCheckOp _ c => refs_ok sg c
  end.

Definition well_typed (sg : signature) (e : Expression) : Prop := built e = true /\ refs_ok sg e.

(** Whether the column an expression yields is nullable. *)
Fixpoint nullable_of (sg : signature) (e : Expression) : bool :=
  match e with
  | ColumnRef index _ => match sg !! index with Some s => s.2 | None => false end
  | Literal _ | NullCheckOp _ _ => false
  | BinaryOp _ l r | LogicalOp _ l r => nullable_of sg l || nullable_of sg r
  | NotOp c => nullable_of sg c
  end.

(** How the column that a node computes relates to a function [g] on its rows. *)
Definition outcome (n : Z) (s : TypeId * bool) (g : Z -> option (result Value))
    (res : option (result ColumnVector)) : Prop :=
  match res with
  | Some (Ok out) => col_ok n s out /\ forall i, 0 <= i < n -> g i = Some (Ok (cell out i))
  | Some (Err m) => exists i, 0 <= i < n /\ g i = Some (Err m)
  | None => exists i, 0 <= i < n /\ g i = None
  end.

(** What one round of a kernel does to its output column. *)
Definition round_ok (i : Z) (out : ColumnVector) (v : option (result Value))
    (res : option (result ColumnVector)) : Prop :=
  match v with
  | Some (Ok v) => exists out', res = Some (Ok out') /\ wrote out out' i v
  | Some (Err m) => res = Some (Err m)
  | None => res = None
  end.

Lemma zrange_cons k m : 0 <= m -> zrange k (m + 1) = k :: zrange (k + 1) m.
Proof.
  intros. unfold zrange. replace (Z.to_nat (m + 1)) with (S (Z.to_nat m)) by lia.
  simpl. f_equal; [lia|]. rewrite <- seq_shift, map_map. apply map_ext. lia.
Qed.

Lemma wrote_col_ok n s out out' i v : col_ok n s out -> wrote out out' i v -> col_ok n s out'.
Proof. intros (? & ? & ? & ?) [? [? ?] ? ? ?]. split_and!; congruence || done. Qed.

Lemma kernel_rounds n s g body m : forall k out, 0 <= k -> k + Z.of_nat m = n ->
  (forall i out, 0 <= i < n -> col_ok n s out -> round_ok i out (g i) (body i out)) ->
  col_ok n s out -> (forall i, 0 <= i < k -> g i = Some (Ok (cell out i))) ->
  outcome n s g (each_r (zrange k (Z.of_nat m)) body out).
Proof.
  induction m as [|m IH]; intros k out Hk Hn Hbody Hout Hdone.
  { simpl. split; [done|]. intros. apply Hdone. lia. }
  replace (Z.of_nat (S m)) with (Z.of_nat m + 1) by lia. rewrite zrange_cons by lia. cbn [each_r].
  pose proof (Hbody k out ltac:(lia) Hout) as Hr. unfold round_ok in Hr.
  destruct (g k) as [[v|e]|] eqn:Eg.
  - destruct Hr as (out' & -> & Hw). apply IH; [lia..|done|by eapply wrote_col_ok|].
    intros i Hi. destruct (decide (i = k)) as [->|]; [by rewrite Eg, (wr_at _ _ _ _ Hw)|].
    rewrite (wr_other _ _ _ _ Hw); [apply Hdone; lia| |done].
    destruct Hout as (_ & _ & _ & ->). lia.
  - rewrite Hr. exists k. split; [lia|done].
  - rewrite Hr. exists k. split; [lia|done].
Qed.

(** A kernel whose rounds compute [g] computes [g] on every row. *)
Lemma kernel_ok n t nullable g body : is_vec_type t = true -> 0 <= n ->
  (forall i out, 0 <= i < n -> col_ok n (t, nullable) out -> round_ok i out (g i) (body i out)) ->
  outcome n (t, nullable) g (each_r (zrange 0 n) body (cv_make t n nullable)).
Proof.
  intros Ht Hn Hbody. destruct (cv_make_wf t n nullable Ht Hn) as (Hwf & _ & Hs & [Hty Hnl]).
  pose proof (kernel_rounds n (t, nullable) g body (Z.to_nat n) 0 (cv_make t n nullable)) as Hk.
  rewrite Z2Nat.id in Hk by done. apply Hk; [lia..|done| |lia]. split_and!; done.
Qed.

(** ** Reading the operands *)

Lemma raw_not_null cv i : is_vec_type (cv_type cv) = true -> is_null (raw cv i) = false.
Proof. unfold raw. by destruct (cv_type cv). Qed.

Lemma is_null_cell n s c i : col_ok n s c -> is_null (cell c i) = null_at c i.
Proof.
  intros (Hwf & _). unfold cell. destruct (null_at c i); [done|]. apply raw_not_null, Hwf.
Qed.

Lemma null_flag_ok n s c i : col_ok n s c -> 0 <= i < n -> null_flag c i = Some (is_null (cell c i)).
Proof.
  intros Hc Hi. rewrite (is_null_cell n s) by done. destruct Hc as (Hwf & _ & _ & Hs).
  unfold null_flag. rewrite cv_is_null_ok by (done || lia). unfold null_at.
  by destruct (cv_nullable c).
Qed.

Lemma either_null_ok n s1 s2 l r i : col_ok n s1 l -> col_ok n s2 r -> 0 <= i < n ->
  either_null (cv_nullable l || cv_nullable r) l r i =
    Some (is_null (cell l i) || is_null (cell r i)).
Proof.
  intros Hl Hr Hi. rewrite (is_null_cell n s1), (is_null_cell n s2) by done.
  destruct Hl as (Hwl & _ & _ & Hsl), Hr as (Hwr & _ & _ & Hsr).
  unfold either_null. rewrite !cv_is_null_ok by (done || lia). unfold null_at.
  destruct (cv_nullable l), (cv_nullable r); simpl; try done; by destruct (bit_get _ _).
Qed.

Lemma num_size t T : num_type_of t = Some T -> nt_size T = elem_size t /\ is_varchar t = false /\ is_vec_type t = true.
Proof. by destruct t; intros [= <-]. Qed.

Lemma get_at_ok n s c i T : col_ok n s c -> num_type_of s.1 = Some T -> 0 <= i < n ->
  is_null (cell c i) = false -> get_at T c i = Some (number (cell c i)).
Proof.
  intros Hc HT Hi Hnull. rewrite (is_null_cell n s) in Hnull by done. destruct Hc as (Hwf & Ht & _ & Hs).
  destruct (num_size _ _ HT) as (Hsz & Hv & _). unfold get_at.
  rewrite <- Ht in *. rewrite Hsz, load_slot by (done || lia). f_equal.
  unfold cell. rewrite Hnull. unfold raw. rewrite Hv.
  destruct (slot_bytes c i) as [Hl Hb]; [done|done|lia|].
  destruct (cv_type c); try discriminate; injection HT as <-; try done.
  simpl in *. unfold elem_size in *. simpl in *.
  destruct (slice (i * 1) 1 (cv_data c)) as [|b [|b' bs]]; unfold zlen in Hl; simpl in Hl; [lia| |lia].
  apply Forall_singleton in Hb as [Hb H01]. by destruct (H01 eq_refl) as [->| ->].
Qed.

(** Numbers that a slot of the type can hold. *)
Definition fits (t : TypeId) (x : Z) : Prop :=
  match t with
  | INT32 => in_s 32 x
  | INT64 => in_s 64 x
  | DOUBLE => in_u 64 x
  | _ => False
  end.

Lemma set_at_ok n s out i T x : col_ok n s out -> num_type_of s.1 = Some T -> 0 <= i < n -> fits s.1 x ->
  exists out', set_at T out i x = Some out' /\ wrote out out' i (of_number s.1 x).
Proof.
  intros (Hwf & Ht & _ & Hs) HT Hi Hf. destruct s as [t b]. simpl in *. subst t.
  assert (Hval : of_number (cv_type out) x <> VNull /\ value_wf (of_number (cv_type out) x) /\
    variant_type (of_number (cv_type out) x) = cv_type out /\
    slot_bytes_of (of_number (cv_type out) x) = nt_enc T x).
  { destruct (cv_type out); try done; injection HT as <-; done. }
  destruct Hval as (Hnn & Hwfv & Hvt & Henc). destruct (num_size _ _ HT) as (Hsz & Hv & _).
  destruct (slot_bytes_of_ok (of_number (cv_type out) x)) as (Hl & Hb & Hd); [done|by rewrite Hvt|done|].
  rewrite Hvt, Henc in *. unfold set_at. rewrite Hsz.
  destruct (set_slot_ok (cv_type out) out i (nt_enc T x)) as (out' & Hset & Hw); [done..|lia|done|done|].
  exists out'. split; [|by rewrite Hd in Hw].
  unfold set_slot in Hset. rewrite bool_decide_true, (proj2 (Z.ltb_lt _ _)) in Hset by (done || lia).
  done.
Qed.

Lemma checked_range w z x : checked w z = Some x -> x = z /\ in_s w x.
Proof.
  unfold checked, in_s. destruct (Z.leb_spec (- 2 ^ (w - 1)) z), (Z.ltb_spec z (2 ^ (w - 1)));
    simpl; intros [= <-]. lia.
Qed.

Lemma bits_of_sf_range nan x : in_u 64 nan -> in_u 64 (bits_of_sf nan x).
Proof.
  intros Hn. destruct x as [[]|[]| |[] m e]; simpl; try done;
    destruct (_ <? _); by apply wrap_range.
Qed.

Lemma f64_op_range f a b : in_u 64 (f64_op f a b).
Proof. apply bits_of_sf_range, fpu_nan_range. Qed.

(** Arithmetic on numbers yields numbers of the type. *)
Lemma arith_fits t T x y z : num_type_of t = Some T -> comparison_only t = false ->
  (nt_add T x y = Some z \/ nt_sub T x y = Some z \/ nt_mul T x y = Some z \/ nt_div T x y = Some z) ->
  fits t z.
Proof.
  intros HT Hc Hz. destruct t; try done; injection HT as <-; simpl in Hz;
    destruct Hz as [Hz|[Hz|[Hz|Hz]]];
    first [by apply checked_range in Hz as [_ ?] | injection Hz as <-; apply f64_op_range].
Qed.

(** ** The kernels compute the row operators *)

Lemma null_nullable n s c i : col_ok n s c -> is_null (cell c i) = true -> s.2 = true.
Proof.
  intros Hc Hnull. rewrite (is_null_cell n s) in Hnull by done. destruct Hc as (_ & _ & <- & _).
  unfold null_at in Hnull. by destruct (cv_nullable c).
Qed.

Lemma cell_vec n s c i : col_ok n s c -> 0 <= i < n -> vec_value s.1 (cell c i).
Proof. intros (Hwf & <- & _ & Hs) Hi. apply cell_typed; [done|lia]. Qed.

Lemma round_null n t b out i : col_ok n (t, b) out -> b = true -> 0 <= i < n ->
  round_ok i out (Some (Ok VNull)) (ok (set_null out i)).
Proof.
  intros (Hwf & _ & Hb & Hs) -> Hi. destruct (set_null_ok out i) as (out' & -> & Hw); [done..|lia|].
  exists out'. done.
Qed.

Lemma round_i32 n b out i v : col_ok n (INT32, b) out -> in_s 32 v -> 0 <= i < n ->
  round_ok i out (Some (Ok (VI32 v))) (ok (set_i32 out i v)).
Proof.
  intros (Hwf & Ht & Hb & Hs) Hv Hi.
  destruct (set_value_ok out i (VI32 v)) as (out' & Heq & Hw); [done|lia|right; rewrite Ht; done|done|].
  simpl in Heq. rewrite Heq. exists out'. done.
Qed.

Lemma round_truth n b out i (v : bool) : col_ok n (INT32, b) out -> 0 <= i < n ->
  round_ok i out (Some (Ok (truth v))) (ok (set_i32 out i (if v then 1 else 0))).
Proof. intros Hc Hi. apply (round_i32 n b); [done|by destruct v|done]. Qed.

Lemma scalar_op_num op t T v w : num_type_of t = Some T -> vec_value t v -> vec_value t w ->
  scalar_op op v w = if is_null v || is_null w then Some (Ok VNull)
                     else scalar_num T t op (number v) (number w).
Proof.
  intros HT [->|[Hv _]] Hw; [done|].
  assert (Hcase : forall s, v <> VStr s) by (intros s ->; subst t; done).
  destruct Hw as [->|[Hw _]]; [by destruct v|].
  destruct v; try (by destruct (Hcase s)); simpl in Hv; subst t; try discriminate HT;
    injection HT as <-; by destruct w.
Qed.

Section operands.
Context (n : Z) (t : TypeId) (bl br : bool) (l r : ColumnVector).
Hypothesis Hn : 0 <= n.
Hypothesis Hl : col_ok n (t, bl) l.
Hypothesis Hr : col_ok n (t, br) r.

Lemma operand_nulls i : 0 <= i < n ->
  either_null (bl || br) l r i = Some (is_null (cell l i) || is_null (cell r i)) /\
  (is_null (cell l i) || is_null (cell r i) = true -> bl || br = true).
Proof using Hl Hr.
  intros Hi. split.
  - rewrite <- (either_null_ok n (t, bl) (t, br)) by done.
    destruct Hl as (_ & _ & -> & _), Hr as (_ & _ & -> & _). done.
  - intros [E|E]%orb_true_iff.
    + pose proof (null_nullable n (t, bl) l i Hl E) as Hb. simpl in Hb. by rewrite Hb.
    + pose proof (null_nullable n (t, br) r i Hr E) as Hb. simpl in Hb. rewrite Hb. apply orb_true_r.
Qed.

Lemma arith_kernel_ok T (op : Z -> Z -> option Z) : num_type_of t = Some T ->
  (forall x y z, op x y = Some z -> fits t z) ->
  outcome n (t, bl || br)
    (fun i => if is_null (cell l i) || is_null (cell r i) then Some (Ok VNull)
              else ok (option_map (of_number t) (op (number (cell l i)) (number (cell r i)))))
    (arith_kernel T l r t op).
Proof using Hn Hl Hr.
  intros HT Hfit. unfold arith_kernel. destruct Hl as (_ & _ & -> & ->), Hr as (_ & _ & -> & _).
  cbn [snd]. apply kernel_ok; [apply (num_size _ _ HT)|done|]. intros i out Hi Hout.
  destruct (operand_nulls i Hi) as [-> Hnull].
  destruct (is_null (cell l i) || is_null (cell r i)) eqn:E.
  { apply (round_null n t (bl || br)); auto. }
  apply orb_false_iff in E as [El Er].
  rewrite (get_at_ok n (t, bl) l i T), (get_at_ok n (t, br) r i T) by done.
  destruct (op _ _) as [z|] eqn:Eop; [|done].
  destruct (set_at_ok n (t, bl || br) out i T z) as (out' & -> & Hw); [done..|by eapply Hfit|].
  exists out'. done.
Qed.

Lemma div_kernel_ok T : num_type_of t = Some T ->
  (forall x y z, nt_div T x y = Some z -> fits t z) ->
  outcome n (t, bl || br)
    (fun i => if is_null (cell l i) || is_null (cell r i) then Some (Ok VNull)
              else scalar_num T t DIV (number (cell l i)) (number (cell r i)))
    (div_kernel T l r t).
Proof using Hn Hl Hr.
  intros HT Hfit. unfold div_kernel. destruct Hl as (_ & _ & -> & ->), Hr as (_ & _ & -> & _).
  cbn [snd]. apply kernel_ok; [apply (num_size _ _ HT)|done|]. intros i out Hi Hout.
  destruct (operand_nulls i Hi) as [-> Hnull].
  destruct (is_null (cell l i) || is_null (cell r i)) eqn:E.
  { apply (round_null n t (bl || br)); auto. }
  apply orb_false_iff in E as [El Er].
  rewrite (get_at_ok n (t, br) r i T) by done. simpl. destruct (nt_zero T _); [done|].
  rewrite (get_at_ok n (t, bl) l i T) by done.
  destruct (nt_div _ _ _) as [z|] eqn:Eop; [|done].
  destruct (set_at_ok n (t, bl || br) out i T z) as (out' & -> & Hw); [done..|by eapply Hfit|].
  exists out'. done.
Qed.

Lemma cmp_kernel_ok T (op : Z -> Z -> bool) : num_type_of t = Some T ->
  outcome n (INT32, bl || br)
    (fun i => if is_null (cell l i) || is_null (cell r i) then Some (Ok VNull)
              else Some (Ok (truth (op (number (cell l i)) (number (cell r i))))))
    (cmp_kernel T l r op).
Proof using Hn Hl Hr.
  intros HT. unfold cmp_kernel. destruct Hl as (_ & _ & -> & ->), Hr as (_ & _ & -> & _).
  cbn [snd]. apply kernel_ok; [done|done|]. intros i out Hi Hout.
  destruct (operand_nulls i Hi) as [-> Hnull].
  destruct (is_null (cell l i) || is_null (cell r i)) eqn:E.
  { apply (round_null n INT32 (bl || br)); auto. }
  apply orb_false_iff in E as [El Er].
  rewrite (get_at_ok n (t, bl) l i T), (get_at_ok n (t, br) r i T) by done.
  by apply (round_truth n (bl || br)).
Qed.

Lemma str_cmp_kernel_ok op : t = VARCHAR ->
  outcome n (INT32, bl || br) (fun i => scalar_op op (cell l i) (cell r i))
    (str_cmp_kernel l r (str_cmp op)).
Proof using Hn Hl Hr.
  intros Ht. assert (Hstr : forall b c i, col_ok n (t, b) c -> 0 <= i < n -> is_null (cell c i) = false ->
    exists s, cell c i = VStr s /\ cv_get_str c i = Some s).
  { intros b c i Hc Hi Hnull. pose proof (cell_vec _ _ _ i Hc Hi) as [Hv|[Hv _]]; [by rewrite Hv in Hnull|].
    rewrite Ht in Hv. destruct (cell c i) as [| | | |s| | |] eqn:Ec; try done. exists s. split; [done|].
    destruct Hc as (Hwf & _ & _ & Hs). apply cv_get_str_ok; [done|lia|done]. }
  unfold str_cmp_kernel.
  assert (cv_nullable l = bl /\ cv_nullable r = br /\ cv_size l = n) as (-> & -> & ->)
    by (destruct Hl as (_ & _ & ? & ?), Hr as (_ & _ & ? & ?); done).
  apply kernel_ok; [done|done|]. intros i out Hi Hout.
  destruct (operand_nulls i Hi) as [-> Hnull].
  destruct (is_null (cell l i)) eqn:El; [|destruct (is_null (cell r i)) eqn:Er].
  - assert (cell l i = VNull) as -> by (by destruct (cell l i)).
    apply (round_null n INT32 (bl || br)); auto.
  - assert (cell r i = VNull) as -> by (by destruct (cell r i)).
    replace (scalar_op op (cell l i) VNull) with (Some (Ok VNull : result Value)) by (by destruct (cell l i)).
    apply (round_null n INT32 (bl || br)); auto.
  - destruct (Hstr bl l i) as (a & Ha & Hga); [done..|].
    destruct (Hstr br r i) as (b & Hb & Hgb); [done..|].
    cbn [orb]. rewrite Hga, Hgb, Ha, Hb. by apply (round_truth n (bl || br)).
Qed.

Lemma outcome_ext s g g' res : (forall i, 0 <= i < n -> g i = g' i) ->
  outcome n s g res -> outcome n s g' res.
Proof using.
  intros He. destruct res as [[out|m]|]; simpl.
  - intros [Hc Hg]. split; [done|]. intros i Hi. rewrite <- He by done. auto.
  - intros (i & Hi & Hg). exists i. by rewrite <- He.
  - intros (i & Hi & Hg). exists i. by rewrite <- He.
Qed.

Lemma binary_kernel_ok op : (comparison_only t = true -> is_comparison op = true) ->
  outcome n (if is_comparison op then INT32 else t, bl || br)
    (fun i => scalar_op op (cell l i) (cell r i)) (binary_kernel t op l r).
Proof using Hn Hl Hr.
  intros Hop. assert (Hvt : is_vec_type t = true).
  { destruct Hl as (Hwf & Hty & _). rewrite <- (cw_type _ Hwf). by rewrite Hty. }
  destruct (num_type_of t) as [T|] eqn:HT.
  - assert (binary_kernel t op l r = binary_dispatch T op l r t) as ->
      by (destruct t; try discriminate; by injection HT as <-).
    eapply (outcome_ext _ (fun i => if is_null (cell l i) || is_null (cell r i) then Some (Ok VNull)
      else scalar_num T t op (number (cell l i)) (number (cell r i)))).
    { intros i Hi. symmetry. apply scalar_op_num;
        [done|by apply (cell_vec n (t, bl))|by apply (cell_vec n (t, br))]. }
    assert (Hfit : comparison_only t = true \/ comparison_only t = false) by (by destruct (comparison_only t); auto).
    destruct (is_comparison op) eqn:Ec.
    + pose proof (cmp_kernel_ok T (num_cmp T op) HT) as Hcmp. by destruct op.
    + destruct Hfit as [Hf|Hf]; [discriminate (Hop Hf)|]. pose proof (arith_fits t T) as Hfits.
      destruct op; try discriminate;
        [apply (arith_kernel_ok T (nt_add T))|apply (arith_kernel_ok T (nt_sub T))
        |apply (arith_kernel_ok T (nt_mul T))|apply div_kernel_ok]; try done; eauto.
  - assert (Ht : t = VARCHAR) by (by destruct t).
    assert (Hc : is_comparison op = true) by (apply Hop; by rewrite Ht).
    assert (binary_kernel t op l r = str_cmp_kernel l r (str_cmp op)) as ->
      by (rewrite Ht; simpl; by rewrite Hc).
    rewrite Hc. by apply str_cmp_kernel_ok.
Qed.
End operands.

Section connectives.
Context (n : Z) (bl br : bool) (l r : ColumnVector).
Hypothesis Hn : 0 <= n.
Hypothesis Hl : col_ok n (INT32, bl) l.
Hypothesis Hr : col_ok n (INT32, br) r.

Lemma known_false_ok b c i : col_ok n (INT32, b) c -> 0 <= i < n ->
  known_false c (is_null (cell c i)) i = Some (match cell c i with VI32 0 => true | _ => false end).
Proof using.
  intros Hc Hi. pose proof (cell_vec _ _ _ i Hc Hi) as [Hv|[Hv _]]; [by rewrite Hv|].
  destruct (cell c i) as [|v| | | | | |] eqn:Ec; try done. simpl.
  destruct Hc as (Hwf & Ht & _ & Hs). rewrite (cv_get_i32_ok c i v) by (done || lia). by destruct v.
Qed.

Lemma known_true_ok b c i : col_ok n (INT32, b) c -> 0 <= i < n ->
  known_true c (is_null (cell c i)) i = Some (keeps (cell c i)).
Proof using.
  intros Hc Hi. pose proof (cell_vec _ _ _ i Hc Hi) as [Hv|[Hv _]]; [by rewrite Hv|].
  destruct (cell c i) as [|v| | | | | |] eqn:Ec; try done. simpl.
  destruct Hc as (Hwf & Ht & _ & Hs). by rewrite (cv_get_i32_ok c i v) by (done || lia).
Qed.

(** The shape of the values of a truth column. *)
Lemma truth_cases b c i : col_ok n (INT32, b) c -> 0 <= i < n ->
  (cell c i = VNull /\ b = true) \/ (cell c i = VI32 0) \/ (exists x, cell c i = VI32 x /\ x <> 0).
Proof using.
  intros Hc Hi. pose proof (cell_vec _ _ _ i Hc Hi) as [Hv|[Hv _]].
  - left. split; [done|]. apply (null_nullable n (INT32, b) c i Hc). by rewrite Hv.
  - destruct (cell c i) as [|v| | | | | |]; try done. right. destruct (decide (v = 0)) as [->|]; eauto.
Qed.

Lemma and_kernel_ok : outcome n (INT32, bl || br)
  (fun i => Some (Ok (v_and (cell l i) (cell r i)))) (and_kernel l r).
Proof using Hn Hl Hr.
  unfold and_kernel.
  assert (cv_nullable l = bl /\ cv_nullable r = br /\ cv_size l = n) as (-> & -> & ->)
    by (destruct Hl as (_ & _ & ? & ?), Hr as (_ & _ & ? & ?); done).
  apply kernel_ok; [done|done|]. intros i out Hi Hout.
  rewrite (null_flag_ok n (INT32, bl) l), (null_flag_ok n (INT32, br) r) by done.
  rewrite (known_false_ok bl l), (known_false_ok br r) by done.
  destruct (truth_cases bl l i) as [[-> Hb]|[->|(x & -> & Hx)]]; [done|done|..];
    (destruct (truth_cases br r i) as [[-> Hb']|[->|(y & -> & Hy)]]; [done|done|..]);
    try destruct x; try destruct y; try done; simpl;
    solve [by apply (round_i32 n (bl || br))
          | apply (round_null n INT32 (bl || br)); [done|by rewrite ?Hb, ?Hb', ?orb_true_r|done]].
Qed.

Lemma or_kernel_ok : outcome n (INT32, bl || br)
  (fun i => Some (Ok (v_or (cell l i) (cell r i)))) (or_kernel l r).
Proof using Hn Hl Hr.
  unfold or_kernel.
  assert (cv_nullable l = bl /\ cv_nullable r = br /\ cv_size l = n) as (-> & -> & ->)
    by (destruct Hl as (_ & _ & ? & ?), Hr as (_ & _ & ? & ?); done).
  apply kernel_ok; [done|done|]. intros i out Hi Hout.
  rewrite (null_flag_ok n (INT32, bl) l), (null_flag_ok n (INT32, br) r) by done.
  rewrite (known_true_ok bl l), (known_true_ok br r) by done.
  destruct (truth_cases bl l i) as [[-> Hb]|[->|(x & -> & Hx)]]; [done|done|..];
    (destruct (truth_cases br r i) as [[-> Hb']|[->|(y & -> & Hy)]]; [done|done|..]);
    try destruct x; try destruct y; try done; simpl;
    solve [by apply (round_i32 n (bl || br))
          | apply (round_null n INT32 (bl || br)); [done|by rewrite ?Hb, ?Hb', ?orb_true_r|done]].
Qed.

Lemma not_kernel_ok : outcome n (INT32, bl) (fun i => Some (Ok (v_not (cell l i)))) (not_kernel l).
Proof using Hn Hl.
  unfold not_kernel.
  assert (cv_nullable l = bl /\ cv_size l = n) as [-> ->] by (destruct Hl as (_ & _ & ? & ?); done).
  apply kernel_ok; [done|done|]. intros i out Hi Hout.
  rewrite (null_flag_ok n (INT32, bl) l) by done.
  pose proof Hl as (Hwf & Hty & _ & Hs).
  destruct (truth_cases bl l i) as [[-> Hb]|Hc]; [done|done|by apply (round_null n INT32 bl)|].
  assert (exists x, cell l i = VI32 x) as [x Hx] by (destruct Hc as [?|(x & ? & ?)]; eauto).
  rewrite Hx. simpl. rewrite (cv_get_i32_ok l i x) by (done || lia).
  rewrite negb_involutive. by apply (round_truth n bl).
Qed.
End connectives.

Lemma is_null_kernel_ok n t b c kind : 0 <= n -> col_ok n (t, b) c ->
  outcome n (INT32, false) (fun i => Some (Ok (v_null_check kind (cell c i))))
    (is_null_kernel c (match kind with IS_NOT_NULL => true | IS_NULL => false end)).
Proof.
  intros Hn Hc. unfold is_null_kernel. assert (cv_size c = n) as -> by (by destruct Hc as (_ & _ & _ & ?)).
  apply kernel_ok; [done|done|]. intros i out Hi Hout.
  rewrite (null_flag_ok n (t, b) c) by done. unfold v_null_check.
  destruct kind, (is_null (cell c i)); by apply (round_truth n false).
Qed.

Lemma literal_kernel_ok v n : 0 <= n -> v <> VNull -> value_wf v ->
  outcome n (variant_type v, false) (fun _ => Some (Ok v)) (literal_kernel v n).
Proof.
  intros Hn Hv Hwf. unfold literal_kernel. apply kernel_ok; [by destruct v|done|].
  intros i out Hi (Ho & Ht & Hb & Hs).
  destruct (set_value_ok out i v) as (out' & -> & Hw); [done|lia|right; by rewrite Ht|done|].
  exists out'. done.
Qed.

(** ** Nodes *)

(** Sequencing of results, as both evaluators do it. *)
Definition then1 {A B} (x : option (result A)) (f : A -> option (result B)) : option (result B) :=
  match x with
  | Some (Ok a) => f a
  | Some (Err m) => Some (Err m)
  | None => None
  end.

Lemma outcome_then1 n s1 s g1 g res1 (h : Z -> Value -> option (result Value)) k :
  outcome n s1 g1 res1 ->
  (forall i, 0 <= i < n -> g i = then1 (g1 i) (h i)) ->
  (forall c, col_ok n s1 c -> outcome n s (fun i => h i (cell c i)) (k c)) ->
  outcome n s g (then1 res1 k).
Proof.
  intros H1 Hg Hk. destruct res1 as [[c|m]|]; simpl in *.
  - destruct H1 as [Hc Hcell]. eapply outcome_ext; [|by apply Hk]. intros i Hi. simpl.
    by rewrite Hg, Hcell.
  - destruct H1 as (i & Hi & Hi'). exists i. by rewrite Hg, Hi'.
  - destruct H1 as (i & Hi & Hi'). exists i. by rewrite Hg, Hi'.
Qed.

Lemma outcome_then2 n s1 s2 s g1 g2 g res1 res2 (h : Value -> Value -> option (result Value)) k :
  outcome n s1 g1 res1 -> outcome n s2 g2 res2 ->
  (forall i, 0 <= i < n -> g i = then1 (g1 i) (fun v => then1 (g2 i) (h v))) ->
  (forall l r, col_ok n s1 l -> col_ok n s2 r ->
    outcome n s (fun i => h (cell l i) (cell r i)) (k l r)) ->
  outcome n s g (then1 res1 (fun l => then1 res2 (k l))).
Proof.
  intros H1 H2 Hg Hk. eapply (outcome_then1 n s1 s g1 g res1 (fun i v => then1 (g2 i) (h v))); [done..|].
  intros l Hl. eapply (outcome_then1 n s2 s g2 _ res2 (fun i => h (cell l i))); [done..|].
  intros r Hr. by apply Hk.
Qed.

(** Row [i] of the rows that a chunk shows. *)
Definition row_of (c : Chunk) (i : Z) : row := nth (Z.to_nat i) (chunk_rows c) [].

Lemma row_of_shown sg c i : chunk_wf sg c -> 0 <= i < logical_size c ->
  exists phys, shown c !! Z.to_nat i = Some phys /\ row_of c i = row_at (ck_columns c) phys.
Proof.
  intros Hwf Hi. rewrite (logical_size_ok sg) in Hi by done. unfold zlen in Hi.
  destruct (lookup_lt_is_Some_2 (shown c) (Z.to_nat i)) as [phys Hp]; [lia|].
  exists phys. split; [done|]. unfold row_of, chunk_rows. rewrite nth_lookup, list_lookup_fmap, Hp. done.
Qed.

Lemma column_ref_ok sg c index t nullable : chunk_wf sg c -> sg !! index = Some (t, nullable) ->
  outcome (logical_size c) (t, nullable) (fun i => ok (row_of c i !! index))
    (evaluate (ColumnRef index t) c).
Proof.
  intros Hwf Hsg. pose proof Hwf as [Hr Hc Hs]. pose proof (logical_size_ok _ _ Hwf) as Hls.
  destruct (Forall2_lookup_l _ _ _ _ _ Hc Hsg) as (col & Hcol & Hok).
  assert (Hrow : forall i phys, 0 <= i < logical_size c -> shown c !! Z.to_nat i = Some phys ->
    row_of c i !! index = Some (cell col phys)).
  { intros i phys Hi Hp. destruct (row_of_shown sg c i) as (p & Hp' & ->); [done..|]. simplify_eq.
    unfold row_at. by rewrite list_lookup_fmap, Hcol. }
  simpl. rewrite Hcol. pose proof Hok as (Hwfc & Ht & Hnl & Hsz). cbn [fst snd] in *.
  rewrite bool_decide_true by done. unfold shown, logical_size in *.
  destruct (ck_sel c) as [sel|] eqn:Es.
  - destruct (Hs sel eq_refl) as (Hsel & Hrc & _).
    destruct (gather_via_sel_ok col sel) as (out & -> & Ho & [Hot Hon] & Hos & Hov); [done..| |].
    { eapply Forall_impl; [apply (sw_in _ Hsel)|]. cbv beta. lia. }
    simpl. split; [split_and!; cbn [fst snd]; [done|congruence..]|]. intros i Hi.
    destruct (lookup_lt_is_Some_2 (for_each sel) (Z.to_nat i)) as [phys Hp]; [unfold zlen in *; lia|].
    rewrite (Hrow i phys) by done. simpl. do 2 f_equal.
    assert (Hv : cv_values out !! Z.to_nat i = Some (cell col phys)) by (by rewrite Hov, list_lookup_fmap, Hp).
    rewrite lookup_cv_values, Z2Nat.id in Hv by lia. by injection Hv.
  - simpl. split; [done|]. intros i Hi. rewrite (Hrow i i); [done..|].
    rewrite lookup_zrange by lia. f_equal. lia.
Qed.

(** Evaluating a well-typed expression over a chunk evaluates it on every row. *)
Lemma evaluate_outcome sg c e : chunk_wf sg c -> well_typed sg e ->
  outcome (logical_size c) (output_type e, nullable_of sg e) (fun i => eval_row e (row_of c i))
    (evaluate e c).
Proof.
  intros Hwf. pose proof (logical_size_bound _ _ Hwf) as [Hn _].
  induction e as [index t|v|op l IHl r IHr|op l IHl r IHr|e IH|kind e IH]; intros [Hb Hrefs];
    cbn [refs_ok] in Hrefs.
  - destruct Hrefs as [nullable Hsg]. cbn [nullable_of]. rewrite Hsg.
    exact (column_ref_ok sg c index t nullable Hwf Hsg).
  - simpl in Hb. apply literal_kernel_ok; [done| |done]. by intros ->.
  - simpl in Hb. rewrite !andb_true_iff, bool_decide_eq_true in Hb. destruct Hb as [[[[Hbl Hbr] Ht] Hvt] Hop].
    refine (outcome_then2 _ _ _ _ _ _ _ (evaluate l c) (evaluate r c) (scalar_op op)
      (binary_kernel (output_type l) op) (IHl _) (IHr _) _ _); [by split; try apply Hrefs..|done|].
    intros cl cr Hcl Hcr. rewrite <- Ht in Hcr. simpl.
    apply binary_kernel_ok; [done..|]. intros Hc. by rewrite Hc in Hop.
  - simpl in Hb. rewrite !andb_true_iff, !bool_decide_eq_true in Hb. destruct Hb as [[[Hbl Hbr] Htl] Htr].
    refine (outcome_then2 _ _ _ _ _ _ _ (evaluate l c) (evaluate r c)
      (fun v w => Some (Ok (match op with AND => v_and v w | OR => v_or v w end)))
      (fun l r => match op with AND => and_kernel l r | OR => or_kernel l r end) (IHl _) (IHr _) _ _);
      [by split; try apply Hrefs..|done|].
    intros cl cr Hcl Hcr. rewrite Htl in Hcl. rewrite Htr in Hcr.
    destruct op; [by apply and_kernel_ok|by apply or_kernel_ok].
  - simpl in Hb. rewrite andb_true_iff, bool_decide_eq_true in Hb. destruct Hb as [Hbc Ht].
    refine (outcome_then1 _ _ _ _ _ (evaluate e c) (fun _ v => Some (Ok (v_not v))) not_kernel (IH _) _ _);
      [by split|done|].
    intros c' Hc'. rewrite Ht in Hc'. by apply not_kernel_ok.
  - simpl in Hb. rewrite andb_true_iff in Hb. destruct Hb as [Hbc Ht].
    refine (outcome_then1 _ _ _ _ _ (evaluate e c) (fun _ v => Some (Ok (v_null_check kind v)))
      (fun c => is_null_kernel c (match kind with IS_NOT_NULL => true | IS_NULL => false end)) (IH _) _ _);
      [by split|done|].
    intros c' Hc'. by eapply is_null_kernel_ok.
Qed.

(** ** Types of results *)

(** A row whose values fit the columns. *)
Definition row_typed (sg : signature) (r : row) : Prop :=
  Forall2 (fun s v => vec_value s.1 v /\ (v = VNull -> s.2 = true)) sg r.

(** Where signed overflow, or an error, can come from. *)
Definition int_type (t : TypeId) : bool := match t with INT32 | INT64 => true | _ => false end.

Fixpoint int_arith (e : Expression) : bool :=
  match e with
  | ColumnRef _ _ | Literal _ => false
  | BinaryOp op l r => (negb (is_comparison op) && int_type (output_type l)) || int_arith l || int_arith r
  | LogicalOp _ l r => int_arith l || int_arith r
  | NotOp c | NullCheckOp _ c => int_arith c
  end.

Fixpoint divides (e : Expression) : bool :=
  match e with
  | ColumnRef _ _ | Literal _ => false
  | BinaryOp op l r => match op with DIV => true | _ => false end || divides l || divides r
  | LogicalOp _ l r => divides l || divides r
  | NotOp c | NullCheckOp _ c => divides c
  end.

(** What a row evaluation can end in. *)
Definition safe_result (e : Expression) (x : option (result Value)) : Prop :=
  match x with
  | Some (Ok v) => vec_value (output_type e) v
  | Some (Err m) => m = "division by zero" /\ divides e = true
  | None => int_arith e = true
  end.

Lemma truth_vec b : vec_value INT32 (truth b).
Proof. right. by destruct b. Qed.

Lemma scalar_num_safe op t T x y : num_type_of t = Some T ->
  (comparison_only t = true -> is_comparison op = true) ->
  match scalar_num T t op x y with
  | Some (Ok v) => vec_value (if is_comparison op then INT32 else t) v
  | Some (Err m) => m = "division by zero" /\ op = DIV
  | None => negb (is_comparison op) && int_type t = true
  end.
Proof.
  intros HT Hop. pose proof (arith_fits t T x y) as Hfit.
  assert (Hval : forall z, fits t z -> vec_value t (of_number t z)).
  { intros z Hz. right. by destruct t. }
  assert (Hnone : forall o : option Z, o = None ->
    o = nt_add T x y \/ o = nt_sub T x y \/ o = nt_mul T x y \/ o = nt_div T x y ->
    comparison_only t = false -> int_type t = true).
  { intros o -> Ho Hc. destruct t; try done; injection HT as <-; simpl in Ho;
      destruct Ho as [?|[?|[?|?]]]; done. }
  destruct (is_comparison op) eqn:Ec; [destruct op; try discriminate; apply truth_vec|].
  assert (Hc : comparison_only t = false)
    by (destruct (comparison_only t); [discriminate (Hop eq_refl)|done]).
  destruct op; try discriminate; cbn [scalar_num negb andb].
  - destruct (nt_add T x y) eqn:E; simpl; [apply Hval, Hfit; auto|eapply Hnone; eauto].
  - destruct (nt_sub T x y) eqn:E; simpl; [apply Hval, Hfit; auto|eapply Hnone; eauto].
  - destruct (nt_mul T x y) eqn:E; simpl; [apply Hval, Hfit; auto|eapply Hnone; eauto].
  - destruct (nt_zero T y); [done|].
    destruct (nt_div T x y) eqn:E; simpl; [apply Hval, Hfit; auto|eapply Hnone; eauto].
Qed.

Lemma scalar_op_safe op t v w : is_vec_type t = true -> vec_value t v -> vec_value t w ->
  (comparison_only t = true -> is_comparison op = true) ->
  match scalar_op op v w with
  | Some (Ok u) => vec_value (if is_comparison op then INT32 else t) u
  | Some (Err m) => m = "division by zero" /\ op = DIV
  | None => negb (is_comparison op) && int_type t = true
  end.
Proof.
  intros Hvt Hv Hw Hop. destruct (num_type_of t) as [T|] eqn:HT.
  - rewrite (scalar_op_num op t T) by done. destruct (is_null v || is_null w); [by left|].
    by apply scalar_num_safe.
  - assert (t = VARCHAR) as -> by (by destruct t). rewrite (Hop eq_refl).
    destruct Hv as [->|[Hv _]]; [by left|]. destruct Hw as [->|[Hw _]]; [destruct v; by left|].
    destruct v; try discriminate. destruct w; try discriminate. apply truth_vec.
Qed.

Lemma v_and_vec v w : vec_value INT32 (v_and v w).
Proof. unfold v_and. repeat case_match; solve [by left | by right]. Qed.

Lemma v_or_vec v w : vec_value INT32 (v_or v w).
Proof. unfold v_or. repeat case_match; solve [by left | by right]. Qed.

Lemma v_not_vec v : vec_value INT32 (v_not v).
Proof. destruct v; try apply truth_vec. by left. Qed.

Lemma eval_row_safe sg e r : well_typed sg e -> row_typed sg r -> safe_result e (eval_row e r).
Proof.
  intros Hwt Hr. induction e as [index t|v|op l IHl r' IHr|op l IHl r' IHr|e IH|kind e IH];
    destruct Hwt as [Hb Hrefs]; cbn [refs_ok] in Hrefs; simpl in Hb.
  - destruct Hrefs as [b Hsg]. destruct (Forall2_lookup_l _ _ _ _ _ Hr Hsg) as (v & Hv & [Ht _]).
    simpl. by rewrite Hv.
  - simpl. by right.
  - rewrite !andb_true_iff, bool_decide_eq_true in Hb. destruct Hb as [[[[Hbl Hbr] Ht] Hvt] Hop].
    specialize (IHl (conj Hbl (proj1 Hrefs))). specialize (IHr (conj Hbr (proj2 Hrefs))).
    simpl. destruct (eval_row l r) as [[v|m]|]; simpl in *;
      [|by destruct IHl as [-> ->]; rewrite orb_true_r|by rewrite IHl, orb_true_r].
    destruct (eval_row r' r) as [[w|m]|]; simpl in *;
      [|by destruct IHr as [-> ->]; rewrite orb_true_r|by rewrite IHr, orb_true_r].
    rewrite <- Ht in IHr. pose proof (scalar_op_safe op (output_type l) v w Hvt IHl IHr) as Hs.
    destruct (scalar_op op v w) as [[u|m]|]; simpl.
    + apply Hs. intros Hc. by rewrite Hc in Hop.
    + destruct Hs as [-> ->]; [|done]. intros Hc. by rewrite Hc in Hop.
    + rewrite Hs; [done|]. intros Hc. by rewrite Hc in Hop.
  - rewrite !andb_true_iff, !bool_decide_eq_true in Hb. destruct Hb as [[[Hbl Hbr] Htl] Htr].
    specialize (IHl (conj Hbl (proj1 Hrefs))). specialize (IHr (conj Hbr (proj2 Hrefs))).
    simpl. destruct (eval_row l r) as [[v|m]|]; simpl in *;
      [|by destruct IHl as [-> ->]|by rewrite IHl].
    destruct (eval_row r' r) as [[w|m]|]; simpl in *;
      [|by destruct IHr as [-> ->]; rewrite orb_true_r|by rewrite IHr, orb_true_r].
    destruct op; [apply v_and_vec|apply v_or_vec].
  - rewrite andb_true_iff in Hb. specialize (IH (conj (proj1 Hb) Hrefs)).
    simpl. destruct (eval_row e r) as [[v|m]|]; simpl in *; [apply v_not_vec|done|done].
  - rewrite andb_true_iff in Hb. specialize (IH (conj (proj1 Hb) Hrefs)).
    simpl. destruct (eval_row e r) as [[v|m]|]; simpl in *; [apply truth_vec|done|done].
Qed.

Lemma row_of_ok sg c i : chunk_wf sg c -> 0 <= i < logical_size c -> row_typed sg (row_of c i).
Proof.
  intros Hwf Hi. destruct (row_of_shown sg c i) as (phys & Hp & ->); [done..|].
  pose proof (shown_in _ _ Hwf) as Hin. rewrite Forall_lookup in Hin. specialize (Hin _ _ Hp).
  destruct Hwf as [_ Hc _]. unfold row_at, row_typed. apply Forall2_fmap_r.
  eapply Forall2_impl; [done|]. intros s cv Hok. split.
  - by apply (cell_vec (ck_row_count c)).
  - intros Hnull. apply (null_nullable (ck_row_count c) s cv phys Hok). by rewrite Hnull.
Qed.

(** The rows of a well-formed chunk, one by one. *)
Lemma chunk_rows_of sg c : chunk_wf sg c -> chunk_rows c = map (row_of c) (zrange 0 (logical_size c)).
Proof.
  intros Hwf. pose proof (logical_size_rows _ _ Hwf) as Hl. apply list_eq. intros k.
  rewrite list_lookup_fmap. unfold zlen in Hl. destruct (chunk_rows c !! k) as [r|] eqn:E.
  - pose proof (lookup_lt_Some _ _ _ E). rewrite lookup_zrange by lia.
    transitivity (Some (row_of c (0 + Z.of_nat k))); [|done]. unfold row_of.
    rewrite nth_lookup. replace (Z.to_nat (0 + Z.of_nat k)) with k by lia. by rewrite E.
  - apply lookup_ge_None in E. rewrite (proj2 (lookup_ge_None _ _)); [done|]. rewrite length_zrange. lia.
Qed.

(** C26. Evaluating a well-typed expression over a chunk, through its kernels, null bitmaps and
    selection vector, is evaluating it on each row that the chunk shows: the column holds the
    row results in order, an error is the error of some row, and undefined behaviour comes
    from a row whose own evaluation is undefined. *)
Theorem evaluate_rows sg c e : chunk_wf sg c -> well_typed sg e ->
  match evaluate e c with
  | Some (Ok out) =>
      col_ok (logical_size c) (output_type e, nullable_of sg e) out /\
      map (eval_row e) (chunk_rows c) = map (fun v => Some (Ok v)) (cv_values out)
  | Some (Err m) => exists r, r ∈ chunk_rows c /\ eval_row e r = Some (Err m)
  | None => exists r, r ∈ chunk_rows c /\ eval_row e r = None
  end.
Proof.
  intros Hwf Hwt. pose proof (evaluate_outcome sg c e Hwf Hwt) as Ho.
  rewrite (chunk_rows_of sg) by done.
  assert (Hrow : forall i, 0 <= i < logical_size c -> row_of c i ∈ map (row_of c) (zrange 0 (logical_size c))).
  { intros i Hi. apply list_elem_of_fmap. exists i. split; [done|].
    apply list_elem_of_lookup. exists (Z.to_nat i). rewrite lookup_zrange by lia. f_equal. lia. }
  destruct (evaluate e c) as [[out|m]|]; simpl in Ho.
  - destruct Ho as [Hc Hcell]. split; [done|]. unfold cv_values. destruct Hc as (_ & _ & _ & ->).
    rewrite !map_map. apply map_ext_in. intros i Hi. apply list_elem_of_In, list_elem_of_lookup in Hi as [k Hk].
    apply lookup_zrange_Some in Hk as [-> Hk]. apply Hcell. lia.
  - destruct Ho as (i & Hi & He). exists (row_of c i). auto.
  - destruct Ho as (i & Hi & He). exists (row_of c i). auto.
Qed.

(** Type soundness: a well-typed expression over a chunk yields a column of its output type
    with one value per row shown; the only error is a division by zero, in an expression that
    divides; undefined behaviour needs integer arithmetic (whose overflow is undefined). *)
Theorem expression_type_sound sg c e : chunk_wf sg c -> well_typed sg e ->
  match evaluate e c with
  | Some (Ok out) => cv_wf out /\ cv_type out = output_type e /\ zlen (cv_values out) = zlen (chunk_rows c)
  | Some (Err m) => m = "division by zero" /\ divides e = true
  | None => int_arith e = true
  end.
Proof.
  intros Hwf Hwt. pose proof (evaluate_outcome sg c e Hwf Hwt) as Ho.
  assert (Hsafe : forall i, 0 <= i < logical_size c -> safe_result e (eval_row e (row_of c i))).
  { intros i Hi. apply (eval_row_safe sg); [done|]. by apply row_of_ok. }
  destruct (evaluate e c) as [[out|m]|]; simpl in Ho.
  - destruct Ho as [(H1 & H2 & _ & H3) _]. split_and!; [done..|].
    rewrite <- (logical_size_rows sg c Hwf), <- H3. unfold zlen. rewrite length_cv_values.
    pose proof (cw_size _ H1). lia.
  - destruct Ho as (i & Hi & He). specialize (Hsafe i Hi). by rewrite He in Hsafe.
  - destruct Ho as (i & Hi & He). specialize (Hsafe i Hi). by rewrite He in Hsafe.
Qed.

End kernels.

(** ** A concrete chunk *)

(** A processor whose operations return the default quiet NaN. *)
#[export, program] Instance default_fpu : Fpu := {| fpu_nan _ _ := 0x7FF8000000000000 |}.
Next Obligation. done. Qed.
Next Obligation. done. Qed.

(** Rows 5, NULL, 7 of a nullable INT32 column, of which the selection shows the last two. *)
Definition sample_column : ColumnVector :=
  mkCV INT32 true true 3 [5; 0; 0; 0; 0; 0; 0; 0; 7; 0; 0; 0] [] [2].

Definition sample_chunk : Chunk :=
  mkChunk 3 [sample_column] (Some (from_ranges [(1, 2)] 3)).

Definition sample_sig : signature := [(INT32, true)].

Definition sample_expr : Expression :=
  LogicalOp OR (BinaryOp GT (BinaryOp ADD (ColumnRef 0 INT32) (Literal (VI32 1))) (Literal (VI32 6)))
    (NullCheckOp IS_NULL (ColumnRef 0 INT32)).

Lemma sample_column_wf : cv_wf sample_column.
Proof.
  split; simpl; try done; intros _; (split; [done|]).
  - do 12 (constructor; [by split|]). constructor.
  - by apply Forall_singleton.
Qed.

Lemma sample_chunk_wf : chunk_wf sample_sig sample_chunk.
Proof.
  split; simpl; [done| |].
  - constructor; [|constructor]. split_and!; [apply sample_column_wf|done..].
  - intros sv [= <-]. split_and!; [|done..].
    apply sel_wf_intro; simpl; [done|done| |].
    + do 2 (constructor; [done|]). constructor.
    + constructor; [|constructor]. unfold range_ok. simpl. lia.
Qed.

Lemma sample_well_typed : well_typed sample_sig sample_expr.
Proof. split; [done|]. simpl. split_and!; eauto; done. Qed.

Lemma evaluate_rows_witness :
  exists out, evaluate sample_expr sample_chunk = Some (Ok out) /\
    cv_values out = [VI32 1; VI32 1] /\
    map (eval_row sample_expr) (chunk_rows sample_chunk) = [Some (Ok (VI32 1)); Some (Ok (VI32 1))].
Proof.
  pose proof (evaluate_rows sample_sig sample_chunk sample_expr sample_chunk_wf sample_well_typed) as H.
  destruct (evaluate sample_expr sample_chunk) as [[out|m]|] eqn:E; [|vm_compute in E; discriminate..].
  exists out. split; [done|]. destruct H as [_ H]. split; [|vm_compute; reflexivity].
  vm_compute in E. injection E as <-. vm_compute. reflexivity.
Defined.

Lemma expression_type_sound_witness :
  match evaluate sample_expr sample_chunk with
  | Some (Ok out) => cv_type out = INT32 /\ zlen (cv_values out) = 2
  | _ => False
  end.
Proof.
  pose proof (expression_type_sound sample_sig sample_chunk sample_expr sample_chunk_wf sample_well_typed) as H.
  destruct (evaluate sample_expr sample_chunk) as [[out|m]|] eqn:E; [|vm_compute in E; discriminate..].
  destruct H as (_ & -> & ->). split; reflexivity.
Defined.
