(* ===== verification/Operator.v ===== *)
(** * Query operators: the interface, Filter, Project, Limit

    The pull interface [Operator] (src/src/executor/operator.h) is a type class over the state
    of an operator; [Filter] (filter.h, filter.cpp), [Project] (project.h, project.cpp) and
    [Limit] (limit.h, limit.cpp) are instances over the instance of their child, so that plans
    compose as they do in the code.

    [runs fuel s cs fin] says that calling [next] from state [s] until it ends gives the chunks
    [cs] and then the end of the data ([fin = None]) or an error.  The loops that pull from the
    child take [fuel] as a bound on their rounds; it is enough that it exceeds the number of
    chunks of the child.  The theorems state what rows an operator yields in terms of the rows
    of its child, without reference to how they are cut into chunks. *)

From stdpp Require Import sorting.
From S2P Require Import Prelude Types SelectionVector ColumnVector Chunk Expression.

(** ** The interface *)

(** [None]: undefined behaviour (or no fuel left). *)
Class Operator (S : Type) : Type := {
  op_open : S -> option (result unit * S);
  op_next : nat -> S -> option (result (option Chunk) * S);
  op_close : S -> S
}.

Inductive runs {S} `{Operator S} (fuel : nat) : S -> list Chunk -> option string -> Prop :=
| runs_end s s' : op_next fuel s = Some (Ok None, s') -> runs fuel s [] None
| runs_err s s' m : op_next fuel s = Some (Err m, s') -> runs fuel s [] (Some m)
| runs_chunk s s' c cs fin :
    op_next fuel s = Some (Ok (Some c), s') -> runs fuel s' cs fin -> runs fuel s (c :: cs) fin.

(** Only what [next] does from the first state on matters. *)
Lemma runs_next_eq {S} `{Operator S} fuel (s t : S) cs fin :
  op_next fuel s = op_next fuel t -> runs fuel t cs fin -> runs fuel s cs fin.
Proof.
  intros He Hr. inversion Hr; subst; [eapply runs_end|eapply runs_err|eapply runs_chunk; [|done]]; by rewrite He.
Qed.

(** Opening an operator and pulling from it until it ends. *)
Definition executes {S} `{Operator S} (fuel : nat) (s : S) (cs : list Chunk) (fin : option string) : Prop :=
  exists s', op_open s = Some (Ok tt, s') /\ runs fuel s' cs fin.

(** [TableScan::CHUNK_SIZE]: the rows of a chunk, for all operators that build chunks. *)
Definition CHUNK_SIZE : Z := 1024.

(** ** Filter *)

Inductive FilterStrategy : Type := COMPACT | SELECTION_VECTOR.

Record Filter (S : Type) : Type := mkFilter {
  f_child : S;
  f_predicate : Expression;
  f_strategy : FilterStrategy;
  f_opened : bool
}.
Arguments mkFilter {S}.
Arguments f_child {S}.
Arguments f_predicate {S}.
Arguments f_strategy {S}.
Arguments f_opened {S}.

(** The rows that the mask keeps, in a builder. *)
Definition build_selection (chunk : Chunk) (mask : ColumnVector) : option Builder :=
  match ck_sel chunk with
  | Some sel =>
      let! (b, _) :=
        each (for_each sel) (fun phys '(b, k) =>
          let! keep := mask_keeps mask k in
          Some (if keep : bool then builder_append b phys else b, k + 1)) (empty_builder, 0) in
      Some b
  | None =>
      each (zrange 0 (wrap 32 (cv_size mask))) (fun i b =>
        let! keep := mask_keeps mask i in
        Some (if keep : bool then builder_append b i else b)) empty_builder
  end.

(** One round of the loop of [Filter::next]: [None] inside is the [continue]. *)
Definition filter_chunk (strategy : FilterStrategy) (chunk : Chunk) (mask : ColumnVector) :
    option (option Chunk) :=
  match strategy with
  | COMPACT =>
      let! c :=
        match ck_sel chunk with
        | Some _ => chunk_compact_from_sel chunk mask
        | None => chunk_compact_in_place chunk mask
        end in
      Some (if ck_row_count c =? 0 then None else Some c)
  | SELECTION_VECTOR =>
      let! b := build_selection chunk mask in
      if zlen (b_indices b) =? 0 then Some None
      else
        let! sv := finalize b (wrap 32 (ck_row_count chunk)) false in
        let! c := set_sel chunk sv in
        Some (Some c)
  end.

Section filter.
Context {S : Type} `{Operator S} `{Fpu}.

Fixpoint filter_loop (fuel : nat) (n : nat) (strategy : FilterStrategy) (predicate : Expression)
    (child : S) : option (result (option Chunk) * S) :=
  match n with
  | O => None
  | Datatypes.S n' =>
      let! (r, child) := op_next fuel child in
      match r with
      | Err m => Some (Err m, child)
      | Ok None => Some (Ok None, child)
      | Ok (Some chunk) =>
          let! pred := evaluate predicate chunk in
          match pred with
          | Err m => Some (Err m, child)
          | Ok mask =>
              let! out := filter_chunk strategy chunk mask in
              match out with
              | Some c => Some (Ok (Some c), child)
              | None => filter_loop fuel n' strategy predicate child
              end
          end
      end
  end.

Definition filter_with (f : Filter S) (child : S) (opened : bool) : Filter S :=
  mkFilter child (f_predicate f) (f_strategy f) opened.

Definition filter_open (f : Filter S) : option (result unit * Filter S) :=
  let! (r, child) := op_open (f_child f) in
  match r with
  | Err m => Some (Err m, filter_with f child (f_opened f))
  | Ok _ => Some (Ok tt, filter_with f child true)
  end.

Definition filter_next (fuel : nat) (f : Filter S) : option (result (option Chunk) * Filter S) :=
  assert (f_opened f) in
  let! (r, child) := filter_loop fuel fuel (f_strategy f) (f_predicate f) (f_child f) in
  Some (r, filter_with f child (f_opened f)).

Definition filter_close (f : Filter S) : Filter S :=
  filter_with f (op_close (f_child f)) (f_opened f).

#[export] Instance Filter_Operator : Operator (Filter S) :=
  {| op_open := filter_open; op_next := filter_next; op_close := filter_close |}.
End filter.

(** ** Project *)

Record Project (S : Type) : Type := mkProject {
  p_child : S;
  p_items : list Expression;
  p_opened : bool
}.
Arguments mkProject {S}.
Arguments p_child {S}.
Arguments p_items {S}.
Arguments p_opened {S}.

Section project.
Context {S : Type} `{Operator S} `{Fpu}.

(** [for (auto& it : items_) outs.push_back(it.expr->evaluate(input))] *)
Fixpoint evaluate_all (items : list Expression) (input : Chunk) : option (result (list ColumnVector)) :=
  match items with
  | [] => Some (Ok [])
  | e :: rest =>
      let! r := evaluate e input in
      match r with
      | Err m => Some (Err m)
      | Ok col =>
          let! rs := evaluate_all rest input in
          match rs with Err m => Some (Err m) | Ok cols => Some (Ok (col :: cols)) end
      end
  end.

Definition project_with (p : Project S) (child : S) (opened : bool) : Project S :=
  mkProject child (p_items p) opened.

Definition project_open (p : Project S) : option (result unit * Project S) :=
  let! (r, child) := op_open (p_child p) in
  match r with
  | Err m => Some (Err m, project_with p child (p_opened p))
  | Ok _ => Some (Ok tt, project_with p child true)
  end.

Definition project_next (fuel : nat) (p : Project S) : option (result (option Chunk) * Project S) :=
  assert (p_opened p) in
  let! (r, child) := op_next fuel (p_child p) in
  let p := project_with p child (p_opened p) in
  match r with
  | Err m => Some (Err m, p)
  | Ok None => Some (Ok None, p)
  | Ok (Some input) =>
      let! rs := evaluate_all (p_items p) input in
      match rs with
      | Err m => Some (Err m, p)
      | Ok outs => let! c := chunk_new (logical_size input) outs in Some (Ok (Some c), p)
      end
  end.

Definition project_close (p : Project S) : Project S :=
  project_with p (op_close (p_child p)) (p_opened p).

#[export] Instance Project_Operator : Operator (Project S) :=
  {| op_open := project_open; op_next := project_next; op_close := project_close |}.
End project.

(** ** Limit *)

Record Limit (S : Type) : Type := mkLimit {
  l_child : S;
  l_offset : Z;
  l_limit : Z;
  l_skipped : Z;
  l_emitted : Z;
  l_opened : bool;
  l_exhausted : bool
}.
Arguments mkLimit {S}.
Arguments l_child {S}.
Arguments l_offset {S}.
Arguments l_limit {S}.
Arguments l_skipped {S}.
Arguments l_emitted {S}.
Arguments l_opened {S}.
Arguments l_exhausted {S}.

Section limit.
Context {S : Type} `{Operator S}.

Definition limit_new (child : S) (offset limit : Z) : Limit S :=
  mkLimit child offset limit 0 0 false false.

Definition limit_with (l : Limit S) (child : S) (skipped emitted : Z) (opened exhausted : bool) : Limit S :=
  mkLimit child (l_offset l) (l_limit l) skipped emitted opened exhausted.

Definition limit_open (l : Limit S) : option (result unit * Limit S) :=
  let! (r, child) := op_open (l_child l) in
  let set b := limit_with l child (l_skipped l) (l_emitted l) b (l_exhausted l) in
  match r with
  | Err m => Some (Err m, set (l_opened l))
  | Ok _ => Some (Ok tt, set true)
  end.

Definition close_child_eager (l : Limit S) : Limit S :=
  limit_with l (op_close (l_child l)) (l_skipped l) (l_emitted l) (l_opened l) true.

Definition limit_close (l : Limit S) : Limit S :=
  if l_exhausted l then l else close_child_eager l.

(** What follows the skipping: emit the chunk, or its first [remaining] rows. *)
Definition limit_emit (l : Limit S) (chunk : Chunk) : option (result (option Chunk) * Limit S) :=
  let remaining := l_limit l - l_emitted l in
  let emitted n := limit_with l (l_child l) (l_skipped l) n (l_opened l) (l_exhausted l) in
  if logical_size chunk <=? remaining then
    let l := emitted (l_emitted l + logical_size chunk) in
    let l := if l_emitted l =? l_limit l then close_child_eager l else l in
    Some (Ok (Some chunk), l)
  else
    let! chunk := chunk_resize chunk remaining in
    Some (Ok (Some chunk), close_child_eager (emitted (l_limit l))).

Fixpoint limit_loop (fuel n : nat) (l : Limit S) : option (result (option Chunk) * Limit S) :=
  match n with
  | O => None
  | Datatypes.S n' =>
      let! (r, child) := op_next fuel (l_child l) in
      let set skipped := limit_with l child skipped (l_emitted l) (l_opened l) (l_exhausted l) in
      match r with
      | Err m => Some (Err m, set (l_skipped l))
      | Ok None => Some (Ok None, close_child_eager (set (l_skipped l)))
      | Ok (Some chunk) =>
          if l_skipped l <? l_offset l then
            let skip_left := l_offset l - l_skipped l in
            if logical_size chunk <=? skip_left
            then limit_loop fuel n' (set (l_skipped l + logical_size chunk))
            else
              let! chunk := chunk_drop_prefix chunk skip_left in
              limit_emit (set (l_offset l)) chunk
          else limit_emit (set (l_skipped l)) chunk
      end
  end.

Definition limit_next (fuel : nat) (l : Limit S) : option (result (option Chunk) * Limit S) :=
  assert (l_opened l) in
  if l_exhausted l then Some (Ok None, l)
  else if l_limit l <=? l_emitted l then Some (Ok None, close_child_eager l)
  else limit_loop fuel fuel l.

#[export] Instance Limit_Operator : Operator (Limit S) :=
  {| op_open := limit_open; op_next := limit_next; op_close := limit_close |}.
End limit.

(** ** Streams of chunks *)

Definition rows_of (cs : list Chunk) : list row := flat_map chunk_rows cs.

(** A chunk that an operator may pass on: its selection, if any, is in increasing order. *)
Definition chunk_good (sg : signature) (c : Chunk) : Prop :=
  chunk_wf sg c /\ forall sv, ck_sel c = Some sv -> increasing (for_each sv).

(** A chunk built from columns of one length. *)
Lemma chunk_new_ok sg n cols : 0 <= n <= MAX_ROWS -> Forall2 (col_ok n) sg cols ->
  chunk_new n cols = Some (mkChunk n cols None) /\ chunk_good sg (mkChunk n cols None).
Proof.
  intros Hn Hc. split; [|split; [split; simpl; done|done]]. unfold chunk_new.
  assert (forallb (fun c => cv_size c =? n) cols = true) as ->; [|done].
  apply forallb_forall. intros out Hout. pose proof (col_ok_sizes _ _ _ Hc) as Hs.
  rewrite List.Forall_forall in Hs. destruct (Hs out Hout) as [_ ->]. apply Z.eqb_refl.
Qed.

Lemma increasing_take k l : increasing l -> increasing (take k l).
Proof. rewrite <- (take_drop k l) at 1. rewrite StronglySorted_app. tauto. Qed.

Lemma increasing_drop k l : increasing l -> increasing (drop k l).
Proof. rewrite <- (take_drop k l) at 1. rewrite StronglySorted_app. tauto. Qed.

Lemma increasing_select flags l : increasing l -> increasing (select flags l).
Proof.
  intros Hl. revert flags. induction Hl as [|a l Hl IH Ha]; intros [|[] flags]; simpl; try constructor; auto.
  by apply Forall_select.
Qed.

Lemma increasing_shown sg c : chunk_good sg c -> increasing (shown c).
Proof.
  intros [_ Hs]. unfold shown. destruct (ck_sel c) as [sv|]; [by apply Hs|].
  unfold zrange. apply increasing_seq.
Qed.

Lemma chunk_good_resize sg c k : chunk_good sg c -> 0 <= k <= logical_size c ->
  exists c', chunk_resize c k = Some c' /\ chunk_good sg c' /\
    chunk_rows c' = take (Z.to_nat k) (chunk_rows c).
Proof.
  intros [Hwf Hs] Hk. destruct (chunk_resize_ok sg c k) as (c' & Hc & Hwf' & Hr); [done..|].
  exists c'. split_and!; [done..| |done]. split; [done|].
  unfold chunk_resize, logical_size in *. pose proof (ckw_sel _ _ Hwf) as Hsel.
  destruct (ck_sel c) as [sv|]; rewrite (proj2 (Z.leb_le _ _)) in Hc by lia; injection Hc as <-;
    simpl; [|done]. intros sv' [= <-].
  destruct (Hsel sv eq_refl) as (Hsv & _). destruct (truncate_ok sv k) as (_ & _ & ->); [done|lia|].
  by apply increasing_take, Hs.
Qed.

Lemma chunk_good_drop sg c n : chunk_good sg c -> 0 <= n <= logical_size c ->
  exists c', chunk_drop_prefix c n = Some c' /\ chunk_good sg c' /\
    chunk_rows c' = drop (Z.to_nat n) (chunk_rows c).
Proof.
  intros [Hwf Hs] Hn. destruct (chunk_drop_prefix_ok sg c n) as (c' & Hc & Hwf' & Hr); [done..|].
  exists c'. split_and!; [done..| |done]. split; [done|].
  pose proof (logical_size_ok _ _ Hwf) as Hls. pose proof (ckw_sel _ _ Hwf) as Hsel.
  unfold chunk_drop_prefix, logical_size, shown in *.
  destruct (ck_sel c) as [sv|]; rewrite (proj2 (Z.leb_le _ _)) in Hc by lia.
  - destruct (Hsel sv eq_refl) as (Hsv & _).
    destruct (drop_prefix_ok sv n) as (sv' & Hd & _ & _ & Hf); [done|lia|].
    rewrite Hd in Hc. injection Hc as <-. simpl. intros ? [= <-]. rewrite Hf.
    by apply increasing_drop, Hs.
  - destruct (mapM _ _); [|done]. by injection Hc as <-.
Qed.

(** ** Filter: one chunk *)

Lemma each_select {St} (step : St -> Z -> St) mask rows s : cv_wf mask -> cv_type mask = INT32 ->
  cv_size mask = zlen rows ->
  each rows (fun phys '(b, k) =>
    let! keep := mask_keeps mask k in
    Some (if keep : bool then step b phys else b, k + 1)) (s, 0) =
  Some (fold_left step (select (mask_flags mask) rows) s, zlen rows).
Proof.
  intros Hwf Ht Hs.
  destruct (each_inv (fun k st =>
      st = (fold_left step (select (take k (mask_flags mask)) (take k rows)) s, Z.of_nat k)) rows
    (fun phys '(b, k) => let! keep := mask_keeps mask k in
      Some (if keep : bool then step b phys else b, k + 1)) (s, 0)) as (st & -> & ->); [done| |].
  - intros k phys [b i] Hk [= -> ->]. pose proof (lookup_lt_Some _ _ _ Hk) as Hlt. unfold zlen in Hs.
    rewrite mask_keeps_ok by (done || lia). eexists. split; [done|]. f_equal; [|lia].
    rewrite (select_take_S _ _ _ _ _ (lookup_mask_flags mask k ltac:(lia)) Hk), fold_left_app.
    by destruct (keeps _).
  - unfold zlen in Hs. rewrite !take_ge; [done|done|]. rewrite length_mask_flags. lia.
Qed.

Lemma each_select_range {St} (step : St -> Z -> St) mask n s : cv_wf mask -> cv_type mask = INT32 ->
  cv_size mask = n ->
  each (zrange 0 n) (fun i b =>
    let! keep := mask_keeps mask i in Some (if keep : bool then step b i else b)) s =
  Some (fold_left step (select (mask_flags mask) (zrange 0 n)) s).
Proof.
  intros Hwf Ht Hs. pose proof (cw_size _ Hwf).
  destruct (each_inv (fun k st =>
      st = fold_left step (select (take k (mask_flags mask)) (take k (zrange 0 n))) s) (zrange 0 n)
    (fun i b => let! keep := mask_keeps mask i in Some (if keep : bool then step b i else b)) s)
    as (st & -> & ->); [done| |].
  - intros k i b Hk ->. pose proof Hk as [-> Hlt]%lookup_zrange_Some. rewrite Z.add_0_l in *.
    rewrite mask_keeps_ok by (done || lia). eexists. split; [done|].
    rewrite (select_take_S _ _ _ _ _ (lookup_mask_flags mask k ltac:(lia)) Hk), fold_left_app.
    by destruct (keeps _).
  - rewrite !take_ge; [done|done|]. rewrite length_mask_flags, length_zrange. lia.
Qed.

Lemma build_selection_ok sg c mask : chunk_wf sg c -> mask_ok c mask ->
  exists b, build_selection c mask = Some b /\ b_indices b = select (mask_flags mask) (shown c).
Proof.
  intros Hwf (Hm & Ht & Hs). pose proof (logical_size_ok _ _ Hwf) as Hls.
  pose proof (logical_size_bound _ _ Hwf) as Hb. unfold MAX_ROWS in Hb.
  unfold build_selection, shown, logical_size in *. destruct (ck_sel c) as [sel|] eqn:Es.
  - rewrite each_select by (done || congruence). eexists. split; [done|]. by rewrite builder_indices.
  - rewrite wrap_id, Hs by (unfold in_u; lia).
    rewrite each_select_range by done. eexists. split; [done|]. by rewrite builder_indices.
Qed.

Lemma select_shown_in sg c flags : chunk_wf sg c ->
  Forall (fun i => 0 <= i < ck_row_count c) (select flags (shown c)).
Proof. intros Hwf. by eapply Forall_select, shown_in. Qed.

(** Both strategies keep the rows of the mask. *)
Lemma filter_chunk_ok sg strategy c mask : chunk_good sg c -> mask_ok c mask -> sg <> [] ->
  exists o, filter_chunk strategy c mask = Some o /\
    match o with
    | Some c' => chunk_good sg c' /\ chunk_rows c' = select (mask_flags mask) (chunk_rows c)
    | None => select (mask_flags mask) (chunk_rows c) = []
    end.
Proof.
  intros Hg Hm Hne. pose proof Hg as [Hwf _]. destruct strategy; unfold filter_chunk.
  - assert (Hc : exists c', match ck_sel c with
        | Some _ => chunk_compact_from_sel c mask | None => chunk_compact_in_place c mask end = Some c' /\
      chunk_wf sg c' /\ ck_sel c' = None /\ chunk_rows c' = select (mask_flags mask) (chunk_rows c)).
    { destruct (ck_sel c) eqn:Es; [apply compact_from_sel_ok; rewrite ?Es; eauto|by apply compact_in_place_ok]. }
    destruct Hc as (c' & -> & Hwf' & Hs & Hrows). eexists. split; [done|].
    pose proof (logical_size_rows _ _ Hwf') as Hl. unfold logical_size in Hl. rewrite Hs in Hl.
    destruct (Z.eqb_spec (ck_row_count c') 0) as [E|E].
    + rewrite <- Hrows. unfold zlen in Hl. destruct (chunk_rows c'); [done|simpl in Hl; lia].
    + split; [|done]. split; [done|]. by rewrite Hs.
  - destruct (build_selection_ok sg c mask) as (b & -> & Hb); [done..|].
    assert (Hsel : select (mask_flags mask) (chunk_rows c) = map (row_at (ck_columns c)) (b_indices b))
      by (unfold chunk_rows; by rewrite select_map, Hb).
    rewrite Hsel.
    destruct (Z.eqb_spec (zlen (b_indices b)) 0) as [E|E].
    { eexists. split; [done|]. unfold zlen in E. destruct (b_indices b); [done|simpl in E; lia]. }
    pose proof (ckw_rows _ _ Hwf) as Hr. unfold MAX_ROWS in Hr.
    assert (Hin : Forall (fun i => 0 <= i < ck_row_count c) (b_indices b))
      by (rewrite Hb; by eapply select_shown_in).
    assert (Hinc : increasing (b_indices b))
      by (rewrite Hb; by eapply increasing_select, increasing_shown).
    rewrite wrap_id by (unfold in_u; lia).
    destruct (finalize_ok b (ck_row_count c) false) as (sv & -> & Hsv & Hrc & Hf); [lia|done|done|].
    unfold set_sel. rewrite Hrc, Z.eqb_refl. eexists. split; [done|]. split.
    + split; [split; simpl|]; [apply Hwf|apply Hwf| |].
      * intros ? [= <-]. split_and!; [done..|]. rewrite Hf, Hb.
        pose proof (shown_le sg c (mask_flags mask) Hwf). pose proof (logical_size_bound _ _ Hwf). lia.
      * intros ? [= <-]. by rewrite Hf.
    + unfold chunk_rows, shown. simpl. by rewrite Hf.
Qed.

(** ** Filter: the stream *)

(** A row's value, where its evaluation has one. *)
Definition row_value `{Fpu} (e : Expression) (r : row) : option Value :=
  match eval_row e r with Some (Ok v) => Some v | _ => None end.

(** The rows a predicate keeps; [None] if it fails on one of them. *)
Definition keep_rows `{Fpu} (p : Expression) (rows : list row) : option (list row) :=
  let! vs := mapM (row_value p) rows in Some (select (map keeps vs) rows).

(** Filtering chunk by chunk: the rows that come out, and how the stream ends. *)
Fixpoint filter_ref `{Fpu} (p : Expression) (cs : list Chunk) (fin : option string) :
    list row * option string :=
  match cs with
  | [] => ([], fin)
  | c :: cs' =>
      match keep_rows p (chunk_rows c) with
      | Some rs => (rs ++ (filter_ref p cs' fin).1, (filter_ref p cs' fin).2)
      | None => ([], Some "division by zero")
      end
  end.

(** No row of the stream makes the expression overflow. *)
Definition defined_on `{Fpu} (e : Expression) (c : Chunk) : Prop :=
  Forall (fun r => eval_row e r <> None) (chunk_rows c).

Section evaluation.
Context `{Fpu}.

Lemma mapM_row_value e rows vs :
  map (eval_row e) rows = map (fun v => Some (Ok v)) vs -> mapM (row_value e) rows = Some vs.
Proof.
  revert vs. induction rows as [|r rows IH]; intros [|v vs]; simpl; try done. intros [= Hv Hvs].
  assert (row_value e r = Some v) as -> by (unfold row_value; by rewrite Hv).
  simpl. by rewrite (IH vs Hvs).
Qed.

Lemma mapM_row_value_err e rows r m : r ∈ rows -> eval_row e r = Some (Err m) ->
  mapM (row_value e) rows = None.
Proof.
  intros Hr He. assert (Hv : row_value e r = None) by (unfold row_value; by rewrite He). clear He.
  induction Hr as [|r1 r' rows Hr IH]; simpl; [by rewrite Hv|].
  destruct (row_value e r'); [|done]. simpl. by rewrite IH.
Qed.

(** Evaluation over a chunk on which the expression is defined. *)
Lemma evaluate_defined sg c e : chunk_wf sg c -> well_typed sg e -> defined_on e c ->
  (exists out, evaluate e c = Some (Ok out) /\
     col_ok (logical_size c) (output_type e, nullable_of sg e) out /\
     mapM (row_value e) (chunk_rows c) = Some (cv_values out)) \/
  (evaluate e c = Some (Err "division by zero") /\ mapM (row_value e) (chunk_rows c) = None).
Proof.
  intros Hwf Hwt Hdef. pose proof (evaluate_outcome sg c e Hwf Hwt) as Ho.
  rewrite (chunk_rows_of sg) by done. unfold defined_on in Hdef. rewrite (chunk_rows_of sg) in Hdef by done.
  assert (Hrow : forall i, 0 <= i < logical_size c -> row_of c i ∈ map (row_of c) (zrange 0 (logical_size c))).
  { intros i Hi. apply list_elem_of_fmap. exists i. split; [done|].
    apply list_elem_of_lookup. exists (Z.to_nat i). rewrite lookup_zrange by lia. f_equal. lia. }
  rewrite Forall_forall in Hdef.
  destruct (evaluate e c) as [[out|m]|]; simpl in Ho.
  - left. exists out. destruct Ho as [Hc Hcell]. split_and!; [done..|]. apply mapM_row_value.
    unfold cv_values. destruct Hc as (_ & _ & _ & ->). rewrite !map_map. apply map_ext_in.
    intros i Hi. apply list_elem_of_In, list_elem_of_lookup in Hi as [k Hk].
    apply lookup_zrange_Some in Hk as [-> Hk]. apply Hcell. lia.
  - right. destruct Ho as (i & Hi & He).
    pose proof (eval_row_safe sg e (row_of c i) Hwt (row_of_ok sg c i Hwf Hi)) as Hsafe.
    rewrite He in Hsafe. destruct Hsafe as [-> _]. split; [done|].
    eapply mapM_row_value_err; [by apply Hrow|done].
  - destruct Ho as (i & Hi & He). exfalso. by apply (Hdef (row_of c i) (Hrow i Hi)).
Qed.
End evaluation.

Section filter_proof.
Context {S : Type} `{Operator S} `{Fpu}.
Context (sg : signature) (p : Expression) (strategy : FilterStrategy) (fuel : nat).
Hypothesis Hsg : sg <> [].
Hypothesis Hp : well_typed sg p.
Hypothesis Hpt : output_type p = INT32.

Definition stream_ok (cs : list Chunk) : Prop :=
  Forall (fun c => chunk_good sg c /\ defined_on p c) cs.

Lemma mask_keep_rows c mask : chunk_wf sg c -> mapM (row_value p) (chunk_rows c) = Some (cv_values mask) ->
  keep_rows p (chunk_rows c) = Some (select (mask_flags mask) (chunk_rows c)).
Proof using. intros Hwf Hv. unfold keep_rows. by rewrite Hv. Qed.

Lemma filter_loop_ok child cs fin : runs fuel child cs fin -> stream_ok cs ->
  forall n, (length cs < n)%nat ->
  exists r child', filter_loop fuel n strategy p child = Some (r, child') /\
    match r with
    | Ok None => filter_ref p cs fin = ([], None)
    | Err m => filter_ref p cs fin = ([], Some m)
    | Ok (Some c) =>
        chunk_good sg c /\
        exists cs1, runs fuel child' cs1 fin /\ stream_ok cs1 /\ (length cs1 < length cs)%nat /\
          filter_ref p cs fin = (chunk_rows c ++ (filter_ref p cs1 fin).1, (filter_ref p cs1 fin).2)
    end.
Proof using Hp Hpt Hsg.
  intros Hruns. induction Hruns as [s s' Hnext|s s' m Hnext|s s' c cs fin Hnext Hruns IH];
    intros Hok n Hn; (destruct n as [|n]; [simpl in Hn; lia|]); cbn [filter_loop]; rewrite Hnext.
  - by exists (Ok None), s'.
  - by exists (Err m), s'.
  - apply Forall_cons in Hok as [[Hg Hdef] Hok]. pose proof Hg as [Hwf _]. cbn [filter_ref].
    destruct (evaluate_defined sg c p Hwf Hp Hdef) as [(mask & -> & Hcol & Hv)|[-> Hv]].
    + assert (Hm : mask_ok c mask).
      { destruct Hcol as (? & Ht & _ & ?). cbn [fst] in Ht. split_and!; [done|congruence|done]. }
      rewrite (mask_keep_rows c mask) by done.
      destruct (filter_chunk_ok sg strategy c mask) as (o & -> & Ho); [done..|].
      destruct o as [c'|].
      * destruct Ho as [Hg' Hrows]. exists (Ok (Some c')), s'. split; [done|]. split; [done|].
        exists cs. rewrite Hrows. split_and!; [done..|simpl; lia|done].
      * rewrite Ho. destruct (IH Hok n) as (r & child' & -> & Hr); [simpl in Hn; lia|].
        exists r, child'. split; [done|]. rewrite app_nil_l. rewrite <- surjective_pairing.
        destruct r as [[c'|]|m]; [|done..]. destruct Hr as (Hg' & cs1 & ? & ? & ? & ?).
        split; [done|]. exists cs1. split_and!; [done..|simpl; lia|done].
    + unfold keep_rows. rewrite Hv. by exists (Err "division by zero"), s'.
Qed.

Lemma filter_runs : forall k child cs fin, (length cs < k)%nat -> (k <= fuel)%nat ->
  runs fuel child cs fin -> stream_ok cs ->
  exists cs' fin', runs fuel (mkFilter child p strategy true) cs' fin' /\
    Forall (chunk_good sg) cs' /\ (rows_of cs', fin') = filter_ref p cs fin.
Proof using Hp Hpt Hsg.
  induction k as [|k IH]; intros child cs fin Hlen Hk Hruns Hok; [lia|].
  destruct (filter_loop_ok child cs fin Hruns Hok fuel) as (r & child' & Hloop & Hr); [lia|].
  assert (Hnext : op_next fuel (mkFilter child p strategy true) = Some (r, mkFilter child' p strategy true)).
  { simpl. unfold filter_next. simpl. by rewrite Hloop. }
  destruct r as [[c|]|m].
  - destruct Hr as (Hg & cs1 & Hruns1 & Hok1 & Hlt & Href).
    destruct (IH child' cs1 fin) as (cs' & fin' & Hr' & Hg' & Hrows); [lia..|done|done|].
    exists (c :: cs'), fin'. split_and!; [by eapply runs_chunk|by constructor|].
    rewrite Href, <- Hrows. done.
  - exists [], None. split_and!; [by eapply runs_end|done|done].
  - exists [], (Some m). split_and!; [by eapply runs_err|done|done].
Qed.

(** C20. Whatever the strategy (compaction in place, or a selection vector over the child's
    columns), a Filter over a child yields exactly the rows of the child on which the
    predicate is true (not false, not NULL), in order, whatever the chunk boundaries; its
    loop ends; a division by zero ends the stream at the chunk it occurs in, and an error of
    the child is passed on. *)
Theorem filter_correct child cs fin : (length cs < fuel)%nat -> executes fuel child cs fin -> stream_ok cs ->
  exists cs' fin', executes fuel (mkFilter child p strategy false) cs' fin' /\
    Forall (chunk_good sg) cs' /\ (rows_of cs', fin') = filter_ref p cs fin.
Proof using Hp Hpt Hsg.
  intros Hlen (s' & Hopen & Hruns) Hok.
  destruct (filter_runs fuel s' cs fin) as (cs' & fin' & Hr & Hg & Hrows); [done..|].
  exists cs', fin'. split_and!; [|done..]. exists (mkFilter s' p strategy true). split; [|done].
  simpl. unfold filter_open. simpl. by rewrite Hopen.
Qed.
End filter_proof.

(** ** Limit: the stream *)

Section limit_proof.
Context {S : Type} `{Operator S}.
Context (sg : signature) (fuel : nat) (offset limit : Z).

(** The rows still to be emitted, and how the stream ends, after [sk] rows were skipped and
    [em] emitted. *)
Definition limit_rows (sk em : Z) (rows : list row) : list row :=
  take (Z.to_nat (limit - em)) (drop (Z.to_nat (offset - sk)) rows).

Definition limit_fin (sk em : Z) (rows : list row) (fin : option string) : option string :=
  if (limit <=? em) || (offset - sk + (limit - em) <=? zlen rows) then None else fin.

Definition limit_state (child : S) (sk em : Z) : Limit S := mkLimit child offset limit sk em true false.

(** What a call of the loop returns, as a first part of what is left. *)
Definition limit_result (cs : list Chunk) (fin : option string) (sk em : Z)
    (r : result (option Chunk)) (l' : Limit S) : Prop :=
  match r with
  | Ok None => limit_rows sk em (rows_of cs) = [] /\ limit_fin sk em (rows_of cs) fin = None
  | Err m => limit_rows sk em (rows_of cs) = [] /\ limit_fin sk em (rows_of cs) fin = Some m
  | Ok (Some c) =>
      chunk_good sg c /\
      ((l_opened l' = true /\ l_exhausted l' = true /\ limit_rows sk em (rows_of cs) = chunk_rows c /\
        limit_fin sk em (rows_of cs) fin = None) \/
       exists child' cs1 em', l' = limit_state child' offset em' /\ 0 <= em' < limit /\
         runs fuel child' cs1 fin /\ (length cs1 < length cs)%nat /\ Forall (chunk_good sg) cs1 /\
         limit_rows sk em (rows_of cs) = chunk_rows c ++ limit_rows offset em' (rows_of cs1) /\
         limit_fin sk em (rows_of cs) fin = limit_fin offset em' (rows_of cs1) fin)
  end.

Lemma limit_emit_ok child cs fin c em : runs fuel child cs fin -> Forall (chunk_good sg) cs ->
  chunk_good sg c -> 0 <= em < limit ->
  exists c' l', limit_emit (limit_state child offset em) c = Some (Ok (Some c'), l') /\
    limit_result (c :: cs) fin offset em (Ok (Some c')) l'.
Proof.
  intros Hruns Hcs Hg Hem. pose proof (logical_size_rows _ _ (proj1 Hg)) as Hl.
  pose proof (zlen_nonneg (chunk_rows c)). unfold limit_emit. cbn [l_limit l_emitted limit_state].
  assert (Hrows : limit_rows offset em (rows_of (c :: cs)) =
    take (Z.to_nat (limit - em)) (chunk_rows c ++ rows_of cs)).
  { unfold limit_rows. by rewrite Z.sub_diag. }
  assert (Hzl : zlen (rows_of (c :: cs)) = zlen (chunk_rows c) + zlen (rows_of cs)) by apply zlen_app.
  pose proof (zlen_nonneg (rows_of cs)). destruct (Z.leb_spec (logical_size c) (limit - em)) as [Hle|Hgt].
  - cbn [limit_with l_emitted l_limit limit_state l_child l_skipped l_opened l_exhausted l_offset].
    eexists c, _. split; [done|]. split; [done|].
    destruct (Z.eqb_spec (em + logical_size c) limit) as [Heq|Hne].
    + left. split_and!; [done..| |].
      * rewrite Hrows, take_app_length'; [done|]. unfold zlen in Hl. lia.
      * unfold limit_fin. rewrite Hzl. rewrite (proj2 (Z.leb_le _ (zlen _ + _))), orb_true_r by lia. done.
    + right. exists child, cs, (em + logical_size c). split_and!; [done|lia|lia|done|simpl; lia|done| |].
      * rewrite Hrows, take_app_ge by (unfold zlen in Hl; lia). f_equal. unfold limit_rows.
        rewrite Z.sub_diag. simpl. f_equal. unfold zlen in Hl. lia.
      * unfold limit_fin. rewrite Hzl. rewrite !(proj2 (Z.leb_gt limit _)) by lia. simpl.
        destruct (Z.leb_spec (offset - offset + (limit - em)) (zlen (chunk_rows c) + zlen (rows_of cs))),
          (Z.leb_spec (offset - offset + (limit - (em + logical_size c))) (zlen (rows_of cs))); (done || lia).
  - destruct (chunk_good_resize sg c (limit - em)) as (c' & -> & Hg' & Hr); [done|lia|].
    eexists c', _. split; [done|]. split; [done|]. left. split_and!; [done..| |].
    + rewrite Hr, Hrows, take_app_le; [done|]. unfold zlen in Hl. lia.
    + unfold limit_fin. rewrite Hzl. rewrite (proj2 (Z.leb_le _ (zlen _ + _))), orb_true_r by lia. done.
Qed.

Lemma limit_loop_ok child cs fin : runs fuel child cs fin -> Forall (chunk_good sg) cs ->
  forall n sk em, (length cs < n)%nat -> 0 <= sk <= offset -> 0 <= em < limit ->
  exists r l', limit_loop fuel n (limit_state child sk em) = Some (r, l') /\
    limit_result cs fin sk em r l'.
Proof.
  intros Hruns. induction Hruns as [s s' Hnext|s s' m Hnext|s s' c cs fin Hnext Hruns IH];
    intros Hok n sk em Hn Hsk Hem; (destruct n as [|n]; [simpl in Hn; lia|]); cbn [limit_loop];
    cbn [l_child limit_state]; rewrite Hnext.
  - eexists _, _. split; [done|]. unfold limit_result, limit_rows, limit_fin. simpl.
    rewrite drop_nil, take_nil. by destruct (_ || _).
  - eexists _, _. split; [done|]. unfold limit_result, limit_rows, limit_fin. simpl.
    rewrite drop_nil, take_nil, (proj2 (Z.leb_gt _ _)) by lia. change (zlen (@nil row)) with 0.
    by rewrite (proj2 (Z.leb_gt _ _)) by lia.
  - apply Forall_cons in Hok as [Hg Hok]. cbn [l_skipped l_offset limit_state].
    pose proof (logical_size_rows _ _ (proj1 Hg)) as Hl. pose proof (zlen_nonneg (chunk_rows c)).
    destruct (Z.ltb_spec sk offset) as [Hlt|Hge].
    + destruct (Z.leb_spec (logical_size c) (offset - sk)) as [Hle|Hgt].
      * (* the whole chunk is skipped *)
        destruct (IH Hok n (sk + logical_size c) em) as (r & l' & Hloop & Hr); [simpl in Hn; lia|lia|lia|].
        exists r, l'. split; [exact Hloop|].
        assert (Hrows : limit_rows sk em (rows_of (c :: cs)) = limit_rows (sk + logical_size c) em (rows_of cs)).
        { unfold limit_rows. simpl. rewrite drop_app_ge by (unfold zlen in Hl; lia).
          do 2 f_equal. unfold zlen in Hl. lia. }
        assert (Hfin : limit_fin sk em (rows_of (c :: cs)) fin =
                       limit_fin (sk + logical_size c) em (rows_of cs) fin).
        { unfold limit_fin. simpl. rewrite zlen_app.
          destruct (Z.leb_spec (offset - sk + (limit - em)) (zlen (chunk_rows c) + zlen (rows_of cs))),
            (Z.leb_spec (offset - (sk + logical_size c) + (limit - em)) (zlen (rows_of cs))); (done || lia). }
        unfold limit_result in *. rewrite Hrows, Hfin. destruct r as [[c'|]|m]; [|done..].
        destruct Hr as [Hg' [Hr|(child' & cs1 & em' & ? & ? & ? & ? & ? & ? & ?)]]; (split; [done|]); [by left|].
        right. exists child', cs1, em'. split_and!; try done; simpl; lia.
      * (* the rest of the chunk is emitted *)
        destruct (chunk_good_drop sg c (offset - sk)) as (c1 & -> & Hg1 & Hr1); [done|lia|].
        destruct (limit_emit_ok s' cs fin c1 em) as (c' & l' & Hemit & Hr); [done..|].
        exists (Ok (Some c')), l'. split; [exact Hemit|].
        assert (Hrows : limit_rows sk em (rows_of (c :: cs)) = limit_rows offset em (rows_of (c1 :: cs))).
        { unfold limit_rows. simpl. rewrite Hr1, drop_app_le by (unfold zlen in Hl; lia).
          by rewrite Z.sub_diag. }
        assert (Hfin : limit_fin sk em (rows_of (c :: cs)) fin = limit_fin offset em (rows_of (c1 :: cs)) fin).
        { unfold limit_fin. simpl. rewrite !zlen_app, Hr1.
          assert (zlen (drop (Z.to_nat (offset - sk)) (chunk_rows c)) = zlen (chunk_rows c) - (offset - sk))
            as -> by (unfold zlen in *; rewrite length_drop; lia).
          destruct (Z.leb_spec (offset - sk + (limit - em)) (zlen (chunk_rows c) + zlen (rows_of cs))),
            (Z.leb_spec (offset - offset + (limit - em)) (zlen (chunk_rows c) - (offset - sk) + zlen (rows_of cs)));
            (done || lia). }
        unfold limit_result in *. rewrite Hrows, Hfin. exact Hr.
    + assert (sk = offset) as -> by lia.
      destruct (limit_emit_ok s' cs fin c em) as (c' & l' & Hemit & Hr); [done..|].
      exists (Ok (Some c')), l'. split; [exact Hemit|done].
Qed.

Lemma limit_done l : l_opened l = true -> l_exhausted l = true -> runs fuel l [] None.
Proof. intros Ho He. eapply (runs_end _ _ l). simpl. unfold limit_next. by rewrite Ho, He. Qed.

Lemma limit_runs : forall k child cs fin sk em, (length cs < k)%nat -> (k <= fuel)%nat ->
  runs fuel child cs fin -> Forall (chunk_good sg) cs -> 0 <= sk <= offset -> 0 <= em <= limit ->
  exists cs', runs fuel (limit_state child sk em) cs' (limit_fin sk em (rows_of cs) fin) /\
    Forall (chunk_good sg) cs' /\ rows_of cs' = limit_rows sk em (rows_of cs).
Proof.
  induction k as [|k IH]; intros child cs fin sk em Hlen Hk Hruns Hok Hsk Hem; [lia|].
  destruct (decide (limit <= em)) as [Hge|Hlt].
  { exists []. split_and!; [|done|].
    - unfold limit_fin. rewrite (proj2 (Z.leb_le _ _)) by done. eapply runs_end. simpl.
      unfold limit_next. simpl. by rewrite (proj2 (Z.leb_le _ _)) by done.
    - unfold limit_rows. by replace (Z.to_nat (limit - em)) with 0%nat by lia. }
  destruct (limit_loop_ok child cs fin Hruns Hok fuel sk em) as (r & l' & Hloop & Hr); [lia..|].
  assert (Hnext : op_next fuel (limit_state child sk em) = Some (r, l')).
  { simpl. unfold limit_next. simpl. rewrite (proj2 (Z.leb_gt _ _)) by lia. done. }
  destruct r as [[c|]|m].
  - destruct Hr as [Hg [(Ho & He & Hrows & ->)|(child' & cs1 & em' & -> & Hem' & Hr1 & Hl1 & Hok1 & Hrows & ->)]].
    + exists [c]. split_and!; [by eapply runs_chunk, limit_done|by apply Forall_singleton|].
      rewrite Hrows. simpl. by rewrite app_nil_r.
    + destruct (IH child' cs1 fin offset em') as (cs' & Hr' & Hg' & Hrows'); [lia..|done|done|lia|lia|].
      exists (c :: cs'). split_and!; [by eapply runs_chunk|by constructor|].
      rewrite Hrows, <- Hrows'. done.
  - destruct Hr as [Hrows ->]. exists []. rewrite Hrows. split_and!; [by eapply runs_end|done|done].
  - destruct Hr as [Hrows ->]. exists []. rewrite Hrows. split_and!; [by eapply runs_err|done|done].
Qed.

(** [Limit] with an offset yields rows [offset], ..., [offset + limit - 1] of its child,
    whatever the chunk boundaries and whether or not the chunks carry selections, and ends; an
    error of the child is passed on exactly when the limit was not reached before it. *)
Theorem limit_correct child cs fin : (length cs < fuel)%nat -> 0 <= offset -> 0 <= limit ->
  executes fuel child cs fin -> Forall (chunk_good sg) cs ->
  exists cs', executes fuel (limit_new child offset limit) cs'
      (if (limit =? 0) || (offset + limit <=? zlen (rows_of cs)) then None else fin) /\
    Forall (chunk_good sg) cs' /\
    rows_of cs' = take (Z.to_nat limit) (drop (Z.to_nat offset) (rows_of cs)).
Proof.
  intros Hlen Ho Hlim (s' & Hopen & Hruns) Hok.
  destruct (limit_runs fuel s' cs fin 0 0) as (cs' & Hr & Hg & Hrows); [done..|lia|lia|].
  exists cs'. split_and!; [|done|].
  - exists (limit_state s' 0 0). split; [simpl; unfold limit_open; simpl; by rewrite Hopen|].
    unfold limit_fin in Hr. rewrite !Z.sub_0_r in Hr.
    replace (limit =? 0) with (limit <=? 0); [done|].
    destruct (Z.leb_spec limit 0), (Z.eqb_spec limit 0); (done || lia).
  - rewrite Hrows. unfold limit_rows. by rewrite !Z.sub_0_r.
Qed.
End limit_proof.

(** ** Project: the stream *)

Section project_proof.
Context {S : Type} `{Operator S} `{Fpu}.
Context (sg : signature) (items : list Expression) (fuel : nat).
Hypothesis Hitems : Forall (well_typed sg) items.

(** The output columns. *)
Definition project_sig : signature := map (fun e => (output_type e, nullable_of sg e)) items.

(** The projection of a row, and of the rows of a chunk; [None] if an item fails. *)
Definition project_row (r : row) : option row := mapM (fun e => row_value e r) items.

Fixpoint project_ref (cs : list Chunk) (fin : option string) : list row * option string :=
  match cs with
  | [] => ([], fin)
  | c :: cs' =>
      match mapM project_row (chunk_rows c) with
      | Some rs => (rs ++ (project_ref cs' fin).1, (project_ref cs' fin).2)
      | None => ([], Some "division by zero")
      end
  end.

Definition all_defined (c : Chunk) : Prop := Forall (fun e => defined_on e c) items.
End project_proof.

Section project_chunk.
Context `{Fpu}.

(** Columns of values, row by row. *)
Lemma evaluate_all_ok sg c items : chunk_wf sg c -> Forall (well_typed sg) items ->
  all_defined items c ->
  (exists outs, evaluate_all items c = Some (Ok outs) /\
     Forall2 (col_ok (logical_size c)) (project_sig sg items) outs /\
     Forall2 (fun e out => mapM (row_value e) (chunk_rows c) = Some (cv_values out)) items outs) \/
  (evaluate_all items c = Some (Err "division by zero") /\
   exists e, e ∈ items /\ mapM (row_value e) (chunk_rows c) = None).
Proof.
  intros Hwf Hwt Hdef. induction Hwt as [|e items Hwt Hwts IH]; [by left; exists []|].
  apply Forall_cons in Hdef as [Hd Hds]. cbn [evaluate_all].
  destruct (evaluate_defined sg c e Hwf Hwt Hd) as [(out & -> & Hcol & Hv)|[-> Hv]].
  - destruct (IH Hds) as [(outs & -> & Hc & Hvs)|[-> (e' & He' & Hv')]].
    + left. exists (out :: outs). split_and!; [done|by constructor|by constructor].
    + right. split; [done|]. exists e'. split; [by right|done].
  - right. split; [done|]. exists e. split; [by left|done].
Qed.

(** If every column has values then every row has its projection. *)
Lemma project_rows_ok items outs rows n : 
  Forall2 (fun e out => mapM (row_value e) rows = Some (cv_values out)) items outs ->
  Forall (fun out => cv_size out = n) outs -> zlen rows = n ->
  mapM (project_row items) rows = Some (map (row_at outs) (zrange 0 n)).
Proof.
  intros Hvs Hsz Hn. apply mapM_Some. apply Forall2_same_length_lookup_2.
  { rewrite length_map, length_zrange. unfold zlen in Hn. lia. }
  intros k r r' Hr Hr'. rewrite list_lookup_fmap in Hr'.
  destruct (zrange 0 n !! k) as [i|] eqn:Ei; [|done]. injection Hr' as <-.
  apply lookup_zrange_Some in Ei as [-> Hk]. rewrite Z.add_0_l.
  unfold project_row, row_at. apply mapM_Some. clear Hn.
  induction Hvs as [|e out items outs Hv _ IH]; [constructor|]. apply Forall_cons in Hsz as [Hs Hsz].
  simpl. constructor; [|by apply IH].
  apply mapM_Some in Hv. destruct (Forall2_lookup_l _ _ _ _ _ Hv Hr) as (v & Hv' & He).
  rewrite lookup_cv_values in Hv' by (rewrite Hs; done). injection Hv' as <-. done.
Qed.
End project_chunk.

Section project_stream.
Context {S : Type} `{Operator S} `{Fpu}.
Context (sg : signature) (items : list Expression) (fuel : nat).
Hypothesis Hitems : Forall (well_typed sg) items.

Lemma mapM_none {A B} (f : A -> option B) l a : a ∈ l -> f a = None -> mapM f l = None.
Proof using.
  intros Ha Hf. induction Ha as [|x y l Ha IH]; simpl; [by rewrite Hf|].
  destruct (f y); [|done]. simpl. by rewrite IH.
Qed.

Lemma mapM_none_inv {A B} (f : A -> option B) l : mapM f l = None -> exists a, a ∈ l /\ f a = None.
Proof using.
  induction l as [|a l IH]; simpl; [done|]. destruct (f a) as [b|] eqn:E; simpl.
  - destruct (mapM f l) eqn:El; simpl; [done|]. intros _. destruct (IH eq_refl) as (x & Hx & Hf).
    exists x. split; [by right|done].
  - intros _. exists a. split; [by left|done].
Qed.

Lemma project_next_ok s s' input : op_next fuel s = Some (Ok (Some input), s') ->
  chunk_wf sg input -> all_defined items input ->
  (exists c rs, op_next fuel (mkProject s items true) = Some (Ok (Some c), mkProject s' items true) /\
     chunk_good (project_sig sg items) c /\ chunk_rows c = rs /\
     mapM (project_row items) (chunk_rows input) = Some rs) \/
  (op_next fuel (mkProject s items true) = Some (Err "division by zero", mkProject s' items true) /\
   mapM (project_row items) (chunk_rows input) = None).
Proof using Hitems.
  intros Hnext Hwf Hdef. pose proof (logical_size_rows _ _ Hwf) as Hl.
  pose proof (logical_size_bound _ _ Hwf) as Hb. simpl. unfold project_next. simpl. rewrite Hnext.
  destruct (evaluate_all_ok sg input items Hwf Hitems Hdef) as [(outs & -> & Hc & Hv)|[-> (e & He & Hv)]].
  - left. pose proof (col_ok_sizes _ _ _ Hc) as Hs.
    assert (Hs' : Forall (fun out => cv_size out = logical_size input) outs)
      by (eapply Forall_impl; [exact Hs|]; by intros ? []).
    destruct (chunk_new_ok _ _ _ Hb Hc) as [-> Hg].
    eexists _, _. split_and!; [done|done|done|by apply (project_rows_ok items outs)].
  - right. split; [done|]. apply mapM_none_inv in Hv as (r & Hr & Hv).
    eapply mapM_none; [exact Hr|]. unfold project_row. by eapply mapM_none.
Qed.

Lemma project_runs child cs fin : runs fuel child cs fin ->
  Forall (fun c => chunk_wf sg c /\ all_defined items c) cs ->
  exists cs' fin', runs fuel (mkProject child items true) cs' fin' /\
    Forall (chunk_good (project_sig sg items)) cs' /\ (rows_of cs', fin') = project_ref items cs fin.
Proof using Hitems.
  intros Hruns. induction Hruns as [s s' Hnext|s s' m Hnext|s s' c cs fin Hnext Hruns IH]; intros Hok.
  - exists [], None. split_and!; [|done|done]. eapply runs_end. simpl. unfold project_next. simpl. by rewrite Hnext.
  - exists [], (Some m). split_and!; [|done|done]. eapply runs_err. simpl. unfold project_next. simpl. by rewrite Hnext.
  - apply Forall_cons in Hok as [[Hwf Hdef] Hok]. cbn [project_ref].
    destruct (project_next_ok s s' c Hnext Hwf Hdef) as [(c' & rs & Hn & Hg & <- & ->)|[Hn ->]].
    + destruct (IH Hok) as (cs' & fin' & Hr & Hg' & Hrows).
      exists (c' :: cs'), fin'. split_and!; [by eapply runs_chunk|by constructor|].
      rewrite <- Hrows. done.
    + exists [], (Some "division by zero"). split_and!; [by eapply runs_err|done|done].
Qed.

(** [Project] yields one row per row of its child, in order, each made of the values of
    the items on that row; the output chunks carry no selection and have the types and
    nullability of the items; a division by zero ends the stream at its chunk. *)
Theorem project_correct child cs fin : executes fuel child cs fin ->
  Forall (fun c => chunk_wf sg c /\ all_defined items c) cs ->
  exists cs' fin', executes fuel (mkProject child items false) cs' fin' /\
    Forall (chunk_good (project_sig sg items)) cs' /\ (rows_of cs', fin') = project_ref items cs fin.
Proof using Hitems.
  intros (s' & Hopen & Hruns) Hok. destruct (project_runs s' cs fin Hruns Hok) as (cs' & fin' & Hr & Hg & Hrows).
  exists cs', fin'. split_and!; [|done..]. exists (mkProject s' items true). split; [|done].
  simpl. unfold project_open. simpl. by rewrite Hopen.
Qed.
End project_stream.

(** ** Concrete plans *)

(** An operator that hands out given chunks. *)
#[export] Instance list_source : Operator (list Chunk) := {|
  op_open s := Some (Ok tt, s);
  op_next _ s := match s with [] => Some (Ok None, []) | c :: s' => Some (Ok (Some c), s') end;
  op_close s := s
|}.

Lemma list_source_executes fuel (s : list Chunk) : executes fuel s s None.
Proof.
  exists s. split; [done|]. induction s as [|c s IH]; [by eapply runs_end|by eapply runs_chunk].
Qed.

Lemma sample_chunk_good : chunk_good sample_sig sample_chunk.
Proof.
  split; [apply sample_chunk_wf|]. intros sv [= <-]. simpl.
  constructor; [constructor; [constructor|done]|]. by apply Forall_singleton.
Qed.

Definition sample_predicate : Expression := BinaryOp GT (ColumnRef 0 INT32) (Literal (VI32 6)).

Lemma sample_predicate_typed : well_typed sample_sig sample_predicate.
Proof. split; [done|]. simpl. split; eauto; done. Qed.

Lemma filter_correct_witness :
  exists cs' fin', executes 2 (mkFilter [sample_chunk] sample_predicate SELECTION_VECTOR false) cs' fin' /\
    rows_of cs' = [[VI32 7]] /\ fin' = None.
Proof.
  destruct (filter_correct sample_sig sample_predicate SELECTION_VECTOR 2 ltac:(discriminate)
    sample_predicate_typed eq_refl [sample_chunk] [sample_chunk] None) as (cs' & fin' & He & _ & Hr).
  - simpl. lia.
  - apply list_source_executes.
  - constructor; [|constructor]. split; [apply sample_chunk_good|].
    do 2 (constructor; [vm_compute; discriminate|]). constructor.
  - assert (Href : filter_ref sample_predicate [sample_chunk] None = ([[VI32 7]], None))
      by (vm_compute; reflexivity).
    rewrite Href in Hr. injection Hr as Hr1 Hr2. exists cs', fin'. auto.
Defined.

Lemma limit_correct_witness :
  exists cs', executes 3 (limit_new [sample_chunk; sample_chunk] 1 2) cs' None /\
    rows_of cs' = [[VI32 7]; [VNull]].
Proof.
  destruct (limit_correct sample_sig 3 1 2 [sample_chunk; sample_chunk] [sample_chunk; sample_chunk] None)
    as (cs' & He & _ & Hr).
  - simpl. lia.
  - lia.
  - lia.
  - apply list_source_executes.
  - do 2 (constructor; [apply sample_chunk_good|]). constructor.
  - exists cs'. split; [exact He|]. rewrite Hr. vm_compute. reflexivity.
Defined.

Lemma project_correct_witness :
  exists cs' fin', executes 2 (mkProject [sample_chunk] [sample_predicate; ColumnRef 0 INT32] false) cs' fin' /\
    rows_of cs' = [[VNull; VNull]; [VI32 1; VI32 7]] /\ fin' = None.
Proof.
  destruct (project_correct sample_sig [sample_predicate; ColumnRef 0 INT32] 2) with
    (child := [sample_chunk]) (cs := [sample_chunk]) (fin := @None string) as (cs' & fin' & He & _ & Hr).
  - constructor; [apply sample_predicate_typed|]. constructor; [|constructor]. split; [done|]. simpl. eauto.
  - apply list_source_executes.
  - constructor; [|constructor]. split; [apply sample_chunk_wf|].
    do 2 (constructor; [do 2 (constructor; [vm_compute; discriminate|]); constructor|]). constructor.
  - assert (Href : project_ref [sample_predicate; ColumnRef 0 INT32] [sample_chunk] None =
      ([[VNull; VNull]; [VI32 1; VI32 7]], None)) by (vm_compute; reflexivity).
    rewrite Href in Hr. injection Hr as Hr1 Hr2. exists cs', fin'. auto.
Defined.
