(* ===== verification/TableScan.v ===== *)
(** * Table scans

    [TableScan] (src/src/executor/table_scan.h, table_scan.cpp): the leaf of a query plan.
    [open] computes for every segment and for the write buffer the ranges of local rows to read,
    from the zone maps of the range column and from the bitmap of deleted rows; [next] cuts the
    ranges into chunks and copies the pages of the projected columns into column vectors.  The
    shared lock on the table is held from [open] to [close], so the table changes in between only
    by the pages the buffer pools hold. *)

From S2P Require Import Prelude Types Page LruK BufferPool ColumnPage ColumnFile Codec SchemaFile Table.
From S2P Require Import SelectionVector ColumnVector Chunk Expression Operator.

Record ScanRange : Type := mkScanRange { sr_col_idx : nat; sr_lo : option Value; sr_hi : option Value }.

(** [ss_seg = None] is the write buffer, [Some i] the segment [i]; the ranges are pairs
    [start, end) of local row ids. *)
Record SegScanState : Type := mkSS {
  ss_seg : option nat;
  ss_base_row_id : Z;
  ss_local_row_count : Z;
  ss_survivors : list (Z * Z);
  ss_range_idx : nat;
  ss_cur_local : Z
}.

Record TableScan : Type := mkTS {
  ts_table : Table;
  ts_projected : list nat;
  ts_range : option ScanRange;
  ts_output_schema : Schema;
  ts_plan : list SegScanState;
  ts_current_seg : nat;
  ts_last_start : Z;
  ts_opened : bool
}.

(** ** Construction *)

Definition matches_type (v : Value) (t : TypeId) : bool :=
  match t, v with
  | INT32, VI32 _ | INT64, VI64 _ | DOUBLE, VF64 _ | VARCHAR, VStr _ => true
  | _, _ => false
  end.

Definition bound_matches (b : option Value) (t : TypeId) : bool :=
  match b with None => true | Some v => matches_type v t end.

Definition table_scan_new (t : Table) (projected : list nat) (range : option ScanRange) : option TableScan :=
  assert (forallb (fun idx => (idx <? length (wb_columns_ t))%nat) projected) in
  let! _ :=
    match range with
    | None => Some tt
    | Some r =>
        let! col := schema_ t !! sr_col_idx r in
        assert (bound_matches (sr_lo r) (col_type col)) in
        assert (bound_matches (sr_hi r) (col_type col)) in
        Some tt
    end in
  Some (mkTS t projected range (omap (fun idx => schema_ t !! idx) projected) [] 0 0 false).

(** ** Columns of the table *)

Definition entry_columns (t : Table) (seg : option nat) : option (list ColumnFile) :=
  match seg with
  | Some i => let! s := segments_ t !! i in Some (seg_columns s)
  | None => Some (wb_columns_ t)
  end.

(** [st.seg ? st.seg->column(i) : table_->column(i)] *)
Definition entry_column (t : Table) (seg : option nat) (i : nat) : option ColumnFile :=
  let! cols := entry_columns t seg in cols !! i.

(** The column file after its pool has changed. *)
Definition store_column (t : Table) (seg : option nat) (i : nat) (cf : ColumnFile) : Table :=
  match seg with
  | Some k =>
      set_segments t (alter (fun s => mkSegment (seg_meta s) (<[i := cf]> (seg_columns s)) (seg_deleted s)
                                        (seg_deleted_file s)) k (segments_ t))
  | None => set_wb_columns t (<[i := cf]> (wb_columns_ t))
  end.

Definition entry_deleted (t : Table) (seg : option nat) : option bytes :=
  match seg with
  | Some i => let! s := segments_ t !! i in Some (seg_deleted s)
  | None => Some (wb_deleted_ t)
  end.

(** ** Zone maps *)

(** The comparison of a page's bounds with the range; [get] is [std::get], undefined for another
    alternative. *)
Definition bounds_overlap (T : CType) (get : Value -> option Z) (pmin pmax : option Z) (r : ScanRange)
    : option bool :=
  match pmin, pmax with
  | Some pmin, Some pmax =>
      let! below := match sr_lo r with None => Some false | Some v => let! x := get v in Some (ct_lt T pmax x) end in
      if below then Some false
      else
        let! above := match sr_hi r with None => Some false | Some v => let! x := get v in Some (ct_lt T x pmin) end in
        Some (negb above)
  | _, _ => Some false
  end.

Definition page_overlaps_range (pl : bytes) (r : ScanRange) (type : TypeId) : option bool :=
  match type with
  | INT32 => bounds_overlap ct_i32 (fun v => match v with VI32 x => Some x | _ => None end) (min_i32 pl) (max_i32 pl) r
  | INT64 => bounds_overlap ct_i64 (fun v => match v with VI64 x => Some x | _ => None end) (min_i64 pl) (max_i64 pl) r
  | DOUBLE => bounds_overlap ct_f64 (fun v => match v with VF64 x => Some x | _ => None end) (min_f64 pl) (max_f64 pl) r
  | _ => Some true
  end.

(** [if (!survivors.empty() && back().second == start) back().second = end; else emplace_back] *)
Definition push_range (survivors : list (Z * Z)) (start stop : Z) : list (Z * Z) :=
  match last survivors with
  | Some (s, e) =>
      if e =? start then take (length survivors - 1) survivors ++ [(s, stop)]
      else survivors ++ [(start, stop)]
  | None => [(start, stop)]
  end.

(** The callback of [scan]: cursor and survivors. *)
Definition visit_page (r : ScanRange) (type : TypeId) (acc : option (Z * list (Z * Z))) (pl : bytes)
    : option (Z * list (Z * Z)) :=
  let! (cursor, survivors) := acc in
  let vc := cp_value_count pl in
  let stop := wrap 64 (cursor + vc) in
  if vc =? 0 then Some (stop, survivors)
  else
    let! hit := page_overlaps_range pl r type in
    Some (stop, if (hit : bool) then push_range survivors cursor stop else survivors).

(** ** Deleted rows *)

(** [while (r < end && cond(r)) ++r], at most [n] rounds. *)
Fixpoint advance (n : nat) (cond : Z -> bool) (r stop : Z) : Z :=
  match n with
  | O => r
  | S n' => if (r <? stop) && cond r then advance n' cond (r + 1) stop else r
  end.

(** The body of the loop over the survivors: the maximal runs of rows that are not deleted. *)
Fixpoint refine_range (n : nat) (bm : bytes) (r stop : Z) : list (Z * Z) :=
  match n with
  | O => []
  | S n' =>
      if r <? stop then
        let s := advance (Z.to_nat (stop - r)) (row_bit bm) r stop in
        if stop <=? s then []
        else
          let e := advance (Z.to_nat (stop - s)) (fun i => negb (row_bit bm i)) s stop in
          (s, e) :: refine_range n' bm e stop
      else []
  end.

Definition refine_survivors_by_deletions (survivors : list (Z * Z)) (bm : bytes) : list (Z * Z) :=
  flat_map (fun '(start, stop) => refine_range (Z.to_nat (stop - start)) bm start stop) survivors.

(** ** [open] *)

(** The survivors by the zone maps, and the table. *)
Definition range_survivors (t : Table) (range : option ScanRange) (seg : option nat) (count : Z)
    : option (result (list (Z * Z)) * Table) :=
  match range with
  | Some r =>
      let! cf := entry_column t seg (sr_col_idx r) in
      let! (rr, cf) := scan (visit_page r (type_ cf)) (Some (0, [])) cf in
      let t := store_column t seg (sr_col_idx r) cf in
      match rr with
      | Err e => Some (Err e, t)
      | Ok acc => let! (_, survivors) := acc in Some (Ok survivors, t)
      end
  | None => Some (Ok (if 0 <? count then [(0, count)] else []), t)
  end.

Definition build_entry (t : Table) (range : option ScanRange) (seg : option nat) (base count : Z)
    : option (result SegScanState * Table) :=
  let! (r, t) := range_survivors t range seg count in
  match r with
  | Err e => Some (Err e, t)
  | Ok survivors =>
      let! bm := entry_deleted t seg in
      let survivors := match bm with [] => survivors | _ => refine_survivors_by_deletions survivors bm end in
      Some (Ok (mkSS seg base count survivors 0 0), t)
  end.

Definition with_plan (ts : TableScan) (t : Table) (plan : list SegScanState) (opened : bool) : TableScan :=
  mkTS t (ts_projected ts) (ts_range ts) (ts_output_schema ts) plan 0 (ts_last_start ts) opened.

(** The loop of [open] over segments and write buffer, with base row id and row count of each. *)
Fixpoint open_entries (ts : TableScan) (t : Table) (entries : list (option nat * Z * Z)) (plan : list SegScanState)
    : option (result unit * TableScan) :=
  match entries with
  | [] => Some (Ok tt, with_plan ts t plan true)
  | (seg, base, count) :: entries' =>
      let! (r, t) := build_entry t (ts_range ts) seg base count in
      match r with
      | Err e => Some (Err e, with_plan ts t plan (ts_opened ts))
      | Ok st => open_entries ts t entries' (plan ++ [st])
      end
  end.

Definition scan_entries (t : Table) : list (option nat * Z * Z) :=
  imap (fun i s => (Some i, base_row_id (seg_meta s), seg_row_count (seg_meta s))) (segments_ t) ++
  [(None, wb_base_row_id_ t, wb_rows t)].

Definition table_scan_open (ts : TableScan) : option (result unit * TableScan) :=
  open_entries ts (ts_table ts) (scan_entries (ts_table ts)) [].

Definition table_scan_close (ts : TableScan) : TableScan :=
  mkTS (ts_table ts) (ts_projected ts) (ts_range ts) (ts_output_schema ts) (ts_plan ts) (ts_current_seg ts) (ts_last_start ts) false.

(** ** Reading a column *)

Definition copy_null_bits (out : ColumnVector) (dest_bit_off : Z) (src : bytes) (src_bit_off count : Z)
    : option ColumnVector :=
  let! (dest, any) :=
    each (zrange 0 count) (fun i '(dest, any) =>
      let! bit := bm_test src (src_bit_off + i) in
      if (bit : bool) then let! dest := bm_mark dest (dest_bit_off + i) in Some (dest, true)
      else Some (dest, any)) (cv_nulls out, false) in
  let out := with_nulls out dest in
  Some (if (any : bool) then set_has_nulls out true else out).

(** The loop over the pages of both branches of [read_col]; [step] copies [take] values from slot
    [slot] of a page. *)
Fixpoint read_pages {A} (fuel : nat) (step : bytes -> Z -> Z -> A -> option A) (cursor remaining : Z) (acc : A)
    (cf : ColumnFile) : option (result A * ColumnFile) :=
  if remaining =? 0 then Some (Ok acc, cf)
  else
    match fuel with
    | O => None
    | S fuel' =>
        if capacity_ cf =? 0 then None
        else
          let page_id := cursor / capacity_ cf in
          let slot := wrap 16 (cursor mod capacity_ cf) in
          let! (r, cf) :=
            with_page cf page_id (fun p =>
              let avail := wrap 16 (cp_value_count (payload p) - slot) in
              let n := wrap 16 (Z.min avail remaining) in
              let! acc := step (payload p) slot n acc in Some (acc, n)) in
          match r with
          | Err e => Some (Err e, cf)
          | Ok x => let! (acc, n) := x in read_pages fuel' step (cursor + n) (remaining - n) acc cf
          end
    end.

Definition copy_strings (nullable : bool) (pl : bytes) (slot_in_page n : Z) (out : ColumnVector)
    : option ColumnVector :=
  each (zrange 0 n) (fun j out =>
    let slot := wrap 16 (slot_in_page + j) in
    if nullable && cp_is_null pl slot then cv_append_null out else cv_append_str out (get_str pl slot)) out.

(** The vector and [out_offset]. *)
Definition copy_values (type : TypeId) (nullable : bool) (pl : bytes) (slot_in_page n : Z)
    (st : ColumnVector * Z) : option (ColumnVector * Z) :=
  let '(out, out_offset) := st in
  let type_bytes := elem_size type in
  let! src := load (value_area pl + slot_in_page * type_bytes) (n * type_bytes) pl in
  let! data := store (out_offset * type_bytes) src (cv_data out) in
  let out := with_data out data in
  let! out := if nullable then copy_null_bits out out_offset (null_bitmap pl) slot_in_page n else Some out in
  Some (out, out_offset + n).

Definition read_col (cf : ColumnFile) (local_start count : Z) : option (result ColumnVector * ColumnFile) :=
  if bool_decide (type_ cf = VARCHAR) then
    read_pages (Z.to_nat count) (copy_strings (nullable_ cf)) local_start count (cv_empty VARCHAR (nullable_ cf)) cf
  else
    let! (r, cf) := read_pages (Z.to_nat count) (copy_values (type_ cf) (nullable_ cf)) local_start count
                      (cv_make (type_ cf) count (nullable_ cf), 0) cf in
    match r with
    | Err e => Some (Err e, cf)
    | Ok x => Some (Ok (fst x), cf)
    end.

(** ** [next] *)

Fixpoint read_cols (t : Table) (seg : option nat) (projected : list nat) (start count : Z)
    : option (result (list ColumnVector) * Table) :=
  match projected with
  | [] => Some (Ok [], t)
  | col_idx :: projected' =>
      let! cf := entry_column t seg col_idx in
      let! (r, cf) := read_col cf start count in
      let t := store_column t seg col_idx cf in
      match r with
      | Err e => Some (Err e, t)
      | Ok cv =>
          let! (r, t) := read_cols t seg projected' start count in
          match r with
          | Err e => Some (Err e, t)
          | Ok cvs => Some (Ok (cv :: cvs), t)
          end
      end
  end.

(** [while (range_idx < size && cur_local >= survivors[range_idx].second) ++range_idx] *)
Fixpoint skip_ranges (n : nat) (survivors : list (Z * Z)) (idx : nat) (cur : Z) : nat :=
  match n with
  | O => idx
  | S n' =>
      match survivors !! idx with
      | Some (_, e) => if e <=? cur then skip_ranges n' survivors (S idx) cur else idx
      | None => idx
      end
  end.

Definition ss_at (st : SegScanState) (idx : nat) (cur : Z) : SegScanState :=
  mkSS (ss_seg st) (ss_base_row_id st) (ss_local_row_count st) (ss_survivors st) idx cur.

Definition ts_step (ts : TableScan) (t : Table) (st : SegScanState) (current : nat) (last_start : Z) : TableScan :=
  mkTS t (ts_projected ts) (ts_range ts) (ts_output_schema ts) (<[ts_current_seg ts := st]> (ts_plan ts)) current last_start (ts_opened ts).

(** The loop over the entries, [n] of them left. *)
Fixpoint next_loop (n : nat) (ts : TableScan) : option (result (option Chunk) * TableScan) :=
  match ts_plan ts !! ts_current_seg ts with
  | None => Some (Ok None, ts)
  | Some st =>
      match n with
      | O => None
      | S n' =>
          let idx := skip_ranges (length (ss_survivors st)) (ss_survivors st) (ss_range_idx st) (ss_cur_local st) in
          match ss_survivors st !! idx with
          | None => next_loop n' (ts_step ts (ts_table ts) (ss_at st idx (ss_cur_local st)) (S (ts_current_seg ts))
                                    (ts_last_start ts))
          | Some (range_start, range_end) =>
              let cur := if ss_cur_local st <? range_start then range_start else ss_cur_local st in
              let remaining := range_end - cur in
              let count := Z.min CHUNK_SIZE remaining in
              let last_start := wrap 64 (ss_base_row_id st + cur) in
              let! (r, t) := read_cols (ts_table ts) (ss_seg st) (ts_projected ts) cur count in
              match r with
              | Err e => Some (Err e, ts_step ts t (ss_at st idx cur) (ts_current_seg ts) last_start)
              | Ok cols =>
                  let ts := ts_step ts t (ss_at st idx (cur + count)) (ts_current_seg ts) last_start in
                  let! c := chunk_new count cols in
                  Some (Ok (Some c), ts)
              end
          end
      end
  end.

Definition table_scan_next (ts : TableScan) : option (result (option Chunk) * TableScan) :=
  assert (ts_opened ts) in next_loop (length (ts_plan ts)) ts.

#[export] Instance TableScan_Operator : Operator TableScan :=
  {| op_open := table_scan_open; op_next := fun _ => table_scan_next; op_close := table_scan_close |}.
