(* ===== verification/ScanRanges.v ===== *)
(** * Table scans: the ranges of rows to read

    The ranges that [TableScan::open] computes: [refine_survivors_by_deletions] leaves exactly the
    rows that are not deleted, and the callback of the zone-map scan leaves exactly the pages that
    may hold a value of the range. *)

From S2P Require Import Prelude Types Page LruK BufferPool ColumnPage ColumnFile Codec SchemaFile Table.
From S2P Require Import SelectionVector ColumnVector Chunk Expression Operator TableScan.

(** The rows of a list of ranges. *)
Definition ranges_ids (rs : list (Z * Z)) : list Z := flat_map (fun '(s, e) => zrange s (e - s)) rs.

(** Non-empty, disjoint ranges in increasing order between [lo] and [hi]. *)
Fixpoint ranges_in (lo : Z) (rs : list (Z * Z)) (hi : Z) : Prop :=
  match rs with
  | [] => lo <= hi
  | (s, e) :: rs' => lo <= s < e /\ ranges_in e rs' hi
  end.

(** ** Intervals *)

Lemma zrange_nil i n : n <= 0 -> zrange i n = [].
Proof. intros H. unfold zrange. by replace (Z.to_nat n) with 0%nat by lia. Qed.

Lemma zrange_app i a b : 0 <= a -> 0 <= b -> zrange i (a + b) = zrange i a ++ zrange (i + a) b.
Proof.
  intros Ha Hb. unfold zrange. rewrite Z2Nat.inj_add, seq_app, map_app by done. f_equal.
  rewrite Nat.add_0_l, <- (Nat.add_0_r (Z.to_nat a)) at 1. rewrite <- fmap_add_seq.
  rewrite <- list_fmap_compose. apply list_fmap_ext. intros _ k _. simpl. lia.
Qed.

Lemma zrange_cut i m k : i <= m <= k -> zrange i (k - i) = zrange i (m - i) ++ zrange m (k - m).
Proof.
  intros H. replace (k - i) with ((m - i) + (k - m)) by lia. rewrite zrange_app by lia.
  by replace (i + (m - i)) with m by lia.
Qed.

Lemma elem_zrange i n x : x ∈ zrange i n <-> i <= x < i + n.
Proof.
  rewrite list_elem_of_lookup. split.
  - intros [k Hk]. apply lookup_zrange_Some in Hk. lia.
  - intros H. exists (Z.to_nat (x - i)). rewrite lookup_zrange by lia. f_equal. lia.
Qed.

Lemma filter_keep {A} (f : A -> bool) l : (forall x, x ∈ l -> f x = true) -> List.filter f l = l.
Proof.
  induction l as [|x l IH]; intros H; [done|]. simpl. rewrite H by by left. f_equal.
  apply IH. intros y Hy. apply H. by right.
Qed.

Lemma filter_drop {A} (f : A -> bool) l : (forall x, x ∈ l -> f x = false) -> List.filter f l = [].
Proof.
  induction l as [|x l IH]; intros H; [done|]. simpl. rewrite H by by left.
  apply IH. intros y Hy. apply H. by right.
Qed.

(** ** Lists of ranges *)

Lemma ranges_ids_app a b : ranges_ids (a ++ b) = ranges_ids a ++ ranges_ids b.
Proof. apply flat_map_app. Qed.

Lemma ranges_in_le rs : forall lo hi, ranges_in lo rs hi -> lo <= hi.
Proof.
  induction rs as [|[s e] rs IH]; simpl; intros lo hi; [done|]. intros [H1 H2%IH]. lia.
Qed.

Lemma ranges_in_app a : forall b lo mid hi, ranges_in lo a mid -> ranges_in mid b hi -> ranges_in lo (a ++ b) hi.
Proof.
  induction a as [|[s e] a IH]; simpl; intros b lo mid hi Ha Hb.
  - destruct b as [|[s e] b]; simpl in *; [lia|]. destruct Hb. split; [lia|done].
  - destruct Ha as [H1 H2]. split; [done|]. by apply (IH b e mid).
Qed.

Lemma ranges_in_lo rs lo lo' hi : lo' <= lo -> ranges_in lo rs hi -> ranges_in lo' rs hi.
Proof. destruct rs as [|[s e] rs]; simpl; [lia|]. intros H [H1 H2]. split; [lia|done]. Qed.

Lemma ranges_in_snoc rs s e : forall lo hi, ranges_in lo (rs ++ [(s, e)]) hi ->
  ranges_in lo rs s /\ s < e <= hi.
Proof.
  induction rs as [|[s' e'] rs IH]; simpl; intros lo hi.
  - lia.
  - intros [H1 H2%IH]. tauto.
Qed.

Lemma ranges_in_hi rs hi hi' : hi <= hi' -> forall lo, ranges_in lo rs hi -> ranges_in lo rs hi'.
Proof.
  intros Hh. induction rs as [|[s e] rs IH]; simpl; intros lo; [lia|]. intros [H1 H2]. split; [done|by apply IH].
Qed.

(** ** Deleted rows *)

Lemma advance_spec cond stop n : forall r, stop - r <= Z.of_nat n -> r <= stop ->
  let e := advance n cond r stop in
  r <= e <= stop /\ (forall i, r <= i < e -> cond i = true) /\ (e < stop -> cond e = false).
Proof.
  induction n as [|n IH]; intros r Hn Hr; cbv zeta; cbn [advance]; [split_and!; [lia|lia|lia|lia]|].
  destruct (Z.ltb_spec r stop) as [Hlt|Hge]; cbn [andb]; [|split_and!; [lia|lia|lia|lia]].
  destruct (cond r) eqn:Hc; [|split_and!; [lia|lia|lia|done]].
  destruct (IH (r + 1)) as (H1 & H2 & H3); [lia|lia|]. split; [lia|]. split; [|done].
  intros i Hi. destruct (decide (i = r)) as [->|]; [done|]. apply H2. lia.
Qed.

Lemma refine_range_ok bm stop n : forall r, stop - r <= Z.of_nat n -> r <= stop ->
  ranges_in r (refine_range n bm r stop) stop /\
  ranges_ids (refine_range n bm r stop) = List.filter (fun i => negb (row_bit bm i)) (zrange r (stop - r)).
Proof.
  induction n as [|n IH]; intros r Hn Hr; cbn [refine_range].
  { split; [done|]. by rewrite zrange_nil by lia. }
  destruct (Z.ltb_spec r stop) as [Hlt|Hge]; [|split; [done|]; by rewrite zrange_nil by lia].
  destruct (advance_spec (row_bit bm) stop (Z.to_nat (stop - r)) r) as (Hs & Hdel & Hlive); [lia|lia|].
  set (s := advance _ (row_bit bm) r stop) in *.
  assert (Hfst : List.filter (fun i => negb (row_bit bm i)) (zrange r (s - r)) = []).
  { apply filter_drop. intros x Hx%elem_zrange. rewrite Hdel by lia. done. }
  rewrite (zrange_cut r s stop), List.filter_app, Hfst by lia.
  destruct (Z.leb_spec stop s) as [Hle|Hgt]; [split; [done|]; by rewrite zrange_nil by lia|].
  destruct (advance_spec (fun i => negb (row_bit bm i)) stop (Z.to_nat (stop - s)) s) as (He & Hl & _); [lia|lia|].
  set (e := advance _ (fun i => _) s stop) in *.
  assert (Hse : s < e).
  { destruct (decide (s = e)); [|lia]. unfold e in *. destruct (Z.to_nat (stop - s)) as [|k] eqn:Hk; [lia|].
    cbn [advance] in *. rewrite (proj2 (Z.ltb_lt _ _) Hgt), (Hlive Hgt) in *. cbn [andb negb] in *.
    destruct (advance_spec (fun i => negb (row_bit bm i)) stop k (s + 1)) as (Hx & _); [lia|lia|]. lia. }
  destruct (IH e) as [H1 H2]; [lia|lia|]. split; [by split; [lia|]|].
  cbn [ranges_ids flat_map]. change (flat_map _ _) with (ranges_ids (refine_range n bm e stop)).
  rewrite H2, (zrange_cut s e stop), List.filter_app by lia. cbn [app]. f_equal.
  symmetry. apply filter_keep. intros x Hx%elem_zrange. apply Hl. lia.
Qed.

(** The ranges that are left hold exactly the rows that are not deleted. *)
Lemma refine_survivors_ok bm rs : forall lo hi, ranges_in lo rs hi ->
  ranges_in lo (refine_survivors_by_deletions rs bm) hi /\
  ranges_ids (refine_survivors_by_deletions rs bm) = List.filter (fun i => negb (row_bit bm i)) (ranges_ids rs).
Proof.
  induction rs as [|[s e] rs IH]; intros lo hi; [done|]. intros [H1 H2].
  destruct (IH _ _ H2) as [H3 H4]. destruct (refine_range_ok bm e (Z.to_nat (e - s)) s) as [H5 H6]; [lia|lia|].
  change (refine_survivors_by_deletions ((s, e) :: rs) bm)
    with (refine_range (Z.to_nat (e - s)) bm s e ++ refine_survivors_by_deletions rs bm).
  change (ranges_ids ((s, e) :: rs)) with (zrange s (e - s) ++ ranges_ids rs). split.
  - apply (ranges_in_lo _ s); [lia|]. by apply (ranges_in_app _ _ _ e).
  - rewrite ranges_ids_app, List.filter_app. by f_equal.
Qed.

(** ** Zone maps *)

Lemma push_range_ok rs start stop : ranges_in 0 rs start -> start < stop ->
  ranges_in 0 (push_range rs start stop) stop /\
  ranges_ids (push_range rs start stop) = ranges_ids rs ++ zrange start (stop - start).
Proof.
  intros Hin Hlt. unfold push_range. destruct rs as [|[s e] rs _] using rev_ind.
  { simpl in Hin |- *. rewrite app_nil_r. split; [lia|done]. }
  rewrite last_snoc. destruct (ranges_in_snoc _ _ _ _ _ Hin) as [Hrs Hse].
  rewrite !ranges_ids_app. destruct (Z.eqb_spec e start) as [->|Hne].
  - rewrite length_app. simpl length. rewrite Nat.add_sub, take_app_length, !ranges_ids_app. split.
    + apply (ranges_in_app _ _ _ s); [done|]. simpl. lia.
    + rewrite <- app_assoc. f_equal. cbn [ranges_ids flat_map]. rewrite !app_nil_r. apply zrange_cut. lia.
  - rewrite !ranges_ids_app. split; [|by cbn [ranges_ids flat_map]; rewrite !app_nil_r].
    apply (ranges_in_app _ _ _ e); [|simpl; lia]. apply (ranges_in_app _ _ _ s); [done|simpl; lia].
Qed.

(** The order of the values of a type, as the executor compares them. *)
Definition range_le (t : TypeId) (a b : Z) : bool :=
  match t with DOUBLE => f64_le a b | _ => a <=? b end.

(** A value of the range: not null, and within the bounds that are given. *)
Definition in_range (t : TypeId) (r : ScanRange) (v : Value) : Prop :=
  exists x, num_of v = Some x /\
    (forall l y, sr_lo r = Some l -> num_of l = Some y -> range_le t y x = true) /\
    (forall h y, sr_hi r = Some h -> num_of h = Some y -> range_le t x y = true).

Definition bounds_match (t : TypeId) (r : ScanRange) : Prop :=
  bound_matches (sr_lo r) t = true /\ bound_matches (sr_hi r) t = true.

(** The types with zone maps that are compared. *)
Definition zoned (t : TypeId) : bool := match t with INT32 | INT64 | DOUBLE => true | _ => false end.

Lemma range_le_lt t T a x y : zoned t = true -> ctype_of t = Some T -> ct_lt T a x = true -> range_le t x y = true ->
  ct_lt T a y = true.
Proof.
  destruct t; try done; intros _ [= <-]; cbn [ct_lt ct_i32 ct_i64 ct_f64 range_le]; try lia.
  unfold f64_le, f64_lt, f64_eq. destruct (f64_is_nan a), (f64_is_nan x), (f64_is_nan y); simpl; try done. lia.
Qed.

Lemma range_lt_le t T a x y : zoned t = true -> ctype_of t = Some T -> ct_lt T x a = true -> range_le t y x = true ->
  ct_lt T y a = true.
Proof.
  destruct t; try done; intros _ [= <-]; cbn [ct_lt ct_i32 ct_i64 ct_f64 range_le]; try lia.
  unfold f64_le, f64_lt, f64_eq. destruct (f64_is_nan a), (f64_is_nan x), (f64_is_nan y); simpl; try done. lia.
Qed.

(** A page is skipped only when none of its values is in the range. *)
Lemma bounds_overlap_ok t nullable max_len pl vals T get r : page_rep t nullable max_len pl vals ->
  ctype_of t = Some T -> zoned t = true ->
  (forall v, matches_type v t = true -> exists x, get v = Some x /\ num_of v = Some x) -> bounds_match t r ->
  exists b, bounds_overlap T get (read_min T t pl) (read_max T t pl) r = Some b /\
    (b = false -> forall v, v ∈ vals -> ~ in_range t r v).
Proof.
  intros Hp HT Hz Hget [Hlo Hhi]. destruct (zone_map_rep t nullable max_len pl vals T Hp HT) as [Hnone Hzone].
  unfold bounds_overlap. destruct (read_min T t pl) as [m|] eqn:Hm.
  2: { exists false. split; [done|]. intros _ v Hv (x & Hx & _). specialize (proj1 Hnone eq_refl v Hv). by destruct v. }
  destruct (read_max T t pl) as [M|] eqn:HM.
  2: { exfalso. unfold read_min, read_max in *. repeat case_match; done. }
  specialize (Hzone m M eq_refl eq_refl).
  assert (Hbelow : forall l y, sr_lo r = Some l -> num_of l = Some y -> ct_lt T M y = true ->
    forall v, v ∈ vals -> ~ in_range t r v).
  { intros l y Hl Hy Hlt v Hv (x & Hx & Hin & _). destruct (Hzone v x Hv Hx) as [_ HxM].
    by rewrite (range_le_lt t T M y x Hz HT Hlt (Hin l y Hl Hy)) in HxM. }
  assert (Habove : forall h y, sr_hi r = Some h -> num_of h = Some y -> ct_lt T y m = true ->
    forall v, v ∈ vals -> ~ in_range t r v).
  { intros h y Hh Hy Hlt v Hv (x & Hx & _ & Hin). destruct (Hzone v x Hv Hx) as [Hxm _].
    by rewrite (range_lt_le t T m y x Hz HT Hlt (Hin h y Hh Hy)) in Hxm. }
  assert (Hup : exists b, (let! above := match sr_hi r with None => Some false
      | Some v => let! x := get v in Some (ct_lt T x m) end in Some (negb above)) = Some b /\
    (b = false -> forall v, v ∈ vals -> ~ in_range t r v)).
  { destruct (sr_hi r) as [h|] eqn:Hh; [|by exists true]. destruct (Hget h Hhi) as (y & -> & Hy). cbn.
    eexists. split; [done|]. intros Hb. apply (Habove h y eq_refl Hy). by destruct (ct_lt T y m). }
  destruct (sr_lo r) as [l|] eqn:Hl; [|exact Hup]. destruct (Hget l Hlo) as (y & -> & Hy). cbn.
  destruct (ct_lt T M y) eqn:Hlt; [|exact Hup]. exists false. split; [done|]. intros _. by apply (Hbelow l y).
Qed.

Lemma page_overlaps_ok t nullable max_len pl vals r : page_rep t nullable max_len pl vals -> bounds_match t r ->
  exists b, page_overlaps_range pl r t = Some b /\ (b = false -> forall v, v ∈ vals -> ~ in_range t r v).
Proof.
  intros Hp Hr.
  destruct t; try (by exists true); apply (bounds_overlap_ok _ nullable max_len pl vals); try done;
    intros [] Hm; try done; eauto.
Qed.

(** The pages that [scan] keeps, by index. *)
Definition kept_page (r : ScanRange) (t : TypeId) (pls : list bytes) (k : Z) : bool :=
  match pls !! Z.to_nat k with Some pl => default true (page_overlaps_range pl r t) | None => true end.

(** The first [k] pages hold [Z.min (k * cap) n] rows. *)
Lemma visit_pages_ok t nullable max_len cap vals r pls : 0 < cap -> zlen vals < 2 ^ 64 -> bounds_match t r ->
  (forall k pl, pls !! k = Some pl -> page_rep t nullable max_len pl (page_vals cap vals (Z.of_nat k))) ->
  forall k, (k <= length pls)%nat ->
  exists rs, fold_left (visit_page r t) (take k pls) (Some (0, [])) = Some (Z.min (Z.of_nat k * cap) (zlen vals), rs) /\
    ranges_in 0 rs (Z.min (Z.of_nat k * cap) (zlen vals)) /\
    ranges_ids rs = List.filter (fun i => kept_page r t pls (i / cap)) (zrange 0 (Z.min (Z.of_nat k * cap) (zlen vals))).
Proof.
  intros Hcap Hmax Hr Hpls. pose proof (zlen_nonneg vals) as Hn. induction k as [|k IH]; intros Hk.
  { exists []. rewrite Z.min_l by lia. split; [done|]. by split. }
  destruct IH as (rs & Hf & Hin & Hids); [lia|]. destruct (lookup_lt_is_Some_2 pls k) as [pl Hpl]; [lia|].
  rewrite (take_S_r _ _ pl Hpl), fold_left_app, Hf. cbn [fold_left visit_page].
  pose proof (Hpls k pl Hpl) as Hrep. rewrite (pr_count _ _ _ _ _ Hrep).
  assert (Hlen : zlen (page_vals cap vals (Z.of_nat k)) =
    Z.min (Z.of_nat (S k) * cap) (zlen vals) - Z.min (Z.of_nat k * cap) (zlen vals)).
  { unfold page_vals, slice, zlen in *. rewrite length_take, length_drop. nia. }
  set (c := Z.min (Z.of_nat k * cap) (zlen vals)) in *. set (c' := Z.min (Z.of_nat (S k) * cap) (zlen vals)) in *.
  assert (Hc : 0 <= c /\ c' < 2 ^ 64) by (unfold c, c'; nia).
  pose proof (zlen_nonneg (page_vals cap vals (Z.of_nat k))) as Hp0.
  rewrite wrap_id by (unfold in_u; lia). replace (c + zlen (page_vals cap vals (Z.of_nat k))) with c' by lia.
  destruct (Z.eqb_spec (zlen (page_vals cap vals (Z.of_nat k))) 0) as [H0|H0].
  { exists rs. replace c' with c by lia. done. }
  destruct (page_overlaps_ok _ _ _ _ _ r Hrep Hr) as (b & Hb & _). rewrite Hb.
  assert (Hpage : forall i, c <= i < c' -> kept_page r t pls (i / cap) = b).
  { intros i Hi. unfold kept_page. replace (i / cap) with (Z.of_nat k).
    - by rewrite Nat2Z.id, Hpl, Hb.
    - apply (Z.div_unique_pos i cap (Z.of_nat k) (i - cap * Z.of_nat k)); [unfold c, c' in *; nia|lia]. }
  assert (Hcut : zrange 0 c' = zrange 0 c ++ zrange c (c' - c)).
  { rewrite <- (Z.sub_0_r c') at 1. rewrite <- (Z.sub_0_r c) at 1. apply zrange_cut. lia. }
  rewrite Hcut, List.filter_app, <- Hids. destruct b; eexists.
  - destruct (push_range_ok rs c c' Hin) as [H1 H2]; [lia|]. split; [done|]. split; [done|]. rewrite H2. f_equal.
    symmetry. apply filter_keep. intros i Hi%elem_zrange. apply Hpage. lia.
  - split; [done|]. split; [apply (ranges_in_hi _ c); [lia|done]|].
    rewrite (filter_drop _ (zrange c _)), app_nil_r; [done|]. intros i Hi%elem_zrange. apply Hpage. lia.
Qed.
