(* ===== verification/ScanRead.v ===== *)
(** * Table scans: reading a column

    [TableScan::read_col] copies rows from the pages of a column file into a column vector: the
    vector holds exactly the rows asked for, nulls included, and the file is unchanged but for its
    buffer pool. *)

From S2P Require Import Prelude Types Page LruK BufferPool ColumnPage ColumnFile Codec SchemaFile Table.
From S2P Require Import SelectionVector ColumnVector Chunk Expression Operator TableScan.

(** ** Pages of a file *)

(** Reading a page changes the file by its pool only. *)
Definition pool_only (cf cf' : ColumnFile) : Prop := exists pool, cf' = set_pool cf pool.

Lemma pool_only_refl cf : pool_only cf cf.
Proof. exists (pool_ cf). by destruct cf. Qed.

Lemma pool_only_trans a b c : pool_only a b -> pool_only b c -> pool_only a c.
Proof. intros [p ->] [q ->]. by exists q. Qed.

Lemma with_page_pool {A} cf id (f : Page -> A) r cf' : with_page cf id f = Some (r, cf') -> pool_only cf cf'.
Proof.
  unfold with_page. destruct (id =? current_page_id_ cf); [intros [= <- <-]; apply pool_only_refl|].
  destruct (fetch_page _ _ _) as [[[i|e] pool]|]; cbn; [|intros [= <- <-]; by eexists|done].
  destruct (slab_ pool !! i) as [pg|]; cbn; [|done].
  destruct (unpin_page pool id) as [[[] pool']|]; cbn; [..|done]; intros [= <- <-]; by eexists.
Qed.

Lemma scan_pages_pool {A} (fn : A -> bytes -> A) n : forall id acc cf r cf',
  scan_pages fn n id acc cf = Some (r, cf') -> pool_only cf cf'.
Proof.
  induction n as [|n IH]; intros id acc cf r cf'; cbn [scan_pages]; [intros [= <- <-]; apply pool_only_refl|].
  destruct (with_page cf id _) as [[[a|e] cf1]|] eqn:Hw; cbn; [| |done].
  - intros H. eapply pool_only_trans; [by eapply with_page_pool|by eapply IH].
  - intros [= <- <-]. by eapply with_page_pool.
Qed.

(** ** The loop over the pages *)

Section pages.
Context {A : Type} (step : bytes -> Z -> Z -> A -> option A) (Inv : Z -> A -> Prop).
Context (t : TypeId) (nullable : bool) (max_len : Z) (vals : list Value) (start count : Z).

(** [step] copies [n] more rows; [pv] are the values of the page. *)
Hypothesis Hstep : forall pl pv slot n acc o, page_rep t nullable max_len pl pv -> 0 <= slot -> 0 < n ->
  slot + n <= zlen pv -> slice slot n pv = slice (start + o) n vals -> 0 <= o -> o + n <= count ->
  Inv o acc -> exists acc', step pl slot n acc = Some acc' /\ Inv (o + n) acc'.
Hypothesis Hstart : 0 <= start.
Hypothesis Hcount : start + count <= zlen vals.

Lemma read_pages_ok fuel : forall cf acc o, file_rep cf vals -> type_ cf = t -> nullable_ cf = nullable ->
  max_len_ cf = max_len -> 0 <= o <= count -> count - o <= Z.of_nat fuel -> Inv o acc ->
  exists acc' cf', read_pages fuel step (start + o) (count - o) acc cf = Some (Ok acc', cf') /\ Inv count acc' /\
    file_rep cf' vals /\ pool_only cf cf'.
Proof using Hstep Hstart Hcount.
  induction fuel as [|fuel IH]; intros cf acc o Hrep Ht Hnu Hml Ho Hf Hinv; cbn [read_pages].
  { assert (o = count) as -> by lia. rewrite Z.sub_diag. exists acc, cf. split; [done|]. split; [done|].
    split; [done|apply pool_only_refl]. }
  destruct (Z.eqb_spec (count - o) 0) as [H0|H0].
  { exists acc, cf. replace count with o by lia. split; [done|]. split; [done|]. split; [done|apply pool_only_refl]. }
  destruct (lookup_lt_is_Some_2 vals (Z.to_nat (start + o))) as [v Hv]; [unfold zlen in Hcount; lia|].
  destruct (row_page cf vals (start + o) v Hrep) as (Hp & Hc & Hw & Hl); [lia|done|].
  rewrite (proj2 (Z.eqb_neq _ _) Hc), Hw. set (slot := (start + o) mod capacity_ cf) in *.
  set (id := (start + o) / capacity_ cf) in *.
  match goal with |- context [with_page cf id ?f] => set (body := f) end.
  destruct (with_page_rep cf vals id body Hrep Hp) as (pg & cf1 & Hwp & Hr1 & (Ht1 & Hn1 & Hm1 & Hc1) & _ & Hpr).
  rewrite Hwp. unfold body. pose proof (fr_pos _ _ Hrep) as Hpos. pose proof (Z.mod_pos_bound (start + o) _ Hpos) as Hs.
  fold slot in Hs. pose proof (Z.div_mod (start + o) (capacity_ cf) Hc) as Hdm. fold slot id in Hdm.
  pose proof (pr_full _ _ _ _ _ Hpr) as Hfull. rewrite <- (fr_cap _ _ Hrep) in Hfull.
  destruct (geometry_fits (type_ cf) (nullable_ cf) (max_len_ cf) (pr_ml _ _ _ _ _ Hpr)) as (Hg & _).
  rewrite <- (fr_cap _ _ Hrep) in Hg.
  rewrite (pr_count _ _ _ _ _ Hpr). set (pv := page_vals (capacity_ cf) vals id) in *.
  pose proof Hl as Hlt%lookup_lt_Some.
  assert (Hpv : slot < zlen pv) by (unfold zlen; lia).
  rewrite (wrap_id 16 (zlen pv - slot)) by (unfold in_u; lia).
  set (n := Z.min (zlen pv - slot) (count - o)). rewrite (wrap_id 16 n) by (unfold in_u, n; lia).
  destruct (Hstep (payload pg) pv slot n acc o) as (acc1 & Hst & Hinv1); [congruence|lia|unfold n; lia|unfold n; lia| |
    lia|unfold n; lia|done|].
  { unfold pv, page_vals. rewrite slice_slice; [|lia|lia|unfold n; lia]. f_equal. lia. }
  rewrite Hst. replace (start + o + n) with (start + (o + n)) by lia.
  replace (count - o - n) with (count - (o + n)) by lia.
  destruct (IH cf1 acc1 (o + n)) as (acc' & cf' & Hrd & Hi & Hr' & Hpo); [done|congruence..| | |done|].
  { unfold n; lia. } { unfold n; lia. }
  exists acc', cf'. split; [done|]. split; [done|]. split; [done|].
  eapply pool_only_trans; [by eapply with_page_pool|done].
Qed.
End pages.

(** ** Slices *)

Lemma lookup_slice {B} off n (l : list B) k : 0 <= off -> 0 <= k < n ->
  slice off n l !! Z.to_nat k = l !! Z.to_nat (off + k).
Proof.
  intros Ho Hk. unfold slice. rewrite lookup_take_lt, lookup_drop by lia. f_equal. lia.
Qed.

Lemma slice_snoc {B} off n (l : list B) x : 0 <= off -> 0 <= n -> l !! Z.to_nat (off + n) = Some x ->
  slice off (n + 1) l = slice off n l ++ [x].
Proof.
  intros Ho Hn Hx. unfold slice. replace (Z.to_nat (n + 1)) with (S (Z.to_nat n)) by lia. apply take_S_r.
  rewrite lookup_drop. rewrite <- Hx. f_equal. lia.
Qed.

(** The value in a slot of the page is the row of the column. *)
Lemma page_row (pv vals : list Value) slot n start o j : 0 <= slot -> slot + n <= zlen pv -> 0 <= start + o -> 0 <= j < n ->
  slice slot n pv = slice (start + o) n vals ->
  exists v, pv !! Z.to_nat (slot + j) = Some v /\ vals !! Z.to_nat (start + (o + j)) = Some v.
Proof.
  intros Hs Hn Hso Hj Heq. destruct (lookup_lt_is_Some_2 pv (Z.to_nat (slot + j))) as [v Hv]; [unfold zlen in Hn; lia|].
  exists v. split; [done|]. rewrite <- Hv, <- (lookup_slice slot n pv j), Heq, lookup_slice by lia. f_equal. lia.
Qed.

(** ** Strings *)

Section strings.
Context (nullable : bool) (max_len : Z) (vals : list Value) (start count : Z).

Definition strings_inv (o : Z) (out : ColumnVector) : Prop :=
  cv_wf out /\ cv_clean out /\ cv_type out = VARCHAR /\ cv_nullable out = nullable /\ cv_size out = o /\
  cv_values out = slice start o vals.

Lemma copy_strings_ok pl pv slot n acc o : 0 <= start -> page_rep VARCHAR nullable max_len pl pv -> 0 <= slot -> 0 < n ->
  slot + n <= zlen pv -> slice slot n pv = slice (start + o) n vals -> 0 <= o -> o + n <= count ->
  strings_inv o acc -> exists acc', copy_strings nullable pl slot n acc = Some acc' /\ strings_inv (o + n) acc'.
Proof.
  intros Hst Hpr Hs Hn Hlen Heq Ho _ Hinv. unfold copy_strings.
  apply (loop_inv (fun j => strings_inv (o + j))); [lia|by rewrite Z.add_0_r|].
  intros j out Hj (Hwf & Hcl & Ht & Hnu & Hsz & Hvs).
  destruct (page_row pv vals slot n start o j) as (v & Hv & Hv'); [done|done|lia|done|done|].
  destruct (geometry_fits VARCHAR nullable max_len (pr_ml _ _ _ _ _ Hpr)) as (Hg & _).
  pose proof (pr_full _ _ _ _ _ Hpr) as Hfull.
  rewrite wrap_id by (unfold in_u; lia).
  pose proof (is_null_rep _ _ _ _ _ Hpr _ _ Hv) as Hnull. rewrite Z2Nat.id in Hnull by lia.
  pose proof (Forall_lookup_1 _ _ _ _ (pr_fits _ _ _ _ _ Hpr) Hv) as Hfit.
  assert (Happ : exists out', (if nullable && cp_is_null pl (slot + j) then cv_append_null out
      else cv_append_str out (get_str pl (slot + j))) = Some out' /\ appended out out' v).
  { rewrite Hnull. destruct v; simpl in Hfit; try (by destruct Hfit).
    - rewrite Hfit in Hnu |- *. cbn [is_null andb]. apply cv_append_null_ok; [done|done|congruence].
    - cbn [is_null]. rewrite andb_false_r. pose proof (get_str_rep _ _ _ _ _ Hpr _ _ Hv s eq_refl) as Hg'.
      rewrite Z2Nat.id in Hg' by lia. rewrite Hg'. by apply cv_append_str_ok. }
  destruct Happ as (out' & -> & [Hwf' Hcl' [Ht' Hnu'] Hsz' Hvs']). exists out'. split; [done|].
  unfold strings_inv. rewrite Ht', Hnu', Hsz', Hvs', Hvs. split_and!; try done; [lia|].
  rewrite Z.add_assoc. symmetry. apply slice_snoc; [lia|lia|done].
Qed.
End strings.

(** ** Values of fixed size *)

Lemma decode_encode t nullable max_len v : value_fits t nullable max_len v -> is_null v = false ->
  is_varchar t = false -> decode t (encode_cell max_len v) = v.
Proof.
  intros Hf Hn Hv. destruct v; simpl in Hf; try done; destruct Hf as [Ht Hwf]; subst t; try done; cbn [decode encode_cell variant_type].
  all: try (rewrite le_val_bytes by (apply wrap_range; lia); by rewrite signed_wrap).
  - by rewrite le_val_bytes.
  - by destruct b.
Qed.

Lemma stored_type t nullable max_len : 0 < column_page_capacity t nullable max_len -> is_vec_type t = true.
Proof. by destruct t. Qed.

(** [copy_null_bits] adds the null bits of the page to those of the vector. *)
Lemma copy_null_bits_ok out off pl slot n : cv_wf out -> cv_nullable out = true -> zlen pl = PAGE_PAYLOAD_SIZE ->
  0 <= off -> 0 <= slot -> 0 <= n -> off + n <= cv_size out -> slot + n <= 8136 ->
  exists out', copy_null_bits out off (null_bitmap pl) slot n = Some out' /\ cv_wf out' /\ same_header out out' /\
    cv_size out' = cv_size out /\ (forall j, raw out' j = raw out j) /\
    forall j, 0 <= j -> bit_get (cv_nulls out') j =
      bit_get (cv_nulls out) j || (bool_decide (off <= j < off + n) && bit_get (null_bitmap pl) (slot + (j - off))).
Proof.
  intros Hwf Hnu Hpl Hoff Hslot Hn Hsz Hcap. unfold copy_null_bits.
  pose proof (zlen_null_bitmap pl Hpl) as Hbl.
  destruct (loop_inv (fun i (st : bytes * bool) => cv_wf (with_nulls out st.1) /\
      forall j, 0 <= j -> bit_get st.1 j = bit_get (cv_nulls out) j ||
        (bool_decide (off <= j < off + i) && bit_get (null_bitmap pl) (slot + (j - off)))) n
    (fun i '(dest, any) => let! bit := bm_test (null_bitmap pl) (slot + i) in
      if (bit : bool) then let! dest := bm_mark dest (off + i) in Some (dest, true) else Some (dest, any))
    (cv_nulls out, false)) as ([dest any] & -> & Hw & Hbits); [done| | |].
  - split; [by destruct out|]. intros j Hj. rewrite bool_decide_false by lia. simpl. by rewrite orb_false_r.
  - intros i [dest any] Hi [Hw Hbits]. cbn [fst] in *. unfold bm_test. rewrite Hbl, (proj2 (Z.ltb_lt _ _)) by zlia.
    destruct (bit_get (null_bitmap pl) (slot + i)) eqn:Hbit.
    + destruct (bm_mark_ok (with_nulls out dest) (off + i) Hw Hnu) as (Hmk & Hw' & Hb); [cbn; lia|].
      cbn [cv_nulls with_nulls] in Hmk. rewrite Hmk. eexists. split; [done|]. split; [done|]. intros j Hj. cbn [fst]. rewrite Hb by done. cbn [cv_nulls with_nulls].
      rewrite Hbits by done. destruct (decide (j = off + i)) as [->|Hne].
      * rewrite bool_decide_true by done. rewrite (bool_decide_true (off <= off + i < off + (i + 1))) by lia.
        replace (slot + (off + i - off)) with (slot + i) by lia. rewrite Hbit. by rewrite andb_true_l, orb_true_r.
      * rewrite bool_decide_false by done. simpl. f_equal. f_equal. apply bool_decide_ext. lia.
    + eexists. split; [done|]. split; [done|]. intros j Hj. cbn [fst]. rewrite Hbits by done.
      destruct (decide (j = off + i)) as [->|Hne].
      * replace (slot + (off + i - off)) with (slot + i) by lia. rewrite Hbit. by rewrite !andb_false_r.
      * f_equal. f_equal. apply bool_decide_ext. lia.
  - cbn [fst] in *. exists (if any then set_has_nulls (with_nulls out dest) true else with_nulls out dest).
    split; [done|]. split; [destruct any; [by destruct Hw; split|done]|]. split; [by destruct any|].
    split; [by destruct any|]. split; [by destruct any|]. by destruct any.
Qed.

Lemma slice_splice_in {B} off (src l : list B) a m : 0 <= off -> off + zlen src <= zlen l -> off <= a -> 0 <= m ->
  a + m <= off + zlen src -> slice a m (splice off src l) = slice (a - off) m src.
Proof.
  intros Ho Hl Ha Hm Ham. replace a with (off + (a - off)) at 1 by lia.
  rewrite <- (slice_slice (a - off) m off (zlen src)) by lia. f_equal.
  pose proof (zlen_nonneg src). apply slice_splice_same; [done|lia|done].
Qed.

Section values.
Context (t : TypeId) (nullable : bool) (max_len : Z) (vals : list Value) (start count : Z).
Hypothesis Ht : is_varchar t = false.
Hypothesis Hvec : is_vec_type t = true.
Hypothesis Hstart : 0 <= start.

Record values_inv (o : Z) (st : ColumnVector * Z) : Prop := {
  vi_off : st.2 = o;
  vi_wf : cv_wf st.1;
  vi_type : cv_type st.1 = t;
  vi_null : cv_nullable st.1 = nullable;
  vi_size : cv_size st.1 = count;
  vi_done : forall j, 0 <= j < o -> vals !! Z.to_nat (start + j) = Some (cell st.1 j);
  vi_rest : forall j, o <= j -> null_at st.1 j = false
}.

Lemma elem_stored ml : type_size t ml = elem_size t.
Proof using Ht Hvec. by destruct t. Qed.

(** The [memcpy] of [n] slots. *)
Lemma copy_data_ok pl pv slot n out o : page_rep t nullable max_len pl pv -> 0 <= slot -> 0 < n ->
  slot + n <= zlen pv -> cv_wf out -> cv_type out = t -> 0 <= o -> o + n <= cv_size out ->
  exists src d, load (value_area pl + slot * elem_size t) (n * elem_size t) pl = Some src /\
    store (o * elem_size t) src (cv_data out) = Some d /\ cv_wf (with_data out d) /\
    (forall j, o <= j < o + n -> raw (with_data out d) j =
       decode t (slice (COL_PAGE_HEADER_SIZE + bitmap_bytes t nullable max_len + (slot + (j - o)) * elem_size t) (elem_size t) pl)) /\
    (forall j, 0 <= j < o -> raw (with_data out d) j = raw out j).
Proof using Ht Hvec.
  intros Hpr Hs Hn Hlen Hwf Hty Ho Hsz. pose proof (pr_full _ _ _ _ _ Hpr) as Hfull.
  destruct (geometry_fits t nullable max_len (pr_ml _ _ _ _ _ Hpr)) as (Hc & Hbb & Hfit & _).
  rewrite elem_stored in Hfit. pose proof (elem_size_pos t Hvec Ht) as He. pose proof (pr_len _ _ _ _ _ Hpr) as Hpl.
  rewrite (value_area_rep _ _ _ _ _ Hpr). unfold COL_PAGE_HEADER_SIZE in *.
  destruct (cw_data _ Hwf) as [Hd Hb]; [by rewrite Hty|]. rewrite Hty in Hd, Hb.
  set (tb := elem_size t) in *. set (va := 32 + bitmap_bytes t nullable max_len) in *.
  assert (Hin : va + slot * tb + n * tb <= zlen pl) by (rewrite Hpl; nia).
  assert (Hsrc : zlen (slice (va + slot * tb) (n * tb) pl) = n * tb) by (apply zlen_slice; nia).
  unfold load, store. rewrite (proj2 (Z.leb_le _ _) Hin).
  eexists _, _. split; [done|]. rewrite Hsrc, Hd, (proj2 (Z.leb_le _ _)) by nia. split; [done|]. split; [|split].
  - destruct Hwf as [H1 H2 H3 H4 H5]. split; cbn [with_data cv_type cv_size cv_data cv_str cv_nulls cv_nullable]; try done.
    intros _. rewrite Hty, zlen_splice by (rewrite ?Hsrc; nia). split; [done|]. apply Forall_splice; [|done].
    apply Forall_lookup. intros k x Hk. split.
    { eapply Forall_lookup_1; [|exact Hk]. apply Forall_slice, (pr_bytes _ _ _ _ _ Hpr). }
    intros Hbool. pose proof Hk as Hlt%lookup_lt_Some. unfold zlen in Hsrc.
    assert (x = znth pl (va + slot * tb + Z.of_nat k)) as ->.
    { rewrite <- (znth_slice _ (n * tb)) by nia. rewrite znth_lookup, Nat2Z.id, Hk. done. }
    apply (pr_bools _ _ _ _ _ Hpr Hbool). unfold COL_PAGE_HEADER_SIZE. fold va. nia.
  - intros j Hj. unfold raw. cbn [with_data cv_type cv_data]. rewrite Hty, Ht. fold tb. f_equal.
    rewrite slice_splice_in by (rewrite ?Hsrc; nia). rewrite slice_slice by nia. f_equal. nia.
  - intros j Hj. unfold raw. cbn [with_data cv_type cv_data]. rewrite Hty, Ht. fold tb. f_equal.
    apply slice_splice_before; nia.
Qed.

Lemma copy_values_ok pl pv slot n st o : page_rep t nullable max_len pl pv -> 0 <= slot -> 0 < n ->
  slot + n <= zlen pv -> slice slot n pv = slice (start + o) n vals -> 0 <= o -> o + n <= count ->
  values_inv o st -> exists st', copy_values t nullable pl slot n st = Some st' /\ values_inv (o + n) st'.
Proof using Ht Hvec Hstart.
  intros Hpr Hs Hn Hlen Heq Ho Hcount [H1 Hwf Hty Hnu Hsz Hdone Hrest]. destruct st as [out off]. cbn [fst snd] in *. subst off.
  destruct (copy_data_ok pl pv slot n out o) as (src & d & Hld & Hsto & Hwf1 & Hnew & Hold); try done; [lia|].
  unfold copy_values. rewrite Hld, Hsto.
  destruct (geometry_fits t nullable max_len (pr_ml _ _ _ _ _ Hpr)) as (Hc & _). pose proof (pr_full _ _ _ _ _ Hpr) as Hfull.
  assert (Hnulls : exists out', (if nullable then copy_null_bits (with_data out d) o (null_bitmap pl) slot n
      else Some (with_data out d)) = Some out' /\ cv_wf out' /\ same_header (with_data out d) out' /\
    cv_size out' = cv_size out /\ (forall j, raw out' j = raw (with_data out d) j) /\
    forall j, 0 <= j -> null_at out' j = null_at out j ||
      (nullable && (bool_decide (o <= j < o + n) && bit_get (null_bitmap pl) (slot + (j - o))))).
  { destruct nullable eqn:En.
    - destruct (copy_null_bits_ok (with_data out d) o pl slot n Hwf1) as (out' & He & Hw & Hh & Hsz' & Hraw & Hb);
        [done|apply (pr_len _ _ _ _ _ Hpr)|lia|lia|lia|cbn; lia|lia|].
      exists out'. split; [done|]. split; [done|]. split; [done|]. split; [done|]. split; [done|].
      intros j Hj. unfold null_at. destruct Hh as [_ Hh]. rewrite Hh, Hb by done. cbn. by rewrite Hnu.
    - exists (with_data out d). split; [done|]. split; [done|]. split; [done|]. split; [done|]. split; [done|].
      intros j _. cbn [andb]. by rewrite orb_false_r. }
  destruct Hnulls as (out' & -> & Hwf' & [Hty' Hnu'] & Hsz' & Hraw & Hnull). eexists. split; [done|].
  split; cbn [fst snd]; [done|done|by rewrite Hty'|by rewrite Hnu'|by rewrite Hsz'| |].
  - intros j Hj. unfold cell. rewrite Hnull by lia. destruct (decide (j < o)) as [Hlt|Hge].
    { rewrite (bool_decide_false (o <= j < o + n)) by lia. rewrite andb_false_l, andb_false_r, orb_false_r.
      rewrite Hdone by lia. unfold cell. by rewrite Hraw, Hold by lia. }
    rewrite Hrest, bool_decide_true by lia. rewrite andb_true_l, orb_false_l.
    destruct (page_row pv vals slot n start o (j - o)) as (v & Hv & Hv'); [done|done|lia|lia|done|].
    replace (start + (o + (j - o))) with (start + j) in Hv' by lia. rewrite Hv'. f_equal.
    pose proof (pr_cells _ _ _ _ _ Hpr _ _ Hv) as Hcell. rewrite Z2Nat.id in Hcell by lia. unfold cell_rep in Hcell.
    pose proof (Forall_lookup_1 _ _ _ _ (pr_fits _ _ _ _ _ Hpr) Hv) as Hfit.
    destruct (is_null v) eqn:Hvn.
    + destruct v; try done. simpl in Hfit. by rewrite Hfit, Hcell.
    + destruct Hcell as [Hbit Hbytes]. rewrite Hraw, Hnew by lia. rewrite elem_stored in Hbytes. rewrite Hbytes.
      rewrite (decode_encode t nullable) by done. destruct nullable; [by rewrite Hbit|done].
  - intros j Hj. rewrite Hnull, Hrest, bool_decide_false by lia. by rewrite andb_false_l, andb_false_r.
Qed.
End values.

(** ** [read_col] *)

(** The vector holds the rows [start .. start + count - 1] of the column. *)
Lemma read_col_ok cf vals start count : file_rep cf vals -> 0 <= start -> 0 < count -> start + count <= zlen vals ->
  exists cv cf', read_col cf start count = Some (Ok cv, cf') /\ file_rep cf' vals /\ pool_only cf cf' /\
    col_ok count (type_ cf, nullable_ cf) cv /\ cv_values cv = slice start count vals.
Proof.
  intros Hrep Hs Hc Hlen. pose proof (stored_type (type_ cf) (nullable_ cf) (max_len_ cf)) as Hvec.
  rewrite <- (fr_cap _ _ Hrep) in Hvec. specialize (Hvec (fr_pos _ _ Hrep)). unfold read_col.
  destruct (bool_decide_reflect (type_ cf = VARCHAR)) as [Ht|Ht].
  - destruct (cv_empty_wf VARCHAR (nullable_ cf) eq_refl) as (Hwf & Hcl & Hv).
    destruct (read_pages_ok (copy_strings (nullable_ cf)) (strings_inv (nullable_ cf) vals start) VARCHAR (nullable_ cf)
      (max_len_ cf) vals start count) with (fuel := Z.to_nat count) (cf := cf) (acc := cv_empty VARCHAR (nullable_ cf)) (o := 0)
      as (cv & cf' & Hrd & (H1 & _ & H3 & H4 & H5 & H6) & Hr & Hp); try done; try lia.
    { intros. by eapply copy_strings_ok. }
    rewrite Z.add_0_r, Z.sub_0_r in Hrd. exists cv, cf'. split; [done|]. split; [done|]. split; [done|]. rewrite Ht. done.
  - assert (Hnv : is_varchar (type_ cf) = false) by (by destruct (type_ cf)).
    destruct (cv_make_wf (type_ cf) count (nullable_ cf) Hvec) as (Hwf & Hcl & Hsz & [Hty Hnu]); [lia|].
    destruct (read_pages_ok (copy_values (type_ cf) (nullable_ cf)) (values_inv (type_ cf) (nullable_ cf) vals start count)
      (type_ cf) (nullable_ cf) (max_len_ cf) vals start count) with (fuel := Z.to_nat count) (cf := cf)
      (acc := (cv_make (type_ cf) count (nullable_ cf), 0)) (o := 0)
      as ([cv off] & cf' & Hrd & Hinv & Hr & Hp); try done; try lia.
    { intros. by eapply copy_values_ok. }
    { split; cbn [fst snd]; try done; [lia|]. intros j Hj. unfold null_at. rewrite Hnu. cbn [cv_nullable cv_empty].
      destruct (nullable_ cf); [apply cv_make_bits|done]. }
    rewrite Z.add_0_r, Z.sub_0_r in Hrd. rewrite Hrd. destruct Hinv as [_ H2 H3 H4 H5 H6 _]. cbn [fst snd] in *.
    exists cv, cf'. split; [done|]. split; [done|]. split; [done|]. split; [done|].
    apply cv_values_eq; [rewrite H5; symmetry; apply zlen_slice; lia|].
    intros k v Hk. assert (Hlt : Z.of_nat k < count).
    { pose proof Hk as Hk'%lookup_lt_Some. pose proof (zlen_slice start count vals) as Hz. unfold zlen in Hz, Hlen. lia. }
    rewrite <- (Nat2Z.id k), lookup_slice, H6 in Hk by lia. injection Hk as <-. done.
Qed.
