(* ===== verification/ScanStream.v ===== *)
(** * Table scans: the rows of a table

    [open] and [next] of a [TableScan] over a table: every row that is not deleted (and that the
    zone maps do not rule out) comes out once, in the order of the row ids, with the columns that
    were asked for, and [last_chunk_physical_start] is the row id of the first row of the chunk.
    The table is the same afterwards, but for the pages its buffer pools hold. *)

From S2P Require Import Prelude Types Page LruK BufferPool ColumnPage ColumnFile Codec SchemaFile Table.
From S2P Require Import SelectionVector ColumnVector Chunk Expression Operator TableScan ScanRanges ScanRead.

(** ** Parts of a table *)

(** Part [seg] of the table holds [rows], the first with row id [base]. *)
Definition part (sealed : list (list row)) (wb : list row) (seg : option nat) (base : Z) (rows : list row) : Prop :=
  match seg with
  | Some k => sealed !! k = Some rows /\ base = zlen (concat (take k sealed))
  | None => rows = wb /\ base = zlen (concat sealed)
  end.

(** The values of column [i]. *)
Definition column_of (i : nat) (rows : list row) : list Value := map (fun r => nth i r VNull) rows.

Definition scan_row (projected : list nat) (r : row) : row := map (fun i => nth i r VNull) projected.

(** What a scan leaves unchanged. *)
Record same_table (t t' : Table) : Prop := {
  st_schema : schema_ t' = schema_ t;
  st_base : wb_base_row_id_ t' = wb_base_row_id_ t;
  st_segs : Forall2 seg_same (segments_ t) (segments_ t');
  st_wb : wb_deleted_ t' = wb_deleted_ t
}.

#[export] Instance seg_same_preorder : PreOrder seg_same.
Proof. split; [done|]. intros x y z [] []. split; congruence. Qed.

Lemma same_table_refl t : same_table t t.
Proof. by split. Qed.

Lemma same_table_trans a b c : same_table a b -> same_table b c -> same_table a c.
Proof.
  intros [H1 H2 H3 H4] [H5 H6 H7 H8]. split; [congruence..| |congruence].
  by transitivity (segments_ b).
Qed.

Lemma same_table_deleted t t' gid : same_table t t' -> is_row_deleted t' gid = is_row_deleted t gid.
Proof. intros [_ Hb Hs Hw]. unfold is_row_deleted. by rewrite Hb, Hw, (deleted_same _ _ _ Hs). Qed.

Lemma segs_rep_part schema segs rowss k rows : forall base, segs_rep schema base segs rowss -> rowss !! k = Some rows ->
  exists s, segs !! k = Some s /\ seg_rep schema s (base + zlen (concat (take k rowss))) rows.
Proof.
  revert segs rowss. induction k as [|k IH]; intros segs rowss base H Hk; inversion H; subst; try done; simpl in Hk.
  - injection Hk as <-. eexists. split; [done|]. cbn [take concat]. change (zlen []) with 0. by rewrite Z.add_0_r.
  - destruct (IH _ _ _ H1 Hk) as (s & Hs & Hr). exists s. split; [done|]. cbn [take concat].
    by rewrite zlen_app, Z.add_assoc.
Qed.

Section parts.
Context (sealed : list (list row)) (wb : list row).

Lemma part_columns t seg base rows : table_rep t sealed wb -> part sealed wb seg base rows ->
  exists cols, entry_columns t seg = Some cols /\ rows_rep (schema_ t) cols rows.
Proof.
  intros Ht Hp. destruct seg as [k|]; simpl in Hp |- *.
  - destruct Hp as [Hk _]. destruct (segs_rep_part _ _ _ _ _ _ (tr_segs _ _ _ Ht) Hk) as (s & -> & Hr).
    eexists. split; [done|apply (sr_cols _ _ _ _ Hr)].
  - destruct Hp as [-> _]. eexists. split; [done|apply (tr_wb _ _ _ Ht)].
Qed.

Lemma rows_rep_column schema cols rows i : rows_rep schema cols rows -> (i < length schema)%nat ->
  exists cf col, cols !! i = Some cf /\ schema !! i = Some col /\ col_rep col cf (column_of i rows).
Proof.
  intros Hr Hi. destruct (lookup_lt_is_Some_2 schema i Hi) as [col Hcol].
  destruct (Forall3_lookup_l _ _ _ _ _ _ Hr Hcol) as (cf & vs & Hcf & Hvs & Hrep). exists cf, col.
  split; [done|]. split; [done|]. unfold column_batches in Hvs. rewrite list_lookup_fmap in Hvs.
  rewrite lookup_seq_lt in Hvs by done. by injection Hvs as <-.
Qed.

Lemma columns_put schema cols vss i col cf' vs : columns_rep schema cols vss -> schema !! i = Some col ->
  vss !! i = Some vs -> col_rep col cf' vs -> columns_rep schema (<[i := cf']> cols) vss.
Proof.
  intros H. revert i. induction H; intros [|i]; simpl; try done.
  - intros [= ->] [= ->] Hc. by constructor.
  - intros Hs Hv Hc. constructor; [done|]. by apply IHForall3.
Qed.

Lemma rows_rep_put schema cols rows i cf cf' : rows_rep schema cols rows -> (i < length schema)%nat ->
  cols !! i = Some cf -> pool_only cf cf' -> file_rep cf' (column_of i rows) ->
  rows_rep schema (<[i := cf']> cols) rows.
Proof.
  intros Hr Hi Hcf [pool ->] Hf. destruct (rows_rep_column _ _ _ _ Hr Hi) as (cf0 & col & Hcf0 & Hcol & (_ & Hp)).
  rewrite Hcf in Hcf0. injection Hcf0 as <-. eapply columns_put; [done|done| |by split].
  unfold column_batches. rewrite list_lookup_fmap, lookup_seq_lt by done. done.
Qed.

Lemma segs_rep_alter schema f k segs rowss : forall base, segs_rep schema base segs rowss ->
  (forall s rows b, segs !! k = Some s -> rowss !! k = Some rows -> seg_rep schema s b rows -> seg_rep schema (f s) b rows) ->
  segs_rep schema base (alter f k segs) rowss.
Proof.
  revert segs rowss. induction k as [|k IH]; intros segs rowss base H Hf; inversion H; subst; try done.
  - constructor; [|done]. by apply Hf.
  - constructor; [done|]. apply IH; [done|]. intros s r b Hs Hr. by apply Hf.
Qed.

(** Reading a column changes the table by a buffer pool only. *)
Lemma store_column_rep t seg base rows i cf cf' : table_rep t sealed wb -> part sealed wb seg base rows ->
  (i < length (schema_ t))%nat -> entry_column t seg i = Some cf -> pool_only cf cf' ->
  file_rep cf' (column_of i rows) ->
  table_rep (store_column t seg i cf') sealed wb /\ same_table t (store_column t seg i cf').
Proof.
  intros Ht Hp Hi Hcf Hpo Hf. destruct seg as [k|]; cbn [store_column].
  - destruct Hp as [Hk _]. unfold entry_column, entry_columns in Hcf.
    destruct (segments_ t !! k) as [s|] eqn:Hs; [|done].
    set (f := fun s => mkSegment _ _ _ _).
    assert (Hsame : Forall2 seg_same (segments_ t) (alter f k (segments_ t))).
    { clear. revert k. induction (segments_ t) as [|s l IH]; intros [|k]; simpl; [done..| |]; (constructor; [done|]);
        [reflexivity|apply IH]. }
    split.
    + apply set_segments_rep; [done| |by apply same_metas].
      apply segs_rep_alter; [apply (tr_segs _ _ _ Ht)|]. intros s' rows' b Hs' Hr' [H1 H2 H3 H4 H5 H6].
      rewrite Hs in Hs'. injection Hs' as <-. rewrite Hk in Hr'. injection Hr' as <-. split; try done.
      * cbn [seg_columns f]. by eapply rows_rep_put.
      * cbn [seg_columns f]. apply Forall_insert; [done|]. destruct Hpo as [pool ->].
        change (current_dirty_ cf = false). eapply (Forall_lookup_1 clean); [exact H5|exact Hcf].
    + by split.
  - destruct Hp as [-> _]. split; [apply (set_wb_columns_rep t sealed wb); [done| |lia]|].
    + eapply rows_rep_put; [apply (tr_wb _ _ _ Ht)|done|exact Hcf|done|done].
    + by split.
Qed.

(** ** Reading a chunk *)

Definition scan_signature (schema : Schema) (projected : list nat) : signature :=
  map (fun i => match schema !! i with Some col => (col_type col, col_nullable col) | None => (INVALID, false) end)
    projected.

Definition in_schema (schema : Schema) (i : nat) : Prop := (i < length schema)%nat.

Lemma read_cols_ok seg base rows start count projected : part sealed wb seg base rows -> 0 <= start -> 0 < count ->
  start + count <= zlen rows -> forall t, table_rep t sealed wb -> Forall (in_schema (schema_ t)) projected ->
  exists cvs t', read_cols t seg projected start count = Some (Ok cvs, t') /\ table_rep t' sealed wb /\
    same_table t t' /\ Forall2 (col_ok count) (scan_signature (schema_ t) projected) cvs /\
    Forall2 (fun i cv => cv_values cv = slice start count (column_of i rows)) projected cvs.
Proof.
  intros Hp Hs Hc Hlen. induction projected as [|i projected IH]; intros t Ht Hin.
  { exists [], t. split; [done|]. split; [done|]. split; [apply same_table_refl|]. split; constructor. }
  apply Forall_cons in Hin as [Hi Hin]. destruct (part_columns t seg base rows Ht Hp) as (cols & Hcols & Hr).
  destruct (rows_rep_column _ _ _ i Hr Hi) as (cf & col & Hcf & Hcol & (Hf & Hty & Hnu & _)).
  assert (Hec : entry_column t seg i = Some cf) by (unfold entry_column; by rewrite Hcols).
  destruct (read_col_ok cf (column_of i rows) start count) as (cv & cf' & Hrd & Hf' & Hpo & Hok & Hv);
    [done|done|done|unfold column_of, zlen in *; by rewrite length_map|].
  destruct (store_column_rep t seg base rows i cf cf') as [Ht1 Hst1]; [done..|].
  destruct (IH (store_column t seg i cf') Ht1) as (cvs & t' & Hrest & Ht' & Hst & Hoks & Hvs);
    [by rewrite (st_schema _ _ Hst1)|].
  exists (cv :: cvs), t'. cbn [read_cols]. rewrite Hec, Hrd, Hrest. split; [done|]. split; [done|].
  split; [by eapply same_table_trans|]. rewrite (st_schema _ _ Hst1) in Hoks. split; constructor; try done.
  rewrite Hcol, <- Hty, <- Hnu. done.
Qed.

(** The rows of a chunk whose columns are columns of [rows]. *)
Lemma column_chunk_rows rows projected cvs : Forall2 (fun i cv => cv_values cv = column_of i rows) projected cvs ->
  Forall (fun cv => cv_size cv = zlen rows) cvs ->
  chunk_rows (mkChunk (zlen rows) cvs None) = map (scan_row projected) rows.
Proof.
  intros Hv Hsz. unfold chunk_rows, shown. cbn [ck_sel ck_columns ck_row_count]. pose proof (zlen_nonneg rows) as H0.
  apply list_eq. intros k. rewrite !list_lookup_fmap. destruct (decide (k < length rows)%nat) as [Hk|Hk].
  - rewrite lookup_zrange by (unfold zlen; lia). destruct (lookup_lt_is_Some_2 rows k Hk) as [r Hr].
    rewrite Hr. cbn. f_equal. unfold row_at, scan_row. clear -Hv Hsz Hk Hr.
    induction Hv as [|i cv projected cvs Hcv _ IH]; [done|]. apply Forall_cons in Hsz as [Hsz Hszs]. cbn [map].
    f_equal; [|by apply IH]. pose proof (lookup_cv_values cv k) as Hl. rewrite Hsz in Hl. unfold zlen in Hl.
    specialize (Hl ltac:(lia)). rewrite Hcv in Hl. unfold column_of in Hl. rewrite list_lookup_fmap, Hr in Hl. by injection Hl.
  - rewrite !lookup_ge_None_2; [done|lia|]. rewrite length_zrange. unfold zlen. lia.
Qed.

(** A part of a table is a window of its rows. *)
Lemma part_window seg base rows : part sealed wb seg base rows ->
  0 <= base /\ base + zlen rows <= zlen (all_rows sealed wb) /\
  forall s n, 0 <= s -> 0 <= n -> s + n <= zlen rows -> slice s n rows = slice (base + s) n (all_rows sealed wb).
Proof.
  assert (Hmid : forall (a b c : list row) s n, 0 <= s -> 0 <= n -> s + n <= zlen b ->
    slice s n b = slice (zlen a + s) n (a ++ b ++ c)).
  { intros a b c s n Hs Hn Hl. unfold slice, zlen in *. rewrite drop_app_ge by lia.
    replace (Z.to_nat (Z.of_nat (length a) + s) - length a)%nat with (Z.to_nat s) by lia.
    rewrite drop_app_le, take_app_le by (rewrite ?length_drop; lia). done. }
  unfold all_rows. destruct seg as [k|]; simpl.
  - intros [Hk ->].
    assert (Hsp : concat sealed = concat (take k sealed) ++ rows ++ concat (drop (S k) sealed))
      by (rewrite <- (take_drop_middle _ _ _ Hk) at 1; by rewrite concat_app).
    rewrite Hsp, <- !app_assoc. split; [apply zlen_nonneg|]. split.
    + rewrite !zlen_app. pose proof (zlen_nonneg (concat (drop (S k) sealed))). pose proof (zlen_nonneg wb). lia.
    + intros s n Hs Hn Hl. apply Hmid; done.
  - intros [-> ->]. split; [apply zlen_nonneg|]. split; [rewrite zlen_app; lia|].
    intros s n Hs Hn Hl. rewrite <- (app_nil_r wb) at 2. by apply Hmid.
Qed.
End parts.

(** ** The state of a scan *)

(** Calling [next] until the end of the data: the chunks, each with the value of
    [last_chunk_physical_start] after the call, and the state in the end. *)
Inductive scan_runs : TableScan -> list (Z * Chunk) -> TableScan -> Prop :=
| scan_end ts ts' : table_scan_next ts = Some (Ok None, ts') -> scan_runs ts [] ts'
| scan_chunk ts ts1 ts' c l :
    table_scan_next ts = Some (Ok (Some c), ts1) -> scan_runs ts1 l ts' ->
    scan_runs ts ((ts_last_start ts1, c) :: l) ts'.

(** The row ids of the chunks. *)
Definition trace_ids (l : list (Z * Chunk)) : list Z :=
  flat_map (fun '(start, c) => zrange start (ck_row_count c)) l.

(** The local rows that an entry of the plan has left. *)
Definition entry_rest (st : SegScanState) : list Z :=
  match drop (ss_range_idx st) (ss_survivors st) with
  | [] => []
  | (s, e) :: rs => let m := Z.max s (ss_cur_local st) in zrange m (e - m) ++ ranges_ids rs
  end.

(** The row ids that a scan has left. *)
Definition entry_ids (st : SegScanState) : list Z := map (Z.add (ss_base_row_id st)) (entry_rest st).
Definition scan_rest (ts : TableScan) : list Z := flat_map entry_ids (drop (ts_current_seg ts) (ts_plan ts)).

Lemma map_add_zrange b i n : map (Z.add b) (zrange i n) = zrange (b + i) n.
Proof. unfold zrange. rewrite map_map. apply map_ext. intros k. lia. Qed.

Section scan.
Context (sealed : list (list row)) (wb : list row) (t0 : Table) (projected : list nat).
Hypothesis Hmax : zlen (all_rows sealed wb) < 2 ^ 63.
Hypothesis Hproj : Forall (in_schema (schema_ t0)) projected.

Definition entry_ok (st : SegScanState) : Prop :=
  exists rows, part sealed wb (ss_seg st) (ss_base_row_id st) rows /\
    ranges_in 0 (drop (ss_range_idx st) (ss_survivors st)) (zlen rows) /\ 0 <= ss_cur_local st /\
    match drop (ss_range_idx st) (ss_survivors st) with [] => True | (_, e) :: _ => ss_cur_local st <= e end.

Record scan_ok (ts : TableScan) : Prop := {
  so_rep : table_rep (ts_table ts) sealed wb;
  so_same : same_table t0 (ts_table ts);
  so_proj : ts_projected ts = projected;
  so_opened : ts_opened ts = true;
  so_plan : Forall entry_ok (drop (ts_current_seg ts) (ts_plan ts))
}.

Lemma skip_ranges_ok st n : (length (ss_survivors st) - ss_range_idx st <= n)%nat -> entry_ok st ->
  let idx := skip_ranges n (ss_survivors st) (ss_range_idx st) (ss_cur_local st) in
  entry_ok (ss_at st idx (ss_cur_local st)) /\ entry_rest (ss_at st idx (ss_cur_local st)) = entry_rest st /\
  forall s e, ss_survivors st !! idx = Some (s, e) -> ss_cur_local st < e.
Proof using.
  destruct st as [seg base cnt surv idx cur]. cbn [ss_survivors ss_range_idx ss_cur_local ss_at ss_seg ss_base_row_id
    ss_local_row_count]. revert idx. induction n as [|n IH]; intros idx Hn Hok; cbv zeta; cbn [skip_ranges].
  { split; [done|]. split; [done|]. intros s e H%lookup_lt_Some. lia. }
  destruct (surv !! idx) as [[s e]|] eqn:Hi; [|split; [done|]; split; [done|]; intros; congruence].
  destruct (Z.leb_spec e cur) as [Hle|Hgt]; [|split; [done|]; split; [done|]; intros s' e' H; rewrite Hi in H; by injection H as <- <-].
  destruct Hok as (rows & Hp & Hin & Hc & Hcur). cbn [ss_seg ss_base_row_id ss_range_idx ss_survivors ss_cur_local] in *.
  pose proof (drop_S _ _ _ Hi) as Hd. rewrite Hd in Hin, Hcur. destruct Hin as [Hse Hin].
  assert (Heq : cur = e) by lia.
  destruct (IH (S idx)) as (H1 & H2 & H3); [pose proof (lookup_lt_Some _ _ _ Hi); lia| |].
  - exists rows. split; [done|]. cbn [ss_seg ss_base_row_id ss_range_idx ss_survivors ss_cur_local].
    split; [apply (ranges_in_lo _ e); [lia|done]|]. split; [done|]. destruct (drop (S idx) surv) as [|[s' e'] rs]; [done|].
    simpl in Hin. lia.
  - split; [done|]. split; [|done]. etransitivity; [exact H2|]. unfold entry_rest. cbn [ss_range_idx ss_survivors ss_cur_local].
    rewrite Hd, (zrange_nil (Z.max s cur)) by lia. cbn [app]. destruct (drop (S idx) surv) as [|[s' e'] rs]; [done|].
    simpl in Hin. rewrite Z.max_l by lia. done.
Qed.

(** What a call of [next] gives. *)
Definition next_result (ts : TableScan) (x : option (result (option Chunk) * TableScan)) : Prop :=
  (scan_rest ts = [] /\ exists ts', x = Some (Ok None, ts') /\ table_rep (ts_table ts') sealed wb /\
     same_table t0 (ts_table ts')) \/
  (exists c ts', x = Some (Ok (Some c), ts') /\ scan_ok ts' /\ 0 < ck_row_count c /\
     scan_rest ts = zrange (ts_last_start ts') (ck_row_count c) ++ scan_rest ts' /\
     chunk_good (scan_signature (schema_ t0) projected) c /\
     chunk_rows c = map (scan_row projected) (slice (ts_last_start ts') (ck_row_count c) (all_rows sealed wb))).

(** The chunk read from the current range. *)
Lemma next_chunk ts st s e : scan_ok ts -> ts_plan ts !! ts_current_seg ts = Some st -> entry_ok st ->
  ss_survivors st !! ss_range_idx st = Some (s, e) -> ss_cur_local st < e ->
  let cur := if ss_cur_local st <? s then s else ss_cur_local st in
  let count := Z.min CHUNK_SIZE (e - cur) in
  let last_start := wrap 64 (ss_base_row_id st + cur) in
  exists cols t c, read_cols (ts_table ts) (ss_seg st) (ts_projected ts) cur count = Some (Ok cols, t) /\
    chunk_new count cols = Some c /\ ck_row_count c = count /\ 0 < count /\
    scan_ok (ts_step ts t (ss_at st (ss_range_idx st) (cur + count)) (ts_current_seg ts) last_start) /\
    entry_ids st = zrange last_start count ++ entry_ids (ss_at st (ss_range_idx st) (cur + count)) /\
    chunk_good (scan_signature (schema_ t0) projected) c /\
    chunk_rows c = map (scan_row projected) (slice last_start count (all_rows sealed wb)).
Proof using Hmax Hproj.
  intros [Hrep Hsame Hpr Hop Hplan] Hst (rows & Hp & Hin & Hc0 & Hcur) Hi Hlt. cbv zeta.
  set (cur := if _ <? s then s else _). set (count := Z.min CHUNK_SIZE (e - cur)).
  pose proof (drop_S _ _ _ Hi) as Hd. rewrite Hd in Hin, Hcur. destruct Hin as [Hse Hin].
  pose proof (ranges_in_le _ _ _ Hin) as Hle.
  assert (Hm : cur = Z.max s (ss_cur_local st)) by (unfold cur; destruct (Z.ltb_spec (ss_cur_local st) s); lia).
  assert (Hcnt : 0 < count <= 1024 /\ count <= e - cur) by (unfold count, CHUNK_SIZE; lia).
  destruct (part_window sealed wb _ _ _ Hp) as (Hb & Htot & Hwin).
  rewrite wrap_id by (unfold in_u; lia).
  destruct (read_cols_ok sealed wb (ss_seg st) (ss_base_row_id st) rows cur count projected Hp) with (t := ts_table ts)
    as (cvs & t' & Hrd & Hrep' & Hst' & Hoks & Hvs); [lia|lia|lia|done|by rewrite (st_schema _ _ Hsame)|].
  rewrite (st_schema _ _ Hsame) in Hoks.
  destruct (chunk_new_ok (scan_signature (schema_ t0) projected) count cvs) as [Hnew Hgood]; [unfold MAX_ROWS; lia|done|].
  exists cvs, t', (mkChunk count cvs None). rewrite Hpr. split; [done|]. split; [done|]. split; [done|]. split; [lia|].
  split.
  { split; cbn [ts_step ts_table ts_projected ts_opened ts_current_seg ts_plan]; try done.
    - by eapply same_table_trans.
    - pose proof (lookup_lt_Some _ _ _ Hst) as Hlts. rewrite drop_insert_ge, Nat.sub_diag by lia.
      apply Forall_insert; [done|]. exists rows. cbn [ss_at ss_seg ss_base_row_id ss_range_idx ss_survivors ss_cur_local].
      split; [done|]. rewrite Hd. split; [done|]. split; lia. }
  split.
  { unfold entry_ids, entry_rest. cbn [ss_at ss_base_row_id ss_range_idx ss_survivors ss_cur_local]. rewrite Hd. cbv zeta.
    rewrite <- Hm, (Z.max_r s) by lia. rewrite (zrange_cut cur (cur + count) e) by lia.
    replace (cur + count - cur) with count by lia. by rewrite <- app_assoc, map_app, map_add_zrange. }
  split; [done|]. rewrite <- Hwin by lia.
  assert (Hn : zlen (slice cur count rows) = count) by (apply zlen_slice; lia).
  rewrite <- Hn at 1. apply column_chunk_rows.
  - eapply Forall2_impl; [exact Hvs|]. intros i cv ->. symmetry. apply slice_map.
  - pose proof (col_ok_sizes _ _ _ Hoks) as Hszs. rewrite Hn. eapply Forall_impl; [exact Hszs|]. by intros ? [].
Qed.

Lemma next_loop_ok n : forall ts, scan_ok ts -> (length (ts_plan ts) - ts_current_seg ts <= n)%nat ->
  next_result ts (next_loop n ts).
Proof using Hmax Hproj.
  induction n as [|n IH]; intros ts Hok Hn; cbn [next_loop]; pose proof Hok as [Hrep Hsame Hpr Hop Hplan].
  { rewrite lookup_ge_None_2 by lia. left. unfold scan_rest. rewrite drop_ge by lia. split; [done|].
    exists ts. done. }
  destruct (ts_plan ts !! ts_current_seg ts) as [st|] eqn:Hst.
  2: { apply lookup_ge_None_1 in Hst. left. unfold scan_rest. rewrite drop_ge by lia. split; [done|]. exists ts. done. }
  pose proof (drop_S _ _ _ Hst) as Hd. rewrite Hd in Hplan. apply Forall_cons in Hplan as [Hent Hrest].
  destruct (skip_ranges_ok st (length (ss_survivors st))) as (Hent' & Heq & Hcur); [lia|done|].
  set (idx := skip_ranges _ _ _ _) in *. set (st1 := ss_at st idx (ss_cur_local st)) in *.
  pose proof (lookup_lt_Some _ _ _ Hst) as Hlt.
  assert (Hids : scan_rest ts = entry_ids st1 ++ flat_map entry_ids (drop (S (ts_current_seg ts)) (ts_plan ts))).
  { unfold scan_rest. rewrite Hd. cbn [flat_map]. f_equal. unfold entry_ids. by rewrite Heq. }
  destruct (ss_survivors st !! idx) as [[s e]|] eqn:Hi.
  - pose (tsx := ts_step ts (ts_table ts) st1 (ts_current_seg ts) (ts_last_start ts)).
    assert (Hx : scan_ok tsx).
    { split; cbn [tsx ts_step ts_table ts_projected ts_opened ts_current_seg ts_plan]; try done.
      rewrite drop_insert_ge, Nat.sub_diag, Hd by lia. by constructor. }
    destruct (next_chunk tsx st1 s e Hx) as (cols & t & c & Hrd & Hnew & Hcc & Hpos & Hok' & Hce & Hgood & Hrows);
      [cbn [tsx ts_step ts_plan ts_current_seg]; by apply list_lookup_insert_eq|done|done|by apply (Hcur s)|].
    cbn [st1 ss_at ss_cur_local ss_base_row_id ss_seg ss_range_idx tsx ts_step ts_table ts_projected ts_current_seg] in *.
    cbv zeta. rewrite Hrd, Hnew. right. eexists c, _. split; [done|].
    assert (Hts : forall t x cur l, ts_step tsx t x cur l = ts_step ts t x cur l).
    { intros. unfold ts_step, tsx. cbn. by rewrite list_insert_insert_eq. }
    rewrite <- Hts. split; [exact Hok'|]. rewrite Hcc. split; [done|]. split; [|done].
    rewrite Hids. unfold scan_rest. rewrite Hts. cbn [ts_step ts_current_seg ts_plan ts_last_start].
    erewrite (drop_S _ _ (ts_current_seg ts)) by (by apply list_lookup_insert_eq).
    cbn [flat_map]. rewrite drop_insert_lt by lia. rewrite Hce, <- app_assoc. done.
  - assert (Hnil : entry_ids st1 = []).
    { unfold entry_ids, entry_rest. cbn [st1 ss_at ss_range_idx ss_survivors].
      apply lookup_ge_None_1 in Hi. by rewrite drop_ge. }
    set (ts1 := ts_step ts (ts_table ts) st1 (S (ts_current_seg ts)) (ts_last_start ts)).
    assert (Hr1 : scan_rest ts = scan_rest ts1).
    { rewrite Hids, Hnil. unfold scan_rest. cbn [ts1 ts_step ts_current_seg ts_plan app]. by rewrite drop_insert_lt by lia. }
    unfold next_result. rewrite Hr1. apply IH.
    + split; cbn [ts1 ts_step ts_table ts_projected ts_opened ts_current_seg ts_plan]; try done. by rewrite drop_insert_lt by lia.
    + cbn [ts1 ts_step ts_current_seg ts_plan]. rewrite length_insert. lia.
Qed.

(** A chunk holds consecutive rows of the table from its start on. *)
Definition chunk_of_rows (x : Z * Chunk) : Prop :=
  chunk_good (scan_signature (schema_ t0) projected) x.2 /\
  chunk_rows x.2 = map (scan_row projected) (slice x.1 (ck_row_count x.2) (all_rows sealed wb)).

Lemma scan_runs_ok n : forall ts, (length (scan_rest ts) <= n)%nat -> scan_ok ts ->
  exists l ts', scan_runs ts l ts' /\ table_rep (ts_table ts') sealed wb /\ same_table t0 (ts_table ts') /\
    trace_ids l = scan_rest ts /\ Forall chunk_of_rows l.
Proof using Hmax Hproj.
  induction n as [|n IH]; intros ts Hn Hok;
    (assert (Hnx : next_result ts (table_scan_next ts));
     [unfold table_scan_next; rewrite (so_opened _ Hok); apply next_loop_ok; [done|lia]|]);
    destruct Hnx as [(Hnil & ts' & Hx & Hr & Hs)|(c & ts1 & Hx & Hok1 & Hpos & Hrest & Hgood & Hrows)].
  1, 3: exists [], ts'; split; [by constructor|]; done.
  - rewrite Hrest, length_app, length_zrange in Hn. lia.
  - destruct (IH ts1) as (l & ts' & Hl & Hr & Hs & Hids & Hall); [|done|].
    { rewrite Hrest, length_app, length_zrange in Hn. lia. }
    exists ((ts_last_start ts1, c) :: l), ts'. split; [by econstructor|]. split; [done|]. split; [done|]. split.
    + cbn [trace_ids flat_map]. rewrite Hrest. f_equal. exact Hids.
    + constructor; [|done]. by split.
Qed.
End scan.
