(* ===== verification/ScanOpen.v ===== *)
(** * Table scans: opening

    The plan that [TableScan::open] builds: the entries are the segments and the write buffer, and
    the rows they keep are the rows of the table that are not deleted, less pages without a value
    of the range; the theorems on whole scans follow. *)

From S2P Require Import Prelude Types Page LruK BufferPool ColumnPage ColumnFile Codec SchemaFile Table.
From S2P Require Import SelectionVector ColumnVector Chunk Expression Operator TableScan ScanRanges ScanRead ScanStream.

Definition range_ok (schema : Schema) (range : option ScanRange) : Prop :=
  match range with
  | None => True
  | Some r => exists col, schema !! sr_col_idx r = Some col /\ bounds_match (col_type col) r
  end.

(** The row has a value of the range. *)
Definition row_in_range (schema : Schema) (range : option ScanRange) (r : row) : Prop :=
  match range with
  | None => True
  | Some x => exists col, schema !! sr_col_idx x = Some col /\ in_range (col_type col) x (nth (sr_col_idx x) r VNull)
  end.

(** The ids of the rows [base .. base + n - 1] that are not deleted. *)
Definition live_ids (t : Table) (base n : Z) : list Z := List.filter (fun id => negb (is_row_deleted t id)) (zrange base n).

Section open.
Context (sealed : list (list row)) (wb : list row) (range : option ScanRange).
Hypothesis Hmax : zlen (all_rows sealed wb) < 2 ^ 63.

(** The marks of a part of the table. *)
Lemma part_deleted t seg base rows : table_rep t sealed wb -> part sealed wb seg base rows ->
  exists bm, entry_deleted t seg = Some bm /\
    forall i, 0 <= i < zlen rows -> is_row_deleted t (base + i) = row_bit bm i.
Proof using Hmax.
  intros Ht Hp. pose proof (part_window _ _ _ _ _ Hp) as (Hb & Htot & _). unfold is_row_deleted.
  rewrite (tr_base _ _ _ Ht). unfold all_rows in *. rewrite zlen_app in *. destruct seg as [k|]; simpl in Hp |- *.
  - destruct Hp as [Hk Hbase]. destruct (segs_rep_part _ _ _ _ _ _ (tr_segs _ _ _ Ht) Hk) as (s & Hs & Hr).
    rewrite Hs. eexists. split; [done|]. intros i Hi. rewrite Z.add_0_l in Hr.
    pose proof (sr_base _ _ _ _ Hr) as Hsb. pose proof (sr_count _ _ _ _ Hr) as Hsc.
    destruct (segs_rep_bases _ _ _ _ _ _ (tr_segs _ _ _ Ht) Hs) as (_ & _ & Hend & _).
    rewrite (proj2 (Z.leb_gt _ _)) by lia. pose proof (zlen_nonneg wb).
    rewrite (deleted_at _ _ _ _ k s _ (tr_segs _ _ _ Ht)); [f_equal; lia|lia|lia|]. split; [done|lia].
  - destruct Hp as [-> ->]. eexists. split; [done|]. intros i Hi. rewrite (proj2 (Z.leb_le _ _)) by lia. f_equal. lia.
Qed.

(** What the zone maps leave of a part: ranges that cover every row with a value of the range. *)
Definition survives (schema : Schema) (rows : list row) (rs : list (Z * Z)) : Prop :=
  ranges_in 0 rs (zlen rows) /\ (exists keep, ranges_ids rs = List.filter keep (zrange 0 (zlen rows)) /\
    (range = None -> forall i, keep i = true) /\
    forall i r, 0 <= i -> rows !! Z.to_nat i = Some r -> row_in_range schema range r -> keep i = true).

Lemma range_survivors_ok t seg base rows : table_rep t sealed wb -> part sealed wb seg base rows ->
  range_ok (schema_ t) range ->
  exists rs t', range_survivors t range seg (zlen rows) = Some (Ok rs, t') /\ table_rep t' sealed wb /\ same_table t t' /\
    survives (schema_ t) rows rs.
Proof using Hmax.
  intros Ht Hp Hrange. pose proof (part_window _ _ _ _ _ Hp) as (Hb & Htot & _). pose proof (zlen_nonneg rows) as H0.
  unfold range_survivors, survives. destruct range as [r|].
  2: { eexists _, t. split; [done|]. split; [done|]. split; [apply same_table_refl|].
       destruct (Z.ltb_spec 0 (zlen rows)) as [Hlt|Hge].
       - split; [simpl; lia|]. exists (fun _ => true). cbn [ranges_ids flat_map]. rewrite app_nil_r, Z.sub_0_r.
         split; [|done]. symmetry. by apply filter_keep.
       - split; [simpl; lia|]. exists (fun _ => true). split; [|done]. by rewrite zrange_nil by lia. }
  destruct Hrange as (col & Hcol & Hbm). destruct (part_columns _ _ t seg base rows Ht Hp) as (cols & Hcols & Hr).
  pose proof (lookup_lt_Some _ _ _ Hcol) as Hi.
  destruct (rows_rep_column _ _ _ _ Hr Hi) as (cf & col' & Hcf & Hcol' & (Hf & Hty & _)).
  rewrite Hcol in Hcol'. injection Hcol' as <-.
  assert (Hec : entry_column t seg (sr_col_idx r) = Some cf) by (unfold entry_column; by rewrite Hcols).
  rewrite Hec. set (vals := column_of (sr_col_idx r) rows) in *.
  assert (Hlen : zlen vals = zlen rows) by (unfold vals, column_of, zlen; by rewrite length_map).
  unfold scan, page_count. pose proof (fr_id _ _ Hf) as Hid. rewrite (fr_next _ _ Hf). rewrite <- Hty in Hbm.
  destruct (scan_pages_rep (visit_page r (type_ cf)) (Z.to_nat (current_page_id_ cf + 1)) 0 (Some (0, [])) cf vals Hf)
    as (pls & cf' & Hsc & Hf' & _ & Hl & Hpls); [lia|lia|].
  pose proof (fr_pos _ _ Hf) as Hpos. pose proof (fr_rows _ _ Hf) as Hrows.
  destruct (visit_pages_ok (type_ cf) (nullable_ cf) (max_len_ cf) (capacity_ cf) vals r pls Hpos) with (k := length pls)
    as (rs & Hfold & Hin & Hids); [lia|done|intros k pl Hk; apply (Hpls k pl Hk)|done|].
  rewrite take_ge in Hfold by lia. rewrite Z.min_r in Hfold, Hin, Hids by lia. rewrite Hlen in Hin, Hids.
  rewrite Hsc, Hfold. pose proof (scan_pages_pool _ _ _ _ _ _ _ Hsc) as Hpo.
  destruct (store_column_rep sealed wb t seg base rows (sr_col_idx r) cf cf' Ht Hp Hi Hec Hpo Hf') as [Ht' Hst].
  eexists rs, _. split; [done|]. split; [done|]. split; [done|]. split; [done|]. eexists. split; [exact Hids|].
  split; [done|]. intros i rw Hi0 Hrw (col' & Hcol'' & Hir). rewrite Hcol in Hcol''. injection Hcol'' as <-.
  rewrite <- Hty in Hir. unfold kept_page.
  destruct (pls !! Z.to_nat (i / capacity_ cf)) as [pl|] eqn:Hpl; [|done].
  pose proof (Hpls _ _ Hpl) as Hpr. assert (Hdiv : 0 <= i / capacity_ cf) by (apply Z.div_pos; lia).
  rewrite Z.add_0_l, Z2Nat.id in Hpr by done.
  destruct (page_overlaps_ok _ _ _ _ _ r Hpr Hbm) as (b & -> & Hskip). destruct b; [done|]. exfalso.
  apply (Hskip eq_refl (nth (sr_col_idx r) rw VNull)); [|done].
  apply (list_elem_of_lookup_2 _ (Z.to_nat (i mod capacity_ cf))). apply page_vals_lookup; [done|done|done|done|].
  unfold vals, column_of. by rewrite list_lookup_fmap, Hrw.
Qed.

(** What an entry of the plan keeps of the rows [base .. base + n - 1]. *)
Definition keeps_rows (t : Table) (base n : Z) (ids : list Z) : Prop :=
  sublist ids (live_ids t base n) /\ (range = None -> ids = live_ids t base n) /\
  forall id r, id ∈ live_ids t base n -> all_rows sealed wb !! Z.to_nat id = Some r ->
    row_in_range (schema_ t) range r -> id ∈ ids.

Lemma same_table_live t t' base n : same_table t t' -> live_ids t' base n = live_ids t base n.
Proof. intros Hs. unfold live_ids. apply List.filter_ext. intros id. by rewrite (same_table_deleted _ _ _ Hs). Qed.

Lemma filter_and {A} (f g : A -> bool) l : List.filter f (List.filter g l) = List.filter (fun x => g x && f x) l.
Proof. induction l as [|x l IH]; [done|]. simpl. destruct (g x); simpl; [destruct (f x)|]; by rewrite IH. Qed.

Lemma sublist_filter {A} (f : A -> bool) l : sublist (List.filter f l) l.
Proof. induction l as [|x l IH]; simpl; [constructor|]. destruct (f x); by constructor. Qed.

Lemma map_filter {A B} (h : A -> B) f g l : (forall x, x ∈ l -> f x = g (h x)) ->
  map h (List.filter f l) = List.filter g (map h l).
Proof.
  induction l as [|x l IH]; intros H; [done|]. simpl. rewrite (H x) by by left.
  destruct (g (h x)); simpl; rewrite IH; try done; intros y Hy; apply H; by right.
Qed.

Lemma build_entry_ok t seg base rows : table_rep t sealed wb -> part sealed wb seg base rows ->
  range_ok (schema_ t) range ->
  exists st t', build_entry t range seg base (zlen rows) = Some (Ok st, t') /\ table_rep t' sealed wb /\ same_table t t' /\
    entry_ok sealed wb st /\ keeps_rows t base (zlen rows) (entry_ids st).
Proof using Hmax.
  intros Ht Hp Hrange.
  destruct (range_survivors_ok t seg base rows Ht Hp Hrange) as (rs & t' & Hrs & Ht' & Hst & Hin & keep & Hids & Hnone & Hin_range).
  destruct (part_deleted t' seg base rows Ht' Hp) as (bm & Hbm & Hdel).
  unfold build_entry. rewrite Hrs, Hbm. set (sv := match bm with [] => rs | _ => _ end).
  assert (Hsv : ranges_in 0 sv (zlen rows) /\ ranges_ids sv = List.filter (fun i => negb (row_bit bm i)) (ranges_ids rs)).
  { unfold sv. destruct bm; [|by apply refine_survivors_ok]. split; [done|]. symmetry. apply filter_keep.
    intros i Hi. rewrite row_bit_nil; [done|]. rewrite Hids in Hi. apply list_elem_of_In, filter_In, proj1, list_elem_of_In, elem_zrange in Hi. lia. }
  destruct Hsv as [Hsin Hsids]. eexists _, t'. split; [done|]. split; [done|]. split; [done|].
  pose proof (part_window _ _ _ _ _ Hp) as (Hb & Htot & Hwin). split.
  { exists rows. split; [done|]. cbn [ss_range_idx ss_survivors ss_cur_local]. rewrite drop_0. split; [done|]. split; [done|].
    destruct sv as [|[s e] sv']; [done|]. destruct Hsin. lia. }
  assert (Hrest : entry_rest (mkSS seg base (zlen rows) sv 0 0) = ranges_ids sv).
  { unfold entry_rest. cbn [ss_range_idx ss_survivors ss_cur_local]. rewrite drop_0. destruct sv as [|[s e] sv']; [done|].
    destruct Hsin. cbv zeta. by rewrite Z.max_l by lia. }
  assert (Hlive : entry_ids (mkSS seg base (zlen rows) sv 0 0) =
    List.filter (fun id => keep (id - base)) (live_ids t base (zlen rows))).
  { unfold entry_ids, live_ids. rewrite Hrest, Hsids, Hids, !filter_and. cbn [ss_base_row_id].
    rewrite (map_filter (Z.add base) _ (fun id => negb (is_row_deleted t id) && keep (id - base))).
    - by rewrite map_add_zrange, Z.add_0_r.
    - intros i Hi%elem_zrange. rewrite <- (same_table_deleted _ _ _ Hst), Hdel by lia.
      replace (base + i - base) with i by lia. apply andb_comm. }
  unfold keeps_rows. rewrite Hlive. split; [apply sublist_filter|]. split.
  - intros Hn. apply filter_keep. intros x _. by apply Hnone.
  - intros id r Hid Hr Hrr. apply list_elem_of_In, filter_In. split; [by apply list_elem_of_In|].
    apply list_elem_of_In, filter_In, proj1, list_elem_of_In, elem_zrange in Hid.
    apply (Hin_range _ r); [lia| |done]. rewrite <- Hr.
    pose proof (lookup_slice 0 (zlen rows) rows (id - base)) as H1.
    pose proof (lookup_slice base (zlen rows) (all_rows sealed wb) (id - base)) as H2.
    rewrite Hwin, Z.add_0_r, Z.add_0_l in H1 by lia. rewrite <- H1, H2 by lia. f_equal. lia.
Qed.

(** Entries for the rows [base .. total - 1], in order. *)
Fixpoint entries_from (base total : Z) (entries : list (option nat * Z * Z)) : Prop :=
  match entries with
  | [] => base = total
  | (seg, b, count) :: entries' =>
      b = base /\ (exists rows, part sealed wb seg base rows /\ count = zlen rows) /\
      entries_from (base + count) total entries'
  end.

Lemma live_ids_app t base a b : 0 <= a -> 0 <= b -> live_ids t base (a + b) = live_ids t base a ++ live_ids t (base + a) b.
Proof. intros Ha Hb. unfold live_ids. by rewrite zrange_app, List.filter_app. Qed.

Lemma keeps_rows_app t base a b ids1 ids2 : 0 <= a -> 0 <= b -> keeps_rows t base a ids1 -> keeps_rows t (base + a) b ids2 ->
  keeps_rows t base (a + b) (ids1 ++ ids2).
Proof.
  intros Ha Hb (H1 & H2 & H3) (H4 & H5 & H6). unfold keeps_rows. rewrite live_ids_app by done.
  split; [by apply sublist_app|]. split; [intros Hn; by rewrite H2, H5 by done|].
  intros id r [Hid|Hid]%elem_of_app Hr Hrr; apply elem_of_app; [left|right]; eauto.
Qed.

Lemma keeps_rows_same t t' base n ids : same_table t t' -> keeps_rows t' base n ids -> keeps_rows t base n ids.
Proof.
  intros Hs. unfold keeps_rows. by rewrite (same_table_live _ _ _ _ Hs), (st_schema _ _ Hs).
Qed.

Lemma entries_from_le entries total : forall base, entries_from base total entries -> base <= total.
Proof.
  induction entries as [|[[seg b] c] entries IH]; simpl; intros base; [lia|].
  intros (_ & (rows & _ & ->) & H%IH). pose proof (zlen_nonneg rows). lia.
Qed.

Lemma open_entries_ok ts total entries : forall base t plan, entries_from base total entries -> table_rep t sealed wb ->
  ts_range ts = range -> range_ok (schema_ t) range ->
  exists sts t', open_entries ts t entries plan = Some (Ok tt, with_plan ts t' (plan ++ sts) true) /\
    table_rep t' sealed wb /\ same_table t t' /\ Forall (entry_ok sealed wb) sts /\
    keeps_rows t base (total - base) (flat_map entry_ids sts).
Proof using Hmax.
  induction entries as [|[[seg b] c] entries IH]; intros base t plan He Ht Hr Hrange; cbn [open_entries].
  { simpl in He. subst total. exists [], t. rewrite app_nil_r, Z.sub_diag. split; [done|]. split; [done|].
    split; [apply same_table_refl|]. split; [constructor|]. unfold keeps_rows, live_ids. rewrite zrange_nil by lia.
    split; [constructor|]. split; [done|]. intros id r Hid. by apply elem_of_nil in Hid. }
  destruct He as (-> & (rows & Hp & ->) & He). rewrite Hr.
  destruct (build_entry_ok t seg base rows Ht Hp Hrange) as (st & t1 & -> & Ht1 & Hs1 & Hok & Hk).
  destruct (IH (base + zlen rows) t1 (plan ++ [st]) He Ht1 Hr) as (sts & t' & Ho & Ht' & Hs' & Hoks & Hks).
  { by rewrite (st_schema _ _ Hs1). }
  exists (st :: sts), t'. rewrite Ho, <- app_assoc. split; [done|]. split; [done|].
  split; [by eapply same_table_trans|]. split; [by constructor|]. cbn [flat_map].
  pose proof (entries_from_le _ _ _ He). pose proof (zlen_nonneg rows).
  replace (total - base) with (zlen rows + (total - (base + zlen rows))) by lia.
  apply keeps_rows_app; [lia|lia|done|]. by eapply keeps_rows_same.
Qed.

Lemma entries_segments t segs rowss : forall base pre, segs_rep (schema_ t) base segs rowss -> sealed = pre ++ rowss ->
  base = zlen (concat pre) -> entries_from base (zlen (all_rows sealed wb))
    (imap (fun i s => (Some (length pre + i)%nat, base_row_id (seg_meta s), seg_row_count (seg_meta s))) segs ++
     [(None, zlen (concat sealed), zlen wb)]).
Proof.
  intros base pre H. revert pre. induction H as [base|base s segs rows rest Hs Hss IH]; intros pre Hsp Hb.
  - rewrite app_nil_r in Hsp. rewrite Hb, <- Hsp. simpl. split; [done|]. split; [exists wb; done|].
    unfold all_rows. by rewrite zlen_app.
  - rewrite imap_cons. cbn [app entries_from]. rewrite (sr_base _ _ _ _ Hs), (sr_count _ _ _ _ Hs), Nat.add_0_r.
    split; [done|]. split.
    + exists rows. split; [|done]. cbn [part]. rewrite Hsp. split; [by apply list_lookup_middle|]. by rewrite take_app_length.
    + specialize (IH (pre ++ [rows])). rewrite <- app_assoc, concat_snoc, zlen_app, <- Hb in IH.
      specialize (IH Hsp eq_refl). erewrite imap_ext; [exact IH|].
      intros i x _. cbn. rewrite length_app. simpl. do 3 f_equal. lia.
Qed.

Lemma scan_entries_ok t : table_rep t sealed wb -> entries_from 0 (zlen (all_rows sealed wb)) (scan_entries t).
Proof using Hmax.
  intros Ht. unfold scan_entries. rewrite (tr_base _ _ _ Ht), (wb_rows_rep t sealed wb Ht Hmax).
  apply (entries_segments t (segments_ t) sealed 0 []); [apply (tr_segs _ _ _ Ht)|done|done].
Qed.

(** A whole scan: construction, [open] and [next] until the end. *)
Lemma table_scan_ok t projected : table_rep t sealed wb -> Forall (in_schema (schema_ t)) projected ->
  range_ok (schema_ t) range ->
  exists ts ts1 l ts2, table_scan_new t projected range = Some ts /\ table_scan_open ts = Some (Ok tt, ts1) /\
    scan_runs ts1 l ts2 /\ table_rep (ts_table ts2) sealed wb /\ same_table t (ts_table ts2) /\
    Forall (chunk_of_rows sealed wb t projected) l /\ keeps_rows t 0 (zlen (all_rows sealed wb)) (trace_ids l).
Proof using Hmax.
  intros Ht Hproj Hrange.
  set (ts0 := mkTS t projected range (omap (fun idx => schema_ t !! idx) projected) [] 0 0 false).
  assert (Hnew : table_scan_new t projected range = Some ts0).
  { unfold table_scan_new. rewrite (rows_rep_length _ _ _ (tr_wb _ _ _ Ht)).
    assert (forallb (fun idx => (idx <? length (schema_ t))%nat) projected = true) as ->.
    { apply forallb_forall. intros i Hi. apply Nat.ltb_lt. rewrite List.Forall_forall in Hproj. by apply Hproj. }
    destruct range as [r|]; [|done]. destruct Hrange as (col & -> & H1 & H2). by rewrite H1, H2. }
  destruct (open_entries_ok ts0 _ (scan_entries t) 0 t [] (scan_entries_ok t Ht) Ht
    eq_refl Hrange) as (sts & t1 & Ho & Ht1 & Hs1 & Hoks & Hk). rewrite Z.sub_0_r in Hk.
  set (ts1 := with_plan ts0 t1 ([] ++ sts) true) in *.
  destruct (scan_runs_ok sealed wb t projected Hmax Hproj (length (scan_rest ts1)) ts1) as (l & ts2 & Hrun & Hr2 & Hs2 & Hids & Hall);
    [done|by split|].
  eexists _, ts1, l, ts2. split; [done|]. split; [done|]. split; [done|]. split; [done|]. split; [done|].
  split; [done|]. rewrite Hids. exact Hk.
Qed.
End open.

(** ** Properties *)

(** The rows of the abstract table that are not deleted, in the order of the row ids. *)
Definition live_rows (a : Spec.t) : list row :=
  omap (fun id => if bool_decide (id ∈ Spec.deleted a) then None else Spec.rows a !! Z.to_nat id)
    (zrange 0 (zlen (Spec.rows a))).

Lemma omap_app {A B} (f : A -> option B) l k : omap f (l ++ k) = omap f l ++ omap f k.
Proof. induction l as [|x l IH]; [done|]. cbn. destruct (f x); cbn; [f_equal|]; exact IH. Qed.

(** A window of a list by its indices. *)
Lemma slice_omap {A} (l : list A) s n : 0 <= s -> slice s n l = omap (fun id => l !! Z.to_nat id) (zrange s n).
Proof.
  intros Hs. destruct (decide (n <= 0)) as [Hn|Hn].
  { rewrite zrange_nil by done. unfold slice. by replace (Z.to_nat n) with 0%nat by lia. }
  replace n with (Z.of_nat (Z.to_nat n)) by lia. clear Hn. induction (Z.to_nat n) as [|m IH]; [done|].
  replace (Z.of_nat (S m)) with (Z.of_nat m + 1) by lia. rewrite zrange_app, omap_app, <- IH by lia.
  change (zrange (s + Z.of_nat m) 1) with [s + Z.of_nat m + 0]. rewrite Z.add_0_r. cbn [omap list_omap].
  destruct (l !! Z.to_nat (s + Z.of_nat m)) as [x|] eqn:Hx; [apply slice_snoc; [lia|lia|done]|].
  apply lookup_ge_None_1 in Hx. rewrite app_nil_r. unfold slice. rewrite !take_ge; [done|..]; rewrite length_drop; lia.
Qed.

Lemma omap_filter {A B} (f : A -> option B) (g : A -> bool) l :
  omap f (List.filter g l) = omap (fun x => if g x then f x else None) l.
Proof.
  induction l as [|x l IH]; [done|]. cbn. destruct (g x); cbn; [|exact IH]. destruct (f x); cbn; [f_equal|]; exact IH.
Qed.

(** The rows of the chunks are those of their row ids. *)
Lemma trace_rows sealed wb t projected l : Forall (chunk_of_rows sealed wb t projected) l ->
  (forall id, id ∈ trace_ids l -> 0 <= id) ->
  rows_of (map snd l) = map (scan_row projected) (omap (fun id => all_rows sealed wb !! Z.to_nat id) (trace_ids l)).
Proof.
  induction 1 as [|[s c] l [Hg Hr] _ IH]; intros Hpos; [done|]. cbn [map rows_of flat_map snd fst trace_ids] in *.
  rewrite omap_app, map_app. f_equal.
  - rewrite Hr. f_equal. destruct (decide (0 < ck_row_count c)) as [Hn|Hn].
    + apply slice_omap. apply Hpos. apply elem_of_app. left. apply elem_zrange. lia.
    + rewrite zrange_nil by lia. unfold slice. by replace (Z.to_nat (ck_row_count c)) with 0%nat by lia.
  - apply IH. intros id Hid. apply Hpos. apply elem_of_app. by right.
Qed.

Lemma scan_runs_executes ts l ts' fuel : scan_runs ts l ts' -> runs fuel ts (map snd l) None.
Proof. induction 1; cbn [map snd]; [by eapply runs_end|by eapply runs_chunk]. Qed.

Lemma live_ids_spec t a : refines t a -> live_ids t 0 (zlen (Spec.rows a)) =
  List.filter (fun id => negb (bool_decide (id ∈ Spec.deleted a))) (zrange 0 (zlen (Spec.rows a))).
Proof.
  intros (sealed & wb & _ & _ & Hdel). unfold live_ids. apply filter_ext_in. intros id Hid.
  apply list_elem_of_In, elem_zrange in Hid. by rewrite Hdel by lia.
Qed.

Lemma in_bounds_max a : in_bounds a -> zlen (Spec.rows a) < 2 ^ 63.
Proof. unfold in_bounds. lia. Qed.

(** C12. Scanning a table without a range: whatever its history, [open] and [next] until the end
    give chunks of the projected columns whose rows are exactly the rows that were inserted and
    not deleted, once each and in the order of their row ids, across all sealed segments and the
    write buffer; there is no error and no out-of-bounds access. *)
Theorem full_scan_correct t a projected fuel :
  refines t a -> in_bounds a -> Forall (in_schema (schema_ t)) projected ->
  exists ts cs, table_scan_new t projected None = Some ts /\ executes fuel ts cs None /\
    Forall (chunk_good (scan_signature (schema_ t) projected)) cs /\
    rows_of cs = map (scan_row projected) (live_rows a).
Proof.
  intros Href Hb%in_bounds_max Hproj. pose proof (live_ids_spec t a Href) as Hlive.
  destruct Href as (sealed & wb & Ht & Hrows & Hdel). rewrite <- Hrows in Hb.
  destruct (table_scan_ok sealed wb None Hb t projected Ht Hproj I) as
    (ts & ts1 & l & ts2 & Hnew & Hopen & Hrun & _ & _ & Hall & (_ & Hids & _)).
  specialize (Hids eq_refl). rewrite Hrows, Hlive in Hids.
  exists ts, (map snd l). split; [done|]. split; [exists ts1; split; [done|by eapply scan_runs_executes]|].
  split.
  - apply Forall_map. eapply Forall_impl; [exact Hall|]. by intros [s c] [].
  - rewrite (trace_rows _ _ _ _ _ Hall), Hids, Hrows, omap_filter.
    + f_equal. apply list_omap_ext, Forall_Forall2_diag, Forall_forall. intros id _. by destruct (bool_decide _).
    + intros id. rewrite Hids. intros Hid%list_elem_of_In%filter_In%proj1%list_elem_of_In%elem_zrange. lia.
Qed.

Lemma full_scan_correct_witness :
  exists ts cs, table_scan_new two_rows [0%nat] None = Some ts /\ executes 1 ts cs None /\
    rows_of cs = [[VI32 1]; [VI32 2]].
Proof.
  destruct (full_scan_correct two_rows (Spec.mk [[VI32 1]; [VI32 2]] ∅) [0%nat] 1) as (ts & cs & Hn & He & _ & Hr).
  - exact two_rows_refines.
  - reflexivity.
  - rewrite two_rows_schema. repeat constructor.
  - exists ts, cs. split; [exact Hn|]. split; [exact He|]. rewrite Hr. reflexivity.
Defined.

(** C13. Scanning with a range on a column, pruned by the zone maps of its pages: the rows that come
    out are live rows in the order of their row ids, none twice; every live row whose value lies in
    the range is among them (rows outside it may be, and are left to the filter above the scan);
    the rows of a chunk are those of the consecutive row ids from [last_chunk_physical_start] on;
    and the table holds the same rows and marks afterwards. *)
Theorem range_scan_correct t a projected range :
  refines t a -> in_bounds a -> Forall (in_schema (schema_ t)) projected -> range_ok (schema_ t) range ->
  exists ts ts1 l ts2, table_scan_new t projected range = Some ts /\ op_open ts = Some (Ok tt, ts1) /\
    scan_runs ts1 l ts2 /\ refines (ts_table ts2) a /\
    sublist (trace_ids l) (List.filter (fun id => negb (bool_decide (id ∈ Spec.deleted a))) (zrange 0 (zlen (Spec.rows a)))) /\
    (forall id r, 0 <= id -> Spec.rows a !! Z.to_nat id = Some r -> id ∉ Spec.deleted a ->
       row_in_range (schema_ t) range r -> id ∈ trace_ids l) /\
    Forall (fun '(start, c) =>
      chunk_rows c = map (scan_row projected) (slice start (ck_row_count c) (Spec.rows a))) l.
Proof.
  intros Href Hb%in_bounds_max Hproj Hrange. pose proof (live_ids_spec t a Href) as Hlive.
  destruct Href as (sealed & wb & Ht & Hrows & Hdel). rewrite <- Hrows in Hb.
  destruct (table_scan_ok sealed wb range Hb t projected Ht Hproj Hrange) as
    (ts & ts1 & l & ts2 & Hnew & Hopen & Hrun & Ht2 & Hs2 & Hall & (Hsub & _ & Hcomp)).
  rewrite Hrows, Hlive in Hsub, Hcomp. exists ts, ts1, l, ts2.
  split; [done|]. split; [done|]. split; [done|]. split; [|split; [done|]; split].
  - exists sealed, wb. split; [done|]. split; [done|]. intros gid Hg. by rewrite (same_table_deleted _ _ _ Hs2), Hdel.
  - intros id r Hid Hr Hnd. apply (Hcomp id r); [|done].
    apply list_elem_of_In, filter_In. split; [|by rewrite bool_decide_false].
    apply list_elem_of_In, elem_zrange. pose proof (lookup_lt_Some _ _ _ Hr). unfold zlen. lia.
  - eapply Forall_impl; [exact Hall|]. intros [s c] [_ Hc]. cbn [fst snd] in Hc. by rewrite <- Hrows.
Qed.

Lemma range_scan_correct_witness :
  exists ts ts1 l ts2, table_scan_new two_rows [0%nat] (Some (mkScanRange 0 (Some (VI32 2)) None)) = Some ts /\
    op_open ts = Some (Ok tt, ts1) /\ scan_runs ts1 l ts2 /\ 1 ∈ trace_ids l.
Proof.
  destruct (range_scan_correct two_rows (Spec.mk [[VI32 1]; [VI32 2]] ∅) [0%nat]
    (Some (mkScanRange 0 (Some (VI32 2)) None))) as (ts & ts1 & l & ts2 & Hn & Ho & Hr & _ & _ & Hc & _).
  - exact two_rows_refines.
  - reflexivity.
  - rewrite two_rows_schema. repeat constructor.
  - rewrite two_rows_schema. eexists. split; [reflexivity|]. split; reflexivity.
  - exists ts, ts1, l, ts2. split; [exact Hn|]. split; [exact Ho|]. split; [exact Hr|].
    apply (Hc 1 [VI32 2]); [lia|reflexivity|apply not_elem_of_empty|].
    rewrite two_rows_schema. eexists. split; [reflexivity|]. exists 2. split; [reflexivity|]. split; [|discriminate].
    intros l0 y Hl Hy. injection Hl as <-. injection Hy as <-. reflexivity.
Defined.
