(* ===== verification/IndexScan.v ===== *)
(** * Index scans

    [IndexScan] (src/src/executor/index_scan.h, index_scan.cpp): [open] collects the row ids in a
    key range from the B+ tree ([index_scan_open]), [next] reads the rows one by one from the
    column files of the table.  The rows are right as long as the table has no sealed segment;
    [table_->column(i)] is the column of the write buffer, indexed by the ids of the whole table. *)

From S2P Require Import Prelude Types XXHash Page LruK BufferPool ColumnPage ColumnFile Codec SchemaFile Table.
From S2P Require Import IndexFile BTreeNode BTree BTreeSpec.
From S2P Require Import SelectionVector ColumnVector Chunk Expression Operator TableScan ScanRanges ScanRead ScanStream ScanOpen.

Record IndexScan : Type := mkIS {
  is_table : Table;
  is_index : IndexFile;
  is_projected : list nat;
  is_output_schema : Schema;
  is_lo : option Bound;
  is_hi : option Bound;
  is_row_ids : list Z;
  is_cur : nat
}.

(** [table_->schema()[ci]] is undefined for an index past the end. *)
Definition index_scan_new (t : Table) (f : IndexFile) (projected : list nat) (lo hi : option Bound) : option IndexScan :=
  let! schema := mapM (fun ci => schema_ t !! ci) projected in
  Some (mkIS t f projected schema lo hi [] 0).

(** [Result::value()]: [None] is the exception for an error. *)
Definition result_value {A} (r : result A) : option A := match r with Ok x => Some x | Err _ => None end.

Definition append_from_column (cv : ColumnVector) (cf : ColumnFile) (row_id : Z) : option (ColumnVector * ColumnFile) :=
  let! (null, cf) := if nullable_ cf then cf_is_null cf row_id else Some (false, cf) in
  if (null : bool) then let! cv := cv_append_null cv in Some (cv, cf)
  else
    match type_ cf with
    | INT32 => let! (r, cf) := cf_get_i32 cf row_id in let! x := result_value r in let! cv := cv_append_i32 cv x in Some (cv, cf)
    | INT64 => let! (r, cf) := cf_get_i64 cf row_id in let! x := result_value r in let! cv := cv_append_i64 cv x in Some (cv, cf)
    | DOUBLE => let! (r, cf) := cf_get_f64 cf row_id in let! x := result_value r in let! cv := cv_append_f64 cv x in Some (cv, cf)
    | VARCHAR => let! (s, cf) := cf_get_str cf row_id in let! cv := cv_append_str cv s in Some (cv, cf)
    | BOOL => let! (r, cf) := cf_get_bool cf row_id in let! x := result_value r in let! cv := cv_append_bool cv x in Some (cv, cf)
    | DATE => let! (r, cf) := cf_get_date cf row_id in let! x := result_value r in let! cv := cv_append_date cv x in Some (cv, cf)
    | TIMESTAMP =>
        let! (r, cf) := cf_get_timestamp cf row_id in let! x := result_value r in let! cv := cv_append_timestamp cv x in Some (cv, cf)
    | _ => Some (cv, cf)
    end.

Definition index_scan_with (s : IndexScan) (t : Table) (f : IndexFile) (row_ids : list Z) (cur : nat) : IndexScan :=
  mkIS t f (is_projected s) (is_output_schema s) (is_lo s) (is_hi s) row_ids cur.

(** The result of [range_scan] is ignored. *)
Definition index_op_open (s : IndexScan) : option (result unit * IndexScan) :=
  let! (r, f) := index_scan_open (is_lo s) (is_hi s) (wb_deleted_ (is_table s)) (is_index s) in
  let ids := match r with Ok ids => ids | Err _ => [] end in
  Some (Ok tt, index_scan_with s (is_table s) f (is_row_ids s ++ ids) (is_cur s)).

Definition empty_col (t : Table) (ci : nat) : option ColumnVector :=
  let! cf := wb_columns_ t !! ci in Some (cv_empty (type_ cf) (nullable_ cf)).

(** [for (k < projected.size()) append_from_column(cols[k], table_->column(projected[k]), row_id)] *)
Fixpoint append_row (t : Table) (projected : list nat) (cols : list ColumnVector) (row_id : Z)
    : option (list ColumnVector * Table) :=
  match projected, cols with
  | ci :: projected', cv :: cols' =>
      let! cf := wb_columns_ t !! ci in
      let! (cv, cf) := append_from_column cv cf row_id in
      let! (cvs, t) := append_row (store_column t None ci cf) projected' cols' row_id in
      Some (cv :: cvs, t)
  | _, _ => Some ([], t)
  end.

Definition append_rows (projected : list nat) (ids : list Z) (st : list ColumnVector * Table)
    : option (list ColumnVector * Table) :=
  each ids (fun row_id '(cols, t) => append_row t projected cols row_id) st.

Definition index_op_next (s : IndexScan) : option (result (option Chunk) * IndexScan) :=
  if (length (is_row_ids s) <=? is_cur s)%nat then Some (Ok None, s)
  else
    let count := Nat.min (Z.to_nat CHUNK_SIZE) (length (is_row_ids s) - is_cur s) in
    let! cols := mapM (empty_col (is_table s)) (is_projected s) in
    let! (cols, t) := append_rows (is_projected s) (take count (drop (is_cur s) (is_row_ids s))) (cols, is_table s) in
    let! c := chunk_new (Z.of_nat count) cols in
    Some (Ok (Some c), index_scan_with s t (is_index s) (is_row_ids s) (is_cur s + count)).

#[export] Instance IndexScan_Operator : Operator IndexScan :=
  {| op_open := index_op_open; op_next := fun _ => index_op_next; op_close := fun s => s |}.

(** ** Reading a row *)

Section read.
Context (cf : ColumnFile) (vals : list Value) (j : Z) (v : Value).
Hypothesis Hrep : file_rep cf vals.
Hypothesis Hj : 0 <= j.
Hypothesis Hv : vals !! Z.to_nat j = Some v.

(** The page of the row, seen through the buffer pool. *)
Lemma read_row_page {A} (f : bytes -> Z -> A) :
  exists pl cf', reads_as pl (j mod capacity_ cf) v /\ file_rep cf' vals /\ pool_only cf cf' /\
    value_fits (type_ cf) (nullable_ cf) (max_len_ cf) v /\
    capacity_ cf =? 0 = false /\ page_count (disk_ cf) <=? j / capacity_ cf = false /\
    with_page cf (j / capacity_ cf) (fun p => f (payload p) (wrap 16 (j mod capacity_ cf))) =
      Some (Ok (f pl (j mod capacity_ cf)), cf').
Proof using Hrep Hj Hv.
  destruct (row_page cf vals j v Hrep Hj Hv) as (Hp & Hc & Hw & Hl). rewrite Hw.
  destruct (with_page_rep cf vals _ (fun p => f (payload p) (j mod capacity_ cf)) Hrep Hp)
    as (pg & cf' & Hwp & Hr & _ & _ & Hpr).
  exists (payload pg), cf'. pose proof (fr_pos _ _ Hrep). pose proof (Z.mod_pos_bound j (capacity_ cf)).
  split; [rewrite <- (Z2Nat.id (j mod capacity_ cf)) by lia; by eapply reads_rep|]. split; [exact Hr|].
  split; [by eapply with_page_pool|]. split; [by eapply Forall_lookup_1; [apply (pr_fits _ _ _ _ _ Hpr)|]|].
  split; [by apply Z.eqb_neq|]. split; [|exact Hwp].
  apply Z.leb_gt. unfold page_count. rewrite (fr_next _ _ Hrep). lia.
Qed.

Lemma is_null_row : exists cf', cf_is_null cf j = Some (is_null v, cf') /\ file_rep cf' vals /\ pool_only cf cf'.
Proof using Hrep Hj Hv.
  destruct (read_row_page cp_is_null) as (pl & cf' & [Hn _] & Hf & Hp & _ & Hc & Hpc & Hw).
  exists cf'. unfold cf_is_null. by rewrite Hc, Hpc, Hw, Hn.
Qed.

Lemma get_row_page : is_null v = false -> exists cf', cf_reads_as cf j v cf' /\ file_rep cf' vals /\ pool_only cf cf'.
Proof using Hrep Hj Hv.
  intros Hnn. pose proof (fun A f => @read_row_page A f) as Hread.
  destruct v; try done; simpl; unfold cf_get_i32, cf_get_i64, cf_get_f64, cf_get_bool, cf_get_date,
    cf_get_timestamp, cf_get_typed, cf_get_str.
  1: destruct (Hread _ get_i32) as (pl & cf' & [_ Hg] & Hf & Hp & _ & Hc & _ & Hw).
  2: destruct (Hread _ get_i64) as (pl & cf' & [_ Hg] & Hf & Hp & _ & Hc & _ & Hw).
  3: destruct (Hread _ get_f64) as (pl & cf' & [_ Hg] & Hf & Hp & _ & Hc & _ & Hw).
  4: destruct (Hread _ get_str) as (pl & cf' & [_ Hg] & Hf & Hp & _ & Hc & _ & Hw).
  5: destruct (Hread _ get_bool) as (pl & cf' & [_ Hg] & Hf & Hp & _ & Hc & _ & Hw).
  6: destruct (Hread _ get_date) as (pl & cf' & [_ Hg] & Hf & Hp & _ & Hc & _ & Hw).
  7: destruct (Hread _ get_timestamp) as (pl & cf' & [_ Hg] & Hf & Hp & _ & Hc & _ & Hw).
  all: exists cf'; rewrite Hc, Hw, Hg; done.
Qed.

Lemma row_value_fits : value_fits (type_ cf) (nullable_ cf) (max_len_ cf) v.
Proof using Hrep Hj Hv. by destruct (read_row_page (fun _ _ => tt)) as (pl & cf' & _ & _ & _ & H & _). Qed.
End read.

Lemma append_from_column_ok cf vals j v cv : file_rep cf vals -> 0 <= j -> vals !! Z.to_nat j = Some v ->
  cv_wf cv -> cv_clean cv -> cv_type cv = type_ cf -> cv_nullable cv = nullable_ cf ->
  exists cv' cf', append_from_column cv cf j = Some (cv', cf') /\ appended cv cv' v /\ file_rep cf' vals /\ pool_only cf cf'.
Proof.
  intros Hrep Hj Hv Hwf Hcl Ht Hn. pose proof (row_value_fits cf vals j v Hrep Hj Hv) as Hfit.
  assert (Hnull : exists cf1, (if nullable_ cf then cf_is_null cf j else Some (false, cf)) = Some (is_null v, cf1) /\
    file_rep cf1 vals /\ pool_only cf cf1).
  { destruct (nullable_ cf) eqn:En; [by apply is_null_row|]. exists cf. split; [by destruct v|]. split; [done|apply pool_only_refl]. }
  destruct Hnull as (cf1 & Hq & Hf1 & Hp1). unfold append_from_column. rewrite Hq.
  destruct (is_null v) eqn:Hvn.
  { destruct v; try done. simpl in Hfit. destruct (cv_append_null_ok cv Hwf Hcl) as (cv' & -> & Ha); [congruence|].
    by exists cv', cf1. }
  destruct (get_row_page cf1 vals j v Hf1 Hj Hv Hvn) as (cf2 & Hr & Hf2 & Hp2).
  assert (Hvv : vec_value (cv_type cv) v /\ type_ cf1 = variant_type v).
  { destruct Hp1 as [pool ->]. cbn [type_ set_pool]. rewrite Ht. destruct v; try done; simpl in Hfit; destruct Hfit; by (split; [right|]). }
  destruct Hvv as [Hvv ->]. destruct (cv_append_value_ok cv v Hwf Hcl Hvv) as (cv' & Ha & Happ); [by intros ->|].
  exists cv', cf2. split; [|split; [done|]; split; [done|by eapply pool_only_trans]].
  destruct v; try done; simpl in Hr, Ha |- *; by rewrite Hr; cbn; rewrite Ha.
Qed.

(** ** Building a chunk *)

Section rows.
Context (wb : list (list Value)) (schema : Schema) (projected : list nat).
Hypothesis Hproj : Forall (in_schema schema) projected.

(** The rows with the given ids. *)
Definition rows_at (ids : list Z) : list (list Value) := map (fun id => nth (Z.to_nat id) wb []) ids.

(** Column [i] of the rows appended so far. *)
Definition col_inv (ids : list Z) (i : nat) (cv : ColumnVector) : Prop :=
  cv_wf cv /\ cv_clean cv /\ cv_size cv = zlen ids /\ cv_values cv = column_of i (rows_at ids) /\
  forall col, schema !! i = Some col -> cv_type cv = col_type col /\ cv_nullable cv = col_nullable col.

Lemma append_row_ok ids id : 0 <= id < zlen wb -> forall ps cols t, table_rep t [] wb -> schema_ t = schema ->
  Forall (in_schema schema) ps -> Forall2 (col_inv ids) ps cols ->
  exists cols' t', append_row t ps cols id = Some (cols', t') /\ table_rep t' [] wb /\ same_table t t' /\
    Forall2 (col_inv (ids ++ [id])) ps cols'.
Proof using.
  intros Hid. destruct (lookup_lt_is_Some_2 wb (Z.to_nat id)) as [r Hr]; [unfold zlen in Hid; lia|].
  induction ps as [|i ps IH]; intros cols t Ht Hs Hin Hc.
  { inversion Hc; subst. exists [], t. split; [done|]. split; [done|]. split; [apply same_table_refl|constructor]. }
  apply Forall_cons in Hin as [Hi Hin]. apply Forall2_cons_inv_l in Hc as (cv & cols0 & (Hwf & Hcl & Hsz & Hv & Hty) & Hrest & ->).
  pose proof (tr_wb _ _ _ Ht) as Hwb. rewrite Hs in Hwb.
  destruct (rows_rep_column _ _ _ i Hwb Hi) as (cf & col & Hcf & Hcol & (Hf & Htc & Hnc & _)).
  destruct (Hty col Hcol) as [Ht1 Hn1].
  assert (Hval : column_of i wb !! Z.to_nat id = Some (nth i r VNull)) by (unfold column_of; by rewrite list_lookup_fmap, Hr).
  destruct (append_from_column_ok cf (column_of i wb) id _ cv Hf ltac:(lia) Hval Hwf Hcl) as (cv' & cf' & Ha & Happ & Hf' & Hpo);
    [congruence|congruence|].
  destruct (store_column_rep [] wb t None 0 wb i cf cf' Ht) as [Ht' Hst]; [done|by rewrite Hs|exact Hcf|done|done|].
  destruct (IH cols0 (store_column t None i cf') Ht') as (cols' & t' & Hrun & Ht'' & Hst' & Hinv);
    [by rewrite (st_schema _ _ Hst)|done|done|].
  exists (cv' :: cols'), t'. cbn [append_row]. rewrite Hcf, Ha, Hrun. split; [done|]. split; [done|].
  split; [by eapply same_table_trans|]. constructor; [|done]. destruct Happ as [Hw' Hc' [Ht2 Hn2] Hs' Hv'].
  split; [done|]. split; [done|]. split; [rewrite Hs', Hsz; unfold zlen; rewrite length_app; simpl; lia|]. split.
  - rewrite Hv', Hv. unfold rows_at, column_of. rewrite !map_app. cbn [map]. by rewrite (nth_lookup_Some _ _ _ _ Hr).
  - intros c Hc0. rewrite Ht2, Hn2. by apply Hty.
Qed.

Lemma append_rows_ok new : Forall (fun id => 0 <= id < zlen wb) new -> forall ids cols t, table_rep t [] wb ->
  schema_ t = schema -> Forall2 (col_inv ids) projected cols ->
  exists cols' t', append_rows projected new (cols, t) = Some (cols', t') /\ table_rep t' [] wb /\ same_table t t' /\
    Forall2 (col_inv (ids ++ new)) projected cols'.
Proof using Hproj.
  induction 1 as [|id new Hid _ IH]; intros ids cols0 t Ht Hs Hc.
  { exists cols0, t. rewrite app_nil_r. split; [done|]. split; [done|]. split; [apply same_table_refl|done]. }
  destruct (append_row_ok ids id Hid projected cols0 t Ht Hs Hproj Hc) as (cols1 & t1 & H1 & Ht1 & Hst1 & Hc1).
  destruct (IH (ids ++ [id]) cols1 t1 Ht1) as (cols' & t' & H2 & Ht2 & Hst2 & Hc2); [by rewrite (st_schema _ _ Hst1)|done|].
  exists cols', t'. unfold append_rows in *. cbn [each]. rewrite H1. split; [done|]. split; [done|].
  split; [by eapply same_table_trans|]. by rewrite <- app_assoc in Hc2.
Qed.

Lemma empty_cols_ok t ps : table_rep t [] wb -> schema_ t = schema -> Forall (in_schema schema) ps ->
  exists cols, mapM (empty_col t) ps = Some cols /\ Forall2 (col_inv []) ps cols.
Proof using.
  intros Ht Hs. induction 1 as [|i ps Hi _ IH]; [exists []; by split|].
  destruct IH as (cols & Hm & Hc).
  pose proof (tr_wb _ _ _ Ht) as Hwb. rewrite Hs in Hwb.
  destruct (rows_rep_column _ _ _ i Hwb Hi) as (cf & col & Hcf & Hcol & (Hf & Htc & Hnc & _)).
  pose proof (stored_type (type_ cf) (nullable_ cf) (max_len_ cf)) as Hvec.
  rewrite <- (fr_cap _ _ Hf) in Hvec. specialize (Hvec (fr_pos _ _ Hf)).
  destruct (cv_empty_wf (type_ cf) (nullable_ cf) Hvec) as (H1 & H2 & H3).
  exists (cv_empty (type_ cf) (nullable_ cf) :: cols). split.
  - assert (He : empty_col t i = Some (cv_empty (type_ cf) (nullable_ cf))) by (unfold empty_col; by rewrite Hcf).
    change (mapM (empty_col t) (i :: ps)) with (y ← empty_col t i; k ← mapM (empty_col t) ps; mret (y :: k)).
    by rewrite He, Hm.
  - constructor; [|done]. split; [done|]. split; [done|]. split; [done|]. split; [done|].
    intros c Hc0. rewrite Hcol in Hc0. by injection Hc0 as <-.
Qed.

Lemma col_inv_ok ids cols : Forall2 (col_inv ids) projected cols ->
  Forall2 (col_ok (zlen ids)) (scan_signature schema projected) cols /\
  Forall2 (fun i cv => cv_values cv = column_of i (rows_at ids)) projected cols /\
  Forall (fun cv => cv_size cv = zlen (rows_at ids)) cols.
Proof using Hproj.
  intros Hc. assert (Hl : zlen (rows_at ids) = zlen ids) by (unfold rows_at, zlen; by rewrite length_map). rewrite Hl.
  unfold scan_signature. revert Hproj. induction Hc as [|i cv ps cols (H1 & _ & H3 & H4 & H5) _ IH]; intros Hp; [by repeat constructor|].
  apply Forall_cons in Hp as [Hi Hp]. destruct (IH Hp) as (IH1 & IH2 & IH3).
  destruct (lookup_lt_is_Some_2 schema i Hi) as [col Hcol]. destruct (H5 col Hcol).
  cbn [map]. rewrite Hcol. split; [|split]; by constructor.
Qed.

(** Pulling from an index scan gives the rows of the ids that are left. *)
Lemma index_runs fuel n : forall s, (length (is_row_ids s) - is_cur s <= n)%nat -> table_rep (is_table s) [] wb ->
  schema_ (is_table s) = schema -> is_projected s = projected -> Forall (fun id => 0 <= id < zlen wb) (is_row_ids s) ->
  exists cs, runs fuel s cs None /\ Forall (chunk_good (scan_signature schema projected)) cs /\
    rows_of cs = map (scan_row projected) (rows_at (drop (is_cur s) (is_row_ids s))).
Proof using Hproj.
  induction n as [|n IH]; intros s Hn Ht Hs Hp Hids.
  { exists []. rewrite drop_ge by lia. split; [|by split]. eapply runs_end. cbn. unfold index_op_next.
    by rewrite (proj2 (Nat.leb_le _ _)) by lia. }
  destruct (Nat.leb_spec (length (is_row_ids s)) (is_cur s)) as [Hle|Hgt].
  { exists []. rewrite drop_ge by lia. split; [|by split]. eapply runs_end. cbn. unfold index_op_next.
    by rewrite (proj2 (Nat.leb_le _ _)) by lia. }
  set (count := Nat.min (Z.to_nat CHUNK_SIZE) (length (is_row_ids s) - is_cur s)).
  set (ids := take count (drop (is_cur s) (is_row_ids s))).
  assert (Hcnt : (0 < count <= 1024)%nat /\ (is_cur s + count <= length (is_row_ids s))%nat) by (unfold count, CHUNK_SIZE; lia).
  assert (Hlen : zlen ids = Z.of_nat count) by (unfold ids, zlen; rewrite length_take, length_drop; lia).
  destruct (empty_cols_ok (is_table s) projected Ht Hs Hproj) as (cols0 & Hm & Hc0).
  destruct (append_rows_ok ids) with (ids := @nil Z) (cols := cols0) (t := is_table s)
    as (cols & t' & Ha & Ht' & Hst & Hc); [by apply Forall_take, Forall_drop|done..|].
  destruct (col_inv_ok ids cols Hc) as (Hok & Hv & Hsz). rewrite Hlen in Hok.
  destruct (chunk_new_ok (scan_signature schema projected) (Z.of_nat count) cols) as [Hnew Hgood]; [unfold MAX_ROWS; lia|done|].
  destruct (IH (index_scan_with s t' (is_index s) (is_row_ids s) (is_cur s + count))) as (cs & Hrun & Hg & Hr);
    [cbn [is_row_ids is_cur index_scan_with]; lia|done|cbn [is_table index_scan_with]; by rewrite (st_schema _ _ Hst)|done|done|].
  exists (mkChunk (Z.of_nat count) cols None :: cs). split; [|split; [by constructor|]].
  - eapply runs_chunk; [|exact Hrun]. cbn. unfold index_op_next. rewrite (proj2 (Nat.leb_gt _ _)) by lia. fold count ids.
    by rewrite Hp, Hm, Ha, Hnew.
  - cbn [rows_of flat_map]. fold (rows_of cs). rewrite Hr. cbn [is_cur is_row_ids index_scan_with].
    rewrite <- (drop_drop (is_row_ids s)). rewrite <- (take_drop count (drop (is_cur s) (is_row_ids s))) at 2. fold ids.
    unfold rows_at. rewrite !map_app. f_equal. fold (rows_at ids).
    assert (Hz : zlen (rows_at ids) = Z.of_nat count) by (unfold rows_at, zlen in *; by rewrite length_map).
    rewrite <- Hz. by apply column_chunk_rows.
Qed.
End rows.

(** ** Properties *)

Lemma mapM_in_schema schema ps : Forall (in_schema schema) ps -> is_Some (mapM (fun ci => schema !! ci) ps).
Proof. intros H. apply mapM_is_Some_2. eapply Forall_impl; [exact H|]. intros i Hi. by apply lookup_lt_is_Some_2. Qed.

(** C19. An index scan over a table without sealed segments, when there is no lower bound or at most one row of
    the index has its key (as in a unique index): [open] and [next] until the end give the projected
    columns of exactly the rows whose key is in the range and which are not deleted, in the order of
    the keys. *)
Theorem index_operator_correct t wb f specs n st projected lo hi fuel :
  table_rep t [] wb -> index_holds specs n f st -> Forall (fun x => 0 <= x.2 < zlen wb) st ->
  Forall (in_schema (schema_ t)) projected ->
  (forall b, lo = Some b -> Forall2 key_value_ok specs b.1 /\ single specs b.1 st) ->
  (forall b, hi = Some b -> Forall2 key_value_ok specs b.1) ->
  exists s cs, index_scan_new t f projected lo hi = Some s /\ executes fuel s cs None /\
    Forall (chunk_good (scan_signature (schema_ t) projected)) cs /\
    rows_of cs = map (scan_row projected) (rows_at wb (abs_scan specs lo hi (wb_deleted_ t) st)).
Proof.
  intros Ht Hh Hst Hproj Hlo Hhi. destruct (mapM_in_schema _ _ Hproj) as [sch Hsch].
  destruct (scan_holds specs n f st lo hi (wb_deleted_ t) Hh Hlo Hhi) as (pool & Ho & _).
  set (ids := abs_scan specs lo hi (wb_deleted_ t) st) in *.
  assert (Hids : Forall (fun id => 0 <= id < zlen wb) ids).
  { unfold ids, abs_scan. apply Forall_forall. intros id [_ Hin]%list_elem_of_filter.
    apply list_elem_of_fmap in Hin as (x & -> & [_ Hx]%list_elem_of_filter).
    by apply (proj1 (Forall_forall _ _) Hst x). }
  destruct (index_runs wb (schema_ t) projected Hproj fuel (length ids)
    (mkIS t (set_idx_pool f pool) projected sch lo hi ids 0)) as (cs & Hrun & Hg & Hr); [simpl; lia|done..|].
  exists (mkIS t f projected sch lo hi [] 0), cs. unfold index_scan_new. rewrite Hsch. split; [done|].
  split; [|by split]. eexists. split; [|exact Hrun]. cbn [op_open IndexScan_Operator]. unfold index_op_open.
  cbn [is_lo is_hi is_table is_index is_row_ids is_cur]. by rewrite Ho.
Qed.

(** An index that holds the keys 1 and 2 of rows 0 and 1. *)
Lemma two_keys_index : exists f, index_holds int_specs 2 f [([VI32 1], 0); ([VI32 2], 1)].
Proof.
  destruct (new_int_index false) as (f0 & _ & Hu & Hh).
  destruct (insert_holds int_specs 0 f0 [] [VI32 2] 1 Hh) as (f1 & Hu1 & _ & Hh1); [by apply int_key_ok|unfold in_u; lia|lia|].
  destruct (insert_holds int_specs 1 f1 _ [VI32 1] 0 Hh1) as (f & _ & _ & Hh2); [by apply int_key_ok|unfold in_u; lia|lia|].
  rewrite Hu1, Hu in Hh2. change (snd (abs_insert int_specs false [VI32 1] 0 _)) with [([VI32 1], 0); ([VI32 2], 1)] in Hh2.
  by exists f.
Qed.

Lemma index_operator_correct_witness :
  exists f s cs, index_scan_new two_rows f [0%nat] (Some ([VI32 2], true)) None = Some s /\ executes 1 s cs None /\
    rows_of cs = [[VI32 2]].
Proof.
  destruct two_keys_index as (f & Hh2).
  destruct (index_operator_correct two_rows [[VI32 1]; [VI32 2]] f int_specs 2 _ [0%nat] (Some ([VI32 2], true)) None 1
    (proj1 two_rows_rep) Hh2) as (s & cs & Hn & He & _ & Hr).
  - repeat constructor; discriminate.
  - rewrite two_rows_schema. repeat constructor.
  - intros b [= <-]. split; [by apply int_key_ok|]. vm_compute. repeat constructor.
  - done.
  - exists f, s, cs. split; [exact Hn|]. split; [exact He|]. rewrite Hr.
    assert (Hd : wb_deleted_ two_rows = []) by (vm_compute; reflexivity). rewrite Hd. vm_compute. reflexivity.
Defined.

(** ** Rows outside the write buffer *)

(** A page past the last one cannot be fetched. *)
Lemma missing_page {A} cf vals id (f : Page -> A) : file_rep cf vals -> current_page_id_ cf < id ->
  exists e cf', with_page cf id f = Some (Err e, cf').
Proof.
  intros Hf Hid. unfold with_page. pose proof (fr_id _ _ Hf). rewrite (proj2 (Z.eqb_neq _ _)) by lia.
  destruct (fetch_page_ok POOL_FRESH_CAPACITY (disk_ cf) (fr_bytes _ _ Hf) (pool_ cf) id (fr_pool _ _ Hf))
    as (res & pool & Hp & _ & _ & Hres); [lia|by rewrite (fr_pins _ _ Hf)|]. rewrite Hp.
  destruct res as [q|e]; [|by eexists _, _]. exfalso.
  destruct Hres as (slot & pg & (_ & _ & _ & Hpid & _) & (_ & Hlt & _) & _). rewrite Hpid, (fr_next _ _ Hf) in Hlt. lia.
Qed.

(** A row past the last one of the column is on the last page, behind its values, or on no page. *)
Lemma past_end_get {A} (g : bytes -> Z -> result A) cf vals j : file_rep cf vals -> zlen vals <= j ->
  (forall pl vs slot, page_rep (type_ cf) (nullable_ cf) (max_len_ cf) pl vs -> zlen vs <= slot -> exists e, g pl slot = Err e) ->
  exists e cf', cf_get_typed g cf j = Some (Err e, cf').
Proof.
  intros Hf Hj Hg. unfold cf_get_typed. pose proof (fr_pos _ _ Hf) as Hpos. pose proof (fr_rows _ _ Hf) as Hrows.
  pose proof (fr_id _ _ Hf) as Hid. rewrite (proj2 (Z.eqb_neq _ _)) by lia.
  pose proof (Z.div_mod j (capacity_ cf)) as Hdm. pose proof (Z.mod_pos_bound j (capacity_ cf)) as Hm.
  destruct (Z.lt_total (j / capacity_ cf) (current_page_id_ cf)) as [Hlt|[Heq|Hgt]]; [nia| |].
  - destruct (with_page_rep cf vals (j / capacity_ cf) (fun p => g (payload p) (wrap 16 (j mod capacity_ cf))) Hf)
      as (pg & cf' & -> & _ & _ & _ & Hp); [lia|].
    destruct (geometry_fits (type_ cf) (nullable_ cf) (max_len_ cf) (pr_ml _ _ _ _ _ (fr_cur _ _ Hf))) as (Hc & _).
    rewrite <- (fr_cap _ _ Hf) in Hc. rewrite wrap_id by (unfold in_u; lia).
    destruct (Hg _ _ (j mod capacity_ cf) Hp) as [e ->]; [|by eexists _, _].
    rewrite Heq, zlen_page_vals_last by (done || lia). nia.
  - destruct (missing_page cf vals _ (fun p => g (payload p) (wrap 16 (j mod capacity_ cf))) Hf Hgt) as (e & cf' & ->).
    by eexists _, _.
Qed.

(** Reading such a row of a NOT NULL column of fixed size throws. *)
Lemma past_end_read cv cf vals j : file_rep cf vals -> zlen vals <= j -> nullable_ cf = false -> type_ cf <> VARCHAR ->
  append_from_column cv cf j = None.
Proof.
  intros Hf Hj Hn Ht. unfold append_from_column. rewrite Hn.
  pose proof (stored_type (type_ cf) (nullable_ cf) (max_len_ cf)) as Hvec. rewrite <- (fr_cap _ _ Hf) in Hvec.
  specialize (Hvec (fr_pos _ _ Hf)).
  assert (Hshort : forall T pl vs slot, page_rep (type_ cf) (nullable_ cf) (max_len_ cf) pl vs -> zlen vs <= slot ->
      exists e, get_typed T (type_ cf) pl slot = Err e).
  { intros T pl vs slot Hp Hs. unfold get_typed.
    rewrite (cp_type_rep _ _ _ _ _ Hp), bool_decide_true, (pr_count _ _ _ _ _ Hp), (proj2 (Z.leb_le _ _) Hs) by done. by eexists. }
  destruct (type_ cf) eqn:Et; try done.
  1: destruct (past_end_get get_i32 cf vals j Hf Hj) as (e & cf' & He); [rewrite Et; apply Hshort|].
  2: destruct (past_end_get get_i64 cf vals j Hf Hj) as (e & cf' & He); [rewrite Et; apply Hshort|].
  3: destruct (past_end_get get_f64 cf vals j Hf Hj) as (e & cf' & He); [rewrite Et; apply Hshort|].
  4: destruct (past_end_get get_bool cf vals j Hf Hj) as (e & cf' & He).
  4: { rewrite Et. intros pl vs slot Hp Hs. unfold get_bool.
       rewrite (cp_type_rep _ _ _ _ _ Hp), bool_decide_true, (pr_count _ _ _ _ _ Hp), (proj2 (Z.leb_le _ _) Hs) by done. by eexists. }
  5: destruct (past_end_get get_date cf vals j Hf Hj) as (e & cf' & He); [rewrite Et; apply Hshort|].
  6: destruct (past_end_get get_timestamp cf vals j Hf Hj) as (e & cf' & He); [rewrite Et; apply Hshort|].
  all: unfold cf_get_i32, cf_get_i64, cf_get_f64, cf_get_bool, cf_get_date, cf_get_timestamp; by rewrite He.
Qed.

Lemma next_past_end s sealed wb i col projected id ids :
  table_rep (is_table s) sealed wb -> is_row_ids s = id :: ids -> is_cur s = 0%nat -> is_projected s = i :: projected ->
  zlen wb <= id -> schema_ (is_table s) !! i = Some col -> col_nullable col = false -> col_type col <> VARCHAR ->
  index_op_next s = None.
Proof.
  intros Ht Hids Hcur Hp Hid Hcol Hnu Hty. unfold index_op_next. rewrite Hids, Hcur, Hp. cbn [length Nat.leb Nat.sub drop].
  pose proof (lookup_lt_Some _ _ _ Hcol) as Hi. destruct (rows_rep_column _ _ _ i (tr_wb _ _ _ Ht) Hi) as
    (cf & col' & Hcf & Hcol' & (Hf & Htc & Hnc & _)).
  rewrite Hcol in Hcol'. injection Hcol' as <-.
  assert (He : empty_col (is_table s) i = Some (cv_empty (type_ cf) (nullable_ cf))) by (unfold empty_col; by rewrite Hcf).
  assert (Hm : mapM (empty_col (is_table s)) (i :: projected) =
    match mapM (empty_col (is_table s)) projected with
    | Some cols => Some (cv_empty (type_ cf) (nullable_ cf) :: cols) | None => None end).
  { change (mapM (empty_col (is_table s)) (i :: projected))
      with (y ← empty_col (is_table s) i; k ← mapM (empty_col (is_table s)) projected; mret (y :: k)).
    rewrite He. by destruct (mapM _ projected). }
  rewrite Hm. destruct (mapM (empty_col (is_table s)) projected) as [cols|]; [|done].
  replace (Nat.min _ _) with (S (Nat.min 1023 (length ids))) by (unfold CHUNK_SIZE; lia).
  cbn [take]. unfold append_rows. cbn [each append_row].
  rewrite Hcf, (past_end_read _ cf _ id Hf); [done| |congruence|congruence].
  unfold column_of, zlen in *. by rewrite length_map.
Qed.

(** C40. An index scan reads the columns of the write buffer with the ids of the whole table. When the first
    row that the scan of the index finds has an id that is not below the number of rows in the write
    buffer, as every row has once the table was sealed, and the first projected column is of fixed size
    and NOT NULL, [open] succeeds and the first call of [next] throws ([Result::value] of an error). *)
Theorem index_scan_loses_sealed_rows t sealed wb f specs n st i col projected lo hi id ids :
  table_rep t sealed wb -> index_holds specs n f st -> Forall (in_schema (schema_ t)) projected ->
  (forall b, lo = Some b -> Forall2 key_value_ok specs b.1 /\ single specs b.1 st) ->
  (forall b, hi = Some b -> Forall2 key_value_ok specs b.1) ->
  abs_scan specs lo hi (wb_deleted_ t) st = id :: ids -> zlen wb <= id ->
  schema_ t !! i = Some col -> col_nullable col = false -> col_type col <> VARCHAR ->
  exists s s', index_scan_new t f (i :: projected) lo hi = Some s /\ op_open s = Some (Ok tt, s') /\
    forall fuel, op_next fuel s' = None.
Proof.
  intros Ht Hh Hproj Hlo Hhi Hscan Hid Hcol Hnu Hty.
  destruct (mapM_in_schema (schema_ t) (i :: projected)) as [sch Hsch]; [constructor; [by eapply lookup_lt_Some|done]|].
  destruct (scan_holds specs n f st lo hi (wb_deleted_ t) Hh Hlo Hhi) as (pool & Ho & _). rewrite Hscan in Ho.
  exists (mkIS t f (i :: projected) sch lo hi [] 0), (mkIS t (set_idx_pool f pool) (i :: projected) sch lo hi (id :: ids) 0).
  split; [unfold index_scan_new; by rewrite Hsch|]. split.
  - cbn [op_open IndexScan_Operator]. unfold index_op_open. cbn [is_lo is_hi is_table is_index is_row_ids is_cur].
    by rewrite Ho.
  - intros fuel. cbn [op_next IndexScan_Operator]. by eapply next_past_end.
Qed.

(** The table of two rows after sealing. *)
Definition sealed_rows : Table := snd (table_seal two_rows).

Lemma sealed_rows_rep : exists sealed, table_rep sealed_rows sealed [] /\ concat sealed = [[VI32 1]; [VI32 2]].
Proof.
  destruct (flush_write_buffer_rep two_rows [] [[VI32 1]; [VI32 2]] (proj1 two_rows_rep)) as
    (t & sealed & wb & Hf & Ht & Hall & _); [split; [vm_compute; reflexivity|done]|].
  assert (Hs : sealed_rows = t) by (unfold sealed_rows, table_seal; by rewrite Hf). rewrite <- Hs in Ht.
  assert (Hz : wb_rows sealed_rows = 0) by (vm_compute; reflexivity).
  rewrite (wb_rows_rep _ _ _ Ht) in Hz by (rewrite Hall; vm_compute; reflexivity).
  destruct wb; [|unfold zlen in Hz; simpl in Hz; lia]. exists sealed. split; [exact Ht|].
  unfold all_rows in Hall. by rewrite app_nil_r in Hall.
Qed.

(** The sealed table with an index of both rows: the scan for the keys from 2 finds row 1. *)
Lemma index_scan_loses_sealed_rows_witness :
  exists f s s', index_scan_new sealed_rows f [0%nat] (Some ([VI32 2], true)) None = Some s /\
    op_open s = Some (Ok tt, s') /\ op_next 1 s' = None.
Proof.
  destruct two_keys_index as (f & Hh). destruct sealed_rows_rep as (sealed & Ht & _).
  destruct (index_scan_loses_sealed_rows sealed_rows sealed [] f int_specs 2 [([VI32 1], 0); ([VI32 2], 1)]
    0 (mkColumn "a" INT32 false 0 None) [] (Some ([VI32 2], true)) None 1 []) as (s & s' & Hs & Ho & Hn).
  - exact Ht.
  - exact Hh.
  - constructor.
  - intros b [= <-]. split; [by apply int_key_ok|]. vm_compute. repeat constructor.
  - done.
  - assert (Hd : wb_deleted_ sealed_rows = []) by (vm_compute; reflexivity). rewrite Hd. vm_compute. reflexivity.
  - vm_compute. congruence.
  - vm_compute. reflexivity.
  - reflexivity.
  - discriminate.
  - exists f, s, s'. split; [exact Hs|]. split; [exact Ho|apply Hn].
Defined.
