(* ===== verification/Buffered.v ===== *)
(** * Operators that buffer their input: the shared parts

    [Sort], [HashJoin] and [NestedLoopJoin] (src/src/executor/sort.cpp, hash_join.cpp,
    nested_loop_join.cpp) pull a child to its end, drop the chunks without rows, materialise
    the others and evaluate key expressions on them; and they emit output columns by appending
    the values of rows of the buffered chunks.  [drain] is the first loop, [emit_column] and
    [emit_columns] the second; [keyed_rows] and [emit_columns_ok] say what they stand for on
    rows. *)

From S2P Require Import Prelude Types SelectionVector ColumnVector Chunk Expression Operator.

(** ** Buffering *)

Section drain.
Context {S : Type} `{Operator S} `{Fpu}.

(** The chunks of the child with their key columns are added to [acc], also when an error ends
    the loop. *)
Fixpoint drain (fuel n : nat) (keys : list Expression) (child : S)
    (acc : list (Chunk * list ColumnVector)) :
    option (result unit * list (Chunk * list ColumnVector) * S) :=
  match n with
  | O => None
  | Datatypes.S n' =>
      let! (r, child) := op_next fuel child in
      match r with
      | Err m => Some (Err m, acc, child)
      | Ok None => Some (Ok tt, acc, child)
      | Ok (Some chunk) =>
          if logical_size chunk =? 0 then drain fuel n' keys child acc
          else
            let! chunk := materialize chunk in
            let! ev := evaluate_all keys chunk in
            match ev with
            | Err m => Some (Err m, acc, child)
            | Ok cols => drain fuel n' keys child (acc ++ [(chunk, cols)])
            end
      end
  end.
End drain.

(** ** Emitting *)

(** [switch (t)] with the accessor and the append of the type; other types fail an assertion. *)
Definition append_from (t : TypeId) (out src : ColumnVector) (row : Z) : option ColumnVector :=
  match t with
  | INT32 => let! v := cv_get_i32 src row in cv_append_i32 out v
  | INT64 => let! v := cv_get_i64 src row in cv_append_i64 out v
  | DOUBLE => let! v := cv_get_f64 src row in cv_append_f64 out v
  | VARCHAR => let! v := cv_get_str src row in cv_append_str out v
  | _ => None
  end.

Definition emittable (t : TypeId) : bool :=
  match t with INT32 | INT64 | DOUBLE | VARCHAR => true | _ => false end.

(** One output column; [None] in [srcs] is a row that has no source (an outer join). *)
Definition emit_column (t : TypeId) (nullable : bool) (srcs : list (option (ColumnVector * Z))) :
    option ColumnVector :=
  assert (emittable t) in
  each srcs (fun s out =>
    match s with
    | None => cv_append_null out
    | Some (src, row) =>
        let! null := if nullable then cv_is_null src row else Some false in
        if null : bool then cv_append_null out else append_from t out src row
    end) (cv_empty t nullable).

(** The columns of a slice from column [c] on: [src c a] is where output column [c] takes the
    row that [a] refers to from. *)
Fixpoint emit_columns {A} (sg : signature) (src : nat -> A -> option (option (ColumnVector * Z)))
    (c : nat) (refs : list A) : option (list ColumnVector) :=
  match sg with
  | [] => Some []
  | (t, nullable) :: sg' =>
      let! srcs := mapM (src c) refs in
      let! col := emit_column t nullable srcs in
      let! cols := emit_columns sg' src (Datatypes.S c) refs in
      Some (col :: cols)
  end.

(** ** What they mean on rows *)

(** The value at a source. *)
Definition src_value (s : option (ColumnVector * Z)) : Value :=
  match s with None => VNull | Some (src, row) => cell src row end.

(** A source that fits an output column. *)
Definition src_ok (s : TypeId * bool) (src : option (ColumnVector * Z)) : Prop :=
  match src with
  | None => s.2 = true
  | Some (cv, row) =>
      cv_wf cv /\ cv_type cv = s.1 /\ 0 <= row < cv_size cv /\ (cv_nullable cv = true -> s.2 = true)
  end.

Lemma append_from_value t out src row : emittable t = true -> cv_wf src -> cv_type src = t ->
  0 <= row < cv_size src -> null_at src row = false ->
  append_from t out src row = cv_append_value out (cell src row).
Proof.
  intros Ht Hwf Hty Hr Hn. pose proof (cell_typed src row Hwf Hr) as [Hv|[Hv _]];
    unfold cell in *; rewrite Hn in *.
  - exfalso. pose proof (raw_not_null src row (cw_type _ Hwf)) as Hraw. by rewrite Hv in Hraw.
  - rewrite Hty in Hv. destruct t; try discriminate; destruct (raw src row) eqn:Er; try discriminate;
      unfold append_from, cv_append_value, cv_get_i32, cv_get_i64, cv_get_f64.
    1,2,3: rewrite (get_slot_ok _ src row Hwf Hty eq_refl Hr Hn); unfold raw in Er; rewrite Hty in Er;
      cbn -[le_val] in Er; by injection Er as <-.
    rewrite (cv_get_str_ok src row s); [done..|]. unfold cell. by rewrite Hn.
Qed.

(** One output column holds the values of its sources. *)
Lemma emit_column_ok s srcs : emittable s.1 = true -> Forall (src_ok s) srcs ->
  exists out, emit_column s.1 s.2 srcs = Some out /\ col_ok (zlen srcs) s out /\
    cv_values out = map src_value srcs.
Proof.
  intros Ht Hsrcs. destruct s as [t nullable]. cbn [fst snd] in *. unfold emit_column.
  rewrite Ht. assert (Hvt : is_vec_type t = true) by (by destruct t).
  destruct (cv_empty_wf t nullable Hvt) as (Hwf & Hc & Hv).
  edestruct (each_inv (fun k out => cv_wf out /\ cv_clean out /\ cv_type out = t /\
      cv_nullable out = nullable /\ cv_size out = Z.of_nat k /\ cv_values out = map src_value (take k srcs)) srcs)
    as (out & -> & H1 & H2 & H3 & H4 & H5 & H6); [done| |].
  - intros k src out Hk (H1 & H2 & H3 & H4 & H5 & H6).
    rewrite Forall_lookup in Hsrcs. pose proof (Hsrcs k src Hk) as Hs.
    assert (Happ : exists out',
      match src with
      | None => cv_append_null out
      | Some (cv, row) =>
          let! null := if nullable then cv_is_null cv row else Some false in
          if null : bool then cv_append_null out else append_from t out cv row
      end = Some out' /\ appended out out' (src_value src)).
    { destruct src as [[cv row]|].
      - destruct Hs as (Hcv & Hty & Hr & Hn). cbn [fst snd] in *. simpl src_value.
        destruct (null_at cv row) eqn:En.
        + assert (Hcn : cv_nullable cv = true) by (unfold null_at in En; by destruct (cv_nullable cv)).
          rewrite (Hn Hcn). rewrite cv_is_null_ok, En by done.
          unfold cell. rewrite En. apply cv_append_null_ok; [done|done|]. rewrite H4. auto.
        + assert ((if nullable then cv_is_null cv row else Some false) = Some false) as ->.
          { destruct nullable; [|done]. by rewrite cv_is_null_ok, En. }
          rewrite append_from_value by done. apply cv_append_value_ok; [done|done| |].
          * rewrite H3, <- Hty. by apply cell_typed.
          * intros Hnull. exfalso. unfold cell in Hnull. rewrite En in Hnull.
            pose proof (raw_not_null cv row (cw_type _ Hcv)) as Hraw. by rewrite Hnull in Hraw.
      - simpl. apply cv_append_null_ok; [done|done|]. rewrite H4. exact Hs. }
    destruct Happ as (out' & -> & [A1 A2 [A3 A3'] A4 A5]). exists out'. split; [done|].
    split_and!; [done|done|congruence|congruence|lia|].
    rewrite A5, H6, (take_S_r _ _ _ Hk), map_app. done.
  - exists out. split; [done|]. rewrite take_ge in H6 by done. split; [split_and!; done|done].
Qed.

(** Column [j] of what a reference stands for. *)
Definition src_col (s : TypeId * bool) (x : option (option (ColumnVector * Z))) (v : option Value) : Prop :=
  exists src, x = Some src /\ src_ok s src /\ v = Some (src_value src).

Lemma emit_columns_spec {A} src (refs : list A) (rows : list row) sg : forall c,
  Forall (fun s => emittable s.1 = true) sg ->
  Forall2 (fun a r => forall j s, sg !! j = Some s -> src_col s (src (c + j)%nat a) (r !! (c + j)%nat)) refs rows ->
  exists cols, emit_columns sg src c refs = Some cols /\ Forall2 (col_ok (zlen refs)) sg cols /\
    forall j col k r, cols !! j = Some col -> rows !! k = Some r ->
      r !! (c + j)%nat = Some (cell col (Z.of_nat k)).
Proof.
  induction sg as [|[t nullable] sg IH]; intros c Hsg Hrefs; [by exists []|].
  apply Forall_cons in Hsg as [Ht Hsg]. cbn [emit_columns].
  assert (Hsrcs : exists srcs, mapM (src c) refs = Some srcs /\ Forall (src_ok (t, nullable)) srcs /\
    Forall2 (fun x r => r !! c = Some (src_value x)) srcs rows).
  { clear IH Hsg Ht. induction Hrefs as [|a r refs rows Ha _ (srcs & Hm & Hok & Hv)]; [by exists []|].
    destruct (Ha 0%nat (t, nullable) eq_refl) as (x & Hx & Hxo & Hxv). rewrite Nat.add_0_r in Hx, Hxv.
    exists (x :: srcs). simpl. rewrite Hx. simpl. rewrite Hm. split_and!; [done|by constructor|by constructor]. }
  destruct Hsrcs as (srcs & Hm & Hok & Hv). rewrite Hm.
  destruct (emit_column_ok (t, nullable) srcs) as (col & Hcol & Hcok & Hcv); [done..|].
  cbn [fst snd] in Hcol. rewrite Hcol.
  destruct (IH (Datatypes.S c)) as (cols & -> & Hcols & Hcells); [done| |].
  { eapply Forall2_impl; [exact Hrefs|]. intros a r Ha j s Hj. specialize (Ha (Datatypes.S j) s Hj).
    by rewrite Nat.add_succ_r in Ha. }
  assert (Hlen : zlen srcs = zlen refs) by (apply Forall2_length in Hv, Hrefs; unfold zlen; lia).
  exists (col :: cols). split_and!; [done|constructor; [by rewrite <- Hlen|done]|].
  intros [|j] col' k r Hj Hk.
  - injection Hj as <-. rewrite Nat.add_0_r.
    destruct (Forall2_lookup_r _ _ _ _ _ Hv Hk) as (x & Hx & ->). f_equal.
    assert (Hl : cv_values col !! k = Some (src_value x)) by (by rewrite Hcv, list_lookup_fmap, Hx).
    rewrite lookup_cv_values in Hl; [by injection Hl|]. destruct Hcok as (_ & _ & _ & ->).
    apply lookup_lt_Some in Hx. unfold zlen. lia.
  - rewrite Nat.add_succ_r. by apply (Hcells j).
Qed.

(** The rows that a slice shows are the rows its references stand for. *)
Lemma emit_columns_ok {A} src (refs : list A) (rows : list row) sg :
  Forall (fun s => emittable s.1 = true) sg ->
  Forall2 (fun a r => length r = length sg /\
    forall j s, sg !! j = Some s -> src_col s (src j a) (r !! j)) refs rows ->
  exists cols, emit_columns sg src 0 refs = Some cols /\ Forall2 (col_ok (zlen refs)) sg cols /\
    map (row_at cols) (zrange 0 (zlen refs)) = rows.
Proof.
  intros Hsg Hrefs. destruct (emit_columns_spec src refs rows sg 0) as (cols & -> & Hcols & Hcells); [done| |].
  { eapply Forall2_impl; [exact Hrefs|]. by intros a r [_ Ha]. }
  exists cols. split_and!; [done..|]. pose proof (Forall2_length _ _ _ Hrefs) as Hlen.
  apply list_eq. intros k. rewrite list_lookup_fmap. destruct (rows !! k) as [r|] eqn:Hk.
  - pose proof (lookup_lt_Some _ _ _ Hk). rewrite lookup_zrange by (unfold zlen; lia).
    simpl. f_equal. apply list_eq. intros j.
    destruct (Forall2_lookup_r _ _ _ _ _ Hrefs Hk) as (a & _ & [Hl _]).
    pose proof (Forall2_length _ _ _ Hcols) as Hlc. unfold row_at. rewrite list_lookup_fmap.
    destruct (cols !! j) as [col|] eqn:Hj.
    + symmetry. exact (Hcells j col k r Hj Hk).
    + apply lookup_ge_None in Hj. symmetry. apply lookup_ge_None. lia.
  - apply lookup_ge_None in Hk. rewrite (proj2 (lookup_ge_None _ _)); [done|].
    rewrite length_zrange. unfold zlen. lia.
Qed.

(** ** References to the buffered rows *)

(** [chunk_idx], [row_idx] *)
Abbreviation RowRef := (Z * Z)%type.

(** [for ci, for r: perm_.push_back(RowRef{ci, r})] *)
Definition row_refs (buffered : list (Chunk * list ColumnVector)) : list RowRef :=
  concat (imap (fun ci b => map (fun r => (Z.of_nat ci, r)) (zrange 0 (wrap 32 (ck_row_count b.1)))) buffered).

(** The row with its key that a reference stands for. *)
Definition ref_row (rss : list (list (row * row))) (rr : RowRef) : row * row :=
  nth (Z.to_nat rr.2) (nth (Z.to_nat rr.1) rss []) ([], []).

Definition ref_in (rss : list (list (row * row))) (rr : RowRef) : Prop :=
  exists rs, rss !! Z.to_nat rr.1 = Some rs /\ 0 <= rr.2 < zlen rs.


Lemma columns_sig n sg cols : Forall2 (col_ok n) sg cols ->
  map (fun col => (cv_type col, cv_nullable col)) cols = sg.
Proof.
  induction 1 as [|[t nl] col sg cols (_ & Ht & Hn & _) _ IH]; simpl; [done|].
  simpl in Ht, Hn. by rewrite Ht, Hn, IH.
Qed.

(** ** The drained stream *)

Section drain_proof.
Context {S : Type} `{Operator S} `{Fpu}.
Context (sg : signature) (keys : list Expression) (fuel : nat).
Hypothesis Hkeys : Forall (well_typed sg) keys.

(** A row with its key; [None] if a key fails on it. *)
Definition keyed (r : row) : option (row * row) :=
  let! k := project_row keys r in Some (r, k).

(** The rows of the stream with their keys, cut into the chunks that have rows. *)
Fixpoint keyed_rows (cs : list Chunk) (fin : option string) : result (list (list (row * row))) :=
  match cs with
  | [] => match fin with None => Ok [] | Some m => Err m end
  | c :: cs' =>
      match mapM keyed (chunk_rows c) with
      | None => Err "division by zero"
      | Some rs =>
          match keyed_rows cs' fin with
          | Err m => Err m
          | Ok l => Ok (match rs with [] => l | _ => rs :: l end)
          end
      end
  end.

(** A buffered chunk with its key columns holds given rows with keys. *)
Record buffered (b : Chunk * list ColumnVector) (rs : list (row * row)) : Prop := {
  bf_wf : chunk_wf sg b.1;
  bf_sel : ck_sel b.1 = None;
  bf_count : ck_row_count b.1 = zlen rs;
  bf_keys : Forall2 (col_ok (zlen rs)) (project_sig sg keys) b.2;
  bf_rows : chunk_rows b.1 = map fst rs;
  bf_key_rows : map (row_at b.2) (zrange 0 (zlen rs)) = map snd rs
}.

Lemma keyed_split rows ks : mapM (project_row keys) rows = Some ks ->
  mapM keyed rows = Some (zip rows ks).
Proof using.
  revert ks. induction rows as [|r rows IH]; intros ks; simpl; [by intros [= <-]|].
  destruct (project_row keys r) as [k|] eqn:Ek; [|done]. simpl.
  destruct (mapM (project_row keys) rows) as [ks'|]; [|done]. simpl. intros [= <-].
  assert (keyed r = Some (r, k)) as -> by (unfold keyed; by rewrite Ek).
  simpl. by rewrite (IH ks').
Qed.

Lemma keyed_none rows : mapM (project_row keys) rows = None -> mapM keyed rows = None.
Proof using.
  intros (r & Hr & Hn)%mapM_none_inv. eapply mapM_none; [exact Hr|]. unfold keyed. by rewrite Hn.
Qed.

(** Materialising and evaluating the keys of a chunk with rows. *)
Lemma buffer_chunk c : chunk_wf sg c -> all_defined keys c -> logical_size c <> 0 ->
  exists c', materialize c = Some c' /\
    ((exists cols rs, evaluate_all keys c' = Some (Ok cols) /\ mapM keyed (chunk_rows c) = Some rs /\
        rs <> [] /\ buffered (c', cols) rs) \/
     (evaluate_all keys c' = Some (Err "division by zero") /\ mapM keyed (chunk_rows c) = None)).
Proof using Hkeys.
  intros Hwf Hdef Hne. destruct (materialize_ok sg c Hwf) as (c' & -> & Hwf' & Hsel & Hcnt & Hrows).
  exists c'. split; [done|].
  assert (Hdef' : all_defined keys c') by (unfold all_defined, defined_on in *; by rewrite Hrows).
  pose proof (logical_size_rows _ _ Hwf') as Hl. rewrite Hrows in Hl.
  assert (Hlc : logical_size c' = ck_row_count c') by (unfold logical_size; by rewrite Hsel).
  destruct (evaluate_all_ok sg c' keys Hwf' Hkeys Hdef') as [(cols & -> & Hc & Hv)|[-> (e & He & Hv)]].
  - left. pose proof (project_rows_ok keys cols (chunk_rows c') (logical_size c') Hv) as Hp.
    rewrite Hrows in Hp. specialize (Hp ltac:(eapply Forall_impl; [by eapply col_ok_sizes|]; by intros ? [])).
    specialize (Hp (eq_sym Hl)). apply keyed_split in Hp as Hk. eexists cols, _. split_and!; [done|exact Hk| |].
    + intros Hnil. assert (Hlen : length (zip (chunk_rows c) (map (row_at cols) (zrange 0 (logical_size c')))) = 0%nat)
        by (by rewrite Hnil).
      rewrite length_zip_with, length_map, length_zrange in Hlen. unfold zlen in Hl. lia.
    + set (ks := map (row_at cols) (zrange 0 (logical_size c'))) in *.
      assert (Hlks : length ks = length (chunk_rows c))
        by (unfold ks; rewrite length_map, length_zrange; unfold zlen in Hl; lia).
      assert (Hz : zlen (zip (chunk_rows c) ks) = logical_size c')
        by (unfold zlen in *; rewrite length_zip_with; lia).
      split; cbn [fst snd]; rewrite ?Hz; try done.
      * rewrite Hrows. symmetry. apply (fst_zip (chunk_rows c) ks). lia.
      * symmetry. apply (snd_zip (chunk_rows c) ks). lia.
  - right. split; [done|]. apply keyed_none. rewrite <- Hrows.
    apply mapM_none_inv in Hv as (r & Hr & Hv).
    eapply mapM_none; [exact Hr|]. unfold project_row. by eapply mapM_none.
Qed.

Definition drain_good (c : Chunk) : Prop := chunk_wf sg c /\ all_defined keys c.

(** Draining gives the keyed rows of the stream, or its error. *)
Lemma drain_ok child cs fin : runs fuel child cs fin -> Forall drain_good cs ->
  forall n acc accs, (length cs < n)%nat -> Forall2 buffered acc accs ->
  exists r bs child', drain fuel n keys child acc = Some (r, bs, child') /\
    match r, keyed_rows cs fin with
    | Ok _, Ok rss => Forall2 buffered bs (accs ++ rss)
    | Err m, Err m' => m = m'
    | _, _ => False
    end.
Proof using Hkeys.
  intros Hruns. induction Hruns as [s s' Hnext|s s' m Hnext|s s' c cs fin Hnext Hruns IH];
    intros Hok n acc accs Hn Hacc; (destruct n as [|n]; [simpl in Hn; lia|]); cbn [drain]; rewrite Hnext.
  - exists (Ok tt), acc, s'. split; [done|]. simpl. by rewrite app_nil_r.
  - by exists (Err m), acc, s'.
  - apply Forall_cons in Hok as [[Hwf Hdef] Hok]. cbn [keyed_rows].
    destruct (Z.eqb_spec (logical_size c) 0) as [Hz|Hnz].
    + pose proof (logical_size_rows _ _ Hwf) as Hl. rewrite Hz in Hl.
      assert (chunk_rows c = []) as -> by (unfold zlen in Hl; destruct (chunk_rows c); [done|simpl in Hl; lia]).
      destruct (IH Hok n acc accs) as (r & bs & child' & -> & Hr); [simpl in Hn; lia|done|].
      exists r, bs, child'. split; [done|]. simpl. by destruct (keyed_rows cs fin).
    + destruct (buffer_chunk c Hwf Hdef Hnz) as (c' & -> & [(cols & rs & -> & -> & Hne & Hb)|[-> ->]]).
      * destruct (IH Hok n (acc ++ [(c', cols)]) (accs ++ [rs])) as (r & bs & child' & -> & Hr);
          [simpl in Hn; lia|by apply Forall2_app; [|constructor]|].
        exists r, bs, child'. split; [done|]. destruct r as [[]|m], (keyed_rows cs fin) as [rss|m']; try done.
        rewrite <- app_assoc in Hr. by destruct rs.
      * by exists (Err "division by zero"), acc, s'.
Qed.

(** The number of buffered chunks is at most that of the stream. *)
Lemma keyed_rows_length cs fin rss : keyed_rows cs fin = Ok rss -> (length rss <= length cs)%nat.
Proof using.
  revert rss. induction cs as [|c cs IH]; intros rss; simpl.
  - destruct fin; [done|]. by intros [= <-].
  - destruct (mapM keyed (chunk_rows c)) as [rs|]; [|done]. destruct (keyed_rows cs fin) as [l|]; [|done].
    specialize (IH l eq_refl). intros [= <-]. destruct rs; simpl; lia.
Qed.

(** Only chunks with rows are kept. *)
Lemma keyed_rows_count cs fin rss : keyed_rows cs fin = Ok rss -> (length rss <= length (concat rss))%nat.
Proof using.
  revert rss. induction cs as [|c cs IH]; intros rss; simpl.
  - destruct fin; [done|]. by intros [= <-].
  - destruct (mapM keyed (chunk_rows c)) as [rs|]; [|done]. destruct (keyed_rows cs fin) as [l|]; [|done].
    specialize (IH l eq_refl). intros [= <-]. destruct rs; simpl; [done|]. rewrite length_app. lia.
Qed.

(** The references enumerate the rows. *)
Lemma ref_row_lookup rss rr : ref_in rss rr ->
  exists rs, rss !! Z.to_nat rr.1 = Some rs /\ 0 <= rr.2 < zlen rs /\ rs !! Z.to_nat rr.2 = Some (ref_row rss rr).
Proof using.
  intros (rs & Hrs & Hr). exists rs. split_and!; [done|lia..|]. unfold ref_row.
  rewrite (nth_lookup_Some _ _ _ _ Hrs). destruct (lookup_lt_is_Some_2 rs (Z.to_nat rr.2)) as [x Hx];
    [unfold zlen in Hr; lia|]. by rewrite (nth_lookup_Some _ _ _ _ Hx).
Qed.

(** The references enumerate the buffered rows in order. *)
Lemma row_refs_from bs rss pre : Forall2 buffered bs rss ->
  let refs := concat (imap (fun ci b => map (fun r => (Z.of_nat (length pre + ci), r))
    (zrange 0 (wrap 32 (ck_row_count b.1)))) bs) in
  map (ref_row (pre ++ rss)) refs = concat rss /\ Forall (ref_in (pre ++ rss)) refs.
Proof using.
  intros Hbs. revert pre. induction Hbs as [|b rs bs rss Hb _ IH]; intros pre; [done|].
  cbn zeta in *. cbn [imap concat]. rewrite Nat.add_0_r.
  destruct Hb as [Hwf _ Hcnt _ _ _]. pose proof (ckw_rows _ _ Hwf). unfold MAX_ROWS in *.
  rewrite wrap_id by (unfold in_u; lia). rewrite Hcnt.
  assert (Hin : forall r, 0 <= r < zlen rs -> ref_in (pre ++ rs :: rss) (Z.of_nat (length pre), r)).
  { intros r Hr. exists rs. simpl. rewrite Nat2Z.id. split; [|done]. by rewrite list_lookup_middle. }
  specialize (IH (pre ++ [rs])). rewrite <- app_assoc in IH. simpl in IH. rewrite length_app in IH. simpl in IH.
  assert (Hext : imap ((fun ci b0 => map (fun r => (Z.of_nat (length pre + ci), r))
      (zrange 0 (wrap 32 (ck_row_count b0.1)))) ∘ Datatypes.S) bs =
    imap (fun ci b0 => map (fun r => (Z.of_nat (length pre + 1 + ci), r))
      (zrange 0 (wrap 32 (ck_row_count b0.1)))) bs).
  { apply imap_ext. intros i x _. simpl. do 3 f_equal. lia. }
  rewrite Hext, map_app. destruct IH as [-> IHin]. split.
  - f_equal. apply list_eq. intros k. rewrite map_map, list_lookup_fmap. destruct (rs !! k) as [x|] eqn:Hk.
    + apply lookup_lt_Some in Hk as Hlt. rewrite lookup_zrange by (unfold zlen; lia). simpl.
      rewrite <- Hk. edestruct ref_row_lookup as (rs' & Hr1 & _ & Hr2); [apply (Hin (0 + Z.of_nat k)); unfold zlen; lia|].
      cbn [fst snd] in Hr1, Hr2. rewrite Nat2Z.id, list_lookup_middle in Hr1 by done. injection Hr1 as <-.
      replace (Z.to_nat (0 + Z.of_nat k)) with k in Hr2 by lia. by rewrite Hr2.
    + apply lookup_ge_None in Hk. rewrite (proj2 (lookup_ge_None _ _)); [done|].
      rewrite length_zrange. unfold zlen. lia.
  - apply Forall_app. split; [|done]. apply Forall_map, Forall_forall. intros r Hr.
    apply Hin. apply list_elem_of_lookup in Hr as [k [-> Hk]%lookup_zrange_Some]. lia.
Qed.

Lemma row_refs_ok bs rss : Forall2 buffered bs rss ->
  map (ref_row rss) (row_refs bs) = concat rss /\ Forall (ref_in rss) (row_refs bs).
Proof using. intros Hbs. exact (row_refs_from bs rss [] Hbs). Qed.

Lemma ref_row_in rss rr : ref_in rss rr -> ref_row rss rr ∈ concat rss.
Proof using.
  intros (rs & Hrs & _ & Hx)%ref_row_lookup. apply list_elem_of_In, in_concat.
  exists rs. split; apply list_elem_of_In; by eapply list_elem_of_lookup_2.
Qed.

Lemma ref_buffer bs rss rr : Forall2 buffered bs rss -> ref_in rss rr ->
  exists b rs, bs !! Z.to_nat rr.1 = Some b /\ buffered b rs /\ 0 <= rr.2 < zlen rs /\
    row_at (ck_columns b.1) rr.2 = (ref_row rss rr).1 /\ row_at b.2 rr.2 = (ref_row rss rr).2.
Proof using.
  intros Hbs (rs & Hrs & Hr & Hx)%ref_row_lookup.
  destruct (Forall2_lookup_r _ _ _ _ _ Hbs Hrs) as (b & Hb & Hbf).
  exists b, rs. split_and!; [done|done|lia|lia| |].
  - pose proof (bf_rows _ _ Hbf) as Hrows. unfold chunk_rows, shown in Hrows.
    rewrite (bf_sel _ _ Hbf), (bf_count _ _ Hbf) in Hrows.
    apply (f_equal (.!! Z.to_nat rr.2)) in Hrows. rewrite !list_lookup_fmap, Hx in Hrows.
    rewrite lookup_zrange in Hrows by (unfold zlen in *; lia). simpl in Hrows. injection Hrows as <-.
    f_equal. lia.
  - pose proof (bf_key_rows _ _ Hbf) as Hrows.
    apply (f_equal (.!! Z.to_nat rr.2)) in Hrows. rewrite !list_lookup_fmap, Hx in Hrows.
    rewrite lookup_zrange in Hrows by (unfold zlen in *; lia). simpl in Hrows. injection Hrows as <-.
    f_equal. lia.
Qed.

End drain_proof.
