(* ===== verification/Sort.v ===== *)
(** * Sort

    [Sort] (src/src/executor/sort.h, sort.cpp): buffers its child, sorts references to the
    rows with [std::stable_sort] by the evaluated keys, and emits slices of [CHUNK_SIZE] rows.
    [stable_sort] is the insertion sort that keeps equal elements in order; for a comparison
    that is a strict weak order every stable sort gives its result ([stable_sort_unique]). *)

From stdpp Require Import sorting.
From Stdlib Require Import List.
From S2P Require Import Prelude Types SelectionVector ColumnVector Chunk Expression Operator Buffered.

Inductive SortDirection : Type := ASC | DESC.
Inductive NullOrder : Type := FIRST | LAST.

#[export] Instance NullOrder_eq_dec : EqDecision NullOrder.
Proof. solve_decision. Defined.

Record SortKey : Type := mkSortKey {
  sk_expr : Expression;
  sk_direction : SortDirection;
  sk_nulls : NullOrder
}.

Record Sort (S : Type) : Type := mkSort {
  s_child : S;
  s_keys : list SortKey;
  s_buffered : list (Chunk * list ColumnVector);
  s_perm : list RowRef;
  s_emit_cursor : Z;
  s_opened : bool;
  s_consumed : bool
}.
Arguments mkSort {S}.
Arguments s_child {S}.
Arguments s_keys {S}.
Arguments s_buffered {S}.
Arguments s_perm {S}.
Arguments s_emit_cursor {S}.
Arguments s_opened {S}.
Arguments s_consumed {S}.

(** ** Comparison *)

(** [(a < b) ? -1 : (a > b) ? 1 : 0] *)
Definition three_way {A} (lt : A -> A -> bool) (a b : A) : Z :=
  if lt a b then -1 else if lt b a then 1 else 0.

Definition string_lt (a b : string) : bool :=
  match string_cmp a b with Lt => true | _ => false end.

Definition compare_typed (lc : ColumnVector) (li : Z) (rc : ColumnVector) (ri : Z) : option Z :=
  assert (bool_decide (cv_type lc = cv_type rc)) in
  match cv_type lc with
  | INT32 => let! a := cv_get_i32 lc li in let! b := cv_get_i32 rc ri in Some (three_way Z.ltb a b)
  | INT64 => let! a := cv_get_i64 lc li in let! b := cv_get_i64 rc ri in Some (three_way Z.ltb a b)
  | DOUBLE => let! a := cv_get_f64 lc li in let! b := cv_get_f64 rc ri in Some (three_way f64_lt a b)
  | VARCHAR => let! a := cv_get_str lc li in let! b := cv_get_str rc ri in Some (three_way string_lt a b)
  | _ => None
  end.

(** The loop of [less_] over the keys. *)
Fixpoint less_loop (keys : list SortKey) (lcols rcols : list ColumnVector) (li ri : Z) : option bool :=
  match keys with
  | [] => Some false
  | k :: keys' =>
      match lcols, rcols with
      | lc :: lcols', rc :: rcols' =>
          let! ln := cv_is_null lc li in
          let! rn := cv_is_null rc ri in
          if ln && rn then less_loop keys' lcols' rcols' li ri
          else if ln : bool then Some (bool_decide (sk_nulls k = FIRST))
          else if rn : bool then Some (bool_decide (sk_nulls k = LAST))
          else
            let! cmp := compare_typed lc li rc ri in
            if cmp =? 0 then less_loop keys' lcols' rcols' li ri
            else Some (match sk_direction k with ASC => cmp <? 0 | DESC => cmp >? 0 end)
      | _, _ => None
      end
  end.

Definition less_ (keys : list SortKey) (buffered : list (Chunk * list ColumnVector)) (l r : RowRef) :
    option bool :=
  let! lb := buffered !! Z.to_nat l.1 in
  let! rb := buffered !! Z.to_nat r.1 in
  less_loop keys lb.2 rb.2 l.2 r.2.

(** ** [std::stable_sort] *)

Fixpoint insert_after {A} (less : A -> A -> option bool) (x : A) (l : list A) : option (list A) :=
  match l with
  | [] => Some [x]
  | y :: l' =>
      let! b := less x y in
      if b : bool then Some (x :: l) else let! r := insert_after less x l' in Some (y :: r)
  end.

Definition stable_sort {A} (less : A -> A -> option bool) (l : list A) : option (list A) :=
  each l (insert_after less) [].

(** ** The operator *)

Section sort.
Context {S : Type} `{Operator S} `{Fpu}.

Definition sort_new (child : S) (keys : list SortKey) : option (Sort S) :=
  match keys with [] => None | _ => Some (mkSort child keys [] [] 0 false false) end.

Definition sort_with (s : Sort S) child buffered perm cursor opened consumed : Sort S :=
  mkSort child (s_keys s) buffered perm cursor opened consumed.

Definition sort_open (s : Sort S) : option (result unit * Sort S) :=
  let! (r, child) := op_open (s_child s) in
  let set b := sort_with s child (s_buffered s) (s_perm s) (s_emit_cursor s) b (s_consumed s) in
  match r with
  | Err m => Some (Err m, set (s_opened s))
  | Ok _ => Some (Ok tt, set true)
  end.

Definition sort_close (s : Sort S) : Sort S :=
  sort_with s (op_close (s_child s)) (s_buffered s) (s_perm s) (s_emit_cursor s) (s_opened s) (s_consumed s).

Definition consume_and_sort_ (fuel : nat) (s : Sort S) : option (result unit * Sort S) :=
  let! (r, buffered, child) := drain fuel fuel (map sk_expr (s_keys s)) (s_child s) (s_buffered s) in
  match r with
  | Err m => Some (Err m, sort_with s child buffered (s_perm s) (s_emit_cursor s) (s_opened s) (s_consumed s))
  | Ok _ =>
      let child := op_close child in
      (* the index of the loop over the chunks has 32 bits: more chunks than that never end it *)
      assert (zlen buffered <? 2 ^ 32) in
      let! perm := stable_sort (less_ (s_keys s) buffered) (s_perm s ++ row_refs buffered) in
      Some (Ok tt, sort_with s child buffered perm (s_emit_cursor s) (s_opened s) true)
  end.

(** The column and row that an output column of a reference is taken from. *)
Definition sort_src (buffered : list (Chunk * list ColumnVector)) (c : nat) (rr : RowRef) :
    option (option (ColumnVector * Z)) :=
  let! b := buffered !! Z.to_nat rr.1 in
  let! col := ck_columns b.1 !! c in
  Some (Some (col, rr.2)).

Definition emit_slice_ (s : Sort S) (first last : Z) : option Chunk :=
  assert (first <? last) in
  let! proto := head (s_buffered s) in
  let sg := map (fun col => (cv_type col, cv_nullable col)) (ck_columns proto.1) in
  let! cols := emit_columns sg (sort_src (s_buffered s)) 0 (slice first (last - first) (s_perm s)) in
  chunk_new (last - first) cols.

Definition sort_next (fuel : nat) (s : Sort S) : option (result (option Chunk) * Sort S) :=
  assert (s_opened s) in
  let! (r, s) := if s_consumed s then Some (Ok tt, s) else consume_and_sort_ fuel s in
  match r with
  | Err m => Some (Err m, s)
  | Ok _ =>
      if zlen (s_perm s) <=? s_emit_cursor s then Some (Ok None, s)
      else
        let last := Z.min (s_emit_cursor s + CHUNK_SIZE) (zlen (s_perm s)) in
        let! out := emit_slice_ s (s_emit_cursor s) last in
        Some (Ok (Some out),
          sort_with s (s_child s) (s_buffered s) (s_perm s) last (s_opened s) (s_consumed s))
  end.

#[export] Instance Sort_Operator : Operator (Sort S) :=
  {| op_open := sort_open; op_next := sort_next; op_close := sort_close |}.
End sort.

(** ** The order of the keys *)

(** One key: NULLs at the end that [nulls] says, the others by value and direction. *)
Definition key_cmp (k : SortKey) (v w : Value) : comparison :=
  match is_null v, is_null w with
  | true, true => Eq
  | true, false => match sk_nulls k with FIRST => Lt | LAST => Gt end
  | false, true => match sk_nulls k with FIRST => Gt | LAST => Lt end
  | false, false =>
      let c := bytes_cmp (value_key v) (value_key w) in
      match sk_direction k with ASC => c | DESC => CompOpp c end
  end.

(** Lexicographically; rows have as many values as there are keys. *)
Fixpoint keys_cmp (keys : list SortKey) (a b : row) : comparison :=
  match keys, a, b with
  | k :: keys', v :: a', w :: b' =>
      match key_cmp k v w with Eq => keys_cmp keys' a' b' | c => c end
  | _ :: _, [], _ :: _ => Lt
  | _ :: _, _ :: _, [] => Gt
  | _, _, _ => Eq
  end.

Definition is_lt (c : comparison) : bool := match c with Lt => true | _ => false end.

(** What a three-way comparison has to satisfy. *)
Class TotalOrder {A} (cmp : A -> A -> comparison) : Prop := {
  cmp_sym a b : cmp b a = CompOpp (cmp a b);
  cmp_trans a b c : cmp a b <> Gt -> cmp b c <> Gt -> cmp a c <> Gt
}.

Arguments cmp_sym {A} cmp {_}.
Arguments cmp_trans {A} cmp {_}.

Section order.
Context {A} (cmp : A -> A -> comparison) `{!TotalOrder cmp}.

Lemma cmp_self a : cmp a a = Eq.
Proof using All. pose proof (cmp_sym cmp a a) as H. by destruct (cmp a a). Qed.

(** Equal elements compare alike. *)
Lemma cmp_eq_l a b c : cmp a b = Eq -> cmp a c = cmp b c.
Proof using All.
  intros Hab. assert (Hba : cmp b a = Eq) by (by rewrite (cmp_sym cmp), Hab).
  assert (Hle : cmp a c <> Gt <-> cmp b c <> Gt) by (split; intros; eapply (cmp_trans cmp); eauto; congruence).
  assert (Hge : cmp c a <> Gt <-> cmp c b <> Gt) by (split; intros; eapply (cmp_trans cmp); eauto; congruence).
  rewrite (cmp_sym cmp a c), (cmp_sym cmp b c) in Hge.
  destruct (cmp a c), (cmp b c); simpl in *; tauto || intuition congruence.
Qed.

Lemma cmp_eq_r a b c : cmp a b = Eq -> cmp c a = cmp c b.
Proof using All. intros Hab. rewrite (cmp_sym cmp a c), (cmp_sym cmp b c). by rewrite (cmp_eq_l a b c). Qed.

Lemma cmp_lt_le a b c : cmp a b = Lt -> cmp b c <> Gt -> cmp a c = Lt.
Proof using All.
  intros Hab Hbc. destruct (cmp a c) eqn:E; [|done|].
  - rewrite (cmp_eq_l a c b E) in Hab. by rewrite (cmp_sym cmp), Hab in Hbc.
  - exfalso. apply (cmp_trans cmp a b c); congruence.
Qed.

Lemma cmp_le_lt a b c : cmp a b <> Gt -> cmp b c = Lt -> cmp a c = Lt.
Proof using All.
  intros Hab Hbc. destruct (cmp a b) eqn:E; [by rewrite (cmp_eq_l a b c)| |done].
  eapply cmp_lt_le; [exact E|congruence].
Qed.
End order.

#[export] Instance key_cmp_order k : TotalOrder (key_cmp k).
Proof.
  split.
  - intros v w. unfold key_cmp. destruct (is_null v), (is_null w), (sk_nulls k); try done;
      rewrite (bytes_cmp_antisym (value_key v) (value_key w)); by destruct (sk_direction k).
  - intros u v w. unfold key_cmp. destruct (is_null u), (is_null v), (is_null w), (sk_nulls k); try done;
      (destruct (sk_direction k); [by apply bytes_cmp_le_trans|]);
      rewrite <- !bytes_cmp_antisym; intros; by eapply bytes_cmp_le_trans.
Qed.

#[export] Instance keys_cmp_order keys : TotalOrder (keys_cmp keys).
Proof.
  split.
  - induction keys as [|k keys IH]; intros [|v a] [|w b]; try done. simpl. rewrite (cmp_sym (key_cmp k) v w).
    destruct (key_cmp k v w); simpl; auto.
  - induction keys as [|k keys IH]; intros [|u a] [|v b] [|w c]; try done. simpl.
    pose proof (cmp_trans (key_cmp k) u v w) as Ht.
    destruct (key_cmp k u v) eqn:E1; destruct (key_cmp k v w) eqn:E2; try done.
    + rewrite (cmp_eq_l (key_cmp k) _ _ _ E1), E2. apply IH.
    + by rewrite (cmp_eq_l (key_cmp k) _ _ _ E1), E2.
    + by rewrite <- (cmp_eq_r (key_cmp k) _ _ _ E2), E1.
    + rewrite (cmp_lt_le (key_cmp k) u v w); [done..|congruence].
Qed.

Lemma pullback_order {A B} (f : A -> B) cmp : TotalOrder cmp -> TotalOrder (fun a b => cmp (f a) (f b)).
Proof. intros Hc. split; intros; [apply (cmp_sym cmp)|by eapply (cmp_trans cmp)]. Qed.

(** Rows with their keys. *)
Definition key_order (keys : list SortKey) (x y : row * row) : comparison := keys_cmp keys x.2 y.2.

#[export] Instance key_order_total keys : TotalOrder (key_order keys).
Proof. apply (pullback_order snd), _. Qed.

(** ** Stable sorting *)

Section stable.
Context {A : Type} (cmp : A -> A -> comparison) `{!TotalOrder cmp}.

Definition cmp_le (a b : A) : Prop := cmp a b <> Gt.
Definition same (a b : A) : bool := match cmp a b with Eq => true | _ => false end.

Fixpoint ins_stable (x : A) (l : list A) : list A :=
  match l with
  | [] => [x]
  | y :: l' => if is_lt (cmp x y) then x :: l else y :: ins_stable x l'
  end.

Definition isort (l : list A) : list A := fold_left (fun acc x => ins_stable x acc) l [].

Lemma ins_stable_perm x l : ins_stable x l ≡ₚ x :: l.
Proof using.
  induction l as [|y l IH]; simpl; [done|]. destruct (is_lt _); [done|]. rewrite IH. constructor.
Qed.

Lemma ins_stable_sorted x l : StronglySorted cmp_le l -> StronglySorted cmp_le (ins_stable x l).
Proof using All.
  induction 1 as [|y l Hl IH Hy]; simpl; [repeat constructor|].
  destruct (cmp x y) eqn:E; simpl.
  1,3: constructor; [done|]; rewrite ins_stable_perm; constructor; [|done]; unfold cmp_le;
    rewrite (cmp_sym cmp), E; done.
  constructor; [by constructor|]. constructor; [by unfold cmp_le; rewrite E|].
  eapply Forall_impl; [exact Hy|]. intros z Hz. unfold cmp_le. by rewrite (cmp_lt_le cmp x y z).
Qed.

(** The new element goes behind the ones equal to it and disturbs no class. *)
Lemma ins_stable_class x l k : StronglySorted cmp_le l ->
  List.filter (same k) (ins_stable x l) = List.filter (same k) l ++ List.filter (same k) [x].
Proof using All.
  induction 1 as [|y l Hl IH Hy]; [done|]. cbn [ins_stable]. destruct (cmp x y) eqn:E; cbn [is_lt].
  1,3: cbn [List.filter]; rewrite IH; by destruct (same k y).
  destruct (same k x) eqn:Ek; cbn [List.filter]; rewrite Ek; [|by rewrite app_nil_r].
  assert (Hno : Forall (fun z => same k z = false) (y :: l)).
  { unfold same in *. destruct (cmp k x) eqn:Ekx; try done.
    apply Forall_forall. intros z Hz. rewrite (cmp_eq_l cmp k x z Ekx).
    rewrite (cmp_lt_le cmp x y z); [done..|]. apply elem_of_cons in Hz as [->|Hz]; [by rewrite (cmp_self cmp)|].
    rewrite Forall_forall in Hy. by apply Hy. }
  assert (Hnil : List.filter (same k) (y :: l) = []).
  { clear -Hno. induction Hno as [|z l' Hz _ IH]; simpl; [done|]. by rewrite Hz. }
  cbn [List.filter] in Hnil. by rewrite Hnil.
Qed.

Lemma isort_app l x : isort (l ++ [x]) = ins_stable x (isort l).
Proof using. unfold isort. by rewrite fold_left_app. Qed.

Lemma isort_sorted l : StronglySorted cmp_le (isort l).
Proof using All.
  induction l as [|x l IH] using rev_ind; [constructor|]. rewrite isort_app. by apply ins_stable_sorted.
Qed.

Lemma isort_perm l : isort l ≡ₚ l.
Proof using.
  induction l as [|x l IH] using rev_ind; [done|]. rewrite isort_app, ins_stable_perm, IH. by rewrite Permutation_cons_append.
Qed.

Lemma isort_stable k l : List.filter (same k) (isort l) = List.filter (same k) l.
Proof using All.
  induction l as [|x l IH] using rev_ind; [done|].
  rewrite isort_app, ins_stable_class, IH, List.filter_app by apply isort_sorted. done.
Qed.

(** [l'] is [l] sorted stably: the same elements in order, equal ones in the order of [l]. *)
Definition stably_sorted (l l' : list A) : Prop :=
  l' ≡ₚ l /\ StronglySorted cmp_le l' /\ forall k, List.filter (same k) l' = List.filter (same k) l.

Lemma isort_spec l : stably_sorted l (isort l).
Proof using All. split_and!; [apply isort_perm|apply isort_sorted|intros k; apply isort_stable]. Qed.

(** Sorted and stable leaves one possibility: every stable sort gives what [isort] gives. *)
Lemma stable_sort_unique l1 l2 : StronglySorted cmp_le l1 -> StronglySorted cmp_le l2 ->
  (forall k, List.filter (same k) l1 = List.filter (same k) l2) -> l1 = l2.
Proof using All.
  intros H1. revert l2. induction H1 as [|a l1 H1 IH Ha]; intros l2 H2 Heq.
  - destruct l2 as [|b l2]; [done|]. specialize (Heq b). simpl in Heq. unfold same in Heq.
    by rewrite (cmp_self cmp) in Heq.
  - destruct H2 as [|b l2 H2 Hb].
    { specialize (Heq a). simpl in Heq. unfold same in Heq. by rewrite (cmp_self cmp) in Heq. }
    assert (Hab : same a b = true).
    { assert (Hin : forall x y l l', Forall (cmp_le y) l' -> List.filter (same x) (x :: l) = List.filter (same x) (y :: l') ->
        cmp y x <> Gt).
      { intros x y l l' Hl' Hf. destruct (same x y) eqn:E.
        - unfold same in E. rewrite (cmp_sym cmp x y). by destruct (cmp x y).
        - simpl in Hf. rewrite E in Hf. unfold same in Hf at 1. rewrite (cmp_self cmp) in Hf.
          assert (Hx : In x (List.filter (same x) l')) by (rewrite <- Hf; by left).
          apply List.filter_In in Hx as [Hx _]. rewrite Forall_forall in Hl'. by apply Hl', list_elem_of_In. }
      pose proof (Hin b a l2 l1 Ha (eq_sym (Heq b))) as H3. pose proof (Hin a b l1 l2 Hb (Heq a)) as H4.
      rewrite (cmp_sym cmp a b) in H4. unfold same. by destruct (cmp a b). }
    pose proof (Heq a) as Haa. simpl in Haa. rewrite Hab in Haa. unfold same in Haa at 1.
    rewrite (cmp_self cmp) in Haa. injection Haa as -> _. f_equal. apply IH; [done|].
    intros k. specialize (Heq k). simpl in Heq. destruct (same k b); [by injection Heq|done].
Qed.

Lemma stably_sorted_isort l l' : stably_sorted l l' -> l' = isort l.
Proof using All.
  intros (_ & Hs & Hf). apply stable_sort_unique; [done|apply isort_sorted|].
  intros k. by rewrite Hf, isort_stable.
Qed.
End stable.

(** [stable_sort] with a comparison that is defined on the elements. *)
Lemma insert_after_ok {A} (less : A -> A -> option bool) cmp x l :
  Forall (fun y => less x y = Some (is_lt (cmp x y))) l -> insert_after less x l = Some (ins_stable cmp x l).
Proof.
  induction 1 as [|y l Hy _ IH]; simpl; [done|]. rewrite Hy, IH. by destruct (is_lt _).
Qed.

Lemma stable_sort_ok {A} (less : A -> A -> option bool) cmp l :
  (forall x y, x ∈ l -> y ∈ l -> less x y = Some (is_lt (cmp x y))) ->
  stable_sort less l = Some (isort cmp l).
Proof.
  intros Hless. unfold stable_sort.
  destruct (each_inv (fun k acc => acc = isort cmp (take k l)) l (insert_after less) []) as (acc & -> & ->);
    [done| |by rewrite take_ge].
  intros k x acc Hk ->. exists (isort cmp (take (S k) l)). split; [|done].
  rewrite (take_S_r _ _ _ Hk), isort_app. apply insert_after_ok. rewrite isort_perm.
  apply Forall_forall. intros y Hy. apply Hless; [by eapply list_elem_of_lookup_2|].
  apply list_elem_of_lookup in Hy as [j [Hj _]%lookup_take_Some]. by eapply list_elem_of_lookup_2.
Qed.

Lemma isort_map {A B} (f : A -> B) cmp l : map f (isort (fun a b => cmp (f a) (f b)) l) = isort cmp (map f l).
Proof.
  assert (Hins : forall x l', map f (ins_stable (fun a b => cmp (f a) (f b)) x l') = ins_stable cmp (f x) (map f l')).
  { intros x l'. induction l' as [|y l' IH]; simpl; [done|]. destruct (is_lt _); simpl; by rewrite ?IH. }
  induction l as [|x l IH] using rev_ind; [done|]. rewrite map_app. cbn [map].
  by rewrite !isort_app, Hins, IH.
Qed.

(** ** Rows *)

Lemma three_way_z a b : Some (three_way Z.ltb a b) = Some (match a ?= b with Lt => -1 | Eq => 0 | Gt => 1 end).
Proof.
  f_equal. unfold three_way. destruct (Z.ltb_spec a b), (Z.ltb_spec b a), (Z.compare_spec a b); done || lia.
Qed.

(** Values that the comparison orders: no NaN. *)
Definition no_nan (v : Value) : Prop := match v with VF64 b => f64_is_nan b = false | _ => True end.

Lemma compare_typed_ok lc rc li ri : cv_wf lc -> cv_wf rc -> cv_type lc = cv_type rc ->
  emittable (cv_type lc) = true -> 0 <= li < cv_size lc -> 0 <= ri < cv_size rc ->
  is_null (cell lc li) = false -> is_null (cell rc ri) = false -> no_nan (cell lc li) -> no_nan (cell rc ri) ->
  compare_typed lc li rc ri =
    Some (match bytes_cmp (value_key (cell lc li)) (value_key (cell rc ri)) with Lt => -1 | Eq => 0 | Gt => 1 end).
Proof.
  intros Hl Hr Hty Ht Hli Hri Hln Hrn Hlv Hrv. unfold compare_typed. rewrite bool_decide_true by done.
  pose proof (cell_typed lc li Hl Hli) as [Hlt|[Hlt _]]; [by rewrite Hlt in Hln|].
  pose proof (cell_typed rc ri Hr Hri) as [Hrt|[Hrt _]]; [by rewrite Hrt in Hrn|].
  rewrite <- Hty in Hrt.
  destruct (cv_type lc) eqn:Et; try discriminate; destruct (cell lc li) eqn:El; try discriminate;
    destruct (cell rc ri) eqn:Er; try discriminate; cbn [value_key]; rewrite ?key_cmp_one; simpl in Hlv, Hrv.
  - rewrite (cv_get_i32_ok lc li v), (cv_get_i32_ok rc ri v0) by done. apply three_way_z.
  - rewrite (cv_get_i64_ok lc li v), (cv_get_i64_ok rc ri v0) by done. apply three_way_z.
  - rewrite (cv_get_f64_ok lc li bits), (cv_get_f64_ok rc ri bits0) by done.
    rewrite <- three_way_z. unfold three_way, f64_lt. by rewrite Hlv, Hrv.
  - rewrite (cv_get_str_ok lc li s), (cv_get_str_ok rc ri s0) by done.
    unfold three_way, string_lt, string_cmp.
    rewrite (bytes_cmp_antisym (bytes_of_string s) (bytes_of_string s0)). by destruct (bytes_cmp _ _).
Qed.

(** The columns of the keys order two rows as their keys do. *)
Lemma less_loop_ok sg keys : forall lcols rcols m n li ri,
  Forall (fun k => emittable (output_type (sk_expr k)) = true) keys ->
  Forall2 (col_ok m) (project_sig sg (map sk_expr keys)) lcols ->
  Forall2 (col_ok n) (project_sig sg (map sk_expr keys)) rcols ->
  0 <= li < m -> 0 <= ri < n ->
  Forall no_nan (row_at lcols li) -> Forall no_nan (row_at rcols ri) ->
  less_loop keys lcols rcols li ri = Some (is_lt (keys_cmp keys (row_at lcols li) (row_at rcols ri))).
Proof.
  induction keys as [|k keys IH]; intros lcols rcols m n li ri Ht Hl Hr Hli Hri Hln Hrn; [done|].
  simpl in Hl, Hr. inversion Hl as [|s lc sg' lcols' Hlc Hl']; subst. inversion Hr as [|s' rc sg'' rcols' Hrc Hr']; subst.
  apply Forall_cons in Ht as [Hk Ht]. simpl in Hln, Hrn. apply Forall_cons in Hln as [Hlv Hln], Hrn as [Hrv Hrn].
  specialize (IH lcols' rcols' m n li ri Ht Hl' Hr' Hli Hri Hln Hrn).
  pose proof (is_null_cell _ _ _ li Hlc) as Hnl. pose proof (is_null_cell _ _ _ ri Hrc) as Hnr.
  destruct Hlc as (Hlw & Hlt & _ & Hls), Hrc as (Hrw & Hrt & _ & Hrs). simpl in Hlt, Hrt.
  cbn [less_loop row_at map keys_cmp]. rewrite !cv_is_null_ok by (done || lia). rewrite <- Hnl, <- Hnr.
  unfold key_cmp. destruct (is_null (cell lc li)) eqn:En, (is_null (cell rc ri)) eqn:En'; simpl.
  - exact IH.
  - by destruct (sk_nulls k).
  - by destruct (sk_nulls k).
  - rewrite compare_typed_ok by (done || lia || congruence).
    destruct (bytes_cmp _ _) eqn:Ec; simpl; [|by destruct (sk_direction k)..].
    destruct (sk_direction k); exact IH.
Qed.

(** ** The sorted stream *)

Section sort_stream.
Context {S : Type} `{Operator S} `{Fpu}.
Context (sg : signature) (keys : list SortKey) (fuel : nat).
Hypothesis Hkeys : Forall (well_typed sg) (map sk_expr keys).
Hypothesis Hkt : Forall (fun k => emittable (output_type (sk_expr k)) = true) keys.
Hypothesis Hsg : Forall (fun s => emittable s.1 = true) sg.

Abbreviation buffers := (Forall2 (buffered sg (map sk_expr keys))).

Definition nan_free (rss : list (list (row * row))) : Prop :=
  Forall (fun x => Forall no_nan x.2) (concat rss).

Lemma less_ok bs rss a b : buffers bs rss -> nan_free rss -> ref_in rss a -> ref_in rss b ->
  less_ keys bs a b = Some (is_lt (keys_cmp keys (ref_row rss a).2 (ref_row rss b).2)).
Proof using Hkt.
  intros Hbs Hnan Ha Hb. unfold nan_free in Hnan. rewrite Forall_forall in Hnan.
  pose proof (Hnan _ (ref_row_in _ _ Ha)) as Hna. pose proof (Hnan _ (ref_row_in _ _ Hb)) as Hnb.
  destruct (ref_buffer sg (map sk_expr keys) bs rss a Hbs Ha) as (ba & rsa & A1 & A2 & A3 & _ & A5).
  destruct (ref_buffer sg (map sk_expr keys) bs rss b Hbs Hb) as (bb & rsb & K1 & K2 & K3 & _ & K5).
  unfold less_. rewrite A1, K1, <- A5, <- K5 in *.
  eapply less_loop_ok; [exact Hkt|apply (bf_keys _ _ _ _ A2)|apply (bf_keys _ _ _ _ K2)|done..].
Qed.

(** Sorting the references sorts the rows. *)
Lemma sort_refs_ok bs rss : buffers bs rss -> nan_free rss ->
  exists perm, stable_sort (less_ keys bs) (row_refs bs) = Some perm /\ Forall (ref_in rss) perm /\
    map (ref_row rss) perm = isort (key_order keys) (concat rss).
Proof using Hkt.
  intros Hbs Hnan. destruct (row_refs_ok sg (map sk_expr keys) bs rss Hbs) as [Hmap Hin].
  eexists. split_and!.
  - apply (stable_sort_ok _ (fun a b => keys_cmp keys (ref_row rss a).2 (ref_row rss b).2)).
    intros x y Hx Hy. rewrite Forall_forall in Hin. by apply less_ok; auto.
  - by rewrite isort_perm.
  - by rewrite (isort_map (ref_row rss) (key_order keys)), Hmap.
Qed.

(** ** Emission *)

Definition sort_state (child : S) (bs : list (Chunk * list ColumnVector)) (perm : list RowRef) (cursor : Z) : Sort S :=
  mkSort child keys bs perm cursor true true.

Lemma sort_src_ok bs rss rr j s : buffers bs rss -> ref_in rss rr -> sg !! j = Some s ->
  src_col s (sort_src bs j rr) ((ref_row rss rr).1 !! j).
Proof using.
  intros Hbs Hin Hj. destruct (ref_buffer sg (map sk_expr keys) bs rss rr Hbs Hin) as (b & rs & Hb & Hbf & Hr & <- & _).
  pose proof (ckw_cols _ _ (bf_wf _ _ _ _ Hbf)) as Hcols. rewrite (bf_count _ _ _ _ Hbf) in Hcols.
  destruct (Forall2_lookup_l _ _ _ _ _ Hcols Hj) as (col & Hcol & Hwf & Hty & Hn & Hsz).
  exists (Some (col, rr.2)). unfold sort_src. rewrite Hb, Hcol. split_and!; [done| |].
  - simpl. split_and!; try done; try lia. by rewrite Hn.
  - unfold row_at. by rewrite list_lookup_fmap, Hcol.
Qed.

(** A slice of the references is emitted as a chunk with their rows. *)
Lemma emit_slice_ok child bs rss perm cur first last : buffers bs rss -> Forall (ref_in rss) perm ->
  0 <= first < last -> last <= zlen perm -> last - first <= CHUNK_SIZE ->
  exists c, emit_slice_ (sort_state child bs perm cur) first last = Some c /\ chunk_good sg c /\
    chunk_rows c = map (fst ∘ ref_row rss) (slice first (last - first) perm).
Proof using Hsg.
  intros Hbs Hin Hfl Hlast Hsz. unfold emit_slice_. rewrite (proj2 (Z.ltb_lt _ _)) by lia. cbn [s_buffered s_perm sort_state].
  set (refs := slice first (last - first) perm).
  assert (Hrefs : zlen refs = last - first) by (unfold zlen in *; unfold refs; rewrite slice_length by (unfold zlen; lia); lia).
  assert (Hrin : Forall (ref_in rss) refs) by (by apply Forall_take, Forall_drop).
  destruct Hbs as [|b rs bs rss Hb Hbs].
  { destruct refs as [|rr refs']; [unfold zlen in Hrefs; simpl in Hrefs; lia|].
    apply Forall_cons in Hrin as [(rs & Hrs & _) _]. by rewrite lookup_nil in Hrs. }
  cbn [head]. rewrite (columns_sig _ _ _ (ckw_cols _ _ (bf_wf _ _ _ _ Hb))).
  assert (Hbs' : buffers (b :: bs) (rs :: rss)) by (by constructor).
  destruct (emit_columns_ok (sort_src (b :: bs)) refs (map (fst ∘ ref_row (rs :: rss)) refs) sg)
    as (cols & -> & Hcols & Hrows); [done| |].
  { apply Forall2_fmap_r, Forall_Forall2_diag. eapply Forall_impl; [exact Hrin|]. intros rr Hrr. split.
    - simpl. destruct (ref_buffer _ _ _ _ _ Hbs' Hrr) as (b' & rs' & _ & Hbf & _ & <- & _).
      unfold row_at. rewrite length_map. symmetry. apply (Forall2_length _ _ _ (ckw_cols _ _ (bf_wf _ _ _ _ Hbf))).
    - intros j s Hj. by apply sort_src_ok. }
  rewrite Hrefs in *. unfold CHUNK_SIZE in *.
  destruct (chunk_new_ok sg (last - first) cols) as [-> Hg]; [unfold MAX_ROWS; lia|done|].
  eexists. by split_and!.
Qed.

(** Once sorted, the rest of the references is emitted slice by slice. *)
Lemma sort_emit child bs rss perm : buffers bs rss -> Forall (ref_in rss) perm ->
  forall m cursor, 0 <= cursor -> zlen perm - cursor <= Z.of_nat m ->
  exists cs', runs fuel (sort_state child bs perm cursor) cs' None /\ Forall (chunk_good sg) cs' /\
    rows_of cs' = map (fst ∘ ref_row rss) (drop (Z.to_nat cursor) perm).
Proof using Hsg.
  intros Hbs Hin. induction m as [|m IH]; intros cursor Hc Hm.
  - exists []. split_and!; [|done|].
    + eapply runs_end. simpl. unfold sort_next. simpl. by rewrite (proj2 (Z.leb_le _ _)) by lia.
    + rewrite drop_ge; [done|]. unfold zlen in Hm. lia.
  - destruct (Z.leb_spec (zlen perm) cursor) as [Hle|Hgt]; [apply IH; lia|].
    set (last := Z.min (cursor + CHUNK_SIZE) (zlen perm)). assert (CHUNK_SIZE = 1024) by done.
    destruct (emit_slice_ok child bs rss perm cursor cursor last) as (c & Hc1 & Hc2 & Hc3);
      [done|done|unfold last; lia..|].
    destruct (IH last) as (cs' & Hr & Hg & Hrows); [unfold last; lia..|].
    exists (c :: cs'). split_and!; [|by constructor|].
    + eapply runs_chunk; [|exact Hr]. simpl. unfold sort_next. cbn [s_opened s_consumed s_perm s_emit_cursor sort_state].
      rewrite (proj2 (Z.leb_gt _ _)) by lia. fold last. by rewrite Hc1.
    + simpl. fold (rows_of cs'). rewrite Hrows, Hc3, <- map_app. f_equal. unfold slice.
      rewrite <- (take_drop (Z.to_nat (last - cursor)) (drop (Z.to_nat cursor) perm)) at 2.
      f_equal. rewrite drop_drop. f_equal. unfold last. lia.
Qed.

End sort_stream.

Definition sample_key : SortKey := mkSortKey (ColumnRef 0 INT32) ASC LAST.

Lemma sample_key_typed : Forall (well_typed sample_sig) (map sk_expr [sample_key]).
Proof. constructor; [|constructor]. split; [done|]. simpl. eauto. Qed.

