(* ===== verification/Probing.v ===== *)
(** * Open addressing with linear probing

    The loop that [HashJoin] and [HashAggregate] (src/src/executor/hash_join.cpp,
    hash_aggregate.cpp) share: from a home slot on, a table whose size is a power of two is
    searched until a free slot, [slot = (slot + 1u) & mask].  [probe_scan] is that loop with a body;
    [probing] is the invariant of a table that was filled by it, and [scan_probing] what a
    later search sees: the entries with the searched hash in the order of their insertion. *)

From S2P Require Import Prelude.

Section probing.
Context {E : Type} (occ : E -> bool) (hash : E -> Z).

(** [while (occupied(table[slot])) { body; slot = (slot + 1u) & mask; }]; the body says whether
    it breaks out.  The result is the state and the slot at the end; a table without a free
    slot makes the loop run for ever ([None]). *)
Fixpoint probe_scan {St} (fuel : nat) (table : list E) (mask slot : Z) (body : E -> St -> option (St * bool))
    (s : St) : option (St * Z) :=
  match fuel with
  | O => None
  | S fuel' =>
      let! e := table !! Z.to_nat slot in
      if occ e then
        let! (s, stop) := body e s in
        if stop : bool then Some (s, slot)
        else probe_scan fuel' table mask (Z.land (wrap 32 (slot + 1)) mask) body s
      else Some (s, slot)
  end.

(** [while (occupied(table[slot])) slot = (slot + 1u) & mask; table[slot] = e;] *)
Definition probe_insert (mask : Z) (e : E) (table : list E) : option (list E) :=
  let! (_, slot) := probe_scan (length table) table mask (Z.land (hash e) mask) (fun _ s => Some (s, false)) tt in
  Some (<[Z.to_nat slot := e]> table).

(** ** The entries that a search visits *)

(** The table seen from a slot on. *)
Definition rot (p : nat) (l : list E) : list E := drop p l ++ take p l.

(** [occ] holds on a prefix ... *)
Fixpoint cluster (l : list E) : list E :=
  match l with [] => [] | e :: l' => if occ e then e :: cluster l' else [] end.

(** ... and what follows it. *)
Fixpoint beyond (l : list E) : list E :=
  match l with [] => [] | e :: l' => if occ e then beyond l' else l end.

Definition home (mask h : Z) : nat := Z.to_nat (Z.land h mask).

(** The entries with a hash. *)
Definition with_hash (h : Z) (l : list E) : list E := List.filter (fun e => occ e && (hash e =? h)) l.

Record probing (k : Z) (table ins : list E) : Prop := {
  pb_bits : 0 <= k < 32;
  pb_size : zlen table = 2 ^ k;
  (* every entry is found from its home without crossing a free slot *)
  pb_home p : (p < length table)%nat ->
    Forall (fun e => occ e = true -> home (2 ^ k - 1) (hash e) <> p) (beyond (rot p table));
  (* the entries of a hash are met in the order in which they came *)
  pb_order h : with_hash h (rot (home (2 ^ k - 1) h) table) = with_hash h ins;
  pb_count : length (List.filter occ table) = length ins
}.

(** ** Lemmas *)

Lemma length_rot p l : length (rot p l) = length l.
Proof using. unfold rot. rewrite length_app, length_drop, length_take. lia. Qed.

Lemma rot_perm p l : rot p l ≡ₚ l.
Proof using. unfold rot. rewrite Permutation_app_comm. by rewrite take_drop. Qed.

Lemma rot_next p l a r : (p < length l)%nat -> rot p l = a :: r ->
  l !! p = Some a /\ rot (if decide (p + 1 = length l)%nat then 0%nat else (p + 1)%nat) l = r ++ [a].
Proof using.
  intros Hp Hr. unfold rot in Hr. destruct (lookup_lt_is_Some_2 l p Hp) as [b Hb].
  rewrite (drop_S _ _ _ Hb) in Hr. injection Hr as -> <-. split; [done|].
  unfold rot. case_decide as Hd.
  - rewrite drop_0, take_0, app_nil_r. rewrite drop_ge by lia. simpl.
    rewrite <- (take_S_r _ _ _ Hb). by rewrite take_ge by lia.
  - replace (p + 1)%nat with (S p) by lia. rewrite (take_S_r _ _ _ Hb). by rewrite app_assoc.
Qed.

Lemma cluster_beyond l : l = cluster l ++ beyond l.
Proof using. induction l as [|e l IH]; simpl; [done|]. destruct (occ e); simpl; congruence. Qed.

Lemma cluster_occ l : Forall (fun e => occ e = true) (cluster l).
Proof using. induction l as [|e l IH]; simpl; [done|]. destruct (occ e) eqn:He; by constructor. Qed.

Lemma beyond_free l x r : beyond l = x :: r -> occ x = false.
Proof using. induction l as [|e l IH]; simpl; [done|]. destruct (occ e) eqn:He; [done|]. by intros [= <- _]. Qed.

Lemma filter_false l (f : E -> bool) : Forall (fun e => f e = false) l -> List.filter f l = [].
Proof using. induction 1 as [|e l He _ IH]; simpl; [done|]. by rewrite He. Qed.

(** A table with fewer entries than slots has a free slot on every path. *)
Lemma beyond_cons k table ins p : probing k table ins -> (length ins < length table)%nat ->
  exists x r, beyond (rot p table) = x :: r.
Proof using.
  intros Hpb Hlt. destruct (beyond (rot p table)) as [|x r] eqn:Hb; [|by eauto].
  exfalso. pose proof (cluster_beyond (rot p table)) as Hc. rewrite Hb, app_nil_r in Hc.
  pose proof (cluster_occ (rot p table)) as Ho. rewrite <- Hc in Ho. rewrite rot_perm in Ho.
  pose proof (pb_count _ _ _ Hpb) as Hn. rewrite <- Hn in Hlt.
  assert (Hall : List.filter occ table = table).
  { clear -Ho. induction Ho as [|e l He _ IH]; simpl; [done|]. rewrite He. by rewrite IH. }
  rewrite Hall in Hlt. lia.
Qed.

(** What a search for [h] meets: the entries of the hash, and no other has it beyond. *)
Lemma with_hash_cluster k table ins h : probing k table ins -> Z.land h (2 ^ k - 1) < 2 ^ k ->
  0 <= Z.land h (2 ^ k - 1) ->
  with_hash h (cluster (rot (home (2 ^ k - 1) h) table)) = with_hash h ins.
Proof using.
  intros Hpb Hlt H0. rewrite <- (pb_order _ _ _ Hpb h). set (l := rot _ table).
  rewrite (cluster_beyond l) at 2. unfold with_hash. rewrite List.filter_app.
  rewrite (filter_false (beyond l)), app_nil_r; [done|].
  pose proof (pb_home _ _ _ Hpb (home (2 ^ k - 1) h)) as Hh. pose proof (pb_size _ _ _ Hpb).
  eapply Forall_impl; [apply Hh; unfold home, zlen in *; lia|].
  intros e He. cbv beta in He. destruct (occ e); [|done]. simpl. apply Z.eqb_neq. intros <-. by apply He.
Qed.

(** The slot at distance [d] from [p]. *)
Definition slot_at (n p d : nat) : nat := if decide (p + d < n)%nat then (p + d)%nat else (p + d - n)%nat.

Lemma rot_app P Q : rot (length P) (P ++ Q) = Q ++ P.
Proof using. unfold rot. by rewrite drop_app_length, take_app_length. Qed.

Lemma rot_insert p d l e : (p < length l)%nat -> (d < length l)%nat ->
  rot p (<[slot_at (length l) p d := e]> l) = <[d := e]> (rot p l) /\
  l !! slot_at (length l) p d = rot p l !! d.
Proof using.
  intros Hp Hd. assert (HP : length (take p l) = p) by (rewrite length_take; lia).
  rewrite <- (take_drop p l) in Hp, Hd |- *. generalize dependent (drop p l). generalize dependent (take p l).
  intros P <- Q Hp Hd. rewrite length_app in *. rewrite rot_app. unfold slot_at. case_decide.
  - rewrite insert_app_r, rot_app, insert_app_l by lia. split; [done|].
    rewrite (lookup_app_r P Q), (lookup_app_l Q P) by lia. f_equal. lia.
  - rewrite insert_app_l by lia. rewrite <- (length_insert P (length P + d - (length P + length Q))%nat e) at 1.
    rewrite rot_app. rewrite insert_app_r_alt by lia. split; [do 2 f_equal; lia|].
    rewrite (lookup_app_l P Q), (lookup_app_r Q P) by lia. f_equal. lia.
Qed.

(** Every slot is at some distance. *)
Lemma slot_at_onto n p t : (p < n)%nat -> (t < n)%nat -> exists d, (d < n)%nat /\ slot_at n p d = t.
Proof using.
  intros Hp Ht. exists (if decide (p <= t)%nat then (t - p)%nat else (t + n - p)%nat).
  unfold slot_at. repeat case_decide; lia.
Qed.

(** Filling a free slot, seen from any slot. *)
Lemma rot_fill p t l x e : (p < length l)%nat -> l !! t = Some x ->
  exists T R, rot p l = T ++ x :: R /\ rot p (<[t := e]> l) = T ++ e :: R.
Proof using.
  intros Hp Hx. pose proof (lookup_lt_Some _ _ _ Hx) as Ht.
  destruct (slot_at_onto (length l) p t) as (d & Hd & <-); [done..|].
  destruct (rot_insert p d l e) as [-> Hl]; [done..|]. rewrite Hx in Hl. symmetry in Hl.
  exists (take d (rot p l)), (drop (S d) (rot p l)). split.
  - by rewrite take_drop_middle.
  - rewrite <- (take_drop_middle _ _ _ Hl) at 1.
    apply lookup_lt_Some in Hl. rewrite insert_app_r_alt by (rewrite length_take; lia).
    rewrite length_take. replace (d - _)%nat with 0%nat by lia. done.
Qed.

(** ** Searching *)

Lemma scan_ext {St} (body body' : E -> St -> option (St * bool)) table mask : (forall e s, body e s = body' e s) ->
  forall fuel slot s, probe_scan fuel table mask slot body s = probe_scan fuel table mask slot body' s.
Proof using.
  intros Hb. induction fuel as [|fuel IH]; intros slot s; [done|]. cbn [probe_scan]. destruct (table !! _) as [e|]; [|done].
  rewrite Hb. destruct (occ e); [|done]. by destruct (body' e s) as [[s' []]|].
Qed.

Section visits.
Context {St : Type} (body : E -> St -> option (St * bool)).

Fixpoint visits (l : list E) (s : St) : option (St * bool) :=
  match l with
  | [] => Some (s, false)
  | e :: l' =>
      let! (s, stop) := body e s in
      if stop : bool then Some (s, true) else visits l' s
  end.

Lemma next_slot k p : 0 <= k < 32 -> (p < Z.to_nat (2 ^ k))%nat ->
  Z.land (wrap 32 (Z.of_nat p + 1)) (2 ^ k - 1) =
  Z.of_nat (if decide (p + 1 = Z.to_nat (2 ^ k))%nat then 0%nat else (p + 1)%nat).
Proof using.
  intros Hk Hp. pose proof (Z.pow_pos_nonneg 2 k). assert (2 ^ k <= 2 ^ 31) by (apply Z.pow_le_mono_r; lia).
  change (2 ^ 31) with 2147483648 in *.
  rewrite wrap_id by (unfold in_u; change (2 ^ 32) with 4294967296; lia).
  replace (2 ^ k - 1) with (Z.ones k) by (rewrite Z.ones_equiv; lia). rewrite Z.land_ones by lia.
  case_decide as Hd.
  - replace (Z.of_nat p + 1) with (2 ^ k) by lia. by rewrite Z.mod_same by lia.
  - rewrite Z.mod_small by lia. lia.
Qed.

(** The loop visits the entries up to the first free slot. *)
Lemma scan_visits k table C x R : forall fuel p s,
  0 <= k < 32 -> zlen table = 2 ^ k -> (p < length table)%nat -> rot p table = C ++ x :: R ->
  Forall (fun e => occ e = true) C -> occ x = false -> (length C < fuel)%nat ->
  match visits C s with
  | None => probe_scan fuel table (2 ^ k - 1) (Z.of_nat p) body s = None
  | Some (s', true) => exists slot, probe_scan fuel table (2 ^ k - 1) (Z.of_nat p) body s = Some (s', slot)
  | Some (s', false) => probe_scan fuel table (2 ^ k - 1) (Z.of_nat p) body s =
      Some (s', Z.of_nat (slot_at (length table) p (length C)))
  end.
Proof using.
  revert R. induction C as [|c C IH]; intros R fuel p s Hk Hsz Hp Hrot HC Hx Hf;
    (destruct fuel as [|fuel]; [simpl in Hf; lia|]); cbn [probe_scan]; rewrite Nat2Z.id;
    destruct (rot_next _ _ _ _ Hp Hrot) as [Hl Hnext]; rewrite Hl.
  - simpl. rewrite Hx. unfold slot_at. rewrite decide_True by (simpl; lia). by rewrite Nat.add_0_r.
  - apply Forall_cons in HC as [Hc HC]. cbn [visits]. rewrite Hc. destruct (body c s) as [[s' [|]]|]; [by eauto| |done].
    assert (Hn : length table = Z.to_nat (2 ^ k)) by (unfold zlen in Hsz; lia).
    rewrite next_slot by (done || lia). rewrite <- Hn.
    set (p' := if decide _ then _ else _) in *.
    assert (Hp' : (p' < length table)%nat) by (unfold p'; case_decide; lia).
    rewrite <- app_assoc in Hnext. simpl in Hnext.
    specialize (IH (R ++ [c]) fuel p' s' Hk Hsz Hp' Hnext HC Hx ltac:(simpl in Hf; lia)).
    assert (Heq : slot_at (length table) p' (length C) = slot_at (length table) p (length (c :: C))).
    { assert (Hlen : (length (c :: C) < length table)%nat).
      { rewrite <- (length_rot p table), Hrot, length_app. simpl. lia. }
      simpl in Hlen |- *. unfold p', slot_at. repeat case_decide; lia. }
    by rewrite Heq in IH.
Qed.
End visits.

(** A body that looks only at the entries of one hash. *)
Lemma visits_hash {St} (f : E -> St -> option (St * bool)) h l s : Forall (fun e => occ e = true) l ->
  visits (fun e s => if hash e =? h then f e s else Some (s, false)) l s = visits f (with_hash h l) s.
Proof using.
  intros Hl. revert s. induction Hl as [|e l He _ IH]; intros s; [done|]. cbn [visits with_hash List.filter].
  rewrite He. simpl. destruct (hash e =? h); [|apply IH]. simpl. destruct (f e s) as [[s' [|]]|]; [done| |done]. apply IH.
Qed.

Section table.
Context (k : Z) (table ins : list E).
Hypothesis Hpb : probing k table ins.
Hypothesis Hroom : (length ins < length table)%nat.

Lemma home_lt h : 0 <= Z.land h (2 ^ k - 1) < 2 ^ k /\ (home (2 ^ k - 1) h < length table)%nat.
Proof using Hpb.
  clear Hroom. destruct Hpb as [Hk Hsz _ _ _]. replace (2 ^ k - 1) with (Z.ones k) by (rewrite Z.ones_equiv; lia).
  assert (0 <= Z.land h (Z.ones k) < 2 ^ k) by (rewrite Z.land_ones by lia; apply Z.mod_pos_bound; lia).
  unfold home, zlen in *. lia.
Qed.

(** Where a search that runs to its end stops. *)
Definition free_slot (h : Z) : nat :=
  slot_at (length table) (home (2 ^ k - 1) h) (length (cluster (rot (home (2 ^ k - 1) h) table))).

Lemma cluster_split p : exists x r, rot p table = cluster (rot p table) ++ x :: r /\ occ x = false /\
  (length (cluster (rot p table)) < length table)%nat.
Proof using Hpb Hroom.
  destruct (beyond_cons k table ins p Hpb Hroom) as (x & r & Hb). exists x, r.
  pose proof (cluster_beyond (rot p table)) as Hc. rewrite Hb in Hc. split_and!; [done|by eapply beyond_free|].
  apply (f_equal length) in Hc. rewrite length_rot, length_app in Hc. simpl in Hc. lia.
Qed.

Lemma free_slot_free h : exists x, table !! free_slot h = Some x /\ occ x = false.
Proof using Hpb Hroom.
  set (p := home (2 ^ k - 1) h). destruct (cluster_split p) as (x & r & Hc & Hx & Hlt).
  exists x. split; [|done]. unfold free_slot. fold p. set (C := cluster (rot p table)) in *. clearbody C.
  destruct (rot_insert p (length C) table x) as [_ ->]; [apply home_lt|done|].
  rewrite Hc. by apply list_lookup_middle.
Qed.

(** A search for [h]: the entries of the hash, in the order in which they were inserted. *)
Lemma scan_probing {St} (f : E -> St -> option (St * bool)) h s :
  Forall (fun e => occ e = true) ins ->
  let run := probe_scan (length table) table (2 ^ k - 1) (Z.land h (2 ^ k - 1))
    (fun e s => if hash e =? h then f e s else Some (s, false)) s in
  match visits f (List.filter (fun e => hash e =? h) ins) s with
  | None => run = None
  | Some (s', true) => exists slot, run = Some (s', slot)
  | Some (s', false) => run = Some (s', Z.of_nat (free_slot h))
  end.
Proof using Hpb Hroom.
  intros Hins run. set (p := home (2 ^ k - 1) h). destruct (cluster_split p) as (x & r & Hc & Hx & Hlt).
  assert (Hwh : with_hash h (cluster (rot p table)) = List.filter (fun e => hash e =? h) ins).
  { unfold p. rewrite (with_hash_cluster k table ins) by (done || apply home_lt). unfold with_hash.
    clear -Hins. induction Hins as [|e l He _ IH]; simpl; [done|]. rewrite He. simpl. by rewrite IH. }
  rewrite <- Hwh, <- visits_hash by apply cluster_occ.
  unfold run. replace (Z.land h (2 ^ k - 1)) with (Z.of_nat p) by (unfold p, home; pose proof (home_lt h); lia).
  apply (scan_visits _ k table (cluster (rot p table)) x r); [apply (pb_bits _ _ _ Hpb)|apply (pb_size _ _ _ Hpb)
    |apply home_lt|done|apply cluster_occ|done..].
Qed.

(** ** Filling the free slot *)

Lemma beyond_sub (Q : E -> Prop) l : Forall Q l -> Forall Q (beyond l).
Proof using.
  intros Hl. rewrite (cluster_beyond l) in Hl. by apply Forall_app in Hl as [_ Hl].
Qed.

Lemma beyond_fill (Q : E -> Prop) T x e R : occ x = false -> Q e ->
  Forall Q (beyond (T ++ x :: R)) -> Forall Q (beyond (T ++ e :: R)).
Proof using.
  intros Hx He. induction T as [|t T IH]; simpl.
  - rewrite Hx. rewrite Forall_cons. intros [_ HR]. destruct (occ e); [by apply beyond_sub|by constructor].
  - destruct (occ t); [done|]. rewrite !Forall_cons, !Forall_app, !Forall_cons. tauto.
Qed.

Lemma with_hash_fill h T x e R : occ x = false -> occ e = true ->
  with_hash h (T ++ e :: R) = with_hash h T ++ (if hash e =? h then [e] else []) ++ with_hash h R /\
  with_hash h (T ++ x :: R) = with_hash h T ++ with_hash h R.
Proof using.
  intros Hx He. unfold with_hash. rewrite !List.filter_app. simpl. rewrite Hx, He. simpl.
  by destruct (hash e =? h).
Qed.

(** Seen from its home the new entry ends the cluster. *)
Lemma fill_home e : exists x R, occ x = false /\
  rot (home (2 ^ k - 1) (hash e)) table = cluster (rot (home (2 ^ k - 1) (hash e)) table) ++ x :: R /\
  rot (home (2 ^ k - 1) (hash e)) (<[free_slot (hash e) := e]> table) =
    cluster (rot (home (2 ^ k - 1) (hash e)) table) ++ e :: R.
Proof using Hpb Hroom.
  set (p := home _ _). destruct (cluster_split p) as (x & R & Hc & Hx & Hlt). exists x, R. split_and!; [done..|].
  unfold free_slot. fold p. set (C := cluster (rot p table)) in *. clearbody C.
  destruct (rot_insert p (length C) table e) as [-> _]; [apply home_lt|done|].
  rewrite Hc. rewrite insert_app_r_alt, Nat.sub_diag by lia. done.
Qed.

Lemma beyond_cluster C l : Forall (fun e => occ e = true) C -> beyond (C ++ l) = beyond l.
Proof using. induction 1 as [|e C He _ IH]; simpl; [done|]. by rewrite He. Qed.

Lemma probing_fill e : occ e = true -> probing k (<[free_slot (hash e) := e]> table) (ins ++ [e]).
Proof using Hpb Hroom.
  intros He. destruct (free_slot_free (hash e)) as (x & Hl & Hx). set (t := free_slot (hash e)) in *.
  destruct (fill_home e) as (x' & R & Hx' & Hr & Hr'). fold t in Hr'.
  set (C := cluster _) in *. assert (HC : Forall (fun e => occ e = true) C) by apply cluster_occ.
  destruct (home_lt (hash e)) as [_ Hlt].
  pose proof (pb_home _ _ _ Hpb _ Hlt) as Hhome. rewrite Hr, beyond_cluster in Hhome by done. simpl in Hhome.
  rewrite Hx' in Hhome. apply Forall_cons in Hhome as [_ HR].
  split; [apply Hpb|unfold zlen; rewrite length_insert; apply Hpb|..].
  - intros p Hp. rewrite length_insert in Hp. destruct (decide (home (2 ^ k - 1) (hash e) = p)) as [<-|Hne].
    + rewrite Hr', beyond_cluster by done. simpl. rewrite He. by apply beyond_sub.
    + destruct (rot_fill p t table x e Hp Hl) as (T & R' & HT & ->).
      pose proof (pb_home _ _ _ Hpb p Hp) as Hh. rewrite HT in Hh.
      apply (beyond_fill _ T x e R' Hx); [by intros _|exact Hh].
  - intros h. unfold with_hash at 2. rewrite List.filter_app. fold (with_hash h ins).
    rewrite <- (pb_order _ _ _ Hpb h). simpl. rewrite He. simpl.
    destruct (Z.eqb_spec (hash e) h) as [<-|Hne].
    + rewrite Hr', Hr. destruct (with_hash_fill (hash e) C x' e R) as [-> ->]; [done..|].
      rewrite Z.eqb_refl. assert (with_hash (hash e) R = []) as ->; [|by rewrite !app_nil_r].
      apply filter_false. eapply Forall_impl; [exact HR|]. intros a Ha. cbv beta in Ha.
      destruct (occ a); [|done]. simpl. apply Z.eqb_neq. intros Heq. apply Ha; [done|]. by rewrite Heq.
    + rewrite app_nil_r. destruct (home_lt h) as [_ Hlh].
      destruct (rot_fill (home (2 ^ k - 1) h) t table x e Hlh Hl) as (T & R' & -> & ->).
      destruct (with_hash_fill h T x e R') as [-> ->]; [done..|]. by rewrite (proj2 (Z.eqb_neq _ _)).
  - rewrite length_app. rewrite <- (pb_count _ _ _ Hpb). simpl.
    rewrite <- (take_drop_middle _ _ _ Hl) at 2. rewrite insert_take_drop by (by eapply lookup_lt_Some).
    rewrite !List.filter_app. simpl. rewrite He, Hx, !length_app. simpl. lia.
Qed.
End table.

(** The empty table. *)
Lemma probing_empty k x : 0 <= k < 32 -> occ x = false -> probing k (replicate (Z.to_nat (2 ^ k)) x) [].
Proof using.
  intros Hk Hx. set (l := replicate _ x).
  assert (Hf : forall p, Forall (fun e => occ e = false) (rot p l)).
  { intros p. rewrite rot_perm. by apply Forall_replicate. }
  split; [done| | | |].
  - unfold zlen, l. rewrite length_replicate. lia.
  - intros p _. apply beyond_sub. eapply Forall_impl; [apply Hf|]. intros e. simpl. congruence.
  - intros h. apply filter_false. eapply Forall_impl; [apply Hf|]. intros e. simpl. by intros ->.
  - rewrite (filter_false l); [done|]. unfold l. by apply Forall_replicate.
Qed.

Lemma probe_insert_ok k table ins e : probing k table ins -> (length ins < length table)%nat ->
  Forall (fun e => occ e = true) ins -> occ e = true ->
  exists table', probe_insert (2 ^ k - 1) e table = Some table' /\ length table' = length table /\
    probing k table' (ins ++ [e]).
Proof using.
  intros Hpb Hroom Hocc He. unfold probe_insert.
  rewrite (scan_ext _ (fun x s => if hash x =? hash e then Some (s, false) else Some (s, false)))
    by (intros; by destruct (_ =? _)).
  pose proof (scan_probing k table ins Hpb Hroom (fun _ s => Some (s, false)) (hash e) tt Hocc) as Hs.
  assert (Hv : forall l (s : unit), visits (fun (_ : E) s => Some (s, false)) l s = Some (s, false)).
  { intros l s. by induction l as [|x l IH]. }
  rewrite Hv in Hs. simpl in Hs. rewrite Hs. eexists. split; [done|]. rewrite Nat2Z.id.
  split; [by rewrite length_insert|by apply probing_fill].
Qed.
End probing.
