(* ===== verification/JoinLoop.v ===== *)
(** * The streaming side of a join

    [HashJoin] and [NestedLoopJoin] (src/src/executor/hash_join.cpp, nested_loop_join.cpp) hold
    one side in memory and pull the other one chunk at a time: [load_next_*_chunk_] fetches the
    next chunk with rows and collects its matching pairs, [emit_output_slice_] writes up to
    [CHUNK_SIZE] of them as a chunk, and [next] alternates between the two.  Here the loops are
    written once, over what differs: how the pairs of a chunk are found and where an output
    column takes the row of a pair from. *)

From S2P Require Import Prelude Types SelectionVector ColumnVector Chunk Expression Operator Buffered.

Record JoinLoop (P M : Type) : Type := mkLoop {
  jl_child : P;
  jl_exhausted : bool;
  jl_chunk : option Chunk;
  jl_pairs : list M;
  jl_cursor : Z
}.
Arguments mkLoop {P M}.
Arguments jl_child {P M}.
Arguments jl_exhausted {P M}.
Arguments jl_chunk {P M}.
Arguments jl_pairs {P M}.
Arguments jl_cursor {P M}.

Section loop.
Context {P M : Type} `{Operator P}.
(** The pairs of a chunk, given the ones of the chunk before; they are kept on an error too. *)
Context (match_chunk : Chunk -> list M -> option (result unit * list M)).
(** Where a column takes the row of a pair from. *)
Context (src : Chunk -> nat -> M -> option (option (ColumnVector * Z))).
Context (schema : signature).

(** [load_next_probe_chunk_], [load_next_inner_chunk_] *)
Fixpoint load_next_chunk (fuel n : nat) (j : JoinLoop P M) : option (result bool * JoinLoop P M) :=
  match n with
  | O => None
  | S n' =>
      let! (r, child) := op_next fuel (jl_child j) in
      match r with
      | Err m => Some (Err m, mkLoop child (jl_exhausted j) (jl_chunk j) (jl_pairs j) (jl_cursor j))
      | Ok None => Some (Ok false, mkLoop child true (jl_chunk j) (jl_pairs j) (jl_cursor j))
      | Ok (Some chunk) =>
          if logical_size chunk =? 0
          then load_next_chunk fuel n' (mkLoop child (jl_exhausted j) (jl_chunk j) (jl_pairs j) (jl_cursor j))
          else
            let! chunk := materialize chunk in
            let! (r, pairs) := match_chunk chunk (jl_pairs j) in
            match r with
            | Err m => Some (Err m, mkLoop child (jl_exhausted j) (jl_chunk j) pairs (jl_cursor j))
            | Ok _ => Some (Ok true, mkLoop child (jl_exhausted j) (Some chunk) pairs 0)
            end
      end
  end.

Definition emit_output_slice (j : JoinLoop P M) : option (Chunk * JoinLoop P M) :=
  let! chunk := jl_chunk j in
  let n := Z.min CHUNK_SIZE (zlen (jl_pairs j) - jl_cursor j) in
  let! cols := emit_columns schema (src chunk) 0 (slice (jl_cursor j) n (jl_pairs j)) in
  let! out := chunk_new n cols in
  Some (out, mkLoop (jl_child j) (jl_exhausted j) (jl_chunk j) (jl_pairs j) (jl_cursor j + n)).

(** The [while (true)] of [next]. *)
Fixpoint join_loop (fuel n : nat) (j : JoinLoop P M) : option (result (option Chunk) * JoinLoop P M) :=
  match n with
  | O => None
  | S n' =>
      if jl_cursor j <? zlen (jl_pairs j)
      then let! (out, j) := emit_output_slice j in Some (Ok (Some out), j)
      else if jl_exhausted j then Some (Ok None, j)
      else
        let! (r, j) := load_next_chunk fuel fuel j in
        match r with
        | Err m => Some (Err m, j)
        | Ok _ => join_loop fuel n' j
        end
  end.

#[local] Instance Loop_Operator : Operator (JoinLoop P M) := {|
  op_open j := Some (Ok tt, j);
  op_next fuel j := join_loop fuel fuel j;
  op_close j := j
|}.

(** ** What the loop yields *)

(** The row that a pair stands for. *)
Definition pair_row (c : Chunk) (mp : M) (r : row) : Prop :=
  length r = length schema /\ forall j s, schema !! j = Some s -> src_col s (src c j mp) (r !! j).

Context (sg : signature) (good : Chunk -> Prop) (ref : list row -> option (list row)).
Hypothesis Hschema : Forall (fun s => emittable s.1 = true) schema.
(** [ref] gives the output rows for the rows of a chunk, or fails. *)
Hypothesis Hmatch : forall c c' old, chunk_wf sg c -> good c -> materialize c = Some c' -> logical_size c <> 0 ->
  exists r pairs, match_chunk c' old = Some (r, pairs) /\
    match r, ref (chunk_rows c) with
    | Ok _, Some rows => Forall2 (pair_row c') pairs rows
    | Err m, None => m = "division by zero"
    | _, _ => False
    end.

Fixpoint loop_ref (cs : list Chunk) (fin : option string) : list row * option string :=
  match cs with
  | [] => ([], fin)
  | c :: cs' =>
      if bool_decide (chunk_rows c = []) then loop_ref cs' fin
      else
        match ref (chunk_rows c) with
        | None => ([], Some "division by zero")
        | Some rows => let '(rs, f) := loop_ref cs' fin in (rows ++ rs, f)
        end
  end.

Lemma logical_size_zero c : chunk_wf sg c -> (logical_size c =? 0) = bool_decide (chunk_rows c = []).
Proof using.
  intros Hwf. pose proof (logical_size_rows _ _ Hwf) as Hl. unfold zlen in Hl.
  destruct (Z.eqb_spec (logical_size c) 0), (chunk_rows c); simpl in *; rewrite ?bool_decide_true by done; try done; lia.
Qed.

(** Loading skips empty chunks and stops at the end, at an error or with the pairs of a chunk. *)
Lemma load_ok fuel child cs fin : runs fuel child cs fin -> Forall (fun c => chunk_wf sg c /\ good c) cs ->
  forall n j, jl_child j = child -> (length cs < n)%nat ->
  exists r j', load_next_chunk fuel n j = Some (r, j') /\
    match r with
    | Err m => loop_ref cs fin = ([], Some m)
    | Ok false => loop_ref cs fin = ([], None) /\ jl_exhausted j' = true /\ jl_pairs j' = jl_pairs j /\
        jl_cursor j' = jl_cursor j
    | Ok true => exists c cs' rows, jl_chunk j' = Some c /\ jl_cursor j' = 0 /\ jl_exhausted j' = jl_exhausted j /\
        Forall2 (pair_row c) (jl_pairs j') rows /\ runs fuel (jl_child j') cs' fin /\
        Forall (fun c => chunk_wf sg c /\ good c) cs' /\ (length cs' < length cs)%nat /\
        loop_ref cs fin = (rows ++ (loop_ref cs' fin).1, (loop_ref cs' fin).2)
    end.
Proof using Hmatch.
  induction 1 as [s s' Hnext|s s' m Hnext|s s' c cs fin Hnext Hruns IH]; intros Hok n j Hj Hn;
    (destruct n as [|n]; [simpl in Hn; lia|]); cbn [load_next_chunk]; rewrite Hj, Hnext.
  - eexists (Ok false), _. split; [done|]. simpl. auto.
  - by eexists (Err m), _.
  - apply Forall_cons in Hok as [[Hwf Hg] Hok]. cbn [loop_ref]. rewrite <- (logical_size_zero c Hwf).
    destruct (Z.eqb_spec (logical_size c) 0) as [Hz|Hnz].
    + destruct (IH Hok n (mkLoop s' (jl_exhausted j) (jl_chunk j) (jl_pairs j) (jl_cursor j))) as (r & j' & -> & Hr);
        [done|simpl in Hn; lia|].
      exists r, j'. split; [done|]. destruct r as [[]|]; [|done..].
      destruct Hr as (c1 & cs1 & rows & H1 & H2 & H3 & H4 & H5 & H6 & H7 & H8). exists c1, cs1, rows.
      split_and!; try done. simpl. lia.
    + destruct (materialize_ok sg c Hwf) as (c' & Hm & _). rewrite Hm.
      destruct (Hmatch c c' (jl_pairs j) Hwf Hg Hm Hnz) as (r & pairs & -> & Hr).
      destruct r as [[]|m], (ref (chunk_rows c)) as [rows|]; try done.
      * eexists (Ok true), _. split; [done|]. exists c', cs, rows. split_and!; try done; [simpl; lia|].
        by destruct (loop_ref cs fin).
      * subst m. by eexists (Err _), _.
Qed.

Lemma emit_ok j c rows : jl_chunk j = Some c -> Forall2 (pair_row c) (jl_pairs j) rows ->
  0 <= jl_cursor j < zlen (jl_pairs j) ->
  let n := Z.min CHUNK_SIZE (zlen (jl_pairs j) - jl_cursor j) in
  exists out, emit_output_slice j =
      Some (out, mkLoop (jl_child j) (jl_exhausted j) (jl_chunk j) (jl_pairs j) (jl_cursor j + n)) /\
    chunk_good schema out /\ chunk_rows out = slice (jl_cursor j) n rows.
Proof using Hschema.
  intros Hc Hrows Hcur n. unfold emit_output_slice. rewrite Hc. fold n.
  assert (CHUNK_SIZE = 1024) as HC by done.
  assert (Hn : 0 < n <= 1024 /\ jl_cursor j + n <= zlen (jl_pairs j)) by (unfold n; lia).
  assert (Hlen : zlen (slice (jl_cursor j) n (jl_pairs j)) = n)
    by (unfold zlen in *; rewrite slice_length by (unfold zlen; lia); lia).
  destruct (emit_columns_ok (src c) (slice (jl_cursor j) n (jl_pairs j)) (slice (jl_cursor j) n rows) schema)
    as (cols & -> & Hcols & Hr); [done|by apply Forall2_take, Forall2_drop|].
  rewrite Hlen in *. destruct (chunk_new_ok schema n cols) as [-> Hg]; [unfold MAX_ROWS; lia|done|].
  eexists. by split_and!.
Qed.

(** The rest of the pairs comes first. *)
Lemma loop_pairs fuel c rows rest fin m : (0 < fuel)%nat -> forall j, jl_chunk j = Some c ->
  Forall2 (pair_row c) (jl_pairs j) rows -> 0 <= jl_cursor j -> zlen (jl_pairs j) - jl_cursor j <= Z.of_nat m ->
  (forall j', jl_child j' = jl_child j -> jl_exhausted j' = jl_exhausted j -> jl_pairs j' = jl_pairs j ->
     zlen (jl_pairs j') <= jl_cursor j' -> exists cs', runs fuel j' cs' fin /\ Forall (chunk_good schema) cs' /\
       rows_of cs' = rest) ->
  exists cs', runs fuel j cs' fin /\ Forall (chunk_good schema) cs' /\
    rows_of cs' = drop (Z.to_nat (jl_cursor j)) rows ++ rest.
Proof using Hschema.
  intros Hfuel. induction m as [|m IH]; intros j Hc Hrows H0 Hm Hk.
  - destruct (Hk j) as (cs' & Hr & Hg & Hrs); [done|done|done|lia|]. exists cs'. split_and!; [done..|].
    apply Forall2_length in Hrows. rewrite drop_ge by (unfold zlen in *; lia). done.
  - destruct (Z.ltb_spec (jl_cursor j) (zlen (jl_pairs j))) as [Hlt|Hge]; [|apply IH; [done..|lia|done]].
    destruct (emit_ok j c rows Hc Hrows) as (out & He & Hg & Hout); [lia|].
    set (n := Z.min CHUNK_SIZE (zlen (jl_pairs j) - jl_cursor j)) in *.
    assert (CHUNK_SIZE = 1024) as HC by done. assert (Hn : 0 < n) by (unfold n; lia).
    destruct (IH (mkLoop (jl_child j) (jl_exhausted j) (jl_chunk j) (jl_pairs j) (jl_cursor j + n)))
      as (cs' & Hr & Hgs & Hrs); [done|done|simpl; lia..|exact Hk|].
    exists (out :: cs'). split_and!; [|by constructor|].
    + eapply runs_chunk; [|exact Hr]. simpl. destruct fuel as [|fuel]; [lia|]. cbn [join_loop].
      rewrite (proj2 (Z.ltb_lt _ _)) by lia. by rewrite He.
    + simpl. fold (rows_of cs'). rewrite Hrs, Hout. simpl. rewrite app_assoc. f_equal. unfold slice.
      rewrite <- (take_drop (Z.to_nat n) (drop (Z.to_nat (jl_cursor j)) rows)) at 2. f_equal.
      rewrite drop_drop. f_equal. lia.
Qed.

(** What the outcome of one call says about the whole stream. *)
Definition first_step (fuel : nat) (x : result (option Chunk) * JoinLoop P M) (cs : list Chunk) (fin : option string) : Prop :=
  match x with
  | (Ok None, _) => cs = [] /\ fin = None
  | (Err m, _) => cs = [] /\ fin = Some m
  | (Ok (Some c), j) => exists cs', cs = c :: cs' /\ runs fuel j cs' fin
  end.

Lemma runs_first fuel j x cs fin : join_loop fuel fuel j = Some x -> first_step fuel x cs fin -> runs fuel j cs fin.
Proof using.
  intros Hx Hs. destruct x as [[[c|]|m] j']; simpl in Hs.
  - destruct Hs as (cs' & -> & Hr). by eapply runs_chunk.
  - destruct Hs as [-> ->]. by eapply runs_end.
  - destruct Hs as [-> ->]. by eapply runs_err.
Qed.

Lemma first_runs fuel j cs fin : runs fuel j cs fin -> exists x, join_loop fuel fuel j = Some x /\ first_step fuel x cs fin.
Proof using. intros Hr. inversion Hr as [? s' Hn|? s' m Hn|? s' c cs' ? Hn Hr']; subst; eexists; split; try exact Hn; simpl; eauto. Qed.

Lemma loop_step fuel k : forall cs fin n j, length cs = k -> runs fuel (jl_child j) cs fin ->
  Forall (fun c => chunk_wf sg c /\ good c) cs -> (length cs + 1 < fuel)%nat -> (length cs + 1 < n)%nat ->
  jl_exhausted j = false -> zlen (jl_pairs j) <= jl_cursor j ->
  exists x cs', join_loop fuel n j = Some x /\ first_step fuel x cs' (loop_ref cs fin).2 /\
    Forall (chunk_good schema) cs' /\ rows_of cs' = (loop_ref cs fin).1.
Proof using Hmatch Hschema.
  induction (lt_wf k) as [k _ IH]. intros cs fin n j Hk Hruns Hok Hfuel Hn Hex Hcur.
  destruct n as [|n]; [lia|]. cbn [join_loop]. rewrite (proj2 (Z.ltb_ge _ _)), Hex by lia.
  destruct (load_ok fuel (jl_child j) cs fin Hruns Hok fuel j eq_refl) as (r & j1 & -> & Hr); [lia|].
  destruct r as [[|]|m].
  - destruct Hr as (c & cs1 & rows & Hc & Hcur1 & Hex1 & Hrows & Hruns1 & Hok1 & Hlen1 & ->). cbn [fst snd].
    assert (Hrest : forall n j', jl_child j' = jl_child j1 -> jl_exhausted j' = jl_exhausted j1 ->
      zlen (jl_pairs j') <= jl_cursor j' -> (length cs1 + 1 < n)%nat ->
      exists x cs', join_loop fuel n j' = Some x /\ first_step fuel x cs' (loop_ref cs1 fin).2 /\
        Forall (chunk_good schema) cs' /\ rows_of cs' = (loop_ref cs1 fin).1).
    { intros n' j' Hj' Hex' Hcur' Hn'. eapply (IH (length cs1)); [lia|done|by rewrite Hj'|done|lia|lia|congruence|done]. }
    destruct (jl_pairs j1) as [|mp mps] eqn:Hp.
    + inversion Hrows; subst. destruct (Hrest n j1) as (x & cs' & Hx & Hs & Hg & Hrs);
        [done|done|by rewrite Hp, Hcur1|lia|]. by exists x, cs'.
    + rewrite <- Hp in Hrows.
      destruct (loop_pairs fuel c rows (loop_ref cs1 fin).1 (loop_ref cs1 fin).2 (length (jl_pairs j1)) ltac:(lia) j1)
        as (cs' & Hr' & Hg & Hrs); [done|done|lia|unfold zlen; lia| |].
      { intros j' Hj' Hex' Hp' Hcur'. destruct (Hrest fuel j') as (x & cs' & Hx & Hs & Hg & Hrs); [done..|lia|].
        exists cs'. split_and!; [by eapply runs_first|done..]. }
      destruct (first_runs _ _ _ _ Hr') as (x & Hx & Hs). exists x, cs'. rewrite Hcur1 in Hrs.
      split_and!; [|done..]. rewrite <- Hx. destruct n as [|n]; [lia|]. destruct fuel as [|fuel]; [lia|].
      cbn [join_loop]. by rewrite Hcur1, Hp, (proj2 (Z.ltb_lt _ _)) by (unfold zlen; simpl; lia).
  - destruct Hr as (-> & Hex1 & Hp1 & Hc1). destruct n as [|n]; [lia|]. cbn [join_loop].
    rewrite Hp1, Hc1, (proj2 (Z.ltb_ge _ _)), Hex1 by lia. by eexists (Ok None, _), [].
  - rewrite Hr. by eexists (Err m, _), [].
Qed.

(** From a fresh state the loop yields the rows of the reference, in order. *)
Lemma join_loop_runs fuel child cs fin : runs fuel child cs fin ->
  Forall (fun c => chunk_wf sg c /\ good c) cs -> (length cs + 1 < fuel)%nat ->
  exists cs', runs fuel (mkLoop child false None [] 0) cs' (loop_ref cs fin).2 /\
    Forall (chunk_good schema) cs' /\ rows_of cs' = (loop_ref cs fin).1.
Proof using Hmatch Hschema.
  intros Hruns Hok Hfuel.
  destruct (loop_step fuel (length cs) cs fin fuel (mkLoop child false None [] 0)) as (x & cs' & Hx & Hs & Hg & Hr);
    [done..|]. exists cs'. split_and!; [by eapply runs_first|done..].
Qed.
End loop.
