(* ===== verification/HashJoin.v ===== *)
(** * Hash join

    [HashJoin] (src/src/executor/hash_join.h, hash_join.cpp): drains its build child into a
    hash table with linear probing, then pulls its probe child and collects the pairs of
    matching rows of one probe chunk at a time, which it emits in slices of [CHUNK_SIZE].
    Keys are compared byte by byte, and a row with a NULL in its key matches nothing.
    The theorems compare it with the nested loop over rows that it stands for. *)

From S2P Require Import Prelude Types XXHash SelectionVector ColumnVector Chunk Expression Operator Buffered Probing JoinLoop.

Inductive JoinType : Type := INNER | LEFT_OUTER | SEMI | ANTI.

#[export] Instance JoinType_eq_dec : EqDecision JoinType.
Proof. solve_decision. Defined.

Definition UINT32_MAX : Z := 2 ^ 32 - 1.
Definition MAX_COMPOSITE_KEY_BYTES : Z := 128.
Definition NO_BUILD : Z := UINT32_MAX.

Record Entry : Type := mkEntry { en_hash : Z; en_chunk : Z; en_row : Z }.
Record MatchPair : Type := mkPair { mp_probe : Z; mp_chunk : Z; mp_row : Z }.

(** [1u << (32 - __builtin_clz(x - 1))]; a shift by 32 is undefined. *)
Definition next_pow2 (x : Z) : option Z :=
  if x <=? 1 then Some 1
  else
    let clz := 31 - Z.log2 (x - 1) in
    if 32 - clz <? 32 then Some (Z.shiftl 1 (32 - clz)) else None.

(** ** Keys *)

(** [data() + row * sz, sz] *)
Definition key_slot (col : ColumnVector) (row : Z) : option bytes :=
  let sz := elem_size (cv_type col) in load (row * sz) sz (cv_data col).

Definition hash_row (key_cols : list ColumnVector) (row_idx : Z) : option Z :=
  let! h := each key_cols (fun col h =>
    if is_varchar (cv_type col)
    then let! s := cv_get_str col row_idx in Some (xxhash64_seed (bytes_of_string s) h)
    else let! b := key_slot col row_idx in Some (xxhash64_seed b h)) 0 in
  Some (wrap 32 h).

Fixpoint any_key_null (key_cols : list ColumnVector) (row_idx : Z) : option bool :=
  match key_cols with
  | [] => Some false
  | col :: cols =>
      let! null := cv_is_null col row_idx in
      if null : bool then Some true else any_key_null cols row_idx
  end.

Fixpoint keys_equal (lc : list ColumnVector) (li : Z) (rc : list ColumnVector) (ri : Z) : option bool :=
  match lc, rc with
  | [], [] => Some true
  | l :: lc', r :: rc' =>
      assert (bool_decide (cv_type l = cv_type r)) in
      let! eq :=
        if is_varchar (cv_type l)
        then let! a := cv_get_str l li in let! b := cv_get_str r ri in Some (bool_decide (a = b))
        else let! a := key_slot l li in let! b := key_slot r ri in Some (bool_decide (a = b)) in
      if eq : bool then keys_equal lc' li rc' ri else Some false
  | _, _ => None
  end.

(** ** The table *)

Definition occupied (e : Entry) : bool := negb (en_chunk e =? UINT32_MAX).

Abbreviation build_rows := (list (Chunk * list ColumnVector)).

Definition count_nonnull (build : build_rows) : option Z :=
  each build (fun b n =>
    each (zrange 0 (ck_row_count b.1)) (fun r n =>
      let! null := any_key_null b.2 r in Some (if null : bool then n else n + 1)) n) 0.

(** [while (table_[slot].chunk_idx != UINT32_MAX) slot = (slot + 1u) & mask_; table_[slot] = e;] *)
Definition slot_insert (mask : Z) (e : Entry) (table : list Entry) : option (list Entry) :=
  probe_insert occupied en_hash mask e table.

Definition build_table (build : build_rows) : option (list Entry * Z) :=
  let! n_nonnull := count_nonnull build in
  let! table_size := next_pow2 (Z.max 1 (wrap 32 (wrap 32 n_nonnull * 2))) in
  let mask := table_size - 1 in
  let! table :=
    each (zrange 0 (wrap 32 (zlen build))) (fun ci table =>
      let! b := build !! Z.to_nat ci in
      each (zrange 0 (wrap 32 (ck_row_count b.1))) (fun r table =>
        let! null := any_key_null b.2 r in
        if null : bool then Some table
        else
          let! h := hash_row b.2 r in
          slot_insert mask (mkEntry h ci r) table) table)
      (replicate (Z.to_nat table_size) (mkEntry 0 UINT32_MAX 0)) in
  Some (table, mask).

(** ** Matching *)

(** What a matching entry adds for row [r]: the pairs, whether the row has matched, and
    whether the search breaks off. *)
Definition on_match (type : JoinType) (r : Z) (e : Entry) (pairs : list MatchPair) : list MatchPair * bool :=
  match type with
  | INNER | LEFT_OUTER => (pairs ++ [mkPair r (en_chunk e) (en_row e)], false)
  | SEMI => (pairs ++ [mkPair r NO_BUILD 0], true)
  | ANTI => (pairs, true)
  end.

(** The search for row [r]: the pairs with those found and whether there were any. *)
Definition probe_row (type : JoinType) (build : build_rows) (table : list Entry) (mask : Z)
    (keys : list ColumnVector) (r : Z) (pairs : list MatchPair) : option (list MatchPair * bool) :=
  let! null := any_key_null keys r in
  if null : bool then Some (pairs, false)
  else
    let! h := hash_row keys r in
    let! (st, _) := probe_scan occupied (length table) table mask (Z.land h mask)
      (fun e '(pairs, matched) =>
        if en_hash e =? h then
          let! b := build !! Z.to_nat (en_chunk e) in
          let! eq := keys_equal b.2 (en_row e) keys r in
          if eq : bool
          then let '(pairs, stop) := on_match type r e pairs in Some ((pairs, true), stop)
          else Some ((pairs, matched), false)
        else Some ((pairs, matched), false)) (pairs, false) in
    Some st.

(** The pairs of a probe chunk of [rc] rows. *)
Definition match_pairs (type : JoinType) (build : build_rows) (table : list Entry) (mask : Z)
    (keys : list ColumnVector) (rc : Z) : option (list MatchPair) :=
  let! (pairs, matched) :=
    each (zrange 0 rc) (fun r '(pairs, matched) =>
      let! (pairs, m) := probe_row type build table mask keys r pairs in
      Some (pairs, if m : bool then <[Z.to_nat r := true]> matched else matched))
      ([], replicate (Z.to_nat rc) false) in
  match type with
  | LEFT_OUTER | ANTI =>
      each (zrange 0 rc) (fun r pairs =>
        let! m := matched !! Z.to_nat r in
        Some (if m : bool then pairs else pairs ++ [mkPair r NO_BUILD 0])) pairs
  | _ => Some pairs
  end.

(** ** The operator *)

Record HashJoin (B P : Type) : Type := mkHashJoin {
  hj_build : B;
  hj_build_keys : list Expression;
  hj_probe_keys : list Expression;
  hj_type : JoinType;
  hj_schema : signature;
  hj_n_probe : nat;
  hj_opened : bool;
  hj_built : bool;
  hj_chunks : build_rows;
  hj_table : list Entry;
  hj_mask : Z;
  hj_loop : JoinLoop P MatchPair
}.
Arguments mkHashJoin {B P}.
Arguments hj_build {B P}.
Arguments hj_build_keys {B P}.
Arguments hj_probe_keys {B P}.
Arguments hj_type {B P}.
Arguments hj_schema {B P}.
Arguments hj_n_probe {B P}.
Arguments hj_opened {B P}.
Arguments hj_built {B P}.
Arguments hj_chunks {B P}.
Arguments hj_table {B P}.
Arguments hj_mask {B P}.
Arguments hj_loop {B P}.

(** The output columns: those of the probe side, then, for the joins that show them, those of
    the build side, nullable for an outer join. *)
Definition join_schema (type : JoinType) (probe_schema build_schema : signature) : signature :=
  match type with
  | INNER => probe_schema ++ build_schema
  | LEFT_OUTER => probe_schema ++ map (fun s => (s.1, true)) build_schema
  | SEMI | ANTI => probe_schema
  end.

(** The assertions of the constructor on the keys. *)
Definition keys_joinable (build_keys probe_keys : list Expression) : bool :=
  match build_keys with [] => false | _ => true end &&
  (length build_keys =? length probe_keys)%nat &&
  forallb (fun bp => bool_decide (output_type bp.1 = output_type bp.2) && emittable (output_type bp.1))
    (zip build_keys probe_keys) &&
  (foldr (fun e n => (if is_varchar (output_type e) then 0 else elem_size (output_type e)) + n) 0 build_keys
     <=? MAX_COMPOSITE_KEY_BYTES).

(** The part of [load_next_probe_chunk_] between [materialize] and the end. *)
Definition match_chunk `{Fpu} (type : JoinType) (probe_keys : list Expression) (build : build_rows)
    (table : list Entry) (mask : Z) (chunk : Chunk) (old : list MatchPair) : option (result unit * list MatchPair) :=
  let! ev := evaluate_all probe_keys chunk in
  match ev with
  | Err m => Some (Err m, old)
  | Ok keys =>
      let! pairs := match_pairs type build table mask keys (wrap 32 (ck_row_count chunk)) in
      Some (Ok tt, pairs)
  end.

(** Where output column [c] takes the row of a pair from. *)
Definition pair_src (n_probe_cols : nat) (build : build_rows) (chunk : Chunk) (c : nat) (mp : MatchPair) :
    option (option (ColumnVector * Z)) :=
  if (c <? n_probe_cols)%nat
  then let! col := ck_columns chunk !! c in Some (Some (col, mp_probe mp))
  else if mp_chunk mp =? NO_BUILD then Some None
  else
    let! b := build !! Z.to_nat (mp_chunk mp) in
    let! col := ck_columns b.1 !! (c - n_probe_cols)%nat in
    Some (Some (col, mp_row mp)).

Section hash_join.
Context {B P : Type} `{Operator B} `{Operator P} `{Fpu}.

Definition hash_join_new (build : B) (probe : P) (build_keys probe_keys : list Expression) (type : JoinType)
    (build_schema probe_schema : signature) : option (HashJoin B P) :=
  assert (keys_joinable build_keys probe_keys) in
  Some (mkHashJoin build build_keys probe_keys type (join_schema type probe_schema build_schema)
    (length probe_schema) false false [] [] 0 (mkLoop probe false None [] 0)).

Definition hj_with (j : HashJoin B P) build opened built chunks table mask loop : HashJoin B P :=
  mkHashJoin build (hj_build_keys j) (hj_probe_keys j) (hj_type j) (hj_schema j) (hj_n_probe j)
    opened built chunks table mask loop.

Definition hj_children (j : HashJoin B P) build probe opened : HashJoin B P :=
  let l := hj_loop j in
  hj_with j build opened (hj_built j) (hj_chunks j) (hj_table j) (hj_mask j)
    (mkLoop probe (jl_exhausted l) (jl_chunk l) (jl_pairs l) (jl_cursor l)).

Definition hash_join_open (j : HashJoin B P) : option (result unit * HashJoin B P) :=
  let! (rb, build) := op_open (hj_build j) in
  match rb with
  | Err m => Some (Err m, hj_children j build (jl_child (hj_loop j)) (hj_opened j))
  | Ok _ =>
      let! (rp, probe) := op_open (jl_child (hj_loop j)) in
      match rp with
      | Err m => Some (Err m, hj_children j build probe (hj_opened j))
      | Ok _ => Some (Ok tt, hj_children j build probe true)
      end
  end.

Definition hash_join_close (j : HashJoin B P) : HashJoin B P :=
  hj_children j (op_close (hj_build j)) (op_close (jl_child (hj_loop j))) (hj_opened j).

Definition build_side_ (fuel : nat) (j : HashJoin B P) : option (result unit * HashJoin B P) :=
  let! (r, chunks, build) := drain fuel fuel (hj_build_keys j) (hj_build j) (hj_chunks j) in
  match r with
  | Err m =>
      Some (Err m, hj_with j build (hj_opened j) (hj_built j) chunks (hj_table j) (hj_mask j) (hj_loop j))
  | Ok _ =>
      let! (table, mask) := build_table chunks in
      Some (Ok tt, hj_with j (op_close build) (hj_opened j) true chunks table mask (hj_loop j))
  end.

Definition hash_join_next (fuel : nat) (j : HashJoin B P) : option (result (option Chunk) * HashJoin B P) :=
  assert (hj_opened j) in
  let! (r, j) := if hj_built j then Some (Ok tt, j) else build_side_ fuel j in
  match r with
  | Err m => Some (Err m, j)
  | Ok _ =>
      let! (r, loop) :=
        join_loop (match_chunk (hj_type j) (hj_probe_keys j) (hj_chunks j) (hj_table j) (hj_mask j))
          (pair_src (hj_n_probe j) (hj_chunks j)) (hj_schema j) fuel fuel (hj_loop j) in
      Some (r, hj_with j (hj_build j) (hj_opened j) (hj_built j) (hj_chunks j) (hj_table j) (hj_mask j) loop)
  end.

#[export] Instance HashJoin_Operator : Operator (HashJoin B P) :=
  {| op_open := hash_join_open; op_next := hash_join_next; op_close := hash_join_close |}.
End hash_join.

(** ** Keys as values *)

(** The bytes that are hashed and compared. *)
Definition hashed_bytes (v : Value) : bytes :=
  match v with VStr s => bytes_of_string s | _ => slot_bytes_of v end.

Definition hash_of (k : row) : Z := wrap 32 (fold_left (fun h v => xxhash64_seed (hashed_bytes v) h) k 0).

Definition null_key (k : row) : bool := existsb is_null k.

(** A slot holds the bytes of its value. *)
Lemma slot_of_decode t bs : emittable t = true -> is_varchar t = false ->
  zlen bs = elem_size t -> Forall is_byte bs -> slot_bytes_of (decode t bs) = bs.
Proof.
  intros Ht Hv Hl Hb. assert (Hne : bs <> []) by (intros ->; by destruct t).
  pose proof (le_bytes_signed bs Hb Hne) as Hs. pose proof (le_bytes_val bs Hb) as Hu. rewrite Hl in Hs.
  assert (Hn : length bs = Z.to_nat (elem_size t)) by (unfold zlen in Hl; lia). rewrite Hn in *.
  destruct t; try discriminate; simpl in *; done.
Qed.

Section key_columns.
Context (n : Z) (sgk : signature) (cols : list ColumnVector) (r : Z).
Hypothesis Hcols : Forall2 (col_ok n) sgk cols.
Hypothesis Hr : 0 <= r < n.
Hypothesis Hsg : Forall (fun s => emittable s.1 = true) sgk.

Lemma key_slot_ok s col : col_ok n s col -> emittable s.1 = true -> is_varchar s.1 = false ->
  is_null (cell col r) = false -> key_slot col r = Some (slot_bytes_of (cell col r)).
Proof using Hr.
  intros Hc He Hv Hnull. rewrite (is_null_cell _ _ _ _ Hc) in Hnull. destruct Hc as (Hwf & Ht & _ & Hsz).
  rewrite <- Ht in He, Hv. unfold key_slot. rewrite load_slot by (done || lia). f_equal.
  unfold cell, raw. rewrite Hnull, Hv. destruct (slot_bytes col r) as [Hl Hb]; [done|done|lia|].
  rewrite slot_of_decode; [done..|]. eapply Forall_impl; [exact Hb|]. by intros ? [].
Qed.

Lemma cell_str s col : col_ok n s col -> is_varchar s.1 = true -> is_null (cell col r) = false ->
  exists str, cell col r = VStr str /\ cv_get_str col r = Some str.
Proof using Hr.
  intros Hc Hv Hnull. destruct (cell_vec _ _ _ r Hc Hr) as [Hz|[Ht _]]; [by rewrite Hz in Hnull|].
  destruct s as [t nl]. simpl in *. destruct Hc as (Hwf & Hct & _ & Hsz).
  destruct (cell col r) as [| | | |str| | |] eqn:Hcell; simpl in Ht; subst t; try discriminate.
  exists str. split; [done|]. apply cv_get_str_ok; [done|lia|done].
Qed.

Lemma any_key_null_ok : any_key_null cols r = Some (null_key (row_at cols r)).
Proof using Hcols Hr.
  clear Hsg. revert Hcols. induction 1 as [|s col sgk cols Hc _ IH]; [done|]. cbn [any_key_null row_at map].
  pose proof (is_null_cell _ _ _ r Hc) as Hn. destruct Hc as (Hwf & _ & _ & Hsz).
  rewrite cv_is_null_ok by (done || lia). unfold null_key. simpl. rewrite Hn. destruct (null_at col r); [done|].
  exact IH.
Qed.

Lemma hash_row_ok : null_key (row_at cols r) = false -> hash_row cols r = Some (hash_of (row_at cols r)).
Proof using Hcols Hr Hsg.
  intros Hnull. unfold hash_row, hash_of.
  assert (Heach : forall h, each cols (fun col h =>
      if is_varchar (cv_type col)
      then let! s := cv_get_str col r in Some (xxhash64_seed (bytes_of_string s) h)
      else let! b := key_slot col r in Some (xxhash64_seed b h)) h =
    Some (fold_left (fun h v => xxhash64_seed (hashed_bytes v) h) (row_at cols r) h)).
  { revert Hcols Hnull Hsg. induction 1 as [|s col sgk cols Hc _ IH]; intros Hnull Hsg' h; [done|].
    apply Forall_cons in Hsg' as [Hs Hsg']. unfold null_key in Hnull. simpl in Hnull.
    apply orb_false_iff in Hnull as [Hn Hnull]. cbn [each row_at map fold_left].
    rewrite (proj1 (proj2 Hc)). destruct (is_varchar s.1) eqn:Hv.
    - destruct (cell_str s col Hc Hv Hn) as (str & Hcell & ->). rewrite Hcell. by apply IH.
    - rewrite (key_slot_ok s col) by done. rewrite IH by done. f_equal. f_equal. f_equal.
      destruct (cell_vec _ _ _ r Hc Hr) as [Hz|[Ht _]]; [by rewrite Hz in Hn|].
      destruct (cell col r); try done. simpl in Ht. by rewrite <- Ht in Hv. }
  by rewrite Heach.
Qed.
End key_columns.

(** Values of one type with equal slots are equal. *)
Lemma hashed_bytes_inj t v w : variant_type v = t -> variant_type w = t -> value_wf v -> value_wf w ->
  is_varchar t = false -> v <> VNull -> w <> VNull -> slot_bytes_of v = slot_bytes_of w -> v = w.
Proof.
  intros <- Hw Hvw Hww Hv Hn Hn' He. destruct (slot_bytes_of_ok v) as (_ & _ & Hdv); [done..|].
  destruct (slot_bytes_of_ok w) as (_ & _ & Hdw); [by rewrite ?Hw|by rewrite Hw|done|]. rewrite <- Hdv, <- Hdw, He. by rewrite Hw.
Qed.

Lemma keys_equal_ok n m sl sr lc rc li ri : Forall2 (col_ok n) sl lc -> Forall2 (col_ok m) sr rc ->
  map fst sl = map fst sr -> Forall (fun s => emittable s.1 = true) sl -> 0 <= li < n -> 0 <= ri < m ->
  null_key (row_at lc li) = false -> null_key (row_at rc ri) = false ->
  keys_equal lc li rc ri = Some (bool_decide (row_at lc li = row_at rc ri)).
Proof.
  intros Hl. revert sr rc. induction Hl as [|s l sl lc Hc _ IH]; intros sr rc Hr Hty Hem Hli Hri Hnl Hnr.
  - destruct Hr; [done|discriminate].
  - destruct Hr as [|s' r sr rc Hc' Hr]; [discriminate|]. injection Hty as Hs Hty.
    apply Forall_cons in Hem as [He Hem]. unfold null_key in Hnl, Hnr. simpl in Hnl, Hnr.
    apply orb_false_iff in Hnl as [Hnl1 Hnl], Hnr as [Hnr1 Hnr]. cbn [keys_equal row_at map].
    pose proof (proj1 (proj2 Hc)) as Ht. pose proof (proj1 (proj2 Hc')) as Ht'.
    rewrite bool_decide_true by congruence. rewrite Ht.
    assert (Heq : (if is_varchar s.1
        then let! a := cv_get_str l li in let! b := cv_get_str r ri in Some (bool_decide (a = b))
        else let! a := key_slot l li in let! b := key_slot r ri in Some (bool_decide (a = b))) =
      Some (bool_decide (cell l li = cell r ri))).
    { destruct (is_varchar s.1) eqn:Hv.
      - destruct (cell_str n li Hli s l Hc Hv Hnl1) as (a & Ha & ->).
        destruct (cell_str m ri Hri s' r Hc') as (b & Hb & ->); [congruence|done|].
        rewrite Ha, Hb. f_equal. apply bool_decide_ext. split; congruence.
      - rewrite (key_slot_ok n li Hli s l) by done. rewrite (key_slot_ok m ri Hri s' r) by (done || congruence).
        f_equal. apply bool_decide_ext. split; [|by intros ->].
        destruct (cell_vec _ _ _ li Hc Hli) as [Hz|[Hv1 Hw1]]; [by rewrite Hz in Hnl1|].
        destruct (cell_vec _ _ _ ri Hc' Hri) as [Hz|[Hv2 Hw2]]; [by rewrite Hz in Hnr1|].
        apply (hashed_bytes_inj s.1); [done|congruence|done..| |]; intros Hz; [by rewrite Hz in Hnl1|by rewrite Hz in Hnr1]. }
    rewrite Heq. rewrite (IH sr rc) by done. unfold row_at.
    destruct (decide (cell l li = cell r ri)) as [Hcell|Hcell].
    + rewrite (bool_decide_true (cell l li = cell r ri)) by done. f_equal. apply bool_decide_ext. split; [congruence|].
      by intros [= _ ?].
    + rewrite (bool_decide_false (cell l li = cell r ri)) by done. rewrite bool_decide_false; [done|]. by intros [= ? _].
Qed.

(** ** Building the table *)

Lemma next_pow2_ok x : 1 <= x <= 2 ^ 31 ->
  exists k, 0 <= k < 32 /\ next_pow2 x = Some (2 ^ k) /\ x <= 2 ^ k.
Proof.
  intros Hx. unfold next_pow2. destruct (Z.leb_spec x 1) as [H1|H1]; [exists 0; split_and!; [lia..|done|simpl; lia]|].
  pose proof (Z.log2_spec (x - 1)) as Hl. pose proof (Z.log2_nonneg (x - 1)).
  assert (Z.log2 (x - 1) < 31) by (apply Z.log2_lt_pow2; lia).
  exists (1 + Z.log2 (x - 1)). split_and!; [lia..| |].
  - rewrite (proj2 (Z.ltb_lt _ _)) by lia. rewrite Z.shiftl_1_l. do 2 f_equal. lia.
  - rewrite Z.add_1_l. lia.
Qed.

Lemma each_app {A St} (l1 l2 : list A) f (s : St) :
  each (l1 ++ l2) f s = let! s' := each l1 f s in each l2 f s'.
Proof. revert s. induction l1 as [|a l1 IH]; intros s; simpl; [done|]. by destruct (f a s). Qed.

Lemma each_map {A B St} (g : A -> B) l f (s : St) : each (map g l) f s = each l (fun a => f (g a)) s.
Proof. revert s. induction l as [|a l IH]; intros s; simpl; [done|]. by destruct (f (g a) s). Qed.

Lemma each_ext {A St} (l : list A) f g (s : St) : (forall a s, a ∈ l -> f a s = g a s) -> each l f s = each l g s.
Proof.
  revert s. induction l as [|a l IH]; intros s Hfg; simpl; [done|]. rewrite Hfg by left.
  destruct (g a s); [|done]. apply IH. intros. apply Hfg. by right.
Qed.

(** The loops over chunks and rows run over the references. *)
Lemma nested_each {St} (full : build_rows) body : forall rest pre (s : St), full = pre ++ rest ->
  each (zrange (zlen pre) (zlen rest)) (fun ci s =>
    let! b := full !! Z.to_nat ci in
    each (zrange 0 (wrap 32 (ck_row_count b.1))) (fun r s => body b ci r s) s) s =
  each (concat (imap (fun ci b => map (fun r => (Z.of_nat (length pre + ci), r))
      (zrange 0 (wrap 32 (ck_row_count b.1)))) rest))
    (fun rr s => let! b := full !! Z.to_nat rr.1 in body b rr.1 rr.2 s) s.
Proof.
  induction rest as [|b rest IH]; intros pre s Hfull; [done|].
  assert (zlen (b :: rest) = zlen rest + 1) as -> by (unfold zlen; simpl; lia).
  rewrite zrange_cons by (unfold zlen; lia). cbn [each imap concat]. rewrite each_app, each_map.
  assert (Hb : full !! Z.to_nat (zlen pre) = Some b).
  { unfold zlen. rewrite Nat2Z.id, Hfull. by apply list_lookup_middle. }
  rewrite Hb. rewrite Nat.add_0_r. fold (zlen pre).
  rewrite (each_ext _ (fun a s0 => let! b0 := full !! Z.to_nat (zlen pre, a).1 in body b0 (zlen pre, a).1 (zlen pre, a).2 s0)
    (fun r s0 => body b (zlen pre) r s0)) by (intros a s0 _; cbn [fst snd]; by rewrite Hb).
  destruct (each _ _ s) as [s'|]; [|done]. specialize (IH (pre ++ [b]) s'). rewrite <- app_assoc in IH.
  specialize (IH Hfull). assert (zlen (pre ++ [b]) = zlen pre + 1) as Hz by (unfold zlen; rewrite length_app; simpl; lia).
  rewrite Hz in IH. rewrite IH. do 2 f_equal. apply imap_ext. intros i x _. simpl. do 3 f_equal.
  rewrite length_app. simpl. lia.
Qed.

(** ** The reference: a nested loop over rows with their keys *)

Definition nonempty {A} (l : list A) : bool := match l with [] => false | _ => true end.

(** The build rows with the key, in order; a NULL in a key matches nothing. *)
Definition matches (build : list (row * row)) (k : row) : list row :=
  map fst (List.filter (fun b => negb (null_key b.2) && bool_decide (b.2 = k)) build).

(** The output rows for the rows of one probe chunk; [nb] is the number of build columns.  An
    outer join shows the rows without a match after the others. *)
Definition join_rows (type : JoinType) (nb : nat) (build probe : list (row * row)) : list row :=
  let matched p := nonempty (matches build p.2) in
  let pairs := flat_map (fun p => map (app p.1) (matches build p.2)) probe in
  match type with
  | INNER => pairs
  | LEFT_OUTER => pairs ++ map (fun p => p.1 ++ replicate nb VNull) (List.filter (fun p => negb (matched p)) probe)
  | SEMI => map fst (List.filter matched probe)
  | ANTI => map fst (List.filter (fun p => negb (matched p)) probe)
  end.

Section build.
Context `{Fpu} (sgb : signature) (bkeys : list Expression).
Context (bs : build_rows) (rss : list (list (row * row))).
Hypothesis Hbs : Forall2 (buffered sgb bkeys) bs rss.
Hypothesis Hkt : Forall (fun e => emittable (output_type e) = true) bkeys.

Definition ref_key (rr : RowRef) : row := (ref_row rss rr).2.
Definition joinable (rr : RowRef) : bool := negb (null_key (ref_key rr)).
Definition entry_of (rr : RowRef) : Entry := mkEntry (hash_of (ref_key rr)) rr.1 rr.2.

Lemma key_sig_ok sg keys : Forall (fun e => emittable (output_type e) = true) keys ->
  Forall (fun s => emittable s.1 = true) (project_sig sg keys).
Proof using. intros Hk. unfold project_sig. by apply Forall_map. Qed.

Lemma count_nonnull_ok : count_nonnull bs = Some (zlen (List.filter (fun x => negb (null_key x.2)) (concat rss))).
Proof using Hbs.
  unfold count_nonnull. assert (Hgen : forall n, each bs (fun b n => each (zrange 0 (ck_row_count b.1)) (fun r n =>
      let! null := any_key_null b.2 r in Some (if null : bool then n else n + 1)) n) n =
    Some (n + zlen (List.filter (fun x => negb (null_key x.2)) (concat rss)))); [|by rewrite Hgen].
  revert Hbs. induction 1 as [|b rs bs rss Hb _ IH]; intros n; [unfold zlen; simpl; f_equal; lia|]. cbn [each concat].
  destruct (loop_inv (fun r m => m = n + zlen (List.filter (fun x : row * row => negb (null_key x.2)) (take (Z.to_nat r) rs)))
    (zlen rs) (fun r n => let! null := any_key_null b.2 r in Some (if null : bool then n else n + 1)) n)
    as (m & Hm & ->); [unfold zlen; lia|unfold zlen; simpl; lia| |].
  - intros r m Hr ->. rewrite (any_key_null_ok (zlen rs) (project_sig sgb bkeys)) by (apply Hb || done).
    destruct (lookup_lt_is_Some_2 rs (Z.to_nat r)) as [x Hx]; [unfold zlen in Hr; lia|].
    assert (row_at b.2 r = x.2) as ->.
    { pose proof (bf_key_rows _ _ _ _ Hb) as Hk. apply (f_equal (.!! Z.to_nat r)) in Hk.
      rewrite !list_lookup_fmap, Hx, lookup_zrange in Hk by (unfold zlen in *; lia). simpl in Hk. injection Hk as <-.
      f_equal. lia. }
    eexists. split; [done|]. replace (Z.to_nat (r + 1)) with (S (Z.to_nat r)) by lia.
    rewrite (take_S_r _ _ _ Hx), List.filter_app. unfold zlen. rewrite length_app. simpl.
    destruct (null_key x.2); simpl; lia.
  - rewrite (bf_count _ _ _ _ Hb), Hm, IH. f_equal. rewrite List.filter_app. unfold zlen. rewrite length_app.
    rewrite take_ge by lia. lia.
Qed.

Lemma slot_insert_ok k table ins e : probing occupied en_hash k table ins -> (length ins < length table)%nat ->
  Forall (fun e => occupied e = true) ins -> occupied e = true ->
  exists table', slot_insert (2 ^ k - 1) e table = Some table' /\ length table' = length table /\
    probing occupied en_hash k table' (ins ++ [e]).
Proof using. apply probe_insert_ok. Qed.

(** At most 2^30 rows with a key, so that the size of the table fits. *)
Hypothesis Hrows : zlen (concat rss) <= 2 ^ 30.
Hypothesis Hchunks : zlen bs < UINT32_MAX.

Definition table_ok (table : list Entry) (mask : Z) : Prop :=
  exists k, mask = 2 ^ k - 1 /\
    probing occupied en_hash k table (map entry_of (List.filter joinable (row_refs bs))) /\
    (length (List.filter joinable (row_refs bs)) < length table)%nat.

Lemma ref_chunk rr : ref_in rss rr -> 0 <= rr.1 -> rr.1 < UINT32_MAX.
Proof using Hbs Hchunks.
  intros (rs & Hrs & _) H0. apply lookup_lt_Some in Hrs. pose proof (Forall2_length _ _ _ Hbs). unfold zlen in *. lia.
Qed.

Lemma row_refs_nonneg : Forall (fun rr => 0 <= rr.1) (row_refs bs).
Proof using.
  unfold row_refs. apply Forall_concat, Forall_forall. intros l Hl.
  apply list_elem_of_lookup in Hl as [i Hi]. rewrite list_lookup_imap in Hi.
  destruct (bs !! i) as [b|]; [|done]. simpl in Hi. injection Hi as <-. apply Forall_map, Forall_forall. intros r _. simpl. lia.
Qed.

Lemma ref_occupied rr : rr ∈ row_refs bs -> occupied (entry_of rr) = true.
Proof using Hbs Hchunks.
  intros Hrr. unfold occupied. apply negb_true_iff, Z.eqb_neq. simpl.
  destruct (row_refs_ok sgb bkeys bs rss Hbs) as [_ Hin]. pose proof row_refs_nonneg as H0.
  rewrite Forall_forall in Hin, H0. pose proof (ref_chunk rr (Hin _ Hrr) (H0 _ Hrr)). lia.
Qed.

Lemma entries_occupied f m : Forall (fun e => occupied e = true) (map entry_of (List.filter f (take m (row_refs bs)))).
Proof using Hbs Hchunks.
  apply Forall_map, Forall_forall. intros x Hx. apply ref_occupied. apply list_elem_of_In, List.filter_In in Hx as [Hx _].
  apply list_elem_of_In, list_elem_of_lookup in Hx as [i [Hi _]%lookup_take_Some]. by eapply list_elem_of_lookup_2.
Qed.

Lemma filter_map {A B} (g : A -> B) f l : List.filter f (map g l) = map g (List.filter (fun a => f (g a)) l).
Proof using. induction l as [|a l IH]; simpl; [done|]. rewrite IH. by destruct (f (g a)). Qed.

Lemma length_filter {A} (f : A -> bool) l : (length (List.filter f l) <= length l)%nat.
Proof using. induction l as [|a l IH]; simpl; [lia|]. destruct (f a); simpl; lia. Qed.

Lemma build_table_ok : exists table mask, build_table bs = Some (table, mask) /\ table_ok table mask.
Proof using All.
  unfold build_table. rewrite count_nonnull_ok. set (n := zlen (List.filter _ (concat rss))).
  assert (Hn : 0 <= n <= 2 ^ 30).
  { pose proof (length_filter (fun x : row * row => negb (null_key x.2)) (concat rss)). unfold n, zlen in *. lia. }
  change (2 ^ 30) with 1073741824 in *. rewrite (wrap_id 32 n) by (unfold in_u; lia).
  rewrite wrap_id by (unfold in_u; lia).
  destruct (next_pow2_ok (Z.max 1 (n * 2))) as (k & Hk & -> & Hge); [lia|].
  destruct (row_refs_ok sgb bkeys bs rss Hbs) as [Hmap Hin].
  assert (Hcount : length (List.filter joinable (row_refs bs)) = Z.to_nat n).
  { unfold n. rewrite <- Hmap, filter_map. unfold zlen. rewrite Nat2Z.id, length_map. done. }
  set (step := fun rr table => let! b := bs !! Z.to_nat rr.1 in
    let! null := any_key_null b.2 rr.2 in
    if null : bool then Some table
    else let! h := hash_row b.2 rr.2 in slot_insert (2 ^ k - 1) (mkEntry h rr.1 rr.2) table).
  assert (Hpre : forall m, (length (List.filter joinable (take m (row_refs bs))) <= Z.to_nat n < Z.to_nat (2 ^ k))%nat).
  { intros m. rewrite <- Hcount at 1. rewrite <- (take_drop m (row_refs bs)) at 2. rewrite List.filter_app, length_app.
    lia. }
  assert (Hstep : forall m rr table, row_refs bs !! m = Some rr ->
    (length table = Z.to_nat (2 ^ k) /\
      probing occupied en_hash k table (map entry_of (List.filter joinable (take m (row_refs bs))))) ->
    exists table', step rr table = Some table' /\ length table' = Z.to_nat (2 ^ k) /\
      probing occupied en_hash k table' (map entry_of (List.filter joinable (take (S m) (row_refs bs))))).
  { intros m rr table Hm [Hlen Hpb]. pose proof (proj1 (Forall_lookup _ _) Hin _ _ Hm) as Hrr.
    pose proof (proj1 (Forall_lookup _ _) row_refs_nonneg _ _ Hm) as H0.
    destruct (ref_buffer sgb bkeys bs rss rr Hbs Hrr) as (b & rs & Hb & Hbf & Hr & _ & Hkey). unfold step. rewrite Hb.
    rewrite (any_key_null_ok (zlen rs) (project_sig sgb bkeys)) by (apply Hbf || done).
    rewrite (take_S_r _ _ _ Hm), List.filter_app. simpl. unfold joinable at 2, ref_key. rewrite <- Hkey.
    destruct (null_key (row_at b.2 rr.2)) eqn:Hnull; simpl; [by rewrite app_nil_r; exists table|].
    rewrite (hash_row_ok (zlen rs) (project_sig sgb bkeys)); [|apply Hbf|done|by apply key_sig_ok|done].
    rewrite map_app. simpl. assert (mkEntry (hash_of (row_at b.2 rr.2)) rr.1 rr.2 = entry_of rr) as ->
      by (unfold entry_of, ref_key; by rewrite Hkey).
    edestruct (slot_insert_ok k table) as (table' & Ht & Hl & Hpb'); [exact Hpb| | | |].
    - rewrite length_map, Hlen. specialize (Hpre m). lia.
    - apply entries_occupied.
    - by eapply ref_occupied, list_elem_of_lookup_2.
    - rewrite Ht. exists table'. by rewrite Hl. }
  destruct (each_inv (fun m table => length table = Z.to_nat (2 ^ k) /\
      probing occupied en_hash k table (map entry_of (List.filter joinable (take m (row_refs bs)))))
    (row_refs bs) step (replicate (Z.to_nat (2 ^ k)) (mkEntry 0 UINT32_MAX 0))) as (table & Heach & Hlen & Hpb);
    [split; [apply length_replicate|by apply probing_empty]|exact Hstep|].
  rewrite take_ge in Hpb by done. exists table, (2 ^ k - 1).
  assert (Hwb : wrap 32 (zlen bs) = zlen bs) by (apply wrap_id; unfold in_u, zlen, UINT32_MAX in *; lia).
  pose proof (nested_each bs (fun b ci r table => let! null := any_key_null b.2 r in
    if null : bool then Some table
    else let! h := hash_row b.2 r in slot_insert (2 ^ k - 1) (mkEntry h ci r) table) bs []
    (replicate (Z.to_nat (2 ^ k)) (mkEntry 0 UINT32_MAX 0)) eq_refl) as Hne.
  change (zlen []) with 0 in Hne. rewrite Hwb, Hne.
  match goal with |- context [each (concat ?l) ?f ?s] => change (each (concat l) f s) with (each (row_refs bs) step s) end.
  rewrite Heach.
  split; [done|]. exists k. split_and!; [done..|]. rewrite Hlen. specialize (Hpre (length (row_refs bs))).
  rewrite take_ge in Hpre by done. lia.
Qed.

(** ** Matching a row *)

Context (type : JoinType).

(** The build rows with a key. *)
Definition hits (k : row) : list RowRef :=
  List.filter (fun rr => joinable rr && bool_decide (ref_key rr = k)) (row_refs bs).

(** The pairs that these give for probe row [r]. *)
Definition found (r : Z) (l : list RowRef) : list MatchPair :=
  match type with
  | INNER | LEFT_OUTER => map (fun rr => mkPair r rr.1 rr.2) l
  | SEMI => if nonempty l then [mkPair r NO_BUILD 0] else []
  | ANTI => []
  end.

Section probe.
Context (sgp : signature) (pkeys : list Expression) (n : Z) (keys : list ColumnVector) (r : Z).
Hypothesis Hkeys : Forall2 (col_ok n) (project_sig sgp pkeys) keys.
Hypothesis Hr : 0 <= r < n.
Hypothesis Htypes : map output_type bkeys = map output_type pkeys.
Hypothesis Hnull : null_key (row_at keys r) = false.

Definition match_body (e : Entry) (st : list MatchPair * bool) : option (list MatchPair * bool * bool) :=
  let '(pairs, matched) := st in
  let! b := bs !! Z.to_nat (en_chunk e) in
  let! eq := keys_equal b.2 (en_row e) keys r in
  if eq : bool
  then let '(pairs, stop) := on_match type r e pairs in Some ((pairs, true), stop)
  else Some ((pairs, matched), false).

Lemma match_body_ok rr pairs m : ref_in rss rr -> joinable rr = true ->
  match_body (entry_of rr) (pairs, m) =
    if bool_decide (ref_key rr = row_at keys r)
    then let '(pairs, stop) := on_match type r (entry_of rr) pairs in Some ((pairs, true), stop)
    else Some ((pairs, m), false).
Proof using Hbs Hkt Hkeys Hr Htypes Hnull.
  intros Hrr Hj. destruct (ref_buffer sgb bkeys bs rss rr Hbs Hrr) as (b & rs & Hb & Hbf & Hrr2 & _ & Hkey).
  unfold match_body. cbn [en_chunk en_row entry_of]. rewrite Hb.
  rewrite (keys_equal_ok (zlen rs) n (project_sig sgb bkeys) (project_sig sgp pkeys)).
  - unfold ref_key. rewrite Hkey. by destruct (bool_decide _).
  - apply Hbf.
  - done.
  - unfold project_sig. rewrite !map_map. exact Htypes.
  - by apply key_sig_ok.
  - done.
  - done.
  - unfold joinable, ref_key in Hj. rewrite <- Hkey in Hj. by apply negb_true_iff.
  - done.
Qed.

Lemma visits_found l : Forall (fun rr => ref_in rss rr /\ joinable rr = true) l -> forall pairs m,
  let hl := List.filter (fun rr => bool_decide (ref_key rr = row_at keys r)) l in
  exists stop, visits match_body (map entry_of l) (pairs, m) = Some ((pairs ++ found r hl, m || nonempty hl), stop).
Proof using Hbs Hkt Hkeys Hr Htypes Hnull.
  induction 1 as [|rr l [Hrr Hj] _ IH]; intros pairs m; cbn zeta.
  - exists false. simpl. unfold found. destruct type; simpl; by rewrite app_nil_r, orb_false_r.
  - cbn [map visits List.filter]. rewrite match_body_ok by done.
    destruct (bool_decide (ref_key rr = row_at keys r)); [|exact (IH pairs m)].
    destruct type eqn:Ety; unfold on_match; try (eexists; unfold found; rewrite Ety; simpl; by rewrite ?app_nil_r, ?orb_true_r).
    all: destruct (IH (pairs ++ [mkPair r (en_chunk (entry_of rr)) (en_row (entry_of rr))]) true) as [stop Hs];
      exists stop; (etransitivity; [exact Hs|]); unfold found; rewrite Ety; simpl; rewrite <- app_assoc, orb_true_r; done.
Qed.
End probe.

Lemma filter_filter {A} (f g : A -> bool) l : List.filter f (List.filter g l) = List.filter (fun a => g a && f a) l.
Proof using. induction l as [|a l IH]; simpl; [done|]. destruct (g a); simpl; by rewrite IH. Qed.

Lemma hits_null k : null_key k = true -> hits k = [].
Proof using.
  intros Hk. unfold hits. induction (row_refs bs) as [|rr l IH]; simpl; [done|].
  destruct (joinable rr && bool_decide (ref_key rr = k)) eqn:E; [|done].
  apply andb_true_iff in E as [Hj <-%bool_decide_eq_true]. unfold joinable in Hj. by rewrite Hk in Hj.
Qed.

Section probe_chunk.
Context (table : list Entry) (mask : Z) (sgp : signature) (pkeys : list Expression).
Context (keys : list ColumnVector) (prs : list (row * row)).
Hypothesis Htable : table_ok table mask.
Hypothesis Htypes : map output_type bkeys = map output_type pkeys.
Hypothesis Hkeys : Forall2 (col_ok (zlen prs)) (project_sig sgp pkeys) keys.
Hypothesis Hkrows : map (row_at keys) (zrange 0 (zlen prs)) = map snd prs.

Lemma probe_key i p : prs !! i = Some p -> row_at keys (Z.of_nat i) = p.2.
Proof using Hkrows.
  intros Hp. pose proof (lookup_lt_Some _ _ _ Hp). apply (f_equal (.!! i)) in Hkrows.
  rewrite !list_lookup_fmap, Hp, lookup_zrange in Hkrows by (unfold zlen; lia). simpl in Hkrows. by injection Hkrows.
Qed.

Lemma probe_row_ok i p pairs : prs !! i = Some p ->
  probe_row type bs table mask keys (Z.of_nat i) pairs =
    Some (pairs ++ found (Z.of_nat i) (hits p.2), nonempty (hits p.2)).
Proof using Hbs Hchunks Hkt Htable Htypes Hkeys Hkrows.
  intros Hp. pose proof (lookup_lt_Some _ _ _ Hp) as Hlt. pose proof (probe_key i p Hp) as Hk. unfold probe_row.
  assert (Hi : 0 <= Z.of_nat i < zlen prs) by (unfold zlen; lia).
  rewrite (any_key_null_ok (zlen prs) (project_sig sgp pkeys)), Hk by done.
  destruct (null_key p.2) eqn:Hnull.
  { rewrite (hits_null p.2) by done. unfold found. destruct type; simpl; by rewrite app_nil_r. }
  assert (Hpk : Forall (fun s => emittable s.1 = true) (project_sig sgp pkeys)).
  { apply key_sig_ok. apply (Forall_map output_type (fun t => emittable t = true)).
    rewrite <- Htypes. by apply Forall_map. }
  rewrite (hash_row_ok (zlen prs) (project_sig sgp pkeys)), Hk by (done || by rewrite Hk).
  destruct Htable as (k & -> & Hpb & Hroom). destruct (row_refs_ok sgb bkeys bs rss Hbs) as [_ Hin].
  set (h := hash_of p.2).
  rewrite (scan_ext occupied _ (fun e st => if en_hash e =? h then match_body keys (Z.of_nat i) e st else Some (st, false)))
    by (by intros e [ps m]).
  assert (Hocc : Forall (fun e => occupied e = true) (map entry_of (List.filter joinable (row_refs bs)))).
  { rewrite <- (take_ge (row_refs bs) (length (row_refs bs))) by done. apply entries_occupied. }
  pose proof (scan_probing occupied en_hash k table _ Hpb ltac:(by rewrite length_map)
    (match_body keys (Z.of_nat i)) h (pairs, false) Hocc) as Hs.
  rewrite filter_map, filter_filter in Hs.
  destruct (visits_found sgp pkeys (zlen prs) keys (Z.of_nat i) Hkeys Hi Htypes ltac:(by rewrite Hk)
    (List.filter (fun rr => joinable rr && (en_hash (entry_of rr) =? h)) (row_refs bs))) with (pairs := pairs) (m := false)
    as [stop Hv].
  { apply Forall_forall. intros rr [Hrr Hj]%list_elem_of_In%List.filter_In. apply andb_true_iff in Hj as [Hj _].
    rewrite Forall_forall in Hin. split; [|done]. by apply Hin, list_elem_of_In. }
  rewrite Hv in Hs. rewrite filter_filter in Hs.
  assert (Hhits : List.filter (fun rr => joinable rr && (en_hash (entry_of rr) =? h) &&
      bool_decide (ref_key rr = row_at keys (Z.of_nat i))) (row_refs bs) = hits p.2).
  { unfold hits. apply List.filter_ext. intros rr. rewrite Hk. destruct (joinable rr); [|done]. simpl.
    destruct (decide (ref_key rr = p.2)) as [He|He].
    - rewrite bool_decide_true by done. unfold h. rewrite He, Z.eqb_refl. done.
    - rewrite bool_decide_false by done. by rewrite andb_false_r. }
  rewrite Hhits in Hs. simpl orb in Hs. destruct stop; [destruct Hs as [slot ->]|rewrite Hs]; done.
Qed.

Definition first_pairs (l : list (row * row)) : list MatchPair :=
  concat (imap (fun i p => found (Z.of_nat i) (hits p.2)) l).

Definition rest_pairs (l : list (row * row)) : list MatchPair :=
  concat (imap (fun i p => if nonempty (hits p.2) then [] else [mkPair (Z.of_nat i) NO_BUILD 0]) l).

Lemma concat_imap_S {A B} (f : nat -> A -> list B) l i x : l !! i = Some x ->
  concat (imap f (take (S i) l)) = concat (imap f (take i l)) ++ f i x.
Proof using.
  intros Hx. rewrite (take_S_r _ _ _ Hx), imap_app, concat_app. f_equal. simpl. rewrite app_nil_r.
  rewrite length_take. apply lookup_lt_Some in Hx. f_equal. lia.
Qed.

Lemma flags_insert (f : row * row -> bool) i p : prs !! i = Some p ->
  (if f p then <[i := true]> (map f (take i prs) ++ replicate (length prs - i) false)
   else map f (take i prs) ++ replicate (length prs - i) false) =
  map f (take (S i) prs) ++ replicate (length prs - S i) false.
Proof using.
  intros Hp. pose proof (lookup_lt_Some _ _ _ Hp) as Hlt. rewrite (take_S_r _ _ _ Hp), map_app, <- app_assoc. simpl.
  replace (length prs - i)%nat with (S (length prs - S i)) by lia. simpl.
  destruct (f p); [|done]. rewrite insert_app_r_alt by (rewrite length_map, length_take; lia).
  rewrite length_map, length_take. by replace (i - _)%nat with 0%nat by lia.
Qed.

Lemma match_pairs_ok : match_pairs type bs table mask keys (zlen prs) =
  Some (first_pairs prs ++ match type with LEFT_OUTER | ANTI => rest_pairs prs | _ => [] end).
Proof using Hbs Hchunks Hkt Htable Htypes Hkeys Hkrows.
  unfold match_pairs. set (flag := fun p : row * row => nonempty (hits p.2)).
  destruct (loop_inv (fun i st => st = (first_pairs (take (Z.to_nat i) prs),
      map flag (take (Z.to_nat i) prs) ++ replicate (length prs - Z.to_nat i) false)) (zlen prs)
    (fun r '(pairs, matched) => let! (pairs, m) := probe_row type bs table mask keys r pairs in
      Some (pairs, if m : bool then <[Z.to_nat r := true]> matched else matched))
    ([], replicate (Z.to_nat (zlen prs)) false)) as (st & -> & ->).
  - unfold zlen. lia.
  - unfold zlen. rewrite Nat2Z.id. simpl. by rewrite Nat.sub_0_r.
  - intros i st Hi ->. destruct (lookup_lt_is_Some_2 prs (Z.to_nat i)) as [p Hp]; [unfold zlen in Hi; lia|].
    pose proof (probe_row_ok (Z.to_nat i) p (first_pairs (take (Z.to_nat i) prs)) Hp) as Hpr.
    rewrite Z2Nat.id in Hpr by lia. rewrite Hpr.
    eexists. split; [done|]. replace (Z.to_nat (i + 1)) with (S (Z.to_nat i)) by lia.
    rewrite <- (flags_insert flag _ p Hp). unfold first_pairs. rewrite (concat_imap_S _ _ _ p) by done.
    by rewrite Z2Nat.id by lia.
  - assert (Z.to_nat (zlen prs) = length prs) as Hz by (unfold zlen; lia). rewrite Hz, Nat.sub_diag, !take_ge by done.
    cbn [replicate]. rewrite app_nil_r.
    assert (Hrest : each (zrange 0 (zlen prs)) (fun r pairs => let! m := map flag prs !! Z.to_nat r in
        Some (if m : bool then pairs else pairs ++ [mkPair r NO_BUILD 0])) (first_pairs prs) =
      Some (first_pairs prs ++ rest_pairs prs)).
    { destruct (loop_inv (fun i ps => ps = first_pairs prs ++ rest_pairs (take (Z.to_nat i) prs)) (zlen prs)
        (fun r pairs => let! m := map flag prs !! Z.to_nat r in
          Some (if m : bool then pairs else pairs ++ [mkPair r NO_BUILD 0])) (first_pairs prs)) as (ps & -> & ->);
        [unfold zlen; lia|by rewrite app_nil_r| |by rewrite take_ge by lia].
      intros i ps Hi ->. destruct (lookup_lt_is_Some_2 prs (Z.to_nat i)) as [p Hp]; [unfold zlen in Hi; lia|].
      rewrite list_lookup_fmap, Hp. simpl. eexists. split; [done|].
      replace (Z.to_nat (i + 1)) with (S (Z.to_nat i)) by lia. unfold rest_pairs.
      rewrite (concat_imap_S _ _ _ p) by done. rewrite Z2Nat.id by lia. unfold flag.
      destruct (nonempty (hits p.2)); by rewrite ?app_nil_r, ?app_assoc. }
    destruct type; rewrite ?app_nil_r; done.
Qed.

(** ** The rows of the pairs *)

Context (c : Chunk).
Hypothesis Hc : chunk_wf sgp c.
Hypothesis Hcsel : ck_sel c = None.
Hypothesis Hcount : ck_row_count c = zlen prs.
Hypothesis Hcrows : chunk_rows c = map fst prs.

Abbreviation schema := (join_schema type sgp sgb).
Abbreviation shows := (pair_row (pair_src (length sgp) bs) schema c).

Lemma probe_cols i p : prs !! i = Some p -> row_at (ck_columns c) (Z.of_nat i) = p.1 /\ length p.1 = length sgp.
Proof using Hc Hcsel Hcount Hcrows.
  intros Hp. pose proof (lookup_lt_Some _ _ _ Hp). unfold chunk_rows, shown in Hcrows. rewrite Hcsel, Hcount in Hcrows.
  assert (row_at (ck_columns c) (Z.of_nat i) = p.1) as Hrow.
  { apply (f_equal (.!! i)) in Hcrows. rewrite !list_lookup_fmap, Hp, lookup_zrange in Hcrows by (unfold zlen; lia).
    simpl in Hcrows. by injection Hcrows. }
  split; [done|]. rewrite <- Hrow. unfold row_at. rewrite length_map.
  symmetry. apply (Forall2_length _ _ _ (ckw_cols _ _ Hc)).
Qed.

(** The columns of the probe side. *)
Lemma probe_src i p mp j s : prs !! i = Some p -> mp_probe mp = Z.of_nat i -> sgp !! j = Some s ->
  src_col s (pair_src (length sgp) bs c j mp) (p.1 !! j).
Proof using Hc Hcsel Hcount Hcrows.
  intros Hp Hmp Hj. destruct (probe_cols i p Hp) as [<- _]. pose proof (lookup_lt_Some _ _ _ Hp).
  destruct (Forall2_lookup_l _ _ _ _ _ (ckw_cols _ _ Hc) Hj) as (col & Hcol & Hwf & Ht & Hn & Hsz).
  exists (Some (col, mp_probe mp)). unfold pair_src.
  rewrite (proj2 (Nat.ltb_lt _ _)) by (by eapply lookup_lt_Some). rewrite Hcol. split_and!; [done| |].
  - simpl. rewrite Hmp, Hsz, Hcount, Hn. unfold zlen. split_and!; try done; lia.
  - unfold row_at. by rewrite list_lookup_fmap, Hcol, Hmp.
Qed.

(** The columns of the build side, which an outer join makes nullable. *)
Lemma build_src rr i j s nl : ref_in rss rr -> 0 <= rr.1 -> sgb !! j = Some s -> (s.2 = true -> nl = true) ->
  src_col (s.1, nl) (pair_src (length sgp) bs c (length sgp + j) (mkPair i rr.1 rr.2)) ((ref_row rss rr).1 !! j).
Proof using Hbs Hchunks.
  intros Hrr H0 Hj Hnl. pose proof (ref_chunk rr Hrr H0) as Hch.
  destruct (ref_buffer sgb bkeys bs rss rr Hbs Hrr) as (b & rs & Hb & Hbf & Hr & <- & _).
  pose proof (ckw_cols _ _ (bf_wf _ _ _ _ Hbf)) as Hcols. rewrite (bf_count _ _ _ _ Hbf) in Hcols.
  destruct (Forall2_lookup_l _ _ _ _ _ Hcols Hj) as (col & Hcol & Hwf & Ht & Hn & Hsz).
  exists (Some (col, rr.2)). unfold pair_src. cbn [mp_chunk mp_row].
  rewrite (proj2 (Nat.ltb_ge _ _)) by lia. rewrite (proj2 (Z.eqb_neq _ _)) by (unfold NO_BUILD; lia).
  rewrite Hb. replace (length sgp + j - length sgp)%nat with j by lia. rewrite Hcol. split_and!; [done| |].
  - simpl. rewrite Hsz, Hn. split_and!; try done; lia.
  - unfold row_at. by rewrite list_lookup_fmap, Hcol.
Qed.

Lemma build_row_length rr : ref_in rss rr -> length (ref_row rss rr).1 = length sgb.
Proof using Hbs.
  intros Hrr. destruct (ref_buffer sgb bkeys bs rss rr Hbs Hrr) as (b & rs & _ & Hbf & _ & <- & _).
  unfold row_at. rewrite length_map. symmetry. apply (Forall2_length _ _ _ (ckw_cols _ _ (bf_wf _ _ _ _ Hbf))).
Qed.

(** A pair shows the probe row followed by [tail], if the columns from [length sgp] on do. *)
Lemma shows_app i p mp sgt tail : prs !! i = Some p -> mp_probe mp = Z.of_nat i ->
  schema = sgp ++ sgt -> length tail = length sgt ->
  (forall j s, sgt !! j = Some s -> src_col s (pair_src (length sgp) bs c (length sgp + j) mp) (tail !! j)) ->
  shows mp (p.1 ++ tail).
Proof using Hc Hcsel Hcount Hcrows.
  intros Hp Hmp Hs Hl Ht. destruct (probe_cols i p Hp) as [_ Hlp]. unfold pair_row. rewrite Hs.
  split; [rewrite !length_app; lia|]. intros j s [Hj|[Hge Hj]]%lookup_app_Some.
  - rewrite lookup_app_l by (rewrite Hlp; by eapply lookup_lt_Some). by eapply probe_src.
  - rewrite lookup_app_r by lia. rewrite Hlp. replace j with (length sgp + (j - length sgp))%nat at 1 by lia.
    by apply Ht.
Qed.

Lemma shows_match i p rr : (type = INNER \/ type = LEFT_OUTER) -> prs !! i = Some p -> rr ∈ row_refs bs ->
  shows (mkPair (Z.of_nat i) rr.1 rr.2) (p.1 ++ (ref_row rss rr).1).
Proof using Hbs Hchunks Hc Hcsel Hcount Hcrows.
  intros Hty Hp Hrr. destruct (row_refs_ok sgb bkeys bs rss Hbs) as [_ Hin]. pose proof row_refs_nonneg as H0.
  rewrite Forall_forall in Hin, H0. specialize (Hin _ Hrr). specialize (H0 _ Hrr).
  pose proof (build_row_length rr Hin) as Hl. destruct Hty as [Hty|Hty].
  - apply (shows_app i p _ sgb); [done|done|by rewrite Hty|done|].
    intros j [t nl] Hj. by apply (build_src rr _ j (t, nl) nl).
  - apply (shows_app i p _ (map (fun s => (s.1, true)) sgb)); [done|done|by rewrite Hty|by rewrite length_map|].
    intros j s Hj. rewrite list_lookup_fmap in Hj. destruct (sgb !! j) as [s'|] eqn:Hs; [|done].
    injection Hj as <-. by apply (build_src rr _ j s' true).
Qed.

Lemma shows_outer i p : type = LEFT_OUTER -> prs !! i = Some p ->
  shows (mkPair (Z.of_nat i) NO_BUILD 0) (p.1 ++ replicate (length sgb) VNull).
Proof using Hc Hcsel Hcount Hcrows.
  intros Hty Hp. apply (shows_app i p _ (map (fun s => (s.1, true)) sgb)); [done|done|by rewrite Hty|by rewrite length_replicate, length_map|].
  intros j s Hj. exists None. unfold pair_src. rewrite (proj2 (Nat.ltb_ge _ _)) by lia. split_and!; [done| |].
  - rewrite list_lookup_fmap in Hj. destruct (sgb !! j); [|done]. by injection Hj as <-.
  - apply lookup_lt_Some in Hj. rewrite length_map in Hj. by apply lookup_replicate_2.
Qed.

Lemma shows_probe i p : (type = SEMI \/ type = ANTI) -> prs !! i = Some p ->
  shows (mkPair (Z.of_nat i) NO_BUILD 0) p.1.
Proof using Hc Hcsel Hcount Hcrows.
  intros Hty Hp. rewrite <- (app_nil_r p.1). apply (shows_app i p _ []); [done|done| |done|done].
  rewrite app_nil_r. by destruct Hty as [-> | ->].
Qed.

Lemma Forall2_concat_imap {A B C} (R : B -> C -> Prop) F (G : A -> list C) l :
  (forall i p, l !! i = Some p -> Forall2 R (F i p) (G p)) -> Forall2 R (concat (imap F l)) (flat_map G l).
Proof using.
  induction l as [|p l IH] using rev_ind; intros HF; [constructor|].
  rewrite imap_app, concat_app, flat_map_app. apply Forall2_app.
  - apply IH. intros i q Hq. apply HF. by apply lookup_app_l_Some.
  - simpl. rewrite !app_nil_r, Nat.add_0_r. apply HF. by apply list_lookup_middle.
Qed.

Lemma hits_matches k : map (fun rr => (ref_row rss rr).1) (hits k) = matches (concat rss) k.
Proof using Hbs.
  destruct (row_refs_ok sgb bkeys bs rss Hbs) as [Hmap _]. unfold matches. rewrite <- Hmap, filter_map, map_map. done.
Qed.

Lemma nonempty_hits k : nonempty (hits k) = nonempty (matches (concat rss) k).
Proof using Hbs. rewrite <- hits_matches. by destruct (hits k). Qed.

Lemma filter_flat_map {A B} (f : A -> bool) (g : A -> B) l :
  map g (List.filter f l) = flat_map (fun a => if f a then [g a] else []) l.
Proof using. induction l as [|a l IH]; simpl; [done|]. destruct (f a); simpl; by rewrite IH. Qed.

(** Together: the pairs of the chunk show the rows of the reference. *)
Lemma match_pairs_rows : exists pairs, match_pairs type bs table mask keys (zlen prs) = Some pairs /\
  Forall2 shows pairs (join_rows type (length sgb) (concat rss) prs).
Proof using Hbs Hchunks Hkt Htable Htypes Hkeys Hkrows Hc Hcsel Hcount Hcrows.
  eexists. split; [exact match_pairs_ok|]. unfold join_rows.
  assert (Hinner : type = INNER \/ type = LEFT_OUTER ->
    Forall2 shows (first_pairs prs) (flat_map (fun p => map (app p.1) (matches (concat rss) p.2)) prs)).
  { intros Hty. apply Forall2_concat_imap. intros i p Hp. rewrite <- hits_matches, map_map.
    assert (found (Z.of_nat i) (hits p.2) = map (fun rr => mkPair (Z.of_nat i) rr.1 rr.2) (hits p.2)) as ->
      by (unfold found; by destruct Hty as [-> | ->]).
    apply Forall2_fmap, Forall_Forall2_diag, Forall_forall. intros rr Hrr.
    apply shows_match; [done..|]. apply list_elem_of_In, List.filter_In in Hrr as [Hrr _]. by apply list_elem_of_In. }
  assert (Hrest : forall (g : row * row -> row), (forall i p, prs !! i = Some p -> shows (mkPair (Z.of_nat i) NO_BUILD 0) (g p)) ->
    Forall2 shows (rest_pairs prs) (map g (List.filter (fun p => negb (nonempty (matches (concat rss) p.2))) prs))).
  { intros g Hg. rewrite filter_flat_map. apply Forall2_concat_imap. intros i p Hp. rewrite nonempty_hits.
    destruct (nonempty _); simpl; [constructor|]. constructor; [by apply Hg|constructor]. }
  assert (Hnil : type = ANTI -> first_pairs prs = []).
  { intros Hty. unfold first_pairs, found. rewrite Hty. clear. induction prs as [|p l IH] using rev_ind; [done|].
    by rewrite imap_app, concat_app, IH. }
  pose proof shows_outer as Ho. pose proof shows_probe as Hpr. destruct type eqn:Hty.
  - rewrite app_nil_r. auto.
  - apply Forall2_app; [by auto|]. apply Hrest. intros i p Hp. by apply Ho.
  - rewrite app_nil_r, filter_flat_map. apply Forall2_concat_imap. intros i p Hp. unfold found. rewrite Hty, nonempty_hits.
    destruct (nonempty _); simpl; [|constructor]. constructor; [by apply Hpr; auto|constructor].
  - rewrite Hnil by done. apply Hrest. intros i p Hp. by apply Hpr; auto.
Qed.
End probe_chunk.
End build.

(** ** The joined stream *)

Lemma keys_joinable_types bkeys pkeys : keys_joinable bkeys pkeys = true ->
  map output_type bkeys = map output_type pkeys /\ Forall (fun e => emittable (output_type e) = true) bkeys.
Proof.
  unfold keys_joinable. rewrite !andb_true_iff. intros [[[_ Hl%Nat.eqb_eq] Hf] _].
  revert pkeys Hl Hf. induction bkeys as [|e bkeys IH]; intros [|e' pkeys] Hl Hf; try done.
  simpl in Hl, Hf. apply andb_true_iff in Hf as [[Ht%bool_decide_eq_true He]%andb_true_iff Hf].
  destruct (IH pkeys) as [Hm Hb]; [lia|done|]. split; [simpl; congruence|by constructor].
Qed.

Section hash_join_stream.
Context {B P : Type} `{Operator B} `{Operator P} `{Fpu}.
Context (sgb sgp : signature) (bkeys pkeys : list Expression) (type : JoinType) (fuel : nat).
Hypothesis Hbk : Forall (well_typed sgb) bkeys.
Hypothesis Hpk : Forall (well_typed sgp) pkeys.
Hypothesis Hschema : Forall (fun s => emittable s.1 = true) (join_schema type sgp sgb).

(** The output rows for the rows of a probe chunk; [None] if a key fails. *)
Definition join_chunk_ref (build : list (row * row)) (rows : list row) : option (list row) :=
  let! prs := mapM (keyed pkeys) rows in Some (join_rows type (length sgb) build prs).

(** What the join yields: the chunks of the probe side one after the other. *)
Definition join_ref (build : list (row * row)) (cs : list Chunk) (fin : option string) : list row * option string :=
  loop_ref (join_chunk_ref build) cs fin.

Definition hj_state (build : B) (chunks : build_rows) (table : list Entry) (mask : Z)
    (loop : JoinLoop P MatchPair) : HashJoin B P :=
  mkHashJoin build bkeys pkeys type (join_schema type sgp sgb) (length sgp) true true chunks table mask loop.

(** Once built, the operator does what the loop does. *)
Lemma hash_join_lift build chunks table mask loop cs fin :
  @runs _ (Loop_Operator (match_chunk type pkeys chunks table mask) (pair_src (length sgp) chunks)
    (join_schema type sgp sgb)) fuel loop cs fin ->
  runs fuel (hj_state build chunks table mask loop) cs fin.
Proof using.
  induction 1 as [s s' Hn|s s' m Hn|s s' c cs fin Hn _ IH].
  - eapply runs_end. simpl in Hn |- *. unfold hash_join_next. simpl. by rewrite Hn.
  - eapply runs_err. simpl in Hn |- *. unfold hash_join_next. simpl. by rewrite Hn.
  - eapply runs_chunk; [|exact IH]. simpl in Hn |- *. unfold hash_join_next. simpl. by rewrite Hn.
Qed.

Lemma match_chunk_ok bs rss table mask c c' old : Forall2 (buffered sgb bkeys) bs rss ->
  Forall (fun e => emittable (output_type e) = true) bkeys -> map output_type bkeys = map output_type pkeys ->
  zlen bs < UINT32_MAX -> table_ok bs rss table mask ->
  chunk_wf sgp c -> all_defined pkeys c -> materialize c = Some c' -> logical_size c <> 0 ->
  exists r pairs, match_chunk type pkeys bs table mask c' old = Some (r, pairs) /\
    match r, join_chunk_ref (concat rss) (chunk_rows c) with
    | Ok _, Some rows => Forall2 (pair_row (pair_src (length sgp) bs) (join_schema type sgp sgb) c') pairs rows
    | Err m, None => m = "division by zero"
    | _, _ => False
    end.
Proof using Hpk.
  intros Hbs Hkt Htypes Hch Htab Hwf Hdef Hm Hne.
  destruct (buffer_chunk sgp pkeys Hpk c Hwf Hdef Hne) as (c1 & Hm' & Hcase). rewrite Hm in Hm'. injection Hm' as <-.
  unfold match_chunk, join_chunk_ref. destruct Hcase as [(keys & prs & -> & -> & _ & Hb)|[-> ->]].
  - pose proof (bf_wf _ _ _ _ Hb) as Hwf'. pose proof (ckw_rows _ _ Hwf') as Hr. cbn [fst snd] in *.
    rewrite wrap_id by (unfold MAX_ROWS, in_u in *; lia). pose proof (bf_count _ _ _ _ Hb) as Hcnt. cbn [fst] in Hcnt.
    rewrite Hcnt. destruct (match_pairs_rows sgb bkeys bs rss Hbs Hkt Hch type table mask sgp pkeys keys prs)
      with (c := c') as (pairs & -> & Hp); try done; try apply Hb. by exists (Ok tt), pairs.
  - by exists (Err "division by zero"), old.
Qed.

End hash_join_stream.

(** ** Independence of the chunk boundaries *)

(** The output rows of one probe row. *)
Definition row_join (type : JoinType) (nb : nat) (build : list (row * row)) (p : row * row) : list row :=
  let ms := matches build p.2 in
  match type with
  | INNER => map (app p.1) ms
  | LEFT_OUTER => if nonempty ms then map (app p.1) ms else [p.1 ++ replicate nb VNull]
  | SEMI => if nonempty ms then [p.1] else []
  | ANTI => if nonempty ms then [] else [p.1]
  end.

Lemma flat_map_merge {A B} (f g h : A -> list B) l : (forall a, h a = f a ++ g a) ->
  flat_map f l ++ flat_map g l ≡ₚ flat_map h l.
Proof.
  intros Hh. induction l as [|a l IH]; simpl; [done|]. rewrite Hh, <- IH. solve_Permutation.
Qed.

(** Up to the order of the rows a chunk gives the join of its rows ... *)
Lemma join_rows_perm type nb build prs : join_rows type nb build prs ≡ₚ flat_map (row_join type nb build) prs.
Proof.
  unfold join_rows. destruct type; [done| | |]; rewrite filter_flat_map.
  - apply flat_map_merge. intros p. unfold row_join. destruct (matches build p.2); simpl; [done|]. by rewrite app_nil_r.
  - done.
  - erewrite flat_map_ext; [done|]. intros p. unfold row_join. by destruct (nonempty _).
Qed.

(** ... and so does the whole stream. *)
Lemma join_ref_perm `{Fpu} sgb pkeys type build cs prss : keyed_rows pkeys cs None = Ok prss ->
  (join_ref sgb pkeys type build cs None).2 = None /\
  (join_ref sgb pkeys type build cs None).1 ≡ₚ flat_map (row_join type (length sgb) build) (concat prss).
Proof.
  unfold join_ref. revert prss. induction cs as [|c cs IH]; intros prss; cbn [keyed_rows loop_ref].
  - by intros [= <-].
  - destruct (mapM (keyed pkeys) (chunk_rows c)) as [prs|] eqn:Hm; [|done].
    destruct (keyed_rows pkeys cs None) as [l|]; [|done]. intros [= <-].
    destruct (IH l eq_refl) as [Hf Hr]. assert (Hcr : join_chunk_ref sgb pkeys type build (chunk_rows c) = Some (join_rows type (length sgb) build prs))
      by (unfold join_chunk_ref; by rewrite Hm).
    rewrite !Hcr. destruct (decide (chunk_rows c = [])) as [He|He].
    + rewrite !bool_decide_true by done. rewrite He in Hm. by injection Hm as <-.
    + rewrite !bool_decide_false by done. destruct (loop_ref _ cs None) as [rs f]. simpl in Hf, Hr |- *. split; [done|].
      assert (concat (match prs with [] => l | _ => prs :: l end) = prs ++ concat l) as -> by (by destruct prs).
      by rewrite flat_map_app, join_rows_perm, Hr.
Qed.

