(* ===== verification/NestedLoopJoin.v ===== *)
(** * Nested loop join

    [NestedLoopJoin] (src/src/executor/nested_loop_join.h, nested_loop_join.cpp): buffers its
    outer child and, for every chunk of its inner child and every outer row, evaluates the
    predicate on the chunk extended by the columns of the outer row.  The loops of [next] are
    those of JoinLoop. *)

From S2P Require Import Prelude Types SelectionVector ColumnVector Chunk Expression Operator Buffered JoinLoop HashJoin.

Record NljPair : Type := mkNljPair { np_outer_chunk : Z; np_outer_row : Z; np_inner_row : Z }.

(** ** The pairs of an inner chunk *)

Definition broadcast_value (src : ColumnVector) (src_row out_size : Z) : option ColumnVector :=
  let out := cv_make (cv_type src) out_size (cv_nullable src) in
  let fill set := each (zrange 0 out_size) (fun i out => set out i) out in
  let! null := if cv_nullable src then cv_is_null src src_row else Some false in
  if null : bool then fill set_null
  else
    match cv_type src with
    | INT32 => let! v := cv_get_i32 src src_row in fill (fun out i => set_i32 out i v)
    | INT64 => let! v := cv_get_i64 src src_row in fill (fun out i => set_i64 out i v)
    | DOUBLE => let! v := cv_get_f64 src src_row in fill (fun out i => set_f64 out i v)
    | VARCHAR => let! v := cv_get_str src src_row in fill (fun out i => set_str out i v)
    | _ => None
    end.

(** [for (c = 0; c < n; ++c) cols.push_back(f(chunk.column(c)))] *)
Definition first_columns (n : nat) (chunk : Chunk) (f : ColumnVector -> option ColumnVector) :
    option (list ColumnVector) :=
  mapM (fun c => let! col := ck_columns chunk !! c in f col) (seq 0 n).

(** A loop whose body may return an error; the state is kept. *)
Fixpoint each_until {A St} (l : list A) (body : A -> St -> option (result unit * St)) (s : St) :
    option (result unit * St) :=
  match l with
  | [] => Some (Ok tt, s)
  | a :: l' =>
      let! (r, s) := body a s in
      match r with Err m => Some (Err m, s) | Ok _ => each_until l' body s end
  end.

(** The matches of one outer row. *)
Definition match_outer_row `{Fpu} (predicate : Expression) (n_outer n_inner : nat) (outer : Chunk) (chunk : Chunk)
    (oc orow : Z) (pairs : list NljPair) : option (result unit * list NljPair) :=
  let! outer_cols := first_columns n_outer outer (fun col => broadcast_value col orow (ck_row_count chunk)) in
  let! inner_cols := first_columns n_inner chunk Some in
  let! combined := chunk_new (ck_row_count chunk) (outer_cols ++ inner_cols) in
  let! ev := evaluate predicate combined in
  match ev with
  | Err m => Some (Err m, pairs)
  | Ok mask =>
      let! pairs := each (zrange 0 (wrap 32 (ck_row_count chunk))) (fun i pairs =>
        let! keep := mask_keeps mask i in
        Some (if keep : bool then pairs ++ [mkNljPair oc orow i] else pairs)) pairs in
      Some (Ok tt, pairs)
  end.

(** The part of [load_next_inner_chunk_] between [materialize] and the end. *)
Definition match_inner_chunk `{Fpu} (predicate : Expression) (n_outer n_inner : nat) (outer : build_rows)
    (chunk : Chunk) (old : list NljPair) : option (result unit * list NljPair) :=
  each_until (zrange 0 (wrap 32 (zlen outer))) (fun oc pairs =>
    let! b := outer !! Z.to_nat oc in
    each_until (zrange 0 (wrap 32 (ck_row_count b.1))) (fun orow pairs =>
      match_outer_row predicate n_outer n_inner b.1 chunk oc orow pairs) pairs) [].

Definition nlj_src (n_outer : nat) (outer : build_rows) (chunk : Chunk) (c : nat) (mp : NljPair) :
    option (option (ColumnVector * Z)) :=
  if (c <? n_outer)%nat
  then
    let! b := outer !! Z.to_nat (np_outer_chunk mp) in
    let! col := ck_columns b.1 !! c in
    Some (Some (col, np_outer_row mp))
  else
    let! col := ck_columns chunk !! (c - n_outer)%nat in
    Some (Some (col, np_inner_row mp)).

(** ** The operator *)

Record NestedLoopJoin (O I : Type) : Type := mkNlj {
  nl_outer : O;
  nl_predicate : Expression;
  nl_schema : signature;
  nl_n_outer : nat;
  nl_n_inner : nat;
  nl_opened : bool;
  nl_buffered : bool;
  nl_chunks : build_rows;
  nl_loop : JoinLoop I NljPair
}.
Arguments mkNlj {O I}.
Arguments nl_outer {O I}.
Arguments nl_predicate {O I}.
Arguments nl_schema {O I}.
Arguments nl_n_outer {O I}.
Arguments nl_n_inner {O I}.
Arguments nl_opened {O I}.
Arguments nl_buffered {O I}.
Arguments nl_chunks {O I}.
Arguments nl_loop {O I}.

Section nlj.
Context {O I : Type} `{Operator O} `{Operator I} `{Fpu}.

Definition nlj_new (outer : O) (inner : I) (predicate : Expression) (type : JoinType)
    (outer_schema inner_schema : signature) : option (NestedLoopJoin O I) :=
  assert (bool_decide (output_type predicate = INT32) && bool_decide (type = INNER)) in
  Some (mkNlj outer predicate (outer_schema ++ inner_schema) (length outer_schema) (length inner_schema)
    false false [] (mkLoop inner false None [] 0)).

Definition nlj_with (j : NestedLoopJoin O I) outer opened buffered chunks loop : NestedLoopJoin O I :=
  mkNlj outer (nl_predicate j) (nl_schema j) (nl_n_outer j) (nl_n_inner j) opened buffered chunks loop.

Definition nlj_children (j : NestedLoopJoin O I) outer inner opened : NestedLoopJoin O I :=
  let l := nl_loop j in
  nlj_with j outer opened (nl_buffered j) (nl_chunks j)
    (mkLoop inner (jl_exhausted l) (jl_chunk l) (jl_pairs l) (jl_cursor l)).

Definition nlj_open (j : NestedLoopJoin O I) : option (result unit * NestedLoopJoin O I) :=
  let! (ro, outer) := op_open (nl_outer j) in
  match ro with
  | Err m => Some (Err m, nlj_children j outer (jl_child (nl_loop j)) (nl_opened j))
  | Ok _ =>
      let! (ri, inner) := op_open (jl_child (nl_loop j)) in
      match ri with
      | Err m => Some (Err m, nlj_children j outer inner (nl_opened j))
      | Ok _ => Some (Ok tt, nlj_children j outer inner true)
      end
  end.

Definition nlj_close (j : NestedLoopJoin O I) : NestedLoopJoin O I :=
  nlj_children j (op_close (nl_outer j)) (op_close (jl_child (nl_loop j))) (nl_opened j).

Definition buffer_outer_ (fuel : nat) (j : NestedLoopJoin O I) : option (result unit * NestedLoopJoin O I) :=
  let! (r, chunks, outer) := drain fuel fuel [] (nl_outer j) (nl_chunks j) in
  match r with
  | Err m => Some (Err m, nlj_with j outer (nl_opened j) (nl_buffered j) chunks (nl_loop j))
  | Ok _ => Some (Ok tt, nlj_with j (op_close outer) (nl_opened j) true chunks (nl_loop j))
  end.

Definition nlj_next (fuel : nat) (j : NestedLoopJoin O I) : option (result (option Chunk) * NestedLoopJoin O I) :=
  assert (nl_opened j) in
  let! (r, j) := if nl_buffered j then Some (Ok tt, j) else buffer_outer_ fuel j in
  match r with
  | Err m => Some (Err m, j)
  | Ok _ =>
      let! (r, loop) :=
        join_loop (match_inner_chunk (nl_predicate j) (nl_n_outer j) (nl_n_inner j) (nl_chunks j))
          (nlj_src (nl_n_outer j) (nl_chunks j)) (nl_schema j) fuel fuel (nl_loop j) in
      Some (r, nlj_with j (nl_outer j) (nl_opened j) (nl_buffered j) (nl_chunks j) loop)
  end.

#[export] Instance NestedLoopJoin_Operator : Operator (NestedLoopJoin O I) :=
  {| op_open := nlj_open; op_next := nlj_next; op_close := nlj_close |}.
End nlj.

(** ** Broadcasting *)

Lemma broadcast_value_ok s n src row m : col_ok n s src -> 0 <= row < n -> emittable s.1 = true -> 0 <= m ->
  exists out, broadcast_value src row m = Some out /\ col_ok m s out /\
    forall i, 0 <= i < m -> cell out i = cell src row.
Proof.
  intros Hc Hr Ht Hm. pose proof Hc as (Hwf & Hty & Hnl & Hsz). unfold broadcast_value.
  assert (Hv : is_vec_type (cv_type src) = true) by (rewrite Hty; by destruct s.1).
  destruct (cv_make_wf (cv_type src) m (cv_nullable src) Hv Hm) as (Hmw & _ & Hms & [Hmt Hmn]).
  assert (Hfill : forall set, (forall out i, set out i = set_value out i (cell src row)) ->
    exists out, each (zrange 0 m) (fun i out => set out i) (cv_make (cv_type src) m (cv_nullable src)) = Some out /\
      col_ok m s out /\ forall i, 0 <= i < m -> cell out i = cell src row).
  { intros set Hset. destruct (loop_inv (fun i out => col_ok m s out /\ forall j, 0 <= j < i -> cell out j = cell src row) m
      (fun i out => set out i) (cv_make (cv_type src) m (cv_nullable src))) as (out & -> & Hout & Hcells); [done| | |by eauto].
    - split; [|lia]. split_and!; [done|by rewrite Hmt, <- Hty|by rewrite Hmn, <- Hnl|done].
    - intros i out Hi [Hout Hcells]. rewrite Hset.
      destruct (set_value_ok out i (cell src row)) as (out' & -> & Hw).
      + apply Hout.
      + destruct Hout as (_ & _ & _ & ->). lia.
      + destruct Hout as (_ & -> & _). by eapply cell_vec.
      + intros Hnull. destruct Hout as (_ & _ & -> & _). eapply (null_nullable _ _ src row Hc). by rewrite Hnull.
      + exists out'. split; [done|]. split; [by eapply wrote_col_ok|]. intros j Hj.
        destruct (decide (j = i)) as [->|Hne]; [apply Hw|]. rewrite (wr_other _ _ _ _ Hw); [apply Hcells; lia| |done].
        destruct Hout as (_ & _ & _ & ->). lia. }
  assert ((if cv_nullable src then cv_is_null src row else Some false) = Some (is_null (cell src row))) as ->.
  { rewrite (is_null_cell _ _ _ _ Hc). destruct (cv_nullable src) eqn:En; [by apply cv_is_null_ok; [|lia]|].
    unfold null_at. by rewrite En. }
  destruct (is_null (cell src row)) eqn:Enull.
  { apply Hfill. intros out i. by destruct (cell src row). }
  destruct (cell_vec _ _ _ row Hc Hr) as [Hz|[Hvt Hvw]]; [by rewrite Hz in Enull|]. rewrite <- Hty in *.
  destruct (cv_type src) eqn:Et; try discriminate; destruct (cell src row) eqn:Ec; try discriminate.
  - rewrite (cv_get_i32_ok src row v) by (done || lia). by apply Hfill.
  - rewrite (cv_get_i64_ok src row v) by (done || lia). by apply Hfill.
  - rewrite (cv_get_f64_ok src row bits) by (done || lia). by apply Hfill.
  - rewrite (cv_get_str_ok src row s0) by (done || lia). by apply Hfill.
Qed.

Lemma broadcast_columns_ok sg n cols row m : Forall2 (col_ok n) sg cols -> Forall (fun s => emittable s.1 = true) sg ->
  0 <= row < n -> 0 <= m ->
  exists ocols, mapM (fun col => broadcast_value col row m) cols = Some ocols /\
    Forall2 (col_ok m) sg ocols /\ forall i, 0 <= i < m -> row_at ocols i = row_at cols row.
Proof.
  induction 1 as [|s col sg cols Hcol _ IH]; intros Hs Hr Hm; [by exists []|].
  apply Forall_cons in Hs as [Hs1 Hs].
  destruct (broadcast_value_ok s n col row m Hcol Hr Hs1 Hm) as (out & Ho & Hok & Hcell).
  destruct (IH Hs Hr Hm) as (ocols & Hmm & Hf & Hrow). exists (out :: ocols). simpl. rewrite Ho. simpl. rewrite Hmm.
  split_and!; [done|by constructor|]. intros i Hi. unfold row_at in *. simpl. by rewrite Hcell, Hrow.
Qed.

(** ** Loops *)

Lemma each_until_app {A St} (l1 l2 : list A) f (s : St) :
  each_until (l1 ++ l2) f s =
    let! (r, s') := each_until l1 f s in
    match r with Err m => Some (Err m, s') | Ok _ => each_until l2 f s' end.
Proof. revert s. induction l1 as [|a l1 IH]; intros s; simpl; [done|]. by destruct (f a s) as [[[] s']|]. Qed.

Lemma each_until_map {A B St} (g : A -> B) l f (s : St) :
  each_until (map g l) f s = each_until l (fun a => f (g a)) s.
Proof. revert s. induction l as [|a l IH]; intros s; simpl; [done|]. by destruct (f (g a) s) as [[[] s']|]. Qed.

Lemma each_until_ext {A St} (l : list A) f g (s : St) : (forall a s, f a s = g a s) -> each_until l f s = each_until l g s.
Proof.
  intros Hfg. revert s. induction l as [|a l IH]; intros s; simpl; [done|]. rewrite Hfg. by destruct (g a s) as [[[] s']|].
Qed.

(** The loops over chunks and rows run over the references. *)
Lemma nested_until {St} (full : build_rows) body : forall rest pre (s : St), full = pre ++ rest ->
  each_until (zrange (zlen pre) (zlen rest)) (fun ci s =>
    let! b := full !! Z.to_nat ci in
    each_until (zrange 0 (wrap 32 (ck_row_count b.1))) (fun r s => body b ci r s) s) s =
  each_until (concat (imap (fun ci b => map (fun r => (Z.of_nat (length pre + ci), r))
      (zrange 0 (wrap 32 (ck_row_count b.1)))) rest))
    (fun rr s => let! b := full !! Z.to_nat rr.1 in body b rr.1 rr.2 s) s.
Proof.
  induction rest as [|b rest IH]; intros pre s Hfull; [done|].
  assert (zlen (b :: rest) = zlen rest + 1) as -> by (unfold zlen; simpl; lia).
  rewrite zrange_cons by (unfold zlen; lia). cbn [each_until imap concat]. rewrite each_until_app, each_until_map.
  assert (Hb : full !! Z.to_nat (zlen pre) = Some b).
  { unfold zlen. rewrite Nat2Z.id, Hfull. by apply list_lookup_middle. }
  rewrite Hb. rewrite Nat.add_0_r. fold (zlen pre).
  rewrite (each_until_ext _ (fun a s0 => let! b0 := full !! Z.to_nat (zlen pre, a).1 in body b0 (zlen pre, a).1 (zlen pre, a).2 s0)
    (fun r s0 => body b (zlen pre) r s0)) by (intros a s0; cbn [fst snd]; by rewrite Hb).
  destruct (each_until _ _ s) as [[[] s']|]; [|done..]. specialize (IH (pre ++ [b]) s'). rewrite <- app_assoc in IH.
  specialize (IH Hfull). assert (zlen (pre ++ [b]) = zlen pre + 1) as Hz by (unfold zlen; rewrite length_app; simpl; lia).
  rewrite Hz in IH. rewrite IH. do 2 f_equal. apply imap_ext. intros i x _. simpl. do 3 f_equal.
  rewrite length_app. simpl. lia.
Qed.

Lemma first_columns_all chunk f : first_columns (length (ck_columns chunk)) chunk f = mapM f (ck_columns chunk).
Proof.
  unfold first_columns. generalize (ck_columns chunk). intros l.
  assert (Hgen : forall pre rest, l = pre ++ rest ->
    mapM (fun c => let! col := l !! c in f col) (seq (length pre) (length rest)) = mapM f rest); [|by apply (Hgen [])].
  intros pre rest. revert pre. induction rest as [|x rest IH]; intros pre Hl; [done|]. simpl.
  assert (l !! length pre = Some x) as -> by (rewrite Hl; by apply list_lookup_middle).
  specialize (IH (pre ++ [x])). rewrite <- app_assoc, length_app, Nat.add_comm in IH. simpl in IH. by rewrite IH.
Qed.

Lemma mapM_Some_id {A} (l : list A) : mapM Some l = Some l.
Proof. induction l as [|a l IH]; simpl; [done|]. by rewrite IH. Qed.

(** ** The reference *)

(** The pairs of outer and inner rows on which the predicate is true, outer rows first; [None]
    if it fails on one of them. *)
Definition nlj_chunk_ref `{Fpu} (p : Expression) (outer inner : list row) : option (list row) :=
  let! rss := mapM (fun o => keep_rows p (map (app o) inner)) outer in Some (concat rss).

Section match_inner.
Context `{Fpu} (sgo sgi : signature) (p : Expression).
Context (bs : build_rows) (rss : list (list (row * row))).
Hypothesis Hbs : Forall2 (buffered sgo []) bs rss.
Hypothesis Hp : well_typed (sgo ++ sgi) p.
Hypothesis Hpt : output_type p = INT32.
Hypothesis Hsgo : Forall (fun s => emittable s.1 = true) sgo.
Context (c : Chunk).
Hypothesis Hc : chunk_wf sgi c.
Hypothesis Hcsel : ck_sel c = None.

Abbreviation schema := (sgo ++ sgi).
Abbreviation shows := (pair_row (nlj_src (length sgo) bs) schema c).

(** The chunk that the predicate is evaluated on. *)
Lemma combined_ok rr : ref_in rss rr ->
  exists b ocols combined, bs !! Z.to_nat rr.1 = Some b /\
    first_columns (length sgo) b.1 (fun col => broadcast_value col rr.2 (ck_row_count c)) = Some ocols /\
    chunk_new (ck_row_count c) (ocols ++ ck_columns c) = Some combined /\ chunk_wf schema combined /\
    logical_size combined = ck_row_count c /\
    chunk_rows combined = map (app (ref_row rss rr).1) (chunk_rows c).
Proof using Hbs Hsgo Hc Hcsel.
  intros Hrr. destruct (ref_buffer sgo [] bs rss rr Hbs Hrr) as (b & rs & Hb & Hbf & Hr & <- & _).
  pose proof (ckw_cols _ _ (bf_wf _ _ _ _ Hbf)) as Hcols. rewrite (bf_count _ _ _ _ Hbf) in Hcols.
  pose proof (ckw_rows _ _ Hc) as Hn. set (n := ck_row_count c) in *.
  assert (Hfc : forall f, first_columns (length sgo) b.1 f = mapM f (ck_columns b.1)).
  { intros f. by rewrite (Forall2_length _ _ _ Hcols), first_columns_all. }
  destruct (broadcast_columns_ok sgo (zlen rs) (ck_columns b.1) rr.2 n Hcols Hsgo Hr) as (ocols & Hm & Hf & Hrow); [lia|].
  destruct (chunk_new_ok schema n (ocols ++ ck_columns c)) as [Hnew [Hwf _]];
    [done|by apply Forall2_app; [|apply (ckw_cols _ _ Hc)]|].
  exists b, ocols, (mkChunk n (ocols ++ ck_columns c) None). rewrite Hfc. split_and!; [done..|].
  unfold chunk_rows, shown. simpl. rewrite Hcsel, map_map. fold n. apply map_ext_in. intros i Hi.
  apply list_elem_of_In, list_elem_of_lookup in Hi as [k [-> Hk]%lookup_zrange_Some].
  unfold row_at at 1. rewrite map_app. f_equal. apply Hrow. lia.
Qed.

(** Every outer row, with every inner row, has a value. *)
Definition pair_defined (rr : RowRef) : Prop :=
  Forall (fun i => eval_row p ((ref_row rss rr).1 ++ i) <> None) (chunk_rows c).

Lemma chunk_rows_count : zlen (chunk_rows c) = ck_row_count c.
Proof using Hc Hcsel. rewrite <- (logical_size_rows _ _ Hc). unfold logical_size. by rewrite Hcsel. Qed.

Lemma match_outer_row_ok rr pairs : ref_in rss rr -> pair_defined rr ->
  exists r pairs', (let! b := bs !! Z.to_nat rr.1 in
      match_outer_row p (length sgo) (length sgi) b.1 c rr.1 rr.2 pairs) = Some (r, pairs') /\
    match r, keep_rows p (map (app (ref_row rss rr).1) (chunk_rows c)) with
    | Ok _, Some rows => exists flags, rows = select flags (map (app (ref_row rss rr).1) (chunk_rows c)) /\
        pairs' = pairs ++ map (mkNljPair rr.1 rr.2) (select flags (zrange 0 (ck_row_count c)))
    | Err m, None => m = "division by zero"
    | _, _ => False
    end.
Proof using Hbs Hsgo Hc Hcsel Hp Hpt.
  intros Hrr Hdef. destruct (combined_ok rr Hrr) as (b & ocols & comb & -> & Hoc & Hnew & Hwf & Hls & Hrows).
  unfold match_outer_row. rewrite Hoc.
  assert (length sgi = length (ck_columns c)) as -> by apply (Forall2_length _ _ _ (ckw_cols _ _ Hc)).
  rewrite first_columns_all, mapM_Some_id, Hnew.
  assert (Hd : defined_on p comb) by (unfold defined_on; rewrite Hrows; by apply Forall_map).
  pose proof (ckw_rows _ _ Hc) as Hn.
  destruct (evaluate_defined schema comb p Hwf Hp Hd) as [(mask & -> & Hcol & Hv)|[-> Hv]]; rewrite Hrows in Hv.
  - destruct Hcol as (Hmw & Hmt & _ & Hms). simpl in Hmt. rewrite Hpt in Hmt. rewrite Hls in Hms.
    rewrite wrap_id by (unfold MAX_ROWS, in_u in *; lia).
    rewrite (each_select_range (fun ps i => ps ++ [mkNljPair rr.1 rr.2 i]) mask) by done.
    eexists (Ok tt), _. split; [done|]. unfold keep_rows. rewrite Hv. exists (map keeps (cv_values mask)). split; [done|].
    unfold mask_flags. generalize (select (map keeps (cv_values mask)) (zrange 0 (ck_row_count c))). clear.
    intros l. revert pairs. induction l as [|i l IH]; intros pairs; simpl; [by rewrite app_nil_r|].
    rewrite IH, <- app_assoc. done.
  - eexists (Err _), _. split; [done|]. unfold keep_rows. by rewrite Hv.
Qed.

(** A pair shows the outer row followed by the inner one. *)
Lemma nlj_shows rr i : ref_in rss rr -> 0 <= i < ck_row_count c ->
  shows (mkNljPair rr.1 rr.2 i) ((ref_row rss rr).1 ++ row_at (ck_columns c) i).
Proof using Hbs Hc.
  intros Hrr Hi. destruct (ref_buffer sgo [] bs rss rr Hbs Hrr) as (b & rs & Hb & Hbf & Hr & <- & _).
  pose proof (ckw_cols _ _ (bf_wf _ _ _ _ Hbf)) as Hcols. rewrite (bf_count _ _ _ _ Hbf) in Hcols.
  pose proof (ckw_cols _ _ Hc) as Hicols. pose proof (Forall2_length _ _ _ Hcols) as Hl.
  pose proof (Forall2_length _ _ _ Hicols) as Hil.
  split; [unfold row_at; rewrite !length_app, !length_map; lia|]. intros j s Hj. unfold nlj_src. cbn [np_outer_chunk np_outer_row np_inner_row].
  apply lookup_app_Some in Hj as [Hj|[Hge Hj]].
  - pose proof (lookup_lt_Some _ _ _ Hj). rewrite (proj2 (Nat.ltb_lt _ _)), Hb by lia.
    rewrite lookup_app_l by (unfold row_at; rewrite length_map; lia).
    destruct (Forall2_lookup_l _ _ _ _ _ Hcols Hj) as (col & Hcol & Hwf & Ht & Hn & Hsz). rewrite Hcol.
    exists (Some (col, rr.2)). split_and!; [done|simpl; rewrite Hsz, Hn; split_and!; try done; lia|].
    unfold row_at. by rewrite list_lookup_fmap, Hcol.
  - rewrite (proj2 (Nat.ltb_ge _ _)) by lia. rewrite lookup_app_r by (unfold row_at; rewrite length_map; lia).
    destruct (Forall2_lookup_l _ _ _ _ _ Hicols Hj) as (col & Hcol & Hwf & Ht & Hn & Hsz). rewrite Hcol.
    exists (Some (col, i)). split_and!; [done|simpl; rewrite Hsz, Hn; split_and!; try done; lia|].
    unfold row_at. rewrite length_map, <- Hl, list_lookup_fmap, Hcol. done.
Qed.

Lemma nlj_shows_select rr flags : ref_in rss rr ->
  Forall2 shows (map (mkNljPair rr.1 rr.2) (select flags (zrange 0 (ck_row_count c))))
    (select flags (map (app (ref_row rss rr).1) (chunk_rows c))).
Proof using Hbs Hc Hcsel.
  intros Hrr. unfold chunk_rows, shown. rewrite Hcsel, map_map, select_map.
  apply Forall2_fmap, Forall_Forall2_diag. apply Forall_select, Forall_forall. intros i Hi.
  apply list_elem_of_lookup in Hi as [k [-> Hk]%lookup_zrange_Some]. apply nlj_shows; [done|lia].
Qed.

(** Going over outer rows collects the pairs of the reference. *)
Lemma match_refs_ok refs : Forall (ref_in rss) refs -> Forall pair_defined refs -> forall pairs rows,
  Forall2 shows pairs rows ->
  exists r pairs', each_until refs (fun rr pairs => let! b := bs !! Z.to_nat rr.1 in
      match_outer_row p (length sgo) (length sgi) b.1 c rr.1 rr.2 pairs) pairs = Some (r, pairs') /\
    match r, mapM (fun o => keep_rows p (map (app o) (chunk_rows c))) (map (fun rr => (ref_row rss rr).1) refs) with
    | Ok _, Some rss' => Forall2 shows pairs' (rows ++ concat rss')
    | Err m, None => m = "division by zero"
    | _, _ => False
    end.
Proof using Hbs Hsgo Hc Hcsel Hp Hpt.
  induction 1 as [|rr refs Hrr _ IH]; intros Hdef pairs rows Hpairs.
  - exists (Ok tt), pairs. split; [done|]. simpl. by rewrite app_nil_r.
  - apply Forall_cons in Hdef as [Hd Hdef]. destruct (match_outer_row_ok rr pairs Hrr Hd) as (r & pairs1 & Hm & Hr).
    cbn [each_until map]. rewrite Hm. simpl mapM. destruct r as [[]|m], (keep_rows p _) as [rows1|]; try done.
    + destruct Hr as (flags & -> & ->).
      destruct (IH Hdef (pairs ++ map (mkNljPair rr.1 rr.2) (select flags (zrange 0 (ck_row_count c))))
        (rows ++ select flags (map (app (ref_row rss rr).1) (chunk_rows c)))) as (r & pairs' & -> & Hr').
      { apply Forall2_app; [done|]. by apply nlj_shows_select. }
      exists r, pairs'. split; [done|]. destruct r as [[]|m], (mapM _ _) as [rss'|]; try done.
      simpl. by rewrite app_assoc.
    + by exists (Err m), pairs1.
Qed.

Lemma match_inner_chunk_ok old : zlen bs < 2 ^ 32 -> Forall pair_defined (row_refs bs) ->
  exists r pairs, match_inner_chunk p (length sgo) (length sgi) bs c old = Some (r, pairs) /\
    match r, nlj_chunk_ref p (map fst (concat rss)) (chunk_rows c) with
    | Ok _, Some rows => Forall2 shows pairs rows
    | Err m, None => m = "division by zero"
    | _, _ => False
    end.
Proof using Hbs Hsgo Hc Hcsel Hp Hpt.
  intros Hlen Hdef. unfold match_inner_chunk. rewrite wrap_id by (unfold in_u, zlen in *; lia).
  pose proof (nested_until bs (fun b ci r pairs => match_outer_row p (length sgo) (length sgi) b.1 c ci r pairs)
    bs [] [] eq_refl) as Hn. change (zlen []) with 0 in Hn. rewrite Hn.
  destruct (row_refs_ok sgo [] bs rss Hbs) as [Hmap Hin].
  destruct (match_refs_ok (row_refs bs) Hin Hdef [] [] ltac:(constructor)) as (r & pairs & Hr & Hres).
  exists r, pairs. split; [exact Hr|]. unfold nlj_chunk_ref. rewrite <- Hmap, map_map.
  destruct r as [[]|m]; by destruct (mapM _ _).
Qed.
End match_inner.

(** ** The joined stream *)

(** Without keys every row is kept as it is. *)
Lemma keyed_rows_nil `{Fpu} cs fin :
  match fin with
  | Some m => keyed_rows [] cs fin = Err m
  | None => exists rss, keyed_rows [] cs fin = Ok rss /\ map fst (concat rss) = rows_of cs
  end.
Proof.
  assert (Hm : forall rows, mapM (keyed []) rows = Some (map (fun r => (r, [])) rows)).
  { intros rows. induction rows as [|r rows IH]; [done|]. simpl. by rewrite IH. }
  induction cs as [|c cs IH]; cbn [keyed_rows].
  - destruct fin; [done|]. by exists [].
  - rewrite Hm. destruct fin as [m|]; [by rewrite IH|]. destruct IH as (rss & -> & Hr).
    eexists. split; [done|]. simpl. fold (rows_of cs). rewrite <- Hr. destruct (chunk_rows c) as [|r rows]; [done|].
    simpl. rewrite map_app, map_map. simpl. by rewrite map_id.
Qed.

Section nlj_stream.
Context {O I : Type} `{Operator O} `{Operator I} `{Fpu}.
Context (sgo sgi : signature) (p : Expression) (fuel : nat).
Hypothesis Hp : well_typed (sgo ++ sgi) p.
Hypothesis Hschema : Forall (fun s => emittable s.1 = true) (sgo ++ sgi).

Lemma nlj_lift (outer : O) chunks (loop : JoinLoop I NljPair) cs fin :
  @runs _ (Loop_Operator (match_inner_chunk p (length sgo) (length sgi) chunks) (nlj_src (length sgo) chunks)
    (sgo ++ sgi)) fuel loop cs fin ->
  runs fuel (mkNlj outer p (sgo ++ sgi) (length sgo) (length sgi) true true chunks loop) cs fin.
Proof using.
  induction 1 as [s s' Hn|s s' m Hn|s s' c cs fin Hn _ IH].
  - eapply runs_end. simpl in Hn |- *. unfold nlj_next. simpl. by rewrite Hn.
  - eapply runs_err. simpl in Hn |- *. unfold nlj_next. simpl. by rewrite Hn.
  - eapply runs_chunk; [|exact IH]. simpl in Hn |- *. unfold nlj_next. simpl. by rewrite Hn.
Qed.

(** The predicate has a value on every pair of rows. *)
Definition inner_good (outer : list row) (c : Chunk) : Prop :=
  Forall (fun o => Forall (fun i => eval_row p (o ++ i) <> None) (chunk_rows c)) outer.

Definition nlj_ref (outer : list row) (cs : list Chunk) (fin : option string) : list row * option string :=
  loop_ref (nlj_chunk_ref p outer) cs fin.

End nlj_stream.

