(* ===== verification/HashAggregate.v ===== *)
(** * Aggregation

    [HashAggregate] (src/src/executor/hash_aggregate.h, hash_aggregate.cpp): pulls its child to
    the end, finds or creates the group of each row in a hash table with linear probing that
    doubles when it is half full, and folds the arguments into columns with one state per
    group.  An AVG is a SUM and a COUNT that are divided when the groups are emitted.  Two keys
    are the same group when they are equal byte by byte, NULL being equal to NULL. *)

From Stdlib Require Import SpecFloat.
From S2P Require Import Prelude Types XXHash SelectionVector ColumnVector Chunk Expression Operator Buffered Probing HashJoin.

Inductive AggregateKind : Type := COUNT_STAR | COUNT | SUM | AVG | MIN | MAX.

Record AggregateSpec : Type := mkSpec {
  sp_kind : AggregateKind;
  sp_arg : option Expression
}.

Inductive InternalAggKind : Type := I_COUNT_STAR | I_COUNT | I_SUM | I_MIN | I_MAX.

Record InternalAgg : Type := mkIA {
  ia_kind : InternalAggKind;
  ia_arg : option Expression;
  ia_input_type : TypeId;
  ia_state_type : TypeId
}.

Inductive OutputBinding : Type :=
| DIRECT (output_type : TypeId) (state_idx : nat)
| AVG_DIVIDE (sum_idx count_idx : nat).

Record GroupEntry : Type := mkGroupEntry { ge_hash : Z; ge_group : Z }.

Definition NO_GROUP : Z := UINT32_MAX.
Definition INITIAL_TABLE_SIZE : Z := 16.

Definition is_numeric (t : TypeId) : bool := match t with INT32 | INT64 | DOUBLE => true | _ => false end.

(** ** The constructor *)

(** The internal aggregates with the nullability of their state columns, the bindings and the
    output columns. *)
Record AggPlan : Type := mkPlan {
  pl_aggs : list (InternalAgg * bool);
  pl_bindings : list OutputBinding;
  pl_schema : signature
}.

Definition sum_state (t : TypeId) : TypeId := match t with INT32 => INT64 | t => t end.

Definition add_direct (p : AggPlan) (ia : InternalAgg) (nullable : bool) : AggPlan :=
  mkPlan (pl_aggs p ++ [(ia, nullable)])
    (pl_bindings p ++ [DIRECT (ia_state_type ia) (length (pl_aggs p))])
    (pl_schema p ++ [(ia_state_type ia, nullable)]).

Definition add_aggregate (spec : AggregateSpec) (p : AggPlan) : option AggPlan :=
  match sp_kind spec with
  | COUNT_STAR => Some (add_direct p (mkIA I_COUNT_STAR None INT64 INT64) false)
  | COUNT =>
      let! arg := sp_arg spec in
      Some (add_direct p (mkIA I_COUNT (Some arg) (output_type arg) INT64) false)
  | SUM =>
      let! arg := sp_arg spec in
      let t := output_type arg in
      assert (is_numeric t) in
      Some (add_direct p (mkIA I_SUM (Some arg) t (sum_state t)) true)
  | MIN =>
      let! arg := sp_arg spec in
      let t := output_type arg in
      assert (is_numeric t) in
      Some (add_direct p (mkIA I_MIN (Some arg) t t) true)
  | MAX =>
      let! arg := sp_arg spec in
      let t := output_type arg in
      assert (is_numeric t) in
      Some (add_direct p (mkIA I_MAX (Some arg) t t) true)
  | AVG =>
      let! arg := sp_arg spec in
      let t := output_type arg in
      assert (is_numeric t) in
      let n := length (pl_aggs p) in
      Some (mkPlan
        (pl_aggs p ++ [(mkIA I_SUM (Some arg) t (sum_state t), true); (mkIA I_COUNT (Some arg) t INT64, false)])
        (pl_bindings p ++ [AVG_DIVIDE n (S n)]) (pl_schema p ++ [(DOUBLE, true)]))
  end.

(** The groups: keys, states and the table. *)
Record Groups : Type := mkGroups {
  gr_keys : list ColumnVector;
  gr_states : list ColumnVector;
  gr_table : list GroupEntry;
  gr_mask : Z;
  gr_num : Z
}.

Record HashAggregate (S : Type) : Type := mkHashAggregate {
  ha_child : S;
  ha_group_keys : list Expression;
  ha_aggs : list InternalAgg;
  ha_bindings : list OutputBinding;
  ha_schema : signature;
  ha_groups : Groups;
  ha_opened : bool;
  ha_aggregated : bool;
  ha_emit_cursor : Z
}.
Arguments mkHashAggregate {S}.
Arguments ha_child {S}.
Arguments ha_group_keys {S}.
Arguments ha_aggs {S}.
Arguments ha_bindings {S}.
Arguments ha_schema {S}.
Arguments ha_groups {S}.
Arguments ha_opened {S}.
Arguments ha_aggregated {S}.
Arguments ha_emit_cursor {S}.

Definition append_initial_state_ (states : list ColumnVector) : option (list ColumnVector) :=
  mapM (fun col => if cv_nullable col then cv_append_null col else cv_append_i64 col 0) states.

Definition groups_new (keys : list Expression) (aggs : list (InternalAgg * bool)) : option Groups :=
  let states := map (fun a => cv_empty (ia_state_type a.1) a.2) aggs in
  match keys with
  | [] => let! states := append_initial_state_ states in Some (mkGroups [] states [] 0 1)
  | _ =>
      Some (mkGroups (map (fun e => cv_empty (output_type e) true) keys) states
        (replicate (Z.to_nat INITIAL_TABLE_SIZE) (mkGroupEntry 0 NO_GROUP)) (INITIAL_TABLE_SIZE - 1) 0)
  end.

(** ** Groups *)

Definition hash_group_row (key_cols : list ColumnVector) (row : Z) : option Z :=
  let! h := each key_cols (fun col h =>
    let! null := cv_is_null col row in
    let h := xxhash64_seed [if null : bool then 0 else 1] h in
    if null : bool then Some h
    else if is_varchar (cv_type col)
    then let! s := cv_get_str col row in Some (xxhash64_seed (bytes_of_string s) h)
    else let! b := key_slot col row in Some (xxhash64_seed b h)) 0 in
  Some (wrap 32 h).

Fixpoint group_keys_equal (lc : list ColumnVector) (li : Z) (rc : list ColumnVector) (ri : Z) : option bool :=
  match lc, rc with
  | [], [] => Some true
  | l :: lc', r :: rc' =>
      assert (bool_decide (cv_type l = cv_type r)) in
      let! ln := cv_is_null l li in
      let! rn := cv_is_null r ri in
      if negb (Bool.eqb ln rn) then Some false
      else if ln : bool then group_keys_equal lc' li rc' ri
      else
        let! eq :=
          if is_varchar (cv_type l)
          then let! a := cv_get_str l li in let! b := cv_get_str r ri in Some (bool_decide (a = b))
          else let! a := key_slot l li in let! b := key_slot r ri in Some (bool_decide (a = b)) in
        if eq : bool then group_keys_equal lc' li rc' ri else Some false
  | _, _ => None
  end.

Definition group_taken (e : GroupEntry) : bool := negb (ge_group e =? NO_GROUP).

Definition resize_table_ (g : Groups) : option Groups :=
  let new_size := zlen (gr_table g) * 2 in
  let new_mask := wrap 32 (new_size - 1) in
  let! new_table :=
    each (zrange 0 (gr_num g)) (fun i table =>
      let! h := hash_group_row (gr_keys g) i in
      probe_insert group_taken ge_hash new_mask (mkGroupEntry h i) table)
      (replicate (Z.to_nat new_size) (mkGroupEntry 0 NO_GROUP)) in
  Some (mkGroups (gr_keys g) (gr_states g) new_table new_mask (gr_num g)).

Definition append_key (dst src : ColumnVector) (row : Z) : option ColumnVector :=
  let! null := cv_is_null src row in
  if null : bool then cv_append_null dst else append_from (cv_type src) dst src row.

Fixpoint append_keys (dsts srcs : list ColumnVector) (row : Z) : option (list ColumnVector) :=
  match dsts, srcs with
  | [], _ => Some []
  | dst :: dsts', src :: srcs' =>
      let! d := append_key dst src row in
      let! ds := append_keys dsts' srcs' row in
      Some (d :: ds)
  | _ :: _, [] => None
  end.

Definition find_or_create_group_ (g : Groups) (key_cols : list ColumnVector) (row : Z) : option (Z * Groups) :=
  let! h := hash_group_row key_cols row in
  let! (found, slot) :=
    probe_scan group_taken (length (gr_table g)) (gr_table g) (gr_mask g) (Z.land h (gr_mask g))
      (fun e found =>
        if ge_hash e =? h then
          let! eq := group_keys_equal (gr_keys g) (ge_group e) key_cols row in
          if eq : bool then Some (Some (ge_group e), true) else Some (found, false)
        else Some (found, false)) None in
  match found with
  | Some i => Some (i, g)
  | None =>
      let new_idx := gr_num g in
      let! keys := append_keys (gr_keys g) key_cols row in
      let! states := append_initial_state_ (gr_states g) in
      let table := <[Z.to_nat slot := mkGroupEntry h new_idx]> (gr_table g) in
      let g := mkGroups keys states table (gr_mask g) (wrap 32 (new_idx + 1)) in
      let! g := if gr_num g * 2 >? zlen table then resize_table_ g else Some g in
      Some (new_idx, g)
  end.

(** ** States *)

Section states.
Context `{Fpu}.

Definition update_minmax (better : TypeId -> Z -> Z -> bool) (t : TypeId) (state : ColumnVector) (g : Z)
    (arg : ColumnVector) (row : Z) : option ColumnVector :=
  let go (get : ColumnVector -> Z -> option Z) (set : ColumnVector -> Z -> Z -> option ColumnVector) :=
    let! v := get arg row in
    let! null := cv_is_null state g in
    let! take := if null : bool then Some true else let! cur := get state g in Some (better t v cur) in
    if take : bool then set state g v else Some state in
  match t with
  | INT32 => go cv_get_i32 set_i32
  | INT64 => go cv_get_i64 set_i64
  | DOUBLE => go cv_get_f64 set_f64
  | _ => None
  end.

Definition less_of (t : TypeId) (a b : Z) : bool := match t with DOUBLE => f64_lt a b | _ => a <? b end.
Definition greater_of (t : TypeId) (a b : Z) : bool := less_of t b a.

Definition update_sum (ia : InternalAgg) (state : ColumnVector) (g : Z) (arg : ColumnVector) (row : Z) :
    option ColumnVector :=
  match ia_state_type ia with
  | INT64 =>
      let! add := match ia_input_type ia with INT32 => cv_get_i32 arg row | _ => cv_get_i64 arg row end in
      let! null := cv_is_null state g in
      let! cur := if null : bool then Some 0 else cv_get_i64 state g in
      let! v := checked 64 (cur + add) in
      set_i64 state g v
  | DOUBLE =>
      let! add := cv_get_f64 arg row in
      let! null := cv_is_null state g in
      let! cur := if null : bool then Some 0 else cv_get_f64 state g in
      set_f64 state g (f64_op (SFadd 53 1024) cur add)
  | _ => None
  end.

Definition increment (state : ColumnVector) (g : Z) : option ColumnVector :=
  let! c := cv_get_i64 state g in
  let! v := checked 64 (c + 1) in
  set_i64 state g v.

Definition update_state_ (ia : InternalAgg) (state : ColumnVector) (g : Z) (arg_col : option ColumnVector) (row : Z) :
    option ColumnVector :=
  match ia_kind ia with
  | I_COUNT_STAR => increment state g
  | kind =>
      let! arg := arg_col in
      let! null := cv_is_null arg row in
      if null : bool then Some state
      else
        match kind with
        | I_SUM => update_sum ia state g arg row
        | I_MIN => update_minmax less_of (ia_state_type ia) state g arg row
        | I_MAX => update_minmax greater_of (ia_state_type ia) state g arg row
        | _ => increment state g
        end
  end.

(** [for a: update_state_(a, group_idx, arg_cols[a], r)] *)
Fixpoint update_states (aggs : list InternalAgg) (states : list ColumnVector) (args : list (option ColumnVector))
    (g row : Z) : option (list ColumnVector) :=
  match aggs, states, args with
  | [], [], [] => Some []
  | ia :: aggs', st :: states', arg :: args' =>
      let! st := update_state_ ia st g arg row in
      let! sts := update_states aggs' states' args' g row in
      Some (st :: sts)
  | _, _, _ => None
  end.

Fixpoint evaluate_args (aggs : list InternalAgg) (chunk : Chunk) : option (result (list (option ColumnVector))) :=
  match aggs with
  | [] => Some (Ok [])
  | ia :: aggs' =>
      match ia_arg ia with
      | None =>
          let! r := evaluate_args aggs' chunk in
          match r with Err m => Some (Err m) | Ok cols => Some (Ok (None :: cols)) end
      | Some e =>
          let! ev := evaluate e chunk in
          match ev with
          | Err m => Some (Err m)
          | Ok col =>
              let! r := evaluate_args aggs' chunk in
              match r with Err m => Some (Err m) | Ok cols => Some (Ok (Some col :: cols)) end
          end
      end
  end.

Definition aggregate_row (keys : list Expression) (aggs : list InternalAgg) (key_cols : list ColumnVector)
    (args : list (option ColumnVector)) (r : Z) (g : Groups) : option Groups :=
  let! (i, g) := match keys with [] => Some (0, g) | _ => find_or_create_group_ g key_cols r end in
  let! states := update_states aggs (gr_states g) args i r in
  Some (mkGroups (gr_keys g) states (gr_table g) (gr_mask g) (gr_num g)).

(** A chunk with rows, after [materialize]. *)
Definition aggregate_chunk (keys : list Expression) (aggs : list InternalAgg) (chunk : Chunk) (g : Groups) :
    option (result Groups) :=
  let! kr := evaluate_all keys chunk in
  match kr with
  | Err m => Some (Err m)
  | Ok key_cols =>
      let! ar := evaluate_args aggs chunk in
      match ar with
      | Err m => Some (Err m)
      | Ok args =>
          let! g := each (zrange 0 (wrap 32 (ck_row_count chunk))) (aggregate_row keys aggs key_cols args) g in
          Some (Ok g)
      end
  end.

(** ** Emission *)

(** [static_cast<f64>] of an i64 *)
Definition f64_of_int (z : Z) : Z := bits_of_sf 0 (binary_normalize 53 1024 z 0 false).

Definition emit_avg (sum_col count_col : ColumnVector) (gs : list Z) : option ColumnVector :=
  each gs (fun g out =>
    let! count := cv_get_i64 count_col g in
    if count =? 0 then cv_append_null out
    else
      let! sum_d :=
        if bool_decide (cv_type sum_col = DOUBLE) then cv_get_f64 sum_col g
        else let! s := cv_get_i64 sum_col g in Some (f64_of_int s) in
      cv_append_f64 out (f64_op (SFdiv 53 1024) sum_d (f64_of_int count))) (cv_empty DOUBLE true).

Definition emit_binding (states : list ColumnVector) (gs : list Z) (b : OutputBinding) (nullable : bool) :
    option ColumnVector :=
  match b with
  | AVG_DIVIDE s c =>
      let! sum_col := states !! s in
      let! count_col := states !! c in
      emit_avg sum_col count_col gs
  | DIRECT t i =>
      let! src := states !! i in
      assert (is_numeric t) in
      emit_column t nullable (map (fun g => Some (src, g)) gs)
  end.

Fixpoint emit_bindings (states : list ColumnVector) (gs : list Z) (bs : list OutputBinding) (schema : signature) :
    option (list ColumnVector) :=
  match bs, schema with
  | [], _ => Some []
  | b :: bs', (_, nullable) :: schema' =>
      let! col := emit_binding states gs b nullable in
      let! cols := emit_bindings states gs bs' schema' in
      Some (col :: cols)
  | _ :: _, [] => None
  end.

Definition emit_groups (g : Groups) (bindings : list OutputBinding) (schema : signature) (cursor n : Z) : option Chunk :=
  let gs := zrange cursor n in
  let! keys := mapM (fun gk => emit_column (cv_type gk) true (map (fun i => Some (gk, i)) gs)) (gr_keys g) in
  let! aggs := emit_bindings (gr_states g) gs bindings (drop (length (gr_keys g)) schema) in
  chunk_new n (keys ++ aggs).
End states.

(** ** The operator *)

Section hash_aggregate.
Context {S : Type} `{Operator S} `{Fpu}.

Definition hash_aggregate_new (child : S) (keys : list Expression) (specs : list AggregateSpec) :
    option (HashAggregate S) :=
  match specs with
  | [] => None
  | _ =>
      assert (forallb (fun e => is_numeric (output_type e)) keys) in
      let! p := each specs add_aggregate (mkPlan [] [] []) in
      let! g := groups_new keys (pl_aggs p) in
      Some (mkHashAggregate child keys (map fst (pl_aggs p)) (pl_bindings p)
        (map (fun e => (output_type e, true)) keys ++ pl_schema p) g false false 0)
  end.

Definition ha_with (a : HashAggregate S) child groups opened aggregated cursor : HashAggregate S :=
  mkHashAggregate child (ha_group_keys a) (ha_aggs a) (ha_bindings a) (ha_schema a) groups opened aggregated cursor.

Definition hash_aggregate_open (a : HashAggregate S) : option (result unit * HashAggregate S) :=
  let! (r, child) := op_open (ha_child a) in
  let set b := ha_with a child (ha_groups a) b (ha_aggregated a) (ha_emit_cursor a) in
  match r with
  | Err m => Some (Err m, set (ha_opened a))
  | Ok _ => Some (Ok tt, set true)
  end.

Definition hash_aggregate_close (a : HashAggregate S) : HashAggregate S :=
  ha_with a (op_close (ha_child a)) (ha_groups a) (ha_opened a) (ha_aggregated a) (ha_emit_cursor a).

(** The loop of [aggregate_all_]; the groups of the chunks before an error stay. *)
Fixpoint aggregate_loop (fuel n : nat) (keys : list Expression) (aggs : list InternalAgg) (child : S) (g : Groups) :
    option (result unit * Groups * S) :=
  match n with
  | O => None
  | Datatypes.S n' =>
      let! (r, child) := op_next fuel child in
      match r with
      | Err m => Some (Err m, g, child)
      | Ok None => Some (Ok tt, g, child)
      | Ok (Some chunk) =>
          if logical_size chunk =? 0 then aggregate_loop fuel n' keys aggs child g
          else
            let! chunk := materialize chunk in
            let! r := aggregate_chunk keys aggs chunk g in
            match r with
            | Err m => Some (Err m, g, child)
            | Ok g => aggregate_loop fuel n' keys aggs child g
            end
      end
  end.

Definition aggregate_all_ (fuel : nat) (a : HashAggregate S) : option (result unit * HashAggregate S) :=
  let! (r, g, child) := aggregate_loop fuel fuel (ha_group_keys a) (ha_aggs a) (ha_child a) (ha_groups a) in
  match r with
  | Err m => Some (Err m, ha_with a child g (ha_opened a) (ha_aggregated a) (ha_emit_cursor a))
  | Ok _ => Some (Ok tt, ha_with a (op_close child) g (ha_opened a) true (ha_emit_cursor a))
  end.

Definition hash_aggregate_next (fuel : nat) (a : HashAggregate S) : option (result (option Chunk) * HashAggregate S) :=
  assert (ha_opened a) in
  let! (r, a) := if ha_aggregated a then Some (Ok tt, a) else aggregate_all_ fuel a in
  match r with
  | Err m => Some (Err m, a)
  | Ok _ =>
      if gr_num (ha_groups a) <=? ha_emit_cursor a then Some (Ok None, a)
      else
        let n := Z.min CHUNK_SIZE (gr_num (ha_groups a) - ha_emit_cursor a) in
        let! out := emit_groups (ha_groups a) (ha_bindings a) (ha_schema a) (ha_emit_cursor a) n in
        Some (Ok (Some out),
          ha_with a (ha_child a) (ha_groups a) (ha_opened a) (ha_aggregated a) (ha_emit_cursor a + n))
  end.

#[export] Instance HashAggregate_Operator : Operator (HashAggregate S) :=
  {| op_open := hash_aggregate_open; op_next := hash_aggregate_next; op_close := hash_aggregate_close |}.
End hash_aggregate.
