(* ===== verification/Aggregation.v ===== *)
(** * Aggregation: what it computes

    The aggregates of a list of values, the groups of a list of rows in the order of their
    first row, and that [HashAggregate] yields one row per group with the aggregates of the
    group's rows, whatever the chunk boundaries and the collisions of hashes. *)

From Stdlib Require Import SpecFloat.
From S2P Require Import Prelude Types XXHash SelectionVector ColumnVector Chunk Expression Operator Buffered Probing HashJoin HashAggregate.

(** ** Columns as lists of values *)

Record column (s : TypeId * bool) (cv : ColumnVector) (vals : list Value) : Prop := {
  cl_wf : cv_wf cv;
  cl_clean : cv_clean cv;
  cl_type : cv_type cv = s.1;
  cl_nullable : cv_nullable cv = s.2;
  cl_values : cv_values cv = vals
}.

Section column.
Context (s : TypeId * bool) (cv : ColumnVector) (vals : list Value).
Hypothesis Hcv : column s cv vals.

Lemma column_size : cv_size cv = zlen vals.
Proof using Hcv.
  destruct Hcv as [Hwf _ _ _ <-]. pose proof (cw_size _ Hwf). unfold zlen. rewrite length_cv_values. lia.
Qed.

Lemma column_cell i v : vals !! i = Some v -> cell cv (Z.of_nat i) = v.
Proof using Hcv.
  intros Hi. pose proof column_size as Hs. pose proof (lookup_lt_Some _ _ _ Hi). unfold zlen in Hs.
  rewrite <- (cl_values _ _ _ Hcv), lookup_cv_values in Hi by lia. by injection Hi.
Qed.

Lemma column_bound i v : vals !! i = Some v -> 0 <= Z.of_nat i < cv_size cv.
Proof using Hcv. intros Hi%lookup_lt_Some. rewrite column_size. unfold zlen. lia. Qed.

Lemma column_null i v : vals !! i = Some v -> cv_is_null cv (Z.of_nat i) = Some (is_null v).
Proof using Hcv.
  intros Hi. rewrite cv_is_null_ok by (apply Hcv || by eapply column_bound).
  rewrite <- (column_cell i v Hi), (is_null_cell (cv_size cv) s); [done|].
  split_and!; [apply Hcv..|done].
Qed.

Lemma column_append v : vec_value s.1 v -> (v = VNull -> s.2 = true) ->
  exists cv', cv_append_value cv v = Some cv' /\ column s cv' (vals ++ [v]).
Proof using Hcv.
  destruct Hcv as [Hwf Hc Ht Hn Hv]. rewrite <- Ht, <- Hn. intros Hvv Hnull.
  destruct (cv_append_value_ok cv v Hwf Hc Hvv Hnull) as (cv' & -> & [A1 A2 [A3 A3'] A4 A5]).
  exists cv'. split; [done|]. split; try done; congruence.
Qed.

Lemma clear_null_clean i cv1 cv2 : cv_wf cv1 -> cv_clean cv1 -> 0 <= i < cv_size cv1 ->
  clear_null cv1 i = Some cv2 -> cv_clean cv2.
Proof using.
  intros Hwf Hc Hi. unfold clear_null. destruct (cv_nullable cv1) eqn:En; [|by intros [= <-]].
  destruct (bm_unmark_ok cv1 i Hwf En Hi) as (-> & _ & Hb). intros [= <-] _ j Hj. simpl in *.
  rewrite Hb, (Hc En j Hj) by lia. apply andb_false_r.
Qed.

(** A number is written over slot [i]. *)
Lemma column_set i v v' : vals !! i = Some v' -> vec_value s.1 v -> is_numeric s.1 = true -> v <> VNull ->
  exists cv', set_value cv (Z.of_nat i) v = Some cv' /\ column s cv' (<[i := v]> vals).
Proof using Hcv.
  intros Hi Hv Hnum Hnn. pose proof (column_bound i v' Hi) as Hb. pose proof column_size as Hsize. destruct Hcv as [Hwf Hc Ht Hn Hvs].
  rewrite <- Ht in Hv, Hnum.
  destruct (set_value_ok cv (Z.of_nat i) v Hwf Hb Hv) as (cv' & Hset & [W1 [W2 W2'] W3 W4 W5]); [done|].
  exists cv'. split; [done|]. split; [done| |congruence|congruence|].
  - destruct Hv as [|[Hvt Hvw]]; [done|].
    assert (Hss : set_slot (cv_type cv) cv (Z.of_nat i) (slot_bytes_of v) = Some cv').
    { rewrite <- Hvt in Hnum |- *. by destruct v. }
    unfold set_slot in Hss. rewrite bool_decide_true in Hss by done.
    rewrite (proj2 (Z.ltb_lt _ _)) in Hss by lia.
    destruct (slot_bytes_of_ok v Hvw) as (Hl & Hby & _); [rewrite Hvt; by destruct (cv_type cv)|done|].
    rewrite Hvt in Hl, Hby.
    destruct (store_slot cv (Z.of_nat i) (slot_bytes_of v)) as (d & Hd & Hwf' & _); [done|by destruct (cv_type cv)|done..|].
    rewrite Hd in Hss. eapply clear_null_clean; [exact Hwf'|exact Hc|exact Hb|exact Hss].
  - apply cv_values_eq; [rewrite W3, Hsize; unfold zlen; by rewrite length_insert|].
    intros k w Hk. apply list_lookup_insert_Some in Hk as [(<- & -> & _)|[Hne Hk]]; [done|].
    rewrite W5; [by apply column_cell| |lia]. by eapply column_bound.
Qed.
End column.

(** ** The aggregates of a list of values *)

Section aggregates.
Context `{Fpu}.

(** The number of a value. *)
Definition num (v : Value) : Z := match v with VI32 x | VI64 x | VF64 x => x | _ => 0 end.

Definition zsum (l : list Z) : Z := fold_left Z.add l 0.

Definition nonnull (vs : list Value) : list Value := List.filter (fun v => negb (is_null v)) vs.

(** The extreme value, the first one among equals. *)
Definition extreme (better : Z -> Z -> bool) (vs : list Value) : Value :=
  match vs with
  | [] => VNull
  | v :: vs' => fold_left (fun m v => if better (num v) (num m) then v else m) vs' v
  end.

Definition agg_value (ia : InternalAgg) (vs : list Value) : Value :=
  match ia_kind ia with
  | I_COUNT_STAR => VI64 (zlen vs)
  | I_COUNT => VI64 (zlen (nonnull vs))
  | I_SUM =>
      match nonnull vs, ia_state_type ia with
      | [], _ => VNull
      | l, DOUBLE => VF64 (fold_left (f64_op (SFadd 53 1024)) (map num l) 0)
      | l, _ => VI64 (zsum (map num l))
      end
  | I_MIN => extreme (less_of (ia_state_type ia)) (nonnull vs)
  | I_MAX => extreme (greater_of (ia_state_type ia)) (nonnull vs)
  end.

(** No count and no partial sum leaves 64 bits. *)
Definition agg_fits (ia : InternalAgg) (vs : list Value) : Prop :=
  zlen vs < 2 ^ 63 /\
  (ia_kind ia = I_SUM -> ia_state_type ia = INT64 ->
   forall n, in_s 64 (zsum (map num (take n (nonnull vs))))).

Definition ia_nullable (ia : InternalAgg) : bool :=
  match ia_kind ia with I_COUNT_STAR | I_COUNT => false | _ => true end.

(** The internal aggregates that the constructor makes. *)
Definition ia_wf (ia : InternalAgg) : Prop :=
  match ia_kind ia with
  | I_COUNT_STAR => ia_arg ia = None /\ ia_state_type ia = INT64
  | I_COUNT => (exists e, ia_arg ia = Some e /\ output_type e = ia_input_type ia) /\ ia_state_type ia = INT64
  | I_SUM =>
      (exists e, ia_arg ia = Some e /\ output_type e = ia_input_type ia) /\ is_numeric (ia_input_type ia) = true /\
      ia_state_type ia = sum_state (ia_input_type ia)
  | _ =>
      (exists e, ia_arg ia = Some e /\ output_type e = ia_input_type ia) /\ is_numeric (ia_input_type ia) = true /\
      ia_state_type ia = ia_input_type ia
  end.

Lemma zsum_snoc l x : zsum (l ++ [x]) = zsum l + x.
Proof using. unfold zsum. by rewrite fold_left_app. Qed.

Lemma nonnull_snoc vs v : nonnull (vs ++ [v]) = nonnull vs ++ (if is_null v then [] else [v]).
Proof using. unfold nonnull. rewrite List.filter_app. simpl. by destruct (is_null v). Qed.

Lemma extreme_snoc better vs v : vs <> [] ->
  extreme better (vs ++ [v]) = if better (num v) (num (extreme better vs)) then v else extreme better vs.
Proof using. destruct vs as [|w vs]; [done|]. intros _. simpl. by rewrite fold_left_app. Qed.

Lemma extreme_in better vs : vs <> [] -> extreme better vs ∈ vs.
Proof using.
  induction vs as [|v vs IH] using rev_ind; [done|]. intros _. destruct (decide (vs = [])) as [->|Hne]; [by left|].
  rewrite extreme_snoc by done. destruct (better _ _); set_solver.
Qed.

(** One more value. *)
Definition agg_step (ia : InternalAgg) (st v : Value) : option Value :=
  let count := let! c := checked 64 (num st + 1) in Some (VI64 c) in
  match ia_kind ia with
  | I_COUNT_STAR => count
  | kind =>
      if is_null v then Some st
      else
        match kind with
        | I_SUM =>
            match ia_state_type ia with
            | INT64 => let! c := checked 64 (num st + num v) in Some (VI64 c)
            | _ => Some (VF64 (f64_op (SFadd 53 1024) (num st) (num v)))
            end
        | I_MIN => Some (if is_null st || less_of (ia_state_type ia) (num v) (num st) then v else st)
        | I_MAX => Some (if is_null st || greater_of (ia_state_type ia) (num v) (num st) then v else st)
        | _ => count
        end
  end.

Lemma checked_in w z : in_s w z -> checked w z = Some z.
Proof using. unfold in_s, checked. intros Hz. by rewrite (proj2 (Z.leb_le _ _)), (proj2 (Z.ltb_lt _ _)) by lia. Qed.

Lemma agg_step_extreme better vs v : is_null v = false -> Forall (fun v => is_null v = false) vs ->
  (if is_null (extreme better vs) || better (num v) (num (extreme better vs)) then v else extreme better vs) =
  extreme better (vs ++ [v]).
Proof using.
  intros Hv Hvs. destruct (decide (vs = [])) as [->|Hne]; [done|]. rewrite extreme_snoc by done.
  rewrite Forall_forall in Hvs. by rewrite (Hvs _ (extreme_in better vs Hne)).
Qed.

Lemma agg_step_ok ia vs v : ia_wf ia -> agg_fits ia (vs ++ [v]) ->
  agg_step ia (agg_value ia vs) v = Some (agg_value ia (vs ++ [v])).
Proof using.
  intros Hwf [Hlen Hfit].
  assert (Hnn : Forall (fun v => is_null v = false) (nonnull vs)).
  { apply Forall_forall. intros x Hx. apply list_elem_of_In, List.filter_In in Hx as [_ Hx]. by apply negb_true_iff. }
  assert (Hl : zlen vs + 1 < 2 ^ 63) by (unfold zlen in *; rewrite length_app in Hlen; simpl in Hlen; lia).
  assert (Hle : zlen (nonnull vs) <= zlen vs) by (unfold zlen; pose proof (length_filter (fun v => negb (is_null v)) vs); unfold nonnull; lia).
  assert (Hc : forall n, 0 <= n -> n <= zlen vs -> checked 64 (n + 1) = Some (n + 1)).
  { intros n H0 Hn. apply checked_in. unfold in_s. change (64 - 1) with 63. lia. }
  pose proof (zlen_nonneg vs). pose proof (zlen_nonneg (nonnull vs)).
  unfold agg_step, agg_value, ia_wf in *. rewrite nonnull_snoc. destruct (ia_kind ia) eqn:Hkind.
  - simpl num. rewrite Hc by lia. f_equal. f_equal. rewrite zlen_app. done.
  - destruct (is_null v) eqn:Hv; [by rewrite app_nil_r|]. simpl num. rewrite Hc by lia. by rewrite zlen_app.
  - destruct (is_null v) eqn:Hv; [by rewrite app_nil_r|]. destruct Hwf as (_ & Hnum & Hst).
    destruct (ia_state_type ia) eqn:Hs; try (by destruct (ia_input_type ia)).
    + specialize (Hfit eq_refl eq_refl (length (nonnull (vs ++ [v])))). rewrite firstn_all, nonnull_snoc, Hv, map_app in Hfit.
      cbn [map] in Hfit. rewrite zsum_snoc in Hfit.
      destruct (nonnull vs) as [|w l] eqn:Hl'.
      * simpl in *. by rewrite checked_in.
      * simpl num in *. rewrite checked_in by exact Hfit. cbn [app]. do 2 f_equal.
        change (w :: l ++ [v]) with ((w :: l) ++ [v]). by rewrite map_app, <- zsum_snoc.
    + destruct (nonnull vs) as [|w l] eqn:Hl'; [done|]. cbn [app]. do 2 f_equal.
      change (w :: l ++ [v]) with ((w :: l) ++ [v]). by rewrite map_app, fold_left_app.
  - destruct (is_null v) eqn:Hv; [by rewrite app_nil_r|]. f_equal. by apply agg_step_extreme.
  - destruct (is_null v) eqn:Hv; [by rewrite app_nil_r|]. f_equal. by apply agg_step_extreme.
Qed.

(** ** A state column is updated *)

Definition get_num (t : TypeId) : ColumnVector -> Z -> option Z :=
  match t with INT32 => cv_get_i32 | INT64 => cv_get_i64 | _ => cv_get_f64 end.

Lemma get_num_ok t col r v : is_numeric t = true -> cv_wf col -> cv_type col = t -> 0 <= r < cv_size col ->
  cell col r = v -> is_null v = false -> get_num t col r = Some (num v).
Proof using.
  intros Ht Hwf Hct Hr Hc Hn. pose proof (cell_typed col r Hwf Hr) as [Hv|[Hv _]]; rewrite Hc in Hv; [by rewrite Hv in Hn|].
  rewrite Hct in Hv. destruct t; try discriminate; destruct v; try discriminate; simpl.
  - by apply cv_get_i32_ok.
  - by apply cv_get_i64_ok.
  - by apply cv_get_f64_ok.
Qed.

(** The argument of a row. *)
Definition arg_at (ia : InternalAgg) (arg : option ColumnVector) (r : Z) (v : Value) : Prop :=
  match ia_kind ia with
  | I_COUNT_STAR => True
  | _ => exists col, arg = Some col /\ cv_wf col /\ cv_type col = ia_input_type ia /\ 0 <= r < cv_size col /\ cell col r = v
  end.

Section update.
Context (ia : InternalAgg) (state : ColumnVector) (vals : list Value) (g : nat) (st : Value).
Hypothesis Hwf : ia_wf ia.
Hypothesis Hst : column (ia_state_type ia, ia_nullable ia) state vals.
Hypothesis Hg : vals !! g = Some st.

Lemma state_numeric : is_numeric (ia_state_type ia) = true.
Proof using Hwf.
  unfold ia_wf in Hwf. destruct (ia_kind ia); [destruct Hwf as [_ ->]; done..|destruct Hwf as (_ & Hn & ->)|
    destruct Hwf as (_ & Hn & ->)|destruct Hwf as (_ & Hn & ->)]; by destruct (ia_input_type ia).
Qed.

Lemma state_typed : vec_value (ia_state_type ia) st.
Proof using Hst Hg.
  rewrite <- (column_cell _ _ _ Hst g st Hg). destruct Hst as [H1 _ H3 _ _]. simpl in H3. rewrite <- H3.
  apply cell_typed; [done|]. by eapply column_bound.
Qed.

Lemma get_state : is_null st = false -> get_num (ia_state_type ia) state (Z.of_nat g) = Some (num st).
Proof using Hwf Hst Hg.
  intros Hn. apply get_num_ok; [apply state_numeric|apply Hst|apply Hst|by eapply column_bound|by eapply column_cell|done].
Qed.

(** The state or 0. *)
Lemma cur_state : (let! null := cv_is_null state (Z.of_nat g) in
    if null : bool then Some 0 else get_num (ia_state_type ia) state (Z.of_nat g)) = Some (num st).
Proof using Hwf Hst Hg.
  rewrite (column_null _ _ _ Hst g st Hg). destruct (is_null st) eqn:Hn; [by destruct st|]. by apply get_state.
Qed.

Lemma set_state v : vec_value (ia_state_type ia) v -> v <> VNull ->
  exists state', set_value state (Z.of_nat g) v = Some state' /\
    column (ia_state_type ia, ia_nullable ia) state' (<[g := v]> vals).
Proof using Hwf Hst Hg. intros Hv Hn. eapply column_set; [done..| |done]. apply state_numeric. Qed.

Lemma keep_state : column (ia_state_type ia, ia_nullable ia) state (<[g := st]> vals).
Proof using Hst Hg. by rewrite list_insert_id. Qed.

Lemma increment_ok st' : ia_state_type ia = INT64 -> ia_nullable ia = false ->
  (let! c := checked 64 (num st + 1) in Some (VI64 c)) = Some st' ->
  exists state', increment state (Z.of_nat g) = Some state' /\
    column (ia_state_type ia, ia_nullable ia) state' (<[g := st']> vals).
Proof using All.
  intros Ht Hn Hc. unfold increment. pose proof get_state as Hget. rewrite Ht in Hget.
  assert (Hnull : is_null st = false).
  { rewrite <- (column_cell _ _ _ Hst g st Hg). unfold cell, null_at. destruct Hst as [H1 _ H3 H4 _].
    simpl in H4. rewrite H4, Hn. apply raw_not_null, H1. }
  specialize (Hget Hnull). cbn [get_num] in Hget. rewrite Hget. destruct (checked 64 (num st + 1)) as [c|] eqn:Hch; [|done].
  injection Hc as <-. apply (set_state (VI64 c)); [|done]. right. rewrite Ht. split; [done|].
  by apply checked_range in Hch as [_ ?].
Qed.

Lemma minmax_ok better arg r v : is_numeric (ia_input_type ia) = true -> ia_state_type ia = ia_input_type ia ->
  cv_wf arg -> cv_type arg = ia_input_type ia -> 0 <= r < cv_size arg -> cell arg r = v -> is_null v = false ->
  exists state', update_minmax better (ia_state_type ia) state (Z.of_nat g) arg r = Some state' /\
    column (ia_state_type ia, ia_nullable ia) state'
      (<[g := if is_null st || better (ia_state_type ia) (num v) (num st) then v else st]> vals).
Proof using All.
  intros Hnum Hse Hawf Hat Hr Hv Hnn. pose proof (get_num_ok _ _ _ _ Hnum Hawf Hat Hr Hv Hnn) as Hga.
  pose proof (column_null _ _ _ Hst g st Hg) as Hnull. pose proof get_state as Hgs.
  assert (Htv : vec_value (ia_state_type ia) v) by (rewrite Hse, <- Hat, <- Hv; by apply cell_typed).
  assert (Hset : exists state', set_value state (Z.of_nat g) v = Some state' /\
    column (ia_state_type ia, ia_nullable ia) state' (<[g := v]> vals)).
  { apply set_state; [done|]. by intros ->. }
  pose proof keep_state as Hkeep. pose proof state_numeric as Hsn.
  rewrite <- Hse in Hga. destruct Htv as [->|[Htv _]]; [done|]. clear Hse Hv. unfold update_minmax.
  destruct (ia_state_type ia); try discriminate; destruct v; try discriminate; cbn [get_num num set_value] in *;
    rewrite Hga, Hnull;
    (destruct (is_null st) eqn:Hn; [by apply Hset|]; rewrite Hgs by done; simpl; destruct (better _ _ _); [by apply Hset|eauto]).
Qed.

Lemma sum_ok arg r v st' : ia_kind ia = I_SUM -> is_numeric (ia_input_type ia) = true ->
  ia_state_type ia = sum_state (ia_input_type ia) ->
  cv_wf arg -> cv_type arg = ia_input_type ia -> 0 <= r < cv_size arg -> cell arg r = v -> is_null v = false ->
  match ia_state_type ia with
  | INT64 => let! c := checked 64 (num st + num v) in Some (VI64 c)
  | _ => Some (VF64 (f64_op (SFadd 53 1024) (num st) (num v)))
  end = Some st' ->
  exists state', update_sum ia state (Z.of_nat g) arg r = Some state' /\
    column (ia_state_type ia, ia_nullable ia) state' (<[g := st']> vals).
Proof using All.
  intros Hk Hnum Hse Hawf Hat Hr Hv Hnn Hstep. pose proof (get_num_ok _ _ _ _ Hnum Hawf Hat Hr Hv Hnn) as Hga.
  pose proof cur_state as Hcur. pose proof set_state as Hset. unfold update_sum.
  assert (Hcur' : forall {A} (f : Z -> option A), (let! null := cv_is_null state (Z.of_nat g) in
    let! cur := if null : bool then Some 0 else get_num (ia_state_type ia) state (Z.of_nat g) in f cur) = f (num st)).
  { intros A f. destruct (cv_is_null state (Z.of_nat g)) as [b|]; [|done]. by rewrite Hcur. }
  destruct (ia_state_type ia) eqn:Hs; try (by destruct (ia_input_type ia)).
  - assert (Hadd : match ia_input_type ia with INT32 => cv_get_i32 arg r | _ => cv_get_i64 arg r end = Some (num v)).
    { by destruct (ia_input_type ia). }
    rewrite Hadd. cbn [get_num] in Hcur'. rewrite Hcur'.
    destruct (checked 64 (num st + num v)) as [c|] eqn:Hch; [|done]. injection Hstep as <-.
    apply (Hset (VI64 c)); [|done]. right. split; [done|]. by apply checked_range in Hch as [_ ?].
  - destruct (ia_input_type ia); try discriminate. cbn [get_num] in Hga, Hcur'. rewrite Hga, Hcur'. injection Hstep as <-.
    apply (Hset (VF64 _)); [|done]. right. split; [done|]. apply f64_op_range.
Qed.

Lemma update_state_ok arg r v st' : arg_at ia arg r v -> agg_step ia st v = Some st' ->
  exists state', update_state_ ia state (Z.of_nat g) arg r = Some state' /\
    column (ia_state_type ia, ia_nullable ia) state' (<[g := st']> vals).
Proof using All.
  intros Harg Hstep. unfold update_state_. unfold agg_step in Hstep. unfold arg_at in Harg.
  pose proof Hwf as Hw. unfold ia_wf in Hw. pose proof increment_ok as Hinc. pose proof keep_state as Hks.
  assert (Hnl : ia_nullable ia = match ia_kind ia with I_COUNT_STAR | I_COUNT => false | _ => true end) by done.
  destruct (ia_kind ia) eqn:Hk; [by apply Hinc; [apply Hw| |]|..];
    destruct Harg as (col & -> & Hc1 & Hc2 & Hc3 & Hc4);
    (assert (Hnull : cv_is_null col r = Some (is_null v))
      by (rewrite cv_is_null_ok by done; rewrite <- Hc4; by rewrite (is_null_cell (cv_size col) (cv_type col, cv_nullable col))));
    rewrite Hnull; (destruct (is_null v) eqn:Hv; [injection Hstep as <-; by exists state|]).
  - by apply Hinc; [apply Hw| |].
  - destruct Hw as (_ & Hnum & Hse). by apply (sum_ok col r v).
  - destruct Hw as (_ & Hnum & Hse). injection Hstep as <-. by apply minmax_ok.
  - destruct Hw as (_ & Hnum & Hse). injection Hstep as <-. by apply minmax_ok.
Qed.
End update.
End aggregates.

(** ** Keys of groups *)

Definition group_hash (k : row) : Z :=
  wrap 32 (fold_left (fun h v =>
    let h := xxhash64_seed [if is_null v then 0 else 1] h in
    if is_null v then h else xxhash64_seed (hashed_bytes v) h) k 0).

Lemma hash_group_row_ok n sgk cols r : Forall2 (col_ok n) sgk cols -> 0 <= r < n ->
  Forall (fun s => emittable s.1 = true) sgk -> hash_group_row cols r = Some (group_hash (row_at cols r)).
Proof.
  intros Hcols Hr Hsg. unfold hash_group_row, group_hash.
  match goal with |- (let! h := each cols ?f 0 in _) = _ => assert (Heach : forall h, each cols f h =
    Some (fold_left (fun h v =>
      let h := xxhash64_seed [if is_null v then 0 else 1] h in
      if is_null v then h else xxhash64_seed (hashed_bytes v) h) (row_at cols r) h)) end.
  { induction Hcols as [|s col sgk cols Hc Hcols IH]; intros h; [done|].
    apply Forall_cons in Hsg as [Hs Hsg]. cbn [each row_at map fold_left].
    pose proof (is_null_cell _ _ _ r Hc) as Hn. pose proof Hc as (Hwf & Ht & _ & Hsz).
    rewrite cv_is_null_ok, <- Hn by (done || lia). destruct (is_null (cell col r)) eqn:Hnull; [by apply IH|].
    rewrite Ht. destruct (is_varchar s.1) eqn:Hv.
    - destruct (cell_str n r Hr s col Hc Hv Hnull) as (str & Hcell & ->). rewrite Hcell. by apply IH.
    - rewrite (key_slot_ok n r Hr s col) by done.
      assert (slot_bytes_of (cell col r) = hashed_bytes (cell col r)) as ->; [|by apply IH].
      destruct (cell_vec _ _ _ r Hc Hr) as [Hz|[Hvt _]]; [by rewrite Hz in Hnull|].
      destruct (cell col r); try done. simpl in Hvt. by rewrite <- Hvt in Hv. }
  by rewrite Heach.
Qed.

Lemma group_keys_equal_ok n m sl sr lc rc li ri : Forall2 (col_ok n) sl lc -> Forall2 (col_ok m) sr rc ->
  map fst sl = map fst sr -> Forall (fun s => emittable s.1 = true) sl -> 0 <= li < n -> 0 <= ri < m ->
  group_keys_equal lc li rc ri = Some (bool_decide (row_at lc li = row_at rc ri)).
Proof.
  intros Hl. revert sr rc. induction Hl as [|s l sl lc Hc _ IH]; intros sr rc Hr Hty Hem Hli Hri.
  - destruct Hr; [done|discriminate].
  - destruct Hr as [|s' r sr rc Hc' Hr]; [discriminate|]. injection Hty as Hs Hty.
    apply Forall_cons in Hem as [He Hem]. cbn [group_keys_equal row_at map].
    pose proof Hc as (Hwf & Ht & _ & Hsz). pose proof Hc' as (Hwf' & Ht' & _ & Hsz').
    rewrite bool_decide_true by congruence. specialize (IH sr rc Hr Hty Hem Hli Hri).
    rewrite !cv_is_null_ok by (done || lia). rewrite <- (is_null_cell _ _ _ li Hc), <- (is_null_cell _ _ _ ri Hc').
    assert (Hcons : bool_decide (cell l li = cell r ri) = true ->
      bool_decide (row_at lc li = row_at rc ri) = bool_decide (row_at (l :: lc) li = row_at (r :: rc) ri)).
    { intros Heq%bool_decide_eq_true. apply bool_decide_ext. unfold row_at. simpl. split; [congruence|by intros [= _ ?]]. }
    assert (Hdiff : cell l li <> cell r ri -> bool_decide (row_at (l :: lc) li = row_at (r :: rc) ri) = false).
    { intros Hne. apply bool_decide_false. unfold row_at. simpl. by intros [= ? _]. }
    unfold row_at in Hcons, Hdiff, IH |- *. cbn [map] in Hcons, Hdiff.
    destruct (is_null (cell l li)) eqn:Hn1, (is_null (cell r ri)) eqn:Hn2; cbn [negb Bool.eqb].
    + rewrite IH, Hcons; [done|]. apply bool_decide_true. by destruct (cell l li), (cell r ri).
    + rewrite Hdiff; [done|]. congruence.
    + rewrite Hdiff; [done|]. congruence.
    + assert (Hke : keys_equal [l] li [r] ri = Some (bool_decide (row_at [l] li = row_at [r] ri))).
      { apply (keys_equal_ok n m [s] [s'] [l] [r] li ri); [by constructor|by constructor|simpl; by rewrite Hs|
          by constructor|done|done|unfold null_key; simpl; by rewrite Hn1|unfold null_key; simpl; by rewrite Hn2]. }
      cbn [keys_equal] in Hke. rewrite bool_decide_true in Hke by congruence.
      match type of Hke with (let! eq := ?e in _) = _ => destruct e as [[]|]; [| |done] end; injection Hke as Hke; symmetry in Hke.
      * apply bool_decide_eq_true in Hke. unfold row_at in Hke. injection Hke as Hke. rewrite IH, Hcons; [done|]. by apply bool_decide_true.
      * apply bool_decide_eq_false in Hke. rewrite Hdiff; [done|]. intros Heq. apply Hke. unfold row_at. simpl. by rewrite Heq.
Qed.

Definition col_good (n : Z) (s : TypeId * bool) (cv : ColumnVector) : Prop := col_ok n s cv /\ cv_clean cv.

Lemma appended_cells cv cv' v : cv_wf cv -> appended cv cv' v ->
  cell cv' (cv_size cv) = v /\ forall j, 0 <= j < cv_size cv -> cell cv' j = cell cv j.
Proof.
  intros Hwf [A1 A2 A3 A4 A5]. pose proof (cw_size _ Hwf).
  assert (Hl : forall k w, (cv_values cv ++ [v]) !! k = Some w -> cell cv' (Z.of_nat k) = w).
  { intros k w Hk. rewrite <- A5 in Hk. pose proof (lookup_lt_Some _ _ _ Hk) as Hlt. rewrite length_cv_values in Hlt.
    rewrite lookup_cv_values in Hk by done. by injection Hk. }
  split.
  - rewrite <- (Z2Nat.id (cv_size cv)) by lia. apply Hl. by rewrite list_lookup_middle by by rewrite length_cv_values.
  - intros j Hj. rewrite <- (Z2Nat.id j) by lia. apply Hl. apply lookup_app_l_Some, lookup_cv_values. lia.
Qed.

Lemma append_key_ok n m s s' dst src r : col_good n s dst -> col_ok m s' src -> s.1 = s'.1 -> s.2 = true ->
  emittable s.1 = true -> 0 <= r < m ->
  exists dst', append_key dst src r = Some dst' /\ col_good (n + 1) s dst' /\ cell dst' n = cell src r /\
    forall j, 0 <= j < n -> cell dst' j = cell dst j.
Proof.
  intros [(Hwf & Ht & Hn & Hsz) Hcl] (Hwf' & Ht' & _ & Hsz') Hty Hnl He Hr.
  assert (Heq : append_key dst src r = cv_append_value dst (cell src r)).
  { unfold append_key. rewrite cv_is_null_ok by (done || lia). destruct (null_at src r) eqn:En.
    - unfold cell. by rewrite En.
    - apply append_from_value; [congruence|done|done|lia|done]. }
  rewrite Heq. destruct (cv_append_value_ok dst (cell src r)) as (dst' & -> & Ha); [done|done| |congruence|].
  { rewrite Ht, Hty, <- Ht'. apply cell_typed; [done|lia]. }
  destruct (appended_cells _ _ _ Hwf Ha) as [H1 H2]. destruct Ha as [A1 A2 [A3 A3'] A4 A5].
  exists dst'. rewrite <- Hsz. split_and!; [done| |done|done]. split; [split_and!|done]; congruence.
Qed.

Lemma append_keys_ok n m sl sr dsts srcs r : Forall2 (col_good n) sl dsts -> Forall2 (col_ok m) sr srcs ->
  map fst sl = map fst sr -> Forall (fun s => emittable s.1 = true /\ s.2 = true) sl -> 0 <= r < m ->
  exists dsts', append_keys dsts srcs r = Some dsts' /\ Forall2 (col_good (n + 1)) sl dsts' /\
    row_at dsts' n = row_at srcs r /\ forall j, 0 <= j < n -> row_at dsts' j = row_at dsts j.
Proof.
  intros Hl. revert sr srcs. induction Hl as [|s dst sl dsts Hc Hl IH]; intros sr srcs Hr Hty Hsl Hrow.
  - destruct Hr; [|discriminate]. by exists [].
  - destruct Hr as [|s' src sr srcs Hc' Hr]; [discriminate|]. injection Hty as Hs Hty.
    apply Forall_cons in Hsl as [[He Hnl] Hsl].
    destruct (append_key_ok n m s s' dst src r) as (d & Hd & Hg & H1 & H2); [done..|].
    destruct (IH sr srcs Hr Hty Hsl Hrow) as (ds & Hds & Hgs & H1s & H2s).
    exists (d :: ds). cbn [append_keys]. rewrite Hd. rewrite Hds. split_and!; [done|by constructor| |].
    + unfold row_at in *. simpl. by rewrite H1, H1s.
    + intros j Hj. unfold row_at in *. simpl. by rewrite H2, H2s.
Qed.

(** The key columns hold the keys of the groups. *)
Record keys_hold (sgk : signature) (cols : list ColumnVector) (ks : list row) : Prop := {
  kh_cols : Forall2 (col_good (zlen ks)) sgk cols;
  kh_rows g k : ks !! g = Some k -> row_at cols (Z.of_nat g) = k
}.

Lemma keys_hold_append sgk sr cols ks srcs m r : keys_hold sgk cols ks -> Forall2 (col_ok m) sr srcs ->
  map fst sgk = map fst sr -> Forall (fun s => emittable s.1 = true /\ s.2 = true) sgk -> 0 <= r < m ->
  exists cols', append_keys cols srcs r = Some cols' /\ keys_hold sgk cols' (ks ++ [row_at srcs r]).
Proof.
  intros [Hc Hrow] Hs Hty Hsg Hr. destruct (append_keys_ok _ _ _ _ _ _ r Hc Hs Hty Hsg Hr) as (cols' & -> & Hg & H1 & H2).
  exists cols'. split; [done|]. split; [by rewrite zlen_app|].
  intros g k [Hk|[Hge Hk]]%lookup_app_Some.
  - rewrite H2; [by apply Hrow|]. apply lookup_lt_Some in Hk. unfold zlen. lia.
  - apply list_lookup_singleton_Some in Hk as [Hg0 <-].
    replace (Z.of_nat g) with (zlen ks) by (unfold zlen; lia). done.
Qed.

Lemma keys_hold_ok sgk cols ks : keys_hold sgk cols ks -> Forall2 (col_ok (zlen ks)) sgk cols.
Proof. intros [Hc _]. eapply Forall2_impl; [exact Hc|]. by intros s cv []. Qed.

(** ** States of groups *)

Section states_of_groups.
Context `{Fpu} (aggs : list InternalAgg).
Hypothesis Haggs : Forall ia_wf aggs.

(** A row of the input: its key and the arguments of the aggregates. *)
Abbreviation keyed_args := (row * list Value)%type.

(** The arguments of aggregate [a] in the rows of a group. *)
Definition group_args (rows : list keyed_args) (a : nat) (k : row) : list Value :=
  map (fun x => nth a x.2 VNull) (List.filter (fun x => bool_decide (x.1 = k)) rows).

Definition group_states (rows : list keyed_args) (k : row) : list Value :=
  imap (fun a ia => agg_value ia (group_args rows a k)) aggs.

(** No aggregate of a group overflows. *)
Definition groups_fit (rows : list keyed_args) : Prop :=
  forall a ia k, aggs !! a = Some ia -> agg_fits ia (group_args rows a k).

Record states_hold (rows : list keyed_args) (states : list ColumnVector) (ks : list row) : Prop := {
  sh_length : length states = length aggs;
  sh_states a ia st : aggs !! a = Some ia -> states !! a = Some st ->
    column (ia_state_type ia, ia_nullable ia) st (map (fun k => agg_value ia (group_args rows a k)) ks)
}.

Lemma group_args_snoc rows k vs a k' :
  group_args (rows ++ [(k, vs)]) a k' = group_args rows a k' ++ (if bool_decide (k = k') then [nth a vs VNull] else []).
Proof using. unfold group_args. rewrite List.filter_app, map_app. simpl. by case_bool_decide. Qed.

Lemma group_args_new rows a k : k ∉ map fst rows -> group_args rows a k = [].
Proof using.
  intros Hk. unfold group_args. induction rows as [|x rows IH]; [done|]. simpl in *.
  rewrite bool_decide_false by (intros <-; apply Hk; by left). apply IH. intros Hin. apply Hk. by right.
Qed.

Lemma initial_state ia : ia_wf ia -> agg_value ia [] = if ia_nullable ia then VNull else VI64 0.
Proof using. unfold agg_value, ia_nullable. by destruct (ia_kind ia). Qed.

Lemma append_initial_ok rows states ks k : states_hold rows states ks -> k ∉ map fst rows ->
  exists states', append_initial_state_ states = Some states' /\ states_hold rows states' (ks ++ [k]).
Proof using Haggs.
  intros [Hlen Hst] Hk. unfold append_initial_state_.
  assert (Hone : forall a ia st, aggs !! a = Some ia -> states !! a = Some st ->
    exists st', (if cv_nullable st then cv_append_null st else cv_append_i64 st 0) = Some st' /\
      column (ia_state_type ia, ia_nullable ia) st' (map (fun k => agg_value ia (group_args rows a k)) (ks ++ [k]))).
  { intros a ia st Ha Hs. specialize (Hst a ia st Ha Hs). rewrite Forall_lookup in Haggs. specialize (Haggs a ia Ha).
    rewrite (cl_nullable _ _ _ Hst). cbn [snd]. rewrite map_app. simpl map. rewrite (group_args_new _ _ _ Hk), initial_state by done.
    destruct (column_append _ _ _ Hst (if ia_nullable ia then VNull else VI64 0)) as (st' & Hap & Hc); [| |exists st'; split; [by destruct (ia_nullable ia)|done]].
    - unfold ia_nullable, ia_wf in *. destruct (ia_kind ia); try (by left); right; destruct Haggs as [_ ->]; by split.
    - by destruct (ia_nullable ia). }
  clear Hst. destruct (mapM_is_Some_2 (fun col => if cv_nullable col then cv_append_null col else cv_append_i64 col 0) states) as [states' Hm].
  { apply Forall_lookup. intros a st Hs. destruct (lookup_lt_is_Some_2 aggs a) as [ia Ha]; [apply lookup_lt_Some in Hs; lia|].
    destruct (Hone a ia st Ha Hs) as (st' & Heq & _). exists st'. exact Heq. }
  exists states'. split; [done|]. apply mapM_Some in Hm. split; [by rewrite <- Hlen, (Forall2_length _ _ _ Hm)|].
  intros a ia st' Ha Hs'. destruct (Forall2_lookup_r _ _ _ _ _ Hm Hs') as (st & Hs & Heq).
  destruct (Hone a ia st Ha Hs) as (st'' & Heq' & Hc). congruence.
Qed.

(** The body of the loop over the aggregates succeeds on each of them. *)
Lemma update_states_each (P : nat -> ColumnVector -> Prop) g r : forall ias sts args,
  length sts = length ias -> length args = length ias ->
  (forall a ia st arg, ias !! a = Some ia -> sts !! a = Some st -> args !! a = Some arg ->
    exists st', update_state_ ia st g arg r = Some st' /\ P a st') ->
  exists sts', update_states ias sts args g r = Some sts' /\ length sts' = length ias /\
    forall a st', sts' !! a = Some st' -> P a st'.
Proof using.
  intros ias. revert P. induction ias as [|ia ias IH]; intros P sts args Hs Ha Hall;
    destruct sts as [|st sts]; try discriminate; destruct args as [|arg args]; try discriminate; [by exists []|].
  destruct (Hall 0%nat ia st arg) as (st' & Hst & HP); [done..|]. cbn [update_states]. rewrite Hst.
  destruct (IH (P ∘ S) sts args) as (sts' & -> & Hl & Hps); [by injection Hs|by injection Ha| |].
  { intros a ia' st'' arg' H1 H2 H3. by apply (Hall (S a)). }
  exists (st' :: sts'). split; [done|]. split; [simpl; by rewrite Hl|]. intros [|a] s Hk; [by injection Hk as <-|by apply Hps].
Qed.

Lemma map_update {A} (f f' : row -> A) ks (g : nat) k : NoDup ks -> ks !! g = Some k ->
  (forall k', k' <> k -> f' k' = f k') -> map f' ks = <[g := f' k]> (map f ks).
Proof using.
  intros Hnd Hg Hf. apply list_eq. intros i. rewrite list_lookup_fmap. destruct (decide (i = g)) as [->|Hne].
  - rewrite Hg, list_lookup_insert_eq; [done|]. rewrite length_map. by eapply lookup_lt_Some.
  - rewrite list_lookup_insert_ne, list_lookup_fmap by done. destruct (ks !! i) as [k'|] eqn:Hi; [|done]. simpl. f_equal.
    apply Hf. intros ->. apply Hne. by eapply NoDup_lookup.
Qed.

(** A row is folded into the states of its group. *)
Lemma update_states_ok rows states ks g k vs args r :
  states_hold rows states ks -> NoDup ks -> ks !! g = Some k ->
  groups_fit (rows ++ [(k, vs)]) -> length args = length aggs ->
  (forall a ia arg, aggs !! a = Some ia -> args !! a = Some arg -> arg_at ia arg r (nth a vs VNull)) ->
  exists states', update_states aggs states args (Z.of_nat g) r = Some states' /\
    states_hold (rows ++ [(k, vs)]) states' ks.
Proof using Haggs.
  intros [Hlen Hst] Hnd Hg Hfit Hla Hargs.
  destruct (update_states_each (fun a st => forall ia, aggs !! a = Some ia ->
      column (ia_state_type ia, ia_nullable ia) st (map (fun k' => agg_value ia (group_args (rows ++ [(k, vs)]) a k')) ks))
    (Z.of_nat g) r aggs states args Hlen Hla) as (states' & -> & Hl & Hall).
  - intros a ia st arg Ha Hs Harg. specialize (Hst a ia st Ha Hs). rewrite Forall_lookup in Haggs. specialize (Haggs a ia Ha).
    assert (Hga : group_args (rows ++ [(k, vs)]) a k = group_args rows a k ++ [nth a vs VNull])
      by (rewrite group_args_snoc; by rewrite bool_decide_true).
    destruct (update_state_ok ia st _ g (agg_value ia (group_args rows a k)) Haggs Hst) with (arg := arg) (r := r)
      (v := nth a vs VNull) (st' := agg_value ia (group_args (rows ++ [(k, vs)]) a k)) as (st' & Hup & Hc).
    + by rewrite list_lookup_fmap, Hg.
    + by apply Hargs.
    + rewrite Hga. apply agg_step_ok; [done|]. rewrite <- Hga. by apply Hfit.
    + exists st'. split; [done|]. intros ia' Ha'. assert (ia' = ia) as -> by congruence.
      rewrite (map_update (fun k' => agg_value ia (group_args rows a k')) _ ks g k Hnd Hg); [done|].
      intros k' Hne. rewrite group_args_snoc, bool_decide_false by congruence. by rewrite app_nil_r.
  - exists states'. split; [done|]. split; [done|]. intros a ia st Ha Hs. by apply (Hall a st Hs ia Ha).
Qed.
End states_of_groups.

(** ** The table of groups *)

Definition entries (ks : list row) : list GroupEntry := imap (fun g k => mkGroupEntry (group_hash k) (Z.of_nat g)) ks.

Definition table_holds (table : list GroupEntry) (mask : Z) (ks : list row) : Prop :=
  exists kb, mask = 2 ^ kb - 1 /\ probing group_taken ge_hash kb table (entries ks) /\ 2 * zlen ks <= zlen table.

Lemma entries_snoc ks k : entries (ks ++ [k]) = entries ks ++ [mkGroupEntry (group_hash k) (zlen ks)].
Proof. unfold entries, zlen. rewrite imap_app. simpl. by rewrite Nat.add_0_r. Qed.

Lemma entries_taken ks : zlen ks < UINT32_MAX -> Forall (fun e => group_taken e = true) (entries ks).
Proof.
  intros Hks. apply Forall_lookup. intros i e He. unfold entries in He. rewrite list_lookup_imap in He.
  destruct (ks !! i) as [k|] eqn:Hk; [|done]. injection He as <-. apply lookup_lt_Some in Hk.
  unfold group_taken, NO_GROUP, zlen in *. simpl. apply negb_true_iff, Z.eqb_neq. lia.
Qed.

Lemma length_entries ks : length (entries ks) = length ks.
Proof. apply length_imap. Qed.

Section find_group.
Context (sgk sr : signature) (cols srcs : list ColumnVector) (ks : list row) (m r : Z).
Hypothesis Hkeys : keys_hold sgk cols ks.
Hypothesis Hsrcs : Forall2 (col_ok m) sr srcs.
Hypothesis Hty : map fst sgk = map fst sr.
Hypothesis Hem : Forall (fun s => emittable s.1 = true /\ s.2 = true) sgk.
Hypothesis Hr : 0 <= r < m.

Local Abbreviation k := (row_at srcs r).

Lemma keys_emittable : Forall (fun s : TypeId * bool => emittable s.1 = true) sgk.
Proof using Hem. eapply Forall_impl; [exact Hem|]. by intros s []. Qed.

Lemma source_emittable : Forall (fun s : TypeId * bool => emittable s.1 = true) sr.
Proof using Hem Hty.
  apply Forall_lookup. intros i s Hs. apply (f_equal (.!! i)) in Hty. rewrite !list_lookup_fmap, Hs in Hty.
  destruct (sgk !! i) as [s'|] eqn:Hs'; [|done]. injection Hty as <-.
  by destruct (Forall_lookup_1 _ _ _ _ Hem Hs').
Qed.

(** What the search does with an entry of the hash. *)
Definition check_group (e : GroupEntry) (found : option Z) : option (option Z * bool) :=
  let! eq := group_keys_equal cols (ge_group e) srcs r in
  if eq : bool then Some (Some (ge_group e), true) else Some (found, false).

Lemma check_ok (g : nat) k' : ks !! g = Some k' ->
  group_keys_equal cols (Z.of_nat g) srcs r = Some (bool_decide (k' = k)).
Proof using All.
  intros Hg. rewrite (group_keys_equal_ok (zlen ks) m sgk sr) by
    (first [by apply keys_hold_ok|apply keys_emittable|done|apply lookup_lt_Some in Hg; unfold zlen; lia]).
  by rewrite (kh_rows _ _ _ Hkeys g k' Hg).
Qed.

Lemma visits_groups ks0 off :
  (forall i k', ks0 !! i = Some k' -> ks !! (off + i)%nat = Some k') ->
  visits check_group (List.filter (fun e => ge_hash e =? group_hash k)
    (imap (fun i k' => mkGroupEntry (group_hash k') (Z.of_nat (off + i))) ks0)) None =
  match list_find (fun k' => k' = k) ks0 with
  | Some (i, _) => Some (Some (Z.of_nat (off + i)), true)
  | None => Some (None, false)
  end.
Proof using All.
  revert off. induction ks0 as [|k0 ks0 IH]; intros off Hks; [done|]. cbn [imap list_find List.filter].
  assert (IH' := IH (S off)). rewrite (imap_ext _ (fun i k' => mkGroupEntry (group_hash k') (Z.of_nat (S off + i)))) by
    (intros; simpl; do 2 f_equal; lia).
  specialize (IH' ltac:(intros i k' Hi; replace (S off + i)%nat with (off + S i)%nat by lia; by apply Hks)).
  cbn [ge_hash]. rewrite Nat.add_0_r. pose proof (check_ok (off + 0) k0 (Hks 0%nat k0 eq_refl)) as Hck.
  rewrite Nat.add_0_r in Hck. destruct (decide (k0 = k)) as [->|Hne].
  - rewrite Z.eqb_refl. cbn [visits]. unfold check_group at 1. cbn [ge_group]. rewrite Hck, bool_decide_true by done.
    by rewrite Nat.add_0_r.
  - destruct (group_hash k0 =? group_hash k); [cbn [visits]; unfold check_group at 1; cbn [ge_group]; rewrite Hck, bool_decide_false by done|];
      rewrite IH'; (destruct (list_find _ ks0) as [[i k']|]; [|done]); simpl; by replace (off + S i)%nat with (S (off + i)) by lia.
Qed.

(** The search finds the group of the key, or the free slot where its entry goes. *)
Lemma search_group table mask : table_holds table mask ks -> zlen ks < UINT32_MAX -> ks <> [] \/ table <> [] ->
  let run := probe_scan group_taken (length table) table mask (Z.land (group_hash k) mask)
    (fun e found => if ge_hash e =? group_hash k then check_group e found else Some (found, false)) None in
  match list_find (fun k' => k' = k) ks with
  | Some (i, _) => exists slot, run = Some (Some (Z.of_nat i), slot)
  | None => exists slot, run = Some (None, slot) /\
      forall kb, mask = 2 ^ kb - 1 -> probing group_taken ge_hash kb table (entries ks) ->
      probing group_taken ge_hash kb (<[Z.to_nat slot := mkGroupEntry (group_hash k) (zlen ks)]> table) (entries (ks ++ [k]))
  end.
Proof using All.
  intros (kb & -> & Hpb & Hroom) Hmax Hne run.
  assert (Hlt : (length (entries ks) < length table)%nat).
  { rewrite length_entries. unfold zlen in Hroom. destruct Hne as [Hne|Hne]; [destruct ks|destruct table]; simpl in *; try done; lia. }
  pose proof (entries_taken ks Hmax) as Htaken.
  pose proof (scan_probing group_taken ge_hash kb table (entries ks) Hpb Hlt check_group (group_hash k) None Htaken) as Hs.
  assert (Hv := visits_groups ks 0 ltac:(done)). cbn [Nat.add] in Hv. fold (entries ks) in Hv.
  change (imap (fun i k' => mkGroupEntry (group_hash k') (Z.of_nat i)) ks) with (entries ks) in Hv.
  rewrite Hv in Hs. destruct (list_find (fun k' => k' = k) ks) as [[i k']|]; [exact Hs|].
  exists (Z.of_nat (free_slot group_taken kb table (group_hash k))). split; [exact Hs|].
  intros kb' Hmask Hpb'. assert (kb' = kb) as ->.
  { pose proof (pb_bits _ _ _ _ _ Hpb). pose proof (pb_bits _ _ _ _ _ Hpb'). apply (Z.pow_inj_r 2); lia. }
  rewrite Nat2Z.id, entries_snoc.
  apply (probing_fill group_taken ge_hash kb table (entries ks) Hpb Hlt (mkGroupEntry (group_hash k) (zlen ks))).
  unfold group_taken, NO_GROUP. simpl. apply negb_true_iff, Z.eqb_neq. lia.
Qed.
End find_group.

(** The table is rebuilt with twice the size. *)
Lemma resize_ok sgk keys states table mask ks : keys_hold sgk keys ks ->
  Forall (fun s => emittable s.1 = true /\ s.2 = true) sgk ->
  (exists kb, probing group_taken ge_hash kb table (entries ks)) -> zlen table <= 2 ^ 30 -> zlen ks <= zlen table ->
  exists table' mask', resize_table_ (mkGroups keys states table mask (zlen ks)) =
      Some (mkGroups keys states table' mask' (zlen ks)) /\ table_holds table' mask' ks.
Proof.
  intros Hk Hem (kb & Hpb) Hsize Hks. pose proof (pb_bits _ _ _ _ _ Hpb) as Hkb. pose proof (pb_size _ _ _ _ _ Hpb) as Hlen.
  unfold resize_table_. cbn [gr_table gr_keys gr_num gr_states]. rewrite Hlen.
  assert (Hkb' : 0 <= kb + 1 < 32).
  { split; [lia|]. rewrite Hlen in Hsize. apply Z.pow_le_mono_r_iff in Hsize; lia. }
  assert (Hpow : 2 ^ kb * 2 = 2 ^ (kb + 1)) by (rewrite Z.pow_add_r by lia; done). rewrite Hpow.
  assert (0 < 2 ^ kb) by (apply Z.pow_pos_nonneg; lia).
  assert (Hmask : wrap 32 (2 ^ (kb + 1) - 1) = 2 ^ (kb + 1) - 1).
  { apply wrap_id. unfold in_u. assert (2 ^ (kb + 1) <= 2 ^ 31) by (apply Z.pow_le_mono_r; lia).
    change (2 ^ 31) with 2147483648 in *. change (2 ^ 32) with 4294967296. lia. }
  rewrite Hmask. assert (Hmax : zlen ks < UINT32_MAX).
  { unfold UINT32_MAX. change (2 ^ 30) with 1073741824 in *. change (2 ^ 32) with 4294967296. lia. }
  destruct (loop_inv (fun i t => length t = Z.to_nat (2 ^ (kb + 1)) /\
      probing group_taken ge_hash (kb + 1) t (take (Z.to_nat i) (entries ks))) (zlen ks)
    (fun i table => let! h := hash_group_row keys i in
      probe_insert group_taken ge_hash (2 ^ (kb + 1) - 1) (mkGroupEntry h i) table)
    (replicate (Z.to_nat (2 ^ (kb + 1))) (mkGroupEntry 0 NO_GROUP))) as (t & Ht & Hl & Hp).
  - apply zlen_nonneg.
  - split; [by rewrite length_replicate|]. by apply probing_empty.
  - intros i t Hi [Hl Hp]. destruct (lookup_lt_is_Some_2 ks (Z.to_nat i)) as [k Hki]; [unfold zlen in Hi; lia|].
    rewrite (hash_group_row_ok (zlen ks) sgk) by (first [by apply keys_hold_ok|done|by eapply keys_emittable]).
    pose proof (kh_rows _ _ _ Hk _ _ Hki) as Hrow. rewrite Z2Nat.id in Hrow by lia. rewrite Hrow.
    assert (He : entries ks !! Z.to_nat i = Some (mkGroupEntry (group_hash k) i)).
    { unfold entries. rewrite list_lookup_imap, Hki. simpl. by rewrite Z2Nat.id by lia. }
    pose proof (entries_taken ks Hmax) as Htk.
    destruct (probe_insert_ok group_taken ge_hash (kb + 1) t (take (Z.to_nat i) (entries ks)) (mkGroupEntry (group_hash k) i) Hp)
      as (t' & Hins & Hl' & Hp'); [|by apply Forall_take|by apply (Forall_lookup_1 _ _ _ _ Htk He)|].
    { rewrite length_take, Hl. unfold zlen in *. lia. }
    exists t'. split; [exact Hins|]. split; [by rewrite Hl'|].
    replace (Z.to_nat (i + 1)) with (S (Z.to_nat i)) by lia. by rewrite (take_S_r _ _ _ He).
  - rewrite Ht. eexists _, _. split; [done|]. exists (kb + 1). split; [done|].
    rewrite take_ge in Hp by (rewrite length_entries; unfold zlen; lia). split; [done|]. unfold zlen in *. lia.
Qed.

(** ** Groups *)

(** The different keys in the order in which they first occur. *)
Definition add_key (ks : list row) (k : row) : list row := if decide (k ∈ ks) then ks else ks ++ [k].
Definition distinct (l : list row) : list row := fold_left add_key l [].

Lemma distinct_snoc l k : distinct (l ++ [k]) = add_key (distinct l) k.
Proof. unfold distinct. by rewrite fold_left_app. Qed.

Lemma distinct_spec l : NoDup (distinct l) /\ forall k, k ∈ distinct l <-> k ∈ l.
Proof.
  induction l as [|x l [IH1 IH2]] using rev_ind; [split; [constructor|done]|]. rewrite distinct_snoc. unfold add_key.
  case_decide as Hx; [split; [done|]; set_solver|]. split; [|set_solver].
  apply NoDup_app. split_and!; [done| |apply NoDup_singleton]. set_solver.
Qed.

Lemma length_distinct l : (length (distinct l) <= length l)%nat.
Proof.
  induction l as [|x l IH] using rev_ind; [done|]. rewrite distinct_snoc, length_app. unfold add_key.
  case_decide; [simpl; lia|]. rewrite length_app. simpl. lia.
Qed.

Section groups.
Context `{Fpu} (aggs : list InternalAgg) (sgk : signature).
Hypothesis Haggs : Forall ia_wf aggs.
Hypothesis Hem : Forall (fun s => emittable s.1 = true /\ s.2 = true) sgk.

Record groups_ok (rows : list (row * list Value)) (g : Groups) (ks : list row) : Prop := {
  go_num : gr_num g = zlen ks;
  go_keys : keys_hold sgk (gr_keys g) ks;
  go_states : states_hold aggs rows (gr_states g) ks;
  go_table : sgk <> [] -> table_holds (gr_table g) (gr_mask g) ks
}.

Lemma find_or_create_ok rows g ks sr srcs m r :
  groups_ok rows g ks -> sgk <> [] -> zlen ks < 2 ^ 29 -> Forall2 (col_ok m) sr srcs -> map fst sgk = map fst sr -> 0 <= r < m ->
  (row_at srcs r ∈ map fst rows -> row_at srcs r ∈ ks) ->
  exists (i : nat) g', find_or_create_group_ g srcs r = Some (Z.of_nat i, g') /\
    groups_ok rows g' (add_key ks (row_at srcs r)) /\ add_key ks (row_at srcs r) !! i = Some (row_at srcs r).
Proof using Haggs Hem.
  intros [Hnum Hk Hst Ht] Hne Hmax Hs Hty Hr Hold. specialize (Ht Hne). set (k := row_at srcs r) in *.
  change (2 ^ 29) with 536870912 in *.
  assert (Hmax' : zlen ks < UINT32_MAX) by (unfold UINT32_MAX; change (2 ^ 32) with 4294967296; lia).
  unfold find_or_create_group_.
  rewrite (hash_group_row_ok m sr) by (first [done|by eapply source_emittable]). fold k.
  assert (Htne : gr_table g <> []).
  { destruct Ht as (kb & _ & Hpb & _). pose proof (pb_bits _ _ _ _ _ Hpb). pose proof (pb_size _ _ _ _ _ Hpb) as Hsz.
    intros Hnil. rewrite Hnil in Hsz. pose proof (Z.pow_pos_nonneg 2 kb). unfold zlen in Hsz. simpl in Hsz. lia. }
  pose proof (search_group sgk sr (gr_keys g) srcs ks m r Hk Hs Hty Hem Hr (gr_table g) (gr_mask g) Ht Hmax' (or_intror Htne)) as Hsearch.
  cbv zeta in Hsearch. fold k in Hsearch. unfold check_group in Hsearch. unfold add_key.
  destruct (list_find (fun k' => k' = k) ks) as [[i k']|] eqn:Hfind.
  - apply list_find_Some in Hfind as (Hi & -> & _). destruct Hsearch as (slot & ->).
    rewrite decide_True by (by eapply list_elem_of_lookup_2). by exists i, g.
  - apply list_find_None in Hfind. destruct Hsearch as (slot & -> & Hfill).
    assert (Hni : k ∉ ks) by (intros Hin; rewrite Forall_forall in Hfind; by apply (Hfind k Hin)).
    rewrite decide_False by done.
    destruct (keys_hold_append sgk sr (gr_keys g) ks srcs m r Hk Hs Hty Hem Hr) as (keys & -> & Hk'). fold k in Hk'.
    destruct (append_initial_ok aggs Haggs rows (gr_states g) ks k Hst) as (states & -> & Hst'); [tauto|].
    cbn [mbind option_bind]. rewrite Hnum, wrap_id by (unfold in_u; change (2 ^ 32) with 4294967296; pose proof (zlen_nonneg ks); lia).
    set (table := <[Z.to_nat slot := _]> (gr_table g)). cbn [gr_num].
    replace (zlen ks + 1) with (zlen (ks ++ [k])) by (by rewrite zlen_app).
    assert (Hlast : (ks ++ [k]) !! length ks = Some k) by (by apply list_lookup_middle).
    destruct Ht as (kb & Hmask & Hpb & Hroom). specialize (Hfill kb Hmask Hpb). fold table in Hfill.
    assert (Hltab : zlen table = zlen (gr_table g)) by (unfold zlen, table; by rewrite length_insert).
    assert (Hl1 : zlen (ks ++ [k]) = zlen ks + 1) by (by rewrite zlen_app).
    assert (0 < zlen (gr_table g)) by (unfold zlen; destruct (gr_table g); [done|simpl; lia]). pose proof (zlen_nonneg ks).
    destruct (zlen (ks ++ [k]) * 2 >? zlen table) eqn:Hgrow.
    + destruct (resize_ok sgk keys states table (gr_mask g) (ks ++ [k]) Hk' Hem) as (table' & mask' & -> & Hh);
        [by exists kb|change (2 ^ 30) with 1073741824; lia|lia|].
      exists (length ks), (mkGroups keys states table' mask' (zlen (ks ++ [k]))). split_and!; [done|by split|done].
    + exists (length ks), (mkGroups keys states table (gr_mask g) (zlen (ks ++ [k]))). split_and!; [done| |done].
      split; [done..|]. intros _. exists kb. split_and!; [done..|cbn [gr_table]; lia].
Qed.

(** Without group keys there is one group from the start. *)
Definition group_list (rows : list (row * list Value)) : list row :=
  match sgk with [] => [[]] | _ => distinct (map fst rows) end.

Lemma group_list_nodup rows : NoDup (group_list rows).
Proof using. clear Hem. unfold group_list. destruct sgk; [apply NoDup_singleton|apply distinct_spec]. Qed.

Lemma aggregate_row_ok keys rows g sr srcs m r vs args :
  groups_ok rows g (group_list rows) -> length keys = length sgk -> zlen rows < 2 ^ 29 ->
  Forall2 (col_ok m) sr srcs -> map fst sgk = map fst sr -> 0 <= r < m ->
  groups_fit aggs (rows ++ [(row_at srcs r, vs)]) -> length args = length aggs ->
  (forall a ia arg, aggs !! a = Some ia -> args !! a = Some arg -> arg_at ia arg r (nth a vs VNull)) ->
  exists g', aggregate_row keys aggs srcs args r g = Some g' /\
    groups_ok (rows ++ [(row_at srcs r, vs)]) g' (group_list (rows ++ [(row_at srcs r, vs)])).
Proof using Haggs Hem.
  intros Hg Hlk Hmax Hs Hty Hr Hfit Hla Hargs. set (k := row_at srcs r) in *. unfold aggregate_row.
  assert (Hfind : exists (i : nat) g1, match keys with [] => Some (0, g) | _ => find_or_create_group_ g srcs r end =
      Some (Z.of_nat i, g1) /\ groups_ok rows g1 (group_list (rows ++ [(k, vs)])) /\
      group_list (rows ++ [(k, vs)]) !! i = Some k).
  { destruct (decide (sgk = [])) as [Hnil|Hne].
    - assert (keys = []) as -> by (rewrite Hnil in Hlk; by destruct keys).
      assert (Hk : k = []).
      { rewrite Hnil in Hty. destruct sr; [|discriminate]. inversion Hs. subst k. unfold row_at. by subst. }
      exists 0%nat, g. unfold group_list in *. rewrite Hnil in *. rewrite Hk. done.
    - assert (Hgl : forall l, group_list l = distinct (map fst l)) by (unfold group_list; by destruct sgk).
      rewrite Hgl, map_app in *. cbn [map fst]. rewrite distinct_snoc.
      destruct keys as [|e keys]; [by destruct sgk|].
      apply (find_or_create_ok rows g (distinct (map fst rows)) sr srcs m r); try done.
      + pose proof (length_distinct (map fst rows)) as Hd. rewrite length_map in Hd. unfold zlen in *. lia.
      + apply distinct_spec. }
  destruct Hfind as (i & g1 & -> & [Hn Hk1 Hs1 Ht1] & Hi).
  destruct (update_states_ok aggs Haggs rows (gr_states g1) _ i k vs args r Hs1 (group_list_nodup _) Hi Hfit Hla Hargs)
    as (states & -> & Hst). eexists. split; [done|]. by split.
Qed.
End groups.

(** ** Arguments *)

Section arguments.
Context `{Fpu}.

Definition arg_exprs (aggs : list InternalAgg) : list Expression := omap ia_arg aggs.

(** The columns of the arguments, one per aggregate. *)
Fixpoint spread {A} (aggs : list InternalAgg) (l : list A) : list (option A) :=
  match aggs with
  | [] => []
  | ia :: aggs' =>
      match ia_arg ia with
      | None => None :: spread aggs' l
      | Some _ => match l with [] => None :: spread aggs' [] | x :: l' => Some x :: spread aggs' l' end
      end
  end.

Lemma length_spread {A} aggs (l : list A) : length (spread aggs l) = length aggs.
Proof using.
  revert l. induction aggs as [|ia aggs IH]; intros l; [done|]. simpl. destruct (ia_arg ia); [destruct l|]; simpl; by rewrite IH.
Qed.

Lemma spread_map {A B} (f : A -> B) aggs l : spread aggs (map f l) = map (option_map f) (spread aggs l).
Proof using.
  revert l. induction aggs as [|ia aggs IH]; intros l; [done|]. simpl.
  destruct (ia_arg ia); [destruct l|]; simpl; rewrite <- IH; done.
Qed.

Lemma evaluate_args_all aggs c :
  evaluate_args aggs c = match evaluate_all (arg_exprs aggs) c with
    | None => None | Some (Err m) => Some (Err m) | Some (Ok cols) => Some (Ok (spread aggs cols)) end.
Proof using.
  induction aggs as [|ia aggs IH]; [done|]. cbn [evaluate_args arg_exprs omap list_omap spread].
  change (omap ia_arg aggs) with (arg_exprs aggs). rewrite IH. destruct (ia_arg ia) as [e|].
  - cbn [evaluate_all]. destruct (evaluate e c) as [[col|m]|]; [|done..]. cbn [mbind option_bind].
    destruct (evaluate_all (arg_exprs aggs) c) as [[cols|m]|]; done.
  - destruct (evaluate_all (arg_exprs aggs) c) as [[cols|m]|]; done.
Qed.

Lemma evaluate_all_app l1 l2 c :
  evaluate_all (l1 ++ l2) c = match evaluate_all l1 c with
    | None => None
    | Some (Err m) => Some (Err m)
    | Some (Ok c1) => match evaluate_all l2 c with
        | None => None | Some (Err m) => Some (Err m) | Some (Ok c2) => Some (Ok (c1 ++ c2)) end
    end.
Proof using.
  induction l1 as [|e l1 IH]; cbn [evaluate_all app]; [by destruct (evaluate_all l2 c) as [[]|]|].
  destruct (evaluate e c) as [[col|m]|]; [|done..]. cbn [mbind option_bind]. rewrite IH.
  destruct (evaluate_all l1 c) as [[c1|m]|]; [|done..]. cbn [mbind option_bind].
  by destruct (evaluate_all l2 c) as [[c2|m]|].
Qed.

Lemma evaluate_all_length l c cols : evaluate_all l c = Some (Ok cols) -> length cols = length l.
Proof using.
  revert cols. induction l as [|e l IH]; intros cols; cbn [evaluate_all]; [by intros [= <-]|].
  destruct (evaluate e c) as [[col|m]|]; [|done..]. cbn [mbind option_bind].
  destruct (evaluate_all l c) as [[cs|m]|]; [|done..]. intros [= <-]. simpl. by rewrite (IH cs).
Qed.

(** The column of an aggregate's argument has the type of the argument. *)
Lemma spread_cols sg n aggs cols a ia arg : Forall2 (col_ok n) (project_sig sg (arg_exprs aggs)) cols ->
  aggs !! a = Some ia -> spread aggs cols !! a = Some arg ->
  match ia_arg ia with
  | None => True
  | Some e => exists col, arg = Some col /\ col_ok n (output_type e, nullable_of sg e) col
  end.
Proof using.
  revert cols a. induction aggs as [|ia' aggs IH]; intros cols a Hc Ha Hs; [done|].
  cbn [arg_exprs omap list_omap spread] in *. change (omap ia_arg aggs) with (arg_exprs aggs) in *.
  destruct (ia_arg ia') as [e|] eqn:Hia.
  - destruct cols as [|col cols]; [inversion Hc|]. apply Forall2_cons in Hc as [Hc1 Hc].
    destruct a as [|a]; [|by eapply IH]. injection Ha as <-. injection Hs as <-. rewrite Hia. by exists col.
  - destruct a as [|a]; [|by eapply IH]. injection Ha as <-. by rewrite Hia.
Qed.

(** The value of an expression on a row. *)
Definition value_of (e : Expression) (r : row) : Value := default VNull (row_value e r).
Definition arg_value (ia : InternalAgg) (r : row) : Value := match ia_arg ia with None => VNull | Some e => value_of e r end.

(** The key and the arguments of a row. *)
Definition row_input (keys : list Expression) (aggs : list InternalAgg) (r : row) : row * list Value :=
  (map (fun e => value_of e r) keys, map (fun ia => arg_value ia r) aggs).

Lemma project_row_values items r vs : project_row items r = Some vs -> vs = map (fun e => value_of e r) items.
Proof using.
  unfold project_row. intros Hm%mapM_Some. induction Hm as [|e v items vs He _ IH]; [done|].
  cbn [map]. rewrite <- IH. unfold value_of. by rewrite He.
Qed.

Lemma spread_values aggs r :
  map (default VNull) (spread aggs (map (fun e => value_of e r) (arg_exprs aggs))) = map (fun ia => arg_value ia r) aggs.
Proof using.
  induction aggs as [|ia aggs IH]; [done|]. cbn [arg_exprs omap list_omap spread map]. change (omap ia_arg aggs) with (arg_exprs aggs).
  unfold arg_value at 1. destruct (ia_arg ia) as [e|]; cbn [map default spread]; by rewrite IH.
Qed.

Lemma agg_fits_prefix ia vs ws : agg_fits ia (vs ++ ws) -> agg_fits ia vs.
Proof using.
  intros [Hl Hs]. split; [rewrite zlen_app in Hl; pose proof (zlen_nonneg ws); lia|]. intros Hk Ht n.
  specialize (Hs Hk Ht (Nat.min n (length (nonnull vs)))).
  assert (Happ : nonnull (vs ++ ws) = nonnull vs ++ nonnull ws) by apply List.filter_app.
  rewrite Happ, take_app_le in Hs by lia.
  replace (take n (nonnull vs)) with (take (Nat.min n (length (nonnull vs))) (nonnull vs)); [done|].
  destruct (decide (n <= length (nonnull vs))%nat); [by rewrite Nat.min_l by lia|].
  rewrite Nat.min_r by lia. by rewrite !take_ge by lia.
Qed.

Lemma groups_fit_prefix aggs rows rows' : groups_fit aggs (rows ++ rows') -> groups_fit aggs rows.
Proof using.
  intros Hf a ia k Ha. specialize (Hf a ia k Ha). unfold group_args in Hf. rewrite List.filter_app, map_app in Hf.
  by eapply agg_fits_prefix.
Qed.
End arguments.

(** ** A chunk is folded in *)

Section chunk.
Context `{Fpu} (sg : signature) (keys : list Expression) (aggs : list InternalAgg).
Hypothesis Haggs : Forall ia_wf aggs.
Hypothesis Hnum : Forall (fun e => is_numeric (output_type e) = true) keys.

Abbreviation items := (keys ++ arg_exprs aggs).
Definition key_sig : signature := map (fun e => (output_type e, true)) keys.

Lemma key_sig_em : Forall (fun s => emittable s.1 = true /\ s.2 = true) key_sig.
Proof using Hnum.
  unfold key_sig. apply Forall_map. eapply Forall_impl; [exact Hnum|]. intros e He. split; [|done]. cbn in *. by destruct (output_type e).
Qed.

Abbreviation inputs rs := (map (fun x => row_input keys aggs x.1) rs).
Abbreviation state_ok rows g := (groups_ok aggs key_sig rows g (group_list key_sig rows)).

Lemma aggregate_chunk_ok c cols rs rows g : buffered sg items (c, cols) rs ->
  evaluate_all items c = Some (Ok cols) -> Forall (fun x => project_row items x.1 = Some x.2) rs ->
  state_ok rows g -> zlen (rows ++ inputs rs) <= 2 ^ 29 -> groups_fit aggs (rows ++ inputs rs) ->
  exists g', aggregate_chunk keys aggs c g = Some (Ok g') /\ state_ok (rows ++ inputs rs) g'.
Proof using Haggs Hnum.
  intros Hb Hev Hproj Hg Hmax Hfit. unfold aggregate_chunk. rewrite evaluate_args_all.
  rewrite evaluate_all_app in Hev. destruct (evaluate_all keys c) as [[kc|]|] eqn:Hkc; [|discriminate..].
  destruct (evaluate_all (arg_exprs aggs) c) as [[ac|]|]; [|discriminate..]. injection Hev as <-.
  destruct Hb as [Hwf _ Hcnt Hcols _ Hrows]. cbn [fst snd] in *. cbn [mbind option_bind].
  pose proof (ckw_rows _ _ Hwf) as Hmr. unfold MAX_ROWS in Hmr. rewrite wrap_id, Hcnt by (unfold in_u; lia).
  unfold project_sig in Hcols. rewrite map_app in Hcols. apply Forall2_app_inv_l in Hcols as (kc' & ac' & Hk & Ha & Heq).
  apply app_inj_1 in Heq as [<- <-]; [|rewrite (evaluate_all_length _ _ _ Hkc); apply Forall2_length in Hk; by rewrite length_map in Hk].
  destruct (loop_inv (fun i g => state_ok (rows ++ take (Z.to_nat i) (inputs rs)) g) (zlen rs)
    (aggregate_row keys aggs kc (spread aggs ac)) g) as (g' & -> & Hg').
  - apply zlen_nonneg.
  - by rewrite app_nil_r.
  - intros i g1 Hi Hg1. destruct (lookup_lt_is_Some_2 rs (Z.to_nat i)) as [x Hx]; [unfold zlen in Hi; lia|].
    assert (Hin : inputs rs !! Z.to_nat i = Some (row_input keys aggs x.1)) by (by rewrite list_lookup_fmap, Hx).
    assert (Hrow : row_at (kc ++ ac) i = map (fun e => value_of e x.1) items).
    { apply (f_equal (.!! Z.to_nat i)) in Hrows. rewrite !list_lookup_fmap, Hx, lookup_zrange in Hrows by (unfold zlen in *; lia).
      simpl in Hrows. injection Hrows as Hrows. replace (0 + Z.of_nat (Z.to_nat i)) with i in Hrows by lia. rewrite Hrows.
      apply project_row_values. by apply (Forall_lookup_1 _ _ _ _ Hproj Hx). }
    unfold row_at in Hrow. rewrite !map_app in Hrow. apply app_inj_1 in Hrow as [Hrk Hra];
      [|rewrite !length_map; by rewrite (evaluate_all_length _ _ _ Hkc)].
    assert (Hinput : row_input keys aggs x.1 = (row_at kc i, map (default VNull) (spread aggs (row_at ac i)))).
    { unfold row_input, row_at. rewrite Hrk, Hra. by rewrite spread_values. }
    replace (Z.to_nat (i + 1)) with (S (Z.to_nat i)) by lia. rewrite (take_S_r _ _ _ Hin), Hinput, app_assoc.
    apply (aggregate_row_ok aggs key_sig Haggs key_sig_em keys _ g1 (map (fun e => (output_type e, nullable_of sg e)) keys) kc (zlen rs));
      [done|unfold key_sig; by rewrite length_map| |done| |done| |by apply length_spread|].
    + apply lookup_lt_Some in Hin. rewrite !zlen_app in *. unfold zlen in *. rewrite length_take. lia.
    + unfold key_sig. by rewrite !map_map.
    + rewrite <- Hinput, <- app_assoc, <- (take_S_r _ _ _ Hin). rewrite <- (take_drop (S (Z.to_nat i)) (inputs rs)), app_assoc in Hfit.
      by apply groups_fit_prefix in Hfit.
    + intros a ia arg Hia Harg. pose proof (spread_cols _ _ _ _ _ _ _ Ha Hia Harg) as Hcol.
      rewrite Forall_lookup in Haggs. specialize (Haggs a ia Hia). unfold arg_at, ia_wf in *.
      assert (Hcell : forall col, arg = Some col -> nth a (map (default VNull) (spread aggs (row_at ac i))) VNull = cell col i).
      { intros col ->. unfold row_at. rewrite spread_map, map_map. apply nth_lookup_Some. by rewrite list_lookup_fmap, Harg. }
      destruct (ia_kind ia); [done|..]; destruct Haggs as ((e & He & Hty) & _); rewrite He in Hcol;
        destruct Hcol as (col & -> & Hwf1 & Ht1 & _ & Hs1); exists col; cbn [fst] in Ht1; rewrite (Hcell col) by done;
        (split_and!; [done|done|congruence|lia..|done]).
  - exists g'. split; [done|]. rewrite take_ge in Hg' by (rewrite length_map; unfold zlen; lia). done.
Qed.
End chunk.
