(* ===== verification/AggregateStream.v ===== *)
(** * Aggregation as an operator

    The groups are emitted in slices of [CHUNK_SIZE]; the plan that the constructor makes of the
    aggregates computes them; and the theorem on the whole operator. *)

From Stdlib Require Import SpecFloat.
From S2P Require Import Prelude Types XXHash SelectionVector ColumnVector Chunk Expression Operator Buffered Probing HashJoin HashAggregate Aggregation.

(** Columns that show functions of the rows of a slice. *)
Lemma rows_of_columns {A} (gs : list A) fs cols :
  Forall2 (fun (f : A -> Value) col => cv_size col = zlen gs /\ cv_values col = map f gs) fs cols ->
  map (row_at cols) (zrange 0 (zlen gs)) = map (fun g => map (fun f => f g) fs) gs.
Proof.
  intros Hc. apply list_eq. intros i. rewrite !list_lookup_fmap. destruct (gs !! i) as [g|] eqn:Hg.
  - pose proof (lookup_lt_Some _ _ _ Hg). rewrite lookup_zrange by (unfold zlen; lia). simpl. f_equal. unfold row_at.
    induction Hc as [|f col fs cols [Hs Hv] _ IH]; [done|]. simpl. f_equal; [|done].
    assert (Hl : cv_values col !! i = Some (f g)) by (by rewrite Hv, list_lookup_fmap, Hg).
    rewrite lookup_cv_values in Hl by (rewrite Hs; unfold zlen; lia). by injection Hl.
  - apply lookup_ge_None in Hg. rewrite (proj2 (lookup_ge_None _ _)); [done|]. rewrite length_zrange. unfold zlen. lia.
Qed.

Section emission.
Context `{Fpu} (keys : list Expression) (aggs : list InternalAgg) (rws : list row).
Hypothesis Haggs : Forall ia_wf aggs.
Hypothesis Hnum : Forall (fun e => is_numeric (output_type e) = true) keys.

Definition key_of (r : row) : row := map (fun e => value_of e r) keys.

(** The rows of a group. *)
Definition group_of (k : row) : list row := List.filter (fun r => bool_decide (key_of r = k)) rws.

Definition state_of (ia : InternalAgg) (k : row) : Value := agg_value ia (map (arg_value ia) (group_of k)).

Lemma group_args_rows a ia k : aggs !! a = Some ia ->
  group_args (map (row_input keys aggs) rws) a k = map (arg_value ia) (group_of k).
Proof using.
  intros Ha. unfold group_args, group_of. induction rws as [|r l IH]; [done|]. cbn [map List.filter row_input fst].
  fold (key_of r). case_bool_decide; [|done]. cbn [map]. f_equal; [|done]. cbn [snd row_input].
  apply nth_lookup_Some. by rewrite list_lookup_fmap, Ha.
Qed.

(** The average of a SUM and a COUNT. *)
Definition avg_value (t : TypeId) (s c : Value) : Value :=
  if num c =? 0 then VNull
  else VF64 (f64_op (SFdiv 53 1024) (match t with DOUBLE => num s | _ => f64_of_int (num s) end) (f64_of_int (num c))).

Definition binding_value (b : OutputBinding) (k : row) : Value :=
  match b with
  | DIRECT _ i => match aggs !! i with Some ia => state_of ia k | None => VNull end
  | AVG_DIVIDE s c =>
      match aggs !! s, aggs !! c with
      | Some sum, Some count => avg_value (ia_state_type sum) (state_of sum k) (state_of count k)
      | _, _ => VNull
      end
  end.

Definition binding_ok (b : OutputBinding) (s : TypeId * bool) : Prop :=
  match b with
  | DIRECT t i => exists ia, aggs !! i = Some ia /\ t = ia_state_type ia /\ s = (t, ia_nullable ia)
  | AVG_DIVIDE i j => s = (DOUBLE, true) /\ exists sum count, aggs !! i = Some sum /\ aggs !! j = Some count /\
      ia_kind sum = I_SUM /\ ia_kind count = I_COUNT /\ ia_arg sum = ia_arg count
  end.

Definition out_row (bindings : list OutputBinding) (k : row) : row := k ++ map (fun b => binding_value b k) bindings.

Section slice.
Context (g : Groups) (ks : list row) (gs : list Z).
Hypothesis Hg : groups_ok aggs (key_sig keys) (map (row_input keys aggs) rws) g ks.
Hypothesis Hgs : Forall (fun i => 0 <= i < zlen ks) gs.

Definition key_at (i : Z) : row := nth (Z.to_nat i) ks [].

Lemma key_lookup i : 0 <= i < zlen ks -> ks !! Z.to_nat i = Some (key_at i).
Proof using.
  clear Hg Hgs. intros Hi. unfold key_at. destruct (lookup_lt_is_Some_2 ks (Z.to_nat i)) as [k Hk]; [unfold zlen in Hi; lia|].
  by rewrite (nth_lookup_Some _ _ _ _ Hk).
Qed.

(** A state column and its cells. *)
Lemma state_column a ia : aggs !! a = Some ia -> exists st, gr_states g !! a = Some st /\
  column (ia_state_type ia, ia_nullable ia) st (map (state_of ia) ks) /\
  forall i, 0 <= i < zlen ks -> 0 <= i < cv_size st /\ cell st i = state_of ia (key_at i).
Proof using Hg.
  intros Ha. destruct (go_states _ _ _ _ _ Hg) as [Hl Hst].
  destruct (lookup_lt_is_Some_2 (gr_states g) a) as [st Hs]; [rewrite Hl; by eapply lookup_lt_Some|].
  exists st. split; [done|]. specialize (Hst a ia st Ha Hs).
  rewrite (map_ext _ (state_of ia)) in Hst by (intros k; unfold state_of; by rewrite (group_args_rows a ia k Ha)).
  split; [done|]. intros i Hi. pose proof (column_size _ _ _ Hst) as Hsz. unfold zlen in Hsz, Hi. rewrite length_map in Hsz.
  split; [lia|]. rewrite <- (Z2Nat.id i) at 1 by lia. eapply column_cell; [exact Hst|]. rewrite list_lookup_fmap, key_lookup by (unfold zlen; lia). done.
Qed.

Abbreviation shows s f col := (col_ok (zlen gs) s col /\ cv_values col = map f gs).

Lemma emit_from_ok t nullable src : emittable t = true -> cv_wf src -> cv_type src = t ->
  (cv_nullable src = true -> nullable = true) -> (forall i, 0 <= i < zlen ks -> 0 <= i < cv_size src) ->
  exists col, emit_column t nullable (map (fun i => Some (src, i)) gs) = Some col /\ shows (t, nullable) (cell src) col.
Proof using Hgs.
  intros Ht Hwf Hty Hn Hin. destruct (emit_column_ok (t, nullable) (map (fun i => Some (src, i)) gs)) as (col & He & Hc & Hv).
  - done.
  - apply Forall_map. eapply Forall_impl; [exact Hgs|]. intros i Hi. simpl. auto.
  - exists col. split; [done|]. rewrite map_map in Hv. unfold zlen in Hc. rewrite length_map in Hc. done.
Qed.

Lemma emit_keys_ok : exists cols,
  mapM (fun gk => emit_column (cv_type gk) true (map (fun i => Some (gk, i)) gs)) (gr_keys g) = Some cols /\
  Forall2 (col_ok (zlen gs)) (key_sig keys) cols /\
  Forall2 (fun f col => cv_size col = zlen gs /\ cv_values col = map f gs) (map cell (gr_keys g)) cols.
Proof using Hg Hgs Hnum.
  pose proof (key_sig_em keys Hnum) as Hem. destruct (go_keys _ _ _ _ _ Hg) as [Hk _]. clear Hg.
  revert Hem. induction Hk as [|s gk sgk gks [(Hwf & Ht & Hn & Hs) _] _ IH]; intros Hem; [by exists []|].
  apply Forall_cons in Hem as [[He Hnl] Hem]. destruct (IH Hem) as (cols & Hm & Hc & Hv).
  destruct (emit_from_ok (cv_type gk) true gk) as (col & Hcol & Hok & Hvs); [by rewrite Ht|done|done|done|intros i Hi; lia|].
  exists (col :: cols). cbn [mapM]. rewrite Hcol. cbn [mbind option_bind]. rewrite Hm. split_and!; [done| |].
  - constructor; [|done]. assert (s = (cv_type gk, true)) as -> by (destruct s; simpl in *; congruence). done.
  - simpl. constructor; [|done]. split; [apply Hok|done].
Qed.

Lemma emit_avg_ok sc cc sum count a b :
  aggs !! a = Some sum -> aggs !! b = Some count -> gr_states g !! a = Some sc -> gr_states g !! b = Some cc ->
  ia_kind sum = I_SUM -> ia_kind count = I_COUNT -> ia_arg sum = ia_arg count ->
  exists col, emit_avg sc cc gs = Some col /\
    shows (DOUBLE, true) (fun i => avg_value (ia_state_type sum) (state_of sum (key_at i)) (state_of count (key_at i))) col.
Proof using Haggs Hg Hgs.
  intros Ha Hb Hsc Hcc Hks Hkc Harg. rewrite Forall_lookup in Haggs.
  pose proof (Haggs a sum Ha) as Hws. pose proof (Haggs b count Hb) as Hwc. unfold ia_wf in Hws, Hwc. rewrite Hks in Hws. rewrite Hkc in Hwc.
  destruct (state_column a sum Ha) as (sc' & Hsc' & Hsum & Hscell). assert (sc' = sc) as -> by congruence.
  destruct (state_column b count Hb) as (cc' & Hcc' & Hcount & Hccell). assert (cc' = cc) as -> by congruence.
  set (f := fun i => avg_value (ia_state_type sum) (state_of sum (key_at i)) (state_of count (key_at i))).
  assert (Hcval : forall k, state_of count k = VI64 (zlen (nonnull (map (arg_value count) (group_of k)))))
    by (intros k; unfold state_of, agg_value; by rewrite Hkc).
  assert (Hargs : forall k, map (arg_value sum) (group_of k) = map (arg_value count) (group_of k))
    by (intros k; apply map_ext; intros r; unfold arg_value; by rewrite Harg).
  assert (Hsval : forall k, nonnull (map (arg_value count) (group_of k)) <> [] -> is_null (state_of sum k) = false).
  { intros k Hne. unfold state_of, agg_value. rewrite Hks, Hargs. destruct (nonnull _); [done|]. by destruct (ia_state_type sum). }
  destruct Hws as (_ & Hsn & Hst). destruct Hwc as (_ & Hct).
  edestruct (each_inv (fun i out => column (DOUBLE, true) out (map f (take i gs))) gs) as (out & Hout & Hcol); [| |exists out; split; [exact Hout|]].
  - destruct (cv_empty_wf DOUBLE true eq_refl) as (Hw & Hc & Hv). by split.
  - intros j i out Hj Hcol. cbv beta. pose proof (Forall_lookup_1 _ _ _ _ Hgs Hj) as Hi. destruct (Hccell i Hi) as [Hci1 Hci2].
    destruct (Hscell i Hi) as [Hsi1 Hsi2]. rewrite Hcval in Hci2.
    rewrite (cv_get_i64_ok cc i _) by (first [apply Hcount|rewrite (cl_type _ _ _ Hcount); done|done]). cbn [mbind option_bind].
    set (nn := nonnull (map (arg_value count) (group_of (key_at i)))) in *.
    assert (Hfi : f i = if zlen nn =? 0 then VNull else VF64 (f64_op (SFdiv 53 1024)
      (match ia_state_type sum with DOUBLE => num (state_of sum (key_at i)) | _ => f64_of_int (num (state_of sum (key_at i))) end)
      (f64_of_int (zlen nn)))).
    { unfold f, avg_value. rewrite Hcval. done. }
    assert (Happ : exists out', cv_append_value out (f i) = Some out' /\ column (DOUBLE, true) out' (map f (take j gs) ++ [f i])).
    { apply column_append; [done| |done]. rewrite Hfi. destruct (zlen nn =? 0); [by left|]. right. split; [done|]. apply f64_op_range. }
    destruct Happ as (out' & Happ & Hc'). exists out'. rewrite (take_S_r _ _ _ Hj), map_app. split; [|done].
    rewrite <- Happ, Hfi. destruct (Z.eqb_spec (zlen nn) 0) as [|Hnz]; [done|].
    assert (Hnull : is_null (state_of sum (key_at i)) = false) by (apply Hsval; intros Hnil; unfold nn, zlen in Hnz; by rewrite Hnil in Hnz).
    pose proof (get_num_ok (ia_state_type sum) sc i (state_of sum (key_at i))) as Hget.
    specialize (Hget ltac:(rewrite Hst; by destruct (ia_input_type sum)) (cl_wf _ _ _ Hsum) (cl_type _ _ _ Hsum) Hsi1 Hsi2 Hnull).
    rewrite (cl_type _ _ _ Hsum). cbn [fst]. rewrite Hst in *. destruct (ia_input_type sum); try discriminate; cbn [sum_state get_num] in *; by rewrite Hget.
  - rewrite take_ge in Hcol by done. split; [|apply Hcol]. destruct Hcol as [H1 H2 H3 H4 H5]. split_and!; [done..|].
    apply (f_equal length) in H5. rewrite length_cv_values, length_map in H5. pose proof (cw_size _ H1). unfold zlen. lia.
Qed.

Lemma emit_bindings_ok bindings schema : Forall2 binding_ok bindings schema ->
  exists cols, emit_bindings (gr_states g) gs bindings schema = Some cols /\ Forall2 (col_ok (zlen gs)) schema cols /\
    Forall2 (fun f col => cv_size col = zlen gs /\ cv_values col = map f gs)
      (map (fun b i => binding_value b (key_at i)) bindings) cols.
Proof using Haggs Hg Hgs.
  induction 1 as [|b [t nullable] bindings schema Hb _ (cols & Hcols & Hok & Hv)]; [by exists []|]. cbn [emit_bindings].
  assert (Hone : exists col, emit_binding (gr_states g) gs b nullable = Some col /\
    shows (t, nullable) (fun i => binding_value b (key_at i)) col).
  { destruct b as [t' i|s c]; cbn [binding_ok emit_binding binding_value] in *.
    - destruct Hb as (ia & Hia & -> & [= -> ->]). destruct (state_column i ia Hia) as (st & -> & Hst & Hcell).
      rewrite Forall_lookup in Haggs. pose proof (state_numeric ia (Haggs i ia Hia)) as Hn. rewrite Hn, Hia. cbn [mbind option_bind].
      destruct (emit_from_ok (ia_state_type ia) (ia_nullable ia) st) as (col & -> & Hc & Hvs).
      + by destruct (ia_state_type ia).
      + apply Hst.
      + apply Hst.
      + rewrite (cl_nullable _ _ _ Hst). done.
      + intros j Hj. by apply Hcell.
      + exists col. split_and!; [done|done|]. rewrite Hvs. apply map_ext_in. intros j Hj%list_elem_of_In.
        apply Hcell. by apply (proj1 (Forall_forall _ _) Hgs).
    - destruct Hb as ([= -> ->] & sum & count & Hs & Hc & Hk1 & Hk2 & Ha).
      destruct (state_column s sum Hs) as (sc & Hsc & _). destruct (state_column c count Hc) as (cc & Hcc & _).
      rewrite Hsc, Hcc, Hs, Hc. cbn [mbind option_bind]. by apply (emit_avg_ok sc cc sum count s c). }
  destruct Hone as (col & -> & Hc & Hvs). cbn [mbind option_bind]. rewrite Hcols. exists (col :: cols).
  split_and!; [done|by constructor|]. simpl. constructor; [|done]. split; [apply Hc|done].
Qed.
End slice.

(** A slice of the groups as a chunk. *)
Lemma emit_groups_ok g ks bindings schema cursor n :
  groups_ok aggs (key_sig keys) (map (row_input keys aggs) rws) g ks -> Forall2 binding_ok bindings schema ->
  0 <= cursor -> 0 <= n <= CHUNK_SIZE -> cursor + n <= zlen ks ->
  exists c, emit_groups g bindings (key_sig keys ++ schema) cursor n = Some c /\
    chunk_good (key_sig keys ++ schema) c /\ chunk_rows c = map (out_row bindings) (slice cursor n ks).
Proof using Haggs Hnum.
  intros Hg Hb Hcur Hn Hle. unfold emit_groups. set (gs := zrange cursor n).
  assert (Hlen : zlen gs = n) by (apply zlen_zrange; lia).
  assert (Hgs : Forall (fun i => 0 <= i < zlen ks) gs).
  { apply Forall_lookup. intros j i Hj. apply lookup_zrange_Some in Hj as [-> Hj]. lia. }
  destruct (emit_keys_ok g ks gs Hg Hgs) as (kcols & -> & Hk & Hkv).
  assert (Hlk : length (gr_keys g) = length (key_sig keys)).
  { symmetry. apply (Forall2_length _ _ _ (kh_cols _ _ _ (go_keys _ _ _ _ _ Hg))). }
  cbn [mbind option_bind]. rewrite Hlk, drop_app_length.
  destruct (emit_bindings_ok g ks gs Hg Hgs bindings schema Hb) as (acols & -> & Ha & Hav).
  cbn [mbind option_bind]. rewrite Hlen in *. unfold CHUNK_SIZE in Hn.
  destruct (chunk_new_ok (key_sig keys ++ schema) n (kcols ++ acols)) as [-> Hgood];
    [unfold MAX_ROWS; lia|by apply Forall2_app|]. eexists. split_and!; [done|done|].
  unfold chunk_rows, shown. cbn [ck_sel ck_columns ck_row_count].
  pose proof (rows_of_columns gs (map cell (gr_keys g) ++ map (fun b i => binding_value b (key_at ks i)) bindings) (kcols ++ acols)) as Hrows.
  rewrite Hlen in Hrows. rewrite Hrows by (by apply Forall2_app).
  apply list_eq. intros j. rewrite !list_lookup_fmap. unfold gs, slice. destruct (decide (j < Z.to_nat n)%nat) as [Hj|Hj].
  - rewrite lookup_zrange by lia. rewrite lookup_take_lt, lookup_drop by lia.
    replace (Z.to_nat cursor + j)%nat with (Z.to_nat (cursor + Z.of_nat j)) by lia.
    rewrite (key_lookup ks (cursor + Z.of_nat j)) by lia. simpl. f_equal. unfold out_row. rewrite map_app, !map_map. f_equal.
    rewrite <- (kh_rows _ _ _ (go_keys _ _ _ _ _ Hg) _ _ (key_lookup ks (cursor + Z.of_nat j) ltac:(lia))).
    unfold row_at. by rewrite Z2Nat.id by lia.
  - rewrite (proj2 (lookup_ge_None (zrange cursor n) j)) by (rewrite length_zrange; lia).
    rewrite (proj2 (lookup_ge_None (take _ _) j)); [done|]. rewrite length_take. lia.
Qed.
End emission.

(** ** The stream *)

Section stream.
Context {S : Type} `{Operator S} `{Fpu}.
Context (sg : signature) (keys : list Expression) (aggs : list InternalAgg) (fuel : nat).
Hypothesis Haggs : Forall ia_wf aggs.
Hypothesis Hnum : Forall (fun e => is_numeric (output_type e) = true) keys.
Hypothesis Hitems : Forall (well_typed sg) (keys ++ arg_exprs aggs).

Abbreviation items := (keys ++ arg_exprs aggs).
Abbreviation state_ok rws g := (groups_ok aggs (key_sig keys) (map (row_input keys aggs) rws) g
  (group_list (key_sig keys) (map (row_input keys aggs) rws))).

(** The rows of the chunks before the first one on which an expression fails. *)
Fixpoint seen_rows (cs : list Chunk) : list row :=
  match cs with
  | [] => []
  | c :: cs' => match mapM (keyed items) (chunk_rows c) with None => [] | Some _ => chunk_rows c ++ seen_rows cs' end
  end.

Lemma keyed_parts rows rs : mapM (keyed items) rows = Some rs ->
  map fst rs = rows /\ Forall (fun x => project_row items x.1 = Some x.2) rs.
Proof using.
  intros Hm%mapM_Some. induction Hm as [|r x rows rs Hx _ [IH1 IH2]]; [done|].
  unfold keyed in Hx. destruct (project_row items r) as [k|] eqn:Hk; [|done]. injection Hx as <-. simpl.
  split; [by rewrite IH1|by constructor].
Qed.

Lemma aggregate_loop_ok child cs fin : runs fuel child cs fin -> Forall (drain_good sg items) cs ->
  forall n rws g, (length cs < n)%nat -> state_ok rws g ->
  zlen (rws ++ seen_rows cs) <= 2 ^ 29 -> groups_fit aggs (map (row_input keys aggs) (rws ++ seen_rows cs)) ->
  exists r g' child', aggregate_loop fuel n keys aggs child g = Some (r, g', child') /\
    match r, keyed_rows items cs fin with
    | Ok _, Ok _ => state_ok (rws ++ seen_rows cs) g'
    | Err m, Err m' => m = m'
    | _, _ => False
    end.
Proof using Haggs Hnum Hitems.
  intros Hruns. induction Hruns as [s s' Hnext|s s' m Hnext|s s' c cs fin Hnext Hruns IH];
    intros Hok n rws g Hn Hg Hmax Hfit; (destruct n as [|n]; [simpl in Hn; lia|]); cbn [aggregate_loop]; rewrite Hnext.
  - exists (Ok tt), g, s'. split; [done|]. simpl. by rewrite app_nil_r.
  - by exists (Err m), g, s'.
  - apply Forall_cons in Hok as [[Hwf Hdef] Hok]. cbn [keyed_rows seen_rows] in *. cbn [mbind option_bind].
    destruct (Z.eqb_spec (logical_size c) 0) as [Hz|Hnz].
    + pose proof (logical_size_rows _ _ Hwf) as Hl. rewrite Hz in Hl.
      assert (Hnil : chunk_rows c = []) by (unfold zlen in Hl; destruct (chunk_rows c); [done|simpl in Hl; lia]).
      rewrite Hnil in *. cbn [mapM app] in *.
      destruct (IH Hok n rws g) as (r & g' & child' & -> & Hr); [simpl in Hn; lia|done..|].
      exists r, g', child'. split; [done|]. destruct r, (keyed_rows items cs fin); done.
    + destruct (buffer_chunk sg items Hitems c Hwf Hdef Hnz) as (c' & -> & [(cols & rs & Hev & Hrs & Hne & Hb)|[Hev Hrs]]);
        rewrite Hrs in *; cbn [mbind option_bind].
      * destruct (keyed_parts _ _ Hrs) as [Hfst Hproj]. rewrite app_assoc in *.
        assert (Hin : map (fun x => row_input keys aggs x.1) rs = map (row_input keys aggs) (chunk_rows c)) by (by rewrite <- Hfst, map_map).
        destruct (aggregate_chunk_ok sg keys aggs Haggs Hnum c' cols rs (map (row_input keys aggs) rws) g Hb Hev Hproj Hg)
          as (g1 & -> & Hg1).
        { rewrite Hin. rewrite !zlen_app in *. unfold zlen in *. rewrite !length_map. lia. }
        { rewrite Hin. rewrite !map_app in Hfit. by apply groups_fit_prefix in Hfit. }
        cbn [mbind option_bind]. rewrite Hin, <- map_app in Hg1.
        destruct (IH Hok n (rws ++ chunk_rows c) g1) as (r & g' & child' & -> & Hr); [simpl in Hn; lia|done..|].
        exists r, g', child'. split; [done|]. destruct r, (keyed_rows items cs fin); done.
      * unfold aggregate_chunk. rewrite evaluate_args_all. rewrite evaluate_all_app in Hev.
        destruct (evaluate_all keys c') as [[kc|m]|]; [|injection Hev as ->; by exists (Err "division by zero"), g, s'|done].
        destruct (evaluate_all (arg_exprs aggs) c') as [[ac|m]|]; [done|injection Hev as ->; by exists (Err "division by zero"), g, s'|done].
Qed.
End stream.

(** ** The plan *)

Section plan.
Context `{Fpu} (keys : list Expression).

Definition sum_of (e : Expression) : InternalAgg := mkIA I_SUM (Some e) (output_type e) (sum_state (output_type e)).
Definition count_of (e : Expression) : InternalAgg := mkIA I_COUNT (Some e) (output_type e) INT64.
Definition min_of (e : Expression) : InternalAgg := mkIA I_MIN (Some e) (output_type e) (output_type e).
Definition max_of (e : Expression) : InternalAgg := mkIA I_MAX (Some e) (output_type e) (output_type e).

(** What an aggregate is for a group of rows. *)
Definition spec_value (spec : AggregateSpec) (grp : list row) : Value :=
  match sp_kind spec, sp_arg spec with
  | COUNT_STAR, _ => VI64 (zlen grp)
  | COUNT, Some e => agg_value (count_of e) (map (value_of e) grp)
  | SUM, Some e => agg_value (sum_of e) (map (value_of e) grp)
  | MIN, Some e => agg_value (min_of e) (map (value_of e) grp)
  | MAX, Some e => agg_value (max_of e) (map (value_of e) grp)
  | AVG, Some e =>
      avg_value (sum_state (output_type e)) (agg_value (sum_of e) (map (value_of e) grp))
        (agg_value (count_of e) (map (value_of e) grp))
  | _, None => VNull
  end.

Definition agg_nullable_ok (a : InternalAgg * bool) : Prop := ia_wf a.1 /\ a.2 = ia_nullable a.1.

Record plan_ok (P : Expression -> Prop) (specs : list AggregateSpec) (p : AggPlan) : Prop := {
  po_aggs : Forall agg_nullable_ok (pl_aggs p);
  po_args : Forall P (arg_exprs (map fst (pl_aggs p)));
  po_bindings : Forall2 (binding_ok (map fst (pl_aggs p))) (pl_bindings p) (pl_schema p);
  po_values rws k : map (fun b => binding_value keys (map fst (pl_aggs p)) rws b k) (pl_bindings p) =
    map (fun spec => spec_value spec (group_of keys rws k)) specs
}.

Lemma binding_ok_more aggs more b s : binding_ok aggs b s -> binding_ok (aggs ++ more) b s.
Proof using.
  destruct b as [t i|i j]; simpl.
  - intros (ia & Hi & ?). exists ia. split; [by apply lookup_app_l_Some|done].
  - intros (? & sum & count & Hi & Hj & ?). split; [done|]. exists sum, count.
    split; [by apply lookup_app_l_Some|]. split; [by apply lookup_app_l_Some|done].
Qed.

Lemma binding_value_more aggs more b s rws k : binding_ok aggs b s ->
  binding_value keys (aggs ++ more) rws b k = binding_value keys aggs rws b k.
Proof using.
  destruct b as [t i|i j]; simpl.
  - intros (ia & Hi & _). by rewrite Hi, (lookup_app_l_Some _ _ _ _ Hi).
  - intros (_ & sum & count & Hi & Hj & _). by rewrite Hi, Hj, (lookup_app_l_Some _ _ _ _ Hi), (lookup_app_l_Some _ _ _ _ Hj).
Qed.

(** More aggregates, one binding and its column. *)
Lemma plan_extend P specs p more b s spec : plan_ok P specs p -> Forall agg_nullable_ok more ->
  Forall P (arg_exprs (map fst more)) -> binding_ok (map fst (pl_aggs p ++ more)) b s ->
  (forall rws k, binding_value keys (map fst (pl_aggs p ++ more)) rws b k = spec_value spec (group_of keys rws k)) ->
  plan_ok P (specs ++ [spec]) (mkPlan (pl_aggs p ++ more) (pl_bindings p ++ [b]) (pl_schema p ++ [s])).
Proof using.
  intros [Ha Hp Hb Hv] Hm Hmp Hbok Hbv. split; cbn [pl_aggs pl_bindings pl_schema].
  - by apply Forall_app.
  - rewrite map_app. unfold arg_exprs. rewrite omap_app. by apply Forall_app.
  - apply Forall2_app; [|by constructor]. eapply Forall2_impl; [exact Hb|]. intros b' s' Hb'. rewrite map_app. by apply binding_ok_more.
  - intros rws k. rewrite !map_app. f_equal.
    + rewrite <- Hv. clear Hv. induction Hb as [|b' s' bs ss Hb' _ IH]; [done|]. cbn [map]. rewrite IH. f_equal.
      by eapply binding_value_more.
    + simpl. rewrite <- Hbv, map_app. done.
Qed.

Lemma add_aggregate_ok P specs p spec p' : plan_ok P specs p -> (forall e, sp_arg spec = Some e -> P e) ->
  add_aggregate spec p = Some p' -> plan_ok P (specs ++ [spec]) p'.
Proof using.
  intros Hp Harg. unfold add_aggregate.
  assert (Hlast : forall ia more, map fst (pl_aggs p ++ (ia, ia_nullable ia) :: more) !! length (pl_aggs p) = Some ia).
  { intros ia more. rewrite list_lookup_fmap, list_lookup_middle by done. done. }
  assert (Hnext : forall x y, map fst (pl_aggs p ++ [x; y]) !! Datatypes.S (length (pl_aggs p)) = Some (fst y) :> option InternalAgg).
  { intros x y. rewrite list_lookup_fmap, lookup_app_r by lia. by replace (_ - _)%nat with 1%nat by lia. }
  assert (Hdirect : forall ia, ia_wf ia -> (forall e, ia_arg ia = Some e -> P e) ->
    (forall rws k, state_of keys rws ia k = spec_value spec (group_of keys rws k)) ->
    plan_ok P (specs ++ [spec]) (add_direct p ia (ia_nullable ia))).
  { intros ia Hwf HP Hval. unfold add_direct. apply plan_extend; [done|by constructor| | |].
    - simpl. unfold arg_exprs. simpl. destruct (ia_arg ia) as [e|]; [|constructor]. constructor; [by apply HP|constructor].
    - simpl. exists ia. by rewrite Hlast.
    - intros rws k. simpl. rewrite Hlast. apply Hval. }
  unfold spec_value in Hdirect.
  destruct (sp_kind spec) eqn:Hk.
  - intros [= <-]. apply (Hdirect (mkIA I_COUNT_STAR None INT64 INT64)); [done|done|]. intros rws k. unfold state_of, agg_value. simpl.
    unfold zlen. by rewrite length_map.
  - destruct (sp_arg spec) as [e|]; [|done]. intros [= <-]. apply (Hdirect (count_of e)); [split; [by exists e|done]|naive_solver|done].
  - destruct (sp_arg spec) as [e|]; [|done]. cbn [mbind option_bind]. destruct (is_numeric (output_type e)) eqn:Hn; [|done].
    intros [= <-]. apply (Hdirect (sum_of e)); [split; [by exists e|done]|naive_solver|done].
  - destruct (sp_arg spec) as [e|] eqn:Hsp; [|done]. cbn [mbind option_bind]. destruct (is_numeric (output_type e)) eqn:Hn; [|done].
    intros [= <-]. apply plan_extend; [done| | | |].
    + constructor; [|constructor; [|constructor]]; (split; [|done]); [split; [by exists e|done]|split; [by exists e|done]].
    + unfold arg_exprs. simpl. constructor; [by apply Harg|constructor; [by apply Harg|constructor]].
    + split; [done|]. exists (sum_of e), (count_of e). split_and!; [apply (Hlast (sum_of e))|apply Hnext|done..].
    + intros rws k. cbn [binding_value]. rewrite (Hlast (sum_of e)), Hnext. unfold spec_value. by rewrite Hk, Hsp.
  - destruct (sp_arg spec) as [e|]; [|done]. cbn [mbind option_bind]. destruct (is_numeric (output_type e)) eqn:Hn; [|done].
    intros [= <-]. apply (Hdirect (min_of e)); [split; [by exists e|done]|naive_solver|done].
  - destruct (sp_arg spec) as [e|]; [|done]. cbn [mbind option_bind]. destruct (is_numeric (output_type e)) eqn:Hn; [|done].
    intros [= <-]. apply (Hdirect (max_of e)); [split; [by exists e|done]|naive_solver|done].
Qed.

Lemma plan_made P specs p : Forall (fun spec => forall e, sp_arg spec = Some e -> P e) specs ->
  each specs add_aggregate (mkPlan [] [] []) = Some p -> plan_ok P specs p.
Proof using.
  intros HP. assert (Hgen : forall done p0, plan_ok P done p0 -> each specs add_aggregate p0 = Some p -> plan_ok P (done ++ specs) p).
  { induction HP as [|spec specs Hs HP IH]; intros done0 p0 Hp0; cbn [each]; [intros [= ->]; by rewrite app_nil_r|].
    destruct (add_aggregate spec p0) as [p1|] eqn:Ha; [|done]. intros He.
    change (done0 ++ spec :: specs) with (done0 ++ [spec] ++ specs). rewrite app_assoc. eapply IH; [|exact He].
    by eapply add_aggregate_ok. }
  apply (Hgen []). by split.
Qed.
End plan.

(** ** The operator *)

Lemma keys_empty keys : Forall (fun e => is_numeric (output_type e) = true) keys ->
  Forall2 (col_good 0) (key_sig keys) (map (fun e => cv_empty (output_type e) true) keys).
Proof.
  induction 1 as [|e l He _ IH]; [constructor|]. constructor; [|exact IH].
  destruct (cv_empty_wf (output_type e) true) as (H1 & H2 & H3); [by destruct (output_type e)|]. by split.
Qed.

Lemma groups_new_ok `{Fpu} keys (aggs : list (InternalAgg * bool)) :
  Forall agg_nullable_ok aggs -> Forall (fun e => is_numeric (output_type e) = true) keys ->
  exists g, groups_new keys aggs = Some g /\
    groups_ok (map fst aggs) (key_sig keys) [] g (group_list (key_sig keys) []).
Proof.
  intros Ha Hnum. assert (Hwf : Forall ia_wf (map fst aggs)) by (apply Forall_map; eapply Forall_impl; [exact Ha|]; by intros a []).
  set (states := map (fun a => cv_empty (ia_state_type a.1) a.2) aggs).
  assert (Hst : states_hold (map fst aggs) [] states []).
  { split; [unfold states; by rewrite !length_map|]. intros a ia st Hia Hs. unfold states in Hs.
    rewrite list_lookup_fmap in Hia. rewrite list_lookup_fmap in Hs. destruct (aggs !! a) as [[ia' nl]|] eqn:Hai; [|done].
    injection Hia as <-. injection Hs as <-. destruct (Forall_lookup_1 _ _ _ _ Ha Hai) as [Hw Hnl]. cbn [fst snd] in *. subst nl.
    destruct (cv_empty_wf (ia_state_type ia') (ia_nullable ia')) as (H1 & H2 & H3);
      [pose proof (state_numeric ia' Hw); by destruct (ia_state_type ia')|]. by split. }
  destruct keys as [|e keys].
  - destruct (append_initial_ok (map fst aggs) Hwf [] states [] [] Hst) as (states' & Hi & Hst'); [apply not_elem_of_nil|].
    cbn [groups_new]. fold states. rewrite Hi. eexists. split; [done|]. split; [reflexivity| |exact Hst'|intros Hne; by destruct Hne].
    split; [constructor|]. intros [|g] k; [by intros [= <-]|done].
  - cbn [groups_new]. fold states. eexists. split; [done|]. split; [reflexivity| |exact Hst|].
    + split; [exact (keys_empty _ Hnum)|done].
    + intros _. exists 4. split; [done|]. split; [|done]. by apply (probing_empty group_taken ge_hash 4).
Qed.

(** The reference: one row per group, in the order of the groups' first rows; without group
    keys one row in any case. *)
Definition aggregate_ref `{Fpu} (keys : list Expression) (specs : list AggregateSpec) (rows : list row) : list row :=
  map (fun k => k ++ map (fun spec => spec_value spec (group_of keys rows k)) specs)
    (match keys with [] => [[]] | _ => distinct (map (key_of keys) rows) end).

Section operator.
Context {S : Type} `{Operator S} `{Fpu}.
Context (sg : signature) (fuel : nat).

(** The expressions that are evaluated on every chunk. *)
Definition exprs_of (a : HashAggregate S) : list Expression := ha_group_keys a ++ arg_exprs (ha_aggs a).

(** Counts and sums of the groups stay within 64 bits. *)
Definition no_overflow (a : HashAggregate S) (rows : list row) : Prop :=
  groups_fit (ha_aggs a) (map (row_input (ha_group_keys a) (ha_aggs a)) rows).

Lemma seen_rows_all keys aggs cs fin rss : keyed_rows (keys ++ arg_exprs aggs) cs fin = Ok rss -> seen_rows keys aggs cs = rows_of cs.
Proof using.
  revert rss. induction cs as [|c cs IH]; intros rss; cbn [keyed_rows seen_rows]; [done|].
  destruct (mapM _ (chunk_rows c)) as [rs|]; [|done]. destruct (keyed_rows _ cs fin) as [l|]; [|done].
  intros _. simpl. f_equal. by eapply IH.
Qed.

Abbreviation emitting child keys aggs bindings schema g cur :=
  (mkHashAggregate child keys aggs bindings (key_sig keys ++ schema) g true true cur).

Lemma aggregate_emit (child : S) keys aggs bindings schema g rws ks :
  Forall ia_wf aggs -> Forall (fun e => is_numeric (output_type e) = true) keys ->
  Forall2 (binding_ok aggs) bindings schema ->
  groups_ok aggs (key_sig keys) (map (row_input keys aggs) rws) g ks ->
  forall m cursor, 0 <= cursor -> zlen ks - cursor <= Z.of_nat m ->
  exists cs', runs fuel (emitting child keys aggs bindings schema g cursor) cs' None /\
    Forall (chunk_good (key_sig keys ++ schema)) cs' /\
    rows_of cs' = map (out_row keys aggs rws bindings) (drop (Z.to_nat cursor) ks).
Proof using.
  intros Ha Hn Hb Hg. induction m as [|m IH]; intros cursor Hc Hm.
  - exists []. split_and!; [|done|].
    + eapply runs_end. simpl. unfold hash_aggregate_next. simpl. rewrite (go_num _ _ _ _ _ Hg).
      by rewrite (proj2 (Z.leb_le _ _)) by lia.
    + rewrite drop_ge; [done|]. unfold zlen in Hm. lia.
  - destruct (Z.leb_spec (zlen ks) cursor) as [Hle|Hgt]; [apply IH; lia|].
    set (n := Z.min CHUNK_SIZE (zlen ks - cursor)). assert (CHUNK_SIZE = 1024) by done.
    destruct (emit_groups_ok keys aggs rws Ha Hn g ks bindings schema cursor n Hg Hb) as (c & Hc1 & Hc2 & Hc3); [unfold n; lia..|].
    destruct (IH (cursor + n)) as (cs' & Hr & Hgd & Hrows); [unfold n; lia..|].
    exists (c :: cs'). split_and!; [|by constructor|].
    + eapply runs_chunk; [|exact Hr]. simpl. unfold hash_aggregate_next. cbn [ha_opened ha_aggregated ha_groups ha_emit_cursor mbind option_bind].
      rewrite (go_num _ _ _ _ _ Hg), (proj2 (Z.leb_gt _ _)) by lia. fold n. cbn [ha_bindings ha_schema]. by rewrite Hc1.
    + simpl. fold (rows_of cs'). rewrite Hrows, Hc3, <- map_app. f_equal. unfold slice.
      rewrite <- (take_drop (Z.to_nat n) (drop (Z.to_nat cursor) ks)) at 2. f_equal. rewrite drop_drop. f_equal. unfold n. lia.
Qed.

(** C24. [HashAggregate] yields one row per different key, in the order of the first rows with
    it, with the COUNT, SUM, AVG, MIN and MAX of the rows with that key (without group keys one
    row, also for no input), whatever the chunks of the child and the collisions of hashes; the
    searches and the growth of the table end for up to 2^29 rows; no SUM or COUNT overflows; an error of the child or of
    an expression is passed on and no row is yielded. *)
Theorem hash_aggregate_correct child cs fin keys specs op :
  (length cs < fuel)%nat -> executes fuel child cs fin -> hash_aggregate_new child keys specs = Some op ->
  Forall (well_typed sg) keys -> Forall (fun spec => forall e, sp_arg spec = Some e -> well_typed sg e) specs ->
  Forall (drain_good sg (exprs_of op)) cs ->
  zlen (seen_rows keys (ha_aggs op) cs) <= 2 ^ 29 -> no_overflow op (seen_rows keys (ha_aggs op) cs) ->
  match keyed_rows (exprs_of op) cs fin with
  | Err m => executes fuel op [] (Some m)
  | Ok _ => exists cs', executes fuel op cs' None /\ Forall (chunk_good (ha_schema op)) cs' /\
      rows_of cs' = aggregate_ref keys specs (rows_of cs)
  end.
Proof using.
  intros Hfuel (s' & Hopen & Hruns) Hnew Hk Hsp Hok Hmax Hfit.
  unfold hash_aggregate_new in Hnew. destruct specs as [|spec specs']; [done|]. set (specs := spec :: specs') in *.
  destruct (forallb _ keys) eqn:Hnum; [|done].
  assert (Hnum' : Forall (fun e => is_numeric (output_type e) = true) keys).
  { apply Forall_forall. intros e He%list_elem_of_In. rewrite forallb_forall in Hnum. auto. }
  destruct (each specs add_aggregate (mkPlan [] [] [])) as [p|] eqn:Hplan; [|done]. cbn [mbind option_bind] in Hnew.
  destruct (plan_made keys _ specs p Hsp Hplan) as [Ha Hp Hb Hv].
  destruct (groups_new_ok keys (pl_aggs p) Ha Hnum') as (g & Hg & Hgok). rewrite Hg in Hnew. injection Hnew as <-.
  unfold exprs_of, no_overflow in *. cbn [ha_group_keys ha_aggs ha_schema] in *. fold (key_sig keys).
  set (aggs := map fst (pl_aggs p)) in *.
  assert (Hwf : Forall ia_wf aggs) by (apply Forall_map; eapply Forall_impl; [exact Ha|]; by intros a []).
  assert (Hitems : Forall (well_typed sg) (keys ++ arg_exprs aggs)) by (by apply Forall_app).
  destruct (aggregate_loop_ok sg keys aggs fuel Hwf Hnum' Hitems s' cs fin Hruns Hok fuel [] g Hfuel Hgok Hmax Hfit)
    as (r & g' & child' & Hloop & Hr). cbn [app] in Hr.
  set (op := mkHashAggregate child keys aggs (pl_bindings p) (key_sig keys ++ pl_schema p) g false false 0).
  set (op' := mkHashAggregate s' keys aggs (pl_bindings p) (key_sig keys ++ pl_schema p) g true false 0).
  assert (Hop : op_open op = Some (Ok tt, op')) by (simpl; unfold hash_aggregate_open; simpl; by rewrite Hopen).
  assert (Hnext : op_next fuel op' = hash_aggregate_next fuel op') by done.
  unfold hash_aggregate_next, aggregate_all_ in Hnext.
  cbn [ha_opened ha_aggregated ha_groups ha_emit_cursor ha_group_keys ha_aggs ha_child op'] in Hnext. rewrite Hloop in Hnext.
  destruct r as [[]|m], (keyed_rows (keys ++ arg_exprs aggs) cs fin) as [rss|m'] eqn:Ek; try done.
  - rewrite (seen_rows_all _ _ _ _ _ Ek) in *.
    destruct (aggregate_emit (op_close child') keys aggs (pl_bindings p) (pl_schema p) g' (rows_of cs) _ Hwf Hnum' Hb Hr
      (length (group_list (key_sig keys) (map (row_input keys aggs) (rows_of cs)))) 0) as (cs' & Hcs & Hgd & Hrows); [done|unfold zlen; lia|].
    exists cs'. split_and!; [|done|].
    + exists op'. split; [done|]. by eapply runs_next_eq; [|exact Hcs].
    + rewrite Hrows. simpl drop. unfold aggregate_ref, out_row. rewrite (map_ext _ _ (fun k => f_equal (app k) (Hv (rows_of cs) k))).
      f_equal. unfold group_list, key_sig. rewrite map_map. by destruct keys.
  - subst m'. exists op'. split; [done|]. by eapply runs_err.
Qed.
End operator.

(** ** Sums that cannot overflow *)

Lemma zsum_bound l B : 0 <= B -> Forall (fun x => - B <= x <= B) l -> - (B * zlen l) <= zsum l <= B * zlen l.
Proof.
  intros HB. induction l as [|x l IH] using rev_ind; [intros _; unfold zlen, zsum; simpl; lia|]. intros [Hl Hx]%Forall_app. apply Forall_cons in Hx as [Hx _].
  rewrite zsum_snoc, zlen_app. specialize (IH Hl). change (zlen [x]) with 1. rewrite Z.mul_add_distr_l. lia.
Qed.

(** Fewer than 2^32 values of 32 bits fit a sum of 64 bits. *)
Lemma small_sums_fit `{Fpu} aggs rows : zlen rows < 2 ^ 32 ->
  Forall (fun x : row * list Value => forall a, - 2 ^ 31 <= num (nth a x.2 VNull) < 2 ^ 31) rows -> groups_fit aggs rows.
Proof.
  intros Hlen Hrows a ia k _. unfold group_args. set (grp := List.filter _ rows).
  assert (Hgl : (length grp <= length rows)%nat) by apply length_filter.
  assert (Hg : Forall (fun x : row * list Value => forall a, - 2 ^ 31 <= num (nth a x.2 VNull) < 2 ^ 31) grp).
  { apply Forall_forall. intros x Hx. apply list_elem_of_In, List.filter_In in Hx as [Hx%list_elem_of_In _].
    rewrite Forall_forall in Hrows. by apply Hrows. }
  change (2 ^ 32) with 4294967296 in *. change (2 ^ 31) with 2147483648 in *.
  split; [unfold zlen in *; rewrite length_map; change (2 ^ 63) with 9223372036854775808; lia|]. intros _ _ n.
  set (vs := take n (nonnull (map _ grp))).
  assert (Hvl : zlen vs <= zlen rows).
  { unfold zlen, vs. rewrite length_take. pose proof (length_filter (fun v => negb (is_null v)) (map (fun x : row * list Value => nth a x.2 VNull) grp)) as Hf.
    rewrite length_map in Hf. unfold nonnull. lia. }
  assert (Hvs : Forall (fun x => - 2147483648 <= x <= 2147483648) (map num vs)).
  { apply Forall_map. unfold vs. apply Forall_take. apply Forall_forall. intros v Hv.
    apply list_elem_of_In, List.filter_In in Hv as [Hv _]. apply in_map_iff in Hv as (x & <- & Hx%list_elem_of_In).
    rewrite Forall_forall in Hg. specialize (Hg x Hx a). lia. }
  pose proof (zsum_bound (map num vs) 2147483648 ltac:(lia) Hvs) as Hb. pose proof (zlen_nonneg vs).
  assert (Hlm : zlen (map num vs) = zlen vs) by (unfold zlen; by rewrite length_map). rewrite Hlm in Hb.
  unfold in_s. change (2 ^ (64 - 1)) with 9223372036854775808. nia.
Qed.

Definition sample_specs : list AggregateSpec :=
  [mkSpec COUNT_STAR None; mkSpec SUM (Some (ColumnRef 0 INT32)); mkSpec AVG (Some (ColumnRef 0 INT32));
   mkSpec MAX (Some (ColumnRef 0 INT32))].

(** Grouped by the only column; 7.0 is the bit pattern of the average. *)
Lemma hash_aggregate_correct_witness :
  exists op cs', hash_aggregate_new [sample_chunk; sample_chunk] [ColumnRef 0 INT32] sample_specs = Some op /\
    executes 3 op cs' None /\
    rows_of cs' = [[VNull; VI64 2; VNull; VNull; VNull]; [VI32 7; VI64 2; VI64 14; VF64 0x401C000000000000; VI32 7]].
Proof.
  assert (Hcol : well_typed sample_sig (ColumnRef 0 INT32)) by (split; [done|]; simpl; eauto).
  destruct (hash_aggregate_new [sample_chunk; sample_chunk] [ColumnRef 0 INT32] sample_specs) as [op|] eqn:Hop; [|done].
  pose proof (hash_aggregate_correct sample_sig 3 [sample_chunk; sample_chunk] [sample_chunk; sample_chunk] None
    [ColumnRef 0 INT32] sample_specs op ltac:(simpl; lia) (list_source_executes _ _) Hop) as Hs.
  assert (Hparts : ha_group_keys op = [ColumnRef 0 INT32] /\
    ha_aggs op = [mkIA I_COUNT_STAR None INT64 INT64; sum_of (ColumnRef 0 INT32); sum_of (ColumnRef 0 INT32);
      count_of (ColumnRef 0 INT32); max_of (ColumnRef 0 INT32)]) by (by injection Hop as <-).
  destruct Hparts as [Hk Ha]. unfold exprs_of, no_overflow in Hs. rewrite Hk, Ha in Hs.
  assert (Hseen : seen_rows [ColumnRef 0 INT32] (ha_aggs op) [sample_chunk; sample_chunk] = [[VNull]; [VI32 7]; [VNull]; [VI32 7]])
    by (rewrite Ha; vm_compute; reflexivity).
  rewrite Ha in Hseen. rewrite Hseen in Hs.
  assert (Hkeyed : exists rss, keyed_rows ([ColumnRef 0 INT32] ++ arg_exprs [mkIA I_COUNT_STAR None INT64 INT64; sum_of (ColumnRef 0 INT32);
      sum_of (ColumnRef 0 INT32); count_of (ColumnRef 0 INT32); max_of (ColumnRef 0 INT32)]) [sample_chunk; sample_chunk] None = Ok rss)
    by (eexists; vm_compute; reflexivity).
  destruct Hkeyed as [rss Hkeyed]. rewrite Hkeyed in Hs.
  destruct Hs as (cs' & He & _ & Hr).
  - by constructor.
  - apply Forall_forall. intros spec Hsp e Hse. unfold sample_specs in Hsp.
    repeat (apply elem_of_cons in Hsp as [->|Hsp]; [simpl in Hse; by try injection Hse as <-|]). by apply not_elem_of_nil in Hsp.
  - assert (Hg : drain_good sample_sig ([ColumnRef 0 INT32] ++ arg_exprs [mkIA I_COUNT_STAR None INT64 INT64; sum_of (ColumnRef 0 INT32);
      sum_of (ColumnRef 0 INT32); count_of (ColumnRef 0 INT32); max_of (ColumnRef 0 INT32)]) sample_chunk).
    { split; [apply sample_chunk_wf|]. unfold all_defined, defined_on. cbn [arg_exprs omap list_omap ia_arg sum_of count_of max_of app].
      do 5 (constructor; [do 2 (constructor; [vm_compute; discriminate|]); constructor|]). constructor. }
    constructor; [exact Hg|]. constructor; [exact Hg|constructor].
  - vm_compute. discriminate.
  - apply small_sums_fit; [vm_compute; reflexivity|].
    do 4 (constructor; [intros a; do 6 (destruct a as [|a]; [vm_compute; split; [discriminate|reflexivity]|]);
      simpl; destruct a; vm_compute; (split; [discriminate|reflexivity])|]). constructor.
  - exists op, cs'. split; [done|]. split; [exact He|]. rewrite Hr. vm_compute. reflexivity.
Defined.
