(* ===== verification/Lexer.v ===== *)
(** * Lexer

    [Lexer] (src/src/parser/lexer.h, lexer.cpp) and the tokens (token.h, source_loc.h).
    The source is a list of characters, [pos_] a position in it; each operation takes the
    position and returns the new one.  The loops carry as fuel the number of characters
    left, which each round decreases: [scan] and [skip_trivia_loop] stop at the end of
    the source when their fuel is spent, and [tokenize] answers [None] only when its own
    is, which [tokenize_total] excludes.  The character classes are those of the C locale. *)

From S2P Require Import Prelude.
From Stdlib Require Import Ascii.

Module Tok.
Inductive TokenKind : Type :=
| INT_LITERAL | DOUBLE_LITERAL | STRING_LITERAL | IDENTIFIER
| LPAREN | RPAREN | COMMA | SEMICOLON | DOT | STAR
| PLUS | MINUS | SLASH
| LT | LE | EQ | NE | GE | GT
| KW_SELECT | KW_FROM | KW_WHERE | KW_GROUP | KW_BY | KW_HAVING | KW_ORDER | KW_ASC
| KW_DESC | KW_LIMIT | KW_OFFSET | KW_JOIN | KW_INNER | KW_ON | KW_AS | KW_AND | KW_OR
| KW_NOT | KW_IS | KW_NULL | KW_CREATE | KW_TABLE | KW_INSERT | KW_INTO | KW_VALUES
| KW_INT | KW_INTEGER | KW_BIGINT | KW_DOUBLE | KW_VARCHAR | KW_NVARCHAR | KW_DROP | KW_IF
| KW_EXISTS | KW_DELETE | KW_UPDATE | KW_SET | KW_BOOL | KW_BOOLEAN | KW_TRUE | KW_FALSE
| KW_DATE | KW_TIMESTAMP | KW_INDEX | KW_UNIQUE | KW_SHOW | KW_INDEXES | KW_PRIMARY
| KW_KEY | KW_DEFAULT | KW_CONSTRAINT | KW_CONSTRAINTS | KW_VACUUM | KW_PARTITION
| KW_RANGE | KW_LESS | KW_THAN | KW_MAXVALUE | KW_ALTER | KW_ADD
| END_OF_FILE.
End Tok.

#[global] Instance token_kind_eq_dec : EqDecision Tok.TokenKind.
Proof. solve_decision. Defined.

Record SourceLoc : Type := mkLoc { offset : Z; loc_length : Z }.

Record Token : Type := mkToken { kind : Tok.TokenKind; loc : SourceLoc; text : string }.

Definition token_kind_name (k : Tok.TokenKind) : string :=
  match k with
  | Tok.INT_LITERAL => "INT_LITERAL" | Tok.DOUBLE_LITERAL => "DOUBLE_LITERAL"
  | Tok.STRING_LITERAL => "STRING_LITERAL" | Tok.IDENTIFIER => "IDENTIFIER"
  | Tok.LPAREN => "(" | Tok.RPAREN => ")" | Tok.COMMA => "," | Tok.SEMICOLON => ";"
  | Tok.DOT => "." | Tok.STAR => "*" | Tok.PLUS => "+" | Tok.MINUS => "-" | Tok.SLASH => "/"
  | Tok.LT => "<" | Tok.LE => "<=" | Tok.EQ => "=" | Tok.NE => "<>" | Tok.GE => ">="
  | Tok.GT => ">" | Tok.KW_SELECT => "SELECT" | Tok.KW_FROM => "FROM"
  | Tok.KW_WHERE => "WHERE" | Tok.KW_GROUP => "GROUP" | Tok.KW_BY => "BY"
  | Tok.KW_HAVING => "HAVING" | Tok.KW_ORDER => "ORDER" | Tok.KW_ASC => "ASC"
  | Tok.KW_DESC => "DESC" | Tok.KW_LIMIT => "LIMIT" | Tok.KW_OFFSET => "OFFSET"
  | Tok.KW_JOIN => "JOIN" | Tok.KW_INNER => "INNER" | Tok.KW_ON => "ON" | Tok.KW_AS => "AS"
  | Tok.KW_AND => "AND" | Tok.KW_OR => "OR" | Tok.KW_NOT => "NOT" | Tok.KW_IS => "IS"
  | Tok.KW_NULL => "NULL" | Tok.KW_CREATE => "CREATE" | Tok.KW_TABLE => "TABLE"
  | Tok.KW_INSERT => "INSERT" | Tok.KW_INTO => "INTO" | Tok.KW_VALUES => "VALUES"
  | Tok.KW_INT => "INT" | Tok.KW_INTEGER => "INTEGER" | Tok.KW_BIGINT => "BIGINT"
  | Tok.KW_DOUBLE => "DOUBLE" | Tok.KW_VARCHAR => "VARCHAR" | Tok.KW_NVARCHAR => "NVARCHAR"
  | Tok.KW_DROP => "DROP" | Tok.KW_IF => "IF" | Tok.KW_EXISTS => "EXISTS"
  | Tok.KW_DELETE => "DELETE" | Tok.KW_UPDATE => "UPDATE" | Tok.KW_SET => "SET"
  | Tok.KW_BOOL => "BOOL" | Tok.KW_BOOLEAN => "BOOLEAN" | Tok.KW_TRUE => "TRUE"
  | Tok.KW_FALSE => "FALSE" | Tok.KW_DATE => "DATE" | Tok.KW_TIMESTAMP => "TIMESTAMP"
  | Tok.KW_INDEX => "INDEX" | Tok.KW_UNIQUE => "UNIQUE" | Tok.KW_SHOW => "SHOW"
  | Tok.KW_INDEXES => "INDEXES" | Tok.KW_PRIMARY => "PRIMARY" | Tok.KW_KEY => "KEY"
  | Tok.KW_DEFAULT => "DEFAULT" | Tok.KW_CONSTRAINT => "CONSTRAINT"
  | Tok.KW_CONSTRAINTS => "CONSTRAINTS" | Tok.KW_VACUUM => "VACUUM"
  | Tok.KW_PARTITION => "PARTITION" | Tok.KW_RANGE => "RANGE" | Tok.KW_LESS => "LESS"
  | Tok.KW_THAN => "THAN" | Tok.KW_MAXVALUE => "MAXVALUE" | Tok.KW_ALTER => "ALTER"
  | Tok.KW_ADD => "ADD" | Tok.END_OF_FILE => "EOF"
  end.

Definition keyword_table : list (string * Tok.TokenKind) :=
  [("select", Tok.KW_SELECT); ("from", Tok.KW_FROM); ("where", Tok.KW_WHERE);
   ("group", Tok.KW_GROUP); ("by", Tok.KW_BY); ("having", Tok.KW_HAVING);
   ("order", Tok.KW_ORDER); ("asc", Tok.KW_ASC); ("desc", Tok.KW_DESC);
   ("limit", Tok.KW_LIMIT); ("offset", Tok.KW_OFFSET); ("join", Tok.KW_JOIN);
   ("inner", Tok.KW_INNER); ("on", Tok.KW_ON); ("as", Tok.KW_AS); ("and", Tok.KW_AND);
   ("or", Tok.KW_OR); ("not", Tok.KW_NOT); ("is", Tok.KW_IS); ("null", Tok.KW_NULL);
   ("create", Tok.KW_CREATE); ("table", Tok.KW_TABLE); ("insert", Tok.KW_INSERT);
   ("into", Tok.KW_INTO); ("values", Tok.KW_VALUES); ("int", Tok.KW_INT);
   ("integer", Tok.KW_INTEGER); ("bigint", Tok.KW_BIGINT); ("double", Tok.KW_DOUBLE);
   ("varchar", Tok.KW_VARCHAR); ("nvarchar", Tok.KW_NVARCHAR); ("drop", Tok.KW_DROP);
   ("if", Tok.KW_IF); ("exists", Tok.KW_EXISTS); ("delete", Tok.KW_DELETE);
   ("update", Tok.KW_UPDATE); ("set", Tok.KW_SET); ("bool", Tok.KW_BOOL);
   ("boolean", Tok.KW_BOOLEAN); ("true", Tok.KW_TRUE); ("false", Tok.KW_FALSE);
   ("date", Tok.KW_DATE); ("timestamp", Tok.KW_TIMESTAMP); ("index", Tok.KW_INDEX);
   ("unique", Tok.KW_UNIQUE); ("show", Tok.KW_SHOW); ("indexes", Tok.KW_INDEXES);
   ("primary", Tok.KW_PRIMARY); ("key", Tok.KW_KEY); ("default", Tok.KW_DEFAULT);
   ("constraint", Tok.KW_CONSTRAINT); ("constraints", Tok.KW_CONSTRAINTS);
   ("vacuum", Tok.KW_VACUUM); ("partition", Tok.KW_PARTITION); ("range", Tok.KW_RANGE);
   ("less", Tok.KW_LESS); ("than", Tok.KW_THAN); ("maxvalue", Tok.KW_MAXVALUE);
   ("alter", Tok.KW_ALTER); ("add", Tok.KW_ADD)].

(** [table.find(text)] *)
Definition keyword (s : string) : option Tok.TokenKind :=
  snd <$> List.find (fun kv => String.eqb (fst kv) s) keyword_table.

(** ** Characters *)

Definition code (c : ascii) : nat := nat_of_ascii c.
Definition in_range (lo hi c : ascii) : bool := ((code lo <=? code c) && (code c <=? code hi))%nat.
Definition isdigit : ascii -> bool := in_range "0" "9".
Definition isupper : ascii -> bool := in_range "A" "Z".
Definition islower : ascii -> bool := in_range "a" "z".
Definition isalpha (c : ascii) : bool := isupper c || islower c.
Definition isalnum (c : ascii) : bool := isalpha c || isdigit c.
Definition tolower (c : ascii) : ascii := if isupper c then ascii_of_nat (code c + 32) else c.

Definition NUL : ascii := "000".
Definition TAB : ascii := "009".
Definition LF : ascii := "010".
Definition CR : ascii := "013".
Definition QUOTE : ascii := "039".

Definition is_char (a c : ascii) : bool := Ascii.eqb c a.
Definition is_space (c : ascii) : bool :=
  is_char " " c || is_char TAB c || is_char LF c || is_char CR c.
Definition ident_char (c : ascii) : bool := isalnum c || is_char "_" c.

#[global] Arguments is_char : simpl never.
#[global] Arguments is_space : simpl never.
#[global] Arguments isdigit : simpl never.
#[global] Arguments ident_char : simpl never.

Definition string_of (cs : list ascii) : string := String.string_of_list_ascii cs.
Definition chars (s : string) : list ascii := String.list_ascii_of_string s.

Section Lexer.
Context (source_ : list ascii).

Definition peek_ (pos_ ahead : nat) : ascii :=
  match source_ !! (pos_ + ahead)%nat with Some c => c | None => NUL end.

Definition at_end_ (pos_ : nat) : bool := (length source_ <=? pos_)%nat.

Definition advance_ (pos_ : nat) : nat :=
  if (pos_ <? length source_)%nat then S pos_ else pos_.

(** [source_[pos_]], read where [at_end_] is false *)
Definition cur (pos_ : nat) : ascii := peek_ pos_ 0.

(** [while (!at_end_() && cond) advance_();] *)
Fixpoint scan (fuel : nat) (cond : nat -> bool) (pos_ : nat) : nat :=
  match fuel with
  | O => pos_
  | S f => if negb (at_end_ pos_) && cond pos_ then scan f cond (advance_ pos_) else pos_
  end.

Definition advance_while (cond : nat -> bool) (pos_ : nat) : nat :=
  scan (length source_ - pos_) cond pos_.

(** One round of the loop of [skip_trivia_]: the position it continues from, [None] for
    [break]. *)
Definition skip_one (pos_ : nat) : option nat :=
  let c := cur pos_ in
  if is_space c then Some (advance_ pos_)
  else if is_char "-" c && is_char "-" (peek_ pos_ 1) then
    Some (advance_while (fun p => negb (is_char LF (cur p))) pos_)
  else if is_char "/" c && is_char "*" (peek_ pos_ 1) then
    let p := advance_while (fun p => negb (is_char "*" (cur p) && is_char "/" (peek_ p 1)))
               (advance_ (advance_ pos_)) in
    Some (if negb (at_end_ p) then advance_ (advance_ p) else p)
  else None.

Fixpoint skip_trivia_loop (fuel : nat) (pos_ : nat) : nat :=
  match fuel with
  | O => pos_
  | S f =>
      if negb (at_end_ pos_) then
        match skip_one pos_ with
        | Some p => skip_trivia_loop f p
        | None => pos_
        end
      else pos_
  end.

Definition skip_trivia_ (pos_ : nat) : nat := skip_trivia_loop (length source_ - pos_) pos_.

Definition u32 (p : nat) : Z := wrap 32 (Z.of_nat p).

(** The [SourceLoc{start, static_cast<u32>(pos_) - start}] of a token. *)
Definition span (start pos_ : nat) : SourceLoc := mkLoc (u32 start) (wrap 32 (u32 pos_ - u32 start)).

(** [source_.substr(start, pos_ - start)] *)
Definition substr (start pos_ : nat) : list ascii := take (pos_ - start) (drop start source_).

Definition error_ {A} (message : string) (start : Z) : result A :=
  Err ("lex error at offset " ++ pretty start ++ ": " ++ message).

Definition lex_ident_or_keyword_ (start : nat) : result (Token * nat) :=
  let pos_ := advance_while (fun p => ident_char (cur p)) start in
  let text := string_of (map tolower (substr start pos_)) in
  Ok (match keyword text with
      | Some k => mkToken k (span start pos_) ""
      | None => mkToken Tok.IDENTIFIER (span start pos_) text
      end, pos_).

Definition digits (pos_ : nat) : nat := advance_while (fun p => isdigit (cur p)) pos_.

(** The three parts of [lex_number_]: the fraction, the exponent and the token. *)
Definition fraction_part (pos_ : nat) : bool * nat :=
  if negb (at_end_ pos_) && is_char "." (cur pos_) && isdigit (peek_ pos_ 1)
  then (true, digits (advance_ pos_)) else (false, pos_).

Definition exponent_part (start : nat) (st : bool * nat) : result (bool * nat) :=
  let '(is_double, pos_) := st in
  if negb (at_end_ pos_) && (is_char "e" (cur pos_) || is_char "E" (cur pos_)) then
    let pos_ := advance_ pos_ in
    let pos_ := if negb (at_end_ pos_) && (is_char "+" (cur pos_) || is_char "-" (cur pos_))
                then advance_ pos_ else pos_ in
    if at_end_ pos_ || negb (isdigit (cur pos_))
    then error_ "expected digit after exponent" (u32 start)
    else Ok (true, digits pos_)
  else Ok (is_double, pos_).

Definition lex_number_ (start : nat) : result (Token * nat) :=
  let? r := exponent_part start (fraction_part (digits start)) in
  let '(is_double, pos_) := r in
  let loc := span start pos_ in
  Ok (mkToken (if is_double then Tok.DOUBLE_LITERAL else Tok.INT_LITERAL) loc
        (string_of (take (Z.to_nat (loc_length loc)) (drop (Z.to_nat (u32 start)) source_))), pos_).

(** The loop of [lex_string_] after the opening quote; [None] at the end of the source. *)
Fixpoint string_loop (fuel : nat) (pos_ : nat) (text : list ascii) : option (list ascii * nat) :=
  match fuel with
  | O => None
  | S f =>
      if at_end_ pos_ then None
      else
        let c := cur pos_ in
        if is_char QUOTE c then
          let pos_ := advance_ pos_ in
          if negb (at_end_ pos_) && is_char QUOTE (cur pos_)
          then string_loop f (advance_ pos_) (text ++ [QUOTE])
          else Some (text, pos_)
        else string_loop f (advance_ pos_) (text ++ [c])
  end.

Definition lex_string_ (start : nat) : result (Token * nat) :=
  match string_loop (length source_ - start) (advance_ start) [] with
  | None => error_ "unterminated string literal" (u32 start)
  | Some (text, pos_) => Ok (mkToken Tok.STRING_LITERAL (span start pos_) (string_of text), pos_)
  end.

Definition one (start : nat) (k : Tok.TokenKind) : result (Token * nat) :=
  Ok (mkToken k (mkLoc (u32 start) 1) "", advance_ start).
Definition two (start : nat) (k : Tok.TokenKind) : result (Token * nat) :=
  Ok (mkToken k (mkLoc (u32 start) 2) "", advance_ (advance_ start)).

Definition unexpected (start : nat) : result (Token * nat) :=
  error_ ("unexpected character '" ++ String.String (cur start) "'") (u32 start).

Definition lex_symbol_ (start : nat) : result (Token * nat) :=
  match cur start with
  | "("%char => one start Tok.LPAREN
  | ")"%char => one start Tok.RPAREN
  | ","%char => one start Tok.COMMA
  | ";"%char => one start Tok.SEMICOLON
  | "."%char => one start Tok.DOT
  | "*"%char => one start Tok.STAR
  | "+"%char => one start Tok.PLUS
  | "-"%char => one start Tok.MINUS
  | "/"%char => one start Tok.SLASH
  | "="%char => one start Tok.EQ
  | "<"%char =>
      if is_char "=" (peek_ start 1) then two start Tok.LE
      else if is_char ">" (peek_ start 1) then two start Tok.NE
      else one start Tok.LT
  | ">"%char => if is_char "=" (peek_ start 1) then two start Tok.GE else one start Tok.GT
  | "!"%char => if is_char "=" (peek_ start 1) then two start Tok.NE else unexpected start
  | _ => unexpected start
  end.

Definition next_token_ (pos_ : nat) : result (Token * nat) :=
  let c := cur pos_ in
  if isalpha c || is_char "_" c then lex_ident_or_keyword_ pos_
  else if isdigit c then lex_number_ pos_
  else if is_char QUOTE c then lex_string_ pos_
  else lex_symbol_ pos_.

Definition eof_token : Token := mkToken Tok.END_OF_FILE (mkLoc (u32 (length source_)) 0) "".

Fixpoint tokenize_loop (fuel : nat) (pos_ : nat) (out : list Token) : option (result (list Token)) :=
  match fuel with
  | O => None
  | S f =>
      let pos_ := skip_trivia_ pos_ in
      if at_end_ pos_ then Some (Ok (out ++ [eof_token]))
      else
        match next_token_ pos_ with
        | Err m => Some (Err m)
        | Ok (t, pos_) => tokenize_loop f pos_ (out ++ [t])
        end
  end.

Definition tokenize : option (result (list Token)) := tokenize_loop (S (length source_)) 0 [].
End Lexer.

