(* ===== verification/LexerSpec.v ===== *)
(** * The lexical grammar

    What the lexer accepts, as a grammar on the characters of the source: [trivia] is
    white space and comments, [lexeme l r k t] says that the characters [l], when [r]
    follows them, are one token of kind [k] and text [t], and [lexed] strings them together.  Every
    lexeme is the longest one and starts no comment: its rule says what [r] may not start
    with. *)

From Stdlib Require Import Ascii.
From S2P Require Import Prelude Lexer.

Definition head_is (p : ascii -> bool) (l : list ascii) : bool :=
  match l with c :: _ => p c | [] => false end.

Definition all (p : ascii -> bool) (l : list ascii) : Prop := Forall (fun c => p c = true) l.

(** No [*/] inside. *)
Definition no_close (body : list ascii) : Prop :=
  forall l r, body <> l ++ "*"%char :: "/"%char :: r.

(** [trivia last w]: white space and comments; with [last] a comment may also be ended by
    the end of the source. *)
Inductive trivia (last : bool) : list ascii -> Prop :=
| tr_nil : trivia last []
| tr_space c w : is_space c = true -> trivia last w -> trivia last (c :: w)
| tr_line body w :
    all (fun c => negb (is_char LF c)) body -> trivia last w ->
    trivia last ("-"%char :: "-"%char :: body ++ LF :: w)
| tr_line_end body :
    last = true -> all (fun c => negb (is_char LF c)) body ->
    trivia last ("-"%char :: "-"%char :: body)
| tr_block body w :
    no_close body -> trivia last w ->
    trivia last ("/"%char :: "*"%char :: body ++ "*"%char :: "/"%char :: w)
| tr_block_end body :
    last = true -> no_close body -> trivia last ("/"%char :: "*"%char :: body).

Definition lower (l : list ascii) : string := string_of (map tolower l).

Definition escape (body : list ascii) : list ascii :=
  flat_map (fun c => if is_char QUOTE c then [QUOTE; QUOTE] else [c]) body.

Definition fraction (fp : list ascii) : Prop :=
  exists d ds, fp = "."%char :: d :: ds /\ all isdigit (d :: ds).

Definition is_e (c : ascii) : bool := is_char "e" c || is_char "E" c.
Definition is_sign (c : ascii) : bool := is_char "+" c || is_char "-" c.

Definition exponent (ep : list ascii) : Prop :=
  exists e sg d ds, ep = e :: sg ++ d :: ds /\ is_e e = true /\
    (sg = [] \/ exists c, sg = [c] /\ is_sign c = true) /\ all isdigit (d :: ds).

Definition starts_fraction (r : list ascii) : bool :=
  match r with c :: d :: _ => is_char "." c && isdigit d | _ => false end.

Definition is_nil {A} (l : list A) : bool := match l with [] => true | _ => false end.

(** The symbols, with the characters that would make them a longer one. *)
Definition symbols : list (list ascii * (ascii -> bool) * Tok.TokenKind) :=
  let never := fun _ => false in
  [(["("], never, Tok.LPAREN); ([")"], never, Tok.RPAREN); ([","], never, Tok.COMMA);
   ([";"], never, Tok.SEMICOLON); (["."], never, Tok.DOT); (["*"], never, Tok.STAR);
   (["+"], never, Tok.PLUS); (["-"], is_char "-", Tok.MINUS);
   (["/"], is_char "*", Tok.SLASH);
   (["="], never, Tok.EQ);
   (["<"; "="], never, Tok.LE); (["<"; ">"], never, Tok.NE);
   (["<"], fun c => is_char "=" c || is_char ">" c, Tok.LT);
   ([">"; "="], never, Tok.GE); ([">"], is_char "=", Tok.GT);
   (["!"; "="], never, Tok.NE)]%char.

Inductive lexeme : list ascii -> list ascii -> Tok.TokenKind -> string -> Prop :=
| lx_keyword c l r k :
    isalpha c || is_char "_" c = true -> all ident_char l -> head_is ident_char r = false ->
    keyword (lower (c :: l)) = Some k -> lexeme (c :: l) r k ""
| lx_identifier c l r :
    isalpha c || is_char "_" c = true -> all ident_char l -> head_is ident_char r = false ->
    keyword (lower (c :: l)) = None -> lexeme (c :: l) r Tok.IDENTIFIER (lower (c :: l))
| lx_number d ds fp ep r :
    all isdigit (d :: ds) -> (fp = [] \/ fraction fp) -> (ep = [] \/ exponent ep) ->
    head_is isdigit r = false ->
    (ep = [] -> head_is is_e r = false) ->
    (fp = [] -> ep = [] -> starts_fraction r = false) ->
    lexeme ((d :: ds) ++ fp ++ ep) r
      (if is_nil fp && is_nil ep then Tok.INT_LITERAL else Tok.DOUBLE_LITERAL)
      (string_of ((d :: ds) ++ fp ++ ep))
| lx_string body r :
    head_is (is_char QUOTE) r = false ->
    lexeme (QUOTE :: escape body ++ [QUOTE]) r Tok.STRING_LITERAL (string_of body)
| lx_symbol l r stop k :
    (l, stop, k) ∈ symbols -> head_is stop r = false -> lexeme l r k "".

Definition at_loc (off : nat) (l : list ascii) : SourceLoc := mkLoc (Z.of_nat off) (zlen l).

(** [lexed off src ts]: the source from offset [off] on, and its tokens. *)
Inductive lexed : nat -> list ascii -> list Token -> Prop :=
| lexed_eof off w :
    trivia true w -> lexed off w [mkToken Tok.END_OF_FILE (mkLoc (Z.of_nat (off + length w)) 0) ""]
| lexed_token off w l r k t ts :
    trivia false w -> lexeme l r k t ->
    lexed (off + length w + length l) r ts ->
    lexed off (w ++ l ++ r) (mkToken k (at_loc (off + length w) l) t :: ts).

(** ** The source seen from a position *)

Lemma split_while p x :
  exists l r, x = l ++ r /\ all p l /\ head_is p r = false.
Proof.
  induction x as [|c x (l & r & -> & Hl & Hr)].
  - exists [], []. split_and!; [done | constructor | done].
  - destruct (p c) eqn:Hc.
    + exists (c :: l), r. split_and!; [done | by constructor | done].
    + exists [], (c :: l ++ r). split_and!; [done | constructor | done].
Qed.

Definition is_close (r : list ascii) : bool :=
  match r with a :: b :: _ => is_char "*" a && is_char "/" b | _ => false end.

Lemma is_char_spec a c : is_char a c = true <-> c = a.
Proof. unfold is_char. by rewrite Ascii.eqb_eq. Qed.

Lemma is_char_refl a : is_char a a = true.
Proof. by apply is_char_spec. Qed.

Lemma is_close_spec r : is_close r = true -> exists r', r = "*"%char :: "/"%char :: r'.
Proof.
  destruct r as [|a [|b r']]; simpl; try done.
  rewrite andb_true_iff, !is_char_spec. intros [-> ->]. eauto.
Qed.

Lemma no_close_nil : no_close [].
Proof. intros l r. by destruct l. Qed.

Lemma no_close_cons c b :
  no_close (c :: b) <-> no_close b /\ (is_char "*" c && head_is (is_char "/") b) = false.
Proof.
  split.
  - intros H. split.
    + intros l r ->. by apply (H (c :: l) r).
    + apply not_true_iff_false. intros Hb. apply andb_true_iff in Hb as [Hc Hb].
      apply is_char_spec in Hc as ->. destruct b as [|d b]; [done|].
      apply is_char_spec in Hb as ->. by apply (H [] b).
  - intros [H Hf] l r E. destruct l as [|a l]; simplify_eq/=.
    by eapply H.
Qed.

Lemma split_close x :
  exists body r, x = body ++ r /\ no_close body /\ (r = [] \/ is_close r = true).
Proof.
  induction x as [|c x (body & r & -> & Hb & Hr)].
  - exists [], []. split_and!; [done | apply no_close_nil | by left].
  - destruct (is_close (c :: body ++ r)) eqn:Hc.
    + exists [], (c :: body ++ r). split_and!; [done | apply no_close_nil | by right].
    + exists (c :: body), r. split_and!; [done | | done].
      apply no_close_cons. split; [done|]. by destruct body; simpl in *; [rewrite andb_false_r|].
Qed.

Section Source.
Context (s : list ascii).

(** [from p x]: the characters from position [p] on are [x]. *)
Definition from (p : nat) (x : list ascii) : Prop := (p <= length s)%nat /\ drop p s = x.

Lemma from_nil p : from p [] -> at_end_ s p = true /\ p = length s.
Proof.
  intros [Hp H]. apply (f_equal length) in H. rewrite length_drop in H. simpl in H.
  unfold at_end_. rewrite Nat.leb_le. lia.
Qed.

Lemma from_length p x : from p x -> (length x = length s - p)%nat.
Proof. intros [_ <-]. apply length_drop. Qed.

Lemma from_cons p c r : from p (c :: r) -> from (S p) r.
Proof.
  intros [Hp H]. split.
  - apply (f_equal length) in H. rewrite length_drop in H. simpl in H. lia.
  - by rewrite <- (Nat.add_1_r p), <- drop_drop, H.
Qed.

Lemma from_app p l r : from p (l ++ r) -> from (p + length l) r.
Proof.
  revert p. induction l as [|c l IH]; intros p H; simpl.
  - by rewrite Nat.add_0_r.
  - rewrite Nat.add_succ_r, <- Nat.add_succ_l. apply IH. by apply from_cons in H.
Qed.

Lemma from_peek p x i : from p x -> peek_ s p i = nth i x NUL.
Proof.
  intros [_ <-]. unfold peek_. rewrite <- lookup_drop.
  generalize (drop p s). intros l. revert i. induction l; intros [|i]; simpl; auto.
Qed.

Lemma from_cur p c r : from p (c :: r) -> cur s p = c.
Proof. intros H. unfold cur. by rewrite (from_peek _ _ _ H). Qed.

Lemma from_more p c r : from p (c :: r) -> at_end_ s p = false.
Proof.
  intros H. apply from_length in H. simpl in H. unfold at_end_. apply Nat.leb_gt. lia.
Qed.

Lemma from_advance p c r : from p (c :: r) -> advance_ s p = S p.
Proof.
  intros H. apply from_length in H. simpl in H. unfold advance_.
  by rewrite (proj2 (Nat.ltb_lt _ _)) by lia.
Qed.

Lemma substr_app p l r : from p (l ++ r) -> substr s p (p + length l) = l.
Proof.
  intros [_ H]. unfold substr. rewrite H.
  replace (p + length l - p)%nat with (length l) by lia. apply take_app_length.
Qed.

(** A loop that passes over [l] and stops after it. *)
Lemma scan_app cond l r p f :
  from p (l ++ r) -> (length s - p <= f)%nat ->
  (forall l1 c l2, l = l1 ++ c :: l2 -> cond (p + length l1)%nat = true) ->
  (r <> [] -> cond (p + length l)%nat = false) ->
  scan s f cond p = (p + length l)%nat.
Proof.
  revert p f. induction l as [|c l IH]; intros p f H Hf Hin Hout.
  - simpl in *. rewrite Nat.add_0_r in *. destruct f as [|f]; [done|]. simpl.
    destruct r as [|d r].
    + by rewrite (proj1 (from_nil _ H)).
    + by rewrite Hout, andb_false_r.
  - pose proof (from_length _ _ H) as HL. simpl in HL.
    destruct f as [|f]; [lia|]. simpl.
    rewrite (from_more _ _ _ H), (from_advance _ _ _ H).
    pose proof (Hin [] c l eq_refl) as Hc. simpl in Hc. rewrite Nat.add_0_r in Hc.
    rewrite Hc. simpl.
    rewrite (IH (S p) f); [lia | by apply from_cons in H | lia | |].
    + intros l1 d l2 ->. rewrite Nat.add_succ_l, <- Nat.add_succ_r. by apply (Hin (c :: l1) d l2).
    + intros Hr. rewrite Nat.add_succ_l, <- Nat.add_succ_r. by apply Hout.
Qed.

Lemma advance_while_all q l r p :
  from p (l ++ r) -> all q l -> head_is q r = false ->
  advance_while s (fun p => q (cur s p)) p = (p + length l)%nat.
Proof.
  intros H Hl Hr. apply (scan_app _ l r); [done | lia | |].
  - intros l1 c l2 ->. rewrite <- app_assoc in H. apply from_app in H.
    simpl in H. rewrite (from_cur _ _ _ H). by apply Forall_app in Hl as [_ [? _]%Forall_cons].
  - intros Hr'. destruct r as [|c r]; [done|]. apply from_app in H. by rewrite (from_cur _ _ _ H).
Qed.

Lemma advance_while_close body r p :
  from p (body ++ r) -> no_close body -> (r = [] \/ is_close r = true) ->
  advance_while s (fun p => negb (is_char "*" (cur s p) && is_char "/" (peek_ s p 1))) p
  = (p + length body)%nat.
Proof.
  intros H Hb Hr. apply (scan_app _ body r); [done | lia | |].
  - intros l1 c l2 ->. rewrite <- app_assoc in H. apply from_app in H.
    simpl in H. rewrite (from_cur _ _ _ H), (from_peek _ _ 1 H). simpl.
    assert (no_close (c :: l2)) as [_ Hc]%no_close_cons.
    { intros l r' E. apply (Hb (l1 ++ l) r'). by rewrite <- app_assoc, E. }
    destruct l2 as [|d l2]; simpl in *; [|by rewrite Hc].
    destruct Hr as [-> | [r' ->]%is_close_spec]; simpl; by rewrite andb_false_r.
  - intros Hr'. destruct Hr as [? | [r' ->]%is_close_spec]; [done|].
    apply from_app in H. by rewrite (from_cur _ _ _ H), (from_peek _ _ 1 H).
Qed.

(** ** Trivia *)

Definition starts_trivia (x : list ascii) : bool :=
  match x with
  | [] => false
  | c :: r =>
      is_space c || is_char "-" c && head_is (is_char "-") r
      || is_char "/" c && head_is (is_char "*") r
  end.

Lemma skip_one_none p x : from p x -> x <> [] -> starts_trivia x = false -> skip_one s p = None.
Proof.
  destruct x as [|c r]; intros H ? Hn; [done|]. simpl in Hn.
  apply orb_false_iff in Hn as [[Hs Hd]%orb_false_iff Hb]. unfold skip_one.
  rewrite (from_cur _ _ _ H), (from_peek _ _ 1 H), Hs. simpl.
  assert (E : forall q a, is_char a NUL = false -> (q && head_is (is_char a) r) = (q && is_char a (nth 0 r NUL))).
  { intros q a Ha. destruct r; unfold head_is, nth; [by rewrite Ha|done]. }
  by rewrite <- !E, Hd, Hb by done.
Qed.

Lemma skip_loop_end f p : from p [] -> skip_trivia_loop s f p = p.
Proof. intros H. destruct f; [done|]. simpl. by rewrite (proj1 (from_nil _ H)). Qed.

Lemma skip_loop_stop f p x : from p x -> starts_trivia x = false -> skip_trivia_loop s f p = p.
Proof.
  intros H Hx. destruct x as [|c x]; [by apply skip_loop_end|]. destruct f; [done|]. simpl.
  by rewrite (from_more _ _ _ H), (skip_one_none _ _ H).
Qed.

Lemma skip_loop_round f p q c x w :
  from p (c :: x) -> skip_one s p = Some q -> from q w -> (length w < length (c :: x))%nat ->
  (length s - p <= f)%nat ->
  exists f', skip_trivia_loop s f p = skip_trivia_loop s f' q /\ (length s - q <= f')%nat.
Proof.
  intros H Hq Hw Hlt Hf. apply from_length in Hw. pose proof (from_length _ _ H).
  simpl in *. destruct f as [|f]; [lia|]. exists f. simpl.
  rewrite (from_more _ _ _ H), Hq. split; [done | lia].
Qed.

Lemma skip_one_space p c r : from p (c :: r) -> is_space c = true -> skip_one s p = Some (S p).
Proof.
  intros H Hc. unfold skip_one. by rewrite (from_cur _ _ _ H), Hc, (from_advance _ _ _ H).
Qed.

Lemma skip_one_line p body r :
  from p ("-"%char :: "-"%char :: body ++ r) -> all (fun c => negb (is_char LF c)) body ->
  head_is (fun c => negb (is_char LF c)) r = false ->
  skip_one s p = Some (p + length ("-"%char :: "-"%char :: body))%nat.
Proof.
  intros H Hb Hr. unfold skip_one. rewrite (from_cur _ _ _ H), (from_peek _ _ 1 H). simpl.
  f_equal. apply (advance_while_all (fun c => negb (is_char LF c))
    ("-"%char :: "-"%char :: body) r p); [done | | done].
  by do 2 constructor.
Qed.

Lemma skip_one_block p body r :
  from p ("/"%char :: "*"%char :: body ++ r) -> no_close body ->
  (r = [] \/ is_close r = true) ->
  skip_one s p = Some (p + length ("/"%char :: "*"%char :: body)
                         + (if is_close r then 2 else 0))%nat.
Proof.
  intros H Hb Hr. unfold skip_one. rewrite (from_cur _ _ _ H), (from_peek _ _ 1 H). simpl.
  pose proof (from_cons _ _ _ H) as H1. pose proof (from_cons _ _ _ H1) as H2.
  rewrite (from_advance _ _ _ H), (from_advance _ _ _ H1), (advance_while_close _ _ _ H2 Hb Hr).
  apply from_app in H2. destruct Hr as [-> | Hr].
  - rewrite (proj1 (from_nil _ H2)). f_equal. simpl. lia.
  - rewrite Hr. apply is_close_spec in Hr as [r' ->]. pose proof (from_cons _ _ _ H2) as H3.
    rewrite (from_more _ _ _ H2), (from_advance _ _ _ H2), (from_advance _ _ _ H3).
    f_equal. simpl. lia.
Qed.

(** [skip_trivia_] passes over the trivia, and only over it. *)
Lemma skip_loop_trivia last w : trivia last w -> forall x p f,
  from p (w ++ x) -> (length s - p <= f)%nat -> (last = true -> x = []) ->
  starts_trivia x = false -> skip_trivia_loop s f p = (p + length w)%nat.
Proof.
  induction 1 as [|c w Hc Hw IH|body w Hb Hw IH|body Hl Hb|body w Hb Hw IH|body Hl Hb];
    intros x p f H Hf Hx Hx'; simpl in H.
  - rewrite (skip_loop_stop _ _ _ H) by done. simpl. lia.
  - pose proof (from_cons _ _ _ H) as H1.
    destruct (skip_loop_round f _ _ _ _ _ H (skip_one_space _ _ _ H Hc) H1) as (f' & -> & Hf');
      [simpl; lia | done |].
    rewrite (IH x (S p) f') by done. simpl. lia.
  - rewrite <- app_assoc in H. simpl in H.
    pose proof (skip_one_line _ body (LF :: w ++ x) H Hb eq_refl) as H0.
    pose proof (from_app _ ("-"%char :: "-"%char :: body) _ H) as H1.
    destruct (skip_loop_round f _ _ _ _ _ H H0 H1) as (f1 & -> & Hf1);
      [simpl; rewrite !length_app; simpl; rewrite ?length_app; lia | done |].
    pose proof (from_cons _ _ _ H1) as H2.
    destruct (skip_loop_round f1 _ _ _ _ _ H1 (skip_one_space _ _ _ H1 eq_refl) H2)
      as (f2 & -> & Hf2); [simpl; lia | done |].
    rewrite (IH x _ f2) by done. simpl. rewrite length_app. simpl. lia.
  - rewrite (Hx Hl), app_nil_r in H. rewrite <- (app_nil_r body) in H.
    pose proof (skip_one_line _ body [] H Hb eq_refl) as H0.
    pose proof (from_app _ ("-"%char :: "-"%char :: body) _ H) as H1.
    destruct (skip_loop_round f _ _ _ _ _ H H0 H1) as (f1 & -> & Hf1);
      [simpl; lia | done |].
    by rewrite (skip_loop_end _ _ H1).
  - rewrite <- app_assoc in H. simpl in H.
    pose proof (skip_one_block _ body ("*"%char :: "/"%char :: w ++ x) H Hb (or_intror eq_refl)) as H0.
    pose proof (from_app _ ("/"%char :: "*"%char :: body) _ H) as H1.
    apply from_cons, from_cons in H1. simpl in H0.
    replace (p + S (S (length body)) + 2)%nat with (S (S (p + S (S (length body))))) in H0 by lia.
    destruct (skip_loop_round f _ _ _ _ _ H H0 H1) as (f1 & -> & Hf1);
      [simpl; rewrite !length_app; simpl; rewrite ?length_app; lia | done |].
    rewrite (IH x _ f1) by done. simpl. rewrite length_app. simpl. lia.
  - rewrite (Hx Hl), app_nil_r in H. rewrite <- (app_nil_r body) in H.
    pose proof (skip_one_block _ body [] H Hb (or_introl eq_refl)) as H0.
    pose proof (from_app _ ("/"%char :: "*"%char :: body) _ H) as H1.
    simpl in H0. rewrite Nat.add_0_r in H0.
    destruct (skip_loop_round f _ _ _ _ _ H H0 H1) as (f1 & -> & Hf1);
      [simpl; lia | done |].
    by rewrite (skip_loop_end _ _ H1).
Qed.

Lemma skip_trivia_app last w x p :
  trivia last w -> from p (w ++ x) -> (last = true -> x = []) -> starts_trivia x = false ->
  skip_trivia_ s p = (p + length w)%nat.
Proof. intros. by eapply skip_loop_trivia. Qed.

(** ** Lexemes *)

Context (Hs : zlen s < 2 ^ 32).

Lemma from_bound p l r : from p (l ++ r) -> (p + length l <= length s)%nat.
Proof. intros H. apply from_app in H. by destruct H. Qed.

Lemma span_at_loc p l r : from p (l ++ r) -> span p (p + length l) = at_loc p l.
Proof.
  intros H%from_bound. unfold span, at_loc, u32, zlen in *.
  rewrite !(wrap_id 32) by (unfold in_u; rewrite ?(wrap_id 32) by (unfold in_u; lia); lia).
  f_equal. lia.
Qed.

Lemma word_start_ident c : isalpha c || is_char "_" c = true -> ident_char c = true.
Proof.
  unfold ident_char, isalnum. rewrite !orb_true_iff. tauto.
Qed.

Lemma digit_not_word c : isdigit c = true -> isalpha c || is_char "_" c = false.
Proof. by destruct c as [[] [] [] [] [] [] [] []]. Qed.

Lemma lex_word p c l r :
  from p ((c :: l) ++ r) -> isalpha c || is_char "_" c = true -> all ident_char l ->
  head_is ident_char r = false ->
  next_token_ s p =
    Ok (match keyword (lower (c :: l)) with
        | Some k => mkToken k (at_loc p (c :: l)) ""
        | None => mkToken Tok.IDENTIFIER (at_loc p (c :: l)) (lower (c :: l))
        end, (p + length (c :: l))%nat).
Proof.
  intros H Hc Hl Hr. unfold next_token_. rewrite (from_cur _ _ _ H), Hc.
  unfold lex_ident_or_keyword_.
  rewrite (advance_while_all ident_char (c :: l) r p H); [|constructor|]; [|by apply word_start_ident|done..].
  by rewrite (span_at_loc _ _ _ H), (substr_app _ _ _ H).
Qed.

Lemma digits_app p l r :
  from p (l ++ r) -> all isdigit l -> head_is isdigit r = false -> digits s p = (p + length l)%nat.
Proof. apply advance_while_all. Qed.

Lemma fraction_part_none p x : from p x -> starts_fraction x = false -> fraction_part s p = (false, p).
Proof.
  intros H Hx. unfold fraction_part. destruct x as [|c x].
  - by rewrite (proj1 (from_nil _ H)).
  - rewrite (from_more _ _ _ H), (from_cur _ _ _ H), (from_peek _ _ 1 H). simpl in Hx |- *.
    destruct x as [|d x]; simpl; [by rewrite andb_false_r | by rewrite Hx].
Qed.

Lemma fraction_part_some p fp x :
  from p (fp ++ x) -> fraction fp -> head_is isdigit x = false ->
  fraction_part s p = (true, (p + length fp)%nat).
Proof.
  intros H (d & ds & -> & Hd) Hx. unfold fraction_part.
  rewrite (from_more _ _ _ H), (from_cur _ _ _ H), (from_peek _ _ 1 H). simpl.
  pose proof Hd as [Hd1 _]%Forall_cons. rewrite Hd1, (from_advance _ _ _ H).
  rewrite (digits_app _ (d :: ds) x (from_cons _ _ _ H)) by done. f_equal. simpl. lia.
Qed.

Lemma exponent_part_none start b p x :
  from p x -> head_is is_e x = false -> exponent_part s start (b, p) = Ok (b, p).
Proof.
  intros H Hx. unfold exponent_part. destruct x as [|c x].
  - by rewrite (proj1 (from_nil _ H)).
  - rewrite (from_more _ _ _ H), (from_cur _ _ _ H). simpl in Hx |- *. unfold is_e in Hx.
    by rewrite Hx.
Qed.

Lemma digit_not_sign c : isdigit c = true -> is_char "+" c || is_char "-" c = false.
Proof. by destruct c as [[] [] [] [] [] [] [] []]. Qed.

Lemma exponent_part_some start b p ep x :
  from p (ep ++ x) -> exponent ep -> head_is isdigit x = false ->
  exponent_part s start (b, p) = Ok (true, (p + length ep)%nat).
Proof.
  intros H (e & sg & d & ds & -> & He & Hsg & Hd) Hx. unfold exponent_part.
  rewrite (from_more _ _ _ H), (from_cur _ _ _ H), (from_advance _ _ _ H). unfold is_e in He. rewrite He.
  apply from_cons in H. pose proof Hd as [Hd1 _]%Forall_cons.
  destruct Hsg as [-> | (c & -> & Hc)]; simpl app in H.
  - rewrite (from_more _ _ _ H), (from_cur _ _ _ H), (digit_not_sign _ Hd1). simpl negb. cbn [andb].
    rewrite (from_more _ _ _ H), (from_cur _ _ _ H), Hd1. simpl negb. cbn [orb].
    rewrite (digits_app _ (d :: ds) x H) by done. do 2 f_equal. simpl. lia.
  - unfold is_sign in Hc. rewrite (from_more _ _ _ H), (from_cur _ _ _ H), Hc, (from_advance _ _ _ H).
    simpl negb. cbn [andb]. apply from_cons in H.
    rewrite (from_more _ _ _ H), (from_cur _ _ _ H), Hd1. simpl negb. cbn [orb].
    rewrite (digits_app _ (d :: ds) x H) by done. do 2 f_equal. simpl. lia.
Qed.

Lemma fraction_not_digit fp x : fraction fp -> head_is isdigit (fp ++ x) = false.
Proof. by intros (d & ds & -> & _). Qed.

Lemma exponent_head ep x :
  exponent ep -> head_is isdigit (ep ++ x) = false /\ starts_fraction (ep ++ x) = false.
Proof.
  intros (e & sg & d & ds & -> & He & _). unfold is_e in He. rewrite orb_true_iff, !is_char_spec in He.
  split; [by destruct He as [-> | ->]|]. simpl app.
  destruct ((sg ++ d :: ds) ++ x); [done|]. by destruct He as [-> | ->].
Qed.

Lemma number_parts start p fp ep r :
  from p (fp ++ ep ++ r) -> (fp = [] \/ fraction fp) -> (ep = [] \/ exponent ep) ->
  head_is isdigit r = false -> (ep = [] -> head_is is_e r = false) ->
  (fp = [] -> ep = [] -> starts_fraction r = false) ->
  exponent_part s start (fraction_part s p)
  = Ok (negb (is_nil fp && is_nil ep), (p + length (fp ++ ep))%nat).
Proof.
  intros H Hf He Hr Hr1 Hr2.
  assert (Hd : head_is isdigit (ep ++ r) = false)
    by (destruct He as [-> | He]; [done | by apply exponent_head]).
  assert (E : fraction_part s p = (negb (is_nil fp), (p + length fp)%nat)).
  { destruct Hf as [-> | Hf].
    - rewrite (fraction_part_none _ _ H); [simpl; by rewrite Nat.add_0_r|].
      destruct He as [-> | He]; [by apply Hr2 | apply (exponent_head ep r He)].
    - rewrite (fraction_part_some _ _ _ H) by done.
      by destruct Hf as (? & ? & -> & _). }
  rewrite E, length_app, Nat.add_assoc. apply from_app in H. destruct He as [-> | He].
  - rewrite (exponent_part_none _ _ _ _ H) by auto. simpl. by rewrite andb_true_r, Nat.add_0_r.
  - rewrite (exponent_part_some _ _ _ _ _ H) by auto. destruct He as (? & ? & ? & ? & -> & _).
    simpl is_nil. by rewrite andb_false_r.
Qed.

Lemma number_not_digit fp ep r :
  (fp = [] \/ fraction fp) -> (ep = [] \/ exponent ep) -> head_is isdigit r = false ->
  head_is isdigit (fp ++ ep ++ r) = false.
Proof.
  intros [-> | Hf] He Hr; [|by apply fraction_not_digit].
  destruct He as [-> | He]; [done | apply (exponent_head ep r He)].
Qed.

Lemma lex_number p d ds fp ep r :
  from p (((d :: ds) ++ fp ++ ep) ++ r) -> all isdigit (d :: ds) ->
  (fp = [] \/ fraction fp) -> (ep = [] \/ exponent ep) ->
  head_is isdigit r = false -> (ep = [] -> head_is is_e r = false) ->
  (fp = [] -> ep = [] -> starts_fraction r = false) ->
  next_token_ s p =
    Ok (mkToken (if is_nil fp && is_nil ep then Tok.INT_LITERAL else Tok.DOUBLE_LITERAL)
          (at_loc p ((d :: ds) ++ fp ++ ep)) (string_of ((d :: ds) ++ fp ++ ep)),
        (p + length ((d :: ds) ++ fp ++ ep))%nat).
Proof.
  intros H Hd Hf He Hr Hr1 Hr2. pose proof Hd as [Hd1 _]%Forall_cons.
  assert (H' : from p ((d :: ds) ++ fp ++ ep ++ r)) by (by rewrite <- !app_assoc in H).
  unfold next_token_. rewrite (from_cur _ _ _ H'), (digit_not_word _ Hd1), Hd1. unfold lex_number_.
  rewrite (digits_app _ _ _ H') by (done || by apply number_not_digit).
  rewrite (number_parts p _ fp ep r (from_app _ _ _ H')) by done.
  rewrite <- Nat.add_assoc, <- length_app, (span_at_loc _ _ _ H). do 2 f_equal.
  assert (loc_length (at_loc p ((d :: ds) ++ fp ++ ep)) = zlen ((d :: ds) ++ fp ++ ep)) as -> by done.
  pose proof (from_bound _ _ _ H). unfold u32, zlen in *.
  rewrite wrap_id, !Nat2Z.id by (unfold in_u; lia). rewrite (proj2 H), take_app_length.
  by destruct (is_nil fp && is_nil ep).
Qed.

Lemma advance_from p c x : from p (c :: x) -> from (advance_ s p) x.
Proof. intros H. rewrite (from_advance _ _ _ H). by apply from_cons in H. Qed.

Lemma string_loop_app body r p f acc :
  from p (escape body ++ QUOTE :: r) -> (length s - p < f)%nat ->
  head_is (is_char QUOTE) r = false ->
  string_loop s f p acc = Some (acc ++ body, (p + length (escape body ++ [QUOTE]))%nat).
Proof.
  revert p f acc. induction body as [|c body IH]; intros p f acc H Hf Hr.
  - destruct f as [|f]; [lia|]. cbn [string_loop escape flat_map app] in *.
    rewrite (from_more _ _ _ H), (from_cur _ _ _ H), is_char_refl, (from_advance _ _ _ H), app_nil_r.
    apply from_cons in H. destruct r as [|d r].
    + rewrite (proj1 (from_nil _ H)). simpl. by rewrite Nat.add_1_r.
    + simpl in Hr. rewrite (from_cur _ _ _ H), Hr, andb_false_r. simpl. by rewrite Nat.add_1_r.
  - destruct f as [|f]; [lia|]. cbn [string_loop]. unfold escape in H. cbn [flat_map] in H.
    fold (escape body) in H. unfold escape. cbn [flat_map]. fold (escape body).
    destruct (is_char QUOTE c) eqn:Hc; cbn [app] in H.
    + apply is_char_spec in Hc as ->.
      rewrite (from_more _ _ _ H), (from_cur _ _ _ H), is_char_refl, (from_advance _ _ _ H).
      pose proof (from_length _ _ H). simpl in *. apply from_cons in H.
      rewrite (from_more _ _ _ H), (from_cur _ _ _ H), is_char_refl, (from_advance _ _ _ H). simpl.
      rewrite (IH (S (S p)) f); [|by apply from_cons in H | lia | done].
      rewrite <- app_assoc. do 2 f_equal. lia.
    + rewrite (from_more _ _ _ H), (from_cur _ _ _ H), Hc, (from_advance _ _ _ H).
      pose proof (from_length _ _ H). simpl in *.
      rewrite (IH (S p) f); [|by apply from_cons in H | lia | done].
      rewrite <- app_assoc. do 2 f_equal. simpl. lia.
Qed.

Lemma lex_string p body r :
  from p ((QUOTE :: escape body ++ [QUOTE]) ++ r) -> head_is (is_char QUOTE) r = false ->
  next_token_ s p =
    Ok (mkToken Tok.STRING_LITERAL (at_loc p (QUOTE :: escape body ++ [QUOTE])) (string_of body),
        (p + length (QUOTE :: escape body ++ [QUOTE]))%nat).
Proof.
  intros H Hr. unfold next_token_. rewrite (from_cur _ _ _ H).
  change (isalpha QUOTE || is_char "_" QUOTE) with false. change (isdigit QUOTE) with false.
  rewrite is_char_refl. unfold lex_string_. rewrite (from_advance _ _ _ H).
  pose proof (from_length _ _ H) as HL. simpl in HL.
  rewrite (string_loop_app body r).
  - simpl app. rewrite <- (span_at_loc _ _ _ H). simpl length.
    rewrite Nat.add_succ_l, <- Nat.add_succ_r. done.
  - assert (E : (QUOTE :: escape body ++ [QUOTE]) ++ r = QUOTE :: (escape body ++ QUOTE :: r))
      by (simpl; by rewrite <- app_assoc).
    rewrite E in H. by apply from_cons in H.
  - lia.
  - done.
Qed.

Lemma one_at p c r k : from p (c :: r) ->
  one s p k = Ok (mkToken k (at_loc p [c]) "", (p + length [c])%nat).
Proof.
  intros H. unfold one. rewrite (from_advance _ _ _ H), <- (span_at_loc p [c] r H).
  pose proof (from_bound p [c] r H) as Hb. unfold span, u32, zlen in *. simpl in *.
  rewrite (wrap_id 32 (Z.of_nat p)), (wrap_id 32 (Z.of_nat _)) by (unfold in_u; lia).
  rewrite wrap_id by (unfold in_u; lia). repeat f_equal; lia.
Qed.

Lemma two_at p c d r k : from p (c :: d :: r) ->
  two s p k = Ok (mkToken k (at_loc p [c; d]) "", (p + length [c; d])%nat).
Proof.
  intros H. unfold two. rewrite (from_advance _ _ _ H), (from_advance _ _ _ (from_cons _ _ _ H)).
  rewrite <- (span_at_loc p [c; d] r H).
  pose proof (from_bound p [c; d] r H) as Hb. unfold span, u32, zlen in *. simpl in *.
  rewrite (wrap_id 32 (Z.of_nat p)), (wrap_id 32 (Z.of_nat _)) by (unfold in_u; lia).
  rewrite wrap_id by (unfold in_u; lia). repeat f_equal; lia.
Qed.

Lemma nth_head q r : q NUL = false -> q (nth 0 r NUL) = head_is q r.
Proof. by destruct r. Qed.

Lemma lex_symbol p l r stop k :
  from p (l ++ r) -> (l, stop, k) ∈ symbols -> head_is stop r = false ->
  next_token_ s p = Ok (mkToken k (at_loc p l) "", (p + length l)%nat).
Proof.
  intros H Hin Hr. unfold next_token_, lex_symbol_. unfold symbols in Hin.
  repeat (apply elem_of_cons in Hin as [[= -> -> ->] | Hin]); try by apply elem_of_nil in Hin.
  all: simpl app in H; rewrite (from_cur _ _ _ H); cbn -[one two peek_ at_loc].
  all: rewrite ?(from_peek _ _ 1 H); cbn [nth].
  all: try first [exact (one_at _ _ _ _ H) | exact (two_at _ _ _ _ _ H)].
  - rewrite (nth_head (is_char "=")), (nth_head (is_char ">")) by done.
    assert (head_is (is_char "=") r = false /\ head_is (is_char ">") r = false) as [-> ->]
      by (destruct r; simpl in *; [done | by apply orb_false_iff]).
    exact (one_at _ _ _ _ H).
  - rewrite (nth_head (is_char "=")), Hr by done. exact (one_at _ _ _ _ H).
Qed.

Lemma lexeme_next p l r k t :
  from p (l ++ r) -> lexeme l r k t ->
  next_token_ s p = Ok (mkToken k (at_loc p l) t, (p + length l)%nat).
Proof.
  intros H Hl. destruct Hl as [c l r k Hc Hl Hr Hk | c l r Hc Hl Hr Hk | | | ].
  - by rewrite (lex_word _ _ _ _ H), Hk.
  - by rewrite (lex_word _ _ _ _ H), Hk.
  - by apply (lex_number _ _ _ _ _ r).
  - by apply (lex_string _ _ r).
  - by eapply lex_symbol.
Qed.

(** What does not start with a lexeme is an error. *)
Lemma word_or_not p c x :
  from p (c :: x) -> isalpha c || is_char "_" c = true ->
  exists l r k t, c :: x = l ++ r /\ lexeme l r k t.
Proof.
  intros H Hc. destruct (split_while ident_char x) as (l & r & -> & Hl & Hr).
  exists (c :: l), r. destruct (keyword (lower (c :: l))) as [k|] eqn:Hk.
  - exists k, "". split; [done|]. by constructor.
  - eexists _, _. split; [done|]. by constructor.
Qed.

Lemma split_fraction x :
  exists fp r, x = fp ++ r /\
    ((fp = [] /\ starts_fraction r = false /\ r = x) \/ (fraction fp /\ head_is isdigit r = false)).
Proof.
  destruct (starts_fraction x) eqn:Hx.
  - destruct x as [|c [|d x]]; [done..|]. simpl in Hx. apply andb_true_iff in Hx as [Hc Hd].
    apply is_char_spec in Hc as ->. destruct (split_while isdigit x) as (ds & r & -> & Hds & Hr).
    exists ("."%char :: d :: ds), r. split; [done|]. right. split; [|done].
    exists d, ds. split; [done|]. by constructor.
  - exists [], x. split; [done|]. by left.
Qed.

Lemma split_exponent start b p x :
  from p x ->
  (exists m, exponent_part s start (b, p) = Err m) \/
  exists ep r, x = ep ++ r /\
    ((ep = [] /\ head_is is_e r = false /\ r = x) \/ (exponent ep /\ head_is isdigit r = false)).
Proof.
  intros H. destruct (head_is is_e x) eqn:Hx;
    [|right; exists [], x; split; [done|]; by left].
  destruct x as [|e x]; [done|]. simpl in Hx. unfold exponent_part.
  rewrite (from_more _ _ _ H), (from_cur _ _ _ H), (from_advance _ _ _ H). unfold is_e in Hx. rewrite Hx.
  apply from_cons in H. simpl negb. cbn [andb].
  assert (exists sg y, x = sg ++ y /\ (sg = [] \/ exists c, sg = [c] /\ is_sign c = true) /\
    (if negb (at_end_ s (S p)) && (is_char "+" (cur s (S p)) || is_char "-" (cur s (S p)))
     then advance_ s (S p) else S p) = (S p + length sg)%nat) as (sg & y & -> & Hsg & ->).
  { destruct x as [|c x].
    - rewrite (proj1 (from_nil _ H)). exists [], []. simpl. split_and!; [done | by left | lia].
    - rewrite (from_more _ _ _ H), (from_cur _ _ _ H), (from_advance _ _ _ H).
      destruct (is_char "+" c || is_char "-" c) eqn:Hc; simpl.
      + exists [c], x. simpl. split_and!; [done | right; by exists c | lia].
      + exists [], (c :: x). simpl. split_and!; [done | by left | lia]. }
  apply from_app in H. destruct y as [|d y].
  { left. rewrite (proj1 (from_nil _ H)). simpl. by eexists. }
  rewrite (from_more _ _ _ H), (from_cur _ _ _ H). destruct (isdigit d) eqn:Hd; simpl; [|left; by eexists].
  right. destruct (split_while isdigit y) as (ds & r & -> & Hds & Hr).
  exists (e :: sg ++ d :: ds), r. split; [simpl; by rewrite <- app_assoc|].
  right. split; [|done]. exists e, sg, d, ds. split_and!; [done.. | by constructor].
Qed.

Lemma number_or_error p c x :
  from p (c :: x) -> isdigit c = true ->
  (exists m, next_token_ s p = Err m) \/
  exists l r k t, c :: x = l ++ r /\ lexeme l r k t.
Proof.
  intros H Hc. destruct (split_while isdigit x) as (ds & y & -> & Hds & Hy).
  destruct (split_fraction y) as (fp & z & -> & Hf).
  assert (Hd : all isdigit (c :: ds)) by (by constructor).
  assert (Hz : from (p + length (c :: ds) + length fp) z)
    by (do 2 apply from_app; done).
  destruct (split_exponent p (negb (is_nil fp)) _ z Hz) as [[m Hm] | (ep & r & -> & He)].
  - left. exists m. unfold next_token_. rewrite (from_cur _ _ _ H), (digit_not_word _ Hc), Hc.
    unfold lex_number_. rewrite (digits_app _ (c :: ds) (fp ++ z)) by done.
    pose proof (from_app _ (c :: ds) _ H) as H1.
    assert (fraction_part s (p + length (c :: ds))
            = (negb (is_nil fp), (p + length (c :: ds) + length fp)%nat)) as ->; [|by rewrite Hm].
    destruct Hf as [(-> & Hf & _) | (Hf & Hr)].
    + rewrite (fraction_part_none _ _ H1) by done. simpl. by rewrite Nat.add_0_r.
    + rewrite (fraction_part_some _ _ _ H1) by done. by destruct Hf as (? & ? & -> & _).
  - right. exists ((c :: ds) ++ fp ++ ep), r.
    assert (He' : exponent ep -> ep = [] -> False) by (by intros (? & ? & ? & ? & -> & _)).
    assert (Hf' : fraction fp -> fp = [] -> False) by (by intros (? & ? & -> & _)).
    destruct Hf as [(-> & Hf & Ef) | (Hf & Hr)], He as [(-> & He & Er) | (He & Hr2)];
      (do 2 eexists; split; [by rewrite <- !app_assoc | apply lx_number]); subst; auto;
      intros; exfalso; eauto.
Qed.

Lemma string_split x :
  (exists body, x = escape body) \/
  exists body r, x = escape body ++ QUOTE :: r /\ head_is (is_char QUOTE) r = false.
Proof.
  induction x as [x IH] using (induction_ltof1 _ length).
  destruct x as [|c x]; [left; by exists []|].
  destruct (is_char QUOTE c) eqn:Hc.
  - apply is_char_spec in Hc as ->. destruct (head_is (is_char QUOTE) x) eqn:Hx.
    + destruct x as [|d x]; [done|]. simpl in Hx. apply is_char_spec in Hx as ->.
      destruct (IH x) as [[b ->] | (b & r & -> & Hr)]; [unfold ltof; simpl; lia | |].
      * left. by exists (QUOTE :: b).
      * right. by exists (QUOTE :: b), r.
    + right. by exists [], x.
  - assert (E : forall b, escape (c :: b) = c :: escape b) by (intros b; unfold escape; simpl; by rewrite Hc).
    destruct (IH x) as [[b ->] | (b & r & -> & Hr)]; [unfold ltof; simpl; lia | |].
    + left. exists (c :: b). by rewrite E.
    + right. exists (c :: b), r. by rewrite E.
Qed.

Lemma string_loop_open body p f acc :
  from p (escape body) -> string_loop s f p acc = None.
Proof.
  revert p f acc. induction body as [|c body IH]; intros p f acc H; (destruct f as [|f]; [done|]);
    cbn [string_loop].
  - by rewrite (proj1 (from_nil _ H)).
  - unfold escape in H. cbn [flat_map] in H. fold (escape body) in H.
    destruct (is_char QUOTE c) eqn:Hc; cbn [app] in H.
    + rewrite (from_more _ _ _ H), (from_cur _ _ _ H), is_char_refl, (from_advance _ _ _ H).
      apply from_cons in H.
      rewrite (from_more _ _ _ H), (from_cur _ _ _ H), is_char_refl, (from_advance _ _ _ H). simpl.
      apply IH. by apply from_cons in H.
    + rewrite (from_more _ _ _ H), (from_cur _ _ _ H), Hc, (from_advance _ _ _ H).
      apply IH. by apply from_cons in H.
Qed.

Lemma string_or_error p x :
  from p (QUOTE :: x) ->
  (exists m, next_token_ s p = Err m) \/
  exists l r k t, QUOTE :: x = l ++ r /\ lexeme l r k t.
Proof.
  intros H. destruct (string_split x) as [[b ->] | (b & r & -> & Hr)].
  - left. unfold next_token_. rewrite (from_cur _ _ _ H).
    change (isalpha QUOTE || is_char "_" QUOTE) with false. change (isdigit QUOTE) with false.
    rewrite is_char_refl. unfold lex_string_. rewrite (from_advance _ _ _ H).
    rewrite (string_loop_open b) by (by apply from_cons in H). by eexists.
  - right. exists (QUOTE :: escape b ++ [QUOTE]), r. do 2 eexists.
    split; [simpl; by rewrite <- app_assoc | by constructor].
Qed.

Definition symbol_chars : list ascii :=
  ["("; ")"; ","; ";"; "."; "*"; "+"; "-"; "/"; "="; "<"; ">"; "!"]%char.

Lemma lex_symbol_default p : cur s p ∉ symbol_chars -> lex_symbol_ s p = unexpected s p.
Proof.
  intros H. unfold lex_symbol_.
  destruct (cur s p) as [[] [] [] [] [] [] [] []]; try done; exfalso; apply H; unfold symbol_chars; set_solver.
Qed.

Lemma symbol_lexeme l r stop k :
  (l, stop, k) ∈ symbols -> head_is stop r = false ->
  exists l' r' k' t, l ++ r = l' ++ r' /\ lexeme l' r' k' t.
Proof. intros. exists l, r, k, "". split; [done|]. by eapply lx_symbol. Qed.

#[local] Ltac sym M l r := right; eapply (M l r);
    [reflexivity
    | unfold symbols; repeat (apply elem_of_cons; first [left; reflexivity | right])
    | first [assumption | by destruct r]].

Lemma symbol_or_error p c x :
  from p (c :: x) -> starts_trivia (c :: x) = false ->
  isalpha c || is_char "_" c = false -> isdigit c = false -> is_char QUOTE c = false ->
  (exists m, next_token_ s p = Err m) \/
  exists l r k t, c :: x = l ++ r /\ lexeme l r k t.
Proof.
  intros H Ht Hc1 Hc2 Hc3. unfold next_token_. rewrite (from_cur _ _ _ H), Hc1, Hc2, Hc3.
  destruct (decide (c ∈ symbol_chars)) as [Hc | Hc];
    [|left; rewrite lex_symbol_default by (by rewrite (from_cur _ _ _ H)); by eexists].
  unfold symbol_chars in Hc.
  assert (M : forall l r stop k, c :: x = l ++ r -> (l, stop, k) ∈ symbols -> head_is stop r = false ->
    exists l r k t, c :: x = l ++ r /\ lexeme l r k t).
  { intros l r stop k ->. apply symbol_lexeme. }
  simpl in Ht.
  repeat (apply elem_of_cons in Hc as [-> | Hc]); try by apply elem_of_nil in Hc.
  - sym M ["("%char] x.
  - sym M [")"%char] x.
  - sym M [","%char] x.
  - sym M [";"%char] x.
  - sym M ["."%char] x.
  - sym M ["*"%char] x.
  - sym M ["+"%char] x.
  - assert (head_is (is_char "-") x = false) by (by destruct (head_is (is_char "-") x)).
    sym M ["-"%char] x.
  - assert (head_is (is_char "*") x = false) by (by destruct (head_is (is_char "*") x)).
    sym M ["/"%char] x.
  - sym M ["="%char] x.
  - destruct (head_is (is_char "=") x) eqn:Hx; [|destruct (head_is (is_char ">") x) eqn:Hy].
    + destruct x as [|d x]; [done|]. apply is_char_spec in Hx as ->. sym M ["<"%char; "="%char] x.
    + destruct x as [|d x]; [done|]. apply is_char_spec in Hy as ->. sym M ["<"%char; ">"%char] x.
    + right. apply (M ["<"%char] x (fun c => is_char "=" c || is_char ">" c) Tok.LT); [done| |].
      * unfold symbols; repeat (apply elem_of_cons; first [left; reflexivity | right]).
      * destruct x; [done|]. simpl in *. by rewrite Hx, Hy.
  - destruct (head_is (is_char "=") x) eqn:Hx.
    + destruct x as [|d x]; [done|]. apply is_char_spec in Hx as ->. sym M [">"%char; "="%char] x.
    + sym M [">"%char] x.
  - destruct (head_is (is_char "=") x) eqn:Hx.
    + destruct x as [|d x]; [done|]. apply is_char_spec in Hx as ->. sym M ["!"%char; "="%char] x.
    + left. unfold lex_symbol_. rewrite (from_cur _ _ _ H), (from_peek _ _ 1 H).
      cbn [nth]. rewrite (nth_head (is_char "=")), Hx by done. by eexists.
Qed.

Lemma lexeme_or_error p x :
  from p x -> x <> [] -> starts_trivia x = false ->
  (exists m, next_token_ s p = Err m) \/
  exists l r k t, x = l ++ r /\ lexeme l r k t.
Proof.
  intros H Hx Ht. destruct x as [|c x]; [done|].
  destruct (isalpha c || is_char "_" c) eqn:Hc1; [right; by eapply word_or_not|].
  destruct (isdigit c) eqn:Hc2; [by apply number_or_error|].
  destruct (is_char QUOTE c) eqn:Hc3.
  - apply is_char_spec in Hc3 as ->. by apply string_or_error.
  - by apply symbol_or_error.
Qed.

Lemma lexeme_starts l r k t : lexeme l r k t -> l <> [] /\ starts_trivia (l ++ r) = false.
Proof.
  assert (D : forall c y, isdigit c = true -> starts_trivia (c :: y) = false)
    by (intros c y; by destruct c as [[] [] [] [] [] [] [] []]).
  assert (W : forall c y, isalpha c || is_char "_" c = true -> starts_trivia (c :: y) = false)
    by (intros c y; by destruct c as [[] [] [] [] [] [] [] []]).
  destruct 1 as [c l r k Hc _ _ _ | c l r Hc _ _ _ | d ds fp ep r Hd | | l r stop k Hin Hr].
  - split; [done|]. by apply W.
  - split; [done|]. by apply W.
  - split; [done|]. apply Forall_cons in Hd as [Hd _]. by apply D.
  - done.
  - unfold symbols in Hin.
    repeat (apply elem_of_cons in Hin as [[= -> -> ->] | Hin]); try by apply elem_of_nil in Hin.
    all: split; [done|]; simpl; rewrite ?Hr; try done.
Qed.

(** ** The whole source *)

Lemma split_trivia x :
  exists last w y, x = w ++ y /\ trivia last w /\ (last = true -> y = []) /\ starts_trivia y = false.
Proof.
  induction x as [x IH] using (induction_ltof1 _ length).
  destruct (starts_trivia x) eqn:Hx; [|exists false, [], x; split_and!; [done | constructor | done | done]].
  destruct x as [|c r]; [done|]. simpl in Hx. rewrite !orb_true_iff, !andb_true_iff in Hx.
  destruct Hx as [[Hc | [Hc Hr]] | [Hc Hr]].
  - destruct (IH r) as (b & w & y & -> & Hw & Hb & Hy); [unfold ltof; simpl; lia|].
    exists b, (c :: w), y. split_and!; [done | by constructor | done | done].
  - apply is_char_spec in Hc as ->. destruct r as [|d r]; [done|]. apply is_char_spec in Hr as ->.
    destruct (split_while (fun c => negb (is_char LF c)) r) as (body & z & -> & Hb & Hz).
    destruct z as [|e z].
    + exists true, ("-"%char :: "-"%char :: body), []. split_and!; [by rewrite !app_nil_r | by constructor | done | done].
    + simpl in Hz. apply negb_false_iff, is_char_spec in Hz as ->.
      destruct (IH z) as (b & w & y & -> & Hw & Hl & Hy); [unfold ltof; simpl; rewrite length_app; simpl; lia|].
      exists b, ("-"%char :: "-"%char :: body ++ LF :: w), y.
      split_and!; [simpl; by rewrite <- app_assoc | by constructor | done | done].
  - apply is_char_spec in Hc as ->. destruct r as [|d r]; [done|]. apply is_char_spec in Hr as ->.
    destruct (split_close r) as (body & z & -> & Hb & [-> | [z' ->]%is_close_spec]).
    + exists true, ("/"%char :: "*"%char :: body), []. split_and!; [by rewrite !app_nil_r | by constructor | done | done].
    + destruct (IH z') as (b & w & y & -> & Hw & Hl & Hy); [unfold ltof; simpl; rewrite length_app; simpl; lia|].
      exists b, ("/"%char :: "*"%char :: body ++ "*"%char :: "/"%char :: w), y.
      split_and!; [simpl; by rewrite <- app_assoc | by constructor | done | done].
Qed.

Lemma trivia_last last w : trivia last w -> trivia true w.
Proof. induction 1; by constructor. Qed.

Lemma lexed_loop p x ts :
  lexed p x ts -> forall f out, from p x -> (length x < f)%nat ->
  tokenize_loop s f p out = Some (Ok (out ++ ts)).
Proof.
  induction 1 as [p w Hw | p w l r k t ts Hw Hl _ IH]; intros f out H Hf; (destruct f as [|f]; [lia|]);
    cbn [tokenize_loop].
  - rewrite <- (app_nil_r w) in H. rewrite (skip_trivia_app true w [] p) by done.
    pose proof (from_app _ _ _ H) as H1. destruct (from_nil _ H1) as [-> E].
    unfold eof_token. rewrite <- E. unfold u32. rewrite wrap_id; [done|].
    unfold in_u, zlen in *. lia.
  - destruct (lexeme_starts _ _ _ _ Hl) as [Hne Hst].
    rewrite (skip_trivia_app false w (l ++ r) p) by done. pose proof (from_app _ _ _ H) as H1.
    destruct l as [|c l]; [done|]. rewrite (from_more _ _ _ H1), (lexeme_next _ _ _ _ _ H1 Hl).
    rewrite (IH f); [by rewrite <- app_assoc | by apply from_app in H1 |].
    rewrite !length_app in Hf. simpl in Hf. lia.
Qed.

Lemma lex_loop p x f out :
  from p x -> (length x < f)%nat ->
  (exists m, tokenize_loop s f p out = Some (Err m)) \/ exists ts, lexed p x ts.
Proof.
  revert p x out. induction f as [|f IH]; intros p x out H Hf; [lia|]. cbn [tokenize_loop].
  destruct (split_trivia x) as (b & w & y & -> & Hw & Hb & Hy).
  rewrite (skip_trivia_app b w y p) by done. pose proof (from_app _ _ _ H) as H1.
  destruct (decide (y = [])) as [-> | Hne].
  { right. rewrite app_nil_r. eexists. constructor. by eapply trivia_last. }
  assert (b = false) as -> by (destruct b; auto; exfalso; auto).
  assert (at_end_ s (p + length w) = false) as -> by (destruct y; [done|]; by eapply from_more).
  destruct (lexeme_or_error _ _ H1 Hne Hy) as [[m ->] | (l & r & k & t & -> & Hl)]; [left; eauto|].
  rewrite (lexeme_next _ _ _ _ _ H1 Hl).
  destruct (lexeme_starts _ _ _ _ Hl) as [Hl0 _]. destruct l as [|c l]; [done|].
  destruct (IH (p + length w + length (c :: l))%nat r (out ++ [mkToken k (at_loc (p + length w) (c :: l)) t]))
    as [Hm | [ts Hts]].
  - by apply from_app in H1.
  - rewrite !length_app in Hf. simpl in Hf. lia.
  - by left.
  - right. eexists. by eapply lexed_token.
Qed.

Lemma from_0 : from 0 s.
Proof. split; [lia | done]. Qed.
End Source.

(** The tokens end with the end-of-file token, which is the only one. *)
Lemma keyword_not_eof w k : keyword w = Some k -> k <> Tok.END_OF_FILE.
Proof.
  unfold keyword. intros H ->. apply fmap_Some in H as ([w' k] & H & E). simpl in E. subst k.
  apply find_some in H as [H _]. unfold keyword_table in H. simpl in H.
  repeat (destruct H as [H | H]; [discriminate|]). done.
Qed.

Lemma lexeme_not_eof l r k t : lexeme l r k t -> k <> Tok.END_OF_FILE.
Proof.
  destruct 1 as [? ? ? ? _ _ _ H | | ? ? fp ep | | ? ? ? ? Hin]; try done.
  - by eapply keyword_not_eof.
  - by destruct (is_nil fp && is_nil ep).
  - intros ->. unfold symbols in Hin.
    repeat (apply elem_of_cons in Hin as [[=] | Hin]); by apply elem_of_nil in Hin.
Qed.

Lemma lexed_eof_last off src ts :
  lexed off src ts ->
  exists ts' e, ts = ts' ++ [e] /\ kind e = Tok.END_OF_FILE /\
    Forall (fun t => kind t <> Tok.END_OF_FILE) ts'.
Proof.
  induction 1 as [|off w l r k t ts Hw Hl _ (ts' & e & -> & He & Hts)].
  - by exists [], (mkToken Tok.END_OF_FILE (mkLoc (Z.of_nat (off + length w)) 0) "").
  - exists (mkToken k (at_loc (off + length w) l) t :: ts'), e. split_and!; [done..|].
    constructor; [by apply lexeme_not_eof in Hl | done].
Qed.

Lemma tokenize_lexed src ts :
  zlen src < 2 ^ 32 -> tokenize src = Some (Ok ts) <-> lexed 0 src ts.
Proof.
  intros Hs. unfold tokenize. split; intros H.
  - destruct (lex_loop src Hs 0 src (S (length src)) [] (from_0 src)) as [[m Hm] | [ts' Hts]];
      [lia | congruence |].
    rewrite (lexed_loop src Hs _ _ _ Hts _ _ (from_0 src)) in H by lia. simplify_eq/=. done.
  - by rewrite (lexed_loop src Hs _ _ _ H _ _ (from_0 src)) by lia.
Qed.

Lemma tokenize_total src : zlen src < 2 ^ 32 -> exists r, tokenize src = Some r.
Proof.
  intros Hs. unfold tokenize.
  destruct (lex_loop src Hs 0 src (S (length src)) [] (from_0 src)) as [[m Hm] | [ts' Hts]];
    [lia | eauto |].
  eexists. apply (lexed_loop src Hs _ _ _ Hts _ _ (from_0 src)). lia.
Qed.

(** C17. The lexer accepts the lexical grammar and nothing else: for every source shorter
    than 4 GiB [tokenize] returns, with a token list exactly when the source is white space,
    comments and lexemes, each of them the longest one, and the tokens carry the kinds,
    the texts, the offsets and the lengths that the grammar gives them, the end-of-file
    token last; when there is no such reading it reports an error. *)
Theorem tokenize_correct src :
  zlen src < 2 ^ 32 ->
  (exists ts, tokenize src = Some (Ok ts) /\ lexed 0 src ts /\ forall ts', lexed 0 src ts' -> ts' = ts) \/
  (exists m, tokenize src = Some (Err m) /\ forall ts, ~ lexed 0 src ts).
Proof.
  intros Hs. destruct (tokenize_total src Hs) as [[ts|m] E].
  - left. exists ts. split_and!; [done | by apply tokenize_lexed |].
    intros ts' H. apply (tokenize_lexed _ _ Hs) in H. congruence.
  - right. exists m. split; [done|]. intros ts H. apply (tokenize_lexed _ _ Hs) in H. congruence.
Qed.

Definition sample : list ascii := chars "SELECT a FROM t -- all of it".

Lemma tokenize_correct_witness :
  zlen sample < 2 ^ 32 /\
  match tokenize sample with
  | Some (Ok ts) => map kind ts = [Tok.KW_SELECT; Tok.IDENTIFIER; Tok.KW_FROM; Tok.IDENTIFIER; Tok.END_OF_FILE]
                    /\ lexed 0 sample ts
  | _ => False
  end.
Proof.
  assert (H : zlen sample < 2 ^ 32) by (vm_compute; reflexivity). split; [exact H|].
  destruct (tokenize_correct sample H) as [(ts & E & Hl & _) | (m & E & _)].
  - assert (K : option_map (fun r => match r with Ok l => map kind l | Err _ => [] end) (tokenize sample)
      = Some [Tok.KW_SELECT; Tok.IDENTIFIER; Tok.KW_FROM; Tok.IDENTIFIER; Tok.END_OF_FILE])
      by (vm_compute; reflexivity).
    rewrite E in *. simpl in K. split; [congruence | exact Hl].
  - exfalso. vm_compute in E. discriminate E.
Defined.
