(* ===== verification/Ast.v ===== *)
(** * The syntax tree

    The statements and expressions of src/src/parser/ast.h.  A null [ExprPtr] is [None]; an
    [f64] is its bit pattern. *)

From S2P Require Import Prelude Types Expression Lexer.

Module ast.
Inductive Expr : Type :=
| IntLit (value : Z) (loc : SourceLoc)
| DoubleLit (value : Z) (loc : SourceLoc)
| StringLit (value : string) (loc : SourceLoc)
| NullLit (loc : SourceLoc)
| BoolLit (value : bool) (loc : SourceLoc)
| DateLit (value : string) (loc : SourceLoc)
| TimestampLit (value : string) (loc : SourceLoc)
| ColumnRef (table : option string) (column : string) (loc : SourceLoc)
| FuncCall (name : string) (args : list Expr) (star : bool) (loc : SourceLoc)
| BinaryOp (op : BinaryOpKind) (left right : Expr) (loc : SourceLoc)
| LogicalOp (op : LogicalOpKind) (left right : Expr) (loc : SourceLoc)
| NotOp (child : Expr) (loc : SourceLoc)
| NullCheck (kind : NullCheckKind) (child : Expr) (loc : SourceLoc).

Definition expr_loc (e : Expr) : SourceLoc :=
  match e with
  | IntLit _ l | DoubleLit _ l | StringLit _ l | NullLit l | BoolLit _ l | DateLit _ l
  | TimestampLit _ l | ColumnRef _ _ l | FuncCall _ _ _ l | BinaryOp _ _ _ l
  | LogicalOp _ _ _ l | NotOp _ l | NullCheck _ _ l => l
  end.

Record SelectItem : Type := mkSelectItem { si_expr : Expr; si_alias : option string }.

Record TableRef : Type := mkTableRef {
  tr_table_name : string; tr_alias : option string; tr_loc : SourceLoc }.

Record JoinClause : Type := mkJoinClause { jc_right : TableRef; jc_on : Expr }.

Record OrderByItem : Type := mkOrderByItem { ob_expr : Expr; ob_ascending : bool }.

Record SelectStmt : Type := mkSelectStmt {
  sel_projections : list SelectItem;
  sel_star_projection : bool;
  sel_from : TableRef;
  sel_joins : list JoinClause;
  sel_where : option Expr;
  sel_group_by : list Expr;
  sel_having : option Expr;
  sel_order_by : list OrderByItem;
  sel_limit : option Z;
  sel_offset : option Z
}.

Record ColumnDef : Type := mkColumnDef {
  cd_name : string;
  cd_type : TypeId;
  cd_nullable : bool;
  cd_max_len : Z;
  cd_is_primary_key : bool;
  cd_is_unique : bool;
  cd_default_value : option Value
}.

Inductive ConstraintKind : Type := PRIMARY_KEY | UNIQUE.

Record TableConstraint : Type := mkTableConstraint {
  tc_kind : ConstraintKind; tc_name : string; tc_columns : list string }.

Record PartitionDefAst : Type := mkPartitionDef {
  pd_name : string; pd_is_maxvalue : bool; pd_upper_bound : option Expr; pd_node_addr : string }.

Record CreateTableStmt : Type := mkCreateTable {
  ct_table_name : string;
  ct_columns : list ColumnDef;
  ct_constraints : list TableConstraint;
  ct_partition_col : option string;
  ct_partition_defs : list PartitionDefAst
}.

Record InsertStmt : Type := mkInsert {
  ins_table_name : string; ins_columns : list string; ins_rows : list (list Expr) }.

Record DropTableStmt : Type := mkDropTable { dt_table_name : string; dt_if_exists : bool }.

Record DeleteStmt : Type := mkDelete { del_table_name : string; del_where : option Expr }.

Record Assignment : Type := mkAssignment { as_column : string; as_value : Expr }.

Record UpdateStmt : Type := mkUpdate {
  upd_table_name : string; upd_assignments : list Assignment; upd_where : option Expr }.

Record CreateIndexStmt : Type := mkCreateIndex {
  ci_index_name : string; ci_table_name : string; ci_column_names : list string; ci_unique : bool }.

Record DropIndexStmt : Type := mkDropIndex { di_index_name : string; di_table_name : string }.

Record AlterAddPartitionStmt : Type := mkAlter {
  al_table_name : string; al_partition : PartitionDefAst }.

Inductive Statement : Type :=
| SSelect (s : SelectStmt)
| SCreateTable (s : CreateTableStmt)
| SInsert (s : InsertStmt)
| SDropTable (s : DropTableStmt)
| SDelete (s : DeleteStmt)
| SUpdate (s : UpdateStmt)
| SCreateIndex (s : CreateIndexStmt)
| SDropIndex (s : DropIndexStmt)
| SShowIndexes (table_name : string)
| SShowConstraints (table_name : string)
| SVacuum (table_name : string)
| SAlterAddPartition (s : AlterAddPartitionStmt).

(** Induction with a hypothesis for each argument of a call. *)
Fixpoint Expr_rect' (P : Expr -> Prop)
  (HInt : forall v l, P (IntLit v l)) (HDouble : forall v l, P (DoubleLit v l))
  (HString : forall v l, P (StringLit v l)) (HNull : forall l, P (NullLit l))
  (HBool : forall v l, P (BoolLit v l)) (HDate : forall v l, P (DateLit v l))
  (HTimestamp : forall v l, P (TimestampLit v l)) (HColumn : forall t c l, P (ColumnRef t c l))
  (HCall : forall n args st l, Forall P args -> P (FuncCall n args st l))
  (HBinary : forall op a b l, P a -> P b -> P (BinaryOp op a b l))
  (HLogical : forall op a b l, P a -> P b -> P (LogicalOp op a b l))
  (HNot : forall a l, P a -> P (NotOp a l)) (HCheck : forall k a l, P a -> P (NullCheck k a l))
  (e : Expr) : P e :=
  let rec := Expr_rect' P HInt HDouble HString HNull HBool HDate HTimestamp HColumn HCall
               HBinary HLogical HNot HCheck in
  match e with
  | IntLit v l => HInt v l
  | DoubleLit v l => HDouble v l
  | StringLit v l => HString v l
  | NullLit l => HNull l
  | BoolLit v l => HBool v l
  | DateLit v l => HDate v l
  | TimestampLit v l => HTimestamp v l
  | ColumnRef t c l => HColumn t c l
  | FuncCall n args st l =>
      HCall n args st l
        ((fix go (xs : list Expr) : Forall P xs :=
            match xs with [] => Forall_nil_2 P | x :: xs => Forall_cons_2 P x xs (rec x) (go xs) end) args)
  | BinaryOp op a b l => HBinary op a b l (rec a) (rec b)
  | LogicalOp op a b l => HLogical op a b l (rec a) (rec b)
  | NotOp a l => HNot a l (rec a)
  | NullCheck k a l => HCheck k a l (rec a)
  end.
End ast.
