(* ===== verification/Literals.v ===== *)
(** * Literals

    What the parser and the binder use of the C and C++ libraries to turn the text of a
    literal into a value, and their date arithmetic: the [DEFAULT] dates of
    [Parser::parse_default_literal_] (src/src/parser/parser.cpp) and [civil_to_days] and its
    callers (src/src/binder/binder.cpp).

    The text of a number token is digits, with a fraction and an exponent in a double, so
    only that part of the grammar of [strtoll] and [strtod] is modelled.  Signed overflow,
    a [%d] that does not fit and a read outside of an array are undefined: [None]. *)

From Stdlib Require Import Ascii SpecFloat.
From S2P Require Import Prelude Types Expression Lexer.

Fixpoint span_while (p : ascii -> bool) (l : list ascii) : list ascii * list ascii :=
  match l with
  | [] => ([], [])
  | c :: r => if p c then let '(a, b) := span_while p r in (c :: a, b) else ([], l)
  end.

Definition digit_val (c : ascii) : Z := Z.of_nat (code c) - 48.
Definition digits_val (l : list ascii) : Z := fold_left (fun a c => a * 10 + digit_val c) l 0.

Definition INT64_MAX : Z := 2 ^ 63 - 1.

(** [strtoll] returns the largest value when the number is out of range, [stoll] throws. *)
Definition strtoll (s : string) : Z := Z.min (digits_val (fst (span_while isdigit (chars s)))) INT64_MAX.

Definition stoll (s : string) : option Z :=
  let v := digits_val (fst (span_while isdigit (chars s))) in
  if v <=? INT64_MAX then Some v else None.

(** The double nearest to [m * 10 ^ e]. *)
Definition f64_of_decimal (m e : Z) : Z :=
  match m with
  | Zpos p =>
      bits_of_sf 0
        (if 0 <=? e then binary_normalize 53 1024 (m * 10 ^ e) 0 false
         else match 10 ^ (- e) with
              | Zpos q => SFdiv 53 1024 (S754_finite false p 0) (S754_finite false q 0)
              | _ => S754_zero false
              end)
  | _ => 0
  end.

Definition strtod (s : string) : Z :=
  let '(ip, r) := span_while isdigit (chars s) in
  let '(fp, r) :=
    match r with
    | c :: r' => if is_char "." c then span_while isdigit r' else ([], r)
    | [] => ([], r)
    end in
  let ex :=
    match r with
    | c :: r =>
        if is_char "e" c || is_char "E" c then
          match r with
          | d :: r' =>
              if is_char "-" d then - digits_val (fst (span_while isdigit r'))
              else if is_char "+" d then digits_val (fst (span_while isdigit r'))
              else digits_val (fst (span_while isdigit r))
          | [] => 0
          end
        else 0
    | [] => 0
    end in
  f64_of_decimal (digits_val (ip ++ fp)) (ex - zlen fp).

(** Negation flips the sign bit. *)
Definition f64_neg (b : Z) : Z := Z.lxor b (2 ^ 63).

(** ** sscanf *)

Inductive directive : Type := ConvInt | Blank | Char (c : ascii).

Definition c_space (c : ascii) : bool := is_char " " c || in_range TAB CR c.

(** [%d]: the number and the rest, [None] on a matching failure. *)
Definition scan_int (l : list ascii) : option (Z * list ascii) :=
  let '(_, l) := span_while c_space l in
  let '(neg, l) :=
    match l with
    | c :: r => if is_char "-" c then (true, r) else if is_char "+" c then (false, r) else (false, l)
    | [] => (false, l)
    end in
  let '(ds, r) := span_while isdigit l in
  match ds with
  | [] => None
  | _ => Some (if neg then - digits_val ds else digits_val ds, r)
  end.

(** The numbers read until the first directive that does not match. *)
Fixpoint sscanf (input : list ascii) (format : list directive) : option (list Z) :=
  match format with
  | [] => Some []
  | Blank :: f => sscanf (snd (span_while c_space input)) f
  | Char a :: f =>
      match input with
      | c :: r => if is_char a c then sscanf r f else Some []
      | [] => Some []
      end
  | ConvInt :: f =>
      match scan_int input with
      | None => Some []
      | Some (v, r) =>
          let! v := checked 32 v in
          let! vs := sscanf r f in
          Some (v :: vs)
      end
  end.

(** [s.c_str()] ends at the first null character. *)
Definition c_str (s : string) : list ascii := fst (span_while (fun c => negb (is_char NUL c)) (chars s)).

Definition DATE_FORMAT : list directive := [ConvInt; Char "-"; ConvInt; Char "-"; ConvInt].
Definition TIMESTAMP_FORMAT : list directive :=
  DATE_FORMAT ++ [Blank; ConvInt; Char ":"; ConvInt; Char ":"; ConvInt].

(** ** The dates of DEFAULT clauses *)

Definition month_days : list Z := [0; 31; 28; 31; 30; 31; 30; 31; 31; 30; 31; 30; 31].

(** [for (int i = 1; i < m; ++i) days += month_days[i];]  The thirteenth round would read
    outside of the array. *)
Fixpoint add_months (n : nat) (i m days : Z) : option Z :=
  match n with
  | O => Some days
  | S n =>
      if i <? m then
        let! k := month_days !! Z.to_nat i in
        let! days := checked 32 (days + k) in
        add_months n (i + 1) m days
      else Some days
  end.

Definition default_days (y m d : Z) : option Z :=
  let! k := checked 32 (y - 1970) in
  let! a := checked 32 (k * 365) in
  let! a := checked 32 (a + Z.quot k 4) in
  let! a := checked 32 (a - Z.quot k 100) in
  let! days := checked 32 (a + Z.quot k 400) in
  let! days := add_months 14 1 m days in
  let! e := checked 32 (d - 1) in
  checked 32 (days + e).

Definition default_micros (y mo d h mi se : Z) : option Z :=
  let! days := default_days y mo d in
  let! a := checked 64 (days * 86400000000) in
  let! a := checked 64 (a + h * 3600000000) in
  let! a := checked 64 (a + mi * 60000000) in
  checked 64 (a + se * 1000000).

(** ** The dates of expressions *)

Definition bad_month_day : string := "invalid date: month/day out of range".

(** [civil_to_days]: the arithmetic is in [int] for the year and [unsigned] for the rest. *)
Definition civil_to_days (y m d : Z) : result Z :=
  if (m <? 1) || (12 <? m) || (d <? 1) || (31 <? d) then Err bad_month_day
  else
    let yy := y - (if m <=? 2 then 1 else 0) in
    let era := Z.quot (if 0 <=? yy then yy else yy - 399) 400 in
    let yoe := wrap 32 (yy - era * 400) in
    let doy := wrap 32 ((153 * (if 2 <? m then m - 3 else m + 9) + 2) / 5 + d - 1) in
    let doe := wrap 32 (yoe * 365 + yoe / 4 - yoe / 100 + doy) in
    Ok (signed 32 (era * 146097 + doe - 719468)).

(** [s.substr(i, n)] and [s[i]] of a string that is long enough. *)
Definition sub (l : list ascii) (i n : nat) : list ascii := take n (drop i l).
Definition char_is (l : list ascii) (i : nat) (c : ascii) : bool := is_char c (nth i l NUL).

(** [std::stoi] and [std::stoll] of a short text: [None] is [std::invalid_argument].  Like
    [%d] they skip white space, take a sign and stop at the first other character. *)
Definition sto (l : list ascii) : option Z := fst <$> scan_int l.

(** [static_cast<unsigned>] *)
Definition to_unsigned (v : Z) : Z := wrap 32 v.

Definition bad_date_format : string := "invalid date format, expected YYYY-MM-DD".
Definition bad_date_number : string := "invalid date: could not parse numeric components".

Definition or_err {A B} (v : option A) (e : string) (k : A -> result B) : result B :=
  match v with Some a => k a | None => Err e end.

Definition parse_date_string (str : string) : result Z :=
  let s := chars str in
  if negb (length s =? 10)%nat || negb (char_is s 4 "-") || negb (char_is s 7 "-") then Err bad_date_format
  else
    or_err (sto (sub s 0 4)) bad_date_number (fun y =>
    or_err (sto (sub s 5 2)) bad_date_number (fun m =>
    or_err (sto (sub s 8 2)) bad_date_number (fun d =>
    civil_to_days y (to_unsigned m) (to_unsigned d)))).

Definition bad_ts_format : string :=
  "invalid timestamp format, expected YYYY-MM-DD HH:MM:SS[.ffffff]".
Definition bad_ts_number : string := "invalid timestamp: could not parse numeric components".
Definition bad_ts_range : string := "invalid timestamp: time component out of range".

(** The microseconds after the nineteenth character. *)
Definition fraction_micros (s : list ascii) : result Z :=
  if (19 <? length s)%nat then
    if negb (char_is s 19 ".") then Err "invalid timestamp: expected '.' before fractional seconds"
    else
      let frac := drop 20 s in
      if (6 <? length frac)%nat || (length frac =? 0)%nat
      then Err "invalid timestamp: fractional seconds must be 1-6 digits"
      else or_err (sto (frac ++ replicate (6 - length frac) "0"%char)) bad_ts_number Ok
  else Ok 0.

Definition parse_timestamp_string (str : string) : result Z :=
  let s := chars str in
  if (length s <? 19)%nat || negb (char_is s 4 "-") || negb (char_is s 7 "-")
     || (negb (char_is s 10 " ") && negb (char_is s 10 "T"))
     || negb (char_is s 13 ":") || negb (char_is s 16 ":")
  then Err bad_ts_format
  else
    or_err (sto (sub s 0 4)) bad_ts_number (fun y =>
    or_err (sto (sub s 5 2)) bad_ts_number (fun mo =>
    or_err (sto (sub s 8 2)) bad_ts_number (fun d =>
    or_err (sto (sub s 11 2)) bad_ts_number (fun h =>
    or_err (sto (sub s 14 2)) bad_ts_number (fun mi =>
    or_err (sto (sub s 17 2)) bad_ts_number (fun se =>
    let? us := fraction_micros s in
    if (h <? 0) || (23 <? h) || (mi <? 0) || (59 <? mi) || (se <? 0) || (59 <? se) then Err bad_ts_range
    else
      let? days := civil_to_days y (to_unsigned mo) (to_unsigned d) in
      Ok (days * 86400 * 1000000 + h * 3600 * 1000000 + mi * 60 * 1000000 + se * 1000000 + us))))))).
