(* ===== verification/Dates.v ===== *)
(** * Dates

    [civil_to_days] counts the days of the Gregorian calendar from 1970-01-01; the
    [DEFAULT] dates of the parser do not. *)

From S2P Require Import Prelude Types Lexer Literals.

(** ** The calendar *)

Definition is_leap (y : Z) : bool :=
  (y mod 4 =? 0) && negb (y mod 100 =? 0) || (y mod 400 =? 0).

Definition month_length (y m : Z) : Z :=
  if m =? 2 then if is_leap y then 29 else 28
  else if (m =? 4) || (m =? 6) || (m =? 9) || (m =? 11) then 30 else 31.

Record date : Type := mkDate { year : Z; month : Z; day : Z }.

Definition valid_date (d : date) : Prop :=
  1 <= month d <= 12 /\ 1 <= day d <= month_length (year d) (month d).

Definition next_day (d : date) : date :=
  if day d <? month_length (year d) (month d) then mkDate (year d) (month d) (day d + 1)
  else if month d <? 12 then mkDate (year d) (month d + 1) 1
  else mkDate (year d + 1) 1 1.

Definition days_of (d : date) : result Z := civil_to_days (year d) (month d) (day d).

(** The number that [civil_to_days] computes, without its casts. *)
Definition day_number (y m d : Z) : Z :=
  let yy := y - (if m <=? 2 then 1 else 0) in
  yy * 365 + yy / 4 - yy / 100 + yy / 400
  + (153 * (if 2 <? m then m - 3 else m + 9) + 2) / 5 + d - 1 - 719468.

Lemma civil_to_days_number y m d :
  -1000000 <= y <= 1000000 -> 1 <= m <= 12 -> 1 <= d <= 31 ->
  civil_to_days y m d = Ok (day_number y m d).
Proof.
  intros Hy Hm Hd. unfold civil_to_days, day_number.
  rewrite !(proj2 (Z.ltb_ge _ _)) by lia. cbn [orb].
  set (yy := y - (if m <=? 2 then 1 else 0)).
  assert (Hyy : -1000001 <= yy <= 1000000) by (unfold yy; destruct (m <=? 2); lia).
  assert (Hera : Z.quot (if 0 <=? yy then yy else yy - 399) 400 = yy / 400).
  { destruct (0 <=? yy) eqn:E; [apply Z.leb_le in E | apply Z.leb_gt in E];
      Z.to_euclidean_division_equations; lia. }
  rewrite Hera. set (mp := (153 * (if 2 <? m then m - 3 else m + 9) + 2) / 5).
  assert (Hmp : 0 <= mp <= 338).
  { unfold mp. destruct (2 <? m) eqn:E; [apply Z.ltb_lt in E | apply Z.ltb_ge in E];
      Z.to_euclidean_division_equations; lia. }
  rewrite (wrap_id 32 (yy - _)) by (unfold in_u; Z.to_euclidean_division_equations; lia).
  rewrite (wrap_id 32 (mp + d - 1)) by (unfold in_u; lia).
  rewrite wrap_id by (unfold in_u; Z.to_euclidean_division_equations; lia).
  rewrite signed_id by (unfold in_s; Z.to_euclidean_division_equations; lia).
  f_equal. Z.to_euclidean_division_equations; lia.
Qed.

(** A year has 365 days, and one more when it is a leap year. *)
Lemma leap_days y :
  y / 4 - y / 100 + y / 400
  = (y - 1) / 4 - (y - 1) / 100 + (y - 1) / 400 + (if is_leap y then 1 else 0).
Proof.
  unfold is_leap.
  destruct (y mod 4 =? 0) eqn:E4, (y mod 100 =? 0) eqn:E100, (y mod 400 =? 0) eqn:E400; simpl;
    rewrite ?Z.eqb_eq, ?Z.eqb_neq in *; Z.to_euclidean_division_equations; lia.
Qed.

(** The thirteen month numbers are the constants of the calendar. *)
Lemma day_number_next d :
  valid_date d ->
  let n := next_day d in day_number (year n) (month n) (day n) = day_number (year d) (month d) (day d) + 1.
Proof.
  destruct d as [y m d]. unfold valid_date, next_day, month_length. simpl. intros [Hm Hd].
  pose proof (leap_days y) as HL. unfold day_number.
  assert (m ∈ [1; 2; 3; 4; 5; 6; 7; 8; 9; 10; 11; 12]) as Hin.
  { assert (m = 1 \/ m = 2 \/ m = 3 \/ m = 4 \/ m = 5 \/ m = 6 \/ m = 7 \/ m = 8 \/ m = 9 \/ m = 10
      \/ m = 11 \/ m = 12) by lia. set_solver. }
  repeat (apply elem_of_cons in Hin as [-> | Hin]); try by apply elem_of_nil in Hin.
  all: cbn in Hd |- *.
  all: try (destruct (is_leap y)).
  all: match goal with |- context [?x <? ?k] => destruct (x <? k) eqn:E end;
    [apply Z.ltb_lt in E | apply Z.ltb_ge in E].
  all: repeat match goal with |- context [Zpos ?p + 1] =>
         let r := eval cbv in (Zpos p + 1) in change (Zpos p + 1) with r end.
  all: cbn -[Z.mul Z.add Z.sub Z.div]; rewrite ?Z.sub_0_r.
  all: repeat match goal with |- context [(153 * ?k + 2) / 5] =>
         let r := eval cbv in ((153 * k + 2) / 5) in change ((153 * k + 2) / 5) with r end.
  all: try (replace (y + 1 - 1) with y by lia); lia.
Qed.

Lemma valid_next d : valid_date d -> valid_date (next_day d) /\ year d <= year (next_day d) <= year d + 1.
Proof.
  destruct d as [y m d]. unfold valid_date, next_day. simpl. intros [Hm Hd].
  assert (forall m, 28 <= month_length y m <= 31).
  { intros k. unfold month_length. destruct (k =? 2); [destruct (is_leap y); lia|].
    destruct (_ || _); lia. }
  destruct (d <? month_length y m) eqn:E; [apply Z.ltb_lt in E | apply Z.ltb_ge in E]; simpl; [lia|].
  destruct (m <? 12) eqn:E2; [apply Z.ltb_lt in E2 | apply Z.ltb_ge in E2]; simpl.
  - pose proof (H (m + 1)). lia.
  - assert (month_length (y + 1) 1 = 31) as -> by done. lia.
Qed.

Lemma days_of_number d :
  valid_date d -> -1000000 <= year d <= 1000000 -> days_of d = Ok (day_number (year d) (month d) (day d)).
Proof.
  intros [Hm Hd] Hy. apply civil_to_days_number; [done | done |].
  assert (month_length (year d) (month d) <= 31); [|lia].
  unfold month_length. destruct (_ =? 2); [destruct (is_leap _); lia|]. destruct (_ || _); lia.
Qed.

(** ** DEFAULT dates *)

(** The days before a month in a year of 365 days. *)
Definition days_before (m : Z) : Z :=
  nth (Z.to_nat m) [0; 0; 31; 59; 90; 120; 151; 181; 212; 243; 273; 304; 334] 0.

Lemma checked_some w z : - 2 ^ (w - 1) <= z < 2 ^ (w - 1) -> Expression.checked w z = Some z.
Proof.
  intros H. unfold Expression.checked.
  by rewrite (proj2 (Z.leb_le _ _)), (proj2 (Z.ltb_lt _ _)) by lia.
Qed.

Lemma month_cases m : 1 <= m <= 12 -> m ∈ [1; 2; 3; 4; 5; 6; 7; 8; 9; 10; 11; 12].
Proof.
  intros Hm. assert (m = 1 \/ m = 2 \/ m = 3 \/ m = 4 \/ m = 5 \/ m = 6 \/ m = 7 \/ m = 8 \/ m = 9 \/ m = 10
    \/ m = 11 \/ m = 12) by lia. set_solver.
Qed.

Lemma add_step n i m days k :
  i < m -> month_days !! Z.to_nat i = Some k -> -2000000 <= days + k <= 2000000 ->
  add_months (S n) i m days = add_months n (i + 1) m (days + k).
Proof.
  intros Hi Hk Hd. cbn [add_months]. by rewrite (proj2 (Z.ltb_lt _ _)), Hk, checked_some by lia.
Qed.

Lemma add_stop n i m days : m <= i -> add_months n i m days = Some days.
Proof. intros H. destruct n; [done|]. cbn [add_months]. by rewrite (proj2 (Z.ltb_ge _ _)). Qed.

Lemma add_months_sum m days :
  1 <= m <= 12 -> -1000000 <= days <= 1000000 -> add_months 14 1 m days = Some (days + days_before m).
Proof.
  intros Hm Hd. apply month_cases in Hm.
  repeat (apply elem_of_cons in Hm as [-> | Hm]); try by apply elem_of_nil in Hm.
  all: repeat (erewrite add_step; [|lia | vm_compute; reflexivity | lia]).
  all: rewrite add_stop by lia; f_equal.
  all: match goal with |- context [days_before ?k] =>
         let r := eval cbv in (days_before k) in change (days_before k) with r end; lia.
Qed.

(** C18. The days of a date are counted correctly: [civil_to_days] maps 1970-01-01 to 0 and
    the day after a date to one more than the date, over the leap days of the Gregorian
    calendar and for a million years before and after; a month outside of 1 to 12 or a day outside of
    1 to 31 is an error. *)
Theorem civil_to_days_correct :
  days_of (mkDate 1970 1 1) = Ok 0 /\
  (forall d, valid_date d -> -999999 <= year d <= 999999 ->
     exists n, days_of d = Ok n /\ days_of (next_day d) = Ok (n + 1)) /\
  (forall y m d, ~ (1 <= m <= 12 /\ 1 <= d <= 31) -> civil_to_days y m d = Err bad_month_day).
Proof.
  split_and!; [done | |].
  - intros d Hd Hy. destruct (valid_next d Hd) as [Hn Hyn].
    exists (day_number (year d) (month d) (day d)). split; [apply days_of_number; [done | lia]|].
    rewrite days_of_number by (done || lia). by rewrite day_number_next.
  - intros y m d H. unfold civil_to_days.
    destruct ((m <? 1) || (12 <? m) || (d <? 1) || (31 <? d)) eqn:E; [done|].
    rewrite !orb_false_iff, !Z.ltb_ge in E. lia.
Qed.

Lemma civil_to_days_correct_witness :
  valid_date (mkDate 2024 2 28) /\ days_of (mkDate 1970 1 1) = Ok 0 /\
  days_of (mkDate 2024 2 28) = Ok 19781 /\ days_of (mkDate 2024 2 29) = Ok 19782.
Proof.
  assert (V : valid_date (mkDate 2024 2 28)) by (split; split; vm_compute; discriminate).
  destruct civil_to_days_correct as (H0 & H & _).
  destruct (H (mkDate 2024 2 28) V) as (n & Hn & Hn1); [cbn; lia|].
  assert (E : days_of (mkDate 2024 2 28) = Ok 19781) by (vm_compute; reflexivity).
  split; [exact V|]. split; [exact H0|]. split; [exact E|].
  rewrite E in Hn. injection Hn as <-. exact Hn1.
Defined.

(** The dates of DEFAULT clauses are wrong: in every year that follows a leap year, from
    1973 on, [DEFAULT DATE] stores for each date the day before it, since the parser counts the leap days
    as [(y - 1970) / 4]; the same literal in an expression is bound to the right day. *)
Theorem default_date_one_day_early y m d :
  1973 <= y <= 2069 -> y mod 4 = 1 -> valid_date (mkDate y m d) ->
  exists n, default_days y m d = Some n /\ civil_to_days y m d = Ok (n + 1).
Proof.
  intros Hy Hy4 Hv. pose proof (days_of_number _ Hv) as HN. destruct Hv as [Hm Hd]. cbn in HN, Hm, Hd.
  assert (Hl : is_leap y = false).
  { unfold is_leap. rewrite !orb_false_iff, andb_false_iff, !Z.eqb_neq.
    Z.to_euclidean_division_equations; lia. }
  assert (Hd31 : 1 <= d <= 31).
  { unfold month_length in Hd. rewrite Hl in Hd. destruct (m =? 2); [lia|]. destruct (_ || _); lia. }
  unfold days_of in HN. cbn in HN. rewrite HN by lia. unfold default_days.
  rewrite (checked_some 32 (y - 1970)) by lia. rewrite !checked_some by (Z.to_euclidean_division_equations; lia).
  rewrite add_months_sum by (Z.to_euclidean_division_equations; lia).
  assert (0 <= days_before m <= 334).
  { apply month_cases in Hm. repeat (apply elem_of_cons in Hm as [-> | Hm]; [by vm_compute|]).
    by apply elem_of_nil in Hm. }
  rewrite !checked_some by (Z.to_euclidean_division_equations; lia).
  eexists. split; [reflexivity|]. f_equal. unfold day_number.
  assert (H365 : forall k, k = y \/ k = y - 1 -> k / 4 - k / 100 + k / 400 = 478 + (y - 1973) / 4).
  { intros k Hk. Z.to_euclidean_division_equations; lia. }
  apply month_cases in Hm.
  repeat (apply elem_of_cons in Hm as [-> | Hm]); try by apply elem_of_nil in Hm.
  all: match goal with |- context [days_before ?k] =>
         let r := eval cbv in (days_before k) in change (days_before k) with r end.
  all: cbn -[Z.mul Z.add Z.sub Z.div Z.quot]; rewrite ?Z.sub_0_r.
  all: repeat match goal with |- context [(153 * ?k + 2) / 5] =>
         let r := eval cbv in ((153 * k + 2) / 5) in change ((153 * k + 2) / 5) with r end.
  all: pose proof (H365 y (or_introl eq_refl)); pose proof (H365 (y - 1) (or_intror eq_refl)).
  all: assert (Z.quot (y - 1970) 4 = (y - 1973) / 4 /\ Z.quot (y - 1970) 100 = 0 /\ Z.quot (y - 1970) 400 = 0)
    by (Z.to_euclidean_division_equations; lia); lia.
Qed.

Lemma default_date_one_day_early_witness :
  1973 mod 4 = 1 /\ valid_date (mkDate 1973 1 1) /\
  exists n, default_days 1973 1 1 = Some n /\ civil_to_days 1973 1 1 = Ok (n + 1).
Proof.
  assert (V : valid_date (mkDate 1973 1 1)) by (split; split; vm_compute; discriminate).
  split; [reflexivity|]. split; [exact V|].
  apply (default_date_one_day_early 1973 1 1); [lia | reflexivity | exact V].
Defined.
