(* ===== verification/Parser.v ===== *)
(** * Parser

    [Parser] (src/src/parser/parser.h, parser.cpp) and the rendering of its error messages
    (src/src/common/source_error.cpp).  A parsing function takes [pos_] and returns its
    value and the new position, the message of the error, or one of the two ways in which a
    literal of a [DEFAULT] clause can go wrong: an exception of the standard library that
    nothing catches, and undefined behaviour.  Every function of the recursive descent
    takes fuel; [Spent] is the answer when it runs out, and ParserTotal.v shows that it
    does not. *)

From Stdlib Require Import Ascii.
From S2P Require Import Prelude Types Expression Lexer Ast Literals.

(** ** Error messages *)

Section SourceError.
Context (source : list ascii).

(** The loop of [line_col] over the first [limit] characters. *)
Fixpoint line_col_loop (l : list ascii) (line col : Z) : Z * Z :=
  match l with
  | [] => (line, col)
  | c :: l =>
      if is_char LF c then line_col_loop l (wrap 32 (line + 1)) 1
      else line_col_loop l line (wrap 32 (col + 1))
  end.

Definition line_col (offset : Z) : Z * Z := line_col_loop (take (Z.to_nat offset) source) 1 1.

Fixpoint line_start (start : nat) : nat :=
  match start with
  | O => O
  | S k => if negb (is_char LF (cur source k)) then line_start k else start
  end.

Definition line_at (offset : Z) : list ascii :=
  let off := Z.to_nat (Z.min offset (zlen source)) in
  substr source (line_start off) (advance_while source (fun p => negb (is_char LF (cur source p))) off).

Definition render_source_error (loc : SourceLoc) (kind message : string) : string :=
  let '(line, col) := line_col (offset loc) in
  kind ++ " at line " ++ pretty line ++ ", col " ++ pretty col ++ ": " ++ message ++
  String.String LF ("  " ++ string_of (line_at (offset loc)) ++
  String.String LF ("  " ++ string_of (replicate (Z.to_nat (wrap 32 (col - 1))) " "%char) ++
    string_of (replicate (Z.to_nat (if loc_length loc =? 0 then 1 else loc_length loc)) "^"%char))).
End SourceError.

(** ** The parsing monad *)

Inductive outcome (A : Type) : Type :=
| Done (a : A) (pos : nat)
| Failed (message : string)
| Thrown (what : string)
| Undefined
| Spent.
Arguments Done {A} a pos.
Arguments Failed {A} message.
Arguments Thrown {A} what.
Arguments Undefined {A}.
Arguments Spent {A}.

Definition parser (A : Type) : Type := nat -> outcome A.

#[global] Instance parser_ret : MRet parser := fun A a pos => Done a pos.
#[global] Instance parser_bind : MBind parser := fun A B k m pos =>
  match m pos with
  | Done a pos => k a pos
  | Failed e => Failed e
  | Thrown w => Thrown w
  | Undefined => Undefined
  | Spent => Spent
  end.

Definition spent {A} : parser A := fun _ => Spent.

(** Undefined behaviour and exceptions of the values computed by [Literals]. *)
Definition defined {A} (v : option A) : parser A := fun pos =>
  match v with Some a => Done a pos | None => Undefined end.
Definition throws {A} (what : string) (v : option A) : parser A := fun pos =>
  match v with Some a => Done a pos | None => Thrown what end.

(** ** Operators *)

Record OpInfo : Type := mkOp {
  prec : Z; is_logical : bool; binop : BinaryOpKind; logop : LogicalOpKind }.

Definition lookup_op (k : Tok.TokenKind) : option OpInfo :=
  match k with
  | Tok.KW_OR => Some (mkOp 1 true ADD OR)
  | Tok.KW_AND => Some (mkOp 2 true ADD AND)
  | Tok.LT => Some (mkOp 4 false LT AND)
  | Tok.LE => Some (mkOp 4 false LE AND)
  | Tok.EQ => Some (mkOp 4 false EQ AND)
  | Tok.NE => Some (mkOp 4 false NE AND)
  | Tok.GE => Some (mkOp 4 false GE AND)
  | Tok.GT => Some (mkOp 4 false GT AND)
  | Tok.PLUS => Some (mkOp 5 false ADD AND)
  | Tok.MINUS => Some (mkOp 5 false SUB AND)
  | Tok.STAR => Some (mkOp 6 false MUL AND)
  | Tok.SLASH => Some (mkOp 6 false DIV AND)
  | _ => None
  end.

Definition combine_loc (a b : SourceLoc) : SourceLoc :=
  let start := Z.min (offset a) (offset b) in
  let end_a := wrap 32 (offset a + loc_length a) in
  let end_b := wrap 32 (offset b + loc_length b) in
  mkLoc start (wrap 32 (Z.max end_a end_b - start)).

Definition kind_eqb (a b : Tok.TokenKind) : bool := bool_decide (a = b).

Section Parser.
Context (source_ : list ascii) (tokens_ : list Token).

(** Whether [strtod] sets [errno] to [ERANGE] for a text, which makes [std::stod] throw;
    on underflow the C standard leaves it to the implementation. *)
Context (erange : string -> bool).

(** [tokens_.back()] of an empty vector is undefined; a [Parser] is given the tokens of the
    lexer, which end with the end-of-file token. *)
Definition back : Token := List.last tokens_ (mkToken Tok.END_OF_FILE (mkLoc 0 0) "").

Definition peek_at (pos_ ahead : nat) : Token :=
  match tokens_ !! (pos_ + ahead)%nat with Some t => t | None => back end.

Definition peek (ahead : nat) : parser Token := fun pos_ => Done (peek_at pos_ ahead) pos_.

Definition next_kind : parser Tok.TokenKind := t ← peek 0; mret (kind t).

Definition consume_ : parser Token := fun pos_ =>
  Done (peek_at pos_ 0) (if (pos_ + 1 <? length tokens_)%nat then S pos_ else pos_).

Definition match_ (k : Tok.TokenKind) : parser bool :=
  t ← peek 0;
  if negb (kind_eqb (kind t) k) then mret false
  else _ ← consume_; mret true.

Definition err_msg_ (msg : string) (tok : Token) : string :=
  render_source_error source_ (loc tok) "parse error" msg.

Definition fail_at {A} (msg : string) (tok : Token) : parser A := fun _ => Failed (err_msg_ msg tok).

(** [return err(err_msg_(msg, peek_()))] *)
Definition fail {A} (msg : string) : parser A := t ← peek 0; fail_at msg t.

(** [if (!match_(k)) return err(err_msg_(msg, peek_()));] *)
Definition require (k : Tok.TokenKind) (msg : string) : parser unit :=
  b ← match_ k;
  if b : bool then mret tt else fail msg.

(** [if (peek_().kind != k) return err(err_msg_(msg, peek_())); consume_()] *)
Definition take_kind (k : Tok.TokenKind) (msg : string) : parser Token :=
  t ← peek 0;
  if negb (kind_eqb (kind t) k) then fail_at msg t else consume_.

Definition identifier (msg : string) : parser string :=
  t ← take_kind Tok.IDENTIFIER msg; mret (text t).

(** [while (true) { item; if (!match_(COMMA)) break; }] *)
Fixpoint comma_list {A} (fuel : nat) (item : parser A) : parser (list A) :=
  match fuel with
  | O => spent
  | S f =>
      a ← item;
      b ← match_ Tok.COMMA;
      if b : bool then l ← comma_list f item; mret (a :: l) else mret [a]
  end.

(** ** Expressions *)

(** The negation of an integer literal cannot overflow: [strtoll] reads no sign in a literal, so its value is
    not INT64_MIN, and a second minus negates back. *)
Definition negate (tok : Token) (child : ast.Expr) : ast.Expr :=
  let combined := combine_loc (loc tok) (ast.expr_loc child) in
  match child with
  | ast.IntLit v _ => ast.IntLit (- v) combined
  | ast.DoubleLit v _ => ast.DoubleLit (f64_neg v) combined
  | _ => ast.BinaryOp SUB (ast.IntLit 0 (loc tok)) child combined
  end.

Fixpoint parse_binary_ (fuel : nat) (min_prec : Z) : parser ast.Expr :=
  match fuel with
  | O => spent
  | S f =>
      t ← peek 0;
      left ← (if (min_prec <=? 3) && kind_eqb (kind t) Tok.KW_NOT then
                not_tok ← consume_;
                r ← parse_binary_ f 3;
                mret (ast.NotOp r (combine_loc (loc not_tok) (ast.expr_loc r)))
              else parse_unary_ f);
      binary_loop f min_prec left
  end

with binary_loop (fuel : nat) (min_prec : Z) (left : ast.Expr) : parser ast.Expr :=
  match fuel with
  | O => spent
  | S f =>
      tok ← peek 0;
      if kind_eqb (kind tok) Tok.KW_IS && (min_prec <=? 4) then
        _ ← consume_;
        is_not ← match_ Tok.KW_NOT;
        null_tok ← take_kind Tok.KW_NULL "expected NULL after IS";
        binary_loop f min_prec
          (ast.NullCheck (if is_not : bool then IS_NOT_NULL else IS_NULL) left
             (combine_loc (ast.expr_loc left) (loc null_tok)))
      else
        match lookup_op (kind tok) with
        | None => mret left
        | Some info =>
            if prec info <? min_prec then mret left
            else
              _ ← consume_;
              right ← parse_binary_ f (prec info + 1);
              let combined := combine_loc (ast.expr_loc left) (ast.expr_loc right) in
              binary_loop f min_prec
                (if is_logical info then ast.LogicalOp (logop info) left right combined
                 else ast.BinaryOp (binop info) left right combined)
        end
  end

with parse_unary_ (fuel : nat) : parser ast.Expr :=
  match fuel with
  | O => spent
  | S f =>
      tok ← peek 0;
      if kind_eqb (kind tok) Tok.MINUS then
        _ ← consume_; child ← parse_unary_ f; mret (negate tok child)
      else if kind_eqb (kind tok) Tok.PLUS then _ ← consume_; parse_unary_ f
      else parse_primary_ f
  end

with parse_primary_ (fuel : nat) : parser ast.Expr :=
  match fuel with
  | O => spent
  | S f =>
      tok ← peek 0;
      match kind tok with
      | Tok.INT_LITERAL => _ ← consume_; mret (ast.IntLit (strtoll (text tok)) (loc tok))
      | Tok.DOUBLE_LITERAL => _ ← consume_; mret (ast.DoubleLit (strtod (text tok)) (loc tok))
      | Tok.STRING_LITERAL => _ ← consume_; mret (ast.StringLit (text tok) (loc tok))
      | Tok.KW_NULL => _ ← consume_; mret (ast.NullLit (loc tok))
      | Tok.KW_TRUE => _ ← consume_; mret (ast.BoolLit true (loc tok))
      | Tok.KW_FALSE => _ ← consume_; mret (ast.BoolLit false (loc tok))
      | Tok.KW_DATE =>
          _ ← consume_;
          str_tok ← take_kind Tok.STRING_LITERAL "expected date string after DATE";
          mret (ast.DateLit (text str_tok) (combine_loc (loc tok) (loc str_tok)))
      | Tok.KW_TIMESTAMP =>
          _ ← consume_;
          str_tok ← take_kind Tok.STRING_LITERAL "expected timestamp string after TIMESTAMP";
          mret (ast.TimestampLit (text str_tok) (combine_loc (loc tok) (loc str_tok)))
      | Tok.LPAREN =>
          _ ← consume_;
          r ← parse_binary_ f 1;
          _ ← require Tok.RPAREN "expected ')'";
          mret r
      | Tok.IDENTIFIER => parse_ident_or_call_ f
      | _ => fail_at "expected expression" tok
      end
  end

with parse_ident_or_call_ (fuel : nat) : parser ast.Expr :=
  match fuel with
  | O => spent
  | S f =>
      ident ← consume_;
      t ← peek 0;
      if kind_eqb (kind t) Tok.DOT then
        _ ← consume_;
        col ← take_kind Tok.IDENTIFIER "expected identifier after '.'";
        mret (ast.ColumnRef (Some (text ident)) (text col) (combine_loc (loc ident) (loc col)))
      else if kind_eqb (kind t) Tok.LPAREN then
        _ ← consume_;
        a ← peek 0;
        args ← (if kind_eqb (kind a) Tok.STAR then _ ← consume_; mret (true, [])
                else if negb (kind_eqb (kind a) Tok.RPAREN) then l ← args_loop f; mret (false, l)
                else mret (false, []));
        rparen ← take_kind Tok.RPAREN "expected ')'";
        mret (ast.FuncCall (text ident) (snd args) (fst args) (combine_loc (loc ident) (loc rparen)))
      else mret (ast.ColumnRef None (text ident) (loc ident))
  end

with args_loop (fuel : nat) : parser (list ast.Expr) :=
  match fuel with
  | O => spent
  | S f =>
      a ← parse_binary_ f 1;
      b ← match_ Tok.COMMA;
      if b : bool then l ← args_loop f; mret (a :: l) else mret [a]
  end.

(** Enough fuel for the tokens at hand. *)
Definition fuel : nat := 6 * length tokens_ + 8.

Definition parse_expr_ : parser ast.Expr := parse_binary_ fuel 1.

Definition parse_expression : parser ast.Expr :=
  r ← parse_expr_;
  t ← peek 0;
  if negb (kind_eqb (kind t) Tok.END_OF_FILE)
  then fail_at "unexpected token after expression" t else mret r.

(** ** SELECT *)

(** [if (match_(k)) x = p();] *)
Definition clause {A} (k : Tok.TokenKind) (p : parser A) : parser (option A) :=
  b ← match_ k;
  if b : bool then a ← p; mret (Some a) else mret None.

Definition items {A} (item : parser A) : parser (list A) := comma_list fuel item.

(** [if (match_(k)) { if (!match_(KW_BY)) ...; items }] *)
Definition by_clause {A} (k : Tok.TokenKind) (msg : string) (item : parser A) : parser (list A) :=
  b ← match_ k;
  if b : bool then _ ← require Tok.KW_BY msg; items item else mret [].

Definition parse_int_literal_ (what : string) : parser Z :=
  t ← take_kind Tok.INT_LITERAL ("expected integer after " ++ what);
  mret (strtoll (text t)).

(** The alias of a select item: after [AS] it must be there, else it may. *)
Definition parse_alias : parser (option Token) :=
  b ← match_ Tok.KW_AS;
  if b : bool then t ← take_kind Tok.IDENTIFIER "expected alias after AS"; mret (Some t)
  else
    k ← next_kind;
    if kind_eqb k Tok.IDENTIFIER then t ← consume_; mret (Some t) else mret None.

Definition parse_select_item_ : parser ast.SelectItem :=
  e ← parse_expr_;
  a ← parse_alias;
  mret (ast.mkSelectItem e (text <$> a)).

Definition parse_table_ref_ : parser ast.TableRef :=
  name_tok ← take_kind Tok.IDENTIFIER "expected table name";
  a ← parse_alias;
  mret (ast.mkTableRef (text name_tok) (text <$> a)
          (match a with Some t => combine_loc (loc name_tok) (loc t) | None => loc name_tok end)).

Definition parse_join_clause_ : parser ast.JoinClause :=
  _ ← match_ Tok.KW_INNER;
  _ ← require Tok.KW_JOIN "expected JOIN";
  right ← parse_table_ref_;
  _ ← require Tok.KW_ON "expected ON after join table";
  on ← parse_expr_;
  mret (ast.mkJoinClause right on).

Fixpoint joins_loop (n : nat) : parser (list ast.JoinClause) :=
  match n with
  | O => spent
  | S n =>
      k ← next_kind;
      if kind_eqb k Tok.KW_INNER || kind_eqb k Tok.KW_JOIN then
        j ← parse_join_clause_;
        l ← joins_loop n;
        mret (j :: l)
      else mret []
  end.

Definition parse_order_by_item_ : parser ast.OrderByItem :=
  e ← parse_expr_;
  d ← match_ Tok.KW_DESC;
  if d : bool then mret (ast.mkOrderByItem e false)
  else _ ← match_ Tok.KW_ASC; mret (ast.mkOrderByItem e true).

Definition parse_select_ : parser ast.SelectStmt :=
  _ ← require Tok.KW_SELECT "expected SELECT";
  k ← next_kind;
  proj ← (if kind_eqb k Tok.STAR then _ ← consume_; mret (true, [])
          else l ← items parse_select_item_; mret (false, l));
  _ ← require Tok.KW_FROM "expected FROM";
  from ← parse_table_ref_;
  joins ← joins_loop fuel;
  wh ← clause Tok.KW_WHERE parse_expr_;
  group_by ← by_clause Tok.KW_GROUP "expected BY after GROUP" parse_expr_;
  having ← clause Tok.KW_HAVING parse_expr_;
  order_by ← by_clause Tok.KW_ORDER "expected BY after ORDER" parse_order_by_item_;
  limit ← clause Tok.KW_LIMIT (parse_int_literal_ "LIMIT");
  offset ← clause Tok.KW_OFFSET (parse_int_literal_ "OFFSET");
  mret (ast.mkSelectStmt (snd proj) (fst proj) from joins wh group_by having order_by limit offset).

(** ** CREATE TABLE *)

Definition parse_default_literal_ : parser Value :=
  k ← next_kind;
  match k with
  | Tok.INT_LITERAL =>
      t ← consume_;
      v ← throws "stoll" (stoll (text t));
      mret (if (- 2 ^ 31 <=? v) && (v <=? 2 ^ 31 - 1) then VI32 v else VI64 v)
  | Tok.DOUBLE_LITERAL =>
      t ← consume_;
      v ← throws "stod" (if erange (text t) then None else Some (strtod (text t)));
      mret (VF64 v)
  | Tok.STRING_LITERAL => t ← consume_; mret (VStr (text t))
  | Tok.KW_TRUE => _ ← consume_; mret (VBool true)
  | Tok.KW_FALSE => _ ← consume_; mret (VBool false)
  | Tok.KW_NULL => _ ← consume_; mret VNull
  | Tok.KW_DATE =>
      _ ← consume_;
      t ← take_kind Tok.STRING_LITERAL "expected date string after DATE";
      vs ← defined (sscanf (c_str (text t)) DATE_FORMAT);
      match vs with
      | [y; m; d] => days ← defined (default_days y m d); mret (VDate days)
      | _ => fail ("invalid DATE literal: " ++ text t)
      end
  | Tok.KW_TIMESTAMP =>
      _ ← consume_;
      t ← take_kind Tok.STRING_LITERAL "expected timestamp string after TIMESTAMP";
      vs ← defined (sscanf (c_str (text t)) TIMESTAMP_FORMAT);
      let at_ i := nth i vs 0 in
      micros ← defined (default_micros (at_ 0%nat) (at_ 1%nat) (at_ 2%nat) (at_ 3%nat) (at_ 4%nat) (at_ 5%nat));
      mret (VTimestamp micros)
  | _ => fail "expected a literal value after DEFAULT"
  end.

(** The type of a column and its [max_len]. *)
Definition parse_column_type : parser (TypeId * Z) :=
  k ← next_kind;
  match k with
  | Tok.KW_INT | Tok.KW_INTEGER => _ ← consume_; mret (INT32, 255)
  | Tok.KW_BIGINT => _ ← consume_; mret (INT64, 255)
  | Tok.KW_DOUBLE => _ ← consume_; mret (DOUBLE, 255)
  | Tok.KW_VARCHAR | Tok.KW_NVARCHAR =>
      _ ← consume_;
      b ← match_ Tok.LPAREN;
      if b : bool then
        n ← parse_int_literal_ "VARCHAR";
        if (n <=? 0) || (65535 <? n) then fail "VARCHAR length must be between 1 and 65535"
        else _ ← require Tok.RPAREN "expected ')'"; mret (VARCHAR, wrap 16 n)
      else mret (VARCHAR, 255)
  | Tok.KW_BOOL | Tok.KW_BOOLEAN => _ ← consume_; mret (BOOL, 255)
  | Tok.KW_DATE => _ ← consume_; mret (DATE, 255)
  | Tok.KW_TIMESTAMP => _ ← consume_; mret (TIMESTAMP, 255)
  | _ => fail "expected column type"
  end.

(** The [NOT NULL], [PRIMARY KEY], [UNIQUE] and [DEFAULT] of a column, in any order. *)
Fixpoint column_options (n : nat) (def : ast.ColumnDef) : parser ast.ColumnDef :=
  match n with
  | O => spent
  | S n =>
      let '(ast.mkColumnDef name type nullable max_len pk uniq dflt) := def in
      k ← next_kind;
      if kind_eqb k Tok.KW_NOT then
        _ ← consume_;
        _ ← require Tok.KW_NULL "expected NULL after NOT";
        column_options n (ast.mkColumnDef name type false max_len pk uniq dflt)
      else if kind_eqb k Tok.KW_PRIMARY then
        _ ← consume_;
        _ ← require Tok.KW_KEY "expected KEY after PRIMARY";
        column_options n (ast.mkColumnDef name type false max_len true uniq dflt)
      else if kind_eqb k Tok.KW_UNIQUE then
        _ ← consume_;
        column_options n (ast.mkColumnDef name type nullable max_len pk true dflt)
      else if kind_eqb k Tok.KW_DEFAULT then
        _ ← consume_;
        dv ← parse_default_literal_;
        column_options n (ast.mkColumnDef name type nullable max_len pk uniq (Some dv))
      else mret def
  end.

Definition parse_column_def_ : parser ast.ColumnDef :=
  name ← identifier "expected column name";
  ty ← parse_column_type;
  column_options fuel (ast.mkColumnDef name (fst ty) true (snd ty) false false None).

Definition parse_table_constraint_ : parser ast.TableConstraint :=
  k ← next_kind;
  name ← (if kind_eqb k Tok.KW_CONSTRAINT then
            _ ← consume_; identifier "expected constraint name after CONSTRAINT"
          else mret "");
  k ← next_kind;
  ck ← (if kind_eqb k Tok.KW_PRIMARY then
          _ ← consume_; _ ← require Tok.KW_KEY "expected KEY after PRIMARY"; mret ast.PRIMARY_KEY
        else if kind_eqb k Tok.KW_UNIQUE then
          _ ← consume_; _ ← match_ Tok.KW_KEY; mret ast.UNIQUE
        else fail "expected PRIMARY KEY or UNIQUE");
  _ ← require Tok.LPAREN "expected '('";
  cols ← items (identifier "expected column name");
  _ ← require Tok.RPAREN "expected ')'";
  match cols with
  | [] => fail "constraint must specify at least one column"
  | _ => mret (ast.mkTableConstraint ck name cols)
  end.

Definition parse_partition_def_ : parser ast.PartitionDefAst :=
  _ ← require Tok.KW_PARTITION "expected PARTITION";
  name ← identifier "expected partition name";
  _ ← require Tok.KW_VALUES "expected VALUES";
  _ ← require Tok.KW_LESS "expected LESS";
  _ ← require Tok.KW_THAN "expected THAN";
  _ ← require Tok.LPAREN "expected '('";
  k ← next_kind;
  bound ← (if kind_eqb k Tok.KW_MAXVALUE then _ ← consume_; mret None
           else e ← parse_expr_; mret (Some e));
  _ ← require Tok.RPAREN "expected ')'";
  _ ← require Tok.KW_ON "expected ON";
  addr ← take_kind Tok.STRING_LITERAL "expected node address string";
  mret (ast.mkPartitionDef name (match bound with None => true | Some _ => false end) bound (text addr)).

(** One round of the loop over the columns and constraints of a table. *)
Definition table_element : parser (ast.ColumnDef + ast.TableConstraint) :=
  k ← next_kind;
  if kind_eqb k Tok.KW_PRIMARY || kind_eqb k Tok.KW_UNIQUE || kind_eqb k Tok.KW_CONSTRAINT
  then tc ← parse_table_constraint_; mret (inr tc)
  else col ← parse_column_def_; mret (inl col).

Definition partition_clause : parser (option string * list ast.PartitionDefAst) :=
  k ← next_kind;
  if kind_eqb k Tok.KW_PARTITION then
    _ ← consume_;
    _ ← require Tok.KW_BY "expected BY after PARTITION";
    _ ← require Tok.KW_RANGE "expected RANGE";
    _ ← require Tok.LPAREN "expected '(' after RANGE";
    col ← identifier "expected partition column name";
    _ ← require Tok.RPAREN "expected ')' after partition column";
    _ ← require Tok.LPAREN "expected '(' for partition list";
    defs ← items parse_partition_def_;
    _ ← require Tok.RPAREN "expected ')' to close partition list";
    mret (Some col, defs)
  else mret (None, []).

Definition parse_create_table_ : parser ast.CreateTableStmt :=
  _ ← require Tok.KW_CREATE "expected CREATE";
  _ ← require Tok.KW_TABLE "expected TABLE";
  name ← identifier "expected table name";
  _ ← require Tok.LPAREN "expected '('";
  elems ← items table_element;
  _ ← require Tok.RPAREN "expected ')'";
  part ← partition_clause;
  mret (ast.mkCreateTable name
          (omap (fun e => match e with inl c => Some c | inr _ => None end) elems)
          (omap (fun e => match e with inl _ => None | inr c => Some c end) elems)
          (fst part) (snd part)).

(** ** The other statements *)

Definition insert_row : parser (list ast.Expr) :=
  _ ← require Tok.LPAREN "expected '('";
  row ← items parse_expr_;
  _ ← require Tok.RPAREN "expected ')'";
  mret row.

Definition parse_insert_ : parser ast.InsertStmt :=
  _ ← require Tok.KW_INSERT "expected INSERT";
  _ ← require Tok.KW_INTO "expected INTO";
  name ← identifier "expected table name";
  b ← match_ Tok.LPAREN;
  columns ← (if b : bool then
               l ← items (identifier "expected column name");
               _ ← require Tok.RPAREN "expected ')'";
               mret l
             else mret []);
  _ ← require Tok.KW_VALUES "expected VALUES";
  rows ← items insert_row;
  mret (ast.mkInsert name columns rows).

Definition parse_drop_table_ : parser ast.DropTableStmt :=
  _ ← consume_;
  _ ← require Tok.KW_TABLE "expected TABLE";
  b ← match_ Tok.KW_IF;
  _ ← (if b : bool then require Tok.KW_EXISTS "expected EXISTS after IF" else mret tt);
  name ← identifier "expected table name";
  mret (ast.mkDropTable name b).

Definition parse_delete_ : parser ast.DeleteStmt :=
  _ ← consume_;
  _ ← require Tok.KW_FROM "expected FROM";
  tbl ← identifier "expected table name";
  wh ← clause Tok.KW_WHERE parse_expr_;
  mret (ast.mkDelete tbl wh).

Definition assignment : parser ast.Assignment :=
  col ← identifier "expected column name";
  _ ← require Tok.EQ "expected '='";
  e ← parse_expr_;
  mret (ast.mkAssignment col e).

Definition parse_update_ : parser ast.UpdateStmt :=
  _ ← consume_;
  tbl ← identifier "expected table name";
  _ ← require Tok.KW_SET "expected SET";
  l ← items assignment;
  wh ← clause Tok.KW_WHERE parse_expr_;
  mret (ast.mkUpdate tbl l wh).

Definition parse_create_index_ : parser ast.CreateIndexStmt :=
  _ ← consume_;
  unique ← match_ Tok.KW_UNIQUE;
  _ ← require Tok.KW_INDEX "expected INDEX";
  index_name ← identifier "expected index name";
  _ ← require Tok.KW_ON "expected ON";
  table_name ← identifier "expected table name";
  _ ← require Tok.LPAREN "expected '('";
  cols ← items (identifier "expected column name");
  _ ← require Tok.RPAREN "expected ')'";
  mret (ast.mkCreateIndex index_name table_name cols unique).

Definition parse_drop_index_ : parser ast.DropIndexStmt :=
  _ ← consume_;
  _ ← require Tok.KW_INDEX "expected INDEX";
  index_name ← identifier "expected index name";
  _ ← require Tok.KW_ON "expected ON";
  table_name ← identifier "expected table name";
  mret (ast.mkDropIndex index_name table_name).

Definition parse_show_indexes_ : parser string :=
  _ ← consume_;
  _ ← require Tok.KW_INDEXES "expected INDEXES";
  _ ← require Tok.KW_FROM "expected FROM";
  identifier "expected table name".

Definition parse_show_constraints_ : parser string :=
  _ ← consume_;
  _ ← require Tok.KW_CONSTRAINTS "expected CONSTRAINTS";
  _ ← require Tok.KW_FROM "expected FROM";
  identifier "expected table name".

Definition parse_alter_add_partition_ : parser ast.AlterAddPartitionStmt :=
  _ ← require Tok.KW_ALTER "expected ALTER";
  _ ← require Tok.KW_TABLE "expected TABLE";
  name ← identifier "expected table name";
  _ ← require Tok.KW_ADD "expected ADD";
  pd ← parse_partition_def_;
  mret (ast.mkAlter name pd).

Definition parse_vacuum : parser string :=
  _ ← consume_; identifier "expected table name after VACUUM".

Definition parse_one_statement_ : parser ast.Statement :=
  t ← peek 0;
  next ← peek 1;
  match kind t with
  | Tok.KW_SELECT => s ← parse_select_; mret (ast.SSelect s)
  | Tok.KW_CREATE =>
      if kind_eqb (kind next) Tok.KW_TABLE then s ← parse_create_table_; mret (ast.SCreateTable s)
      else if kind_eqb (kind next) Tok.KW_INDEX || kind_eqb (kind next) Tok.KW_UNIQUE
      then s ← parse_create_index_; mret (ast.SCreateIndex s)
      else fail_at "expected TABLE or INDEX after CREATE" next
  | Tok.KW_INSERT => s ← parse_insert_; mret (ast.SInsert s)
  | Tok.KW_DROP =>
      if kind_eqb (kind next) Tok.KW_TABLE then s ← parse_drop_table_; mret (ast.SDropTable s)
      else if kind_eqb (kind next) Tok.KW_INDEX then s ← parse_drop_index_; mret (ast.SDropIndex s)
      else fail_at "expected TABLE or INDEX after DROP" next
  | Tok.KW_SHOW =>
      if kind_eqb (kind next) Tok.KW_CONSTRAINTS
      then s ← parse_show_constraints_; mret (ast.SShowConstraints s)
      else s ← parse_show_indexes_; mret (ast.SShowIndexes s)
  | Tok.KW_DELETE => s ← parse_delete_; mret (ast.SDelete s)
  | Tok.KW_UPDATE => s ← parse_update_; mret (ast.SUpdate s)
  | Tok.KW_VACUUM => s ← parse_vacuum; mret (ast.SVacuum s)
  | Tok.KW_ALTER => s ← parse_alter_add_partition_; mret (ast.SAlterAddPartition s)
  | _ => fail_at "expected statement" t
  end.

Definition parse_statement : parser ast.Statement :=
  r ← parse_one_statement_;
  _ ← match_ Tok.SEMICOLON;
  t ← peek 0;
  if negb (kind_eqb (kind t) Tok.END_OF_FILE)
  then fail_at "unexpected token after statement" t else mret r.

Fixpoint parse_loop (n : nat) : parser (list ast.Statement) :=
  match n with
  | O => spent
  | S n =>
      k ← next_kind;
      if kind_eqb k Tok.END_OF_FILE then mret []
      else
        s ← parse_one_statement_;
        k ← next_kind;
        if kind_eqb k Tok.END_OF_FILE then mret [s]
        else
          _ ← require Tok.SEMICOLON "expected ';' between statements";
          l ← parse_loop n;
          mret (s :: l)
  end.

Definition parse : parser (list ast.Statement) := parse_loop fuel.
End Parser.

(** ** From text to statements *)

(** The first steps of [Database::execute]: the tokens of the text, then the statements. *)
Definition parse_sql (erange : string -> bool) (sql : list ascii) : outcome (list ast.Statement) :=
  match tokenize sql with
  | None => Spent
  | Some (Err m) => Failed m
  | Some (Ok toks) => parse sql toks erange 0%nat
  end.
