(* ===== verification/ParserTotal.v ===== *)
(** * The parser always returns

    A weakest-precondition calculus for the parsing monad, over a token list that ends with
    the end-of-file token: [wp m pos Q] says that [m], started at [pos], does not run out of
    fuel, satisfies [Q] when it succeeds, and throws or is undefined only when the tokens
    contain [DEFAULT].  The measure is the number of tokens left: no function consumes the
    end-of-file token, so each consumed token decreases it, and a token is worth the six
    nested calls that [parse_binary_] can make before it consumes the next. *)

From Stdlib Require Import Ascii.
From S2P Require Import Prelude Types Expression Lexer LexerSpec Ast Literals Parser.

Section Total.
Context (source_ : list ascii) (ts : list Token) (eof : Token) (erange : string -> bool).
Context (Heof : kind eof = Tok.END_OF_FILE).

Let tokens_ : list Token := ts ++ [eof].
Let top : nat := length ts.

Definition has_default : Prop := Exists (fun t => kind t = Tok.KW_DEFAULT) ts.

Definition wp {A} (m : parser A) (pos : nat) (Q : A -> nat -> Prop) : Prop :=
  match m pos with
  | Done a p => Q a p
  | Failed _ => True
  | Thrown _ | Undefined => has_default
  | Spent => False
  end.

Lemma wp_ret {A} (a : A) pos (Q : A -> nat -> Prop) : Q a pos -> wp (mret a) pos Q.
Proof. done. Qed.

Lemma wp_bind {A B} (m : parser A) (k : A -> parser B) pos Q :
  wp m pos (fun a p => wp (k a) p Q) -> wp (mbind k m) pos Q.
Proof. unfold wp, mbind, parser_bind. by destruct (m pos). Qed.

Lemma wp_mono {A} (m : parser A) pos (Q R : A -> nat -> Prop) :
  wp m pos Q -> (forall a p, Q a p -> R a p) -> wp m pos R.
Proof. unfold wp. destruct (m pos); auto. Qed.

Lemma wp_fail_at {A} msg t pos (Q : A -> nat -> Prop) : wp (fail_at source_ msg t) pos Q.
Proof. done. Qed.

Lemma wp_fail {A} msg pos (Q : A -> nat -> Prop) : wp (fail source_ tokens_ msg) pos Q.
Proof. done. Qed.

Lemma wp_peek n pos Q : Q (peek_at tokens_ pos n) pos -> wp (peek tokens_ n) pos Q.
Proof. done. Qed.

Lemma wp_next_kind pos (Q : Tok.TokenKind -> nat -> Prop) :
  Q (kind (peek_at tokens_ pos 0)) pos -> wp (next_kind tokens_) pos Q.
Proof. done. Qed.

Lemma peek_before pos : (pos <= top)%nat -> kind (peek_at tokens_ pos 0) <> Tok.END_OF_FILE -> (pos < top)%nat.
Proof.
  intros Hp Hk. destruct (decide (pos = top)) as [-> | ?]; [|lia].
  exfalso. apply Hk. unfold peek_at, tokens_, top. rewrite Nat.add_0_r, list_lookup_middle by done. done.
Qed.

Lemma wp_consume pos Q :
  (pos <= top)%nat -> kind (peek_at tokens_ pos 0) <> Tok.END_OF_FILE ->
  ((pos < top)%nat -> Q (peek_at tokens_ pos 0) (S pos)) -> wp (consume_ tokens_) pos Q.
Proof.
  intros Hp Hk HQ. pose proof (peek_before _ Hp Hk). unfold wp, consume_.
  assert ((pos + 1 <? length tokens_)%nat = true) as ->; [|by apply HQ].
  apply Nat.ltb_lt. unfold tokens_. rewrite length_app. simpl. fold top. lia.
Qed.

Lemma kind_eqb_true a b : kind_eqb a b = true <-> a = b.
Proof. unfold kind_eqb. by rewrite bool_decide_eq_true. Qed.

Lemma wp_match k pos (Q : bool -> nat -> Prop) :
  (pos <= top)%nat -> k <> Tok.END_OF_FILE ->
  ((pos < top)%nat -> Q true (S pos)) -> Q false pos -> wp (match_ tokens_ k) pos Q.
Proof.
  intros Hp Hk HT HF. unfold match_. apply wp_bind, wp_peek.
  destruct (kind_eqb _ k) eqn:E; simpl.
  - apply kind_eqb_true in E. apply wp_bind, wp_consume; [done | congruence |].
    intros ?. by apply wp_ret, HT.
  - done.
Qed.

Lemma wp_require k msg pos (Q : unit -> nat -> Prop) :
  (pos <= top)%nat -> k <> Tok.END_OF_FILE ->
  ((pos < top)%nat -> Q tt (S pos)) -> wp (require source_ tokens_ k msg) pos Q.
Proof.
  intros Hp Hk HQ. unfold require. apply wp_bind, wp_match; [done | done | | apply wp_fail].
  intros ?. by apply wp_ret, HQ.
Qed.

Lemma wp_take_kind k msg pos (Q : Token -> nat -> Prop) :
  (pos <= top)%nat -> k <> Tok.END_OF_FILE ->
  (forall t, (pos < top)%nat -> kind t = k -> Q t (S pos)) -> wp (take_kind source_ tokens_ k msg) pos Q.
Proof.
  intros Hp Hk HQ. unfold take_kind. apply wp_bind, wp_peek.
  destruct (kind_eqb _ k) eqn:E; simpl; [|apply wp_fail_at].
  apply kind_eqb_true in E. apply wp_consume; [done | congruence |]. intros ?. by apply HQ.
Qed.

Lemma wp_identifier msg pos (Q : string -> nat -> Prop) :
  (pos <= top)%nat -> (forall s, (pos < top)%nat -> Q s (S pos)) ->
  wp (identifier source_ tokens_ msg) pos Q.
Proof.
  intros Hp HQ. unfold identifier. apply wp_bind, wp_take_kind; [done | done |].
  intros t ? _. by apply wp_ret, HQ.
Qed.

(** A parser that consumes at least one token, and one that may consume none. *)
Definition adv {A} (pos : nat) : A -> nat -> Prop := fun _ p => (pos < p <= top)%nat.
Definition keep {A} (pos : nat) : A -> nat -> Prop := fun _ p => (pos <= p <= top)%nat.

Definition advances {A} (m : parser A) : Prop := forall pos, (pos <= top)%nat -> wp m pos (adv pos).
Definition keeps {A} (m : parser A) : Prop := forall pos, (pos <= top)%nat -> wp m pos (keep pos).

Lemma wp_advances {A} (m : parser A) pos (Q : A -> nat -> Prop) :
  advances m -> (pos <= top)%nat -> (forall a p, (pos < p <= top)%nat -> Q a p) -> wp m pos Q.
Proof. intros Hm Hp HQ. eapply wp_mono; [by apply Hm | done]. Qed.

Lemma wp_keeps {A} (m : parser A) pos (Q : A -> nat -> Prop) :
  keeps m -> (pos <= top)%nat -> (forall a p, (pos <= p <= top)%nat -> Q a p) -> wp m pos Q.
Proof. intros Hm Hp HQ. eapply wp_mono; [by apply Hm | done]. Qed.

Lemma lookup_op_eof k info : lookup_op k = Some info -> k <> Tok.END_OF_FILE.
Proof. intros H ->. done. Qed.

(** What each function of the expression grammar needs, with [f] the fuel. *)
Local Ltac side := solve [done | lia | congruence | eauto using lookup_op_eof].
Local Ltac wp_step :=
  match goal with
  | |- wp (mret _) _ _ => apply wp_ret
  | |- wp (mbind _ _) _ _ => apply wp_bind
  | |- wp (peek _ _) _ _ => apply wp_peek
  | |- wp (next_kind _) _ _ => apply wp_next_kind
  | |- wp (fail_at _ _ _) _ _ => apply wp_fail_at
  | |- wp (fail _ _ _) _ _ => apply wp_fail
  | |- wp (consume_ _) _ _ => apply wp_consume; [side | side | intros ?]
  | |- wp (match_ _ _) _ _ => apply wp_match; [side | side | intros ? | ]
  | |- wp (require _ _ _ _) _ _ => apply wp_require; [side | side | intros ?]
  | |- wp (take_kind _ _ _ _) _ _ => apply wp_take_kind; [side | side | intros ? ? ?]
  | |- wp (identifier _ _ _) _ _ => apply wp_identifier; [side | intros ? ?]
  | |- wp (if kind_eqb ?a ?b then _ else _) _ _ =>
      let E := fresh "E" in destruct (kind_eqb a b) eqn:E; [apply kind_eqb_true in E|]
  | |- wp (if negb (kind_eqb ?a ?b) then _ else _) _ _ =>
      let E := fresh "E" in destruct (kind_eqb a b) eqn:E; [apply kind_eqb_true in E|]; cbv [negb]
  | |- wp (if ?b then _ else _) _ _ =>
      let E := fresh "E" in destruct b eqn:E; rewrite ?andb_true_iff, ?kind_eqb_true in E
  | |- wp (match kind ?t with _ => _ end) _ _ => let E := fresh "E" in destruct (kind t) eqn:E
  | |- wp (match lookup_op ?k with _ => _ end) _ _ =>
      let E := fresh "E" in destruct (lookup_op k) eqn:E
  end.
Local Ltac wps := repeat (wp_step; cbv beta).

Local Ltac use H := eapply wp_mono; [apply H; side | cbv beta; intros ? ? ?; cbv beta].

Definition expr_total (f : nat) : Prop :=
  (forall min pos, (pos <= top)%nat -> (6 * (top - pos) + 6 <= f)%nat ->
     wp (parse_binary_ source_ tokens_ f min) pos (adv pos)) /\
  (forall min left pos, (pos <= top)%nat -> (6 * (top - pos) + 1 <= f)%nat ->
     wp (binary_loop source_ tokens_ f min left) pos (keep pos)) /\
  (forall pos, (pos <= top)%nat -> (6 * (top - pos) + 5 <= f)%nat ->
     wp (parse_unary_ source_ tokens_ f) pos (adv pos)) /\
  (forall pos, (pos <= top)%nat -> (6 * (top - pos) + 4 <= f)%nat ->
     wp (parse_primary_ source_ tokens_ f) pos (adv pos)) /\
  (forall pos, (pos <= top)%nat -> (6 * (top - pos) + 3 <= f)%nat ->
     kind (peek_at tokens_ pos 0) = Tok.IDENTIFIER ->
     wp (parse_ident_or_call_ source_ tokens_ f) pos (adv pos)) /\
  (forall pos, (pos <= top)%nat -> (6 * (top - pos) + 7 <= f)%nat ->
     wp (args_loop source_ tokens_ f) pos (adv pos)).

Lemma expr_total_all f : expr_total f.
Proof.
  induction f as [|f (HB & HL & HU & HP & HI & HA)]; [unfold expr_total; split_and!; intros; lia|].
  unfold expr_total, adv, keep in *. split_and!.
  - intros min pos Hp Hf. cbn [parse_binary_]. apply wp_bind, wp_peek, wp_bind. cbv beta.
    wp_step.
    + destruct E as [_ E]. wps. use HB. wps. use HL. lia.
    + use HU. use HL. lia.
  - intros min left pos Hp Hf. cbn [binary_loop]. apply wp_bind, wp_peek. cbv beta. wp_step.
    + destruct E as [E _]. wps; use HL; lia.
    + wps; [| |lia]; [lia|]. use HB. use HL. lia.
  - intros pos Hp Hf. cbn [parse_unary_]. wps; [use HU; wps; lia | use HU; lia | use HP; lia].
  - intros pos Hp Hf. cbn [parse_primary_]. apply wp_bind, wp_peek. cbv beta.
    wp_step; try exact I; try (by apply HI; [lia.. |]).
    all: wps; try lia. use HB. wps. lia.
  - intros pos Hp Hf Hk. cbn [parse_ident_or_call_]. wps; try lia. use HA. wps. lia.
  - intros pos Hp Hf. cbn [args_loop]. wps. use HB. wps; [|lia]. use HA. wps. lia.
Qed.

Lemma parse_expr_advances : advances (parse_expr_ source_ tokens_).
Proof.
  intros pos Hp. apply expr_total_all; [done|]. unfold fuel, tokens_, top in *. rewrite length_app. lia.
Qed.

Lemma fuel_enough pos : (top - pos < fuel tokens_)%nat.
Proof. unfold fuel, tokens_, top. rewrite length_app. lia. Qed.

Lemma comma_list_advances {A} (item : parser A) f pos :
  advances item -> (pos <= top)%nat -> (top - pos < f)%nat ->
  wp (comma_list tokens_ f item) pos (adv pos).
Proof.
  intros Hi. revert pos. induction f as [|f IH]; intros pos Hp Hf; [lia|]. cbn [comma_list].
  apply wp_bind, wp_advances; [done | done |]. intros a p ?. wps; unfold adv in *; [|lia].
  use IH. wps. lia.
Qed.

Lemma items_advances {A} (item : parser A) : advances item -> advances (items tokens_ item).
Proof. intros Hi pos Hp. by apply comma_list_advances; [| |apply fuel_enough]. Qed.

Lemma clause_keeps {A} k (p : parser A) :
  k <> Tok.END_OF_FILE -> advances p -> keeps (clause tokens_ k p).
Proof.
  intros Hk Hi pos Hp. unfold clause, keep. wps; [|lia].
  apply wp_advances; [done | done |]. intros. wps. lia.
Qed.

Lemma by_clause_keeps {A} k msg (p : parser A) :
  k <> Tok.END_OF_FILE -> advances p -> keeps (by_clause source_ tokens_ k msg p).
Proof.
  intros Hk Hi pos Hp. unfold by_clause, keep. wps; [|lia].
  apply wp_advances; [by apply items_advances | done |]. intros. lia.
Qed.

Lemma int_literal_advances what : advances (parse_int_literal_ source_ tokens_ what).
Proof. intros pos Hp. unfold parse_int_literal_, adv. wps. lia. Qed.

Lemma identifier_advances msg : advances (identifier source_ tokens_ msg).
Proof. intros pos Hp. unfold adv. wps. lia. Qed.

Lemma parse_alias_keeps : keeps (parse_alias source_ tokens_).
Proof. intros pos Hp. unfold parse_alias, keep. wps; lia. Qed.

Create HintDb parsing discriminated.
Hint Resolve parse_expr_advances items_advances clause_keeps by_clause_keeps int_literal_advances
  identifier_advances parse_alias_keeps : parsing.
Hint Extern 1 (_ <> Tok.END_OF_FILE) => discriminate : parsing.

(** The steps of a statement: a call of a parser with a hint, else a primitive step. *)
Local Ltac stm_step :=
  first
    [ wp_step
    | lazymatch goal with |- wp _ _ _ =>
        first
          [ apply wp_advances; [solve [eauto with parsing nocore] | side | intros ? ? ?]
          | apply wp_keeps; [solve [eauto with parsing nocore] | side | intros ? ? ?] ]
      end ].
Local Ltac stm := repeat (stm_step; cbv beta); try (unfold adv, keep; lia).
Local Ltac statement f := intros pos Hp; unfold f; stm.

Lemma select_item_advances : advances (parse_select_item_ source_ tokens_).
Proof. statement @parse_select_item_. Qed.

Lemma table_ref_advances : advances (parse_table_ref_ source_ tokens_).
Proof. statement @parse_table_ref_. Qed.
Hint Resolve select_item_advances table_ref_advances : parsing.

Lemma join_clause_advances : advances (parse_join_clause_ source_ tokens_).
Proof. statement @parse_join_clause_. Qed.

Lemma order_by_item_advances : advances (parse_order_by_item_ source_ tokens_).
Proof. statement @parse_order_by_item_. Qed.
Hint Resolve join_clause_advances order_by_item_advances : parsing.

Lemma joins_loop_keeps n pos :
  (pos <= top)%nat -> (top - pos < n)%nat -> wp (joins_loop source_ tokens_ n) pos (keep pos).
Proof.
  revert pos. induction n as [|n IH]; intros pos Hp Hn; [lia|]. cbn [joins_loop]. unfold keep in *.
  apply wp_bind, wp_next_kind. cbv beta. wp_step; stm.
  use IH. wps. lia.
Qed.

Lemma joins_keeps : keeps (joins_loop source_ tokens_ (fuel tokens_)).
Proof. intros pos Hp. by apply joins_loop_keeps; [|apply fuel_enough]. Qed.
Hint Resolve joins_keeps : parsing.

Lemma select_advances : advances (parse_select_ source_ tokens_).
Proof. statement @parse_select_. Qed.

Lemma column_type_advances : advances (parse_column_type source_ tokens_).
Proof.
  intros pos Hp. unfold parse_column_type. apply wp_bind, wp_next_kind. cbv beta.
  wp_step; try exact I. all: stm.
Qed.

Lemma default_here pos : (pos <= top)%nat -> kind (peek_at tokens_ pos 0) = Tok.KW_DEFAULT -> has_default.
Proof.
  intros Hp Hk. assert (pos < top)%nat by (apply peek_before; [done | congruence]).
  unfold peek_at, tokens_ in Hk. rewrite Nat.add_0_r, lookup_app_l in Hk by done.
  unfold has_default. apply Exists_exists. destruct (ts !! pos) as [t|] eqn:E.
  - exists t. split; [by eapply list_elem_of_lookup_2 | done].
  - apply lookup_ge_None in E. unfold top in *. lia.
Qed.

Lemma wp_defined {A} (v : option A) pos (Q : A -> nat -> Prop) :
  has_default -> (forall a, Q a pos) -> wp (defined v) pos Q.
Proof. intros. unfold wp, defined. by destruct v. Qed.

Lemma wp_throws {A} w (v : option A) pos (Q : A -> nat -> Prop) :
  has_default -> (forall a, Q a pos) -> wp (throws w v) pos Q.
Proof. intros. unfold wp, throws. by destruct v. Qed.

Lemma default_literal_advances :
  has_default -> advances (parse_default_literal_ source_ tokens_ erange).
Proof.
  intros Hd pos Hp. unfold parse_default_literal_. apply wp_bind, wp_next_kind. cbv beta.
  wp_step; try exact I.
  all: wps; try (unfold adv; lia).
  - apply wp_throws; [done|]. intros v. cbv beta. wps. unfold adv. lia.
  - apply wp_throws; [done|]. intros v. cbv beta. wps. unfold adv. lia.
  - apply wp_defined; [done|]. intros [|y [|m [|d [|]]]]; cbv beta iota; try exact I.
    wps. apply wp_defined; [done|]. intros ?. wps. unfold adv. lia.
  - apply wp_defined; [done|]. intros vs. cbv beta zeta. wps.
    apply wp_defined; [done|]. intros ?. cbv beta. wps. unfold adv. lia.
Qed.

Lemma column_options_keeps n def pos :
  (pos <= top)%nat -> (top - pos < n)%nat ->
  wp (column_options source_ tokens_ erange n def) pos (keep pos).
Proof.
  revert def pos. induction n as [|n IH]; intros def pos Hp Hn; [lia|]. cbn [column_options].
  unfold keep in *. destruct def. wps; try lia.
  all: try (use IH; lia).
  apply wp_advances; [apply default_literal_advances; eapply default_here; [|eassumption]; lia | lia |].
  intros ? ? ?. use IH. lia.
Qed.

Lemma column_options_fuel def : keeps (column_options source_ tokens_ erange (fuel tokens_) def).
Proof. intros pos Hp. by apply column_options_keeps; [|apply fuel_enough]. Qed.
Hint Resolve column_type_advances column_options_fuel : parsing.

Lemma column_def_advances : advances (parse_column_def_ source_ tokens_ erange).
Proof. statement @parse_column_def_. Qed.

Lemma table_constraint_advances : advances (parse_table_constraint_ source_ tokens_).
Proof. statement @parse_table_constraint_; destruct a; stm. Qed.

Lemma partition_def_advances : advances (parse_partition_def_ source_ tokens_).
Proof. statement @parse_partition_def_. Qed.
Hint Resolve column_def_advances table_constraint_advances partition_def_advances : parsing.

Lemma table_element_advances : advances (table_element source_ tokens_ erange).
Proof. statement @table_element. Qed.

Lemma partition_clause_keeps : keeps (partition_clause source_ tokens_).
Proof. statement @partition_clause. Qed.
Hint Resolve table_element_advances partition_clause_keeps : parsing.

Lemma create_table_advances : advances (parse_create_table_ source_ tokens_ erange).
Proof. statement @parse_create_table_. Qed.

Lemma insert_row_advances : advances (insert_row source_ tokens_).
Proof. statement @insert_row. Qed.

Lemma assignment_advances : advances (assignment source_ tokens_).
Proof. statement @assignment. Qed.
Hint Resolve insert_row_advances assignment_advances select_advances create_table_advances : parsing.

Lemma insert_advances : advances (parse_insert_ source_ tokens_).
Proof. statement @parse_insert_. Qed.

Lemma alter_advances : advances (parse_alter_add_partition_ source_ tokens_).
Proof. statement @parse_alter_add_partition_. Qed.
Hint Resolve insert_advances alter_advances : parsing.

Lemma one_statement_advances : advances (parse_one_statement_ source_ tokens_ erange).
Proof.
  intros pos Hp. unfold parse_one_statement_. apply wp_bind, wp_peek, wp_bind, wp_peek. cbv beta.
  wp_step; try exact I.
  all: unfold parse_drop_table_, parse_drop_index_, parse_create_index_, parse_delete_, parse_update_,
    parse_show_indexes_, parse_show_constraints_, parse_vacuum; stm.
Qed.
Hint Resolve one_statement_advances : parsing.

Lemma parse_loop_keeps n pos :
  (pos <= top)%nat -> (top - pos < n)%nat -> wp (parse_loop source_ tokens_ erange n) pos (keep pos).
Proof.
  revert pos. induction n as [|n IH]; intros pos Hp Hn; [lia|]. cbn [parse_loop]. unfold keep in *. stm.
  use IH. wps. lia.
Qed.
End Total.

(** ** From text to statements *)

(** C16. Every text is answered: for a source shorter than 4 GiB the lexer and the parser
    return, with the statements or with an error message; an exception of the standard
    library or undefined behaviour is possible only when the text contains the keyword
    [DEFAULT]. *)
Theorem parse_sql_total erange sql :
  zlen sql < 2 ^ 32 ->
  match parse_sql erange sql with
  | Done _ _ | Failed _ => True
  | Thrown _ | Undefined =>
      exists toks, tokenize sql = Some (Ok toks) /\ has_default toks
  | Spent => False
  end.
Proof.
  intros Hs. unfold parse_sql. destruct (tokenize_total sql Hs) as [[toks|m] E]; rewrite E; [|done].
  pose proof (proj1 (tokenize_lexed _ _ Hs) E) as (ts & eof & -> & He & _)%lexed_eof_last.
  pose proof (parse_loop_keeps sql ts eof erange He (fuel (ts ++ [eof])) 0%nat) as H.
  unfold wp, parse in *. destruct (parse_loop _ _ _ _ _); auto.
  1-2: exists (ts ++ [eof]); split; [done|]; apply Exists_app; left.
  1-2: apply H; [lia | apply fuel_enough].
  apply H; [lia | apply fuel_enough].
Qed.

Lemma parse_sql_total_witness :
  zlen (chars "SELECT * FROM t WHERE a < 1;") < 2 ^ 32 /\
  match parse_sql (fun _ => false) (chars "SELECT * FROM t WHERE a < 1;") with
  | Done l _ => length l = 1%nat
  | Failed _ => False
  | Thrown _ | Undefined =>
      exists toks, tokenize (chars "SELECT * FROM t WHERE a < 1;") = Some (Ok toks) /\
        has_default toks
  | Spent => False
  end.
Proof.
  assert (H : zlen (chars "SELECT * FROM t WHERE a < 1;") < 2 ^ 32) by (vm_compute; reflexivity).
  split; [exact H|]. pose proof (parse_sql_total (fun _ => false) _ H) as T.
  destruct (parse_sql (fun _ => false) (chars "SELECT * FROM t WHERE a < 1;")) as [l p|m|w| |] eqn:E;
    [|vm_compute in E; discriminate E|exact T..].
  vm_compute in E. injection E as <- _. reflexivity.
Defined.
