(* ===== verification/SqlPrint.v ===== *)
(** * Printing SQL

    An expression as a list of words, a word being the kind and the text of a token, with
    the parentheses that the precedences of [lookup_op] make necessary and no others, and
    the words as text.  The words of a well-formed expression are lexemes, so the lexer
    reads the printed text back. *)

From Stdlib Require Import Ascii.
From S2P Require Import Prelude Types Expression Lexer LexerSpec Ast Literals Parser.

Definition word : Type := Tok.TokenKind * string.
Definition word_of (t : Token) : word := (kind t, text t).

(** A word as the characters of the source. *)
Definition spell (w : word) : list ascii :=
  match fst w with
  | Tok.IDENTIFIER | Tok.INT_LITERAL | Tok.DOUBLE_LITERAL => chars (snd w)
  | Tok.STRING_LITERAL => QUOTE :: escape (chars (snd w)) ++ [QUOTE]
  | k => chars (token_kind_name k)
  end.

Definition unparse (ws : list word) : list ascii := flat_map (fun w => spell w ++ [" "%char]) ws.

(** A word that is read back as itself when a blank follows. *)
Definition readable (w : word) : Prop := forall r, lexeme (spell w) (" "%char :: r) (fst w) (snd w).

Definition punct (k : Tok.TokenKind) : word := (k, "").

Definition is_plain (k : Tok.TokenKind) : bool :=
  match k with
  | Tok.IDENTIFIER | Tok.INT_LITERAL | Tok.DOUBLE_LITERAL | Tok.STRING_LITERAL | Tok.END_OF_FILE => false
  | _ => true
  end.

(** Each keyword and symbol is spelt by its [token_kind_name]. *)
Lemma punct_readable k : is_plain k = true -> readable (punct k).
Proof.
  intros Hk r. unfold punct. simpl fst. simpl snd. destruct k; try discriminate Hk.
  all: first
    [ apply (lx_symbol _ _ (fun _ => false)); [|done];
      unfold symbols; repeat (apply elem_of_cons; first [left; reflexivity | right]); fail
    | eapply lx_symbol;
      [unfold symbols; repeat (apply elem_of_cons; first [left; reflexivity | right]) | reflexivity]; fail
    | apply lx_keyword; [reflexivity | | reflexivity | vm_compute; reflexivity];
      repeat (apply Forall_cons; split; [reflexivity|]); apply Forall_nil; exact I ].
Qed.

Lemma string_of_chars s : string_of (chars s) = s.
Proof. apply String.string_of_list_ascii_of_string. Qed.

Lemma string_readable s : readable (Tok.STRING_LITERAL, s).
Proof.
  intros r. unfold spell. cbn [fst snd]. rewrite <- (string_of_chars s) at 2. by apply lx_string.
Qed.

(** Identifiers are in lower case and no keywords. *)
Definition is_ident (s : string) : Prop :=
  exists c l, chars s = c :: l /\ isalpha c || is_char "_" c = true /\ all ident_char l /\
    lower (c :: l) = s /\ keyword s = None.

Lemma ident_readable s : is_ident s -> readable (Tok.IDENTIFIER, s).
Proof.
  intros (c & l & E & Hc & Hl & Hs & Hk) r. unfold spell. cbn [fst snd]. rewrite E. rewrite <- Hs.
  apply lx_identifier; [done | done | done | by rewrite Hs].
Qed.

(** ** Numbers *)

Definition digit_char (v : Z) : ascii := ascii_of_nat (Z.to_nat (48 + v)).

(** The decimal digits of [v]; twenty are enough for 64 bits. *)
Fixpoint decimal (n : nat) (v : Z) (acc : list ascii) : list ascii :=
  match n with
  | O => acc
  | S n =>
      if v <? 10 then digit_char v :: acc else decimal n (v / 10) (digit_char (v mod 10) :: acc)
  end.

Definition int_text (v : Z) : string := string_of (decimal 20 v []).

Lemma digit_char_spec v : 0 <= v < 10 -> isdigit (digit_char v) = true /\ digit_val (digit_char v) = v.
Proof.
  intros Hv. assert (v ∈ [0; 1; 2; 3; 4; 5; 6; 7; 8; 9]) as H.
  { assert (v = 0 \/ v = 1 \/ v = 2 \/ v = 3 \/ v = 4 \/ v = 5 \/ v = 6 \/ v = 7 \/ v = 8 \/ v = 9) by lia.
    set_solver. }
  repeat (apply elem_of_cons in H as [-> | H]; [done|]). by apply elem_of_nil in H.
Qed.

Definition digits_from (a : Z) (l : list ascii) : Z := fold_left (fun a c => a * 10 + digit_val c) l a.

Lemma digits_from_app a l r : digits_from a (l ++ r) = digits_from (digits_from a l) r.
Proof. apply fold_left_app. Qed.

Lemma decimal_spec n v acc :
  0 <= v < 10 ^ Z.of_nat n -> (0 < n)%nat -> all isdigit acc ->
  exists d ds, decimal n v acc = d :: ds /\ all isdigit (d :: ds) /\
    digits_from 0 (d :: ds) = digits_from v acc.
Proof.
  revert v acc. induction n as [|n IH]; intros v acc Hv Hn Ha; [lia|]. cbn [decimal].
  destruct (v <? 10) eqn:E.
  - apply Z.ltb_lt in E. destruct (digit_char_spec v) as [H1 H2]; [lia|].
    exists (digit_char v), acc. split_and!; [done | by constructor |].
    unfold digits_from. cbn [fold_left]. by rewrite H2.
  - apply Z.ltb_ge in E. rewrite Nat2Z.inj_succ, Z.pow_succ_r in Hv by lia.
    destruct n as [|n]; [simpl in Hv; lia|].
    destruct (digit_char_spec (v mod 10)) as [H1 H2]; [apply Z.mod_pos_bound; lia|].
    destruct (IH (v / 10) (digit_char (v mod 10) :: acc)) as (d & ds & Ed & Hd & Hval).
    + split; [apply Z.div_pos; lia | apply Z.div_lt_upper_bound; lia].
    + lia.
    + by constructor.
    + exists d, ds. split_and!; [done | done |].
      rewrite Hval. unfold digits_from. cbn [fold_left]. rewrite H2.
      f_equal. pose proof (Z.div_mod v 10). lia.
Qed.

Lemma chars_string_of l : chars (string_of l) = l.
Proof. apply String.list_ascii_of_string_of_list_ascii. Qed.

Lemma span_while_all p l : all p l -> span_while p l = (l, []).
Proof. induction 1 as [|c l Hc Hl IH]; simpl; [done | by rewrite Hc, IH]. Qed.

Lemma int_text_spec v :
  0 <= v <= INT64_MAX ->
  exists d ds, chars (int_text v) = d :: ds /\ all isdigit (d :: ds) /\ strtoll (int_text v) = v.
Proof.
  intros Hv. unfold INT64_MAX in *. destruct (decimal_spec 20 v []) as (d & ds & E & Hd & Hval).
  - simpl. lia.
  - lia.
  - constructor.
  - exists d, ds. unfold int_text, strtoll. rewrite chars_string_of, E. split_and!; [done | done |].
    rewrite span_while_all by done. cbn [fst]. unfold digits_from in Hval. cbn [fold_left] in Hval.
    unfold digits_val. cbn [fold_left]. rewrite Hval. unfold INT64_MAX. lia.
Qed.

Lemma number_readable d ds fp ep k :
  all isdigit (d :: ds) -> (fp = [] \/ fraction fp) -> (ep = [] \/ exponent ep) ->
  k = (if is_nil fp && is_nil ep then Tok.INT_LITERAL else Tok.DOUBLE_LITERAL) ->
  readable (k, string_of ((d :: ds) ++ fp ++ ep)).
Proof.
  intros Hd Hf He Hk r.
  pose proof (lx_number d ds fp ep (" "%char :: r) Hd Hf He eq_refl (fun _ => eq_refl)) as H.
  destruct (is_nil fp && is_nil ep); subst k; unfold spell; cbn [fst snd];
    rewrite chars_string_of; apply H; intros _ _; by destruct r.
Qed.

Lemma int_readable v : 0 <= v <= INT64_MAX -> readable (Tok.INT_LITERAL, int_text v).
Proof.
  intros Hv. destruct (int_text_spec v Hv) as (d & ds & E & Hd & _).
  rewrite <- (string_of_chars (int_text v)), E.
  pose proof (number_readable d ds [] [] Tok.INT_LITERAL Hd) as H. rewrite !app_nil_r in H. auto.
Qed.

(** ** The text is read back *)

Lemma lexed_unparse ws off :
  Forall readable ws ->
  exists ts eof, lexed off (unparse ws) (ts ++ [eof]) /\ map word_of ts = ws /\
    kind eof = Tok.END_OF_FILE.
Proof.
  intros H. enough (G : forall w off, trivia false w -> exists ts eof,
    lexed off (w ++ unparse ws) (ts ++ [eof]) /\ map word_of ts = ws /\ kind eof = Tok.END_OF_FILE)
    by (apply (G [] off); constructor).
  clear off. induction H as [|[k t] ws Hw Hws IH]; intros w off Hw0.
  - eexists [], _. split_and!; [|done|]; [|shelve]. simpl. rewrite app_nil_r. apply lexed_eof.
    by eapply trivia_last.
    Unshelve. done.
  - destruct (IH [" "%char] (off + length w + length (spell (k, t)))%nat) as (ts & eof & Hl & Ht & He).
    { by repeat constructor. }
    eexists (mkToken k _ t :: ts), eof. split_and!; [|simpl; by rewrite Ht | done].
    unfold unparse. cbn [flat_map]. fold (unparse ws). rewrite <- app_assoc. cbn [app].
    apply lexed_token; [done | apply (Hw (unparse ws)) | exact Hl].
Qed.
