(* ===== verification/ParserRoundTrip.v ===== *)
(** * Parsing what was printed

    [show p e] prints an expression where an operand of precedence [p] is expected, with
    parentheses only around an operator of a lower precedence.  Parsing the words gives the
    expression back, up to the source locations: precedences, left associativity, the
    prefix NOT, the postfix IS NULL and the folded minus sign are those of the printer. *)

From Stdlib Require Import Ascii.
From S2P Require Import Prelude Types Expression Lexer LexerSpec Ast Literals Parser ParserTotal SqlPrint.

(** ** The printer *)

Definition op_token (op : BinaryOpKind) : Tok.TokenKind :=
  match op with
  | ADD => Tok.PLUS | SUB => Tok.MINUS | MUL => Tok.STAR | DIV => Tok.SLASH
  | LT => Tok.LT | LE => Tok.LE | EQ => Tok.EQ | GE => Tok.GE | GT => Tok.GT | NE => Tok.NE
  end.

Definition op_prec (op : BinaryOpKind) : Z :=
  match op with ADD | SUB => 5 | MUL | DIV => 6 | _ => 4 end.

Definition log_token (op : LogicalOpKind) : Tok.TokenKind :=
  match op with AND => Tok.KW_AND | OR => Tok.KW_OR end.

Definition log_prec (op : LogicalOpKind) : Z := match op with AND => 2 | OR => 1 end.

Definition f64_negative (b : Z) : bool := Z.testbit b 63.

(** The precedence of an expression: 7 for a literal with a minus sign, 8 for what needs no
    parentheses anywhere. *)
Definition level (e : ast.Expr) : Z :=
  match e with
  | ast.LogicalOp op _ _ _ => log_prec op
  | ast.NotOp _ _ => 3
  | ast.NullCheck _ _ _ => 4
  | ast.BinaryOp op _ _ _ => op_prec op
  | ast.IntLit v _ => if v <? 0 then 7 else 8
  | ast.DoubleLit b _ => if f64_negative b then 7 else 8
  | _ => 8
  end.

Definition paren (b : bool) (ws : list word) : list word :=
  if b then punct Tok.LPAREN :: ws ++ [punct Tok.RPAREN] else ws.

Definition commas (l : list (list word)) : list word :=
  match l with
  | [] => []
  | ws :: l => ws ++ flat_map (fun ws => punct Tok.COMMA :: ws) l
  end.

Section Printer.
(** How a double without a sign is written. *)
Context (double_text : Z -> string).

Fixpoint body (e : ast.Expr) : list word :=
  let show p e := paren (level e <? p) (body e) in
  match e with
  | ast.IntLit v _ =>
      if v <? 0 then [punct Tok.MINUS; (Tok.INT_LITERAL, int_text (- v))]
      else [(Tok.INT_LITERAL, int_text v)]
  | ast.DoubleLit b _ =>
      if f64_negative b then [punct Tok.MINUS; (Tok.DOUBLE_LITERAL, double_text (f64_neg b))]
      else [(Tok.DOUBLE_LITERAL, double_text b)]
  | ast.StringLit s _ => [(Tok.STRING_LITERAL, s)]
  | ast.NullLit _ => [punct Tok.KW_NULL]
  | ast.BoolLit b _ => [punct (if b then Tok.KW_TRUE else Tok.KW_FALSE)]
  | ast.DateLit s _ => [punct Tok.KW_DATE; (Tok.STRING_LITERAL, s)]
  | ast.TimestampLit s _ => [punct Tok.KW_TIMESTAMP; (Tok.STRING_LITERAL, s)]
  | ast.ColumnRef None c _ => [(Tok.IDENTIFIER, c)]
  | ast.ColumnRef (Some t) c _ => [(Tok.IDENTIFIER, t); punct Tok.DOT; (Tok.IDENTIFIER, c)]
  | ast.FuncCall n args star _ =>
      (Tok.IDENTIFIER, n) :: punct Tok.LPAREN ::
      (if star : bool then [punct Tok.STAR] else commas (map (show 1) args)) ++ [punct Tok.RPAREN]
  | ast.BinaryOp op a b _ =>
      show (op_prec op) a ++ punct (op_token op) :: show (op_prec op + 1) b
  | ast.LogicalOp op a b _ =>
      show (log_prec op) a ++ punct (log_token op) :: show (log_prec op + 1) b
  | ast.NotOp a _ => punct Tok.KW_NOT :: show 3 a
  | ast.NullCheck k a _ =>
      show 4 a ++ punct Tok.KW_IS ::
      (match k with IS_NULL => [] | IS_NOT_NULL => [punct Tok.KW_NOT] end) ++ [punct Tok.KW_NULL]
  end.

Definition show (p : Z) (e : ast.Expr) : list word := paren (level e <? p) (body e).

(** What can be printed: names the lexer reads as identifiers, integers that a literal can
    have, doubles whose text is read back, no arguments beside a star. *)
Fixpoint printable (e : ast.Expr) : Prop :=
  match e with
  | ast.IntLit v _ => - INT64_MAX <= v <= INT64_MAX
  | ast.DoubleLit b _ =>
      let m := if f64_negative b then f64_neg b else b in
      in_u 64 b /\ readable (Tok.DOUBLE_LITERAL, double_text m) /\ strtod (double_text m) = m
  | ast.ColumnRef t c _ => match t with Some t => is_ident t | None => True end /\ is_ident c
  | ast.FuncCall n args star _ =>
      is_ident n /\ (star = true -> args = []) /\
      (fix all_printable (l : list ast.Expr) : Prop :=
         match l with [] => True | a :: l => printable a /\ all_printable l end) args
  | ast.BinaryOp _ a b _ | ast.LogicalOp _ a b _ => printable a /\ printable b
  | ast.NotOp a _ | ast.NullCheck _ a _ => printable a
  | _ => True
  end.
End Printer.

(** An expression without its source locations. *)
Definition noloc : SourceLoc := mkLoc 0 0.
Fixpoint erase (e : ast.Expr) : ast.Expr :=
  match e with
  | ast.IntLit v _ => ast.IntLit v noloc
  | ast.DoubleLit v _ => ast.DoubleLit v noloc
  | ast.StringLit v _ => ast.StringLit v noloc
  | ast.NullLit _ => ast.NullLit noloc
  | ast.BoolLit v _ => ast.BoolLit v noloc
  | ast.DateLit v _ => ast.DateLit v noloc
  | ast.TimestampLit v _ => ast.TimestampLit v noloc
  | ast.ColumnRef t c _ => ast.ColumnRef t c noloc
  | ast.FuncCall n args st _ => ast.FuncCall n (map erase args) st noloc
  | ast.BinaryOp op a b _ => ast.BinaryOp op (erase a) (erase b) noloc
  | ast.LogicalOp op a b _ => ast.LogicalOp op (erase a) (erase b) noloc
  | ast.NotOp a _ => ast.NotOp (erase a) noloc
  | ast.NullCheck k a _ => ast.NullCheck k (erase a) noloc
  end.

(** ** The tokens at a position *)

(** How tightly a token binds as an operator, 0 for the others. *)
Definition op_level (k : Tok.TokenKind) : Z :=
  match k with
  | Tok.KW_IS => 4
  | _ => match lookup_op k with Some info => prec info | None => 0 end
  end.

(** A token that does not continue a name. *)
Definition follows (k : Tok.TokenKind) : bool :=
  match k with Tok.DOT | Tok.LPAREN => false | _ => true end.

Section RoundTrip.
Context (source_ : list ascii) (tokens_ : list Token) (double_text : Z -> string).

Let top : nat := (length tokens_ - 1)%nat.

(** The words from [pos] on, with a token after them. *)
Definition reads (pos : nat) (ws : list word) : Prop :=
  exists rest, map word_of (drop pos tokens_) = ws ++ rest /\ rest <> [].

Notation kind_at pos := (kind (peek_at tokens_ pos 0)).

Lemma reads_app pos a b : reads pos (a ++ b) -> reads pos a /\ reads (pos + length a) b.
Proof.
  intros (rest & E & Hr). rewrite <- app_assoc in E. split.
  - exists (b ++ rest). split; [done|]. by destruct b.
  - exists rest. split; [|done]. rewrite <- drop_drop, <- skipn_map, E. by rewrite drop_app_length.
Qed.

Lemma reads_cons pos w ws :
  reads pos (w :: ws) ->
  (kind_at pos, text (peek_at tokens_ pos 0)) = w /\
  consume_ tokens_ pos = Done (peek_at tokens_ pos 0) (S pos) /\ reads (S pos) ws /\ (pos < top)%nat.
Proof.
  intros (rest & E & Hr). destruct (drop pos tokens_) as [|t l] eqn:Ed; [done|].
  injection E as Ew E.
  assert (tokens_ !! pos = Some t) as Ht by (rewrite <- (Nat.add_0_r pos), <- lookup_drop; by rewrite Ed).
  assert (HL : (length (drop pos tokens_) = S (length l))%nat) by (by rewrite Ed).
  rewrite length_drop in HL.
  assert (length l <> 0)%nat.
  { intros H0. apply nil_length_inv in H0 as ->. symmetry in E. by apply app_nil in E as [_ ->]. }
  unfold peek_at. rewrite Nat.add_0_r, Ht. split_and!; [done | | | unfold top; lia].
  - unfold consume_, peek_at. rewrite Nat.add_0_r, Ht. by rewrite (proj2 (Nat.ltb_lt _ _)) by lia.
  - exists rest. split; [|done]. rewrite <- E. f_equal.
    rewrite <- (Nat.add_1_r pos), <- drop_drop, Ed. done.
Qed.

Lemma kind_at_ge k : reads k [] -> (k <= top)%nat.
Proof.
  intros (rest & E & Hr). assert (length (map word_of (drop k tokens_)) <> 0)%nat.
  { rewrite E. simpl. by destruct rest. }
  rewrite length_map, length_drop in H. unfold top. lia.
Qed.

Lemma reads_nil pos ws : reads pos ws -> reads (pos + length ws) [].
Proof. intros H. rewrite <- (app_nil_r ws) in H. exact (proj2 (reads_app pos ws [] H)). Qed.

(** ** Parsing back *)

Notation pbin := (parse_binary_ source_ tokens_).
Notation ploop := (binary_loop source_ tokens_).
Notation punary := (parse_unary_ source_ tokens_).
Notation pprim := (parse_primary_ source_ tokens_).

Lemma bind_done {A B} (m : parser A) (k : A -> parser B) pos a p :
  m pos = Done a p -> mbind k m pos = k a p.
Proof. intros H. unfold mbind, parser_bind. by rewrite H. Qed.

Lemma peek_bind {B} n (k : Token -> parser B) pos :
  mbind k (peek tokens_ n) pos = k (peek_at tokens_ pos n) pos.
Proof. done. Qed.

Lemma kind_eqb_refl k : kind_eqb k k = true.
Proof. by apply kind_eqb_true. Qed.

Lemma kind_eqb_false a b : a <> b -> kind_eqb a b = false.
Proof. intros H. apply not_true_iff_false. by rewrite kind_eqb_true. Qed.

Lemma loop_stop f min e pos :
  op_level (kind_at pos) < min -> ploop (S f) min e pos = Done e pos.
Proof.
  intros H. cbn [binary_loop]. rewrite peek_bind.
  destruct (kind_eqb (kind_at pos) Tok.KW_IS) eqn:E.
  - apply kind_eqb_true in E. rewrite E in H |- *. unfold op_level in H.
    rewrite (proj2 (Z.leb_gt _ _)) by lia. done.
  - simpl. assert (op_level (kind_at pos) = match lookup_op (kind_at pos) with Some i => prec i | None => 0 end) as Hl.
    { destruct (kind_at pos); try done. }
    rewrite Hl in H. destruct (lookup_op _) as [info|]; [|done].
    by rewrite (proj2 (Z.ltb_lt _ _)).
Qed.

Definition need (k pos : nat) : nat := (6 * (top - pos) + k)%nat.

(** The statement for [body e]: the parser arrives at the loop after it. *)
Definition body_ok (e : ast.Expr) : Prop := forall min f pos,
  min <= level e -> min <= 7 -> reads pos (body double_text e) ->
  let pos' := (pos + length (body double_text e))%nat in
  follows (kind_at pos') = true -> op_level (kind_at pos') <= level e -> (need 6 pos <= f)%nat ->
  exists e' f', erase e' = erase e /\ (need 1 pos' <= f')%nat /\ pbin f min pos = ploop f' min e' pos'.

Lemma level_pos e : 1 <= level e <= 8.
Proof.
  destruct e as [| | | | | | | | |[]|[]| |]; simpl; try lia.
  - by destruct (_ <? 0).
  - by destruct (f64_negative _).
Qed.

(** What [parse_unary_] reads. *)
Lemma unary_ok e :
  (forall f pos, reads pos (body double_text e) ->
     follows (kind_at (pos + length (body double_text e))) = true -> (need 5 pos <= f)%nat ->
     kind_at pos <> Tok.KW_NOT /\ (0 < length (body double_text e))%nat /\
     exists e', erase e' = erase e /\ punary f pos = Done e' (pos + length (body double_text e))%nat) ->
  body_ok e.
Proof.
  intros H min f pos _ _ Hr pos' Hfo _ Hf. unfold need in Hf. destruct f as [|f]; [lia|].
  destruct (H f pos) as (Hn & Hlen & e' & He & E); [done | done | unfold need; lia |].
  exists e', f. split_and!; [done | |].
  - pose proof (kind_at_ge _ (reads_nil _ _ Hr)). unfold need. lia.
  - cbn [parse_binary_]. rewrite peek_bind, (kind_eqb_false _ _ Hn), andb_false_r.
    by apply bind_done.
Qed.

Lemma primary_unary f pos :
  kind_at pos <> Tok.MINUS -> kind_at pos <> Tok.PLUS -> punary (S f) pos = pprim f pos.
Proof. intros H1 H2. cbn [parse_unary_]. by rewrite peek_bind, !kind_eqb_false. Qed.

Lemma match_done k pos :
  kind_at pos = k -> consume_ tokens_ pos = Done (peek_at tokens_ pos 0) (S pos) ->
  match_ tokens_ k pos = Done true (S pos).
Proof.
  intros Hk Hc. unfold match_. rewrite peek_bind, Hk, kind_eqb_refl. cbn [negb]. by rewrite (bind_done _ _ _ _ _ Hc).
Qed.

Lemma require_done k msg pos :
  kind_at pos = k -> consume_ tokens_ pos = Done (peek_at tokens_ pos 0) (S pos) ->
  require source_ tokens_ k msg pos = Done tt (S pos).
Proof.
  intros Hk Hc. unfold require. by rewrite (bind_done _ _ _ _ _ (match_done _ _ Hk Hc)).
Qed.

Lemma take_kind_done k msg pos :
  kind_at pos = k -> consume_ tokens_ pos = Done (peek_at tokens_ pos 0) (S pos) ->
  take_kind source_ tokens_ k msg pos = Done (peek_at tokens_ pos 0) (S pos).
Proof.
  intros Hk Hc. unfold take_kind. rewrite peek_bind, Hk, kind_eqb_refl. done.
Qed.

Lemma match_not k pos : kind_at pos <> k -> match_ tokens_ k pos = Done false pos.
Proof. intros Hk. unfold match_. by rewrite peek_bind, kind_eqb_false. Qed.

(** A whole expression, followed by a token that binds less than [p]. *)
Lemma full_body e f p pos :
  body_ok e -> 1 <= p <= level e -> p <= 7 -> reads pos (body double_text e) ->
  let pos' := (pos + length (body double_text e))%nat in
  follows (kind_at pos') = true -> op_level (kind_at pos') < p -> (need 6 pos <= f)%nat ->
  exists e', erase e' = erase e /\ pbin f p pos = Done e' pos'.
Proof.
  intros H Hp Hp7 Hr pos' Hfo Hop Hf. subst pos'.
  destruct (H p f pos) as (e' & f' & He & Hf' & E); try done; [lia.. |].
  exists e'. split; [done|]. rewrite E. unfold need in Hf'. destruct f' as [|f']; [lia|].
  by apply loop_stop.
Qed.

Lemma paren_ok e : body_ok e -> forall f pos,
  reads pos (paren true (body double_text e)) -> (need 5 pos <= f)%nat ->
  exists e', erase e' = erase e /\
    punary f pos = Done e' (pos + length (paren true (body double_text e)))%nat.
Proof.
  intros H f pos Hr Hf. unfold paren in *.
  apply reads_cons in Hr as ([= Hk _] & Hc & Hr & Hlt). apply reads_app in Hr as [Hb Hr].
  apply reads_cons in Hr as ([= Hk2 _] & Hc2 & Hr2 & Hlt2).
  unfold need in Hf. destruct f as [|[|f]]; [lia..|].
  pose proof (level_pos e).
  destruct (full_body e f 1 (S pos) H) as (e' & He & E); try done; try lia.
  { cbn [Nat.add]. by rewrite Hk2. } { cbn [Nat.add]. by rewrite Hk2. } { unfold need. lia. }
  exists e'. split; [done|]. rewrite primary_unary by congruence. cbn [parse_primary_].
  rewrite peek_bind, Hk, (bind_done _ _ _ _ _ Hc), (bind_done _ _ _ _ _ E).
  rewrite (bind_done _ _ _ _ _ (require_done _ _ _ Hk2 Hc2)).
  unfold mret, parser_ret. f_equal. simpl. rewrite length_app. simpl. lia.
Qed.

Lemma show_ok e : body_ok e -> forall p min f pos,
  min <= p -> p <= 7 -> reads pos (show double_text p e) ->
  let pos' := (pos + length (show double_text p e))%nat in
  follows (kind_at pos') = true -> op_level (kind_at pos') <= p -> (need 6 pos <= f)%nat ->
  exists e' f', erase e' = erase e /\ (need 1 pos' <= f')%nat /\ pbin f min pos = ploop f' min e' pos'.
Proof.
  intros H p min f pos Hm Hp Hr pos' Hfo Hop Hf. subst pos'. unfold show in *.
  destruct (level e <? p) eqn:E.
  - unfold need in Hf. destruct f as [|f]; [lia|].
    destruct (paren_ok e H f pos) as (e' & He & Eq); [done | unfold need; lia |].
    pose proof (kind_at_ge _ (reads_nil _ _ Hr)) as Hle.
    apply reads_cons in Hr as ([= Hk _] & _ & _ & Hlt).
    exists e', f. split_and!; [done | unfold need; lia |].
    cbn [parse_binary_]. rewrite peek_bind, (kind_eqb_false (kind_at pos)) by congruence.
    rewrite andb_false_r. by apply bind_done.
  - apply Z.ltb_ge in E. unfold paren in *. apply H; try done; lia.
Qed.

Lemma full_ok e : body_ok e -> forall p f pos,
  1 <= p <= 7 -> reads pos (show double_text p e) ->
  let pos' := (pos + length (show double_text p e))%nat in
  follows (kind_at pos') = true -> op_level (kind_at pos') < p -> (need 6 pos <= f)%nat ->
  exists e', erase e' = erase e /\ pbin f p pos = Done e' pos'.
Proof.
  intros H p f pos Hp Hr pos' Hfo Hop Hf. subst pos'.
  destruct (show_ok e H p p f pos) as (e' & f' & He & Hf' & E); try done; [lia..|].
  exists e'. split; [done|]. rewrite E. unfold need in Hf'. destruct f' as [|f']; [lia|].
  by apply loop_stop.
Qed.

(** ** Each kind of expression *)

Local Ltac next H Hk Hc := apply reads_cons in H as ([= Hk ?] & Hc & H & ?).

(** A primary expression that starts with a token of kind [k]. *)
Lemma primary_ok e :
  (forall f pos, reads pos (body double_text e) ->
     follows (kind_at (pos + length (body double_text e))) = true -> (need 4 pos <= f)%nat ->
     kind_at pos <> Tok.KW_NOT /\ kind_at pos <> Tok.MINUS /\ kind_at pos <> Tok.PLUS /\
     (0 < length (body double_text e))%nat /\
     exists e', erase e' = erase e /\ pprim f pos = Done e' (pos + length (body double_text e))%nat) ->
  body_ok e.
Proof.
  intros H. apply unary_ok. intros f pos Hr Hfo Hf. unfold need in Hf. destruct f as [|f]; [lia|].
  destruct (H f pos) as (H1 & H2 & H3 & H4 & e' & He & E); [done | done | unfold need; lia |].
  split_and!; [done | done |]. exists e'. split; [done|]. by rewrite primary_unary.
Qed.

(** The literals of one token. *)
Lemma literal_ok e k t :
  body double_text e = [(k, t)] ->
  k <> Tok.KW_NOT -> k <> Tok.MINUS -> k <> Tok.PLUS ->
  (forall f pos, kind_at pos = k -> text (peek_at tokens_ pos 0) = t ->
     consume_ tokens_ pos = Done (peek_at tokens_ pos 0) (S pos) ->
     exists e', erase e' = erase e /\ pprim (S f) pos = Done e' (S pos)) ->
  body_ok e.
Proof.
  intros Hb H1 H2 H3 H. apply primary_ok. rewrite Hb. intros f pos Hr Hfo Hf.
  next Hr Hk Hc. unfold need in Hf. destruct f as [|f]; [lia|].
  split_and!; [congruence.. | simpl; lia |].
  destruct (H f pos) as (e' & He & E); [done..|]. exists e'. split; [done|].
  rewrite E. f_equal. simpl. lia.
Qed.

Local Ltac prim Hk Hc := cbn [parse_primary_]; rewrite peek_bind, Hk, (bind_done _ _ _ _ _ Hc).

Lemma int_nonneg_ok v l : 0 <= v <= INT64_MAX -> body_ok (ast.IntLit v l).
Proof.
  intros Hv. apply (literal_ok _ Tok.INT_LITERAL (int_text v)); [|done..|].
  - simpl. by rewrite (proj2 (Z.ltb_ge _ _)) by lia.
  - intros f pos Hk Ht Hc. eexists. split; [|prim Hk Hc; reflexivity].
    rewrite Ht. destruct (int_text_spec v Hv) as (? & ? & _ & _ & ->). done.
Qed.

Lemma double_pos_ok b l :
  f64_negative b = false -> strtod (double_text b) = b -> body_ok (ast.DoubleLit b l).
Proof.
  intros Hb Hs. apply (literal_ok _ Tok.DOUBLE_LITERAL (double_text b)); [|done..|].
  - simpl. by rewrite Hb.
  - intros f pos Hk Ht Hc. eexists. split; [|prim Hk Hc; reflexivity]. by rewrite Ht, Hs.
Qed.

(** A literal with a minus sign. *)
Lemma minus_ok e e0 k t :
  body double_text e = [punct Tok.MINUS; (k, t)] ->
  k <> Tok.MINUS -> k <> Tok.PLUS ->
  (forall f pos, kind_at pos = k -> text (peek_at tokens_ pos 0) = t ->
     consume_ tokens_ pos = Done (peek_at tokens_ pos 0) (S pos) ->
     pprim (S f) pos = Done (e0 (loc (peek_at tokens_ pos 0))) (S pos)) ->
  (forall tok l, erase (negate tok (e0 l)) = erase e) -> body_ok e.
Proof.
  intros Hb H1 H2 H Hn. apply unary_ok. rewrite Hb. intros f pos Hr Hfo Hf.
  next Hr Hk Hc. next Hr Hk2 Hc2. unfold need in Hf. destruct f as [|[|[|f]]]; [lia..|].
  split_and!; [congruence | simpl; lia |]. eexists. split; [apply Hn|].
  cbn [parse_unary_]. rewrite peek_bind, Hk, kind_eqb_refl, (bind_done _ _ _ _ _ Hc).
  erewrite bind_done; [|rewrite peek_bind, !kind_eqb_false by congruence; by apply H].
  unfold mret, parser_ret. f_equal. simpl. lia.
Qed.

Lemma int_neg_ok v l : - INT64_MAX <= v < 0 -> body_ok (ast.IntLit v l).
Proof.
  intros Hv. apply (minus_ok _ (ast.IntLit (- v)) Tok.INT_LITERAL (int_text (- v))); [|done..| |].
  - simpl. by rewrite (proj2 (Z.ltb_lt _ _)) by lia.
  - intros f pos Hk Ht Hc. prim Hk Hc. rewrite Ht.
    destruct (int_text_spec (- v)) as (? & ? & _ & _ & ->); [lia | done].
  - intros tok l'. simpl. by rewrite Z.opp_involutive.
Qed.

Lemma f64_neg_neg b : f64_neg (f64_neg b) = b.
Proof. unfold f64_neg. by rewrite Z.lxor_assoc, Z.lxor_nilpotent, Z.lxor_0_r. Qed.

Lemma double_neg_ok b l :
  f64_negative b = true -> strtod (double_text (f64_neg b)) = f64_neg b -> body_ok (ast.DoubleLit b l).
Proof.
  intros Hb Hs.
  apply (minus_ok _ (ast.DoubleLit (f64_neg b)) Tok.DOUBLE_LITERAL (double_text (f64_neg b))); [|done..| |].
  - simpl. by rewrite Hb.
  - intros f pos Hk Ht Hc. prim Hk Hc. by rewrite Ht, Hs.
  - intros tok l'. simpl. by rewrite f64_neg_neg.
Qed.

(** DATE and TIMESTAMP literals. *)
Lemma date_ok s l : body_ok (ast.DateLit s l).
Proof.
  apply primary_ok. intros f pos Hr Hfo Hf. simpl in *. next Hr Hk Hc. next Hr Hk2 Hc2.
  unfold need in Hf. destruct f as [|f]; [lia|]. split_and!; [congruence.. | lia |].
  eexists. split; [|prim Hk Hc; rewrite (bind_done _ _ _ _ _ (take_kind_done _ _ _ Hk2 Hc2));
    unfold mret, parser_ret; f_equal; lia]. simpl. congruence.
Qed.

Lemma timestamp_ok s l : body_ok (ast.TimestampLit s l).
Proof.
  apply primary_ok. intros f pos Hr Hfo Hf. simpl in *. next Hr Hk Hc. next Hr Hk2 Hc2.
  unfold need in Hf. destruct f as [|f]; [lia|]. split_and!; [congruence.. | lia |].
  eexists. split; [|prim Hk Hc; rewrite (bind_done _ _ _ _ _ (take_kind_done _ _ _ Hk2 Hc2));
    unfold mret, parser_ret; f_equal; lia]. simpl. congruence.
Qed.

Notation shows p e := (show double_text p e).

Lemma follows_spec k : follows k = true -> k <> Tok.DOT /\ k <> Tok.LPAREN.
Proof. intros H. by split; intros ->. Qed.

Lemma ident_primary f pos :
  kind_at pos = Tok.IDENTIFIER ->
  pprim (S f) pos = parse_ident_or_call_ source_ tokens_ f pos.
Proof. intros Hk. cbn [parse_primary_]. by rewrite peek_bind, Hk. Qed.

Lemma column_ref_shown t c l : body_ok (ast.ColumnRef t c l).
Proof.
  apply primary_ok. intros f pos Hr Hfo Hf. unfold need in Hf. destruct f as [|[|f]]; [lia..|].
  destruct t as [t|]; cbn [body length] in *.
  - next Hr Hk Hc. next Hr Hk2 Hc2. next Hr Hk3 Hc3. split_and!; [congruence.. | lia |].
    rewrite ident_primary by done. cbn [parse_ident_or_call_].
    rewrite (bind_done _ _ _ _ _ Hc), peek_bind, Hk2, kind_eqb_refl, (bind_done _ _ _ _ _ Hc2).
    rewrite (bind_done _ _ _ _ _ (take_kind_done _ _ _ Hk3 Hc3)).
    eexists. split; [|unfold mret, parser_ret; f_equal; lia]. simpl. congruence.
  - next Hr Hk Hc. split_and!; [congruence.. | lia |]. rewrite Nat.add_1_r in *.
    apply follows_spec in Hfo as [? ?]. rewrite ident_primary by done. cbn [parse_ident_or_call_].
    rewrite (bind_done _ _ _ _ _ Hc), peek_bind, !kind_eqb_false by done.
    eexists. split; [|done]. simpl. congruence.
Qed.

Lemma commas_cons x y l : commas (x :: y :: l) = x ++ punct Tok.COMMA :: commas (y :: l).
Proof. done. Qed.

Lemma args_ok args : args <> [] -> Forall body_ok args -> forall f pos,
  reads pos (commas (map (show double_text 1) args) ++ [punct Tok.RPAREN]) -> (need 7 pos <= f)%nat ->
  exists args', map erase args' = map erase args /\
    args_loop source_ tokens_ f pos
    = Done args' (pos + length (commas (map (show double_text 1) args)))%nat.
Proof.
  intros Hne Hall. induction Hall as [|a args Ha Hall IH]; [done|]. intros f pos Hr Hf.
  unfold need in Hf. destruct f as [|f]; [lia|]. cbn [args_loop].
  destruct args as [|b args].
  - simpl in *. rewrite app_nil_r in *. apply reads_app in Hr as [Hr Hr2]. next Hr2 Hk Hc.
    destruct (full_ok a Ha 1 f pos) as (a' & He & E); [lia | done | by rewrite Hk | by rewrite Hk | unfold need; lia |].
    rewrite (bind_done _ _ _ _ _ E). erewrite bind_done; [|apply match_not; rewrite Hk; done].
    exists [a']. split; [|done]. simpl. by rewrite He.
  - change (map (show double_text 1) (a :: b :: args))
      with (shows 1 a :: shows 1 b :: map (show double_text 1) args) in *.
    rewrite commas_cons in *. rewrite <- app_assoc in Hr. apply reads_app in Hr as [Hr Hr2].
    cbn [app] in Hr2. next Hr2 Hk Hc.
    destruct (full_ok a Ha 1 f pos) as (a' & He & E); [lia | done | by rewrite Hk | by rewrite Hk | unfold need; lia |].
    rewrite (bind_done _ _ _ _ _ E), (bind_done _ _ _ _ _ (match_done _ _ Hk Hc)).
    destruct (IH ltac:(done) f _ Hr2) as (args' & Hes & E2); [unfold need; lia|].
    rewrite (bind_done _ _ _ _ _ E2). exists (a' :: args'). split.
    + cbn [map] in *. by rewrite He, Hes.
    + unfold mret, parser_ret. f_equal. rewrite length_app. simpl. lia.
Qed.

(** The first word of an expression is none of those that end an argument list. *)
Lemma body_head e p : exists w ws, shows p e = w :: ws /\ fst w <> Tok.STAR /\ fst w <> Tok.RPAREN.
Proof.
  enough (G : exists w ws, body double_text e = w :: ws /\ fst w <> Tok.STAR /\ fst w <> Tok.RPAREN).
  { unfold show, paren. destruct (_ <? _); [by eexists _, _|done]. }
  assert (P : forall p e, (exists w ws, body double_text e = w :: ws /\ fst w <> Tok.STAR /\ fst w <> Tok.RPAREN) ->
    forall r, exists w ws, shows p e ++ r = w :: ws /\ fst w <> Tok.STAR /\ fst w <> Tok.RPAREN).
  { intros q a (w & ws & E & H) r. unfold show, paren. rewrite E. destruct (_ <? _); by eexists _, _. }
  induction e as [v| b| | |[]| | |[t|] c| | | | |] using ast.Expr_rect'; simpl; try by eexists _, _.
  - destruct (v <? 0); by eexists _, _.
  - destruct (f64_negative b); by eexists _, _.
  - by apply P.
  - by apply P.
  - by apply P.
Qed.

Lemma call_ok n args star l :
  (star = true -> args = []) -> Forall body_ok args -> body_ok (ast.FuncCall n args star l).
Proof.
  intros Hst Hall. apply primary_ok.
  assert (Eb : body double_text (ast.FuncCall n args star l)
    = (Tok.IDENTIFIER, n) :: punct Tok.LPAREN ::
      (if star then [punct Tok.STAR] else commas (map (show double_text 1) args)) ++ [punct Tok.RPAREN])
    by done.
  rewrite Eb. clear Eb. intros f pos Hr _ Hf. unfold need in Hf. destruct f as [|[|f]]; [lia..|].
  next Hr Hk Hc. next Hr Hk2 Hc2. split_and!; [congruence.. | simpl; lia |].
  rewrite ident_primary by done. cbn [parse_ident_or_call_].
  rewrite (bind_done _ _ _ _ _ Hc), peek_bind, Hk2, kind_eqb_false, kind_eqb_refl by done.
  rewrite (bind_done _ _ _ _ _ Hc2), peek_bind. set (ws := if star then _ else _) in *.
  enough (exists args', map erase args' = map erase args /\
    (if kind_eqb (kind_at (S (S pos))) Tok.STAR then _ ← consume_ tokens_; mret (true, [])
     else if negb (kind_eqb (kind_at (S (S pos))) Tok.RPAREN)
     then l ← args_loop source_ tokens_ f; mret (false, l) else mret (false, [])) (S (S pos))
    = Done (star, args') (S (S pos) + length ws)%nat) as (args' & Hes & E).
  { apply reads_app in Hr as [_ Hr]. next Hr Hk3 Hc3.
    rewrite (bind_done _ _ _ _ _ E), (bind_done _ _ _ _ _ (take_kind_done _ _ _ Hk3 Hc3)).
    eexists. split; [|unfold mret, parser_ret; f_equal; simpl; rewrite length_app; simpl; lia].
    simpl. rewrite Hes. congruence. }
  subst ws. destruct star; [|destruct args as [|a args]].
  - rewrite Hst by done. simpl in Hr. next Hr Hk3 Hc3. exists []. split; [done|].
    rewrite Hk3, kind_eqb_refl, (bind_done _ _ _ _ _ Hc3). unfold mret, parser_ret. f_equal. simpl. lia.
  - simpl in Hr. next Hr Hk3 Hc3. exists []. split; [done|].
    rewrite Hk3, kind_eqb_false, kind_eqb_refl by done. unfold mret, parser_ret. f_equal. simpl. lia.
  - destruct (args_ok (a :: args) ltac:(done) Hall f _ Hr) as (args' & Hes & E); [unfold need; lia|].
    exists args'. split; [done|].
    destruct (body_head a 1) as (w & ws & Ew & Hw1 & Hw2).
    assert (kind_at (S (S pos)) = fst w) as Hkw.
    { cbn [map commas] in Hr. rewrite Ew in Hr. cbn [app] in Hr. apply reads_cons in Hr as [<- _]. done. }
    rewrite Hkw, !kind_eqb_false by done. cbn [negb]. by rewrite (bind_done _ _ _ _ _ E).
Qed.

(** One round of the loop for an infix operator. *)
Lemma loop_infix info f min left right pos p' :
  kind_at pos <> Tok.KW_IS -> lookup_op (kind_at pos) = Some info -> min <= prec info ->
  consume_ tokens_ pos = Done (peek_at tokens_ pos 0) (S pos) ->
  pbin f (prec info + 1) (S pos) = Done right p' ->
  ploop (S f) min left pos
  = ploop f min
      (if is_logical info
       then ast.LogicalOp (logop info) left right (combine_loc (ast.expr_loc left) (ast.expr_loc right))
       else ast.BinaryOp (binop info) left right (combine_loc (ast.expr_loc left) (ast.expr_loc right))) p'.
Proof.
  intros Hk Hi Hm Hc E. cbn [binary_loop]. rewrite peek_bind, kind_eqb_false by done. cbn [andb].
  rewrite Hi, (proj2 (Z.ltb_ge _ _)) by done.
  by rewrite (bind_done _ _ _ _ _ Hc), (bind_done _ _ _ _ _ E).
Qed.

(** An infix operator: left operand, token, right operand. *)
Lemma infix_ok e a b k info :
  body double_text e = shows (prec info) a ++ punct k :: shows (prec info + 1) b ->
  level e = prec info -> k <> Tok.KW_IS -> lookup_op k = Some info -> 1 <= prec info <= 6 ->
  follows k = true -> op_level k = prec info ->
  (forall a' b' l, erase a' = erase a -> erase b' = erase b ->
     erase (if is_logical info then ast.LogicalOp (logop info) a' b' l else ast.BinaryOp (binop info) a' b' l)
     = erase e) ->
  body_ok a -> body_ok b -> body_ok e.
Proof.
  intros Hb Hl Hk Hi Hp Hfk Hok He Ha Hb' min f pos Hm Hm7 Hr pos' Hfo Hop Hf. subst pos'.
  rewrite Hb in *. rewrite Hl in *. rewrite length_app in *. cbn [length] in *.
  apply reads_app in Hr as [Hra Hr]. set (p1 := (pos + length (shows (prec info) a))%nat) in *.
  next Hr Hk1 Hc1. replace (pos + (length (shows (prec info) a) + S (length (shows (prec info + 1) b))))%nat
    with (S p1 + length (shows (prec info + 1) b))%nat in * by (unfold p1; lia).
  destruct (show_ok a Ha (prec info) min f pos) as (a' & f1 & Ea & Hf1 & E1);
    [lia | lia | done | by fold p1; rewrite Hk1 | fold p1; rewrite Hk1; lia | done |].
  fold p1 in Hf1, E1. unfold need in Hf1, Hf. destruct f1 as [|f1]; [lia|].
  destruct (full_ok b Hb' (prec info + 1) f1 (S p1)) as (b' & Eb & E2);
    [lia | done | done | lia | unfold need; lia |].
  eexists _, f1. split; [|split; [|rewrite E1; apply (loop_infix info); [by rewrite Hk1 | by rewrite Hk1 | lia | done | exact E2]]].
  - by apply He.
  - pose proof (kind_at_ge _ (reads_nil _ _ Hr)). unfold need. lia.
Qed.

Lemma binary_ok op a b l : body_ok a -> body_ok b -> body_ok (ast.BinaryOp op a b l).
Proof.
  intros Ha Hb. destruct (lookup_op (op_token op)) as [info|] eqn:Hi; [|by destruct op].
  apply (infix_ok _ a b (op_token op) info); try done.
  all: destruct op; injection Hi as <-; try done.
  all: intros a' b' l' Ea Eb; simpl; by rewrite Ea, Eb.
Qed.

Lemma logical_ok op a b l : body_ok a -> body_ok b -> body_ok (ast.LogicalOp op a b l).
Proof.
  intros Ha Hb. destruct (lookup_op (log_token op)) as [info|] eqn:Hi; [|by destruct op].
  apply (infix_ok _ a b (log_token op) info); try done.
  all: destruct op; injection Hi as <-; try done.
  all: intros a' b' l' Ea Eb; simpl; by rewrite Ea, Eb.
Qed.

Lemma op_level_not_3 k : op_level k <= 3 -> op_level k < 3.
Proof. destruct k; simpl; lia. Qed.

Lemma not_ok a l : body_ok a -> body_ok (ast.NotOp a l).
Proof.
  intros Ha min f pos Hm Hm7 Hr pos' Hfo Hop Hf. subst pos'.
  change (body double_text (ast.NotOp a l)) with (punct Tok.KW_NOT :: shows 3 a) in *.
  simpl in Hm, Hop. next Hr Hk Hc. cbn [length] in *.
  replace (pos + S (length (shows 3 a)))%nat with (S pos + length (shows 3 a))%nat in * by lia.
  unfold need in Hf. destruct f as [|f]; [lia|].
  destruct (full_ok a Ha 3 f (S pos)) as (a' & Ea & E);
    [lia | done | done | by apply op_level_not_3 | unfold need; lia |].
  pose proof (kind_at_ge _ (reads_nil _ _ Hr)).
  exists (ast.NotOp a' (combine_loc (loc (peek_at tokens_ pos 0)) (ast.expr_loc a'))), f.
  split_and!; [simpl; by rewrite Ea | unfold need; lia |].
  cbn [parse_binary_]. rewrite peek_bind, Hk, kind_eqb_refl, (proj2 (Z.leb_le _ _)) by lia. cbn [andb].
  apply bind_done. by rewrite (bind_done _ _ _ _ _ Hc), (bind_done _ _ _ _ _ E).
Qed.

Lemma loop_is f min left pos b p :
  kind_at pos = Tok.KW_IS -> min <= 4 ->
  consume_ tokens_ pos = Done (peek_at tokens_ pos 0) (S pos) ->
  match_ tokens_ Tok.KW_NOT (S pos) = Done b p ->
  kind_at p = Tok.KW_NULL -> consume_ tokens_ p = Done (peek_at tokens_ p 0) (S p) ->
  ploop (S f) min left pos
  = ploop f min (ast.NullCheck (if b then IS_NOT_NULL else IS_NULL) left
                   (combine_loc (ast.expr_loc left) (loc (peek_at tokens_ p 0)))) (S p).
Proof.
  intros Hk Hm Hc Hn Hk2 Hc2. cbn [binary_loop].
  rewrite peek_bind, Hk, kind_eqb_refl, (proj2 (Z.leb_le _ _)) by lia. cbn [andb].
  by rewrite (bind_done _ _ _ _ _ Hc), (bind_done _ _ _ _ _ Hn),
    (bind_done _ _ _ _ _ (take_kind_done _ _ _ Hk2 Hc2)).
Qed.

Lemma null_check_ok k a l : body_ok a -> body_ok (ast.NullCheck k a l).
Proof.
  intros Ha min f pos Hm Hm7 Hr pos' Hfo Hop Hf. subst pos'.
  set (nots := match k with IS_NULL => [] | IS_NOT_NULL => [punct Tok.KW_NOT] end).
  change (body double_text (ast.NullCheck k a l))
    with (shows 4 a ++ punct Tok.KW_IS :: nots ++ [punct Tok.KW_NULL]) in *.
  simpl in Hm, Hop. apply reads_app in Hr as [Hra Hr].
  rewrite length_app in *. cbn [length] in *. rewrite length_app in *. cbn [length] in *.
  set (p1 := (pos + length (shows 4 a))%nat) in *. next Hr Hk1 Hc1.
  destruct (show_ok a Ha 4 min f pos) as (a' & f1 & Ea & Hf1 & E1);
    [lia | lia | done | by fold p1; rewrite Hk1 | by fold p1; rewrite Hk1 | done |].
  fold p1 in Hf1, E1. unfold need in Hf1, Hf. destruct f1 as [|f1]; [lia|].
  pose proof (reads_app _ _ _ Hr) as [_ Hn]. next Hn Hk2 Hc2.
  assert (match_ tokens_ Tok.KW_NOT (S p1)
    = Done (match k with IS_NULL => false | IS_NOT_NULL => true end) (S p1 + length nots)%nat) as Hnot.
  { destruct k; simpl in *.
    - rewrite Nat.add_0_r in *. apply match_not. congruence.
    - next Hr Hk3 Hc3. rewrite (match_done _ _ Hk3 Hc3). f_equal. lia. }
  pose proof (kind_at_ge _ Hn).
  eexists _, f1. split; [|split; [|rewrite E1]].
  3: { rewrite (loop_is f1 min a' p1 _ _ Hk1 Hm Hc1 Hnot Hk2 Hc2).
       f_equal. unfold p1. lia. }
  - simpl. rewrite Ea. by destruct k.
  - unfold need, p1 in *. lia.
Qed.

Lemma all_body_ok e : printable double_text e -> body_ok e.
Proof.
  induction e as [v l|b l|s l|l|b l|s l|s l|t c l|n args st l IH|op a b l IHa IHb|op a b l IHa IHb|a l IHa|k a l IHa]
    using ast.Expr_rect'; intros H.
  - simpl in H. destruct (Z.le_gt_cases 0 v); [apply int_nonneg_ok; lia | apply int_neg_ok; lia].
  - destruct H as (_ & _ & H). destruct (f64_negative b) eqn:E; [by apply double_neg_ok | by apply double_pos_ok].
  - apply (literal_ok _ Tok.STRING_LITERAL s); [done..|]. intros f pos Hk Ht Hc.
    eexists. split; [|prim Hk Hc; reflexivity]. by rewrite Ht.
  - apply (literal_ok _ Tok.KW_NULL ""); [done..|]. intros f pos Hk Ht Hc.
    eexists. split; [|prim Hk Hc; reflexivity]. done.
  - apply (literal_ok _ (if b then Tok.KW_TRUE else Tok.KW_FALSE) "");
      [done | by destruct b.. |]. intros f pos Hk Ht Hc.
    exists (ast.BoolLit b (loc (peek_at tokens_ pos 0))).
    split; [done|]. destruct b; prim Hk Hc; reflexivity.
  - apply date_ok.
  - apply timestamp_ok.
  - apply column_ref_shown.
  - destruct H as (_ & Hst & H). apply call_ok; [done|].
    induction IH as [|a args Ha _ IHargs]; [done|]. destruct H as [H1 H2].
    constructor; [by apply Ha | apply IHargs; [|done]]. intros E. by specialize (Hst E).
  - destruct H. apply binary_ok; auto.
  - destruct H. apply logical_ok; auto.
  - apply not_ok; auto.
  - apply null_check_ok; auto.
Qed.
End RoundTrip.

(** ** The words of a printable expression *)

Lemma paren_readable b ws : Forall readable ws -> Forall readable (paren b ws).
Proof.
  intros H. unfold paren. destruct b; [|done].
  constructor; [by apply punct_readable|]. apply Forall_app. split; [done|].
  constructor; [by apply punct_readable | constructor].
Qed.

Lemma commas_readable l : Forall (Forall readable) l -> Forall readable (commas l).
Proof.
  intros H. destruct H as [|ws l Hw Hl]; [constructor|]. unfold commas. apply Forall_app. split; [done|].
  induction Hl as [|x l Hx Hl IH]; [constructor|]. cbn [flat_map].
  rewrite <- app_comm_cons. constructor; [by apply punct_readable|]. apply Forall_app. by split.
Qed.

Lemma op_readable op : readable (punct (op_token op)).
Proof. apply punct_readable. by destruct op. Qed.

Lemma log_readable op : readable (punct (log_token op)).
Proof. apply punct_readable. by destruct op. Qed.

Local Ltac words :=
  repeat (apply List.Forall_cons); [..|apply List.Forall_nil].

Lemma body_readable dt e : printable dt e -> Forall readable (body dt e).
Proof.
  induction e as [v l|b l|s l|l|b l|s l|s l|t c l|n args st l IH|op a b l IHa IHb|op a b l IHa IHb|a l IHa|k a l IHa]
    using ast.Expr_rect'; cbn [body printable]; intros H.
  - destruct (v <? 0) eqn:E; [apply Z.ltb_lt in E | apply Z.ltb_ge in E];
      words; try (by apply punct_readable); apply int_readable; lia.
  - destruct H as (_ & H & _).
    destruct (f64_negative b); words; try (by apply punct_readable); done.
  - words. apply string_readable.
  - words. by apply punct_readable.
  - words. apply punct_readable. by destruct b.
  - words; [by apply punct_readable | apply string_readable].
  - words; [by apply punct_readable | apply string_readable].
  - destruct H as [Ht Hc]. destruct t; words; try (by apply ident_readable); by apply punct_readable.
  - destruct H as (Hn & _ & H). constructor; [by apply ident_readable|]. constructor; [by apply punct_readable|].
    apply Forall_app. split; [|constructor; [by apply punct_readable | constructor]].
    destruct st; [constructor; [by apply punct_readable | constructor]|]. apply commas_readable.
    induction IH as [|a args Ha _ IHargs]; [constructor|]. destruct H as [H1 H2].
    cbn [map]. constructor; [by apply paren_readable, Ha | by apply IHargs].
  - destruct H. apply Forall_app. split; [|constructor; [apply op_readable|]]; apply paren_readable; auto.
  - destruct H. apply Forall_app. split; [|constructor; [apply log_readable|]]; apply paren_readable; auto.
  - constructor; [by apply punct_readable|]. apply paren_readable; auto.
  - apply Forall_app. split; [apply paren_readable; auto|]. constructor; [by apply punct_readable|].
    destruct k; cbn [app]; words; by apply punct_readable.
Qed.

Lemma reads_all ts eof ws : map word_of ts = ws -> reads (ts ++ [eof]) 0 ws.
Proof. intros <-. exists [word_of eof]. split; [|done]. by rewrite drop_0, map_app. Qed.

Lemma peek_end ts eof : peek_at (ts ++ [eof]) (0 + length ts) 0 = eof.
Proof. unfold peek_at. by rewrite Nat.add_0_r, Nat.add_0_l, list_lookup_middle. Qed.

(** C6. Expressions survive printing: print an expression with the parentheses that the
    precedences require and no others, one blank after each word, tokenize the text and parse
    it with [parse_expression]: the result is the expression, up to source locations.  The
    precedences and the left associativity of the operators, the prefix NOT, the postfix
    IS [NOT] NULL, the folding of a minus sign into a number, calls and qualified names are
    thereby those of the printer.  The expression may have any shape; its names must be
    identifiers, its integers such as a literal can denote, and [double_text] must write its
    doubles so that [strtod] reads them back. *)
Theorem parse_show_roundtrip double_text e :
  printable double_text e ->
  zlen (unparse (show double_text 1 e)) < 2 ^ 32 ->
  exists toks e' p,
    tokenize (unparse (show double_text 1 e)) = Some (Ok toks) /\
    parse_expression (unparse (show double_text 1 e)) toks 0%nat = Done e' p /\ erase e' = erase e.
Proof.
  intros He Hs. set (sql := unparse (show double_text 1 e)) in *.
  destruct (lexed_unparse (show double_text 1 e) 0) as (ts & eof & Hl & Hw & Hk).
  { apply paren_readable. by apply body_readable. }
  exists (ts ++ [eof]). apply (tokenize_lexed _ _ Hs) in Hl.
  pose proof (all_body_ok sql (ts ++ [eof]) double_text e He) as Hb.
  assert (HL : length (show double_text 1 e) = length ts) by (rewrite <- Hw; apply length_map).
  destruct (full_ok sql (ts ++ [eof]) double_text e Hb 1 (fuel (ts ++ [eof])) 0) as (e' & Ee & E).
  - lia.
  - by apply reads_all.
  - by rewrite HL, peek_end, Hk.
  - by rewrite HL, peek_end, Hk.
  - unfold need, fuel. rewrite length_app. simpl. lia.
  - exists e', (0 + length (show double_text 1 e))%nat. split_and!; [done | | done].
    unfold parse_expression, parse_expr_. rewrite (bind_done _ _ _ _ _ E), peek_bind.
    rewrite HL, peek_end, Hk, kind_eqb_refl. done.
Qed.

(** [a + 2 * (b - 1.5) < -3 OR NOT x IS NULL AND f(a, 'it''s')], say. *)
Definition printed_sample : ast.Expr :=
  let col c := ast.ColumnRef None c noloc in
  ast.LogicalOp OR
    (ast.BinaryOp LT
       (ast.BinaryOp ADD (col "a")
          (ast.BinaryOp MUL (ast.IntLit 2 noloc)
             (ast.BinaryOp SUB (col "b") (ast.DoubleLit 0x3FF8000000000000 noloc) noloc) noloc) noloc)
       (ast.IntLit (-3) noloc) noloc)
    (ast.LogicalOp AND
       (ast.NotOp (ast.NullCheck IS_NULL (ast.ColumnRef (Some "t") "x" noloc) noloc) noloc)
       (ast.FuncCall "f" [col "a"; ast.StringLit "it's" noloc] false noloc) noloc) noloc.

Definition sample_text (b : Z) : string := "1.5".

Lemma letter_ident c : islower c = true -> keyword (string_of [c]) = None -> is_ident (string_of [c]).
Proof.
  intros Hc Hk. exists c, []. split_and!; [done | | constructor | | done].
  - unfold isalpha. by rewrite Hc, orb_true_r.
  - unfold lower. simpl. do 2 f_equal. by destruct c as [[] [] [] [] [] [] [] []].
Qed.

Lemma printed_sample_printable : printable sample_text printed_sample.
Proof.
  assert (L : forall c, islower c = true -> is_ident (string_of [c])).
  { intros c Hc. apply letter_ident; [done|]. by destruct c as [[] [] [] [] [] [] [] []]. }
  assert (D : readable (Tok.DOUBLE_LITERAL, "1.5")).
  { apply (number_readable "1" [] (chars ".5") []); [by repeat constructor | | by left | done].
    right. exists "5"%char, []. split; [done | by repeat constructor]. }
  unfold printed_sample. simpl. unfold INT64_MAX, in_u. split_and!; try done; try lia.
  all: first [exact (L "a"%char eq_refl) | exact (L "b"%char eq_refl) | exact (L "t"%char eq_refl)
             | exact (L "x"%char eq_refl) | exact (L "f"%char eq_refl) | vm_compute; reflexivity].
Qed.

Lemma parse_show_roundtrip_witness :
  printable sample_text printed_sample /\
  string_of (unparse (show sample_text 1 printed_sample))
  = "a + 2 * ( b - 1.5 ) < - 3 OR NOT t . x IS NULL AND f ( a , 'it''s' ) " /\
  exists toks e' p,
    tokenize (unparse (show sample_text 1 printed_sample)) = Some (Ok toks) /\
    parse_expression (unparse (show sample_text 1 printed_sample)) toks 0%nat = Done e' p /\
    erase e' = erase printed_sample.
Proof.
  split; [exact printed_sample_printable|]. split; [vm_compute; reflexivity|].
  apply (parse_show_roundtrip sample_text printed_sample printed_sample_printable). vm_compute. reflexivity.
Defined.
