(* ===== verification/Bound.v ===== *)
(** * Bound statements

    The output of the binder (src/src/binder/bound_ast.h, bound_ast.cpp): names are resolved
    to bindings and column positions, every expression has a type.  A null [BoundExprPtr] is
    [None]. *)

From S2P Require Import Prelude Types ConstraintFile ShardMapFile Expression HashAggregate.

Module bound.
Record BindingRef : Type := mkRef {
  binding_id : nat; column_idx : nat; ref_type : TypeId; ref_nullable : bool }.

Inductive BoundExpr : Type :=
| BoundIntLit (value : Z) (type : TypeId)
| BoundDoubleLit (value : Z)
| BoundStringLit (value : string)
| BoundNullLit (type : TypeId)
| BoundBoolLit (value : bool)
| BoundDateLit (days : Z)
| BoundTimestampLit (micros : Z)
| BoundColumnRef (ref : BindingRef)
| BoundAggregateRef (aggregate_idx : nat) (type : TypeId)
| BoundProjectionRef (proj_idx : nat) (type : TypeId)
| BoundBinaryOp (op : BinaryOpKind) (left right : BoundExpr) (operand_type result_type : TypeId)
| BoundLogicalOp (op : LogicalOpKind) (left right : BoundExpr)
| BoundNotOp (child : BoundExpr)
| BoundNullCheck (kind : NullCheckKind) (child : BoundExpr).

Record BoundBinding : Type := mkBinding { bb_table_name : string; bb_alias : string; bb_schema : Schema }.

Record BoundAggregate : Type := mkAggregate {
  ag_kind : AggregateKind; ag_arg : option BoundExpr; ag_output_type : TypeId }.

Record BoundProjection : Type := mkProjection { bp_expr : BoundExpr; bp_alias : option string }.

Record BoundOrderBy : Type := mkOrderBy { bo_expr : BoundExpr; bo_ascending : bool }.

Record BoundSelect : Type := mkSelect {
  bs_bindings : list BoundBinding;
  bs_join_predicates : list BoundExpr;
  bs_where : option BoundExpr;
  bs_group_by : list BoundExpr;
  bs_aggregates : list BoundAggregate;
  bs_having : option BoundExpr;
  bs_projections : list BoundProjection;
  bs_order_by : list BoundOrderBy;
  bs_limit : option Z;
  bs_offset : option Z;
  bs_is_aggregated : bool
}.

(** A [BoundConstraint] has the fields of a stored constraint. *)
Definition BoundConstraint : Type := ConstraintMeta.

Record BoundCreateTable : Type := mkCreateTable {
  bc_table_name : string;
  bc_schema : Schema;
  bc_constraints : list BoundConstraint;
  bc_shard_map : option ShardMapMeta
}.

Record BoundInsert : Type := mkInsert { bi_table_name : string; bi_rows : list (list Value) }.

Record BoundDropTable : Type := mkDropTable { bd_table_name : string; bd_if_exists : bool }.

Record BoundDelete : Type := mkDelete {
  bdel_table_name : string; bdel_schema : Schema; bdel_where : option BoundExpr }.

Record BoundAssignment : Type := mkAssignment { ba_col_idx : nat; ba_expr : BoundExpr }.

Record BoundUpdate : Type := mkUpdate {
  bu_table_name : string;
  bu_schema : Schema;
  bu_assignments : list BoundAssignment;
  bu_where : option BoundExpr
}.

Record BoundCreateIndex : Type := mkCreateIndex {
  bci_table_name : string; bci_index_name : string; bci_col_indices : list Z; bci_unique : bool }.

Record BoundDropIndex : Type := mkDropIndex { bdi_table_name : string; bdi_index_name : string }.

Record BoundAlterAddPartition : Type := mkAlter {
  bal_table_name : string; bal_updated_shard_map : ShardMapMeta }.

Inductive BoundStatement : Type :=
| BSelect (s : BoundSelect)
| BCreateTable (s : BoundCreateTable)
| BInsert (s : BoundInsert)
| BDropTable (s : BoundDropTable)
| BDelete (s : BoundDelete)
| BUpdate (s : BoundUpdate)
| BCreateIndex (s : BoundCreateIndex)
| BDropIndex (s : BoundDropIndex)
| BShowIndexes (table_name : string)
| BShowConstraints (table_name : string)
| BVacuum (table_name : string)
| BAlterAddPartition (s : BoundAlterAddPartition).

Definition type_name (t : TypeId) : string :=
  match t with
  | INT32 => "INT32" | INT64 => "INT64" | DOUBLE => "DOUBLE" | VARCHAR => "VARCHAR"
  | BOOL => "BOOL" | DATE => "DATE" | TIMESTAMP => "TIMESTAMP" | _ => "?"
  end.

Definition bound_expr_type (e : BoundExpr) : TypeId :=
  match e with
  | BoundIntLit _ t | BoundNullLit t | BoundAggregateRef _ t | BoundProjectionRef _ t => t
  | BoundDoubleLit _ => DOUBLE
  | BoundStringLit _ => VARCHAR
  | BoundBoolLit _ => BOOL
  | BoundDateLit _ => DATE
  | BoundTimestampLit _ => TIMESTAMP
  | BoundColumnRef r => ref_type r
  | BoundBinaryOp _ _ _ _ t => t
  | BoundLogicalOp _ _ _ | BoundNotOp _ | BoundNullCheck _ _ => INT32
  end.

Fixpoint bound_expr_nullable (e : BoundExpr) : bool :=
  match e with
  | BoundNullLit _ | BoundAggregateRef _ _ => true
  | BoundColumnRef r => ref_nullable r
  | BoundBinaryOp _ l r _ _ | BoundLogicalOp _ l r => bound_expr_nullable l || bound_expr_nullable r
  | BoundNotOp c => bound_expr_nullable c
  | _ => false
  end.
End bound.
