(* ===== verification/Binder.v ===== *)
(** * Binder

    [Binder] (src/src/binder/binder.cpp): the statements of the parser with names resolved
    against the catalog, expressions typed, the values of an INSERT computed.  The members
    [bindings_] and [source_] are arguments; [aggregates_], the vector to which aggregate
    calls are appended or null where they are not allowed, is threaded through the binding
    of expressions.  The binder sees the catalog only through the lookups of [CatalogView]. *)

From Stdlib Require Import Ascii.
From S2P Require Import Prelude Types ConstraintFile ShardMapFile Expression HashAggregate Lexer.
From S2P Require Import Ast Literals Parser Bound.

Record IndexMeta : Type := mkIndexMeta { im_name : string; im_col_indices : list Z; im_unique : bool }.

(** What the binder asks of the catalog; its table names are in lower case. *)
Class CatalogView : Type := {
  tables_ : gmap string Schema;
  index_meta_ : gmap string (list IndexMeta);
  shard_maps_ : gmap string ShardMapMeta
}.

Definition canonicalize (s : string) : string := string_of (map tolower (chars s)).

Section Catalog.
Context `{CatalogView}.
Definition has_table (name : string) : bool := bool_decide (is_Some (tables_ !! canonicalize name)).
Definition schema_of (name : string) : option Schema := tables_ !! canonicalize name.
Definition indexes_of (name : string) : list IndexMeta := default [] (index_meta_ !! canonicalize name).
Definition shard_map_of (name : string) : option ShardMapMeta := shard_maps_ !! canonicalize name.
End Catalog.

(** ** Binding with the list of aggregates *)

Definition binding (A : Type) : Type :=
  option (list bound.BoundAggregate) -> result (A * option (list bound.BoundAggregate)).

#[global] Instance binding_ret : MRet binding := fun A a aggs => Ok (a, aggs).
#[global] Instance binding_bind : MBind binding := fun A B k m aggs =>
  match m aggs with Ok (a, aggs) => k a aggs | Err e => Err e end.

Definition reject {A} (e : string) : binding A := fun _ => Err e.
Definition lift {A} (r : result A) : binding A := fun aggs =>
  match r with Ok a => Ok (a, aggs) | Err e => Err e end.

(** Run with [aggregates_] null. *)
Definition without_aggregates {A} (m : binding A) : result A :=
  match m None with Ok (a, _) => Ok a | Err e => Err e end.

Fixpoint each_binding {A B} (f : A -> binding B) (l : list A) : binding (list B) :=
  match l with
  | [] => mret []
  | a :: l => b ← f a; bs ← each_binding f l; mret (b :: bs)
  end.

Definition aggregate_names : list string := ["count"; "sum"; "avg"; "min"; "max"].

Definition no_loc : SourceLoc := mkLoc 0 0.

Section Binder.
Context `{CatalogView} (source_ : list ascii).

Definition bind_error (msg : string) (loc : SourceLoc) : string :=
  render_source_error source_ loc "bind error" msg.

(** [err_msg_(msg, SourceLoc{0, 0})] *)
Definition stmt_err {A} (msg : string) : result A := Err (bind_error msg no_loc).

(** ** Expressions *)

Definition bind_int_lit_ (v : Z) : bound.BoundExpr :=
  bound.BoundIntLit v (if (- 2 ^ 31 <=? v) && (v <=? 2 ^ 31 - 1) then INT32 else INT64).

(** The positions of a column, in the order of the loops of [bind_column_ref_].  Where there
    is one the lookup by position succeeds ([column_matches_ok]); an [Err] with no message
    below stands for a case that does not occur. *)
Definition column_matches (bindings : list bound.BoundBinding) (table : option string)
    (column : string) : list (nat * nat) :=
  concat (imap (fun b bd =>
    if match table with
       | Some t => negb (String.eqb t (bound.bb_alias bd)) && negb (String.eqb t (bound.bb_table_name bd))
       | None => false
       end
    then []
    else omap (fun x => x)
           (imap (fun c col => if String.eqb (col_name col) column then Some (b, c) else None)
              (bound.bb_schema bd))) bindings).

Definition bind_column_ref_ (bindings : list bound.BoundBinding) (table : option string)
    (column : string) (loc : SourceLoc) : result bound.BoundExpr :=
  match column_matches bindings table column with
  | [] =>
      Err (bind_error ("unknown column: " ++ match table with Some t => t ++ "." ++ column | None => column end) loc)
  | [(b, c)] =>
      match bd ← bindings !! b; bound.bb_schema bd !! c with
      | Some col => Ok (bound.BoundColumnRef (bound.mkRef b c (col_type col) (col_nullable col)))
      | None => Err ""
      end
  | _ => Err (bind_error ("ambiguous column: " ++ column) loc)
  end.

Definition retype_lit_if_possible_ (e : bound.BoundExpr) (target : TypeId) : bound.BoundExpr :=
  match e with
  | bound.BoundIntLit v t =>
      match target with
      | INT32 => if (- 2 ^ 31 <=? v) && (v <=? 2 ^ 31 - 1) then bound.BoundIntLit v INT32 else e
      | INT64 => bound.BoundIntLit v INT64
      | _ => e
      end
  | bound.BoundNullLit _ => bound.BoundNullLit target
  | _ => e
  end.

(** [bind_binary_op_] after its operands are bound. *)
Definition bind_binary (op : BinaryOpKind) (l r : bound.BoundExpr) (loc : SourceLoc) :
    result bound.BoundExpr :=
  let lt := bound.bound_expr_type l in
  let rt := bound.bound_expr_type r in
  let '(l, r) :=
    if bool_decide (lt = rt) then (l, r)
    else (retype_lit_if_possible_ l rt, retype_lit_if_possible_ r lt) in
  let lt := bound.bound_expr_type l in
  let rt := bound.bound_expr_type r in
  if negb (bool_decide (lt = rt)) then
    Err (bind_error ("type mismatch: " ++ bound.type_name lt ++ " vs " ++ bound.type_name rt) loc)
  else if bool_decide (lt = VARCHAR) && negb (is_comparison op) then
    Err (bind_error "VARCHAR only supports comparison operators" loc)
  else if (bool_decide (lt = DATE) || bool_decide (lt = TIMESTAMP)) && negb (is_comparison op) then
    Err (bind_error (bound.type_name lt ++ " only supports comparison operators") loc)
  else if bool_decide (lt = BOOL) && negb (match op with EQ | NE => true | _ => false end) then
    Err (bind_error "BOOL only supports = and <> operators" loc)
  else
    Ok (bound.BoundBinaryOp op l r lt
          (match op with ADD | SUB | MUL | DIV => lt | _ => INT32 end)).

Definition not_boolean (op : string) (e : bound.BoundExpr) (loc : SourceLoc) : string :=
  bind_error (op ++ " operand must be boolean (INT32), got " ++ bound.type_name (bound.bound_expr_type e)) loc.

Definition is_int32 (e : bound.BoundExpr) : bool := bool_decide (bound.bound_expr_type e = INT32).

Definition bind_logical (op : LogicalOpKind) (left right : bound.BoundExpr) (loc : SourceLoc) :
    result bound.BoundExpr :=
  let name := match op with AND => "AND" | OR => "OR" end in
  if negb (is_int32 left) then Err (not_boolean name left loc)
  else if negb (is_int32 right) then Err (not_boolean name right loc)
  else Ok (bound.BoundLogicalOp op left right).

Definition bind_not (child : bound.BoundExpr) (loc : SourceLoc) : result bound.BoundExpr :=
  if negb (is_int32 child) then Err (not_boolean "NOT" child loc) else Ok (bound.BoundNotOp child).

(** [aggregates_->push_back] and the reference to the new aggregate. *)
Definition push_aggregate (kind : AggregateKind) (arg : option bound.BoundExpr) (output_type : TypeId) :
    binding bound.BoundExpr := fun aggs =>
  match aggs with
  | Some l => Ok (bound.BoundAggregateRef (length l) output_type,
                  Some (l ++ [bound.mkAggregate kind arg output_type]))
  | None => Err ""
  end.

Section Expr.
Context (bindings : list bound.BoundBinding).

Fixpoint bind_expr_ (e : ast.Expr) : binding bound.BoundExpr :=
  (* the first argument of a call, bound *)
  let arg (fc_name : string) (args : list ast.Expr) (loc : SourceLoc) : binding bound.BoundExpr :=
    match args with
    | [] => reject (bind_error (fc_name ++ " requires an argument") loc)
    | a :: _ => bind_expr_ a
    end in
  match e with
  | ast.IntLit v _ => mret (bind_int_lit_ v)
  | ast.DoubleLit v _ => mret (bound.BoundDoubleLit v)
  | ast.StringLit s _ => mret (bound.BoundStringLit s)
  | ast.NullLit _ => mret (bound.BoundNullLit INT32)
  | ast.BoolLit b _ => mret (bound.BoundBoolLit b)
  | ast.DateLit s loc =>
      match parse_date_string s with
      | Ok d => mret (bound.BoundDateLit d)
      | Err m => reject (bind_error m loc)
      end
  | ast.TimestampLit s loc =>
      match parse_timestamp_string s with
      | Ok t => mret (bound.BoundTimestampLit t)
      | Err m => reject (bind_error m loc)
      end
  | ast.ColumnRef t c loc => lift (bind_column_ref_ bindings t c loc)
  | ast.FuncCall name args star loc => fun aggs =>
      if bool_decide (name ∈ aggregate_names) then
        match aggs with
        | None => Err (bind_error ("aggregate function '" ++ name ++ "' not allowed here") loc)
        | Some _ =>
            (if String.eqb name "count" then
               if star : bool then push_aggregate COUNT_STAR None INT64
               else a ← arg name args loc; push_aggregate COUNT (Some a) INT64
             else if String.eqb name "sum" then
               a ← arg name args loc;
               push_aggregate SUM (Some a)
                 (if bool_decide (bound.bound_expr_type a = DOUBLE) then DOUBLE else INT64)
             else if String.eqb name "avg" then
               a ← arg name args loc; push_aggregate AVG (Some a) DOUBLE
             else
               a ← arg name args loc;
               push_aggregate (if String.eqb name "min" then MIN else MAX) (Some a)
                 (bound.bound_expr_type a)) aggs
        end
      else Err (bind_error ("unknown function: " ++ name) loc)
  | ast.BinaryOp op l r loc =>
      left ← bind_expr_ l; right ← bind_expr_ r; lift (bind_binary op left right loc)
  | ast.LogicalOp op l r loc =>
      left ← bind_expr_ l; right ← bind_expr_ r; lift (bind_logical op left right loc)
  | ast.NotOp c loc => child ← bind_expr_ c; lift (bind_not child loc)
  | ast.NullCheck k c _ => child ← bind_expr_ c; mret (bound.BoundNullCheck k child)
  end.
End Expr.

(** [bind_expression]: no aggregates. *)
Definition bind_expression (e : ast.Expr) (bindings : list bound.BoundBinding) : result bound.BoundExpr :=
  without_aggregates (bind_expr_ bindings e).

Definition bind_where (wh : option ast.Expr) (bindings : list bound.BoundBinding) :
    result (option bound.BoundExpr) :=
  match wh with
  | None => Ok None
  | Some e => let? b := bind_expression e bindings in Ok (Some b)
  end.

(** ** Statements on existing tables *)

Definition unknown_table {A} (name : string) : result A := stmt_err ("unknown table: " ++ name).

Definition bind_vacuum (name : string) : result string :=
  if negb (has_table name) then unknown_table name else Ok name.

Definition bind_show_indexes (name : string) : result string :=
  if negb (has_table name) then unknown_table name else Ok name.

Definition bind_show_constraints_ (name : string) : result string :=
  if negb (has_table name) then unknown_table name else Ok name.

Definition bind_drop_table (s : ast.DropTableStmt) : result bound.BoundDropTable :=
  if negb (ast.dt_if_exists s) && negb (has_table (ast.dt_table_name s))
  then unknown_table (ast.dt_table_name s)
  else Ok (bound.mkDropTable (ast.dt_table_name s) (ast.dt_if_exists s)).

Definition table_binding (name : string) (schema : Schema) : list bound.BoundBinding :=
  [bound.mkBinding name name schema].

Definition bind_delete (s : ast.DeleteStmt) : result bound.BoundDelete :=
  let name := ast.del_table_name s in
  match schema_of name with
  | None => unknown_table name
  | Some schema =>
      let? wh := bind_where (ast.del_where s) (table_binding name schema) in
      Ok (bound.mkDelete name schema wh)
  end.

(** The first column of a name. *)
Fixpoint col_index (schema : Schema) (name : string) : option nat :=
  match schema with
  | [] => None
  | c :: schema => if String.eqb (col_name c) name then Some 0%nat else S <$> col_index schema name
  end.

Fixpoint bind_assignments (schema : Schema) (bindings : list bound.BoundBinding)
    (l : list ast.Assignment) : result (list bound.BoundAssignment) :=
  match l with
  | [] => Ok []
  | a :: l =>
      match col_index schema (ast.as_column a) with
      | None => stmt_err ("unknown column: " ++ ast.as_column a)
      | Some i =>
          let? e := bind_expression (ast.as_value a) bindings in
          let? bs := bind_assignments schema bindings l in
          Ok (bound.mkAssignment i e :: bs)
      end
  end.

Definition bind_update (s : ast.UpdateStmt) : result bound.BoundUpdate :=
  let name := ast.upd_table_name s in
  match schema_of name with
  | None => unknown_table name
  | Some schema =>
      let bindings := table_binding name schema in
      let? l := bind_assignments schema bindings (ast.upd_assignments s) in
      let? wh := bind_where (ast.upd_where s) bindings in
      Ok (bound.mkUpdate name schema l wh)
  end.

(** ** INSERT *)

Definition type_mismatch (col : Column) : result Value :=
  stmt_err ("type mismatch for column: " ++ col_name col).

Definition fold_constant_expr_ (e : bound.BoundExpr) (col : Column) : result Value :=
  match e with
  | bound.BoundIntLit v t =>
      match col_type col with
      | INT64 => Ok (VI64 v)
      | INT32 => if bool_decide (t = INT32) then Ok (VI32 (signed 32 v)) else type_mismatch col
      | _ => type_mismatch col
      end
  | bound.BoundDoubleLit b =>
      if bool_decide (col_type col = DOUBLE) then Ok (VF64 b) else type_mismatch col
  | bound.BoundStringLit s =>
      if negb (bool_decide (col_type col = VARCHAR)) then type_mismatch col
      else if col_max_len col <? strlen s then
        stmt_err ("string of length " ++ pretty (strlen s) ++ " exceeds VARCHAR("
                  ++ pretty (col_max_len col) ++ ") for column: " ++ col_name col)
      else Ok (VStr s)
  | bound.BoundNullLit _ => Ok VNull
  | bound.BoundBoolLit b => if bool_decide (col_type col = BOOL) then Ok (VBool b) else type_mismatch col
  | bound.BoundDateLit d => if bool_decide (col_type col = DATE) then Ok (VDate d) else type_mismatch col
  | bound.BoundTimestampLit t =>
      if bool_decide (col_type col = TIMESTAMP) then Ok (VTimestamp t) else type_mismatch col
  | _ => stmt_err "INSERT values must be constants"
  end.

Fixpoint named_columns (schema : Schema) (seen : list string) (names : list string) : result (list nat) :=
  match names with
  | [] => Ok []
  | n :: names =>
      if bool_decide (n ∈ seen) then stmt_err ("duplicate column in INSERT: " ++ n)
      else
        match col_index schema n with
        | None => stmt_err ("unknown column: " ++ n)
        | Some j => let? l := named_columns schema (n :: seen) names in Ok (j :: l)
        end
  end.

Definition target_columns (schema : Schema) (names : list string) : result (list nat) :=
  match names with
  | [] => Ok (seq 0 (length schema))
  | _ => named_columns schema [] names
  end.

(** [schema_row[target_cols[i]] = value], for the expressions of a row in turn. *)
Fixpoint fill_row (schema : Schema) (targets : list nat) (exprs : list ast.Expr) (row : list Value) :
    result (list Value) :=
  match targets, exprs with
  | j :: targets, e :: exprs =>
      let? b := without_aggregates (bind_expr_ [] e) in
      match schema !! j with
      | None => Err ""
      | Some col =>
          let? v := fold_constant_expr_ b col in
          fill_row schema targets exprs (<[j := v]> row)
      end
  | _, _ => Ok row
  end.

(** NULLs are replaced by the default of the column. *)
Fixpoint apply_defaults (schema : Schema) (row : list Value) : result (list Value) :=
  match schema, row with
  | col :: schema, v :: row =>
      let? v :=
        if is_null v then
          match col_default col with
          | Some d => Ok d
          | None =>
              if negb (col_nullable col) then stmt_err ("NULL into NOT NULL column: " ++ col_name col)
              else Ok v
          end
        else Ok v in
      let? l := apply_defaults schema row in
      Ok (v :: l)
  | _, _ => Ok row
  end.

Definition bind_row (schema : Schema) (targets : list nat) (exprs : list ast.Expr) : result (list Value) :=
  if negb (length exprs =? length targets)%nat then
    stmt_err ("arity mismatch: expected " ++ pretty (Z.of_nat (length targets)) ++ " values, got "
              ++ pretty (Z.of_nat (length exprs)))
  else
    let? row := fill_row schema targets exprs (replicate (length schema) VNull) in
    apply_defaults schema row.

Fixpoint bind_rows (schema : Schema) (targets : list nat) (rows : list (list ast.Expr)) :
    result (list (list Value)) :=
  match rows with
  | [] => Ok []
  | r :: rows =>
      let? v := bind_row schema targets r in
      let? l := bind_rows schema targets rows in
      Ok (v :: l)
  end.

Definition bind_insert (s : ast.InsertStmt) : result bound.BoundInsert :=
  let name := ast.ins_table_name s in
  match schema_of name with
  | None => unknown_table name
  | Some schema =>
      let? targets := target_columns schema (ast.ins_columns s) in
      let? rows := bind_rows schema targets (ast.ins_rows s) in
      Ok (bound.mkInsert name rows)
  end.

(** ** CREATE TABLE *)

Definition column_of (c : ast.ColumnDef) : Column :=
  mkColumn (ast.cd_name c) (ast.cd_type c) (ast.cd_nullable c) (ast.cd_max_len c) (ast.cd_default_value c).

Fixpoint schema_of_defs (seen : list string) (defs : list ast.ColumnDef) : result Schema :=
  match defs with
  | [] => Ok []
  | c :: defs =>
      if bool_decide (ast.cd_name c ∈ seen) then stmt_err ("duplicate column name: " ++ ast.cd_name c)
      else let? l := schema_of_defs (ast.cd_name c :: seen) defs in Ok (column_of c :: l)
  end.

(** The schema, the constraints and [has_pk] while the constraints are added. *)
Record create_state : Type := mkCreate {
  cs_schema : Schema; cs_constraints : list bound.BoundConstraint; cs_has_pk : bool }.

Definition set_not_null (schema : Schema) (i : nat) : Schema :=
  alter (fun c => mkColumn (col_name c) (col_type c) false (col_max_len c) (col_default c)) i schema.

Definition no_bool {A} (name : string) : result A := stmt_err ("cannot index BOOL column: " ++ name).

Definition one_pk {A} : result A := stmt_err "table can have only one PRIMARY KEY".

(** The [PRIMARY KEY] and [UNIQUE] of the column at position [i]. *)
Definition column_constraints (table : string) (i : nat) (c : ast.ColumnDef) (st : create_state) :
    result create_state :=
  let is_bool := bool_decide (ast.cd_type c = BOOL) in
  let idx := [wrap 8 (Z.of_nat i)] in
  let? st :=
    if ast.cd_is_primary_key c then
      if is_bool then no_bool (ast.cd_name c)
      else if cs_has_pk st then one_pk
      else Ok (mkCreate (set_not_null (cs_schema st) i)
                 (cs_constraints st ++ [mkConstraint PRIMARY_KEY ("pk_" ++ table) idx]) true)
    else Ok st in
  if ast.cd_is_unique c then
    if is_bool then no_bool (ast.cd_name c)
    else Ok (mkCreate (cs_schema st)
               (cs_constraints st ++ [mkConstraint UNIQUE ("uq_" ++ table ++ "_" ++ ast.cd_name c) idx])
               (cs_has_pk st))
  else Ok st.

Fixpoint all_column_constraints (table : string) (i : nat) (defs : list ast.ColumnDef)
    (st : create_state) : result create_state :=
  match defs with
  | [] => Ok st
  | c :: defs =>
      let? st := column_constraints table i c st in
      all_column_constraints table (S i) defs st
  end.

Fixpoint constraint_columns (pk : bool) (names : list string) (schema : Schema) :
    result (Schema * list Z) :=
  match names with
  | [] => Ok (schema, [])
  | n :: names =>
      match col_index schema n with
      | None => stmt_err ("unknown column in constraint: " ++ n)
      | Some i =>
          if match schema !! i with Some c => bool_decide (col_type c = BOOL) | None => false end
          then no_bool n
          else
            let schema := if pk then set_not_null schema i else schema in
            let? r := constraint_columns pk names schema in
            Ok (fst r, wrap 8 (Z.of_nat i) :: snd r)
      end
  end.

Definition constraint_name (table : string) (tc : ast.TableConstraint) : string :=
  if String.eqb (ast.tc_name tc) "" then
    match ast.tc_kind tc with
    | ast.PRIMARY_KEY => "pk_" ++ table
    | ast.UNIQUE => "uq_" ++ table ++ String.concat "" (map (String.append "_") (ast.tc_columns tc))
    end
  else ast.tc_name tc.

Definition add_constraint (table : string) (tc : ast.TableConstraint) (st : create_state) :
    result create_state :=
  let pk := match ast.tc_kind tc with ast.PRIMARY_KEY => true | ast.UNIQUE => false end in
  if pk && cs_has_pk st then one_pk
  else
    let? r := constraint_columns pk (ast.tc_columns tc) (cs_schema st) in
    Ok (mkCreate (fst r)
          (cs_constraints st ++
             [mkConstraint (if pk then PRIMARY_KEY else UNIQUE) (constraint_name table tc) (snd r)])
          (pk || cs_has_pk st)).

Fixpoint add_constraints (table : string) (l : list ast.TableConstraint) (st : create_state) :
    result create_state :=
  match l with
  | [] => Ok st
  | tc :: l => let? st := add_constraint table tc st in add_constraints table l st
  end.

(** A partition with its bound computed as a value of the partition column; the parser gives
    every partition but a MAXVALUE one a bound. *)
Definition bind_partition (spec : Column) (pd : ast.PartitionDefAst) : result PartitionDef :=
  if negb (ast.pd_is_maxvalue pd) then
    match ast.pd_upper_bound pd with
    | Some e =>
        let? b := without_aggregates (bind_expr_ [] e) in
        let? v := fold_constant_expr_ b spec in
        Ok (mkPartition (ast.pd_name pd) false v (ast.pd_node_addr pd))
    | None => Err ""
    end
  else Ok (mkPartition (ast.pd_name pd) true VNull (ast.pd_node_addr pd)).

Fixpoint bind_partitions (spec : Column) (saw_maxvalue : bool) (l : list ast.PartitionDefAst) :
    result (list PartitionDef) :=
  match l with
  | [] => Ok []
  | pd :: l =>
      if saw_maxvalue then stmt_err "MAXVALUE partition must be last"
      else
        let? p := bind_partition spec pd in
        let? ps := bind_partitions spec (ast.pd_is_maxvalue pd) l in
        Ok (p :: ps)
  end.

Definition bind_shard_map (schema : Schema) (pcol : string) (defs : list ast.PartitionDefAst) :
    result ShardMapMeta :=
  match i ← col_index schema pcol; c ← schema !! i; Some (wrap 8 (Z.of_nat i), c) with
  | None => stmt_err ("partition column not found: " ++ pcol)
  | Some (idx, col) =>
      if idx =? 255 then stmt_err ("partition column not found: " ++ pcol)
      else if (length defs =? 0)%nat then stmt_err "PARTITION BY requires at least one partition"
      else
        let? ps := bind_partitions (mkColumn pcol (col_type col) true 255 None) false defs in
        Ok (mkShardMap pcol idx ps)
  end.

Definition bind_create_table (s : ast.CreateTableStmt) : result bound.BoundCreateTable :=
  let table := ast.ct_table_name s in
  let? schema := schema_of_defs [] (ast.ct_columns s) in
  let? st := all_column_constraints table 0 (ast.ct_columns s) (mkCreate schema [] false) in
  let? st := add_constraints table (ast.ct_constraints s) st in
  let? sm :=
    match ast.ct_partition_col s with
    | None => Ok None
    | Some pcol => let? m := bind_shard_map (cs_schema st) pcol (ast.ct_partition_defs s) in Ok (Some m)
    end in
  Ok (bound.mkCreateTable table (cs_schema st) (cs_constraints st) sm).

(** [ins_it]: before the first MAXVALUE partition, else at the end. *)
Fixpoint insert_partition (p : PartitionDef) (l : list PartitionDef) : list PartitionDef :=
  match l with
  | [] => [p]
  | q :: l => if is_maxvalue q then p :: q :: l else q :: insert_partition p l
  end.

Definition bind_alter_add_partition (s : ast.AlterAddPartitionStmt) : result bound.BoundAlterAddPartition :=
  let name := ast.al_table_name s in
  match schema_of name with
  | None => unknown_table name
  | Some schema =>
      match shard_map_of name with
      | None => stmt_err ("table is not partitioned: " ++ name)
      | Some sm =>
          match schema !! Z.to_nat (partition_col_idx sm) with
          | None => Err ""
          | Some spec =>
              let? p := bind_partition spec (ast.al_partition s) in
              Ok (bound.mkAlter name
                    (mkShardMap (partition_col sm) (partition_col_idx sm) (insert_partition p (partitions sm))))
          end
      end
  end.

(** ** Indexes *)

Fixpoint index_columns (schema : Schema) (table : string) (names : list string) : result (list Z) :=
  match names with
  | [] => Ok []
  | n :: names =>
      match col_index schema n with
      | None => stmt_err ("column '" ++ n ++ "' not found in table '" ++ table ++ "'")
      | Some i =>
          if match schema !! i with Some c => bool_decide (col_type c = BOOL) | None => false end
          then stmt_err ("cannot index BOOL column '" ++ n ++ "'")
          else let? l := index_columns schema table names in Ok (wrap 8 (Z.of_nat i) :: l)
      end
  end.

Definition has_index (table index : string) : bool :=
  existsb (fun m => String.eqb (im_name m) index) (indexes_of table).

Definition bind_create_index (s : ast.CreateIndexStmt) : result bound.BoundCreateIndex :=
  let table := ast.ci_table_name s in
  match schema_of table with
  | None => unknown_table table
  | Some schema =>
      if has_index table (ast.ci_index_name s) then
        stmt_err ("index '" ++ ast.ci_index_name s ++ "' already exists on table '" ++ table ++ "'")
      else
        let? cols := index_columns schema table (ast.ci_column_names s) in
        Ok (bound.mkCreateIndex table (ast.ci_index_name s) cols (ast.ci_unique s))
  end.

Definition bind_drop_index (s : ast.DropIndexStmt) : result bound.BoundDropIndex :=
  let table := ast.di_table_name s in
  if negb (has_table table) then unknown_table table
  else if has_index table (ast.di_index_name s)
  then Ok (bound.mkDropIndex table (ast.di_index_name s))
  else stmt_err ("index '" ++ ast.di_index_name s ++ "' not found on table '" ++ table ++ "'").

(** ** SELECT *)

Definition bind_table_ref_ (r : ast.TableRef) : result bound.BoundBinding :=
  match schema_of (ast.tr_table_name r) with
  | None => Err (bind_error ("unknown table: " ++ ast.tr_table_name r) (ast.tr_loc r))
  | Some schema =>
      Ok (bound.mkBinding (ast.tr_table_name r) (default (ast.tr_table_name r) (ast.tr_alias r)) schema)
  end.

(** The ON condition of a join sees the tables up to it. *)
Fixpoint bind_joins (joins : list ast.JoinClause) (bindings : list bound.BoundBinding) :
    result (list bound.BoundBinding * list bound.BoundExpr) :=
  match joins with
  | [] => Ok (bindings, [])
  | j :: joins =>
      let? b := bind_table_ref_ (ast.jc_right j) in
      let bindings := bindings ++ [b] in
      let? on := bind_expression (ast.jc_on j) bindings in
      let? r := bind_joins joins bindings in
      Ok (fst r, on :: snd r)
  end.

(** Every column of every binding. *)
Definition star_projections (bindings : list bound.BoundBinding) : list bound.BoundProjection :=
  concat (imap (fun b bd =>
    imap (fun c col =>
      bound.mkProjection
        (bound.BoundColumnRef (bound.mkRef b c (col_type col) (col_nullable col))) None)
      (bound.bb_schema bd)) bindings).

Definition bind_projections_ (s : ast.SelectStmt) (bindings : list bound.BoundBinding) :
    binding (list bound.BoundProjection) :=
  if ast.sel_star_projection s then mret (star_projections bindings)
  else
    each_binding (fun item =>
      e ← bind_expr_ bindings (ast.si_expr item);
      mret (bound.mkProjection e (ast.si_alias item))) (ast.sel_projections s).

Fixpoint has_ungrouped_col_ (e : bound.BoundExpr) (group_by : list bound.BoundExpr) : bool :=
  match e with
  | bound.BoundColumnRef r =>
      negb (existsb (fun g =>
        match g with
        | bound.BoundColumnRef q =>
            (bound.binding_id q =? bound.binding_id r)%nat && (bound.column_idx q =? bound.column_idx r)%nat
        | _ => false
        end) group_by)
  | bound.BoundBinaryOp _ l r _ _ | bound.BoundLogicalOp _ l r =>
      has_ungrouped_col_ l group_by || has_ungrouped_col_ r group_by
  | bound.BoundNotOp c | bound.BoundNullCheck _ c => has_ungrouped_col_ c group_by
  | _ => false
  end.

(** [alias_map]: the last projection of an alias. *)
Fixpoint alias_index (i : nat) (projections : list bound.BoundProjection) (name : string) : option nat :=
  match projections with
  | [] => None
  | p :: ps =>
      match alias_index (S i) ps name with
      | Some j => Some j
      | None =>
          match bound.bp_alias p with
          | Some a => if String.eqb a name then Some i else None
          | None => None
          end
      end
  end.

Definition order_alias (e : ast.Expr) (projections : list bound.BoundProjection) : option bound.BoundExpr :=
  match e with
  | ast.ColumnRef None c _ =>
      i ← alias_index 0 projections c;
      p ← projections !! i;
      Some (bound.BoundProjectionRef i (bound.bound_expr_type (bound.bp_expr p)))
  | _ => None
  end.

Definition bind_order_by_ (s : ast.SelectStmt) (bindings : list bound.BoundBinding)
    (projections : list bound.BoundProjection) : binding (list bound.BoundOrderBy) :=
  each_binding (fun item =>
    match order_alias (ast.ob_expr item) projections with
    | Some e => mret (bound.mkOrderBy e (ast.ob_ascending item))
    | None =>
        e ← bind_expr_ bindings (ast.ob_expr item);
        mret (bound.mkOrderBy e (ast.ob_ascending item))
    end) (ast.sel_order_by s).

Definition run_aggregates {A} (m : binding A) (aggs : list bound.BoundAggregate) :
    result (A * list bound.BoundAggregate) :=
  match m (Some aggs) with
  | Ok (a, aggs) => Ok (a, default [] aggs)
  | Err e => Err e
  end.

Fixpoint bind_group_by (l : list ast.Expr) (bindings : list bound.BoundBinding) :
    result (list bound.BoundExpr) :=
  match l with
  | [] => Ok []
  | e :: l =>
      let? b := bind_expression e bindings in
      let? bs := bind_group_by l bindings in
      Ok (b :: bs)
  end.

Definition bind_having (h : option ast.Expr) (bindings : list bound.BoundBinding) :
    binding (option bound.BoundExpr) :=
  match h with None => mret None | Some e => b ← bind_expr_ bindings e; mret (Some b) end.

Definition bind_select (s : ast.SelectStmt) : result bound.BoundSelect :=
  let? from := bind_table_ref_ (ast.sel_from s) in
  let? j := bind_joins (ast.sel_joins s) [from] in
  let bindings := fst j in
  let? wh := bind_where (ast.sel_where s) bindings in
  let? group_by := bind_group_by (ast.sel_group_by s) bindings in
  let? p := run_aggregates (bind_projections_ s bindings) [] in
  let? h := run_aggregates (bind_having (ast.sel_having s) bindings) (snd p) in
  let is_aggregated := negb (length group_by =? 0)%nat || negb (length (snd h) =? 0)%nat in
  if is_aggregated && existsb (fun q => has_ungrouped_col_ (bound.bp_expr q) group_by) (fst p)
  then stmt_err "non-aggregated column in aggregated query"
  else
    let? o := run_aggregates (bind_order_by_ s bindings (fst p)) (snd h) in
    Ok (bound.mkSelect bindings (snd j) wh group_by (snd o) (fst h) (fst p) (fst o)
          (ast.sel_limit s) (ast.sel_offset s) is_aggregated).

Definition bind (s : ast.Statement) : result bound.BoundStatement :=
  match s with
  | ast.SSelect s => let? b := bind_select s in Ok (bound.BSelect b)
  | ast.SCreateTable s => let? b := bind_create_table s in Ok (bound.BCreateTable b)
  | ast.SInsert s => let? b := bind_insert s in Ok (bound.BInsert b)
  | ast.SDropTable s => let? b := bind_drop_table s in Ok (bound.BDropTable b)
  | ast.SDelete s => let? b := bind_delete s in Ok (bound.BDelete b)
  | ast.SUpdate s => let? b := bind_update s in Ok (bound.BUpdate b)
  | ast.SCreateIndex s => let? b := bind_create_index s in Ok (bound.BCreateIndex b)
  | ast.SDropIndex s => let? b := bind_drop_index s in Ok (bound.BDropIndex b)
  | ast.SShowIndexes t => let? b := bind_show_indexes t in Ok (bound.BShowIndexes b)
  | ast.SShowConstraints t => let? b := bind_show_constraints_ t in Ok (bound.BShowConstraints b)
  | ast.SVacuum t => let? b := bind_vacuum t in Ok (bound.BVacuum b)
  | ast.SAlterAddPartition s => let? b := bind_alter_add_partition s in Ok (bound.BAlterAddPartition b)
  end.
End Binder.
