(* ===== verification/Planner.v ===== *)
(** * Planner

    [Planner] (src/src/planner/planner.cpp) as the tree of operators that [plan] builds from a
    bound SELECT.  The answer of a function is [None] where the code throws: a column that is
    not a group key looked up in [group_col_map], or a group key that is not a column. *)

From S2P Require Import Prelude Types ConstraintFile ShardMapFile BTreeSpec Expression Operator.
From S2P Require Import Sort HashAggregate Lexer Ast Literals Parser Bound Binder.

Inductive Plan : Type :=
| PTableScan (table : string) (proj : list nat)
| PIndexScan (table index : string) (proj : list nat) (lo hi : option Bound)
| PHashJoin (build probe : Plan) (build_keys probe_keys : list Expression)
| PFilter (child : Plan) (predicate : Expression)
| PAggregate (child : Plan) (group_keys : list Expression) (specs : list AggregateSpec)
| PSort (child : Plan) (keys : list (Expression * SortDirection))
| PProject (child : Plan) (items : list (Expression * string * bool))
| PLimit (child : Plan) (offset limit : Z).

Record ColCtx : Type := mkCtx {
  binding_offsets : list nat;
  post_aggregate : bool;
  num_group_keys : nat;
  group_col_map : gmap (nat * nat) nat
}.

(** ** Expressions *)

Section Lower.
Context (ctx : ColCtx) (projs : list bound.BoundProjection).

Definition lower_int (v : Z) (t : TypeId) : Value :=
  if bool_decide (t = INT32) then VI32 (signed 32 v) else VI64 v.

(** A reference to a projection is lowered like the projection, which refers to no other;
    [n] bounds the references followed. *)
Fixpoint lower_expr_ (n : nat) : bound.BoundExpr -> option Expression :=
  fix lower (e : bound.BoundExpr) : option Expression :=
    match e with
    | bound.BoundIntLit v t => Some (Literal (lower_int v t))
    | bound.BoundDoubleLit b => Some (Literal (VF64 b))
    | bound.BoundStringLit s => Some (Literal (VStr s))
    | bound.BoundNullLit _ => Some (Literal VNull)
    | bound.BoundBoolLit b => Some (Literal (VBool b))
    | bound.BoundDateLit d => Some (Literal (VDate d))
    | bound.BoundTimestampLit t => Some (Literal (VTimestamp t))
    | bound.BoundColumnRef r =>
        if post_aggregate ctx then
          let! idx := group_col_map ctx !! (bound.binding_id r, bound.column_idx r) in
          Some (ColumnRef idx (bound.ref_type r))
        else
          let! off := binding_offsets ctx !! bound.binding_id r in
          Some (ColumnRef (off + bound.column_idx r) (bound.ref_type r))
    | bound.BoundAggregateRef i t => Some (ColumnRef (num_group_keys ctx + i) t)
    | bound.BoundProjectionRef i _ =>
        match n with
        | O => None
        | S n => let! p := projs !! i in lower_expr_ n (bound.bp_expr p)
        end
    | bound.BoundBinaryOp op l r _ _ =>
        let! a := lower l in let! b := lower r in Some (BinaryOp op a b)
    | bound.BoundLogicalOp op l r =>
        let! a := lower l in let! b := lower r in Some (LogicalOp op a b)
    | bound.BoundNotOp c => let! a := lower c in Some (NotOp a)
    | bound.BoundNullCheck k c => let! a := lower c in Some (NullCheckOp k a)
    end.
End Lower.

(** [lower_expr_(e, ctx, projs)] *)
Definition lower (ctx : ColCtx) (projs : list bound.BoundProjection) (e : bound.BoundExpr) :
    option Expression := lower_expr_ ctx projs 1 e.

Definition extract_literal_ (e : bound.BoundExpr) : option Value :=
  match e with
  | bound.BoundIntLit v t => Some (lower_int v t)
  | bound.BoundDoubleLit b => Some (VF64 b)
  | bound.BoundStringLit s => Some (VStr s)
  | bound.BoundBoolLit b => Some (VBool b)
  | bound.BoundDateLit d => Some (VDate d)
  | bound.BoundTimestampLit t => Some (VTimestamp t)
  | _ => None
  end.

Section Planner.
Context `{CatalogView}.

(** [Table::row_count] of a table *)
Context (row_count : string -> Z).

(** Whether [Catalog::btree_index] has the tree of an index *)
Context (btree_index : string -> string -> bool).

(** ** Scans *)

Definition all_columns (b : bound.BoundBinding) : list nat := seq 0 (length (bound.bb_schema b)).

Definition make_scan (b : bound.BoundBinding) : option Plan :=
  if has_table (bound.bb_table_name b) then Some (PTableScan (bound.bb_table_name b) (all_columns b)) else None.

(** The column of binding 0, the literal, and whether the column is on the left. *)
Definition column_literal (l r : bound.BoundExpr) : option (nat * Value * bool) :=
  let col e := match e with
               | bound.BoundColumnRef q => if (bound.binding_id q =? 0)%nat then Some (bound.column_idx q) else None
               | _ => None
               end in
  match col l with
  | Some c => v ← extract_literal_ r; Some (c, v, true)
  | None =>
      match col r with
      | Some c => v ← extract_literal_ l; Some (c, v, false)
      | None => None
      end
  end.

(** The first index on this column alone, when its tree is there. *)
Definition index_on (table : string) (col : nat) : option string :=
  m ← List.find (fun m => bool_decide (im_col_indices m = [wrap 8 (Z.of_nat col)])) (indexes_of table);
  if btree_index table (im_name m) then Some (im_name m) else None.

(** The range of keys of [col op literal], with the operator turned around when the column is on
    the right. *)
Definition key_range (op : BinaryOpKind) (col_is_left : bool) (v : Value) :
    option (option Bound * option Bound) :=
  let bnd (incl : bool) : option Bound := Some ([v], incl) in
  match op, col_is_left with
  | EQ, _ => Some (bnd true, bnd true)
  | LT, true | GT, false => Some (None, bnd false)
  | LE, true | GE, false => Some (None, bnd true)
  | GT, true | LT, false => Some (bnd false, None)
  | GE, true | LE, false => Some (bnd true, None)
  | _, _ => None
  end.

Definition try_index_scan_ (b : bound.BoundBinding) (wh : bound.BoundExpr) :
    option (string * option Bound * option Bound) :=
  match wh with
  | bound.BoundBinaryOp op l r _ _ =>
      match op with
      | EQ | LT | LE | GT | GE =>
          c ← column_literal l r;
          let '(col, v, left_) := c in
          idx ← index_on (bound.bb_table_name b) col;
          rg ← key_range op left_ v;
          Some (idx, fst rg, snd rg)
      | _ => None
      end
  | _ => None
  end.

(** ** Joins *)

Definition NOT_EQUI : string := "only equijoin ON predicates supported".

(** The probe keys and the build keys of an ON condition. *)
Fixpoint decompose_on_ (on : bound.BoundExpr) (ctx : ColCtx) (build_bid : nat) :
    option (result (list Expression * list Expression)) :=
  match on with
  | bound.BoundLogicalOp AND l r =>
      let! a := decompose_on_ l ctx build_bid in
      match a with
      | Err e => Some (Err e)
      | Ok a =>
          let! b := decompose_on_ r ctx build_bid in
          match b with
          | Err e => Some (Err e)
          | Ok b => Some (Ok (fst a ++ fst b, snd a ++ snd b))
          end
      end
  | bound.BoundBinaryOp EQ (bound.BoundColumnRef l) (bound.BoundColumnRef r) _ _ =>
      let is_build (q : bound.BindingRef) := (bound.binding_id q =? build_bid)%nat in
      let keys (build probe : bound.BindingRef) :=
        let! off := binding_offsets ctx !! bound.binding_id probe in
        Some (Ok ([ColumnRef (off + bound.column_idx probe) (bound.ref_type probe)],
                  [ColumnRef (bound.column_idx build) (bound.ref_type build)])) in
      if is_build l && negb (is_build r) then keys l r
      else if is_build r && negb (is_build l) then keys r l
      else Some (Err "ON predicate is not an equijoin")
  | _ => Some (Err NOT_EQUI)
  end.

Definition with_offset (ctx : ColCtx) (b off : nat) : ColCtx :=
  mkCtx (<[b := off]> (binding_offsets ctx)) (post_aggregate ctx) (num_group_keys ctx) (group_col_map ctx).

Definition join_on (build probe : Plan) (on : bound.BoundExpr) (ctx : ColCtx) (build_bid : nat) :
    option (result (Plan * ColCtx)) :=
  let! k := decompose_on_ on ctx build_bid in
  match k with
  | Err e => Some (Err e)
  | Ok (pk, bk) => Some (Ok (PHashJoin build probe bk pk, ctx))
  end.

Definition no_table {A} (b : bound.BoundBinding) : option (result A) :=
  Some (Err ("unknown table: " ++ bound.bb_table_name b)).

Definition build_join_ (left_ : Plan) (right_binding : bound.BoundBinding) (on : bound.BoundExpr)
    (right_bid left_col_count : nat) (ctx : ColCtx) : option (result (Plan * ColCtx)) :=
  match make_scan right_binding with
  | None => no_table right_binding
  | Some scan => join_on scan left_ on (with_offset ctx right_bid left_col_count) right_bid
  end.

Fixpoint build_joins (bid : nat) (bindings : list bound.BoundBinding) (ons : list bound.BoundExpr)
    (total_cols : nat) (op : Plan) (ctx : ColCtx) : option (result (Plan * ColCtx)) :=
  match bindings, ons with
  | [], _ => Some (Ok (op, ctx))
  | b :: bindings, on :: ons =>
      let! r := build_join_ op b on bid total_cols ctx in
      match r with
      | Err e => Some (Err e)
      | Ok (op, ctx) =>
          build_joins (S bid) bindings ons (total_cols + length (bound.bb_schema b)) op ctx
      end
  | _ :: _, [] => None
  end.

(** [build_scans_], with [where_consumed]. *)
Definition build_scans_ (stmt : bound.BoundSelect) (ctx : ColCtx) :
    option (result (Plan * ColCtx * bool)) :=
  match bound.bs_bindings stmt with
  | [] => None
  | b0 :: rest =>
      match make_scan b0 with
      | None => no_table b0
      | Some scan0 =>
          match rest with
          | [] =>
              match wh ← bound.bs_where stmt; try_index_scan_ b0 wh with
              | Some (idx, lo, hi) =>
                  Some (Ok (PIndexScan (bound.bb_table_name b0) idx (all_columns b0) lo hi, ctx, true))
              | None => Some (Ok (scan0, ctx, false))
              end
          | b1 :: rest =>
              match make_scan b1, bound.bs_join_predicates stmt with
              | None, _ => no_table b1
              | Some _, [] => None
              | Some scan1, on :: ons =>
                  let n0 := length (bound.bb_schema b0) in
                  let n1 := length (bound.bb_schema b1) in
                  let first :=
                    if row_count (bound.bb_table_name b0) <=? row_count (bound.bb_table_name b1)
                    then join_on scan0 scan1 on (with_offset (with_offset ctx 0 n1) 1 0) 0
                    else join_on scan1 scan0 on (with_offset (with_offset ctx 0 0) 1 n0) 1 in
                  let! r := first in
                  match r with
                  | Err e => Some (Err e)
                  | Ok (op, ctx) =>
                      let! r := build_joins 2 rest ons (n0 + n1) op ctx in
                      match r with
                      | Err e => Some (Err e)
                      | Ok (op, ctx) => Some (Ok (op, ctx, false))
                      end
                  end
              end
          end
      end
  end.

(** ** Aggregation, projection, order *)

(** [group_col_map]: the last key of a column; [None] for a key that is not a column. *)
Fixpoint group_map (i : nat) (group_by : list bound.BoundExpr) (m : gmap (nat * nat) nat) :
    option (gmap (nat * nat) nat) :=
  match group_by with
  | [] => Some m
  | bound.BoundColumnRef r :: l => group_map (S i) l (<[(bound.binding_id r, bound.column_idx r) := i]> m)
  | _ => None
  end.

Definition lower_spec (ctx : ColCtx) (a : bound.BoundAggregate) : option AggregateSpec :=
  match bound.ag_arg a with
  | None => Some (mkSpec (bound.ag_kind a) None)
  | Some e => let! x := lower ctx [] e in Some (mkSpec (bound.ag_kind a) (Some x))
  end.

Definition build_aggregate_ (child : Plan) (stmt : bound.BoundSelect) (ctx : ColCtx) :
    option (Plan * ColCtx) :=
  let! keys := mapM (lower ctx []) (bound.bs_group_by stmt) in
  let! specs := mapM (lower_spec ctx) (bound.bs_aggregates stmt) in
  let specs := match specs with [] => [mkSpec COUNT_STAR None] | _ => specs end in
  let! m := group_map 0 (bound.bs_group_by stmt) (group_col_map ctx) in
  Some (PAggregate child keys specs,
        mkCtx (binding_offsets ctx) true (length (bound.bs_group_by stmt)) m).

Definition build_filter_ (child : Plan) (pred : bound.BoundExpr) (ctx : ColCtx) : option Plan :=
  let! x := lower ctx [] pred in Some (PFilter child x).

Definition projection_name (stmt : bound.BoundSelect) (p : bound.BoundProjection) : string :=
  match bound.bp_alias p, bound.bp_expr p with
  | Some a, _ => a
  | None, bound.BoundColumnRef r =>
      match b ← bound.bs_bindings stmt !! bound.binding_id r; bound.bb_schema b !! bound.column_idx r with
      | Some c => col_name c
      | None => ""
      end
  | None, _ => ""
  end.

Definition build_project_ (child : Plan) (stmt : bound.BoundSelect) (ctx : ColCtx) : option Plan :=
  let! items := mapM (fun p =>
    let! x := lower ctx (bound.bs_projections stmt) (bound.bp_expr p) in
    Some (x, projection_name stmt p, bound.bound_expr_nullable (bound.bp_expr p))) (bound.bs_projections stmt) in
  Some (PProject child items).

Definition build_sort_ (child : Plan) (stmt : bound.BoundSelect) (ctx : ColCtx) : option Plan :=
  let! keys := mapM (fun o =>
    let! x := lower ctx (bound.bs_projections stmt) (bound.bo_expr o) in
    Some (x, if bound.bo_ascending o then ASC else DESC)) (bound.bs_order_by stmt) in
  Some (PSort child keys).

Definition build_limit_ (child : Plan) (limit : Z) (offset : option Z) : Plan :=
  PLimit child (wrap 64 (default 0 offset)) (wrap 64 limit).

Definition plan (stmt : bound.BoundSelect) : option (result Plan) :=
  let ctx := mkCtx (replicate (length (bound.bs_bindings stmt)) 0%nat) false 0 ∅ in
  let! scans := build_scans_ stmt ctx in
  match scans with
  | Err e => Some (Err e)
  | Ok (op, ctx, where_consumed) =>
      let! op := match bound.bs_where stmt with
                 | Some wh => if negb where_consumed then build_filter_ op wh ctx else Some op
                 | None => Some op
                 end in
      let! r := if bound.bs_is_aggregated stmt then build_aggregate_ op stmt ctx else Some (op, ctx) in
      let '(op, ctx) := r in
      let! op := match bound.bs_having stmt with
                 | Some h => build_filter_ op h ctx
                 | None => Some op
                 end in
      let! op := match bound.bs_order_by stmt with [] => Some op | _ => build_sort_ op stmt ctx end in
      let! op := build_project_ op stmt ctx in
      Some (Ok (match bound.bs_limit stmt with
                | Some l => build_limit_ op l (bound.bs_offset stmt)
                | None => op
                end))
  end.
End Planner.
