(* ===== verification/Frontend.v ===== *)
(** * From text to plans

    The steps of [Database::execute] (src/src/database/database.cpp) before a statement runs:
    tokens, statements, the binding of the first statement, and for a SELECT the plan. *)

From Stdlib Require Import Ascii.
From S2P Require Import Prelude Types ConstraintFile ShardMapFile BTreeSpec Expression.
From S2P Require Import HashAggregate Lexer Ast Literals Parser Bound Binder Planner.

Section Frontend.
Context `{CatalogView} (row_count : string -> Z) (btree_index : string -> string -> bool) (erange : string -> bool).

(** Only the first statement of the text is bound; [Done None] for a text without statements. *)
Definition bind_sql (sql : list ascii) : outcome (option bound.BoundStatement) :=
  match parse_sql erange sql with
  | Done [] pos => Done None pos
  | Done (s :: _) pos =>
      match bind sql s with Ok b => Done (Some b) pos | Err m => Failed m end
  | Failed m => Failed m
  | Thrown w => Thrown w
  | Undefined => Undefined
  | Spent => Spent
  end.

(** The plan of a SELECT; [Done None] for other statements. *)
Definition plan_sql (sql : list ascii) : outcome (option Plan) :=
  match bind_sql sql with
  | Done (Some (bound.BSelect s)) pos =>
      match plan row_count btree_index s with
      | Some (Ok p) => Done (Some p) pos
      | Some (Err m) => Failed m
      | None => Thrown "plan"
      end
  | Done _ pos => Done None pos
  | Failed m => Failed m
  | Thrown w => Thrown w
  | Undefined => Undefined
  | Spent => Spent
  end.
End Frontend.

(** ** A catalog with one table *)

Definition sample_columns : Schema :=
  [mkColumn "a" INT32 true 0 None; mkColumn "s" VARCHAR false 3 (Some (VStr "x")); mkColumn "d" DOUBLE true 0 None].

Definition sample_catalog : CatalogView := {|
  tables_ := {[ "t" := sample_columns; "u" := [mkColumn "b" INT32 false 0 None; mkColumn "n" INT64 false 0 None] ]};
  index_meta_ := {[ "t" := [mkIndexMeta "t_a" [0] false] ]};
  shard_maps_ := ∅
|}.

(** The plan of a query on this catalog. *)
Definition plan_text (sql : string) : outcome (option Plan) :=
  @plan_sql sample_catalog (fun _ => 0) (fun _ _ => true) (fun _ => false) (chars sql).

Definition bind_text (sql : string) : outcome (option bound.BoundStatement) :=
  @bind_sql sample_catalog (fun _ => false) (chars sql).
