(* ===== verification/BinderTypes.v ===== *)
(** * The binder types expressions

    [bound_ok] says what the types of a bound expression promise; the binder establishes it,
    and a lowered expression inherits it: it is well typed over the columns of the tables.  The
    rows that the binder makes of an INSERT fit the columns but for defaults ([bind_insert_rows_fit]). *)

From Stdlib Require Import Ascii.
From S2P Require Import Prelude Types ColumnPage ConstraintFile ShardMapFile Table ColumnVector.
From S2P Require Import Chunk Expression HashAggregate Lexer Ast Literals Dates Parser Bound Binder.
From S2P Require Import Planner Frontend.

(** ** Literals *)

(** The literals of the parser: 64-bit integers and doubles. *)
Fixpoint lits_wf (e : ast.Expr) : Prop :=
  match e with
  | ast.IntLit v _ => in_s 64 v
  | ast.DoubleLit b _ => in_u 64 b
  | ast.FuncCall _ args _ _ =>
      (fix go (l : list ast.Expr) : Prop := match l with [] => True | a :: l => lits_wf a /\ go l end) args
  | ast.BinaryOp _ a b _ | ast.LogicalOp _ a b _ => lits_wf a /\ lits_wf b
  | ast.NotOp a _ | ast.NullCheck _ a _ => lits_wf a
  | _ => True
  end.

Lemma digits_val_bound l :
  Forall (fun c => isdigit c = true) l -> 0 <= digits_val l < 10 ^ zlen l.
Proof.
  intros H. unfold digits_val, zlen.
  enough (G : forall a, 0 <= a -> a * 10 ^ Z.of_nat (length l) <= fold_left (fun a c => a * 10 + digit_val c) l a
    < (a + 1) * 10 ^ Z.of_nat (length l)).
  { specialize (G 0). lia. }
  induction H as [|c l Hc Hl IH]; intros a Ha; [simpl; lia|].
  cbn [fold_left length]. rewrite Nat2Z.inj_succ, Z.pow_succ_r by lia.
  assert (0 <= digit_val c < 10) by (by destruct c as [[] [] [] [] [] [] [] []]).
  specialize (IH (a * 10 + digit_val c)). nia.
Qed.

Lemma span_while_spec p l a b :
  span_while p l = (a, b) -> l = a ++ b /\ Forall (fun c => p c = true) a.
Proof.
  revert a b. induction l as [|c l IH]; intros a b E; simpl in E; [by simplify_eq|].
  destruct (p c) eqn:Hc; [|by simplify_eq].
  destruct (span_while p l) as [a' b'] eqn:E'. simplify_eq/=.
  destruct (IH a' b) as [-> H]; [done|]. split; [done | by constructor].
Qed.

Lemma scan_int_bound l v r : scan_int l = Some (v, r) -> - 10 ^ zlen l < v < 10 ^ zlen l.
Proof.
  unfold scan_int. intros E. destruct (span_while c_space l) as [sp l1] eqn:E1.
  apply span_while_spec in E1 as [-> _].
  set (sg := match l1 with [] => _ | _ => _ end) in E.
  assert (Hsg : (length (snd sg) <= length l1)%nat).
  { unfold sg. destruct l1 as [|c l1]; [done|]. destruct (is_char "-" c); [simpl; lia|].
    destruct (is_char "+" c); simpl; lia. }
  destruct sg as [neg l2]. destruct (span_while isdigit l2) as [ds r'] eqn:E2.
  apply span_while_spec in E2 as [-> Hd].
  pose proof (digits_val_bound _ Hd) as Hb. simpl in Hsg. rewrite length_app in Hsg.
  assert (10 ^ zlen ds <= 10 ^ zlen (sp ++ l1)).
  { apply Z.pow_le_mono_r; [lia|]. unfold zlen. rewrite length_app. lia. }
  destruct ds as [|d ds]; [done|]. destruct neg; simplify_eq; lia.
Qed.

Lemma sto_bound l v n : sto l = Some v -> (length l <= n)%nat -> - 10 ^ Z.of_nat n < v < 10 ^ Z.of_nat n.
Proof.
  unfold sto. intros E Hn. destruct (scan_int l) as [[w r]|] eqn:E1; simplify_eq/=.
  apply scan_int_bound in E1.
  assert (10 ^ zlen l <= 10 ^ Z.of_nat n) by (apply Z.pow_le_mono_r; unfold zlen; lia). lia.
Qed.

Lemma civil_to_days_range y m d n :
  -10000 <= y <= 10000 -> civil_to_days y m d = Ok n -> -10000000 < n < 10000000.
Proof.
  intros Hy E. destruct (decide (1 <= m <= 12 /\ 1 <= d <= 31)) as [[Hm Hd]|Hn].
  - rewrite civil_to_days_number in E by lia. injection E as <-. unfold day_number.
    destruct (m <=? 2), (2 <? m); Z.to_euclidean_division_equations; lia.
  - unfold civil_to_days in E.
    destruct ((m <? 1) || (12 <? m) || (d <? 1) || (31 <? d)) eqn:Eb; [done|].
    rewrite !orb_false_iff, !Z.ltb_ge in Eb. lia.
Qed.

Lemma sub_length l i n : (length (sub l i n) <= n)%nat.
Proof. unfold sub. rewrite length_take. lia. Qed.

Lemma or_err_ok {A B} (v : option A) e (k : A -> result B) b :
  or_err v e k = Ok b -> exists a, v = Some a /\ k a = Ok b.
Proof. destruct v; [by eauto | done]. Qed.

Lemma parse_date_range s n : parse_date_string s = Ok n -> in_s 32 n.
Proof.
  unfold parse_date_string. destruct (_ || _); [done|]. intros E.
  apply or_err_ok in E as (y & Hy & E). apply or_err_ok in E as (m & Hm & E).
  apply or_err_ok in E as (d & Hd & E). apply (sto_bound _ _ 4) in Hy; [|apply sub_length].
  apply civil_to_days_range in E; [|lia]. unfold in_s. lia.
Qed.

Lemma fraction_micros_range s n : fraction_micros s = Ok n -> - 1000000 < n < 1000000.
Proof.
  unfold fraction_micros. destruct (19 <? length s)%nat; [|intros [= <-]; lia].
  destruct (negb _); [done|]. set (frac := drop 20 s).
  destruct ((6 <? length frac)%nat || _) eqn:E; [done|]. intros E2.
  apply orb_false_iff in E as [E _]. apply Nat.ltb_ge in E.
  apply or_err_ok in E2 as (v & Hv & [= <-]). apply (sto_bound _ _ 6) in Hv; [lia|].
  rewrite length_app, length_replicate. lia.
Qed.

Lemma parse_timestamp_range s n : parse_timestamp_string s = Ok n -> in_s 64 n.
Proof.
  unfold parse_timestamp_string.
  match goal with |- (if ?b then _ else _) = _ -> _ => destruct b; [done|] end. intros E.
  apply or_err_ok in E as (y & Hy & E). apply or_err_ok in E as (mo & _ & E).
  apply or_err_ok in E as (d & _ & E). apply or_err_ok in E as (h & Hh & E).
  apply or_err_ok in E as (mi & Hmi & E). apply or_err_ok in E as (se & Hse & E).
  destruct (fraction_micros _) as [us|] eqn:Hus; [|done]. apply fraction_micros_range in Hus.
  match type of E with (if ?b then _ else _) = _ => destruct b; [done|] end.
  destruct (civil_to_days _ _ _) as [days|] eqn:Hdays; [|done]. simplify_eq.
  apply (sto_bound _ _ 4) in Hy; [|apply sub_length].
  apply (sto_bound _ _ 2) in Hh, Hmi, Hse; try apply sub_length.
  apply civil_to_days_range in Hdays; [|lia]. unfold in_s. lia.
Qed.

(** ** What the types promise *)

Section Typing.
Context (bindings : list bound.BoundBinding).

Fixpoint bound_ok (aggs : list bound.BoundAggregate) (e : bound.BoundExpr) : Prop :=
  match e with
  | bound.BoundIntLit v t => (t = INT32 /\ in_s 32 v) \/ (t = INT64 /\ in_s 64 v)
  | bound.BoundDoubleLit b => in_u 64 b
  | bound.BoundDateLit d => in_s 32 d
  | bound.BoundTimestampLit t => in_s 64 t
  | bound.BoundColumnRef r =>
      exists bd col, bindings !! bound.binding_id r = Some bd /\
        bound.bb_schema bd !! bound.column_idx r = Some col /\
        bound.ref_type r = col_type col /\ bound.ref_nullable r = col_nullable col
  | bound.BoundAggregateRef i t => exists a, aggs !! i = Some a /\ bound.ag_output_type a = t
  | bound.BoundProjectionRef _ _ => False
  | bound.BoundBinaryOp op l r ot rt =>
      bound_ok aggs l /\ bound_ok aggs r /\
      bound.bound_expr_type l = ot /\ bound.bound_expr_type r = ot /\
      rt = (if is_comparison op then INT32 else ot) /\
      (comparison_only ot = true -> is_comparison op = true)
  | bound.BoundLogicalOp _ l r =>
      bound_ok aggs l /\ bound_ok aggs r /\
      bound.bound_expr_type l = INT32 /\ bound.bound_expr_type r = INT32
  | bound.BoundNotOp c => bound_ok aggs c /\ bound.bound_expr_type c = INT32
  | bound.BoundNullCheck _ c => bound_ok aggs c
  | _ => True
  end.

Lemma bound_ok_more aggs more e : bound_ok aggs e -> bound_ok (aggs ++ more) e.
Proof.
  induction e; simpl; try naive_solver.
  intros (a & Ha & Ht). exists a. split; [|done]. by apply lookup_app_l_Some.
Qed.

(** The positions that [column_matches] finds are columns of that name. *)
Lemma omap_id_imap_elem {A B} (f : nat -> A -> option B) (l : list A) (x : B) :
  x ∈ omap (fun y => y) (imap f l) -> exists i a, l !! i = Some a /\ f i a = Some x.
Proof.
  intros H. apply list_elem_of_omap in H as (y & Hy & ->). apply list_elem_of_lookup in Hy as [i Hi].
  rewrite list_lookup_imap in Hi. destruct (l !! i) as [a|] eqn:E; simplify_eq/=. eauto.
Qed.

Lemma column_matches_ok table column b c :
  (b, c) ∈ column_matches bindings table column ->
  exists bd col, bindings !! b = Some bd /\ bound.bb_schema bd !! c = Some col /\ col_name col = column.
Proof.
  unfold column_matches. intros H. apply list_elem_of_In, in_concat in H as (l & Hl & Hin).
  apply list_elem_of_In in Hl, Hin.
  apply list_elem_of_lookup in Hl as [i Hi]. rewrite list_lookup_imap in Hi.
  destruct (bindings !! i) as [bd|] eqn:E; simplify_eq/=.
  match type of Hin with context [if ?g then _ else _] => destruct g end; [by apply elem_of_nil in Hin|].
  apply omap_id_imap_elem in Hin as (j & col & Hj & Hc).
  destruct (String.eqb (col_name col) column) eqn:En; simplify_eq.
  apply String.eqb_eq in En. eauto.
Qed.

Context `{CatalogView} (source_ : list ascii).

Lemma bind_column_ok table column loc e aggs :
  bind_column_ref_ source_ bindings table column loc = Ok e -> bound_ok aggs e.
Proof.
  unfold bind_column_ref_. pose proof (column_matches_ok table column) as M.
  destruct (column_matches bindings table column) as [|[b c] [|? ?]]; [done | | done].
  destruct (M b c) as (bd & col & Hb & Hc & _); [by left|]. rewrite Hb. simpl. rewrite Hc.
  intros [= <-]. by exists bd, col.
Qed.

Lemma retype_ok aggs e t : bound_ok aggs e -> bound_ok aggs (retype_lit_if_possible_ e t).
Proof.
  destruct e as [v u| | | | | | | | | | | | |]; try done. cbn [retype_lit_if_possible_].
  intros Hv. assert (in_s 64 v) by (cbn in Hv; unfold in_s in *; lia).
  destruct t; try done; [|cbn; by right].
  destruct ((- 2 ^ 31 <=? v) && (v <=? 2 ^ 31 - 1)) eqn:E; [|done].
  apply andb_true_iff in E as [?%Z.leb_le ?%Z.leb_le]. cbn. left. split; [done|]. unfold in_s. lia.
Qed.

Lemma bind_binary_ok aggs op l r loc e :
  bound_ok aggs l -> bound_ok aggs r -> bind_binary source_ op l r loc = Ok e -> bound_ok aggs e.
Proof.
  intros Hl Hr. unfold bind_binary. set (p := if bool_decide _ then _ else _).
  assert (Hp : bound_ok aggs (fst p) /\ bound_ok aggs (snd p)).
  { unfold p. destruct (bool_decide _); [done|]. split; by apply retype_ok. }
  destruct p as [l' r']. cbn in Hp. destruct Hp as [Hl' Hr'].
  case_bool_decide as Ht; [|done]. cbn [negb].
  destruct (bool_decide (bound.bound_expr_type l' = VARCHAR) && _) eqn:E1; [done|].
  destruct ((bool_decide (bound.bound_expr_type l' = DATE) || _) && _) eqn:E2; [done|].
  destruct (bool_decide (bound.bound_expr_type l' = BOOL) && _) eqn:E3; [done|].
  intros [= <-]. cbn. split_and!; try done; [by destruct op|].
  intros Hc. destruct (bound.bound_expr_type l'); cbn in *; try done.
  all: try (rewrite bool_decide_eq_true_2 in E1 by done; by apply negb_false_iff in E1).
  all: try (rewrite bool_decide_eq_true_2 in E2 by done; cbn in E2; by apply negb_false_iff in E2).
  all: try by destruct op.
Qed.

Lemma bind_logical_ok aggs op l r loc e :
  bound_ok aggs l -> bound_ok aggs r -> bind_logical source_ op l r loc = Ok e -> bound_ok aggs e.
Proof.
  intros Hl Hr. unfold bind_logical, is_int32. do 2 (case_bool_decide; [|done]). cbn [negb].
  by intros [= <-].
Qed.

(** ** The binder keeps them *)

(** The aggregates only grow. *)
Definition aggs_grow (a b : option (list bound.BoundAggregate)) : Prop :=
  match a, b with
  | None, None => True
  | Some l, Some l' => exists more, l' = l ++ more
  | _, _ => False
  end.

Lemma aggs_grow_refl a : aggs_grow a a.
Proof. destruct a; [exists []; by rewrite app_nil_r | done]. Qed.

Lemma aggs_grow_trans a b c : aggs_grow a b -> aggs_grow b c -> aggs_grow a c.
Proof.
  destruct a, b, c; try done. intros [m1 ->] [m2 ->]. exists (m1 ++ m2). by rewrite app_assoc.
Qed.

Lemma aggs_grow_ok a b e : aggs_grow a b -> bound_ok (default [] a) e -> bound_ok (default [] b) e.
Proof. destruct a, b; try done. intros [m ->]. apply bound_ok_more. Qed.

Lemma bind_split {A B} (m : binding A) (k : A -> binding B) aggs b aggs' :
  mbind k m aggs = Ok (b, aggs') -> exists a mid, m aggs = Ok (a, mid) /\ k a mid = Ok (b, aggs').
Proof.
  unfold mbind, binding_bind. destruct (m aggs) as [[a mid]|]; [eauto | done].
Qed.

Lemma lift_split {A} (r : result A) aggs a aggs' : lift r aggs = Ok (a, aggs') -> r = Ok a /\ aggs' = aggs.
Proof. unfold lift. destruct r; [|done]. by intros [= -> ->]. Qed.

Lemma push_ok kind arg t aggs e aggs' :
  push_aggregate kind arg t aggs = Ok (e, aggs') -> bound_ok (default [] aggs') e /\ aggs_grow aggs aggs'.
Proof.
  unfold push_aggregate. destruct aggs as [l|]; [|done]. intros [= <- <-]. cbn. split; [|eauto].
  exists (bound.mkAggregate kind arg t). by rewrite list_lookup_middle.
Qed.

Lemma bind_expr_ok e : lits_wf e -> forall aggs b aggs',
  bind_expr_ source_ bindings e aggs = Ok (b, aggs') ->
  bound_ok (default [] aggs') b /\ aggs_grow aggs aggs'.
Proof.
  induction e as [v l|b l|s l|l|b l|s l|s l|t c l|n args st l IH|op a b l IHa IHb|op a b l IHa IHb|a l IHa|k a l IHa]
    using ast.Expr_rect'; cbn [lits_wf bind_expr_]; intros Hw aggs b' aggs' E.
  - injection E as <- <-. split; [|apply aggs_grow_refl]. unfold bind_int_lit_. cbn.
    destruct ((- 2 ^ 31 <=? v) && (v <=? 2 ^ 31 - 1)) eqn:Ev; [|by right].
    apply andb_true_iff in Ev as [?%Z.leb_le ?%Z.leb_le]. left. split; [done|]. unfold in_s. lia.
  - injection E as <- <-. split; [done | apply aggs_grow_refl].
  - injection E as <- <-. split; [done | apply aggs_grow_refl].
  - injection E as <- <-. split; [done | apply aggs_grow_refl].
  - injection E as <- <-. split; [done | apply aggs_grow_refl].
  - destruct (parse_date_string s) as [d|] eqn:Ed; [|done]. injection E as <- <-.
    split; [by apply parse_date_range in Ed | apply aggs_grow_refl].
  - destruct (parse_timestamp_string s) as [d|] eqn:Ed; [|done]. injection E as <- <-.
    split; [by apply parse_timestamp_range in Ed | apply aggs_grow_refl].
  - apply lift_split in E as [E ->]. split; [by eapply bind_column_ok | apply aggs_grow_refl].
  - destruct (bool_decide _); [|done]. destruct aggs as [ags|]; [|done].
    assert (Harg : forall (k : bound.BoundExpr -> binding bound.BoundExpr) mid b2 ags2,
      mbind k (match args with [] => reject (bind_error source_ (n ++ " requires an argument") l)
                             | a :: _ => bind_expr_ source_ bindings a end) mid = Ok (b2, ags2) ->
      exists a mid', k a mid' = Ok (b2, ags2) /\ aggs_grow mid mid').
    { intros k mid b2 ags2 E2. apply bind_split in E2 as (a & mid' & Ea & Ek). exists a, mid'. split; [done|].
      destruct IH as [|x xs Hx _]; [done|]. destruct Hw as [Hw _]. by apply (Hx Hw) in Ea as [_ ?]. }
    destruct (String.eqb n "count"); [destruct st|destruct (String.eqb n "sum");
      [|destruct (String.eqb n "avg")]].
    1: by apply push_ok in E.
    all: apply Harg in E as (x & mid & E & G); apply push_ok in E as [Hb G2];
      split; [done | by eapply aggs_grow_trans].
  - destruct Hw as [Hwa Hwb]. apply bind_split in E as (x & m1 & Ea & E).
    apply bind_split in E as (y & m2 & Eb & E). apply lift_split in E as [E ->].
    apply (IHa Hwa) in Ea as [Hx G1]. apply (IHb Hwb) in Eb as [Hy G2].
    split; [|by eapply aggs_grow_trans]. eapply bind_binary_ok; [|exact Hy | exact E]. by eapply aggs_grow_ok.
  - destruct Hw as [Hwa Hwb]. apply bind_split in E as (x & m1 & Ea & E).
    apply bind_split in E as (y & m2 & Eb & E). apply lift_split in E as [E ->].
    apply (IHa Hwa) in Ea as [Hx G1]. apply (IHb Hwb) in Eb as [Hy G2].
    split; [|by eapply aggs_grow_trans]. eapply bind_logical_ok; [|exact Hy | exact E]. by eapply aggs_grow_ok.
  - apply bind_split in E as (x & m1 & Ea & E). apply lift_split in E as [E ->].
    apply (IHa Hw) in Ea as [Hx G1]. split; [|done]. unfold bind_not, is_int32 in E.
    case_bool_decide; [|done]. by injection E as <-.
  - apply bind_split in E as (x & m1 & Ea & E). injection E as <- <-.
    by apply (IHa Hw) in Ea as [Hx G1].
Qed.
End Typing.

(** ** Lowering *)

(** Every column of every binding is where the offsets put it. *)
Definition layout (ctx : ColCtx) (bindings : list bound.BoundBinding) (sg : signature) : Prop :=
  post_aggregate ctx = false /\
  forall b bd c col, bindings !! b = Some bd -> bound.bb_schema bd !! c = Some col ->
    exists off, binding_offsets ctx !! b = Some off /\ sg !! (off + c)%nat = Some (col_type col, col_nullable col).

Definition types_ok (bindings : list bound.BoundBinding) : Prop :=
  Forall (fun bd => Forall (fun col => is_vec_type (col_type col) = true) (bound.bb_schema bd)) bindings.

(** What the executor's constructors accept: no NULL literal, and IS NULL on the types they
    list. *)
Fixpoint evaluable (e : bound.BoundExpr) : Prop :=
  match e with
  | bound.BoundNullLit _ => False
  | bound.BoundBinaryOp _ l r _ _ | bound.BoundLogicalOp _ l r => evaluable l /\ evaluable r
  | bound.BoundNotOp c => evaluable c
  | bound.BoundNullCheck _ c => evaluable c /\ bound.bound_expr_type c ∈ [INT32; INT64; DOUBLE; VARCHAR]
  | _ => True
  end.

Lemma bound_type_vec bindings e :
  types_ok bindings -> bound_ok bindings [] e -> evaluable e ->
  is_vec_type (bound.bound_expr_type e) = true.
Proof.
  intros Ht. induction e; cbn; intros Ho He; try done.
  - by destruct Ho as [[-> _] | [-> _]].
  - destruct Ho as (bd & col & Hb & Hc & -> & _).
    apply (Forall_lookup_1 _ _ _ _ Ht) in Hb. by apply (Forall_lookup_1 _ _ _ _ Hb) in Hc.
  - by destruct Ho as (a & Ha & _).
  - destruct Ho as (H1 & _ & <- & _ & -> & _), He as [He _]. destruct (is_comparison op); [done|]. auto.
Qed.

Lemma lower_int_ok bindings v t :
  bound_ok bindings [] (bound.BoundIntLit v t) ->
  variant_type (lower_int v t) = t /\ value_wf (lower_int v t).
Proof.
  unfold lower_int. intros [[-> Hv] | [-> Hv]]; cbn.
  - rewrite signed_id by (unfold in_s in *; lia). done.
  - done.
Qed.

Lemma lower_typed ctx projs n bindings sg e :
  layout ctx bindings sg -> types_ok bindings -> bound_ok bindings [] e -> evaluable e ->
  exists x, lower_expr_ ctx projs n e = Some x /\ built x = true /\ refs_ok sg x /\
    output_type x = bound.bound_expr_type e /\ nullable_of sg x = bound.bound_expr_nullable e.
Proof.
  intros [Hp HL] Ht. induction e as [v t|b|s|t|b|d|t|r|i t|i t|op l IHl r IHr ot rt|op l IHl r IHr|c IH|k c IH];
    intros Ho He.
  - destruct (lower_int_ok _ _ _ Ho) as [H1 H2]. eexists. split; [by destruct n|].
    cbn [built refs_ok output_type nullable_of]. rewrite H1.
    split_and!; [|done..]. destruct Ho as [[-> _] | [-> _]]; done.
  - eexists. split; [by destruct n|]. done.
  - eexists. split; [by destruct n|]. done.
  - done.
  - eexists. split; [by destruct n|]. done.
  - eexists. split; [by destruct n|]. done.
  - eexists. split; [by destruct n|]. done.
  - pose proof (bound_type_vec _ _ Ht Ho He) as Hv. destruct Ho as (bd & col & Hb & Hc & Hty & Hnu).
    destruct (HL _ _ _ _ Hb Hc) as (off & Hoff & Hsg).
    exists (ColumnRef (off + bound.column_idx r) (bound.ref_type r)). cbn in Hv.
    split; [destruct n; cbn; by rewrite Hp, Hoff|].
    cbn. rewrite Hsg, Hty, Hnu in *. split_and!; try done; [|eauto].
    destruct (col_type col); done.
  - by destruct Ho as (a & Ha & _).
  - done.
  - pose proof Ho as Ho'. destruct Ho as (Hl & Hr & Htl & Htr & Hrt & Hcmp), He as [Hel Her].
    destruct (IHl Hl Hel) as (x & Ex & Bx & Rx & Tx & Nx).
    destruct (IHr Hr Her) as (y & Ey & By & Ry & Ty & Ny).
    pose proof (bound_type_vec _ _ Ht Hl Hel) as Hv.
    exists (BinaryOp op x y). split; [destruct n; cbn in *; by rewrite Ex, Ey|].
    cbn. rewrite Bx, By, Tx, Ty, Nx, Ny, Htl, Htr in *. split_and!; try done.
    rewrite bool_decide_eq_true_2, Hv by done. cbn.
    destruct (comparison_only ot); [by rewrite Hcmp | done].
  - destruct Ho as (Hl & Hr & Htl & Htr), He as [Hel Her].
    destruct (IHl Hl Hel) as (x & Ex & Bx & Rx & Tx & Nx).
    destruct (IHr Hr Her) as (y & Ey & By & Ry & Ty & Ny).
    exists (LogicalOp op x y). split; [destruct n; cbn in *; by rewrite Ex, Ey|].
    cbn. rewrite Bx, By, Tx, Ty, Nx, Ny, Htl, Htr. done.
  - destruct Ho as (Hc & Htc). destruct (IH Hc He) as (x & Ex & Bx & Rx & Tx & Nx).
    exists (NotOp x). split; [destruct n; cbn in *; by rewrite Ex|].
    cbn. rewrite Bx, Tx, Nx, Htc. done.
  - destruct He as [He Hin]. destruct (IH Ho He) as (x & Ex & Bx & Rx & Tx & Nx).
    exists (NullCheckOp k x). split; [destruct n; cbn in *; by rewrite Ex|].
    cbn. rewrite Bx, Tx. split_and!; try done. by rewrite bool_decide_eq_true_2.
Qed.

(** The signature of the columns of a table. *)
Definition schema_sig (s : Schema) : signature := (fun c => (col_type c, col_nullable c)) <$> s.

Lemma single_layout name alias schema m :
  layout (mkCtx [0%nat] false 0 m) [bound.mkBinding name alias schema] (schema_sig schema).
Proof.
  split; [done|]. intros b bd c col Hb Hc. destruct b as [|b]; [|by destruct b]. simplify_eq/=.
  exists 0%nat. split; [done|]. unfold schema_sig. cbn. by rewrite list_lookup_fmap, Hc.
Qed.

(** ** INSERT *)

(** The defaults of the columns fit the columns. *)
Definition defaults_fit (schema : Schema) : Prop :=
  Forall (fun col => forall d, col_default col = Some d ->
    value_fits (col_type col) (col_nullable col) (col_max_len col) d) schema.

(** The value fits the column, or it is the default of the column, which nothing checks. *)
Definition cell_accepted (col : Column) (v : Value) : Prop :=
  value_fits (col_type col) (col_nullable col) (col_max_len col) v \/ col_default col = Some v.

Lemma accepted_fits schema row : defaults_fit schema -> Forall2 cell_accepted schema row -> row_fits schema row.
Proof.
  intros Hd Hr. induction Hr as [|col v schema row Hv _ IH]; constructor.
  - apply Forall_cons in Hd as [Hd _]. destruct Hv as [Hv|Hv]; [done|by apply Hd].
  - apply IH. by apply Forall_cons in Hd as [_ Hd].
Qed.

(** A constant for a column: the value is NULL or fits. *)
Definition cell_value (col : Column) (v : Value) : Prop :=
  v = VNull \/ value_fits (col_type col) (col_nullable col) (col_max_len col) v.

Section Insert.
Context `{CatalogView} (source_ : list ascii).

Lemma bind_expression_ok e bindings b :
  lits_wf e -> bind_expression source_ e bindings = Ok b -> bound_ok bindings [] b.
Proof.
  unfold bind_expression, without_aggregates. intros Hw.
  destruct (bind_expr_ source_ bindings e None) as [[b' aggs']|] eqn:E; [|done]. intros [= ->].
  apply (bind_expr_ok bindings source_ e Hw) in E as [Hb G]. by destruct aggs'.
Qed.

Lemma fold_constant_fits e col v :
  bound_ok [] [] e -> fold_constant_expr_ source_ e col = Ok v -> cell_value col v.
Proof.
  unfold cell_value, type_mismatch, stmt_err.
  destruct e as [x t|b|s|t|b|d|t| | | | | | |]; cbn [fold_constant_expr_ bound_ok]; intros Ho; try done.
  - unfold type_mismatch, stmt_err. destruct (col_type col) eqn:Et; try done.
    + case_bool_decide as Ht; [|done]. subst t. intros [= <-]. right. cbn.
      destruct Ho as [[_ Hx] | [? _]]; [|done].
      rewrite signed_id by (done || unfold in_s in *; lia). done.
    + intros [= <-]. right. cbn. split; [done|]. unfold in_s in *. destruct Ho as [[_ ?] | [_ ?]]; lia.
  - case_bool_decide; [|done]. intros [= <-]. right. by split.
  - case_bool_decide as Ht; [|done]. cbn [negb]. destruct (col_max_len col <? strlen s) eqn:El; [done|].
    intros [= <-]. right. cbn. apply Z.ltb_ge in El. done.
  - intros [= <-]. by left.
  - case_bool_decide; [|done]. intros [= <-]. right. by split.
  - case_bool_decide; [|done]. intros [= <-]. right. by split.
  - case_bool_decide; [|done]. intros [= <-]. right. by split.
Qed.

(** The constant that an expression of a row denotes in a column. *)
Definition constant (col : Column) (e : ast.Expr) (v : Value) : Prop :=
  exists b, bind_expression source_ e [] = Ok b /\ fold_constant_expr_ source_ b col = Ok v.

Lemma constant_fits col e v : lits_wf e -> constant col e v -> cell_value col v.
Proof. intros Hw (b & Hb & Hf). apply bind_expression_ok in Hb; [|done]. by eapply fold_constant_fits. Qed.

(** What [fill_row] writes: the constants at their columns, the rest unchanged. *)
Lemma fill_row_spec schema targets exprs : NoDup targets -> length exprs = length targets -> forall row row',
  length row = length schema ->
  fill_row source_ schema targets exprs row = Ok row' ->
  length row' = length schema /\
  (forall k j e col, targets !! k = Some j -> exprs !! k = Some e -> schema !! j = Some col ->
     exists v, constant col e v /\ row' !! j = Some v) /\
  (forall j, j ∉ targets -> row' !! j = row !! j).
Proof.
  intros Hnd. revert exprs. induction Hnd as [|j targets Hj Hnd IH]; intros [|e exprs] Hlen row row' Hrow E;
    try done; cbn [fill_row] in E.
  - simplify_eq. split_and!; [done | | done]. intros k j e col Hk. by rewrite lookup_nil in Hk.
  - destruct (without_aggregates _) as [b|] eqn:Eb; [|done].
    destruct (schema !! j) as [col|] eqn:Ec; [|done].
    destruct (fold_constant_expr_ source_ b col) as [v|] eqn:Ef; [|done].
    destruct (IH exprs ltac:(by injection Hlen) (<[j := v]> row) row') as (HL & Hin & Hout);
      [by rewrite length_insert | done |].
    split_and!; [done | |].
    + intros [|k] j' e' col' Hk He Hc; simplify_eq/=.
      * exists v. split; [by exists b|]. rewrite Hout by done.
        apply list_lookup_insert_eq. apply lookup_lt_Some in Ec. lia.
      * by eapply Hin.
    + intros j' Hj'. apply not_elem_of_cons in Hj' as [Hne Hj']. rewrite Hout by done.
      by apply list_lookup_insert_ne.
Qed.

(** The value that a column gets: the default replaces NULL. *)
Definition stored (col : Column) (v : Value) : Value :=
  if is_null v then default VNull (col_default col) else v.

Lemma apply_defaults_length schema row row' :
  length row = length schema -> apply_defaults source_ schema row = Ok row' -> length row' = length schema.
Proof.
  revert row row'. induction schema as [|col schema IH]; intros [|v row] row' HL E; try done; cbn [apply_defaults] in E.
  - by injection E as <-.
  - match type of E with match ?m with _ => _ end = _ => destruct m as [w|] eqn:Ew; [|done] end.
    destruct (apply_defaults source_ schema row) as [l|] eqn:El; [|done]. simplify_eq/=.
    by rewrite (IH row l) by (done || lia).
Qed.

Lemma apply_defaults_spec schema row row' j col v :
  apply_defaults source_ schema row = Ok row' -> schema !! j = Some col -> row !! j = Some v ->
  row' !! j = Some (stored col v) /\
  (is_null (stored col v) = true -> col_default col = None -> col_nullable col = true).
Proof.
  revert row row' j. induction schema as [|c schema IH]; intros [|w row] row' j E Hc Hv; try done.
  cbn [apply_defaults] in E.
  match type of E with match ?m with _ => _ end = _ => destruct m as [x|] eqn:Ex; [|done] end.
  destruct (apply_defaults source_ schema row) as [l|] eqn:El; [|done]. simplify_eq.
  destruct j as [|j]; [|exact (IH row l j El Hc Hv)]. simplify_eq/=. unfold stored. destruct (is_null v) eqn:Hn.
  - destruct (col_default col) as [d|]; [by simplify_eq|].
    destruct (col_nullable col) eqn:En; cbn in Ex; [|done]. simplify_eq. by destruct x.
  - simplify_eq. split; [done|]. intros Hn'. by rewrite Hn in Hn'.
Qed.

Lemma stored_accepted col v :
  (is_null (stored col v) = true -> col_default col = None -> col_nullable col = true) ->
  cell_value col v -> cell_accepted col (stored col v).
Proof.
  unfold stored, cell_value, cell_accepted. intros Hn Hv. destruct (is_null v) eqn:E.
  - destruct (col_default col) as [d|]; [by right|]. left. by apply Hn.
  - left. destruct Hv as [->|Hv]; done.
Qed.

(** The target columns are distinct columns of the schema. *)
Lemma col_index_some schema n j : col_index schema n = Some j ->
  exists col, schema !! j = Some col /\ col_name col = n.
Proof.
  revert j. induction schema as [|c schema IH]; intros j; cbn; [done|].
  destruct (String.eqb (col_name c) n) eqn:E; [intros [= <-]; exists c; by apply String.eqb_eq in E|].
  destruct (col_index schema n) as [k|]; [|done]. intros [= <-]. by apply IH.
Qed.

Lemma named_columns_ok schema seen names l : named_columns source_ schema seen names = Ok l ->
  NoDup l /\ forall j, j ∈ l -> exists col, schema !! j = Some col /\ col_name col ∉ seen.
Proof.
  revert seen l. induction names as [|n names IH]; intros seen l; cbn [named_columns].
  { intros [= <-]. split; [constructor|]. by intros j ?%elem_of_nil. }
  case_bool_decide as Hn; [done|]. destruct (col_index schema n) as [j|] eqn:Ej; [|done].
  destruct (named_columns source_ schema (n :: seen) names) as [l'|] eqn:El; [|done]. intros [= <-].
  apply IH in El as [Hnd Hin]. apply col_index_some in Ej as (col & Hc & Hname). split.
  - constructor; [|done]. intros Hj. apply Hin in Hj as (c & Hc' & Hs). simplify_eq.
    by apply Hs, list_elem_of_here.
  - intros k [->|Hk]%elem_of_cons; [exists col; by subst|].
    apply Hin in Hk as (c & Hc' & Hs). exists c. set_solver.
Qed.

Lemma target_columns_ok schema names l : target_columns source_ schema names = Ok l ->
  NoDup l /\ forall j, j ∈ l -> is_Some (schema !! j).
Proof.
  destruct names as [|n names].
  - intros [= <-]. split; [apply NoDup_seq|]. intros j [_ ?]%elem_of_seq. by apply lookup_lt_is_Some.
  - intros [H1 H2]%named_columns_ok. split; [done|]. intros j (c & Hc & _)%H2. by exists c.
Qed.

(** What a row of VALUES becomes. *)
Definition row_bound (schema : Schema) (targets : list nat) (exprs : list ast.Expr) (row : list Value) : Prop :=
  length exprs = length targets /\ length row = length schema /\
  (forall k j e col, targets !! k = Some j -> exprs !! k = Some e -> schema !! j = Some col ->
     exists v, constant col e v /\ row !! j = Some (stored col v)) /\
  (forall j col, j ∉ targets -> schema !! j = Some col -> row !! j = Some (default VNull (col_default col))).

Lemma bind_row_ok schema names targets exprs row :
  target_columns source_ schema names = Ok targets -> Forall lits_wf exprs ->
  bind_row source_ schema targets exprs = Ok row ->
  row_bound schema targets exprs row /\ Forall2 cell_accepted schema row.
Proof.
  intros Ht Hw. apply target_columns_ok in Ht as [Hnd Hin]. unfold bind_row.
  destruct (length exprs =? length targets)%nat eqn:El; [|done]. apply Nat.eqb_eq in El. cbn [negb].
  destruct (fill_row _ _ _ _ _) as [r|] eqn:Ef; [|done]. intros Ea.
  apply fill_row_spec in Ef as (HL & Hset & Hrest); [|done|done|by rewrite length_replicate].
  pose proof (apply_defaults_length _ _ _ HL Ea) as HL'.
  assert (Hcell : forall j col, schema !! j = Some col -> exists v, r !! j = Some v /\ cell_value col v).
  { intros j col Hc. destruct (decide (j ∈ targets)) as [Hj|Hj].
    - apply list_elem_of_lookup in Hj as [k Hk].
      destruct (lookup_lt_is_Some_2 exprs k) as [e He]; [rewrite El; by eapply lookup_lt_Some|].
      destruct (Hset _ _ _ _ Hk He Hc) as (v & Hv & Hr). exists v. split; [done|].
      eapply constant_fits; [|done]. by apply (Forall_lookup_1 _ _ _ _ Hw) in He.
    - exists VNull. split; [|by left]. rewrite Hrest by done. apply lookup_replicate_2. by eapply lookup_lt_Some. }
  split; [split_and!; try done|].
  - intros k j e col Hk He Hc. destruct (Hset _ _ _ _ Hk He Hc) as (v & Hv & Hr). exists v.
    split; [done|]. by apply (apply_defaults_spec _ _ _ _ _ _ Ea Hc).
  - intros j col Hj Hc. change (default VNull (col_default col)) with (stored col VNull).
    apply (apply_defaults_spec _ _ _ _ _ _ Ea Hc). rewrite Hrest by done.
    apply lookup_replicate_2. by eapply lookup_lt_Some.
  - apply Forall2_same_length_lookup_2; [done|]. intros j col x Hc Hx.
    destruct (Hcell _ _ Hc) as (v & Hv & Hcv).
    destruct (apply_defaults_spec _ _ _ _ _ _ Ea Hc Hv) as [Hs Hn]. simplify_eq.
    by apply stored_accepted.
Qed.

Lemma bind_rows_ok schema targets rows vals : bind_rows source_ schema targets rows = Ok vals ->
  Forall2 (fun r v => bind_row source_ schema targets r = Ok v) rows vals.
Proof.
  revert vals. induction rows as [|r rows IH]; intros vals; cbn [bind_rows]; [intros [= <-]; constructor|].
  destruct (bind_row _ _ _ _) as [v|] eqn:Ev; [|done].
  destruct (bind_rows _ _ _ _) as [l|] eqn:El; [|done]. intros [= <-]. constructor; auto.
Qed.
End Insert.

(** ** The rows of an INSERT *)

Section Claims.
Context `{CatalogView} (source_ : list ascii).

(** C15. The rows of an INSERT that the binder accepts: one for every row of VALUES. A listed column holds the
    constant of its expression with NULL replaced by the default, every other column holds its default or
    NULL. Every cell fits its column (type, length, NOT NULL) or is the default of the column, which the
    binder does not check; so the rows fit the schema when the defaults do. *)
Theorem bind_insert_rows_fit s b schema :
  bind_insert source_ s = Ok b -> schema_of (ast.ins_table_name s) = Some schema ->
  Forall (Forall lits_wf) (ast.ins_rows s) ->
  bound.bi_table_name b = ast.ins_table_name s /\
  exists targets, target_columns source_ schema (ast.ins_columns s) = Ok targets /\ NoDup targets /\
    Forall2 (fun exprs row => row_bound source_ schema targets exprs row /\ Forall2 cell_accepted schema row /\
        (defaults_fit schema -> row_fits schema row))
      (ast.ins_rows s) (bound.bi_rows b).
Proof.
  unfold bind_insert. intros Hb Hs Hw. rewrite Hs in Hb.
  destruct (target_columns _ _ _) as [targets|] eqn:Ht; [|done].
  destruct (bind_rows _ _ _ _) as [rows|] eqn:Er; [|done]. injection Hb as <-. cbn. split; [done|].
  exists targets. split; [done|]. split; [by apply target_columns_ok in Ht as [? _]|].
  apply bind_rows_ok in Er. induction Er as [|r v rs vs Hr _ IH]; constructor.
  - apply Forall_cons in Hw as [Hw _]. destruct (bind_row_ok _ _ _ _ _ _ Ht Hw Hr) as [Hb Ha].
    split; [done|]. split; [done|]. intros Hd. by apply accepted_fits.
  - apply Forall_cons in Hw as [_ Hw]. by apply IH.
Qed.
End Claims.

Definition sample_insert : ast.InsertStmt :=
  ast.mkInsert "T" ["a"] [[ast.IntLit 1 no_loc]; [ast.NullLit no_loc]].

Lemma bind_insert_rows_fit_witness :
  exists rows, @bind_insert sample_catalog [] sample_insert = Ok (bound.mkInsert "T" rows) /\
    rows = [[VI32 1; VStr "x"; VNull]; [VNull; VStr "x"; VNull]] /\ Forall (row_fits sample_columns) rows.
Proof.
  eexists. split; [vm_compute; reflexivity|]. split; [reflexivity|].
  destruct (@bind_insert_rows_fit sample_catalog [] sample_insert
    (bound.mkInsert "T" [[VI32 1; VStr "x"; VNull]; [VNull; VStr "x"; VNull]]) sample_columns)
    as (_ & targets & _ & _ & H); [vm_compute; reflexivity | vm_compute; reflexivity | |].
  - repeat (apply Forall_cons; split); try done.
  - assert (Hd : defaults_fit sample_columns).
    { repeat (apply Forall_cons; split); try done. intros d [= <-]. cbn. split; [done|]. vm_compute. congruence. }
    cbn in H. apply Forall2_cons in H as [(_ & _ & H1) H]. apply Forall2_cons in H as [(_ & _ & H2) _].
    repeat (apply Forall_cons; split); auto.
Defined.
