(* ===== verification/PlanTypes.v ===== *)
(** * Plans are well typed

    [plan_typed] says which columns a plan yields and that the expressions in it are well typed
    over the columns of the operators below them.  A SELECT without aggregates that the binder
    accepts has such a plan, with the columns of the SELECT list ([select_plan_typed]): every
    column reference points to the column that the joins put there, in whatever order the planner
    joins the first two tables. *)

From Stdlib Require Import Ascii.
From S2P Require Import Prelude Types ColumnPage ConstraintFile ShardMapFile BTreeSpec Table.
From S2P Require Import ColumnVector Chunk Expression Operator TableScan ScanStream HashJoin Sort.
From S2P Require Import HashAggregate Lexer Ast Literals Dates Parser Bound Binder Planner Frontend.
From S2P Require Import BinderTypes.

Section Plans.
Context `{CatalogView}.

(** The types of the keys of a join agree, and there is a key. *)
Definition keys_agree (build_keys probe_keys : list Expression) : Prop :=
  build_keys <> [] /\ Forall2 (fun b p => output_type b = output_type p) build_keys probe_keys.

Inductive plan_typed : Plan -> signature -> Prop :=
| typed_scan table proj schema :
    schema_of table = Some schema -> Forall (in_schema schema) proj ->
    plan_typed (PTableScan table proj) (scan_signature schema proj)
| typed_index table idx proj lo hi schema :
    schema_of table = Some schema -> Forall (in_schema schema) proj ->
    plan_typed (PIndexScan table idx proj lo hi) (scan_signature schema proj)
| typed_join build probe bk pk sgb sgp :
    plan_typed build sgb -> plan_typed probe sgp ->
    Forall (well_typed sgb) bk -> Forall (well_typed sgp) pk -> keys_agree bk pk ->
    plan_typed (PHashJoin build probe bk pk) (join_schema INNER sgp sgb)
| typed_filter child x sg :
    plan_typed child sg -> well_typed sg x -> output_type x = INT32 ->
    plan_typed (PFilter child x) sg
| typed_sort child keys sg :
    plan_typed child sg -> keys <> [] -> Forall (fun k => well_typed sg (fst k)) keys ->
    plan_typed (PSort child keys) sg
| typed_project child items sg :
    plan_typed child sg -> Forall (fun i => well_typed sg (fst (fst i)) /\ nullable_of sg (fst (fst i)) = snd i) items ->
    plan_typed (PProject child items) (project_sig sg (map (fun i => fst (fst i)) items))
| typed_limit child offset limit sg :
    plan_typed child sg -> plan_typed (PLimit child offset limit) sg.

Lemma scan_all schema : scan_signature schema (seq 0 (length schema)) = schema_sig schema.
Proof.
  unfold scan_signature, schema_sig. apply list_eq. intros i. rewrite !list_lookup_fmap.
  destruct (schema !! i) as [col|] eqn:E.
  - pose proof (lookup_lt_Some _ _ _ E). rewrite lookup_seq_lt by lia. cbn. by rewrite E.
  - apply lookup_ge_None in E. by rewrite lookup_seq_ge by lia.
Qed.

Lemma all_in_schema schema : Forall (in_schema schema) (seq 0 (length schema)).
Proof. apply Forall_forall. intros i [_ ?]%elem_of_seq. unfold in_schema. lia. Qed.

(** ** What the binder promises of a SELECT *)

(** The binding of a table of the catalog. *)
Definition binding_ok (bd : bound.BoundBinding) : Prop :=
  schema_of (bound.bb_table_name bd) = Some (bound.bb_schema bd).

Definition order_ok (bindings : list bound.BoundBinding) (projections : list bound.BoundProjection)
    (e : bound.BoundExpr) : Prop :=
  bound_ok bindings [] e \/
  exists i p t, e = bound.BoundProjectionRef i t /\ projections !! i = Some p.

Record select_ok (stmt : bound.BoundSelect) : Prop := {
  so_nonempty : bound.bs_bindings stmt <> [];
  so_bindings : Forall binding_ok (bound.bs_bindings stmt);
  so_ons : length (bound.bs_bindings stmt) = S (length (bound.bs_join_predicates stmt)) /\
    forall i on, bound.bs_join_predicates stmt !! i = Some on ->
      bound_ok (take (i + 2) (bound.bs_bindings stmt)) [] on;
  so_where : forall e, bound.bs_where stmt = Some e -> bound_ok (bound.bs_bindings stmt) [] e;
  so_having : forall e, bound.bs_having stmt = Some e -> bound_ok (bound.bs_bindings stmt) [] e;
  so_projections : Forall (fun p => bound_ok (bound.bs_bindings stmt) [] (bound.bp_expr p)) (bound.bs_projections stmt);
  so_order : Forall (fun o => order_ok (bound.bs_bindings stmt) (bound.bs_projections stmt) (bound.bo_expr o))
    (bound.bs_order_by stmt)
}.

(** ** Joins *)

(** The columns of the bindings other than [skip] are where the offsets put them. *)
Definition placed (ctx : ColCtx) (skip : nat -> Prop) (bindings : list bound.BoundBinding) (sg : signature) : Prop :=
  forall b bd c col, ~ skip b -> bindings !! b = Some bd -> bound.bb_schema bd !! c = Some col ->
    exists off, binding_offsets ctx !! b = Some off /\ sg !! (off + c)%nat = Some (col_type col, col_nullable col).

Lemma column_typed sg i t n : sg !! i = Some (t, n) -> is_vec_type t = true -> well_typed sg (ColumnRef i t).
Proof. intros Hi Ht. split; [by destruct t | by exists n]. Qed.

(** A conjunction of equalities between a column of table [b] and a column of another table. *)
Fixpoint equijoin (b : nat) (on : bound.BoundExpr) : bool :=
  match on with
  | bound.BoundLogicalOp AND l r => equijoin b l && equijoin b r
  | bound.BoundBinaryOp EQ (bound.BoundColumnRef l) (bound.BoundColumnRef r) _ _ =>
      xorb (bound.binding_id l =? b)%nat (bound.binding_id r =? b)%nat
  | _ => false
  end.

(** The ON conditions of the tables [b], [b + 1], ... *)
Fixpoint equi_joins (b : nat) (ons : list bound.BoundExpr) : bool :=
  match ons with
  | [] => true
  | on :: ons => equijoin b on && equi_joins (S b) ons
  end.

(** The result is [Ok] exactly if [b] holds, with a value that satisfies [P]. *)
Definition decides {A} (b : bool) (r : result A) (P : A -> Prop) : Prop :=
  match r with Ok a => b = true /\ P a | Err _ => b = false end.

(** Over two tables it does not matter which one is the build side. *)
Lemma equijoin_sides b0 b1 on : bound_ok [b0; b1] [] on -> equijoin 0 on = equijoin 1 on.
Proof.
  induction on as [| | | | | | | | | |op l _ r _ ot rt|op l IHl r IHr| |]; intros Ho; try done.
  - destruct op; try done. destruct l as [| | | | | | |l| | | | | |]; try done.
    destruct r as [| | | | | | |r| | | | | |]; try done. destruct Ho as ((bl & cl & Hl & _) & (br & cr & Hr & _) & _).
    cbn. destruct (bound.binding_id l) as [|[|x]], (bound.binding_id r) as [|[|y]]; done.
  - destruct op; [|done]. destruct Ho as (Hl & Hr & _). cbn. by rewrite IHl, IHr.
Qed.

Lemma ref_column bindings r :
  types_ok bindings -> bound_ok bindings [] (bound.BoundColumnRef r) ->
  exists bd col, bindings !! bound.binding_id r = Some bd /\ bound.bb_schema bd !! bound.column_idx r = Some col /\
    bound.ref_type r = col_type col /\ is_vec_type (col_type col) = true.
Proof.
  intros Ht (bd & col & Hb & Hc & Hty & _). exists bd, col. split_and!; try done.
  apply (Forall_lookup_1 _ _ _ _ Ht) in Hb. by apply (Forall_lookup_1 _ _ _ _ Hb) in Hc.
Qed.

Section Keys.
Context (ctx : ColCtx) (bindings : list bound.BoundBinding) (build_bid : nat) (bd : bound.BoundBinding) (sgp : signature).
Hypothesis Htypes : types_ok bindings.
Hypothesis Hbuild : bindings !! build_bid = Some bd.
Hypothesis Hplaced : placed ctx (eq build_bid) bindings sgp.

Definition keys_ok (k : list Expression * list Expression) : Prop :=
  Forall (well_typed sgp) (fst k) /\ Forall (well_typed (schema_sig (bound.bb_schema bd))) (snd k) /\
  keys_agree (snd k) (fst k).

Lemma decompose_keys (build probe : bound.BindingRef) :
  bound_ok bindings [] (bound.BoundColumnRef build) -> bound_ok bindings [] (bound.BoundColumnRef probe) ->
  bound.binding_id build = build_bid -> bound.binding_id probe <> build_bid ->
  bound.ref_type build = bound.ref_type probe ->
  exists off, binding_offsets ctx !! bound.binding_id probe = Some off /\
    keys_ok ([ColumnRef (off + bound.column_idx probe) (bound.ref_type probe)],
             [ColumnRef (bound.column_idx build) (bound.ref_type build)]).
Proof using Htypes Hbuild Hplaced.
  intros Hb Hp Eb Np Et.
  destruct (ref_column _ _ Htypes Hb) as (bb & cb & Lb & Cb & Tb & Vb). rewrite Eb in Lb. simplify_eq.
  destruct (ref_column _ _ Htypes Hp) as (bp & cp & Lp & Cp & Tp & Vp).
  destruct (Hplaced _ _ _ _ (not_eq_sym Np) Lp Cp) as (off & Ho & Hs). exists off. split; [done|].
  split_and!; cbn.
  - apply Forall_singleton. rewrite Tp in *. by eapply column_typed.
  - apply Forall_singleton. rewrite Tb in *. eapply column_typed; [|done].
    unfold schema_sig. by rewrite list_lookup_fmap, Cb.
  - split; [done|]. by constructor.
Qed.

Lemma keys_ok_app a b : keys_ok a -> keys_ok b -> keys_ok (fst a ++ fst b, snd a ++ snd b).
Proof.
  intros (H1 & H2 & Hn & H3) (H4 & H5 & _ & H6). split_and!; cbn; try by apply Forall_app.
  split; [by destruct (snd a)|]. by apply Forall2_app.
Qed.

Lemma decompose_ok on : bound_ok bindings [] on ->
  exists r, decompose_on_ on ctx build_bid = Some r /\ decides (equijoin build_bid on) r keys_ok.
Proof using Htypes Hbuild Hplaced.
  assert (Herr : forall m : string, exists r : result (list Expression * list Expression),
    Some (Err m) = Some r /\ decides false r keys_ok) by (intros m; by exists (Err m)).
  induction on as [| | | | | | | | | |op l _ r _ ot rt|op l IHl r IHr| |]; intros Ho; cbn [decompose_on_ equijoin]; try apply Herr.
  - destruct op; try apply Herr. destruct l as [| | | | | | |l| | | | | |]; try apply Herr.
    destruct r as [| | | | | | |r| | | | | |]; try apply Herr.
    destruct Ho as (Hl & Hr & Tl & Tr & _).
    assert (Et : bound.ref_type l = bound.ref_type r) by (cbn in Tl, Tr; congruence).
    destruct (bound.binding_id l =? build_bid)%nat eqn:El, (bound.binding_id r =? build_bid)%nat eqn:Er;
      cbn [negb andb xorb]; try apply Herr; apply Nat.eqb_eq in El || apply Nat.eqb_neq in El;
      apply Nat.eqb_eq in Er || apply Nat.eqb_neq in Er.
    + destruct (decompose_keys l r) as (off & Hoff & Hk); try done. rewrite Hoff. cbn. by eexists.
    + destruct (decompose_keys r l) as (off & Hoff & Hk); try done. rewrite Hoff. cbn. by eexists.
  - destruct op; [|apply Herr]. destruct Ho as (Hl & Hr & _).
    destruct (IHl Hl) as (a & -> & Ka), (IHr Hr) as (b & -> & Kb). cbn.
    destruct a as [a|]; [|cbn in Ka; rewrite Ka; apply Herr]. destruct Ka as [-> Ka].
    destruct b as [b|]; [|cbn in Kb; rewrite Kb; apply Herr]. destruct Kb as [-> Kb].
    eexists. split; [done|]. split; [done|]. by apply keys_ok_app.
Qed.
End Keys.

Lemma make_scan_ok bd : binding_ok bd ->
  make_scan bd = Some (PTableScan (bound.bb_table_name bd) (all_columns bd)) /\
  plan_typed (PTableScan (bound.bb_table_name bd) (all_columns bd)) (schema_sig (bound.bb_schema bd)).
Proof.
  intros Hb. split.
  - unfold make_scan, has_table. unfold binding_ok, schema_of in Hb. rewrite Hb. by rewrite bool_decide_eq_true_2.
  - rewrite <- scan_all. by apply typed_scan; [|apply all_in_schema].
Qed.

Lemma join_on_ok ctx bindings build_bid bd sgp build probe on :
  types_ok bindings -> bindings !! build_bid = Some bd -> placed ctx (eq build_bid) bindings sgp ->
  bound_ok bindings [] on -> plan_typed build (schema_sig (bound.bb_schema bd)) -> plan_typed probe sgp ->
  exists r, join_on build probe on ctx build_bid = Some r /\
    decides (equijoin build_bid on) r (fun '(p, c) => c = ctx /\ plan_typed p (sgp ++ schema_sig (bound.bb_schema bd))).
Proof.
  intros Ht Hb Hp Ho Tb Tp. unfold join_on.
  destruct (decompose_ok ctx bindings build_bid bd sgp Ht Hb Hp on Ho) as (r & -> & Hr). cbn.
  destruct r as [[pk bk]|m]; [|by exists (Err m)]. destruct Hr as (He & H1 & H2 & H3).
  eexists. split; [done|]. split; [done|]. split; [done|]. by apply (typed_join build probe bk pk).
Qed.

Lemma lookup_done {A} (done rest : list A) b x : (done ++ rest) !! b = Some x -> b <> length done ->
  (length rest <= 1)%nat -> done !! b = Some x.
Proof.
  intros Hb Hn Hr. destruct (decide (b < length done)%nat) as [Hl|Hl].
  - by rewrite lookup_app_l in Hb by done.
  - apply lookup_lt_Some in Hb. rewrite length_app in Hb. lia.
Qed.

(** One more table: its columns follow those of the plan so far. *)
Lemma with_offset_placed ctx done bd sg :
  layout ctx done sg -> (length done < length (binding_offsets ctx))%nat ->
  placed (with_offset ctx (length done) (length sg)) (eq (length done)) (done ++ [bd]) sg /\
  layout (with_offset ctx (length done) (length sg)) (done ++ [bd]) (sg ++ schema_sig (bound.bb_schema bd)).
Proof.
  intros [Hpost HL] Hlen. split; [|split; [done|]].
  - intros b bd' c col Hn Hb Hc. apply lookup_done in Hb; [|congruence|done].
    destruct (HL _ _ _ _ Hb Hc) as (off & Ho & Hs). exists off. split; [|done].
    cbn. by rewrite list_lookup_insert_ne.
  - intros b bd' c col Hb Hc. destruct (decide (b = length done)) as [->|Hn].
    + rewrite list_lookup_middle in Hb by done. simplify_eq. exists (length sg).
      split; [by apply list_lookup_insert_eq|].
      rewrite lookup_app_r by lia. replace (length sg + c - length sg)%nat with c by lia.
      unfold schema_sig. by rewrite list_lookup_fmap, Hc.
    + apply lookup_done in Hb; [|done|done]. destruct (HL _ _ _ _ Hb Hc) as (off & Ho & Hs). exists off.
      split; [cbn; by rewrite list_lookup_insert_ne|]. by apply lookup_app_l_Some.
Qed.

Definition joined (bindings : list bound.BoundBinding) : Plan * ColCtx -> Prop :=
  fun '(p, c) => exists sg, plan_typed p sg /\ layout c bindings sg.

Lemma build_joins_ok rest : forall done ons ctx op sg,
  Forall binding_ok rest -> types_ok (done ++ rest) -> length ons = length rest ->
  (forall i on, ons !! i = Some on -> bound_ok (done ++ take (S i) rest) [] on) ->
  length (binding_offsets ctx) = length (done ++ rest) ->
  plan_typed op sg -> layout ctx done sg ->
  exists r, build_joins (length done) rest ons (length sg) op ctx = Some r /\
    decides (equi_joins (length done) ons) r (joined (done ++ rest)).
Proof.
  induction rest as [|bd rest IH]; intros done ons ctx op sg Hbs Ht Hlen Hons Hoff Hop HL.
  { destruct ons; [|done]. rewrite app_nil_r. eexists. split; [done|]. split; [done|]. by exists sg. }
  destruct ons as [|on ons]; [done|]. apply Forall_cons in Hbs as [Hbd Hbs].
  destruct (make_scan_ok bd Hbd) as [Hms Hts].
  destruct (with_offset_placed ctx done bd sg HL) as [Hpl HL'].
  { rewrite Hoff, length_app. cbn. lia. }
  assert (Ht' : types_ok (done ++ [bd])).
  { apply (Forall_app _ (done ++ [bd]) rest). by rewrite <- app_assoc. }
  destruct (join_on_ok _ (done ++ [bd]) (length done) bd sg (PTableScan (bound.bb_table_name bd) (all_columns bd)) op on
    Ht' ltac:(by apply list_lookup_middle) Hpl) as (r & Hr & Hok); [exact (Hons 0%nat on eq_refl)|done|done|].
  cbn [build_joins equi_joins]. unfold build_join_. rewrite Hms, Hr. cbn.
  destruct r as [[p c]|m]; [|exists (Err m); cbn in Hok |- *; by rewrite Hok]. destruct Hok as [-> [-> Hp]].
  assert (Happ : (done ++ [bd]) ++ rest = done ++ bd :: rest) by (by rewrite <- app_assoc).
  destruct (IH (done ++ [bd]) ons (with_offset ctx (length done) (length sg)) p
    (sg ++ schema_sig (bound.bb_schema bd))) as (r & Hr' & Hj); rewrite ?Happ in *; try done.
  - by injection Hlen.
  - intros i o Hi. rewrite <- app_assoc. exact (Hons (S i) o Hi).
  - cbn. by rewrite length_insert, Hoff.
  - exists r. rewrite !length_app in Hr'. rewrite length_app in Hj. unfold schema_sig in Hr'.
    rewrite length_fmap in Hr'. cbn [length] in Hr', Hj. rewrite Nat.add_1_r in Hr'. by rewrite Nat.add_1_r in Hj.
Qed.

Lemma schema_sig_length schema : length (schema_sig schema) = length schema.
Proof. apply length_fmap. Qed.

Lemma schema_sig_lookup schema c col : schema !! c = Some col ->
  schema_sig schema !! c = Some (col_type col, col_nullable col).
Proof. intros Hc. unfold schema_sig. by rewrite list_lookup_fmap, Hc. Qed.

(** The two orders of the first join. *)
Lemma first_left ctx b0 b1 :
  (2 <= length (binding_offsets ctx))%nat -> post_aggregate ctx = false ->
  let ctx' := with_offset (with_offset ctx 0 (length (bound.bb_schema b1))) 1 0 in
  placed ctx' (eq 0%nat) [b0; b1] (schema_sig (bound.bb_schema b1)) /\
  layout ctx' [b0; b1] (schema_sig (bound.bb_schema b1) ++ schema_sig (bound.bb_schema b0)).
Proof.
  intros Hlen Hpost ctx'.
  assert (H0 : binding_offsets ctx' !! 0%nat = Some (length (bound.bb_schema b1))).
  { cbn. rewrite list_lookup_insert_ne by done. apply list_lookup_insert_eq. lia. }
  assert (H1 : binding_offsets ctx' !! 1%nat = Some 0%nat).
  { cbn. apply list_lookup_insert_eq. rewrite length_insert. lia. }
  split; [|split; [done|]]; intros [|[|b]] bd c col.
  - done.
  - intros _ [= <-] Hc. exists 0%nat. split; [done|]. by apply schema_sig_lookup.
  - done.
  - intros [= <-] Hc. eexists. split; [done|].
    rewrite lookup_app_r by (rewrite schema_sig_length; lia). rewrite schema_sig_length, Nat.add_sub_swap, Nat.sub_diag by lia.
    by apply schema_sig_lookup.
  - intros [= <-] Hc. eexists. split; [done|]. by apply lookup_app_l_Some, schema_sig_lookup.
  - done.
Qed.

Lemma first_right ctx b0 b1 :
  (2 <= length (binding_offsets ctx))%nat -> post_aggregate ctx = false ->
  let ctx' := with_offset (with_offset ctx 0 0) 1 (length (bound.bb_schema b0)) in
  placed ctx' (eq 1%nat) [b0; b1] (schema_sig (bound.bb_schema b0)) /\
  layout ctx' [b0; b1] (schema_sig (bound.bb_schema b0) ++ schema_sig (bound.bb_schema b1)).
Proof.
  intros Hlen Hpost. rewrite <- (schema_sig_length (bound.bb_schema b0)).
  apply (with_offset_placed (with_offset ctx 0 0) [b0]).
  - split; [done|]. intros [|b] bd c col Hb Hc; [|by rewrite lookup_cons, lookup_nil in Hb]. simplify_eq/=.
    exists 0%nat. split; [apply list_lookup_insert_eq; lia|]. by apply schema_sig_lookup.
  - cbn. rewrite length_insert. lia.
Qed.

Definition start_ctx (stmt : bound.BoundSelect) : ColCtx :=
  mkCtx (replicate (length (bound.bs_bindings stmt)) 0%nat) false 0 ∅.

Section Scans.
Context (row_count : string -> Z) (btree_index : string -> string -> bool).

(** What the scans and joins of a SELECT yield. *)
Definition scanned (bindings : list bound.BoundBinding) : Plan * ColCtx * bool -> Prop :=
  fun '(p, c, _) => joined bindings (p, c).

(** The joins after the first. *)
Lemma after_first b0 b1 rest on ons first c sg n equi :
  Forall binding_ok rest -> types_ok (b0 :: b1 :: rest) -> length ons = length rest ->
  (forall i o, (on :: ons) !! i = Some o -> bound_ok (take (i + 2) (b0 :: b1 :: rest)) [] o) ->
  (exists r, first = Some r /\ decides equi r (fun '(p, c') => c' = c /\ plan_typed p sg)) ->
  layout c [b0; b1] sg -> length sg = n -> length (binding_offsets c) = S (S (length rest)) ->
  exists r, (let! r := first in
             match r with
             | Err e => Some (Err e)
             | Ok (op, ctx) =>
                 let! r := build_joins 2 rest ons n op ctx in
                 match r with Err e => Some (Err e) | Ok (op, ctx) => Some (Ok (op, ctx, false)) end
             end) = Some r /\ decides (equi && equi_joins 2 ons) r (scanned (b0 :: b1 :: rest)).
Proof.
  intros Hbs Ht Hlen Hons (r & -> & Hr) HL <- Hc. cbn. destruct r as [[p c']|m]; [|exists (Err m); cbn in Hr |- *; by rewrite Hr].
  destruct Hr as [-> [-> Hp]].
  destruct (build_joins_ok rest [b0; b1] ons c p sg) as (r & Hb & Hj); try done.
  { intros i o Hi. specialize (Hons (S i) o Hi). cbn [Nat.add take] in Hons.
    replace (i + 2)%nat with (S (S i)) in Hons by lia. exact Hons. }
  cbn [length] in Hb, Hj. rewrite Hb. cbn. destruct r as [[p' c']|m]; [|by exists (Err m)]. by eexists.
Qed.

Lemma two_offsets ctx a b x y :
  length (binding_offsets (with_offset (with_offset ctx a x) b y)) = length (binding_offsets ctx).
Proof. unfold with_offset. cbn [binding_offsets]. by rewrite !length_insert. Qed.

Lemma build_scans_ok stmt : select_ok stmt -> types_ok (bound.bs_bindings stmt) ->
  exists r, build_scans_ row_count btree_index stmt (start_ctx stmt) = Some r /\
    decides (equi_joins 1 (bound.bs_join_predicates stmt)) r (scanned (bound.bs_bindings stmt)).
Proof.
  intros [Hne Hbs [Hlen Hons] _ _ _ _] Ht. unfold build_scans_, start_ctx.
  destruct (bound.bs_bindings stmt) as [|b0 rest]; [done|]. apply Forall_cons in Hbs as [Hb0 Hbs].
  destruct (make_scan_ok b0 Hb0) as [-> T0]. destruct rest as [|b1 rest].
  { assert (HL : layout (mkCtx (replicate (length [b0]) 0%nat) false 0 ∅) [b0] (schema_sig (bound.bb_schema b0))).
    { destruct b0. apply single_layout. }
    destruct (bound.bs_join_predicates stmt); [|done].
    destruct (mbind _ (bound.bs_where stmt)) as [[[idx lo] hi]|]; eexists; (split; [done|]); (split; [done|]).
    - eexists. split; [|exact HL]. rewrite <- scan_all. by apply typed_index; [|apply all_in_schema].
    - by eexists. }
  apply Forall_cons in Hbs as [Hb1 Hbs]. destruct (make_scan_ok b1 Hb1) as [-> T1].
  destruct (bound.bs_join_predicates stmt) as [|on ons]; [done|].
  set (ctx := mkCtx _ _ _ _).
  assert (Ht2 : types_ok [b0; b1]) by (by apply (Forall_app _ [b0; b1] rest) in Ht as [? _]).
  pose proof (Hons 0%nat on eq_refl) as Hon. cbn [Nat.add take] in Hon. rewrite take_0 in Hon.
  assert (Hctx : length (binding_offsets ctx) = S (S (length rest))) by apply length_replicate.
  assert (H2 : (2 <= length (binding_offsets ctx))%nat) by lia.
  assert (Hlen' : length ons = length rest) by (by injection Hlen).
  cbn [equi_joins]. destruct (_ <=? _).
  - rewrite <- (equijoin_sides b0 b1 on Hon). destruct (first_left ctx b0 b1 H2 eq_refl) as [Hpl HL].
    eapply after_first; [done..| |exact HL| |by rewrite two_offsets].
    + exact (join_on_ok _ [b0; b1] 0 b0 _ _ _ on Ht2 eq_refl Hpl Hon T0 T1).
    + rewrite length_app, !schema_sig_length. lia.
  - destruct (first_right ctx b0 b1 H2 eq_refl) as [Hpl HL].
    eapply after_first; [done..| |exact HL| |by rewrite two_offsets].
    + exact (join_on_ok _ [b0; b1] 1 b1 _ _ _ on Ht2 eq_refl Hpl Hon T1 T0).
    + by rewrite length_app, !schema_sig_length.
Qed.

(** ** The rest of the plan *)

Definition clause_ok (e : option bound.BoundExpr) : Prop :=
  forall x, e = Some x -> evaluable x /\ bound.bound_expr_type x = INT32.

(** What the binder does not check: the clauses are boolean, no NULL literal is an operand and
    IS NULL stands on types that the executor's constructor takes. *)
Record select_evaluable (stmt : bound.BoundSelect) : Prop := {
  se_where : clause_ok (bound.bs_where stmt);
  se_having : clause_ok (bound.bs_having stmt);
  se_projections : Forall (fun p => evaluable (bound.bp_expr p)) (bound.bs_projections stmt);
  se_order : Forall (fun o => evaluable (bound.bo_expr o)) (bound.bs_order_by stmt)
}.

Lemma mapM_typed {A B} (f : A -> option B) (P : A -> B -> Prop) l :
  Forall (fun x => exists y, f x = Some y /\ P x y) l -> exists ys, mapM f l = Some ys /\ Forall2 P l ys.
Proof.
  induction 1 as [|x l (y & Hy & HP) _ (ys & Hys & IH)]; [by exists []|].
  exists (y :: ys). cbn. rewrite Hy. cbn. rewrite Hys. split; [done | by constructor].
Qed.

Section Above.
Context (bindings : list bound.BoundBinding) (ctx : ColCtx) (sg : signature).
Hypothesis Ht : types_ok bindings.
Hypothesis HL : layout ctx bindings sg.

Lemma lower_ok projs e : bound_ok bindings [] e -> evaluable e ->
  exists x, lower ctx projs e = Some x /\ well_typed sg x /\
    output_type x = bound.bound_expr_type e /\ nullable_of sg x = bound.bound_expr_nullable e.
Proof using Ht HL.
  intros Ho He. destruct (lower_typed ctx projs 1 _ _ _ HL Ht Ho He) as (x & Hx & Bx & Rx & Tx & Nx). by exists x.
Qed.

Lemma filter_ok op e : plan_typed op sg -> clause_ok e -> (forall x, e = Some x -> bound_ok bindings [] x) ->
  exists op', match e with Some h => build_filter_ op h ctx | None => Some op end = Some op' /\ plan_typed op' sg.
Proof using Ht HL.
  intros Hop Hc Hb. destruct e as [e|]; [|by exists op]. destruct (Hc e eq_refl) as [He Hty].
  destruct (lower_ok [] e (Hb e eq_refl) He) as (x & Hx & Hw & Tx & _).
  exists (PFilter op x). unfold build_filter_. rewrite Hx. split; [done|]. apply typed_filter; congruence.
Qed.

Lemma lower_order_ok projs e : Forall (fun p => bound_ok bindings [] (bound.bp_expr p)) projs ->
  Forall (fun p => evaluable (bound.bp_expr p)) projs -> order_ok bindings projs e -> evaluable e ->
  exists x, lower ctx projs e = Some x /\ well_typed sg x.
Proof using Ht HL.
  intros Hps Hes [Ho | (i & p & t & -> & Hp)] He.
  - destruct (lower_ok projs e Ho He) as (x & Hx & Hw & _). eauto.
  - apply (Forall_lookup_1 _ _ _ _ Hps) in Hp as Ho. apply (Forall_lookup_1 _ _ _ _ Hes) in Hp as Hev.
    destruct (lower_typed ctx projs 0 _ _ _ HL Ht Ho Hev) as (x & Hx & Bx & Rx & _). exists x. split; [|done].
    unfold lower. cbn. by rewrite Hp.
Qed.

Lemma sort_ok op stmt : bound.bs_bindings stmt = bindings -> select_ok stmt -> select_evaluable stmt -> plan_typed op sg ->
  exists op', match bound.bs_order_by stmt with [] => Some op | _ => build_sort_ op stmt ctx end = Some op' /\
    plan_typed op' sg.
Proof using Ht HL.
  intros Eb Hs He Hop. destruct (bound.bs_order_by stmt) as [|o os] eqn:Eo; [by exists op|].
  unfold build_sort_. edestruct (mapM_typed (fun o => let! x := lower ctx (bound.bs_projections stmt) (bound.bo_expr o) in
    Some (x, if bound.bo_ascending o then ASC else DESC)) (fun _ k => well_typed sg (fst k))) as (ks & -> & Hks).
  { apply Forall_forall. intros q Hq.
    destruct (lower_order_ok (bound.bs_projections stmt) (bound.bo_expr q)) as (x & -> & Hx); [| | | |by eexists].
    - rewrite <- Eb. apply Hs.
    - apply He.
    - rewrite <- Eb. by apply (proj1 (Forall_forall _ _) (so_order _ Hs)).
    - by apply (proj1 (Forall_forall _ _) (se_order _ He)). }
  cbn. eexists. split; [done|]. apply typed_sort; [done| |].
  - intros ->. rewrite Eo in Hks. by inversion Hks.
  - clear -Hks. by induction Hks; constructor.
Qed.

Lemma project_ok op stmt : bound.bs_bindings stmt = bindings -> select_ok stmt -> select_evaluable stmt -> plan_typed op sg ->
  exists op', build_project_ op stmt ctx = Some op' /\
    plan_typed op' (map (fun p => (bound.bound_expr_type (bound.bp_expr p), bound.bound_expr_nullable (bound.bp_expr p)))
      (bound.bs_projections stmt)).
Proof using Ht HL.
  intros Eb Hs He Hop. unfold build_project_.
  edestruct (mapM_typed (fun p => let! x := lower ctx (bound.bs_projections stmt) (bound.bp_expr p) in
      Some (x, projection_name stmt p, bound.bound_expr_nullable (bound.bp_expr p)))
    (fun p i => well_typed sg (fst (fst i)) /\ output_type (fst (fst i)) = bound.bound_expr_type (bound.bp_expr p) /\
       nullable_of sg (fst (fst i)) = bound.bound_expr_nullable (bound.bp_expr p) /\
       snd i = bound.bound_expr_nullable (bound.bp_expr p))) as (its & -> & His).
  { apply Forall_forall. intros q Hq.
    destruct (lower_ok (bound.bs_projections stmt) (bound.bp_expr q)) as (x & -> & Hw & Tx & Nx); [| |by eexists].
    - rewrite <- Eb. by apply (proj1 (Forall_forall _ _) (so_projections _ Hs)).
    - by apply (proj1 (Forall_forall _ _) (se_projections _ He)). }
  cbn. eexists. split; [done|].
  replace (map _ (bound.bs_projections stmt)) with (project_sig sg (map (fun i => fst (fst i)) its)).
  - apply typed_project; [done|]. clear -His. induction His as [|p i ps its (? & ? & ? & ?)]; constructor; [|done].
    split; congruence.
  - clear -His. unfold project_sig. induction His as [|p i ps its (? & ? & ? & ?)]; cbn; [done|]. f_equal; [|done]. congruence.
Qed.
End Above.

Lemma plan_total_typed stmt : select_ok stmt -> types_ok (bound.bs_bindings stmt) -> select_evaluable stmt ->
  bound.bs_is_aggregated stmt = false ->
  exists r, plan row_count btree_index stmt = Some r /\
    decides (equi_joins 1 (bound.bs_join_predicates stmt)) r (fun p =>
      plan_typed p (map (fun q => (bound.bound_expr_type (bound.bp_expr q), bound.bound_expr_nullable (bound.bp_expr q)))
        (bound.bs_projections stmt))).
Proof.
  intros Hs Ht He Hagg. unfold plan. fold (start_ctx stmt).
  destruct (build_scans_ok stmt Hs Ht) as (r & -> & Hr). cbn.
  destruct r as [[[op ctx] w]|m]; [|by exists (Err m)]. destruct Hr as [Hequi (sg & Hop & HL)].
  assert (Hw : exists op', match bound.bs_where stmt with
      | Some wh => if negb w then build_filter_ op wh ctx else Some op | None => Some op end = Some op' /\ plan_typed op' sg).
  { destruct w; cbn; [exists op; by destruct (bound.bs_where stmt)|].
    apply (filter_ok _ ctx sg Ht HL); [done | apply He | apply Hs]. }
  destruct Hw as (op1 & -> & Hop1). rewrite Hagg. cbn.
  destruct (filter_ok _ ctx sg Ht HL op1 (bound.bs_having stmt)) as (op2 & -> & Hop2); [done | apply He | apply Hs |]. cbn.
  destruct (sort_ok _ ctx sg Ht HL op2 stmt eq_refl Hs He Hop2) as (op3 & -> & Hop3). cbn.
  destruct (project_ok _ ctx sg Ht HL op3 stmt eq_refl Hs He Hop3) as (op4 & -> & Hop4). cbn.
  eexists. split; [done|]. split; [done|]. destruct (bound.bs_limit stmt); [|done]. by apply typed_limit.
Qed.
End Scans.

(** ** The binder establishes [select_ok] *)

Definition opt_lits (e : option ast.Expr) : Prop := forall x, e = Some x -> lits_wf x.

(** The literals of a SELECT. *)
Record select_lits (s : ast.SelectStmt) : Prop := {
  sl_projections : Forall (fun i => lits_wf (ast.si_expr i)) (ast.sel_projections s);
  sl_joins : Forall (fun j => lits_wf (ast.jc_on j)) (ast.sel_joins s);
  sl_where : opt_lits (ast.sel_where s);
  sl_having : opt_lits (ast.sel_having s);
  sl_order : Forall (fun o => lits_wf (ast.ob_expr o)) (ast.sel_order_by s)
}.

Section Select.
Context (source_ : list ascii).

Lemma bind_table_ok r bd : bind_table_ref_ source_ r = Ok bd -> binding_ok bd.
Proof. unfold bind_table_ref_. destruct (schema_of _) as [schema|] eqn:E; [|done]. by intros [= <-]. Qed.

Lemma bind_joins_ok joins : Forall (fun j => lits_wf (ast.jc_on j)) joins -> forall bs bs' ons,
  bind_joins source_ joins bs = Ok (bs', ons) ->
  exists more, bs' = bs ++ more /\ length more = length ons /\ Forall binding_ok more /\
    forall i on, ons !! i = Some on -> bound_ok (take (length bs + S i) bs') [] on.
Proof.
  induction 1 as [|j joins Hj _ IH]; intros bs bs' ons; cbn [bind_joins].
  { intros [= <- <-]. exists []. by rewrite app_nil_r. }
  destruct (bind_table_ref_ source_ (ast.jc_right j)) as [b|] eqn:Eb; [|done].
  destruct (bind_expression _ _ _) as [on|] eqn:Eo; [|done].
  destruct (bind_joins source_ joins (bs ++ [b])) as [[bs1 ons1]|] eqn:Ej; [|done]. intros [= <- <-]. cbn [fst snd].
  apply IH in Ej as (more & -> & Hl & Hok & Hons). exists (b :: more). split_and!.
  - by rewrite <- app_assoc.
  - cbn. lia.
  - constructor; [by eapply bind_table_ok | done].
  - intros [|i] o Ho.
    + injection Ho as <-. apply bind_expression_ok in Eo; [|done].
      rewrite take_app_length' by (rewrite length_app; cbn; lia). exact Eo.
    + specialize (Hons i o Ho). rewrite length_app in Hons. cbn [length] in Hons.
      by replace (length bs + S (S i))%nat with (length bs + 1 + S i)%nat by lia.
Qed.

(** A predicate that more aggregates do not change. *)
Definition stable {A} (P : list bound.BoundAggregate -> A -> Prop) : Prop :=
  forall l m a, P l a -> P (l ++ m) a.

Lemma each_binding_ok {A B} (f : A -> binding B) (P : list bound.BoundAggregate -> B -> Prop) l :
  stable P ->
  Forall (fun a => forall aggs b aggs', f a aggs = Ok (b, aggs') -> P (default [] aggs') b /\ aggs_grow aggs aggs') l ->
  forall aggs bs aggs', each_binding f l aggs = Ok (bs, aggs') ->
  Forall (P (default [] aggs')) bs /\ aggs_grow aggs aggs'.
Proof.
  intros HP. induction 1 as [|a l Ha _ IH]; intros aggs bs aggs' E; cbn [each_binding] in E.
  { injection E as <- <-. split; [constructor | apply aggs_grow_refl]. }
  apply bind_split in E as (b & m1 & Eb & E). apply bind_split in E as (bs' & m2 & Ebs & E). injection E as <- <-.
  apply Ha in Eb as [Hb G1]. apply IH in Ebs as [Hbs G2]. split; [|by eapply aggs_grow_trans].
  constructor; [|done]. destruct m1, m2; try done. destruct G2 as [more ->]. by apply HP.
Qed.

Lemma star_ok bindings : Forall (fun p => bound_ok bindings [] (bound.bp_expr p)) (star_projections bindings).
Proof.
  apply Forall_forall. intros p Hp. unfold star_projections in Hp.
  apply list_elem_of_In, in_concat in Hp as (l & Hl & Hin). apply list_elem_of_In in Hl, Hin.
  apply list_elem_of_lookup in Hl as [b Hb]. rewrite list_lookup_imap in Hb.
  destruct (bindings !! b) as [bd|] eqn:E; simplify_eq/=.
  apply list_elem_of_lookup in Hin as [c Hc]. rewrite list_lookup_imap in Hc.
  destruct (bound.bb_schema bd !! c) as [col|] eqn:Ec; simplify_eq/=. by exists bd, col.
Qed.

Definition proj_ok (bindings : list bound.BoundBinding) (aggs : list bound.BoundAggregate) (p : bound.BoundProjection) : Prop :=
  bound_ok bindings aggs (bound.bp_expr p).

Lemma bind_projections_ok s bindings aggs ps aggs' : select_lits s ->
  bind_projections_ source_ s bindings aggs = Ok (ps, aggs') ->
  Forall (proj_ok bindings (default [] aggs')) ps /\ aggs_grow aggs aggs'.
Proof.
  intros Hl. unfold bind_projections_. destruct (ast.sel_star_projection s).
  - intros [= <- <-]. split; [|apply aggs_grow_refl]. eapply Forall_impl; [apply star_ok|].
    intros p Hp. apply (bound_ok_more bindings [] (default [] aggs)), Hp.
  - apply each_binding_ok; [intros l m a; apply bound_ok_more|].
    eapply Forall_impl; [apply Hl|]. intros i Hi aggs0 b aggs0' E.
    apply bind_split in E as (e & mid & Ee & E). injection E as <- <-.
    by apply (bind_expr_ok bindings source_ _ Hi) in Ee.
Qed.

Definition order_bound (bindings : list bound.BoundBinding) (projs : list bound.BoundProjection)
    (aggs : list bound.BoundAggregate) (o : bound.BoundOrderBy) : Prop :=
  bound_ok bindings aggs (bound.bo_expr o) \/
  exists i p t, bound.bo_expr o = bound.BoundProjectionRef i t /\ projs !! i = Some p.

Lemma order_alias_ok e projs b : order_alias e projs = Some b ->
  exists i p t, b = bound.BoundProjectionRef i t /\ projs !! i = Some p.
Proof.
  destruct e as [| | | | | | |t c l| | | | |]; try done. destruct t; [done|]. cbn.
  destruct (alias_index 0 projs c) as [i|]; [|done]. cbn. destruct (projs !! i) as [p|] eqn:Ep; [|done].
  intros [= <-]. eauto.
Qed.

Lemma bind_order_ok s bindings projs aggs os aggs' : select_lits s ->
  bind_order_by_ source_ s bindings projs aggs = Ok (os, aggs') ->
  Forall (order_bound bindings projs (default [] aggs')) os /\ aggs_grow aggs aggs'.
Proof.
  intros Hl. apply each_binding_ok.
  { intros l m a [Ho|Ho]; [left; by apply bound_ok_more | by right]. }
  eapply Forall_impl; [apply Hl|]. intros i Hi aggs0 b aggs0' E. cbn beta in E.
  destruct (order_alias _ _) as [x|] eqn:Ex.
  - injection E as <- <-. split; [|apply aggs_grow_refl]. right. by apply order_alias_ok in Ex.
  - apply bind_split in E as (e & mid & Ee & E). injection E as <- <-.
    apply (bind_expr_ok bindings source_ _ Hi) in Ee as [He G]. split; [by left | done].
Qed.

Lemma run_split {A} (m : binding A) aggs a aggs' : run_aggregates m aggs = Ok (a, aggs') ->
  exists o, m (Some aggs) = Ok (a, o) /\ aggs' = default [] o.
Proof. unfold run_aggregates. destruct (m (Some aggs)) as [[b o]|]; [|done]. intros [= <- <-]. eauto. Qed.

Lemma aggs_grow_nil a o : aggs_grow (Some a) o -> default [] o = [] -> a = [].
Proof. destruct o as [l|]; [|done]. intros [m ->]. cbn. by intros [? ?]%app_nil. Qed.

Lemma bind_having_ok h bindings aggs e aggs' : opt_lits h ->
  bind_having source_ h bindings aggs = Ok (e, aggs') ->
  (forall x, e = Some x -> bound_ok bindings (default [] aggs') x) /\ aggs_grow aggs aggs'.
Proof.
  intros Hw. destruct h as [h|]; cbn [bind_having]; [|intros [= <- <-]; split; [done | apply aggs_grow_refl]].
  intros E. apply bind_split in E as (x & mid & Ex & E). injection E as <- <-.
  apply (bind_expr_ok bindings source_ _ (Hw h eq_refl)) in Ex as [Hx G]. split; [|done]. by intros y [= <-].
Qed.

Lemma bind_where_ok wh bindings e : opt_lits wh -> bind_where source_ wh bindings = Ok e ->
  forall x, e = Some x -> bound_ok bindings [] x.
Proof.
  intros Hw. destruct wh as [wh|]; cbn [bind_where]; [|by intros [= <-]].
  destruct (bind_expression _ _ _) as [b|] eqn:Eb; [|done]. intros [= <-] x [= <-].
  apply bind_expression_ok in Eb; [done | by apply Hw].
Qed.

Lemma bind_select_ok s stmt : select_lits s -> bind_select source_ s = Ok stmt ->
  bound.bs_aggregates stmt = [] -> select_ok stmt.
Proof.
  intros Hl. unfold bind_select.
  destruct (bind_table_ref_ source_ (ast.sel_from s)) as [from|] eqn:Ef; [|done].
  destruct (bind_joins source_ (ast.sel_joins s) [from]) as [[bindings ons]|] eqn:Ej; [|done]. cbn [fst snd].
  destruct (bind_where _ _ _) as [wh|] eqn:Ew; [|done]. destruct (bind_group_by _ _ _) as [gb|]; [|done].
  destruct (run_aggregates (bind_projections_ _ _ _) _) as [[ps a1]|] eqn:Ep; [|done]. cbn [fst snd].
  destruct (run_aggregates (bind_having _ _ _) _) as [[hv a2]|] eqn:Eh; [|done]. cbn [fst snd].
  match goal with |- (if ?c then _ else _) = _ -> _ => destruct c; [done|] end.
  destruct (run_aggregates (bind_order_by_ _ _ _ _) _) as [[os a3]|] eqn:Eo; [|done]. cbn [fst snd].
  intros [= <-] Hagg. cbn in Hagg.
  apply run_split in Ep as (o1 & Ep & ->), Eh as (o2 & Eh & ->), Eo as (o3 & Eo & ->).
  apply (bind_projections_ok _ _ _ _ _ Hl) in Ep as [Hps G1].
  apply (bind_having_ok _ _ _ _ _ (sl_having _ Hl)) in Eh as [Hhv G2].
  apply (bind_order_ok _ _ _ _ _ _ Hl) in Eo as [Hos G3].
  pose proof (aggs_grow_nil _ _ G3 Hagg) as E2. pose proof (aggs_grow_nil _ _ G2 E2) as E1.
  rewrite Hagg in Hos. rewrite E2 in Hhv. rewrite E1 in Hps.
  apply (bind_joins_ok _ (sl_joins _ Hl)) in Ej as (more & -> & Hlen & Hmore & Hons).
  constructor; cbn.
  - done.
  - constructor; [by eapply bind_table_ok | done].
  - split; [lia|]. intros i on Hi. specialize (Hons i on Hi). cbn [length] in Hons.
    by replace (i + 2)%nat with (1 + S i)%nat by lia.
  - exact (bind_where_ok _ _ _ (sl_where _ Hl) Ew).
  - exact Hhv.
  - exact Hps.
  - exact Hos.
Qed.

(** C7. A SELECT without aggregates that the binder accepts, over tables with storable column types,
    whose clauses are boolean and free of NULL literals and of IS NULL on other types than the
    executor takes ([select_evaluable]): the planner succeeds exactly if every ON condition is a
    conjunction of equalities between a column of the joined table and a column of a table
    before it.  The plan is then well typed: every column that an expression refers to is the one
    that the scans and joins put at this position, join keys have equal types, and the output has
    the types and nullability that the binder gave to the SELECT list. *)
Theorem select_plan_typed row_count btree_index s stmt :
  bind_select source_ s = Ok stmt -> select_lits s -> types_ok (bound.bs_bindings stmt) ->
  bound.bs_is_aggregated stmt = false -> bound.bs_aggregates stmt = [] -> select_evaluable stmt ->
  exists r, plan row_count btree_index stmt = Some r /\
    decides (equi_joins 1 (bound.bs_join_predicates stmt)) r (fun p =>
      plan_typed p (map (fun q => (bound.bound_expr_type (bound.bp_expr q), bound.bound_expr_nullable (bound.bp_expr q)))
        (bound.bs_projections stmt))).
Proof. intros Hb Hl Ht Hagg Ha He. apply plan_total_typed; try done. by eapply bind_select_ok. Qed.
End Select.
End Plans.

(** ** Columns outside GROUP BY *)

Section Ungrouped.
Context `{CatalogView} (row_count : string -> Z) (btree_index : string -> string -> bool).

Lemma group_map_ungrouped r gb : forall i m m', group_map i gb m = Some m' ->
  m !! (bound.binding_id r, bound.column_idx r) = None ->
  has_ungrouped_col_ (bound.BoundColumnRef r) gb = true ->
  m' !! (bound.binding_id r, bound.column_idx r) = None.
Proof.
  induction gb as [|g gb IH]; intros i m m' E Hm Hu; [by injection E as <-|].
  destruct g as [| | | | | | |q| | | | | |]; try done. cbn in E, Hu.
  apply negb_true_iff, orb_false_iff in Hu as [Hq Hu]. apply (IH _ _ _ E).
  - rewrite lookup_insert_ne; [done|]. intros [= E1 E2]. rewrite E1, E2, !Nat.eqb_refl in Hq. done.
  - cbn. by rewrite Hu.
Qed.

Lemma lower_binary ctx projs n op l r ot rt :
  lower_expr_ ctx projs n (bound.BoundBinaryOp op l r ot rt) =
    (let! a := lower_expr_ ctx projs n l in let! b := lower_expr_ ctx projs n r in Some (BinaryOp op a b)).
Proof. by destruct n. Qed.

Lemma lower_logical ctx projs n op l r :
  lower_expr_ ctx projs n (bound.BoundLogicalOp op l r) =
    (let! a := lower_expr_ ctx projs n l in let! b := lower_expr_ ctx projs n r in Some (LogicalOp op a b)).
Proof. by destruct n. Qed.

Lemma lower_ungrouped ctx gb m projs n e :
  group_map 0 gb ∅ = Some m -> post_aggregate ctx = true -> group_col_map ctx = m ->
  has_ungrouped_col_ e gb = true -> lower_expr_ ctx projs n e = None.
Proof.
  intros Hm Hp <-.
  induction e as [| | | | | | |r| | |op l IHl r IHr ot rt|op l IHl r IHr|c IH|k c IH]; intros Hu; try done.
  - assert (group_col_map ctx !! (bound.binding_id r, bound.column_idx r) = None) as Hr
      by (by eapply group_map_ungrouped; [exact Hm | apply lookup_empty |]).
    destruct n; cbn; by rewrite Hp, Hr.
  - cbn in Hu. apply orb_true_iff in Hu. rewrite lower_binary.
    destruct (lower_expr_ ctx projs n l), (lower_expr_ ctx projs n r); naive_solver.
  - cbn in Hu. apply orb_true_iff in Hu. rewrite lower_logical.
    destruct (lower_expr_ ctx projs n l), (lower_expr_ ctx projs n r); naive_solver.
  - destruct n; cbn in *; by rewrite IH.
  - destruct n; cbn in *; by rewrite IH.
Qed.

(** An expression that is evaluated on the groups: the HAVING clause or an ORDER BY key. *)
Definition after_grouping (stmt : bound.BoundSelect) (e : bound.BoundExpr) : Prop :=
  bound.bs_having stmt = Some e \/ exists asc, bound.mkOrderBy e asc ∈ bound.bs_order_by stmt.

(** The scans and joins leave the group keys alone. *)
Lemma join_on_ctx build probe on ctx b p c : join_on build probe on ctx b = Some (Ok (p, c)) -> c = ctx.
Proof.
  unfold join_on. destruct (decompose_on_ on ctx b) as [[[pk bk]|m]|]; cbn; try done. by intros [= _ <-].
Qed.

Lemma build_joins_groups bindings : forall b ons n op ctx p c,
  build_joins b bindings ons n op ctx = Some (Ok (p, c)) -> group_col_map c = group_col_map ctx.
Proof.
  induction bindings as [|bd bindings IH]; intros b ons n op ctx p c; cbn [build_joins]; [by intros [= _ <-]|].
  destruct ons as [|on ons]; [done|]. unfold build_join_. destruct (make_scan bd) as [scan|]; [|done].
  destruct (join_on scan op on _ b) as [[[op' ctx']|m]|] eqn:Ej; cbn; try done.
  intros Hb. rewrite (IH _ _ _ _ _ _ _ Hb). by rewrite (join_on_ctx _ _ _ _ _ _ _ Ej).
Qed.

Lemma build_scans_groups stmt ctx p c w :
  build_scans_ row_count btree_index stmt ctx = Some (Ok (p, c, w)) -> group_col_map c = group_col_map ctx.
Proof.
  unfold build_scans_. destruct (bound.bs_bindings stmt) as [|b0 [|b1 rest]]; [done|..];
    destruct (make_scan b0) as [scan0|]; try done.
  - destruct (mbind _ _) as [[[idx lo] hi]|]; by intros [= _ <- _].
  - destruct (make_scan b1) as [scan1|]; [|done]. destruct (bound.bs_join_predicates stmt) as [|on ons]; [done|].
    destruct (_ <=? _);
      (match goal with |- context [join_on ?a ?b ?o ?x ?i] => destruct (join_on a b o x i) as [[[op ctx']|m]|] eqn:Ej end;
       cbn; try done; destruct (build_joins _ _ _ _ _ _) as [[[op2 ctx2]|m]|] eqn:Eb; cbn; try done;
       intros [= _ <- _]; rewrite (build_joins_groups _ _ _ _ _ _ _ _ Eb); by rewrite (join_on_ctx _ _ _ _ _ _ _ Ej)).
Qed.

Lemma aggregate_ctx child stmt ctx op c : build_aggregate_ child stmt ctx = Some (op, c) ->
  post_aggregate c = true /\ group_map 0 (bound.bs_group_by stmt) (group_col_map ctx) = Some (group_col_map c).
Proof.
  unfold build_aggregate_. destruct (mapM _ (bound.bs_group_by stmt)); cbn; [|done].
  destruct (mapM _ (bound.bs_aggregates stmt)); cbn; [|done].
  destruct (group_map _ _ _) as [m|]; cbn; [|done]. by intros [= _ <-].
Qed.

Lemma mapM_fails {A B} (f : A -> option B) l x : x ∈ l -> f x = None -> mapM f l = None.
Proof.
  intros Hx Hf. destruct (mapM f l) as [ys|] eqn:E; [|done]. apply mapM_Some_1 in E.
  apply list_elem_of_lookup in Hx as [i Hi]. destruct (Forall2_lookup_l _ _ _ _ _ E Hi) as (y & _ & Hy). congruence.
Qed.

(** An aggregated query whose HAVING clause or an ORDER BY key holds a column that is not in GROUP
    BY has no plan, although the binder checks only the SELECT list for such columns: the lookup in
    [group_col_map] throws. *)
Theorem ungrouped_column_throws stmt e p :
  bound.bs_is_aggregated stmt = true -> after_grouping stmt e ->
  has_ungrouped_col_ e (bound.bs_group_by stmt) = true ->
  plan row_count btree_index stmt <> Some (Ok p).
Proof.
  intros Hagg He Hu. unfold plan. rewrite Hagg.
  destruct (build_scans_ _ _ _ _) as [[[[op ctx] w]|m]|] eqn:Es; cbn; try done.
  apply build_scans_groups in Es. cbn in Es.
  destruct (match bound.bs_where stmt with Some _ => _ | None => _ end) as [op1|]; cbn; [|done].
  destruct (build_aggregate_ op1 stmt ctx) as [[op2 ctx2]|] eqn:Ea; cbn; [|done].
  apply aggregate_ctx in Ea as [Hpost Hm]. rewrite Es in Hm.
  assert (Hlow : forall projs, lower ctx2 projs e = None)
    by (intros projs; by apply (lower_ungrouped _ (bound.bs_group_by stmt) (group_col_map ctx2))).
  destruct He as [Hh | [asc Ho]].
  - rewrite Hh. unfold build_filter_. by rewrite Hlow.
  - destruct (match bound.bs_having stmt with Some _ => _ | None => _ end) as [op3|]; cbn; [|done].
    assert (build_sort_ op3 stmt ctx2 = None) as Hs.
    { unfold build_sort_. rewrite (mapM_fails _ _ _ Ho); [done|]. cbn [bound.bo_expr]. by rewrite Hlow. }
    destruct (bound.bs_order_by stmt); [by apply elem_of_nil in Ho|]. by rewrite Hs.
Qed.
End Ungrouped.

(** ** An example *)

(** [SELECT a, n FROM t JOIN u ON b = a WHERE d > 1.5 ORDER BY s DESC LIMIT 3], where [t] has no
    more rows than [u] and becomes the build side. *)
Definition sample_query : ast.SelectStmt :=
  let col (c : string) := ast.ColumnRef None c no_loc in
  ast.mkSelectStmt [ast.mkSelectItem (col "a") None; ast.mkSelectItem (col "n") (Some "m")] false
    (ast.mkTableRef "t" None no_loc)
    [ast.mkJoinClause (ast.mkTableRef "u" None no_loc) (ast.BinaryOp EQ (col "b") (col "a") no_loc)]
    (Some (ast.BinaryOp GT (col "d") (ast.DoubleLit 4609434218613702656 no_loc) no_loc))
    [] None [ast.mkOrderByItem (col "s") false] (Some 3) None.

(** [SELECT s, COUNT(a) FROM t GROUP BY s ORDER BY a]: bound, but the planner throws. *)
Definition sample_grouped : string := "SELECT s, COUNT(a) FROM t GROUP BY s ORDER BY a".

Lemma ungrouped_column_throws_witness :
  plan_text sample_grouped = Thrown "plan" /\
  exists stmt pos, bind_text sample_grouped = Done (Some (bound.BSelect stmt)) pos /\
    forall p, @plan sample_catalog (fun _ => 0) (fun _ _ => true) stmt <> Some (Ok p).
Proof.
  split; [vm_compute; reflexivity|]. eexists _, _. split; [vm_compute; reflexivity|]. intros p.
  apply (@ungrouped_column_throws sample_catalog (fun _ => 0) (fun _ _ => true) _
    (bound.BoundColumnRef (bound.mkRef 0 0 INT32 true))); [reflexivity | right; exists true; by left | reflexivity].
Defined.

Lemma select_plan_typed_witness :
  exists stmt p, @bind_select sample_catalog [] sample_query = Ok stmt /\
    @plan sample_catalog (fun _ => 0) (fun _ _ => true) stmt = Some (Ok p) /\
    @plan_typed sample_catalog p [(INT32, true); (INT64, false)].
Proof.
  destruct (@bind_select sample_catalog [] sample_query) as [stmt|m] eqn:E; [|discriminate E].
  exists stmt. pose proof (@select_plan_typed sample_catalog [] (fun _ => 0) (fun _ _ => true) sample_query stmt E) as Hp.
  vm_compute in E. injection E as <-.
  destruct Hp as (r & Hr & Hp).
  - constructor; cbn; try by repeat constructor. 1: intros x [= <-]; cbn; unfold in_u; split; [done|lia].
  - by repeat constructor.
  - reflexivity.
  - reflexivity.
  - constructor; cbn; try by repeat constructor. 1: intros x [= <-]; by repeat constructor.
  - destruct r as [p|m]; [|vm_compute in Hr; discriminate Hr].
    exists p. split; [reflexivity|]. split; [exact Hr|]. exact (proj2 Hp).
Defined.
