(* ===== verification/PlanIndex.v ===== *)
(** * The range of an index scan

    [try_index_scan_] replaces the WHERE clause of a single table by a range of keys of an
    index, and [plan] drops the clause then.  For the values that an index can order the range
    holds exactly the rows that satisfy the clause ([index_range_exact]); rows with NULL are in
    a range without lower bound although the clause is not true of them
    ([index_range_keeps_nulls]), and a string is compared by as many bytes as the column can
    hold ([index_range_cuts_strings]). *)

From Stdlib Require Import Ascii.
From S2P Require Import Prelude Types ColumnPage ConstraintFile ShardMapFile BTreeNode BTreeSpec.
From S2P Require Import Table ColumnVector Chunk Expression HashAggregate IndexFile Lexer Ast.
From S2P Require Import Literals Dates Parser Bound Binder Planner Frontend BinderTypes.

(** The truth of a comparison, given the order of the operands. *)
Definition cmp_holds (op : BinaryOpKind) (c : comparison) : bool :=
  match op, c with
  | LT, Lt | LE, (Lt | Eq) | EQ, Eq | GE, (Gt | Eq) | GT, Gt | NE, (Lt | Gt) => true
  | _, _ => false
  end.

(** Not longer than the column. *)
Definition str_fits (s : IndexColSpec) (v : Value) : Prop :=
  match v with VStr str => strlen str <= is_max_len s | _ => True end.

Lemma num_cmp_int w n op a b :
  is_comparison op = true -> num_cmp (nt_int w n) op a b = cmp_holds op (a ?= b).
Proof.
  intros Hop. destruct op; try done; cbn [num_cmp nt_int nt_lt nt_le nt_eq];
    destruct (Z.compare_spec a b); cbn; lia.
Qed.

Lemma num_cmp_f64 `{Fpu} op a b :
  is_comparison op = true -> f64_is_nan a = false -> f64_is_nan b = false ->
  num_cmp nt_f64 op a b = cmp_holds op (f64_key a ?= f64_key b).
Proof.
  intros Hop Ha Hb. destruct op; try done; cbn [num_cmp nt_f64 nt_lt nt_le nt_eq];
    unfold f64_le, f64_lt, f64_eq; rewrite Ha, Hb; cbn [negb andb];
    destruct (Z.compare_spec (f64_key a) (f64_key b)); cbn; lia.
Qed.

Lemma rank_str s a b : strlen a <= is_max_len s -> strlen b <= is_max_len s ->
  values_cmp [s] [VStr a] [VStr b] = string_cmp a b.
Proof.
  intros Ha Hb. unfold values_cmp, values_rank. cbn [zip_with concat value_rank].
  assert (Ht : forall c, strlen c <= is_max_len s ->
    take (Z.to_nat (is_max_len s)) (bytes_of_string c) = bytes_of_string c).
  { intros c Hc. apply take_ge. unfold strlen in Hc. rewrite length_bytes_of_string. lia. }
  rewrite !Ht by done. rewrite <- !app_comm_cons, bytes_cmp_cons, bytes_cmp_end.
  - unfold string_cmp. cbn. by destruct (bytes_cmp _ _).
  - eapply Forall_impl; [apply bytes_of_string_is_byte|]. unfold is_byte. lia.
  - eapply Forall_impl; [apply bytes_of_string_is_byte|]. unfold is_byte. lia.
Qed.

(** The comparison of the executor is the order of the index. *)
Lemma scalar_cmp_rank `{Fpu} s op x v :
  is_comparison op = true -> spec_ok s -> key_value_ok s x -> key_value_ok s v ->
  str_fits s x -> str_fits s v -> x <> VNull -> v <> VNull ->
  scalar_op op x v = Some (Ok (truth (cmp_holds op (values_cmp [s] [x] [v])))).
Proof.
  intros Hop Hs [?|(Tx & _ & Nx)] [?|(Tv & _ & Nv)] Fx Fv Hx Hv; try done.
  rewrite <- Tx in Tv. unfold spec_ok in Hs. rewrite <- Tx in Hs.
  destruct x, v; try done; cbn [scalar_op variant_type num_type_of number].
  all: try (unfold scalar_num, values_cmp, values_rank, nt_i32, nt_i64;
    cbn [zip_with concat value_rank app bytes_cmp]; rewrite Z.compare_refl;
    first [rewrite num_cmp_f64 by done | rewrite num_cmp_int by done];
    destruct op; try done; cbn; by destruct (_ ?= _)).
  rewrite rank_str by done. unfold str_cmp. done.
Qed.

(** ** The range and the clause *)

(** The columns of a single table are at offset 0. *)
Definition table_ctx : ColCtx := mkCtx [0%nat] false 0 ∅.

(** The column that a clause compares with a literal. *)
Definition clause_column (wh : bound.BoundExpr) : option nat :=
  match wh with
  | bound.BoundBinaryOp _ l r _ _ => c ← column_literal l r; Some (fst (fst c))
  | _ => None
  end.

(** The keys of a bound can be compared in the column. *)
Definition bound_fits (s : IndexColSpec) (b : option Bound) : Prop :=
  match b with Some (k, _) => Forall (fun v => key_value_ok s v /\ str_fits s v) k | None => True end.

Lemma values_cmp_opp s x v : values_cmp [s] [v] [x] = CompOpp (values_cmp [s] [x] [v]).
Proof. apply bytes_cmp_antisym. Qed.

(** [key_range] turns the operator around when the column is on the right. *)
Lemma key_range_holds op left_ v s x lo hi :
  key_range op left_ v = Some (lo, hi) ->
  within [s] lo hi [x] =
    cmp_holds op (if left_ then values_cmp [s] [x] [v] else values_cmp [s] [v] [x]).
Proof.
  intros E. rewrite (values_cmp_opp s x v).
  destruct op, left_; try done; injection E as <- <-; unfold within;
    destruct (values_cmp [s] [x] [v]); reflexivity.
Qed.

Lemma key_range_key op left_ v lo hi : key_range op left_ v = Some (lo, hi) ->
  is_comparison op = true /\ forall s, bound_fits s lo -> bound_fits s hi -> key_value_ok s v /\ str_fits s v.
Proof.
  intros E. destruct op, left_; try done; injection E as <- <-; (split; [done|]); intros s H1 H2;
    first [exact (proj1 (Forall_singleton _ _) H1) | exact (proj1 (Forall_singleton _ _) H2)].
Qed.

Lemma extract_lower ctx projs n e v : extract_literal_ e = Some v ->
  lower_expr_ ctx projs n e = Some (Literal v) /\ v <> VNull.
Proof.
  destruct e; try done; intros [= <-]; split; try by destruct n. unfold lower_int. by destruct (bool_decide _).
Qed.

Lemma column_literal_lower l r col v left_ :
  column_literal l r = Some (col, v, left_) ->
  v <> VNull /\ exists t,
    (if left_ then lower table_ctx [] l else lower table_ctx [] r) = Some (ColumnRef col t) /\
    (if left_ then lower table_ctx [] r else lower table_ctx [] l) = Some (Literal v).
Proof.
  assert (Hcol : forall e c, match e with
      | bound.BoundColumnRef q => if (bound.binding_id q =? 0)%nat then Some (bound.column_idx q) else None
      | _ => None end = Some c -> exists t, lower table_ctx [] e = Some (ColumnRef c t)).
  { intros e c E. destruct e as [| | | | | | |q| | | | | |]; try done.
    destruct (bound.binding_id q =? 0)%nat eqn:Eq; [|done]. apply Nat.eqb_eq in Eq. injection E as <-.
    exists (bound.ref_type q). unfold lower. cbn. by rewrite Eq. }
  unfold column_literal. intros E.
  destruct (match l with bound.BoundColumnRef q => _ | _ => None end) as [c|] eqn:El.
  - destruct (extract_literal_ r) as [w|] eqn:Ew; [|done]. injection E as <- <- <-.
    apply (extract_lower table_ctx [] 1) in Ew as [Ew Hw]. apply Hcol in El as [t El]. eauto.
  - destruct (match r with bound.BoundColumnRef q => _ | _ => None end) as [c|] eqn:Er; [|done].
    destruct (extract_literal_ l) as [w|] eqn:Ew; [|done]. injection E as <- <- <-.
    apply (extract_lower table_ctx [] 1) in Ew as [Ew Hw]. apply Hcol in Er as [t Er]. eauto.
Qed.

Section Choice.
Context `{Fpu} `{CatalogView} (btree_index : string -> string -> bool).

Lemma try_index_scan_inv b wh idx lo hi :
  try_index_scan_ btree_index b wh = Some (idx, lo, hi) ->
  exists op l r ot rt col v left_, wh = bound.BoundBinaryOp op l r ot rt /\
    column_literal l r = Some (col, v, left_) /\
    index_on btree_index (bound.bb_table_name b) col = Some idx /\ key_range op left_ v = Some (lo, hi).
Proof.
  unfold try_index_scan_. destruct wh as [| | | | | | | | | |op l r ot rt| | |]; try done. intros E.
  assert (E' : (c ← column_literal l r; let '(col, v, left_) := c in
    idx ← index_on btree_index (bound.bb_table_name b) col;
    rg ← key_range op left_ v; Some (idx, fst rg, snd rg)) = Some (idx, lo, hi)) by (by destruct op).
  destruct (column_literal l r) as [[[col v] left_]|] eqn:Ec; [|done]. cbn in E'.
  destruct (index_on _ _ _) as [i|] eqn:Ei; [|done]. cbn in E'.
  destruct (key_range op left_ v) as [[lo' hi']|] eqn:Er; [|done]. cbn in E'. injection E' as <- <- <-.
  by exists op, l, r, ot, rt, col, v, left_.
Qed.

(** C14. When the planner answers the WHERE clause of a single table from an index, the index is one
    on a column of the clause alone. When the literal of the clause fits the column (it has its type, is
    not NaN and, as a string, is not longer than the column), then for every row whose value in the
    column is not NULL, is not NaN and fits the column too, the clause evaluates to true exactly if the
    key lies between the bounds given to the index scan, on whichever side of the operator the
    column stands. Without these conditions it need not: see [index_range_cuts_strings] for a longer
    literal and [index_range_keeps_nulls] for NULL. *)
Theorem index_range_exact b wh idx lo hi :
  try_index_scan_ btree_index b wh = Some (idx, lo, hi) ->
  exists col e, clause_column wh = Some col /\ index_on btree_index (bound.bb_table_name b) col = Some idx /\
    lower table_ctx [] wh = Some e /\
    forall s r x, spec_ok s -> bound_fits s lo -> bound_fits s hi ->
      r !! col = Some x -> key_value_ok s x -> str_fits s x -> x <> VNull ->
      eval_row e r = Some (Ok (truth (within [s] lo hi [x]))).
Proof.
  intros (op & l & r & ot & rt & col & v & left_ & -> & Hc & Hi & Hk)%try_index_scan_inv.
  destruct (column_literal_lower _ _ _ _ _ Hc) as (Hv & t & H1 & H2).
  destruct (key_range_key _ _ _ _ _ Hk) as [Hop Hfit].
  exists col, (if left_ then BinaryOp op (ColumnRef col t) (Literal v) else BinaryOp op (Literal v) (ColumnRef col t)).
  split; [cbn; by rewrite Hc|]. split; [done|]. split.
  { unfold lower in *. cbn in *. by destruct left_; rewrite H1, H2. }
  intros s row x Hs Hlo Hhi Hx Hkx Hfx Hn. destruct (Hfit s Hlo Hhi) as [Hkv Hfv].
  rewrite (key_range_holds _ _ _ s x _ _ Hk).
  destruct left_; cbn; rewrite Hx; cbn; by apply scalar_cmp_rank.
Qed.

(** C36. The index order has NULL first, so the scan for [<] or [<=], which has no lower bound, returns
    the rows with NULL in the column, although the clause evaluates to NULL there; the clause
    itself is not part of the plan any more ([where_consumed]). *)
Theorem index_range_keeps_nulls row_count stmt b wh idx hi ctx :
  bound.bs_bindings stmt = [b] -> bound.bs_where stmt = Some wh -> has_table (bound.bb_table_name b) = true ->
  try_index_scan_ btree_index b wh = Some (idx, None, hi) ->
  build_scans_ row_count btree_index stmt ctx =
    Some (Ok (PIndexScan (bound.bb_table_name b) idx (all_columns b) None hi, ctx, true)) /\
  exists col e, clause_column wh = Some col /\ index_on btree_index (bound.bb_table_name b) col = Some idx /\
    lower table_ctx [] wh = Some e /\
    forall s r, bound_fits s hi -> r !! col = Some VNull ->
      within [s] None hi [VNull] = true /\ eval_row e r = Some (Ok VNull).
Proof.
  intros Hb Hw Ht Htry. split.
  { unfold build_scans_, make_scan. rewrite Hb, Ht, Hw. cbn. by rewrite Htry. }
  destruct (try_index_scan_inv _ _ _ _ _ Htry) as (op & l & r & ot & rt & col & v & left_ & -> & Hc & Hi & Hk).
  destruct (column_literal_lower _ _ _ _ _ Hc) as (Hv & t & H1 & H2).
  exists col, (if left_ then BinaryOp op (ColumnRef col t) (Literal v) else BinaryOp op (Literal v) (ColumnRef col t)).
  split; [cbn; by rewrite Hc|]. split; [done|]. split.
  { unfold lower in *. cbn in *. by destruct left_; rewrite H1, H2. }
  intros s row Hfit Hx. split.
  - assert (hi = Some ([v], true) \/ hi = Some ([v], false)) as Hhi.
    { destruct op, left_; try done; injection Hk as <-; auto. }
    unfold within, values_cmp, values_rank. destruct Hhi as [-> | ->], v; done.
  - destruct left_; cbn; rewrite Hx; cbn; [by destruct v | by destruct v].
Qed.
End Choice.

(** ** Examples *)

Definition sample_binding (name : string) (schema : Schema) : bound.BoundBinding := bound.mkBinding name name schema.

Definition sample_clause (op : BinaryOpKind) (e : bound.BoundExpr) : bound.BoundExpr :=
  bound.BoundBinaryOp op (bound.BoundColumnRef (bound.mkRef 0 0 INT32 true)) e INT32 INT32.

Lemma index_range_exact_witness :
  exists e, lower table_ctx [] (sample_clause GE (bound.BoundIntLit 5 INT32)) = Some e /\
    eval_row e [VI32 7] = Some (Ok (truth (within [mkSpec INT32 0 0] (Some ([VI32 5], true)) None [VI32 7]))).
Proof.
  destruct (@index_range_exact default_fpu sample_catalog (fun _ _ => true) (sample_binding "t" sample_columns)
    (sample_clause GE (bound.BoundIntLit 5 INT32)) "t_a" (Some ([VI32 5], true)) None eq_refl)
    as (col & e & Hc & Hi & He & Hr).
  exists e. split; [exact He|]. injection Hc as <-. apply Hr; try done.
  - apply Forall_singleton. split; [right|]; done.
  - by right.
Defined.

Definition sample_select (wh : bound.BoundExpr) : bound.BoundSelect :=
  bound.mkSelect [sample_binding "t" sample_columns] [] (Some wh) [] [] None [] [] None None false.

Lemma index_range_keeps_nulls_witness :
  exists e, lower table_ctx [] (sample_clause LT (bound.BoundIntLit 5 INT32)) = Some e /\
    within [mkSpec INT32 0 0] None (Some ([VI32 5], false)) [VNull] = true /\ eval_row e [VNull] = Some (Ok VNull).
Proof.
  destruct (@index_range_keeps_nulls default_fpu sample_catalog (fun _ _ => true) (fun _ => 0)
    (sample_select (sample_clause LT (bound.BoundIntLit 5 INT32))) (sample_binding "t" sample_columns)
    (sample_clause LT (bound.BoundIntLit 5 INT32)) "t_a" (Some ([VI32 5], false)) table_ctx
    eq_refl eq_refl eq_refl eq_refl) as (_ & col & e & Hc & Hi & He & Hr).
  exists e. split; [exact He|]. injection Hc as <-. apply Hr; [|done].
  apply Forall_singleton. split; [right|]; done.
Defined.

(** A string longer than the column compares by its prefix: ['abcd'] equals ['abc'] in a
    [VARCHAR(3)], in the index only. *)
Example index_range_cuts_strings :
  let s := mkSpec VARCHAR 0 3 in
  within [s] (Some ([VStr "abcd"], true)) (Some ([VStr "abcd"], true)) [VStr "abc"] = true /\
  @eval_row default_fpu (BinaryOp EQ (ColumnRef 0 VARCHAR) (Literal (VStr "abcd"))) [VStr "abc"] = Some (Ok (VI32 0)).
Proof. by vm_compute. Qed.
