(* ===== verification/Catalog.v ===== *)
(** * Catalog

    [Catalog] (src/src/catalog/catalog.h, catalog.cpp): the tables with their indexes, the log,
    and the recovery from the log at start.  A catalog is modelled together with the files that
    only it writes: [cat_wal_file] is wal.bin while no writer is open, [cat_meta] holds the small
    files of each table directory.  [disk_of] is what a later [load] finds.  As in the model of
    tables, system calls succeed; [None] stands for an exception or undefined behaviour.  The
    tables are visited in the order of [map_to_list], one of the orders that the hash map of the
    code may have; it matters only for which of several errors is reported. *)

From S2P Require Import Prelude Types XXHash Page LruK BufferPool ColumnPage ColumnFile Codec.
From S2P Require Import IndexFile BTreeNode BTree BTreeSpec Wal SchemaFile ConstraintFile ShardMapFile Table.
From S2P Require Import ColumnVector Chunk Expression HashAggregate TableScan IndexScan.
From S2P Require Import Lexer Ast Literals Parser Bound Binder.

(** ** State *)

(** schema.bin, constraints.bin, shard_map.bin and lsn.bin of a table directory. *)
Record MetaFiles : Type := mkMetaFiles {
  mf_schema : bytes; mf_constraints : option bytes; mf_shard_map : option bytes; mf_lsn : option bytes }.

Record Catalog : Type := mkCatalog {
  data_root_ : string;
  cat_tables : gmap string Table;
  cat_wal : option WalWriter;
  cat_wal_file : option bytes;
  constraint_meta_ : gmap string (list ConstraintMeta);
  cat_index_meta : gmap string (list IndexMeta);
  indexes_ : gmap string (list IndexFile);
  cat_shard_maps : gmap string ShardMapMeta;
  cat_meta : gmap string MetaFiles;
  replay_mode_ : bool
}.

Definition set_tables (c : Catalog) (ts : gmap string Table) : Catalog :=
  mkCatalog (data_root_ c) ts (cat_wal c) (cat_wal_file c) (constraint_meta_ c) (cat_index_meta c)
    (indexes_ c) (cat_shard_maps c) (cat_meta c) (replay_mode_ c).
Definition set_wal (c : Catalog) (w : option WalWriter) (file : option bytes) : Catalog :=
  mkCatalog (data_root_ c) (cat_tables c) w file (constraint_meta_ c) (cat_index_meta c)
    (indexes_ c) (cat_shard_maps c) (cat_meta c) (replay_mode_ c).
Definition set_indexes (c : Catalog) (metas : gmap string (list IndexMeta)) (ixs : gmap string (list IndexFile)) : Catalog :=
  mkCatalog (data_root_ c) (cat_tables c) (cat_wal c) (cat_wal_file c) (constraint_meta_ c) metas
    ixs (cat_shard_maps c) (cat_meta c) (replay_mode_ c).
Definition set_constraints (c : Catalog) (cs : gmap string (list ConstraintMeta)) (ms : gmap string MetaFiles) : Catalog :=
  mkCatalog (data_root_ c) (cat_tables c) (cat_wal c) (cat_wal_file c) cs (cat_index_meta c)
    (indexes_ c) (cat_shard_maps c) ms (replay_mode_ c).
Definition set_shard_maps (c : Catalog) (sm : gmap string ShardMapMeta) (ms : gmap string MetaFiles) : Catalog :=
  mkCatalog (data_root_ c) (cat_tables c) (cat_wal c) (cat_wal_file c) (constraint_meta_ c) (cat_index_meta c)
    (indexes_ c) sm ms (replay_mode_ c).

Definition set_table (c : Catalog) (name : string) (t : Table) : Catalog :=
  set_tables c (<[name := t]> (cat_tables c)).

(** What the binder sees. *)
Definition catalog_view (c : Catalog) : CatalogView := {|
  tables_ := schema_ <$> cat_tables c;
  index_meta_ := cat_index_meta c;
  shard_maps_ := cat_shard_maps c
|}.

(** ** Checkpoints *)

Record LsnCheckpoint : Type := mkLsn { lsn : Z; lsn_rows : Z }.

Definition read_lsn (f : option bytes) : LsnCheckpoint :=
  match f with
  | None => mkLsn 0 0
  | Some b => if zlen b <? 16 then mkLsn 0 0 else mkLsn (wal_read_u64 (take 8 b)) (wal_read_u64 (take 8 (drop 8 b)))
  end.

Definition write_lsn (cp : LsnCheckpoint) (m : MetaFiles) : MetaFiles :=
  mkMetaFiles (mf_schema m) (mf_constraints m) (mf_shard_map m)
    (Some (wal_put_u64 (lsn cp) ++ wal_put_u64 (lsn_rows cp))).

(** ** Log and tables *)

Definition ensure_wal_ (c : Catalog) : WalWriter :=
  match cat_wal c with Some w => w | None => writer_open (cat_wal_file c) end.

Definition set_writer (c : Catalog) (w : WalWriter) : Catalog := set_wal c (Some w) (cat_wal_file c).

(** [existing] is the directory found at the path of the new table. *)
Definition create_table_ (existing : TableFiles) (c : Catalog) (name : string) (schema : Schema) :
    result unit * Catalog :=
  let canonical := canonicalize name in
  if bool_decide (is_Some (cat_tables c !! canonical)) then (Err ("catalog: table '" ++ name ++ "' already exists"), c)
  else
    match table_create (data_root_ c ++ "/" ++ canonical) canonical schema FLUSH_THRESHOLD existing with
    | Err e => (Err ("catalog: cannot create table '" ++ name ++ "': " ++ e), c)
    | Ok t =>
        match table_flush t with
        | (Err e, _) => (Err ("catalog: cannot flush table '" ++ name ++ "': " ++ e), c)
        | (Ok _, t) =>
            (Ok tt, set_table (set_constraints c (constraint_meta_ c)
              (<[canonical := mkMetaFiles (SchemaFile.buffer schema) (Some (ConstraintFile.buffer [])) None None]>
                 (cat_meta c))) canonical t)
        end
    end.

(** ** Indexes *)

(** A step on each index in turn; [Some] ends the loop. *)
Fixpoint on_indexes {A} (f : M (option A)) (l : list IndexFile) : option (result (option A) * list IndexFile) :=
  match l with
  | [] => Some (Ok None, [])
  | i :: l =>
      let! (r, i) := f i in
      match r with
      | Err e => Some (Err e, i :: l)
      | Ok (Some a) => Some (Ok (Some a), i :: l)
      | Ok None => let! (r, l) := on_indexes f l in Some (r, i :: l)
      end
  end.

(** [rows[i][cidxs[k]]] for every [k]. *)
Definition key_values (cidxs : list Z) (row : list Value) : option (list Value) :=
  mapM (fun k => row !! Z.to_nat k) cidxs.

(** The row ids of a key up to the first one that is not deleted; the result of [range_scan]
    is ignored. *)
Definition find_live (t : Table) (key : bytes) : M bool := fun f =>
  let! (r, f) := range_scan (fun (found : bool) row_id => if is_row_deleted t row_id then (true, found) else (false, true))
                   (Some key) true (Some key) true false f in
  Some (Ok (match r with Ok b => b | Err _ => false end), f).

Fixpoint check_unique (t : Table) (rows : list (list Value)) : M (option unit) :=
  match rows with
  | [] => mret None
  | row :: rows =>
      cidxs ← gets col_indices_; specs ← gets cols_; ks ← gets key_size_;
      match key_values cidxs row with
      | None => undefined
      | Some vals =>
          if existsb is_null vals then check_unique t rows
          else
            match encode_key specs vals (zeros ks) with
            | None => undefined
            | Some key =>
                found ← find_live t key;
                if (found : bool) then mret (Some tt) else check_unique t rows
            end
      end
  end.

Definition check_index (t : Table) (rows : list (list Value)) : M (option unit) :=
  unique ← gets is_unique_;
  if (unique : bool) then check_unique t rows else mret None.

Fixpoint index_rows (rows : list (list Value)) (row_id : Z) : M (option unit) :=
  match rows with
  | [] => mret None
  | row :: rows =>
      cidxs ← gets col_indices_;
      match key_values cidxs row with
      | None => undefined
      | Some vals => _ ← btree_insert vals (wrap 64 row_id); index_rows rows (row_id + 1)
      end
  end.

(** The indexes of a table, if it has any. *)
Definition put_indexes (c : Catalog) (name : string) (l : list IndexFile) : Catalog :=
  match indexes_ c !! name with
  | Some _ => set_indexes c (cat_index_meta c) (<[name := l]> (indexes_ c))
  | None => c
  end.

Definition table_indexes (c : Catalog) (name : string) : list IndexFile := default [] (indexes_ c !! name).

(** ** Flushing *)

Fixpoint flush_tables (l : list (string * Table)) : result unit * list (string * Table) :=
  match l with
  | [] => (Ok tt, [])
  | (name, t) :: l =>
      match table_flush t with
      | (Err e, t) => (Err ("flush_all: table '" ++ name ++ "': " ++ e), (name, t) :: l)
      | (Ok _, t) => let '(r, l) := flush_tables l in (r, (name, t) :: l)
      end
  end.

Definition flush_dirty : M (option unit) :=
  dirty ← gets dirty_;
  if (dirty : bool) then (_ ← idx_flush; mret None) else mret None.

Fixpoint flush_indexes (l : list (string * list IndexFile)) : option (result unit * list (string * list IndexFile)) :=
  match l with
  | [] => Some (Ok tt, [])
  | (name, ixs) :: l =>
      let! (r, ixs) := on_indexes flush_dirty ixs in
      match r with
      | Err e => Some (Err ("flush_all: index on '" ++ name ++ "': " ++ e), (name, ixs) :: l)
      | Ok _ => let! (r, l) := flush_indexes l in Some (r, (name, ixs) :: l)
      end
  end.

(** [write_lsn] for every table. *)
Definition write_lsns (offset : Z) (ts : gmap string Table) (ms : gmap string MetaFiles) : gmap string MetaFiles :=
  map_imap (fun name m =>
    Some (match ts !! name with
          | Some t => write_lsn (mkLsn offset (table_row_count t)) m
          | None => m
          end)) ms.

(** [gate] is what [compaction_gate_] returns, if it is set. *)
Definition flush_all (gate : option Z) (c : Catalog) : option (result unit * Catalog) :=
  let '(r, ts) := flush_tables (map_to_list (cat_tables c)) in
  let c := set_tables c (list_to_map ts) in
  match r with
  | Err e => Some (Err e, c)
  | Ok _ =>
      let! (r, ixs) := flush_indexes (map_to_list (indexes_ c)) in
      let c := set_indexes c (cat_index_meta c) (list_to_map ixs) in
      match r with
      | Err e => Some (Err e, c)
      | Ok _ =>
          let offset := match cat_wal c with Some w => offset_ w | None => 0 end in
          let c := set_constraints c (constraint_meta_ c) (write_lsns offset (cat_tables c) (cat_meta c)) in
          match cat_wal c with
          | Some w =>
              if match gate with None => true | Some g => offset_ w <=? g end
              then Some (Ok tt, set_wal c None None)
              else Some (Ok tt, c)
          | None => Some (Ok tt, c)
          end
      end
  end.

(** ** Rows *)

Definition WAL_CHECKPOINT_BYTES : Z := 64 * 1024 * 1024.

Definition log_flush (c : Catalog) (name : string) (before after : Z) : Catalog :=
  if negb (replay_mode_ c) && (before <? after)
  then set_writer c (log_segment_flush (ensure_wal_ c) name after)
  else c.

Definition insert_rows (gate : option Z) (c : Catalog) (canonical : string) (t : Table) (rows : list (list Value)) :
    option (result Z * Catalog) :=
  let! (viol, ixs) := on_indexes (check_index t rows) (table_indexes c canonical) in
  let c := put_indexes c canonical ixs in
  match viol with
  | Err e => Some (Err e, c)
  | Ok (Some _) => Some (Err "unique constraint violation", c)
  | Ok None =>
      let first := table_row_count t in
      let before := wb_base_row_id_ t in
      match table_insert_many t rows with
      | (Err e, t) => Some (Err e, set_table c canonical t)
      | (Ok n, t) =>
          let c := log_flush (set_table c canonical t) canonical before (wb_base_row_id_ t) in
          let! (r, ixs) := on_indexes (index_rows rows first) ixs in
          let c := put_indexes c canonical ixs in
          match r with
          | Err e => Some (Err e, c)
          | Ok _ =>
              if negb (replay_mode_ c) &&
                 match cat_wal c with Some w => WAL_CHECKPOINT_BYTES <? offset_ w | None => false end
              then
                let! (r, c) := flush_all gate c in
                match r with Err e => Some (Err e, c) | Ok _ => Some (Ok n, c) end
              else Some (Ok n, c)
          end
      end
  end.

Definition catalog_insert (gate : option Z) (c : Catalog) (name : string) (rows : list (list Value)) :
    option (result Z * Catalog) :=
  let canonical := canonicalize name in
  match cat_tables c !! canonical with
  | None => Some (Err ("insert: table not found: " ++ name), c)
  | Some t =>
      let! c :=
        if replay_mode_ c then Some c
        else let! w := log_insert (ensure_wal_ c) canonical (schema_ t) rows in Some (set_writer c w) in
      insert_rows gate c canonical t rows
  end.

Definition delete_rows (c : Catalog) (name : string) (row_indices : list Z) : result Z * Catalog :=
  match row_indices with
  | [] => (Ok 0, c)
  | _ =>
      let canonical := canonicalize name in
      match cat_tables c !! canonical with
      | None => (Err ("delete: table not found: " ++ name), c)
      | Some t =>
          let c := if replay_mode_ c then c else set_writer c (log_delete (ensure_wal_ c) canonical row_indices) in
          (Ok (zlen row_indices), set_table c canonical (table_mark_deleted t row_indices))
      end
  end.

Definition update_rows (c : Catalog) (name : string) (old_indices : list Z) (schema : Schema)
    (new_rows : list (list Value)) : option (result Z * Catalog) :=
  match old_indices with
  | [] => Some (Ok 0, c)
  | _ =>
      let canonical := canonicalize name in
      match cat_tables c !! canonical with
      | None => Some (Err ("update: table not found: " ++ name), c)
      | Some t =>
          let! c :=
            if replay_mode_ c then Some c
            else let! w := log_update (ensure_wal_ c) canonical old_indices schema new_rows in Some (set_writer c w) in
          match table_update_rows t old_indices new_rows with
          | (Err e, t) => Some (Err e, set_table c canonical t)
          | (Ok u, t) =>
              let c := log_flush (set_table c canonical t) canonical (wb_base_before u) (wb_base_after u) in
              let! (r, ixs) := on_indexes (index_rows new_rows (first_row_id u)) (table_indexes c canonical) in
              let c := put_indexes c canonical ixs in
              match r with
              | Err e => Some (Err e, c)
              | Ok _ => Some (Ok (zlen old_indices), c)
              end
          end
      end
  end.

Definition delete_all (c : Catalog) (name : string) : result Z * Catalog :=
  match cat_tables c !! canonicalize name with
  | None => (Err ("delete: table not found: " ++ name), c)
  | Some t =>
      if table_row_count t =? 0 then (Ok 0, c)
      else delete_rows c name (map Z.of_nat (seq 0 (Z.to_nat (table_row_count t))))
  end.

(** ** Building indexes *)

Definition read_col_value (cf : ColumnFile) (row_id : Z) : option (Value * ColumnFile) :=
  let! (null, cf) := cf_is_null cf row_id in
  if (null : bool) then Some (VNull, cf)
  else
    match type_ cf with
    | INT32 => let! (r, cf) := cf_get_i32 cf row_id in let! x := result_value r in Some (VI32 x, cf)
    | INT64 => let! (r, cf) := cf_get_i64 cf row_id in let! x := result_value r in Some (VI64 x, cf)
    | DOUBLE => let! (r, cf) := cf_get_f64 cf row_id in let! x := result_value r in Some (VF64 x, cf)
    | VARCHAR => let! (s, cf) := cf_get_str cf row_id in Some (VStr s, cf)
    | DATE => let! (r, cf) := cf_get_date cf row_id in let! x := result_value r in Some (VDate x, cf)
    | TIMESTAMP => let! (r, cf) := cf_get_timestamp cf row_id in let! x := result_value r in Some (VTimestamp x, cf)
    | BOOL => let! (r, cf) := cf_get_bool cf row_id in let! x := result_value r in Some (VBool x, cf)
    | _ => Some (VNull, cf)
    end.

(** The key of row [local] of a segment or of the write buffer. *)
Fixpoint read_key (t : Table) (seg : option nat) (cidxs : list Z) (local : Z) : option (list Value * Table) :=
  match cidxs with
  | [] => Some ([], t)
  | ci :: cidxs =>
      let! cf := entry_column t seg (Z.to_nat ci) in
      let! (v, cf) := read_col_value cf local in
      let! (vs, t) := read_key (store_column t seg (Z.to_nat ci) cf) seg cidxs local in
      Some (v :: vs, t)
  end.

(** The entries of the rows [0 .. count) that are not deleted. *)
Definition part_entries (f : IndexFile) (seg : option nat) (deleted : bytes) (base count : Z)
    (st : list (bytes * Z) * Table) : option (list (bytes * Z) * Table) :=
  each (zrange 0 count) (fun local '(entries, t) =>
    if row_deleted deleted local then Some (entries, t)
    else
      let! (vals, t) := read_key t seg (col_indices_ f) local in
      let! key := encode_key (cols_ f) vals (zeros (key_size_ f)) in
      Some (entries ++ [(key, wrap 64 (base + local))], t)) st.

Definition all_entries (f : IndexFile) (t : Table) : option (list (bytes * Z) * Table) :=
  let! st := each (imap pair (segments_ t)) (fun '(k, s) st =>
    part_entries f (Some k) (seg_deleted s) (base_row_id (seg_meta s)) (seg_row_count (seg_meta s)) st) ([], t) in
  part_entries f None (wb_deleted_ t) (wb_base_row_id_ t) (wb_rows t) st.

Section Build.
(** [std::sort] with a comparison function *)
Context (std_sort : (bytes * Z -> bytes * Z -> bool) -> list (bytes * Z) -> list (bytes * Z)).

Definition bulk_build_index_ (f : IndexFile) (t : Table) : option (result unit * IndexFile * Table) :=
  let! (entries, t) := all_entries f t in
  let! (r, f) := bulk_build (std_sort (fun a b => compare_keys (cols_ f) a.1 b.1 <? 0) entries) f in
  Some (r, f, t).

Definition rebuild_index_ (f : IndexFile) (t : Table) : option (result unit * IndexFile * Table) :=
  let! (r, f) := reset_tree f in
  match r with
  | Err e => Some (Err e, f, t)
  | Ok _ =>
      let! (r, f, t) := bulk_build_index_ f t in
      match r with
      | Err e => Some (Err e, f, t)
      | Ok _ => let! (r, f) := idx_flush f in Some (r, f, t)
      end
  end.

Fixpoint index_specs (schema : Schema) (cidxs : list Z) : result (list IndexColSpec) :=
  match cidxs with
  | [] => Ok []
  | ci :: cidxs =>
      if wrap 8 (zlen schema) <=? ci then Err "add_index: column index out of range"
      else
        match schema !! Z.to_nat ci with
        | None => Err ""
        | Some col =>
            if bool_decide (col_type col = BOOL) then Err ("add_index: cannot index BOOL column '" ++ col_name col ++ "'")
            else let? l := index_specs schema cidxs in Ok (IndexFile.mkSpec (col_type col) 0 (col_max_len col) :: l)
        end
  end.

Definition add_index_entry (c : Catalog) (name : string) (m : IndexMeta) (f : IndexFile) : Catalog :=
  set_indexes c (<[name := default [] (cat_index_meta c !! name) ++ [m]]> (cat_index_meta c))
    (<[name := table_indexes c name ++ [f]]> (indexes_ c)).

(** [file] is what is at the path of the index, empty when there is nothing. *)
Definition add_index (file : bytes) (c : Catalog) (table_name index_name : string) (cidxs : list Z) (unique : bool) :
    option (result unit * Catalog) :=
  let canonical := canonicalize table_name in
  match cat_tables c !! canonical with
  | None => Some (Err ("add_index: table not found: " ++ table_name), c)
  | Some t =>
      let metas := default [] (cat_index_meta c !! canonical) in
      let c := set_indexes c (<[canonical := metas]> (cat_index_meta c)) (indexes_ c) in
      if existsb (fun m => String.eqb (im_name m) index_name) metas
      then Some (Err ("add_index: index '" ++ index_name ++ "' already exists on table '" ++ table_name ++ "'"), c)
      else
        match index_specs (schema_ t) cidxs with
        | Err e => Some (Err e, c)
        | Ok specs =>
            let! fr := idx_create file specs cidxs unique in
            match fr with
            | Err e => Some (Err ("add_index: " ++ e), c)
            | Ok f =>
                let! (r, f, t) := bulk_build_index_ f t in
                let c := set_table c canonical t in
                match r with
                | Err e => Some (Err e, c)
                | Ok _ =>
                    let! (r, f) := idx_flush f in
                    match r with
                    | Err e => Some (Err e, c)
                    | Ok _ => Some (Ok tt, add_index_entry c canonical (mkIndexMeta index_name cidxs unique) f)
                    end
                end
            end
        end
  end.

(** The constraints of a new table, each with a unique index; [files] gives what is at their
    paths. *)
Fixpoint add_constraint_indexes (files : string -> bytes) (c : Catalog) (name : string) (cs : list ConstraintMeta) :
    option (result unit * Catalog) :=
  match cs with
  | [] => Some (Ok tt, c)
  | k :: cs =>
      let! (r, c) := add_index (files (ConstraintFile.name k)) c name (ConstraintFile.name k) (col_indices k) true in
      match r with
      | Err e => Some (Err e, c)
      | Ok _ =>
          let canonical := canonicalize name in
          add_constraint_indexes files
            (set_constraints c (<[canonical := default [] (constraint_meta_ c !! canonical) ++ [k]]> (constraint_meta_ c))
               (cat_meta c)) name cs
      end
  end.

Definition write_constraints (c : Catalog) (name : string) : Catalog :=
  set_constraints c (constraint_meta_ c)
    (alter (fun m => mkMetaFiles (mf_schema m)
       (Some (ConstraintFile.buffer (default [] (constraint_meta_ c !! name)))) (mf_shard_map m) (mf_lsn m)) name (cat_meta c)).

Definition add_table (existing : TableFiles) (files : string -> bytes) (c : Catalog) (name : string) (schema : Schema)
    (cs : list ConstraintMeta) : option (result unit * Catalog) :=
  let c := if replay_mode_ c then c else set_writer c (log_create_table (ensure_wal_ c) (canonicalize name) schema) in
  match create_table_ existing c name schema with
  | (Err e, c) => Some (Err e, c)
  | (Ok _, c) =>
      let! (r, c) := add_constraint_indexes files c name cs in
      match r with
      | Err e => Some (Err e, c)
      | Ok _ => Some (Ok tt, match cs with [] => c | _ => write_constraints c (canonicalize name) end)
      end
  end.
End Build.

Fixpoint index_position (l : list IndexMeta) (name : string) : option nat :=
  match l with
  | [] => None
  | m :: l => if String.eqb (im_name m) name then Some 0%nat else S <$> index_position l name
  end.

Definition drop_index (c : Catalog) (table_name index_name : string) : result unit * Catalog :=
  let canonical := canonicalize table_name in
  match cat_index_meta c !! canonical with
  | None => (Err ("drop_index: no indexes on table '" ++ table_name ++ "'"), c)
  | Some metas =>
      match index_position metas index_name with
      | Some i =>
          (Ok tt, set_indexes c (<[canonical := base.delete i metas]> (cat_index_meta c))
                    (<[canonical := base.delete i (table_indexes c canonical)]> (indexes_ c)))
      | None =>
          (Err ("drop_index: index '" ++ index_name ++ "' not found on table '" ++ table_name ++ "'"),
           set_indexes c (cat_index_meta c) (<[canonical := table_indexes c canonical]> (indexes_ c)))
      end
  end.

(** The directory of the table is removed; its constraints and shard map stay in memory. *)
Definition drop_table (gate : option Z) (c : Catalog) (name : string) (if_exists : bool) : option (result unit * Catalog) :=
  let canonical := canonicalize name in
  match cat_tables c !! canonical with
  | None =>
      Some (if if_exists then Ok tt else Err ("catalog: table '" ++ name ++ "' does not exist"), c)
  | Some _ =>
      let! (r, c) := flush_all gate c in
      match r with
      | Err e => Some (Err e, c)
      | Ok _ =>
          let c := set_tables c (base.delete canonical (cat_tables c)) in
          let c := set_indexes c (base.delete canonical (cat_index_meta c)) (base.delete canonical (indexes_ c)) in
          Some (Ok tt, set_constraints c (constraint_meta_ c) (base.delete canonical (cat_meta c)))
      end
  end.

Definition set_shard_map (c : Catalog) (table_name : string) (sm : ShardMapMeta) : result unit * Catalog :=
  let canonical := canonicalize table_name in
  match cat_tables c !! canonical with
  | None => (Err ("set_shard_map: table not found: " ++ table_name), c)
  | Some _ =>
      (Ok tt, set_shard_maps c (<[canonical := sm]> (cat_shard_maps c))
                (alter (fun m => mkMetaFiles (mf_schema m) (mf_constraints m) (Some (ShardMapFile.buffer sm)) (mf_lsn m))
                   canonical (cat_meta c)))
  end.

(** ** Recovery *)

(** A directory below the data root. *)
Record TableDir : Type := mkTableDir {
  td_files : TableFiles;
  td_indexes : list (string * bytes);
  td_constraints : option bytes;
  td_shard_map : option bytes;
  td_lsn : option bytes
}.

(** Directories without schema.bin are skipped; [emplace] keeps the first table of a name. *)
Fixpoint open_tables (data_root : string) (root : list (string * TableDir)) (ts : gmap string Table) :
    result (gmap string Table) :=
  match root with
  | [] => Ok ts
  | (name, d) :: root =>
      if is_ok (f_schema (td_files d)) then
        match table_open (data_root ++ "/" ++ name) (td_files d) with
        | Err e => Err ("catalog: cannot open table '" ++ name ++ "': " ++ e)
        | Ok t =>
            let n := canonicalize name in
            open_tables data_root root (match ts !! n with Some _ => ts | None => <[n := t]> ts end)
        end
      else open_tables data_root root ts
  end.

Section Load.
Context (std_sort : (bytes * Z -> bytes * Z -> bool) -> list (bytes * Z) -> list (bytes * Z)).

Fixpoint open_indexes (l : list (string * bytes)) (t : Table) : option (result (list (IndexMeta * IndexFile)) * Table) :=
  match l with
  | [] => Some (Ok [], t)
  | (name, file) :: l =>
      match idx_open file with
      | Err e => Some (Err ("catalog: open index '" ++ name ++ "': " ++ e), t)
      | Ok f =>
          let! (r, f, t) := if dirty_ f then rebuild_index_ std_sort f t else Some (Ok tt, f, t) in
          match r with
          | Err e => Some (Err ("catalog: rebuild index '" ++ name ++ "': " ++ e), t)
          | Ok _ =>
              let! (r, t) := open_indexes l t in
              match r with
              | Err e => Some (Err e, t)
              | Ok ixs => Some (Ok ((mkIndexMeta name (col_indices_ f) (is_unique_ f), f) :: ixs), t)
              end
          end
      end
  end.

(** The indexes, constraints and shard map of one table. *)
Definition load_table_meta (c : Catalog) (name : string) (d : TableDir) : option (result Catalog) :=
  match cat_tables c !! name with
  | None => Some (Ok c)
  | Some t =>
      let! (r, t) := open_indexes (td_indexes d) t in
      match r with
      | Err e => Some (Err e)
      | Ok ixs =>
          let c := set_table c name t in
          let c := match ixs with
                   | [] => c
                   | _ => set_indexes c (<[name := map fst ixs]> (cat_index_meta c)) (<[name := map snd ixs]> (indexes_ c))
                   end in
          let meta := mkMetaFiles (match f_schema (td_files d) with Ok b => b | Err _ => [] end)
                        (td_constraints d) (td_shard_map d) (td_lsn d) in
          let c := set_constraints c (constraint_meta_ c) (<[name := meta]> (cat_meta c)) in
          Some (let? c :=
            match td_constraints d with
            | None => Ok c
            | Some b =>
                match ConstraintFile.read (dir_ t ++ "/constraints.bin") (Ok b) with
                | Err e => Err ("catalog: read constraints for '" ++ name ++ "': " ++ e)
                | Ok cs => Ok (set_constraints c (<[name := cs]> (constraint_meta_ c)) (cat_meta c))
                end
            end in
                match td_shard_map d with
                | None => Ok c
                | Some b =>
                    match ShardMapFile.read (dir_ t ++ "/shard_map.bin") (Ok b) with
                    | Err e => Err ("catalog: read shard_map for '" ++ name ++ "': " ++ e)
                    | Ok sm => Ok (set_shard_maps c (<[name := sm]> (cat_shard_maps c)) (cat_meta c))
                    end
                end)
      end
  end.

(** The directory that a table was opened from. *)
Definition dir_of (root : list (string * TableDir)) (n : string) : option TableDir :=
  snd <$> List.find (fun e => is_ok (f_schema (td_files e.2)) && String.eqb (canonicalize e.1) n) root.

Fixpoint load_metas (root : list (string * TableDir)) (names : list string) (c : Catalog) : option (result Catalog) :=
  match names with
  | [] => Some (Ok c)
  | n :: names =>
      let! d := dir_of root n in
      let! r := load_table_meta c n d in
      match r with
      | Err e => Some (Err e)
      | Ok c => load_metas root names c
      end
  end.
End Load.

(** *** Replay of the log *)

(** The tables created in the log and not found on the disk; what is left of a directory without
    schema.bin is not modelled. *)
Fixpoint replay_creates (c : Catalog) (recs : list WalRecord) : result Catalog :=
  match recs with
  | [] => Ok c
  | rec :: recs =>
      if (rec_type rec =? WAL_TYPE_CREATE) && negb (bool_decide (is_Some (cat_tables c !! canonicalize (table_name rec))))
      then
        match create_table_ no_files c (table_name rec) (rec_schema rec) with
        | (Err e, _) => Err ("catalog: wal replay create '" ++ table_name rec ++ "': " ++ e)
        | (Ok _, c) => replay_creates c recs
        end
      else replay_creates c recs
  end.

Definition lsns_of (c : Catalog) : gmap string LsnCheckpoint :=
  map_imap (fun n _ => Some (read_lsn (m ← cat_meta c !! n; mf_lsn m))) (cat_tables c).

(** A segment that was sealed later than the checkpoint moves it. *)
Definition advance_lsn (lsns : gmap string LsnCheckpoint) (rec : WalRecord) : gmap string LsnCheckpoint :=
  if rec_type rec =? WAL_TYPE_SEGMENT_FLUSH then
    let n := canonicalize (table_name rec) in
    match lsns !! n with
    | None => lsns
    | Some cp => if lsn cp <? byte_offset rec then <[n := mkLsn (byte_offset rec) (sealed_row_count rec)]> lsns else lsns
    end
  else lsns.

Definition advance_lsns (lsns : gmap string LsnCheckpoint) (recs : list WalRecord) : gmap string LsnCheckpoint :=
  fold_left advance_lsn recs lsns.

Fixpoint truncate_tables (lsns : gmap string LsnCheckpoint) (l : list (string * Table)) :
    option (result (list (string * Table))) :=
  match l with
  | [] => Some (Ok [])
  | (n, t) :: l =>
      let! (r, t) :=
        match lsns !! n with
        | None => Some (Ok tt, t)
        | Some cp => table_truncate t (lsn_rows cp)
        end in
      match r with
      | Err e => Some (Err ("catalog: truncate '" ++ n ++ "': " ++ e))
      | Ok _ =>
          let! r := truncate_tables lsns l in
          Some (let? l := r in Ok ((n, t) :: l))
      end
  end.

(** What a record does to its table. *)
Definition replay_table (rec : WalRecord) (t : Table) : result Table :=
  let insert (what : string) (t : Table) :=
    match table_insert_many t (rec_rows rec) with
    | (Err e, _) => Err ("catalog: wal replay " ++ what ++ " '" ++ table_name rec ++ "': " ++ e)
    | (Ok _, t) => Ok t
    end in
  if rec_type rec =? WAL_TYPE_INSERT then insert "insert" t
  else if rec_type rec =? WAL_TYPE_UPDATE then insert "update (insert)" (table_mark_deleted t (row_indices rec))
  else if rec_type rec =? WAL_TYPE_DELETE then Ok (table_mark_deleted t (row_indices rec))
  else Ok t.

Definition replay_record (lsns : gmap string LsnCheckpoint) (rec : WalRecord) (ts : gmap string Table) :
    result (gmap string Table) :=
  if (rec_type rec =? WAL_TYPE_CREATE) || (rec_type rec =? WAL_TYPE_SEGMENT_FLUSH) then Ok ts
  else
    let n := canonicalize (table_name rec) in
    match ts !! n with
    | None => Ok ts
    | Some t =>
        if match lsns !! n with Some cp => byte_offset rec <? lsn cp | None => false end then Ok ts
        else let? t := replay_table rec t in Ok (<[n := t]> ts)
    end.

Fixpoint replay (lsns : gmap string LsnCheckpoint) (recs : list WalRecord) (ts : gmap string Table) :
    result (gmap string Table) :=
  match recs with
  | [] => Ok ts
  | rec :: recs => let? ts := replay_record lsns rec ts in replay lsns recs ts
  end.

Fixpoint flush_recovered (l : list (string * Table)) : result (list (string * Table)) :=
  match l with
  | [] => Ok []
  | (n, t) :: l =>
      match table_flush t with
      | (Err e, _) => Err ("catalog: post-recovery flush '" ++ n ++ "': " ++ e)
      | (Ok _, t) => let? l := flush_recovered l in Ok ((n, t) :: l)
      end
  end.

(** The part of [load] after the log is read. *)
Definition recover (c : Catalog) (recs : list WalRecord) : option (result Catalog) :=
  match replay_creates c recs with
  | Err e => Some (Err e)
  | Ok c =>
      let lsns := advance_lsns (lsns_of c) recs in
      let! r := truncate_tables lsns (map_to_list (cat_tables c)) in
      Some (let? l := r in
            let? ts := replay lsns recs (list_to_map l) in
            let? l := flush_recovered (map_to_list ts) in
            let ts := list_to_map l in
            Ok (set_wal (set_constraints (set_tables c ts) (constraint_meta_ c) (write_lsns 0 ts (cat_meta c))) None None))
  end.

(** The part of [load] before the log is looked for. *)
Definition load_files (std_sort : (bytes * Z -> bytes * Z -> bool) -> list (bytes * Z) -> list (bytes * Z))
    (data_root : string) (root : list (string * TableDir)) (wal : option bytes) : option (result Catalog) :=
  match open_tables data_root root ∅ with
  | Err e => Some (Err e)
  | Ok ts => load_metas std_sort root (map fst (map_to_list ts)) (mkCatalog data_root ts None wal ∅ ∅ ∅ ∅ ∅ false)
  end.

Definition load (std_sort : (bytes * Z -> bytes * Z -> bool) -> list (bytes * Z) -> list (bytes * Z))
    (data_root : string) (root : list (string * TableDir)) (wal : option bytes) : option (result Catalog) :=
  let! r := load_files std_sort data_root root wal in
  match r with
  | Err e => Some (Err e)
  | Ok c =>
      match wal with
      | None => Some (Ok c)
      | Some file =>
          match read_all file with
          | Err e => Some (Err ("catalog: wal read: " ++ e))
          | Ok (recs, _) => recover c recs
          end
      end
  end.

(** What [load] finds after the process has ended. *)
Definition disk_of (c : Catalog) : list (string * TableDir) * option bytes :=
  (map (fun '(n, t) =>
     let m := default (mkMetaFiles [] None None None) (cat_meta c !! n) in
     (n, mkTableDir (table_files (Ok (mf_schema m)) t)
           (zip_with (fun m f => (im_name m, content (idx_disk f))) (default [] (cat_index_meta c !! n)) (table_indexes c n))
           (mf_constraints m) (mf_shard_map m) (mf_lsn m))) (map_to_list (cat_tables c)),
   match cat_wal c with Some w => Some (log w) | None => cat_wal_file c end).
