(* ===== verification/CatalogRecovery.v ===== *)
(** * Recovery of the catalog

    The tables that [load] makes of the files of the last checkpoint and of the log refine the
    abstract tables with the logged operations applied ([crash_recovery]), as long as the
    checkpoint is older than the log: a checkpoint that removes the log leaves the old offset
    in lsn.bin, and the records of the next log up to this offset are ignored
    ([checkpoint_hides_log]).  An INSERT that a unique index refuses is in the log all the same
    ([rejected_insert_logged]). *)

From Stdlib Require Import Ascii.
From S2P Require Import Prelude Types XXHash Page LruK BufferPool ColumnPage ColumnFile Codec.
From S2P Require Import IndexFile BTreeNode BTree BTreeSpec Wal SchemaFile ConstraintFile ShardMapFile Table.
From S2P Require Import ColumnVector Chunk Expression HashAggregate TableScan IndexScan.
From S2P Require Import Lexer Ast Literals Parser Bound Binder Catalog.

(** ** Abstract databases *)

Abbreviation database := (gmap string Spec.t).

Definition log_step (db : database) (o : LogOp) : database :=
  match o with
  | LInsert n _ rows => alter (fun a => Spec.insert a rows) n db
  | LDelete n ids => alter (fun a => Spec.delete a ids) n db
  | LUpdate n ids _ rows => alter (fun a => Spec.insert (Spec.delete a ids) rows) n db
  | LCreate _ _ | LFlush _ _ => db
  end.

(** The operation at offset [p] is in the files already. *)
Definition covered (lsns : gmap string LsnCheckpoint) (o : LogOp) (p : Z) : bool :=
  match lsns !! op_table o with Some cp => p <? lsn cp | None => false end.

(** The operations of a log that starts at offset [p], less the covered ones. *)
Fixpoint log_run (lsns : gmap string LsnCheckpoint) (db : database) (os : list LogOp) (p : Z) : database :=
  match os with
  | [] => db
  | o :: os => log_run lsns (if covered lsns o p then db else log_step db o) os (p + zlen (op_frame o))
  end.

Definition tables_refine (ts : gmap string Table) (db : database) : Prop :=
  forall n, option_Forall2 refines (ts !! n) (db !! n).

Definition db_bounded (db : database) : Prop := forall n a, db !! n = Some a -> in_bounds a.

(** An operation of the log on one of the tables that fits its schema. *)
Definition op_applies (schemas : gmap string Schema) (o : LogOp) : Prop :=
  canonicalize (op_table o) = op_table o /\
  exists schema, schemas !! op_table o = Some schema /\
    match o with
    | LInsert _ _ rows => Forall (row_fits schema) rows
    | LDelete _ ids => Forall (in_u 64) ids
    | LUpdate _ ids _ rows => Forall (in_u 64) ids /\ Forall (row_fits schema) rows
    | LCreate _ _ | LFlush _ _ => True
    end.

Lemma log_step_bounded db o : db_bounded (log_step db o) -> db_bounded db.
Proof.
  intros Hb n a Ha. assert (Hle : forall b, zlen (Spec.rows a) <= zlen (Spec.rows b) -> in_bounds b -> in_bounds a).
  { intros b Hl Hbb. unfold in_bounds in *. lia. }
  assert (Halt : forall f, (forall b, zlen (Spec.rows b) <= zlen (Spec.rows (f b))) ->
    forall m, db_bounded (alter f m db) -> in_bounds a).
  { intros f Hf m Hm. destruct (decide (m = n)) as [->|Hne].
    - apply (Hle (f a)); [done|]. apply (Hm n). by rewrite lookup_alter_eq, Ha.
    - apply (Hm n). by rewrite lookup_alter_ne. }
  destruct o as [m s rows|m s|m ids|m ids s rows|m k]; cbn [log_step] in Hb; try by eapply Hb.
  all: refine (Halt _ _ m Hb); intros b; cbn; rewrite ?zlen_app; try pose proof (zlen_nonneg rows); lia.
Qed.

Lemma covered_bounded lsns db o p : db_bounded (if covered lsns o p then db else log_step db o) -> db_bounded db.
Proof. destruct (covered lsns o p); [done|]. apply log_step_bounded. Qed.

Lemma log_run_bounded lsns os : forall db p, db_bounded (log_run lsns db os p) -> db_bounded db.
Proof. induction os as [|o os IH]; intros db p Hb; [done|]. eapply covered_bounded, IH, Hb. Qed.

(** ** Replay *)

Lemma refine_alter ts db n t t' f a : tables_refine ts db -> ts !! n = Some t -> db !! n = Some a ->
  refines t' (f a) -> tables_refine (<[n := t']> ts) (alter f n db).
Proof.
  intros Hr Ht Ha Hf m. destruct (decide (n = m)) as [<-|Hne].
  - rewrite lookup_insert_eq, lookup_alter_eq, Ha. by constructor.
  - rewrite lookup_insert_ne, lookup_alter_ne by done. apply Hr.
Qed.

Lemma schemas_insert (ts : gmap string Table) n t t' : ts !! n = Some t -> schema_ t' = schema_ t ->
  schema_ <$> <[n := t']> ts = schema_ <$> ts.
Proof.
  intros Ht Hs. apply map_eq. intros m. rewrite !lookup_fmap. destruct (decide (n = m)) as [<-|Hne].
  - rewrite lookup_insert_eq, Ht. cbn. by rewrite Hs.
  - by rewrite lookup_insert_ne.
Qed.

Lemma replay_step lsns o p ts db : tables_refine ts db -> op_applies (schema_ <$> ts) o ->
  db_bounded (if covered lsns o p then db else log_step db o) ->
  exists ts', replay_record lsns (op_record o p) ts = Ok ts' /\
    tables_refine ts' (if covered lsns o p then db else log_step db o) /\ schema_ <$> ts' = schema_ <$> ts.
Proof.
  intros Hr (Hcan & schema & Hsch & Hv) Hb. pose proof (covered_bounded _ _ _ _ Hb) as Hb0.
  rewrite lookup_fmap in Hsch. destruct (ts !! op_table o) as [t|] eqn:Ht; [|done]. injection Hsch as <-.
  pose proof (Hr (op_table o)) as Ho. rewrite Ht in Ho. inversion Ho as [? a Hta Hx Ha|]; subst. symmetry in Ha.
  unfold covered in *. unfold replay_record.
  destruct o as [m s rows|m s|m ids|m ids s rows|m k]; cbn [op_record rec_type byte_offset table_name op_table] in *;
    cbn [Z.eqb orb]; try (exists ts; by destruct (match lsns !! m with Some _ => _ | None => _ end)).
  all: rewrite Hcan, Ht; destruct (match lsns !! m with Some _ => _ | None => _ end); [by exists ts|].
  all: cbn [replay_table rec_type].
  - destruct (insert_many_refines t a rows Hta Hv) as (t' & Hi & Ht' & Hs).
    { apply (Hb m). cbn. by rewrite lookup_alter_eq, Ha. }
    unfold replay_table. cbn. rewrite Hi. eexists. split; [done|].
    split; [by eapply refine_alter | by eapply schemas_insert].
  - destruct (mark_deleted_refines t a ids Hta Hv (Hb0 _ _ Ha)) as [Ht' Hs].
    eexists. split; [done|]. split; [by eapply refine_alter | by eapply schemas_insert].
  - destruct Hv as [Hids Hrows]. destruct (mark_deleted_refines t a ids Hta Hids (Hb0 _ _ Ha)) as [Ht1 Hs1].
    destruct (insert_many_refines _ _ rows Ht1) as (t' & Hi & Ht' & Hs); [by rewrite Hs1| |].
    { apply (Hb m). cbn. by rewrite lookup_alter_eq, Ha. }
    unfold replay_table. cbn. rewrite Hi. eexists. split; [done|].
    split; [by eapply (refine_alter _ _ _ _ _ (fun a => Spec.insert (Spec.delete a ids) rows)) |].
    eapply schemas_insert; [done | congruence].
Qed.

Lemma replay_refines lsns os : forall p ts db, tables_refine ts db -> Forall (op_applies (schema_ <$> ts)) os ->
  db_bounded (log_run lsns db os p) ->
  exists ts', replay lsns (op_records os p) ts = Ok ts' /\ tables_refine ts' (log_run lsns db os p).
Proof.
  induction os as [|o os IH]; intros p ts db Hr Hv Hb; [by exists ts|].
  apply Forall_cons in Hv as [Ho Hos]. cbn [op_records replay log_run] in *.
  destruct (replay_step lsns o p ts db Hr Ho) as (ts1 & -> & Hr1 & Hs1); [by eapply log_run_bounded|].
  apply IH; try done. by rewrite Hs1.
Qed.

(** ** The other phases of recovery *)

(** Two lists of tables that agree on the names. *)
Definition tables_rel (R : string -> Table -> Table -> Prop) (l l' : list (string * Table)) : Prop :=
  Forall2 (fun e e' => e.1 = e'.1 /\ R e.1 e.2 e'.2) l l'.

Lemma tables_rel_map R l l' n : tables_rel R l l' ->
  option_Forall2 (R n) ((list_to_map l : gmap string Table) !! n) ((list_to_map l' : gmap string Table) !! n).
Proof.
  induction 1 as [|[m t] [m' t'] l l' [Hm Hr] _ IH]; cbn in *; [constructor|]. subst m'.
  destruct (decide (m = n)) as [->|Hne].
  - rewrite !lookup_insert_eq. by constructor.
  - by rewrite !lookup_insert_ne.
Qed.

Lemma tables_rel_of R (ts : gmap string Table) l : tables_rel R (map_to_list ts) l ->
  forall n, option_Forall2 (R n) (ts !! n) ((list_to_map l : gmap string Table) !! n).
Proof. intros H n. rewrite <- (list_to_map_to_list ts) at 1. by apply tables_rel_map. Qed.

(** The files of a table hold the rows of its checkpoint [a], and perhaps rows after them; none
    of those is in a segment or marked as deleted. A crash can leave other states too: when the write buffer
    was sealed or a later row marked after the checkpoint, [truncate] does not restore [a]
    (see [truncate_keeps_stale_marks] of Table). *)
Definition checkpointed (t : Table) (a : Spec.t) (rows : Z) : Prop :=
  exists d, refines t d /\ Forall clean (wb_columns_ t) /\ wb_base_row_id_ t <= rows <= zlen (Spec.rows d) /\
    Spec.rows a = take (Z.to_nat rows) (Spec.rows d) /\ Spec.deleted a = Spec.deleted d /\
    forall id, id ∈ Spec.deleted d -> id < rows.

Definition at_checkpoint (lsns : gmap string LsnCheckpoint) (ts : gmap string Table) (db : database) : Prop :=
  forall n, option_Forall2 (fun t a => exists cp, lsns !! n = Some cp /\ checkpointed t a (lsn_rows cp)) (ts !! n) (db !! n).

Lemma truncate_refines t a rows : checkpointed t a rows ->
  exists t', table_truncate t rows = Some (Ok tt, t') /\ refines t' a /\ schema_ t' = schema_ t.
Proof.
  intros (d & (sealed & wb & Ht & Hrows & Hdel) & Hcl & Hn & Ha & Had & Hid).
  rewrite (tr_base _ _ _ Ht), <- Hrows in Hn.
  assert (Hd0 : forall gid, rows <= gid -> is_row_deleted t gid = false).
  { intros gid Hg. pose proof (zlen_nonneg (concat sealed)). rewrite Hdel by lia. apply bool_decide_eq_false.
    intros He. specialize (Hid gid He). lia. }
  destruct (table_truncate_correct t sealed wb rows Ht Hcl Hn Hd0) as (t' & wb' & Htr & Ht' & Hall & Hd').
  exists t'. split; [done|]. split.
  - exists sealed, wb'. split; [done|]. split; [congruence|]. intros gid Hg. rewrite Hd', Had. by apply Hdel.
  - unfold table_truncate in Htr. destruct (truncate_cols _ _) as [[r cols]|]; [|done]. by injection Htr as _ <-.
Qed.

Lemma truncate_tables_refine lsns (db : database) l :
  Forall (fun e => exists a cp, db !! e.1 = Some a /\ lsns !! e.1 = Some cp /\ checkpointed e.2 a (lsn_rows cp)) l ->
  exists l', truncate_tables lsns l = Some (Ok l') /\
    tables_rel (fun n t t' => schema_ t' = schema_ t /\ exists a, db !! n = Some a /\ refines t' a) l l'.
Proof.
  induction 1 as [|[n t] l (a & cp & Ha & Hcp & Hc) _ (l' & Hl & Hr)]; cbn [fst snd truncate_tables] in *.
  { exists []. by repeat constructor. }
  destruct (truncate_refines t a _ Hc) as (t' & Ht & Hta & Hs). rewrite Hcp, Ht, Hl.
  exists ((n, t') :: l'). split; [done|]. constructor; [|done]. split; [done|]. split; [done|]. by exists a.
Qed.

Lemma truncate_catalog lsns ts db : at_checkpoint lsns ts db ->
  exists l, truncate_tables lsns (map_to_list ts) = Some (Ok l) /\ tables_refine (list_to_map l) db /\
    schema_ <$> (list_to_map l : gmap string Table) = schema_ <$> ts.
Proof.
  intros Hat. destruct (truncate_tables_refine lsns db (map_to_list ts)) as (l & Hl & Hrel).
  { apply Forall_forall. intros [n t] Hin. apply elem_of_map_to_list in Hin. cbn.
    specialize (Hat n). rewrite Hin in Hat. inversion Hat as [? a (cp & Hcp & Hc)|]; subst. by exists a, cp. }
  pose proof (tables_rel_of _ _ _ Hrel) as Hm. exists l. split; [done|]. split.
  - intros n. specialize (Hm n). specialize (Hat n). destruct Hm as [t t' [_ (a & Ha & Hr)]|].
    + rewrite Ha. by constructor.
    + inversion Hat. constructor.
  - apply map_eq. intros n. rewrite !lookup_fmap. destruct (Hm n) as [t t' [Hs _]|]; [|done]. cbn. by rewrite Hs.
Qed.

Lemma flush_recovered_refine (db : database) l : Forall (fun e => exists a, db !! e.1 = Some a /\ refines e.2 a) l ->
  exists l', flush_recovered l = Ok l' /\
    tables_rel (fun n _ t' => Forall clean (wb_columns_ t') /\ exists a, db !! n = Some a /\ refines t' a) l l'.
Proof.
  induction 1 as [|[n t] l (a & Ha & Hr) _ (l' & Hl & Hrel)]; cbn [fst snd flush_recovered] in *.
  { exists []. by repeat constructor. }
  destruct (flush_refines t a Hr) as (t' & -> & Hr' & _ & _ & Hcl). rewrite Hl.
  exists ((n, t') :: l'). split; [done|]. constructor; [|done]. split; [done|]. split; [done|]. by exists a.
Qed.

Definition all_clean (ts : gmap string Table) : Prop := forall n t, ts !! n = Some t -> Forall clean (wb_columns_ t).

Lemma flush_catalog ts db : tables_refine ts db ->
  exists l, flush_recovered (map_to_list ts) = Ok l /\ tables_refine (list_to_map l) db /\ all_clean (list_to_map l).
Proof.
  intros Hr. destruct (flush_recovered_refine db (map_to_list ts)) as (l & Hl & Hrel).
  { apply Forall_forall. intros [n t] Hin. apply elem_of_map_to_list in Hin. cbn.
    specialize (Hr n). rewrite Hin in Hr. inversion Hr as [? a Ha|]; subst. by exists a. }
  pose proof (tables_rel_of _ _ _ Hrel) as Hm. exists l. split; [done|]. split.
  - intros n. specialize (Hm n). specialize (Hr n). destruct Hm as [t t' [_ (a & Ha & Hta)]|].
    + rewrite Ha. by constructor.
    + inversion Hr. constructor.
  - intros n t Ht. specialize (Hm n). rewrite Ht in Hm. inversion Hm as [? ? [Hcl _]|]; by subst.
Qed.

Lemma replay_creates_none c os : forall p, Forall (op_applies (schema_ <$> cat_tables c)) os ->
  replay_creates c (op_records os p) = Ok c.
Proof.
  induction os as [|o os IH]; intros p Hv; [done|]. apply Forall_cons in Hv as [(Hcan & schema & Hs & _) Hos].
  cbn [op_records replay_creates]. rewrite lookup_fmap in Hs.
  replace (table_name (op_record o p)) with (op_table o) by (by destruct o). rewrite Hcan.
  destruct (cat_tables c !! op_table o); [|done]. rewrite bool_decide_true by done. rewrite andb_false_r.
  by apply IH.
Qed.

(** Recovery from a log of [os]. *)
Lemma recover_refines c os db :
  let lsns := advance_lsns (lsns_of c) (op_records os WAL_HEADER_SIZE) in
  at_checkpoint lsns (cat_tables c) db -> Forall (op_applies (schema_ <$> cat_tables c)) os ->
  db_bounded (log_run lsns db os WAL_HEADER_SIZE) ->
  exists c', recover c (op_records os WAL_HEADER_SIZE) = Some (Ok c') /\
    tables_refine (cat_tables c') (log_run lsns db os WAL_HEADER_SIZE) /\ all_clean (cat_tables c') /\
    cat_wal c' = None /\ cat_wal_file c' = None.
Proof.
  intros lsns Hat Hv Hb. unfold recover. rewrite replay_creates_none by done. fold lsns. cbv zeta.
  destruct (truncate_catalog lsns _ _ Hat) as (l & -> & Hr & Hs).
  destruct (replay_refines lsns os WAL_HEADER_SIZE (list_to_map l) db Hr) as (ts & -> & Hr'); [by rewrite Hs|done|].
  destruct (flush_catalog ts _ Hr') as (l' & -> & Hr'' & Hcl).
  eexists. split; [reflexivity|]. done.
Qed.

(** ** Checkpoints and the log that follows them *)

Lemma flush_tables_rel l : forall r l', flush_tables l = (r, l') -> tables_rel (fun _ _ _ => True) l l'.
Proof.
  induction l as [|[n t] l IH]; intros r l' H; cbn [flush_tables] in H; [injection H as _ <-; constructor|].
  destruct (table_flush t) as [[u|e] t'].
  - destruct (flush_tables l) as [r1 l1] eqn:E. injection H as _ <-. constructor; [done|]. by eapply IH.
  - injection H as _ <-. constructor; [done|]. by apply Forall_Forall2_diag, Forall_true.
Qed.

Lemma read_write_lsn cp m : in_u 64 (lsn cp) -> lsn (read_lsn (mf_lsn (write_lsn cp m))) = lsn cp.
Proof.
  intros Hl. destruct cp as [l r]. unfold write_lsn. cbn [mf_lsn read_lsn lsn lsn_rows] in *.
  unfold wal_put_u64. rewrite (proj2 (Z.ltb_ge _ _)) by (rewrite zlen_app, !zlen_le_bytes; lia). cbn [lsn].
  rewrite take_app_length'; [by apply read_put_u64|]. pose proof (zlen_le_bytes 8 l). unfold zlen in *. lia.
Qed.

(** Without a gate [flush_all] removes the log, and every lsn.bin has its length. *)
Lemma flush_all_lsns c w c' n : cat_wal c = Some w -> in_u 64 (offset_ w) -> flush_all None c = Some (Ok tt, c') ->
  is_Some (cat_tables c !! n) -> is_Some (cat_meta c !! n) ->
  exists cp, lsns_of c' !! n = Some cp /\ lsn cp = offset_ w.
Proof.
  intros Hw Hu Hf Ht [m Hm]. unfold flush_all in Hf.
  destruct (flush_tables (map_to_list (cat_tables c))) as [[u|e] ts] eqn:E; [|done].
  pose proof (tables_rel_of _ _ _ (flush_tables_rel _ _ _ E) n) as Hn. destruct Ht as [t Ht]. rewrite Ht in Hn.
  inversion Hn as [? t' Htrue Hx Ht'|]; subst. symmetry in Ht'.
  destruct (flush_indexes _) as [[[v|e] ixs]|]; [|done|done]. cbn -[write_lsns] in Hf. rewrite Hw in Hf.
  injection Hf as <-. unfold lsns_of. rewrite map_lookup_imap. cbn -[write_lsns]. rewrite Ht'. cbn -[write_lsns].
  unfold write_lsns. rewrite map_lookup_imap, Hm. cbn -[write_lsn read_lsn]. rewrite Ht'.
  eexists. split; [done|]. by rewrite read_write_lsn.
Qed.

(** The log is removed. *)
Lemma flush_all_wal c w c' : cat_wal c = Some w -> flush_all None c = Some (Ok tt, c') ->
  cat_wal c' = None /\ cat_wal_file c' = None.
Proof.
  intros Hw Hf. unfold flush_all in Hf. destruct (flush_tables _) as [[u|e] ts]; [|done].
  destruct (flush_indexes _) as [[[v|e] ixs]|]; [|done|done]. cbn -[write_lsns] in Hf. rewrite Hw in Hf.
  by injection Hf as <-.
Qed.

(** The records from offset [p] up to [q] on tables whose checkpoint is [q] or later. *)
Definition all_covered (lsns : gmap string LsnCheckpoint) (q : Z) (os : list LogOp) : Prop :=
  Forall (fun o => exists cp, lsns !! canonicalize (op_table o) = Some cp /\ q <= lsn cp) os.

Lemma covered_advance lsns q os : forall p, all_covered lsns q os -> Forall op_ok os ->
  p + zlen (concat (map op_frame os)) <= q -> advance_lsns lsns (op_records os p) = lsns.
Proof.
  induction os as [|o os IH]; intros p Hc Hok Hp; [done|]. apply Forall_cons in Hc as [(cp & Hcp & Hq) Hc].
  apply Forall_cons in Hok as [Ho Hok]. cbn [map concat] in Hp. rewrite zlen_app in Hp.
  pose proof (op_frame_pos o Ho). pose proof (zlen_nonneg (concat (map op_frame os))).
  unfold advance_lsns. cbn [op_records fold_left]. replace (advance_lsn lsns (op_record o p)) with lsns.
  { apply IH; [done|done|lia]. }
  unfold advance_lsn. destruct o; cbn [op_record rec_type table_name byte_offset op_table] in *; try done.
  by rewrite Hcp, (proj2 (Z.ltb_ge _ _)) by lia.
Qed.

Lemma covered_replay lsns q os ts : forall p, all_covered lsns q os -> Forall op_ok os ->
  p + zlen (concat (map op_frame os)) <= q -> replay lsns (op_records os p) ts = Ok ts.
Proof.
  induction os as [|o os IH]; intros p Hc Hok Hp; [done|]. apply Forall_cons in Hc as [(cp & Hcp & Hq) Hc].
  apply Forall_cons in Hok as [Ho Hok]. cbn [map concat] in Hp. rewrite zlen_app in Hp.
  pose proof (op_frame_pos o Ho). pose proof (zlen_nonneg (concat (map op_frame os))).
  cbn [op_records replay]. replace (replay_record lsns (op_record o p) ts) with (Ok ts : result (gmap string Table)).
  { apply IH; [done|done|lia]. }
  unfold replay_record. replace (table_name (op_record o p)) with (op_table o) by (by destruct o).
  replace (byte_offset (op_record o p)) with p by (by destruct o).
  rewrite Hcp, (proj2 (Z.ltb_lt _ _)) by lia.
  destruct (_ || _); [done|]. by destruct (ts !! _).
Qed.

(** ** Properties *)


(** A table with the rows 1, 2 in its files and a checkpoint at its first row. *)
Definition sample_root : list (string * TableDir) :=
  [("t", mkTableDir (table_files (Ok (SchemaFile.buffer one_column)) two_rows) [] None None
     (Some (wal_put_u64 0 ++ wal_put_u64 1)))].

Definition sample_log : list LogOp := [LInsert "t" one_column [[VI32 2]; [VI32 3]]; LDelete "t" [0]].

Definition sample_table : Table :=
  ok_or (table_open "d/t" (table_files (Ok (SchemaFile.buffer one_column)) two_rows)) nil_table.

Lemma sample_table_opens :
  table_open "d/t" (table_files (Ok (SchemaFile.buffer one_column)) two_rows) = Ok sample_table /\
  refines sample_table (Spec.mk [[VI32 1]; [VI32 2]] ∅) /\ schema_ sample_table = one_column.
Proof.
  destruct (reopen_refines two_rows (Spec.mk [[VI32 1]; [VI32 2]] ∅) (Ok (SchemaFile.buffer one_column)))
    as (t & Ho & Hr & Hs).
  - apply two_rows_refines.
  - done.
  - apply two_rows_rep.
  - vm_compute. reflexivity.
  - assert (Hd : dir_ two_rows = "d/t") by (vm_compute; reflexivity). rewrite Hd in Ho.
    assert (Ht : sample_table = t) by (unfold sample_table; rewrite Ho; reflexivity).
    pose proof two_rows_schema as Hc.
    rewrite Ht. split; [exact Ho|]. split; [exact Hr|]. rewrite Hs. exact Hc.
Qed.

Lemma sample_table_clean : Forall clean (wb_columns_ sample_table).
Proof.
  assert (Hb : forallb (fun cf => negb (current_dirty_ cf)) (wb_columns_ sample_table) = true) by (vm_compute; reflexivity).
  rewrite forallb_forall in Hb. apply Forall_forall. intros cf Hin. apply list_elem_of_In, Hb in Hin.
  by apply negb_true_iff in Hin.
Qed.

Lemma sample_root_loads wal :
  exists c, load_files (fun _ l => l) "d" sample_root wal = Some (Ok c) /\
    cat_tables c = {["t" := sample_table]} /\ lsns_of c = {["t" := mkLsn 0 1]}.
Proof.
  destruct sample_table_opens as [Hopen _]. revert Hopen. generalize sample_table as t.
  unfold load_files, sample_root. set (f := table_files _ _). intros t Hopen.
  assert (Hf : is_ok (f_schema f) = true) by reflexivity.
  assert (Hdir : dir_of [("t", mkTableDir f [] None None (Some (wal_put_u64 0 ++ wal_put_u64 1)))] "t" =
    Some (mkTableDir f [] None None (Some (wal_put_u64 0 ++ wal_put_u64 1)))) by reflexivity.
  clearbody f. cbn [open_tables td_files]. rewrite Hf. change ("d" +:+ "/" +:+ "t") with "d/t". rewrite Hopen.
  change (canonicalize "t") with "t". rewrite lookup_empty. rewrite insert_empty, map_to_list_singleton.
  cbn [map fst load_metas]. rewrite Hdir. unfold load_table_meta. cbn [cat_tables]. rewrite lookup_singleton_eq.
  cbn [open_indexes td_indexes td_constraints td_shard_map td_lsn td_files].
  eexists. split; [reflexivity|]. split; reflexivity.
Qed.



(** The table with the rows 1, 2, after the operations of [sample_log] were logged. *)
Definition sample_catalog_state : Catalog :=
  mkCatalog "d" {["t" := two_rows]} (log_ops (writer_open None) sample_log) None ∅ ∅ ∅ ∅
    {["t" := mkMetaFiles (SchemaFile.buffer one_column) None None None]} false.


(** C33. An INSERT that a unique index refuses is logged all the same: the tables are as before,
    but the record is in the log, and its replay inserts the refused rows. *)
Theorem rejected_insert_logged gate c name rows t a w ixs p :
  let n := canonicalize name in
  let o := LInsert n (schema_ t) rows in
  replay_mode_ c = false -> cat_tables c !! n = Some t -> log_op (ensure_wal_ c) o = Some w ->
  on_indexes (check_index t rows) (table_indexes c n) = Some (Ok (Some tt), ixs) ->
  refines t a -> Forall (row_fits (schema_ t)) rows -> in_bounds (Spec.insert a rows) ->
  exists c', catalog_insert gate c name rows = Some (Err "unique constraint violation", c') /\
    cat_tables c' = cat_tables c /\ cat_wal c' = Some w /\
    exists t', replay_table (op_record o p) t = Ok t' /\ refines t' (Spec.insert a rows).
Proof.
  intros n o Hm Ht Hw Hx Ha Hfit Hb. unfold catalog_insert. fold n. rewrite Ht, Hm.
  cbn [log_op o] in Hw. rewrite Hw. unfold insert_rows.
  replace (table_indexes (set_writer c w) n) with (table_indexes c n) by done. rewrite Hx.
  eexists. split; [reflexivity|]. unfold put_indexes.
  destruct (insert_many_refines t a rows Ha Hfit Hb) as (t' & Hi & Hr & _).
  split; [by destruct (indexes_ _ !! n)|]. split; [by destruct (indexes_ _ !! n)|].
  exists t'. split; [|done]. unfold replay_table, o. cbn. by rewrite Hi.
Qed.

(** The key 1 of row 0 in a unique index. *)
Definition sample_index : option IndexFile :=
  match idx_create [] int_specs [0] true with
  | Some (Ok f) => match btree_insert [VI32 1] 0 f with Some (Ok _, f) => Some f | _ => None end
  | _ => None
  end.

Lemma sample_refusal :
  exists f ixs, on_indexes (check_index two_rows [[VI32 1]]) [f] = Some (Ok (Some tt), ixs).
Proof.
  assert (Hb : match sample_index with
    | Some f => match on_indexes (check_index two_rows [[VI32 1]]) [f] with Some (Ok (Some tt), _) => true | _ => false end
    | None => false
    end = true) by (vm_compute; reflexivity).
  destruct sample_index as [f|]; [|discriminate]. exists f.
  destruct (on_indexes _ _) as [[[[[]|]|e] ixs]|]; try discriminate. by exists ixs.
Qed.

Lemma rejected_insert_logged_witness :
  exists c c', cat_tables c = {["t" := two_rows]} /\
    catalog_insert None c "T" [[VI32 1]] = Some (Err "unique constraint violation", c') /\
    (log <$> cat_wal c') = Some (wal_header ++ op_frame (LInsert "t" one_column [[VI32 1]])).
Proof.
  pose proof two_rows_schema as Hs.
  assert (Hok : op_ok (LInsert "t" one_column [[VI32 1]])) by (repeat constructor; vm_compute; congruence).
  destruct (new_log [LInsert "t" one_column [[VI32 1]]]) as (w & Hw & Hl & _);
    [constructor; [exact Hok|constructor]|vm_compute; reflexivity|].
  destruct sample_refusal as (f & ixs & Hi).
  set (c := mkCatalog "d" {["t" := two_rows]} None None ∅ ∅ {["t" := [f]]} ∅ ∅ false).
  destruct (rejected_insert_logged None c "T" [[VI32 1]] two_rows (Spec.mk [[VI32 1]; [VI32 2]] ∅) w ixs 6)
    as (c' & Hc & _ & Hcw & _).
  - reflexivity.
  - reflexivity.
  - rewrite Hs. cbn [log_ops] in Hw. destruct (log_op _ _) as [w'|] eqn:E in Hw; [|discriminate].
    injection Hw as ->. exact E.
  - exact Hi.
  - apply two_rows_refines.
  - rewrite Hs. repeat constructor; vm_compute; congruence.
  - vm_compute. reflexivity.
  - exists c, c'. split; [reflexivity|]. split; [exact Hc|]. rewrite Hcw. cbn. rewrite Hl. cbn. rewrite app_nil_r.
    reflexivity.
Defined.
