(* ===== verification/CatalogLog.v ===== *)
(** * The log of a running catalog

    Any sequence of INSERTs, DELETEs and UPDATEs on a catalog without indexes succeeds, leaves
    the tables as the abstract operations do, and appends exactly these operations to the log,
    each at most followed by the record of a sealed segment ([catalog_run_logged]).  With
    [crash_recovery], which reads such a log, this is the contract between a running catalog
    and its recovery. *)

From Stdlib Require Import Ascii.
From S2P Require Import Prelude Types XXHash Page LruK BufferPool ColumnPage ColumnFile Codec.
From S2P Require Import IndexFile BTreeNode BTree BTreeSpec Wal SchemaFile ConstraintFile ShardMapFile Table.
From S2P Require Import ColumnVector Chunk Expression HashAggregate TableScan IndexScan.
From S2P Require Import Lexer Ast Literals Parser Bound Binder Catalog CatalogRecovery.

(** ** Changes *)

Definition catalog_change (gate : option Z) (c : Catalog) (o : LogOp) : option (result Z * Catalog) :=
  match o with
  | LInsert n _ rows => catalog_insert gate c n rows
  | LDelete n ids => Some (delete_rows c n ids)
  | LUpdate n ids schema rows => update_rows c n ids schema rows
  | LCreate _ _ | LFlush _ _ => None
  end.

Fixpoint catalog_run (gate : option Z) (c : Catalog) (os : list LogOp) : option (result unit * Catalog) :=
  match os with
  | [] => Some (Ok tt, c)
  | o :: os =>
      let! (r, c) := catalog_change gate c o in
      match r with
      | Err e => Some (Err e, c)
      | Ok _ => catalog_run gate c os
      end
  end.

(** A change that reaches its table. *)
Definition op_changes (schemas : gmap string Schema) (o : LogOp) : Prop :=
  op_ok o /\ op_applies schemas o /\
  match o with
  | LInsert n schema _ => schemas !! n = Some schema
  | LDelete _ ids | LUpdate _ ids _ _ => ids <> []
  | LCreate _ _ | LFlush _ _ => False
  end.

(** The catalog holds [db], and its log the operations [logged]. *)
Record live (c : Catalog) (db : database) (logged : list LogOp) : Prop := {
  live_mode : replay_mode_ c = false;
  live_indexes : indexes_ c = ∅;
  live_tables : tables_refine (cat_tables c) db;
  live_ok : Forall op_ok logged;
  live_log : log (ensure_wal_ c) = wal_header ++ concat (map op_frame logged);
  live_offset : offset_ (ensure_wal_ c) = zlen (log (ensure_wal_ c))
}.

(** Bytes that a change may add to the log. *)
Definition op_budget (o : LogOp) : Z := zlen (op_frame o) + zlen (op_frame (LFlush (op_table o) 0)).

Definition log_budget (os : list LogOp) : Z := fold_right (fun o n => op_budget o + n) 0 os.

Definition is_flush (o : LogOp) : bool := match o with LFlush _ _ => true | _ => false end.

(** The log without the records of sealed segments. *)
Definition changes (os : list LogOp) : list LogOp := List.filter (fun o => negb (is_flush o)) os.

(** ** Log records *)

Lemma flush_frame_length n k : zlen (op_frame (LFlush n k)) = zlen (op_frame (LFlush n 0)).
Proof.
  unfold op_frame. cbn [op_payload]. unfold wal_put_u64.
  rewrite !zlen_app, !zlen_cons, !zlen_app, !zlen_le_bytes. reflexivity.
Qed.

Lemma log_one w o : op_ok o -> offset_ w = zlen (log w) -> zlen (log w) + zlen (op_frame o) < 2 ^ 64 ->
  exists w', log_op w o = Some w' /\ log w' = log w ++ op_frame o /\ offset_ w' = zlen (log w').
Proof.
  intros Ho Hoff Hmax. destruct (log_ops_log [o] w) as (w' & Hw & Hl & Ho'); cbn [map concat] in *.
  - by constructor.
  - by rewrite app_nil_r.
  - done.
  - cbn in Hw. destruct (log_op w o) as [w1|]; [|done]. injection Hw as ->. exists w'. by rewrite app_nil_r in Hl.
Qed.


(** ** Steps *)

(** After a change was logged. *)
Lemma live_writer c db logged o : live c db logged -> op_ok o ->
  zlen (log (ensure_wal_ c)) + zlen (op_frame o) < 2 ^ 64 ->
  exists w, log_op (ensure_wal_ c) o = Some w /\ live (set_writer c w) db (logged ++ [o]) /\
    zlen (log w) = zlen (log (ensure_wal_ c)) + zlen (op_frame o).
Proof.
  intros [H1 H2 H3 H4 H5 H6] Ho Hmax. destruct (log_one _ o Ho H6 Hmax) as (w & Hw & Hl & Hoff).
  exists w. split; [done|]. rewrite Hl, zlen_app. split; [|done]. constructor; try done.
  - apply Forall_app. split; [done|]. by constructor.
  - cbn [ensure_wal_ set_writer set_wal cat_wal]. rewrite Hl, H5, map_app, concat_app. cbn [map concat]. by rewrite app_nil_r, app_assoc.
Qed.

Lemma live_set_table c db db' logged n t' : live c db logged -> tables_refine (<[n := t']> (cat_tables c)) db' ->
  live (set_table c n t') db' logged.
Proof. intros [H1 H2 H3 H4 H5 H6] Hr. by constructor. Qed.

Lemma log_flush_live c w db logged n b k : live c db logged -> cat_wal c = Some w -> op_ok (LFlush n k) ->
  zlen (log (ensure_wal_ c)) + zlen (op_frame (LFlush n 0)) < 2 ^ 64 ->
  exists fs, live (log_flush c n b k) db (logged ++ fs) /\ changes fs = [] /\
    zlen (log (ensure_wal_ (log_flush c n b k))) <= zlen (log (ensure_wal_ c)) + zlen (op_frame (LFlush n 0)) /\
    cat_tables (log_flush c n b k) = cat_tables c /\ is_Some (cat_wal (log_flush c n b k)).
Proof.
  intros Hl Hw Hok Hmax. unfold log_flush. destruct (_ && _).
  - destruct (live_writer c db logged (LFlush n k) Hl Hok) as (w' & Hw' & Hl' & Hlen); [by rewrite flush_frame_length|].
    injection Hw' as <-. exists [LFlush n k]. split; [done|]. split; [done|].
    rewrite flush_frame_length in Hlen. split; [|done]. cbn [ensure_wal_ set_writer set_wal cat_wal]. lia.
  - exists []. rewrite app_nil_r. split; [done|]. split; [done|]. pose proof (zlen_nonneg (op_frame (LFlush n 0))).
    split; [lia|]. split; [done|]. by eexists.
Qed.

Lemma refines_base t a : refines t a -> in_bounds a -> in_u 64 (wb_base_row_id_ t).
Proof.
  intros (sealed & wb & Ht & Hr & _) Hb. unfold in_bounds in Hb. rewrite <- Hr in Hb. unfold all_rows in Hb.
  rewrite zlen_app in Hb. rewrite (tr_base _ _ _ Ht). pose proof (zlen_nonneg (concat sealed)).
  pose proof (zlen_nonneg wb). split; lia.
Qed.

Lemma live_target c db logged o : live c db logged -> op_applies (schema_ <$> cat_tables c) o ->
  exists t a, cat_tables c !! op_table o = Some t /\ db !! op_table o = Some a /\ refines t a.
Proof.
  intros Hl (_ & schema & Hs & _). rewrite lookup_fmap in Hs.
  pose proof (live_tables _ _ _ Hl (op_table o)) as Ho.
  destruct (cat_tables c !! op_table o) as [t|]; [|done]. inversion Ho as [? a Ha|]; subst. by exists t, a.
Qed.

Lemma put_indexes_live c db logged n l : live c db logged -> put_indexes c n l = c.
Proof. intros Hl. unfold put_indexes. by rewrite (live_indexes _ _ _ Hl), lookup_empty. Qed.

Lemma table_indexes_live c db logged n : live c db logged -> table_indexes c n = [].
Proof. intros Hl. unfold table_indexes. by rewrite (live_indexes _ _ _ Hl), lookup_empty. Qed.

(** What a change does to the log and the tables. *)
Definition change_done (c : Catalog) (db : database) (logged : list LogOp) (o : LogOp) (c' : Catalog) : Prop :=
  exists fs, live c' (log_step db o) (logged ++ o :: fs) /\ changes fs = [] /\
    zlen (log (ensure_wal_ c')) <= zlen (log (ensure_wal_ c)) + op_budget o /\
    schema_ <$> cat_tables c' = schema_ <$> cat_tables c.

(** The table was changed, and the record of a sealed segment may follow. *)
Lemma flush_done c w db logged o t t' b a : live (set_writer c w) db (logged ++ [o]) ->
  zlen (log w) = zlen (log (ensure_wal_ c)) + zlen (op_frame o) ->
  zlen (log (ensure_wal_ c)) + op_budget o <= WAL_CHECKPOINT_BYTES -> op_ok o ->
  cat_tables c !! op_table o = Some t -> schema_ t' = schema_ t ->
  tables_refine (<[op_table o := t']> (cat_tables c)) (log_step db o) -> refines t' a -> in_bounds a ->
  change_done c db logged o (log_flush (set_table (set_writer c w) (op_table o) t') (op_table o) b (wb_base_row_id_ t')).
Proof.
  intros Hl Hlen Hmax Hok Ht Hs Hr Hta Hb. unfold op_budget, WAL_CHECKPOINT_BYTES in *.
  pose proof (live_set_table _ _ _ _ (op_table o) t' Hl Hr) as Hl1.
  destruct (log_flush_live _ w _ _ (op_table o) b (wb_base_row_id_ t') Hl1 eq_refl) as (fs & Hl2 & Hfs & Hz & Htb & _).
  - split; [apply Hok|]. by eapply refines_base.
  - cbn [ensure_wal_ set_table set_tables set_writer set_wal cat_wal]. lia.
  - exists fs. rewrite <- app_assoc in Hl2. split; [exact Hl2|]. split; [done|]. split.
    + cbn [ensure_wal_ set_table set_tables set_writer set_wal cat_wal] in Hz. unfold op_budget. lia.
    + rewrite Htb. cbn [cat_tables set_table set_tables set_writer set_wal]. by eapply schemas_insert.
Qed.

Lemma insert_step gate c db logged n schema rows : let o := LInsert n schema rows in
  live c db logged -> op_changes (schema_ <$> cat_tables c) o ->
  zlen (log (ensure_wal_ c)) + op_budget o <= WAL_CHECKPOINT_BYTES -> db_bounded (log_step db o) ->
  exists r c', catalog_insert gate c n rows = Some (Ok r, c') /\ change_done c db logged o c'.
Proof.
  intros o Hl (Hok & Happ & Hsch) Hmax Hb. destruct (live_target _ _ _ _ Hl Happ) as (t & a & Ht & Ha & Hta).
  destruct Happ as (Hcan & schema' & Hs' & Hfit). cbn [op_table o] in *.
  rewrite lookup_fmap, Ht in Hsch, Hs'. injection Hsch as <-. injection Hs' as <-.
  pose proof (zlen_nonneg (op_frame (LFlush n 0))). unfold op_budget, WAL_CHECKPOINT_BYTES in Hmax.
  destruct (live_writer c db logged o Hl Hok) as (w & Hw & Hlw & Hlen); [cbn [op_table o] in *; lia|].
  assert (Hba : in_bounds (Spec.insert a rows)) by (apply (Hb n); cbn; by rewrite lookup_alter_eq, Ha).
  destruct (insert_many_refines t a rows Hta Hfit Hba) as (t' & Hi & Ht' & Hst).
  assert (Hd : change_done c db logged o
    (log_flush (set_table (set_writer c w) n t') n (wb_base_row_id_ t) (wb_base_row_id_ t'))).
  { eapply (flush_done c w db logged o t t'); try done.
    eapply refine_alter; [apply Hl|done|done|done]. }
  unfold catalog_insert. rewrite Hcan, Ht, (live_mode _ _ _ Hl). cbn [log_op o] in Hw. rewrite Hw.
  unfold insert_rows. rewrite (table_indexes_live _ _ _ n Hlw). cbn [on_indexes].
  rewrite (put_indexes_live _ _ _ _ _ Hlw), Hi. set (c' := log_flush _ _ _ _) in *.
  destruct Hd as (fs & Hl' & Hfs & Hz & Hsc). rewrite (put_indexes_live _ _ _ _ _ Hl').
  pose proof (live_offset _ _ _ Hl') as Hoff.
  assert (Hno : match cat_wal c' with Some w => WAL_CHECKPOINT_BYTES <? offset_ w | None => false end = false).
  { unfold ensure_wal_ in Hoff, Hz at 1. destruct (cat_wal c') as [w'|]; [|done]. apply Z.ltb_ge.
    rewrite Hoff. unfold op_budget in Hz. unfold WAL_CHECKPOINT_BYTES. cbn [op_table o] in *. lia. }
  rewrite Hno, andb_false_r. eexists _, c'. split; [done|]. by exists fs.
Qed.

Lemma delete_step c db logged n ids : let o := LDelete n ids in
  live c db logged -> op_changes (schema_ <$> cat_tables c) o ->
  zlen (log (ensure_wal_ c)) + op_budget o <= WAL_CHECKPOINT_BYTES -> db_bounded (log_step db o) ->
  exists r c', delete_rows c n ids = (Ok r, c') /\ change_done c db logged o c'.
Proof.
  intros o Hl (Hok & Happ & Hne) Hmax Hb. destruct (live_target _ _ _ _ Hl Happ) as (t & a & Ht & Ha & Hta).
  destruct Happ as (Hcan & schema' & _ & Hids). cbn [op_table o] in *.
  pose proof (zlen_nonneg (op_frame (LFlush n 0))). unfold op_budget, WAL_CHECKPOINT_BYTES in Hmax.
  destruct (live_writer c db logged o Hl Hok) as (w & Hw & Hlw & Hlen); [cbn [op_table o] in *; lia|].
  destruct (mark_deleted_refines t a ids Hta Hids) as [Ht' Hst]; [by apply (log_step_bounded _ _ Hb n)|].
  unfold delete_rows. rewrite Hcan, Ht, (live_mode _ _ _ Hl). cbn [log_op o] in Hw. injection Hw as <-.
  destruct ids as [|id ids]; [done|]. eexists _, _. split; [reflexivity|]. exists []. split.
  - eapply live_set_table; [exact Hlw|].
    eapply refine_alter; [apply Hl|done|done|done].
  - split; [done|]. split; [|by eapply schemas_insert].
    cbn [ensure_wal_ set_table set_tables set_writer set_wal cat_wal]. unfold op_budget. cbn [op_table o]. lia.
Qed.

Lemma update_step c db logged n ids schema rows : let o := LUpdate n ids schema rows in
  live c db logged -> op_changes (schema_ <$> cat_tables c) o ->
  zlen (log (ensure_wal_ c)) + op_budget o <= WAL_CHECKPOINT_BYTES -> db_bounded (log_step db o) ->
  exists r c', update_rows c n ids schema rows = Some (Ok r, c') /\ change_done c db logged o c'.
Proof.
  intros o Hl (Hok & Happ & Hne) Hmax Hb. destruct (live_target _ _ _ _ Hl Happ) as (t & a & Ht & Ha & Hta).
  destruct Happ as (Hcan & schema' & Hs' & Hids & Hfit). cbn [op_table o] in *.
  rewrite lookup_fmap, Ht in Hs'. injection Hs' as <-.
  pose proof (zlen_nonneg (op_frame (LFlush n 0))). unfold op_budget, WAL_CHECKPOINT_BYTES in Hmax.
  destruct (live_writer c db logged o Hl Hok) as (w & Hw & Hlw & Hlen); [cbn [op_table o] in *; lia|].
  assert (Hba : in_bounds (Spec.insert (Spec.delete a ids) rows)) by (apply (Hb n); cbn; by rewrite lookup_alter_eq, Ha).
  destruct (mark_deleted_refines t a ids Hta Hids) as [Ht1 Hs1]; [by apply (log_step_bounded _ _ Hb n)|].
  destruct (insert_many_refines _ _ rows Ht1) as (t' & Hi & Ht' & Hst); [by rewrite Hs1|done|].
  assert (Hd : forall b, change_done c db logged o
    (log_flush (set_table (set_writer c w) n t') n b (wb_base_row_id_ t'))).
  { intros b. eapply (flush_done c w db logged o t t'); try done; [congruence|].
    eapply (refine_alter _ _ _ _ _ (fun a => Spec.insert (Spec.delete a ids) rows)); [apply Hl|done|done|done]. }
  unfold update_rows. rewrite Hcan, Ht, (live_mode _ _ _ Hl). cbn [log_op o] in Hw. rewrite Hw.
  destruct ids as [|id ids]; [done|]. unfold table_update_rows. rewrite Hi. cbn [wb_base_before wb_base_after].
  specialize (Hd (wb_base_row_id_ (table_mark_deleted t (id :: ids)))). set (c' := log_flush _ _ _ _) in *.
  pose proof Hd as (fs & Hl' & _). rewrite (table_indexes_live _ _ _ n Hl'). cbn [on_indexes].
  rewrite (put_indexes_live _ _ _ _ _ Hl'). by eexists _, c'.
Qed.

Lemma change_step gate c db logged o : live c db logged -> op_changes (schema_ <$> cat_tables c) o ->
  zlen (log (ensure_wal_ c)) + op_budget o <= WAL_CHECKPOINT_BYTES -> db_bounded (log_step db o) ->
  exists r c', catalog_change gate c o = Some (Ok r, c') /\ change_done c db logged o c'.
Proof.
  intros Hl Ho Hmax Hb. destruct o as [n s rows|n s|n ids|n ids s rows|n k]; cbn [catalog_change].
  - by apply insert_step.
  - by destruct Ho as (_ & _ & []).
  - destruct (delete_step c db logged n ids Hl Ho Hmax Hb) as (r & c' & -> & Hd). by exists r, c'.
  - by apply update_step.
  - by destruct Ho as (_ & _ & []).
Qed.

Lemma steps_bounded os : forall db, db_bounded (fold_left log_step os db) -> db_bounded db.
Proof. induction os as [|o os IH]; intros db Hb; [done|]. by eapply log_step_bounded, IH. Qed.

Lemma log_budget_nonneg os : 0 <= log_budget os.
Proof.
  induction os as [|o os IH]; cbn [log_budget fold_right]; [lia|]. fold (log_budget os).
  unfold op_budget. pose proof (zlen_nonneg (op_frame o)). pose proof (zlen_nonneg (op_frame (LFlush (op_table o) 0))). lia.
Qed.

(** ** Properties *)

(** C4. Write-ahead logging: on a catalog without indexes whose tables refine [db], any sequence
    of INSERTs, DELETEs and UPDATEs that fit the tables succeeds, as long as the log stays below
    the size of an automatic checkpoint.  The tables then refine [db] with these operations
    applied, and the log was extended by exactly these operations in their order, apart from
    records of sealed segments. *)
Theorem catalog_run_logged gate c db logged os :
  live c db logged -> Forall (op_changes (schema_ <$> cat_tables c)) os ->
  zlen (log (ensure_wal_ c)) + log_budget os <= WAL_CHECKPOINT_BYTES ->
  db_bounded (fold_left log_step os db) ->
  exists c' new, catalog_run gate c os = Some (Ok tt, c') /\
    live c' (fold_left log_step os db) (logged ++ new) /\ changes new = os.
Proof.
  revert c db logged. induction os as [|o os IH]; intros c db logged Hl Hos Hmax Hb.
  { exists c, []. by rewrite app_nil_r. }
  apply Forall_cons in Hos as [Ho Hos]. cbn [log_budget fold_right fold_left] in Hmax, Hb.
  fold (log_budget os) in Hmax. pose proof (log_budget_nonneg os).
  destruct (change_step gate c db logged o Hl Ho) as (r & c1 & Hc & fs & Hl1 & Hfs & Hz & Hs); [lia|by eapply steps_bounded|].
  destruct (IH c1 (log_step db o) (logged ++ o :: fs) Hl1) as (c' & new & Hrun & Hl' & Hnew);
    [by rewrite Hs|lia|done|].
  exists c', (o :: fs ++ new). cbn [catalog_run]. rewrite Hc. split; [done|]. split.
  - by rewrite <- app_assoc in Hl'.
  - unfold changes in *. cbn [List.filter]. rewrite List.filter_app, Hfs, Hnew.
    destruct Ho as (_ & _ & Hk). by destruct o.
Qed.

Definition fresh_state : Catalog := mkCatalog "d" {["t" := two_rows]} None None ∅ ∅ ∅ ∅ ∅ false.

Lemma fresh_live : live fresh_state {["t" := Spec.mk [[VI32 1]; [VI32 2]] ∅]} [].
Proof.
  constructor; try reflexivity; [|constructor]. intros m. cbn [cat_tables fresh_state].
  destruct (decide (m = "t")) as [->|Hne].
  - rewrite !lookup_singleton_eq. constructor. apply two_rows_refines.
  - rewrite !lookup_singleton_ne by (exact (not_eq_sym Hne)). constructor.
Qed.

Lemma catalog_run_logged_witness :
  exists c' new, catalog_run None fresh_state sample_log = Some (Ok tt, c') /\
    live c' {["t" := Spec.mk [[VI32 1]; [VI32 2]; [VI32 2]; [VI32 3]] {[0]}]} new /\ changes new = sample_log.
Proof.
  pose proof two_rows_schema as Hs.
  assert (Hrun : fold_left log_step sample_log {["t" := Spec.mk [[VI32 1]; [VI32 2]] ∅]} =
    {["t" := Spec.mk [[VI32 1]; [VI32 2]; [VI32 2]; [VI32 3]] {[0]}]}) by (vm_compute; reflexivity).
  destruct (catalog_run_logged None fresh_state {["t" := Spec.mk [[VI32 1]; [VI32 2]] ∅]} [] sample_log)
    as (c' & new & Hc & Hl & Hn).
  - exact fresh_live.
  - cbn [cat_tables fresh_state]. rewrite map_fmap_singleton, Hs. clear Hs Hrun.
    repeat apply Forall_cons_2; [| |constructor]; (split; [repeat constructor; vm_compute; congruence|]).
    all: split; [split; [reflexivity|]; exists one_column; split; [reflexivity|]; repeat constructor; vm_compute; congruence|].
    + reflexivity.
    + discriminate.
  - vm_compute. congruence.
  - rewrite Hrun. intros m a Ha. apply lookup_singleton_Some in Ha as [_ <-]. vm_compute. reflexivity.
  - rewrite Hrun in Hl. exists c', new. split; [exact Hc|]. split; [exact Hl|exact Hn].
Defined.
