(* ===== verification/Runner.v ===== *)
(** * Running statements

    The functions of src/src/frontend/runner.cpp, by which [Database::execute] runs the
    statements that change something, and [Database::apply_replicated_record]
    (src/src/database/database.cpp), over the model of the catalog.  [None]: undefined behaviour
    or, in the loops over a scan, no fuel left; as much fuel as the scan has chunks is enough.
    VACUUM is left out.

    The theorem puts together binder, scan, expressions, tables and catalog: a DELETE with a
    WHERE clause deletes exactly the live rows on which the clause is true. *)

From Stdlib Require Import Ascii.
From S2P Require Import Prelude Types XXHash Page LruK BufferPool ColumnPage ColumnFile Codec.
From S2P Require Import IndexFile BTreeNode BTree BTreeSpec Wal SchemaFile ConstraintFile ShardMapFile Table.
From S2P Require Import SelectionVector ColumnVector Chunk Expression Operator HashAggregate TableScan IndexScan.
From S2P Require Import ScanRanges ScanRead ScanStream ScanOpen.
From S2P Require Import Lexer Ast Literals Parser Bound Binder Planner BinderTypes PlanTypes Catalog CatalogRecovery CatalogLog.

(** ** Statements without a scan *)

Definition run_insert (gate : option Z) (c : Catalog) (stmt : bound.BoundInsert) : option (result Z * Catalog) :=
  catalog_insert gate c (bound.bi_table_name stmt) (bound.bi_rows stmt).

Definition run_drop_table (gate : option Z) (c : Catalog) (stmt : bound.BoundDropTable) : option (result unit * Catalog) :=
  drop_table gate c (bound.bd_table_name stmt) (bound.bd_if_exists stmt).

Definition run_drop_index (c : Catalog) (stmt : bound.BoundDropIndex) : result unit * Catalog :=
  drop_index c (bound.bdi_table_name stmt) (bound.bdi_index_name stmt).

Definition run_alter_add_partition (c : Catalog) (stmt : bound.BoundAlterAddPartition) : result unit * Catalog :=
  set_shard_map c (bound.bal_table_name stmt) (bound.bal_updated_shard_map stmt).

Section Create.
Context (std_sort : (bytes * Z -> bytes * Z -> bool) -> list (bytes * Z) -> list (bytes * Z)).

Definition run_create_table (existing : TableFiles) (files : string -> bytes) (c : Catalog)
    (stmt : bound.BoundCreateTable) : option (result unit * Catalog) :=
  let! (r, c) := add_table std_sort existing files c (bound.bc_table_name stmt) (bound.bc_schema stmt)
                   (bound.bc_constraints stmt) in
  match r with
  | Err e => Some (Err e, c)
  | Ok _ =>
      Some (match bound.bc_shard_map stmt with
            | Some sm => set_shard_map c (bound.bc_table_name stmt) sm
            | None => (Ok tt, c)
            end)
  end.

Definition run_create_index (file : bytes) (c : Catalog) (stmt : bound.BoundCreateIndex) : option (result unit * Catalog) :=
  add_index std_sort file c (bound.bci_table_name stmt) (bound.bci_index_name stmt) (bound.bci_col_indices stmt)
    (bound.bci_unique stmt).

(** *** Replication *)

Definition set_replay_mode (c : Catalog) (v : bool) : Catalog :=
  mkCatalog (data_root_ c) (cat_tables c) (cat_wal c) (cat_wal_file c) (constraint_meta_ c) (cat_index_meta c)
    (indexes_ c) (cat_shard_maps c) (cat_meta c) v.

Definition forget {A} (x : result A * Catalog) : result unit * Catalog :=
  (match x.1 with Ok _ => Ok tt | Err e => Err e end, x.2).

Definition apply_replicated_record (gate : option Z) (existing : TableFiles) (c : Catalog) (rec : WalRecord) :
    option (result unit * Catalog) :=
  let c := set_replay_mode c true in
  let! (r, c) :=
    if rec_type rec =? WAL_TYPE_CREATE then
      add_table std_sort existing (fun _ => []) c (table_name rec) (rec_schema rec) []
    else if rec_type rec =? WAL_TYPE_INSERT then
      forget <$> catalog_insert gate c (table_name rec) (rec_rows rec)
    else if rec_type rec =? WAL_TYPE_DELETE then
      Some (forget (delete_rows c (table_name rec) (row_indices rec)))
    else if rec_type rec =? WAL_TYPE_UPDATE then
      forget <$> update_rows c (table_name rec) (row_indices rec) (rec_schema rec) (rec_rows rec)
    else Some (Ok tt, c) in
  Some (r, set_replay_mode c false).
End Create.

(** ** DELETE and UPDATE *)

(** [Some None] is the null pointer; a node over a null pointer is undefined behaviour. *)
Fixpoint to_expr (e : bound.BoundExpr) (binding_offset : nat) : option (option Expression) :=
  let child e := let! p := to_expr e binding_offset in p in
  match e with
  | bound.BoundIntLit v t => Some (Some (Literal (lower_int v t)))
  | bound.BoundDoubleLit b => Some (Some (Literal (VF64 b)))
  | bound.BoundStringLit s => Some (Some (Literal (VStr s)))
  | bound.BoundNullLit _ => Some (Some (Literal VNull))
  | bound.BoundColumnRef r => Some (Some (ColumnRef (binding_offset + bound.column_idx r) (bound.ref_type r)))
  | bound.BoundAggregateRef _ _ | bound.BoundProjectionRef _ _ => Some None
  | bound.BoundBinaryOp op l r _ _ => let! a := child l in let! b := child r in Some (Some (BinaryOp op a b))
  | bound.BoundLogicalOp op l r => let! a := child l in let! b := child r in Some (Some (LogicalOp op a b))
  | bound.BoundNotOp c => let! a := child c in Some (Some (NotOp a))
  | bound.BoundBoolLit b => Some (Some (Literal (VBool b)))
  | bound.BoundDateLit d => Some (Some (Literal (VDate d)))
  | bound.BoundTimestampLit t => Some (Some (Literal (VTimestamp t)))
  | bound.BoundNullCheck k c => let! a := child c in Some (Some (NullCheckOp k a))
  end.

(** A scan of all columns, up to the end of [open]. *)
Definition open_scan (t : Table) (schema : Schema) : option (result unit * TableScan) :=
  let! ts := table_scan_new t (seq 0 (length schema)) None in table_scan_open ts.

Section Run.
Context `{Fpu}.

Fixpoint delete_loop (fuel : nat) (pred_expr : option Expression) (ts : TableScan) (to_delete : list Z) :
    option (result (list Z) * TableScan) :=
  match fuel with
  | O => None
  | S fuel =>
      let! (nr, ts) := table_scan_next ts in
      match nr with
      | Err e => Some (Err e, ts)
      | Ok None => Some (Ok to_delete, ts)
      | Ok (Some chunk) =>
          let! p := pred_expr in
          let! pr := evaluate p chunk in
          match pr with
          | Err e => Some (Err e, ts)
          | Ok pred =>
              let! to_delete :=
                each (zrange 0 (ck_row_count chunk)) (fun r to_delete =>
                  let! keep := mask_keeps pred r in
                  Some (if keep : bool then to_delete ++ [wrap 64 (ts_last_start ts + r)] else to_delete)) to_delete in
              delete_loop fuel pred_expr ts to_delete
          end
      end
  end.

Definition run_delete (fuel : nat) (c : Catalog) (stmt : bound.BoundDelete) : option (result Z * Catalog) :=
  let name := bound.bdel_table_name stmt in
  match bound.bdel_where stmt with
  | None => Some (delete_all c name)
  | Some w =>
      match cat_tables c !! canonicalize name with
      | None => Some (Err ("delete: table not found: " ++ name), c)
      | Some t =>
          let! (r, ts) := open_scan t (bound.bdel_schema stmt) in
          match r with
          | Err e => Some (Err e, set_table c (canonicalize name) (ts_table ts))
          | Ok _ =>
              let! pred_expr := to_expr w 0 in
              let! (r, ts) := delete_loop fuel pred_expr ts [] in
              let c := set_table c (canonicalize name) (ts_table ts) in
              match r with
              | Err e => Some (Err e, c)
              | Ok ids => Some (delete_rows c name ids)
              end
          end
      end
  end.

Definition extract_value (cv : ColumnVector) (r : Z) : option Value :=
  let! null := cv_is_null cv r in
  if (null : bool) then Some VNull
  else
    match cv_type cv with
    | INT32 => VI32 <$> cv_get_i32 cv r
    | INT64 => VI64 <$> cv_get_i64 cv r
    | DOUBLE => VF64 <$> cv_get_f64 cv r
    | BOOL => VBool <$> cv_get_bool cv r
    | DATE => VDate <$> cv_get_date cv r
    | TIMESTAMP => VTimestamp <$> cv_get_timestamp cv r
    | _ => VStr <$> cv_get_str cv r
    end.

(** [set_exprs[asgn.col_idx] = to_expr(...)] for each assignment. *)
Definition set_exprs (schema : Schema) (assignments : list bound.BoundAssignment) : option (list (option Expression)) :=
  each assignments (fun asgn l =>
    let! e := to_expr (bound.ba_expr asgn) 0 in
    if bool_decide (bound.ba_col_idx asgn < length l)%nat then Some (<[bound.ba_col_idx asgn := e]> l) else None)
    (replicate (length schema) None).

(** The columns of the assignments over a chunk. *)
Fixpoint eval_sets (l : list (option Expression)) (chunk : Chunk) : option (result (list (option ColumnVector))) :=
  match l with
  | [] => Some (Ok [])
  | None :: l => let! r := eval_sets l chunk in Some (let? cols := r in Ok (None :: cols))
  | Some e :: l =>
      let! r := evaluate e chunk in
      match r with
      | Err m => Some (Err m)
      | Ok cv => let! r := eval_sets l chunk in Some (let? cols := r in Ok (Some cv :: cols))
      end
  end.

(** Row [r] of the chunk with the assigned columns replaced. *)
Definition new_row (chunk : Chunk) (set_cols : list (option ColumnVector)) (r : Z) : option (list Value) :=
  mapM (fun '(i, set_col) =>
    match set_col with
    | Some cv => extract_value cv r
    | None => let! cv := ck_columns chunk !! i in extract_value cv r
    end) (imap pair set_cols).

Definition row_selected (pred_col : option ColumnVector) (r : Z) : option bool :=
  match pred_col with Some p => mask_keeps p r | None => Some true end.

Fixpoint update_loop (fuel : nat) (pred_expr : option Expression) (sets : list (option Expression)) (ts : TableScan)
    (acc : list Z * list (list Value)) : option (result (list Z * list (list Value)) * TableScan) :=
  match fuel with
  | O => None
  | S fuel =>
      let! (nr, ts) := table_scan_next ts in
      match nr with
      | Err e => Some (Err e, ts)
      | Ok None => Some (Ok acc, ts)
      | Ok (Some chunk) =>
          let! pr := match pred_expr with
                     | None => Some (Ok None)
                     | Some p => let! r := evaluate p chunk in Some (let? cv := r in Ok (Some cv))
                     end in
          match pr with
          | Err e => Some (Err e, ts)
          | Ok pred_col =>
              let! sr := eval_sets sets chunk in
              match sr with
              | Err e => Some (Err e, ts)
              | Ok set_cols =>
                  let! acc :=
                    each (zrange 0 (ck_row_count chunk)) (fun r '(ids, rows) =>
                      let! keep := row_selected pred_col r in
                      if (keep : bool) then
                        let! row := new_row chunk set_cols r in
                        Some (ids ++ [wrap 64 (ts_last_start ts + r)], rows ++ [row])
                      else Some (ids, rows)) acc in
                  update_loop fuel pred_expr sets ts acc
              end
          end
      end
  end.

Definition run_update (fuel : nat) (c : Catalog) (stmt : bound.BoundUpdate) : option (result Z * Catalog) :=
  let name := bound.bu_table_name stmt in
  match cat_tables c !! canonicalize name with
  | None => Some (Err ("update: table not found: " ++ name), c)
  | Some t =>
      let! (r, ts) := open_scan t (bound.bu_schema stmt) in
      match r with
      | Err e => Some (Err e, set_table c (canonicalize name) (ts_table ts))
      | Ok _ =>
          let! sets := set_exprs (bound.bu_schema stmt) (bound.bu_assignments stmt) in
          let! pred_expr := match bound.bu_where stmt with Some w => to_expr w 0 | None => Some None end in
          let! (r, ts) := update_loop fuel pred_expr sets ts ([], []) in
          let c := set_table c (canonicalize name) (ts_table ts) in
          match r with
          | Err e => Some (Err e, c)
          | Ok (ids, rows) => update_rows c name ids (bound.bu_schema stmt) rows
          end
      end
  end.
End Run.

(** ** From the bound WHERE clause to a predicate *)

Lemma scan_signature_lookup schema i col : schema !! i = Some col ->
  scan_signature schema (seq 0 (length schema)) !! i = Some (col_type col, col_nullable col).
Proof.
  intros Hi. pose proof (lookup_lt_Some _ _ _ Hi). unfold scan_signature.
  rewrite list_lookup_fmap, lookup_seq_lt by done. cbn. by rewrite Hi.
Qed.

Definition one_table : ColCtx := mkCtx [0%nat] false 0 ∅.

Lemma one_table_layout name schema :
  layout one_table (table_binding name schema) (scan_signature schema (seq 0 (length schema))).
Proof.
  split; [done|]. intros [|b] bd c col Hb Hc; [|done]. injection Hb as <-. exists 0%nat. split; [done|].
  by apply scan_signature_lookup.
Qed.

(** [to_expr] and the planner's [lower_expr_] agree on one table. *)
Lemma to_expr_lower name schema e x : bound_ok (table_binding name schema) [] e -> lower_expr_ one_table [] 1 e = Some x ->
  to_expr e 0 = Some (Some x).
Proof.
  revert x. induction e as [v t|b|s|t|b|d|t|r|i t|i t|op l IHl r IHr ot rt|op l IHl r IHr|c IH|k c IH];
    intros x Ho Hx; cbn [to_expr] in *; try by injection Hx as <-.
  - destruct Ho as (bd & col & Hb & Hc & _). cbn in Hx. destruct (bound.binding_id r) as [|n]; [|done].
    by injection Hx as <-.
  - by destruct Ho as (a & Ha & _).
  - done.
  - destruct Ho as (Hl & Hr & _).
    change ((let! a := lower_expr_ one_table [] 1 l in let! b := lower_expr_ one_table [] 1 r in Some (BinaryOp op a b)) = Some x) in Hx.
    destruct (lower_expr_ _ _ _ l) as [a|]; [|done]. destruct (lower_expr_ _ _ _ r) as [b|]; [|done].
    injection Hx as <-. by rewrite (IHl a), (IHr b).
  - destruct Ho as (Hl & Hr & _).
    change ((let! a := lower_expr_ one_table [] 1 l in let! b := lower_expr_ one_table [] 1 r in Some (LogicalOp op a b)) = Some x) in Hx.
    destruct (lower_expr_ _ _ _ l) as [a|]; [|done]. destruct (lower_expr_ _ _ _ r) as [b|]; [|done].
    injection Hx as <-. by rewrite (IHl a), (IHr b).
  - destruct Ho as (Hc & _). change ((let! a := lower_expr_ one_table [] 1 c in Some (NotOp a)) = Some x) in Hx.
    destruct (lower_expr_ _ _ _ c) as [a|]; [|done]. injection Hx as <-. by rewrite (IH a).
  - change ((let! a := lower_expr_ one_table [] 1 c in Some (NullCheckOp k a)) = Some x) in Hx.
    destruct (lower_expr_ _ _ _ c) as [a|]; [|done]. injection Hx as <-. by rewrite (IH a).
Qed.

(** A clause that the binder accepted becomes a well-typed predicate over the scan. *)
Lemma to_expr_typed name schema e : Forall (fun col => is_vec_type (col_type col) = true) schema ->
  bound_ok (table_binding name schema) [] e -> evaluable e ->
  exists x, to_expr e 0 = Some (Some x) /\ well_typed (scan_signature schema (seq 0 (length schema))) x /\
    output_type x = bound.bound_expr_type e.
Proof.
  intros Ht Ho He.
  destruct (lower_typed one_table [] 1 (table_binding name schema) _ e (one_table_layout name schema)) as
    (x & Hx & Hb & Hr & Hty & _); [by repeat constructor|done|done|].
  exists x. split; [by eapply to_expr_lower|]. by split.
Qed.

(** ** The rows that a predicate selects *)

Section Matching.
Context `{Fpu}.

Definition row_keeps (e : Expression) (r : row) : bool :=
  match eval_row e r with Some (Ok v) => keeps v | _ => false end.

(** The live rows of a table on which the predicate is true, by row id. *)
Definition matching (a : Spec.t) (e : Expression) : list Z :=
  List.filter (fun id => negb (bool_decide (id ∈ Spec.deleted a)) &&
    match Spec.rows a !! Z.to_nat id with Some r => row_keeps e r | None => false end) (zrange 0 (zlen (Spec.rows a))).

(** The predicate has a value on every live row. *)
Definition evaluates (a : Spec.t) (e : Expression) : Prop :=
  forall id r, 0 <= id -> id ∉ Spec.deleted a -> Spec.rows a !! Z.to_nat id = Some r -> exists v, eval_row e r = Some (Ok v).

Lemma select_zrange (f : Z -> bool) s n : select (map f (zrange s n)) (zrange s n) = List.filter f (zrange s n).
Proof. induction (zrange s n) as [|x l IH]; [done|]. cbn. rewrite IH. by destruct (f x). Qed.

Lemma fold_left_snoc {A B} (f : A -> B) l : forall acc, fold_left (fun acc r => acc ++ [f r]) l acc = acc ++ map f l.
Proof. induction l as [|x l IH]; intros acc; cbn; [by rewrite app_nil_r|]. by rewrite IH, <- app_assoc. Qed.

Lemma row_values_keeps e rows vs : mapM (row_value e) rows = Some vs -> map keeps vs = map (row_keeps e) rows.
Proof.
  intros Hv. apply mapM_Some in Hv. induction Hv as [|r v rows vs Hr _ IH]; [done|]. cbn. f_equal; [|done].
  unfold row_value in Hr. unfold row_keeps. destruct (eval_row e r) as [[u|m]|]; try done. by injection Hr as ->.
Qed.
End Matching.

(** ** A chunk of the scan *)

Section Chunks.
Context `{Fpu} (sealed : list (list row)) (wb : list row) (t : Table) (e : Expression).
Abbreviation columns := (seq 0 (length (schema_ t))).
Abbreviation rows := (all_rows sealed wb).
Hypothesis Hwidth : Forall (fun r => length r = length (schema_ t)) rows.
Hypothesis Htyped : well_typed (scan_signature (schema_ t) columns) e.
Hypothesis Htype : output_type e = INT32.
Hypothesis Hmax : zlen rows < 2 ^ 63.

(** The window of a chunk lies in the table. *)
Definition window (s n : Z) : Prop := 0 <= n /\ (0 < n -> 0 <= s /\ s + n <= zlen rows).

Definition id_keeps (id : Z) : bool :=
  match rows !! Z.to_nat id with Some r => row_keeps e r | None => false end.

Lemma scan_row_all r : length r = length (schema_ t) -> scan_row columns r = r.
Proof.
  intros Hl. unfold scan_row. apply list_eq. intros i. rewrite list_lookup_fmap.
  destruct (decide (i < length r)%nat) as [Hi|Hi].
  - rewrite lookup_seq_lt by lia. destruct (lookup_lt_is_Some_2 r i Hi) as [v Hv].
    cbn. by rewrite nth_lookup, Hv.
  - rewrite lookup_seq_ge by lia. by rewrite lookup_ge_None_2 by lia.
Qed.

Lemma window_slice s n : window s n ->
  zlen (slice s n rows) = n /\ map (row_keeps e) (slice s n rows) = map id_keeps (zrange s n) /\
  map (scan_row columns) (slice s n rows) = slice s n rows.
Proof.
  intros [Hn Hw]. destruct (decide (n = 0)) as [->|Hne]; [done|]. specialize (Hw ltac:(lia)).
  assert (Hl : length (slice s n rows) = Z.to_nat n).
  { unfold slice. rewrite length_take, length_drop. unfold zlen in *. lia. }
  split; [unfold zlen; lia|]. split.
  - apply list_eq. intros i. rewrite !list_lookup_fmap. destruct (decide (i < Z.to_nat n)%nat) as [Hi|Hi].
    + rewrite lookup_zrange by lia. cbn.
      destruct (lookup_lt_is_Some_2 (slice s n rows) i ltac:(lia)) as [r Hr]. rewrite Hr. cbn. f_equal.
      unfold id_keeps. unfold slice in Hr. rewrite lookup_take_lt, lookup_drop in Hr by done.
      replace (Z.to_nat (s + Z.of_nat i)) with (Z.to_nat s + i)%nat by lia. by rewrite Hr.
    + rewrite lookup_ge_None_2 by lia. rewrite lookup_ge_None_2; [done|]. rewrite length_zrange. lia.
  - rewrite <- (map_id (slice s n rows)) at 2. apply map_ext_in. intros r Hr. apply scan_row_all.
    apply (proj1 (List.Forall_forall _ _) Hwidth). apply list_elem_of_In in Hr. apply list_elem_of_lookup in Hr as [k Hk].
    pose proof (lookup_lt_Some _ _ _ Hk). unfold slice in Hk. rewrite lookup_take_lt, lookup_drop in Hk by lia.
    apply list_elem_of_In. by eapply list_elem_of_lookup_2.
Qed.

Lemma chunk_mask s c : chunk_of_rows sealed wb t columns (s, c) -> window s (ck_row_count c) ->
  Forall (fun r => exists v, eval_row e r = Some (Ok v)) (slice s (ck_row_count c) rows) ->
  exists out, evaluate e c = Some (Ok out) /\ cv_wf out /\ cv_type out = INT32 /\ cv_size out = ck_row_count c /\
    mask_flags out = map id_keeps (zrange s (ck_row_count c)).
Proof.
  intros [[Hwf _] Hrows] Hw Hval. cbn [fst snd] in *. destruct (window_slice _ _ Hw) as (Hlen & Hkeeps & Hsame).
  rewrite Hsame in Hrows.
  assert (Hmap : exists vs, mapM (row_value e) (chunk_rows c) = Some vs).
  { apply mapM_is_Some_2. rewrite Hrows. apply (Forall_impl _ _ _ Hval). intros r [v Hv]. exists v. cbn. unfold row_value. by rewrite Hv. }
  destruct (evaluate_defined _ c e Hwf Htyped) as [(out & Ho & (Hcw & Hty & _ & Hsz) & Hm)|[_ Hm]].
  - unfold defined_on. rewrite Hrows. apply (Forall_impl _ _ _ Hval). intros r [v Hv]. by rewrite Hv.
  - exists out. split; [done|]. split; [done|]. split; [by rewrite Hty|]. split.
    + rewrite Hsz, (logical_size_ok _ _ Hwf). rewrite <- Hlen, <- Hrows. unfold chunk_rows, zlen. by rewrite length_map.
    + unfold mask_flags. rewrite (row_values_keeps _ _ _ Hm), Hrows. done.
  - destruct Hmap as [vs Hvs]. by rewrite Hvs in Hm.
Qed.

(** The ids that the loop over a chunk adds. *)
Lemma chunk_ids s c out acc : window s (ck_row_count c) -> cv_wf out -> cv_type out = INT32 ->
  cv_size out = ck_row_count c -> mask_flags out = map id_keeps (zrange s (ck_row_count c)) ->
  each (zrange 0 (ck_row_count c)) (fun r ids =>
    let! keep := mask_keeps out r in Some (if keep : bool then ids ++ [wrap 64 (s + r)] else ids)) acc =
  Some (acc ++ List.filter id_keeps (zrange s (ck_row_count c))).
Proof using Hmax.
  intros Hw Hcw Hty Hsz Hm. rewrite (each_select_range (fun ids r => ids ++ [wrap 64 (s + r)]) out _ acc Hcw Hty Hsz).
  rewrite fold_left_snoc, <- select_map, Hm, <- select_zrange. do 3 f_equal.
  replace (zrange s (ck_row_count c)) with (map (Z.add s) (zrange 0 (ck_row_count c))) by (by rewrite map_add_zrange, Z.add_0_r).
  apply map_ext_in. intros r Hr. apply list_elem_of_In, elem_zrange in Hr. destruct Hw as [_ Hw].
  specialize (Hw ltac:(lia)). apply wrap_id. unfold in_u. lia.
Qed.

(** A row id whose row has a value of the predicate. *)
Definition id_ok (id : Z) : Prop :=
  0 <= id /\ exists r v, rows !! Z.to_nat id = Some r /\ eval_row e r = Some (Ok v).

Lemma ids_window s n : 0 <= n -> Forall id_ok (zrange s n) -> window s n.
Proof.
  intros Hn Hf. split; [done|]. intros Hpos. rewrite Forall_forall in Hf.
  destruct (Hf s) as [Hs _]; [apply elem_zrange; lia|]. split; [done|].
  destruct (Hf (s + n - 1)) as [_ (r & _ & Hr & _)]; [apply elem_zrange; lia|].
  apply lookup_lt_Some in Hr. unfold zlen. lia.
Qed.

Lemma ids_values s n : window s n -> Forall id_ok (zrange s n) ->
  Forall (fun r => exists v, eval_row e r = Some (Ok v)) (slice s n rows).
Proof.
  intros [Hn Hw] Hf. apply Forall_lookup_2. intros k r Hk. pose proof (lookup_lt_Some _ _ _ Hk) as Hlt.
  unfold slice in Hlt. rewrite length_take in Hlt. specialize (Hw ltac:(lia)).
  rewrite Forall_forall in Hf. destruct (Hf (s + Z.of_nat k)) as [_ (r' & v & Hr & Hv)]; [apply elem_zrange; lia|].
  unfold slice in Hk. rewrite lookup_take_lt, lookup_drop in Hk by lia.
  replace (Z.to_nat (s + Z.of_nat k)) with (Z.to_nat s + k)%nat in Hr by lia. rewrite Hk in Hr. injection Hr as <-. by exists v.
Qed.

Lemma delete_loop_ok ts l ts' : scan_runs ts l ts' -> forall fuel acc,
  Forall (chunk_of_rows sealed wb t columns) l -> Forall id_ok (trace_ids l) -> (length l < fuel)%nat ->
  delete_loop fuel (Some e) ts acc = Some (Ok (acc ++ List.filter id_keeps (trace_ids l)), ts').
Proof using Hwidth Htyped Htype Hmax.
  induction 1 as [ts ts' Hn|ts ts1 ts' c l Hn _ IH]; intros fuel acc Hl Hids Hfuel;
    (destruct fuel as [|fuel]; [cbn in Hfuel; lia|]); cbn [delete_loop]; rewrite Hn.
  { cbn. by rewrite app_nil_r. }
  apply Forall_cons in Hl as [Hc Hl]. cbn [trace_ids flat_map] in Hids. fold (trace_ids l) in Hids.
  apply Forall_app in Hids as [Hs Hids].
  pose proof (ids_window _ _ (proj1 (ckw_rows _ _ (proj1 (proj1 Hc)))) Hs) as Hw.
  destruct (chunk_mask _ c Hc Hw (ids_values _ _ Hw Hs)) as (out & -> & Hcw & Hty & Hsz & Hm).
  rewrite (chunk_ids _ c out acc Hw Hcw Hty Hsz Hm).
  rewrite (IH fuel _ Hl Hids) by (cbn in Hfuel; lia). cbn [trace_ids flat_map]. fold (trace_ids l).
  by rewrite List.filter_app, app_assoc.
Qed.
End Chunks.

(** ** Whole statements *)

Lemma open_scan_ok t a : refines t a -> in_bounds a ->
  exists sealed wb ts l ts', all_rows sealed wb = Spec.rows a /\ open_scan t (schema_ t) = Some (Ok tt, ts) /\
    scan_runs ts l ts' /\ Forall (chunk_of_rows sealed wb t (seq 0 (length (schema_ t)))) l /\
    trace_ids l = List.filter (fun id => negb (bool_decide (id ∈ Spec.deleted a))) (zrange 0 (zlen (Spec.rows a))) /\
    refines (ts_table ts') a /\ schema_ (ts_table ts') = schema_ t.
Proof.
  intros Href Hb%in_bounds_max. pose proof (live_ids_spec t a Href) as Hlive.
  destruct Href as (sealed & wb & Ht & Hrows & Hdel). rewrite <- Hrows in Hb.
  destruct (table_scan_ok sealed wb None Hb t (seq 0 (length (schema_ t))) Ht) as
    (ts0 & ts & l & ts' & Hnew & Hopen & Hrun & Ht' & Hs & Hall & (_ & Hids & _)); [|done|].
  { apply Forall_forall. intros i Hi. apply elem_of_seq in Hi. unfold in_schema. lia. }
  exists sealed, wb, ts, l, ts'. split; [done|]. split; [by unfold open_scan; rewrite Hnew|].
  split; [done|]. split; [done|]. split; [by rewrite (Hids eq_refl), Hrows|].
  split; [|apply Hs]. exists sealed, wb. split; [done|]. split; [done|]. intros gid Hg.
  rewrite (same_table_deleted _ _ _ Hs). by apply Hdel.
Qed.

Lemma tolower_idem c : tolower (tolower c) = tolower c.
Proof. by destruct c as [[] [] [] [] [] [] [] []]. Qed.

Lemma canonicalize_idem s : canonicalize (canonicalize s) = canonicalize s.
Proof.
  unfold canonicalize, chars, string_of. rewrite String.list_ascii_of_string_of_list_ascii, map_map.
  f_equal. apply map_ext, tolower_idem.
Qed.

Lemma delete_rows_name c name ids : delete_rows c name ids =
  match ids, cat_tables c !! canonicalize name with
  | _ :: _, None => (Err ("delete: table not found: " ++ name), c)
  | _, _ => delete_rows c (canonicalize name) ids
  end.
Proof. unfold delete_rows. rewrite canonicalize_idem. by destruct ids, (cat_tables c !! canonicalize name). Qed.

Lemma delete_rows_count c name ids r c' : delete_rows c name ids = (Ok r, c') -> r = zlen ids.
Proof.
  unfold delete_rows. destruct ids as [|id ids]; [by intros [= <- _]|].
  destruct (cat_tables c !! canonicalize name); [|done]. by intros [= <- _].
Qed.

Section Statements.
Context `{Fpu}.

(** Only the tables were changed, by reads. *)
Lemma live_scanned c db logged n t t' a : live c db logged -> cat_tables c !! n = Some t -> db !! n = Some a ->
  refines t' a -> live (set_table c n t') db logged.
Proof.
  intros Hl Ht Ha Hr. eapply live_set_table; [done|]. intros m. destruct (decide (n = m)) as [<-|Hne].
  - rewrite lookup_insert_eq, Ha. by constructor.
  - rewrite lookup_insert_ne by done. apply Hl.
Qed.

Lemma matching_filter sealed wb a e : all_rows sealed wb = Spec.rows a ->
  List.filter (id_keeps sealed wb e)
    (List.filter (fun id => negb (bool_decide (id ∈ Spec.deleted a))) (zrange 0 (zlen (Spec.rows a)))) = matching a e.
Proof. intros Hr. rewrite filter_and. unfold matching, id_keeps. by rewrite Hr. Qed.

Lemma live_ids_ok sealed wb a e : all_rows sealed wb = Spec.rows a -> evaluates a e ->
  Forall (id_ok sealed wb e)
    (List.filter (fun id => negb (bool_decide (id ∈ Spec.deleted a))) (zrange 0 (zlen (Spec.rows a)))).
Proof.
  intros Hr He. apply Forall_forall. intros id Hid. apply list_elem_of_In, filter_In in Hid as [Hin Hd].
  apply list_elem_of_In, elem_zrange in Hin. apply negb_true_iff, bool_decide_eq_false in Hd.
  destruct (lookup_lt_is_Some_2 (Spec.rows a) (Z.to_nat id)) as [r Hrow]; [unfold zlen in Hin; lia|].
  destruct (He id r) as [v Hv]; [lia|done|done|]. split; [lia|]. exists r, v. by rewrite Hr.
Qed.

Lemma matching_range a e : Forall (fun id => 0 <= id < zlen (Spec.rows a)) (matching a e).
Proof.
  apply Forall_forall. intros id Hid. apply list_elem_of_In, filter_In, proj1, list_elem_of_In, elem_zrange in Hid. lia.
Qed.

Lemma matching_length a e : zlen (matching a e) <= zlen (Spec.rows a).
Proof.
  unfold matching, zlen. pose proof (filter_length_le (fun id => negb (bool_decide (id ∈ Spec.deleted a)) &&
    match Spec.rows a !! Z.to_nat id with Some r => row_keeps e r | None => false end) (zrange 0 (Z.of_nat (length (Spec.rows a))))) as Hl.
  rewrite length_zrange in Hl. lia.
Qed.

Lemma refines_types t a : refines t a -> Forall (fun col => is_vec_type (col_type col) = true) (schema_ t).
Proof.
  intros (sealed & wb & Ht & _). apply (Forall_impl _ _ _ (sv_cols _ (tr_schema _ _ _ Ht))).
  intros col (_ & _ & Hcap). by eapply stored_type.
Qed.

Lemma delete_bounded db n ids : db_bounded db -> db_bounded (log_step db (LDelete n ids)).
Proof.
  intros Hb m a Ha. cbn [log_step] in Ha. destruct (decide (n = m)) as [<-|Hne].
  - rewrite lookup_alter_eq in Ha. destruct (db !! n) as [b|] eqn:E; [|done]. injection Ha as <-. exact (Hb n b E).
  - rewrite lookup_alter_ne in Ha by done. by apply (Hb m).
Qed.

Lemma delete_nothing (db : database) n : alter (fun a => Spec.delete a []) n db = db.
Proof.
  apply map_eq. intros m. destruct (decide (n = m)) as [<-|Hne]; [|by rewrite lookup_alter_ne].
  rewrite lookup_alter_eq. destruct (db !! n) as [[r d]|]; [|done]. cbn. unfold Spec.delete. cbn.
  by rewrite union_empty_r_L.
Qed.

(** The rows of a table that was scanned are deleted. *)
Lemma delete_scanned c db logged name t a ids : let n := canonicalize name in
  live c db logged -> db_bounded db -> cat_tables c !! n = Some t -> db !! n = Some a ->
  in_u 16 (strlen n) -> Forall (fun id => 0 <= id < zlen (Spec.rows a)) ids -> zlen ids <= zlen (Spec.rows a) ->
  zlen (log (ensure_wal_ c)) + op_budget (LDelete n ids) <= WAL_CHECKPOINT_BYTES ->
  exists c' ops, delete_rows c name ids = (Ok (zlen ids), c') /\
    live c' (alter (fun a => Spec.delete a ids) n db) (logged ++ ops).
Proof.
  intros n Hl Hb Ht Ha Hname Hids Hlen Hmax. rewrite delete_rows_name. fold n. rewrite Ht.
  destruct ids as [|id ids].
  { exists c, []. rewrite delete_nothing, app_nil_r. by split. }
  pose proof (Hb n a Ha) as Hba. unfold in_bounds in Hba.
  assert (Hok : Forall (in_u 64) (id :: ids)) by (apply (Forall_impl _ _ _ Hids); intros x Hx; unfold in_u; lia).
  destruct (delete_step c db logged n (id :: ids) Hl) as (r & c' & Hd & fs & Hl' & _ & _ & _); [|done|by apply delete_bounded|].
  { split; [|split; [|done]].
    - split; [done|]. split; [done|]. pose proof (zlen_nonneg (id :: ids)). split; lia.
    - split; [apply canonicalize_idem|]. exists (schema_ t). cbn [op_table]. rewrite lookup_fmap, Ht. split; [done|]. exact Hok. }
  exists c', (LDelete n (id :: ids) :: fs). rewrite (delete_rows_count _ _ _ _ _ Hd) in Hd. by split.
Qed.

(** DELETE with a predicate [e] on the table. *)
Lemma run_delete_ok c db logged stmt w e t a : let n := canonicalize (bound.bdel_table_name stmt) in
  live c db logged -> db_bounded db -> cat_tables c !! n = Some t -> db !! n = Some a ->
  bound.bdel_where stmt = Some w -> bound.bdel_schema stmt = schema_ t -> to_expr w 0 = Some (Some e) ->
  well_typed (scan_signature (schema_ t) (seq 0 (length (schema_ t)))) e -> output_type e = INT32 ->
  Forall (fun r => length r = length (schema_ t)) (Spec.rows a) -> evaluates a e -> in_u 16 (strlen n) ->
  zlen (log (ensure_wal_ c)) + op_budget (LDelete n (matching a e)) <= WAL_CHECKPOINT_BYTES ->
  exists fuel c' ops,
    (forall fuel', (fuel <= fuel')%nat -> run_delete fuel' c stmt = Some (Ok (zlen (matching a e)), c')) /\
    live c' (alter (fun b => Spec.delete b (matching a e)) n db) (logged ++ ops).
Proof.
  intros n Hl Hb Ht Ha Hwh Hsch Hex Hwt Hty Hwidth Hev Hname Hmax.
  assert (Hta : refines t a).
  { pose proof (live_tables _ _ _ Hl n) as Hr. rewrite Ht, Ha in Hr. by inversion Hr. }
  destruct (open_scan_ok t a Hta (Hb _ _ Ha)) as (sealed & wb & ts & l & ts' & Hrows & Hscan & Hrun & Hall & Hids & Ht' & Hs').
  pose proof (live_scanned c db logged n t _ a Hl Ht Ha Ht') as Hl'.
  destruct (delete_scanned _ db logged (bound.bdel_table_name stmt) (ts_table ts') a (matching a e) Hl' Hb) as (c' & ops & Hd & Hlive);
    [apply lookup_insert_eq|done|done|apply matching_range|apply matching_length|done|].
  exists (S (length l)), c', ops. split; [|done]. intros fuel' Hf. unfold run_delete. fold n.
  rewrite Hwh, Ht, Hsch, Hscan, Hex.
  rewrite (delete_loop_ok sealed wb t e ltac:(by rewrite Hrows) Hwt Hty ltac:(rewrite Hrows; by apply in_bounds_max, (Hb n)) ts l ts'
    Hrun fuel' []) by (done || lia || by rewrite Hids; apply live_ids_ok).
  rewrite Hids, matching_filter by done. cbn [app]. by rewrite Hd.
Qed.

(** ** Properties *)

(** C5. A DELETE with a WHERE clause that the binder accepted, on a catalog without indexes whose
    tables refine [db]: if the clause is boolean and has a value on every live row, the statement
    reports the number of live rows on which it is true, and these rows, no others, are then
    marked as deleted, whatever the segments, deletions and page boundaries of the table, as long as
    the log stays below the size of an automatic checkpoint; the other tables are as before, and the catalog's log and tables still agree. *)
Theorem delete_where_correct source_ c db logged s stmt w e a :
  let n := canonicalize (ast.del_table_name s) in
  live c db logged -> db_bounded db -> db !! n = Some a ->
  @bind_delete (catalog_view c) source_ s = Ok stmt -> opt_lits (ast.del_where s) ->
  bound.bdel_where stmt = Some w -> evaluable w -> bound.bound_expr_type w = INT32 -> to_expr w 0 = Some (Some e) ->
  Forall (fun r => length r = length (bound.bdel_schema stmt)) (Spec.rows a) -> evaluates a e ->
  in_u 16 (strlen n) ->
  zlen (log (ensure_wal_ c)) + op_budget (LDelete n (matching a e)) <= WAL_CHECKPOINT_BYTES ->
  exists fuel c' ops,
    (forall fuel', (fuel <= fuel')%nat -> run_delete fuel' c stmt = Some (Ok (zlen (matching a e)), c')) /\
    live c' (alter (fun b => Spec.delete b (matching a e)) n db) (logged ++ ops).
Proof.
  intros n Hl Hb Ha Hbind Hlits Hwh Hev Hty Hex Hwidth Hval Hname Hmax.
  unfold bind_delete, schema_of in Hbind. cbn [tables_ catalog_view] in Hbind. fold n in Hbind.
  pose proof (live_tables _ _ _ Hl n) as Hr. rewrite Ha in Hr. inversion Hr as [t ? Hta Ht Hx|]; subst. symmetry in Ht.
  rewrite lookup_fmap, Ht in Hbind. cbn [fmap option_fmap option_map] in Hbind.
  destruct (bind_where _ _ _) as [wh|] eqn:Ew; [|done]. injection Hbind as <-.
  cbn [bound.bdel_where bound.bdel_schema] in *. subst wh.
  destruct (to_expr_typed (ast.del_table_name s) (schema_ t) w) as (x & Hx & Hwt & Hout);
    [by eapply refines_types|by eapply (bind_where_ok _ _ _ _ Hlits Ew)|done|].
  rewrite Hex in Hx. injection Hx as <-.
  eapply run_delete_ok; try done. by rewrite Hout.
Qed.
End Statements.

(** [DELETE FROM T WHERE a = 2] *)
Definition sample_delete : ast.DeleteStmt :=
  ast.mkDelete "T" (Some (ast.BinaryOp EQ (ast.ColumnRef None "a" (mkLoc 20 1)) (ast.IntLit 2 (mkLoc 24 1)) (mkLoc 22 1))).

Definition sample_where : bound.BoundExpr :=
  bound.BoundBinaryOp EQ (bound.BoundColumnRef (bound.mkRef 0 0 INT32 false)) (bound.BoundIntLit 2 INT32) INT32 INT32.

Lemma sample_delete_binds : @bind_delete (catalog_view fresh_state) [] sample_delete =
  Ok (bound.mkDelete "T" one_column (Some sample_where)).
Proof.
  unfold bind_delete, schema_of. cbn [tables_ catalog_view cat_tables fresh_state].
  rewrite map_fmap_singleton, two_rows_schema. reflexivity.
Qed.

Lemma delete_where_correct_witness :
  exists fuel c' ops, (forall fuel', (fuel <= fuel')%nat ->
      @run_delete default_fpu fuel' fresh_state (bound.mkDelete "T" one_column (Some sample_where)) = Some (Ok 1, c')) /\
    live c' {["t" := Spec.mk [[VI32 1]; [VI32 2]] {[1]}]} ops.
Proof.
  set (e := BinaryOp EQ (ColumnRef 0 INT32) (Literal (VI32 2))).
  set (a := Spec.mk [[VI32 1]; [VI32 2]] ∅).
  assert (Hm : @matching default_fpu a e = [1]) by (vm_compute; reflexivity).
  destruct (@delete_where_correct default_fpu [] fresh_state {["t" := a]} [] sample_delete
    (bound.mkDelete "T" one_column (Some sample_where)) sample_where e a) as (fuel & c' & ops & Hrun & Hl).
  - exact fresh_live.
  - intros m b Hb. apply lookup_singleton_Some in Hb as [_ <-]. vm_compute. reflexivity.
  - reflexivity.
  - exact sample_delete_binds.
  - intros x Hx. injection Hx as <-. vm_compute. repeat split; congruence.
  - reflexivity.
  - vm_compute. repeat split.
  - reflexivity.
  - reflexivity.
  - repeat constructor.
  - intros id r Hid _ Hr. destruct (Z.to_nat id) as [|[|k]]; [| |discriminate]; injection Hr as <-; eexists; vm_compute; reflexivity.
  - vm_compute. split; congruence.
  - rewrite Hm. vm_compute. congruence.
  - rewrite Hm in *. exists fuel, c', ops. split; [exact Hrun|].
    assert (Hd : alter (fun b => Spec.delete b [1]) "t" {["t" := a]} = {["t" := Spec.mk [[VI32 1]; [VI32 2]] {[1]}]} :> database)
      by (vm_compute; reflexivity).
    change (canonicalize (ast.del_table_name sample_delete)) with "t" in Hl. rewrite Hd in Hl. exact Hl.
Defined.
