(* ===== verification/Election.v ===== *)
(** * Leader election

    [ElectionManager] (src/src/replication/election.h, election.cpp): the messages, timeouts
    and the state file of a node, and the frames that [ReplicationManager::handle_repl_frame]
    (replication_manager.cpp) turns into messages.  The manager's thread handles one message or
    timeout at a time; each handler is a function from the state of the node to its new state
    and the effects it has, in order.  Cluster puts nodes and a network together. *)

From S2P Require Import Prelude Types Wire Wal.

Inductive Role : Type := Follower | Candidate | Leader.

#[export] Instance Role_eq_dec : EqDecision Role.
Proof. solve_decision. Defined.

(** ** Configuration *)

Record NodeConfig : Type := mkConfig {
  node_id : string;
  configured_leader : bool;
  peer_addrs : list string
}.

(** The position of the last colon of a byte string. *)
Fixpoint rfind_colon (s : bytes) : option nat :=
  match s with
  | [] => None
  | c :: s' =>
      match rfind_colon s' with
      | Some i => Some (S i)
      | None => if c =? 58 then Some 0%nat else None
      end
  end.

(** The host part of [parse_addr]: the address before its last colon, unless that is missing
    or the last character. *)
Definition parse_host (addr : string) : string :=
  let bs := bytes_of_string addr in
  match rfind_colon bs with
  | None => addr
  | Some i => if (length bs <=? i + 1)%nat then addr else string_of_bytes (take i bs)
  end.

(** ** The state of a node *)

Record Election : Type := mkElection {
  el_config : NodeConfig;
  el_peers : list string;
  el_cluster_size : Z;
  el_term : Z;
  el_voted_for : string;
  el_leader : string;
  el_role : Role;
  el_votes : Z;
  (* the content of election_state.bin *)
  el_file : option bytes
}.

Inductive Effect : Type :=
| SendVoteReq (peer : string) (term : Z) (candidate : string) (lsn : Z)
| SendHeartbeat (peer : string) (term : Z) (leader : string)
| Respond (granted : bool)
| OnBecameLeader
| OnBecameFollower.

Definition with_state (e : Election) term voted leader role votes : Election :=
  mkElection (el_config e) (el_peers e) (el_cluster_size e) term voted leader role votes (el_file e).

Definition self (e : Election) : string := node_id (el_config e).

(** The constructor. *)
Definition new_manager (config : NodeConfig) (file : option bytes) : Election :=
  let peers := List.filter (fun peer => negb (bool_decide (parse_host peer = node_id config))) (peer_addrs config) in
  let n := wrap 32 (zlen (peer_addrs config)) in
  mkElection config peers (if n =? 0 then 1 else n) 0 "" "" Follower 0 file.

(** ** The state file *)

Definition state_bytes (term : Z) (voted_for : string) : bytes :=
  wal_put_u64 term ++ wal_put_u16 (wrap 16 (strlen voted_for)) ++ bytes_of_string voted_for.

Definition persist_state_ (e : Election) (term : Z) (voted_for : string) : Election :=
  mkElection (el_config e) (el_peers e) (el_cluster_size e) (el_term e) (el_voted_for e) (el_leader e)
    (el_role e) (el_votes e) (Some (state_bytes term voted_for)).

Definition load_state_ (e : Election) : Election :=
  match el_file e with
  | None => e
  | Some f =>
      if zlen f <? 10 then e
      else
        let vlen := wal_read_u16 (drop 8 f) in
        let voted :=
          if vlen >? 0
          then if zlen (drop 10 f) <? vlen then EmptyString else string_of_bytes (take (Z.to_nat vlen) (drop 10 f))
          else el_voted_for e in
        with_state e (wal_read_u64 f) voted (el_leader e) (el_role e) (el_votes e)
  end.

Definition start (e : Election) : Election :=
  let e := load_state_ e in
  if configured_leader (el_config e)
  then with_state e (if el_term e =? 0 then 1 else el_term e) (el_voted_for e) (self e) Leader (el_votes e)
  else e.

(** ** Sending *)

Definition send_heartbeats_ (e : Election) : list Effect :=
  match el_peers e with
  | [] => []
  | _ =>
      match el_role e with
      | Leader => map (fun peer => SendHeartbeat peer (el_term e) (self e)) (el_peers e)
      | _ => []
      end
  end.

Definition broadcast_vote_req_ (e : Election) (lsn : Z) : list Effect :=
  map (fun peer => SendVoteReq peer (el_term e) (self e) lsn) (el_peers e).

Definition majority (e : Election) : Z := wrap 32 (el_cluster_size e + 1) / 2.

Definition become_leader_ (e : Election) : Election * list Effect :=
  let e := with_state e (el_term e) (el_voted_for e) (self e) Leader 0 in
  (e, OnBecameLeader :: send_heartbeats_ e).

Definition start_election_ (e : Election) (lsn : Z) : Election * list Effect :=
  let term := wrap 64 (el_term e + 1) in
  let e := with_state e term (self e) (el_leader e) Candidate 1 in
  let e := persist_state_ e term (self e) in
  let sent := broadcast_vote_req_ e lsn in
  if majority e <=? 1
  then let '(e, effects) := become_leader_ e in (e, sent ++ effects)
  else (e, sent).

(** ** Handlers *)

Definition handle_heartbeat_ (e : Election) (term : Z) (from : string) : Election * list Effect :=
  if term <? el_term e then (e, [])
  else
    let step_down b := if b : bool then [OnBecameFollower] else [] in
    if el_term e <? term then
      let was := negb (bool_decide (el_role e = Follower)) in
      let e := with_state e term "" from Follower (el_votes e) in
      (if term >? 0 then persist_state_ e term "" else e, step_down was)
    else
      match el_role e with
      | Candidate => (with_state e (el_term e) (el_voted_for e) from Follower (el_votes e), [OnBecameFollower])
      | Follower => (with_state e (el_term e) (el_voted_for e) from Follower (el_votes e), [])
      | Leader =>
          if bool_decide (from = self e) then (e, [])
          else
            let e := with_state e (el_term e) (el_voted_for e) from Follower (el_votes e) in
            (if el_term e >? 0 then persist_state_ e (el_term e) "" else e, [OnBecameFollower])
      end.

Definition handle_vote_req_ (e : Election) (my_lsn : Z) (term : Z) (from : string) (lsn : Z) :
    Election * list Effect :=
  let '(e, became_follower) :=
    if el_term e <? term
    then (with_state e term "" (el_leader e) Follower (el_votes e), negb (bool_decide (el_role e = Follower)))
    else (e, false) in
  let grant := (el_term e <=? term) && (my_lsn <=? lsn) &&
    (bool_decide (el_voted_for e = "") || bool_decide (el_voted_for e = from)) in
  let e :=
    if grant
    then persist_state_ (with_state e (el_term e) from (el_leader e) (el_role e) (el_votes e)) (el_term e) from
    else e in
  (e, (if became_follower : bool then [OnBecameFollower] else []) ++ [Respond grant]).

Definition handle_vote_resp_ (e : Election) (term : Z) (granted : bool) : Election * list Effect :=
  let e :=
    if el_term e <? term then with_state e term "" "" Follower (el_votes e) else e in
  if negb (bool_decide (el_role e = Candidate)) || (term <? el_term e) then (e, [])
  else if negb granted then (e, [])
  else
    let e := with_state e (el_term e) (el_voted_for e) (el_leader e) (el_role e) (wrap 32 (el_votes e + 1)) in
    if el_votes e <? majority e then (e, []) else become_leader_ e.

(** What the thread does when no message came in time. *)
Definition on_timeout (e : Election) (lsn : Z) : Election * list Effect :=
  match el_role e with
  | Leader => (e, send_heartbeats_ e)
  | _ => start_election_ e lsn
  end.

(** ** Frames *)

Inductive Msg : Type :=
| Heartbeat (term : Z) (from : string)
| VoteReq (term : Z) (from : string) (wal_lsn : Z)
| VoteResp (term : Z) (granted : bool).

Definition process_msg_ (e : Election) (my_lsn : Z) (m : Msg) : Election * list Effect :=
  match m with
  | Heartbeat term from => handle_heartbeat_ e term from
  | VoteReq term from lsn => handle_vote_req_ e my_lsn term from lsn
  | VoteResp term granted => handle_vote_resp_ e term granted
  end.

(** The payloads that a node sends. *)
Definition heartbeat_payload (term : Z) (leader : string) : bytes := encode_str (encode_u64 [] term) leader.
Definition vote_req_payload (term : Z) (candidate : string) (lsn : Z) : bytes :=
  encode_u64 (encode_str (encode_u64 [] term) candidate) lsn.
Definition vote_resp_payload (granted : bool) : bytes := encode_u8 [] (if granted then 1 else 0).

(** The election part of [handle_repl_frame]: the message that a payload is taken for. *)
Definition heartbeat_of (payload : bytes) : option Msg :=
  let len := zlen payload in
  if len <? 8 then None
  else
    let nlen := if 10 <=? len then decode_u16 (drop 8 payload) else 0 in
    Some (Heartbeat (decode_u64 payload)
      (if (nlen >? 0) && (10 + nlen <=? len) then string_of_bytes (slice 10 nlen payload) else EmptyString)).

Definition vote_req_of (payload : bytes) : option Msg :=
  let len := zlen payload in
  if len <? 8 then None
  else if len <? 10 then None
  else
    let nlen := decode_u16 (drop 8 payload) in
    if len <? 10 + nlen + 8 then None
    else Some (VoteReq (decode_u64 payload) (string_of_bytes (slice 10 nlen payload))
      (decode_u64 (drop (Z.to_nat (10 + nlen)) payload))).

Definition vote_resp_of (payload : bytes) : option Msg :=
  if zlen payload <? 9 then None
  else Some (VoteResp (decode_u64 payload) (negb (znth payload 8 =? 0))).

(** ** The state file comes back *)

Lemma load_persist e term v : el_voted_for e = EmptyString -> in_u 64 term -> in_u 16 (strlen v) ->
  load_state_ (persist_state_ e term v) =
    with_state (persist_state_ e term v) term v (el_leader e) (el_role e) (el_votes e).
Proof.
  intros Hv0 Ht Hs. unfold load_state_. cbn [el_file persist_state_].
  assert (Hb : state_bytes term v = le_bytes 8 term ++ le_bytes 2 (strlen v) ++ bytes_of_string v)
    by (unfold state_bytes; rewrite put_u16_le, wrap_id by done; reflexivity).
  rewrite Hb, !zlen_app, !zlen_le_bytes, zlen_bytes_of_string.
  destruct (_ <? 10) eqn:E10; [pose proof (strlen_nonneg v); change (Z.of_nat 8) with 8 in E10; change (Z.of_nat 2) with 2 in E10; lia|clear E10].
  rewrite (drop_app_length' (le_bytes 8 term)) by by rewrite le_bytes_length.
  rewrite app_assoc, (drop_app_length' (le_bytes 8 term ++ _)) by by rewrite length_app, !le_bytes_length.
  rewrite <- app_assoc.
  replace (wal_read_u16 _) with (strlen v) by (symmetry; exact (decode_u16_app _ (bytes_of_string v) Hs)).
  replace (wal_read_u64 _) with term by (symmetry; exact (decode_u64_app term _ Ht)).
  cbn [el_leader el_role el_votes persist_state_]. f_equal.
  rewrite zlen_bytes_of_string, Z.ltb_irrefl.
  destruct (strlen v >? 0) eqn:E; [|cbn; rewrite Hv0].
  - rewrite take_ge by (pose proof (zlen_bytes_of_string v); zlia). apply string_of_bytes_of_string.
  - by destruct v.
Qed.

(** What a manager of the configuration knows after it has read its state file. *)
Definition persisted (e : Election) : Z * string :=
  let e := load_state_ (new_manager (el_config e) (el_file e)) in (el_term e, el_voted_for e).

#[global] Arguments persisted : simpl never.

Lemma persisted_persist e term v : in_u 64 term -> in_u 16 (strlen v) ->
  persisted (persist_state_ e term v) = (term, v).
Proof.
  intros Ht Hv. unfold persisted.
  change (new_manager _ (el_file (persist_state_ e term v)))
    with (persist_state_ (new_manager (el_config e) (el_file e)) term v).
  by rewrite load_persist.
Qed.

(** ** The frames come back *)

Lemma encode_str_le buf s : in_u 16 (strlen s) ->
  encode_str buf s = buf ++ le_bytes 2 (strlen s) ++ bytes_of_string s.
Proof. intros Hs. unfold encode_str. rewrite encode_u16_le, wrap_id by done. by rewrite app_assoc. Qed.

Lemma drop_two (a b c : bytes) n m : length a = n -> length b = m -> drop (n + m) (a ++ b ++ c) = c.
Proof. intros <- <-. rewrite app_assoc. apply drop_app_length'. by rewrite length_app. Qed.

(** A name between an 8-byte term with its length and a rest, read back. *)
Lemma slice_name term s rest :
  string_of_bytes (slice 10 (strlen s) (le_bytes 8 term ++ le_bytes 2 (strlen s) ++ bytes_of_string s ++ rest)) = s.
Proof.
  unfold slice. change (Z.to_nat 10) with (8 + 2)%nat.
  rewrite drop_two by apply le_bytes_length.
  rewrite take_app_length' by (pose proof (zlen_bytes_of_string s); zlia).
  apply string_of_bytes_of_string.
Qed.

Lemma heartbeat_frame term leader : in_u 64 term -> in_u 16 (strlen leader) ->
  heartbeat_of (heartbeat_payload term leader) = Some (Heartbeat term leader).
Proof.
  intros Ht Hs. unfold heartbeat_of, heartbeat_payload.
  rewrite encode_str_le, encode_u64_le by done. cbn [app]. set (b := le_bytes 8 term ++ _).
  assert (Hlen : zlen b = 10 + strlen leader).
  { subst b. rewrite !zlen_app, !zlen_le_bytes, zlen_bytes_of_string. lia. }
  assert (Hn : decode_u16 (drop 8 b) = strlen leader).
  { subst b. rewrite drop_app_length' by by rewrite le_bytes_length. by apply decode_u16_app. }
  pose proof (strlen_nonneg leader).
  destruct (zlen b <? 8) eqn:E; [lia|]. destruct (10 <=? zlen b) eqn:E'; [|lia].
  rewrite Hn, Hlen. subst b. rewrite decode_u64_app, Z.leb_refl, andb_true_r by done.
  destruct (strlen leader >? 0) eqn:E0.
  - rewrite <- (app_nil_r (bytes_of_string leader)), slice_name. done.
  - by destruct leader.
Qed.

Lemma vote_req_frame term candidate lsn : in_u 64 term -> in_u 64 lsn -> in_u 16 (strlen candidate) ->
  vote_req_of (vote_req_payload term candidate lsn) = Some (VoteReq term candidate lsn).
Proof.
  intros Ht Hl Hs. unfold vote_req_of, vote_req_payload.
  rewrite encode_u64_le, encode_str_le, encode_u64_le by done. cbn [app]. rewrite <- !app_assoc.
  set (b := le_bytes 8 term ++ _).
  assert (Hlen : zlen b = 18 + strlen candidate).
  { subst b. rewrite !zlen_app, !zlen_le_bytes, zlen_bytes_of_string. lia. }
  assert (Hn : decode_u16 (drop 8 b) = strlen candidate).
  { subst b. rewrite drop_app_length' by by rewrite le_bytes_length. by apply decode_u16_app. }
  assert (Hd : drop (Z.to_nat (10 + strlen candidate)) b = le_bytes 8 lsn).
  { subst b. rewrite app_assoc. pose proof (length_bytes_of_string candidate) as Hc. unfold strlen.
    replace (Z.to_nat _) with (10 + String.length candidate)%nat by lia.
    apply drop_two; [by rewrite length_app, !le_bytes_length|done]. }
  pose proof (strlen_nonneg candidate).
  pose proof (decode_u64_app lsn [] Hl) as Hlsn. rewrite app_nil_r in Hlsn.
  rewrite Hn, Hlen, Hd, Hlsn. subst b. rewrite decode_u64_app, slice_name by done.
  repeat match goal with |- context [?a <? ?b] => destruct (Z.ltb_spec a b); [lia|] end. done.
Qed.

(** The answer that a voter sends is never taken for a message. *)
Lemma vote_resp_frame granted : vote_resp_of (vote_resp_payload granted) = None.
Proof. reflexivity. Qed.
