(* ===== verification/Cluster.v ===== *)
(** * A cluster of election managers

    Nodes that share one list of addresses, and the packets between them.  A step is a timeout of
    a node, the delivery or the loss of one packet, or a crash and restart of a node, which
    keeps only its state file.  A packet is delivered at most once.  A vote request is answered
    to its sender with the term of the request, as [on_vote_resp] expects it; the code answers
    with one byte that its own reader does not accept, so this model has more behaviours than the
    code: what it excludes the code excludes, and nothing is claimed of what it allows
    ([ClusterRuns] has the frames as they are).  The log positions that [get_wal_lsn_] returns are
    arbitrary in every step.

    The theorem is election safety: a term has at most one leader, when the cluster has an odd
    number of nodes and none of them is configured as leader. *)

From S2P Require Import Prelude Types Wire Wal Election.

Record Packet : Type := mkPacket {
  pk_from : string;
  pk_to : string;
  pk_msg : Msg
}.

Record World : Type := mkWorld {
  w_nodes : gmap string Election;
  w_net : list Packet
}.

(** The packets of a handler's effects; [reply] is the sender and the term of the vote request
    that is handled.  The vote response is the one that [on_vote_resp] is written for, not the single
    byte of the code's reply (replication_manager.cpp), which the sender of the request drops
    (election.cpp, [fire_and_forget_]): an over-approximation, used for safety only. *)
Definition packet_of (me : string) (reply : option (string * Z)) (f : Effect) : list Packet :=
  match f with
  | SendVoteReq peer term candidate lsn => [mkPacket me (parse_host peer) (VoteReq term candidate lsn)]
  | SendHeartbeat peer term leader => [mkPacket me (parse_host peer) (Heartbeat term leader)]
  | Respond granted =>
      match reply with Some (to, term) => [mkPacket me to (VoteResp term granted)] | None => [] end
  | OnBecameLeader | OnBecameFollower => []
  end.

Definition packets (me : string) (reply : option (string * Z)) (fs : list Effect) : list Packet :=
  flat_map (packet_of me reply) fs.

Definition reply_to (p : Packet) : option (string * Z) :=
  match pk_msg p with VoteReq term _ _ => Some (pk_from p, term) | _ => None end.

Inductive Action : Type :=
| Timeout (node : string) (lsn : Z)
| Deliver (i : nat) (lsn : Z)
| Drop (i : nat)
| Restart (node : string).

Definition step (w : World) (a : Action) : option World :=
  match a with
  | Timeout n lsn =>
      e ← w_nodes w !! n;
      let '(e', fs) := on_timeout e lsn in
      Some (mkWorld (<[n := e']> (w_nodes w)) (w_net w ++ packets n None fs))
  | Deliver i lsn =>
      p ← w_net w !! i;
      e ← w_nodes w !! pk_to p;
      let '(e', fs) := process_msg_ e lsn (pk_msg p) in
      Some (mkWorld (<[pk_to p := e']> (w_nodes w)) (delete i (w_net w) ++ packets (pk_to p) (reply_to p) fs))
  | Drop i => _ ← w_net w !! i; Some (mkWorld (w_nodes w) (delete i (w_net w)))
  | Restart n =>
      e ← w_nodes w !! n;
      Some (mkWorld (<[n := start (new_manager (el_config e) (el_file e))]> (w_nodes w)) (w_net w))
  end.

Fixpoint run (w : World) (acts : list Action) : option World :=
  match acts with
  | [] => Some w
  | a :: acts => w' ← step w a; run w' acts
  end.

(** The cluster as it is first started: no state files. *)
Definition boot (leader : string -> bool) (addrs : list string) : World :=
  mkWorld
    (list_to_map (map (fun h => (h, start (new_manager (mkConfig h (leader h) addrs) None))) (map parse_host addrs)))
    [].

Definition is_leader_of (w : World) (n : string) (term : Z) : bool :=
  match w_nodes w !! n with
  | Some e => bool_decide (el_role e = Leader) && (el_term e =? term)
  | None => false
  end.

(** What a deployment provides: distinct, nonempty, short node names. *)
Record cluster_ok (addrs : list string) : Prop := {
  ok_hosts : NoDup (map parse_host addrs);
  ok_names : Forall (fun h => h <> EmptyString /\ in_u 16 (strlen h)) (map parse_host addrs);
  ok_size : 0 < zlen addrs < 2 ^ 32 - 1
}.

(** ** The invariant *)

Section Safety.
Context (addrs : list string) (Hok : cluster_ok addrs) (Hodd : Z.odd (zlen addrs) = true).

Local Notation hosts := (map parse_host addrs).

(** The votes cast so far: (voter, term) to candidate. *)
Notation History := (gmap (string * Z) string).
(** A vote on its way: (candidate, term, voter). *)
Notation Token := (string * Z * string)%type.

Definition voted (hist : History) (c : string) (t : Z) (v : string) : Prop := hist !! (v, t) = Some c.

(** The node has the votes of a majority for the term. *)
Definition elected (hist : History) (c : string) (t : Z) : Prop :=
  exists vs, NoDup vs /\ vs ⊆ hosts /\ Forall (voted hist c t) vs /\ (zlen addrs + 1) / 2 <= zlen vs.

Definition voters (deliv : list Token) (c : string) (t : Z) : list string :=
  map snd (List.filter (fun k => bool_decide (k.1 = (c, t))) deliv).

Definition config_of (n : string) : NodeConfig := mkConfig n false addrs.

Record node_inv (K : Z) (hist : History) (deliv : list Token) (n : string) (e : Election) : Prop := {
  ni_host : n ∈ hosts;
  ni_config : el_config e = config_of n;
  ni_peers : el_peers e = el_peers (new_manager (config_of n) None);
  ni_size : el_cluster_size e = zlen addrs;
  ni_terms : 0 <= (persisted e).1 <= el_term e /\ el_term e <= K;
  ni_past t c : voted hist c t n -> t <= (persisted e).1;
  ni_file c : voted hist c (persisted e).1 n -> (persisted e).2 = c;
  ni_vote c : voted hist c (el_term e) n -> el_voted_for e = c;
  ni_votes : 0 <= el_votes e;
  ni_candidate : el_role e = Candidate ->
    voted hist n (el_term e) n /\ el_votes e <= 1 + zlen (voters deliv n (el_term e));
  ni_leader : el_role e = Leader -> elected hist n (el_term e)
}.

Definition tok (p : Packet) : list Token :=
  match pk_msg p with
  | VoteReq t _ _ => [(pk_from p, t, pk_to p)]
  | VoteResp t true => [(pk_to p, t, pk_from p)]
  | _ => []
  end.

Definition toks (net : list Packet) : list Token := flat_map tok net.

Definition packet_ok (K : Z) (hist : History) (p : Packet) : Prop :=
  match pk_msg p with
  | VoteReq t c _ => c = pk_from p /\ c ∈ hosts /\ t <= K
  | VoteResp t g => t <= K /\ (g = true -> voted hist (pk_to p) t (pk_from p))
  | Heartbeat t l => elected hist l t /\ t <= K
  end.

Definition tok_ok (nodes : gmap string Election) (k : Token) : Prop :=
  let '(c, t, v) := k in
  c <> v /\ v ∈ hosts /\ exists e, nodes !! c = Some e /\ t <= (persisted e).1.

Record Inv (K : Z) (w : World) (hist : History) (deliv : list Token) : Prop := {
  inv_nodes n e : w_nodes w !! n = Some e -> node_inv K hist deliv n e;
  inv_dom n : n ∈ hosts -> is_Some (w_nodes w !! n);
  inv_net : Forall (packet_ok K hist) (w_net w);
  inv_hist v t c : voted hist c t v -> c <> EmptyString;
  inv_deliv c t v : (c, t, v) ∈ deliv -> voted hist c t v;
  inv_nodup : NoDup (toks (w_net w) ++ deliv);
  inv_toks : Forall (tok_ok (w_nodes w)) (toks (w_net w) ++ deliv)
}.

(** ** Majorities *)

Lemma majority_of (e : Election) : el_cluster_size e = zlen addrs -> majority e = (zlen addrs + 1) / 2.
Proof. intros Hs. destruct Hok. unfold majority. rewrite Hs, wrap_id by (unfold in_u; lia). done. Qed.

Lemma elected_unique hist c c' t : elected hist c t -> elected hist c' t -> c = c'.
Proof.
  intros (vs & Hnd & Hin & Hv & Hlen) (vs' & Hnd' & Hin' & Hv' & Hlen').
  destruct (decide (c = c')) as [|Hne]; [done|]. exfalso.
  assert (Hnd2 : NoDup (vs ++ vs')).
  { apply NoDup_app. split_and!; [done| |done]. intros v H1 H2.
    rewrite Forall_forall in Hv, Hv'. specialize (Hv v H1). specialize (Hv' v H2).
    unfold voted in *. congruence. }
  assert (Hsub : vs ++ vs' ⊆+ hosts) by (apply NoDup_submseteq; [done|set_solver]).
  apply submseteq_length in Hsub. rewrite length_app, length_map in Hsub.
  apply Z.odd_spec in Hodd as [k Hk]. unfold zlen in *.
  replace (Z.of_nat (length addrs) + 1) with ((k + 1) * 2) in * by lia. rewrite Z.div_mul in * by lia. lia.
Qed.

Lemma elected_mono hist hist' c t : hist ⊆ hist' -> elected hist c t -> elected hist' c t.
Proof.
  intros Hsub (vs & Hnd & Hin & Hv & Hlen). exists vs. split_and!; try done.
  eapply Forall_impl; [exact Hv|]. intros v Hvv. exact (lookup_weaken _ _ _ _ Hvv Hsub).
Qed.

Lemma voters_in deliv c t v : v ∈ voters deliv c t <-> (c, t, v) ∈ deliv.
Proof.
  unfold voters. rewrite list_elem_of_fmap. setoid_rewrite list_elem_of_In. setoid_rewrite filter_In.
  split.
  - intros (((c', t') & v') & -> & Hin & Hb). apply bool_decide_eq_true in Hb. simpl in *. by simplify_eq.
  - intros Hin. exists (c, t, v). split_and!; [done..|by apply bool_decide_eq_true].
Qed.

Lemma voters_nodup deliv c t : NoDup deliv -> NoDup (voters deliv c t).
Proof.
  intros Hnd. unfold voters. apply NoDup_fmap_2_strong.
  - intros [k v] [k' v']. rewrite !list_elem_of_In, !filter_In, !bool_decide_eq_true. simpl. intuition congruence.
  - apply NoDup_ListNoDup, List.NoDup_filter, NoDup_ListNoDup, Hnd.
Qed.

Lemma voters_mono deliv k c t : zlen (voters deliv c t) <= zlen (voters (k :: deliv) c t).
Proof. unfold voters. simpl. destruct (bool_decide _); simpl; unfold zlen; simpl; lia. Qed.

(** ** A node stays in its invariant when others act *)

Lemma node_inv_mono K K' hist hist' deliv deliv' n e :
  K <= K' -> hist ⊆ hist' -> (forall t, hist' !! (n, t) = hist !! (n, t)) ->
  (forall c t, zlen (voters deliv c t) <= zlen (voters deliv' c t)) ->
  node_inv K hist deliv n e -> node_inv K' hist' deliv' n e.
Proof.
  intros HK Hsub Hsame Hd [].
  assert (Hv : forall c t, voted hist' c t n <-> voted hist c t n) by (intros; unfold voted; by rewrite Hsame).
  split; try done; [lia|..].
  - intros t c. rewrite Hv. eauto.
  - intros c. rewrite Hv. eauto.
  - intros c. rewrite Hv. eauto.
  - rewrite Hv. intros Hc. destruct (ni_candidate0 Hc). split; [done|]. specialize (Hd n (el_term e)). lia.
  - eauto using elected_mono.
Qed.

(** A vote is new or was cast before. *)
Lemma vote_extends hist v t c :
  (forall c', voted hist c' t v -> c' = c) -> hist ⊆ <[(v, t) := c]> hist.
Proof.
  intros Hc. destruct (hist !! (v, t)) as [c'|] eqn:E.
  - rewrite (Hc c' E) in E. by rewrite insert_id.
  - by apply insert_subseteq.
Qed.

Lemma host_names n : n ∈ hosts -> n <> EmptyString /\ in_u 16 (strlen n).
Proof. destruct Hok as [_ H _]. rewrite Forall_forall in H. apply H. Qed.

(** ** Handlers *)

Section Handlers.
Context (K : Z) (hist : History) (deliv : list Token) (n : string) (HK : K < 2 ^ 64).

(** A node that learns of a later term has not voted in it. *)
Lemma node_raise e t leader :
  node_inv K hist deliv n e -> el_term e < t <= K ->
  node_inv K hist deliv n (with_state e t EmptyString leader Follower (el_votes e)).
Proof.
  intros [] Ht. split; try done.
  - change (persisted (with_state _ _ _ _ _ _)) with (persisted e). cbn [el_term with_state]. lia.
  - cbn. intros c Hc. specialize (ni_past0 _ _ Hc). lia.
Qed.

(** The node writes its term with the vote that it has cast in it, if any. *)
Lemma node_persist e v :
  node_inv K hist deliv n e -> in_u 16 (strlen v) ->
  (forall c, voted hist c (el_term e) n -> v = c) ->
  node_inv K hist deliv n (persist_state_ e (el_term e) v) /\
  (persisted (persist_state_ e (el_term e) v)).1 = el_term e.
Proof.
  intros [] Hv Hc.
  assert (Hp : persisted (persist_state_ e (el_term e) v) = (el_term e, v))
    by (apply persisted_persist; unfold in_u; [lia|done]).
  split; [|by rewrite Hp]. split; try done; rewrite ?Hp; simpl; try done; [lia|].
  intros t c Htc. specialize (ni_past0 _ _ Htc). lia.
Qed.

Lemma node_leader_id e leader role :
  node_inv K hist deliv n e -> role = el_role e \/ role = Follower ->
  node_inv K hist deliv n (with_state e (el_term e) (el_voted_for e) leader role (el_votes e)).
Proof. intros [] Hr. split; try done; simpl; destruct Hr as [->| ->]; done. Qed.

(** A heartbeat of an elected leader; a leader gets none of another leader of its term. *)
Lemma heartbeat_inv e t from :
  node_inv K hist deliv n e -> elected hist from t -> t <= K ->
  node_inv K hist deliv n (handle_heartbeat_ e t from).1 /\
  (persisted e).1 <= (persisted (handle_heartbeat_ e t from).1).1 /\
  Forall (fun f => packet_of n None f = []) (handle_heartbeat_ e t from).2.
Proof.
  intros He Hel HtK. pose proof He as [].
  assert (Hempty : in_u 16 (strlen EmptyString)) by done.
  unfold handle_heartbeat_. destruct (Z.ltb_spec t (el_term e)); [by auto|].
  destruct (Z.ltb_spec (el_term e) t).
  - assert ((t >? 0) = true) as -> by lia. pose proof (node_raise e t from He ltac:(lia)) as Hr.
    destruct (node_persist _ EmptyString Hr Hempty) as [Hn Hp].
    { cbn. intros c Hc. specialize (ni_past0 _ _ Hc). lia. }
    cbn [fst snd]. split_and!; [exact Hn|etrans; [|apply Z.eq_le_incl; symmetry; exact Hp]; cbn [el_term with_state]; lia|by destruct (negb _); repeat constructor].
  - assert (t = el_term e) as -> by lia. destruct (el_role e) eqn:Hrole.
    + split_and!; [apply node_leader_id; auto|done|constructor].
    + split_and!; [apply node_leader_id; auto|done|by repeat constructor].
    + rewrite (elected_unique _ _ _ _ Hel (ni_leader0 eq_refl)).
      unfold self. rewrite ni_config0, bool_decide_eq_true_2 by done. by auto.
Qed.

End Handlers.


Section Votes.
Context (K : Z) (hist : History) (deliv : list Token) (n : string) (HK : K < 2 ^ 64).

Lemma voted_insert c t t' c' :
  voted (<[(n, t) := c]> hist) c' t' n <-> (t' = t /\ c' = c) \/ (t' <> t /\ voted hist c' t' n).
Proof.
  unfold voted. destruct (decide (t' = t)) as [->|Hne].
  - rewrite lookup_insert_eq. naive_solver.
  - rewrite lookup_insert_ne by congruence. naive_solver.
Qed.

(** The node casts its vote and writes it down. *)
Lemma node_vote e c leader role votes :
  node_inv K hist deliv n e -> c ∈ hosts -> 0 <= votes ->
  (forall c', voted hist c' (el_term e) n -> c' = c) ->
  (role = Candidate -> c = n /\ votes <= 1 + zlen (voters deliv n (el_term e))) ->
  (role = Leader -> elected (<[(n, el_term e) := c]> hist) n (el_term e)) ->
  let e' := persist_state_ (with_state e (el_term e) c leader role votes) (el_term e) c in
  node_inv K (<[(n, el_term e) := c]> hist) deliv n e' /\ (persisted e').1 = el_term e.
Proof.
  intros [] Hc Hvs Hsame Hcand Hlead e'.
  assert (Hp : persisted e' = (el_term e, c)).
  { apply persisted_persist; unfold in_u; [lia|]. apply host_names, Hc. }
  split; [|by rewrite Hp]. split; try done; rewrite ?Hp; cbn [fst snd el_term el_voted_for el_role e' persist_state_ with_state].
  - lia.
  - intros t c'. rewrite voted_insert. intros [[-> _]|[_ Hold]]; [lia|]. specialize (ni_past0 _ _ Hold). lia.
  - intros c'. rewrite voted_insert. naive_solver.
  - intros c'. rewrite voted_insert. naive_solver.
  - intros Hr. destruct (Hcand Hr) as [-> Hle]. split; [|done]. apply voted_insert. auto.
Qed.

Definition answered (granted : bool) (t : Z) (from : string) : History :=
  if granted then <[(n, t) := from]> hist else hist.

(** A vote request is answered once; a granted vote is the node's only one in the term. *)
Lemma vote_req_inv e my_lsn t from lsn to :
  node_inv K hist deliv n e -> from ∈ hosts -> t <= K -> (forall v t c, voted hist c t v -> c <> EmptyString) ->
  exists granted,
    let e' := (handle_vote_req_ e my_lsn t from lsn).1 in
    hist ⊆ answered granted t from /\ node_inv K (answered granted t from) deliv n e' /\
    (persisted e).1 <= (persisted e').1 /\
    packets n (Some (to, t)) (handle_vote_req_ e my_lsn t from lsn).2 = [mkPacket n to (VoteResp t granted)].
Proof.
  intros He Hfrom HtK Hne. unfold handle_vote_req_.
  set (p := if el_term e <? t then _ else _).
  assert (H1 : node_inv K hist deliv n p.1 /\ persisted p.1 = persisted e /\ t <= el_term p.1).
  { subst p. destruct (Z.ltb_spec (el_term e) t); [|done].
    split_and!; [apply node_raise; [done|lia]|reflexivity|cbn; lia]. }
  destruct p as [e1 became]. cbn [fst] in H1. destruct H1 as (He1 & Hpe & Hle).
  set (grant := _ && _ && _). exists grant.
  assert (Hpk : forall b : bool, packets n (Some (to, t)) ((if b then [OnBecameFollower] else []) ++ [Respond grant]) =
    [mkPacket n to (VoteResp t grant)]) by by intros [].
  cbn [fst snd]. rewrite Hpk. destruct grant eqn:Hg; [|by rewrite Hpe].
  subst grant. apply andb_true_iff in Hg as [[Hterm%Z.leb_le _]%andb_true_iff Hvote].
  assert (t = el_term e1) as -> by lia. cbn [answered].
  assert (Hc : forall c', voted hist c' (el_term e1) n -> c' = from).
  { intros c' Hc'. pose proof (ni_vote _ _ _ _ _ He1 _ Hc') as Hv. apply orb_true_iff in Hvote as [Hvote|Hvote];
      apply bool_decide_eq_true in Hvote; [|congruence]. exfalso. apply (Hne _ _ _ Hc'). congruence. }
  pose proof He1 as Hparts. destruct Hparts.
  destruct (node_vote e1 from (el_leader e1) (el_role e1) (el_votes e1)) as [Hn Hp]; try done.
  { intros Hr. destruct (ni_candidate0 Hr) as [Hself ?]. split; [by rewrite (Hc _ Hself)|done]. }
  { intros Hr. eapply elected_mono; [by apply vote_extends|auto]. }
  split_and!; [by apply vote_extends|exact Hn| |done].
  etrans; [|apply Z.eq_le_incl; symmetry; exact Hp]. rewrite <- Hpe. lia.
Qed.

End Votes.


(** ** Counting *)

Lemma elected_counted hist deliv n t :
  n ∈ hosts -> voted hist n t n -> NoDup deliv ->
  Forall (fun v => n <> v /\ v ∈ hosts /\ voted hist n t v) (voters deliv n t) ->
  (zlen addrs + 1) / 2 <= 1 + zlen (voters deliv n t) -> elected hist n t.
Proof.
  intros Hn Hself Hnd Hvs Hlen. rewrite Forall_forall in Hvs. exists (n :: voters deliv n t). split_and!.
  - constructor; [|by apply voters_nodup]. intros Hin. by destruct (Hvs _ Hin).
  - intros v [->|Hin]%elem_of_cons; [done|]. by apply Hvs.
  - constructor; [done|]. apply Forall_forall. intros v Hin. by apply Hvs.
  - rewrite zlen_cons. lia.
Qed.

Definition sent_ok (K : Z) (hist : History) (ps : list Packet) : Prop :=
  Forall (packet_ok K hist) ps /\ toks ps = [].

Section Leading.
Context (K : Z) (hist : History) (n : string) (HK : K < 2 ^ 64).

Lemma heartbeats_sent deliv e r : node_inv K hist deliv n e -> sent_ok K hist (packets n r (send_heartbeats_ e)).
Proof.
  intros []. unfold send_heartbeats_. destruct (el_peers e) as [|p ps]; [by split|].
  destruct (el_role e) eqn:Hr; [by split..|]. specialize (ni_leader0 eq_refl).
  unfold sent_ok. clear ni_peers0. generalize (p :: ps). intros l. induction l as [|q qs [IH1 IH2]]; [by split|]. split; [|done].
  simpl. constructor; [|done]. unfold packet_ok. simpl. unfold self. rewrite ni_config0. simpl. split; [done|lia].
Qed.

Lemma become_leader_inv deliv e r :
  node_inv K hist deliv n e -> elected hist n (el_term e) ->
  node_inv K hist deliv n (become_leader_ e).1 /\
  sent_ok K hist (packets n r (become_leader_ e).2).
Proof.
  intros He Hel. unfold become_leader_. set (e' := with_state _ _ _ _ _ _). cbn [fst snd].
  assert (He' : node_inv K hist deliv n e') by (destruct He; by split).
  split; [done|]. simpl. by eapply heartbeats_sent.
Qed.

Lemma vote_resp_inv deliv e t (g : bool) v :
  let deliv' := if g then (n, t, v) :: deliv else deliv in
  node_inv K hist deliv n e -> t <= K -> NoDup deliv' ->
  Forall (fun v => n <> v /\ v ∈ hosts /\ voted hist n t v) (voters deliv' n t) ->
  node_inv K hist deliv' n (handle_vote_resp_ e t g).1 /\
  persisted (handle_vote_resp_ e t g).1 = persisted e /\
  sent_ok K hist (packets n None (handle_vote_resp_ e t g).2).
Proof.
  intros deliv' He HtK Hnd Hvs.
  assert (Hmono : forall e, node_inv K hist deliv n e -> node_inv K hist deliv' n e).
  { intros e0. apply node_inv_mono; [done..|]. intros c t'. subst deliv'.
    destruct g; [apply voters_mono|done]. }
  unfold handle_vote_resp_. set (e1 := if el_term e <? t then _ else e).
  assert (H1 : node_inv K hist deliv n e1 /\ persisted e1 = persisted e /\ t <= el_term e1).
  { subst e1. destruct (Z.ltb_spec (el_term e) t); [|done].
    split_and!; [apply node_raise; [done|lia]|reflexivity|cbn; lia]. }
  clearbody e1. destruct H1 as (He1 & Hp1 & Hle1).
  destruct (negb _ || _) eqn:Hguard; [by split; [auto|split]|].
  apply orb_false_iff in Hguard as [Hcand%negb_false_iff%bool_decide_eq_true Hterm%Z.ltb_ge].
  assert (t = el_term e1) as -> by lia.
  destruct g; [|by split; [auto|split]]. cbn [negb].
  set (e2 := with_state _ _ _ _ _ _). destruct (ni_candidate _ _ _ _ _ He1 Hcand) as [Hself Hvotes].
  assert (Hw : 0 <= el_votes e2 <= el_votes e1 + 1).
  { cbn. unfold wrap. pose proof (ni_votes _ _ _ _ _ He1). split; [apply Z.mod_pos_bound|apply Z.mod_le]; lia. }
  assert (Hc : el_votes e2 <= 1 + zlen (voters deliv' n (el_term e1))).
  { subst deliv'. unfold voters in *. cbn [List.filter fst].
    rewrite bool_decide_eq_true_2 by done. cbn [map]. rewrite zlen_cons. lia. }
  assert (He2 : node_inv K hist deliv' n e2).
  { destruct (Hmono _ He1). split; try done. cbn. apply Hw. }
  destruct (Z.ltb_spec (el_votes e2) (majority e2)) as [|Hmaj]; [by split; [|split]|].
  rewrite majority_of in Hmaj by apply He2.
  assert (Hel : elected hist n (el_term e2)).
  { eapply (elected_counted _ deliv'); try done; [apply He2|change (el_term e2) with (el_term e1); lia]. }
  destruct (become_leader_inv deliv' e2 None He2 Hel) as [Hn Hs]. by split; [|split].
Qed.

End Leading.


(** ** An election starts *)

Definition peers_of (n : string) : list string := map parse_host (el_peers (new_manager (config_of n) None)).

Lemma map_filter_nodup {A B} (f : A -> B) (p : A -> bool) l : NoDup (map f l) -> NoDup (map f (List.filter p l)).
Proof.
  induction l as [|a l IH]; simpl; [done|]. intros [Hni Hnd]%NoDup_cons. destruct (p a); simpl; [|auto].
  constructor; [|auto]. rewrite list_elem_of_In, in_map_iff in *. setoid_rewrite filter_In. naive_solver.
Qed.

Lemma peers_of_nodup n : NoDup (peers_of n).
Proof. apply map_filter_nodup, Hok. Qed.

Lemma peers_of_other n v : v ∈ peers_of n -> n <> v /\ v ∈ hosts.
Proof.
  unfold peers_of, config_of. cbn [el_peers new_manager node_id peer_addrs].
  rewrite !list_elem_of_In, !in_map_iff. setoid_rewrite filter_In.
  intros (x & <- & Hin & Hb). apply negb_true_iff, bool_decide_eq_false in Hb. eauto.
Qed.

Section Starting.
Context (K : Z) (hist : History) (deliv : list Token) (n : string) (HK : K + 1 < 2 ^ 64).

Lemma requests_sent (e : Election) (lsn : Z) (h : History) (t : Z) r :
  el_config e = config_of n -> el_peers e = el_peers (new_manager (config_of n) None) -> n ∈ hosts ->
  el_term e = t -> t <= K + 1 ->
  Forall (packet_ok (K + 1) h) (packets n r (broadcast_vote_req_ e lsn)) /\
  toks (packets n r (broadcast_vote_req_ e lsn)) = map (fun v => (n, t, v)) (peers_of n).
Proof.
  intros Hc Hp Hn <- Ht. unfold broadcast_vote_req_, peers_of, self. rewrite Hp, Hc.
  generalize (el_peers (new_manager (config_of n) None)). intros l.
  induction l as [|q qs [IH1 IH2]]; [by split|]. split.
  - simpl. constructor; [|done]. by split_and!.
  - simpl in *. by f_equal.
Qed.

Lemma toks_app ps qs : toks (ps ++ qs) = toks ps ++ toks qs.
Proof. apply flat_map_app. Qed.

Lemma packets_app me r fs gs : packets me r (fs ++ gs) = packets me r fs ++ packets me r gs.
Proof. apply flat_map_app. Qed.

(** The candidate votes for itself in a term in which it has not voted. *)
Lemma start_election_inv e lsn : node_inv K hist deliv n e ->
  let t := el_term e + 1 in
  let e' := (start_election_ e lsn).1 in
  let ps := packets n None (start_election_ e lsn).2 in
  let hist' := <[(n, t) := n]> hist in
  hist ⊆ hist' /\ node_inv (K + 1) hist' deliv n e' /\ (persisted e').1 = t /\
  Forall (packet_ok (K + 1) hist') ps /\ toks ps = map (fun v => (n, t, v)) (peers_of n).
Proof.
  intros He t. pose proof He as [].
  assert (Hraise : node_inv (K + 1) hist deliv n (with_state e t EmptyString (el_leader e) Follower (el_votes e))).
  { apply node_raise; [|lia]. eapply node_inv_mono; [| | |done|exact He]; [lia|done..]. }
  assert (Hnew : forall c', voted hist c' t n -> c' = n).
  { intros c' Hc'. specialize (ni_past0 _ _ Hc'). lia. }
  destruct (node_vote (K + 1) hist deliv n HK _ n (el_leader e) Candidate 1 Hraise) as [Hn Hp]; try done.
  { intros _. split; [done|]. pose proof (zlen_nonneg (voters deliv n t)). cbn [el_term with_state]. lia. }
  unfold start_election_. rewrite wrap_id by (unfold in_u; lia). fold t.
  assert (Hself : self e = n) by (unfold self; by rewrite ni_config0).
  change (self (with_state _ _ _ _ _ _)) with (self e). rewrite !Hself.
  set (e1 := persist_state_ _ _ _).
  destruct (requests_sent e1 lsn (<[(n, t) := n]> hist) t None) as [Hs1 Hs2]; try done; [lia|].
  change (majority e1) with (majority e). rewrite majority_of by done.
  destruct (Z.leb_spec ((zlen addrs + 1) / 2) 1) as [Hone|].
  - assert (Hel : elected (<[(n, t) := n]> hist) n (el_term e1)).
    { exists [n]. split_and!; [apply NoDup_singleton|set_solver| |done].
      constructor; [|done]. apply voted_insert. auto. }
    destruct (become_leader_inv (K + 1) _ n deliv e1 None Hn Hel) as [Hn' [Hs3 Hs4]].
    destruct (become_leader_ e1) as [e2 fs] eqn:Hb. cbn [fst snd] in *.
    rewrite packets_app, toks_app, Hs2, Hs4, app_nil_r.
    assert (persisted e2 = persisted e1) as -> by (unfold become_leader_ in Hb; by simplify_eq).
    split_and!; [by apply vote_extends|exact Hn'|exact Hp|by apply Forall_app|done].
  - cbn [fst snd]. split_and!; [by apply vote_extends|exact Hn|exact Hp|done..].
Qed.

(** A restarted node knows its last vote. *)
Lemma restart_inv e : node_inv K hist deliv n e ->
  node_inv K hist deliv n (start (new_manager (el_config e) (el_file e))) /\
  persisted (start (new_manager (el_config e) (el_file e))) = persisted e.
Proof.
  intros []. unfold start. rewrite ni_config0.
  set (e1 := load_state_ _).
  assert (Hcfg : el_config e1 = config_of n /\ el_peers e1 = el_peers (new_manager (config_of n) None) /\
    el_cluster_size e1 = zlen addrs /\ el_role e1 = Follower /\ el_votes e1 = 0 /\ el_file e1 = el_file e).
  { assert (Hsize : el_cluster_size (new_manager (config_of n) (el_file e)) = zlen addrs).
    { cbn. destruct Hok. rewrite wrap_id by (unfold in_u; lia). destruct (_ =? 0) eqn:E; lia. }
    subst e1. unfold load_state_. cbn [el_file new_manager].
    destruct (el_file e) as [f|]; [destruct (_ <? 10)|]; done. }
  destruct Hcfg as (Hc & Hps & Hsz & Hr & Hv & Hf). rewrite Hc. cbn [configured_leader config_of].
  assert (Hp : persisted e = (el_term e1, el_voted_for e1)) by (unfold persisted; by rewrite ni_config0).
  assert (Hp1 : persisted e1 = persisted e) by (unfold persisted; by rewrite Hc, Hf, ni_config0).
  split; [|done]. rewrite Hp in *. cbn [fst snd] in *.
  split; rewrite ?Hp1; cbn [fst snd]; try done; try lia; congruence.
Qed.

End Starting.


(** ** Steps *)

Lemma node_inv_later K hist deliv n e : node_inv K hist deliv n e -> node_inv (K + 1) hist deliv n e.
Proof. apply node_inv_mono; [lia|done..]. Qed.

Lemma packet_ok_mono K K' hist hist' p : K <= K' -> hist ⊆ hist' -> packet_ok K hist p -> packet_ok K' hist' p.
Proof.
  intros HK Hsub. unfold packet_ok. destruct (pk_msg p).
  - intros [? ?]. split; [by eapply elected_mono|lia].
  - intros (? & ? & ?). split_and!; [done..|lia].
  - intros [? Hv]. split; [lia|]. intros Hg. exact (lookup_weaken _ _ _ _ (Hv Hg) Hsub).
Qed.

Lemma net_ok_mono K K' hist hist' net :
  K <= K' -> hist ⊆ hist' -> Forall (packet_ok K hist) net -> Forall (packet_ok K' hist') net.
Proof. intros HK Hsub Hnet. eapply Forall_impl; [exact Hnet|]. eauto using packet_ok_mono. Qed.

Lemma tok_ok_update nodes n e e' k : nodes !! n = Some e -> (persisted e).1 <= (persisted e').1 ->
  tok_ok nodes k -> tok_ok (<[n := e']> nodes) k.
Proof.
  intros He Hle. destruct k as [[c t] v]. intros (Hne & Hv & ec & Hc & Ht). split_and!; [done..|].
  destruct (decide (c = n)) as [->|].
  - exists e'. rewrite lookup_insert_eq. split; [done|]. simplify_eq. lia.
  - exists ec. by rewrite lookup_insert_ne.
Qed.

Lemma delete_toks net i p : net !! i = Some p -> toks net ≡ₚ tok p ++ toks (delete i net).
Proof. intros Hp. apply delete_Permutation in Hp. unfold toks. by rewrite Hp at 1. Qed.

Lemma Forall_delete {A} (P : A -> Prop) l i : Forall P l -> Forall P (delete i l).
Proof.
  intros H. rewrite delete_take_drop. apply Forall_app. split; [by apply Forall_take|by apply Forall_drop].
Qed.

(** One node has acted: what is left to show about it and the network. *)
Lemma Inv_update K w hist deliv n e e' net' hist' deliv' :
  Inv K w hist deliv -> w_nodes w !! n = Some e ->
  hist ⊆ hist' -> (forall m t, m <> n -> hist' !! (m, t) = hist !! (m, t)) ->
  (forall t c, voted hist' c t n -> c <> EmptyString) ->
  (forall c t, zlen (voters deliv c t) <= zlen (voters deliv' c t)) ->
  (forall c t v, (c, t, v) ∈ deliv' -> voted hist' c t v) ->
  node_inv (K + 1) hist' deliv' n e' -> (persisted e).1 <= (persisted e').1 ->
  Forall (packet_ok (K + 1) hist') net' ->
  NoDup (toks net' ++ deliv') -> Forall (tok_ok (<[n := e']> (w_nodes w))) (toks net' ++ deliv') ->
  Inv (K + 1) (mkWorld (<[n := e']> (w_nodes w)) net') hist' deliv'.
Proof.
  intros [] He Hsub Hsame Hne Hvs Hdv Hn Hp Hnet Hnd Htok. split; try done; cbn [w_nodes w_net].
  - intros m em. destruct (decide (m = n)) as [->|].
    + rewrite lookup_insert_eq. by intros [= <-].
    + rewrite lookup_insert_ne by done. intros Hm. eapply node_inv_mono; [..|by apply inv_nodes0]; auto; lia.
  - intros m Hm. destruct (decide (m = n)) as [->|]; [by rewrite lookup_insert_eq|].
    rewrite lookup_insert_ne by done. auto.
  - intros v t c. destruct (decide (v = n)) as [->|]; [apply Hne|].
    unfold voted. rewrite Hsame by done. apply inv_hist0.
Qed.

Lemma tokens_sub nodes n e e' T T' :
  nodes !! n = Some e -> (persisted e).1 <= (persisted e').1 -> T' ⊆+ T ->
  NoDup T -> Forall (tok_ok nodes) T -> NoDup T' /\ Forall (tok_ok (<[n := e']> nodes)) T'.
Proof.
  intros He Hle [R HR]%submseteq_Permutation Hnd HT. rewrite HR in Hnd, HT.
  apply NoDup_app in Hnd as (Hnd & _ & _). apply Forall_app in HT as [HT _]. split; [done|].
  eapply Forall_impl; [exact HT|]. intros k. by eapply tok_ok_update.
Qed.


Section Step.
Context (K : Z) (w : World) (hist : History) (deliv : list Token) (HK : K + 1 < 2 ^ 64) (Hinv : Inv K w hist deliv).

Local Notation stays_safe w' := (exists hist' deliv', Inv (K + 1) w' hist' deliv').

(** The node acts without a vote and sends no vote tokens beyond those of [net0]. *)
Lemma Inv_quiet n e e' net0 ps :
  w_nodes w !! n = Some e -> node_inv K hist deliv n e' -> (persisted e).1 <= (persisted e').1 ->
  Forall (packet_ok K hist) net0 -> toks net0 ⊆+ toks (w_net w) -> sent_ok K hist ps ->
  Inv (K + 1) (mkWorld (<[n := e']> (w_nodes w)) (net0 ++ ps)) hist deliv.
Proof.
  intros He Hn Hp Hnet Hsub [Hps Htoks]. pose proof Hinv as [].
  destruct (tokens_sub (w_nodes w) n e e' (toks (w_net w) ++ deliv) (toks (net0 ++ ps) ++ deliv)) as [Hnd Htok]; try done.
  { rewrite toks_app, Htoks, app_nil_r. by apply submseteq_skips_r. }
  eapply Inv_update; try done; [by intros t c; apply inv_hist0|by apply node_inv_later|].
  eapply net_ok_mono; [..|by apply Forall_app]; [lia|done].
Qed.

(** A candidate has no vote of a later term on its way. *)
Lemma requests_fresh n e t : w_nodes w !! n = Some e -> (persisted e).1 < t ->
  NoDup (toks (w_net w) ++ deliv) ->
  NoDup ((toks (w_net w) ++ deliv) ++ map (fun v => (n, t, v)) (peers_of n)).
Proof.
  intros He Ht Hnd. apply NoDup_app. split_and!; [done| |].
  - intros k Hk (v & -> & _)%list_elem_of_fmap. pose proof (inv_toks _ _ _ _ Hinv) as Htok.
    rewrite Forall_forall in Htok. destruct (Htok _ Hk) as (_ & _ & e' & He' & Hle). simplify_eq. lia.
  - apply NoDup_fmap_2; [by intros ?? [= ]|apply peers_of_nodup].
Qed.

Lemma timeout_step n lsn w' : step w (Timeout n lsn) = Some w' -> stays_safe w'.
Proof.
  cbn [step]. intros (e & He & Hw)%bind_Some. pose proof Hinv as [].
  pose proof (inv_nodes0 _ _ He) as Hn. unfold on_timeout in Hw.
  assert (Hlead : el_role e = Leader -> stays_safe (mkWorld (<[n := e]> (w_nodes w)) (w_net w ++ packets n None (send_heartbeats_ e)))).
  { intros _. exists hist, deliv. eapply Inv_quiet; try done. by eapply heartbeats_sent. }
  assert (Helect : stays_safe (mkWorld (<[n := (start_election_ e lsn).1]> (w_nodes w))
    (w_net w ++ packets n None (start_election_ e lsn).2))).
  { destruct (start_election_inv K hist deliv n HK e lsn Hn) as (Hsub & Hn' & Hp & Hps & Htoks).
    pose proof (ni_terms _ _ _ _ _ Hn) as Hterm. pose proof (ni_host _ _ _ _ _ Hn) as Hhost.
    exists (<[(n, el_term e + 1) := n]> hist), deliv.
    assert (Hle : (persisted e).1 <= (persisted (start_election_ e lsn).1).1) by (rewrite Hp; lia).
    eapply Inv_update; try done.
    - intros m t Hm. apply lookup_insert_ne. congruence.
    - intros t c. rewrite voted_insert. intros [[_ ->]|[_ Hc]]; [by apply host_names|by eapply inv_hist0].
    - intros c t v Hin. exact (lookup_weaken _ _ _ _ (inv_deliv0 _ _ _ Hin) Hsub).
    - apply Forall_app. split; [|done]. eapply net_ok_mono; [..|done]; [lia|done].
    - rewrite toks_app, Htoks, <- app_assoc, (Permutation_app_comm (map _ _)), app_assoc.
      apply (requests_fresh n e); [done|lia|done].
    - rewrite toks_app, Htoks, <- app_assoc, (Permutation_app_comm (map _ _)), app_assoc.
      apply Forall_app. split; [eapply Forall_impl; [done|]; intros k; by eapply tok_ok_update|].
      apply Forall_forall. intros k (v & -> & Hv)%list_elem_of_fmap. destruct (peers_of_other _ _ Hv).
      split_and!; [done..|]. eexists. split; [apply lookup_insert_eq|]. rewrite Hp. lia. }
  destruct (el_role e) eqn:Hr; [destruct (start_election_ e lsn); by simplify_eq..|]. simplify_eq. by apply Hlead.
Qed.

Lemma delete_sub i p T : w_net w !! i = Some p -> T ⊆+ tok p ++ deliv ->
  toks (delete i (w_net w)) ++ T ⊆+ toks (w_net w) ++ deliv.
Proof.
  intros Hi HT. rewrite (delete_toks _ _ _ Hi), (Permutation_app_comm (tok p)), <- app_assoc.
  by apply submseteq_skips_l.
Qed.

(** A vote request is answered. *)
Lemma vote_req_step i p e my_lsn t c lsn :
  w_net w !! i = Some p -> w_nodes w !! pk_to p = Some e -> pk_msg p = VoteReq t c lsn ->
  stays_safe (mkWorld (<[pk_to p := (handle_vote_req_ e my_lsn t c lsn).1]> (w_nodes w))
    (delete i (w_net w) ++ packets (pk_to p) (Some (pk_from p, t)) (handle_vote_req_ e my_lsn t c lsn).2)).
Proof.
  intros Hi He Hm. pose proof Hinv as []. pose proof (inv_nodes0 _ _ He) as Hn.
  pose proof (Forall_lookup_1 _ _ _ _ inv_net0 Hi) as Hpk. unfold packet_ok in Hpk. rewrite Hm in Hpk.
  destruct Hpk as (-> & Hc & HtK).
  destruct (vote_req_inv K hist deliv (pk_to p) ltac:(lia) e my_lsn t (pk_from p) lsn (pk_from p) Hn Hc HtK inv_hist0)
    as (g & Hsub & Hn' & Hp & Hps).
  rewrite Hps. exists (answered hist (pk_to p) g t (pk_from p)), deliv.
  destruct (tokens_sub (w_nodes w) (pk_to p) e (handle_vote_req_ e my_lsn t (pk_from p) lsn).1
    (toks (w_net w) ++ deliv)
    (toks (delete i (w_net w) ++ [mkPacket (pk_to p) (pk_from p) (VoteResp t g)]) ++ deliv)) as [Hnd Htok]; try done.
  { rewrite toks_app, <- app_assoc. eapply delete_sub; [done|]. unfold tok. rewrite Hm.
    destruct g; simpl; [done|by apply submseteq_cons]. }
  eapply Inv_update; try done.
  - intros m t' Hne. destruct g; [|done]. apply lookup_insert_ne. congruence.
  - intros t' c'. destruct g; [|by apply inv_hist0]. simpl. rewrite voted_insert.
    intros [[_ ->]|[_ Hv]]; [by apply host_names|by eapply inv_hist0].
  - intros c' t' v Hin. exact (lookup_weaken _ _ _ _ (inv_deliv0 _ _ _ Hin) Hsub).
  - by apply node_inv_later.
  - apply Forall_app. split.
    + eapply net_ok_mono; [..|by apply Forall_delete]; [lia|done].
    + constructor; [|done]. split; [lia|]. intros ->. apply voted_insert. auto.
Qed.

(** A vote is counted. *)
Lemma vote_resp_step i p e t g :
  w_net w !! i = Some p -> w_nodes w !! pk_to p = Some e -> pk_msg p = VoteResp t g ->
  stays_safe (mkWorld (<[pk_to p := (handle_vote_resp_ e t g).1]> (w_nodes w))
    (delete i (w_net w) ++ packets (pk_to p) None (handle_vote_resp_ e t g).2)).
Proof.
  intros Hi He Hm. pose proof Hinv as []. pose proof (inv_nodes0 _ _ He) as Hn.
  pose proof (Forall_lookup_1 _ _ _ _ inv_net0 Hi) as Hpk. unfold packet_ok in Hpk. rewrite Hm in Hpk.
  destruct Hpk as [HtK Hg].
  set (deliv' := if g then (pk_to p, t, pk_from p) :: deliv else deliv).
  assert (Hsub : toks (delete i (w_net w)) ++ deliv' ⊆+ toks (w_net w) ++ deliv).
  { apply (delete_sub i p); [done|]. unfold tok. rewrite Hm. by destruct g. }
  assert (Hdv : forall c t v, (c, t, v) ∈ deliv' -> voted hist c t v).
  { intros c' t' v. subst deliv'. destruct g; [|auto]. intros [[= -> -> ->]|]%elem_of_cons; auto. }
  destruct (tokens_sub (w_nodes w) (pk_to p) e e (toks (w_net w) ++ deliv) (toks (delete i (w_net w)) ++ deliv'))
    as [Hnd Htok]; try done. rewrite insert_id in Htok by done.
  destruct (vote_resp_inv K hist (pk_to p) deliv e t g (pk_from p)) as (Hn' & Hp & Hps & Hts); try done.
  { by apply NoDup_app in Hnd as (_ & _ & ?). }
  { apply Forall_app in Htok as [_ Htok]. rewrite Forall_forall in Htok. apply Forall_forall.
    intros v Hv%voters_in. destruct (Htok _ Hv) as (? & ? & _). auto. }
  exists hist, deliv'. eapply Inv_update; try done.
  - intros t' c'. by apply inv_hist0.
  - intros c' t'. subst deliv'. destruct g; [apply voters_mono|done].
  - by apply node_inv_later.
  - by rewrite Hp.
  - eapply net_ok_mono; [..|apply Forall_app; split; [by apply Forall_delete|done]]; [lia|done].
  - rewrite toks_app, Hts, app_nil_r. done.
  - rewrite toks_app, Hts, app_nil_r. eapply Forall_impl; [exact Htok|]. intros k. eapply tok_ok_update; [done|by rewrite Hp].
Qed.


Lemma sent_none ps : ps = [] -> sent_ok K hist ps.
Proof. by intros ->. Qed.

Lemma delete_toks_sub i : toks (delete i (w_net w)) ⊆+ toks (w_net w).
Proof.
  destruct (w_net w !! i) as [p|] eqn:Hi.
  - rewrite (delete_toks _ _ _ Hi). by apply submseteq_inserts_l.
  - rewrite delete_take_drop. apply lookup_ge_None in Hi. rewrite take_ge, drop_ge, app_nil_r by lia. done.
Qed.

Lemma heartbeat_step i p e t from :
  w_net w !! i = Some p -> w_nodes w !! pk_to p = Some e -> pk_msg p = Heartbeat t from ->
  stays_safe (mkWorld (<[pk_to p := (handle_heartbeat_ e t from).1]> (w_nodes w))
    (delete i (w_net w) ++ packets (pk_to p) None (handle_heartbeat_ e t from).2)).
Proof.
  intros Hi He Hm. pose proof Hinv as []. pose proof (inv_nodes0 _ _ He) as Hn.
  pose proof (Forall_lookup_1 _ _ _ _ inv_net0 Hi) as Hpk. unfold packet_ok in Hpk. rewrite Hm in Hpk.
  destruct Hpk as [Hel HtK].
  destruct (heartbeat_inv K hist deliv (pk_to p) ltac:(lia) e t from Hn Hel HtK) as (Hn' & Hp & Hps).
  exists hist, deliv. eapply Inv_quiet; try done; [by apply Forall_delete|apply delete_toks_sub|].
  apply sent_none. induction Hps as [|f fs Hf _ IH]; [done|]. simpl. by rewrite Hf.
Qed.

Lemma step_inv a w' : step w a = Some w' -> stays_safe w'.
Proof.
  destruct a as [n lsn|i lsn|i|n]; [apply timeout_step|..]; cbn [step].
  - intros (p & Hi & (e & He & Hw)%bind_Some)%bind_Some. unfold reply_to, process_msg_ in Hw.
    destruct (pk_msg p) as [t from|t from l|t g] eqn:Hm.
    + pose proof (heartbeat_step i p e t from Hi He Hm) as Hs. destruct (handle_heartbeat_ e t from). by simplify_eq.
    + pose proof (vote_req_step i p e lsn t from l Hi He Hm) as Hs. destruct (handle_vote_req_ e lsn t from l). by simplify_eq.
    + pose proof (vote_resp_step i p e t g Hi He Hm) as Hs. destruct (handle_vote_resp_ e t g). by simplify_eq.
  - intros (p & Hi & Hw)%bind_Some. simplify_eq. exists hist, deliv. destruct Hinv.
    pose proof (submseteq_skips_r deliv _ _ (delete_toks_sub i)) as [R HR]%submseteq_Permutation.
    rewrite HR in inv_nodup0, inv_toks0. apply NoDup_app in inv_nodup0 as [? _]. apply Forall_app in inv_toks0 as [? _].
    split; try done; cbn [w_nodes w_net].
    + intros n e He. by apply node_inv_later, inv_nodes0.
    + eapply net_ok_mono; [..|by apply Forall_delete]; [lia|done].
  - intros (e & He & Hw)%bind_Some. simplify_eq. exists hist, deliv.
    destruct (restart_inv K hist deliv n e) as [Hn Hp]; [by apply (inv_nodes _ _ _ _ Hinv)|].
    rewrite <- (app_nil_r (w_net w)). eapply Inv_quiet; try done; [by rewrite Hp|apply Hinv].
Qed.

End Step.


(** ** Runs *)

Lemma boot_inv : Inv 0 (boot (fun _ => false) addrs) ∅ [].
Proof.
  split; cbn [w_nodes w_net boot toks flat_map app]; [| |by constructor|done| |by constructor|by constructor].
  - intros n e He. apply elem_of_list_to_map_2, list_elem_of_fmap in He as (h & Hh & Hin). simplify_eq.
    assert (Hsize : el_cluster_size (new_manager (config_of h) None) = zlen addrs).
    { cbn. destruct Hok. rewrite wrap_id by (unfold in_u; lia). destruct (_ =? 0) eqn:E; lia. }
    by split.
  - intros n Hn. apply not_eq_None_Some. intros Hnone%not_elem_of_list_to_map. apply Hnone.
    rewrite <- list_fmap_compose. apply list_elem_of_fmap. by exists n.
  - by intros c t v ?%not_elem_of_nil.
Qed.

Lemma run_inv acts : forall K w hist deliv w',
  Inv K w hist deliv -> 0 <= K -> K + zlen acts < 2 ^ 64 -> run w acts = Some w' ->
  exists hist' deliv', Inv (K + zlen acts) w' hist' deliv'.
Proof.
  induction acts as [|a acts IH]; intros K w hist deliv w' Hinv HK Hlen Hrun; cbn [run] in Hrun.
  { simplify_eq. rewrite Z.add_0_r. eauto. }
  rewrite zlen_cons in Hlen. pose proof (zlen_nonneg acts). apply bind_Some in Hrun as (w1 & Hstep & Hrun).
  destruct (step_inv K w hist deliv ltac:(lia) Hinv a w1 Hstep) as (hist1 & deliv1 & Hinv1).
  rewrite zlen_cons, Z.add_assoc. apply (IH _ _ _ _ _ Hinv1); [lia..|done].
Qed.

Lemma leader_elected w hist deliv K n t : Inv K w hist deliv -> is_leader_of w n t = true -> elected hist n t.
Proof.
  intros Hinv. unfold is_leader_of. destruct (w_nodes w !! n) as [e|] eqn:He; [|done].
  rewrite andb_true_iff, bool_decide_eq_true, Z.eqb_eq. intros [Hr <-].
  by apply (ni_leader K hist deliv n e (inv_nodes _ _ _ _ Hinv _ _ He)).
Qed.


End Safety.

(** C21. Election safety: in a cluster with an odd number of nodes, none of them configured as
    leader, after any sequence of timeouts, deliveries, losses of packets and restarts from the
    state files, two leaders of the same term are the same node. *)
Theorem election_safety addrs acts w term n m :
  cluster_ok addrs -> Z.odd (zlen addrs) = true -> zlen acts < 2 ^ 64 ->
  run (boot (fun _ => false) addrs) acts = Some w ->
  is_leader_of w n term = true -> is_leader_of w m term = true -> n = m.
Proof.
  intros Hok Hodd Hlen Hrun Hn Hm.
  destruct (run_inv addrs Hok Hodd acts 0 _ _ _ w (boot_inv addrs Hok)) as (hist & deliv & Hinv); [lia..|done|].
  eapply (elected_unique addrs Hok Hodd); by eapply leader_elected.
Qed.

Definition three_nodes : list string := ["a:4433"; "b:4433"; "c:4433"]%string.

Lemma three_nodes_ok : cluster_ok three_nodes.
Proof.
  split; [|repeat constructor; done|done].
  apply (bool_decide_eq_true_1 (NoDup (map parse_host three_nodes))). vm_compute. done.
Qed.

(** [a] is elected with the vote of [b]; [b] then restarts and asks for votes in the next term. *)
Definition three_nodes_run : list Action :=
  [Timeout "a" 5; Deliver 0 5; Deliver 1 5; Restart "b"; Timeout "b" 5].

Lemma election_safety_witness :
  exists w, run (boot (fun _ => false) three_nodes) three_nodes_run = Some w /\
    is_leader_of w "a" 1 = true /\ (forall m, is_leader_of w m 1 = true -> "a"%string = m).
Proof.
  eexists. split; [vm_compute; reflexivity|]. split; [vm_compute; reflexivity|].
  intros m Hm. eapply (election_safety three_nodes three_nodes_run _ 1 "a" m three_nodes_ok);
    [reflexivity|reflexivity|vm_compute; reflexivity|vm_compute; reflexivity|exact Hm].
Defined.
