(* ===== verification/ClusterRuns.v ===== *)
(** * What the deployed code makes of the election protocol

    Three things that the deployed code does to the protocol of Cluster: the threshold of votes
    in a cluster of even size is one half, a configured leader takes a term without votes, and
    the frame of a vote response does not carry what its reader expects, so that no vote
    arrives. *)

From S2P Require Import Prelude Types Wire Wal Election Cluster.

(** ** Half of the votes *)

Definition two_nodes : list string := ["a:4433"; "b:4433"]%string.

(** In a cluster of even size one half of the votes is enough, and two nodes that cannot
    reach each other are both leader of term 1. *)
Theorem even_cluster_splits :
  (forall e k, el_cluster_size e = 2 * k -> 0 < k < 2 ^ 31 -> 2 * majority e = el_cluster_size e) /\
  (exists acts w, run (boot (fun _ => false) two_nodes) acts = Some w /\
     is_leader_of w "a" 1 = true /\ is_leader_of w "b" 1 = true).
Proof.
  split.
  - intros e k Hs Hk. unfold majority. rewrite Hs, wrap_id by (unfold in_u; lia).
    rewrite Z.add_comm, (Z.mul_comm 2 k), Z.div_add by lia. change (1 / 2) with 0. lia.
  - exists [Timeout "a" 0; Timeout "b" 0]. eexists. split_and!; vm_compute; reflexivity.
Qed.

(** ** A configured leader *)

Definition configured (h : string) : bool := bool_decide (h = "a"%string).

(** A node that is configured as leader is leader of term 1 without a vote: when another
    node times out before a heartbeat arrives, a majority elects it in the same term. *)
Theorem configured_leader_splits :
  cluster_ok three_nodes /\
  exists acts w, run (boot configured three_nodes) acts = Some w /\
    is_leader_of w "a" 1 = true /\ is_leader_of w "b" 1 = true.
Proof.
  split; [apply three_nodes_ok|]. exists [Timeout "b" 0; Deliver 1 0; Deliver 1 0]. eexists.
  split_and!; vm_compute; reflexivity.
Qed.

(** ** The frames between the nodes *)

(** The message that the receiver reads from the frame that the sender writes. *)
Definition over_wire (m : Msg) : option Msg :=
  match m with
  | Heartbeat term from => heartbeat_of (heartbeat_payload term from)
  | VoteReq term from lsn => vote_req_of (vote_req_payload term from lsn)
  | VoteResp _ granted => vote_resp_of (vote_resp_payload granted)
  end.

(** A step in which the packet is delivered as the message its frame is read as; a frame that is
    not read is lost. *)
Definition step_wire (w : World) (a : Action) : option World :=
  match a with
  | Deliver i lsn =>
      p ← w_net w !! i;
      match over_wire (pk_msg p) with
      | Some m => step (mkWorld (w_nodes w) (<[i := mkPacket (pk_from p) (pk_to p) m]> (w_net w))) a
      | None => step w (Drop i)
      end
  | _ => step w a
  end.

Fixpoint run_wire (w : World) (acts : list Action) : option World :=
  match acts with
  | [] => Some w
  | a :: acts => w' ← step_wire w a; run_wire w' acts
  end.

(** The name and the numbers of a message fit their fields. *)
Definition msg_fits (m : Msg) : Prop :=
  match m with
  | Heartbeat term from => in_u 64 term /\ in_u 16 (strlen from)
  | VoteReq term from lsn => in_u 64 term /\ in_u 64 lsn /\ in_u 16 (strlen from)
  | VoteResp term _ => in_u 64 term
  end.

(** C35. The frames between the nodes: a heartbeat and a vote request whose name and numbers fit their
    fields are read as they were sent; the frame of a vote response, one byte where its reader wants
    nine, is never read. *)
Theorem frames_roundtrip m : msg_fits m ->
  over_wire m = match m with VoteResp _ _ => None | _ => Some m end.
Proof.
  destruct m; cbn [msg_fits over_wire]; intros; [apply heartbeat_frame|apply vote_req_frame|done]; tauto.
Qed.

Lemma frames_roundtrip_witness : over_wire (VoteReq 7 "node-1" 4711) = Some (VoteReq 7 "node-1" 4711).
Proof. apply (frames_roundtrip (VoteReq 7 "node-1" 4711)). vm_compute. intuition discriminate. Defined.

(** ** No votes, no leader *)

Section NoVotes.
Context (addrs : list string) (Hok : cluster_ok addrs) (Hsize : 3 <= zlen addrs).

Definition never_leads (e : Election) : Prop :=
  el_role e <> Leader /\ configured_leader (el_config e) = false /\ el_cluster_size e = zlen addrs /\
  peer_addrs (el_config e) = addrs.

Definition all_never_lead (w : World) : Prop := forall n e, w_nodes w !! n = Some e -> never_leads e.

Lemma never_leads_step w n e' net : all_never_lead w -> never_leads e' ->
  all_never_lead (mkWorld (<[n := e']> (w_nodes w)) net).
Proof.
  intros Hw He m em. cbn [w_nodes]. destruct (decide (m = n)) as [->|].
  - rewrite lookup_insert_eq. by intros [= <-].
  - rewrite lookup_insert_ne by done. apply Hw.
Qed.

Lemma timeout_never e lsn : never_leads e -> never_leads (on_timeout e lsn).1.
Proof.
  intros (Hr & Hc & Hs & Hp). unfold on_timeout.
  assert (Hel : never_leads (start_election_ e lsn).1).
  { unfold start_election_. set (e1 := persist_state_ _ _ _).
    assert (2 <= majority e1).
    { change (majority e1) with (majority e). rewrite (majority_of addrs Hok) by done.
      apply Z.div_le_lower_bound; lia. }
    destruct (Z.leb_spec (majority e1) 1); [lia|]. done. }
  by destruct (el_role e).
Qed.

Lemma heartbeat_never e t from : never_leads e -> never_leads (handle_heartbeat_ e t from).1.
Proof.
  intros (Hr & Hc & Hs & Hp). unfold handle_heartbeat_. destruct (_ <? el_term e); [done|].
  destruct (_ <? t); [by destruct (t >? 0)|]. by destruct (el_role e).
Qed.

Lemma vote_req_never e my t from lsn : never_leads e -> never_leads (handle_vote_req_ e my t from lsn).1.
Proof.
  intros (Hr & Hc & Hs & Hp). unfold handle_vote_req_. destruct (_ <? t); cbn [fst].
  - by destruct (_ && _).
  - by destruct (_ && _).
Qed.

Lemma restart_never e file : never_leads e -> never_leads (start (new_manager (el_config e) file)).
Proof.
  intros (Hr & Hc & Hs & Hp). unfold start.
  assert (Hcs : el_cluster_size (new_manager (el_config e) file) = zlen addrs).
  { cbn. rewrite Hp. destruct Hok. rewrite wrap_id by (unfold in_u; lia). destruct (_ =? 0) eqn:E; lia. }
  assert (Hl : never_leads (load_state_ (new_manager (el_config e) file))).
  { unfold load_state_. destruct (el_file _) as [f|]; [destruct (_ <? 10)|]; done. }
  destruct Hl as (? & Hcl & ?). by rewrite Hcl.
Qed.

Lemma step_wire_never w a w' : all_never_lead w -> step_wire w a = Some w' -> all_never_lead w'.
Proof.
  intros Hw. destruct a as [n lsn|i lsn|i|n]; cbn [step_wire step].
  - intros (e & He & H)%bind_Some. pose proof (timeout_never e lsn (Hw _ _ He)).
    destruct (on_timeout e lsn). simplify_eq. by apply never_leads_step.
  - intros (p & Hi & H)%bind_Some. destruct (over_wire (pk_msg p)) as [m|] eqn:Hm.
    + apply lookup_lt_Some in Hi. cbn [w_net] in H. rewrite list_lookup_insert_eq in H by done. cbn [mbind option_bind pk_to pk_msg w_nodes] in H.
      apply bind_Some in H as (e & He & H).
      assert (Hn : never_leads (process_msg_ e lsn m).1).
      { destruct m; cbn [process_msg_]; [apply heartbeat_never|apply vote_req_never|]; [by eapply Hw..|].
        destruct (pk_msg p); cbn [over_wire] in Hm; [..|done].
        - unfold heartbeat_of in Hm. by destruct (_ <? 8).
        - unfold vote_req_of in Hm. by repeat destruct (_ <? _). }
      destruct (process_msg_ e lsn m). simplify_eq. by apply (never_leads_step (mkWorld (w_nodes w) (w_net w))).
    + apply bind_Some in H as (_ & _ & H). by simplify_eq.
  - intros (p & Hi & H)%bind_Some. by simplify_eq.
  - intros (e & He & H)%bind_Some. simplify_eq. apply never_leads_step; [done|]. apply restart_never. by eapply Hw.
Qed.

End NoVotes.

(** C34. Over the frames that the code sends, a cluster of three or more nodes that has no
    configured leader never has a leader. *)
Theorem no_leader_over_wire addrs acts w n term :
  cluster_ok addrs -> 3 <= zlen addrs ->
  run_wire (boot (fun _ => false) addrs) acts = Some w -> is_leader_of w n term = false.
Proof.
  intros Hok Hsize.
  assert (Hboot : all_never_lead addrs (boot (fun _ => false) addrs)).
  { intros m e Hm. pose proof (inv_nodes _ _ _ _ _ (boot_inv addrs Hok) _ _ Hm) as [].
    cbn [w_nodes boot] in Hm. apply elem_of_list_to_map_2, list_elem_of_fmap in Hm as (h & Hh & _). by simplify_eq. }
  revert Hboot. generalize (boot (fun _ => false) addrs). induction acts as [|a acts IH]; intros w0 H0; cbn [run_wire].
  - intros [= ->]. unfold is_leader_of. destruct (w_nodes w !! n) as [e|] eqn:He; [|done].
    destruct (H0 _ _ He) as [Hr _]. by rewrite bool_decide_eq_false_2.
  - intros (w1 & Hs & Hr)%bind_Some. apply (IH w1); [|done]. by eapply step_wire_never.
Qed.

Lemma no_leader_over_wire_witness :
  exists w, run_wire (boot (fun _ => false) three_nodes) three_nodes_run = Some w /\ is_leader_of w "a" 1 = false.
Proof.
  eexists. split; [vm_compute; reflexivity|].
  apply (no_leader_over_wire three_nodes three_nodes_run); [apply three_nodes_ok|by vm_compute|vm_compute; reflexivity].
Defined.
